(* ===== verification/_CoqProject ===== *)
-Q . S2P
Prelude.v
Location.v
Errors.v
Overlap.v
Backend.v
Memory.v
Publication.v
PublicationSafety.v
WorkDir.v
PublicationLive.v
PublicationExamples.v
BTree.v
Schema.v
SchemaProofs.v
RepairPlan.v
Deps.v
DepsProofs.v
RepairExec.v
RepairExecProofs.v
Inventory.v
Rules.v
Planning.v
PlanningProofs.v
PlanningGate.v
Verify.v
Execute.v
ExecuteExamples.v
Journal.v
Batch.v
Executor.v
ExecutorProofs.v
Scheduler.v
BatchRun.v
Run.v
BatchExamples.v
JobStore.v
JobStoreProofs.v
AuthStore.v
Application.v
Server.v
Service.v
ServerExamples.v
Config.v
BatchPlanning.v
Lock.v
BatchVerify.v
Commands.v
ConfigExamples.v
ParquetFooter.v
RemoteInventory.v
LocalFs.v
LocalBackend.v
LocalDurability.v
ScanTypes.v
ScanInfer.v
ScanRules.v
ScanEngine.v
ScanProofs.v
ScanRuleProofs.v
ScanStore.v
ScanStoreProofs.v
ScanCodec.v
ScanExamples.v
TypeUnify.v
RustNum.v
StreamColumns.v
StreamColumnsProofs.v
StreamFs.v
StreamState.v
StreamPipeline.v
StreamResume.v
StreamPhases.v
StreamConcurrent.v
StreamExamples.v
TransformFilter.v
TransformOps.v
TransformFiles.v
TransformFilesProofs.v
TransformPlan.v
TransformExamples.v
