(* ===== verification/Prelude.v ===== *)
(** * PARQONAUT: scanning, repairing, converting and publishing Parquet datasets

    PARQONAUT scans datasets of Parquet files, plans repairs, executes them into
    a new location, verifies the result and publishes it, for one dataset
    (crates parqonaut-repair and parqonaut-storage) or for a batch of datasets
    with a durable journal (parqonaut-orchestrator).  A scanner with a rule engine
    and a store of scan runs (paraclete-core, paraclete-rules, paraclete-store),
    an HTTP service with a durable job queue (paraclete-service, parqonaut-app)
    a streaming converter for CSV and Parquet (parqonaut-stream,
    parqonaut-columnar) and a transform engine for Parquet files
    (parqonaut-transform) complete it.  This library models these crates and proves
    what makes them correct.  File names below are relative to src/crates.

    ** How the parts interact

    A batch run ([Commands], [Run], [BatchRun]) is started from a configuration
    ([Config], [BatchPlanning]) under a lock on its output ([Lock]), checks its
    plan against the journal, recovers what an interrupted run left, selects the
    datasets to execute and hands one task per dataset to a bounded scheduler
    ([Scheduler]).  A task ([Executor]) retries the repair of its dataset and
    records each step in the journal ([Journal]).  A repair executes a plan
    ([Planning], [Deps], [RepairExec], [Execute]) and, for remote outputs,
    publishes the work directory through a publication session ([Publication],
    [WorkDir]) on a storage backend ([Backend], implemented by [Memory] and
    [LocalBackend]).  Plans start from a scan ([ScanEngine]), whose reports the
    store keeps ([ScanStore]).  The service ([Server], [Service]) authenticates
    requests ([AuthStore]), checks locations against the server's policy
    ([Application]) and runs jobs of the queue ([JobStore]) in workers.  The
    converter ([StreamPipeline], [StreamConcurrent]) unifies the schemas of its
    inputs ([TypeUnify]), aligns every batch ([StreamColumns]) and, with a state
    file ([StreamState]), can be stopped and resumed.  The transform engine
    compiles a specification into segments ([TransformPlan]), whose rewrites run
    batches through a pipeline of column operations ([TransformOps]) and filters
    ([TransformFilter]) and whose outputs are written, merged, split or
    partitioned as files ([TransformFiles]) or objects.

    ** Files

    A component's definitions and their lemmas share a file where that stays
    readable; longer proofs have a file [...Proofs], instances and concrete runs
    a file [...Examples].

    - [Prelude]: results with errors, [str] methods, machine integers, tactics.
      [BTree]: ordered maps and sorting as the standard library does them.
      [RustNum]: numbers as text, lossy decoding of UTF-8.
    - [Location], [Errors], [Overlap]: error types, locations and their
      normalisation, redaction (parqonaut-storage/src/{error,location,redact}.rs),
      the errors of repair and orchestrator and the life cycle of a dataset
      (parqonaut-orchestrator/src/state.rs), path overlap (overlap.rs and the
      overlap tests of parqonaut-repair/src/execute_storage.rs).
    - [Backend], [Memory]: parqonaut-storage/src/{backend,capabilities,
      conditional,metadata,metrics,memory}.rs.  The trait is a class; clients are
      programs ([prog]) over its calls, run alone or interleaved.  [Memory] also has
      the streams of an object (stream.rs, [Memory.Streams]), the backend that
      refuses everything (noop.rs, [Memory.Noop]) and the fault injector (chaos.rs,
      [Memory.Chaos]): it keeps the laws of the backend it wraps, its faults follow
      from the order of the calls, and a failed part stops an upload there.
    - [LocalFs], [LocalBackend], [LocalDurability]: local.rs of
      parqonaut-storage/src on a file system tree whose calls may fail.
    - [ParquetFooter], [RemoteInventory]: parquet_range.rs, inventory.rs,
      fingerprint.rs and contract.rs of parqonaut-storage/src.
    - [Publication], [PublicationSafety], [WorkDir], [PublicationLive],
      [PublicationExamples]: parqonaut-storage/src/{publication,locking}.rs and
      [publish_work_dir] of parqonaut-repair/src/execute_storage.rs.
    - [Schema], [SchemaProofs]: parqonaut-columnar/src/schema/compatibility.rs
      and parqonaut-repair/src/{schema/*,schema_policy,policy}.rs.
    - [RepairPlan], [Deps], [DepsProofs]: plans, safety classes, authorization
      and the ordering of operations (plan.rs, action.rs, safety.rs,
      authorization.rs, deps.rs of parqonaut-repair/src).
    - [Inventory], [Rules], [Planning], [PlanningProofs], [PlanningGate]:
      inventory.rs, diagnose.rs, rules.rs, schema_rules.rs, plan.rs,
      fingerprint.rs, check.rs, plan_diff.rs, plan_canonical.rs and fmt.rs of
      parqonaut-repair/src.
    - [RepairExec], [RepairExecProofs], [Verify], [Execute], [ExecuteExamples]:
      execute.rs, execute_storage.rs, manifest.rs, verify.rs of
      parqonaut-repair/src.
    - [Journal], [Batch], [Executor], [ExecutorProofs], [Scheduler], [BatchRun],
      [Run], [BatchExamples]: journal/, plan.rs, auth.rs, executor/mod.rs,
      scheduler/mod.rs, run.rs, report.rs of parqonaut-orchestrator/src.
    - [Config], [BatchPlanning], [Lock], [BatchVerify], [Commands],
      [ConfigExamples]: config.rs, location.rs, paths.rs, plan.rs, check.rs,
      storage.rs, lock.rs, verify.rs and the commands of run.rs of
      parqonaut-orchestrator/src.
    - [JobStore], [JobStoreProofs], [AuthStore]: the job queue and the bearer
      tokens of paraclete-store/src.
    - [Application], [Server], [Service], [ServerExamples]: parqonaut-app/src
      (errors, location policy, use cases) and paraclete-service/src (routes,
      authentication, job views, worker).
    - [ScanTypes], [ScanInfer], [ScanRules], [ScanEngine], [ScanProofs],
      [ScanRuleProofs]: the report types of paraclete-types/src, inspection,
      inference, built-in rules and the engine of paraclete-core/src and
      paraclete-rules/src; [ScanProofs.Remote]: the scan of a remote dataset
      (storage_scan.rs of parqonaut-repair/src), whose report is always valid, which
      changes no object and whose inspections by range requests are those of the
      whole files.  [ScanStore], [ScanStoreProofs], [ScanCodec],
      [ScanExamples]: stored scan runs of paraclete-store/src.
    - [TypeUnify]: parqonaut-columnar/src/schema/{kind,unify,unified}.rs.
      [StreamColumns], [StreamColumnsProofs]: csv_in.rs, coercion.rs,
      writer_csv.rs of parqonaut-stream/src.  [StreamFs]: a file system with
      programs that may stop at any call.  [StreamState], [StreamPipeline]:
      state.rs, discover.rs, cli.rs, schema_introspect.rs, pipeline.rs.
      [StreamResume], [StreamPhases]: what stopped and resumed runs leave behind.
      [StreamConcurrent]: the readers, channel and writer of pipeline.rs, and the
      same tasks between local files and object storage (storage_convert.rs).
      [StreamExamples].
    - [TransformFilter]: error.rs, engine/filter.rs and engine/compat.rs of
      parqonaut-transform/src, the filter language.  [TransformOps]: the column
      operations and the pipeline (engine/{transforms,cast,schema,pipeline}.rs).
      [TransformFiles], [TransformFilesProofs]: output/writer.rs and
      engine/{merge,rename,cast,partition}.rs on a disk whose calls may fail.
      [TransformPlan]: specifications, plans and their execution (spec/*.rs,
      lib.rs, cli/commands.rs), and the same on storage (columnar_io.rs,
      remote.rs, storage_routing.rs with parqonaut-storage/src/columnar).
      [TransformExamples].

    ** Modelling

    A [Result] is the sum of that name, [?] its bind.  [u32] and [u64] values are
    integers with their wrap-around or saturation written out where the source
    computes with them.  A state-changing operation returns its result with the
    new state; operations that may panic or loop return an [option], [None]
    being the panic or running out of fuel ([StreamColumns.Fault] names the panic
    where it is observable).  Concurrent code is a program over
    atomic calls ([Backend.prog], [Executor.task]) whose interleavings are the
    steps of a relation ([PublicationSafety.sys_step], [Scheduler.sched_step],
    [BatchRun.batch_step], [Lock.lock_step], [StreamConcurrent.conversion_step]).
    Code that may be killed is a program over single file system calls
    ([LocalFs], [StreamFs.fprog]) with the disks it may leave behind.  SQL tables
    are lists of rows and each statement a function on them.

    Code that is not in the repository is a parameter: the url crate
    ([Location.UrlParser], [Location.RedactUrl], [ScanStore.UrlText]), serde_json
    ([Publication.Json], [Inventory.Serde], [Batch.BatchJson],
    [Commands.RunFormats], [ScanStore.ReportSerde], [StreamState.StateJson]), toml
    ([Planning.Toml], [Config.ConfigFormats]), SHA-256 ([RepairPlan.Digests]),
    chrono ([Journal.Rfc3339], [JobStore.OrderedRfc3339]), random ids
    ([JobStore.Uuids], [ScanRules.UuidSupply]), the Parquet reader
    ([Inventory.ParquetFiles], [ScanTypes.ParquetCrate],
    [StreamPipeline.ParquetIo]) and writers ([RepairExec.RepairFs]), the arrow and
    csv crates ([StreamColumns.ArrowCrate], [StreamColumns.CsvCrate],
    [TransformFilter.ArrowKernels]), the Parquet files of the transform engine
    ([TransformFiles.ParquetDisk]), the objects a conversion reads
    ([StreamConcurrent.StorageConvert.RemoteParquetFiles]), the order of a hash map
    ([TransformFiles.HashOrder]), serde on specifications
    ([TransformPlan.SpecFormats]), walkdir, glob and globwalk ([ScanEngine.ScanFs],
    [StreamPipeline.WalkCrates], [TransformPlan.PlanEnv], [TransformPlan.ExecEnv]),
    the fate of an abandoned upload ([TransformPlan.Uploads]), axum's router
    ([Server.AxumRouter]), the size of tokio's blocking pool (an argument of
    [StreamConcurrent.conversion_step]), the order in which
    SQL visits rows and compares text ([JobStore.ScanOrder], [ScanStore.Collation],
    [ScanStore.SqlDialect]), the file systems of the commands ([Config.ConfigFs],
    [Commands.WriteFs], [Application.ServerFs], [Execute.RunFs]), how a path is
    found on the local disk ([LocalBackend.Namespace]) and the world a
    dataset task calls ([Executor.DatasetWorld]).  What is assumed of them (a
    codec's round trip, for example) is a field of the class, and the example
    files give instances.  [Backend.StorageBackend] with its laws and
    [Journal.RunJournal] with its laws are interfaces inside the program: clients
    are proved against them, and the implementations discharge them.

    ** What is proved

    - Publication: in every store reachable by concurrent sessions that stop
      anywhere, CURRENT names a complete version, versions are immutable, locks
      exclude other runs, and on a backend that answers the publication of a
      work directory succeeds.
    - Batch runs (with a journal that accepts every write): a dataset task ends within its retry budget and leaves the
      record it reports; in every interleaving of tasks, scheduler, cancellation
      and panics the journal agrees with the reported outcomes and no other
      record changes; an uncancelled run deals with every dataset; the scheduler
      terminates and respects its bound; the journal returns what was written;
      resuming forgets no dataset; exit code 0 means every dataset succeeded; a
      run directory is resumed only with its own plan; locks exclude other runs.
    - Planning: plans are reproducible, do not depend on the order of the scan,
      never contain an automatic schema change, merge only small files of one
      schema; sorting by dependencies is sound and total on generated plans.
    - Execution: only permitted operations run, in order; refusals leave the
      files alone; what verification guarantees.
    - Schemas and locations: lossless conversions preserve values, canonical
      schemas, path normalisation, overlap checks.
    - Storage: conditional writes of the local backend do what they report when no
      system call fails, and a replace is atomic whichever ones do; a footer that is returned is the
      object's own; listings are complete.
    - Service: on SQLite the job table is well formed in every history and leases
      protect their holder (Postgres differs, see below); a worker settles its job, settled jobs stay settled; revoked tokens
      never authenticate; a protected handler is reached exactly by the requests that
      axum routes to it, that are authorized and whose verification the database
      answers.
    - Scanner: a scan always returns a valid report, independent of the order of
      the walk below the cap on files; datasets partition the files; each rule reports exactly what it
      describes; persisting a run is atomic and what is stored stays consistent.
    - Converter: a resumed conversion that reports success has produced the output
      of an uninterrupted one, wherever the one fresh run and the resumed ones
      before it were stopped, and an undisturbed resumed run does report success;
      the concurrent conversion neither loses, repeats nor reorders batches, and
      does not deadlock with fewer inputs than threads; unification is
      independent of the order of inputs; which batches align and what becomes of
      their rows; how CSV columns are read.
    - Transforms: a filter printed with the fewest parentheses is read back as
      itself, and it keeps exactly the rows for which it holds; a rewrite with
      projection, filter and renames keeps those rows, projected and renamed, for a
      batch and for a whole step on files; merging
      keeps the rows and their order and succeeds exactly on files of one schema;
      partitioning puts every row into the files of its key when the keys have
      files of their own, with a bounded number of files open at every call, and rows with one key agree on the partition columns; a plan
      has every step once; on storage, what a rewrite or merge leaves behind when
      it returns.
    - Where the code does not do what it means to, a theorem says what it does:
      [ExecuteExamples.merge_overwrites_existing_file],
      [PublicationExamples.retry_cannot_publish],
      [Execute.remote_verification_vacuous],
      [PlanningGate.repeated_scan_finding_unsortable],
      [PlanningGate.repair_section_ignored], [Verify.outcome_ignores_fingerprint],
      [SchemaProofs.physical_parse_never_unsigned],
      [SchemaProofs.nullability_hides_type_conflict],
      [Location.normalize_local_path_drops_parent],
      [Run.cancelled_dataset_not_resumed], [Run.cancelled_exit],
      [StreamExamples.restart_loses_rows],
      [StreamExamples.single_part_commit_lost],
      [StreamExamples.resume_accepts_other_na],
      [StreamExamples.column_selection_fails],
      [StreamExamples.unified_not_alignable],
      [StreamExamples.mixed_column_loses_booleans],
      [StreamConcurrent.failed_input_output_finished],
      [StreamConcurrent.many_inputs_deadlock], [BatchExamples.refused_record_unnoticed],
      [ServerExamples.postgres_recovery_takes_renewed_lease],
      [ServerExamples.postgres_recovery_exceeds_attempts],
      [LocalDurability.failed_create_leaves_object],
      [RemoteInventory.Contract.memory_contract],
      [TypeUnify.stringify_depends_on_order],
      [TransformPlan.later_rewrites_ignored], [TransformPlan.cli_rewrite_keeps_last],
      [TransformPlan.split_runs_alone], [TransformExamples.separator_loses_rows],
      [TransformExamples.failed_merge_published] and others in the example files.

    ** Fuel

    [Deps.kahn] gets one round per operation, each round removes one;
    [Executor.retry_loop] gets [ExecutorProofs.enough_fuel], one more than the
    attempts allowed, and every round uses an attempt.  That both suffice is part
    of the theorems ([sort_by_dependencies_sound], [dataset_execution_correct]).
    [StreamColumns.csv_batches] gets one round more than there are records, and
    each round takes one ([StreamColumnsProofs.csv_file_batches]);
    [StreamFs.ancestors] gets the length of the path.  The repetitions of the filter
    grammar get one round per character and each must read one;
    [TransformFilter.comparison] gets the length of the text, more than its nesting
    ([TransformFilter.filter_nesting_enough]); [TransformPlan.compile_loop] gets the
    number of steps, and each round takes one ([TransformPlan.loop_covers]);
    [Memory.Streams.read_to_end] gets a round per byte and one for the end;
    [PlanningGate.PlanCanonical.portable_loop] gets the length of the text, and each
    round removes a character.

    ** Not modelled

    The S3 backend of parqonaut-storage, a client of the AWS SDK; progress
    rendering; plugin discovery of the scanner; the bodies of most HTTP handlers,
    the OpenAPI description and observability; argument parsing, inspection and
    printing of the command line;
    types of parqonaut-transform that nothing uses (output/{atomic,partition,
    report}.rs, io/{local,resolve}.rs). *)

(** Shared vocabulary of the development: Rust's [Result] as a monad, the
    [str] methods the sources call, machine-width arithmetic, the tactics and
    hint databases used by every component file. *)

From stdpp Require Export base tactics strings gmap list pretty sorting.
From Stdlib Require Export ZArith Lia.
From Stdlib Require Import Ascii.

(** * Results *)

(** [Result<A, E>].  The error type comes first so that [Result E] is a monad
    and the sources' [?] operator is stdpp's [x ← e; k]. *)
Inductive Result (E A : Type) : Type :=
| Ok (a : A)
| Err (e : E).
Arguments Ok {_ _} _.
Arguments Err {_ _} _.

#[global] Instance Result_ret {E} : MRet (Result E) := fun _ a => Ok a.
#[global] Instance Result_bind {E} : MBind (Result E) := fun _ _ f m =>
  match m with Ok a => f a | Err e => Err e end.
#[global] Instance Result_fmap {E} : FMap (Result E) := fun _ _ f m =>
  match m with Ok a => Ok (f a) | Err e => Err e end.

(** [Result::map_err]. *)
Definition map_err {E E' A} (f : E -> E') (r : Result E A) : Result E' A :=
  match r with Ok a => Ok a | Err e => Err (f e) end.

(** [Result::ok]. *)
Definition result_ok {E A} (r : Result E A) : option A :=
  match r with Ok a => Some a | Err _ => None end.

(** [Option::ok_or]. *)
Definition ok_or {E A} (o : option A) (e : E) : Result E A :=
  match o with Some a => Ok a | None => Err e end.

Definition is_ok {E A} (r : Result E A) : bool :=
  match r with Ok _ => true | Err _ => false end.

(** [iter().map(f).collect::<Result<Vec<_>, _>>()]: the first error wins. *)
Fixpoint try_map {E A B} (f : A -> Result E B) (l : list A) : Result E (list B) :=
  match l with
  | [] => Ok []
  | a :: l => b ← f a; bs ← try_map f l; Ok (b :: bs)
  end.

(** A [for] loop whose body may return early with an error. *)
Fixpoint try_for {E A} (f : A -> Result E unit) (l : list A) : Result E unit :=
  match l with
  | [] => Ok tt
  | a :: l => _ ← f a; try_for f l
  end.

#[global] Instance Result_eq_dec {E A} `{EqDecision E, EqDecision A} : EqDecision (Result E A).
Proof. solve_decision. Defined.

(** * Strings *)

(** A Rust [str] is the string of its UTF-8 bytes; the methods below are used
    by the sources with ASCII needles only.  [trim] and [to_uppercase] treat
    the ASCII subset of Unicode white space and letters. *)

(** [str::starts_with] for a string needle. *)
Definition starts_with (p s : string) : bool := String.prefix p s.

(** [str::contains] for a string needle. *)
Fixpoint contains (needle s : string) : bool :=
  starts_with needle s ||
  match s with EmptyString => false | String _ s' => contains needle s' end.

(** Does the character occur? ([str::contains] for a [char].) *)
Fixpoint has_char (c : ascii) (s : string) : bool :=
  match s with
  | EmptyString => false
  | String d s' => bool_decide (c = d) || has_char c s'
  end.

(** [str::trim_start_matches] for a [char] predicate. *)
Fixpoint trim_start (f : ascii -> bool) (s : string) : string :=
  match s with
  | EmptyString => EmptyString
  | String d s' => if f d then trim_start f s' else s
  end.

(** [str::trim_end_matches] for a [char] predicate. *)
Fixpoint trim_end (f : ascii -> bool) (s : string) : string :=
  match s with
  | EmptyString => EmptyString
  | String d s' =>
      match trim_end f s' with
      | EmptyString => if f d then EmptyString else String d EmptyString
      | r => String d r
      end
  end.

Definition is_slash (c : ascii) : bool := bool_decide (c = "/"%char).

Definition trim_start_slash : string -> string := trim_start is_slash.
Definition trim_end_slash : string -> string := trim_end is_slash.

(** [str::trim]. *)
Definition trim (s : string) : string := trim_end Ascii.is_space (trim_start Ascii.is_space s).

(** [str::ends_with] for a [char]. *)
Fixpoint ends_with_char (c : ascii) (s : string) : bool :=
  match s with
  | EmptyString => false
  | String d EmptyString => bool_decide (c = d)
  | String _ s' => ends_with_char c s'
  end.

(** [str::split(char)]: the (non-empty) list of the pieces. *)
Fixpoint split_char (c : ascii) (s : string) : list string :=
  match s with
  | EmptyString => [EmptyString]
  | String d s' =>
      if bool_decide (c = d) then EmptyString :: split_char c s'
      else match split_char c s' with
           | [] => [String d EmptyString]
           | p :: ps => String d p :: ps
           end
  end.

(** [[String]::join(sep)]. *)
Fixpoint join_strings (sep : string) (l : list string) : string :=
  match l with
  | [] => EmptyString
  | [s] => s
  | s :: l => s +:+ sep +:+ join_strings sep l
  end.

(** [str::strip_prefix]. *)
Fixpoint strip_prefix (p s : string) : option string :=
  match p, s with
  | EmptyString, _ => Some s
  | String c p', String d s' => if bool_decide (c = d) then strip_prefix p' s' else None
  | String _ _, EmptyString => None
  end.

(** [str::split_once(char)]. *)
Fixpoint split_once (c : ascii) (s : string) : option (string * string) :=
  match s with
  | EmptyString => None
  | String d s' =>
      if bool_decide (c = d) then Some (EmptyString, s')
      else match split_once c s' with
           | Some (a, b) => Some (String d a, b)
           | None => None
           end
  end.

(** ASCII [str::to_uppercase]. *)
Definition upper_ascii (c : ascii) : ascii :=
  let n := Ascii.N_of_ascii c in
  if ((97 <=? n) && (n <=? 122))%N then Ascii.ascii_of_N (n - 32) else c.
Fixpoint to_uppercase (s : string) : string :=
  match s with
  | EmptyString => EmptyString
  | String c s' => String (upper_ascii c) (to_uppercase s')
  end.

(** * Machine integers *)

Definition u32_max : Z := 2 ^ 32 - 1.
Definition u64_max : Z := 2 ^ 64 - 1.

(** [saturating_add]/[saturating_sub] of an unsigned width with maximum [m]. *)
Definition saturating_add (m a b : Z) : Z := Z.min m (a + b).
Definition saturating_sub (a b : Z) : Z := Z.max 0 (a - b).

(** [checked_sub] on an unsigned type. *)
Definition checked_sub (a b : Z) : option Z :=
  if (b <=? a)%Z then Some (a - b)%Z else None.

(** [as] casts truncate to the target width. *)
Definition as_u32 (z : Z) : Z := z mod 2 ^ 32.
Definition wrap_u64 (z : Z) : Z := z mod 2 ^ 64.
(** Two's complement wrap-around of [i64]. *)
Definition wrap_i64 (z : Z) : Z := (z + 2 ^ 63) mod 2 ^ 64 - 2 ^ 63.

(** * Sorting *)

(** [sort_by]/[sort_by_key] are stable; so is insertion from the right. *)
Section Sort.
Context {A : Type} (leb : A -> A -> bool).

Fixpoint insert_by (x : A) (l : list A) : list A :=
  match l with
  | [] => [x]
  | y :: l' => if leb x y then x :: y :: l' else y :: insert_by x l'
  end.

Definition sort_by (l : list A) : list A := foldr insert_by [] l.

Lemma insert_by_perm x l : insert_by x l ≡ₚ x :: l.
Proof.
  induction l as [|y l IH]; simpl; [done|].
  destruct (leb x y); [done|]. rewrite IH. by rewrite Permutation_swap.
Qed.

Lemma sort_by_perm l : sort_by l ≡ₚ l.
Proof. induction l as [|x l IH]; simpl; [done|]. by rewrite insert_by_perm, IH. Qed.
End Sort.

(** * Tactics *)

(** Case analysis on every [match]/[if] scrutinee of the goal or a hypothesis. *)
Ltac split_match :=
  repeat (case_match || case_decide || case_bool_decide); simplify_eq/=.

(** Name-independent destruction of existential hypotheses and conjunctions. *)
Ltac break :=
  repeat match goal with
  | H : exists _, _ |- _ => destruct H
  | H : _ /\ _ |- _ => destruct H
  end.

(** * Generic lemmas *)

Create HintDb parq.
Create Rewrite HintDb parq.

Lemma bind_Ok {E A B} (m : Result E A) (f : A -> Result E B) b :
  (m ≫= f) = Ok b <-> exists a, m = Ok a /\ f a = Ok b.
Proof. destruct m; cbn; split; [eauto|by intros (? & [= <-] & ?)|done|by intros (? & ? & ?)]. Qed.

Lemma bind_Err {E A B} (m : Result E A) (f : A -> Result E B) e :
  (m ≫= f) = Err e <-> m = Err e \/ exists a, m = Ok a /\ f a = Err e.
Proof.
  destruct m; cbn; split; [intros; right; by eauto|by intros [?|(? & [= <-] & ?)]|intros [= ->]; by left|by intros [[= ->]|(? & ? & ?)]].
Qed.

Lemma try_map_Ok {E A B} (f : A -> Result E B) l bs :
  try_map f l = Ok bs <-> Forall2 (fun a b => f a = Ok b) l bs.
Proof.
  revert bs. induction l as [|a l IH]; intros bs; cbn [try_map].
  - split; [intros [= <-]; constructor | by inversion 1].
  - rewrite bind_Ok. split.
    + intros (b & Hb & Hrest). rewrite bind_Ok in Hrest.
      destruct Hrest as (bs' & Hbs & [= <-]). constructor; [done|]. by apply IH.
    + inversion 1; subst. eexists; split; [done|].
      rewrite bind_Ok. eexists; split; [by apply IH | done].
Qed.

Lemma try_for_Ok {E A} (f : A -> Result E unit) l :
  try_for f l = Ok tt <-> Forall (fun a => f a = Ok tt) l.
Proof.
  induction l as [|a l IH]; cbn [try_for]; [by rewrite Forall_nil|].
  rewrite Forall_cons, bind_Ok. setoid_rewrite IH. split.
  - by intros ([] & ? & ?).
  - by intros [? ?]; exists tt.
Qed.

(** The error of a failing loop is the one of its first failing iteration. *)
Lemma try_for_Err {E A} (f : A -> Result E unit) l e :
  try_for f l = Err e <->
  exists l1 a l2, l = l1 ++ a :: l2 /\ Forall (fun a => f a = Ok tt) l1 /\ f a = Err e.
Proof.
  induction l as [|a l IH]; cbn [try_for].
  - split; [done|]. intros ([|] & ? & ? & ? & ?); simplify_eq/=.
  - rewrite bind_Err. setoid_rewrite IH. split.
    + intros [He | ([] & Ha & l1 & b & l2 & -> & ? & ?)].
      * exists [], a, l. auto.
      * exists (a :: l1), b, l2. auto.
    + intros ([|a' l1] & b & l2 & Heq & Hl1 & Hb); simplify_eq/=; [auto|].
      inversion Hl1; subst. right. exists tt. naive_solver.
Qed.

Lemma app_cons_string c a b : String c a +:+ b = String c (a +:+ b).
Proof. done. Qed.

Lemma app_empty_string b : EmptyString +:+ b = b.
Proof. done. Qed.

(** Normalise concatenations one character at a time. *)
Ltac sapp := rewrite ?app_cons_string, ?app_empty_string in *.

Lemma app_assoc_string a b c : (a +:+ b) +:+ c = a +:+ b +:+ c.
Proof. induction a as [|x a IH]; sapp; [done|]. by rewrite IH. Qed.

Lemma app_nil_string a : a +:+ EmptyString = a.
Proof. induction a as [|x a IH]; sapp; [done|]. by rewrite IH. Qed.

Lemma strip_prefix_app p s : strip_prefix p (p +:+ s) = Some s.
Proof. induction p as [|c p IH]; sapp; cbn; [done|]. by rewrite bool_decide_eq_true_2. Qed.

Lemma strip_prefix_inv p s r : strip_prefix p s = Some r -> s = p +:+ r.
Proof.
  revert s. induction p as [|c p IH]; intros s; cbn; [intros [= ->]; by sapp|].
  destruct s as [|d s]; [done|]. case_bool_decide as E; [|done]. intros Hs. rewrite (IH _ Hs), E. by sapp.
Qed.

Lemma length_app_string a b : String.length (a +:+ b) = String.length a + String.length b.
Proof. induction a as [|c a IH]; sapp; cbn; [done|]. by rewrite IH. Qed.

Lemma starts_with_app p s : starts_with p (p +:+ s) = true.
Proof.
  unfold starts_with. induction p as [|c p IH]; [by destruct s|]. sapp. simpl.
  destruct (ascii_dec c c); [done | congruence].
Qed.

Lemma starts_with_spec p s : starts_with p s = true <-> exists r, s = p +:+ r.
Proof.
  split.
  - revert s. unfold starts_with. induction p as [|c p IH]; intros s; [by exists s|].
    destruct s as [|d s]; simpl; [done|]. destruct (ascii_dec c d) as [->|]; [|done].
    intros [r ->]%IH. by exists r.
  - intros [r ->]. apply starts_with_app.
Qed.

Lemma has_char_app c a b : has_char c (a +:+ b) = has_char c a || has_char c b.
Proof. induction a as [|x a IH]; sapp; cbn; [done|]. by rewrite IH, orb_assoc. Qed.

(** A separator that occurs in neither head splits a string uniquely. *)
Lemma sep_inj c a b x y :
  has_char c a = false -> has_char c b = false ->
  a +:+ String c x = b +:+ String c y -> a = b /\ x = y.
Proof.
  revert b. induction a as [|d a IH]; intros [|e b]; sapp; simpl; rewrite ?orb_false_iff.
  - naive_solver.
  - intros _ [He _] [= -> _]. by rewrite bool_decide_eq_true_2 in He.
  - intros [He _] _ [= -> _]. by rewrite bool_decide_eq_true_2 in He.
  - intros [_ Ha] [_ Hb] [= -> H]. by destruct (IH b) as [-> ->].
Qed.

Lemma trim_start_idem f s : trim_start f (trim_start f s) = trim_start f s.
Proof. induction s as [|d s IH]; cbn; [done|]. destruct (f d) eqn:E; cbn; [done|]. by rewrite E. Qed.

#[export] Hint Rewrite @bind_Ok @bind_Err @try_map_Ok @try_for_Ok : parq.
#[export] Hint Resolve starts_with_app sort_by_perm : parq.
