(* ===== verification/Location.v ===== *)
(** Dataset and object locations: parsing, normalisation, object keys, joining
    and overlap (src/crates/parqonaut-storage/src/location.rs,
    src/crates/parqonaut-orchestrator/src/location.rs, and the overlap tests of
    src/crates/parqonaut-repair/src/{execute_storage,fingerprint}.rs).

    The [url] crate is not part of the repository: [UrlParser] is a parameter
    of the definitions that call it. *)

From Stdlib Require Import Ascii.
From S2P Require Import Prelude.

(** Storage errors, their display form and their retry classification
    (src/crates/parqonaut-storage/src/error.rs). *)

Inductive RetryClass := NeverRetry | Retryable.

(** [Io] carries the display form of the wrapped [std::io::Error]. *)
Inductive StorageError :=
| NotFound (location : string)
| PermissionDenied (location : string)
| Authentication
| Conflict (message : string)
| PreconditionFailed (message : string)
| Transient (message : string)
| Unavailable (message : string)
| InvalidLocation (message : string)
| UnsupportedCapability (capability : string)
| Io (source : string)
| Other (message : string).

#[global] Instance StorageError_eq_dec : EqDecision StorageError.
Proof. solve_decision. Defined.

Definition retry_class (e : StorageError) : RetryClass :=
  match e with
  | Transient _ | Unavailable _ => Retryable
  | NotFound _ | PermissionDenied _ | Authentication | Conflict _ | PreconditionFailed _
  | InvalidLocation _ | UnsupportedCapability _ | Io _ | Other _ => NeverRetry
  end.

(** The [#[error(..)]] attributes. *)
Definition storage_error_display (e : StorageError) : string :=
  match e with
  | NotFound location => "object not found: " +:+ location
  | PermissionDenied location => "permission denied: " +:+ location
  | Authentication => "authentication failed"
  | Conflict message => "conflict: " +:+ message
  | PreconditionFailed message => "precondition failed: " +:+ message
  | Transient message => "transient storage error: " +:+ message
  | Unavailable message => "storage unavailable: " +:+ message
  | InvalidLocation message => "invalid location: " +:+ message
  | UnsupportedCapability capability => "unsupported capability: " +:+ capability
  | Io source => "io error: " +:+ source
  | Other message => "storage error: " +:+ message
  end.

(** * Paths (Unix [std::path] / [camino]) *)

Inductive Component := RootDir | CurDir | ParentDir | Normal (name : string).

#[global] Instance Component_eq_dec : EqDecision Component.
Proof. solve_decision. Defined.

Definition is_absolute (p : string) : bool := starts_with "/" p.

(** The component of one piece between slashes; empty pieces and [.] vanish. *)
Definition piece_component (s : string) : option Component :=
  if decide (s = EmptyString) then None
  else if decide (s = ".") then None
  else if decide (s = "..") then Some ParentDir
  else Some (Normal s).

(** [Path::components]: a leading [.] of a relative path is kept. *)
Definition components (p : string) : list Component :=
  let pieces := split_char "/"%char p in
  (if is_absolute p then [RootDir]
   else match pieces with
        | first :: _ => if decide (first = ".") then [CurDir] else []
        | [] => []
        end) ++ omap piece_component pieces.

(** [Path::join] / [PathBuf::push]. *)
Definition path_join (base p : string) : string :=
  if is_absolute p then p
  else if decide (base = EmptyString) then p
  else if ends_with_char "/"%char base then base +:+ p
  else base +:+ "/" +:+ p.

(** [Path::starts_with] compares whole components. *)
Definition path_starts_with (p base : string) : bool :=
  bool_decide (components base `prefix_of` components p).

(** The path text a [PathBuf] holds after pushing components one by one. *)
Definition component_text (c : Component) : string :=
  match c with RootDir => "/" | CurDir => "." | ParentDir => ".." | Normal s => s end.

Definition path_of_components (cs : list Component) : string :=
  foldl (fun out c => path_join out (component_text c)) EmptyString cs.

(** [PathBuf::pop] on a path built from components: the root is never popped. *)
Definition pop_component (out : list Component) : list Component :=
  match last out with
  | None | Some RootDir => out
  | Some _ => take (length out - 1) out
  end.

Definition normalize_step (out : list Component) (c : Component) : list Component :=
  match c with
  | RootDir => [RootDir]
  | CurDir => out
  | ParentDir => pop_component out
  | Normal n => out ++ [Normal n]
  end.

(** The loop of [normalize_local_path], on the components of [out]. *)
Definition normalize_components (cs : list Component) : list Component :=
  foldl normalize_step [] cs.

Definition normalize_local_path (p : string) : string :=
  path_of_components (normalize_components (components p)).

(** UTF-8 validity of a byte string ([Utf8PathBuf::from_path_buf]). *)
Definition in_range (lo hi b : N) : bool := ((lo <=? b) && (b <=? hi))%N.
Definition is_cont (b : N) : bool := in_range 128 191 b.

Fixpoint utf8_valid_bytes (fuel : nat) (bs : list N) : bool :=
  match fuel with
  | O => true
  | S fuel =>
      match bs with
      | [] => true
      | b :: r =>
          if (b <? 128)%N then utf8_valid_bytes fuel r
          else if in_range 194 223 b then
            match r with
            | c :: r => is_cont c && utf8_valid_bytes fuel r
            | _ => false
            end
          else if in_range 224 239 b then
            match r with
            | c :: d :: r =>
                (if (b =? 224)%N then in_range 160 191 c
                 else if (b =? 237)%N then in_range 128 159 c else is_cont c)
                && is_cont d && utf8_valid_bytes fuel r
            | _ => false
            end
          else if in_range 240 244 b then
            match r with
            | c :: d :: e :: r =>
                (if (b =? 240)%N then in_range 144 191 c
                 else if (b =? 244)%N then in_range 128 143 c else is_cont c)
                && is_cont d && is_cont e && utf8_valid_bytes fuel r
            | _ => false
            end
          else false
      end
  end.

(** One unit of fuel per byte: each recursive call consumes at least one. *)
Definition utf8_valid (s : string) : bool :=
  let bs := Ascii.N_of_ascii <$> String.list_ascii_of_string s in
  utf8_valid_bytes (length bs) bs.

(** * Locations *)

Record LocalLocation := mkLocal { path : string }.
Record S3Location := mkS3 { bucket : string; prefix : string }.

Inductive DatasetLocation := Local (l : LocalLocation) | S3 (s : S3Location).

Inductive ObjectLocation :=
| LocalObject (path : string)
| S3Object (bucket key : string).

#[global] Instance LocalLocation_eq_dec : EqDecision LocalLocation.
Proof. solve_decision. Defined.
#[global] Instance S3Location_eq_dec : EqDecision S3Location.
Proof. solve_decision. Defined.
#[global] Instance DatasetLocation_eq_dec : EqDecision DatasetLocation.
Proof. solve_decision. Defined.
#[global] Instance ObjectLocation_eq_dec : EqDecision ObjectLocation.
Proof. solve_decision. Defined.

(** What the sources read off a parsed [url::Url]. *)
Record Url := {
  scheme : string;
  username : string;
  password : option string;
  host_str : option string;
  url_path : string;
  to_file_path : option string;
}.

(** [url::Url::parse]; an error carries its display form. *)
Class UrlParser := url_parse : string -> Result string Url.

Definition s3_display_uri (s : S3Location) : string :=
  if decide (prefix s = EmptyString) then "s3://" +:+ bucket s +:+ "/"
  else "s3://" +:+ bucket s +:+ "/" +:+ prefix s.

Definition display_uri (loc : DatasetLocation) : string :=
  match loc with
  | Local l => "file://" +:+ path l
  | S3 s => s3_display_uri s
  end.

Definition backend_name (loc : DatasetLocation) : string :=
  match loc with Local _ => "local" | S3 _ => "s3" end.

Definition object_key (s : S3Location) (relative : string) : Result StorageError string :=
  let rel := trim_start_slash relative in
  if contains ".." rel then Err (InvalidLocation "object key must not contain '..'")
  else Ok (if decide (prefix s = EmptyString) then rel
           else if decide (rel = EmptyString) then prefix s
           else trim_end_slash (prefix s) +:+ "/" +:+ rel).

Definition object_display_uri (o : ObjectLocation) : string :=
  match o with
  | LocalObject p => "file://" +:+ p
  | S3Object b k => "s3://" +:+ b +:+ "/" +:+ k
  end.

Definition is_remote (o : ObjectLocation) : bool :=
  match o with S3Object _ _ => true | LocalObject _ => false end.

(** [publication::object_at]. *)
Definition object_at (dataset : DatasetLocation) (relative : string)
    : Result StorageError ObjectLocation :=
  match dataset with
  | Local l => Ok (LocalObject (path_join (path l) relative))
  | S3 s => key ← object_key s relative; Ok (S3Object (bucket s) key)
  end.

Section Parse.
Context `{UrlParser}.

Definition has_credentials (url : Url) : bool :=
  negb (bool_decide (username url = EmptyString)) || bool_decide (is_Some (password url)).

Definition parse_s3_dataset (input : string) : Result StorageError S3Location :=
  url ← map_err (fun e => InvalidLocation ("invalid S3 URI: " +:+ e)) (url_parse input);
  if negb (bool_decide (scheme url = "s3")) then
    Err (InvalidLocation ("expected s3:// URI, got " +:+ input))
  else if has_credentials url then
    Err (InvalidLocation "credentials must not be embedded in S3 URIs")
  else
    b ← ok_or (host_str url) (InvalidLocation "S3 URI missing bucket");
    Ok {| bucket := b; prefix := trim_end_slash (trim_start_slash (url_path url)) |}.

Definition utf8_path (p : string) : Result StorageError string :=
  if utf8_valid p then Ok p else Err (InvalidLocation "local path must be valid UTF-8").

Definition parse_local_dataset (input : string) : Result StorageError string :=
  p ← match url_parse input with
      | Ok url =>
          if decide (scheme url = "file") then
            ok_or (to_file_path url) (InvalidLocation ("invalid file URI: " +:+ input))
          else Err (InvalidLocation ("unsupported URI scheme for local dataset: " +:+ input))
      | Err _ => Ok input
      end;
  utf8_path (normalize_local_path p).

Definition parse (input : string) : Result StorageError DatasetLocation :=
  let trimmed := trim input in
  if decide (trimmed = EmptyString) then Err (InvalidLocation "location must not be empty")
  else if starts_with "s3://" trimmed then s ← parse_s3_dataset trimmed; Ok (S3 s)
  else p ← parse_local_dataset trimmed; Ok (Local {| path := p |}).

Definition parse_object (input : string) : Result StorageError ObjectLocation :=
  let trimmed := trim input in
  if decide (trimmed = EmptyString) then Err (InvalidLocation "object location must not be empty")
  else if starts_with "s3://" trimmed then
    url ← map_err (fun e => InvalidLocation ("invalid S3 object URI: " +:+ e)) (url_parse trimmed);
    if has_credentials url then
      Err (InvalidLocation "credentials must not be embedded in S3 URIs")
    else
      b ← ok_or (host_str url) (InvalidLocation "S3 object URI missing bucket");
      let key := trim_start_slash (url_path url) in
      if decide (key = EmptyString) then
        Err (InvalidLocation "S3 object URI must include an object key")
      else Ok (S3Object b key)
  else
    p ← match url_parse trimmed with
        | Ok url =>
            if decide (scheme url = "file") then
              ok_or (to_file_path url) (InvalidLocation ("invalid file URI: " +:+ trimmed))
            else Err (InvalidLocation ("unsupported URI scheme for object: " +:+ trimmed))
        | Err _ => Ok trimmed
        end;
    np ← utf8_path (normalize_local_path p);
    Ok (LocalObject np).
End Parse.

(** * Overlap *)

(** [fingerprint::paths_overlap]. *)
Definition paths_overlap (source dest : string) : bool :=
  path_starts_with source dest || path_starts_with dest source.

(** [str::trim_matches('/')]. *)
Definition normalize_s3_prefix (p : string) : string := trim_end_slash (trim_start_slash p).

Definition s3_prefixes_overlap (a b : S3Location) : bool :=
  if decide (bucket a = bucket b) then
    let a_prefix := normalize_s3_prefix (prefix a) in
    let b_prefix := normalize_s3_prefix (prefix b) in
    starts_with b_prefix a_prefix || starts_with a_prefix b_prefix
  else false.

Definition locations_overlap (source dest : DatasetLocation) : bool :=
  match source, dest with
  | Local a, Local b => paths_overlap (path a) (path b)
  | S3 a, S3 b => s3_prefixes_overlap a b
  | _, _ => false
  end.

Definition requires_storage_execution (source output : DatasetLocation) : bool :=
  match source, output with Local _, Local _ => false | _, _ => true end.

(** * Lemmas on strings and paths *)

Lemma split_char_no c s : has_char c s = false -> split_char c s = [s].
Proof.
  induction s as [|d s IH]; simpl; [done|]. rewrite orb_false_iff. intros [Hd Hs].
  rewrite Hd, IH by done. done.
Qed.

Lemma split_char_ne c s : split_char c s <> [].
Proof. destruct s as [|d s]; simpl; [done|]. split_match; done. Qed.

Lemma join_split c s : join_strings (String c EmptyString) (split_char c s) = s.
Proof.
  induction s as [|d s IH]; [done|]. cbn [split_char]. case_bool_decide as Hd.
  - subst d. cbn [join_strings]. destruct (split_char c s) eqn:E; [by destruct s; cbn in E; repeat case_match|].
    sapp. by rewrite <- IH.
  - destruct (split_char c s) as [|p ps]; [by destruct s|]. rewrite <- IH. by destruct ps.
Qed.

Lemma split_char_snoc c a s :
  has_char c s = false -> split_char c (a +:+ String c s) = split_char c a ++ [s].
Proof.
  intros Hs. induction a as [|d a IH]; sapp; simpl.
  - rewrite bool_decide_eq_true_2 by done. by rewrite split_char_no.
  - case_bool_decide; rewrite IH; [done|].
    destruct (split_char c a) eqn:E; [by apply split_char_ne in E | done].
Qed.

Lemma split_char_cons c a s :
  has_char c a = false -> split_char c (a +:+ String c s) = a :: split_char c s.
Proof.
  induction a as [|d a IH]; sapp; simpl.
  - by rewrite bool_decide_eq_true_2 by done.
  - rewrite orb_false_iff. intros [-> Ha]. by rewrite IH.
Qed.

Lemma ends_with_cons c x s : s <> EmptyString -> ends_with_char c (String x s) = ends_with_char c s.
Proof. by destruct s. Qed.

Lemma ends_with_app_char c a d : ends_with_char c (a +:+ String d EmptyString) = bool_decide (c = d).
Proof.
  induction a as [|e a IH]; sapp; [done|]. rewrite ends_with_cons; [done|by destruct a].
Qed.

(** Names a file-system component can have. *)
Definition valid_name (s : string) : Prop :=
  s <> EmptyString /\ s <> "." /\ s <> ".." /\ has_char "/"%char s = false.

(** The component lists normalisation produces. *)
Definition only_names (cs : list Component) : Prop :=
  Forall (fun c => exists n, c = Normal n /\ valid_name n) cs.

Definition normal_form (cs : list Component) : Prop :=
  only_names cs \/ exists ns, cs = RootDir :: ns /\ only_names ns.

Lemma piece_component_name n : valid_name n -> piece_component n = Some (Normal n).
Proof. intros (H1 & H2 & H3 & _). unfold piece_component. by rewrite !decide_False by done. Qed.

Lemma is_absolute_cons c s : is_absolute (String c s) = bool_decide ("/"%char = c).
Proof.
  unfold is_absolute, starts_with. cbn [String.prefix].
  destruct (ascii_dec _ c); [by rewrite bool_decide_eq_true_2; [destruct s|]|].
  by rewrite bool_decide_eq_false_2.
Qed.

Lemma is_absolute_app a b : a <> EmptyString -> is_absolute (a +:+ b) = is_absolute a.
Proof. destruct a as [|c a]; [done|]. sapp. by rewrite !is_absolute_cons. Qed.

Lemma not_absolute_no_slash n : has_char "/"%char n = false -> is_absolute n = false.
Proof.
  destruct n as [|c n]; [done|]. rewrite is_absolute_cons. cbn [has_char].
  rewrite orb_false_iff. tauto.
Qed.

Lemma components_join_name out n :
  valid_name n -> out <> EmptyString -> ends_with_char "/"%char out = false ->
  components (path_join out n) = components out ++ [Normal n].
Proof.
  intros Hn Hne He. pose proof Hn as (_ & _ & _ & Hs). unfold path_join.
  rewrite (not_absolute_no_slash n Hs), decide_False, He by done.
  unfold components. rewrite is_absolute_app by done.
  change ("/" +:+ n) with (String "/" n). rewrite split_char_snoc by done.
  rewrite omap_app. simpl. rewrite piece_component_name by done.
  rewrite app_assoc. f_equal. f_equal. destruct (is_absolute out); [done|].
  destruct (split_char _ out) eqn:E; [by apply split_char_ne in E|done].
Qed.

Lemma ends_with_slash_join out n :
  valid_name n -> out <> EmptyString -> ends_with_char "/"%char (path_join out n) = false.
Proof.
  intros (H1 & _ & _ & Hs) Hne. unfold path_join.
  rewrite (not_absolute_no_slash n Hs), decide_False by done.
  assert (forall a, ends_with_char "/"%char (a +:+ n) = false) as Ha.
  { intros a. revert Hs H1. clear. revert a. induction n as [|c n IH]; [done|].
    intros a. simpl. rewrite orb_false_iff. intros [Hc Hn] _.
    destruct n as [|d n]; [by rewrite ends_with_app_char|].
    specialize (IH (a +:+ String c EmptyString) Hn ltac:(done)).
    by rewrite app_assoc_string in IH. }
  destruct (ends_with_char _ out); [done|]. by rewrite <- app_assoc_string.
Qed.

Lemma path_of_components_snoc cs c :
  path_of_components (cs ++ [c]) = path_join (path_of_components cs) (component_text c).
Proof. unfold path_of_components. by rewrite foldl_app. Qed.

(** Printing a normal form and reading it back is the identity. *)
Lemma components_names cs : only_names cs ->
  components (path_of_components cs) = cs
  /\ (cs <> [] -> path_of_components cs <> EmptyString
                  /\ ends_with_char "/"%char (path_of_components cs) = false).
Proof.
  unfold only_names. induction cs as [|c cs IH] using rev_ind; [done|].
  rewrite Forall_app, Forall_singleton. intros [Hcs (n & -> & Hn)].
  destruct (IH Hcs) as [IH1 IH2]. rewrite path_of_components_snoc. simpl.
  pose proof Hn as (Hn1 & Hn2 & _ & Hs).
  destruct (decide (cs = [])) as [->|Hne].
  - assert (path_join (path_of_components []) n = n) as ->.
    { unfold path_join. by rewrite (not_absolute_no_slash n Hs). }
    split.
    + unfold components. rewrite (not_absolute_no_slash n Hs), split_char_no by done. simpl.
      rewrite decide_False by done. by rewrite piece_component_name.
    + intros _. split; [done|].
      assert (Hj := ends_with_slash_join "x" n Hn ltac:(done)).
      unfold path_join in Hj. rewrite (not_absolute_no_slash n Hs) in Hj. by destruct n.
  - destruct (IH2 Hne) as [Hp Hse]. rewrite components_join_name, IH1 by done.
    split; [done|]. intros _. split; [|by apply ends_with_slash_join].
    unfold path_join. rewrite (not_absolute_no_slash n Hs), decide_False, Hse by done.
    intros Hx. destruct (path_of_components cs); done.
Qed.

Lemma components_rooted ns : only_names ns ->
  components (path_of_components (RootDir :: ns)) = RootDir :: ns
  /\ path_of_components (RootDir :: ns) <> EmptyString
  /\ (ns <> [] -> ends_with_char "/"%char (path_of_components (RootDir :: ns)) = false).
Proof.
  unfold only_names. induction ns as [|c ns IH] using rev_ind; [done|].
  rewrite Forall_app, Forall_singleton. intros [Hns (n & -> & Hn)].
  destruct (IH Hns) as (IH1 & IH2 & IH3). pose proof Hn as (Hn1 & _ & _ & Hs).
  rewrite app_comm_cons, path_of_components_snoc. simpl component_text.
  split; [|split].
  - destruct (decide (ns = [])) as [->|Hne].
    + assert (path_join (path_of_components [RootDir]) n = String "/" n) as ->.
      { unfold path_join. by rewrite (not_absolute_no_slash n Hs). }
      unfold components. rewrite is_absolute_cons, bool_decide_eq_true_2 by done.
      rewrite <- (app_empty_string (String _ _)), split_char_cons by done. simpl.
      rewrite split_char_no by done. simpl. by rewrite piece_component_name.
    + by rewrite components_join_name, IH1 by auto.
  - unfold path_join. rewrite (not_absolute_no_slash n Hs), decide_False by done.
    destruct (path_of_components (RootDir :: ns)); [done|]. by case_match.
  - intros _. by apply ends_with_slash_join.
Qed.

Lemma components_normal_form cs : normal_form cs -> components (path_of_components cs) = cs.
Proof. intros [H|(ns & -> & H)]; [by apply components_names | by apply components_rooted]. Qed.

Lemma split_char_pieces c s : Forall (fun p => has_char c p = false) (split_char c s).
Proof.
  induction s as [|d s IH]; simpl; [by constructor|].
  case_bool_decide as Hd; [by constructor|].
  destruct (split_char c s) as [|p ps]; [constructor; [|done]|].
  - simpl. by rewrite bool_decide_eq_false_2.
  - inversion IH; subst. constructor; [|done]. simpl. by rewrite bool_decide_eq_false_2.
Qed.

Definition name_ok (c : Component) : Prop :=
  match c with Normal n => valid_name n | _ => True end.

Lemma components_name_ok p : Forall name_ok (components p).
Proof.
  unfold components. apply Forall_app. split.
  { destruct (is_absolute p); [by repeat constructor|].
    destruct (split_char _ p); [constructor|]. case_decide; by repeat constructor. }
  apply Forall_forall. intros c (s & Hs & Hc)%list_elem_of_omap.
  pose proof (proj1 (Forall_forall _ _) (split_char_pieces "/"%char p) _ Hs) as Hn.
  unfold piece_component in Hc. split_match; [done|]. by repeat split.
Qed.

Lemma normalize_step_nf out c : normal_form out -> name_ok c -> normal_form (normalize_step out c).
Proof.
  intros Hout Hc. destruct c as [| | |n]; simpl; [right; exists []|done| |].
  - by repeat constructor.
  - unfold pop_component. destruct (last out) as [[]|] eqn:El; try done.
    all: destruct Hout as [H|(ns & -> & H)]; [left; by apply Forall_take|right].
    all: destruct ns as [|x ns]; [done|]; exists (take (length ns) (x :: ns));
         split; [done | by apply Forall_take].
  - destruct Hout as [H|(ns & -> & H)]; [left|right; exists (ns ++ [Normal n]); split; [done|]].
    all: apply Forall_app; split; [done|]; apply Forall_singleton; eauto.
Qed.

Lemma foldl_normalize_nf cs out :
  normal_form out -> Forall name_ok cs -> normal_form (foldl normalize_step out cs).
Proof.
  intros Hout Hcs. revert out Hout. induction Hcs as [|c cs Hc Hcs IH]; intros out Hout; [done|].
  simpl. apply IH, normalize_step_nf; done.
Qed.

Lemma normalize_components_nf p : normal_form (normalize_components (components p)).
Proof. apply foldl_normalize_nf; [left; constructor | apply components_name_ok]. Qed.

Lemma foldl_normalize_names out ns :
  only_names ns -> foldl normalize_step out ns = out ++ ns.
Proof.
  intros H. revert out. induction H as [|c ns (n & -> & _) H IH]; intros out; simpl.
  - by rewrite app_nil_r.
  - by rewrite IH, <- app_assoc.
Qed.

Lemma normalize_components_id cs : normal_form cs -> normalize_components cs = cs.
Proof.
  intros [H|(ns & -> & H)]; unfold normalize_components; [by apply (foldl_normalize_names [])|].
  simpl. by rewrite foldl_normalize_names.
Qed.

(** * Properties of normalisation *)

(** Normalising a path yields one without [.] and [..] components, and
    normalising again changes nothing. *)
Theorem normalize_local_path_normal p :
  normal_form (components (normalize_local_path p))
  /\ normalize_local_path (normalize_local_path p) = normalize_local_path p.
Proof.
  pose proof (normalize_components_nf p) as Hnf.
  assert (components (normalize_local_path p) = normalize_components (components p)) as Hc
    by by apply components_normal_form.
  rewrite Hc. split; [done|]. unfold normalize_local_path at 1. rewrite Hc.
  by rewrite (normalize_components_id _ Hnf).
Qed.

(** The directory a component list denotes, as the names from the root, when
    read in the working directory [cwd] (lexically, without symbolic links). *)
Definition denote_step (cur : list string) (c : Component) : list string :=
  match c with
  | RootDir => []
  | CurDir => cur
  | ParentDir => take (length cur - 1) cur
  | Normal n => cur ++ [n]
  end.

Definition denote (cwd : list string) (cs : list Component) : list string :=
  foldl denote_step cwd cs.

(** Does a relative path climb above the directory it starts in?  [depth] is
    the number of names below it. *)
Fixpoint escapes (depth : nat) (cs : list Component) : bool :=
  match cs with
  | [] => false
  | RootDir :: cs => false
  | CurDir :: cs => escapes depth cs
  | ParentDir :: cs => match depth with O => true | S d => escapes d cs end
  | Normal _ :: cs => escapes (S depth) cs
  end.

Lemma take_pred_snoc {A} (l : list A) x : take (length (l ++ [x]) - 1) (l ++ [x]) = l.
Proof. rewrite length_app, Nat.add_sub. apply take_app_length. Qed.

Lemma pop_component_snoc out n : pop_component (out ++ [Normal n]) = out.
Proof. unfold pop_component. rewrite last_snoc. apply take_pred_snoc. Qed.

Lemma normal_form_inv out : normal_form out ->
  out = [] \/ out = [RootDir] \/ exists out' n, out = out' ++ [Normal n] /\ normal_form out'.
Proof.
  intros [H|(ns & -> & H)].
  - destruct out as [|c out _] using rev_ind; [by left|].
    apply Forall_app in H as [H (n & -> & _)%Forall_singleton]. right; right.
    exists out, n. split; [done|by left].
  - destruct ns as [|c ns _] using rev_ind; [by right; left|].
    apply Forall_app in H as [H (n & -> & _)%Forall_singleton]. right; right.
    exists (RootDir :: ns), n. split; [done|right; eauto].
Qed.

Lemma denote_app cwd cs ds : denote cwd (cs ++ ds) = denote (denote cwd cs) ds.
Proof. unfold denote. by rewrite foldl_app. Qed.

Lemma denote_normalize_step cwd out c :
  normal_form out -> (c = ParentDir -> out <> []) ->
  denote cwd (normalize_step out c) = denote_step (denote cwd out) c.
Proof.
  intros Hout Hesc. destruct c as [| | |n]; simpl; try done.
  - destruct (normal_form_inv _ Hout) as [->|[->|(out' & n & -> & _)]]; [by destruct Hesc|done|].
    by rewrite pop_component_snoc, denote_app; simpl; rewrite take_pred_snoc.
  - by rewrite denote_app.
Qed.

(** The two ways a path can be read the same after normalisation: it is
    rooted, or it never climbs above the directory it starts in. *)
Lemma denote_foldl_rooted cwd cs ns :
  only_names ns -> Forall name_ok cs -> RootDir ∉ cs ->
  denote cwd (foldl normalize_step (RootDir :: ns) cs) = foldl denote_step (denote cwd (RootDir :: ns)) cs.
Proof.
  intros Hns Hcs Hr. set (out := RootDir :: ns).
  assert (normal_form out /\ out <> [] /\ exists ns', out = RootDir :: ns') as Hinv
    by (unfold out; split; [right; eauto|eauto]).
  clearbody out. clear ns Hns. revert out Hinv.
  induction Hcs as [|c cs Hc Hcs IH]; intros out (Hnf & Hne & ns' & Hr'); [done|].
  apply not_elem_of_cons in Hr as [Hr1 Hr2]. simpl. rewrite IH; [|done|].
  - by rewrite denote_normalize_step.
  - split; [by apply normalize_step_nf|]. subst out.
    destruct c; simpl; [done|by eauto| |by eauto].
    destruct (normal_form_inv _ Hnf) as [?|[Heq|(out' & n & Heq & _)]]; [done|rewrite Heq; by eauto|].
    rewrite Heq, pop_component_snoc. destruct out'; simplify_eq/=; by eauto.
Qed.

Lemma denote_foldl_relative cwd cs out :
  only_names out -> Forall name_ok cs -> RootDir ∉ cs -> escapes (length out) cs = false ->
  denote cwd (foldl normalize_step out cs) = foldl denote_step (denote cwd out) cs.
Proof.
  intros Hout Hcs. revert out Hout. induction Hcs as [|c cs Hc Hcs IH]; intros out Hout Hr He; [done|].
  apply not_elem_of_cons in Hr as [Hr1 Hr2]. simpl.
  assert (c = ParentDir -> out <> []) as Hne by (intros -> ->; done).
  rewrite <- denote_normalize_step by (by left || done). apply IH; [|done|].
  - destruct c as [| | |n]; simpl; try done.
    + destruct out as [|x out _] using rev_ind; [by destruct Hne|].
      apply Forall_app in Hout as [Hout (n & -> & _)%Forall_singleton].
      by rewrite pop_component_snoc.
    + apply Forall_app. split; [done|]. apply Forall_singleton. eauto.
  - destruct c as [| | |n]; simpl in *; try done.
    + destruct out as [|x out _] using rev_ind; [by destruct Hne|].
      apply Forall_app in Hout as [_ (n & -> & _)%Forall_singleton].
      rewrite pop_component_snoc. rewrite length_app, Nat.add_1_r in He. done.
    + by rewrite length_app, Nat.add_1_r.
Qed.

Lemma components_root p :
  (is_absolute p = true /\ exists cs, components p = RootDir :: cs /\ RootDir ∉ cs)
  \/ (is_absolute p = false /\ RootDir ∉ components p).
Proof.
  assert (forall l : list string, RootDir ∉ omap piece_component l) as Hno.
  { intros l (s & _ & Hs)%list_elem_of_omap. unfold piece_component in Hs. split_match. }
  unfold components. destruct (is_absolute p); [left|right]; (split; [done|]).
  - eexists. split; [done|]. apply Hno.
  - apply not_elem_of_app. split; [|apply Hno].
    destruct (split_char _ p); [|case_decide]; set_solver.
Qed.

(** Normalisation keeps the directory a path denotes, read in any working
    directory, when the path is absolute or does not climb above its start. *)
Theorem normalize_local_path_denotes cwd p :
  is_absolute p = true \/ escapes 0 (components p) = false ->
  denote cwd (components (normalize_local_path p)) = denote cwd (components p).
Proof.
  intros Hp. unfold normalize_local_path.
  rewrite components_normal_form by apply normalize_components_nf.
  pose proof (components_name_ok p) as Hok.
  destruct (components_root p) as [(Ha & cs & Hc & Hr)|(Ha & Hr)].
  - rewrite Hc in *. inversion Hok; subst. unfold normalize_components. simpl.
    apply (denote_foldl_rooted cwd cs []); [constructor|done|done].
  - destruct Hp as [Hp|Hp]; [congruence|]. apply (denote_foldl_relative cwd _ []); [constructor|done..].
Qed.

Lemma normalize_local_path_denotes_witness :
  denote ["home"] (components (normalize_local_path "data/./x/../set"))
  = denote ["home"] (components "data/./x/../set").
Proof. apply normalize_local_path_denotes. right. vm_compute. reflexivity. Defined.

(** Leading [..] components of a relative path are lost: [../s] is normalised
    to the same path as [s], so it denotes a directory below the working
    directory instead of a sibling of it. *)
Theorem normalize_local_path_drops_parent s :
  is_absolute s = false -> normalize_local_path ("../" +:+ s) = normalize_local_path s.
Proof.
  intros Ha. unfold normalize_local_path, normalize_components, components.
  change ("../" +:+ s) with (".." +:+ String "/" s).
  rewrite is_absolute_app by done. rewrite split_char_cons by done. rewrite Ha. simpl.
  destruct (split_char _ s) as [|x l]; [done|]. by case_decide.
Qed.

Lemma normalize_local_path_drops_parent_witness :
  normalize_local_path "../data" = "data"
  /\ denote ["home"; "me"] (components "../data") = ["home"; "data"]
  /\ denote ["home"; "me"] (components (normalize_local_path "../data")) = ["home"; "me"; "data"].
Proof.
  change "../data" with ("../" +:+ "data").
  rewrite (normalize_local_path_drops_parent "data") by reflexivity. vm_compute. auto.
Defined.

(** * Object keys *)

Fixpoint all_chars (f : ascii -> bool) (s : string) : bool :=
  match s with EmptyString => true | String c s => f c && all_chars f s end.

Lemma trim_end_prefix f s : exists r, s = trim_end f s +:+ r /\ all_chars f r = true.
Proof.
  induction s as [|d s (r & IH & Hr)]; cbn; [by exists EmptyString|].
  destruct (trim_end f s) as [|c t] eqn:Et.
  - sapp. subst r. destruct (f d) eqn:Ed; [exists (String d s)|exists s]; cbn; by rewrite ?Ed.
  - exists r. split; [|done]. rewrite IH at 1. by sapp.
Qed.

Lemma trim_start_head f s c t : trim_start f s = String c t -> f c = false.
Proof. induction s as [|d s IH]; cbn; [done|]. destruct (f d) eqn:E; [done|]. by intros [= <- _]. Qed.

Lemma trim_start_app f a b :
  trim_start f a <> EmptyString -> trim_start f (a +:+ b) = trim_start f a +:+ b.
Proof. induction a as [|d a IH]; sapp; cbn; [done|]. by destruct (f d). Qed.

Lemma trim_comm f s : trim_start f (trim_end f s) = trim_end f (trim_start f s).
Proof.
  induction s as [|d s IH]; cbn; [done|]. destruct (f d) eqn:E; cbn.
  - rewrite <- IH. destruct (trim_end f s); cbn; [done|]. by rewrite E.
  - destruct (trim_end f s); cbn; by rewrite E.
Qed.

(** Every key of a prefix starts, up to leading slashes, with the normalised prefix. *)
Lemma object_key_under s rel k :
  object_key s rel = Ok k ->
  exists r, trim_start_slash k = normalize_s3_prefix (prefix s) +:+ r.
Proof.
  unfold object_key, normalize_s3_prefix, trim_start_slash, trim_end_slash.
  destruct (contains _ _); [done|]. intros [= <-].
  case_decide as Hp; [rewrite Hp; cbn; eauto|].
  case_decide as Hr; [destruct (trim_end_prefix is_slash (trim_start is_slash (prefix s))) as (r & ? & _); eauto|].
  destruct (decide (trim_start is_slash (trim_end is_slash (prefix s)) = EmptyString)) as [He|He].
  - rewrite trim_comm in He. rewrite He. eauto.
  - rewrite trim_start_app by done. rewrite trim_comm. eauto.
Qed.

(** Distinct relative keys (leading slashes apart) name distinct objects. *)
Lemma object_key_inj s r1 r2 k :
  object_key s r1 = Ok k -> object_key s r2 = Ok k -> trim_start_slash r1 = trim_start_slash r2.
Proof.
  unfold object_key.
  assert (forall r, trim_start_slash r <> EmptyString ->
            prefix s <> trim_end_slash (prefix s) +:+ "/" +:+ trim_start_slash r) as Hnot.
  { intros r Hr He. destruct (trim_end_prefix is_slash (prefix s)) as (t & Ht & Hall).
    rewrite Ht in He at 1. apply (inj (String.app _)) in He. subst t.
    destruct (trim_start_slash r) as [|c r'] eqn:E; [done|].
    apply trim_start_head in E. change ("/" +:+ String c r') with (String "/" (String c r')) in Hall.
    cbn [all_chars] in Hall. by rewrite E, andb_false_r in Hall. }
  destruct (contains _ (trim_start_slash r1)), (contains _ (trim_start_slash r2)); try done.
  intros [= <-] [= Hk]. revert Hk. repeat case_decide; try congruence; intros Hk.
  - exfalso. by apply (Hnot r1).
  - exfalso. by apply (Hnot r2).
  - apply (inj (String.app _)) in Hk. by injection Hk.
Qed.

(** Redaction of credentials in text and URIs:
    src/crates/parqonaut-storage/src/redact.rs. *)

(** [s.find(m)]: the text before the first occurrence and the text from it on. *)
Fixpoint find_split (m s : string) : option (string * string) :=
  if starts_with m s then Some (EmptyString, s)
  else match s with
       | EmptyString => None
       | String c s => '(before, tail) ← find_split m s; Some (String c before, tail)
       end.

Definition newline : ascii := "010"%char.

(** The text from the first line end on. *)
Fixpoint from_newline (s : string) : string :=
  match s with
  | EmptyString => EmptyString
  | String c r => if decide (c = newline) then s else from_newline r
  end.

Definition redact_marker (marker out : string) : string :=
  match find_split marker out with
  | Some (before, tail) => before +:+ marker +:+ "[REDACTED]" +:+ from_newline tail
  | None => out
  end.

Definition secret_markers : list string :=
  ["AWS_SECRET_ACCESS_KEY="; "AWS_ACCESS_KEY_ID="; "AWS_SESSION_TOKEN="; "Authorization:"; "X-Amz-Security-Token:"].

Definition redact_secrets_in_text (input : string) : string :=
  foldl (fun out marker => redact_marker marker out) input secret_markers.

(** The part of the url crate that is used; a setter that fails returns the
    URL as it is. *)
Class RedactUrl (Url : Type) := {
  ru_parse : string -> option Url;
  ru_username : Url -> string;
  ru_password : Url -> option string;
  ru_query_pairs : Url -> list (string * string);
  ru_set_username : string -> Url -> Url;
  ru_set_password : option string -> Url -> Url;
  ru_set_query : option string -> Url -> Url;
  ru_to_string : Url -> string;
}.

Definition signed_params : list string := ["X-Amz-Signature"; "X-Amz-Credential"; "X-Amz-Security-Token"].

Section Uri.
Context {Url : Type} `{RedactUrl Url}.

Definition has_param (url : Url) (param : string) : bool :=
  existsb (fun kv => bool_decide (fst kv = param)) (ru_query_pairs url).

Definition redact_uri_string (input : string) : string :=
  match ru_parse input with
  | Some url =>
      let url := if negb (bool_decide (ru_username url = EmptyString)) || bool_decide (is_Some (ru_password url))
                 then ru_set_password None (ru_set_username EmptyString url) else url in
      let url := if existsb (has_param url) signed_params then ru_set_query None url else url in
      ru_to_string url
  | None => redact_secrets_in_text input
  end.
End Uri.

(** * Properties *)

Lemma find_split_app m s before tail : find_split m s = Some (before, tail) ->
  s = before +:+ tail /\ starts_with m tail = true.
Proof.
  revert before. induction s as [|c s IH]; intros before; cbn [find_split mbind option_bind].
  - destruct (starts_with m EmptyString) eqn:E; [|done]. intros [= <- <-]. done.
  - destruct (starts_with m (String c s)) eqn:E; [intros Hx; by simplify_eq|].
    destruct (find_split m s) as [[b t]|]; [|done]. intros [= <- <-].
    destruct (IH b eq_refl) as [-> ?]. done.
Qed.

Lemma find_split_None m s : find_split m s = None <-> contains m s = false.
Proof.
  induction s as [|c s IH]; cbn [find_split contains mbind option_bind]; unfold starts_with in *;
    destruct (String.prefix _ _) eqn:E; try done.
  simpl. rewrite <- IH. destruct (find_split m s) as [[b t]|]; naive_solver.
Qed.

Lemma from_newline_app a b : has_char newline a = false -> from_newline (a +:+ b) = from_newline b.
Proof.
  induction a as [|c a IH]; [done|]. cbn [has_char]. rewrite orb_false_iff. intros [Hc Ha].
  rewrite app_cons_string. cbn [from_newline]. rewrite decide_False; [by apply IH|].
  intros ->. by rewrite bool_decide_eq_true_2 in Hc.
Qed.

(** The first line that carries a marker loses what follows the marker, and
    nothing else of the text changes. *)
Theorem redact_marker_first marker before secret rest :
  has_char newline marker = false -> has_char newline secret = false ->
  rest = EmptyString \/ (exists r, rest = String newline r) ->
  find_split marker (before +:+ marker +:+ secret +:+ rest) = Some (before, marker +:+ secret +:+ rest) ->
  redact_marker marker (before +:+ marker +:+ secret +:+ rest) = before +:+ marker +:+ "[REDACTED]" +:+ rest.
Proof.
  intros Hm Hs Hr Hf. unfold redact_marker. rewrite Hf, !from_newline_app by done.
  do 3 f_equal. destruct Hr as [->|[r ->]]; [done|]. done.
Qed.

(** Only the first occurrence of a marker is redacted: a second secret under the
    same name is left in the text. *)
Theorem second_secret_kept :
  redact_secrets_in_text
    ("AWS_SECRET_ACCESS_KEY=first" +:+ String newline "AWS_SECRET_ACCESS_KEY=second")
  = "AWS_SECRET_ACCESS_KEY=[REDACTED]" +:+ String newline "AWS_SECRET_ACCESS_KEY=second".
Proof. vm_compute. reflexivity. Qed.

Lemma redact_marker_first_witness :
  redact_marker "Authorization:" ("GET /" +:+ String newline ("Authorization: Bearer t" +:+ String newline "ok"))
  = "GET /" +:+ String newline ("Authorization:[REDACTED]" +:+ String newline "ok").
Proof.
  apply (redact_marker_first "Authorization:" ("GET /" +:+ String newline "") " Bearer t" (String newline "ok"));
    [reflexivity|reflexivity|right; eexists; reflexivity|reflexivity].
Defined.
