(* ===== verification/Errors.v ===== *)
(** Error types of the repair engine and of the orchestrator, with their
    display forms (src/crates/parqonaut-repair/src/error.rs,
    src/crates/parqonaut-orchestrator/src/error.rs).  Wrapped [std::io] and
    [serde_json] errors carry their display form. *)

From S2P Require Import Prelude.

(** The per-dataset lifecycle of a batch run
    (src/crates/parqonaut-orchestrator/src/state.rs): states, the legal
    transitions and the recovery of states left behind by a crash. *)

(** * Data *)

Inductive DatasetState :=
| Pending | PlanningValidated | Running | RepairComplete | Verifying | Succeeded
| Blocked | FailedRecoverable | FailedPermanent | Cancelled | StaleSource
| VerificationFailed.

#[global] Instance DatasetState_eq_dec : EqDecision DatasetState.
Proof. solve_decision. Defined.

Definition all_states : list DatasetState :=
  [Pending; PlanningValidated; Running; RepairComplete; Verifying; Succeeded; Blocked;
   FailedRecoverable; FailedPermanent; Cancelled; StaleSource; VerificationFailed].

Inductive StateTransitionError :=
| Illegal (from to : DatasetState).

(** * Operations *)

Definition is_terminal (s : DatasetState) : bool :=
  match s with
  | Succeeded | Blocked | FailedPermanent | Cancelled | VerificationFailed | StaleSource => true
  | _ => false
  end.

Definition is_runnable (s : DatasetState) : bool :=
  match s with Pending | FailedRecoverable => true | _ => false end.

Definition is_resumable (s : DatasetState) : bool :=
  match s with
  | Pending | PlanningValidated | Running | FailedRecoverable | Cancelled => true
  | _ => false
  end.

Definition recover_after_crash (s : DatasetState) : DatasetState :=
  match s with
  | Running | RepairComplete | Verifying | PlanningValidated => FailedRecoverable
  | other => other
  end.

Definition can_transition_to (self to : DatasetState) : bool :=
  if decide (self = to) then true
  else match self, to with
  | Pending, PlanningValidated
  | PlanningValidated, Running
  | Running, RepairComplete
  | RepairComplete, Verifying
  | Verifying, Succeeded
  | (Pending | PlanningValidated), StaleSource
  | (Running | RepairComplete | Verifying), FailedRecoverable
  | (Running | RepairComplete | Verifying), FailedPermanent
  | (Running | RepairComplete | Verifying), VerificationFailed
  | (Pending | PlanningValidated | Running), Cancelled
  | PlanningValidated, Blocked
  | FailedRecoverable, Running
  | PlanningValidated, FailedRecoverable
  | Cancelled, FailedRecoverable
  | StaleSource, StaleSource => true
  | _, _ => false
  end.

Definition transition (self to : DatasetState) : Result StateTransitionError DatasetState :=
  if can_transition_to self to then Ok to else Err (Illegal self to).

(** [apply_transition(&mut self, to)]: the new value of [self] and the result. *)
Definition apply_transition (self to : DatasetState)
    : DatasetState * Result StateTransitionError unit :=
  match transition self to with
  | Ok s => (s, Ok tt)
  | Err e => (self, Err e)
  end.

(** * The machine as a step relation *)

(** One successful, state-changing [apply_transition]. *)
Definition step (s t : DatasetState) : Prop := s <> t /\ apply_transition s t = (t, Ok tt).

(** A run of the machine, with the states it visits after the first. *)
Inductive visits : DatasetState -> list DatasetState -> DatasetState -> Prop :=
| visits_nil s : visits s [] s
| visits_cons s t u tr : step s t -> visits t tr u -> visits s (t :: tr) u.

Lemma step_can s t : step s t <-> s <> t /\ can_transition_to s t = true.
Proof.
  unfold step, apply_transition, transition. destruct (can_transition_to s t); naive_solver.
Qed.

(** Membership in a duplicate-free enumeration makes statements about the
    machine decidable by evaluation. *)
Lemma all_states_complete s : s ∈ all_states.
Proof. destruct s; unfold all_states; set_solver. Qed.

Ltac by_state_cases :=
  repeat match goal with s : DatasetState |- _ => destruct s end;
  vm_compute; try done; try tauto.

(** Only [Verifying] leads into [Succeeded]; only [RepairComplete] into
    [Verifying]; only [Running] into [RepairComplete]. *)
Lemma step_pred s t : step s t ->
  match t with
  | Succeeded => s = Verifying
  | Verifying => s = RepairComplete
  | RepairComplete => s = Running
  | Running => s = PlanningValidated \/ s = FailedRecoverable
  | PlanningValidated => s = Pending
  | Pending => False
  | _ => True
  end.
Proof. rewrite step_can. intros [Hne Hc]. destruct s, t; try done; auto. Qed.

Lemma visits_snoc s tr u v : visits s tr u -> step u v -> visits s (tr ++ [v]) v.
Proof. induction 1; simpl; intros; econstructor; eauto using visits. Qed.

Lemma visits_last s tr u : visits s tr u -> tr <> [] -> last tr = Some u.
Proof.
  induction 1 as [|s t u tr Hs Hv IH]; [done|]. intros _.
  destruct tr as [|t' tr]; [by inversion Hv|]. by rewrite last_cons_cons, IH.
Qed.

(** The entry steps of a visited state: each visit is the start or is entered
    by a step from a state that is itself the start or visited before. *)
Lemma visits_enter s tr u t tr' :
  visits s (tr' ++ t :: tr) u -> exists p, step p t /\ visits s tr' p.
Proof.
  revert s. induction tr' as [|x tr' IH]; intros s; simpl; inversion 1; subst.
  - eexists; split; [done|constructor].
  - match goal with Hv : visits _ (tr' ++ _) _ |- _ => apply IH in Hv as (p & ? & ?) end.
    exists p. split; [done|]. by econstructor.
Qed.

Lemma visits_end_in s tr u : visits s tr u -> s <> u -> exists tr', tr = tr' ++ [u].
Proof.
  induction 1 as [|s t u tr Hs Hv IH]; [done|]. intros Hne.
  destruct (decide (t = u)) as [->|Hne'].
  - destruct tr as [|t' tr]; [by exists []|].
    pose proof (visits_last _ _ _ Hv ltac:(done)) as Hl.
    apply last_Some in Hl as [l ->]. by exists (u :: l).
  - destruct IH as [tr' ->]; [done|]. by exists (t :: tr').
Qed.

(** If every entry into [t] comes from [p], then a run ending in [t] that did
    not start there visits [p] (or starts in it) before. *)
Lemma visits_back s tr t p :
  visits s tr t -> s <> t -> (forall q, step q t -> q = p) ->
  exists tr', tr = tr' ++ [t] /\ visits s tr' p.
Proof.
  intros Hv Hne Hp. destruct (visits_end_in _ _ _ Hv Hne) as [tr' ->].
  apply visits_enter in Hv as (q & Hq & Hv). rewrite (Hp q Hq) in Hv. eauto.
Qed.

(** * Properties *)

(** A dataset can be recorded as [Succeeded] along legal transitions only after
    it ran, its repair completed and its output was verified, in this order:
    any run from [Pending] to [Succeeded] ends with these three steps. *)
Theorem succeeded_only_after_verification tr :
  visits Pending tr Succeeded ->
  exists tr', tr = tr' ++ [Running; RepairComplete; Verifying; Succeeded].
Proof.
  intros H.
  apply (visits_back _ _ _ Verifying) in H as (t1 & -> & H); [|done|by intros ? ?%step_pred].
  apply (visits_back _ _ _ RepairComplete) in H as (t2 & -> & H); [|done|by intros ? ?%step_pred].
  apply (visits_back _ _ _ Running) in H as (t3 & -> & H); [|done|by intros ? ?%step_pred].
  apply visits_end_in in H as [t4 ->]; [|done]. exists t4. by rewrite <- !app_assoc.
Qed.

Lemma succeeded_only_after_verification_witness :
  exists tr', [PlanningValidated; Running; RepairComplete; Verifying; Succeeded]
              = tr' ++ [Running; RepairComplete; Verifying; Succeeded].
Proof.
  apply succeeded_only_after_verification.
  repeat (eapply visits_cons; [split; [done | vm_compute; reflexivity]|]). apply visits_nil.
Defined.

(** Terminal states other than [Cancelled] are absorbing: no sequence of
    [apply_transition] calls, legal or not, moves a dataset out of them; the
    only way out of [Cancelled] is back to [FailedRecoverable]. *)
Theorem terminal_absorbing s targets :
  is_terminal s = true -> s <> Cancelled ->
  foldl (fun st to => fst (apply_transition st to)) s targets = s.
Proof.
  intros Ht Hc. induction targets as [|t l IH]; [done|]. simpl.
  assert (fst (apply_transition s t) = s) as ->; [|done]. by destruct s, t.
Qed.

Lemma terminal_absorbing_witness :
  foldl (fun st to => fst (apply_transition st to)) Succeeded [Running; FailedRecoverable]
  = Succeeded.
Proof. apply terminal_absorbing; [reflexivity | discriminate]. Defined.

(** Crash recovery is a legal transition of the machine, is idempotent, and
    leaves every dataset either runnable (it will be scheduled again) or
    terminal (it will be skipped): nothing stays in flight. *)
Theorem recovery_leaves_runnable_or_terminal s :
  can_transition_to s (recover_after_crash s) = true
  /\ recover_after_crash (recover_after_crash s) = recover_after_crash s
  /\ is_runnable (recover_after_crash s) = negb (is_terminal (recover_after_crash s)).
Proof. by destruct s. Qed.

Inductive RepairError :=
| DatasetUnreadable (message : string)
| DatasetChanged (expected actual : string)
| UnsupportedOperation (operation_id action : string)
| ReviewRequiredNotAuthorized (operation_id : string)
| DestructiveNotAllowed (operation_id : string)
| OutputExists (output : string)
| SourceDestinationOverlap (message : string)
| RepairPreconditionFailed (operation_id detail : string)
| VerificationInvariantFailed (invariant detail : string)
| PartialExecution (staging : string)
| InvalidPlan (message : string)
| RepairUnsupportedPlanVersion (found supported : Z)
| ScanFailed (message : string)
| TransformFailed (message : string)
| RepairIo (source : string)
| RepairJson (source : string)
| RepairStorage (message : string)
| RepairPublication (message : string).

#[global] Instance RepairError_eq_dec : EqDecision RepairError.
Proof. solve_decision. Defined.

Definition repair_error_display (e : RepairError) : string :=
  match e with
  | DatasetUnreadable m => "input dataset is unreadable: " +:+ m
  | DatasetChanged expected actual =>
      "dataset changed since plan generation (expected fingerprint " +:+ expected
      +:+ ", found " +:+ actual +:+ ")"
  | UnsupportedOperation id action =>
      "unsupported repair operation: " +:+ id +:+ " (" +:+ action +:+ ")"
  | ReviewRequiredNotAuthorized id => "review-required repair not authorized: " +:+ id
  | DestructiveNotAllowed id => "destructive repair cannot be executed automatically: " +:+ id
  | OutputExists o => "output path already exists: " +:+ o
  | SourceDestinationOverlap m => "source and destination overlap: " +:+ m
  | RepairPreconditionFailed id detail =>
      "precondition failed for operation " +:+ id +:+ ": " +:+ detail
  | VerificationInvariantFailed invariant detail =>
      "verification invariant failed: " +:+ invariant +:+ " — " +:+ detail
  | PartialExecution staging => "repair partially executed; staging retained at " +:+ staging
  | InvalidPlan m => "plan file invalid: " +:+ m
  | RepairUnsupportedPlanVersion found supported =>
      "repair plan schema version " +:+ pretty found
      +:+ " is not supported by this PARQONAUT build (supported: " +:+ pretty supported +:+ ")"
  | ScanFailed m => "scan failed: " +:+ m
  | TransformFailed m => "transform failed: " +:+ m
  | RepairIo m => "io error: " +:+ m
  | RepairJson m => "json error: " +:+ m
  | RepairStorage m => "storage error: " +:+ m
  | RepairPublication m => "publication error: " +:+ m
  end.

Inductive FailureClass :=
| Recoverable | Permanent | ClassBlocked | ClassStaleSource | ClassVerificationFailed | ClassCancelled.

#[global] Instance FailureClass_eq_dec : EqDecision FailureClass.
Proof. solve_decision. Defined.

Inductive OrchestratorError :=
| InvalidConfig (message : string)
| UnsupportedConfigVersion (found supported : Z)
| UnsupportedPlanVersion (found supported : Z)
| DuplicateDatasetId (id : string)
| PathOverlap (detail : string)
| LockHeld (message : string)
| Journal (message : string)
| Repair (e : RepairError)
| OrchIo (source : string)
| OrchJson (source : string)
| PlanIdentityMismatch (field expected found : string)
| RunAlreadyCompleted
| RunCancelled
| State (e : StateTransitionError)
| OrchStorage (message : string).

(** [{:?}] of a [Errors]. *)
Definition state_debug (s : DatasetState) : string :=
  match s with
  | Pending => "Pending" | PlanningValidated => "PlanningValidated" | Running => "Running"
  | RepairComplete => "RepairComplete" | Verifying => "Verifying" | Succeeded => "Succeeded"
  | Blocked => "Blocked" | FailedRecoverable => "FailedRecoverable"
  | FailedPermanent => "FailedPermanent" | Cancelled => "Cancelled"
  | StaleSource => "StaleSource" | VerificationFailed => "VerificationFailed"
  end.

(** [{:?}] of a [FailureClass]. *)
Definition class_debug (c : FailureClass) : string :=
  match c with
  | Recoverable => "Recoverable" | Permanent => "Permanent" | ClassBlocked => "Blocked"
  | ClassStaleSource => "StaleSource" | ClassVerificationFailed => "VerificationFailed"
  | ClassCancelled => "Cancelled"
  end.

Definition orchestrator_error_display (e : OrchestratorError) : string :=
  match e with
  | InvalidConfig m => "batch config invalid: " +:+ m
  | UnsupportedConfigVersion found supported =>
      "unsupported batch config schema version " +:+ pretty found
      +:+ " (supported " +:+ pretty supported +:+ ")"
  | UnsupportedPlanVersion found supported =>
      "unsupported batch plan schema version " +:+ pretty found
      +:+ " (supported " +:+ pretty supported +:+ ")"
  | DuplicateDatasetId id => "duplicate dataset id: " +:+ id
  | PathOverlap m => "path overlap detected: " +:+ m
  | LockHeld m => "dataset lock held: " +:+ m
  | Journal m => "journal error: " +:+ m
  | Repair e => "repair error: " +:+ repair_error_display e
  | OrchIo m => "io error: " +:+ m
  | OrchJson m => "json error: " +:+ m
  | PlanIdentityMismatch field expected found =>
      "batch plan identity mismatch: " +:+ field +:+ " expected `" +:+ expected
      +:+ "` found `" +:+ found +:+ "`"
  | RunAlreadyCompleted => "run already completed; resume is a no-op"
  | RunCancelled => "batch run cancelled"
  | State (Illegal from to) =>
      "state transition error: illegal transition " +:+ state_debug from
      +:+ " → " +:+ state_debug to
  | OrchStorage m => "storage error: " +:+ m
  end.
