(* ===== verification/Overlap.v ===== *)
(** Batch path safety: the source and output locations of the datasets of a
    batch must not collide (src/crates/parqonaut-orchestrator/src/overlap.rs).
    The properties relate the syntactic test to the objects a location owns. *)

From S2P Require Import Prelude Location Errors.

Record BatchPathSpec := {
  dataset_id : string;
  source : DatasetLocation;
  output : DatasetLocation;
}.

Definition source_output_check (spec : BatchPathSpec) : Result OrchestratorError unit :=
  if locations_overlap (source spec) (output spec) then
    Err (PathOverlap ("dataset `" +:+ dataset_id spec +:+ "`: source `"
           +:+ display_uri (source spec) +:+ "` overlaps output `"
           +:+ display_uri (output spec) +:+ "`"))
  else Ok tt.

Fixpoint first_overlap (left_id right_id : string)
    (pairs : list (string * DatasetLocation * string * DatasetLocation)) : option string :=
  match pairs with
  | [] => None
  | (lk, lp, rk, rp) :: pairs =>
      if locations_overlap lp rp then
        Some ("datasets `" +:+ left_id +:+ "` and `" +:+ right_id +:+ "`: " +:+ lk +:+ " `"
                +:+ display_uri lp +:+ "` overlaps " +:+ rk +:+ " `" +:+ display_uri rp +:+ "`")
      else first_overlap left_id right_id pairs
  end.

Definition cross_overlap_detail (left right : BatchPathSpec) : option string :=
  first_overlap (dataset_id left) (dataset_id right)
    [("source", source left, "source", source right);
     ("source", source left, "output", output right);
     ("output", output left, "source", source right);
     ("output", output left, "output", output right)].

Definition cross_check (left right : BatchPathSpec) : Result OrchestratorError unit :=
  match cross_overlap_detail left right with
  | Some detail => Err (PathOverlap detail)
  | None => Ok tt
  end.

(** The two nested index loops [for i], [for j in (i + 1)..]. *)
Fixpoint cross_checks (specs : list BatchPathSpec) : Result OrchestratorError unit :=
  match specs with
  | [] => Ok tt
  | l :: rest => _ ← try_for (cross_check l) rest; cross_checks rest
  end.

Definition validate_batch_overlap (specs : list BatchPathSpec) : Result OrchestratorError unit :=
  _ ← try_for source_output_check specs;
  cross_checks specs.

(** * What the test means *)

(** The objects below a location: the paths inside a directory, the keys a
    prefix can produce. *)
Definition owns (loc : DatasetLocation) (o : ObjectLocation) : Prop :=
  match loc, o with
  | Local l, LocalObject p => path_starts_with p (path l) = true
  | S3 s, S3Object b k => b = bucket s /\ exists rel, object_key s rel = Ok k
  | _, _ => False
  end.

Lemma app_comparable a b x y :
  a +:+ x = b +:+ y -> starts_with a b = true \/ starts_with b a = true.
Proof.
  rewrite !starts_with_spec. revert b. induction a as [|c a IH]; intros [|d b]; sapp; eauto.
  intros [= -> H]. destruct (IH b H) as [[r ->]|[r ->]]; [left|right]; exists r; by sapp.
Qed.

Lemma locations_overlap_sym a b : locations_overlap a b = locations_overlap b a.
Proof.
  destruct a as [a|a], b as [b|b]; simpl; try done.
  - apply orb_comm.
  - unfold s3_prefixes_overlap. repeat case_decide; try congruence. apply orb_comm.
Qed.

(** Locations that do not overlap have no object in common. *)
Lemma disjoint_objects a b o :
  locations_overlap a b = false -> owns a o -> ~ owns b o.
Proof.
  destruct a as [a|a], b as [b|b], o as [p|bk k]; simpl; try tauto.
  - unfold paths_overlap, path_starts_with. rewrite orb_false_iff.
    intros [H1 H2] Ha Hb. apply bool_decide_eq_true in Ha, Hb. apply bool_decide_eq_false in H1, H2.
    by destruct (prefix_weak_total _ _ _ Ha Hb).
  - unfold s3_prefixes_overlap. intros Ho (-> & r1 & H1) (Hb & r2 & H2).
    rewrite decide_True, orb_false_iff in Ho by done. destruct Ho as [Ho1 Ho2].
    apply object_key_under in H1 as [x Hx], H2 as [y Hy]. rewrite Hx in Hy.
    apply app_comparable in Hy as [Hy|Hy]; congruence.
Qed.

Lemma source_output_check_Ok spec :
  source_output_check spec = Ok tt <-> locations_overlap (source spec) (output spec) = false.
Proof. unfold source_output_check. by destruct (locations_overlap _ _). Qed.

Definition clash (left right : BatchPathSpec) : bool :=
  locations_overlap (source left) (source right) || locations_overlap (source left) (output right)
  || locations_overlap (output left) (source right) || locations_overlap (output left) (output right).

Lemma cross_check_Ok left right : cross_check left right = Ok tt <-> clash left right = false.
Proof.
  unfold cross_check, cross_overlap_detail, clash. simpl.
  repeat (destruct (locations_overlap _ _); simpl; try done).
Qed.

Lemma clash_sym a b : clash a b = clash b a.
Proof.
  unfold clash. rewrite (locations_overlap_sym (source b)), (locations_overlap_sym (source b)),
    (locations_overlap_sym (output b)), (locations_overlap_sym (output b)).
  by destruct (locations_overlap (source a) (source b)), (locations_overlap (source a) (output b)),
    (locations_overlap (output a) (source b)).
Qed.

Lemma cross_checks_Ok specs :
  cross_checks specs = Ok tt <->
  forall i j a b, i < j -> specs !! i = Some a -> specs !! j = Some b -> clash a b = false.
Proof.
  induction specs as [|s rest IH]; cbn [cross_checks]; [done|].
  rewrite bind_Ok. split.
  - intros ([] & Hs & Hrest). rewrite try_for_Ok, Forall_forall in Hs.
    rewrite IH in Hrest. intros [|i] [|j] a b Hij; simpl; try lia; [|intros; eapply (Hrest i j); eauto; lia].
    intros [= <-] Hb. apply cross_check_Ok, Hs. by eapply list_elem_of_lookup_2.
  - intros H. exists tt. split.
    + apply try_for_Ok, Forall_forall. intros b [j Hj]%list_elem_of_lookup.
      apply cross_check_Ok. apply (H 0 (S j)); [lia|done|done].
    + apply IH. intros i j a b Hij Ha Hb. apply (H (S i) (S j)); [lia|done|done].
Qed.

Lemma validate_Ok specs :
  validate_batch_overlap specs = Ok tt <->
  (forall i a, specs !! i = Some a -> locations_overlap (source a) (output a) = false)
  /\ (forall i j a b, i <> j -> specs !! i = Some a -> specs !! j = Some b -> clash a b = false).
Proof.
  unfold validate_batch_overlap. rewrite bind_Ok. split.
  - intros ([] & H1 & H2). rewrite try_for_Ok, Forall_lookup in H1.
    rewrite cross_checks_Ok in H2. split.
    + intros i a Ha. by apply source_output_check_Ok, (H1 i).
    + intros i j a b Hij Ha Hb. destruct (decide (i < j)); [by eapply (H2 i j)|].
      rewrite clash_sym. apply (H2 j i); [lia|done|done].
  - intros [H1 H2]. exists tt. split.
    + apply try_for_Ok, Forall_lookup. intros i a Ha. by apply source_output_check_Ok, (H1 i).
    + apply cross_checks_Ok. intros i j a b Hij. apply H2. lia.
Qed.

Lemma cross_checks_Err specs e : cross_checks specs = Err e -> exists detail, e = PathOverlap detail.
Proof.
  induction specs as [|s rest IH]; cbn [cross_checks]; [done|].
  rewrite bind_Err. intros [He|(_ & _ & He)]; [|auto].
  apply try_for_Err in He as (? & a & ? & _ & _ & He). unfold cross_check in He.
  case_match; simplify_eq. eauto.
Qed.

Lemma validate_Err specs e :
  validate_batch_overlap specs = Err e -> exists detail, e = PathOverlap detail.
Proof.
  unfold validate_batch_overlap. rewrite bind_Err. intros [He|([] & _ & He)].
  - apply try_for_Err in He as (? & a & ? & _ & _ & He). unfold source_output_check in He.
    case_match; simplify_eq. eauto.
  - by eapply cross_checks_Err.
Qed.

Lemma clash_false a b : clash a b = false ->
  locations_overlap (output a) (source b) = false /\ locations_overlap (output a) (output b) = false.
Proof. unfold clash. rewrite !orb_false_iff. tauto. Qed.

(** The validation accepts a batch exactly when no source overlaps its own
    output and no location of one dataset overlaps a location of another;
    every rejection is a [PathOverlap]. *)
Theorem validate_batch_overlap_iff specs :
  (validate_batch_overlap specs = Ok tt <->
   (forall i a, specs !! i = Some a -> locations_overlap (source a) (output a) = false)
   /\ (forall i j a b, i <> j -> specs !! i = Some a -> specs !! j = Some b -> clash a b = false))
  /\ (forall e, validate_batch_overlap specs = Err e -> exists detail, e = PathOverlap detail).
Proof. split; [apply validate_Ok|apply validate_Err]. Qed.

(** Soundness of the test: in an accepted batch no object below a dataset's
    output belongs to any source of the batch or to another dataset's output,
    so no repair can write into data another repair reads or writes. *)
Theorem accepted_batch_outputs_private specs i j a b o :
  validate_batch_overlap specs = Ok tt ->
  specs !! i = Some a -> specs !! j = Some b -> owns (output a) o ->
  ~ owns (source b) o /\ (i = j \/ ~ owns (output b) o).
Proof.
  intros [H1 H2]%validate_Ok Ha Hb Ho. destruct (decide (i = j)) as [->|Hij].
  - simplify_eq. split; [|by left]. eapply disjoint_objects; [|done].
    rewrite locations_overlap_sym. by eapply H1.
  - destruct (clash_false a b) as [Hs Ho']; [by eapply H2|].
    split; [|right]; by eapply disjoint_objects.
Qed.

Definition example_a : BatchPathSpec :=
  {| dataset_id := "a"; source := Local (mkLocal "/data/a/src"); output := Local (mkLocal "/data/a/out") |}.
Definition example_b : BatchPathSpec :=
  {| dataset_id := "b"; source := Local (mkLocal "/data/b/src"); output := S3 (mkS3 "lake" "fixed/b") |}.

Lemma accepted_batch_outputs_private_witness :
  ~ owns (source example_b) (LocalObject "/data/a/out/x.parquet")
  /\ (0 = 1 \/ ~ owns (output example_b) (LocalObject "/data/a/out/x.parquet")).
Proof.
  apply (accepted_batch_outputs_private [example_a; example_b] 0 1 example_a example_b);
    vm_compute; reflexivity.
Defined.
