(* ===== verification/Backend.v ===== *)
(** The storage backend interface: capabilities, metadata, conditions, ranges
    and metrics (src/crates/parqonaut-storage/src/{backend,capabilities,
    conditional,metadata,metrics}.rs).

    [StorageBackend] is the trait as a class of state-passing operations; the
    clients of the trait are written as programs over its calls ([prog]), so
    that one and the same definition can be run against a backend ([run]) and
    interleaved with other clients call by call.  [BackendLaws] states what a
    client may rely on, and [ReliableBackend] what it may rely on when no
    request fails. *)

From Stdlib Require Import Strings.Byte.
From S2P Require Import Prelude Location.

Abbreviation bytes := (list byte).

(** * Data *)

Record StorageCapabilities := {
  range_reads : bool;
  stream_reads : bool;
  stream_writes : bool;
  multipart_upload : bool;
  cap_conditional_create : bool;
  cap_conditional_replace : bool;
  server_side_copy : bool;
  version_ids : bool;
}.

Definition CAPS_LOCAL : StorageCapabilities := {|
  range_reads := true; stream_reads := true; stream_writes := true; multipart_upload := false;
  cap_conditional_create := true; cap_conditional_replace := true; server_side_copy := false;
  version_ids := false |}.

Definition CAPS_S3 : StorageCapabilities := {|
  range_reads := true; stream_reads := true; stream_writes := true; multipart_upload := true;
  cap_conditional_create := true; cap_conditional_replace := true; server_side_copy := true;
  version_ids := true |}.

Definition CAPS_NONE : StorageCapabilities := {|
  range_reads := false; stream_reads := false; stream_writes := false; multipart_upload := false;
  cap_conditional_create := false; cap_conditional_replace := false; server_side_copy := false;
  version_ids := false |}.

(** Timestamps are seconds; sizes are [u64]. *)
Record ObjectMetadata := {
  md_location : ObjectLocation;
  md_size : Z;
  md_etag : option string;
  md_version_id : option string;
  md_last_modified : option Z;
}.

Record ConditionalCreate := { if_absent : bool }.
Definition must_not_exist : ConditionalCreate := {| if_absent := true |}.

Record ConditionalReplace := {
  expected_etag : option string;
  expected_version_id : option string;
}.
Definition matching (metadata : ObjectMetadata) : ConditionalReplace :=
  {| expected_etag := md_etag metadata; expected_version_id := md_version_id metadata |}.

(** Inclusive byte range. *)
Record ByteRange := { range_start : Z; range_end : Z }.

Definition byte_range_new (start end_ : Z) : Result StorageError ByteRange :=
  if (end_ <? start)%Z then
    Err (InvalidLocation ("invalid byte range: " +:+ pretty start +:+ "..=" +:+ pretty end_))
  else Ok {| range_start := start; range_end := end_ |}.

Definition byte_range_len (r : ByteRange) : Z := (saturating_sub (range_end r) (range_start r) + 1)%Z.
Definition byte_range_is_empty (r : ByteRange) : bool := (byte_range_len r =? 0)%Z.

Record StorageMetrics := {
  head_requests : Z;
  list_requests : Z;
  range_get_requests : Z;
  full_get_requests : Z;
  put_requests : Z;
  multipart_parts : Z;
  bytes_read : Z;
  bytes_written : Z;
  range_bytes_read : Z;
  retries : Z;
}.

Definition metrics_zero : StorageMetrics := {|
  head_requests := 0; list_requests := 0; range_get_requests := 0; full_get_requests := 0;
  put_requests := 0; multipart_parts := 0; bytes_read := 0; bytes_written := 0;
  range_bytes_read := 0; retries := 0 |}.

(** The collector's [fetch_add] wraps around at 64 bits. *)
Definition record_head (m : StorageMetrics) : StorageMetrics := {|
  head_requests := wrap_u64 (head_requests m + 1); list_requests := list_requests m;
  range_get_requests := range_get_requests m; full_get_requests := full_get_requests m;
  put_requests := put_requests m; multipart_parts := multipart_parts m;
  bytes_read := bytes_read m; bytes_written := bytes_written m;
  range_bytes_read := range_bytes_read m; retries := retries m |}.

Definition record_range_get (n : Z) (m : StorageMetrics) : StorageMetrics := {|
  head_requests := head_requests m; list_requests := list_requests m;
  range_get_requests := wrap_u64 (range_get_requests m + 1);
  full_get_requests := full_get_requests m; put_requests := put_requests m;
  multipart_parts := multipart_parts m; bytes_read := wrap_u64 (bytes_read m + n);
  bytes_written := bytes_written m; range_bytes_read := wrap_u64 (range_bytes_read m + n);
  retries := retries m |}.

Definition record_full_get (n : Z) (m : StorageMetrics) : StorageMetrics := {|
  head_requests := head_requests m; list_requests := list_requests m;
  range_get_requests := range_get_requests m;
  full_get_requests := wrap_u64 (full_get_requests m + 1); put_requests := put_requests m;
  multipart_parts := multipart_parts m; bytes_read := wrap_u64 (bytes_read m + n);
  bytes_written := bytes_written m; range_bytes_read := range_bytes_read m;
  retries := retries m |}.

Definition record_put (n : Z) (m : StorageMetrics) : StorageMetrics := {|
  head_requests := head_requests m; list_requests := list_requests m;
  range_get_requests := range_get_requests m; full_get_requests := full_get_requests m;
  put_requests := wrap_u64 (put_requests m + 1); multipart_parts := multipart_parts m;
  bytes_read := bytes_read m; bytes_written := wrap_u64 (bytes_written m + n);
  range_bytes_read := range_bytes_read m; retries := retries m |}.

(** * The trait *)

(** [read_all] is [read_stream(object, None)] followed by [read_to_end]: the
    inner error is an I/O error of the stream, by its display form. *)
Class StorageBackend (St : Type) := {
  capabilities : St -> StorageCapabilities;
  metrics : St -> StorageMetrics;
  head : ObjectLocation -> St -> Result StorageError ObjectMetadata * St;
  read_range : ObjectLocation -> ByteRange -> St -> Result StorageError bytes * St;
  read_all : ObjectLocation -> St -> Result StorageError (Result string bytes) * St;
  conditional_create :
    ObjectLocation -> ConditionalCreate -> bytes -> St -> Result StorageError ObjectMetadata * St;
  conditional_replace :
    ObjectLocation -> ConditionalReplace -> bytes -> St -> Result StorageError ObjectMetadata * St;
  delete_owned_object : ObjectLocation -> St -> Result StorageError unit * St;
}.

(** * Client programs *)

Inductive call :=
| CCapabilities
| CMetrics
| CHead (o : ObjectLocation)
| CReadRange (o : ObjectLocation) (r : ByteRange)
| CReadAll (o : ObjectLocation)
| CCreate (o : ObjectLocation) (c : ConditionalCreate) (data : bytes)
| CReplace (o : ObjectLocation) (c : ConditionalReplace) (data : bytes)
| CDelete (o : ObjectLocation).

Definition answer (c : call) : Type :=
  match c with
  | CCapabilities => StorageCapabilities
  | CMetrics => StorageMetrics
  | CHead _ => Result StorageError ObjectMetadata
  | CReadRange _ _ => Result StorageError bytes
  | CReadAll _ => Result StorageError (Result string bytes)
  | CCreate _ _ _ => Result StorageError ObjectMetadata
  | CReplace _ _ _ => Result StorageError ObjectMetadata
  | CDelete _ => Result StorageError unit
  end.

Inductive prog (A : Type) : Type :=
| Ret (a : A)
| Call (c : call) (k : answer c -> prog A).
Arguments Ret {_} _.
Arguments Call {_} _ _.

#[global] Instance prog_ret : MRet prog := fun _ a => Ret a.
#[global] Instance prog_bind : MBind prog := fun A B f =>
  fix go (p : prog A) : prog B :=
    match p with Ret a => f a | Call c k => Call c (fun x => go (k x)) end.

#[global] Instance prog_fmap : FMap prog := fun A B f p => p ≫= fun a => Ret (f a).

(** A single request. *)
Definition request (c : call) : prog (answer c) := Call c Ret.

Definition exec_call {St} `{StorageBackend St} (c : call) (s : St) : answer c * St :=
  match c with
  | CCapabilities => (capabilities s, s)
  | CMetrics => (metrics s, s)
  | CHead o => head o s
  | CReadRange o r => read_range o r s
  | CReadAll o => read_all o s
  | CCreate o c data => conditional_create o c data s
  | CReplace o c data => conditional_replace o c data s
  | CDelete o => delete_owned_object o s
  end.

(** Run a program to completion against a backend, alone. *)
Fixpoint run {St} `{StorageBackend St} {A} (p : prog A) (s : St) : A * St :=
  match p with
  | Ret a => (a, s)
  | Call c k => let '(x, s') := exec_call c s in run (k x) s'
  end.

Lemma run_bind {St} `{StorageBackend St} {A B} (p : prog A) (f : A -> prog B) s :
  run (p ≫= f) s = let '(a, s') := run p s in run (f a) s'.
Proof.
  revert s. induction p as [a|c k IH]; intros s; [done|].
  simpl. destruct (exec_call c s) as [x s']. apply IH.
Qed.

(** Programs that return a result: the source's [?]. *)
Definition try {E A B} (p : prog (Result E A)) (f : A -> prog (Result E B)) : prog (Result E B) :=
  r ← p; match r with Ok a => f a | Err e => Ret (Err e) end.

Declare Scope prog_scope.
Delimit Scope prog_scope with prog.
Notation "x <-? p ;; q" := (try p (fun x => q))
  (at level 100, p at next level, right associativity) : prog_scope.

Definition lift_result {E A} (r : Result E A) : prog (Result E A) := Ret r.

(** * What a backend promises *)

(** A backend's objects, as the contents a client can observe. *)
Definition objects := ObjectLocation -> option bytes.

Definition upd (m : objects) (o : ObjectLocation) (v : option bytes) : objects :=
  fun o' => if decide (o = o') then v else m o'.

(** Equality of contents on the locations a backend tells apart. *)
Definition same_on (D : ObjectLocation -> Prop) (m m' : objects) : Prop :=
  forall o, D o -> m' o = m o.

(** A failed write may or may not have taken effect (a lost response); a
    [Conflict] means that it did not, a [NotFound] that the object is absent. *)
Class BackendLaws (St : Type) `{StorageBackend St} := {
  view : St -> objects;
  addressable : ObjectLocation -> Prop;
  law_caps : forall c s, capabilities (snd (exec_call c s)) = capabilities s;
  law_head : forall o s r s', head o s = (r, s') ->
    same_on addressable (view s) (view s') /\
    match r with
    | Ok md => exists d, view s o = Some d /\ md_size md = Z.of_nat (length d)
    | Err (NotFound _) => view s o = None
    | Err _ => True
    end;
  law_read_range : forall o br s r s', (0 <= range_start br <= range_end br)%Z ->
    read_range o br s = (r, s') ->
    same_on addressable (view s) (view s') /\
    match r with
    | Ok b => exists d, view s o = Some d /\
        b = take (Z.to_nat (byte_range_len br)) (drop (Z.to_nat (range_start br)) d)
    | Err _ => True
    end;
  law_read_all : forall o s r s', read_all o s = (r, s') ->
    same_on addressable (view s) (view s') /\
    match r with
    | Ok (Ok b) => view s o = Some b
    | Err (NotFound _) => view s o = None
    | _ => True
    end;
  law_create : forall o data s r s', addressable o ->
    conditional_create o must_not_exist data s = (r, s') ->
    match r with
    | Ok _ => view s o = None /\ same_on addressable (upd (view s) o (Some data)) (view s')
    | Err (Conflict _) => same_on addressable (view s) (view s')
    | Err _ => same_on addressable (view s) (view s')
        \/ view s o = None /\ same_on addressable (upd (view s) o (Some data)) (view s')
    end;
  law_replace : forall o c data s r s', addressable o ->
    conditional_replace o c data s = (r, s') ->
    match r with
    | Ok _ => view s o <> None /\ same_on addressable (upd (view s) o (Some data)) (view s')
    | Err _ => same_on addressable (view s) (view s')
        \/ view s o <> None /\ same_on addressable (upd (view s) o (Some data)) (view s')
    end;
  law_delete : forall o s r s', addressable o ->
    delete_owned_object o s = (r, s') ->
    match r with
    | Ok _ => same_on addressable (upd (view s) o None) (view s')
    | Err _ => same_on addressable (view s) (view s')
        \/ same_on addressable (upd (view s) o None) (view s')
    end;
}.

(** A backend in a state on which no request fails: what a request answers is
    determined by the contents, and a replace conditioned on metadata just read
    succeeds. *)
Class ReliableBackend (St : Type) `{BackendLaws St} := {
  reliable : St -> Prop;
  rel_pres : forall c s, reliable s -> reliable (snd (exec_call c s));
  rel_caps : forall s, reliable s -> cap_conditional_create (capabilities s) = true;
  rel_head_some : forall o s, reliable s -> view s o <> None -> exists md s', head o s = (Ok md, s');
  rel_head_none : forall o s, reliable s -> view s o = None ->
    exists l s', head o s = (Err (NotFound l), s');
  rel_read_some : forall o s d, reliable s -> view s o = Some d ->
    exists s', read_all o s = (Ok (Ok d), s');
  rel_read_none : forall o s, reliable s -> view s o = None ->
    exists l s', read_all o s = (Err (NotFound l), s');
  rel_create_none : forall o d s, reliable s -> addressable o -> view s o = None ->
    exists md s', conditional_create o must_not_exist d s = (Ok md, s');
  rel_create_some : forall o d s, reliable s -> addressable o -> view s o <> None ->
    exists m s', conditional_create o must_not_exist d s = (Err (Conflict m), s');
  rel_replace : forall o d s s1 md, reliable s -> addressable o -> head o s = (Ok md, s1) ->
    exists md' s', conditional_replace o (matching md) d s1 = (Ok md', s');
  rel_delete : forall o s, reliable s -> addressable o ->
    exists s', delete_owned_object o s = (Ok tt, s');
}.

(** * Lemmas *)

Lemma upd_eq m o v : upd m o v o = v.
Proof. unfold upd. by rewrite decide_True. Qed.

Lemma upd_ne m o o' v : o <> o' -> upd m o v o' = m o'.
Proof. intros. unfold upd. by rewrite decide_False. Qed.

#[global] Instance same_on_equiv D : Equivalence (same_on D).
Proof.
  split; [done|by intros m m' H o Ho; symmetry; apply H|].
  intros m1 m2 m3 H1 H2 o Ho. by rewrite H2, H1.
Qed.

#[global] Instance upd_proper D o v : Proper (same_on D ==> same_on D) (fun m => upd m o v).
Proof. intros m m' H o' Ho'. unfold upd. case_decide; [done|by apply H]. Qed.

#[export] Hint Rewrite upd_eq : parq.
