(* ===== verification/Memory.v ===== *)
(** The in-memory backend (src/crates/parqonaut-storage/src/memory.rs), shown
    to satisfy [BackendLaws] and, with the conditional capabilities enabled,
    [ReliableBackend]; the streams of an object (stream.rs of the same crate), the
    placeholder backend (noop.rs), and the backend that injects faults into another
    one (chaos.rs), which keeps the laws of the one it wraps. *)

From Stdlib Require Import Ascii Strings.Byte.
From S2P Require Import Prelude Location Backend.

Record StoredObject := { data : bytes; etag : string; version_id : Z }.

(** [Arc<RwLock<MemoryState>>], the metrics collector and the capabilities. *)
Record MemoryBackend := {
  stored : gmap string StoredObject;
  collector : StorageMetrics;
  caps : StorageCapabilities;
}.

Definition memory_new (c : StorageCapabilities) : MemoryBackend :=
  {| stored := ∅; collector := metrics_zero; caps := c |}.

Definition with_metrics (f : StorageMetrics -> StorageMetrics) (s : MemoryBackend) : MemoryBackend :=
  {| stored := stored s; collector := f (collector s); caps := caps s |}.

Definition with_stored (m : gmap string StoredObject) (s : MemoryBackend) : MemoryBackend :=
  {| stored := m; collector := collector s; caps := caps s |}.

Definition key (object : ObjectLocation) : string :=
  match object with
  | LocalObject p => "local:" +:+ p
  | S3Object b k => "s3:" +:+ b +:+ "/" +:+ k
  end.

Definition object_metadata_from_key (k : string) (st : StoredObject) : ObjectMetadata :=
  let location :=
    match strip_prefix "local:" k with
    | Some rest => LocalObject rest
    | None =>
        match strip_prefix "s3:" k with
        | Some rest =>
            let '(b, object_key) :=
              match split_once "/"%char rest with Some p => p | None => (rest, EmptyString) end in
            S3Object b object_key
        | None => LocalObject k
        end
    end in
  {| md_location := location;
     md_size := Z.of_nat (length (data st));
     md_etag := Some (etag st);
     md_version_id := Some (pretty (version_id st));
     md_last_modified := None |}.

(** [Bytes::slice(start..=end)]; ranges from [ByteRange::new] have [start <= end]. *)
Definition slice (start end_ : Z) (d : bytes) : bytes :=
  take (Z.to_nat (end_ + 1 - start)) (drop (Z.to_nat start) d).

Definition memory_head (o : ObjectLocation) (s : MemoryBackend)
    : Result StorageError ObjectMetadata * MemoryBackend :=
  let s := with_metrics record_head s in
  match stored s !! key o with
  | Some st => (Ok (object_metadata_from_key (key o) st), s)
  | None => (Err (NotFound (object_display_uri o)), s)
  end.

Definition memory_read_range (o : ObjectLocation) (range : ByteRange) (s : MemoryBackend)
    : Result StorageError bytes * MemoryBackend :=
  let '(r, s) := memory_head o s in
  match r with
  | Err e => (Err e, s)
  | Ok _ =>
      (* [.unwrap()]: the [head] above found the object. *)
      match stored s !! key o with
      | None => (Err (NotFound (object_display_uri o)), s)
      | Some st =>
          let len := Z.of_nat (length (data st)) in
          let start := range_start range in
          let end_ := Z.min (range_end range) (saturating_sub len 1) in
          if (len <=? start)%Z then (Err (InvalidLocation "range start beyond object size"), s)
          else let b := slice start end_ (data st) in
               (Ok b, with_metrics (record_range_get (Z.of_nat (length b))) s)
      end
  end.

Definition memory_read_stream (o : ObjectLocation) (range : option ByteRange) (s : MemoryBackend)
    : Result StorageError bytes * MemoryBackend :=
  match range with
  | Some r => memory_read_range o r s
  | None =>
      match stored s !! key o with
      | Some st => (Ok (data st), with_metrics (record_full_get (Z.of_nat (length (data st)))) s)
      | None => (Err (NotFound (object_display_uri o)), s)
      end
  end.

(** A stream over bytes in memory is read to its end without errors. *)
Definition memory_read_all (o : ObjectLocation) (s : MemoryBackend)
    : Result StorageError (Result string bytes) * MemoryBackend :=
  let '(r, s) := memory_read_stream o None s in (Ok <$> r, s).

(** No write stream is ever opened: the result type has no success value. *)
Definition memory_write_stream (s : MemoryBackend) : StorageError :=
  if stream_writes (caps s)
  then UnsupportedCapability "memory write_stream use conditional_create in tests"
  else UnsupportedCapability "stream_writes".

Definition mem_etag (d : bytes) : string := "mem-" +:+ pretty (length d).

Definition memory_conditional_create (o : ObjectLocation) (c : ConditionalCreate) (d : bytes)
    (s : MemoryBackend) : Result StorageError ObjectMetadata * MemoryBackend :=
  if negb (cap_conditional_create (caps s))
  then (Err (UnsupportedCapability "conditional_create"), s)
  else
    let k := key o in
    if if_absent c && bool_decide (is_Some (stored s !! k))
    then (Err (Conflict ("object already exists: " +:+ k)), s)
    else
      let st := {| data := d; etag := mem_etag d;
                   version_id := wrap_u64 (Z.of_nat (size (stored s)) + 1) |} in
      (Ok (object_metadata_from_key k st),
       with_metrics (record_put (Z.of_nat (length d))) (with_stored (<[k := st]> (stored s)) s)).

Definition memory_conditional_replace (o : ObjectLocation) (c : ConditionalReplace) (d : bytes)
    (s : MemoryBackend) : Result StorageError ObjectMetadata * MemoryBackend :=
  if negb (cap_conditional_replace (caps s))
  then (Err (UnsupportedCapability "conditional_replace"), s)
  else
    let k := key o in
    match stored s !! k with
    | None => (Err (NotFound (object_display_uri o)), s)
    | Some existing =>
        if negb (bool_decide (expected_etag c = Some (etag existing)))
        then (Err (PreconditionFailed "etag mismatch"), s)
        else
          let st := {| data := d; etag := mem_etag d;
                       version_id := wrap_u64 (version_id existing + 1) |} in
          (Ok (object_metadata_from_key k st),
           with_metrics (record_put (Z.of_nat (length d))) (with_stored (<[k := st]> (stored s)) s))
    end.

Definition memory_delete_owned_object (o : ObjectLocation) (s : MemoryBackend)
    : Result StorageError unit * MemoryBackend :=
  (Ok tt, with_stored (delete (key o) (stored s)) s).

#[global] Instance MemoryStorageBackend : StorageBackend MemoryBackend := {|
  capabilities := caps;
  metrics := collector;
  head := memory_head;
  read_range := memory_read_range;
  read_all := memory_read_all;
  conditional_create := memory_conditional_create;
  conditional_replace := memory_conditional_replace;
  delete_owned_object := memory_delete_owned_object;
|}.

(** * The laws *)

Definition memory_view (s : MemoryBackend) : objects := fun o => data <$> stored s !! key o.

(** Bucket names hold no slash; the memory key is then injective. *)
Definition memory_addressable (o : ObjectLocation) : Prop :=
  match o with S3Object b _ => has_char "/"%char b = false | LocalObject _ => True end.

Lemma memory_key_inj o o' :
  memory_addressable o -> memory_addressable o' -> key o = key o' -> o = o'.
Proof.
  destruct o as [p|b k], o' as [p'|b' k']; simpl; intros H1 H2 He; try done.
  - apply (inj (String.app _)) in He. by subst.
  - apply (inj (String.app "s3:")) in He. by destruct (sep_inj _ _ _ _ _ H1 H2 He) as [-> ->].
Qed.

Lemma memory_view_insert s o d st :
  memory_addressable o -> data st = d ->
  same_on memory_addressable (upd (memory_view s) o (Some d))
    (memory_view (with_stored (<[key o := st]> (stored s)) s)).
Proof.
  intros Ho <- o' Ho'. unfold memory_view, upd. simpl. case_decide as E.
  - subst. by rewrite lookup_insert_eq.
  - rewrite lookup_insert_ne; [done|]. intros Hk. by apply E, memory_key_inj.
Qed.

Lemma memory_view_delete s o :
  memory_addressable o ->
  same_on memory_addressable (upd (memory_view s) o None)
    (memory_view (with_stored (delete (key o) (stored s)) s)).
Proof.
  intros Ho o' Ho'. unfold memory_view, upd. simpl. case_decide as E.
  - subst. by rewrite lookup_delete_eq.
  - rewrite lookup_delete_ne; [done|]. intros Hk. by apply E, memory_key_inj.
Qed.

Lemma memory_head_spec o s :
  memory_head o s =
  (match stored s !! key o with
   | Some st => Ok (object_metadata_from_key (key o) st)
   | None => Err (NotFound (object_display_uri o))
   end, with_metrics record_head s).
Proof. unfold memory_head. simpl. by destruct (stored s !! key o). Qed.

Lemma slice_clamp start end_ (d : bytes) :
  (0 <= start)%Z -> (start <= end_)%Z -> (start < Z.of_nat (length d))%Z ->
  slice start (Z.min end_ (saturating_sub (Z.of_nat (length d)) 1)) d
  = take (Z.to_nat (end_ - start + 1)) (drop (Z.to_nat start) d).
Proof.
  intros H0 Hse Hs. unfold slice, saturating_sub.
  assert (length (drop (Z.to_nat start) d) = length d - Z.to_nat start) as Hl by apply length_drop.
  destruct (decide (end_ <= Z.of_nat (length d) - 1)%Z).
  - f_equal. lia.
  - rewrite !take_ge by lia. done.
Qed.

Lemma memory_create_spec o d s :
  memory_conditional_create o must_not_exist d s =
  if negb (cap_conditional_create (caps s))
  then (Err (UnsupportedCapability "conditional_create"), s)
  else match stored s !! key o with
       | Some _ => (Err (Conflict ("object already exists: " +:+ key o)), s)
       | None =>
           let st := {| data := d; etag := mem_etag d;
                        version_id := wrap_u64 (Z.of_nat (size (stored s)) + 1) |} in
           (Ok (object_metadata_from_key (key o) st),
            with_metrics (record_put (Z.of_nat (length d)))
              (with_stored (<[key o := st]> (stored s)) s))
       end.
Proof.
  unfold memory_conditional_create. simpl. destruct (negb _); [done|].
  by destruct (stored s !! key o).
Qed.

#[global] Program Instance MemoryLaws : BackendLaws MemoryBackend := {|
  view := memory_view; addressable := memory_addressable |}.
Next Obligation.
  intros c s. destruct c; simpl; try done.
  - by rewrite memory_head_spec.
  - unfold memory_read_range. rewrite memory_head_spec. split_match; done.
  - unfold memory_read_all. simpl. split_match; done.
  - unfold memory_conditional_create. split_match; done.
  - unfold memory_conditional_replace. split_match; done.
Qed.
Next Obligation.
  intros o s r s'. simpl. rewrite memory_head_spec. intros [= <- <-]. split; [done|].
  unfold memory_view. destruct (stored s !! key o); simpl; [eauto|done].
Qed.
Next Obligation.
  intros o br s r s' Hbr. simpl. unfold memory_read_range. rewrite memory_head_spec.
  unfold memory_view. simpl. destruct (stored s !! key o) as [st|] eqn:E; simpl; rewrite ?E.
  - case_match; intros [= <- <-]; (split; [done|]); [done|]. exists (data st). split; [done|].
    rewrite slice_clamp by lia. unfold byte_range_len, saturating_sub. f_equal. lia.
  - by intros [= <- <-].
Qed.
Next Obligation.
  intros o s r s'. simpl. unfold memory_read_all, memory_view. simpl.
  by destruct (stored s !! key o) eqn:E; simpl; intros [= <- <-].
Qed.
Next Obligation.
  intros o d s r s' Ho. simpl. rewrite memory_create_spec.
  destruct (negb _); [intros [= <- <-]; by left|].
  destruct (stored s !! key o) eqn:E; intros [= <- <-]; simpl; [done|].
  split; [unfold memory_view; by rewrite E|by apply memory_view_insert].
Qed.
Next Obligation.
  intros o c d s r s' Ho. simpl. unfold memory_conditional_replace.
  destruct (negb _); [intros [= <- <-]; by left|].
  destruct (stored s !! key o) as [st|] eqn:E; [|intros [= <- <-]; by left].
  destruct (negb _); intros [= <- <-]; [by left|].
  split; [unfold memory_view; by rewrite E|by apply memory_view_insert].
Qed.
Next Obligation.
  intros o s r s' Ho [= <- <-]. by apply memory_view_delete.
Qed.

Lemma memory_view_None s o : memory_view s o = None <-> stored s !! key o = None.
Proof. unfold memory_view. apply fmap_None. Qed.

Lemma memory_view_ne s o : memory_view s o <> None <-> is_Some (stored s !! key o).
Proof. rewrite memory_view_None. apply not_eq_None_Some. Qed.

#[global] Program Instance MemoryReliable : ReliableBackend MemoryBackend := {|
  reliable s := cap_conditional_create (caps s) = true /\ cap_conditional_replace (caps s) = true |}.
Next Obligation.
  intros c s Hs. pose proof (law_caps c s) as Hc.
  destruct (exec_call c s) as [x s']. simpl in *. by rewrite Hc.
Qed.
Next Obligation. by intros s [? ?]. Qed.
Next Obligation.
  intros o s _ [st Hst]%memory_view_ne. simpl. rewrite memory_head_spec, Hst. eauto.
Qed.
Next Obligation.
  intros o s _ Hn%memory_view_None. simpl. rewrite memory_head_spec, Hn. eauto.
Qed.
Next Obligation.
  intros o s d _ Hd. simpl in *. unfold memory_read_all, memory_view in *. simpl.
  destruct (stored s !! key o); simplify_eq/=. eauto.
Qed.
Next Obligation.
  intros o s _ Hn%memory_view_None. simpl. unfold memory_read_all. simpl. rewrite Hn. simpl. eauto.
Qed.
Next Obligation.
  intros o d s [Hc _] Ho Hn%memory_view_None. simpl. rewrite memory_create_spec, Hc, Hn. eauto.
Qed.
Next Obligation.
  intros o d s [Hc _] Ho [st Hst]%memory_view_ne. simpl. rewrite memory_create_spec, Hc, Hst. eauto.
Qed.
Next Obligation.
  intros o d s s1 md [_ Hc] Ho. simpl. rewrite memory_head_spec.
  destruct (stored s !! key o) as [st|] eqn:E; intros [= <- <-].
  unfold memory_conditional_replace. simpl. rewrite Hc, E. simpl.
  rewrite bool_decide_eq_true_2 by done. simpl. eauto.
Qed.
Next Obligation. intros o s _ _. simpl. unfold memory_delete_owned_object. eauto. Qed.

(** * Properties *)

(** Writing an object that is absent and reading it back returns the bytes
    written; a second conditional create conflicts and leaves them in place. *)
Theorem memory_create_read_roundtrip o d d' s :
  cap_conditional_create (caps s) = true -> memory_view s o = None ->
  let '(r, s1) := memory_conditional_create o must_not_exist d s in
  let '(r', s2) := memory_conditional_create o must_not_exist d' s1 in
  is_ok r = true /\ r' = Err (Conflict ("object already exists: " +:+ key o))
  /\ fst (memory_read_all o s2) = Ok (Ok d)
  /\ fst (memory_head o s2) = r.
Proof.
  intros Hc Hn%memory_view_None. rewrite memory_create_spec, Hc, Hn. cbn -[memory_head].
  rewrite memory_create_spec. cbn -[memory_head]. rewrite Hc. cbn -[memory_head].
  rewrite lookup_insert_eq. split; [done|]. split; [done|].
  unfold memory_read_all. rewrite memory_head_spec. simpl. by rewrite lookup_insert_eq.
Qed.

Lemma memory_create_read_roundtrip_witness :
  let o := S3Object "lake" "a/b.parquet" in
  let '(r, s1) := memory_conditional_create o must_not_exist ["000"%byte] (memory_new CAPS_S3) in
  let '(r', s2) := memory_conditional_create o must_not_exist [] s1 in
  is_ok r = true /\ r' = Err (Conflict ("object already exists: " +:+ key o))
  /\ fst (memory_read_all o s2) = Ok (Ok ["000"%byte])
  /\ fst (memory_head o s2) = r.
Proof.
  exact (memory_create_read_roundtrip (S3Object "lake" "a/b.parquet") ["000"%byte] []
           (memory_new CAPS_S3) eq_refl eq_refl).
Defined.

(** * Streams (stream.rs) *)

Module Streams.

(** [AsyncRead] as the polls that are ready: a reader is asked to fill a buffer of
    some capacity; an empty answer is the end.  Errors by their display form. *)
Record ObjectReadStream (R : Type) := { reader : R; ors_bytes_read : Z }.
Arguments reader {_} _.
Arguments ors_bytes_read {_} _.
Arguments Build_ObjectReadStream {_} _ _.

Section Reading.
Context {R : Type} (poll : Z -> R -> Result string bytes * R).

Definition read_stream_new (r : R) : ObjectReadStream R := {| reader := r; ors_bytes_read := 0 |}.

Definition stream_poll_read (capacity : Z) (s : ObjectReadStream R) : Result string bytes * ObjectReadStream R :=
  match poll capacity (reader s) with
  | (Ok b, r) => (Ok b, {| reader := r; ors_bytes_read := (ors_bytes_read s + Z.of_nat (length b))%Z |})
  | (Err e, r) => (Err e, {| reader := r; ors_bytes_read := ors_bytes_read s |})
  end.

(** [read_to_end]: reads until an empty answer, with whatever buffers. *)
Fixpoint read_to_end (fuel : nat) (capacity : nat -> Z) (acc : bytes) (s : ObjectReadStream R) :
    option (Result string bytes * ObjectReadStream R) :=
  match fuel with
  | O => None
  | S fuel =>
      match stream_poll_read (capacity fuel) s with
      | (Ok [], s) => Some (Ok acc, s)
      | (Ok b, s) => read_to_end fuel capacity (acc ++ b) s
      | (Err e, s) => Some (Err e, s)
      end
  end.
End Reading.

Record BytesReader := { br_data : bytes; br_pos : Z }.

Definition bytes_poll_read (capacity : Z) (r : BytesReader) : Result string bytes * BytesReader :=
  if (Z.of_nat (length (br_data r)) <=? br_pos r)%Z then (Ok [], r)
  else
    let remaining := drop (Z.to_nat (br_pos r)) (br_data r) in
    let to_copy := Z.min (Z.of_nat (length remaining)) capacity in
    (Ok (take (Z.to_nat to_copy) remaining), {| br_data := br_data r; br_pos := (br_pos r + to_copy)%Z |}).

Definition from_bytes (data : bytes) : ObjectReadStream BytesReader := read_stream_new {| br_data := data; br_pos := 0 |}.

Lemma read_to_end_from fuel capacity pos data : (forall n, 0 < capacity n)%Z -> pos <= length data ->
  length data - pos < fuel ->
  read_to_end bytes_poll_read fuel capacity (take pos data)
    {| reader := {| br_data := data; br_pos := Z.of_nat pos |}; ors_bytes_read := Z.of_nat pos |} =
  Some (Ok data, {| reader := {| br_data := data; br_pos := Z.of_nat (length data) |}; ors_bytes_read := Z.of_nat (length data) |}).
Proof.
  intros Hcap. revert pos. induction fuel as [|fuel IH]; intros pos Hpos Hfuel; [lia|]. cbn [read_to_end].
  unfold stream_poll_read, bytes_poll_read. cbn [reader br_data br_pos ors_bytes_read]. specialize (Hcap fuel).
  destruct (Z.leb_spec (Z.of_nat (length data)) (Z.of_nat pos)) as [Hle|Hlt].
  - assert (pos = length data) as -> by lia. rewrite firstn_all. cbn. by rewrite Z.add_0_r.
  - rewrite Nat2Z.id, length_drop. set (n := Z.to_nat (Z.min (Z.of_nat (length data - pos)) (capacity fuel))).
    assert (0 < n <= length data - pos) as Hn by lia.
    assert (Z.min (Z.of_nat (length data - pos)) (capacity fuel) = Z.of_nat n) as -> by lia.
    assert (length (take n (drop pos data)) = n) as Hl by (rewrite length_take, length_drop; lia).
    rewrite Hl. specialize (IH (pos + n) ltac:(lia) ltac:(lia)).
    rewrite Nat2Z.inj_add in IH. rewrite <- IH, <- take_take_drop.
    destruct (take n (drop pos data)) eqn:E; [cbn in Hl; lia|done].
Qed.

(** A stream over bytes in memory, read to its end with any buffers that have room,
    gives exactly the bytes and counts them. *)
Theorem bytes_stream_complete data capacity : (forall n, 0 < capacity n)%Z ->
  exists s, read_to_end bytes_poll_read (S (length data)) capacity [] (from_bytes data) = Some (Ok data, s) /\
    ors_bytes_read s = Z.of_nat (length data).
Proof. intros Hcap. eexists. split; [exact (read_to_end_from (S (length data)) capacity 0 data Hcap ltac:(lia) ltac:(lia))|done]. Qed.

(** The write stream: a writer, the bytes it took, and the hook of fault injection,
    a function on a state of its own. *)
Record ObjectWriteStream (W : Type) := { writer : W; ows_bytes_written : Z }.
Arguments writer {_} _.
Arguments ows_bytes_written {_} _.
Arguments Build_ObjectWriteStream {_} _ _.

Section Writing.
Context {W H : Type} (write : bytes -> W -> Result string unit * W) (shutdown : W -> Result string unit * W).

Definition write_stream_new (w : W) : ObjectWriteStream W := {| writer := w; ows_bytes_written := 0 |}.

Definition write_all (before_write : option (H -> Result StorageError unit * H)) (buf : bytes) (s : ObjectWriteStream W) (h : H) :
    Result StorageError unit * (ObjectWriteStream W * H) :=
  let '(hooked, h) := match before_write with Some hook => hook h | None => (Ok tt, h) end in
  match hooked with
  | Err e => (Err e, (s, h))
  | Ok _ =>
      match write buf (writer s) with
      | (Ok _, w) => (Ok tt, ({| writer := w; ows_bytes_written := (ows_bytes_written s + Z.of_nat (length buf))%Z |}, h))
      | (Err e, w) => (Err (Io e), ({| writer := w; ows_bytes_written := ows_bytes_written s |}, h))
      end
  end.

Definition stream_finish (s : ObjectWriteStream W) : Result StorageError Z * W :=
  match shutdown (writer s) with
  | (Ok _, w) => (Ok (ows_bytes_written s), w)
  | (Err e, w) => (Err (Io e), w)
  end.

(** A caller that writes chunk after chunk and gives up at an error. *)
Fixpoint write_chunks (before_write : option (H -> Result StorageError unit * H)) (chunks : list bytes) (s : ObjectWriteStream W) (h : H) :
    Result StorageError unit * (ObjectWriteStream W * H) :=
  match chunks with
  | [] => (Ok tt, (s, h))
  | c :: rest =>
      match write_all before_write c s h with
      | (Ok _, (s, h)) => write_chunks before_write rest s h
      | (Err e, sh) => (Err e, sh)
      end
  end.
End Writing.
End Streams.

(** * The placeholder backend (noop.rs) *)

Module Noop.

Record NoopStorageBackend := { noop_metrics : StorageMetrics }.

Definition noop_default : NoopStorageBackend := {| noop_metrics := metrics_zero |}.

Definition unsupported (op : string) : StorageError := UnsupportedCapability op.

Definition refuse {A} (op : string) (b : NoopStorageBackend) : Result StorageError A * NoopStorageBackend := (Err (unsupported op), b).

#[export] Instance noop_backend : StorageBackend NoopStorageBackend := {|
  capabilities _ := CAPS_NONE;
  metrics := noop_metrics;
  head _ := refuse "head";
  read_range _ _ := refuse "read_range";
  read_all _ := refuse "read_stream";
  conditional_create _ _ _ := refuse "conditional_create";
  conditional_replace _ _ _ := refuse "conditional_replace";
  delete_owned_object _ := refuse "delete_owned_object";
|}.

Definition noop_list {A} : NoopStorageBackend -> Result StorageError A * NoopStorageBackend := refuse "list".
Definition noop_write_stream {A} : NoopStorageBackend -> Result StorageError A * NoopStorageBackend := refuse "write_stream".

(** No client can do anything with it: whatever program runs, its state is the one it
    began with. *)
Theorem noop_inert {A} (p : prog A) (b : NoopStorageBackend) : snd (run p b) = b.
Proof. revert b. induction p as [a|c k IH]; intros b; [done|]. destruct c; cbn; apply IH. Qed.
End Noop.

(** * Fault injection (chaos.rs) *)

Module Chaos.

Inductive FaultTarget :=
| TList | THead | TReadRange | TReadStreamOpen | TReadStreamRead | TWriteStreamOpen | TWriteStreamPart
| TConditionalCreate | TConditionalReplace | TDeleteOwned.

#[export] Instance FaultTarget_eq_dec : EqDecision FaultTarget.
Proof. solve_decision. Defined.

Inductive FaultStep := Inject (e : StorageError) | Delegate.
Inductive ExhaustedBehavior := DelegateAfter | RepeatLast.

Record FaultRule := {
  target : FaultTarget;
  location_substr : option string;
  write_part_index : option Z;
  steps : list FaultStep;
  exhausted : ExhaustedBehavior;
}.

Definition fault_rule_new (t : FaultTarget) : FaultRule :=
  {| target := t; location_substr := None; write_part_index := None; steps := []; exhausted := DelegateAfter |}.

Record FaultContext := {
  ctx_target : FaultTarget;
  ctx_object : option ObjectLocation;
  ctx_dataset : option DatasetLocation;
  ctx_part : option Z;
}.

Definition location_uri (ctx : FaultContext) : string :=
  match ctx_object ctx, ctx_dataset ctx with
  | Some object, _ => object_display_uri object
  | None, Some dataset => display_uri dataset
  | None, None => EmptyString
  end.

Definition matches (rule : FaultRule) (ctx : FaultContext) : bool :=
  bool_decide (target rule = ctx_target ctx) &&
  match write_part_index rule with Some part => bool_decide (ctx_part ctx = Some part) | None => true end &&
  match location_substr rule with Some needle => contains needle (location_uri ctx) | None => true end.

(** An I/O error cannot be cloned. *)
Definition replay_error (e : StorageError) : StorageError := match e with Io t => Other t | e => e end.

Definition replay_step (s : FaultStep) : FaultStep := match s with Inject e => Inject (replay_error e) | Delegate => Delegate end.

Definition injected (s : FaultStep) : option StorageError := match s with Inject e => Some (replay_error e) | Delegate => None end.

Definition outcome_at (rule : FaultRule) (invocation : Z) : option StorageError :=
  match steps rule with
  | [] => None
  | _ =>
      match steps rule !! Z.to_nat invocation with
      | Some s => injected s
      | None => match exhausted rule with DelegateAfter => None | RepeatLast => last (omap injected (steps rule)) end
      end
  end.

Definition clone_rules (rules : list FaultRule) : list FaultRule :=
  map (fun r => {| target := target r; location_substr := location_substr r; write_part_index := write_part_index r;
                   steps := map replay_step (steps r); exhausted := exhausted r |}) rules.

(** [evaluate]: the first rule that matches decides, and counts the call. *)
Fixpoint evaluate_from (idx : nat) (rules : list FaultRule) (ctx : FaultContext) (counters : list Z) : option StorageError * list Z :=
  match rules with
  | [] => (None, counters)
  | rule :: rest =>
      if matches rule ctx then
        let n := default 0%Z (counters !! idx) in (outcome_at rule n, <[idx := wrap_u64 (n + 1)]> counters)
      else evaluate_from (S idx) rest ctx counters
  end.

Definition evaluate (rules : list FaultRule) (ctx : FaultContext) (counters : list Z) : option StorageError * list Z :=
  evaluate_from 0 rules ctx counters.

(** The rules never change; the counters are shared with the streams. *)
Record FaultInjectingBackend (rules : list FaultRule) (St : Type) := {
  inner : St;
  counters : list Z;
  write_part_counters : gmap string Z;
}.
Arguments inner {_ _} _.
Arguments counters {_ _} _.
Arguments write_part_counters {_ _} _.
Arguments Build_FaultInjectingBackend {_ _} _ _ _.

Definition fault_injecting_new {St} (s : St) (rules : list FaultRule) : FaultInjectingBackend rules St :=
  {| inner := s; counters := map (fun _ => 0%Z) rules; write_part_counters := ∅ |}.

Section Wrapped.
Context {rules : list FaultRule} {St : Type}.
Abbreviation backend := (FaultInjectingBackend rules St).

Definition with_counters (cs : list Z) (b : backend) : backend :=
  {| inner := inner b; counters := cs; write_part_counters := write_part_counters b |}.
Definition with_inner (s : St) (b : backend) : backend :=
  {| inner := s; counters := counters b; write_part_counters := write_part_counters b |}.

(** The fault of a call, or the call itself. *)
Definition faulted {A} (ctx : FaultContext) (call : St -> Result StorageError A * St) (b : backend) : Result StorageError A * backend :=
  let '(fault, cs) := evaluate rules ctx (counters b) in
  let b := with_counters cs b in
  match fault with
  | Some e => (Err e, b)
  | None => let '(r, s) := call (inner b) in (r, with_inner s b)
  end.

Definition on_object (t : FaultTarget) (o : ObjectLocation) : FaultContext :=
  {| ctx_target := t; ctx_object := Some o; ctx_dataset := None; ctx_part := None |}.
Definition on_dataset (t : FaultTarget) (loc : DatasetLocation) : FaultContext :=
  {| ctx_target := t; ctx_object := None; ctx_dataset := Some loc; ctx_part := None |}.

Definition next_write_part_index (o : ObjectLocation) (b : backend) : Z * backend :=
  let part := (default 0 (write_part_counters b !! object_display_uri o) + 1)%Z in
  (part, {| inner := inner b; counters := counters b; write_part_counters := <[object_display_uri o := part]> (write_part_counters b) |}).

(** The hook that a write stream calls before each [write_all]; the stream has a
    clone of the rules. *)
Definition before_write (o : ObjectLocation) (b : backend) : Result StorageError unit * backend :=
  let '(part, b) := next_write_part_index o b in
  let ctx := {| ctx_target := TWriteStreamPart; ctx_object := Some o; ctx_dataset := None; ctx_part := Some part |} in
  let '(fault, cs) := evaluate (clone_rules rules) ctx (counters b) in
  (match fault with Some e => Err e | None => Ok tt end, with_counters cs b).

Context `{StorageBackend St}.

(** [list] and [write_stream] of the wrapped backend are given. *)
Definition chaos_list {A} (loc : DatasetLocation) (list : St -> Result StorageError A * St) : backend -> Result StorageError A * backend :=
  faulted (on_dataset TList loc) list.
Definition chaos_write_stream {A} (o : ObjectLocation) (open : St -> Result StorageError A * St) : backend -> Result StorageError A * backend :=
  faulted (on_object TWriteStreamOpen o) open.

(** [read_stream] and [read_to_end]: the first read of the stream may fail. *)
Definition chaos_read_all (o : ObjectLocation) (b : backend) : Result StorageError (Result string bytes) * backend :=
  match faulted (on_object TReadStreamOpen o) (read_all o) b with
  | (Ok content, b) =>
      let '(fault, cs) := evaluate (clone_rules rules) (on_object TReadStreamRead o) (counters b) in
      (Ok (match fault with Some e => Err (storage_error_display e) | None => content end), with_counters cs b)
  | (Err e, b) => (Err e, b)
  end.

#[export] Instance chaos_backend : StorageBackend backend := {|
  capabilities b := capabilities (inner b);
  metrics b := metrics (inner b);
  head o := faulted (on_object THead o) (head o);
  read_range o r := faulted (on_object TReadRange o) (read_range o r);
  read_all := chaos_read_all;
  conditional_create o c d := faulted (on_object TConditionalCreate o) (conditional_create o c d);
  conditional_replace o c d := faulted (on_object TConditionalReplace o) (conditional_replace o c d);
  delete_owned_object o := faulted (on_object TDeleteOwned o) (delete_owned_object o);
|}.
End Wrapped.

(** The module [faults]. *)
Definition service_unavailable : StorageError := Unavailable "503 Service Unavailable".
Definition transient_timeout : StorageError := Transient "upstream timeout".
Definition permission_denied (location : string) : StorageError := PermissionDenied location.
Definition conflict_exists (location : string) : StorageError := Conflict ("object already exists: " +:+ location).
Definition precondition_etag : StorageError := PreconditionFailed "etag mismatch".
Definition multipart_part_failed (part : Z) : StorageError := Transient ("multipart upload part " +:+ pretty part +:+ " failed").
Definition unavailable_then_ok (t : FaultTarget) : FaultRule :=
  {| target := t; location_substr := None; write_part_index := None; steps := [Inject service_unavailable; Delegate]; exhausted := DelegateAfter |}.
Definition retry_exhaustion (t : FaultTarget) : FaultRule :=
  {| target := t; location_substr := None; write_part_index := None; steps := [Inject service_unavailable]; exhausted := RepeatLast |}.

(** ** The laws *)

(** No rule claims that an object is absent. *)
Definition honest (rule : FaultRule) : Prop :=
  target rule = THead \/ target rule = TReadStreamOpen -> forall l, Inject (NotFound l) ∉ steps rule.

Lemma evaluate_from_rule idx rules ctx cs e cs' : evaluate_from idx rules ctx cs = (Some e, cs') ->
  exists r, r ∈ rules /\ target r = ctx_target ctx /\ exists e0, Inject e0 ∈ steps r /\ e = replay_error e0.
Proof.
  revert idx. induction rules as [|r rules IH]; intros idx He; [done|]. cbn in He. destruct (matches r ctx) eqn:Em.
  - injection He as He _. exists r. split; [by left|]. split; [unfold matches in Em; by rewrite !andb_true_iff, bool_decide_eq_true in Em; destruct Em as [[-> _] _]|].
    unfold outcome_at in He. destruct (steps r) as [|s ss] eqn:Es; [done|]. rewrite <- Es in *. destruct (steps r !! Z.to_nat _) as [st|] eqn:El.
    + destruct st as [e0|]; [|done]. injection He as <-. exists e0. split; [by eapply list_elem_of_lookup_2|done].
    + destruct (exhausted r); [done|]. apply last_Some in He as [l' He].
      assert (e ∈ omap injected (steps r)) as Hin by (rewrite He; apply elem_of_app; right; by left).
      apply list_elem_of_omap in Hin as ([e0|] & Hin & Hi); [|done]. injection Hi as <-. by exists e0.
  - destruct (IH (S idx) He) as (r' & Hr & Ht & Hs). exists r'. split; [by right|done].
Qed.

Lemma replay_not_found e l : replay_error e = NotFound l -> e = NotFound l.
Proof. by destruct e. Qed.

Lemma honest_fault rules ctx cs l cs' : Forall honest rules -> ctx_target ctx = THead \/ ctx_target ctx = TReadStreamOpen ->
  evaluate rules ctx cs <> (Some (NotFound l), cs').
Proof.
  intros Hh Ht He. apply evaluate_from_rule in He as (r & Hr & Hrt & e0 & He0 & He). rewrite Forall_forall in Hh.
  symmetry in He. apply replay_not_found in He. subst. apply (Hh r Hr ltac:(by rewrite Hrt) l He0).
Qed.

Section Laws.
Context {rules : list FaultRule} {St : Type} `{BackendLaws St}.

(** A faulted call fails with an injected error and leaves the backend alone, or is
    the call. *)
Lemma faulted_inv {A} ctx (call : St -> Result StorageError A * St) (b b' : FaultInjectingBackend rules St) r : faulted ctx call b = (r, b') ->
  (exists e cs, evaluate rules ctx (counters b) = (Some e, cs) /\ r = Err e /\ inner b' = inner b) \/ call (inner b) = (r, inner b').
Proof.
  unfold faulted. destruct (evaluate rules ctx (counters b)) as [[e|] cs].
  - intros [= <- <-]. left. by exists e, cs.
  - cbn. destruct (call (inner b)) as [r0 s0] eqn:Ec. intros [= <- <-]. by right.
Qed.

Lemma read_all_inv o (b b' : FaultInjectingBackend rules St) r : chaos_read_all o b = (r, b') ->
  (exists e cs, evaluate rules (on_object TReadStreamOpen o) (counters b) = (Some e, cs) /\ r = Err e /\ inner b' = inner b) \/
  exists r0, read_all o (inner b) = (r0, inner b') /\ (r = r0 \/ exists content t, r0 = Ok content /\ r = Ok (Err t)).
Proof.
  unfold chaos_read_all. destruct (faulted _ _ b) as [r1 b1] eqn:Eg. apply faulted_inv in Eg as [(e & cs & He & -> & Hi)|Hc].
  - intros [= <- <-]. left. by exists e, cs.
  - destruct r1 as [content|e]; [|intros [= <- <-]; right; eauto]. destruct (evaluate _ _ _) as [[e|] cs]; intros [= <- <-]; right;
      exists (Ok content); (split; [done|]); [right; eauto|by left].
Qed.

Context (Hhonest : Forall honest rules).

(** A wrapper whose rules are honest promises what the wrapped backend promises: to
    a client, an injected fault is a request that failed without effect. *)
#[export] Program Instance chaos_laws : BackendLaws (FaultInjectingBackend rules St) := {|
  view b := view (inner b); addressable := addressable |}.
Next Obligation.
  intros c b. pose proof (law_caps c (inner b)) as Hc. destruct c; cbn -[faulted chaos_read_all] in *; try done;
    match goal with
    | |- context [faulted ?ctx ?call b] => destruct (faulted ctx call b) as [res b'] eqn:E; apply faulted_inv in E as [(? & ? & _ & _ & Hi)|E]
    | |- context [chaos_read_all ?o b] => destruct (chaos_read_all o b) as [res b'] eqn:E; apply read_all_inv in E as [(? & ? & _ & _ & Hi)|(? & E & _)]
    end; cbn; try (by rewrite Hi); by rewrite E in Hc.
Qed.
Next Obligation.
  intros o b r b' E. cbn -[faulted chaos_read_all] in E. apply faulted_inv in E as [(e & cs & He & -> & Hi)|E].
  - rewrite Hi. split; [done|]. destruct e; try done. exfalso. by eapply honest_fault in He; [|done|by left].
  - exact (law_head _ _ _ _ E).
Qed.
Next Obligation.
  intros o br b r b' Hbr E. cbn -[faulted chaos_read_all] in E. apply faulted_inv in E as [(e & cs & _ & -> & Hi)|E]; [by rewrite Hi|exact (law_read_range _ _ _ _ _ Hbr E)].
Qed.
Next Obligation.
  intros o b r b' E. cbn -[faulted chaos_read_all] in E. apply read_all_inv in E as [(e & cs & He & -> & Hi)|(r0 & E & Hr)].
  - rewrite Hi. split; [done|]. destruct e; try done. exfalso. by eapply honest_fault in He; [|done|by right].
  - destruct (law_read_all _ _ _ _ E) as [Hs Hl]. split; [exact Hs|]. destruct Hr as [->|(content & t & -> & ->)]; [exact Hl|done].
Qed.
Next Obligation.
  intros o d b r b' Ho E. cbn -[faulted chaos_read_all] in E. apply faulted_inv in E as [(e & cs & _ & -> & Hi)|E]; [|exact (law_create _ _ _ _ _ Ho E)].
  rewrite Hi. destruct e; try (by left). done.
Qed.
Next Obligation.
  intros o c d b r b' Ho E. cbn -[faulted chaos_read_all] in E. apply faulted_inv in E as [(e & cs & _ & -> & Hi)|E]; [rewrite Hi; by left|exact (law_replace _ _ _ _ _ _ Ho E)].
Qed.
Next Obligation.
  intros o b r b' Ho E. cbn -[faulted chaos_read_all] in E. apply faulted_inv in E as [(e & cs & _ & -> & Hi)|E]; [rewrite Hi; by left|exact (law_delete _ _ _ _ Ho E)].
Qed.
End Laws.

(** ** The schedule of the faults *)

Lemma replay_error_idem e : replay_error (replay_error e) = replay_error e.
Proof. by destruct e. Qed.

Lemma injected_replay s : injected (replay_step s) = injected s.
Proof. destruct s; [cbn; by rewrite replay_error_idem|done]. Qed.

(** A stream's clone of a rule injects what the rule injects. *)
Lemma outcome_at_clone r n : outcome_at
  {| target := target r; location_substr := location_substr r; write_part_index := write_part_index r;
     steps := map replay_step (steps r); exhausted := exhausted r |} n = outcome_at r n.
Proof.
  unfold outcome_at. cbn. assert (omap injected (map replay_step (steps r)) = omap injected (steps r)) as Ho.
  { induction (steps r) as [|s l IH]; [done|]. cbn. rewrite injected_replay. by destruct (injected s); [f_equal|]. }
  rewrite Ho, list_lookup_fmap. destruct (steps r) as [|s l]; [done|]. cbn [map].
  destruct ((s :: l) !! Z.to_nat n); [cbn; apply injected_replay|done].
Qed.

Lemma evaluate_clone rules ctx cs : evaluate (clone_rules rules) ctx cs = evaluate rules ctx cs.
Proof.
  unfold evaluate. generalize 0%nat. induction rules as [|r rules IH]; intros idx; [done|]. cbn [clone_rules map evaluate_from].
  rewrite outcome_at_clone. unfold clone_rules in IH. by rewrite IH.
Qed.

(** Which rule decides a call, and how many calls it decided before. *)
Definition selected_rule (rules : list FaultRule) (ctx : FaultContext) : option nat :=
  fst <$> list_find (fun r => matches r ctx = true) rules.
Definition decided (rules : list FaultRule) (j : nat) (ctxs : list FaultContext) : nat :=
  length (filter (fun ctx => selected_rule rules ctx = Some j) ctxs).

Lemma evaluate_from_selected idx rules ctx cs : evaluate_from idx rules ctx cs =
  match selected_rule rules ctx with
  | None => (None, cs)
  | Some j => let n := default 0%Z (cs !! (idx + j)) in
      (rules !! j ≫= fun r => outcome_at r n, <[idx + j := wrap_u64 (n + 1)]> cs)
  end.
Proof.
  revert idx. induction rules as [|r rules IH]; intros idx; [done|]. unfold selected_rule in *. cbn.
  destruct (decide (matches r ctx = true)) as [E|E].
  - rewrite E. cbn. by rewrite Nat.add_0_r.
  - apply not_true_is_false in E as ->. rewrite IH. destruct (list_find _ rules) as [[j x]|]; [|done]. cbn.
    by rewrite <- !Nat.add_succ_comm.
Qed.

Fixpoint evaluate_all (rules : list FaultRule) (ctxs : list FaultContext) (cs : list Z) : list (option StorageError) * list Z :=
  match ctxs with
  | [] => ([], cs)
  | ctx :: ctxs => let '(o, cs) := evaluate rules ctx cs in let '(os, cs) := evaluate_all rules ctxs cs in (o :: os, cs)
  end.

Lemma selected_bound rules ctx j : selected_rule rules ctx = Some j -> j < length rules.
Proof.
  unfold selected_rule. destruct (list_find _ rules) as [[i x]|] eqn:E; [|done]. cbn. intros [= <-].
  apply list_find_Some in E as (E & _). by apply lookup_lt_Some in E.
Qed.

Lemma evaluate_all_from rules ctxs past cs :
  (Z.of_nat (length past + length ctxs) < 2 ^ 64)%Z -> length cs = length rules ->
  (forall j, j < length rules -> cs !! j = Some (Z.of_nat (decided rules j past))) ->
  fst (evaluate_all rules ctxs cs) =
    imap (fun i ctx => j ← selected_rule rules ctx; r ← rules !! j;
                       outcome_at r (Z.of_nat (decided rules j (past ++ take i ctxs)))) ctxs.
Proof.
  revert past cs. induction ctxs as [|ctx ctxs IH]; intros past cs Hlt Hlen Hcs; [done|].
  cbn [evaluate_all imap take]. unfold evaluate. rewrite evaluate_from_selected, app_nil_r.
  assert (Hnext : forall j, decided rules j (past ++ [ctx]) = decided rules j past + if decide (selected_rule rules ctx = Some j) then 1 else 0).
  { intros j. unfold decided. rewrite filter_app, length_app. f_equal. cbn. by destruct (decide _). }
  destruct (selected_rule rules ctx) as [j|] eqn:Ej.
  - cbn [Nat.add]. pose proof (selected_bound _ _ _ Ej) as Hj. rewrite (Hcs j Hj). cbn [default].
    destruct (evaluate_all rules ctxs _) as [os cs'] eqn:Ea. cbn. f_equal.
    apply (f_equal fst) in Ea. cbn in Ea. rewrite <- Ea, (IH (past ++ [ctx])).
    + apply imap_ext. intros i x _. cbn. by rewrite <- app_assoc.
    + rewrite length_app. cbn in *. lia.
    + by rewrite length_insert.
    + intros i Hi. rewrite Hnext. destruct (decide (Some j = Some i)) as [[= ->]|Hne].
      * assert (decided rules i past <= length past) by (unfold decided; apply length_filter).
        rewrite list_lookup_insert_eq by lia. f_equal. unfold wrap_u64. cbn [length] in Hlt. rewrite Z.mod_small; lia.
      * rewrite list_lookup_insert_ne by congruence. rewrite Nat.add_0_r. by apply Hcs.
  - destruct (evaluate_all rules ctxs cs) as [os cs'] eqn:Ea. cbn. f_equal.
    apply (f_equal fst) in Ea. cbn in Ea. rewrite <- Ea, (IH (past ++ [ctx])).
    + apply imap_ext. intros i x _. cbn. by rewrite <- app_assoc.
    + rewrite length_app. cbn in *. lia.
    + done.
    + intros i Hi. rewrite Hnext. destruct (decide _); [done|]. rewrite Nat.add_0_r. by apply Hcs.
Qed.

(** Fault injection is deterministic: of fewer than 2^64 calls, the i-th fails with
    the step that its rule, the first that matches, has for the number of calls the
    same rule decided before, whatever the other rules did in between. *)
Theorem fault_schedule rules ctxs : (Z.of_nat (length ctxs) < 2 ^ 64)%Z ->
  fst (evaluate_all rules ctxs (counters (fault_injecting_new tt rules))) =
    imap (fun i ctx => j ← selected_rule rules ctx; r ← rules !! j;
                       outcome_at r (Z.of_nat (decided rules j (take i ctxs)))) ctxs.
Proof.
  intros Hlt. rewrite (evaluate_all_from rules ctxs []); [done|done|by cbn; rewrite length_map|].
  intros j [r Hr]%lookup_lt_is_Some. cbn. by rewrite list_lookup_fmap, Hr.
Qed.

(** One 503 and then the call; the second rule counts on its own. *)
Example fault_schedule_retry :
  let o := S3Object "lake" "a.parquet" in
  fst (evaluate_all [unavailable_then_ok THead; retry_exhaustion TDeleteOwned]
         [on_object THead o; on_object TDeleteOwned o; on_object THead o; on_object TDeleteOwned o; on_object TReadRange o] [0%Z; 0%Z])
  = [Some service_unavailable; Some service_unavailable; None; Some service_unavailable; None].
Proof. reflexivity. Qed.

(** A head that fails once with 503 and then reads the object. *)
Example chaos_head_retry :
  let o := S3Object "lake" "a.parquet" in
  let b := fault_injecting_new (snd (memory_conditional_create o must_not_exist ["000"%byte] (memory_new CAPS_S3))) [unavailable_then_ok THead] in
  let '(r1, b1) := head o b in
  r1 = Err service_unavailable /\ is_ok (fst (head o b1)) = true /\ fst (read_all o b1) = Ok (Ok ["000"%byte]).
Proof. vm_compute. auto. Qed.

(** ** Faults between the parts of an upload *)

Section Multipart.
Context {St : Type} (o : ObjectLocation) (k : Z) (e : StorageError) (when : ExhaustedBehavior).

Definition part_rule : FaultRule :=
  {| target := TWriteStreamPart; location_substr := None; write_part_index := Some k; steps := [Inject e]; exhausted := when |}.
Abbreviation write_bytes := (fun (b : bytes) (w : bytes) => (Ok tt : Result string unit, w ++ b)).

Lemma before_write_part (b : FaultInjectingBackend [part_rule] St) : counters b = [0%Z] ->
  let p := (default 0 (write_part_counters b !! object_display_uri o) + 1)%Z in
  exists b', before_write o b = (if bool_decide (p = k) then Err (replay_error e) else Ok tt, b') /\
    inner b' = inner b /\ write_part_counters b' !! object_display_uri o = Some p /\ (p <> k -> counters b' = [0%Z]).
Proof.
  intros Hcs p. unfold before_write, next_write_part_index. rewrite evaluate_clone. cbn [counters]. rewrite Hcs.
  unfold evaluate, evaluate_from, matches. cbn. fold p. clearbody p. destruct (decide (p = k)) as [->|Hne].
  - rewrite !bool_decide_eq_true_2 by done. eexists. split; [reflexivity|]. cbn. by rewrite lookup_insert_eq.
  - rewrite (bool_decide_eq_false_2 (Some p = Some k)), (bool_decide_eq_false_2 (p = k)), andb_false_r by congruence. cbn [andb]. eexists. split; [reflexivity|]. cbn. by rewrite lookup_insert_eq.
Qed.

Lemma part_fault_from chunks p (b : FaultInjectingBackend [part_rule] St) w n :
  default 0%Z (write_part_counters b !! object_display_uri o) = p -> counters b = [0%Z] -> (p < k <= p + Z.of_nat (length chunks))%Z ->
  exists b', Streams.write_chunks write_bytes (Some (before_write o)) chunks (Streams.Build_ObjectWriteStream w n) b =
    (Err (replay_error e), (let sent := concat (take (Z.to_nat (k - p - 1)) chunks) in
       Streams.Build_ObjectWriteStream (w ++ sent) (n + Z.of_nat (length sent)), b')) /\ inner b' = inner b.
Proof.
  revert p b w n. induction chunks as [|c chunks IH]; intros p b w n Hp Hcs Hk; [cbn in Hk; lia|].
  cbn [Streams.write_chunks]. unfold Streams.write_all.
  destruct (before_write_part b Hcs) as (b1 & -> & Hi1 & Hp1 & Hcs1). rewrite Hp in *.
  destruct (decide (p + 1 = k)%Z) as [Hkp|Hne].
  - rewrite bool_decide_eq_true_2 by done. replace (k - p - 1)%Z with 0%Z by lia.
    exists b1. cbn. by rewrite app_nil_r, Z.add_0_r.
  - rewrite bool_decide_eq_false_2 by done. cbn [Streams.writer Streams.ows_bytes_written].
    destruct (IH (p + 1)%Z b1 (w ++ c) (n + Z.of_nat (length c))%Z) as (b' & -> & Hi); [by rewrite Hp1|by apply Hcs1|cbn in Hk; lia|].
    exists b'. split; [|congruence]. replace (Z.to_nat (k - p - 1)) with (S (Z.to_nat (k - (p + 1) - 1))) by lia.
    cbn. by rewrite <- app_assoc, length_app, Nat2Z.inj_add, Z.add_assoc.
Qed.

(** A rule for part [k] of an upload stops a caller that writes chunk after chunk at
    the [k]-th chunk: the writer has the chunks before it, and nothing of the rest. *)
Theorem multipart_fault chunks (s : St) : (1 <= k <= Z.of_nat (length chunks))%Z ->
  let '(r, (stream, b)) := Streams.write_chunks write_bytes (Some (before_write o)) chunks (Streams.write_stream_new []) (fault_injecting_new s [part_rule]) in
  let sent := concat (take (Z.to_nat (k - 1)) chunks) in
  r = Err (replay_error e) /\ Streams.writer stream = sent /\
  Streams.ows_bytes_written stream = Z.of_nat (length sent) /\ inner b = s.
Proof.
  intros Hk. destruct (part_fault_from chunks 0 (fault_injecting_new s [part_rule]) [] 0%Z) as (b' & E & Hi); [done|done|lia|].
  unfold Streams.write_stream_new. rewrite E. rewrite Z.sub_0_r in *. by repeat split.
Qed.
End Multipart.
End Chaos.
