(* ===== verification/Publication.v ===== *)
(** Transactional publication of a dataset version on an object store
    (src/crates/parqonaut-storage/src/{publication,locking}.rs): the writer
    lock, the session state machine and its persistence, the commit marker and
    the CURRENT pointer.

    Operations are programs over backend calls.  A session is mutated in place
    ([&mut self]), so its operations return the session next to their result,
    also when they fail.  Instants ([Utc::now()]) are arguments, in the order
    the source reads the clock.  [serde_json] is a parameter: a [Json] codec. *)

From Stdlib Require Import Strings.Byte.
From S2P Require Import Prelude Location Backend.

(** * The JSON codec *)

(** [serde_json::to_vec] and [from_slice] of one serialisable type; errors by
    their display form.  The law is the documented round trip of derived
    [Serialize]/[Deserialize] instances. *)
Class Json (T : Type) := {
  to_vec : T -> Result string bytes;
  from_slice : bytes -> Result string T;
  json_roundtrip : forall x, exists b, to_vec x = Ok b /\ from_slice b = Ok x;
}.

(** * Layout *)

Definition PUBLICATION_CONTRACT_VERSION : Z := 1.
Definition WRITER_LOCK_KEY : string := ".parqonaut/writer.lock".
Definition CURRENT_KEY : string := ".parqonaut/CURRENT".
Definition VERSIONS_PREFIX : string := ".parqonaut/versions".
Definition STATE_FILE : string := "state.json".
Definition MANIFEST_FILE : string := "manifest.json".
Definition COMMITTED_MARKER : string := "COMMITTED".
Definition DATA_PREFIX : string := "data".

Definition version_prefix (version_id : string) : string := VERSIONS_PREFIX +:+ "/" +:+ version_id.
Definition version_state_key (version_id : string) : string :=
  version_prefix version_id +:+ "/" +:+ STATE_FILE.
Definition version_manifest_key (version_id : string) : string :=
  version_prefix version_id +:+ "/" +:+ MANIFEST_FILE.
Definition version_commit_key (version_id : string) : string :=
  version_prefix version_id +:+ "/" +:+ COMMITTED_MARKER.
Definition version_data_key (version_id relative : string) : string :=
  version_prefix version_id +:+ "/" +:+ DATA_PREFIX +:+ "/" +:+ trim_start_slash relative.

(** [PublicationVersionId::from_run_id]. *)
Definition version_from_run_id (run_id : string) : string := run_id.

(** * States and records *)

Inductive PublicationState :=
| Preparing | Uploading | Uploaded | Verified | ManifestWritten | Committed | Current.

#[global] Instance PublicationState_eq_dec : EqDecision PublicationState.
Proof. solve_decision. Defined.

Definition allows_transition (from to : PublicationState) : bool :=
  match from, to with
  | Preparing, Preparing
  | Preparing, Uploading
  | Uploading, Uploading
  | Uploading, Uploaded
  | Uploaded, Verified
  | Verified, ManifestWritten
  | ManifestWritten, Committed
  | Committed, Current => true
  | _, _ => false
  end.

Definition ordinal (s : PublicationState) : nat :=
  match s with
  | Preparing => 0 | Uploading => 1 | Uploaded => 2 | Verified => 3 | ManifestWritten => 4
  | Committed => 5 | Current => 6
  end.

Record PublicationStateRecord := {
  sr_parqonaut_publication_version : Z;
  sr_version_id : string;
  sr_run_id : string;
  sr_state : PublicationState;
  sr_updated_at : Z;
}.

Record PublicationObjectRecord := {
  or_key : string;
  or_size : Z;
  or_etag : option string;
  or_version_id : option string;
}.

Record PublicationManifest := {
  pm_parqonaut_publication_version : Z;
  pm_version_id : string;
  pm_run_id : string;
  pm_objects : list PublicationObjectRecord;
}.

Record CommitMarker := { cm_version_id : string; cm_run_id : string; cm_committed_at : Z }.
Record CurrentPointer := { cp_version_id : string }.
Record WriterLockRecord := { lr_run_id : string; lr_version_id : string }.

Inductive PublicationError :=
| PubStorage (e : StorageError)
| PubLockHeld (run_id : string)
| InvalidTransition (from to : PublicationState)
| Incomplete (message : string)
| Unsupported (message : string).

(** [{:?}] of a state. *)
Definition publication_state_debug (s : PublicationState) : string :=
  match s with
  | Preparing => "Preparing" | Uploading => "Uploading" | Uploaded => "Uploaded"
  | Verified => "Verified" | ManifestWritten => "ManifestWritten"
  | Committed => "Committed" | Current => "Current"
  end.

Definition publication_error_display (e : PublicationError) : string :=
  match e with
  | PubStorage e => "storage error: " +:+ storage_error_display e
  | PubLockHeld run_id => "writer lock held by run `" +:+ run_id +:+ "`"
  | InvalidTransition from to =>
      "invalid state transition: " +:+ publication_state_debug from +:+ " -> "
      +:+ publication_state_debug to
  | Incomplete message => "publication incomplete: " +:+ message
  | Unsupported message => "unsupported: " +:+ message
  end.

(** [RemotePublicationLock]; [released] is only observable inside [release]. *)
Record RemotePublicationLock := {
  lock_object : ObjectLocation;
  lock_record : WriterLockRecord;
  released : bool;
}.

Definition lock_version_id (l : RemotePublicationLock) : string :=
  version_from_run_id (lr_run_id (lock_record l)).

Record Session := {
  dataset : DatasetLocation;
  version_id : string;
  run_id : string;
  state : PublicationState;
  lock : option RemotePublicationLock;
}.

Definition set_state (st : PublicationState) (s : Session) : Session :=
  {| dataset := dataset s; version_id := version_id s; run_id := run_id s; state := st;
     lock := lock s |}.
Definition set_lock (l : option RemotePublicationLock) (s : Session) : Session :=
  {| dataset := dataset s; version_id := version_id s; run_id := run_id s; state := state s;
     lock := l |}.

(** * Requests with converted errors *)

Local Open Scope prog_scope.

Definition storage {A} (p : prog (Result StorageError A)) : prog (Result PublicationError A) :=
  r ← p; Ret (map_err PubStorage r).

Definition pure_storage {A} (r : Result StorageError A) : prog (Result PublicationError A) :=
  Ret (map_err PubStorage r).

(** [serde_json::to_vec(..).map_err(|e| StorageError::Other { .. })?]. *)
Definition encode_json {T} `{Json T} (x : T) : prog (Result PublicationError bytes) :=
  Ret (map_err (fun e => PubStorage (Other e)) (to_vec x)).

Definition create_object (o : ObjectLocation) (payload : bytes)
    : prog (Result PublicationError ObjectMetadata) :=
  storage (request (CCreate o must_not_exist payload)).

Definition read_json_object {T} `{Json T} (o : ObjectLocation) : prog (Result PublicationError T) :=
  r ← request (CReadAll o);
  match r with
  | Err e => Ret (Err (PubStorage e))
  | Ok (Err io) => Ret (Err (PubStorage (Other io)))
  | Ok (Ok b) =>
      Ret (map_err (fun e => PubStorage (Other ("invalid JSON at " +:+ object_display_uri o
                                                  +:+ ": " +:+ e))) (from_slice b))
  end.

(** The [head]-then-replace-or-create sequence of [persist_state] and
    [promote_current]. *)
Definition put_json (o : ObjectLocation) (payload : bytes) : prog (Result PublicationError unit) :=
  h ← request (CHead o);
  match h with
  | Ok md =>
      _ <-? storage (request (CReplace o (matching md) payload));;
      Ret (Ok tt)
  | Err (NotFound _) =>
      _ <-? create_object o payload;;
      Ret (Ok tt)
  | Err e => Ret (Err (PubStorage e))
  end.

Section Protocol.
Context `{Json WriterLockRecord, Json PublicationStateRecord, Json PublicationManifest,
          Json CommitMarker, Json CurrentPointer}.

(** * The writer lock *)

Definition reclaim_or_reject (o : ObjectLocation) (record : WriterLockRecord)
    : prog (Result PublicationError RemotePublicationLock) :=
  existing <-? read_json_object (T := WriterLockRecord) o;;
  if negb (bool_decide (lr_run_id existing = lr_run_id record))
  then Ret (Err (PubLockHeld (lr_run_id existing)))
  else
    _ <-? storage (request (CDelete o));;
    payload <-? encode_json record;;
    _ <-? create_object o payload;;
    Ret (Ok {| lock_object := o; lock_record := record; released := false |}).

Definition acquire (ds : DatasetLocation) (rid : string)
    : prog (Result PublicationError RemotePublicationLock) :=
  c ← request CCapabilities;
  if negb (cap_conditional_create c)
  then Ret (Err (Unsupported "backend lacks conditional_create for writer locks"))
  else
    let record := {| lr_run_id := rid; lr_version_id := version_from_run_id rid |} in
    o <-? pure_storage (object_at ds WRITER_LOCK_KEY);;
    payload <-? encode_json record;;
    r ← request (CCreate o must_not_exist payload);
    match r with
    | Ok _ => Ret (Ok {| lock_object := o; lock_record := record; released := false |})
    | Err (Conflict _) => reclaim_or_reject o record
    | Err e => Ret (Err (PubStorage e))
    end.

(** [release(mut self)]: the lock value is consumed. *)
Definition release (l : RemotePublicationLock) : prog (Result PublicationError unit) :=
  if released l then Ret (Ok tt)
  else
    _ <-? storage (request (CDelete (lock_object l)));;
    Ret (Ok tt).

(** * Observing a version *)

Definition is_version_committed (ds : DatasetLocation) (vid : string)
    : prog (Result PublicationError bool) :=
  o <-? pure_storage (object_at ds (version_commit_key vid));;
  h ← request (CHead o);
  match h with
  | Ok _ => Ret (Ok true)
  | Err (NotFound _) => Ret (Ok false)
  | Err e => Ret (Err (PubStorage e))
  end.

Definition read_current_version (ds : DatasetLocation)
    : prog (Result PublicationError (option string)) :=
  o <-? pure_storage (object_at ds CURRENT_KEY);;
  r ← read_json_object (T := CurrentPointer) o;
  match r with
  | Ok pointer => Ret (Ok (Some (cp_version_id pointer)))
  | Err (PubStorage (NotFound _)) => Ret (Ok None)
  | Err e => Ret (Err e)
  end.

Definition observed_state (ds : DatasetLocation) (vid : string)
    : prog (Result PublicationError (option PublicationState)) :=
  committed <-? is_version_committed ds vid;;
  if committed : bool then
    current <-? read_current_version ds;;
    Ret (Ok (Some (if decide (current = Some vid) then Current else Committed)))
  else
    o <-? pure_storage (object_at ds (version_state_key vid));;
    r ← read_json_object (T := PublicationStateRecord) o;
    match r with
    | Ok record =>
        if ordinal Committed <=? ordinal (sr_state record)
        then Ret (Ok (Some ManifestWritten))
        else Ret (Ok (Some (sr_state record)))
    | Err (PubStorage (NotFound _)) => Ret (Ok None)
    | Err e => Ret (Err e)
    end.

Definition load_recovered_state (ds : DatasetLocation) (vid : string) (now : Z)
    : prog (Result PublicationError (option PublicationStateRecord)) :=
  committed <-? is_version_committed ds vid;;
  if committed : bool then
    current <-? read_current_version ds;;
    Ret (Ok (Some {| sr_parqonaut_publication_version := PUBLICATION_CONTRACT_VERSION;
                     sr_version_id := vid; sr_run_id := vid;
                     sr_state := if decide (current = Some vid) then Current else Committed;
                     sr_updated_at := now |}))
  else
    o <-? pure_storage (object_at ds (version_state_key vid));;
    r ← read_json_object (T := PublicationStateRecord) o;
    match r with
    | Ok record => Ret (Ok (Some record))
    | Err (PubStorage (NotFound _)) => Ret (Ok None)
    | Err e => Ret (Err e)
    end.
End Protocol.

(** * Sessions *)

(** A [&mut self] operation: the result and the session afterwards. *)
Definition SM (A : Type) : Type := Session -> prog (Result PublicationError A * Session).

Definition sm_ret {A} (a : A) : SM A := fun s => Ret (Ok a, s).
Definition sm_fail {A} (e : PublicationError) : SM A := fun s => Ret (Err e, s).
Definition sm_bind {A B} (m : SM A) (f : A -> SM B) : SM B := fun s =>
  rs ← m s;
  match rs with
  | (Ok a, s') => f a s'
  | (Err e, s') => Ret (Err e, s')
  end.
Definition sm_lift {A} (p : prog (Result PublicationError A)) : SM A := fun s =>
  r ← p; Ret (r, s).
Definition sm_get : SM Session := fun s => Ret (Ok s, s).
Definition sm_modify (f : Session -> Session) : SM unit := fun s => Ret (Ok tt, f s).

Declare Scope session_scope.
Delimit Scope session_scope with session.
Notation "x <- m ;; k" := (sm_bind m (fun x => k))
  (at level 100, m at next level, right associativity) : session_scope.
Notation "m ;;; k" := (sm_bind m (fun _ => k))
  (at level 100, right associativity) : session_scope.

Section Sessions.
Context `{Json WriterLockRecord, Json PublicationStateRecord, Json PublicationManifest,
          Json CommitMarker, Json CurrentPointer}.
Local Open Scope session_scope.

Definition persist_state (st : PublicationState) (now : Z) : SM unit :=
  self <- sm_get;;
  let record := {| sr_parqonaut_publication_version := PUBLICATION_CONTRACT_VERSION;
                   sr_version_id := version_id self; sr_run_id := run_id self;
                   sr_state := st; sr_updated_at := now |} in
  o <- sm_lift (pure_storage (object_at (dataset self) (version_state_key (version_id self))));;
  payload <- sm_lift (encode_json record);;
  sm_lift (put_json o payload);;;
  sm_modify (set_state st).

Definition advance_to (next : PublicationState) (now : Z) : SM unit :=
  self <- sm_get;;
  if decide (state self = next) then sm_ret tt
  else if negb (allows_transition (state self) next)
  then sm_fail (InvalidTransition (state self) next)
  else persist_state next now.

Definition version_object (self : Session) (relative : string) : Result StorageError ObjectLocation :=
  object_at (dataset self) (version_data_key (version_id self) relative).

Definition put_version_object (relative : string) (d : bytes) (now : Z) : SM ObjectMetadata :=
  self <- sm_get;;
  if ordinal (state self) <? ordinal Preparing
  then sm_fail (Incomplete "session not initialized")
  else
    (if decide (state self = Preparing) then advance_to Uploading now
     else if ordinal Uploading <? ordinal (state self)
     then sm_fail (InvalidTransition (state self) Uploading)
     else sm_ret tt);;;
    o <- sm_lift (pure_storage (version_object self relative));;
    sm_lift (create_object o d).

Definition mark_uploaded (now : Z) : SM unit := advance_to Uploaded now.
Definition mark_verified (now : Z) : SM unit := advance_to Verified now.

Definition write_manifest (manifest : PublicationManifest) (now : Z) : SM unit :=
  self <- sm_get;;
  if negb (bool_decide (state self = Verified))
  then sm_fail (InvalidTransition (state self) ManifestWritten)
  else
    o <- sm_lift (pure_storage (object_at (dataset self) (version_manifest_key (version_id self))));;
    payload <- sm_lift (encode_json manifest);;
    sm_lift (create_object o payload);;;
    persist_state ManifestWritten now.

Definition commit (now now' : Z) : SM bool :=
  self <- sm_get;;
  if negb (bool_decide (state self = ManifestWritten))
  then sm_fail (InvalidTransition (state self) Committed)
  else
    committed <- sm_lift (is_version_committed (dataset self) (version_id self));;
    if committed : bool then sm_modify (set_state Committed);;; sm_ret false
    else
      let marker := {| cm_version_id := version_id self; cm_run_id := run_id self;
                       cm_committed_at := now |} in
      o <- sm_lift (pure_storage (object_at (dataset self) (version_commit_key (version_id self))));;
      payload <- sm_lift (encode_json marker);;
      sm_lift (create_object o payload);;;
      persist_state Committed now';;;
      sm_ret true.

Definition promote_current (now : Z) : SM unit :=
  self <- sm_get;;
  committed <- sm_lift (is_version_committed (dataset self) (version_id self));;
  if negb committed
  then sm_fail (Incomplete "cannot promote uncommitted version to CURRENT")
  else
    let pointer := {| cp_version_id := version_id self |} in
    o <- sm_lift (pure_storage (object_at (dataset self) CURRENT_KEY));;
    payload <- sm_lift (encode_json pointer);;
    sm_lift (put_json o payload);;;
    persist_state Current now.

(** [if let Some(lock) = self.lock.take() { lock.release(..)? }]. *)
Definition release_lock : SM unit :=
  self <- sm_get;;
  match lock self with
  | Some l => sm_modify (set_lock None);;; sm_lift (release l)
  | None => sm_ret tt
  end.

Definition abandon : SM unit := release_lock.

Definition finish (promote : bool) (now now' now'' : Z) : SM unit :=
  self <- sm_get;;
  (if decide (state self = ManifestWritten) then commit now now';;; sm_ret tt else sm_ret tt);;;
  (if promote then promote_current now'' else sm_ret tt);;;
  release_lock.

(** [begin]: acquire the lock, recover the state of an earlier session of the
    same run, persist [Preparing] for a new one. *)
Definition begin (ds : DatasetLocation) (rid : string) (now now' : Z)
    : prog (Result PublicationError Session) :=
  (l <-? acquire ds rid;;
   recovered <-? load_recovered_state ds (lock_version_id l) now;;
   let session := {| dataset := ds; version_id := lock_version_id l; run_id := rid;
                     state := match recovered with
                              | Some record => sr_state record
                              | None => Preparing
                              end;
                     lock := Some l |} in
   if decide (state session = Preparing) then
     rs ← persist_state Preparing now' session;
     match rs with
     | (Ok _, s') => Ret (Ok s')
     | (Err e, _) => Ret (Err e)
     end
   else Ret (Ok session))%prog.
End Sessions.
