(* ===== verification/PublicationSafety.v ===== *)
(** Safety of the publication protocol under concurrency, crashes and failing
    requests.

    Any number of writers, for any runs, work on one dataset location; their
    backend calls interleave arbitrarily, a writer can stop for good after any
    call, and a failed write may or may not have taken effect (the client-side
    promise of [Backend.BackendLaws]).  Invariants on the stored objects are
    proved by a rely/guarantee argument: [E] is what every call of every writer
    guarantees, [J] what it maintains, [safe] the weakest precondition of a
    program under both. *)

From Stdlib Require Import Strings.Byte Ascii.
From S2P Require Import Prelude Location Backend Publication.

(** * Key disjointness *)

(** Run ids ([run-<uuid>]) hold no slash, so they are single key segments. *)
Definition valid_id (v : string) : Prop := has_char "/"%char v = false.

Lemma version_key_inj v v' x x' :
  valid_id v -> valid_id v' ->
  version_prefix v +:+ "/" +:+ x = version_prefix v' +:+ "/" +:+ x' -> v = v' /\ x = x'.
Proof.
  unfold version_prefix. rewrite !app_assoc_string. intros Hv Hv' He.
  apply (inj (String.app _)) in He. apply (inj (String.app _)) in He.
  by apply (sep_inj "/"%char).
Qed.

(** Keys of the layout are relative, so joining them to a dataset is injective. *)
Lemma object_at_inj ds r1 r2 o :
  is_absolute r1 = false -> is_absolute r2 = false ->
  object_at ds r1 = Ok o -> object_at ds r2 = Ok o -> r1 = r2.
Proof.
  destruct ds as [l|s]; simpl; intros H1 H2.
  - intros [= <-] [= He]. unfold path_join in He. rewrite H1, H2 in He.
    case_decide; [done|]. case_match.
    + by apply (inj (String.app _)) in He.
    + by apply (inj (String.app _)), (inj (String.app _)) in He.
  - rewrite !bind_Ok. intros (k1 & Hk1 & [= <-]) (k2 & Hk2 & [= ->]).
    pose proof (object_key_inj _ _ _ _ Hk1 Hk2) as He.
    assert (forall r, is_absolute r = false -> trim_start_slash r = r) as Hr.
    { intros [|c r] Hc; [done|]. rewrite is_absolute_cons in Hc. apply bool_decide_eq_false in Hc.
      unfold trim_start_slash, is_slash. simpl. rewrite bool_decide_eq_false_2; congruence. }
    by rewrite !Hr in He.
Qed.

Lemma version_key_relative v x : is_absolute (version_prefix v +:+ "/" +:+ x) = false.
Proof. reflexivity. Qed.

(** * The rely/guarantee setting *)

Section Safety.
Context {St : Type} `{BackendLaws St}.
Context `{Json WriterLockRecord, Json PublicationStateRecord, Json PublicationManifest,
          Json CommitMarker, Json CurrentPointer}.
Context (ds : DatasetLocation).
Hypothesis ds_addressable : forall rel o, object_at ds rel = Ok o -> addressable (St := St) o.

Definition at_key (rel : string) (o : ObjectLocation) : Prop := object_at ds rel = Ok o.

(** The only objects the protocol ever overwrites or deletes. *)
Definition mutable (o : ObjectLocation) : Prop :=
  at_key WRITER_LOCK_KEY o \/ at_key CURRENT_KEY o
  \/ exists v, valid_id v /\ at_key (version_state_key v) o.

Definition present (rel : string) (m : objects) : Prop := exists o, at_key rel o /\ m o <> None.

(** What a persisted or in-memory state promises about a version's objects. *)
Definition state_fact (v : string) (st : PublicationState) (m : objects) : Prop :=
  (ordinal ManifestWritten <= ordinal st -> present (version_manifest_key v) m)
  /\ (ordinal Committed <= ordinal st -> present (version_commit_key v) m).

(** Guarantee: all other objects are write-once. *)
Definition E (m m' : objects) : Prop :=
  forall o, addressable (St := St) o -> ~ mutable o -> m o <> None -> m' o = m o.

(** Invariant: a committed version has its manifest, a persisted state does
    not run ahead of the objects, CURRENT points to a committed version. *)
Record J (m : objects) : Prop := {
  J_commit : forall v, valid_id v -> present (version_commit_key v) m ->
    present (version_manifest_key v) m;
  J_state : forall v o b r, valid_id v -> at_key (version_state_key v) o -> m o = Some b ->
    from_slice b = Ok r -> state_fact v (sr_state r) m;
  J_current : forall o b p, at_key CURRENT_KEY o -> m o = Some b -> from_slice b = Ok p ->
    valid_id (cp_version_id p) /\ present (version_commit_key (cp_version_id p)) m;
}.

(** The effect of a call on the observable contents, as the laws state it. *)
Definition call_spec (c : call) (m : objects) : answer c -> objects -> Prop :=
  match c with
  | CCapabilities | CMetrics => fun _ m' => same_on (addressable (St := St)) m m'
  | CReadRange _ _ => fun _ m' => True
  | CHead o => fun r m' => same_on (addressable (St := St)) m m' /\
      match r with Ok _ => m o <> None | _ => True end
  | CReadAll o => fun r m' => same_on (addressable (St := St)) m m' /\
      match r with Ok (Ok b) => m o = Some b | _ => True end
  | CCreate o cond d => fun r m' => cond = must_not_exist -> addressable (St := St) o ->
      match r with
      | Ok _ => m o = None /\ same_on (addressable (St := St)) (upd m o (Some d)) m'
      | Err _ => same_on (addressable (St := St)) m m'
          \/ m o = None /\ same_on (addressable (St := St)) (upd m o (Some d)) m'
      end
  | CReplace o _ d => fun r m' => addressable (St := St) o ->
      same_on (addressable (St := St)) (upd m o (Some d)) m'
      \/ is_ok r = false /\ same_on (addressable (St := St)) m m'
  | CDelete o => fun r m' => addressable (St := St) o ->
      same_on (addressable (St := St)) m m' \/ same_on (addressable (St := St)) (upd m o None) m'
  end.

Lemma exec_call_spec c s x s' : exec_call c s = (x, s') -> call_spec c (view s) x (view s').
Proof.
  destruct c as [| |o|o r|o|o cond d|o cond d|o]; simpl.
  - by intros [= <- <-].
  - by intros [= <- <-].
  - intros [Hs Hr]%law_head. split; [done|]. destruct x; [|done]. destruct Hr as (d & -> & _). done.
  - done.
  - intros [Hs Hr]%law_read_all. split; [done|]. by destruct x as [[|]|].
  - intros Hc -> Ho. pose proof (law_create _ _ _ _ _ Ho Hc) as Hl. destruct x as [|e]; [done|].
    destruct e; try done. by left.
  - intros Hc Ho. pose proof (law_replace _ _ _ _ _ _ Ho Hc) as Hl.
    destruct x; simpl; [left; by destruct Hl|]. destruct Hl as [?|[_ ?]]; auto.
  - intros Hc Ho. pose proof (law_delete _ _ _ _ Ho Hc) as Hl. destruct x; tauto.
Qed.

(** Weakest precondition of a program: before each of its calls the other
    writers may have acted (within [E], keeping [J]). *)
Fixpoint safe {A} (p : prog A) (Q : A -> objects -> Prop) (m : objects) : Prop :=
  match p with
  | Ret a => Q a m
  | Call c k => forall m1 x m2, E m m1 -> J m1 -> call_spec c m1 x m2 ->
      E m1 m2 /\ J m2 /\ safe (k x) Q m2
  end.

#[local] Instance E_preorder : PreOrder E.
Proof.
  split; [by intros m o|]. intros m1 m2 m3 H12 H23 o Ho Hm Hne.
  rewrite (H23 o Ho Hm); [by apply H12|]. by rewrite (H12 o Ho Hm).
Qed.

Lemma E_same m m' : same_on (addressable (St := St)) m m' -> E m m'.
Proof. intros Hs o Ho _ _. by apply Hs. Qed.

Lemma present_same rel m m' :
  same_on (addressable (St := St)) m m' -> present rel m -> present rel m'.
Proof.
  intros Hs (o & Ho & Hne). exists o. split; [done|]. by rewrite (Hs o) by by eapply ds_addressable.
Qed.

Lemma state_fact_impl v st m m' :
  (present (version_manifest_key v) m -> present (version_manifest_key v) m') ->
  (present (version_commit_key v) m -> present (version_commit_key v) m') ->
  state_fact v st m -> state_fact v st m'.
Proof. unfold state_fact. naive_solver. Qed.

Lemma J_same m m' : same_on (addressable (St := St)) m m' -> J m -> J m'.
Proof.
  intros Hs [Hc Hst Hcu]. assert (Hs' := Hs). symmetry in Hs'. split.
  - intros v Hv Hp. eapply present_same; [done|]. apply Hc; [done|]. by eapply present_same.
  - intros v o b r Hv Ho Hb Hr. rewrite (Hs o) in Hb by by eapply ds_addressable.
    eapply state_fact_impl; [by apply present_same..|]. by eapply Hst.
  - intros o b p Ho Hb Hp. rewrite (Hs o) in Hb by by eapply ds_addressable.
    destruct (Hcu o b p) as [? ?]; [done..|]. split; [done|]. by eapply present_same.
Qed.

(** Layout keys are pairwise distinct. *)
Lemma key_inj r1 r2 o :
  is_absolute r1 = false -> is_absolute r2 = false -> at_key r1 o -> at_key r2 o -> r1 = r2.
Proof. intros. by eapply object_at_inj. Qed.

Lemma vkey_inj v v' x x' o : valid_id v -> valid_id v' ->
  at_key (version_prefix v +:+ "/" +:+ x) o -> at_key (version_prefix v' +:+ "/" +:+ x') o ->
  v = v' /\ x = x'.
Proof. intros. apply version_key_inj; [done..|]. by eapply key_inj. Qed.

Lemma vkey_not_lock v x o : at_key (version_prefix v +:+ "/" +:+ x) o -> ~ at_key WRITER_LOCK_KEY o.
Proof. intros Ho Hl. by pose proof (key_inj _ WRITER_LOCK_KEY o (version_key_relative v x) eq_refl Ho Hl). Qed.

Lemma vkey_not_current v x o : at_key (version_prefix v +:+ "/" +:+ x) o -> ~ at_key CURRENT_KEY o.
Proof. intros Ho Hl. by pose proof (key_inj _ CURRENT_KEY o (version_key_relative v x) eq_refl Ho Hl). Qed.

Lemma vkey_mutable v x o :
  valid_id v -> at_key (version_prefix v +:+ "/" +:+ x) o -> mutable o -> x = STATE_FILE.
Proof.
  intros Hv Ho [Hl|[Hc|(v' & Hv' & Hs)]].
  - by apply vkey_not_lock in Ho.
  - by apply vkey_not_current in Ho.
  - by destruct (vkey_inj v v' x STATE_FILE o).
Qed.

Lemma present_stable v x m m' : valid_id v -> x <> STATE_FILE -> E m m' ->
  present (version_prefix v +:+ "/" +:+ x) m -> present (version_prefix v +:+ "/" +:+ x) m'.
Proof.
  intros Hv Hx HE (o & Ho & Hne). exists o. split; [done|].
  rewrite (HE o); [done|by eapply ds_addressable| |done]. intros Hm. by eapply Hx, vkey_mutable.
Qed.

Lemma present_manifest_stable v m m' :
  valid_id v -> E m m' -> present (version_manifest_key v) m -> present (version_manifest_key v) m'.
Proof. intros Hv HE. by apply (present_stable v MANIFEST_FILE). Qed.

Lemma present_commit_stable v m m' :
  valid_id v -> E m m' -> present (version_commit_key v) m -> present (version_commit_key v) m'.
Proof. intros Hv HE. by apply (present_stable v COMMITTED_MARKER). Qed.

Lemma state_fact_stable v st m m' : valid_id v -> E m m' -> state_fact v st m -> state_fact v st m'.
Proof.
  intros. eapply state_fact_impl; [| |done]; eauto using present_manifest_stable, present_commit_stable.
Qed.

(** ** Writes *)

(** What a payload must satisfy to be written at [o]; stable under the others. *)
Record writable (o : ObjectLocation) (d : bytes) (m : objects) : Prop := {
  w_commit : forall v, valid_id v -> at_key (version_commit_key v) o ->
    present (version_manifest_key v) m;
  w_state : forall v r, valid_id v -> at_key (version_state_key v) o -> from_slice d = Ok r ->
    state_fact v (sr_state r) m;
  w_current : forall p, at_key CURRENT_KEY o -> from_slice d = Ok p ->
    valid_id (cp_version_id p) /\ present (version_commit_key (cp_version_id p)) m;
}.

Lemma writable_stable o d m m' : E m m' -> writable o d m -> writable o d m'.
Proof.
  intros HE [Hc Hs Hp]. split.
  - intros. eapply present_manifest_stable; eauto.
  - intros. eapply state_fact_stable; eauto.
  - intros p Ho Hd. destruct (Hp p Ho Hd). split; [done|]. by eapply present_commit_stable.
Qed.

Lemma E_write o d m : (mutable o \/ m o = None) -> E m (upd m o d).
Proof.
  intros Ho o' Ha Hm Hne. unfold upd. case_decide as Ho'; [|done]. subst. by destruct Ho.
Qed.

Lemma present_upd_some rel o d m : present rel (upd m o (Some d)) -> at_key rel o \/ present rel m.
Proof.
  intros (o' & Ho' & Hne). destruct (decide (o = o')) as [->|]; [by left|]. right.
  exists o'. by rewrite upd_ne in Hne.
Qed.

Lemma J_write o d m :
  (mutable o \/ m o = None) -> writable o d m -> J m -> J (upd m o (Some d)).
Proof.
  intros Ho Hw HJ. pose proof (E_write o (Some d) m Ho) as HE.
  destruct (writable_stable _ _ _ _ HE Hw) as [Wc Ws Wp]. split.
  - intros v Hv [Hp|Hp]%present_upd_some; [by apply Wc|].
    eapply present_manifest_stable; [done..|]. by apply HJ.
  - intros v o' b r Hv Ho' Hb Hr. destruct (decide (o = o')) as [->|Hne].
    + rewrite upd_eq in Hb. simplify_eq. by apply Ws.
    + rewrite upd_ne in Hb by done. eapply state_fact_stable; [done..|]. by eapply (J_state _ HJ).
  - intros o' b p Ho' Hb Hp. destruct (decide (o = o')) as [->|Hne].
    + rewrite upd_eq in Hb. simplify_eq. by apply Wp.
    + rewrite upd_ne in Hb by done. destruct (J_current _ HJ o' b p) as [? ?]; [done..|].
      split; [done|]. by eapply present_commit_stable.
Qed.

(** Removing the lock object breaks nothing. *)
Lemma J_unlock o m : at_key WRITER_LOCK_KEY o -> J m -> J (upd m o None).
Proof.
  intros Ho HJ. assert (E m (upd m o None)) as HE by (apply E_write; by left; left).
  assert (forall o', upd m o None o' <> None -> m o' <> None) as Hsub
    by (intros o'; unfold upd; by case_decide).
  split.
  - intros v Hv (o' & Ho' & Hne). eapply present_manifest_stable; [done..|].
    apply HJ; [done|]. exists o'. auto.
  - intros v o' b r Hv Ho' Hb Hr. rewrite upd_ne in Hb
      by (intros ->; by eapply (vkey_not_lock v STATE_FILE)).
    eapply state_fact_stable; [done..|]. by eapply (J_state _ HJ).
  - intros o' b p Ho' Hb Hp. rewrite upd_ne in Hb
      by (intros ->; by pose proof (key_inj WRITER_LOCK_KEY CURRENT_KEY o' eq_refl eq_refl Ho Ho')).
    destruct (J_current _ HJ o' b p) as [? ?]; [done..|]. split; [done|]. by eapply present_commit_stable.
Qed.

(** ** Proof rules *)

Lemma safe_mono {A} (p : prog A) (Q Q' : A -> objects -> Prop) m :
  safe p Q m -> (forall a m', E m m' -> Q a m' -> Q' a m') -> safe p Q' m.
Proof.
  revert m. induction p as [a|c k IH]; simpl; intros m Hp HQ; [by apply HQ|].
  intros m1 x m2 H01 HJ Hc. destruct (Hp _ _ _ H01 HJ Hc) as (H12 & HJ2 & Hk).
  split_and!; [done..|]. eapply IH; [done|]. intros a m' H2' Ha. apply HQ; [|done].
  etrans; [done|]. by etrans.
Qed.

Lemma safe_bind {A B} (p : prog A) (f : A -> prog B) Q m :
  safe p (fun a => safe (f a) Q) m -> safe (p ≫= f) Q m.
Proof.
  revert m. induction p as [a|c k IH]; simpl; intros m Hp; [done|].
  intros m1 x m2 H01 HJ Hc. destruct (Hp _ _ _ H01 HJ Hc) as (H12 & HJ2 & Hk).
  split_and!; [done..|]. by apply IH.
Qed.

Lemma safe_try {Er A B} (p : prog (Result Er A)) (f : A -> prog (Result Er B)) Q m :
  safe p (fun r => match r with Ok a => safe (f a) Q | Err e => Q (Err e) end) m ->
  safe (try p f) Q m.
Proof. intros Hp. apply safe_bind. eapply safe_mono; [done|]. by intros [a|e] m' _ ?. Qed.

Lemma safe_caps Q m :
  (forall m' x, E m m' -> J m' -> Q x m') -> safe (request CCapabilities) Q m.
Proof.
  intros HQ m1 x m2 HE HJ Hs. simpl in *. pose proof (E_same _ _ Hs). pose proof (J_same _ _ Hs HJ).
  split_and!; [done..|]. apply HQ; [by etrans|done].
Qed.

Lemma safe_head o Q m : addressable (St := St) o ->
  (forall m' r, E m m' -> J m' -> (is_ok r = true -> m' o <> None) -> Q r m') ->
  safe (request (CHead o)) Q m.
Proof.
  intros Ho HQ m1 x m2 HE HJ [Hs Hx]. pose proof (E_same _ _ Hs). pose proof (J_same _ _ Hs HJ).
  split_and!; [done..|]. apply HQ; [by etrans|done|]. destruct x; [|done]. by rewrite (Hs o Ho).
Qed.

Lemma safe_read_all o Q m : addressable (St := St) o ->
  (forall m' r, E m m' -> J m' ->
     match r with Ok (Ok b) => m' o = Some b | _ => True end -> Q r m') ->
  safe (request (CReadAll o)) Q m.
Proof.
  intros Ho HQ m1 x m2 HE HJ [Hs Hx]. pose proof (E_same _ _ Hs). pose proof (J_same _ _ Hs HJ).
  split_and!; [done..|]. apply HQ; [by etrans|done|].
  destruct x as [[b|]|]; [|done..]. by rewrite (Hs o Ho).
Qed.

Lemma write_step o d m1 m2 : (mutable o \/ m1 o = None) -> writable o d m1 -> J m1 ->
  same_on (addressable (St := St)) (upd m1 o (Some d)) m2 -> E m1 m2 /\ J m2.
Proof.
  intros Ho Hw HJ Hs. split; [|by eapply J_same, J_write].
  etrans; [by apply (E_write o (Some d))|by apply E_same].
Qed.

Lemma safe_create o d Q m : addressable (St := St) o -> writable o d m ->
  (forall m' r, E m m' -> J m' -> (is_ok r = true -> m' o <> None) -> Q r m') ->
  safe (request (CCreate o must_not_exist d)) Q m.
Proof.
  intros Ho Hw HQ m1 x m2 HE HJ Hc. specialize (Hc eq_refl Ho).
  assert (Hw1 : writable o d m1) by by eapply writable_stable.
  assert (E m1 m2 /\ J m2 /\ (is_ok x = true -> m2 o <> None)) as (H12 & HJ2 & Hx).
  { destruct x as [md|e].
    - destruct Hc as [Hn Hs]. destruct (write_step o d m1 m2) as [? ?]; [by right|done..|].
      split_and!; [done..|]. intros _. by rewrite (Hs o Ho), upd_eq.
    - destruct Hc as [Hs|[Hn Hs]].
      + split_and!; [by apply E_same|by eapply J_same|done].
      + destruct (write_step o d m1 m2) as [? ?]; [by right|done..]. }
  split_and!; [done..|]. apply HQ; [by etrans|done..].
Qed.

(** A create of an object that exists, and that nobody replaces, fails. *)
Lemma safe_create_taken o d Q m : addressable (St := St) o -> ~ mutable o -> m o <> None ->
  (forall m' e, E m m' -> J m' -> Q (Err e) m') ->
  safe (request (CCreate o must_not_exist d)) Q m.
Proof.
  intros Ho Hmut Hm HQ m1 x m2 HE HJ Hc. specialize (Hc eq_refl Ho).
  assert (m1 o <> None) by by rewrite (HE o Ho Hmut Hm).
  destruct x as [md|e]; [by destruct Hc|]. destruct Hc as [Hs|[? _]]; [|done].
  pose proof (E_same _ _ Hs). pose proof (J_same _ _ Hs HJ).
  split_and!; [done..|]. apply HQ; [by etrans|done].
Qed.

Lemma safe_replace o c d Q m : addressable (St := St) o -> mutable o -> writable o d m ->
  (forall m' r, E m m' -> J m' -> Q r m') -> safe (request (CReplace o c d)) Q m.
Proof.
  intros Ho Hmut Hw HQ m1 x m2 HE HJ Hc. specialize (Hc Ho).
  assert (Hw1 : writable o d m1) by by eapply writable_stable.
  assert (E m1 m2 /\ J m2) as (H12 & HJ2).
  { destruct Hc as [Hs|[_ Hs]]; [by apply (write_step o d); auto|].
    split; [by apply E_same|by eapply J_same]. }
  split_and!; [done..|]. apply HQ; [by etrans|done].
Qed.

Lemma safe_unlock o Q m : at_key WRITER_LOCK_KEY o ->
  (forall m' r, E m m' -> J m' -> Q r m') -> safe (request (CDelete o)) Q m.
Proof.
  intros Ho HQ m1 x m2 HE HJ Hc. specialize (Hc (ds_addressable _ _ Ho)).
  assert (E m1 m2 /\ J m2) as (H12 & HJ2).
  { destruct Hc as [Hs|Hs]; [split; [by apply E_same|by eapply J_same]|]. split.
    - etrans; [apply (E_write o None); by left; left|by apply E_same].
    - by eapply J_same, J_unlock. }
  split_and!; [done..|]. apply HQ; [by etrans|done].
Qed.

(** ** Requests of the protocol *)

Lemma to_vec_inv {T} `{Json T} (x : T) b : to_vec x = Ok b -> from_slice b = Ok x.
Proof. destruct (json_roundtrip x) as (b' & Hb & Hr). intros Hx. rewrite Hx in Hb. by injection Hb as ->. Qed.

Lemma safe_put_json o d m : at_key (CURRENT_KEY) o \/ (exists v, valid_id v /\ at_key (version_state_key v) o) ->
  writable o d m -> safe (put_json o d) (fun _ m' => E m m' /\ J m') m.
Proof.
  intros Ho Hw. assert (Ha : addressable (St := St) o)
    by (destruct Ho as [Ho|(v & _ & Ho)]; by eapply ds_addressable).
  apply safe_bind, safe_head; [done|]. intros m1 [md|e] HE HJ _.
  - cbn beta iota. apply safe_try. apply safe_bind, safe_replace; [done|by right|by eapply writable_stable|].
    intros m2 r H12 HJ2. destruct r; simpl; (split; [by etrans|done]).
  - destruct e; cbn beta iota; try by split.
    apply safe_try. apply safe_bind, safe_create; [done|by eapply writable_stable|].
    intros m2 r H12 HJ2 _. destruct r; simpl; (split; [by etrans|done]).
Qed.

Lemma safe_create_object o d Q m : addressable (St := St) o -> writable o d m ->
  (forall m' r, E m m' -> J m' -> (is_ok r = true -> m' o <> None) -> Q r m') ->
  safe (create_object o d) Q m.
Proof.
  intros Ho Hw HQ. apply safe_bind, safe_create; [done..|]. intros m' r HE HJ Hr.
  apply HQ; [done..|]. by destruct r.
Qed.

Lemma safe_read_json {T} `{Json T} o Q m : addressable (St := St) o ->
  (forall m' r, E m m' -> J m' ->
     (forall x, r = Ok x -> exists b, m' o = Some b /\ from_slice b = Ok x) -> Q r m') ->
  safe (read_json_object (T := T) o) Q m.
Proof.
  intros Ho HQ. apply safe_bind, safe_read_all; [done|]. intros m' r HE HJ Hr.
  destruct r as [[b|]|]; simpl; apply HQ; try done.
  intros x Hx. exists b. split; [done|]. by destruct (from_slice b); simplify_eq/=.
Qed.

Lemma safe_pure {A B} (r : Result StorageError A) (f : A -> prog (Result PublicationError B)) Q m :
  (forall a, r = Ok a -> safe (f a) Q m) -> (forall e, Q (Err e) m) ->
  safe (try (pure_storage r) f) Q m.
Proof. intros Hf He. apply safe_try. destruct r; [by apply Hf|apply He]. Qed.

Lemma safe_encode {T} `{Json T} {B} (x : T) (f : bytes -> prog (Result PublicationError B)) Q m :
  (forall b, from_slice b = Ok x -> safe (f b) Q m) -> (forall e, Q (Err e) m) ->
  safe (try (encode_json x) f) Q m.
Proof.
  intros Hf He. apply safe_try. unfold encode_json.
  destruct (to_vec x) eqn:Hx; [by apply Hf, to_vec_inv|apply He].
Qed.

(** ** Observations *)

Lemma safe_committed v Q m : J m ->
  (forall m' r, E m m' -> J m' ->
     (r = Ok true -> present (version_commit_key v) m') -> Q r m') ->
  safe (is_version_committed ds v) Q m.
Proof.
  intros HJ HQ. apply safe_try.
  destruct (object_at ds (version_commit_key v)) as [o|e] eqn:Ho; [|by apply HQ].
  apply safe_bind, safe_head; [by eapply ds_addressable|]. intros m' r HE HJ' Hr.
  destruct r as [md|e]; [|by destruct e; apply HQ].
  apply HQ; [done..|]. intros _. exists o. auto.
Qed.

Lemma safe_current Q m : J m ->
  (forall m' r, E m m' -> J m' -> Q r m') -> safe (read_current_version ds) Q m.
Proof.
  intros HJ HQ. apply safe_try.
  destruct (object_at ds CURRENT_KEY) as [o|e] eqn:Ho; [|by apply HQ].
  apply safe_bind, safe_read_json; [by eapply ds_addressable|]. intros m' r HE HJ' _.
  destruct r as [p|e]; [by apply HQ|]. repeat case_match; by apply HQ.
Qed.

Lemma committed_fact v st m : J m -> valid_id v ->
  present (version_commit_key v) m -> state_fact v st m.
Proof. intros HJ Hv Hc. split; intros _; [by apply HJ|done]. Qed.

Lemma early_fact v st m : ordinal st < ordinal ManifestWritten -> state_fact v st m.
Proof. simpl. intros. split; simpl; lia. Qed.

Lemma safe_load v now m : J m -> valid_id v ->
  safe (load_recovered_state ds v now) (fun r m' => E m m' /\ J m' /\
     forall rec, r = Ok (Some rec) -> state_fact v (sr_state rec) m') m.
Proof.
  intros HJ Hv. apply safe_try, safe_committed; [done|]. intros m1 r HE1 HJ1 Hr.
  destruct r as [[|]|e]; cbn beta iota; [| |by split_and!].
  - apply safe_try, safe_current; [done|]. intros m2 c HE2 HJ2.
    assert (E m m2) by by etrans.
    destruct c as [cur|e]; cbn; split_and!; try done. intros rec Hrec. simplify_eq.
    apply committed_fact; [done..|]. apply (present_commit_stable v m1); auto.
  - apply safe_try. destruct (object_at ds (version_state_key v)) as [o|e] eqn:Ho; [|by cbn; split_and!].
    apply safe_bind, safe_read_json; [by eapply ds_addressable|]. intros m2 r HE2 HJ2 Hr2.
    assert (E m m2) by by etrans.
    destruct r as [rec|e]; cbn; [|by repeat case_match; split_and!].
    split_and!; [done..|]. intros rec' [= <-]. destruct (Hr2 rec eq_refl) as (b & Hb & Hdec).
    by eapply (J_state _ HJ2).
Qed.

Lemma writable_other o d m :
  (forall v, valid_id v -> ~ at_key (version_commit_key v) o) ->
  (forall v, valid_id v -> ~ at_key (version_state_key v) o) ->
  ~ at_key CURRENT_KEY o -> writable o d m.
Proof. intros Hc Hs Hp. split; naive_solver. Qed.

Lemma lock_writable o d m : at_key WRITER_LOCK_KEY o -> writable o d m.
Proof.
  intros Ho. apply writable_other.
  - intros v _ Hc. by eapply (vkey_not_lock v COMMITTED_MARKER).
  - intros v _ Hc. by eapply (vkey_not_lock v STATE_FILE).
  - intros Hc. by pose proof (key_inj WRITER_LOCK_KEY CURRENT_KEY o eq_refl eq_refl Ho Hc).
Qed.

(** Objects of a version other than its marker and state: data and manifest. *)
Lemma vkey_writable v x o d m : valid_id v -> at_key (version_prefix v +:+ "/" +:+ x) o ->
  x <> COMMITTED_MARKER -> x <> STATE_FILE -> writable o d m.
Proof.
  intros Hv Ho Hx Hx'. apply writable_other.
  - intros v' Hv' Hc. by destruct (vkey_inj v v' x COMMITTED_MARKER o).
  - intros v' Hv' Hc. by destruct (vkey_inj v v' x STATE_FILE o).
  - by eapply vkey_not_current.
Qed.

(** Close the postcondition of a program that has returned. *)
Ltac ret := by intros; cbn beta iota; split_and!; try done; intros ? [= <-].

(** ** The lock *)

Definition lock_ok (l : RemotePublicationLock) : Prop := at_key WRITER_LOCK_KEY (lock_object l).

Lemma safe_acquire rid m : J m ->
  safe (acquire ds rid) (fun r m' => E m m' /\ J m' /\
    forall l, r = Ok l -> lock_ok l /\ lr_run_id (lock_record l) = rid) m.
Proof.
  intros HJ. apply safe_bind, safe_caps. intros m1 caps HE1 HJ1. cbn beta. case_match; [ret|].
  apply safe_pure; [intros o Ho|ret].
  apply safe_encode; [intros payload _|ret].
  apply safe_bind, safe_create; [by eapply ds_addressable|by apply lock_writable|].
  intros m2 r HE2 HJ2 _. assert (E m m2) by by etrans.
  destruct r as [md|e]; [ret|].
  destruct e; cbn beta iota; try ret.
  apply safe_try, safe_read_json; [by eapply ds_addressable|]. intros m3 r HE3 HJ3 _.
  assert (E m m3) by by etrans.
  destruct r as [ex|e]; [|ret]. cbn beta iota. case_match; [ret|].
  apply safe_try. apply safe_bind, safe_unlock; [done|]. intros m4 r HE4 HJ4.
  assert (E m m4) by by etrans. destruct r as [u|e]; [|ret].
  cbn beta iota. apply safe_encode; [intros payload' _|ret].
  apply safe_try, safe_create_object; [by eapply ds_addressable|by apply lock_writable|].
  intros m5 r HE5 HJ5 _. assert (E m m5) by by etrans.
  destruct r as [u'|e]; [ret|ret].
Qed.

(** ** Sessions *)

Record session_ok (s : Session) (m : objects) : Prop := {
  ok_dataset : dataset s = ds;
  ok_version : valid_id (version_id s);
  ok_state : state_fact (version_id s) (state s) m;
  ok_lock : forall l, lock s = Some l -> lock_ok l;
}.

Lemma session_ok_stable s m m' : E m m' -> session_ok s m -> session_ok s m'.
Proof. intros HE [? ? ? ?]. split; [done..| |done]. by eapply state_fact_stable. Qed.

Lemma set_state_ok st s m : session_ok s m -> state_fact (version_id s) st m ->
  session_ok (set_state st s) m.
Proof. by intros [? ? ? ?] ?; split. Qed.

Lemma safe_sm_bind {A B} (x : SM A) (f : A -> SM B) Q s m :
  safe (x s) (fun rs m' => match rs with
                           | (Ok a, s') => safe (f a s') Q m'
                           | (Err e, s') => Q (Err e, s') m'
                           end) m ->
  safe (sm_bind x f s) Q m.
Proof. intros Hx. apply safe_bind. eapply safe_mono; [done|]. by intros [[a|e] s'] m' _ ?. Qed.

Lemma safe_sm_lift {A} (p : prog (Result PublicationError A)) Q s m :
  safe p (fun r => Q (r, s)) m -> safe (sm_lift p s) Q m.
Proof. intros Hp. by apply safe_bind. Qed.

Lemma safe_sm_get {B} (f : Session -> SM B) Q s m :
  safe (f s s) Q m -> safe (sm_bind sm_get f s) Q m.
Proof. done. Qed.

(** Every public operation keeps the session in step with the store. *)
Definition op_post {A} (m : objects) (rs : Result PublicationError A * Session) (m' : objects) :
    Prop := E m m' /\ J m' /\ session_ok rs.2 m'.
Definition op_spec {A} (x : SM A) : Prop :=
  forall s m, J m -> session_ok s m -> safe (x s) (op_post m) m.

Lemma op_post_weaken {A} m0 m (rs : Result PublicationError A * Session) m' :
  E m0 m -> op_post m rs m' -> op_post m0 rs m'.
Proof. intros HE (HE' & HJ & Hs). split_and!; [by etrans|done..]. Qed.

Lemma op_spec_bind {A B} (x : SM A) (f : A -> SM B) :
  op_spec x -> (forall a, op_spec (f a)) -> op_spec (sm_bind x f).
Proof.
  intros Hx Hf s m HJ Hs. apply safe_sm_bind. eapply safe_mono; [by apply Hx|].
  intros [[a|e] s'] m' _ (HE & HJ' & Hs'); [|by split_and!].
  eapply safe_mono; [by apply Hf|]. intros. by eapply op_post_weaken.
Qed.

Lemma op_spec_ret {A} (a : A) : op_spec (sm_ret a).
Proof. by intros s m HJ Hs. Qed.

Lemma safe_sm_pure {A B} (r : Result StorageError A) (f : A -> SM B) Q s m :
  (forall a, r = Ok a -> safe (f a s) Q m) -> (forall e, Q (Err e, s) m) ->
  safe (sm_bind (sm_lift (pure_storage r)) f s) Q m.
Proof. intros Hf He. apply safe_sm_bind. destruct r; [by apply Hf|apply He]. Qed.

Lemma safe_sm_encode {T} `{Json T} {B} (x : T) (f : bytes -> SM B) Q s m :
  (forall b, from_slice b = Ok x -> safe (f b s) Q m) -> (forall e, Q (Err e, s) m) ->
  safe (sm_bind (sm_lift (encode_json x)) f s) Q m.
Proof.
  intros Hf He. apply safe_sm_bind. cbn. destruct (to_vec x) eqn:Hx; [by apply Hf, to_vec_inv|apply He].
Qed.

Lemma safe_persist_id st now s m : J m -> session_ok s m -> state_fact (version_id s) st m ->
  safe (persist_state st now s)
    (fun rs m' => E m m' /\ J m' /\ session_ok rs.2 m' /\ version_id rs.2 = version_id s) m.
Proof.
  intros HJ Hs Hst. assert (Hv := ok_version _ _ Hs). unfold persist_state.
  apply safe_sm_get. rewrite (ok_dataset _ _ Hs).
  apply safe_sm_pure; [intros o Ho|by intros; split_and!].
  apply safe_sm_encode; [intros b Hb|by intros; split_and!].
  apply safe_sm_bind, safe_sm_lift. eapply safe_mono.
  { apply safe_put_json; [right; eauto|]. split.
    - intros v' Hv' Ho'. by destruct (vkey_inj (version_id s) v' STATE_FILE COMMITTED_MARKER o).
    - intros v' r Hv' Ho' Hr. destruct (vkey_inj (version_id s) v' STATE_FILE STATE_FILE o) as [<- _]; [done..|].
      rewrite Hb in Hr. by simplify_eq/=.
    - intros p Hp. by apply (vkey_not_current (version_id s) STATE_FILE) in Hp. }
  intros r m' _ [HE HJ']. assert (session_ok s m') by by eapply session_ok_stable.
  destruct r as [u|e]; [|by split_and!]. split_and!; [done..| |done].
  apply set_state_ok; [done|]. eapply state_fact_stable; eauto.
Qed.

Lemma safe_persist st now s m : J m -> session_ok s m -> state_fact (version_id s) st m ->
  safe (persist_state st now s) (op_post m) m.
Proof.
  intros. eapply safe_mono; [by apply safe_persist_id|]. intros rs m' _ (? & ? & ? & _). by split_and!.
Qed.

Lemma safe_advance next now : ordinal next < ordinal ManifestWritten -> op_spec (advance_to next now).
Proof.
  intros Hn s m HJ Hs. apply safe_sm_get. case_decide; [by split_and!|].
  case_match; [by split_and!|]. apply safe_persist; [done..|]. by apply early_fact.
Qed.

Lemma safe_put_version_object relative d now : op_spec (put_version_object relative d now).
Proof.
  intros s m HJ Hs. apply safe_sm_get. case_match; [by split_and!|].
  apply safe_sm_bind. eapply safe_mono with (Q := fun rs m' => op_post m rs m').
  { case_decide; [apply safe_advance; [simpl; lia|done..]|]. by case_match; split_and!. }
  intros [[u|e] s'] m1 _ (HE1 & HJ1 & Hs1); [|by split_and!].
  unfold version_object. rewrite (ok_dataset _ _ Hs).
  apply safe_sm_pure; [intros o Ho|by intros; split_and!].
  apply safe_sm_lift, safe_create_object; [by eapply ds_addressable| |].
  - apply (vkey_writable (version_id s) (DATA_PREFIX +:+ "/" +:+ trim_start_slash relative));
      [by apply Hs|done..].
  - intros m2 r HE2 HJ2 _. split_and!; [by etrans|done|]. by eapply session_ok_stable.
Qed.

Lemma safe_write_manifest manifest now : op_spec (write_manifest manifest now).
Proof.
  intros s m HJ Hs. apply safe_sm_get. case_match; [by split_and!|].
  rewrite (ok_dataset _ _ Hs). apply safe_sm_pure; [intros o Ho|by intros; split_and!].
  apply safe_sm_encode; [intros b _|by intros; split_and!].
  apply safe_sm_bind, safe_sm_lift, safe_create_object; [by eapply ds_addressable| |].
  { apply (vkey_writable (version_id s) MANIFEST_FILE); [by apply Hs|done..]. }
  intros m1 r HE1 HJ1 Hr. assert (Hs1 : session_ok s m1) by by eapply session_ok_stable.
  destruct r as [md|e]; [|by split_and!]. eapply safe_mono.
  { apply safe_persist; [done..|]. split; [|simpl; lia]. intros _. exists o. auto. }
  intros. by eapply op_post_weaken.
Qed.

Lemma safe_commit now now' : op_spec (commit now now').
Proof.
  intros s m HJ Hs. assert (Hv := ok_version _ _ Hs).
  apply safe_sm_get. case_match eqn:Hst; [by split_and!|].
  apply negb_false_iff, bool_decide_eq_true in Hst.
  rewrite (ok_dataset _ _ Hs). apply safe_sm_bind, safe_sm_lift, safe_committed; [done|].
  intros m1 r HE1 HJ1 Hr. assert (Hs1 : session_ok s m1) by by eapply session_ok_stable.
  destruct r as [[|]|e]; cbn beta iota; [| |by split_and!].
  { split_and!; [done..|]. apply set_state_ok; [done|]. apply committed_fact; auto. }
  cbv zeta. apply safe_sm_pure; [intros o Ho|by intros; split_and!].
  assert (Hman : present (version_manifest_key (version_id s)) m1).
  { destruct (ok_state _ _ Hs1) as [Hm _]. apply Hm. by rewrite Hst. }
  apply safe_sm_encode; [intros b _|by intros; split_and!].
  apply safe_sm_bind, safe_sm_lift, safe_create_object; [by eapply ds_addressable| |].
  { split.
    - intros v' Hv' Ho'. by destruct (vkey_inj (version_id s) v' COMMITTED_MARKER COMMITTED_MARKER o) as [<- _].
    - intros v' r' Hv' Ho'. by destruct (vkey_inj (version_id s) v' COMMITTED_MARKER STATE_FILE o).
    - intros p Hp. by apply (vkey_not_current (version_id s) COMMITTED_MARKER) in Hp. }
  intros m2 r HE2 HJ2 Hr2. assert (Hs2 : session_ok s m2) by by eapply session_ok_stable.
  assert (E m m2) by by etrans. destruct r as [md|e]; [|by split_and!].
  apply safe_sm_bind. eapply safe_mono.
  { apply safe_persist; [done..|]. apply committed_fact; [done..|]. exists o. auto. }
  intros [[u|e] s'] m3 _ (HE3 & HJ3 & Hs3); (split_and!; [by etrans|done..]).
Qed.

Lemma safe_promote now : op_spec (promote_current now).
Proof.
  intros s m HJ Hs. assert (Hv := ok_version _ _ Hs).
  apply safe_sm_get. rewrite (ok_dataset _ _ Hs).
  apply safe_sm_bind, safe_sm_lift, safe_committed; [done|].
  intros m1 r HE1 HJ1 Hr. assert (Hs1 : session_ok s m1) by by eapply session_ok_stable.
  destruct r as [[|]|e]; cbn beta iota; [|by split_and!..].
  cbv zeta. apply safe_sm_pure; [intros o Ho|by intros; split_and!].
  apply safe_sm_encode; [intros b Hb|by intros; split_and!].
  apply safe_sm_bind, safe_sm_lift. eapply safe_mono.
  { apply safe_put_json; [by left|]. split.
    - intros v' Hv' Ho'. by apply (vkey_not_current v' COMMITTED_MARKER) in Ho'.
    - intros v' r' Hv' Ho'. by apply (vkey_not_current v' STATE_FILE) in Ho'.
    - intros p _ Hp. rewrite Hb in Hp. simplify_eq/=. auto. }
  intros r2 m2 _ [HE2 HJ2]. assert (Hs2 : session_ok s m2) by by eapply session_ok_stable.
  assert (E m m2) by by etrans. destruct r2 as [u|e]; [|by split_and!]. eapply safe_mono.
  { apply safe_persist; [done..|]. apply committed_fact; [done..|].
    apply (present_commit_stable _ m1); auto. }
  intros. by eapply op_post_weaken.
Qed.

Lemma safe_release_lock : op_spec release_lock.
Proof.
  intros s m HJ Hs. apply safe_sm_get. destruct (lock s) as [l|] eqn:Hl; [|by split_and!].
  assert (Hs' : forall m', E m m' -> session_ok (set_lock None s) m').
  { intros m' HE. destruct (session_ok_stable _ _ _ HE Hs). by split. }
  apply safe_sm_bind. cbn beta iota. apply safe_sm_lift. unfold release.
  case_match; [by split_and!; [..|apply Hs']|].
  apply safe_try. apply safe_bind, safe_unlock; [by eapply Hs|].
  intros m1 r HE1 HJ1. destruct r; split_and!; by try apply Hs'.
Qed.

Lemma safe_finish promote now now' now'' : op_spec (finish promote now now' now'').
Proof.
  intros s m HJ Hs. apply safe_sm_get.
  apply (op_spec_bind _ (fun _ => _)); [| |done..].
  { case_decide; [|apply op_spec_ret]. apply op_spec_bind; [apply safe_commit|].
    intros _. apply op_spec_ret. }
  intros _. apply op_spec_bind; [case_match; [apply safe_promote|apply op_spec_ret]|].
  intros _. apply safe_release_lock.
Qed.

Lemma safe_begin rid now now' m : J m -> valid_id rid ->
  safe (begin ds rid now now')
    (fun r m' => E m m' /\ J m' /\ forall s, r = Ok s -> session_ok s m' /\ version_id s = rid) m.
Proof.
  intros HJ Hv. apply safe_try. eapply safe_mono; [by apply safe_acquire|].
  intros [l|e] m1 _ (HE1 & HJ1 & Hl); [|ret]. destruct (Hl l eq_refl) as [Hlk Hrid].
  assert (lock_version_id l = rid) as -> by done.
  apply safe_try. eapply safe_mono; [by apply safe_load|].
  intros [rec|e] m2 _ (HE2 & HJ2 & Hrec); [|by split_and!; [etrans|..]].
  assert (E m m2) by by etrans.
  match goal with |- safe (let _ := ?x in _) _ _ => set (s := x); cbv zeta end.
  assert (Hs : session_ok s m2).
  { split; simpl; [done..| |by intros ? [= <-]]. destruct rec as [rec|]; [by apply Hrec|].
    apply early_fact. simpl. lia. }
  case_decide; [|ret]. apply safe_bind. eapply safe_mono.
  { apply (safe_persist_id Preparing now' s m2); [done..|]. apply early_fact. simpl. lia. }
  intros [[u|e] s'] m3 _ (HE3 & HJ3 & Hs3 & Hid); (split_and!; [by etrans|done|by intros ? [= <-]]).
Qed.

(** * Concurrent writers *)

(** The operations a client drives a session with; [begin] is separate. *)
Inductive session_op :=
| OpPut (relative : string) (d : bytes) (now : Z)
| OpMarkUploaded (now : Z)
| OpMarkVerified (now : Z)
| OpWriteManifest (manifest : PublicationManifest) (now : Z)
| OpCommit (now now' : Z)
| OpPromote (now : Z)
| OpAbandon
| OpFinish (promote : bool) (now now' now'' : Z).

(** The caller keeps the session whether the operation succeeds or fails. *)
Definition op_prog (o : session_op) (s : Session) : prog Session :=
  match o with
  | OpPut relative d now => snd <$> put_version_object relative d now s
  | OpMarkUploaded now => snd <$> mark_uploaded now s
  | OpMarkVerified now => snd <$> mark_verified now s
  | OpWriteManifest manifest now => snd <$> write_manifest manifest now s
  | OpCommit now now' => snd <$> commit now now' s
  | OpPromote now => snd <$> promote_current now s
  | OpAbandon => snd <$> abandon s
  | OpFinish promote now now' now'' => snd <$> finish promote now now' now'' s
  end.

Inductive writer :=
| Opening (p : prog (Result PublicationError Session))
| Busy (p : prog Session)
| Idle (s : Session).

(** One step of the system: a writer starts, performs one backend call,
    completes an operation, or stops for good. *)
Inductive sys_step : St * gmap nat writer -> St * gmap nat writer -> Prop :=
| step_begin s ws w rid now now' : ws !! w = None -> valid_id rid ->
    sys_step (s, ws) (s, <[w := Opening (begin ds rid now now')]> ws)
| step_opening s ws w c k x s' : ws !! w = Some (Opening (Call c k)) -> exec_call c s = (x, s') ->
    sys_step (s, ws) (s', <[w := Opening (k x)]> ws)
| step_opened s ws w ses : ws !! w = Some (Opening (Ret (Ok ses))) ->
    sys_step (s, ws) (s, <[w := Idle ses]> ws)
| step_op s ws w ses o : ws !! w = Some (Idle ses) ->
    sys_step (s, ws) (s, <[w := Busy (op_prog o ses)]> ws)
| step_busy s ws w c k x s' : ws !! w = Some (Busy (Call c k)) -> exec_call c s = (x, s') ->
    sys_step (s, ws) (s', <[w := Busy (k x)]> ws)
| step_done s ws w ses : ws !! w = Some (Busy (Ret ses)) ->
    sys_step (s, ws) (s, <[w := Idle ses]> ws)
| step_stop s ws w : sys_step (s, ws) (s, delete w ws).

Definition writer_ok (m : objects) (w : writer) : Prop :=
  match w with
  | Opening p => exists m0, E m0 m /\
      safe p (fun r m' => forall s, r = Ok s -> session_ok s m') m0
  | Busy p => exists m0, E m0 m /\ safe p session_ok m0
  | Idle s => session_ok s m
  end.

Definition sys_inv (c : St * gmap nat writer) : Prop :=
  J (view c.1) /\ map_Forall (fun _ => writer_ok (view c.1)) c.2.

Lemma writer_ok_stable m m' w : E m m' -> writer_ok m w -> writer_ok m' w.
Proof.
  intros HE. destruct w; simpl.
  - intros (m0 & HE0 & Hp). exists m0. split; [by etrans|done].
  - intros (m0 & HE0 & Hp). exists m0. split; [by etrans|done].
  - by apply session_ok_stable.
Qed.

Lemma safe_fmap {A B} (f : A -> B) (p : prog A) Q m :
  safe p (fun a => Q (f a)) m -> safe (f <$> p) Q m.
Proof. intros Hp. by apply safe_bind. Qed.

Lemma op_prog_safe o s m : J m -> session_ok s m -> safe (op_prog o s) session_ok m.
Proof.
  intros HJ Hs. assert (forall A (x : SM A), op_spec x -> safe (snd <$> x s) session_ok m) as Hop.
  { intros A x Hx. apply safe_fmap. eapply safe_mono; [by apply Hx|]. by intros rs m' _ (_ & _ & ?). }
  destruct o; apply Hop; [apply safe_put_version_object|apply safe_advance; simpl; lia
    |apply safe_advance; simpl; lia|apply safe_write_manifest|apply safe_commit|apply safe_promote
    |apply safe_release_lock|apply safe_finish].
Qed.

Lemma call_step {A} (Q : A -> objects -> Prop) m0 s c k x s' :
  E m0 (view s) -> J (view s) -> safe (Call c k) Q m0 -> exec_call c s = (x, s') ->
  E (view s) (view s') /\ J (view s') /\ safe (k x) Q (view s').
Proof. intros HE HJ Hs Hc. eapply Hs; [done..|]. by apply exec_call_spec. Qed.

Lemma inv_update s ws w x s' : sys_inv (s, ws) -> E (view s) (view s') -> J (view s') ->
  writer_ok (view s') x -> sys_inv (s', <[w := x]> ws).
Proof.
  intros [HJ Hws] HE HJ' Hx. split; [done|]. apply map_Forall_insert_2; [done|].
  eapply map_Forall_impl; [done|]. intros ? ? Hy. by eapply writer_ok_stable.
Qed.

Lemma sys_step_inv c c' : sys_step c c' -> sys_inv c -> E (view c.1) (view c'.1) /\ sys_inv c'.
Proof.
  intros Hstep Hinv. assert (HJ := proj1 Hinv). assert (Hws := proj2 Hinv).
  destruct Hstep as [s ws w rid now now' Hw Hid|s ws w c k x s' Hw Hc|s ws w ses Hw|s ws w ses o Hw
    |s ws w c k x s' Hw Hc|s ws w ses Hw|s ws w]; simpl in *.
  - split; [done|]. eapply inv_update; [done..|]. exists (view s). split; [done|].
    eapply safe_mono; [by apply safe_begin|]. intros r m' _ (_ & _ & Hs) ses Hses. by apply Hs.
  - destruct (Hws _ _ Hw) as (m0 & HE0 & Hp).
    destruct (call_step _ m0 s c k x s' HE0 HJ Hp Hc) as (HE & HJ' & Hk).
    split; [done|]. eapply inv_update; [done..|]. by exists (view s').
  - destruct (Hws _ _ Hw) as (m0 & HE0 & Hp). split; [done|]. eapply inv_update; [done..|].
    eapply session_ok_stable; [done|]. by apply Hp.
  - split; [done|]. eapply inv_update; [done..|]. exists (view s). split; [done|].
    apply op_prog_safe; [done|]. apply (Hws _ _ Hw).
  - destruct (Hws _ _ Hw) as (m0 & HE0 & Hp).
    destruct (call_step _ m0 s c k x s' HE0 HJ Hp Hc) as (HE & HJ' & Hk).
    split; [done|]. eapply inv_update; [done..|]. by exists (view s').
  - destruct (Hws _ _ Hw) as (m0 & HE0 & Hp). split; [done|]. eapply inv_update; [done..|].
    eapply session_ok_stable; [done|]. by apply Hp.
  - split; [done|]. split; [done|]. by apply map_Forall_delete.
Qed.

Lemma sys_steps_inv c c' : rtc sys_step c c' -> sys_inv c -> E (view c.1) (view c'.1) /\ sys_inv c'.
Proof.
  induction 1 as [c|c1 c2 c3 Hs _ IH]; intros Hi; [by split|].
  destruct (sys_step_inv _ _ Hs Hi) as [H12 Hi2]. destruct (IH Hi2). split; [by etrans|done].
Qed.

(** A dataset location nothing was published to. *)
Definition unpublished (s : St) : Prop := forall rel o, at_key rel o -> view s o = None.

Lemma unpublished_inv s : unpublished s -> sys_inv (s, ∅).
Proof.
  intros Hs. split; [|by apply map_Forall_empty]. simpl. split.
  - intros v _ (o & Ho & Hne). by specialize (Hs _ _ Ho).
  - intros v o b r _ Ho Hb. specialize (Hs _ _ Ho). congruence.
  - intros o b p Ho Hb. specialize (Hs _ _ Ho). congruence.
Qed.

(** ** Alone on the store *)

Lemma safe_run {A} (p : prog A) Q s : J (view s) -> safe p Q (view s) ->
  Q (fst (run p s)) (view (snd (run p s))).
Proof.
  revert s. induction p as [a|c k IH]; intros s HJ Hp; [done|]. simpl.
  destruct (exec_call c s) as [x s'] eqn:Hc.
  destruct (call_step Q (view s) s c k x s') as (_ & HJ' & Hk); [done..|]. by apply IH.
Qed.

(** ** Sequential use is a trace of the system *)

Lemma busy_steps w p s ws :
  rtc sys_step (s, <[w := Busy p]> ws)
    (snd (run p s), <[w := Busy (Ret (fst (run p s)))]> ws).
Proof.
  revert s. induction p as [a|c k IH]; intros s; [done|]. simpl.
  destruct (exec_call c s) as [x s'] eqn:Hc. eapply rtc_l; [|apply IH].
  pose proof (step_busy s (<[w := Busy (Call c k)]> ws) w c k x s') as Hstep.
  rewrite insert_insert_eq in Hstep. apply Hstep; [by rewrite lookup_insert_eq|done].
Qed.

Lemma opening_steps w p s ws :
  rtc sys_step (s, <[w := Opening p]> ws)
    (snd (run p s), <[w := Opening (Ret (fst (run p s)))]> ws).
Proof.
  revert s. induction p as [a|c k IH]; intros s; [done|]. simpl.
  destruct (exec_call c s) as [x s'] eqn:Hc. eapply rtc_l; [|apply IH].
  pose proof (step_opening s (<[w := Opening (Call c k)]> ws) w c k x s') as Hstep.
  rewrite insert_insert_eq in Hstep. apply Hstep; [by rewrite lookup_insert_eq|done].
Qed.

(** The store and session after a sequence of operations. *)
Fixpoint run_ops (ops : list session_op) (s : St) (ses : Session) : St * Session :=
  match ops with
  | [] => (s, ses)
  | o :: ops => let '(ses', s') := run (op_prog o ses) s in run_ops ops s' ses'
  end.

Lemma ops_steps w ops s ses ws :
  rtc sys_step (s, <[w := Idle ses]> ws)
    (fst (run_ops ops s ses), <[w := Idle (snd (run_ops ops s ses))]> ws).
Proof.
  revert s ses. induction ops as [|o ops IH]; intros s ses; [done|]. simpl.
  pose proof (busy_steps w (op_prog o ses) s ws) as Hb. destruct (run _ s) as [ses' s']. simpl in Hb.
  eapply rtc_l; [|etrans; [exact Hb|eapply rtc_l; [|apply IH]]].
  - pose proof (step_op s (<[w := Idle ses]> ws) w ses o) as Hstep.
    rewrite insert_insert_eq in Hstep. apply Hstep. by rewrite lookup_insert_eq.
  - pose proof (step_done s' (<[w := Busy (Ret ses')]> ws) w ses') as Hstep.
    rewrite insert_insert_eq in Hstep. apply Hstep. by rewrite lookup_insert_eq.
Qed.

Lemma session_steps w rid now now' ops s ws s1 ses : ws !! w = None -> valid_id rid ->
  run (begin ds rid now now') s = (Ok ses, s1) ->
  rtc sys_step (s, ws)
    (fst (run_ops ops s1 ses), <[w := Idle (snd (run_ops ops s1 ses))]> ws).
Proof.
  intros Hw Hid Hb. eapply rtc_l; [by apply (step_begin s ws w rid now now')|].
  etrans; [apply opening_steps|]. rewrite Hb. simpl.
  eapply rtc_l; [|apply (ops_steps w ops s1 ses ws)].
  pose proof (step_opened s1 (<[w := Opening (Ret (Ok ses))]> ws) w ses) as Hstep.
  rewrite insert_insert_eq in Hstep. apply Hstep. by rewrite lookup_insert_eq.
Qed.

(** * The properties *)

(** C1: Whatever the writers do and wherever they stop, in every reachable
    store CURRENT names a version whose commit marker and manifest are present,
    every version with a commit marker has its manifest, and a persisted
    session state never runs ahead of the objects it stands for. *)
Theorem reachable_store_consistent s0 s ws :
  unpublished s0 -> rtc sys_step (s0, ∅) (s, ws) ->
  (forall o b p, at_key CURRENT_KEY o -> view s o = Some b -> from_slice b = Ok p ->
     present (version_commit_key (cp_version_id p)) (view s)
     /\ present (version_manifest_key (cp_version_id p)) (view s))
  /\ (forall v, valid_id v -> present (version_commit_key v) (view s) ->
        present (version_manifest_key v) (view s))
  /\ (forall v o b r, valid_id v -> at_key (version_state_key v) o -> view s o = Some b ->
        from_slice b = Ok r -> state_fact v (sr_state r) (view s)).
Proof.
  intros Hu Hr. destruct (sys_steps_inv _ _ Hr (unpublished_inv _ Hu)) as [_ [HJ _]]. simpl in HJ.
  split_and!; [|apply HJ..]. intros o b p Ho Hb Hp.
  destruct (J_current _ HJ o b p) as [Hv Hc]; [done..|]. split; [done|]. by apply HJ.
Qed.

(** C2: Published data is immutable: from any reachable store on, the data
    objects, the manifest and the commit marker of every version keep their
    contents, whatever the writers (of this or of other runs) do next. *)
Theorem version_objects_immutable s0 s1 ws1 s2 ws2 v x o d :
  unpublished s0 -> rtc sys_step (s0, ∅) (s1, ws1) -> rtc sys_step (s1, ws1) (s2, ws2) ->
  valid_id v -> x <> STATE_FILE -> at_key (version_prefix v +:+ "/" +:+ x) o ->
  view s1 o = Some d -> view s2 o = Some d.
Proof.
  intros Hu H01 H12 Hv Hx Ho Hd.
  destruct (sys_steps_inv _ _ H01 (unpublished_inv _ Hu)) as [_ Hi].
  destruct (sys_steps_inv _ _ H12 Hi) as [HE _]. simpl in HE.
  rewrite (HE o); [done|by eapply ds_addressable| |by rewrite Hd].
  intros Hm. by eapply Hx, vkey_mutable.
Qed.
End Safety.
