(* ===== verification/WorkDir.v ===== *)
(** Publication of a repaired dataset from its local work directory
    ([publish_work_dir], [ensure_output_available] in
    src/crates/parqonaut-repair/src/execute_storage.rs), as a client of the
    publication session.

    The walk of the work directory ([walkdir], third party) is an argument: the
    files in walk order, each with its path relative to the work directory and
    the result of reading it. *)

From Stdlib Require Import Strings.Byte Ascii.
From S2P Require Import Prelude Location Errors Backend Publication PublicationSafety.

Local Open Scope prog_scope.

(** One [walkdir] entry that is a file: the path below the work directory, when
    it is valid UTF-8, and the outcome of [tokio::fs::read]. *)
Inductive walk_entry :=
| WalkError (message : string)
| NonUtf8
| File (rel : string) (content : Result string bytes).

(** [str::replace('\\', "/")]. *)
Fixpoint replace_backslash (s : string) : string :=
  match s with
  | EmptyString => EmptyString
  | String c s => String (if decide (c = "\"%char) then "/"%char else c) (replace_backslash s)
  end.

Definition storage_err (e : StorageError) : RepairError := RepairStorage (storage_error_display e).
Definition publication_err (e : PublicationError) : RepairError :=
  RepairPublication (publication_error_display e).

Definition MANIFEST_NAME : string := ".parqonaut-manifest.json".

Definition object_record (rel : string) (meta : ObjectMetadata) : PublicationObjectRecord :=
  {| or_key := rel; or_size := md_size meta; or_etag := md_etag meta;
     or_version_id := md_version_id meta |}.

(** [session.op(..).await.map_err(publication_err)?]; on an error the session is
    dropped, which leaves the writer lock in place. *)
Definition session_call {A} (x : SM A) (s : Session) : prog (Result RepairError (A * Session)) :=
  rs ← x s;
  Ret (match rs with (Ok a, s') => Ok (a, s') | (Err e, _) => Err (publication_err e) end).

Section Publish.
Context `{Json WriterLockRecord, Json PublicationStateRecord, Json PublicationManifest,
          Json CommitMarker, Json CurrentPointer}.
Context {ExecutionManifest : Type} `{Json ExecutionManifest}.
(** The instants the successive operations read. *)
Context (now : nat -> Z).

Definition ensure_output_available (path_exists : string -> bool) (output : DatasetLocation)
    : prog (Result RepairError unit) :=
  match output with
  | Local local =>
      if path_exists (path local) then Ret (Err (OutputExists (path local))) else Ret (Ok tt)
  | S3 _ =>
      r ← read_current_version output;
      match r with
      | Ok (Some _) => Ret (Err (OutputExists (display_uri output)))
      | Ok None => Ret (Ok tt)
      | Err e => Ret (Err (publication_err e))
      end
  end.

(** The upload loop; [records] in reverse order of upload. *)
Fixpoint upload_entries (i : nat) (entries : list walk_entry)
    (records : list PublicationObjectRecord) (s : Session)
    : prog (Result RepairError (list PublicationObjectRecord * Session)) :=
  match entries with
  | [] => Ret (Ok (records, s))
  | WalkError m :: _ => Ret (Err (RepairIo m))
  | NonUtf8 :: _ => Ret (Err (RepairStorage "non-UTF8 work path"))
  | File _ (Err m) :: _ => Ret (Err (RepairIo m))
  | File raw (Ok data) :: rest =>
      let rel := replace_backslash raw in
      ms <-? session_call (put_version_object rel data (now i)) s;;
      upload_entries (S i) rest (object_record rel (fst ms) :: records) (snd ms)
  end.

Definition manifest_uri (output : DatasetLocation) (rid : string) (s : Session)
    : Result RepairError string :=
  match output with
  | S3 s3 =>
      k ← map_err storage_err
            (object_key s3 (".parqonaut/versions/" +:+ rid +:+ "/data/.parqonaut-manifest.json"));
      Ok ("s3://" +:+ bucket s3 +:+ "/" +:+ k)
  | Local local => Ok (path_join (path local) (version_data_key (version_id s) MANIFEST_NAME))
  end.

Definition publish_work_dir (output : DatasetLocation) (work : list walk_entry) (rid : string)
    (manifest : ExecutionManifest) : prog (Result RepairError (string * string)) :=
  let n := length work in
  b ← begin output rid (now 0) (now 1);
  match b with
  | Err e => Ret (Err (publication_err e))
  | Ok session =>
      rs <-? upload_entries 2 work [] session;;
      manifest_json <-? Ret (map_err RepairJson (to_vec manifest));;
      ms <-? session_call (put_version_object MANIFEST_NAME manifest_json (now (n + 2))) (snd rs);;
      let object_records := rev (object_record MANIFEST_NAME (fst ms) :: fst rs) in
      us <-? session_call (mark_uploaded (now (n + 3))) (snd ms);;
      vs <-? session_call (mark_verified (now (n + 4))) (snd us);;
      let publication_manifest := {|
        pm_parqonaut_publication_version := PUBLICATION_CONTRACT_VERSION;
        pm_version_id := rid; pm_run_id := rid; pm_objects := object_records |} in
      ws <-? session_call (write_manifest publication_manifest (now (n + 5))) (snd vs);;
      uri <-? Ret (manifest_uri output rid (snd ws));;
      _ <-? session_call (finish true (now (n + 6)) (now (n + 7)) (now (n + 8))) (snd ws);;
      Ret (Ok (display_uri output, uri))
  end.
End Publish.
