(* ===== verification/PublicationLive.v ===== *)
(** The publication protocol makes progress: on a backend that answers every
    request, publishing a work directory to an unpublished dataset succeeds, and
    leaves the committed version, its objects and CURRENT in place and the
    writer lock released.  A second run meets the lock and changes nothing. *)

From Stdlib Require Import Strings.Byte.
From Stdlib Require Import Strings.Byte Ascii.
From S2P Require Import Prelude Location Backend Publication Errors PublicationSafety WorkDir.

(** Total-correctness rules for client programs on a backend that answers every
    request ([Backend.ReliableBackend]): [wp p Q m] says that [p], run from a
    reliable state whose contents are [m], returns a value and leaves contents
    that satisfy [Q]. *)

Section Wp.
Context {St : Type} `{ReliableBackend St}.

Definition holds (s : St) (m : objects) : Prop :=
  reliable s /\ same_on (addressable (St := St)) m (view s).

Definition wp {A} (p : prog A) (Q : A -> objects -> Prop) (m : objects) : Prop :=
  forall s, holds s m ->
    let '(a, s') := run p s in exists m', holds s' m' /\ Q a m'.

Lemma wp_ret {A} (a : A) (Q : A -> objects -> Prop) m : Q a m -> wp (Ret a) Q m.
Proof. intros HQ s Hs. by exists m. Qed.

Lemma wp_bind {A B} (p : prog A) (f : A -> prog B) Q m :
  wp p (fun a => wp (f a) Q) m -> wp (p ≫= f) Q m.
Proof.
  intros Hp s Hs. rewrite run_bind. specialize (Hp s Hs). destruct (run p s) as [a s'].
  destruct Hp as (m' & Hs' & Hf). by apply Hf.
Qed.

Lemma wp_mono {A} (p : prog A) (Q Q' : A -> objects -> Prop) m :
  wp p Q m -> (forall a m', Q a m' -> Q' a m') -> wp p Q' m.
Proof.
  intros Hp HQ s Hs. specialize (Hp s Hs). destruct (run p s) as [a s'].
  destruct Hp as (m' & Hs' & Hq). eauto.
Qed.

Lemma wp_try {E A B} (p : prog (Result E A)) (f : A -> prog (Result E B)) Q m :
  wp p (fun r => match r with Ok a => wp (f a) Q | Err e => Q (Err e) end) m -> wp (try p f) Q m.
Proof.
  intros Hp. apply wp_bind. eapply wp_mono; [done|]. intros [a|e] m' Hq; [done|by apply wp_ret].
Qed.

(** A request with a determined effect on the contents. *)
Lemma wp_request (c : call) (Q : answer c -> objects -> Prop) m :
  (forall s x s', holds s m -> exec_call c s = (x, s') ->
     exists m', same_on (addressable (St := St)) m' (view s') /\ Q x m') ->
  wp (request c) Q m.
Proof.
  intros Hc s Hs. unfold request. simpl. destruct (exec_call c s) as [x s'] eqn:He.
  destruct (Hc s x s' Hs He) as (m' & Hm' & Hq). exists m'. split; [|done]. split; [|done].
  pose proof (rel_pres c s (proj1 Hs)) as Hr. by rewrite He in Hr.
Qed.

Lemma wp_caps Q m :
  (forall c, cap_conditional_create c = true -> Q c m) -> wp (request CCapabilities) Q m.
Proof.
  intros HQ. apply wp_request. intros s x s' [Hr Hs] [= <- <-]. exists m. split; [done|].
  by apply HQ, rel_caps.
Qed.

Lemma wp_head_some o Q m : addressable (St := St) o -> m o <> None ->
  (forall md, Q (Ok md) m) -> wp (request (CHead o)) Q m.
Proof.
  intros Ho Hm HQ. apply wp_request. intros s x s' [Hr Hs] He. simpl in He.
  destruct (rel_head_some o s Hr) as (md & s1 & He'); [by rewrite (Hs o Ho)|]. rewrite He' in He; injection He as <- <-.
  exists m. split; [|done]. apply law_head in He' as [He' _]. by etrans.
Qed.

Lemma wp_head_none o Q m : addressable (St := St) o -> m o = None ->
  (forall l, Q (Err (NotFound l)) m) -> wp (request (CHead o)) Q m.
Proof.
  intros Ho Hm HQ. apply wp_request. intros s x s' [Hr Hs] He. simpl in He.
  destruct (rel_head_none o s Hr) as (l & s1 & He'); [by rewrite (Hs o Ho)|]. rewrite He' in He; injection He as <- <-.
  exists m. split; [|done]. apply law_head in He' as [He' _]. by etrans.
Qed.

Lemma wp_read_some o d Q m : addressable (St := St) o -> m o = Some d ->
  Q (Ok (Ok d)) m -> wp (request (CReadAll o)) Q m.
Proof.
  intros Ho Hm HQ. apply wp_request. intros s x s' [Hr Hs] He. simpl in He.
  destruct (rel_read_some o s d Hr) as (s1 & He'); [by rewrite (Hs o Ho)|]. rewrite He' in He; injection He as <- <-.
  exists m. split; [|done]. apply law_read_all in He' as [He' _]. by etrans.
Qed.

Lemma wp_read_none o Q m : addressable (St := St) o -> m o = None ->
  (forall l, Q (Err (NotFound l)) m) -> wp (request (CReadAll o)) Q m.
Proof.
  intros Ho Hm HQ. apply wp_request. intros s x s' [Hr Hs] He. simpl in He.
  destruct (rel_read_none o s Hr) as (l & s1 & He'); [by rewrite (Hs o Ho)|]. rewrite He' in He; injection He as <- <-.
  exists m. split; [|done]. apply law_read_all in He' as [He' _]. by etrans.
Qed.

Lemma wp_create_none o d Q m : addressable (St := St) o -> m o = None ->
  (forall md, Q (Ok md) (upd m o (Some d))) -> wp (request (CCreate o must_not_exist d)) Q m.
Proof.
  intros Ho Hm HQ. apply wp_request. intros s x s' [Hr Hs] He. simpl in He.
  destruct (rel_create_none o d s Hr Ho) as (md & s1 & He'); [by rewrite (Hs o Ho)|]. rewrite He' in He; injection He as <- <-.
  apply (law_create _ _ _ _ _ Ho) in He' as [_ He']. exists (upd m o (Some d)). split; [|done].
  etrans; [|done]. by apply (upd_proper _ o (Some d)).
Qed.

Lemma wp_create_some o d Q m : addressable (St := St) o -> m o <> None ->
  (forall msg, Q (Err (Conflict msg)) m) -> wp (request (CCreate o must_not_exist d)) Q m.
Proof.
  intros Ho Hm HQ. apply wp_request. intros s x s' [Hr Hs] He. simpl in He.
  destruct (rel_create_some o d s Hr Ho) as (msg & s1 & He'); [by rewrite (Hs o Ho)|]. rewrite He' in He; injection He as <- <-.
  apply (law_create _ _ _ _ _ Ho) in He'. exists m. split; [|done]. by etrans.
Qed.

Lemma wp_delete o Q m : addressable (St := St) o ->
  Q (Ok tt) (upd m o None) -> wp (request (CDelete o)) Q m.
Proof.
  intros Ho HQ. apply wp_request. intros s x s' [Hr Hs] He. simpl in He.
  destruct (rel_delete o s Hr Ho) as (s1 & He'). rewrite He' in He; injection He as <- <-.
  apply (law_delete _ _ _ _ Ho) in He'. simpl in He'. exists (upd m o None). split; [|done].
  etrans; [|done]. by apply (upd_proper _ o None).
Qed.

(** [head] followed by the matching replace, or by a create. *)
Lemma wp_put_json o d Q m : addressable (St := St) o ->
  Q (Ok tt) (upd m o (Some d)) -> wp (put_json o d) Q m.
Proof.
  intros Ho HQ. destruct (m o) as [d0|] eqn:Hm.
  - intros s [Hr Hs].
    destruct (rel_head_some o s Hr) as (md & s1 & Hh); [by rewrite (Hs o Ho), Hm|].
    destruct (rel_replace o d s s1 md Hr Ho Hh) as (md' & s2 & Hp).
    unfold put_json. rewrite run_bind. simpl. rewrite Hh. simpl. rewrite Hp. simpl.
    exists (upd m o (Some d)). split; [split|done].
    + pose proof (rel_pres (CHead o) s Hr) as Hr1. simpl in Hr1. rewrite Hh in Hr1.
      pose proof (rel_pres (CReplace o (matching md) d) s1 Hr1) as Hr2. simpl in Hr2. by rewrite Hp in Hr2.
    + apply law_head in Hh as [Hh _]. apply (law_replace _ _ _ _ _ _ Ho) in Hp as [_ Hp].
      etrans; [|done]. apply (upd_proper _ o (Some d)). by etrans.
  - apply wp_bind, wp_head_none; [done..|]. intros l. apply wp_try, wp_bind, wp_create_none; [done..|].
    intros md. by repeat apply wp_ret.
Qed.

Lemma wp_create_object o d Q m : addressable (St := St) o -> m o = None ->
  (forall md, Q (Ok md) (upd m o (Some d))) -> wp (create_object o d) Q m.
Proof.
  intros Ho Hm HQ. apply wp_bind, wp_create_none; [done..|]. intros md. by apply wp_ret, HQ.
Qed.

Lemma wp_create_object_conflict o d Q m : addressable (St := St) o -> m o <> None ->
  (forall msg, Q (Err (PubStorage (Conflict msg))) m) -> wp (create_object o d) Q m.
Proof.
  intros Ho Hm HQ. apply wp_bind, wp_create_some; [done..|]. intros md. by apply wp_ret, HQ.
Qed.

Lemma wp_read_json_none {T} `{Json T} o Q m : addressable (St := St) o -> m o = None ->
  (forall l, Q (Err (PubStorage (NotFound l))) m) -> wp (read_json_object (T := T) o) Q m.
Proof.
  intros Ho Hm HQ. apply wp_bind, wp_read_none; [done..|]. intros l. by apply wp_ret, HQ.
Qed.

Lemma wp_read_json_some {T} `{Json T} o d (x : T) Q m : addressable (St := St) o -> m o = Some d ->
  from_slice d = Ok x -> Q (Ok x) m -> wp (read_json_object o) Q m.
Proof.
  intros Ho Hm Hd HQ. apply wp_bind. eapply wp_read_some; [done..|]. apply wp_ret.
  by rewrite Hd.
Qed.
End Wp.

Section Live.
Context {St : Type} `{ReliableBackend St}.
Context `{Json WriterLockRecord, Json PublicationStateRecord, Json PublicationManifest,
          Json CommitMarker, Json CurrentPointer}.
Context {ExecutionManifest : Type} `{Json ExecutionManifest}.
Context (ds : DatasetLocation).
Hypothesis ds_addressable : forall rel o, object_at ds rel = Ok o -> addressable (St := St) o.

#[local] Hint Resolve ds_addressable : core.

(** * Session operations *)

Lemma wp_sm_bind {A B} (x : SM A) (f : A -> SM B) Q s m :
  wp (St := St) (x s) (fun rs m' => match rs with
                           | (Ok a, s') => wp (St := St) (f a s') Q m'
                           | (Err e, s') => Q (Err e, s') m'
                           end) m ->
  wp (St := St) (sm_bind x f s) Q m.
Proof.
  intros Hx. apply wp_bind. eapply wp_mono; [done|]. intros [[a|e] s'] m' Hq; [done|by apply wp_ret].
Qed.

Lemma wp_sm_lift {A} (p : prog (Result PublicationError A)) Q s m :
  wp (St := St) p (fun r => Q (r, s)) m -> wp (St := St) (sm_lift p s) Q m.
Proof. intros Hp. apply wp_bind. eapply wp_mono; [done|]. intros r m' Hq. by apply wp_ret. Qed.

Lemma wp_sm_get {B} (f : Session -> SM B) Q s m :
  wp (St := St) (f s s) Q m -> wp (St := St) (sm_bind sm_get f s) Q m.
Proof. done. Qed.

Lemma wp_sm_modify {B} g (f : unit -> SM B) Q s m :
  wp (St := St) (f tt (g s)) Q m -> wp (St := St) (sm_bind (sm_modify g) f s) Q m.
Proof. done. Qed.

Lemma wp_sm_object {B} rel o (f : ObjectLocation -> SM B) Q s m : object_at ds rel = Ok o ->
  wp (St := St) (f o s) Q m ->
  wp (St := St) (sm_bind (sm_lift (pure_storage (object_at ds rel))) f s) Q m.
Proof. intros ->. done. Qed.

Lemma wp_sm_encode {T} `{Json T} {B} (x : T) (f : bytes -> SM B) Q s m :
  (forall b, to_vec x = Ok b -> from_slice b = Ok x -> wp (St := St) (f b s) Q m) ->
  wp (St := St) (sm_bind (sm_lift (encode_json x)) f s) Q m.
Proof.
  intros Hf. destruct (json_roundtrip x) as (b & Hx & Hb). unfold encode_json. rewrite Hx. by apply Hf.
Qed.

Lemma wp_persist st now s o Q m : dataset s = ds ->
  object_at ds (version_state_key (version_id s)) = Ok o ->
  (forall b, Q (Ok tt, set_state st s) (upd m o (Some b))) ->
  wp (St := St) (persist_state st now s) Q m.
Proof.
  intros Hds Ho HQ. apply wp_sm_get. rewrite Hds. cbv zeta. eapply wp_sm_object; [done|].
  apply wp_sm_encode. intros b _ _. apply wp_sm_bind, wp_sm_lift, wp_put_json; [by eauto|].
  by apply wp_ret.
Qed.

(** The objects of one run on [ds]. *)
Record run_objects (v : string) := {
  o_lock : ObjectLocation; o_current : ObjectLocation; o_state : ObjectLocation;
  o_manifest : ObjectLocation; o_commit : ObjectLocation;
  at_lock : object_at ds WRITER_LOCK_KEY = Ok o_lock;
  at_current : object_at ds CURRENT_KEY = Ok o_current;
  at_state : object_at ds (version_state_key v) = Ok o_state;
  at_manifest : object_at ds (version_manifest_key v) = Ok o_manifest;
  at_commit : object_at ds (version_commit_key v) = Ok o_commit;
}.
Arguments o_lock {_}. Arguments o_current {_}. Arguments o_state {_}.
Arguments o_manifest {_}. Arguments o_commit {_}.
Arguments at_lock {_}. Arguments at_current {_}. Arguments at_state {_}.
Arguments at_manifest {_}. Arguments at_commit {_}.

Definition layout_keys (v : string) : list string :=
  [WRITER_LOCK_KEY; CURRENT_KEY; version_state_key v; version_manifest_key v; version_commit_key v].

Lemma run_objects_exist v :
  forallb (fun k => is_ok (object_at ds k)) (layout_keys v) = true -> run_objects v.
Proof.
  intros Hk. cbn [forallb layout_keys] in Hk. rewrite !andb_true_iff in Hk. 
  destruct Hk as (H1k & H2k & H3k & H4k & H5k & _).
  destruct (object_at ds WRITER_LOCK_KEY) as [o1|] eqn:E1; [|done].
  destruct (object_at ds CURRENT_KEY) as [o2|] eqn:E2; [|done].
  destruct (object_at ds (version_state_key v)) as [o3|] eqn:E3; [|done].
  destruct (object_at ds (version_manifest_key v)) as [o4|] eqn:E4; [|done].
  destruct (object_at ds (version_commit_key v)) as [o5|] eqn:E5; [|done].
  by exists o1 o2 o3 o4 o5.
Qed.

Lemma key_ne k1 k2 o1 o2 : is_absolute k1 = false -> is_absolute k2 = false -> k1 <> k2 ->
  object_at ds k1 = Ok o1 -> object_at ds k2 = Ok o2 -> o1 <> o2.
Proof. intros Ha1 Ha2 Hk Ho1 Ho2 ->. by eapply Hk, object_at_inj. Qed.

Lemma vkey_ne v x x' : x <> x' ->
  version_prefix v +:+ "/" +:+ x <> version_prefix v +:+ "/" +:+ x'.
Proof. intros Hx He. apply (inj (String.app _)), (inj (String.app _)) in He. by apply Hx. Qed.

Lemma data_key_ne v rel x : x <> EmptyString -> (forall r, x <> DATA_PREFIX +:+ "/" +:+ r) ->
  version_data_key v rel <> version_prefix v +:+ "/" +:+ x.
Proof. intros _ Hx. apply vkey_ne. intros He. by apply (Hx (trim_start_slash rel)). Qed.

Lemma data_key_inj v r1 r2 : version_data_key v r1 = version_data_key v r2 ->
  trim_start_slash r1 = trim_start_slash r2.
Proof. intros He. by do 4 apply (inj (String.app _)) in He. Qed.

(** [ne]: two objects of the layout differ because their keys do. *)
Ltac ne :=
  eapply key_ne; [| | |by eauto using at_lock, at_current, at_state, at_manifest, at_commit
                 |by eauto using at_lock, at_current, at_state, at_manifest, at_commit];
  [reflexivity|reflexivity|first [done|apply vkey_ne; done|apply data_key_ne; done
    |apply not_eq_sym, data_key_ne; done]].

Section Run.
Context (v : string) (O : run_objects v).

(** Sessions of the run [v] on [ds]. *)
Definition is_run (s : Session) : Prop := dataset s = ds /\ version_id s = v.

Lemma set_state_run st s : is_run s -> is_run (set_state st s).
Proof. done. Qed.

Definition unchanged (os : list ObjectLocation) (m m' : objects) : Prop :=
  forall o, o ∉ os -> m' o = m o.

Lemma wp_advance next now s Q m : is_run s -> state s <> next -> allows_transition (state s) next = true ->
  (forall b, Q (Ok tt, set_state next s) (upd m (o_state O) (Some b))) ->
  wp (St := St) (advance_to next now s) Q m.
Proof.
  intros [Hds Hv] Hne Ht HQ. apply wp_sm_get. rewrite decide_False by done. rewrite Ht. simpl.
  eapply wp_persist; [done|rewrite Hv; apply (at_state O)|done].
Qed.

Lemma wp_put rel d now s o Q m : is_run s -> ordinal (state s) <= ordinal Uploading ->
  object_at ds (version_data_key v rel) = Ok o -> m o = None ->
  (forall md m', m' o = Some d -> unchanged [o; o_state O] m m' ->
     Q (Ok md, set_state Uploading s) m') ->
  wp (St := St) (put_version_object rel d now s) Q m.
Proof.
  intros Hs Hst Ho Hm HQ. apply wp_sm_get.
  replace (ordinal (state s) <? ordinal Preparing) with false
    by (symmetry; apply Nat.ltb_ge; simpl; lia).
  assert (o <> o_state O) as Hne by ne.
  apply wp_sm_bind. eapply wp_mono with (Q := fun rs m' => rs = (Ok tt, set_state Uploading s) /\
    m' o = None /\ unchanged [o_state O] m m').
  { case_decide as Hp.
    - apply wp_advance; [done|by rewrite Hp..|]. intros b. split_and!; [done|by rewrite upd_ne|].
      intros o' Hno. rewrite upd_ne; [done|]. set_solver.
    - destruct (state s) eqn:Hst'; simpl in Hst; [done| |lia..]. simpl. apply wp_ret.
      split_and!; [by destruct s; simplify_eq/=|done|done]. }
  intros rs m1 (-> & Hm1 & Hun). unfold version_object. destruct Hs as [-> ->].
  eapply wp_sm_object; [done|]. apply wp_sm_lift, wp_create_object; [by eauto|done|].
  intros md. apply HQ; [by rewrite upd_eq|]. intros o' Hno.
  rewrite upd_ne by set_solver. apply Hun. set_solver.
Qed.

Lemma wp_write_manifest manifest now s Q m : is_run s -> state s = Verified -> m (o_manifest O) = None ->
  (forall b b', from_slice b = Ok manifest ->
     Q (Ok tt, set_state ManifestWritten s) (upd (upd m (o_manifest O) (Some b)) (o_state O) (Some b'))) ->
  wp (St := St) (write_manifest manifest now s) Q m.
Proof.
  intros [Hds Hv] Hst Hm HQ. apply wp_sm_get. rewrite Hst. simpl. rewrite Hds, Hv.
  eapply wp_sm_object; [apply (at_manifest O)|]. apply wp_sm_encode. intros b _ Hb.
  apply wp_sm_bind, wp_sm_lift, wp_create_object; [by eauto using at_manifest|done|].
  intros md. eapply wp_persist; [done|rewrite Hv; apply (at_state O)|]. auto.
Qed.

Lemma wp_committed b Q m : (m (o_commit O) <> None <-> b = true) -> Q (Ok b) m ->
  wp (St := St) (is_version_committed ds v) Q m.
Proof.
  intros Hb HQ. unfold is_version_committed. rewrite (at_commit O). apply wp_try, wp_ret. cbn [map_err].
  assert (addressable (St := St) (o_commit O)) by eauto using at_commit.
  apply wp_bind. destruct b.
  - apply wp_head_some; [done|by apply Hb|]. intros md. by apply wp_ret.
  - apply wp_head_none; [done| |]. { destruct (m (o_commit O)); [|done]. by destruct Hb as [Hb _]; discriminate Hb. }
    intros l. by apply wp_ret.
Qed.

Lemma wp_finish now now' now'' l s Q m : is_run s -> state s = ManifestWritten ->
  lock s = Some l -> released l = false -> lock_object l = o_lock O -> m (o_commit O) = None ->
  (forall bc bp b b' s', from_slice bc = Ok {| cm_version_id := v; cm_run_id := run_id s;
                                               cm_committed_at := now |} ->
     from_slice bp = Ok {| cp_version_id := v |} ->
     Q (Ok tt, s') (upd (upd (upd (upd (upd m (o_commit O) (Some bc)) (o_state O) (Some b))
                          (o_current O) (Some bp)) (o_state O) (Some b')) (o_lock O) None)) ->
  wp (St := St) (finish true now now' now'' s) Q m.
Proof.
  intros [Hds Hv] Hst Hl Hrel Hlo Hm HQ. apply wp_sm_get. rewrite decide_True by done.
  apply wp_sm_bind, wp_sm_bind. apply wp_sm_get. rewrite Hst. simpl negb. cbv iota. rewrite Hds, Hv.
  apply wp_sm_bind, wp_sm_lift, (wp_committed false); [by rewrite Hm|]. cbv iota zeta.
  eapply wp_sm_object; [apply (at_commit O)|]. apply wp_sm_encode. intros bc _ Hbc.
  apply wp_sm_bind, wp_sm_lift, wp_create_object; [by eauto using at_commit|done|]. intros md.
  apply wp_sm_bind. eapply wp_persist; [done|rewrite Hv; apply (at_state O)|]. intros b.
  apply wp_ret, wp_ret. apply wp_sm_bind, wp_sm_get. simpl dataset. simpl version_id. rewrite Hds, Hv.
  apply wp_sm_bind, wp_sm_lift, (wp_committed true).
  { rewrite upd_ne by ne. by rewrite upd_eq. }
  simpl negb. cbv iota zeta. eapply wp_sm_object; [apply (at_current O)|].
  apply wp_sm_encode. intros bp _ Hbp.
  apply wp_sm_bind, wp_sm_lift, wp_put_json; [by eauto using at_current|].
  eapply wp_persist; [done|simpl; rewrite Hv; apply (at_state O)|]. intros b'.
  apply wp_sm_get. cbn [lock set_state]. rewrite Hl. apply wp_sm_modify, wp_sm_lift. unfold release. rewrite Hrel, Hlo.
  apply wp_try, wp_bind, wp_delete; [by eauto using at_lock|]. repeat apply wp_ret. by apply HQ.
Qed.

Definition fresh_session : Session :=
  {| dataset := ds; version_id := v; run_id := v; state := Preparing;
     lock := Some {| lock_object := o_lock O;
                     lock_record := {| lr_run_id := v; lr_version_id := v |}; released := false |} |}.

Lemma wp_begin now now' Q m :
  m (o_lock O) = None -> m (o_commit O) = None -> m (o_state O) = None ->
  (forall bl b, from_slice bl = Ok {| lr_run_id := v; lr_version_id := v |} ->
     Q (Ok fresh_session) (upd (upd m (o_lock O) (Some bl)) (o_state O) (Some b))) ->
  wp (St := St) (begin ds v now now') Q m.
Proof.
  intros Hl Hc Hst HQ. apply wp_try. unfold acquire. apply wp_bind, wp_caps. intros c Hcap.
  rewrite Hcap. cbn [negb]. cbv zeta. rewrite (at_lock O). apply wp_try, wp_ret. cbn [map_err].
  destruct (json_roundtrip {| lr_run_id := v; lr_version_id := version_from_run_id v |})
    as (bl & Hbl & Hbl'). unfold encode_json. rewrite Hbl. apply wp_try, wp_ret. cbn [map_err].
  apply wp_bind, wp_create_none; [by eauto using at_lock|done|]. intros md. apply wp_ret.
  apply wp_try. cbn [lock_version_id lock_record lr_run_id version_from_run_id].
  apply wp_try, (wp_committed false); [by rewrite upd_ne by ne; rewrite Hc|].
  rewrite (at_state O). apply wp_try, wp_ret. cbn [map_err]. apply wp_bind, wp_read_json_none;
    [by eauto using at_state|by rewrite upd_ne by ne|]. intros l'. apply wp_ret.
  cbv zeta. rewrite decide_True by done. apply wp_bind.
  eapply wp_persist; [done|apply (at_state O)|]. intros b. by apply wp_ret, HQ.
Qed.

(** * Uploading a work directory *)

(** Readable entries with their names as published. *)
Definition readable (e : walk_entry) : bool :=
  match e with File _ (Ok _) => true | _ => false end.
Definition entry_name (e : walk_entry) : string :=
  match e with File raw _ => replace_backslash raw | _ => EmptyString end.
Definition entry_data (e : walk_entry) : bytes :=
  match e with File _ (Ok d) => d | _ => [] end.

Definition data_object (rel : string) (o : ObjectLocation) : Prop :=
  object_at ds (version_data_key v rel) = Ok o.

Lemma data_object_inj r1 r2 o : data_object r1 o -> data_object r2 o ->
  trim_start_slash r1 = trim_start_slash r2.
Proof. intros H1o H2o. eapply data_key_inj, object_at_inj; [| |done..]; done. Qed.

Lemma data_object_ne_state rel o : data_object rel o -> o <> o_state O.
Proof. intros Ho. unfold data_object in Ho. ne. Qed.

(** What an upload of [es] leaves: their contents, and nothing else changed but
    the state record. *)
Definition uploaded (es : list walk_entry) (m m' : objects) : Prop :=
  (forall e o, e ∈ es -> data_object (entry_name e) o -> m' o = Some (entry_data e))
  /\ (forall o, o <> o_state O -> (forall e, e ∈ es -> ~ data_object (entry_name e) o) -> m' o = m o).

Lemma wp_upload (now : nat -> Z) es i recs s Q m :
  is_run s -> ordinal (state s) <= ordinal Uploading ->
  forallb readable es = true ->
  NoDup (map (fun e => trim_start_slash (entry_name e)) es) ->
  Forall (fun e => exists o, data_object (entry_name e) o /\ m o = None) es ->
  (forall recs' st m', ordinal st <= ordinal Uploading -> uploaded es m m' ->
     map or_key recs' = rev (map entry_name es) ++ map or_key recs ->
     Q (Ok (recs', set_state st s)) m') ->
  wp (St := St) (upload_entries now i es recs s) Q m.
Proof.
  intros Hs Hst Hr Hnd Hall HQ. revert i recs s m Hs Hst Hall HQ Hr Hnd.
  induction es as [|e es IH]; intros i recs s m Hs Hst Hall HQ Hr Hnd.
  - apply wp_ret. replace s with (set_state (state s) s) by by destruct s.
    apply HQ; [done| |done]. split; [set_solver|done].
  - destruct e as [| |raw [d|]]; try done.
    inversion Hall as [|? ? (o & Ho & Hm) Hall']; subst.
    inversion Hnd as [|? ? Hni Hnd']; subst. simpl in Ho, Hni.
    cbn [upload_entries]. cbv zeta. apply wp_try, wp_bind. eapply wp_put; [done..|].
    intros md m1 Hm1 Hun. apply wp_ret. cbn [fst snd]. simpl in Hr.
    assert (forall e' o', e' ∈ es -> data_object (entry_name e') o' -> o' <> o) as Hother.
    { intros e' o' He' Ho' ->. apply Hni. rewrite (data_object_inj _ _ _ Ho Ho').
      apply list_elem_of_In, in_map_iff. exists e'. split; [done|]. by apply list_elem_of_In. }
    apply IH; [done|done| | |done|done].
    + apply Forall_forall. intros e' He'. rewrite Forall_forall in Hall'.
      destruct (Hall' e' He') as (o' & Ho' & Hm'). exists o'. split; [done|].
      rewrite Hun; [done|]. pose proof (Hother e' o' He' Ho').
      pose proof (data_object_ne_state _ _ Ho'). set_solver.
    + intros recs' st m' Hst' [Hup1 Hup2] Hk. apply (HQ recs' st m'); [done| |].
      * split.
        -- intros e' o' He' Ho'. apply elem_of_cons in He' as [->|He']; [|by apply Hup1].
           unfold data_object in Ho, Ho'. simpl in Ho'. rewrite Ho in Ho'. injection Ho' as <-. rewrite Hup2; [done|by eapply data_object_ne_state|].
           intros e' He' Ho'. by eapply Hother.
        -- intros o' Hne Hno. rewrite Hup2; [|done|set_solver]. apply Hun.
           assert (o' <> o) by (intros ->; apply (Hno (File raw (Ok d))); [set_solver|done]). set_solver.
      * rewrite Hk. simpl. by rewrite <- app_assoc.
Qed.

(** The contents of a published version. *)
Record published (work : list walk_entry) (m : objects) : Prop := {
  pub_current : exists b, m (o_current O) = Some b /\ from_slice b = Ok {| cp_version_id := v |};
  pub_commit : exists b marker, m (o_commit O) = Some b /\ from_slice b = Ok marker
    /\ cm_version_id marker = v /\ cm_run_id marker = v;
  pub_manifest : exists b pm, m (o_manifest O) = Some b /\ from_slice b = Ok pm
    /\ pm_version_id pm = v /\ map or_key (pm_objects pm) = map entry_name work ++ [MANIFEST_NAME];
  pub_data : forall e, e ∈ work -> exists o, data_object (entry_name e) o /\ m o = Some (entry_data e);
  pub_unlocked : m (o_lock O) = None;
}.

(** After the uploads: the remaining operations of [publish_work_dir]. *)
Definition publish_tail (now : nat -> Z) (n : nat) (manifest : ExecutionManifest)
    (rs : list PublicationObjectRecord * Session) : prog (Result RepairError (string * string)) :=
  (manifest_json <-? Ret (map_err RepairJson (to_vec manifest));;
   ms <-? session_call (put_version_object MANIFEST_NAME manifest_json (now (n + 2))) (snd rs);;
   let object_records := rev (object_record MANIFEST_NAME (fst ms) :: fst rs) in
   us <-? session_call (mark_uploaded (now (n + 3))) (snd ms);;
   vs <-? session_call (mark_verified (now (n + 4))) (snd us);;
   let publication_manifest := {|
     pm_parqonaut_publication_version := PUBLICATION_CONTRACT_VERSION;
     pm_version_id := v; pm_run_id := v; pm_objects := object_records |} in
   ws <-? session_call (write_manifest publication_manifest (now (n + 5))) (snd vs);;
   uri <-? Ret (manifest_uri ds v (snd ws));;
   _ <-? session_call (finish true (now (n + 6)) (now (n + 7)) (now (n + 8))) (snd ws);;
   Ret (Ok (display_uri ds, uri)))%prog.

Lemma publish_work_dir_eq now work manifest :
  publish_work_dir now ds work v manifest =
    (b ← begin ds v (now 0) (now 1);
     match b with
     | Err e => Ret (Err (publication_err e))
     | Ok s => try (upload_entries now 2 work [] s) (publish_tail now (length work) manifest)
     end).
Proof. done. Qed.

(** [look]: the contents at an object of the layout after a chain of updates. *)
Ltac look := repeat first [rewrite upd_eq | rewrite upd_ne by ne].

Lemma wp_publish_tail now n manifest recs st om Q m :
  ordinal st <= ordinal Uploading -> data_object MANIFEST_NAME om -> m om = None ->
  m (o_manifest O) = None -> m (o_commit O) = None ->
  (forall uri bc bp bm pm m', (forall rel o, rel <> MANIFEST_NAME -> data_object rel o -> o <> om -> m' o = m o) ->
     m' (o_commit O) = Some bc -> from_slice bc = Ok {| cm_version_id := v; cm_run_id := v;
                                                        cm_committed_at := now (n + 6) |} ->
     m' (o_current O) = Some bp -> from_slice bp = Ok {| cp_version_id := v |} ->
     m' (o_manifest O) = Some bm -> from_slice bm = Ok pm -> pm_version_id pm = v ->
     map or_key (pm_objects pm) = rev (map or_key recs) ++ [MANIFEST_NAME] ->
     m' (o_lock O) = None ->
     Q (Ok (display_uri ds, uri)) m') ->
  wp (St := St) (publish_tail now n manifest (recs, set_state st fresh_session)) Q m.
Proof.
  intros Hst Hom Hm Hmm Hmc HQ. unfold publish_tail.
  destruct (json_roundtrip manifest) as (mj & Hmj & _). rewrite Hmj. apply wp_try, wp_ret. cbn [map_err fst snd].
  apply wp_try, wp_bind. eapply wp_put; [done|done|done|done|]. intros md m1 Hm1 Hun. apply wp_ret.
  cbn [fst snd]. cbv zeta.
  assert (Hmm1 : m1 (o_manifest O) = None).
  { unfold data_object in Hom. rewrite Hun; [done|]. rewrite not_elem_of_cons, list_elem_of_singleton.
    split; ne. }
  assert (Hmc1 : m1 (o_commit O) = None).
  { unfold data_object in Hom. rewrite Hun; [done|]. rewrite not_elem_of_cons, list_elem_of_singleton.
    split; ne. }
  apply wp_try, wp_bind, wp_advance; [done..|]. intros b1. apply wp_ret. cbn [fst snd].
  apply wp_try, wp_bind, wp_advance; [done..|]. intros b2. apply wp_ret. cbn [fst snd].
  apply wp_try, wp_bind, wp_write_manifest; [done..|by look|]. intros bm b3 Hbm. apply wp_ret. cbn [fst snd].
  assert (exists uri, manifest_uri ds v (set_state ManifestWritten (set_state Verified (set_state Uploaded
    (set_state Uploading (set_state st fresh_session))))) = Ok uri) as [uri Huri].
  { unfold data_object, object_at in Hom. unfold manifest_uri. destruct ds as [l|s3]; [eauto|].
    apply bind_Ok in Hom as (k & Hk & _).
    change (".parqonaut/versions/" +:+ v +:+ "/data/.parqonaut-manifest.json")
      with (version_data_key v MANIFEST_NAME). rewrite Hk. simpl. eauto. }
  rewrite Huri. apply wp_try, wp_ret.
  apply wp_try, wp_bind. eapply wp_finish; [done..|by look|].
  intros bc bp b4 b5 s' Hbc Hbp. repeat apply wp_ret.
  eapply HQ; [|by look|done|by look|done|by look|done|done| |by look].
  - intros rel o Hrel Ho Hne. unfold data_object in Ho. look. rewrite Hun; [done|].
    pose proof (data_object_ne_state _ _ Ho). set_solver.
  - simpl. by rewrite map_app, map_rev.
Qed.

Lemma publish_work_dir_run now work manifest (m : objects) :
  (forall rel o, object_at ds rel = Ok o -> m o = None) ->
  forallb (fun k => is_ok (object_at ds k))
    (map (version_data_key v) (map entry_name work ++ [MANIFEST_NAME])) = true ->
  forallb readable work = true ->
  NoDup (map trim_start_slash (map entry_name work ++ [MANIFEST_NAME])) ->
  wp (St := St) (publish_work_dir now ds work v manifest)
    (fun r m' => is_ok r = true /\ published work m') m.
Proof.
  intros Hm Hk Hr Hnd. rewrite map_app in Hk. rewrite forallb_app in Hk. apply andb_true_iff in Hk as [Hk Hkm].
  rewrite map_app, map_map in Hnd. apply NoDup_app in Hnd as (Hnd & Hnot & _).
  cbn [map forallb] in Hkm. rewrite andb_true_r in Hkm.
  destruct (object_at ds (version_data_key v MANIFEST_NAME)) as [om|] eqn:Hom; [|done].
  assert (Hobj : forall e, e ∈ work -> exists o, data_object (entry_name e) o).
  { intros e He. rewrite forallb_forall in Hk. unfold data_object.
    destruct (object_at ds (version_data_key v (entry_name e))) eqn:Ho; [eauto|].
    specialize (Hk (version_data_key v (entry_name e))). rewrite Ho in Hk. discriminate Hk.
    apply in_map, in_map. by apply list_elem_of_In. }
  assert (Hnm : forall e o, e ∈ work -> data_object (entry_name e) o -> o <> om).
  { intros e o He Ho ->. pose proof (data_object_inj _ _ _ Ho Hom) as Hi.
    apply (Hnot (trim_start_slash (entry_name e))); [|rewrite Hi; simpl; set_solver].
    apply list_elem_of_In, in_map_iff. exists e. split; [done|]. by apply list_elem_of_In. }
  rewrite publish_work_dir_eq. apply wp_bind, wp_begin; [eapply Hm; apply O..|]. intros bl b Hbl.
  apply wp_try. eapply wp_upload; [done|simpl; lia|done|done| |].
  { apply Forall_forall. intros e He. destruct (Hobj e He) as [o Ho]. exists o. split; [done|].
    unfold data_object in Ho. rewrite !upd_ne by ne. by eapply Hm. }
  intros recs st m1 Hst [Hup Hfr] Hrecs. cbv iota.
  assert (Hat : forall x o, x <> EmptyString -> (forall r, x <> DATA_PREFIX +:+ "/" +:+ r) -> x <> STATE_FILE ->
            object_at ds (version_prefix v +:+ "/" +:+ x) = Ok o -> m1 o = None).
  { intros x o Hx Hx' Hxs Ho. rewrite Hfr.
    - rewrite !upd_ne; [by eapply Hm|eapply key_ne; [| | |apply O|done]; done|].
      eapply key_ne; [| | |apply (at_state O)|done]; [done..|by apply vkey_ne, not_eq_sym].
    - eapply key_ne; [| | |done|apply (at_state O)]; [done..|by apply vkey_ne].
    - intros e He Hd. by eapply (data_key_ne v (entry_name e) x), object_at_inj. }
  apply (wp_publish_tail now (length work) manifest recs st om); [done|done| | | |].
  - rewrite Hfr; [|by eapply data_object_ne_state|intros e He Ho; by eapply Hnm].
    rewrite !upd_ne by ne. by eapply Hm.
  - eapply Hat; [| | |apply (at_manifest O)]; done.
  - eapply Hat; [| | |apply (at_commit O)]; done.
  - intros uri bc bp bm pm m' Hdata Hc Hbc Hp Hbp Hman Hbm Hpv Hpo Hl. split; [done|]. split.
    + eauto.
    + eexists _, _. split_and!; [done..| |]; done.
    + eexists _, _. split_and!; [done..|]. rewrite Hpo, Hrecs. cbn [map]. by rewrite app_nil_r, rev_involutive.
    + intros e He. destruct (Hobj e He) as [o Ho]. exists o. split; [done|].
      rewrite (Hdata (entry_name e) o); [by apply Hup| |done|by eapply Hnm].
      intros Hn. apply (Hnm e o He Ho). rewrite Hn in Ho. unfold data_object in Ho. congruence.
    + done.
Qed.
End Run.

Lemma published_same v (O : run_objects v) work m m' :
  same_on (addressable (St := St)) m m' -> published v O work m -> published v O work m'.
Proof.
  intros Hs [Hcu Hco Hma Hda Hun]. split.
  - rewrite (Hs (o_current O)); [done|]. eauto using at_current.
  - rewrite (Hs (o_commit O)); [done|]. eauto using at_commit.
  - rewrite (Hs (o_manifest O)); [done|]. eauto using at_manifest.
  - intros e He. destruct (Hda e He) as (o & Ho & Hm). exists o. split; [done|]. rewrite (Hs o); [done|].
    by eapply ds_addressable.
  - rewrite (Hs (o_lock O)); [done|]. eauto using at_lock.
Qed.

(** C6: On a backend that answers every request, publishing a readable work
    directory with distinct file names to an unpublished dataset succeeds:
    afterwards CURRENT names the run, its commit marker is present, its manifest
    lists exactly the uploaded files in order, every file has its contents, and
    the writer lock is released. *)
Theorem publish_work_dir_succeeds now rid work manifest (s0 : St) :
  reliable s0 -> unpublished ds s0 ->
  forallb (fun k => is_ok (object_at ds k))
    (layout_keys rid ++ map (version_data_key rid) (map entry_name work ++ [MANIFEST_NAME])) = true ->
  forallb readable work = true ->
  NoDup (map trim_start_slash (map entry_name work ++ [MANIFEST_NAME])) ->
  let '(r, s) := run (publish_work_dir now ds work rid manifest) s0 in
  is_ok r = true /\ exists O : run_objects rid, published rid O work (view s).
Proof.
  intros Hrel Hu Hk Hr Hnd. rewrite forallb_app in Hk. apply andb_true_iff in Hk as [Hk1 Hk2].
  pose proof (run_objects_exist rid Hk1) as O.
  pose proof (publish_work_dir_run rid O now work manifest (view s0) Hu Hk2 Hr Hnd s0) as Hwp.
  destruct (run _ s0) as [r s]. destruct Hwp as (m' & [_ Hs] & Hok & Hpub); [by split|].
  split; [done|]. exists O. by eapply published_same.
Qed.

(** C7: On a backend that answers every request, the writer lock excludes other runs:
    while a run holds it, [begin] of any other run reports the holder and leaves every
    object as it was. *)
Theorem begin_excluded_by_lock rid now now' o b holder (s : St) :
  reliable s -> object_at ds WRITER_LOCK_KEY = Ok o -> view s o = Some b -> from_slice b = Ok holder ->
  lr_run_id holder <> rid ->
  let '(r, s') := run (begin ds rid now now') s in
  r = Err (PubLockHeld (lr_run_id holder)) /\ same_on (addressable (St := St)) (view s) (view s').
Proof.
  intros Hrel Ho Hb Hdec Hne.
  assert (wp (St := St) (begin ds rid now now')
    (fun r m' => r = Err (PubLockHeld (lr_run_id holder)) /\ m' = view s) (view s)) as Hwp.
  { apply wp_try, wp_bind, wp_caps. intros c Hc. rewrite Hc. cbn [negb]. cbv zeta. rewrite Ho.
    apply wp_try, wp_ret. cbn [map_err].
    destruct (json_roundtrip {| lr_run_id := rid; lr_version_id := version_from_run_id rid |})
      as (bl & Hbl & _). unfold encode_json. rewrite Hbl. apply wp_try, wp_ret. cbn [map_err].
    apply wp_bind, wp_create_some; [by eauto|by rewrite Hb|]. intros msg.
    apply wp_try. eapply wp_read_json_some; [by eauto|done..|]. cbn [lr_run_id].
    rewrite bool_decide_eq_false_2 by done. by apply wp_ret. }
  specialize (Hwp s). destruct (run _ s) as [r s']. destruct Hwp as (m' & [_ Hs] & -> & ->); [by split|].
  by split.
Qed.
End Live.
