(* ===== verification/PublicationExamples.v ===== *)
(** A concrete codec and the in-memory backend: the publication theorems at
    concrete stores, and the cost of retrying a publication. *)

From Stdlib Require Import Strings.Byte Ascii.
From stdpp Require Import countable.
From S2P Require Import Prelude Location Errors Backend Memory Publication PublicationSafety WorkDir PublicationLive.

(** Retrying a publication: [publish_work_dir] uploads every file with a
    create-if-absent request and never looks for the objects an earlier attempt
    of the same run left, so an attempt that stopped after its first upload
    cannot be repeated under the same run id. *)

Section Retry.
Context {St : Type} `{BackendLaws St}.
Context `{Json WriterLockRecord, Json PublicationStateRecord, Json PublicationManifest,
          Json CommitMarker, Json CurrentPointer}.
Context {ExecutionManifest : Type} `{Json ExecutionManifest}.
Context (ds : DatasetLocation).
Hypothesis ds_addressable : forall rel o, object_at ds rel = Ok o -> addressable (St := St) o.

#[local] Existing Instance E_preorder.

Lemma data_not_mutable v rel o : valid_id v -> at_key ds (version_data_key v rel) o -> ~ mutable ds o.
Proof. intros Hv Ho Hm. by pose proof (vkey_mutable ds v _ o Hv Ho Hm). Qed.

Lemma safe_put_taken relative d now s m o :
  J ds m -> session_ok ds s m -> at_key ds (version_data_key (version_id s) relative) o ->
  m o <> None ->
  safe (St := St) ds (put_version_object relative d now s) (fun rs _ => is_ok rs.1 = false) m.
Proof.
  intros HJ Hs Ho Hm. assert (Hnm := data_not_mutable _ _ _ (ok_version _ _ _ Hs) Ho).
  apply safe_sm_get. case_match; [done|]. apply safe_sm_bind.
  eapply safe_mono with (Q := op_post (St := St) ds m).
  { case_decide; [by apply safe_advance; [done|simpl; lia|..]|]. by case_match; split_and!. }
  intros [[u|e] s'] m1 HE (_ & HJ1 & Hs1); [|done].
  unfold version_object. rewrite (ok_dataset _ _ _ Hs).
  apply safe_sm_pure; [|done]. intros o' Ho'. unfold at_key in Ho. rewrite Ho in Ho'. injection Ho' as <-.
  apply safe_sm_lift, safe_bind, safe_create_taken; [done|by eapply ds_addressable|done| |done].
  by rewrite (HE o (ds_addressable _ _ Ho) Hnm Hm).
Qed.

(** Once the first file of a run has been uploaded, publishing the work
    directory under that run id fails in every later store: no retry and no
    resumed session of the run can commit. *)
Theorem retry_cannot_publish now rid raw d rest manifest s0 s ws o :
  unpublished ds s0 -> rtc (sys_step ds) (s0, ∅) (s, ws) -> valid_id rid ->
  at_key ds (version_data_key rid (replace_backslash raw)) o -> view s o <> None ->
  is_ok (fst (run (publish_work_dir now ds (File raw (Ok d) :: rest) rid manifest) s)) = false.
Proof.
  intros Hu Hr Hid Ho Hne.
  destruct (sys_steps_inv ds ds_addressable _ _ Hr (unpublished_inv _ _ Hu)) as [_ [HJ _]]. simpl in HJ.
  apply (safe_run ds (publish_work_dir now ds (File raw (Ok d) :: rest) rid manifest)
           (fun r _ => is_ok r = false) s HJ).
  assert (Hnm := data_not_mutable _ _ _ Hid Ho).
  apply safe_bind. eapply safe_mono; [by apply safe_begin|].
  intros [ses|e] m1 HE (_ & HJ1 & Hses); [|done]. destruct (Hses ses eq_refl) as [Hok Hv].
  apply safe_try, safe_try, safe_bind.
  eapply safe_mono; [eapply safe_put_taken; [done..|rewrite Hv; done|]|].
  - by rewrite (HE o (ds_addressable _ _ Ho) Hnm Hne).
  - by intros [[md|e] s'] m2 _ Hr2.
Qed.
End Retry.

(** * A codec for every countable type *)

Fixpoint to_bits (p : positive) : bytes :=
  match p with
  | xH => []
  | xO p => x00 :: to_bits p
  | xI p => x01 :: to_bits p
  end.

Fixpoint of_bits (b : bytes) : option positive :=
  match b with
  | [] => Some xH
  | x00 :: b => xO <$> of_bits b
  | x01 :: b => xI <$> of_bits b
  | _ => None
  end.

Lemma of_to_bits p : of_bits (to_bits p) = Some p.
Proof. induction p as [p IH|p IH|]; simpl; [by rewrite IH..|done]. Qed.

(** The codec of a type through a countable one. *)
Definition json_via {T A} `{Countable A} (f : T -> A) (g : A -> T) (Hfg : forall x, g (f x) = x)
    : Json T.
Proof.
  refine {| to_vec x := Ok (to_bits (encode (f x)));
            from_slice b := ok_or (a ← of_bits b ≫= decode; Some (g a)) "invalid payload" |}.
  intros x. eexists. split; [done|]. rewrite of_to_bits. simpl. rewrite decode_encode. simpl.
  by rewrite Hfg.
Defined.

#[global] Instance PublicationState_countable : Countable PublicationState.
Proof.
  refine (inj_countable ordinal (fun n => match n with
    | 0 => Some Preparing | 1 => Some Uploading | 2 => Some Uploaded | 3 => Some Verified
    | 4 => Some ManifestWritten | 5 => Some Committed | 6 => Some Current | _ => None end) _).
  by intros [].
Defined.

Section Codecs.
Local Ltac by_record := intros []; reflexivity.

#[global] Instance WriterLockRecord_json : Json WriterLockRecord.
Proof.
  apply (json_via (fun r => (lr_run_id r, lr_version_id r))
    (fun '(a, b) => {| lr_run_id := a; lr_version_id := b |})). by_record.
Defined.

#[global] Instance PublicationStateRecord_json : Json PublicationStateRecord.
Proof.
  apply (json_via
    (fun r => (sr_parqonaut_publication_version r, sr_version_id r, sr_run_id r, sr_state r, sr_updated_at r))
    (fun '(a, b, c, d, e) => {| sr_parqonaut_publication_version := a; sr_version_id := b;
       sr_run_id := c; sr_state := d; sr_updated_at := e |})). by_record.
Defined.

#[global] Instance PublicationObjectRecord_eq_dec : EqDecision PublicationObjectRecord.
Proof. solve_decision. Defined.

#[global] Instance PublicationObjectRecord_countable : Countable PublicationObjectRecord.
Proof.
  apply (inj_countable' (fun r => (or_key r, or_size r, or_etag r, or_version_id r))
    (fun '(a, b, c, d) => {| or_key := a; or_size := b; or_etag := c; or_version_id := d |})). by_record.
Defined.

#[global] Instance PublicationManifest_json : Json PublicationManifest.
Proof.
  apply (json_via
    (fun r => (pm_parqonaut_publication_version r, pm_version_id r, pm_run_id r, pm_objects r))
    (fun '(a, b, c, d) => {| pm_parqonaut_publication_version := a; pm_version_id := b;
       pm_run_id := c; pm_objects := d |})). by_record.
Defined.

#[global] Instance CommitMarker_json : Json CommitMarker.
Proof.
  apply (json_via (fun r => (cm_version_id r, cm_run_id r, cm_committed_at r))
    (fun '(a, b, c) => {| cm_version_id := a; cm_run_id := b; cm_committed_at := c |})). by_record.
Defined.

#[global] Instance CurrentPointer_json : Json CurrentPointer.
Proof.
  apply (json_via cp_version_id (fun a => {| cp_version_id := a |})). by_record.
Defined.

#[global] Instance unit_json : Json unit := json_via id id (fun x => eq_refl).
End Codecs.

(** * A concrete store *)

Definition ex_ds : DatasetLocation := S3 (mkS3 "lake" "tables/orders").
Definition ex_backend : MemoryBackend := memory_new CAPS_S3.
Definition ex_work : list walk_entry :=
  [File "part-000.parquet" (Ok [x01; x02]); File "year=2024\part-001.parquet" (Ok [x03])].

Lemma ex_addressable rel o : object_at ex_ds rel = Ok o -> addressable (St := MemoryBackend) o.
Proof. simpl. intros (k & _ & [= <-])%bind_Ok. done. Qed.

Lemma ex_unpublished : unpublished ex_ds ex_backend.
Proof. by intros rel o _. Qed.

(** A session of [run-1], and the store after it published one file. *)
Definition ex_session : Session := {|
  dataset := ex_ds; version_id := "run-1"; run_id := "run-1"; state := Preparing;
  lock := Some {| lock_object := S3Object "lake" "tables/orders/.parqonaut/writer.lock";
                  lock_record := {| lr_run_id := "run-1"; lr_version_id := "run-1" |};
                  released := false |} |}.
Definition ex_begun : MemoryBackend := snd (run (begin ex_ds "run-1" 0 0) ex_backend).
Definition ex_manifest : PublicationManifest :=
  {| pm_parqonaut_publication_version := 1; pm_version_id := "run-1"; pm_run_id := "run-1"; pm_objects := [] |}.
Definition ex_ops : list session_op :=
  [OpPut "part-000.parquet" [x01; x02] 1; OpMarkUploaded 2; OpMarkVerified 3;
   OpWriteManifest ex_manifest 4; OpFinish true 5 6 7].
Definition ex_published : MemoryBackend := fst (run_ops ex_ops ex_begun ex_session).
Definition ex_object (rel : string) : ObjectLocation := S3Object "lake" ("tables/orders/" +:+ rel).

Lemma ex_trace :
  rtc (sys_step ex_ds) (ex_backend, ∅)
    (ex_published, <[0 := Idle (snd (run_ops ex_ops ex_begun ex_session))]> ∅).
Proof. by apply (session_steps ex_ds 0 "run-1" 0 0). Qed.

(** [run-2] begins while the store holds the published version of [run-1]. *)
Lemma ex_trace2 : exists ws',
  rtc (sys_step ex_ds) (ex_published, <[0 := Idle (snd (run_ops ex_ops ex_begun ex_session))]> ∅)
    (snd (run (begin ex_ds "run-2" 8 9) ex_published), ws').
Proof.
  eexists. eapply rtc_l; [apply (step_begin ex_ds _ _ 1 "run-2" 8 9); [by vm_compute|done]|].
  apply opening_steps.
Qed.

Lemma reachable_store_consistent_witness :
  present ex_ds (version_commit_key "run-1") (view ex_published)
  /\ present ex_ds (version_manifest_key "run-1") (view ex_published).
Proof.
  destruct (reachable_store_consistent ex_ds ex_addressable ex_backend ex_published _
              ex_unpublished ex_trace) as [Hc _].
  apply (Hc (ex_object CURRENT_KEY) (to_bits (encode "run-1")) {| cp_version_id := "run-1" |});
    by vm_compute.
Defined.

Lemma version_objects_immutable_witness :
  view (snd (run (begin ex_ds "run-2" 8 9) ex_published))
    (ex_object (version_data_key "run-1" "part-000.parquet")) = Some [x01; x02].
Proof.
  destruct ex_trace2 as [ws' Htr].
  apply (version_objects_immutable ex_ds ex_addressable ex_backend ex_published _ _ ws' "run-1"
           "data/part-000.parquet" _ _ ex_unpublished ex_trace Htr); by vm_compute.
Defined.

Lemma publish_work_dir_succeeds_witness :
  let '(r, s) := run (publish_work_dir (fun _ => 0%Z) ex_ds ex_work "run-1" tt) ex_backend in
  is_ok r = true /\ exists O, published ex_ds "run-1" O ex_work (view s).
Proof.
  apply (publish_work_dir_succeeds ex_ds ex_addressable (fun _ => 0%Z) "run-1" ex_work tt ex_backend);
    [done|apply ex_unpublished|by vm_compute|done|].
  by apply (bool_decide_unpack _); vm_compute.
Defined.

Lemma begin_excluded_by_lock_witness :
  let '(r, s') := run (begin ex_ds "run-2" 1 2) ex_begun in
  r = Err (PubLockHeld "run-1")
  /\ same_on (addressable (St := MemoryBackend)) (view ex_begun) (view s').
Proof.
  apply (begin_excluded_by_lock ex_ds ex_addressable "run-2" 1 2 (ex_object WRITER_LOCK_KEY)
    (to_bits (encode ("run-1", "run-1"))) {| lr_run_id := "run-1"; lr_version_id := "run-1" |} ex_begun);
    by vm_compute.
Defined.

Lemma retry_cannot_publish_witness :
  is_ok (fst (run (publish_work_dir (fun _ => 0%Z) ex_ds ex_work "run-1" tt)
    (fst (run_ops [OpPut "part-000.parquet" [x01; x02] 1] ex_begun ex_session)))) = false.
Proof.
  eapply (retry_cannot_publish ex_ds ex_addressable (fun _ => 0%Z) "run-1" "part-000.parquet" [x01; x02]
    _ tt ex_backend _ _ (ex_object (version_data_key "run-1" "part-000.parquet")) ex_unpublished).
  - by apply (session_steps ex_ds 0 "run-1" 0 0).
  - done.
  - by vm_compute.
  - by vm_compute.
Defined.
