(* ===== verification/BTree.v ===== *)
(** [std::collections::BTreeMap] and [BTreeSet] with string keys: association
    lists in strictly increasing key order.  Rust orders strings by their bytes,
    which is [String.le]. *)

From stdpp Require Import sorting.
From S2P Require Import Prelude.

Definition str_lt (a b : string) : Prop := String.le a b /\ a <> b.
Definition str_leb (a b : string) : bool := bool_decide (String.le a b).

#[global] Instance str_lt_dec : RelDecision str_lt.
Proof. intros a b. unfold str_lt. apply _. Defined.

#[global] Instance str_lt_trans : Transitive str_lt.
Proof.
  intros a b c [Hab Hn] [Hbc Hn']. split; [by etrans|]. intros ->. apply Hn'. by apply (anti_symm String.le).
Qed.

Lemma str_lt_irrefl a : ~ str_lt a a.
Proof. by intros [_ ?]. Qed.

Lemma str_lt_or a b : a <> b -> ~ str_lt a b -> str_lt b a.
Proof. intros Hne Hn. destruct (total String.le a b); [by destruct Hn|]. by split; [|apply not_eq_sym]. Qed.

Lemma str_leb_refl a : str_leb a a = true.
Proof. by apply bool_decide_eq_true. Qed.

Abbreviation bmap V := (list (string * V)).

Section BMap.
Context {V : Type}.
Implicit Types (m : bmap V) (k : string) (v : V).

(** [BTreeMap::insert]: replaces the value of a key that is present. *)
Fixpoint bm_insert k v m : bmap V :=
  match m with
  | [] => [(k, v)]
  | (k', v') :: m' =>
      if decide (k = k') then (k, v) :: m'
      else if decide (str_lt k k') then (k, v) :: m
      else (k', v') :: bm_insert k v m'
  end.

Fixpoint bm_get k m : option V :=
  match m with
  | [] => None
  | (k', v) :: m' => if decide (k = k') then Some v else bm_get k m'
  end.

(** [BTreeMap::remove], without the removed value. *)
Fixpoint bm_remove k m : bmap V :=
  match m with
  | [] => []
  | (k', v) :: m' => if decide (k = k') then m' else (k', v) :: bm_remove k m'
  end.

Definition bm_contains k m : bool := bool_decide (is_Some (bm_get k m)).
Definition bm_keys m : list string := map fst m.
Definition bm_values m : list V := map snd m.

(** [iter().collect()]: the last value of a repeated key wins. *)
Definition bm_of_list (l : list (string * V)) : bmap V :=
  fold_left (fun m kv => bm_insert (fst kv) (snd kv) m) l [].

Definition bm_wf m : Prop := StronglySorted str_lt (bm_keys m).

Lemma bm_get_insert k k' v m :
  bm_get k' (bm_insert k v m) = if decide (k' = k) then Some v else bm_get k' m.
Proof.
  induction m as [|[k0 v0] m IH]; simpl; [done|].
  destruct (decide (k = k0)) as [->|]; simpl; [by repeat case_decide|].
  destruct (decide (str_lt k k0)); simpl; [done|]. rewrite IH. repeat case_decide; by subst.
Qed.

Lemma bm_insert_keys k v m k' : k' ∈ bm_keys (bm_insert k v m) <-> k' = k \/ k' ∈ bm_keys m.
Proof.
  induction m as [|[k0 v0] m IH]; simpl; [set_solver|].
  destruct (decide (k = k0)) as [->|]; simpl; [set_solver|].
  destruct (decide (str_lt k k0)); simpl; set_solver.
Qed.

Lemma bm_insert_wf k v m : bm_wf m -> bm_wf (bm_insert k v m).
Proof.
  unfold bm_wf. induction m as [|[k0 v0] m IH]; simpl; [by repeat constructor|].
  intros Hm. inversion Hm as [|? ? Hs Hall]; subst. rewrite Forall_forall in Hall.
  destruct (decide (k = k0)) as [->|Hne]; simpl; [done|].
  destruct (decide (str_lt k k0)) as [Hlt|Hlt]; simpl.
  - constructor; [done|]. constructor; [done|]. apply Forall_forall. intros x Hx. etrans; eauto.
  - constructor; [by apply IH|]. apply Forall_forall. intros x [->|Hx]%bm_insert_keys; [|auto].
    by apply str_lt_or; [|done].
Qed.

Lemma bm_of_list_wf l : bm_wf (bm_of_list l).
Proof.
  unfold bm_of_list. assert (bm_wf ([] : bmap V)) as Hnil by constructor. revert Hnil.
  generalize ([] : bmap V). induction l as [|[k v] l IH]; simpl; [done|].
  intros m Hm. by apply IH, bm_insert_wf.
Qed.

Lemma bm_get_keys k m : is_Some (bm_get k m) <-> k ∈ bm_keys m.
Proof.
  induction m as [|[k0 v0] m IH]; simpl; [split; [by intros [? ?]|set_solver]|].
  case_decide; [subst; split; [set_solver|eauto]|]. set_solver.
Qed.

Lemma bm_get_elem k v m : bm_get k m = Some v -> (k, v) ∈ m.
Proof.
  induction m as [|[k0 v0] m IH]; simpl; [done|]. case_decide; [intros [= ->]; set_solver|].
  intros ?%IH. set_solver.
Qed.

Lemma bm_wf_nodup m : bm_wf m -> NoDup (bm_keys m).
Proof.
  unfold bm_wf. induction 1 as [|k l Hs IH Hall]; constructor; [|done].
  intros Hin. rewrite Forall_forall in Hall. by apply (str_lt_irrefl k), Hall.
Qed.

Lemma bm_get_of_nodup k v m : NoDup (bm_keys m) -> (k, v) ∈ m -> bm_get k m = Some v.
Proof.
  induction m as [|[k0 v0] m IH]; simpl; [set_solver|]. inversion 1 as [|? ? Hni Hnd]; subst.
  intros [[= -> ->]|Hin]%elem_of_cons; [by rewrite decide_True|].
  rewrite decide_False; [by apply IH|]. intros ->. apply Hni.
  apply list_elem_of_In, in_map_iff. exists (k0, v). split; [done|]. by apply list_elem_of_In.
Qed.

Lemma bm_get_remove k k' m : bm_wf m ->
  bm_get k' (bm_remove k m) = if decide (k' = k) then None else bm_get k' m.
Proof.
  intros Hwf. apply bm_wf_nodup in Hwf. induction m as [|[k0 v0] m IH]; simpl; [by case_decide|].
  simpl in Hwf. inversion Hwf as [|? ? Hni Hnd]; subst.
  destruct (decide (k = k0)) as [->|]; simpl.
  - case_decide; [subst|done]. destruct (bm_get k0 m) eqn:E; [|done].
    exfalso. apply Hni, bm_get_keys. eauto.
  - rewrite IH by done. repeat case_decide; by subst.
Qed.

Lemma bm_remove_keys k m k' : k' ∈ bm_keys (bm_remove k m) -> k' ∈ bm_keys m.
Proof. induction m as [|[k0 v0] m IH]; simpl; [done|]. case_decide; simpl; set_solver. Qed.

Lemma bm_remove_wf k m : bm_wf m -> bm_wf (bm_remove k m).
Proof.
  unfold bm_wf. induction m as [|[k0 v0] m IH]; simpl; [done|].
  intros Hm. inversion Hm as [|? ? Hs Hall]; subst. case_decide; [done|]. simpl.
  constructor; [by apply IH|]. rewrite Forall_forall in *. intros x ?%bm_remove_keys. auto.
Qed.

Lemma bm_of_list_get_nodup k v l : NoDup (map fst l) -> (k, v) ∈ l -> bm_get k (bm_of_list l) = Some v.
Proof.
  unfold bm_of_list. generalize ([] : bmap V). induction l as [|[k0 v0] l IH]; simpl; [set_solver|].
  intros m. inversion 1 as [|? ? Hni Hnd]; subst. intros [[= -> ->]|Hin]%elem_of_cons; [|by apply IH].
  assert (forall m', ~ k0 ∈ map fst l -> bm_get k0 (fold_left (fun m kv => bm_insert (fst kv) (snd kv) m) l m')
            = bm_get k0 m') as Hk.
  { clear. induction l as [|[k1 v1] l IH]; simpl; [done|]. intros m' Hn. rewrite IH by set_solver.
    rewrite bm_get_insert. rewrite decide_False; set_solver. }
  rewrite Hk by done. rewrite bm_get_insert. by rewrite decide_True.
Qed.

Lemma bm_of_list_keys k l : k ∈ bm_keys (bm_of_list l) <-> k ∈ map fst l.
Proof.
  unfold bm_of_list. assert (forall m, k ∈ bm_keys (fold_left (fun m kv => bm_insert (fst kv) (snd kv) m) l m)
    <-> k ∈ map fst l \/ k ∈ bm_keys m) as Hk.
  { induction l as [|[k0 v0] l IH]; intros m; simpl; [set_solver|]. rewrite IH, bm_insert_keys. set_solver. }
  rewrite Hk. set_solver.
Qed.
End BMap.

(** [BTreeSet<String>]. *)
Abbreviation bset := (bmap unit).
Definition bs_of_list (l : list string) : bset := bm_of_list (map (fun k => (k, tt)) l).

Lemma bs_of_list_elem k l : k ∈ bm_keys (bs_of_list l) <-> k ∈ l.
Proof.
  unfold bs_of_list. rewrite bm_of_list_keys, map_map. simpl. by rewrite map_id.
Qed.

(** * Sorting *)

Section SortLemmas.
Context {A : Type} (leb : A -> A -> bool).
Hypothesis leb_total : forall x y, leb x y = true \/ leb y x = true.

Lemma insert_by_sorted x l :
  Sorted (fun a b => leb a b = true) l -> Sorted (fun a b => leb a b = true) (insert_by leb x l).
Proof.
  induction l as [|y l IH]; simpl; [by repeat constructor|]. intros Hl.
  destruct (leb x y) eqn:E; [by constructor; [|constructor]|].
  inversion Hl as [|? ? Hs Hh]; subst. constructor; [by apply IH|].
  assert (leb y x = true) by (destruct (leb_total x y); congruence).
  destruct l as [|z l]; simpl; [by repeat constructor|]. destruct (leb x z); constructor; [done|].
  by inversion Hh.
Qed.

Lemma sort_by_sorted l : Sorted (fun a b => leb a b = true) (sort_by leb l).
Proof. unfold sort_by. induction l as [|x l IH]; simpl; [constructor|]. by apply insert_by_sorted. Qed.
End SortLemmas.

(** Sorting by a key commutes with projecting to it. *)
Lemma sort_by_map {A B} (f : A -> B) (leb : A -> A -> bool) (leb' : B -> B -> bool) l :
  (forall a b, leb a b = leb' (f a) (f b)) -> map f (sort_by leb l) = sort_by leb' (map f l).
Proof.
  intros Hl. assert (forall x m, map f (insert_by leb x m) = insert_by leb' (f x) (map f m)) as Hi.
  { intros x m. induction m as [|y m IH]; simpl; [done|]. rewrite <- Hl.
    destruct (leb x y); simpl; [done|]. by rewrite IH. }
  induction l as [|x l IH]; simpl; [done|]. by rewrite Hi, IH.
Qed.
