(* ===== verification/Schema.v ===== *)
(** Schema comparison and canonical resolution
    (src/crates/parqonaut-columnar/src/schema/compatibility.rs and
    src/crates/parqonaut-repair/src/schema/{types,compatibility,diff,canonical}.rs,
    schema_policy.rs).

    Type labels are ASCII: [str::to_uppercase] is modelled on ASCII letters. *)

From Stdlib Require Import Ascii.
From S2P Require Import Prelude BTree.

(** * The compatibility lattice *)

Inductive Compatibility := Lossless | ConditionallyLossless | PotentiallyLossy | CompatUnsupported.

#[global] Instance Compatibility_eq_dec : EqDecision Compatibility.
Proof. solve_decision. Defined.

Inductive PhysicalType :=
| Int8 | Int16 | Int32 | Int64 | UInt8 | UInt16 | UInt32 | UInt64 | Float32 | Float64
| Boolean | Utf8 | Binary | Timestamp | Date32 | Decimal | Unknown (raw : string).

#[global] Instance PhysicalType_eq_dec : EqDecision PhysicalType.
Proof. solve_decision. Defined.

Definition physical_parse (raw : string) : PhysicalType :=
  let upper := to_uppercase raw in
  if contains "INT8" upper || starts_with "INT(8)" upper then Int8
  else if contains "INT16" upper then Int16
  else if contains "INT32" upper then Int32
  else if contains "INT64" upper then Int64
  else if contains "UINT8" upper then UInt8
  else if contains "UINT16" upper then UInt16
  else if contains "UINT32" upper then UInt32
  else if contains "UINT64" upper then UInt64
  else if contains "FLOAT" upper && negb (contains "DOUBLE" upper) then Float32
  else if contains "DOUBLE" upper then Float64
  else if contains "BOOL" upper then Boolean
  else if contains "STRING" upper || contains "UTF8" upper
          || (contains "BYTE_ARRAY" upper && contains "STRING" upper) then Utf8
  else if contains "BYTE_ARRAY" upper then Binary
  else if contains "TIMESTAMP" upper then Timestamp
  else if contains "DATE32" upper || contains "DATE" upper then Date32
  else if contains "DECIMAL" upper then Decimal
  else Unknown raw.

Definition widening_rank (t : PhysicalType) : option nat :=
  match t with
  | Int8 => Some 0 | Int16 => Some 1 | Int32 => Some 2 | Int64 => Some 3
  | UInt8 => Some 10 | UInt16 => Some 11 | UInt32 => Some 12 | UInt64 => Some 13
  | Float32 => Some 20 | Float64 => Some 21
  | _ => None
  end.

(** The widening pairs of [classify_conversion]. *)
Definition widens (from to : PhysicalType) : bool :=
  match from, to with
  | Int32, Int64 | Int16, Int32 | Int16, Int64 | Int8, Int16 | Int8, Int32 | Int8, Int64
  | UInt32, UInt64 | UInt16, UInt32 | UInt16, UInt64 | UInt8, UInt16 | UInt8, UInt32 | UInt8, UInt64
  | Float32, Float64 => true
  | _, _ => false
  end.

Definition classify_conversion_flags (from to : PhysicalType)
    (from_nullable to_nullable allow_numeric_widening allow_nullable_widening : bool)
    : Compatibility :=
  if bool_decide (from = to) && eqb from_nullable to_nullable then Lossless
  else if bool_decide (from = to) && negb from_nullable && to_nullable && allow_nullable_widening
  then Lossless
  else if negb (bool_decide (from = to)) then
    if negb allow_numeric_widening then CompatUnsupported
    else if widens from to then
      if eqb from_nullable to_nullable
         || (negb from_nullable && to_nullable && allow_nullable_widening)
      then Lossless else ConditionallyLossless
    else
      match from, to with
      | Int32, Float64 | Int64, Float64 => PotentiallyLossy
      | _, _ => CompatUnsupported
      end
  else if from_nullable && negb to_nullable then PotentiallyLossy
  else CompatUnsupported.

(** * Policies *)

Record SchemaPolicy := {
  allow_numeric_widening : bool;
  allow_nullable_widening : bool;
  allow_column_reorder : bool;
  allow_missing_nullable_columns : bool;
  allow_timestamp_unit_widening : bool;
  policy_rename : bmap string;
}.

Definition SchemaPolicy_default : SchemaPolicy := {|
  allow_numeric_widening := true; allow_nullable_widening := true; allow_column_reorder := true;
  allow_missing_nullable_columns := false; allow_timestamp_unit_widening := false; policy_rename := [] |}.

Definition classify_conversion (from to : PhysicalType) (from_nullable to_nullable : bool)
    (policy : SchemaPolicy) : Compatibility :=
  classify_conversion_flags from to from_nullable to_nullable
    (allow_numeric_widening policy) (allow_nullable_widening policy).

(** * Field descriptors and differences *)

Record FieldDescriptor := {
  fd_name : string;
  fd_physical_type : string;
  fd_nullable : bool;
}.

#[global] Instance FieldDescriptor_eq_dec : EqDecision FieldDescriptor.
Proof. solve_decision. Defined.

Definition FieldDescriptor_default : FieldDescriptor :=
  {| fd_name := EmptyString; fd_physical_type := EmptyString; fd_nullable := false |}.

(** The part of [paraclete_types::FieldDefinition] that is read here. *)
Record FieldDefinition := {
  def_name : string;
  def_logical_type : string;
  def_nullable : bool;
}.

Inductive SchemaDifferenceKind :=
| Identical | ColumnOrderDifference | NullableDifference | CompatibleNumericWidening
| CompatibleTypePromotion | MissingColumn | ExtraColumn | ColumnNameDifference
| IncompatibleTypeChange | NestedSchemaDifference.

#[global] Instance SchemaDifferenceKind_eq_dec : EqDecision SchemaDifferenceKind.
Proof. solve_decision. Defined.

Abbreviation FieldPath := (list string).
Definition path_root (name : string) : FieldPath := [name].
Definition path_display (p : FieldPath) : string := join_strings "." p.

Record FieldDifference := {
  fdiff_path : FieldPath;
  diff_left : option FieldDescriptor;
  diff_right : option FieldDescriptor;
  difference : SchemaDifferenceKind;
  compatibility : Compatibility;
  left_file_count : Z;
  right_file_count : Z;
}.

Record SchemaDiff := {
  diff_fields : list FieldDifference;
  canonical_schema : list FieldDescriptor;
}.

(** Per-file view. *)
Record FileSchemaView := {
  view_path : string;
  view_fields : list FieldDescriptor;
}.

(** [split_whitespace().next()]. *)
Fixpoint take_word (s : string) : string :=
  match s with
  | EmptyString => EmptyString
  | String c s => if Ascii.is_space c then EmptyString else String c (take_word s)
  end.
Definition first_word (s : string) : option string :=
  let w := take_word (trim_start Ascii.is_space s) in
  if decide (w = EmptyString) then None else Some w.

Definition field_from_definition (f : FieldDefinition) : FieldDescriptor :=
  {| fd_name := def_name f;
     fd_physical_type := default "UNKNOWN" (first_word (def_logical_type f));
     fd_nullable := def_nullable f |}.

(** * Canonical field of a column *)

Definition classify_fields (policy : SchemaPolicy) (a b : FieldDescriptor) : Compatibility :=
  classify_conversion (physical_parse (fd_physical_type a)) (physical_parse (fd_physical_type b))
    (fd_nullable a) (fd_nullable b) policy.

Definition rank (f : FieldDescriptor) : nat :=
  default 0 (widening_rank (physical_parse (fd_physical_type f))).

Definition pick_step (policy : SchemaPolicy) (best v : FieldDescriptor) : FieldDescriptor :=
  if bool_decide (classify_fields policy best v = Lossless) && (rank best <? rank v) then v
  else if fd_nullable v && negb (fd_nullable best) && allow_nullable_widening policy
  then {| fd_name := fd_name best; fd_physical_type := fd_physical_type best; fd_nullable := true |}
  else best.

Definition pick_canonical_field (variants : list FieldDescriptor) (policy : SchemaPolicy)
    : FieldDescriptor :=
  match variants with
  | [] => FieldDescriptor_default
  | v :: rest => fold_left (pick_step policy) rest v
  end.

(** * The diff *)

(** [field_files.entry(name).or_default().insert(path, field)]. *)
Definition add_field (vpath : string) (m : bmap (bmap FieldDescriptor)) (f : FieldDescriptor)
    : bmap (bmap FieldDescriptor) :=
  bm_insert (fd_name f) (bm_insert vpath f (default [] (bm_get (fd_name f) m))) m.

Definition field_files (views : list FileSchemaView) : bmap (bmap FieldDescriptor) :=
  fold_left (fun m v => fold_left (add_field (view_path v)) (view_fields v) m) views [].

Definition variant_key (f : FieldDescriptor) : string * bool := (fd_physical_type f, fd_nullable f).
Definition same_variant (a b : FieldDescriptor) : bool := bool_decide (variant_key a = variant_key b).

(** The number of distinct (type, nullability) pairs. *)
Definition distinct_variants (variants : list FieldDescriptor) : nat :=
  length (remove_dups (map variant_key variants)).

(** The difference a column contributes, if any. *)
Definition field_difference (policy : SchemaPolicy) (name : string) (variants : list FieldDescriptor)
    : option FieldDifference :=
  let canonical := pick_canonical_field variants policy in
  let mk from kind compat left right := Some {|
    fdiff_path := path_root name; diff_left := Some from; diff_right := Some canonical;
    difference := kind; compatibility := compat;
    left_file_count := left; right_file_count := right |} in
  match variants with
  | [] => None
  | only :: _ =>
      if distinct_variants variants =? 1 then
        let kind :=
          if negb (eqb (fd_nullable only) (fd_nullable canonical)) then NullableDifference
          else if negb (bool_decide (fd_physical_type only = fd_physical_type canonical))
          then CompatibleNumericWidening else Identical in
        if bool_decide (kind = Identical) then None
        else mk only kind (classify_fields policy only canonical) (Z.of_nat (length variants)) 0%Z
      else
        let from := default canonical (list_find (fun v => same_variant v canonical = false) variants
                                         ≫= fun p => Some (snd p)) in
        let left := Z.of_nat (length (filter (fun v => same_variant v from = true) variants)) in
        let compat := classify_fields policy from canonical in
        let kind :=
          if bool_decide (compat = CompatUnsupported) then IncompatibleTypeChange
          else if negb (bool_decide (fd_physical_type from = fd_physical_type canonical))
          then CompatibleNumericWidening
          else if negb (eqb (fd_nullable from) (fd_nullable canonical)) then NullableDifference
          else Identical in
        if bool_decide (kind = Identical) then None
        else mk from kind compat left (Z.of_nat (length variants) - left)%Z
  end.

Definition diff_leb (a b : FieldDifference) : bool :=
  str_leb (path_display (fdiff_path a)) (path_display (fdiff_path b)).
Definition name_leb (a b : FieldDescriptor) : bool := str_leb (fd_name a) (fd_name b).

Definition compute_schema_diff (views : list FileSchemaView) (policy : SchemaPolicy) : SchemaDiff :=
  let columns := field_files views in
  let nonempty := filter (fun c => bm_values (snd c) <> []) columns in
  {| diff_fields := sort_by diff_leb
       (omap (fun c => field_difference policy (fst c) (bm_values (snd c))) nonempty);
     canonical_schema := sort_by name_leb
       (map (fun c => pick_canonical_field (bm_values (snd c)) policy) nonempty) |}.

(** * Resolution *)

Record UnresolvableSchemaConflict := {
  conflict_field : string;
  conflict_variants : list FieldDescriptor;
  conflict_reason : string;
}.

Record SchemaResolution := {
  res_diff : SchemaDiff;
  res_conflicts : list UnresolvableSchemaConflict;
  res_target_schema : option (list FieldDescriptor);
}.

Definition is_conflict (d : FieldDifference) : bool :=
  match compatibility d with CompatUnsupported | PotentiallyLossy => true | _ => false end.

Definition conflict_of (d : FieldDifference) : UnresolvableSchemaConflict := {|
  conflict_field := path_display (fdiff_path d);
  conflict_variants := [default FieldDescriptor_default (diff_left d);
                        default FieldDescriptor_default (diff_right d)];
  conflict_reason := "No deterministic canonical type under current schema policy" |}.

Definition resolve_canonical_schema (views : list FileSchemaView)
    (explicit : option (list FieldDescriptor)) (policy : SchemaPolicy) : SchemaResolution :=
  let diff := compute_schema_diff views policy in
  let conflicts := map conflict_of (filter (fun d => is_conflict d = true) (diff_fields diff)) in
  {| res_diff := diff; res_conflicts := conflicts;
     res_target_schema := match explicit with
       | Some s => Some s
       | None => match conflicts with [] => Some (canonical_schema diff) | _ :: _ => None end
       end |}.
