(* ===== verification/SchemaProofs.v ===== *)
(** Correctness of schema comparison: what a [Lossless] verdict means, the names
    and order of the canonical schema, when an absence of conflicts can be
    trusted, and where it cannot. *)

From stdpp Require Import sorting.
From Stdlib Require Import Ascii.
From S2P Require Import Prelude BTree Schema.

(** * Conversions *)

(** The integers a column of a numeric type holds exactly; for floats, the
    contiguous range around zero (24 and 53 bits of precision). *)
Definition exact_range (t : PhysicalType) : option (Z * Z) :=
  match t with
  | Int8 => Some (- 2 ^ 7, 2 ^ 7 - 1) | Int16 => Some (- 2 ^ 15, 2 ^ 15 - 1)
  | Int32 => Some (- 2 ^ 31, 2 ^ 31 - 1) | Int64 => Some (- 2 ^ 63, 2 ^ 63 - 1)
  | UInt8 => Some (0, 2 ^ 8 - 1) | UInt16 => Some (0, 2 ^ 16 - 1)
  | UInt32 => Some (0, 2 ^ 32 - 1) | UInt64 => Some (0, 2 ^ 64 - 1)
  | Float32 => Some (- 2 ^ 24, 2 ^ 24) | Float64 => Some (- 2 ^ 53, 2 ^ 53)
  | _ => None
  end%Z.

Definition holds_exactly (t : PhysicalType) (z : Z) : Prop :=
  exists lo hi, exact_range t = Some (lo, hi) /\ (lo <= z <= hi)%Z.

Lemma widens_range from to z : widens from to = true -> holds_exactly from z -> holds_exactly to z.
Proof.
  intros Hw (lo & hi & Hr & Hz). unfold holds_exactly.
  destruct from, to; try discriminate Hw; simpl in *; simplify_eq/=;
    eexists _, _; (split; [done|lia]).
Qed.

(** A conversion classified as lossless keeps every integer value and never
    drops nullability. *)
Theorem lossless_conversion_preserves_values from to fn tn widen nullable z :
  classify_conversion_flags from to fn tn widen nullable = Lossless ->
  (fn = true -> tn = true) /\ (holds_exactly from z -> holds_exactly to z).
Proof.
  unfold classify_conversion_flags. intros Hc. case_bool_decide as Heq; simpl in Hc.
  - subst to. split; [|done]. destruct fn, tn, nullable; simpl in Hc; done.
  - destruct widen; [|done]. simpl in Hc. destruct (widens from to) eqn:Hw.
    + split; [destruct fn, tn, nullable; simpl in Hc; done|]. by apply widens_range.
    + by destruct from, to.
Qed.

Lemma lossless_conversion_preserves_values_witness :
  (false = true -> true = true) /\ (holds_exactly Int32 (-5) -> holds_exactly Int64 (-5)).
Proof. by apply (lossless_conversion_preserves_values Int32 Int64 false true true true (-5)). Defined.

(** * Labels *)

Lemma contains_cons needle c s : contains needle s = true -> contains needle (String c s) = true.
Proof. intros H. cbn. rewrite H. apply orb_true_r. Qed.

Lemma contains_tail c needle s : contains (String c needle) s = true -> contains needle s = true.
Proof.
  induction s as [|d s IH]; [done|]. intros H. cbn [contains] in H.
  apply orb_true_iff in H as [H|H]; [|by apply contains_cons, IH].
  apply contains_cons. unfold starts_with in H. cbn in H. destruct (ascii_dec c d) as [_|]; [|done].
  destruct s as [|e s]; cbn [contains]; unfold starts_with; [by destruct needle|]. by rewrite H.
Qed.

Definition unsigned (t : PhysicalType) : bool :=
  match t with UInt8 | UInt16 | UInt32 | UInt64 => true | _ => false end.

(** No label is ever recognised as unsigned: every label that names an
    unsigned type also contains the name of the signed type of its width, which
    is tested first. *)
Theorem physical_parse_never_unsigned raw : unsigned (physical_parse raw) = false.
Proof.
  unfold physical_parse. set (u := to_uppercase raw).
  destruct (contains "INT8" u) eqn:H8; [done|]. simpl.
  destruct (starts_with "INT(8)" u); [done|].
  destruct (contains "INT16" u) eqn:H16; [done|]. destruct (contains "INT32" u) eqn:H32; [done|].
  destruct (contains "INT64" u) eqn:H64; [done|].
  destruct (contains "UINT8" u) eqn:U8; [by apply contains_tail in U8; congruence|].
  destruct (contains "UINT16" u) eqn:U16; [by apply contains_tail in U16; congruence|].
  destruct (contains "UINT32" u) eqn:U32; [by apply contains_tail in U32; congruence|].
  destruct (contains "UINT64" u) eqn:U64; [by apply contains_tail in U64; congruence|].
  by repeat case_match.
Qed.

(** * Canonical fields *)

Lemma pick_step_name policy b v : fd_name b = fd_name v -> fd_name (pick_step policy b v) = fd_name b.
Proof. intros. unfold pick_step. by repeat case_match. Qed.

Lemma pick_fold_name policy vs b n :
  fd_name b = n -> Forall (fun v => fd_name v = n) vs ->
  fd_name (fold_left (pick_step policy) vs b) = n.
Proof.
  revert b. induction vs as [|v vs IH]; simpl; [done|]. intros b Hb Hall.
  inversion Hall; subst. apply IH; [|done]. by rewrite pick_step_name.
Qed.

Lemma pick_canonical_name policy vs n :
  vs <> [] -> Forall (fun v => fd_name v = n) vs -> fd_name (pick_canonical_field vs policy) = n.
Proof.
  destruct vs as [|v vs]; [done|]. intros _ Hall. inversion Hall. by apply pick_fold_name.
Qed.

(** With one nullability throughout, the canonical field is one of the variants. *)
Lemma pick_fold_variant policy vs b nb :
  fd_nullable b = nb -> Forall (fun v => fd_nullable v = nb) vs ->
  fold_left (pick_step policy) vs b ∈ b :: vs.
Proof.
  revert b. induction vs as [|v vs IH]; simpl; intros b Hb Hall; [set_solver|].
  inversion Hall as [|? ? Hv Hvs]; subst.
  assert (pick_step policy b v = b \/ pick_step policy b v = v) as Hstep.
  { unfold pick_step. rewrite Hv. destruct (_ && _); [by right|]. left. by destruct (fd_nullable b). }
  destruct Hstep as [-> | ->]; [specialize (IH b)|specialize (IH v)]; set_solver.
Qed.

Lemma pick_canonical_variant policy vs nb :
  vs <> [] -> Forall (fun v => fd_nullable v = nb) vs -> pick_canonical_field vs policy ∈ vs.
Proof.
  destruct vs as [|v vs]; [done|]. intros _ Hall. inversion Hall. by apply (pick_fold_variant policy vs v nb).
Qed.

(** ** The columns of the views *)

(** Every column map holds, under a name, descriptors of that name. *)
Definition columns_ok (m : bmap (bmap FieldDescriptor)) : Prop :=
  bm_wf m /\ forall n per, bm_get n m = Some per ->
    per <> [] /\ Forall (fun v => fd_name v = n) (bm_values per).

Lemma bm_insert_ne {V} k (v : V) m : bm_insert k v m <> [].
Proof. destruct m as [|[k' v'] m]; simpl; [done|]. by repeat case_decide. Qed.

Lemma bm_insert_values {V} (P : V -> Prop) k v m :
  P v -> Forall P (bm_values m) -> Forall P (bm_values (bm_insert k v m)).
Proof.
  induction m as [|[k' v'] m IH]; simpl; intros Hv Hm; [by repeat constructor|].
  inversion Hm; subst. repeat case_decide; simpl; repeat constructor; auto.
Qed.

Lemma add_field_ok vpath m f : columns_ok m -> columns_ok (add_field vpath m f).
Proof.
  intros [Hwf Hm]. split; [by apply bm_insert_wf|]. intros n per. unfold add_field. rewrite bm_get_insert.
  case_decide as Hn; [subst n|by apply Hm]. intros [= <-]. split; [apply bm_insert_ne|].
  apply bm_insert_values; [done|]. destruct (bm_get (fd_name f) m) as [per0|] eqn:E; simpl; [|constructor].
  by apply Hm.
Qed.

Lemma add_field_keys vpath m f n :
  n ∈ bm_keys (add_field vpath m f) <-> n = fd_name f \/ n ∈ bm_keys m.
Proof. apply bm_insert_keys. Qed.

Lemma field_files_spec views :
  columns_ok (field_files views) /\
  forall n, n ∈ bm_keys (field_files views) <-> exists v f, v ∈ views /\ f ∈ view_fields v /\ fd_name f = n.
Proof.
  unfold field_files.
  assert (forall fs vp m, columns_ok m -> columns_ok (fold_left (add_field vp) fs m) /\
    forall n, n ∈ bm_keys (fold_left (add_field vp) fs m) <->
      (exists f, f ∈ fs /\ fd_name f = n) \/ n ∈ bm_keys m) as Hin.
  { induction fs as [|f fs IH]; simpl; intros vp m Hm; [split; [done|set_solver]|].
    destruct (IH vp _ (add_field_ok vp m f Hm)) as [Hok Hk]. split; [done|]. intros n. rewrite Hk, add_field_keys.
    set_solver. }
  assert (forall vs m, columns_ok m ->
    columns_ok (fold_left (fun m v => fold_left (add_field (view_path v)) (view_fields v) m) vs m) /\
    forall n, n ∈ bm_keys (fold_left (fun m v => fold_left (add_field (view_path v)) (view_fields v) m) vs m)
      <-> (exists v f, v ∈ vs /\ f ∈ view_fields v /\ fd_name f = n) \/ n ∈ bm_keys m) as Hall.
  { induction vs as [|v vs IH]; simpl; intros m Hm; [split; [done|set_solver]|].
    destruct (Hin (view_fields v) (view_path v) m Hm) as [Hok Hk].
    destruct (IH _ Hok) as [Hok' Hk']. split; [done|]. intros n. rewrite Hk', Hk. set_solver. }
  destruct (Hall views []) as [Hok Hk]; [split; [constructor|done]|]. split; [done|].
  intros n. rewrite Hk. set_solver.
Qed.

Lemma columns_entry m n per : columns_ok m -> (n, per) ∈ m ->
  bm_values per <> [] /\ Forall (fun v => fd_name v = n) (bm_values per).
Proof.
  intros [Hwf Hm] Hin. apply bm_get_of_nodup in Hin; [|by apply bm_wf_nodup].
  destruct (Hm _ _ Hin) as [Hne Hall]. split; [|done]. by destruct per.
Qed.

Lemma columns_nonempty m : columns_ok m -> filter (fun c => bm_values (snd c) <> []) m = m.
Proof.
  intros Hok. assert (Forall (fun c => bm_values (snd c) <> []) m) as Hall.
  { apply Forall_forall. intros [n per] Hin. by apply (columns_entry m n). }
  clear Hok. induction Hall as [|c m Hc Hall IH]; [done|]. rewrite filter_cons_True by done. by rewrite IH.
Qed.

Lemma canonical_names policy m : columns_ok m ->
  map fd_name (map (fun c => pick_canonical_field (bm_values (snd c)) policy) m) = bm_keys m.
Proof.
  intros Hok. rewrite map_map. apply map_ext_in. intros [n per] Hin. apply list_elem_of_In in Hin. simpl.
  destruct (columns_entry m n per Hok Hin). by apply pick_canonical_name.
Qed.

Lemma map_sort_names l : map fd_name (sort_by name_leb l) ≡ₚ map fd_name l.
Proof. apply (fmap_Permutation fd_name). apply sort_by_perm. Qed.

Lemma sorted_names l : Sorted String.le (map fd_name (sort_by name_leb l)).
Proof.
  assert (Sorted (fun a b => name_leb a b = true) (sort_by name_leb l)) as Hs.
  { apply sort_by_sorted. intros x y. unfold name_leb, str_leb. rewrite !bool_decide_eq_true.
    apply (total String.le). }
  induction Hs as [|x l' Hs IH Hh]; simpl; [constructor|]. constructor; [done|].
  destruct Hh as [|y l'' Hxy]; simpl; constructor. unfold name_leb, str_leb in Hxy.
  by apply bool_decide_eq_true in Hxy.
Qed.

Lemma wf_sorted_le (l : list string) : StronglySorted str_lt l -> Sorted String.le l.
Proof.
  induction 1 as [|x l Hs IH Hall]; constructor; [done|]. destruct Hall as [|y l [Hle _] _]; by constructor.
Qed.

(** The canonical schema has exactly one field per column name that occurs
    in some file, in strictly increasing order of names. *)
Theorem canonical_schema_columns views policy :
  StronglySorted str_lt (map fd_name (canonical_schema (compute_schema_diff views policy)))
  /\ forall n, n ∈ map fd_name (canonical_schema (compute_schema_diff views policy))
       <-> exists v f, v ∈ views /\ f ∈ view_fields v /\ fd_name f = n.
Proof.
  destruct (field_files_spec views) as [Hok Hkeys].
  assert (map fd_name (canonical_schema (compute_schema_diff views policy)) = bm_keys (field_files views)) as ->.
  { unfold compute_schema_diff. cbn [canonical_schema]. rewrite columns_nonempty by done.
    apply (Sorted_unique String.le); [apply sorted_names|apply wf_sorted_le, Hok|].
    rewrite map_sort_names. by rewrite canonical_names. }
  split; [apply Hok|done].
Qed.

(** ** Conflicts *)

Definition convertible (policy : SchemaPolicy) (a b : FieldDescriptor) : Prop :=
  classify_fields policy a b = Lossless \/ classify_fields policy a b = ConditionallyLossless.

Lemma same_variant_lossless policy a b :
  same_variant a b = true -> classify_fields policy a b = Lossless.
Proof.
  unfold same_variant, variant_key. intros Hs. apply bool_decide_eq_true in Hs. simplify_eq.
  unfold classify_fields, classify_conversion, classify_conversion_flags. rewrite H, H0.
  rewrite bool_decide_eq_true_2 by done. by rewrite eqb_reflx.
Qed.

Lemma classify_variant policy a a' b : variant_key a = variant_key a' ->
  classify_fields policy a b = classify_fields policy a' b.
Proof. unfold variant_key, classify_fields. intros [= -> ->]. done. Qed.

Lemma not_conflict_convertible policy name vs d :
  field_difference policy name vs = Some d -> is_conflict d = false ->
  exists from, diff_left d = Some from /\ diff_right d = Some (pick_canonical_field vs policy) /\
    convertible policy from (pick_canonical_field vs policy).
Proof.
  unfold field_difference, is_conflict, convertible. destruct vs as [|v vs]; [done|].
  repeat case_match; intros [= <-]; simpl; intros Hc; (eexists; split_and!; [done..|]);
    destruct (classify_fields _ _ _); auto; done.
Qed.

Lemma distinct_one vs a b : (distinct_variants vs =? 1) = true -> a ∈ vs -> b ∈ vs -> same_variant a b = true.
Proof.
  unfold distinct_variants. intros H1 Ha Hb. apply Nat.eqb_eq in H1.
  apply bool_decide_eq_true.
  assert (forall x, x ∈ vs -> variant_key x ∈ remove_dups (map variant_key vs)) as Hin.
  { intros x Hx. apply elem_of_remove_dups. by apply list_elem_of_fmap_2. }
  pose proof (Hin a Ha) as Ha'. pose proof (Hin b Hb) as Hb'.
  destruct (remove_dups (map variant_key vs)) as [|k [|k' l]]; [done| |done]. set_solver.
Qed.

Lemma field_difference_some policy name vs v :
  vs <> [] -> v ∈ vs -> same_variant v (pick_canonical_field vs policy) = false ->
  pick_canonical_field vs policy ∈ vs ->
  fd_physical_type v <> fd_physical_type (pick_canonical_field vs policy) ->
  Forall (fun x => fd_nullable x = fd_nullable v) vs ->
  exists d from, field_difference policy name vs = Some d /\ diff_left d = Some from /\ from ∈ vs
    /\ same_variant from (pick_canonical_field vs policy) = false
    /\ compatibility d = classify_fields policy from (pick_canonical_field vs policy).
Proof.
  intros Hne Hv Hs Hc Ht Hall. set (c := pick_canonical_field vs policy) in *.
  destruct (list_find_elem_of (fun x => same_variant x c = false) vs v Hv Hs) as [[i from] Hf].
  assert (Hf' := Hf). apply list_find_Some in Hf as (Hi & Hfs & _).
  apply list_elem_of_lookup_2 in Hi. rewrite Forall_forall in Hall.
  assert (fd_physical_type from <> fd_physical_type c) as Hft.
  { intros He. unfold same_variant, variant_key in Hfs. apply bool_decide_eq_false in Hfs.
    apply Hfs. by rewrite He, (Hall from Hi), (Hall c Hc). }
  unfold field_difference. fold c. destruct vs as [|v0 vs0] eqn:Evs; [done|]. rewrite <- Evs in *.
  destruct (distinct_variants vs =? 1) eqn:E1.
  { by rewrite (distinct_one vs v c E1 Hv Hc) in Hs. }
  rewrite Hf'. simpl. rewrite (bool_decide_eq_false_2 (fd_physical_type from = _)) by done. simpl.
  destruct (bool_decide (classify_fields policy from c = CompatUnsupported));
    eexists _, from; split_and!; done.
Qed.

(** Where every file agrees on a column's nullability and at most two types
    occur, a column without a reported conflict can be converted in every file
    without loss to the canonical field. *)
Theorem two_type_column_resolved policy name vs t1 t2 nb :
  vs <> [] ->
  Forall (fun v => fd_nullable v = nb /\ (fd_physical_type v = t1 \/ fd_physical_type v = t2)) vs ->
  (forall d, field_difference policy name vs = Some d -> is_conflict d = false) ->
  Forall (fun v => convertible policy v (pick_canonical_field vs policy)) vs.
Proof.
  intros Hne Hall Hok. rewrite Forall_forall in Hall. apply Forall_forall. intros v Hv.
  assert (Hnull : Forall (fun v => fd_nullable v = nb) vs) by (apply Forall_forall; intros; by apply Hall).
  pose proof (pick_canonical_variant policy vs nb Hne Hnull) as Hc.
  set (c := pick_canonical_field vs policy) in *.
  destruct (same_variant v c) eqn:Hs; [left; by apply same_variant_lossless|].
  assert (forall x, x ∈ vs -> same_variant x c = false -> fd_physical_type x <> fd_physical_type c) as Hty.
  { intros x Hx Hsx He. apply bool_decide_eq_false in Hsx. apply Hsx. unfold variant_key.
    rewrite He. f_equal. by rewrite (proj1 (Hall x Hx)), (proj1 (Hall c Hc)). }
  destruct (field_difference_some policy name vs v) as (d & from & Hd & Hl & Hfrom & Hfs & Hcomp);
    [done..|by apply Hty| |].
  { apply Forall_forall. intros x Hx. by rewrite (proj1 (Hall x Hx)), (proj1 (Hall v Hv)). }
  destruct (not_conflict_convertible _ _ _ _ Hd (Hok d Hd)) as (from' & Hl' & _ & Hconv).
  assert (from' = from) as -> by congruence.
  assert (variant_key v = variant_key from) as Hkey.
  { unfold variant_key. destruct (Hall v Hv) as [Hnv Htv], (Hall from Hfrom) as [Hnf Htf], (Hall c Hc) as [_ Htc].
    pose proof (Hty v Hv Hs). pose proof (Hty from Hfrom Hfs). f_equal; [|congruence].
    destruct Htv, Htf, Htc; congruence. }
  unfold convertible. by rewrite !(classify_variant policy v from) by done.
Qed.

Definition ex_field (ty : string) (nullable : bool) : FieldDescriptor :=
  {| fd_name := "id"; fd_physical_type := ty; fd_nullable := nullable |}.
Definition ex_view (file ty : string) (nullable : bool) : FileSchemaView :=
  {| view_path := file; view_fields := [ex_field ty nullable] |}.

Lemma two_type_column_resolved_witness :
  Forall (fun v => convertible SchemaPolicy_default v (ex_field "INT64" false))
    [ex_field "INT32" false; ex_field "INT64" false].
Proof.
  apply (two_type_column_resolved SchemaPolicy_default "id"
           [ex_field "INT32" false; ex_field "INT64" false] "INT32" "INT64" false); [done| |].
  - by apply Forall_cons; split; [split; [|left]|apply Forall_singleton; split; [|right]].
  - intros d Hd. vm_compute in Hd. by injection Hd as <-.
Defined.

(** A type conflict is missed when the files also differ in nullability: an
    [INT32 NOT NULL] column in one file and a nullable [STRING] column in another
    resolve, with no conflict, to a nullable [INT32], though the string values
    have no conversion to it. *)
Theorem nullability_hides_type_conflict :
  let views := [ex_view "a.parquet" "INT32" false; ex_view "b.parquet" "STRING" true] in
  let r := resolve_canonical_schema views None SchemaPolicy_default in
  res_conflicts r = [] /\ res_target_schema r = Some [ex_field "INT32" true]
  /\ classify_fields SchemaPolicy_default (ex_field "STRING" true) (ex_field "INT32" true)
     = CompatUnsupported.
Proof. vm_compute. done. Qed.
