(* ===== verification/RepairPlan.v ===== *)
(** The data of a repair plan: JSON values and stable ids (stable_id.rs,
    paraclete-types/src/fingerprint.rs), safety classes (safety.rs), actions
    (action.rs), authorization (authorization.rs), policies (policy.rs,
    schema_policy.rs), dataset fingerprints (fingerprint.rs) and plans (plan.rs)
    of src/crates/parqonaut-repair/src.

    Instants are seconds; UUIDs are strings. *)

From Stdlib Require Import Ascii Strings.Byte.
From S2P Require Import Prelude BTree Location Errors Schema.

(** * JSON values and stable identifiers *)

Inductive json :=
| JNull
| JBool (b : bool)
| JNum (z : Z)
| JStr (s : string)
| JArr (l : list json)
| JObj (members : list (string * json)).

(** [sort_json_value]: object members by key, recursively. *)
Fixpoint sort_json_value (v : json) : json :=
  match v with
  | JObj members => JObj (bm_of_list (map (fun kv => (fst kv, sort_json_value (snd kv))) members))
  | JArr items => JArr (map sort_json_value items)
  | other => other
  end.

(** [serde_json::to_string] and [Sha256] (third party) are parameters. *)
Class Digests := {
  json_to_string : json -> string;
  sha256 : string -> list byte;
}.

Definition hex_digit (n : N) : ascii :=
  Ascii.ascii_of_N (if (n <? 10)%N then 48 + n else 87 + n).
Definition hex_byte (b : byte) : string :=
  let n := Byte.to_N b in
  String (hex_digit (n / 16)) (String (hex_digit (n mod 16)) EmptyString).
Definition hex_encode (l : list byte) : string := fold_right (fun b s => hex_byte b +:+ s) EmptyString l.

Definition nul : string := String (Ascii.ascii_of_N 0) EmptyString.

Section Ids.
Context `{Digests}.

Definition stable_hex_id (prefix canonical : string) : string :=
  prefix +:+ "-" +:+ hex_encode (take 8 (sha256 (prefix +:+ nul +:+ canonical))).

Definition canonical_json (v : json) : string := json_to_string (sort_json_value v).
End Ids.

(** * Safety *)

Inductive RepairSafety := Safe | ReviewRequired | Destructive | Blocked.

#[global] Instance RepairSafety_eq_dec : EqDecision RepairSafety.
Proof. solve_decision. Defined.

Definition is_auto_executable (s : RepairSafety) : bool := match s with Safe => true | _ => false end.
Definition requires_explicit_authorization (s : RepairSafety) : bool :=
  match s with ReviewRequired => true | _ => false end.

(** * Actions *)

Record EvidenceRef := {
  finding_id : string;
  evidence_summary : string;
  payload : option json;
}.

Record Precondition := { pre_kind : string; description : string }.

Record ExpectedOutcome := { metric : string; before : json; after_expected : json }.

Inductive RepairAction :=
| Recompress (codec : string) (target_paths : list string)
| RebuildStatistics (target_paths : list string)
| ResizeRowGroups (target_bytes : Z) (target_paths : list string)
| MergeSmallFiles (target_bytes : Z) (input_paths : list string)
| SplitLargeFile (target_bytes : Z) (input_path : string)
| AlignSchema (field from_type to_type : string)
| CastColumn (column from_type to_type : string)
| RenameColumn (from to : string)
| Repartition (strategy : string).

#[global] Instance RepairAction_eq_dec : EqDecision RepairAction.
Proof. solve_decision. Defined.

Definition kind_label (a : RepairAction) : string :=
  match a with
  | Recompress _ _ => "recompress"
  | RebuildStatistics _ => "rebuild_statistics"
  | ResizeRowGroups _ _ => "resize_row_groups"
  | MergeSmallFiles _ _ => "merge_small_files"
  | SplitLargeFile _ _ => "split_large_file"
  | AlignSchema _ _ _ => "align_schema"
  | CastColumn _ _ _ => "cast_column"
  | RenameColumn _ _ => "rename_column"
  | Repartition _ => "repartition"
  end.

Definition default_safety (a : RepairAction) : RepairSafety :=
  match a with
  | Recompress _ _ | RebuildStatistics _ | ResizeRowGroups _ _ | MergeSmallFiles _ _
  | SplitLargeFile _ _ => Safe
  | AlignSchema _ _ _ | CastColumn _ _ _ | RenameColumn _ _ | Repartition _ => ReviewRequired
  end.

(** * Authorization *)

Inductive AuthorizationSource := AutomaticSafePolicy | ExplicitUser | NotAuthorized | BlockedByPolicy.

#[global] Instance AuthorizationSource_eq_dec : EqDecision AuthorizationSource.
Proof. solve_decision. Defined.

Record OperationAuditContext := {
  ctx_plan_id : string;
  ctx_dataset_fingerprint : string;
  ctx_policy_fingerprint : string;
  ctx_executor_version : string;
}.

Record OperationAuditRecord := {
  audit_operation_id : string;
  audit_plan_id : string;
  audit_dataset_fingerprint : string;
  audit_policy_fingerprint : string;
  audit_executor_version : string;
  audit_safety : RepairSafety;
  authorization_source : AuthorizationSource;
  authorization_time : Z;
  executed : bool;
  skip_reason : option string;
}.

Definition audit_new (ctx : OperationAuditContext) (operation_id : string) (safety : RepairSafety)
    (source : AuthorizationSource) (time : Z) (executed : bool) (skip_reason : option string)
    : OperationAuditRecord :=
  {| audit_operation_id := operation_id; audit_plan_id := ctx_plan_id ctx;
     audit_dataset_fingerprint := ctx_dataset_fingerprint ctx;
     audit_policy_fingerprint := ctx_policy_fingerprint ctx;
     audit_executor_version := ctx_executor_version ctx; audit_safety := safety;
     authorization_source := source; authorization_time := time; executed := executed;
     skip_reason := skip_reason |}.

Record RepairAuthorization := { authorized_operation_ids : bset }.

Definition auth_from_ids (ids : list string) : RepairAuthorization :=
  {| authorized_operation_ids := bs_of_list ids |}.

Definition is_authorized (a : RepairAuthorization) (operation_id : string) : bool :=
  bm_contains operation_id (authorized_operation_ids a).

Definition resolve (a : RepairAuthorization) (operation_id : string) (safety : RepairSafety)
    : Result RepairError AuthorizationSource :=
  match safety with
  | Safe => Ok AutomaticSafePolicy
  | ReviewRequired =>
      if is_authorized a operation_id then Ok ExplicitUser
      else Err (ReviewRequiredNotAuthorized operation_id)
  | Destructive => Err (DestructiveNotAllowed operation_id)
  | Blocked => Err (UnsupportedOperation operation_id "blocked")
  end.

(** * Policies *)

Record RepairPolicy := {
  default_compression : string;
  target_row_group_mb : Z;
  small_file_threshold_mb : Z;
  merge_target_mb : Z;
  min_files_for_merge : nat;
  min_codecs_for_inconsistency : nat;
}.

Definition RepairPolicy_default : RepairPolicy := {|
  default_compression := "zstd"; target_row_group_mb := 128; small_file_threshold_mb := 16;
  merge_target_mb := 256; min_files_for_merge := 4; min_codecs_for_inconsistency := 2 |}.

(** [mb * 1024 * 1024] in [u64] (wrapping in release builds). *)
Definition mib (mb : Z) : Z := wrap_u64 (wrap_u64 (mb * 1024) * 1024).

Definition small_file_threshold_bytes (p : RepairPolicy) : Z := mib (small_file_threshold_mb p).
Definition merge_target_bytes (p : RepairPolicy) : Z := mib (merge_target_mb p).
Definition target_row_group_bytes (p : RepairPolicy) : Z := mib (target_row_group_mb p).

Record FilePolicy := { max_file_mb : Z; split_target_mb : Z }.
Definition FilePolicy_default : FilePolicy := {| max_file_mb := 1024; split_target_mb := 512 |}.
Definition max_file_bytes (p : FilePolicy) : Z := mib (max_file_mb p).
Definition split_target_bytes (p : FilePolicy) : Z := mib (split_target_mb p).

Record CiPolicy := {
  fail_on_safe_findings : bool;
  fail_on_review_required : bool;
  fail_on_destructive : bool;
  fail_on_unresolvable_schema : bool;
}.
Definition CiPolicy_default : CiPolicy := {|
  fail_on_safe_findings := false; fail_on_review_required := true; fail_on_destructive := true;
  fail_on_unresolvable_schema := true |}.

Record EffectivePolicy := {
  policy_repair : RepairPolicy;
  policy_schema : SchemaPolicy;
  policy_files : FilePolicy;
  policy_ci : option CiPolicy;
}.
Definition EffectivePolicy_default : EffectivePolicy := {|
  policy_repair := RepairPolicy_default; policy_schema := SchemaPolicy_default;
  policy_files := FilePolicy_default; policy_ci := None |}.

(** * Fingerprints *)

Record FingerprintEntry := {
  fe_relative_path : string;
  fe_size_bytes : Z;
  fe_num_rows : Z;
  fe_num_row_groups : nat;
  fe_schema_signature : string;
  fe_compression_codecs : list string;
}.

Record DatasetFingerprint := {
  fp_version : Z;
  fp_root : string;
  fp_entries : list FingerprintEntry;
  digest : string;
}.

Definition verify_against (self current : DatasetFingerprint) : Result RepairError unit :=
  if negb (bool_decide (digest self = digest current))
  then Err (DatasetChanged (digest self) (digest current))
  else Ok tt.

(** * Findings *)

Inductive FindingSeverity := Info | Low | Medium | High | Critical.

(** [paraclete_types::Finding] without category, evidence kinds, recommendations
    and its own digest: [find_payloads] are the payloads of its evidence,
    [find_locations] the files of its locations. *)
Record Finding := {
  find_id : string;
  find_code : string;
  find_severity : FindingSeverity;
  find_summary : string;
  find_detail : string;
  find_payloads : list (option json);
  find_locations : list (option string);
}.

(** * Plans *)

Definition PLAN_SCHEMA_VERSION : Z := 1.

Record RepairOperation := {
  operation_id : string;
  finding_ids : list string;
  safety : RepairSafety;
  action : RepairAction;
  rationale : string;
  evidence : list EvidenceRef;
  preconditions : list Precondition;
  depends_on : list string;
}.

Record RepairPlan := {
  plan_schema_version : Z;
  plan_id : string;
  plan_parqonaut_version : string;
  dataset_root : string;
  dataset_fingerprint : DatasetFingerprint;
  policy_fingerprint : string;
  generated_at : Z;
  source_scan_id : string;
  policy : EffectivePolicy;
  operations : list RepairOperation;
  expected_outcomes : list ExpectedOutcome;
  diagnosis_findings : list Finding;
  schema_diff : option SchemaDiff;
  schema_conflicts : option (list UnresolvableSchemaConflict);
  target_schema : option (list FieldDescriptor);
}.

Definition plan_validate_version (p : RepairPlan) : Result RepairError unit :=
  if negb (bool_decide (plan_schema_version p = PLAN_SCHEMA_VERSION))
  then Err (RepairUnsupportedPlanVersion (plan_schema_version p) PLAN_SCHEMA_VERSION)
  else Ok tt.

Definition safe_operations (p : RepairPlan) : list RepairOperation :=
  filter (fun o => safety o = Safe) (operations p).

Definition set_depends_on (deps : list string) (o : RepairOperation) : RepairOperation :=
  {| operation_id := operation_id o; finding_ids := finding_ids o; safety := safety o;
     action := action o; rationale := rationale o; evidence := evidence o;
     preconditions := preconditions o; depends_on := deps |}.
