(* ===== verification/DepsProofs.v ===== *)
(** The execution order of repair operations: the topological sort never
    panics, its result is a permutation in which dependencies come first, and
    plans with assigned dependencies and distinct ids are never rejected. *)

From stdpp Require Import sorting.
From S2P Require Import Prelude BTree Errors RepairPlan Deps.

Definition cnt (x : string) (l : list string) : nat := length (filter (fun y => y = x) l).

Lemma cnt_cons x y l : cnt x (y :: l) = (if decide (y = x) then 1 else 0) + cnt x l.
Proof. unfold cnt. rewrite filter_cons. by case_decide. Qed.

Lemma cnt_app x l l' : cnt x (l ++ l') = cnt x l + cnt x l'.
Proof. unfold cnt. by rewrite filter_app, length_app. Qed.

Lemma cnt_pos x l : 0 < cnt x l <-> x ∈ l.
Proof.
  induction l as [|y l IH]; [cbn; split; [lia|set_solver]|]. rewrite cnt_cons, elem_of_cons.
  case_decide; split; intros; [by left|lia|right; apply IH; lia|].
  destruct H0 as [->|Hx]; [done|]. apply IH in Hx. lia.
Qed.

(** * The index *)

Definition children (m : bmap (list string)) (x : string) : list string := default [] (bm_get x m).

Lemma children_add id m dep x c :
  cnt c (children (add_dependent id m dep) x)
  = cnt c (children m x) + (if decide (id = c) then if decide (dep = x) then 1 else 0 else 0).
Proof.
  unfold children, add_dependent. rewrite bm_get_insert.
  destruct (decide (x = dep)) as [->|Hne]; simpl.
  - rewrite cnt_app, cnt_cons. change (cnt c []) with 0. repeat case_decide; simplify_eq; lia.
  - repeat case_decide; simplify_eq; lia.
Qed.

(** Number of edges from [x] to [c] among [ops]. *)
Fixpoint edges (ops : list RepairOperation) (x c : string) : nat :=
  match ops with
  | [] => 0
  | o :: rest => (if decide (operation_id o = c) then cnt x (depends_on o) else 0) + edges rest x c
  end.

Lemma edges_app l l' x c : edges (l ++ l') x c = edges l x c + edges l' x c.
Proof. induction l as [|o l IH]; simpl; [done|]. rewrite IH. lia. Qed.

Lemma edges_nodup ops o x :
  NoDup (map operation_id ops) -> o ∈ ops -> edges ops x (operation_id o) = cnt x (depends_on o).
Proof.
  induction ops as [|o' ops IH]; simpl; [set_solver|]. inversion 1 as [|? ? Hni Hnd]; subst.
  assert (forall l, operation_id o ∉ map operation_id l -> edges l x (operation_id o) = 0) as Hz.
  { induction l as [|p l IHl]; simpl; [done|]. intros Hn. rewrite decide_False by set_solver.
    apply IHl. set_solver. }
  intros [->|Hin]%elem_of_cons; [rewrite decide_True by done; rewrite Hz by done; lia|].
  rewrite decide_False; [by apply IH|]. intros He. apply Hni. rewrite He.
  apply list_elem_of_In, in_map. by apply list_elem_of_In.
Qed.

Record index_ok (ops : list RepairOperation) (indegree : bmap nat) (dependents : bmap (list string)) := {
  ix_wf : bm_wf indegree;
  ix_keys : forall k, k ∈ bm_keys indegree <-> k ∈ map operation_id ops;
  ix_children : forall x c, cnt c (children dependents x) = edges ops x c;
}.

Lemma index_ops_cons ids op rest indegree dependents :
  index_ops ids (op :: rest) indegree dependents =
    (m ← add_deps ids (operation_id op) (depends_on op) dependents;
     index_ops ids rest (bm_insert (operation_id op) (length (depends_on op)) indegree) m).
Proof. done. Qed.

Lemma add_deps_ok ids id deps m m' : add_deps ids id deps m = Ok m' ->
  (forall d, d ∈ deps -> bm_contains d ids = true) /\
  forall x c, cnt c (children m' x) = cnt c (children m x) + (if decide (id = c) then cnt x deps else 0).
Proof.
  revert m. induction deps as [|d deps IH]; simpl; intros m.
  - intros [= <-]. split; [set_solver|]. intros x c. change (cnt x []) with 0. case_decide; lia.
  - destruct (bm_contains d ids) eqn:Ed; [|done]. simpl. intros [Hin Hc]%IH. split; [set_solver|].
    intros x c. rewrite Hc, children_add, cnt_cons. repeat case_decide; lia.
Qed.

Lemma add_deps_total ids id deps m : (forall d, d ∈ deps -> bm_contains d ids = true) ->
  exists m', add_deps ids id deps m = Ok m'.
Proof.
  revert m. induction deps as [|d deps IH]; simpl; intros m Hd; [eauto|].
  rewrite (Hd d) by set_solver. simpl. apply IH. set_solver.
Qed.

Lemma index_ops_ok ids done ops indegree dependents r :
  NoDup (map operation_id (done ++ ops)) -> index_ok done indegree dependents ->
  (forall o, o ∈ done -> bm_get (operation_id o) indegree = Some (length (depends_on o))) ->
  index_ops ids ops indegree dependents = Ok r ->
  index_ok (done ++ ops) r.1 r.2 /\
  (forall o, o ∈ done ++ ops -> bm_get (operation_id o) r.1 = Some (length (depends_on o))) /\
  (forall o d, o ∈ ops -> d ∈ depends_on o -> bm_contains d ids = true).
Proof.
  revert done indegree dependents. induction ops as [|o ops IH]; intros done indegree dependents Hnd Hix Hdeg.
  - intros [= <-]. rewrite app_nil_r. simpl. split_and!; [done..|set_solver].
  - rewrite index_ops_cons. intros (m & Hm & Hr)%bind_Ok. apply add_deps_ok in Hm as [Hin Hc].
    replace (done ++ o :: ops) with ((done ++ [o]) ++ ops) in * by by rewrite <- app_assoc.
    rewrite !map_app in Hnd. simpl in Hnd.
    edestruct (IH (done ++ [o])) as (H1 & H2 & H3);
      [by rewrite !map_app| | |exact Hr|split_and!; [done..|set_solver]].
    + split.
      * by apply bm_insert_wf, Hix.
      * intros k. rewrite bm_insert_keys, (ix_keys _ _ _ Hix), map_app. simpl. set_solver.
      * intros x c. rewrite Hc, (ix_children _ _ _ Hix), edges_app. simpl. lia.
    + intros o' Ho'. rewrite bm_get_insert. case_decide as He.
      * apply elem_of_app in Ho' as [Ho'|Ho']; [|set_solver].
        exfalso. apply NoDup_app in Hnd as (Hnd & _ & _). apply NoDup_app in Hnd as (_ & Hno & _).
        apply (Hno (operation_id o)); [|set_solver]. rewrite <- He. apply list_elem_of_In, in_map.
        by apply list_elem_of_In.
      * apply elem_of_app in Ho' as [Ho'|Ho']; [by apply Hdeg|set_solver].
Qed.

(** * Releasing children *)

Lemma release_children_ok cs indegree ready :
  bm_wf indegree ->
  (forall c, c ∈ cs -> exists n, bm_get c indegree = Some n /\ cnt c cs <= n) ->
  exists indegree' fresh, release_children cs indegree ready = Some (indegree', ready ++ fresh)
    /\ bm_wf indegree'
    /\ (forall k, bm_get k indegree' = (fun n => n - cnt k cs) <$> bm_get k indegree)
    /\ NoDup fresh
    /\ (forall k, k ∈ fresh <-> k ∈ cs /\ bm_get k indegree = Some (cnt k cs)).
Proof.
  revert indegree ready. induction cs as [|c cs IH]; simpl; intros indegree ready Hwf Hcs.
  - exists indegree, []. rewrite app_nil_r. split_and!; [done..| |constructor|set_solver].
    intros k. change (cnt k []) with 0. destruct (bm_get k indegree); simpl; [f_equal; lia|done].
  - destruct (Hcs c) as (n & Hn & Hle); [set_solver|]. rewrite cnt_cons, decide_True in Hle by done.
    destruct n as [|n]; [lia|]. rewrite Hn.
    destruct (IH (bm_insert c n indegree) (if n =? 0 then ready ++ [c] else ready))
      as (ind' & fresh & -> & Hwf' & Hget & Hnd & Hfresh); [by apply bm_insert_wf| |].
    { intros k Hk. destruct (Hcs k) as (nk & Hnk & Hlek); [set_solver|]. rewrite cnt_cons in Hlek.
      rewrite bm_get_insert. destruct (decide (k = c)) as [->|E]; [exists n; split; [done|lia]|].
      rewrite decide_False in Hlek by done. eauto. }
    assert (forall k, bm_get k ind' = (fun m => m - cnt k (c :: cs)) <$> bm_get k indegree) as Hget'.
    { intros k. rewrite Hget, bm_get_insert, cnt_cons. destruct (decide (k = c)) as [->|E].
      - rewrite decide_True by done. rewrite Hn. simpl. done.
      - by rewrite decide_False by done. }
    destruct (n =? 0) eqn:E0.
    + apply Nat.eqb_eq in E0. subst n. exists ind', (c :: fresh). rewrite <- app_assoc.
      assert (cnt c cs = 0) as Hc0 by lia.
      assert (c ∉ cs) as Hcn by (intros ?%cnt_pos; lia).
      split_and!; [done..| |].
      * constructor; [|done]. rewrite Hfresh. by intros [? _].
      * intros k. rewrite elem_of_cons, Hfresh, bm_get_insert, cnt_cons. split.
        -- intros [->|[Hk Hgk]]; [split; [set_solver|]; rewrite decide_True by done; rewrite Hc0; done|].
           case_decide; [subst; done|]. rewrite decide_False by done. split; [set_solver|done].
        -- intros [[->|Hk]%elem_of_cons Hgk]; [by left|]. destruct (decide (k = c)) as [->|]; [by left|].
           right. split; [done|]. by rewrite decide_False in Hgk by done.
    + apply Nat.eqb_neq in E0. exists ind', fresh. split_and!; [done..|].
      intros k. rewrite Hfresh, bm_get_insert, cnt_cons. split.
      * intros [Hk Hgk]. split; [set_solver|]. case_decide; [|by rewrite decide_False by done].
        subst k. rewrite decide_True by done. simplify_eq. by rewrite Hn.
      * intros [Hk Hgk]. destruct (decide (k = c)) as [->|Hne].
        -- rewrite decide_True in Hgk by done. rewrite Hn in Hgk. assert (n = cnt c cs) by (simplify_eq; lia).
           split; [|congruence]. apply cnt_pos. lia.
        -- rewrite decide_False in Hgk by done. split; [set_solver|done].
Qed.

(** The ids with no dependencies. *)
Lemma zero_keys_get (m : bmap nat) : bm_wf m ->
  forall k, k ∈ map fst (filter (fun kd => snd kd = 0) m) <-> bm_get k m = Some 0.
Proof.
  intros Hwf k. rewrite list_elem_of_In, in_map_iff. split.
  - intros ([k' n] & <- & Hf). apply list_elem_of_In, list_elem_of_filter in Hf as [Hz Hf]. simpl in *. subst.
    by apply bm_get_of_nodup; [apply bm_wf_nodup|].
  - intros Hg. exists (k, 0). split; [done|]. apply list_elem_of_In, list_elem_of_filter. split; [done|].
    by apply bm_get_elem.
Qed.

Lemma zero_keys_nodup (m : bmap nat) : bm_wf m -> NoDup (map fst (filter (fun kd => snd kd = 0) m)).
Proof.
  intros Hwf%bm_wf_nodup. unfold bm_keys in Hwf. induction m as [|[k n] m IH]; [constructor|].
  simpl in Hwf. inversion Hwf as [|? ? Hni Hnd]; subst. rewrite filter_cons.
  case_decide; simpl; [|by apply IH]. constructor; [|by apply IH].
  intros Hi. apply Hni. rewrite list_elem_of_In, in_map_iff in *. destruct Hi as (x & ? & Hx).
  exists x. split; [done|]. by apply list_elem_of_In, list_elem_of_filter, proj2, list_elem_of_In in Hx.
Qed.

(** * The main loop *)

Section Kahn.
Context (ops : list RepairOperation) (dependents : bmap (list string)).
Hypothesis ids_nodup : NoDup (map operation_id ops).
Hypothesis dependents_ok : forall x c, cnt c (children dependents x) = edges ops x c.
Hypothesis deps_known : forall o d, o ∈ ops -> d ∈ depends_on o -> d ∈ map operation_id ops.

Definition op_map : bmap RepairOperation := bm_of_list (map (fun o => (operation_id o, o)) ops).

(** Dependencies of [o] that are not sorted yet. *)
Definition missing (sorted : list RepairOperation) (o : RepairOperation) : list string :=
  filter (fun d => d ∉ map operation_id sorted) (depends_on o).

(** In [sorted] every dependency of an operation comes before it. *)
Definition respects (sorted : list RepairOperation) : Prop :=
  forall l1 o l2, sorted = l1 ++ o :: l2 -> forall d, d ∈ depends_on o -> d ∈ map operation_id l1.

Record kahn_inv (indegree : bmap nat) (ready : list string) (sorted : list RepairOperation) : Prop := {
  k_wf : bm_wf indegree;
  k_nodup : NoDup (map operation_id sorted ++ ready);
  k_sorted : forall o, o ∈ sorted -> o ∈ ops;
  k_degree : forall o, o ∈ ops -> bm_get (operation_id o) indegree = Some (length (missing sorted o));
  k_ready : forall o, o ∈ ops -> operation_id o ∉ map operation_id sorted ->
    (operation_id o ∈ ready <-> missing sorted o = []);
  k_ready_ids : forall x, x ∈ ready -> x ∈ map operation_id ops;
  k_respects : respects sorted;
}.

Lemma elem_id x (l : list RepairOperation) : x ∈ map operation_id l <-> exists o, o ∈ l /\ operation_id o = x.
Proof.
  rewrite list_elem_of_In, in_map_iff. setoid_rewrite list_elem_of_In. naive_solver.
Qed.

Lemma op_map_get o : o ∈ ops -> bm_get (operation_id o) op_map = Some o.
Proof.
  intros Ho. apply bm_of_list_get_nodup; [by rewrite map_map|].
  apply list_elem_of_In, in_map_iff. exists o. split; [done|]. by apply list_elem_of_In.
Qed.

Lemma same_id o o' : o ∈ ops -> o' ∈ ops -> operation_id o = operation_id o' -> o = o'.
Proof. intros Ho Ho' He. apply op_map_get in Ho, Ho'. rewrite He in Ho. congruence. Qed.

Lemma respects_missing sorted o : respects sorted -> o ∈ sorted -> missing sorted o = [].
Proof.
  intros Hr (l1 & l2 & ->)%list_elem_of_split. unfold missing.
  apply length_zero_iff_nil. destruct (length _) eqn:El; [done|]. exfalso.
  destruct (filter _ _) as [|d l] eqn:Ef; [done|].
  assert (d ∈ filter (fun d => d ∉ map operation_id (l1 ++ o :: l2)) (depends_on o)) as Hd
    by (rewrite Ef; set_solver).
  apply list_elem_of_filter in Hd as [Hd Hin]. apply Hd. rewrite map_app. apply elem_of_app. left.
  by apply (Hr l1 o l2).
Qed.

Lemma respects_snoc sorted op : respects sorted -> missing sorted op = [] -> respects (sorted ++ [op]).
Proof.
  intros Hr Hm l1 o l2 He d Hd. destruct l2 as [|x l2] using rev_ind.
  - apply app_inj_tail in He as [-> ->]. destruct (decide (d ∈ map operation_id l1)) as [|Hn]; [done|].
    assert (d ∈ missing l1 o) as Hin by by apply list_elem_of_filter. rewrite Hm in Hin. set_solver.
  - rewrite app_comm_cons, app_assoc in He. apply app_inj_tail in He as [-> _]. by apply (Hr l1 o l2).
Qed.

(** Sorting [x] removes its occurrences from what [o] misses. *)
Lemma missing_snoc sorted op o : operation_id op ∉ map operation_id sorted ->
  length (missing (sorted ++ [op]) o) = length (missing sorted o) - cnt (operation_id op) (depends_on o)
  /\ cnt (operation_id op) (depends_on o) <= length (missing sorted o).
Proof.
  intros Hn. unfold missing.
  assert (forall d, (d ∉ map operation_id (sorted ++ [op])) <-> (d ∉ map operation_id sorted) /\ d <> operation_id op)
    as Hsn by (intros d; rewrite map_app; simpl; set_solver).
  induction (depends_on o) as [|d l IH]; [done|]. rewrite cnt_cons, !filter_cons.
  destruct (decide (d = operation_id op)) as [->|Hd].
  - rewrite decide_False by (rewrite Hsn; naive_solver). rewrite decide_True by done. simpl. lia.
  - destruct (decide (d ∉ map operation_id sorted)) as [Hin|Hin].
    + rewrite decide_True by by rewrite Hsn. simpl. lia.
    + rewrite decide_False by (rewrite Hsn; naive_solver). simpl. lia.
Qed.

Lemma kahn_inv_perm indegree ready ready' sorted : ready ≡ₚ ready' ->
  kahn_inv indegree ready sorted -> kahn_inv indegree ready' sorted.
Proof.
  intros Hp [H1 H2 H3 H4 H5 H6 H7]. split; [done| |done|done| | |done].
  - by rewrite <- Hp.
  - intros o Ho Hn. rewrite <- H5 by done. by rewrite Hp.
  - intros x. rewrite <- Hp. apply H6.
Qed.

Lemma child_edge op o : o ∈ ops ->
  cnt (operation_id o) (children dependents (operation_id op)) = cnt (operation_id op) (depends_on o).
Proof. intros Ho. rewrite dependents_ok. by apply edges_nodup. Qed.

Lemma edges_pos x c l : 0 < edges l x c -> exists o, o ∈ l /\ operation_id o = c.
Proof.
  induction l as [|o l IH]; simpl; [lia|]. destruct (decide (operation_id o = c)) as [He|He]; [exists o; set_solver|].
  intros (o' & ? & ?)%IH. exists o'. set_solver.
Qed.

Lemma child_op x c : c ∈ children dependents x -> exists o, o ∈ ops /\ operation_id o = c.
Proof. intros Hc%cnt_pos. rewrite dependents_ok in Hc. by eapply edges_pos. Qed.

(** What one round releases: the operations that missed nothing but [op]. *)
Lemma release_round indegree ready sorted op :
  bm_wf indegree -> operation_id op ∉ map operation_id sorted ->
  (forall o, o ∈ ops -> bm_get (operation_id o) indegree = Some (length (missing sorted o))) ->
  exists indegree' fresh,
    release_children (children dependents (operation_id op)) indegree ready = Some (indegree', ready ++ fresh)
    /\ bm_wf indegree' /\ NoDup fresh /\ (forall x, x ∈ fresh -> x ∈ map operation_id ops)
    /\ (forall o, o ∈ ops -> bm_get (operation_id o) indegree' = Some (length (missing (sorted ++ [op]) o)))
    /\ (forall o, o ∈ ops -> operation_id o ∈ fresh <->
          missing sorted o <> [] /\ missing (sorted ++ [op]) o = []).
Proof.
  intros Hwf Hns Hdeg.
  destruct (release_children_ok (children dependents (operation_id op)) indegree ready Hwf)
    as (ind' & fresh & Hrel & Hwf' & Hget & Hndf & Hfresh).
  { intros c Hc. destruct (child_op _ c Hc) as (o & Ho & <-). exists (length (missing sorted o)).
    split; [by apply Hdeg|]. rewrite child_edge by done. by apply missing_snoc. }
  exists ind', fresh. split_and!; [done..| | |].
  - intros x [Hx _]%Hfresh. apply child_op in Hx. by apply elem_id.
  - intros o Ho. rewrite Hget, Hdeg by done. simpl. rewrite child_edge by done.
    by rewrite (proj1 (missing_snoc sorted op o Hns)).
  - intros o Ho. rewrite Hfresh, <- cnt_pos, child_edge, Hdeg by done.
    rewrite <- !length_zero_iff_nil. destruct (missing_snoc sorted op o Hns) as [-> Hle]. split.
    + intros [Hp [= He]]. lia.
    + intros [Hp He]. split; [lia|]. f_equal. lia.
Qed.

Lemma kahn_step indegree id ready sorted : kahn_inv indegree (id :: ready) sorted ->
  exists op indegree' fresh, op ∈ ops /\ operation_id op = id
    /\ release_children (children dependents id) indegree ready = Some (indegree', ready ++ fresh)
    /\ kahn_inv indegree' (ready ++ fresh) (sorted ++ [op]).
Proof.
  intros [Hwf Hnd Hso Hdeg Hrd Hrid Hres].
  destruct (proj1 (elem_id id ops)) as (op & Hop & <-); [apply Hrid; set_solver|].
  apply NoDup_app in Hnd as (Hnd1 & Hdis & Hnd2). inversion Hnd2 as [|? ? Hnr Hndr]; subst.
  assert (Hns : operation_id op ∉ map operation_id sorted) by (intros Hin; apply (Hdis _ Hin); set_solver).
  assert (Hm0 : missing sorted op = []) by (apply Hrd; [done..|set_solver]).
  destruct (release_round indegree ready sorted op Hwf Hns Hdeg)
    as (ind' & fresh & Hrel & Hwf' & Hndf & Hfid & Hdeg' & Hfr).
  assert (Hrm : forall o, o ∈ ops -> operation_id o ∈ operation_id op :: ready -> missing sorted o = []).
  { intros o Ho Hin. apply Hrd; [done| |done]. intros Hi. by apply (Hdis _ Hi). }
  exists op, ind', fresh. split_and!; [done..|]. split; [done| | |done| | |by apply respects_snoc].
  - rewrite map_app. simpl. rewrite <- app_assoc. apply NoDup_app. split_and!; [done| |].
    + intros x Hx. rewrite elem_of_app, list_elem_of_singleton, elem_of_app. intros [->|[Hin|Hin]]; [done| |].
      * apply (Hdis x Hx). set_solver.
      * apply elem_id in Hx as (o & Ho & <-). apply Hfr in Hin as [Hne _]; [|by apply Hso].
        by apply Hne, respects_missing.
    + simpl. constructor; [|apply NoDup_app; split_and!; [done| |done]].
      * rewrite elem_of_app. intros [Hin|Hin]; [done|]. by apply Hfr in Hin as [Hne _].
      * intros x Hx Hin. destruct (proj1 (elem_id x ops)) as (o & Ho & <-); [apply Hrid; set_solver|].
        apply Hfr in Hin as [Hne _]; [|done]. apply Hne, Hrm; [done|set_solver].
  - intros o [Ho| ->%list_elem_of_singleton]%elem_of_app; [by apply Hso|done].
  - intros o Ho Hn. rewrite map_app in Hn. simpl in Hn. rewrite elem_of_app, Hfr by done. split.
    + intros [Hin|[_ Hlen]]; [|done]. pose proof (Hrm o Ho) as He. rewrite elem_of_cons in He.
      specialize (He (or_intror Hin)). rewrite <- length_zero_iff_nil in *.
      rewrite (proj1 (missing_snoc sorted op o Hns)). lia.
    + intros Hz. destruct (decide (missing sorted o = [])) as [He|He]; [left|by right].
      apply Hrd in He; [|done|set_solver]. set_solver.
  - intros x [Hx|Hx]%elem_of_app; [apply Hrid; set_solver|by apply Hfid].
Qed.

Lemma sorted_bound indegree ready sorted : kahn_inv indegree ready sorted ->
  length sorted + length ready <= length ops.
Proof.
  intros Hi. pose proof (k_nodup _ _ _ Hi) as Hnd.
  assert (map operation_id sorted ++ ready ⊆+ map operation_id ops) as Hsub.
  { apply NoDup_submseteq; [done|]. intros x [Hx|Hx]%elem_of_app; [|by apply Hi].
    apply elem_id in Hx as (o & Ho & <-). apply elem_id. exists o. split; [|done]. by apply Hi. }
  apply submseteq_length in Hsub. by rewrite length_app, !length_map in Hsub.
Qed.

Lemma kahn_run fuel indegree ready sorted : kahn_inv indegree ready sorted ->
  fuel + length sorted = S (length ops) ->
  exists l indegree', kahn fuel op_map dependents indegree ready sorted = Some l /\ kahn_inv indegree' [] l.
Proof.
  revert indegree ready sorted. induction fuel as [|fuel IH]; intros indegree ready sorted Hi Hf.
  { pose proof (sorted_bound _ _ _ Hi). lia. }
  destruct ready as [|id ready]; [by exists sorted, indegree|].
  destruct (kahn_step _ _ _ _ Hi) as (op & ind' & fresh & Hop & <- & Hrel & Hi').
  cbn [kahn]. rewrite op_map_get by done. cbn [mbind option_bind].
  unfold children in Hrel. destruct (bm_get (operation_id op) dependents) as [cs|]; simpl in Hrel.
  - rewrite Hrel. cbn [mbind option_bind fst snd]. apply IH; [|rewrite length_app; simpl; lia].
    eapply kahn_inv_perm; [symmetry; apply sort_by_perm|done].
  - injection Hrel as <- Hfr. rewrite <- Hfr in Hi'. apply IH; [done|]. rewrite length_app. simpl. lia.
Qed.

(** When the dependencies follow some rank, everything gets sorted. *)
Lemma kahn_complete indegree sorted (rk : RepairOperation -> nat) : kahn_inv indegree [] sorted ->
  (forall o d, o ∈ ops -> operation_id d ∈ depends_on o -> d ∈ ops -> rk d < rk o) ->
  forall o, o ∈ ops -> operation_id o ∈ map operation_id sorted.
Proof.
  clear dependents_ok dependents ids_nodup. intros Hi Hrk o. remember (rk o) as n eqn:Hn. revert o Hn.
  induction n as [n IH] using (well_founded_induction lt_wf). intros o -> Ho.
  destruct (decide (operation_id o ∈ map operation_id sorted)) as [|Hns]; [done|].
  assert (operation_id o ∈ []) as Hin; [|set_solver]. apply (k_ready _ _ _ Hi); [done..|].
  apply length_zero_iff_nil. destruct (missing sorted o) as [|d l] eqn:Hm; [done|]. exfalso.
  assert (d ∈ missing sorted o) as Hd by (rewrite Hm; set_solver).
  apply list_elem_of_filter in Hd as [Hd Hin].
  destruct (proj1 (elem_id d ops) (deps_known o d Ho Hin)) as (od & Hod & <-). apply Hd.
  apply (IH (rk od)); [by apply Hrk|done..].
Qed.

Lemma complete_perm indegree sorted : kahn_inv indegree [] sorted -> length sorted = length ops ->
  sorted ≡ₚ ops.
Proof.
  intros Hi Hlen. apply submseteq_length_Permutation; [|lia]. apply NoDup_submseteq; [|by apply Hi].
  pose proof (k_nodup _ _ _ Hi) as Hnd. rewrite app_nil_r in Hnd. by apply NoDup_fmap_1 in Hnd.
Qed.

Lemma initial_inv indegree : bm_wf indegree ->
  (forall k, k ∈ bm_keys indegree <-> k ∈ map operation_id ops) ->
  (forall o, o ∈ ops -> bm_get (operation_id o) indegree = Some (length (depends_on o))) ->
  kahn_inv indegree (sort_by str_leb (map fst (filter (fun kd => snd kd = 0) indegree))) [].
Proof.
  intros Hwf Hk Hdeg. eapply kahn_inv_perm; [symmetry; apply sort_by_perm|].
  assert (Hmiss : forall o, missing [] o = depends_on o).
  { intros o. unfold missing. induction (depends_on o) as [|d l IH]; [done|].
    rewrite filter_cons_True by (simpl; set_solver). by rewrite IH. }
  assert (Hin := zero_keys_get indegree Hwf).
  split; [done| |set_solver| | | |].
  - simpl. by apply zero_keys_nodup.
  - intros o Ho. by rewrite Hmiss, Hdeg.
  - intros o Ho _. rewrite Hin, Hmiss, Hdeg by done. rewrite <- length_zero_iff_nil. naive_solver.
  - intros x Hx%Hin. apply Hk, bm_get_keys. eauto.
  - intros l1 o l2 He. by destruct l1.
Qed.
End Kahn.

(** * The results *)

Lemma contains_id x l : bm_contains x (bs_of_list l) = true <-> x ∈ l.
Proof. unfold bm_contains. by rewrite bool_decide_eq_true, bm_get_keys, bs_of_list_elem. Qed.

(** The sort, on operations with distinct ids: an unknown dependency, or a run
    of the main loop to its end. *)
Lemma sort_run ops : NoDup (map operation_id ops) ->
  (exists e, sort_by_dependencies ops = Some (Err e) /\
     exists o d, o ∈ ops /\ d ∈ depends_on o /\ d ∉ map operation_id ops)
  \/ (forall o d, o ∈ ops -> d ∈ depends_on o -> d ∈ map operation_id ops) /\
     exists indegree l, kahn_inv ops indegree [] l /\
       sort_by_dependencies ops = Some (if negb (length l =? length ops)
         then Err (InvalidPlan "operation dependency cycle detected") else Ok l).
Proof.
  intros Hnd. unfold sort_by_dependencies.
  destruct (index_ops (bs_of_list (map operation_id ops)) ops [] []) as [[ind dep]|e] eqn:Hix.
  - right. apply (index_ops_ok _ []) in Hix as (Hok & Hdeg & Hin); [|done| |set_solver].
    2: { split; [constructor|set_solver|]. done. }
    cbn [fst snd app] in Hok, Hdeg, Hin. assert (Hkn : forall o d, o ∈ ops -> d ∈ depends_on o -> d ∈ map operation_id ops).
    { intros o d Ho Hd. apply contains_id. by eapply Hin. }
    split; [done|]. destruct Hok as [Hwf Hk Hch].
    destruct (kahn_run ops dep Hnd Hch Hkn (S (length ops)) ind
      (sort_by str_leb (map fst (filter (fun kd => snd kd = 0) ind))) []) as (l & ind' & Hr & Hi).
    { by eapply initial_inv. } { simpl. lia. }
    exists ind', l. split; [done|]. unfold op_map in Hr. cbv zeta. rewrite Hr. done.
  - left. exists e. split; [done|]. clear Hnd. revert Hix. generalize (@nil (string * nat)), (@nil (string * list string)).
    set (ids := bs_of_list (map operation_id ops)).
    assert (forall l, (forall o, o ∈ l -> o ∈ ops) -> forall i m, index_ops ids l i m = Err e ->
      exists o d, o ∈ ops /\ d ∈ depends_on o /\ d ∉ map operation_id ops) as Hg; [|by intros; eapply (Hg ops)].
    induction l as [|o l IH]; [done|]. intros Hsub i m. rewrite index_ops_cons. intros [He|(m' & _ & He)]%bind_Err.
    + exists o. destruct (decide (Forall (fun d => d ∈ map operation_id ops) (depends_on o))) as [Hall|Hn].
      * rewrite Forall_forall in Hall. destruct (add_deps_total ids (operation_id o) (depends_on o) m) as [m' Hm'];
          [|congruence]. intros d Hd. by apply contains_id, Hall.
      * apply not_Forall_Exists in Hn; [|apply _]. apply Exists_exists in Hn as (d & Hd & Hn).
        exists d. split_and!; [apply Hsub; set_solver|done..].
    + apply (IH ltac:(set_solver) _ _ He).
Qed.

(** C8: On operations with distinct ids the topological sort never panics and
    never runs out of rounds; when it accepts, its result is a permutation of the
    operations in which every dependency comes before the operations that need
    it. *)
Theorem sort_by_dependencies_sound ops : NoDup (map operation_id ops) ->
  exists r, sort_by_dependencies ops = Some r /\
    forall l, r = Ok l -> l ≡ₚ ops /\ respects l.
Proof.
  intros Hnd. destruct (sort_run ops Hnd) as [(e & -> & _)|(Hkn & ind & l & Hi & ->)]; [by exists (Err e)|].
  eexists. split; [done|]. intros l'. destruct (length l =? length ops) eqn:El; [|done].
  intros [= <-]. apply Nat.eqb_eq in El. split; [by eapply complete_perm|by apply Hi].
Qed.

(** ** Assigned dependencies *)

Lemma assign_from_ids prev ops : map operation_id (assign_from prev ops) = map operation_id ops.
Proof. revert prev. induction ops as [|o ops IH]; intros prev; simpl; [done|]. by rewrite IH. Qed.

Lemma assign_ids ops : map operation_id (assign_dependencies ops) ≡ₚ map operation_id ops.
Proof.
  unfold assign_dependencies. rewrite assign_from_ids.
  apply (fmap_Permutation operation_id), sort_by_perm.
Qed.

Lemma assign_from_deps prev ops o : o ∈ assign_from prev ops ->
  exists l1 o0 l2, ops = l1 ++ o0 :: l2 /\ action o = action o0 /\ depends_on o = deps_of (prev ++ l1) o0.
Proof.
  revert prev. induction ops as [|o' ops IH]; intros prev; simpl; [set_solver|].
  intros [->|Ho]%elem_of_cons.
  - exists [], o', ops. by rewrite app_nil_r.
  - destruct (IH _ Ho) as (l1 & o0 & l2 & -> & Ha & Hd). exists (o' :: l1), o0, l2.
    by rewrite <- app_assoc in Hd.
Qed.

Lemma assign_from_origin prev ops o : o ∈ assign_from prev ops -> exists p, p ∈ ops /\
  operation_id p = operation_id o /\ action p = action o.
Proof.
  revert prev. induction ops as [|o' ops IH]; intros prev; simpl; [set_solver|].
  intros [->|Ho]%elem_of_cons; [exists o'; set_solver|]. destruct (IH _ Ho) as (p & ?). exists p. set_solver.
Qed.

Lemma assign_from_lookup prev ops o0 : o0 ∈ ops -> exists o, o ∈ assign_from prev ops /\
  operation_id o = operation_id o0 /\ action o = action o0.
Proof.
  revert prev. induction ops as [|o' ops IH]; intros prev; simpl; [set_solver|].
  intros [->|Ho]%elem_of_cons; [exists (set_depends_on (deps_of prev o') o'); set_solver|].
  destruct (IH (prev ++ [o']) Ho) as (o & Hin & ?). exists o. set_solver.
Qed.

(** Dependencies name operations of the plan, of a strictly earlier phase. *)
Lemma assign_deps_spec ops o d : o ∈ assign_dependencies ops -> d ∈ depends_on o ->
  exists od, od ∈ assign_dependencies ops /\ operation_id od = d
    /\ action_order (action od) < action_order (action o).
Proof.
  intros Ho Hd. destruct (assign_from_deps _ _ _ Ho) as (l1 & o0 & l2 & Hops & Ha & Hdep).
  rewrite Hdep in Hd. unfold deps_of in Hd. simpl in Hd. apply elem_id in Hd as (p & Hp & <-).
  apply list_elem_of_filter in Hp as [Hlt Hp].
  destruct (assign_from_lookup [] (sort_by op_leb ops) p) as (od & Hod & Hid & Hact); [rewrite Hops; set_solver|].
  exists od. split_and!; [done..|]. by rewrite Hact, Ha.
Qed.

Lemma op_leb_total a b : op_leb a b = true \/ op_leb b a = true.
Proof.
  unfold op_leb, str_leb. rewrite !orb_true_iff, !andb_true_iff, !Nat.ltb_lt, !Nat.eqb_eq, !bool_decide_eq_true.
  destruct (total String.le (operation_id a) (operation_id b)),
    (lt_eq_lt_dec (action_order (action a)) (action_order (action b))) as [[?|?]|?]; auto.
Qed.

Lemma phases_sorted ops :
  StronglySorted (fun a b => action_order (action a) <= action_order (action b)) (sort_by op_leb ops).
Proof.
  apply Sorted_StronglySorted; [intros ? ? ?; lia|].
  induction (sort_by_sorted op_leb op_leb_total ops) as [|x l Hs IH Hh]; constructor; [done|].
  destruct Hh as [|y l Hxy]; constructor. unfold op_leb in Hxy.
  rewrite orb_true_iff, andb_true_iff, Nat.ltb_lt, Nat.eqb_eq in Hxy. lia.
Qed.

(** An operation depends on every operation of an earlier phase. *)
Lemma assign_deps_full ops o o' : o ∈ assign_dependencies ops -> o' ∈ assign_dependencies ops ->
  action_order (action o') < action_order (action o) -> operation_id o' ∈ depends_on o.
Proof.
  intros Ho Ho' Hlt. destruct (assign_from_deps _ _ _ Ho) as (l1 & o0 & l2 & Hops & Ha & ->).
  destruct (assign_from_origin _ _ _ Ho') as (p & Hp & <- & Hpa). rewrite <- Hpa, Ha in Hlt.
  unfold deps_of. apply elem_id. exists p. split; [|done]. apply list_elem_of_filter. split; [done|].
  pose proof (phases_sorted ops) as Hs. rewrite Hops in Hs, Hp. simpl.
  apply elem_of_app in Hp as [Hp|Hp]; [done|]. apply StronglySorted_app_1_r in Hs.
  inversion Hs as [|? ? _ Hall]; subst. rewrite Forall_forall in Hall.
  apply elem_of_cons in Hp as [->|Hp]; [lia|]. specialize (Hall p Hp). simpl in Hall. lia.
Qed.

Lemma phase_before ops l l1 o l2 o' : l ≡ₚ assign_dependencies ops -> NoDup (map operation_id l) ->
  l = l1 ++ o :: l2 -> o' ∈ l2 -> respects l ->
  ~ action_order (action o') < action_order (action o).
Proof.
  intros Hp Hnd Hl Ho' Hr Hlt.
  assert (forall x, x ∈ l -> x ∈ assign_dependencies ops) as Hin by (intros x; by rewrite Hp).
  pose proof (assign_deps_full ops o o' (Hin o ltac:(set_solver)) (Hin o' ltac:(set_solver)) Hlt) as Hd.
  apply (Hr l1 o l2 Hl) in Hd. subst l. rewrite map_app in Hnd. apply NoDup_app in Hnd as (_ & Hdis & _).
  apply (Hdis _ Hd). simpl. apply elem_of_cons. right. apply elem_id. eauto.
Qed.

(** C9: Every plan whose operations have distinct ids gets, from assigned
    dependencies, an execution order: the sort accepts, runs each operation once
    and in the order of phases (schema changes, splits, row groups, compression,
    statistics, merges, repartitioning). *)
Theorem assigned_plan_sorts ops : NoDup (map operation_id ops) ->
  exists l, sort_by_dependencies (assign_dependencies ops) = Some (Ok l)
    /\ l ≡ₚ assign_dependencies ops
    /\ forall l1 o l2 o', l = l1 ++ o :: l2 -> o' ∈ l2 ->
         action_order (action o) <= action_order (action o').
Proof.
  intros Hnd. set (ops' := assign_dependencies ops).
  assert (Hnd' : NoDup (map operation_id ops')) by (by unfold ops'; rewrite assign_ids).
  destruct (sort_run ops' Hnd') as [(e & _ & o & d & Ho & Hd & Hn)|(Hkn & ind & l & Hi & Hs)].
  { exfalso. destruct (assign_deps_spec ops o d Ho Hd) as (od & Hod & <- & _). apply Hn, elem_id. eauto. }
  assert (Hall : forall o, o ∈ ops' -> operation_id o ∈ map operation_id l).
  { apply (kahn_complete ops' Hkn ind l (fun o => action_order (action o)) Hi).
    intros o od Ho Hd Hod. destruct (assign_deps_spec ops o _ Ho Hd) as (od' & Hod' & Hid & Hlt).
    by rewrite (same_id ops' Hnd' od od'). }
  assert (Hlen : length l = length ops').
  { pose proof (sorted_bound _ _ _ _ Hi) as Hle. simpl in Hle.
    assert (map operation_id ops' ⊆+ map operation_id l) as Hsub.
    { apply NoDup_submseteq; [done|]. intros x (o & Ho & <-)%elem_id. by apply Hall. }
    apply submseteq_length in Hsub. rewrite !length_map in Hsub. lia. }
  exists l. rewrite Hs, Hlen, Nat.eqb_refl. split; [done|].
  pose proof (complete_perm _ _ _ Hi Hlen) as Hperm. split; [done|].
  intros l1 o l2 o' Hl Ho'. destruct (decide (action_order (action o) <= action_order (action o'))) as [|Hgt]; [done|].
  exfalso. apply (phase_before ops l l1 o l2 o'); [done| |done..|by apply Hi|lia].
  rewrite (fmap_Permutation operation_id _ _ Hperm). done.
Qed.

(** * Repeated ids *)

(** Emitted and ready ids are distinct and have no open dependencies left,
    whether or not the operations' ids are distinct. *)
Definition emitted_ok (indegree : bmap nat) (l : list string) : Prop :=
  NoDup l /\ forall x, x ∈ l -> bm_get x indegree = Some 0.

Lemma release_emitted cs indegree ready r done :
  release_children cs indegree ready = Some r -> emitted_ok indegree (done ++ ready) ->
  emitted_ok r.1 (done ++ r.2).
Proof.
  revert indegree ready. induction cs as [|c cs IH]; simpl; intros indegree ready; [by intros [= <-]|].
  destruct (bm_get c indegree) as [[|n]|] eqn:Hc; [done| |done]. intros Hr [Hnd Hz].
  assert (c ∉ done ++ ready) as Hn by (intros Hin%Hz; congruence).
  apply (IH _ _ Hr). destruct (n =? 0) eqn:E0; split.
  - rewrite app_assoc. apply NoDup_app. split_and!; [done|set_solver|apply NoDup_singleton].
  - intros x. rewrite app_assoc, bm_get_insert. intros [Hx| ->%list_elem_of_singleton]%elem_of_app.
    + rewrite decide_False by (intros ->; done). by apply Hz.
    + rewrite decide_True by done. apply Nat.eqb_eq in E0. by subst.
  - done.
  - intros x Hx. rewrite bm_get_insert, decide_False by (intros ->; done). by apply Hz.
Qed.

Lemma op_map_inv ops x o : bm_get x (op_map ops) = Some o -> operation_id o = x /\ o ∈ ops.
Proof.
  unfold op_map, bm_of_list.
  assert (forall l m, (forall o, o ∈ l -> o ∈ ops) ->
    (forall x o, bm_get x m = Some o -> operation_id o = x /\ o ∈ ops) -> forall x o,
    bm_get x (fold_left (fun m kv => bm_insert (fst kv) (snd kv) m) (map (fun o => (operation_id o, o)) l) m)
    = Some o -> operation_id o = x /\ o ∈ ops) as Hg; [|by apply (Hg ops [])].
  induction l as [|o' l IH]; simpl; intros m Hl Hm; [done|]. apply IH; [intros; apply Hl; set_solver|].
  intros y oy. rewrite bm_get_insert. case_decide as Hy; [|apply Hm]. intros [= <-].
  split; [done|]. apply Hl. set_solver.
Qed.

Lemma kahn_emitted fuel ops dependents indegree ready sorted l :
  kahn fuel (op_map ops) dependents indegree ready sorted = Some l ->
  emitted_ok indegree (map operation_id sorted ++ ready) ->
  (forall o, o ∈ sorted -> o ∈ ops) -> NoDup (map operation_id l) /\ forall o, o ∈ l -> o ∈ ops.
Proof.
  assert (Hmap := op_map_inv ops).
  revert indegree ready sorted. induction fuel as [|fuel IH]; intros indegree ready sorted.
  { destruct ready; [|done]. intros [= <-] [Hnd _]. by rewrite app_nil_r in Hnd. }
  destruct ready as [|id ready]; [intros [= <-] [Hnd _]; by rewrite app_nil_r in Hnd|].
  cbn [kahn]. intros Hk Hem Hsub. destruct (bm_get id (op_map ops)) as [op|] eqn:Hop; [|done].
  destruct (Hmap _ _ Hop) as [<- Hin]. cbn [mbind option_bind] in Hk.
  assert (forall o, o ∈ sorted ++ [op] -> o ∈ ops) as Hsub'
    by (intros o [Ho| ->%list_elem_of_singleton]%elem_of_app; auto).
  assert (emitted_ok indegree (map operation_id (sorted ++ [op]) ++ ready)) as Hem'
    by (rewrite map_app, <- app_assoc; done).
  destruct (bm_get (operation_id op) dependents) as [cs|]; [|by eapply IH].
  destruct (release_children cs indegree ready) as [[ind' ready']|] eqn:Hr; [|done].
  pose proof (release_emitted _ _ _ _ _ Hr Hem') as Hem2. cbn [mbind option_bind fst snd] in Hk, Hem2.
  eapply IH; [exact Hk| |done]. destruct Hem2 as [Hnd Hz].
  assert (sort_by str_leb ready' ≡ₚ ready') as Hp by apply sort_by_perm.
  split; [by rewrite Hp|]. intros x. rewrite Hp. apply Hz.
Qed.

Lemma index_wf ids ops i m r : index_ops ids ops i m = Ok r -> bm_wf i -> bm_wf r.1.
Proof.
  revert i m. induction ops as [|o ops IH]; [by intros i m [= <-]|]. intros i m.
  rewrite index_ops_cons. intros (m' & _ & Hr)%bind_Ok Hwf. eapply IH; [done|]. by apply bm_insert_wf.
Qed.

Lemma index_emitted ids ops ind dep : index_ops ids ops [] [] = Ok (ind, dep) ->
  emitted_ok ind (sort_by str_leb (map fst (filter (fun kd => snd kd = 0) ind))).
Proof.
  intros Hix. assert (bm_wf ind) as Hwf by (eapply (index_wf _ _ [] [] (ind, dep)); [done|constructor]).
  assert (sort_by str_leb (map fst (filter (fun kd => snd kd = 0) ind))
    ≡ₚ map fst (filter (fun kd => snd kd = 0) ind)) as Hp by apply sort_by_perm.
  split; [rewrite Hp; by apply zero_keys_nodup|]. intros x. rewrite Hp. by apply zero_keys_get.
Qed.

(** Operations that share an id are never ordered: the sort rejects the
    whole plan (or panics), however the dependencies look. *)
Lemma duplicate_ids_rejected ops l : ~ NoDup (map operation_id ops) ->
  sort_by_dependencies ops <> Some (Ok l).
Proof.
  intros Hdup Hs. unfold sort_by_dependencies in Hs.
  destruct (index_ops _ ops [] []) as [[ind dep]|e] eqn:Hix; [|done]. cbv zeta in Hs.
  fold (op_map ops) in Hs.
  destruct (kahn _ _ _ _ _ _) as [l'|] eqn:Hk; [|done]. cbn [mbind option_bind] in Hs.
  destruct (length l' =? length ops) eqn:El; [|done]. apply Nat.eqb_eq in El.
  apply kahn_emitted in Hk as [Hnd Hsub]; [|simpl; by apply index_emitted with (1 := Hix)|set_solver].
  apply Hdup. assert (l' ≡ₚ ops) as Hp.
  { apply submseteq_length_Permutation; [|lia]. apply NoDup_submseteq; [by apply NoDup_fmap_1 in Hnd|done]. }
  by rewrite <- (fmap_Permutation operation_id _ _ Hp).
Qed.

Definition ex_op (id : string) (a : RepairAction) : RepairOperation :=
  {| operation_id := id; finding_ids := []; safety := default_safety a; action := a;
     rationale := EmptyString; evidence := []; preconditions := []; depends_on := [] |}.

Definition ex_ops : list RepairOperation :=
  [ex_op "merge-1" (MergeSmallFiles 100 ["a"; "b"]); ex_op "compress-1" (Recompress "zstd" []);
   ex_op "schema-1" (CastColumn "x" "INT32" "INT64")].

Lemma sort_by_dependencies_sound_witness :
  exists r, sort_by_dependencies (assign_dependencies ex_ops) = Some r /\
    forall l, r = Ok l -> l ≡ₚ assign_dependencies ex_ops /\ respects l.
Proof.
  apply (sort_by_dependencies_sound (assign_dependencies ex_ops)).
  by apply (bool_decide_unpack _); vm_compute.
Defined.

Lemma assigned_plan_sorts_witness :
  exists l, sort_by_dependencies (assign_dependencies ex_ops) = Some (Ok l)
    /\ l ≡ₚ assign_dependencies ex_ops
    /\ forall l1 o l2 o', l = l1 ++ o :: l2 -> o' ∈ l2 ->
         action_order (action o) <= action_order (action o').
Proof. apply (assigned_plan_sorts ex_ops). by apply (bool_decide_unpack _); vm_compute. Defined.
