(* ===== verification/RepairExec.v ===== *)
(** Execution of a repair plan against a local work directory
    (src/crates/parqonaut-repair/src/execute.rs): authorization gate, audit
    trail, the working set and the local [execute] pipeline.

    The file system and the Parquet transforms (parqonaut-transform) are an
    interface of state-passing operations, [RepairFs]; scanning, fingerprinting a
    scan and verification are arguments of the pipeline.  Instants are read from
    a clock indexed by the number of reads. *)

From Stdlib Require Import Ascii.
From S2P Require Import Prelude BTree Location Errors RepairPlan Deps.

(** * Files *)

(** [std::fs] and the transforms; errors by their display form. *)
Class RepairFs (FS : Type) := {
  path_exists : string -> FS -> bool;
  create_dir_all : string -> FS -> Result string unit * FS;
  remove_file : string -> FS -> Result string unit * FS;
  remove_dir_all : string -> FS -> Result string unit * FS;
  fs_copy : string -> string -> FS -> Result string unit * FS;
  fs_rename : string -> string -> FS -> Result string unit * FS;
  merge_parquet_files : list string -> string -> string -> Z -> FS -> Result string (list string) * FS;
  split_parquet_file : string -> string -> string -> Z -> FS -> Result string (list string) * FS;
  rewrite_parquet_file : string -> string -> option string -> option Z -> bool -> FS
    -> Result string unit * FS;
  rewrite_parquet_with_cast : string -> string -> string -> string -> FS -> Result string unit * FS;
  rewrite_parquet_with_rename : string -> string -> string -> string -> FS -> Result string unit * FS;
}.

(** Fallible computations on the file system. *)
Definition FsM (FS A : Type) : Type := FS -> Result RepairError A * FS.

Definition fs_ret {FS A} (a : A) : FsM FS A := fun fs => (Ok a, fs).
Definition fs_fail {FS A} (e : RepairError) : FsM FS A := fun fs => (Err e, fs).
Definition fs_bind {FS A B} (x : FsM FS A) (f : A -> FsM FS B) : FsM FS B := fun fs =>
  match x fs with (Ok a, fs') => f a fs' | (Err e, fs') => (Err e, fs') end.
(** [?] on an operation whose error converts by [conv]. *)
Definition fs_try {FS A} (conv : string -> RepairError) (x : FS -> Result string A * FS) : FsM FS A :=
  fun fs => let '(r, fs') := x fs in (map_err conv r, fs').
(** [let _ = ..]: the error is dropped. *)
Definition fs_ignore {FS A} (x : FS -> Result string A * FS) : FsM FS unit :=
  fun fs => (Ok tt, snd (x fs)).

Declare Scope fs_scope.
Delimit Scope fs_scope with fs.
Notation "x <- m ;; k" := (fs_bind m (fun x => k))
  (at level 100, m at next level, right associativity) : fs_scope.
Notation "m ;;; k" := (fs_bind m (fun _ => k))
  (at level 100, right associativity) : fs_scope.

Fixpoint fs_fold {FS A B} (f : B -> A -> FsM FS B) (l : list A) (b : B) : FsM FS B :=
  match l with
  | [] => fs_ret b
  | a :: l => fs_bind (f b a) (fs_fold f l)
  end.

(** [{idx:04}]. *)
Definition pad4 (n : nat) : string :=
  let d := pretty n in
  let fix zeros k := match k with 0 => EmptyString | S k => String "0" (zeros k) end in
  zeros (4 - String.length d) +:+ d.

(** [Path::with_extension]: the last extension of the file name is replaced. *)
Fixpoint split_last (c : ascii) (s : string) : option (string * string) :=
  match s with
  | EmptyString => None
  | String d s' =>
      match split_last c s' with
      | Some (a, b) => Some (String d a, b)
      | None => if decide (d = c) then Some (EmptyString, s') else None
      end
  end.

Definition with_extension (p ext : string) : string :=
  let '(dir, name) := match split_last "/" p with
                      | Some (d, n) => (d +:+ "/", n)
                      | None => (EmptyString, p)
                      end in
  let stem := match split_last "." name with
              | Some (EmptyString, _) | None => name
              | Some (stem, _) => stem
              end in
  dir +:+ stem +:+ "." +:+ ext.

(** * Operations *)

Abbreviation working_set := (bmap string).

Section Apply.
Context {FS : Type} `{RepairFs FS}.
Local Open Scope fs_scope.

Definition target_paths_all (working : working_set) (target_paths : list string) : list string :=
  match target_paths with [] => bm_keys working | _ :: _ => target_paths end.

(** The common loop of [rename_targets], [cast_targets] and [rewrite_targets]:
    rewrite each file beside itself, then move it into place. *)
Definition rewrite_each (missing ext : string) (rewrite : string -> string -> FS -> Result string unit * FS)
    (paths : list string) (working : working_set) : FsM FS working_set :=
  fs_fold (fun w rel =>
    match bm_get rel w with
    | None => fs_fail (RepairPreconditionFailed rel missing)
    | Some src =>
        let tmp := with_extension src ext in
        fs_try TransformFailed (rewrite src tmp);;;
        fs_try RepairIo (fs_rename tmp src);;;
        fs_ret (bm_insert rel src w)
    end) paths working.

Definition rename_targets (working : working_set) (paths : list string) (from to : string)
    : FsM FS working_set :=
  rewrite_each "rename target missing" "parqonaut-rename.parquet"
    (fun src tmp => rewrite_parquet_with_rename src tmp from to) paths working.

Definition cast_targets (working : working_set) (paths : list string) (column to_type : string)
    : FsM FS working_set :=
  rewrite_each "cast target missing" "parqonaut-cast.parquet"
    (fun src tmp => rewrite_parquet_with_cast src tmp column to_type) paths working.

Definition rewrite_targets (working : working_set) (target_paths : list string)
    (compression : option string) (row_group_mb : option Z) (rebuild_stats : bool)
    : FsM FS working_set :=
  let paths := filter (fun p => bm_contains p working = true) (target_paths_all working target_paths) in
  rewrite_each "target path not in working set" "parqonaut-tmp.parquet"
    (fun src tmp => rewrite_parquet_file src tmp compression row_group_mb rebuild_stats) paths working.

(** Copy the outputs of a transform into the work directory under new names. *)
Definition place_outputs (work : string) (name : nat -> string) (outputs : list string)
    (working : working_set) : FsM FS working_set :=
  fs_fold (fun w io =>
    let rel := name (fst io) in
    let dest := path_join work rel in
    fs_try RepairIo (fs_copy (snd io) dest);;;
    fs_ret (bm_insert rel dest w)) (imap pair outputs) working.

Definition remove_inputs (inputs : list string) (working : working_set) : FsM FS working_set :=
  fs_fold (fun w rel =>
    match bm_get rel w with
    | Some p => fs_ignore (remove_file p);;; fs_ret (bm_remove rel w)
    | None => fs_ret w
    end) inputs working.

Definition apply_operation (op : RepairOperation) (root work : string) (working : working_set)
    : FsM FS working_set :=
  match action op with
  | MergeSmallFiles target_bytes input_paths =>
      let abs := omap (fun rel => bm_get rel working) input_paths in
      if length abs <? 2 then fs_ret working
      else
        let merge_out := path_join work "_merge_out" in
        fs_try RepairIo (create_dir_all merge_out);;;
        outputs <- fs_try TransformFailed (merge_parquet_files abs merge_out "part" target_bytes);;
        w <- remove_inputs input_paths working;;
        w <- place_outputs work (fun idx => "merged-part-" +:+ pad4 idx +:+ ".parquet") outputs w;;
        fs_ignore (remove_dir_all merge_out);;;
        fs_ret w
  | SplitLargeFile target_bytes input_path =>
      let src := default (path_join root input_path) (bm_get input_path working) in
      let split_out := path_join work "_split_out" in
      fs_try RepairIo (create_dir_all split_out);;;
      outputs <- fs_try TransformFailed (split_parquet_file src split_out "split" target_bytes);;
      w <- remove_inputs [input_path] working;;
      w <- place_outputs work (fun idx => input_path +:+ ".split-" +:+ pad4 idx +:+ ".parquet") outputs w;;
      fs_ignore (remove_dir_all split_out);;;
      fs_ret w
  | ResizeRowGroups target_bytes target_paths =>
      let mb := Z.max (target_bytes / (1024 * 1024)) 1 in
      rewrite_targets working target_paths None (Some mb) false
  | Recompress codec target_paths => rewrite_targets working target_paths (Some codec) None false
  | RebuildStatistics target_paths => rewrite_targets working target_paths None None true
  | CastColumn column _ to_type => cast_targets working (target_paths_all working []) column to_type
  | AlignSchema field _ to_type => cast_targets working (target_paths_all working []) field to_type
  | RenameColumn from to => rename_targets working (target_paths_all working []) from to
  | Repartition _ => fs_fail (UnsupportedOperation (operation_id op) (kind_label (action op)))
  end.

(** * Running a plan *)

Record RepairOperationOutcome := {
  out_executed : list string;
  out_skipped : list string;
  out_audit : list OperationAuditRecord;
}.

Definition outcome_nil : RepairOperationOutcome :=
  {| out_executed := []; out_skipped := []; out_audit := [] |}.

Definition add_executed (ctx : OperationAuditContext) (op : RepairOperation)
    (source : AuthorizationSource) (t : Z) (o : RepairOperationOutcome) : RepairOperationOutcome :=
  {| out_executed := out_executed o ++ [operation_id op]; out_skipped := out_skipped o;
     out_audit := out_audit o ++ [audit_new ctx (operation_id op) (safety op) source t true None] |}.

Definition add_skipped (ctx : OperationAuditContext) (op : RepairOperation)
    (source : AuthorizationSource) (t : Z) (reason : string) (o : RepairOperationOutcome)
    : RepairOperationOutcome :=
  {| out_executed := out_executed o; out_skipped := out_skipped o ++ [operation_id op];
     out_audit := out_audit o ++ [audit_new ctx (operation_id op) (safety op) source t false (Some reason)] |}.

(** The body of the loop over the sorted operations; [i] counts clock reads. *)
Definition run_operation (auth : RepairAuthorization) (root work : string) (ctx : OperationAuditContext)
    (now : nat -> Z) (st : nat * working_set * RepairOperationOutcome) (op : RepairOperation)
    : FsM FS (nat * working_set * RepairOperationOutcome) :=
  let '(i, w, o) := st in
  match safety op with
  | Safe =>
      w' <- apply_operation op root work w;;
      fs_ret (S i, w', add_executed ctx op AutomaticSafePolicy (now i) o)
  | ReviewRequired =>
      if is_authorized auth (operation_id op) then
        w' <- apply_operation op root work w;;
        fs_ret (S i, w', add_executed ctx op ExplicitUser (now i) o)
      else
        fs_ret (S i, w, add_skipped ctx op NotAuthorized (now i)
          ("review-required operation " +:+ operation_id op +:+ " not authorized") o)
  | Blocked | Destructive =>
      fs_ret (S i, w, add_skipped ctx op BlockedByPolicy (now i) "operation blocked by safety policy" o)
  end.

(** [None] is the panic of [sort_by_dependencies]. *)
Definition run_repair_operations (auth : RepairAuthorization) (plan : RepairPlan) (root work : string)
    (working : working_set) (ctx : OperationAuditContext) (now : nat -> Z)
    : option (FsM FS (working_set * RepairOperationOutcome)) :=
  r ← sort_by_dependencies (operations plan);
  Some (match r with
        | Err e => fs_fail e
        | Ok sorted =>
            st <- fs_fold (run_operation auth root work ctx now) sorted (0, working, outcome_nil);;
            fs_ret (snd (fst st), snd st)
        end).
End Apply.
