(* ===== verification/RepairExecProofs.v ===== *)
(** What running a plan may do: only permitted operations touch the work
    directory, the audit trail covers every operation, and the transforms run in
    the sorted order. *)

From stdpp Require Import gmap.
From Stdlib Require Import Ascii.
From S2P Require Import Prelude BTree Location Errors RepairPlan Deps DepsProofs RepairExec.

(** The authorization decision of authorization.rs. *)
Definition permitted (auth : RepairAuthorization) (op : RepairOperation) : bool :=
  is_ok (resolve auth (operation_id op) (safety op)).

Definition audit_of (auth : RepairAuthorization) (ctx : OperationAuditContext) (op : RepairOperation) (t : Z)
    : OperationAuditRecord :=
  match safety op with
  | Safe => audit_new ctx (operation_id op) Safe AutomaticSafePolicy t true None
  | ReviewRequired =>
      if is_authorized auth (operation_id op)
      then audit_new ctx (operation_id op) ReviewRequired ExplicitUser t true None
      else audit_new ctx (operation_id op) ReviewRequired NotAuthorized t false
             (Some ("review-required operation " +:+ operation_id op +:+ " not authorized"))
  | s => audit_new ctx (operation_id op) s BlockedByPolicy t false
           (Some "operation blocked by safety policy")
  end.

Section Gate.
Context {FS : Type} `{RepairFs FS}.
Context (auth : RepairAuthorization) (root work : string) (ctx : OperationAuditContext) (now : nat -> Z).

Definition apply_all (ops : list RepairOperation) (w : working_set) : FsM FS working_set :=
  fs_fold (fun w op => apply_operation op root work w) ops w.

(** What the loop adds to an outcome. *)
Definition gate_outcome (i : nat) (ops : list RepairOperation) (o : RepairOperationOutcome)
    : RepairOperationOutcome :=
  {| out_executed := out_executed o ++ map operation_id (filter (fun op => permitted auth op = true) ops);
     out_skipped := out_skipped o ++ map operation_id (filter (fun op => permitted auth op = false) ops);
     out_audit := out_audit o ++ imap (fun k op => audit_of auth ctx op (now (i + k))) ops |}.

Lemma gate_outcome_nil i o : gate_outcome i [] o = o.
Proof. unfold gate_outcome. simpl. rewrite !app_nil_r. by destruct o. Qed.

Lemma gate_outcome_cons i op ops o : gate_outcome i (op :: ops) o = gate_outcome (S i) ops (gate_outcome i [op] o).
Proof.
  unfold gate_outcome. simpl. rewrite !filter_cons. rewrite Nat.add_0_r.
  assert (imap ((fun k op => audit_of auth ctx op (now (i + k))) ∘ S) ops
    = imap (fun k op => audit_of auth ctx op (now (S i + k))) ops) as ->.
  { apply imap_ext. intros k x _. simpl. by rewrite Nat.add_succ_r. }
  destruct (permitted auth op); simpl; by rewrite <- !app_assoc.
Qed.

Lemma run_operation_gate i w o op fs :
  run_operation auth root work ctx now (i, w, o) op fs =
    match (if permitted auth op then apply_operation op root work w else fs_ret w) fs with
    | (Ok w', fs') => (Ok (S i, w', gate_outcome i [op] o), fs')
    | (Err e, fs') => (Err e, fs')
    end.
Proof.
  unfold run_operation, gate_outcome, permitted, audit_of. simpl. rewrite !filter_cons. unfold permitted. simpl.
  rewrite Nat.add_0_r. destruct (safety op) eqn:Hs; simpl.
  - unfold fs_bind. destruct (apply_operation op root work w fs) as [[w'|e] fs']; [|done].
    simpl. unfold add_executed. rewrite Hs, app_nil_r. done.
  - destruct (is_authorized auth (operation_id op)); simpl.
    + unfold fs_bind. destruct (apply_operation op root work w fs) as [[w'|e] fs']; [|done].
      simpl. unfold add_executed. rewrite Hs, app_nil_r. done.
    + unfold add_skipped. by rewrite Hs, app_nil_r.
  - unfold add_skipped. by rewrite Hs, app_nil_r.
  - unfold add_skipped. by rewrite Hs, app_nil_r.
Qed.

Lemma run_loop_gate ops i w o fs :
  fs_fold (run_operation auth root work ctx now) ops (i, w, o) fs =
    match apply_all (filter (fun op => permitted auth op = true) ops) w fs with
    | (Ok w', fs') => (Ok (i + length ops, w', gate_outcome i ops o), fs')
    | (Err e, fs') => (Err e, fs')
    end.
Proof.
  revert i w o fs. induction ops as [|op ops IH]; intros i w o fs.
  - simpl. by rewrite gate_outcome_nil, Nat.add_0_r.
  - cbn [fs_fold]. unfold fs_bind. rewrite run_operation_gate, filter_cons.
    destruct (permitted auth op) eqn:Hp; cbn [length].
    + rewrite decide_True by done. unfold apply_all at 1. cbn [fs_fold]. unfold fs_bind.
      destruct (apply_operation op root work w fs) as [[w'|e] fs']; [|done].
      rewrite IH, (gate_outcome_cons i op ops), Nat.add_succ_r. done.
    + rewrite decide_False by done. simpl. rewrite IH, (gate_outcome_cons i op ops), Nat.add_succ_r. done.
Qed.

(** C10: Running a plan applies exactly the permitted operations, in the sorted
    order, to the work directory: blocked, destructive and unauthorized
    operations leave it untouched.  Every operation has one audit record, and
    executed and skipped ids split the plan. *)
Theorem run_repair_operations_gate plan working l fs :
  sort_by_dependencies (operations plan) = Some (Ok l) ->
  (fun m => m fs) <$> run_repair_operations auth plan root work working ctx now =
    Some (match apply_all (filter (fun op => permitted auth op = true) l) working fs with
          | (Ok w, fs') =>
              (Ok (w, {| out_executed := map operation_id (filter (fun op => permitted auth op = true) l);
                         out_skipped := map operation_id (filter (fun op => permitted auth op = false) l);
                         out_audit := imap (fun k op => audit_of auth ctx op (now k)) l |}), fs')
          | (Err e, fs') => (Err e, fs')
          end).
Proof.
  intros Hs. unfold run_repair_operations. rewrite Hs. simpl. f_equal.
  unfold fs_bind. rewrite run_loop_gate.
  destruct (apply_all _ working fs) as [[w|e] fs']; simpl; [|done].
  unfold gate_outcome. simpl. done.
Qed.
End Gate.
