(* ===== verification/Inventory.v ===== *)
(** What planning knows about a dataset: the scan report, the Parquet inventory
    built from it (inventory.rs), relative paths and the dataset fingerprint
    (fingerprint.rs) of src/crates/parqonaut-repair/src, and the cached
    inspections of remote files (storage_scan.rs).

    Reading a Parquet footer needs the file: [ParquetFiles] stands for
    [Path::is_file] and [inspect_parquet_file]; [Serde] for serde_json. *)

From Stdlib Require Import Ascii.
From stdpp Require Import sorting.
From S2P Require Import Prelude BTree Location Errors Schema RepairPlan.

(** * Scan reports *)

Inductive DataFormat := Parquet | Csv | Json | Ndjson | UnknownFormat.

#[global] Instance DataFormat_eq_dec : EqDecision DataFormat.
Proof. solve_decision. Defined.

Record AssetRecord := {
  asset_path : string;
  asset_format : DataFormat;
  asset_size_bytes : Z;
  inspection_hints : option json;
}.

(** The fields of [ScanReport] that repair reads. *)
Record ScanReport := {
  scan_id : string;
  assets : list AssetRecord;
  scan_findings : list Finding;
}.

Record RowGroupSummary := {
  rg_index : nat;
  rg_num_rows : Z;
  compressed_size : Z;
  total_byte_size : Z;
}.

Record ParquetInspection := {
  insp_num_rows : Z;
  insp_num_row_groups : nat;
  row_groups : list RowGroupSummary;
  insp_fields : list FieldDefinition;
  insp_created_by : option string;
  insp_compression_codecs : bset;
  statistics_present : bool;
}.

Class ParquetFiles := {
  is_file : string -> bool;
  inspect_parquet_file : string -> Result string ParquetInspection;
}.

(** [serde_json::from_value] at the types the cached inspection holds. *)
Class Serde := {
  row_groups_from_value : json -> Result string (list RowGroupSummary);
  schema_from_value : json -> Result string (list FieldDefinition);
  codecs_from_value : json -> Result string (list string);
}.

(** * Paths *)

(** [Ord] of [std::path::Component] and of paths: component by component. *)
Definition component_leb (a b : Component) : bool :=
  match a, b with
  | RootDir, _ => true
  | CurDir, RootDir => false
  | CurDir, _ => true
  | ParentDir, (RootDir | CurDir) => false
  | ParentDir, _ => true
  | Normal x, Normal y => str_leb x y
  | Normal _, _ => false
  end.

Fixpoint components_leb (a b : list Component) : bool :=
  match a, b with
  | [], _ => true
  | _ :: _, [] => false
  | x :: a', y :: b' => if decide (x = y) then components_leb a' b' else component_leb x y
  end.

Definition path_leb (a b : string) : bool := components_leb (components a) (components b).

Definition is_skipped_piece (s : string) : bool :=
  bool_decide (s = EmptyString) || bool_decide (s = ".").

(** Drop the pieces of the first [n] components. *)
Fixpoint drop_components (n : nat) (pieces : list string) : list string :=
  match pieces with
  | [] => []
  | s :: rest =>
      if is_skipped_piece s then drop_components n rest
      else match n with 0 => pieces | S n' => drop_components n' rest end
  end.

Fixpoint drop_trailing (pieces : list string) : list string :=
  match pieces with
  | [] => []
  | s :: rest =>
      match drop_trailing rest with
      | [] => if is_skipped_piece s then [] else [s]
      | r => s :: r
      end
  end.

Definition is_named (c : Component) : bool :=
  match c with ParentDir | Normal _ => true | RootDir | CurDir => false end.

(** The text of [Path::strip_prefix(base)]: what is left after the components of
    [base], without the separators around it; the empty base takes nothing. *)
Definition strip_base (p base : string) : string :=
  let pieces := split_char "/" p in
  match components base with
  | [] => let rest := join_strings "/" (drop_trailing pieces) in
          if is_absolute p && bool_decide (rest = EmptyString) then "/" else rest
  | cs => join_strings "/"
            (drop_trailing (drop_components (length (filter (fun c => is_named c = true) cs)) pieces))
  end.

Definition relativize (root p : string) : Result RepairError string :=
  if path_starts_with p root then Ok (trim_start_slash (strip_base p root)) else Ok p.

(** * Inspections *)

Section Inspect.
Context `{ParquetFiles} `{Serde}.

Definition json_get (k : string) (v : json) : option json :=
  match v with JObj members => bm_get k members | _ => None end.

Definition as_i64 (v : json) : option Z :=
  match v with
  | JNum z => if ((- 2 ^ 63 <=? z) && (z <? 2 ^ 63))%Z then Some z else None
  | _ => None
  end.
Definition as_u64 (v : json) : option Z :=
  match v with JNum z => if ((0 <=? z) && (z <? 2 ^ 64))%Z then Some z else None | _ => None end.
Definition as_bool (v : json) : option bool := match v with JBool b => Some b | _ => None end.

Definition parquet_inspection_from_hints (hints : json) (p : string) : Result RepairError ParquetInspection :=
  node ← ok_or (json_get "parqonaut_parquet_inspection" hints)
    (DatasetUnreadable ("missing cached Parquet inspection for " +:+ p));
  num_rows ← ok_or (json_get "num_rows" node ≫= as_i64)
    (DatasetUnreadable ("invalid cached inspection num_rows for " +:+ p));
  num_row_groups ← ok_or (Z.to_nat <$> (json_get "num_row_groups" node ≫= as_u64))
    (DatasetUnreadable ("invalid cached inspection num_row_groups for " +:+ p));
  groups ← map_err (fun e => DatasetUnreadable ("invalid row_groups for " +:+ p +:+ ": " +:+ e))
    (row_groups_from_value (default JNull (json_get "row_groups" node)));
  fields ← map_err (fun e => DatasetUnreadable ("invalid schema for " +:+ p +:+ ": " +:+ e))
    (schema_from_value (default JNull (json_get "schema" node)));
  Ok {| insp_num_rows := num_rows; insp_num_row_groups := num_row_groups; row_groups := groups;
        insp_fields := fields;
        insp_created_by := None;
        insp_compression_codecs := bs_of_list (default []
          (json_get "compression_codecs" node ≫= fun v => result_ok (codecs_from_value v)));
        statistics_present := default false (json_get "statistics_present" node ≫= as_bool) |}.

Definition inspect_local (p : string) : Result RepairError ParquetInspection :=
  map_err (fun e => DatasetUnreadable (p +:+ ": " +:+ e)) (inspect_parquet_file p).

Definition inspect_asset (a : AssetRecord) : Result RepairError ParquetInspection :=
  let p := asset_path a in
  if is_file p then inspect_local p
  else match inspection_hints a ≫= fun h => result_ok (parquet_inspection_from_hints h p) with
       | Some insp => Ok insp
       | None =>
           if starts_with "s3://" p
           then Err (DatasetUnreadable (p +:+ ": remote Parquet inspection missing from scan report"))
           else inspect_local p
       end.

(** * Inventory *)

Record ParquetFileMeta := {
  file_path : string;
  file_size_bytes : Z;
  file_num_rows : Z;
  file_num_row_groups : nat;
  median_row_group_bytes : Z;
  compression_codecs : list string;
  schema_signature : string;
  file_fields : list FieldDefinition;
  has_statistics : bool;
}.

Record DatasetInventory := {
  inv_root : string;
  parquet_files : list ParquetFileMeta;
  total_rows : Z;
  schema_signatures : bmap (list string);
}.

Definition unit_separator : string := String (Ascii.ascii_of_N 31) EmptyString.

Definition parquet_schema_signature (fields : list FieldDefinition) : string :=
  join_strings unit_separator
    (sort_by str_leb (map (fun f => def_name f +:+ "=" +:+ def_logical_type f) fields)).

Definition median_u64 (values : list Z) : Z :=
  match values with
  | [] => 0%Z
  | _ :: _ => default 0%Z (sort_by Z.leb values !! (length values / 2)%nat)
  end.

Definition file_meta (a : AssetRecord) (insp : ParquetInspection) : ParquetFileMeta := {|
  file_path := asset_path a; file_size_bytes := asset_size_bytes a;
  file_num_rows := insp_num_rows insp; file_num_row_groups := insp_num_row_groups insp;
  median_row_group_bytes := median_u64 (map (fun rg => Z.max (compressed_size rg) 0) (row_groups insp));
  compression_codecs := bm_keys (insp_compression_codecs insp);
  schema_signature := parquet_schema_signature (insp_fields insp);
  file_fields := insp_fields insp; has_statistics := statistics_present insp |}.

(** The body of the loop over the sorted assets. *)
Definition add_file (inv : DatasetInventory) (a : AssetRecord) : Result RepairError DatasetInventory :=
  insp ← inspect_asset a;
  let f := file_meta a insp in
  Ok {| inv_root := inv_root inv; parquet_files := parquet_files inv ++ [f];
        total_rows := wrap_i64 (total_rows inv + insp_num_rows insp);
        schema_signatures := bm_insert (schema_signature f)
          (default [] (bm_get (schema_signature f) (schema_signatures inv)) ++ [asset_path a])
          (schema_signatures inv) |}.

Definition sorted_parquet_assets (report : ScanReport) : list AssetRecord :=
  sort_by (fun a b => path_leb (asset_path a) (asset_path b))
    (filter (fun a => asset_format a = Parquet) (assets report)).

Definition from_scan_report (root : string) (report : ScanReport) : Result RepairError DatasetInventory :=
  foldl (fun acc a => inv ← acc; add_file inv a)
    (Ok {| inv_root := root; parquet_files := []; total_rows := 0; schema_signatures := [] |})
    (sorted_parquet_assets report).

Definition median_file_size (inv : DatasetInventory) : Z :=
  median_u64 (map file_size_bytes (parquet_files inv)).

Definition all_compression_codecs (inv : DatasetInventory) : list string :=
  bm_keys (bs_of_list (concat (map compression_codecs (parquet_files inv)))).

Definition small_files (inv : DatasetInventory) (threshold : Z) : list ParquetFileMeta :=
  filter (fun f => (file_size_bytes f < threshold)%Z) (parquet_files inv).

Definition bool_text (b : bool) : string := if b then "true" else "false".

Definition structural_schema_key (fields : list FieldDefinition) : string :=
  join_strings unit_separator (sort_by str_leb (map (fun f =>
    def_name f +:+ ":" +:+ default "UNKNOWN" (first_word (def_logical_type f)) +:+ ":"
    +:+ bool_text (def_nullable f)) fields)).

Definition views_from_inventory (inv : DatasetInventory) : list FileSchemaView :=
  map (fun f => {| view_path := file_path f; view_fields := map field_from_definition (file_fields f) |})
    (parquet_files inv).
End Inspect.

(** * Fingerprints *)

Section Fingerprint.
Context `{Digests} `{ParquetFiles} `{Serde}.

Definition FINGERPRINT_VERSION : Z := 1.

Definition entry_json (e : FingerprintEntry) : json := JObj [
  ("relative_path", JStr (fe_relative_path e)); ("size_bytes", JNum (fe_size_bytes e));
  ("num_rows", JNum (fe_num_rows e)); ("num_row_groups", JNum (Z.of_nat (fe_num_row_groups e)));
  ("schema_signature", JStr (fe_schema_signature e));
  ("compression_codecs", JArr (map JStr (fe_compression_codecs e)))].

Definition entry_leb (a b : FingerprintEntry) : bool := str_leb (fe_relative_path a) (fe_relative_path b).

Definition digest_entries (entries : list FingerprintEntry) : string :=
  hex_encode (sha256 ("parqonaut-dataset-fp-v1" +:+ nul
    +:+ json_to_string (JArr (map entry_json (sort_by entry_leb entries))))).

Definition entry_of (root : string) (f : ParquetFileMeta) : Result RepairError FingerprintEntry :=
  rel ← relativize root (file_path f);
  Ok {| fe_relative_path := rel; fe_size_bytes := file_size_bytes f; fe_num_rows := file_num_rows f;
        fe_num_row_groups := file_num_row_groups f; fe_schema_signature := schema_signature f;
        fe_compression_codecs := compression_codecs f |}.

Definition compute_dataset_fingerprint (root : string) (inv : DatasetInventory)
    : Result RepairError DatasetFingerprint :=
  entries ← try_map (entry_of root) (parquet_files inv);
  let entries := sort_by entry_leb entries in
  Ok {| fp_version := FINGERPRINT_VERSION; fp_root := root; fp_entries := entries;
        digest := digest_entries entries |}.

Definition compute_fingerprint_from_scan (root : string) (report : ScanReport)
    : Result RepairError DatasetFingerprint :=
  inventory ← from_scan_report root report;
  compute_dataset_fingerprint root inventory.
End Fingerprint.

(** The inventory and the fingerprint of a dataset do not depend on the order in
    which the scanner listed the files. *)

(** * The order on paths *)

Lemma component_leb_total a b : component_leb a b = true \/ component_leb b a = true.
Proof.
  destruct a, b; simpl; auto. unfold str_leb. rewrite !bool_decide_eq_true. apply (total String.le).
Qed.

Lemma component_leb_antisym a b : component_leb a b = true -> component_leb b a = true -> a = b.
Proof.
  destruct a, b; simpl; try done. unfold str_leb. rewrite !bool_decide_eq_true.
  intros. f_equal. by apply (anti_symm String.le).
Qed.

Lemma component_leb_trans a b c : component_leb a b = true -> component_leb b c = true -> component_leb a c = true.
Proof.
  destruct a, b, c; simpl; try done. unfold str_leb. rewrite !bool_decide_eq_true. by intros; etrans.
Qed.

Lemma components_leb_total a b : components_leb a b = true \/ components_leb b a = true.
Proof.
  revert b. induction a as [|x a IH]; intros [|y b]; simpl; auto.
  destruct (decide (x = y)) as [->|Hne]; [rewrite decide_True by done; apply IH|].
  rewrite decide_False by congruence. apply component_leb_total.
Qed.

Lemma components_leb_antisym a b : components_leb a b = true -> components_leb b a = true -> a = b.
Proof.
  revert b. induction a as [|x a IH]; intros [|y b]; simpl; try done.
  destruct (decide (x = y)) as [->|Hne].
  - rewrite decide_True by done. intros. f_equal. by apply IH.
  - rewrite decide_False by congruence. intros Hxy Hyx. by destruct Hne; apply component_leb_antisym.
Qed.

Lemma components_leb_trans a b c :
  components_leb a b = true -> components_leb b c = true -> components_leb a c = true.
Proof.
  revert b c. induction a as [|x a IH]; intros [|y b] [|z c]; simpl; try done.
  destruct (decide (x = y)) as [->|Hxy], (decide (y = z)) as [->|Hyz].
  - apply IH.
  - done.
  - by rewrite decide_False by congruence.
  - destruct (decide (x = z)) as [->|].
    + intros H1 H2. by destruct Hxy; apply component_leb_antisym.
    + apply component_leb_trans.
Qed.

(** * Inventories *)

(** Records with distinct paths sort to one list, whatever their order. *)
Lemma sort_by_path_unique {A} (key : A -> string) l1 l2 : NoDup (map (fun a => components (key a)) l1) -> l1 ≡ₚ l2 ->
  sort_by (fun a b => path_leb (key a) (key b)) l1 = sort_by (fun a b => path_leb (key a) (key b)) l2.
Proof.
  intros Hnd Hp. set (leb := fun a b => path_leb (key a) (key b)).
  assert (forall l, StronglySorted (fun a b => leb a b = true) (sort_by leb l)) as Hs.
  { intros l. apply Sorted_StronglySorted; [intros a b c; apply components_leb_trans|].
    apply sort_by_sorted. intros a b. apply components_leb_total. }
  apply (StronglySorted_unique_strong (fun a b => leb a b = true)); [| apply Hs | apply Hs |].
  - intros a b Ha Hb Hab Hba. rewrite sort_by_perm in Ha, Hb. rewrite <- Hp in Hb.
    assert (components (key a) = components (key b)) as Hk by by apply components_leb_antisym.
    apply list_elem_of_lookup in Ha as [i Hi]. apply list_elem_of_lookup in Hb as [j Hj].
    assert (i = j) as <-; [|congruence]. eapply (NoDup_lookup _ i j (components (key a)) Hnd);
      rewrite list_lookup_fmap; [by rewrite Hi|by rewrite Hj; simpl; rewrite Hk].
  - by rewrite !sort_by_perm.
Qed.

Definition asset_leb (a b : AssetRecord) : bool := path_leb (asset_path a) (asset_path b).
Definition asset_key (a : AssetRecord) : list Component := components (asset_path a).

Lemma sort_assets_unique l1 l2 : NoDup (map asset_key l1) -> l1 ≡ₚ l2 ->
  sort_by asset_leb l1 = sort_by asset_leb l2.
Proof. apply sort_by_path_unique. Qed.

Section Order.
Context `{Digests} `{ParquetFiles} `{Serde}.

(** Two scans that list the same files in any order give the same inventory
    (or the same error), hence the same fingerprint, as long as the Parquet
    paths are distinct. *)
Theorem fingerprint_scan_order root r1 r2 :
  NoDup (map asset_key (filter (fun a => asset_format a = Parquet) (assets r1))) ->
  assets r1 ≡ₚ assets r2 ->
  from_scan_report root r1 = from_scan_report root r2
  /\ compute_fingerprint_from_scan root r1 = compute_fingerprint_from_scan root r2.
Proof.
  intros Hnd Hp. assert (sorted_parquet_assets r1 = sorted_parquet_assets r2) as Hs.
  { apply sort_assets_unique; [done|]. by apply filter_Permutation. }
  assert (from_scan_report root r1 = from_scan_report root r2) as Hf by (unfold from_scan_report; by rewrite Hs).
  split; [done|]. unfold compute_fingerprint_from_scan. by rewrite Hf.
Qed.
End Order.
