(* ===== verification/Rules.v ===== *)
(** Diagnosis and repair rules: the findings of diagnose.rs, the operations that
    rules.rs and schema_rules.rs propose, of src/crates/parqonaut-repair/src.

    Fresh UUIDs come from a supply indexed by the number of findings present.
    Debug forms ([{:?}]) escape the ASCII characters that Rust escapes. *)

From Stdlib Require Import Ascii.
From S2P Require Import Prelude BTree Location Errors Schema RepairPlan Deps Inventory.

(** * Finding codes (paraclete-types/src/finding_code.rs) *)

Definition METADATA_ROW_GROUP_SUSPICIOUSLY_SMALL : string := "system.metadata.row_group_suspiciously_small".
Definition FORMAT_PARQUET_READ_FAILED : string := "system.format.parquet_read_failed".
Definition REPAIR_EXCESSIVE_SMALL_FILES : string := "system.repair.excessive_small_files".
Definition REPAIR_INEFFICIENT_ROW_GROUPS : string := "system.repair.inefficient_row_groups".
Definition REPAIR_INCONSISTENT_COMPRESSION : string := "system.repair.inconsistent_compression".
Definition REPAIR_SCHEMA_DRIFT : string := "system.repair.schema_drift".
Definition REPAIR_MISSING_STATISTICS : string := "system.repair.missing_statistics".
Definition REPAIR_OVERSIZED_FILE : string := "system.repair.oversized_file".
Definition REPAIR_SCHEMA_CONFLICT : string := "system.repair.schema_conflict".

(** * Diagnosis *)

Record DiagnosisReport := {
  diag_scan_id : string;
  diag_findings : list Finding;
  diag_total_rows : Z;
  parquet_file_count : nat;
}.

Definition jnat (n : nat) : json := JNum (Z.of_nat n).
Definition jopt {A} (f : A -> json) (o : option A) : json := match o with Some a => f a | None => JNull end.

Definition first_locations (files : list ParquetFileMeta) : list (option string) :=
  map (fun f => Some (file_path f)) (take 10 files).

Definition small_files_finding (id root : string) (policy : RepairPolicy) (small : list ParquetFileMeta)
    : Finding :=
  let median := median_u64 (map file_size_bytes small) in {|
  find_id := id; find_code := REPAIR_EXCESSIVE_SMALL_FILES; find_severity := Medium;
  find_summary := "Dataset contains " +:+ pretty (length small) +:+ " pathologically small Parquet files";
  find_detail := pretty (length small) +:+ " files are under " +:+ pretty (small_file_threshold_mb policy)
    +:+ " MiB (median " +:+ pretty (median / 1024)%Z
    +:+ " KiB). Consolidation may improve scan and read efficiency.";
  find_payloads := [Some (JObj [
    ("file_count", jnat (length small)); ("median_size_bytes", JNum median);
    ("threshold_bytes", JNum (small_file_threshold_bytes policy));
    ("paths_sample", JArr (map JStr (take 5 (map file_path small))))])];
  find_locations := first_locations small |}.

(** The three conditions of the row-group loop. *)
Definition row_groups_inefficient (policy : RepairPolicy) (files : nat) (f : ParquetFileMeta) : bool :=
  let target := target_row_group_bytes policy in
  let tiny := (8 <=? file_num_row_groups f) && (median_row_group_bytes f <? target / 64)%Z in
  let huge := (wrap_u64 (target * 2) <? median_row_group_bytes f)%Z
              && (file_num_row_groups f <=? 2) && (1000 <? file_num_rows f)%Z in
  let shard := (min_files_for_merge policy <=? files) && (file_num_row_groups f =? 1)
               && (file_size_bytes f <? small_file_threshold_bytes policy)%Z
               && (0 <? file_num_rows f)%Z && (file_num_rows f <=? 5000)%Z in
  tiny || huge || shard.

Definition row_groups_finding (id : string) (policy : RepairPolicy) (files : list ParquetFileMeta) : Finding :=
  let median := median_u64 (map median_row_group_bytes files) in {|
  find_id := id; find_code := REPAIR_INEFFICIENT_ROW_GROUPS; find_severity := Medium;
  find_summary := "Parquet row groups are inefficient for this dataset";
  find_detail := pretty (length files) +:+ " file(s) have row groups far from the "
    +:+ pretty (target_row_group_mb policy) +:+ " MiB target (median compressed RG ~ "
    +:+ pretty (median / (1024 * 1024))%Z +:+ " MiB).";
  find_payloads := [Some (JObj [
    ("affected_files", jnat (length files)); ("median_row_group_bytes", JNum median);
    ("target_bytes", JNum (target_row_group_bytes policy))])];
  find_locations := first_locations files |}.

Definition compression_finding (id : string) (policy : RepairPolicy) (codecs : list string) : Finding := {|
  find_id := id; find_code := REPAIR_INCONSISTENT_COMPRESSION; find_severity := Low;
  find_summary := "Dataset uses mixed Parquet compression codecs";
  find_detail := "Observed codecs: " +:+ join_strings ", " codecs +:+ ". Normalizing to `"
    +:+ default_compression policy
    +:+ "` is a representation change only when schemas and rows are preserved.";
  find_payloads := [Some (JObj [("codecs", JArr (map JStr codecs))])];
  find_locations := [] |}.

Definition drift_finding (id root : string) (signatures : bmap (list string)) : Finding := {|
  find_id := id; find_code := REPAIR_SCHEMA_DRIFT; find_severity := High;
  find_summary := "Schema drift detected across dataset files";
  find_detail := pretty (length signatures) +:+ " distinct schema signatures under `" +:+ root
    +:+ "`. Alignment requires explicit review.";
  find_payloads := [Some (JObj [("signatures", JArr (map (fun sp => JObj [
    ("schema_signature", JStr (fst sp)); ("file_count", jnat (length (snd sp)));
    ("sample_path", jopt JStr (head (snd sp)))]) signatures))])];
  find_locations := [] |}.

(** [if cond { findings.push(..) }]; the pushed finding takes the next UUID. *)
Definition push_if (cond : bool) (mk : string -> Finding) (uuid : nat -> string) (findings : list Finding)
    : list Finding :=
  if cond then findings ++ [mk (uuid (length findings))] else findings.

Section Diagnose.
Context `{ParquetFiles} `{Serde}.

Definition diagnose (uuid : nat -> string) (root : string) (scan : ScanReport) (policy : RepairPolicy)
    : Result RepairError DiagnosisReport :=
  inventory ← from_scan_report root scan;
  match parquet_files inventory with
  | [] => Ok {| diag_scan_id := scan_id scan; diag_findings := scan_findings scan;
                diag_total_rows := 0; parquet_file_count := 0 |}
  | files =>
      let small := small_files inventory (small_file_threshold_bytes policy) in
      let inefficient := filter (fun f => row_groups_inefficient policy (length files) f = true) files in
      let codecs := all_compression_codecs inventory in
      let findings := scan_findings scan in
      let findings := push_if (min_files_for_merge policy <=? length small)
        (fun id => small_files_finding id root policy small) uuid findings in
      let findings := push_if (negb (length inefficient =? 0))
        (fun id => row_groups_finding id policy inefficient) uuid findings in
      let findings := push_if (min_codecs_for_inconsistency policy <=? length codecs)
        (fun id => compression_finding id policy codecs) uuid findings in
      let findings := push_if (1 <? length (schema_signatures inventory))
        (fun id => drift_finding id root (schema_signatures inventory)) uuid findings in
      Ok {| diag_scan_id := scan_id scan;
            diag_findings := sort_by (fun a b => str_leb (find_code a) (find_code b)) findings;
            diag_total_rows := total_rows inventory; parquet_file_count := length files |}
  end.
End Diagnose.

(** * JSON of actions *)

(** [#[serde(skip_serializing_if = "Vec::is_empty")]]. *)
Definition paths_member (name : string) (paths : list string) : list (string * json) :=
  match paths with [] => [] | _ :: _ => [(name, JArr (map JStr paths))] end.

Definition action_json (a : RepairAction) : json :=
  JObj (("kind", JStr (kind_label a)) ::
    match a with
    | Recompress codec paths => ("codec", JStr codec) :: paths_member "target_paths" paths
    | RebuildStatistics paths => paths_member "target_paths" paths
    | ResizeRowGroups bytes paths => ("target_bytes", JNum bytes) :: paths_member "target_paths" paths
    | MergeSmallFiles bytes inputs =>
        [("target_bytes", JNum bytes); ("input_paths", JArr (map JStr inputs))]
    | SplitLargeFile bytes input => [("target_bytes", JNum bytes); ("input_path", JStr input)]
    | AlignSchema field from to =>
        [("field", JStr field); ("from_type", JStr from); ("to_type", JStr to)]
    | CastColumn column from to =>
        [("column", JStr column); ("from_type", JStr from); ("to_type", JStr to)]
    | RenameColumn from to => [("from", JStr from); ("to", JStr to)]
    | Repartition strategy => [("strategy", JStr strategy)]
    end).

(** * Repair rules *)

Record ProposedOperation := {
  prop_operation_id : string;
  prop_finding_ids : list string;
  prop_safety : RepairSafety;
  prop_action : RepairAction;
  prop_rationale : string;
  prop_evidence : list EvidenceRef;
  prop_preconditions : list Precondition;
  prop_expected_outcomes : list ExpectedOutcome;
}.

Section Rules.
Context `{Digests}.

Definition build_op (prefix : string) (finding : Finding) (safety : RepairSafety) (action : RepairAction)
    (rationale : string) (preconditions : list Precondition) (outcomes : list ExpectedOutcome)
    : ProposedOperation := {|
  prop_operation_id := stable_hex_id prefix
    (canonical_json (JObj [("code", JStr (find_code finding)); ("action", action_json action)]));
  prop_finding_ids := [find_code finding]; prop_safety := safety; prop_action := action;
  prop_rationale := rationale;
  prop_evidence := [{| finding_id := find_id finding; evidence_summary := find_summary finding;
                       payload := head (find_payloads finding) ≫= id |}];
  prop_preconditions := preconditions; prop_expected_outcomes := outcomes |}.

(** [key_counts]: how many of the small files have each structural key. *)
Definition count_keys (files : list ParquetFileMeta) : bmap nat :=
  foldl (fun m f => let key := structural_schema_key (file_fields f) in
                    bm_insert key (S (default 0 (bm_get key m))) m) [] files.

(** [max_by_key]: the last of the maximal entries. *)
Definition max_entry (m : bmap nat) : option (string * nat) :=
  foldl (fun best e => match best with
                       | Some b => if snd e <? snd b then Some b else Some e
                       | None => Some e
                       end) None m.

Definition dominant_key (files : list ParquetFileMeta) : option string := fst <$> max_entry (count_keys files).

(** [filter_map(|f| relativize(root, &f.path).ok())]. *)
Definition relative_paths (root : string) (files : list ParquetFileMeta) : list string :=
  omap (fun f => result_ok (relativize root (file_path f))) files.

Definition has_key (key : option string) (f : ParquetFileMeta) : bool :=
  match key with None => true | Some k => bool_decide (structural_schema_key (file_fields f) = k) end.

Definition merge_inputs (root : string) (policy : EffectivePolicy) (small : list ParquetFileMeta) : list string :=
  let key := dominant_key small in
  relative_paths root
    (filter (fun f => has_key key f = true)
      (filter (fun f => (file_size_bytes f <= max_file_bytes (policy_files policy))%Z) small)).

Definition merge_rule (root : string) (inv : DatasetInventory) (policy : EffectivePolicy) (finding : Finding)
    : list ProposedOperation :=
  let repair := policy_repair policy in
  let small := small_files inv (small_file_threshold_bytes repair) in
  if length small <? min_files_for_merge repair then []
  else
    let inputs := merge_inputs root policy small in
    if length inputs <? min_files_for_merge repair then []
    else [build_op "merge" finding Safe (MergeSmallFiles (merge_target_bytes repair) inputs)
      ("Merge " +:+ pretty (length small) +:+ " small files (median " +:+ pretty (median_file_size inv / 1024)%Z
       +:+ " KiB) toward ~" +:+ pretty (merge_target_mb repair) +:+ " MiB targets")
      [{| pre_kind := "schema_compatible"; description := "All merged files share compatible schema signatures" |}]
      [{| metric := "file_count"; before := jnat (length (parquet_files inv)); after_expected := JStr "fewer" |}]].

Definition row_groups_rule (root : string) (inv : DatasetInventory) (policy : EffectivePolicy) (finding : Finding)
    : ProposedOperation :=
  let repair := policy_repair policy in
  build_op "rowgroups" finding Safe
    (ResizeRowGroups (target_row_group_bytes repair) (relative_paths root (parquet_files inv)))
    ("Normalize row groups toward " +:+ pretty (target_row_group_mb repair) +:+ " MiB target")
    [{| pre_kind := "readable_parquet"; description := "Target files must be readable Parquet" |}]
    [{| metric := "row_group_size";
        before := jopt (fun f => JNum (median_row_group_bytes f)) (head (parquet_files inv));
        after_expected := JNum (target_row_group_bytes repair) |}].

Definition compression_rule (root : string) (inv : DatasetInventory) (policy : EffectivePolicy) (finding : Finding)
    : ProposedOperation :=
  let codec := default_compression (policy_repair policy) in
  build_op "compress" finding Safe (Recompress codec (relative_paths root (parquet_files inv)))
    ("Normalize compression to `" +:+ codec +:+ "` per repair policy")
    [{| pre_kind := "lossless_rewrite"; description := "Recompression preserves logical values" |}]
    [{| metric := "compression_codec"; before := JArr (map JStr (all_compression_codecs inv));
        after_expected := JArr [JStr (to_uppercase codec)] |}].

Definition finding_rule (root : string) (inv : DatasetInventory) (policy : EffectivePolicy) (finding : Finding)
    : list ProposedOperation :=
  if decide (find_code finding = REPAIR_EXCESSIVE_SMALL_FILES) then merge_rule root inv policy finding
  else if decide (find_code finding = REPAIR_INEFFICIENT_ROW_GROUPS) then [row_groups_rule root inv policy finding]
  else if decide (find_code finding = REPAIR_INCONSISTENT_COMPRESSION) then [compression_rule root inv policy finding]
  else [].

Definition statistics_rule (root : string) (inv : DatasetInventory) : list ProposedOperation :=
  let no_stats := filter (fun f => has_statistics f = false) (parquet_files inv) in
  match no_stats with
  | [] => []
  | _ :: _ =>
      let paths := relative_paths root no_stats in
      [{| prop_operation_id := stable_hex_id "stats" (canonical_json (JObj [("paths", JArr (map JStr paths))]));
          prop_finding_ids := ["missing-statistics"]; prop_safety := Safe;
          prop_action := RebuildStatistics paths;
          prop_rationale := "Rebuild statistics for " +:+ pretty (length no_stats)
            +:+ " file(s) missing column stats";
          prop_evidence := []; prop_preconditions := []; prop_expected_outcomes := [] |}]
  end.

Definition split_rule (root : string) (policy : EffectivePolicy) (f : ParquetFileMeta) : list ProposedOperation :=
  if (max_file_bytes (policy_files policy) <? file_size_bytes f)%Z then
    match relativize root (file_path f) with
    | Ok rel =>
        [{| prop_operation_id := stable_hex_id "split"
              (canonical_json (JObj [("path", JStr rel); ("size", JNum (file_size_bytes f))]));
            prop_finding_ids := ["oversized-" +:+ rel]; prop_safety := Safe;
            prop_action := SplitLargeFile (split_target_bytes (policy_files policy)) rel;
            prop_rationale := "Split oversized file " +:+ file_path f +:+ " ("
              +:+ pretty (file_size_bytes f / (1024 * 1024))%Z +:+ " MiB > "
              +:+ pretty (max_file_mb (policy_files policy)) +:+ " MiB max)";
            prop_evidence := []; prop_preconditions := []; prop_expected_outcomes := [] |}]
    | Err _ => []
    end
  else [].

Definition is_resize (a : RepairAction) : bool := match a with ResizeRowGroups _ _ => true | _ => false end.

(** The fallback on the scanner's own finding. *)
Definition scan_row_groups_rule (root : string) (inv : DatasetInventory) (policy : EffectivePolicy)
    (finding : Finding) : list ProposedOperation :=
  if decide (find_code finding = METADATA_ROW_GROUP_SUSPICIOUSLY_SMALL) then
    [build_op "rowgroups-scan" finding Safe
      (ResizeRowGroups (target_row_group_bytes (policy_repair policy)) (relative_paths root (parquet_files inv)))
      "Normalize suspiciously small row groups detected during scan" [] []]
  else [].

Definition prop_leb (a b : ProposedOperation) : bool := str_leb (prop_operation_id a) (prop_operation_id b).

Definition apply_repair_rules (root : string) (scan : ScanReport) (findings : list Finding)
    (inv : DatasetInventory) (policy : EffectivePolicy) : Result RepairError (list ProposedOperation) :=
  let ops := concat (map (finding_rule root inv policy) findings)
             ++ statistics_rule root inv
             ++ concat (map (split_rule root policy) (parquet_files inv)) in
  let has_rg_op := existsb (fun o => is_resize (prop_action o)) ops in
  let ops := if has_rg_op then ops
             else ops ++ concat (map (scan_row_groups_rule root inv policy) (scan_findings scan)) in
  Ok (sort_by prop_leb ops).
End Rules.

(** * Schema rules *)

(** [{:?}] of a string and of a field descriptor. *)
Definition hex_nibble (n : N) : string := String (hex_digit n) EmptyString.
Definition escape_char (c : ascii) : string :=
  let n := N_of_ascii c in
  if (n =? 34)%N then "\" +:+ String c EmptyString
  else if (n =? 92)%N then "\\"
  else if (n =? 0)%N then "\0"
  else if (n =? 9)%N then "\t"
  else if (n =? 10)%N then "\n"
  else if (n =? 13)%N then "\r"
  else if (n <? 16)%N then "\u{" +:+ hex_nibble n +:+ "}"
  else if ((n <? 32) || (n =? 127))%N then "\u{" +:+ hex_nibble (n / 16) +:+ hex_nibble (n mod 16) +:+ "}"
  else String c EmptyString.
Fixpoint escape_string (s : string) : string :=
  match s with EmptyString => EmptyString | String c s' => escape_char c +:+ escape_string s' end.
Definition quote : string := String (ascii_of_N 34) EmptyString.
Definition str_debug (s : string) : string := quote +:+ escape_string s +:+ quote.

Definition descriptor_debug (f : FieldDescriptor) : string :=
  "FieldDescriptor { name: " +:+ str_debug (fd_name f) +:+ ", physical_type: " +:+ str_debug (fd_physical_type f)
  +:+ ", nullable: " +:+ bool_text (fd_nullable f) +:+ " }".

Definition difference_debug (k : SchemaDifferenceKind) : string :=
  match k with
  | Identical => "Identical" | ColumnOrderDifference => "ColumnOrderDifference"
  | NullableDifference => "NullableDifference" | CompatibleNumericWidening => "CompatibleNumericWidening"
  | CompatibleTypePromotion => "CompatibleTypePromotion" | MissingColumn => "MissingColumn"
  | ExtraColumn => "ExtraColumn" | ColumnNameDifference => "ColumnNameDifference"
  | IncompatibleTypeChange => "IncompatibleTypeChange" | NestedSchemaDifference => "NestedSchemaDifference"
  end.
Definition difference_text (k : SchemaDifferenceKind) : string :=
  match k with
  | Identical => "identical" | ColumnOrderDifference => "column_order_difference"
  | NullableDifference => "nullable_difference" | CompatibleNumericWidening => "compatible_numeric_widening"
  | CompatibleTypePromotion => "compatible_type_promotion" | MissingColumn => "missing_column"
  | ExtraColumn => "extra_column" | ColumnNameDifference => "column_name_difference"
  | IncompatibleTypeChange => "incompatible_type_change" | NestedSchemaDifference => "nested_schema_difference"
  end.

Definition compatibility_debug (c : Compatibility) : string :=
  match c with
  | Lossless => "Lossless" | ConditionallyLossless => "ConditionallyLossless"
  | PotentiallyLossy => "PotentiallyLossy" | CompatUnsupported => "Unsupported"
  end.
Definition compatibility_text (c : Compatibility) : string :=
  match c with
  | Lossless => "lossless" | ConditionallyLossless => "conditionally_lossless"
  | PotentiallyLossy => "potentially_lossy" | CompatUnsupported => "unsupported"
  end.

Definition descriptor_json (f : FieldDescriptor) : json := JObj [
  ("name", JStr (fd_name f)); ("physical_type", JStr (fd_physical_type f)); ("nullable", JBool (fd_nullable f))].

Definition count_member (name : string) (n : Z) : list (string * json) :=
  if (n =? 0)%Z then [] else [(name, JNum n)].

Definition difference_json (d : FieldDifference) : json := JObj ([
  ("path", JArr (map JStr (fdiff_path d))); ("left", jopt descriptor_json (diff_left d));
  ("right", jopt descriptor_json (diff_right d)); ("difference", JStr (difference_text (difference d)));
  ("compatibility", JStr (compatibility_text (compatibility d)))]
  ++ count_member "left_file_count" (left_file_count d) ++ count_member "right_file_count" (right_file_count d)).

Definition authorization_precondition : Precondition :=
  {| pre_kind := "explicit_authorization"; description := "Requires --authorize <operation_id>" |}.

Section SchemaRules.
Context `{Digests}.

Definition schema_signature_has_column (signature column : string) : bool :=
  existsb (fun part => starts_with (column +:+ "=") part) (split_char (Ascii.ascii_of_N 31) signature).

Definition rename_rule (inv : DatasetInventory) (entry : string * string) : list ProposedOperation :=
  let '(from, to) := entry in
  if decide (from = to) then []
  else
    let affected := length (filter (fun f => schema_signature_has_column (schema_signature f) from = true)
                              (parquet_files inv)) in
    if affected =? 0 then []
    else [{| prop_operation_id := stable_hex_id "schema-rename"
               (canonical_json (JObj [("from", JStr from); ("to", JStr to)]));
             prop_finding_ids := ["schema-rename-" +:+ from]; prop_safety := ReviewRequired;
             prop_action := RenameColumn from to;
             prop_rationale := "Explicit rename map: `" +:+ from +:+ "` → `" +:+ to +:+ "` in "
               +:+ pretty affected +:+ " file(s)";
             prop_evidence := [{| finding_id := from; evidence_summary := "Explicit schema rename policy";
               payload := Some (JObj [("from", JStr from); ("to", JStr to); ("affected_files", jnat affected)]) |}];
             prop_preconditions := [authorization_precondition];
             prop_expected_outcomes := [{| metric := "schema_field"; before := JObj [("name", JStr from)];
               after_expected := JObj [("name", JStr to)] |}] |}].

Definition apply_rename_rules (inv : DatasetInventory) (policy : SchemaPolicy) : list ProposedOperation :=
  concat (map (rename_rule inv) (policy_rename policy)).

(** The action that harmonises a field, if any. *)
Definition schema_action (policy : SchemaPolicy) (column : string) (left right : FieldDescriptor)
    : option RepairAction :=
  if negb (bool_decide (fd_physical_type left = fd_physical_type right))
  then Some (CastColumn column (fd_physical_type left) (fd_physical_type right))
  else if negb (bool_decide (fd_nullable left = fd_nullable right))
  then Some (CastColumn column ("nullable=" +:+ bool_text (fd_nullable left))
                        ("nullable=" +:+ bool_text (fd_nullable right)))
  else if allow_column_reorder policy
  then Some (AlignSchema column (fd_physical_type left) (fd_physical_type right))
  else None.

Definition compatibility_class (c : Compatibility) : option (RepairSafety * string) :=
  match c with
  | Lossless => Some (ReviewRequired, "schema-widen")
  | ConditionallyLossless => Some (ReviewRequired, "schema-cond")
  | PotentiallyLossy | CompatUnsupported => None
  end.

(** One field difference; [None] is the panic of [expect("left field")]. *)
Definition schema_rule (canonical : list FieldDescriptor) (policy : SchemaPolicy) (d : FieldDifference)
    : option (list ProposedOperation) :=
  if decide (difference d = Identical) then Some []
  else match compatibility_class (compatibility d) with
  | None => Some []
  | Some (safety, prefix) =>
      left ← diff_left d;
      let fallback := default FieldDescriptor_default
        (snd <$> list_find (fun f => fd_name f = fd_name left) canonical) in
      let right := default fallback (diff_right d) in
      let column := path_display (fdiff_path d) in
      Some (match schema_action policy column left right with
      | None => []
      | Some action =>
          [{| prop_operation_id := stable_hex_id prefix
                (canonical_json (JObj [("field", JStr column); ("action", action_json action)]));
              prop_finding_ids := ["schema-diff-" +:+ column]; prop_safety := safety; prop_action := action;
              prop_rationale := "Harmonize column `" +:+ column +:+ "`: " +:+ descriptor_debug left +:+ " → "
                +:+ descriptor_debug right +:+ " (" +:+ difference_debug (difference d) +:+ ", "
                +:+ compatibility_debug (compatibility d) +:+ ")";
              prop_evidence := [{| finding_id := column; evidence_summary := "Structured schema diff";
                                   payload := Some (difference_json d) |}];
              prop_preconditions := [authorization_precondition];
              prop_expected_outcomes := [{| metric := "schema_field"; before := descriptor_json left;
                                            after_expected := descriptor_json right |}] |}]
      end)
  end.

Definition apply_schema_rules (diff : SchemaDiff) (canonical : list FieldDescriptor) (policy : SchemaPolicy)
    : option (list ProposedOperation) :=
  (fun l => concat l) <$> mapM (schema_rule canonical policy) (diff_fields diff).
End SchemaRules.
