(* ===== verification/Planning.v ===== *)
(** Plans: generation (plan.rs), comparison (plan_diff.rs), the CI gate
    (check.rs), policy loading and policy fingerprints (policy.rs,
    schema_policy.rs) of src/crates/parqonaut-repair/src. *)

From Stdlib Require Import Ascii.
From S2P Require Import Prelude BTree Location Errors Schema RepairPlan Deps RepairExec Inventory.
From S2P Require Import Rules.

(** * Policy documents *)

(** [toml::Value]; parsing and printing belong to the toml crate. *)
Inductive toml_value :=
| TString (s : string)
| TInteger (z : Z)
| TBoolean (b : bool)
| TTable (t : list (string * toml_value))
| TOther.

Class Toml := {
  toml_from_str : string -> Result string (list (string * toml_value));
  toml_to_string : list (string * toml_value) -> Result string string;
}.

Definition toml_as_str (v : toml_value) : option string := match v with TString s => Some s | _ => None end.
Definition toml_as_integer (v : toml_value) : option Z := match v with TInteger z => Some z | _ => None end.
Definition toml_as_bool (v : toml_value) : option bool := match v with TBoolean b => Some b | _ => None end.
Definition toml_as_table (v : toml_value) : option (list (string * toml_value)) :=
  match v with TTable t => Some t | _ => None end.

Section Policy.
Context `{Toml}.

(** [v as u64] of an [i64]. *)
Definition as_u64_cast (z : Z) : Z := wrap_u64 z.

Definition from_toml_optional (doc : option string) : Result string RepairPolicy :=
  match doc with
  | None => Ok RepairPolicy_default
  | Some raw =>
      table ← toml_from_str raw;
      Ok (match bm_get "repair" table ≫= toml_as_table with
          | None => RepairPolicy_default
          | Some section =>
              let d := RepairPolicy_default in
              let int k def := default def (as_u64_cast <$> (bm_get k section ≫= toml_as_integer)) in
              {| default_compression := default (default_compression d)
                   (bm_get "default_compression" section ≫= toml_as_str);
                 target_row_group_mb := int "target_row_group_mb" (target_row_group_mb d);
                 small_file_threshold_mb := int "small_file_threshold_mb" (small_file_threshold_mb d);
                 merge_target_mb := int "merge_target_mb" (merge_target_mb d);
                 min_files_for_merge := min_files_for_merge d;
                 min_codecs_for_inconsistency := min_codecs_for_inconsistency d |}
          end)
  end.

Definition schema_policy_from (section : list (string * toml_value)) : SchemaPolicy :=
  let d := SchemaPolicy_default in
  let flag k def := default def (bm_get k section ≫= toml_as_bool) in
  {| allow_numeric_widening := flag "allow_numeric_widening" (allow_numeric_widening d);
     allow_nullable_widening := flag "allow_nullable_widening" (allow_nullable_widening d);
     allow_column_reorder := flag "allow_column_reorder" (allow_column_reorder d);
     allow_missing_nullable_columns :=
       flag "allow_missing_nullable_columns" (allow_missing_nullable_columns d);
     allow_timestamp_unit_widening :=
       flag "allow_timestamp_unit_widening" (allow_timestamp_unit_widening d);
     policy_rename := bm_of_list (omap (fun kv => (fun s => (fst kv, s)) <$> toml_as_str (snd kv))
       (default [] (bm_get "rename" section ≫= toml_as_table))) |}.

Definition file_policy_from (section : list (string * toml_value)) : FilePolicy :=
  let int k def := default def (as_u64_cast <$> (bm_get k section ≫= toml_as_integer)) in
  {| max_file_mb := int "max_file_mb" (max_file_mb FilePolicy_default);
     split_target_mb := int "split_target_mb" (split_target_mb FilePolicy_default) |}.

Definition ci_policy_from (section : list (string * toml_value)) : CiPolicy :=
  let d := CiPolicy_default in
  let flag k def := default def (bm_get k section ≫= toml_as_bool) in
  {| fail_on_safe_findings := flag "fail_on_safe_findings" (fail_on_safe_findings d);
     fail_on_review_required := flag "fail_on_review_required" (fail_on_review_required d);
     fail_on_destructive := flag "fail_on_destructive" (fail_on_destructive d);
     fail_on_unresolvable_schema := flag "fail_on_unresolvable_schema" (fail_on_unresolvable_schema d) |}.

Definition policy_from_toml (doc : option string) : Result string EffectivePolicy :=
  match doc with
  | None => Ok EffectivePolicy_default
  | Some raw =>
      table ← toml_from_str raw;
      let section k := bm_get k table ≫= toml_as_table in
      repair ← match section "repair" with
               | Some t => from_toml_optional (Some (default EmptyString (result_ok (toml_to_string t))))
               | None => Ok RepairPolicy_default
               end;
      Ok {| policy_repair := repair;
            policy_schema := default SchemaPolicy_default (schema_policy_from <$> section "schema");
            policy_files := default FilePolicy_default (file_policy_from <$> section "files");
            policy_ci := ci_policy_from <$> section "ci" |}
  end.
End Policy.

(** * Serialised forms *)

Definition safety_text (s : RepairSafety) : string :=
  match s with
  | Safe => "safe" | ReviewRequired => "review_required" | Destructive => "destructive"
  | Blocked => "blocked"
  end.

Definition schema_policy_json (p : SchemaPolicy) : json := JObj ([
  ("allow_numeric_widening", JBool (allow_numeric_widening p));
  ("allow_nullable_widening", JBool (allow_nullable_widening p));
  ("allow_column_reorder", JBool (allow_column_reorder p));
  ("allow_missing_nullable_columns", JBool (allow_missing_nullable_columns p));
  ("allow_timestamp_unit_widening", JBool (allow_timestamp_unit_widening p))]
  ++ match policy_rename p with [] => [] | m => [("rename", JObj (map (fun kv => (fst kv, JStr (snd kv))) m))] end).

Definition ci_policy_json (c : CiPolicy) : json := JObj [
  ("fail_on_safe_findings", JBool (fail_on_safe_findings c));
  ("fail_on_review_required", JBool (fail_on_review_required c));
  ("fail_on_destructive", JBool (fail_on_destructive c));
  ("fail_on_unresolvable_schema", JBool (fail_on_unresolvable_schema c))].

(** [#[serde(flatten)]] puts the repair policy's members beside the others. *)
Definition effective_policy_json (p : EffectivePolicy) : json :=
  let r := policy_repair p in
  JObj ([("default_compression", JStr (default_compression r));
    ("target_row_group_mb", JNum (target_row_group_mb r));
    ("small_file_threshold_mb", JNum (small_file_threshold_mb r));
    ("merge_target_mb", JNum (merge_target_mb r));
    ("min_files_for_merge", jnat (min_files_for_merge r));
    ("min_codecs_for_inconsistency", jnat (min_codecs_for_inconsistency r));
    ("schema", schema_policy_json (policy_schema p));
    ("files", JObj [("max_file_mb", JNum (max_file_mb (policy_files p)));
                    ("split_target_mb", JNum (split_target_mb (policy_files p)))])]
    ++ match policy_ci p with None => [] | Some c => [("ci", ci_policy_json c)] end).

Section Generate.
Context `{Digests} `{ParquetFiles} `{Serde}.

Definition policy_fingerprint_of (p : EffectivePolicy) : string :=
  hex_encode (sha256 ("parqonaut-policy-v1" +:+ nul +:+ canonical_json (effective_policy_json p))).

(** * Plan generation *)

Definition apply_schema_rules_blocked (conflicts : list UnresolvableSchemaConflict) : list ProposedOperation :=
  imap (fun i c => {|
    prop_operation_id := "blocked-schema-" +:+ pad4 i;
    prop_finding_ids := ["schema-conflict-" +:+ conflict_field c]; prop_safety := Blocked;
    prop_action := AlignSchema (conflict_field c)
      (default EmptyString (fd_physical_type <$> head (conflict_variants c)))
      (default EmptyString (fd_physical_type <$> conflict_variants c !! 1));
    prop_rationale := "Blocked: unresolvable schema conflict on `" +:+ conflict_field c +:+ "` — "
      +:+ conflict_reason c;
    prop_evidence := []; prop_preconditions := []; prop_expected_outcomes := [] |}) conflicts.

Definition to_operation (p : ProposedOperation) : RepairOperation := {|
  operation_id := prop_operation_id p; finding_ids := prop_finding_ids p; safety := prop_safety p;
  action := prop_action p; rationale := prop_rationale p; evidence := prop_evidence p;
  preconditions := prop_preconditions p; depends_on := [] |}.

Definition plan_content (fingerprint policy_fp : string) (operations : list RepairOperation)
    (target : option (list FieldDescriptor)) : json := JObj [
  ("fingerprint", JStr fingerprint); ("policy_fingerprint", JStr policy_fp);
  ("operations", JArr (map (fun o =>
     JArr [JStr (operation_id o); action_json (action o); JStr (safety_text (safety o))]) operations));
  ("target_schema", jopt (fun l => JArr (map descriptor_json l)) target)].

(** What is proposed for an inventory; [None] is the panic of the schema rules. *)
Definition proposals (root : string) (scan : ScanReport) (findings : list Finding) (inv : DatasetInventory)
    (policy : EffectivePolicy) (resolution : SchemaResolution)
    : option (Result RepairError (list ProposedOperation)) :=
  let canonical := default (canonical_schema (res_diff resolution)) (res_target_schema resolution) in
  schema_ops ← apply_schema_rules (res_diff resolution) canonical (policy_schema policy);
  Some (proposed ← apply_repair_rules root scan findings inv policy;
        Ok (proposed ++ apply_rename_rules inv (policy_schema policy) ++ schema_ops
            ++ apply_schema_rules_blocked (res_conflicts resolution))).

Definition generate_plan (uuid : nat -> string) (now : Z) (version root : string) (scan : ScanReport)
    (policy : EffectivePolicy) (explicit : option (list FieldDescriptor))
    : option (Result RepairError RepairPlan) :=
  match from_scan_report root scan, diagnose uuid root scan (policy_repair policy) with
  | Err e, _ | Ok _, Err e => Some (Err e)
  | Ok inventory, Ok diagnosis =>
      let resolution := resolve_canonical_schema (views_from_inventory inventory) explicit (policy_schema policy) in
      r ← proposals root scan (diag_findings diagnosis) inventory policy resolution;
      Some (proposed ← r;
        fingerprint ← compute_dataset_fingerprint root inventory;
        let policy_fp := policy_fingerprint_of policy in
        let operations := assign_dependencies (map to_operation proposed) in
        Ok {| plan_schema_version := PLAN_SCHEMA_VERSION;
              plan_id := stable_hex_id "plan" (canonical_json
                (plan_content (digest fingerprint) policy_fp operations (res_target_schema resolution)));
              plan_parqonaut_version := version; dataset_root := root; dataset_fingerprint := fingerprint;
              policy_fingerprint := policy_fp; generated_at := now; source_scan_id := scan_id scan;
              policy := policy; operations := operations;
              expected_outcomes := concat (map prop_expected_outcomes proposed);
              diagnosis_findings := diag_findings diagnosis;
              schema_diff := Some (res_diff resolution);
              schema_conflicts := match res_conflicts resolution with [] => None | cs => Some cs end;
              target_schema := res_target_schema resolution |})
  end.

(** * The CI gate *)

Inductive CheckExitCode := Compliant | RepairableIssues | CheckReviewRequired
| UnresolvableOrPolicyViolation | OperationalFailure.

#[global] Instance CheckExitCode_eq_dec : EqDecision CheckExitCode.
Proof. solve_decision. Defined.

Definition exit_code_i32 (c : CheckExitCode) : Z :=
  match c with
  | Compliant => 0 | RepairableIssues => 2 | CheckReviewRequired => 3
  | UnresolvableOrPolicyViolation => 4 | OperationalFailure => 5
  end.

Record CheckReport := {
  check_exit_code : CheckExitCode;
  check_safe_operations : nat;
  review_required_operations : nat;
  blocked_operations : nat;
  destructive_operations : nat;
  unresolvable_schema_conflicts : nat;
  check_summary : string;
}.

Definition count_safety (s : RepairSafety) (ops : list RepairOperation) : nat :=
  length (filter (fun o => safety o = s) ops).

(** The verdict on a plan: the part of [evaluate_check] after planning. *)
Definition check_plan (ci : CiPolicy) (plan : RepairPlan) : CheckReport :=
  let safe := count_safety Safe (operations plan) in
  let review := count_safety ReviewRequired (operations plan) in
  let destructive := count_safety Destructive (operations plan) in
  let unresolvable := length (default [] (schema_conflicts plan)) in
  let if_compliant exit code := if decide (exit = Compliant) then code else exit in
  let '(exit, reasons) := (Compliant, []) in
  let '(exit, reasons) := if (0 <? unresolvable) && fail_on_unresolvable_schema ci
    then (UnresolvableOrPolicyViolation, reasons ++ [pretty unresolvable +:+ " unresolvable schema conflict(s)"])
    else (exit, reasons) in
  let '(exit, reasons) := if (0 <? review) && fail_on_review_required ci
    then (if_compliant exit CheckReviewRequired, reasons ++ [pretty review +:+ " review-required operation(s)"])
    else (exit, reasons) in
  let '(exit, reasons) := if (0 <? safe) && fail_on_safe_findings ci
    then (if_compliant exit RepairableIssues, reasons ++ [pretty safe +:+ " safe repair operation(s) available"])
    else (exit, reasons) in
  let '(exit, reasons) := if (0 <? destructive) && fail_on_destructive ci
    then (UnresolvableOrPolicyViolation, reasons ++ [pretty destructive +:+ " destructive proposal(s)"])
    else (exit, reasons) in
  {| check_exit_code := exit; check_safe_operations := safe; review_required_operations := review;
     blocked_operations := count_safety Blocked (operations plan); destructive_operations := destructive;
     unresolvable_schema_conflicts := unresolvable;
     check_summary := match reasons with
                      | [] => "dataset compliant with CI policy"
                      | _ :: _ => join_strings "; " reasons
                      end |}.

Definition evaluate_check (uuid : nat -> string) (now : Z) (version root : string) (scan : ScanReport)
    (policy : EffectivePolicy) : option (Result RepairError CheckReport) :=
  match diagnose uuid root scan (policy_repair policy) with
  | Err e => Some (Err e)
  | Ok _ =>
      r ← generate_plan uuid now version root scan policy None;
      Some (plan ← r; Ok (check_plan (default CiPolicy_default (policy_ci policy)) plan))
  end.
End Generate.

(** * Plan comparison *)

Record PlanDiff := {
  operations_added : list string;
  operations_removed : list string;
  operations_changed : list string;
  policy_changed : bool;
  dataset_fingerprint_changed : bool;
  authorization_class_changed : list string;
}.

Definition ops_by_id (p : RepairPlan) : bmap RepairOperation :=
  bm_of_list (map (fun o => (operation_id o, o)) (operations p)).

Definition op_changed (l r : RepairOperation) : bool :=
  negb (bool_decide (action l = action r)) || negb (bool_decide (safety l = safety r)).

(** Ids of [left] whose operation in [right] satisfies a comparison. *)
Definition ids_where (left right : bmap RepairOperation) (f : RepairOperation -> RepairOperation -> bool)
    : list string :=
  map fst (filter (fun e => match bm_get (fst e) right with Some r => f (snd e) r | None => false end = true) left).

Definition diff_plans (left right : RepairPlan) : PlanDiff :=
  let left_ops := ops_by_id left in
  let right_ops := ops_by_id right in {|
  operations_added := filter (fun id => bm_contains id left_ops = false) (bm_keys right_ops);
  operations_removed := filter (fun id => bm_contains id right_ops = false) (bm_keys left_ops);
  operations_changed := ids_where left_ops right_ops op_changed;
  policy_changed := negb (bool_decide (policy_fingerprint left = policy_fingerprint right));
  dataset_fingerprint_changed :=
    negb (bool_decide (digest (dataset_fingerprint left) = digest (dataset_fingerprint right)));
  authorization_class_changed :=
    ids_where left_ops right_ops (fun l r => negb (bool_decide (safety l = safety r))) |}.
