(* ===== verification/PlanningProofs.v ===== *)
(** Correctness of planning: safety classes, reproducible identifiers, order
    independence of fingerprints, the CI gate and plan comparison. *)

From stdpp Require Import sorting.
From Stdlib Require Import Ascii.
From S2P Require Import Prelude BTree Location Errors Schema RepairPlan Deps DepsProofs RepairExec.
From S2P Require Import Inventory Rules Planning.

(** * Safety classes *)

(** The class of a proposed action: layout changes are automatic, schema changes
    need authorization, unresolved conflicts are blocked. *)
Definition classified (s : RepairSafety) (a : RepairAction) : Prop :=
  match a with
  | Recompress _ _ | RebuildStatistics _ | ResizeRowGroups _ _ | MergeSmallFiles _ _ | SplitLargeFile _ _ =>
      s = Safe
  | CastColumn _ _ _ | RenameColumn _ _ => s = ReviewRequired
  | AlignSchema _ _ _ => s = ReviewRequired \/ s = Blocked
  | Repartition _ => False
  end.

Lemma Forall_concat_map {A B} (P : B -> Prop) (f : A -> list B) l :
  (forall a, Forall P (f a)) -> Forall P (concat (map f l)).
Proof. intros Hf. induction l as [|a l IH]; simpl; [constructor|]. by apply Forall_app. Qed.

Section Classes.
Context `{Digests}.
Implicit Types (p : ProposedOperation).

Abbreviation classified_op := (fun p => classified (prop_safety p) (prop_action p)).

Lemma finding_rule_classified root inv pol f : Forall classified_op (finding_rule root inv pol f).
Proof.
  unfold finding_rule, merge_rule. repeat (destruct (decide _) || case_match); repeat constructor.
Qed.

Lemma statistics_rule_classified root inv : Forall classified_op (statistics_rule root inv).
Proof. unfold statistics_rule. case_match; repeat constructor. Qed.

Lemma split_rule_classified root pol f : Forall classified_op (split_rule root pol f).
Proof. unfold split_rule. repeat case_match; repeat constructor. Qed.

Lemma scan_rule_classified root inv pol f : Forall classified_op (scan_row_groups_rule root inv pol f).
Proof. unfold scan_row_groups_rule. case_match; repeat constructor. Qed.

Lemma repair_rules_classified root scan fs inv pol ops :
  apply_repair_rules root scan fs inv pol = Ok ops -> Forall classified_op ops.
Proof.
  intros [= <-]. rewrite sort_by_perm. case_match; rewrite ?Forall_app; repeat split;
    auto using Forall_concat_map, finding_rule_classified, statistics_rule_classified,
      split_rule_classified, scan_rule_classified.
Qed.

Lemma rename_rules_classified inv pol : Forall classified_op (apply_rename_rules inv pol).
Proof.
  apply Forall_concat_map. intros [from to]. simpl. destruct (decide (from = to)); [constructor|].
  case_match; repeat constructor.
Qed.

Lemma schema_action_review pol c l r a : schema_action pol c l r = Some a -> classified ReviewRequired a.
Proof. unfold schema_action. intros. split_match; simpl; auto. Qed.

Lemma schema_rule_classified can pol d ops : schema_rule can pol d = Some ops -> Forall classified_op ops.
Proof.
  unfold schema_rule. destruct (decide (difference d = Identical)); [by intros [= <-]; constructor|].
  destruct (compatibility_class _) as [[s pre]|] eqn:Hc; [|by intros [= <-]; constructor].
  assert (s = ReviewRequired) as -> by (unfold compatibility_class in Hc; by case_match; simplify_eq).
  destruct (diff_left d) as [l|]; simpl; [|done]. intros [= <-].
  case_match eqn:Ha; repeat constructor. by eapply schema_action_review.
Qed.

Lemma schema_rules_classified diff can pol ops :
  apply_schema_rules diff can pol = Some ops -> Forall classified_op ops.
Proof.
  unfold apply_schema_rules. intros Ho. apply fmap_Some in Ho as (ls & Hm & ->).
  apply mapM_Some in Hm. induction Hm as [|d l ds ls Hd _ IH]; simpl; [constructor|].
  apply Forall_app. split; [by eapply schema_rule_classified|done].
Qed.

Lemma blocked_classified cs : Forall classified_op (apply_schema_rules_blocked cs).
Proof.
  apply Forall_forall. intros p. unfold apply_schema_rules_blocked. intros (i & c & -> & _)%elem_of_lookup_imap.
  simpl. auto.
Qed.

Lemma proposals_classified root scan fs inv pol res ops :
  proposals root scan fs inv pol res = Some (Ok ops) -> Forall classified_op ops.
Proof.
  unfold proposals. destruct (apply_schema_rules _ _ _) as [sops|] eqn:Hs; [|done]. simpl.
  intros [= <-]. rewrite !Forall_app. repeat split.
  - by apply (repair_rules_classified root scan fs inv pol).
  - apply rename_rules_classified.
  - by eapply schema_rules_classified.
  - apply blocked_classified.
Qed.
End Classes.

Lemma assign_elem ops o : o ∈ assign_dependencies ops ->
  exists p, p ∈ ops /\ safety o = safety p /\ action o = action p.
Proof.
  unfold assign_dependencies. intros Ho.
  assert (forall prev l, o ∈ assign_from prev l -> exists p, p ∈ l /\ safety o = safety p /\ action o = action p) as Ha.
  { intros prev l. revert prev. induction l as [|x l IH]; intros prev; simpl; [set_solver|].
    intros [->|Hin]%elem_of_cons; [exists x; set_solver|]. destruct (IH _ Hin) as (p & ? & ?). set_solver. }
  destruct (Ha _ _ Ho) as (p & Hp & ?). exists p. split; [|done]. by rewrite sort_by_perm in Hp.
Qed.

Section Plans.
Context `{Digests} `{ParquetFiles} `{Serde}.

(** Inversion of a successful generation. *)
Lemma generate_plan_inv uuid now v root scan pol ex plan :
  generate_plan uuid now v root scan pol ex = Some (Ok plan) ->
  exists inv dx ops fp, from_scan_report root scan = Ok inv
    /\ diagnose uuid root scan (policy_repair pol) = Ok dx
    /\ proposals root scan (diag_findings dx) inv pol
         (resolve_canonical_schema (views_from_inventory inv) ex (policy_schema pol)) = Some (Ok ops)
    /\ compute_dataset_fingerprint root inv = Ok fp
    /\ dataset_fingerprint plan = fp
    /\ operations plan = assign_dependencies (map to_operation ops)
    /\ policy_fingerprint plan = policy_fingerprint_of pol
    /\ plan_id plan = stable_hex_id "plan" (canonical_json (plan_content (digest fp) (policy_fingerprint plan)
         (operations plan) (target_schema plan)))
    /\ target_schema plan =
         res_target_schema (resolve_canonical_schema (views_from_inventory inv) ex (policy_schema pol))
    /\ diagnosis_findings plan = diag_findings dx
    /\ length (default [] (schema_conflicts plan)) =
         length (res_conflicts (resolve_canonical_schema (views_from_inventory inv) ex (policy_schema pol))).
Proof.
  unfold generate_plan. destruct (from_scan_report root scan) as [inv|] eqn:Hi; [|done].
  destruct (diagnose _ _ _ _) as [dx|] eqn:Hd; [|done]. cbv zeta.
  destruct (proposals _ _ _ _ _ _) as [[ops|]|] eqn:Hp; try done. simpl.
  destruct (compute_dataset_fingerprint root inv) as [fp|] eqn:Hf; [|done]. simpl.
  intros [= <-]. exists inv, dx, ops, fp. simpl. repeat (split; [done|]).
  by destruct (map conflict_of _).
Qed.

(** Automatic operations never change the schema: an operation of a generated
    plan is [Safe] only if it recompresses, rebuilds statistics, resizes row
    groups, merges or splits; every cast, rename or alignment needs explicit
    authorization or is blocked; nothing destructive is proposed. *)
Theorem generated_plan_safety uuid now v root scan pol ex plan o :
  generate_plan uuid now v root scan pol ex = Some (Ok plan) -> o ∈ operations plan ->
  classified (safety o) (action o).
Proof.
  intros Hg Ho. apply generate_plan_inv in Hg as (inv & dx & ops & fp & _ & _ & Hp & _ & _ & Heq & _).
  rewrite Heq in Ho. apply assign_elem in Ho as (q & Hq & -> & ->).
  apply proposals_classified in Hp. rewrite Forall_forall in Hp.
  apply list_elem_of_fmap in Hq as (p & -> & Hin). by apply (Hp p).
Qed.

(** * Totality *)

Lemma field_difference_left pol name vs d : field_difference pol name vs = Some d -> is_Some (diff_left d).
Proof.
  unfold field_difference. destruct vs as [|only vs']; [done|]. cbv zeta.
  destruct (distinct_variants _ =? 1).
  - destruct (bool_decide (_ = Identical)); [done|]. intros [= <-]. simpl. eauto.
  - destruct (bool_decide (_ = Identical)); [done|]. intros [= <-]. simpl. eauto.
Qed.

Lemma schema_diff_left views pol d : d ∈ diff_fields (compute_schema_diff views pol) -> is_Some (diff_left d).
Proof.
  simpl. rewrite sort_by_perm. intros (c & _ & Hc)%list_elem_of_omap. by eapply field_difference_left.
Qed.

Lemma schema_rule_total can pol d : is_Some (diff_left d) -> is_Some (schema_rule can pol d).
Proof.
  intros [l Hl]. unfold schema_rule. rewrite Hl. destruct (decide _); [eauto|]. case_match; [|eauto].
  case_match; subst; simpl; eauto.
Qed.

Lemma apply_schema_rules_total views pol can :
  is_Some (apply_schema_rules (compute_schema_diff views pol) can pol).
Proof.
  unfold apply_schema_rules. apply fmap_is_Some, mapM_is_Some, Forall_forall.
  intros d Hd. by eapply schema_rule_total, schema_diff_left.
Qed.

(** Planning never panics: [expect("left field")] always finds a field. *)
Theorem generate_plan_total uuid now v root scan pol ex :
  generate_plan uuid now v root scan pol ex <> None.
Proof.
  unfold generate_plan. destruct (from_scan_report _ _) as [inv|]; [|done].
  destruct (diagnose _ _ _ _) as [dx|]; [|done]. cbv zeta. unfold proposals.
  destruct (apply_schema_rules_total (views_from_inventory inv) (policy_schema pol)
    (default (canonical_schema (res_diff (resolve_canonical_schema (views_from_inventory inv) ex (policy_schema pol))))
       (res_target_schema (resolve_canonical_schema (views_from_inventory inv) ex (policy_schema pol)))))
    as [ops Ho].
  cbn [res_diff resolve_canonical_schema] in *. rewrite Ho. done.
Qed.
End Plans.

(** * Reproducibility *)

(** A finding without its random id; what identifies a proposal and an operation. *)
Definition anon (f : Finding) : Finding :=
  {| find_id := EmptyString; find_code := find_code f; find_severity := find_severity f;
     find_summary := find_summary f; find_detail := find_detail f; find_payloads := find_payloads f;
     find_locations := find_locations f |}.
Definition prop_core (p : ProposedOperation) : string * RepairAction * RepairSafety :=
  (prop_operation_id p, prop_action p, prop_safety p).
Definition op_core (o : RepairOperation) : string * RepairAction * RepairSafety :=
  (operation_id o, action o, safety o).
Definition op_spec (o : RepairOperation) : string * RepairAction * RepairSafety * list string :=
  (op_core o, depends_on o).

Lemma push_if_anon c mk u1 u2 l1 l2 : (forall i j, anon (mk i) = anon (mk j)) ->
  map anon l1 = map anon l2 -> map anon (push_if c mk u1 l1) = map anon (push_if c mk u2 l2).
Proof.
  intros Hmk Hl. unfold push_if. destruct c; [|done]. rewrite !map_app, Hl. simpl. by rewrite (Hmk (u1 _) (u2 (length l2))).
Qed.

Definition core_leb (a b : string * RepairAction * RepairSafety) : bool :=
  let '(i, x, _) := a in let '(j, y, _) := b in
  (action_order x <? action_order y) || (action_order x =? action_order y) && str_leb i j.

Lemma deps_of_core prev1 prev2 o1 o2 : map op_core prev1 = map op_core prev2 -> op_core o1 = op_core o2 ->
  deps_of prev1 o1 = deps_of prev2 o2.
Proof.
  unfold deps_of. intros Hp [= _ Ha _]. rewrite Ha. clear Ha. revert prev2 Hp.
  induction prev1 as [|p prev1 IH]; intros [|q prev2]; simpl; try done.
  intros [= Hi Hq _ Hrest]. rewrite !filter_cons, Hq.
  destruct (decide _); simpl; [rewrite Hi; f_equal|]; apply IH; by rewrite Hrest.
Qed.

Lemma assign_from_core prev1 prev2 l1 l2 : map op_core prev1 = map op_core prev2 ->
  map op_core l1 = map op_core l2 ->
  map op_spec (assign_from prev1 l1) = map op_spec (assign_from prev2 l2).
Proof.
  revert prev1 prev2 l2. induction l1 as [|x l1 IH]; intros prev1 prev2 [|y l2] Hp Hl; simpl in *; try done.
  injection Hl as Hi Ha Hs Hl1.
  assert (op_core x = op_core y) as Hx by (unfold op_core; by rewrite Hi, Ha, Hs). f_equal.
  - unfold op_spec. simpl. f_equal; [exact Hx|]. by apply deps_of_core.
  - apply IH; [|done]. rewrite !map_app, Hp. simpl. by rewrite Hx.
Qed.

Lemma assign_core l1 l2 : map op_core l1 = map op_core l2 ->
  map op_spec (assign_dependencies l1) = map op_spec (assign_dependencies l2).
Proof.
  intros Hl. apply assign_from_core; [done|]. rewrite !(sort_by_map op_core op_leb core_leb) by done. by rewrite Hl.
Qed.

Section Reproducible.
Context `{Digests} `{ParquetFiles} `{Serde}.

Lemma diagnose_anon u1 u2 root scan pol :
  match diagnose u1 root scan pol, diagnose u2 root scan pol with
  | Ok d1, Ok d2 => map anon (diag_findings d1) = map anon (diag_findings d2)
  | Err e1, Err e2 => e1 = e2
  | _, _ => False
  end.
Proof.
  unfold diagnose. destruct (from_scan_report root scan) as [inv|e]; simpl; [|done].
  destruct (parquet_files inv) as [|f fs]; simpl; [done|].
  set (leb := fun a b : Finding => str_leb (find_code a) (find_code b)).
  rewrite !(sort_by_map anon leb leb) by done. f_equal.
  repeat (apply push_if_anon; [done|]). done.
Qed.

Lemma finding_rule_core root inv pol f g : anon f = anon g ->
  map prop_core (finding_rule root inv pol f) = map prop_core (finding_rule root inv pol g).
Proof.
  intros [= Hc _ _ _ _ _]. unfold finding_rule, merge_rule, row_groups_rule, compression_rule, build_op.
  rewrite Hc. repeat (destruct (decide _)); try done. by repeat case_match.
Qed.

Lemma repair_rules_core root scan l1 l2 inv pol o1 o2 : map anon l1 = map anon l2 ->
  apply_repair_rules root scan l1 inv pol = Ok o1 -> apply_repair_rules root scan l2 inv pol = Ok o2 ->
  map prop_core o1 = map prop_core o2.
Proof.
  intros Hl. unfold apply_repair_rules.
  set (ops l := concat (map (finding_rule root inv pol) l) ++ statistics_rule root inv
                ++ concat (map (split_rule root pol) (parquet_files inv))).
  assert (map prop_core (ops l1) = map prop_core (ops l2)) as Hops.
  { unfold ops. rewrite !map_app. f_equal. revert l2 Hl. induction l1 as [|f l1 IH]; intros [|g l2]; simpl; try done.
    intros [= Hf Hl]. rewrite !map_app. f_equal; [|by apply IH]. by apply finding_rule_core; unfold anon; f_equal. }
  assert (forall l, existsb (fun o => is_resize (prop_action o)) (ops l)
    = existsb (fun c => is_resize (snd (fst c))) (map prop_core (ops l))) as Hex.
  { intros l. induction (ops l) as [|o os IH]; simpl; [done|]. by rewrite IH. }
  fold (ops l1) (ops l2). cbv zeta. rewrite !Hex, Hops. intros [= <-] [= <-].
  set (leb := fun a b : string * RepairAction * RepairSafety => str_leb (fst (fst a)) (fst (fst b))).
  rewrite !(sort_by_map prop_core prop_leb leb) by done. f_equal.
  destruct (existsb _ _); [done|]. by rewrite !map_app, Hops.
Qed.

(** Plan identity is a function of the dataset, the policy and the target
    schema: clock, build version and random ids change neither the plan id nor
    any operation's id, action, safety class or dependencies. *)
Theorem plan_reproducible u1 u2 now1 now2 v1 v2 root scan pol ex p1 p2 :
  generate_plan u1 now1 v1 root scan pol ex = Some (Ok p1) ->
  generate_plan u2 now2 v2 root scan pol ex = Some (Ok p2) ->
  plan_id p1 = plan_id p2 /\ map op_spec (operations p1) = map op_spec (operations p2)
  /\ dataset_fingerprint p1 = dataset_fingerprint p2 /\ policy_fingerprint p1 = policy_fingerprint p2.
Proof.
  intros (inv & d1 & o1 & fp & Hi & Hd1 & Hp1 & Hf & Hfp1 & Ho1 & Hpf1 & Hid1 & Ht1 & _)%generate_plan_inv.
  intros (inv' & d2 & o2 & fp' & Hi' & Hd2 & Hp2 & Hf' & Hfp2 & Ho2 & Hpf2 & Hid2 & Ht2 & _)%generate_plan_inv.
  rewrite Hi in Hi'. injection Hi' as <-. rewrite Hf in Hf'. injection Hf' as <-.
  pose proof (diagnose_anon u1 u2 root scan (policy_repair pol)) as Han. rewrite Hd1, Hd2 in Han.
  assert (map op_spec (operations p1) = map op_spec (operations p2)) as Hops.
  { rewrite Ho1, Ho2. apply assign_core. rewrite !map_map.
    change (map prop_core o1 = map prop_core o2). clear - Hp1 Hp2 Han. revert Hp1 Hp2. unfold proposals.
    destruct (apply_schema_rules _ _ _); [|done]. cbn [mbind option_bind].
    destruct (apply_repair_rules _ _ (diag_findings d1) _ _) as [r1|] eqn:E1; [|done].
    destruct (apply_repair_rules _ _ (diag_findings d2) _ _) as [r2|] eqn:E2; [|done].
    intros [= <-] [= <-]. rewrite !map_app. f_equal. by eapply repair_rules_core. }
  split; [|by rewrite Hfp1, Hfp2, Hpf1, Hpf2].
  rewrite Hid1, Hid2, Hpf1, Hpf2, Ht1, Ht2. unfold plan_content. do 3 f_equal.
  assert (forall ops, map (fun o => JArr [JStr (operation_id o); action_json (action o); JStr (safety_text (safety o))]) ops
    = map (fun s : string * RepairAction * RepairSafety * list string =>
        JArr [JStr (s.1.1.1); action_json (s.1.1.2); JStr (safety_text (s.1.2))]) (map op_spec ops)) as Hj.
  { intros ops. rewrite map_map. done. }
  by rewrite !Hj, Hops.
Qed.
End Reproducible.
