(* ===== verification/PlanningGate.v ===== *)
(** What a generated plan promises its consumers: homogeneous merges, the CI
    verdict, plan comparison, how policy documents are read, the canonical form of
    a plan and its summary (plan_canonical.rs and fmt.rs of
    src/crates/parqonaut-repair/src). *)

From stdpp Require Import sorting.
From Stdlib Require Import Ascii.
From S2P Require Import Prelude BTree Location Errors Schema RepairPlan Deps DepsProofs RepairExec.
From S2P Require Import Inventory Rules Planning PlanningProofs.

(** * The safety class of each group of proposals *)

Section Groups.
Context `{Digests} `{ParquetFiles} `{Serde}.

Lemma repair_rules_safe root scan fs inv pol ops :
  apply_repair_rules root scan fs inv pol = Ok ops -> Forall (fun p => prop_safety p = Safe) ops.
Proof.
  intros [= <-]. rewrite sort_by_perm.
  assert (forall f, Forall (fun p => prop_safety p = Safe) (finding_rule root inv pol f)) as Hf.
  { intros f. unfold finding_rule, merge_rule. repeat (destruct (decide _) || case_match); repeat constructor. }
  assert (Forall (fun p => prop_safety p = Safe) (statistics_rule root inv)) as Hst.
  { unfold statistics_rule. case_match; repeat constructor. }
  assert (forall f, Forall (fun p => prop_safety p = Safe) (split_rule root pol f)) as Hsp.
  { intros f. unfold split_rule. repeat case_match; repeat constructor. }
  assert (forall f, Forall (fun p => prop_safety p = Safe) (scan_row_groups_rule root inv pol f)) as Hsc.
  { intros f. unfold scan_row_groups_rule. case_match; repeat constructor. }
  case_match; rewrite ?Forall_app; repeat split; auto using Forall_concat_map.
Qed.

Lemma rename_rules_review inv pol : Forall (fun p => prop_safety p = ReviewRequired) (apply_rename_rules inv pol).
Proof.
  apply Forall_concat_map. intros [from to]. simpl. destruct (decide (from = to)); [constructor|].
  case_match; repeat constructor.
Qed.

Lemma schema_rules_review diff can pol ops :
  apply_schema_rules diff can pol = Some ops -> Forall (fun p => prop_safety p = ReviewRequired) ops.
Proof.
  unfold apply_schema_rules. intros Ho. apply fmap_Some in Ho as (ls & Hm & ->).
  apply mapM_Some in Hm. induction Hm as [|d l ds ls Hd _ IH]; simpl; [constructor|].
  apply Forall_app. split; [|done]. clear IH. revert Hd. unfold schema_rule.
  destruct (decide (difference d = Identical)); [by intros [= <-]; constructor|].
  destruct (compatibility_class _) as [[s pre]|] eqn:Hc; [|by intros [= <-]; constructor].
  assert (s = ReviewRequired) as -> by (unfold compatibility_class in Hc; by case_match; simplify_eq).
  destruct (diff_left d); simpl; [|done]. intros [= <-]. case_match; repeat constructor.
Qed.

Lemma blocked_rules_blocked cs : Forall (fun p => prop_safety p = Blocked) (apply_schema_rules_blocked cs).
Proof.
  apply Forall_forall. intros p. unfold apply_schema_rules_blocked. by intros (i & c & -> & _)%elem_of_lookup_imap.
Qed.

(** The groups a list of proposals is made of. *)
Lemma proposals_groups root scan fs inv pol res ops :
  proposals root scan fs inv pol res = Some (Ok ops) ->
  exists safe review, ops = safe ++ review ++ apply_schema_rules_blocked (res_conflicts res)
    /\ apply_repair_rules root scan fs inv pol = Ok safe
    /\ Forall (fun p => prop_safety p = Safe) safe /\ Forall (fun p => prop_safety p = ReviewRequired) review.
Proof.
  unfold proposals. destruct (apply_schema_rules _ _ _) as [sops|] eqn:Hs; [|done]. cbn [mbind option_bind].
  destruct (apply_repair_rules _ _ _ _ _) as [r|] eqn:Hr; [|done]. intros [= <-].
  exists r, (apply_rename_rules inv (policy_schema pol) ++ sops). rewrite <- app_assoc.
  split; [done|]. split; [done|]. split; [by eapply repair_rules_safe|].
  apply Forall_app. split; [apply rename_rules_review|by eapply schema_rules_review].
Qed.

(** * Merges *)

Lemma repair_rules_merge root scan fs inv pol ops p b inputs :
  apply_repair_rules root scan fs inv pol = Ok ops -> p ∈ ops -> prop_action p = MergeSmallFiles b inputs ->
  exists f, p ∈ merge_rule root inv pol f.
Proof.
  intros [= <-] Hp Ha. rewrite sort_by_perm in Hp.
  assert (p ∈ concat (map (finding_rule root inv pol) fs) ++ statistics_rule root inv
     ++ concat (map (split_rule root pol) (parquet_files inv))
     \/ p ∈ concat (map (scan_row_groups_rule root inv pol) (scan_findings scan))) as Hin.
  { revert Hp. case_match; [by left|]. rewrite elem_of_app. tauto. }
  rewrite !elem_of_app, !list_elem_of_In, !in_concat in Hin. setoid_rewrite in_map_iff in Hin.
  destruct Hin as [[(l & (f & <- & _) & Hin)|[Hin|(l & (f & <- & _) & Hin)]]|(l & (f & <- & _) & Hin)];
    apply list_elem_of_In in Hin.
  - exists f. revert Hin. unfold finding_rule. repeat destruct (decide _); try done; set_solver.
  - unfold statistics_rule in Hin. case_match; set_solver.
  - unfold split_rule in Hin. repeat case_match; set_solver.
  - unfold scan_row_groups_rule in Hin. case_match; set_solver.
Qed.

Lemma dominant_key_none files : dominant_key files = None -> files = [].
Proof.
  unfold dominant_key. intros Hn%fmap_None. destruct files as [|f files _] using rev_ind; [done|].
  exfalso. revert Hn. unfold count_keys. rewrite foldl_snoc. set (m := bm_insert _ _ _).
  assert (m <> []) as Hm by (unfold m; generalize (foldl (fun m f => bm_insert (structural_schema_key (file_fields f))
      (S (default 0 (bm_get (structural_schema_key (file_fields f)) m))) m) [] files);
    intros [|[k v] ?]; simpl; [done|]; by repeat case_decide).
  destruct m as [|e m]; [done|]. unfold max_entry. simpl. clear. revert e.
  induction m as [|e' m IH]; intros e; simpl; [done|]. case_match; apply IH.
Qed.

Lemma merge_inputs_files root pol small : exists files key, merge_inputs root pol small = relative_paths root files
  /\ Forall (fun f => f ∈ small /\ structural_schema_key (file_fields f) = key) files.
Proof.
  unfold merge_inputs. destruct (dominant_key small) as [key|] eqn:Hk.
  - eexists _, key. split; [done|]. apply Forall_forall. intros f. rewrite !list_elem_of_filter. simpl.
    rewrite bool_decide_eq_true. tauto.
  - apply dominant_key_none in Hk as ->. exists [], EmptyString. done.
Qed.

(** A generated merge only combines files that are all small and share one
    structural schema (columns, types and nullability), and enough of them. *)
Theorem merge_inputs_homogeneous uuid now v root scan pol ex plan o b inputs :
  generate_plan uuid now v root scan pol ex = Some (Ok plan) -> o ∈ operations plan ->
  action o = MergeSmallFiles b inputs ->
  exists inv files key, from_scan_report root scan = Ok inv /\ inputs = relative_paths root files
    /\ min_files_for_merge (policy_repair pol) <= length inputs
    /\ Forall (fun f => f ∈ parquet_files inv
         /\ (file_size_bytes f < small_file_threshold_bytes (policy_repair pol))%Z
         /\ structural_schema_key (file_fields f) = key) files.
Proof.
  intros (inv & dx & ops & fp & Hi & _ & Hp & _ & _ & Heq & _)%generate_plan_inv Ho Ha.
  rewrite Heq in Ho. apply assign_elem in Ho as (q & Hq & _ & Haq). rewrite Ha in Haq.
  apply list_elem_of_fmap in Hq as (p & -> & Hin).
  pose proof (proposals_classified _ _ _ _ _ _ _ Hp) as Hcl. rewrite Forall_forall in Hcl.
  specialize (Hcl p Hin). change (prop_action p = MergeSmallFiles b inputs) with
    (action (to_operation p) = MergeSmallFiles b inputs) in *. simpl in Haq. rewrite <- Haq in Hcl. simpl in Hcl.
  apply proposals_groups in Hp as (sf & rv & -> & Hr & Hsf & Hrv).
  assert (p ∈ sf) as Hps.
  { pose proof (blocked_rules_blocked (res_conflicts (resolve_canonical_schema (views_from_inventory inv) ex (policy_schema pol)))) as Hb.
    rewrite Forall_forall in Hrv, Hb. rewrite !elem_of_app in Hin. destruct Hin as [?|[Hin|Hin]]; [done| |].
    - apply Hrv in Hin. congruence.
    - apply Hb in Hin. congruence. }
  destruct (repair_rules_merge _ _ _ _ _ _ _ b inputs Hr Hps ltac:(done)) as [f Hf].
  exists inv. revert Hf. unfold merge_rule. case_match; [set_solver|]. case_match eqn:Hlen; [set_solver|].
  intros ->%list_elem_of_singleton. simpl in Haq. injection Haq as _ ->.
  apply Nat.ltb_ge in Hlen.
  destruct (merge_inputs_files root pol (small_files inv (small_file_threshold_bytes (policy_repair pol))))
    as (files & key & Heqf & Hall).
  exists files, key. repeat split; [done|done|done|]. eapply Forall_impl; [done|]. simpl.
  intros g [Hg Hkey]. unfold small_files in Hg. apply list_elem_of_filter in Hg. tauto.
Qed.

(** * Duplicate proposals *)

Definition tiny_row_groups (f : Finding) : Prop := find_code f = METADATA_ROW_GROUP_SUSPICIOUSLY_SMALL.

Lemma scan_rule_id root inv pol f g : tiny_row_groups f -> tiny_row_groups g ->
  map prop_operation_id (scan_row_groups_rule root inv pol f) = map prop_operation_id (scan_row_groups_rule root inv pol g)
  /\ scan_row_groups_rule root inv pol f <> [].
Proof.
  intros Hf Hg. unfold scan_row_groups_rule. rewrite !decide_True by done. unfold build_op. by rewrite Hf, Hg.
Qed.

Lemma no_resize root inv pol fs : REPAIR_INEFFICIENT_ROW_GROUPS ∉ map find_code fs ->
  existsb (fun o => is_resize (prop_action o)) (concat (map (finding_rule root inv pol) fs)
    ++ statistics_rule root inv ++ concat (map (split_rule root pol) (parquet_files inv))) = false.
Proof.
  intros Hn. apply not_true_iff_false. rewrite existsb_exists. intros (o & Hin & Hr). revert Hin Hr.
  rewrite !in_app_iff, !in_concat. setoid_rewrite in_map_iff.
  intros [(l & (f & <- & Hf) & Hin)|[Hin|(l & (f & <- & _) & Hin)]].
  - unfold finding_rule, merge_rule in Hin. destruct (decide (find_code f = REPAIR_INEFFICIENT_ROW_GROUPS)) as [Hc|].
    + destruct Hn. rewrite <- Hc. apply list_elem_of_In, in_map. done.
    + repeat (destruct (decide _) || case_match); simpl in Hin; by destruct_or?; subst.
  - unfold statistics_rule in Hin. case_match; simpl in Hin; by destruct_or?; subst.
  - unfold split_rule in Hin. repeat case_match; simpl in Hin; by destruct_or?; subst.
Qed.

(** The scanner reports small row groups once per file.  Two such findings (and
    no row-group finding of diagnosis) give two operations with the same id, and
    no such plan can be ordered: executing it fails for every dataset. *)
Theorem repeated_scan_finding_unsortable uuid now v root scan pol ex plan l1 f l2 g l3 sorted :
  generate_plan uuid now v root scan pol ex = Some (Ok plan) ->
  scan_findings scan = l1 ++ f :: l2 ++ g :: l3 -> tiny_row_groups f -> tiny_row_groups g ->
  REPAIR_INEFFICIENT_ROW_GROUPS ∉ map find_code (diagnosis_findings plan) ->
  sort_by_dependencies (operations plan) <> Some (Ok sorted).
Proof.
  intros (inv & dx & ops & fp & _ & _ & Hp & _ & _ & Heq & _ & _ & _ & Hdx & _)%generate_plan_inv Hs Hf Hg Hn.
  apply duplicate_ids_rejected. rewrite Heq, assign_ids, map_map.
  apply proposals_groups in Hp as (sf & rv & -> & Hr & _ & _).
  rewrite map_app. intros [Hnd _]%NoDup_app. revert Hnd. revert Hr. intros [= <-].
  rewrite Hdx in Hn. rewrite (no_resize root inv pol _ Hn).
  change (map (fun x => operation_id (to_operation x))) with (map prop_operation_id).
  rewrite (fmap_Permutation prop_operation_id _ _ (sort_by_perm _ _)).
  rewrite map_app, Hs. intros (_ & _ & Hnd)%NoDup_app. revert Hnd.
  assert (concat (map (scan_row_groups_rule root inv pol) (l1 ++ f :: l2 ++ g :: l3))
    = concat (map (scan_row_groups_rule root inv pol) l1) ++ scan_row_groups_rule root inv pol f
      ++ concat (map (scan_row_groups_rule root inv pol) l2) ++ scan_row_groups_rule root inv pol g
      ++ concat (map (scan_row_groups_rule root inv pol) l3)) as ->.
  { rewrite map_app, concat_app. simpl. by rewrite map_app, concat_app. }
  destruct (scan_rule_id root inv pol f g Hf Hg) as [Hid Hne].
  rewrite !map_app, <- Hid. intros (_ & _ & (_ & Hd & _)%NoDup_app)%NoDup_app.
  destruct (scan_row_groups_rule root inv pol f) as [|p ps]; [done|]. apply (Hd (prop_operation_id p)); set_solver.
Qed.
End Groups.

(** * The CI gate *)

(** Conflicts and destructive proposals outrank reviews, which outrank safe
    repairs; each class counts only if the policy says so. *)
Definition verdict (ci : CiPolicy) (r : CheckReport) : CheckExitCode :=
  if (0 <? unresolvable_schema_conflicts r) && fail_on_unresolvable_schema ci
     || (0 <? destructive_operations r) && fail_on_destructive ci then UnresolvableOrPolicyViolation
  else if (0 <? review_required_operations r) && fail_on_review_required ci then CheckReviewRequired
  else if (0 <? check_safe_operations r) && fail_on_safe_findings ci then RepairableIssues
  else Compliant.

Lemma check_plan_verdict ci plan : check_exit_code (check_plan ci plan) = verdict ci (check_plan ci plan).
Proof.
  unfold verdict, check_plan. cbv zeta.
  destruct ((0 <? length (default [] (schema_conflicts plan))) && fail_on_unresolvable_schema ci) eqn:E1;
  destruct ((0 <? count_safety ReviewRequired (operations plan)) && fail_on_review_required ci) eqn:E2;
  destruct ((0 <? count_safety Safe (operations plan)) && fail_on_safe_findings ci) eqn:E3;
  destruct ((0 <? count_safety Destructive (operations plan)) && fail_on_destructive ci) eqn:E4;
  simpl; by rewrite ?E1, ?E2, ?E3, ?E4.
Qed.

Lemma count_none s s' (ps : list ProposedOperation) : s <> s' ->
  Forall (fun p => prop_safety p = s') ps -> filter (fun p => prop_safety p = s) ps = [].
Proof.
  intros Hne Hall. induction Hall as [|p ps Hp _ IH]; [done|].
  rewrite filter_cons, decide_False; [done|congruence].
Qed.

Lemma count_assigned s ops :
  count_safety s (assign_dependencies (map to_operation ops)) = length (filter (fun p => prop_safety p = s) ops).
Proof.
  unfold count_safety, assign_dependencies.
  assert (forall prev l, length (filter (fun o => safety o = s) (assign_from prev l))
    = length (filter (fun o => safety o = s) l)) as Ha.
  { intros prev l. revert prev. induction l as [|o l IH]; intros prev; simpl; [done|].
    rewrite !filter_cons. simpl. destruct (decide _); simpl; by rewrite IH. }
  rewrite Ha. rewrite (filter_Permutation _ _ _ (sort_by_perm _ _)).
  induction ops as [|p ops IH]; simpl; [done|]. rewrite !filter_cons. simpl.
  destruct (decide _); simpl; by rewrite IH.
Qed.

Section Check.
Context `{Digests} `{ParquetFiles} `{Serde}.

(** The exit code of [prqnt check] is the verdict of the policy on the counts it
    reports: conflicts outrank reviews, reviews outrank safe repairs, and nothing
    else fails the gate.  A generated plan has no destructive operation and one
    blocked operation per unresolvable conflict. *)
Theorem evaluate_check_verdict uuid now v root scan pol r :
  evaluate_check uuid now v root scan pol = Some (Ok r) ->
  check_exit_code r = verdict (default CiPolicy_default (policy_ci pol)) r
  /\ destructive_operations r = 0 /\ blocked_operations r = unresolvable_schema_conflicts r.
Proof.
  unfold evaluate_check. destruct (diagnose _ _ _ _); [|done].
  destruct (generate_plan _ _ _ _ _ _ _) as [[plan|]|] eqn:Hg; try done. simpl. intros [= <-].
  split; [apply check_plan_verdict|]. unfold check_plan. cbv zeta.
  apply generate_plan_inv in Hg as (inv & dx & ops & fp & _ & _ & Hp & _ & _ & Heq & _ & _ & _ & _ & Hc).
  apply proposals_groups in Hp as (sf & rv & -> & _ & Hsf & Hrv).
  set (bl := apply_schema_rules_blocked _) in *.
  assert (Forall (fun p => prop_safety p = Blocked) bl) as Hbl by apply blocked_rules_blocked.
  assert (length bl = length (default [] (schema_conflicts plan))) as Hlen.
  { rewrite Hc. unfold bl, apply_schema_rules_blocked. by rewrite length_imap. }
  assert (count_safety Destructive (operations plan) = 0) as Hd.
  { rewrite Heq, count_assigned, !filter_app, !length_app.
    rewrite (count_none Destructive Safe), (count_none Destructive ReviewRequired), (count_none Destructive Blocked) by done. done. }
  assert (count_safety Blocked (operations plan) = length bl) as Hb.
  { rewrite Heq, count_assigned, !filter_app, !length_app.
    rewrite (count_none Blocked Safe), (count_none Blocked ReviewRequired) by done. simpl. f_equal.
    clear - Hbl. induction Hbl as [|p l Hp _ IH]; [done|]. rewrite filter_cons, decide_True by done. by rewrite IH. }
  rewrite Hd, Hb, Hlen. destruct (_ && _), (_ && _), (_ && _); done.
Qed.
End Check.

(** * Policy documents *)

Section PolicyDocs.
Context `{Toml}.

(** The toml crate parses what it prints. *)
Hypothesis toml_round_trip : forall t s, toml_to_string t = Ok s -> toml_from_str s = Ok t.

(** The [[repair]] section of a policy document is printed without its header
    and read back under the key [repair]: unless it nests another table of that
    name, every setting in it is silently replaced by the default. *)
Theorem repair_section_ignored raw table section text pol :
  toml_from_str raw = Ok table -> bm_get "repair" table = Some (TTable section) ->
  toml_to_string section = Ok text -> bm_get "repair" section = None ->
  policy_from_toml (Some raw) = Ok pol -> policy_repair pol = RepairPolicy_default.
Proof.
  intros Hr Ht Hs Hn. unfold policy_from_toml. rewrite Hr. cbn [mbind Result_bind]. rewrite Ht.
  cbn [mbind option_bind toml_as_table]. rewrite Hs.
  change (default EmptyString (result_ok (Ok text))) with text.
  unfold from_toml_optional. rewrite (toml_round_trip _ _ Hs). cbn [mbind Result_bind]. rewrite Hn.
  by intros [= <-].
Qed.
End PolicyDocs.

(** * Plan comparison *)

Lemma bm_get_ops p id o : NoDup (map operation_id (operations p)) ->
  bm_get id (ops_by_id p) = Some o <-> o ∈ operations p /\ operation_id o = id.
Proof.
  intros Hnd. unfold ops_by_id. split.
  - intros [<- Ho]%op_map_inv. done.
  - intros [Ho <-]. apply bm_of_list_get_nodup; [by rewrite map_map|].
    apply list_elem_of_fmap. eauto.
Qed.

Lemma filter_keys_nil (P : string -> Prop) `{forall x, Decision (P x)} l :
  filter P l = [] <-> forall x, x ∈ l -> ~ P x.
Proof.
  split.
  - intros Hf x Hx Hp. assert (x ∈ filter P l) as Hin by (by apply list_elem_of_filter). rewrite Hf in Hin. set_solver.
  - intros Hn. destruct (filter P l) as [|x l'] eqn:Hf; [done|]. exfalso.
    assert (x ∈ filter P l) as [Hp Hx]%list_elem_of_filter by (rewrite Hf; set_solver). by apply (Hn x).
Qed.

(** One direction of a comparison: nothing removed, nothing changed. *)
Definition covered (l r : RepairPlan) : Prop :=
  forall o, o ∈ operations l -> exists o', o' ∈ operations r /\ op_core o' = op_core o.

Lemma covered_removed l r : NoDup (map operation_id (operations l)) -> NoDup (map operation_id (operations r)) ->
  covered l r <->
  filter (fun id => bm_contains id (ops_by_id r) = false) (bm_keys (ops_by_id l)) = []
  /\ ids_where (ops_by_id l) (ops_by_id r) op_changed = [].
Proof.
  intros Hl Hr. rewrite filter_keys_nil. unfold ids_where. split.
  - intros Hc. split.
    + intros id Hid Hn. apply bm_get_keys in Hid as [o Ho]. apply bm_get_ops in Ho as [Ho <-]; [|done].
      destruct (Hc o Ho) as (o' & Ho' & [= Hi _ _]). apply bool_decide_eq_false in Hn. apply Hn.
      exists o'. by apply bm_get_ops.
    + apply (f_equal (map fst)) with (y := []).
      destruct (filter _ (ops_by_id l)) as [|[id o] rest] eqn:Hf; [done|]. exfalso.
      assert ((id, o) ∈ filter (fun e => match bm_get (fst e) (ops_by_id r) with
         | Some x => op_changed (snd e) x | None => false end = true) (ops_by_id l)) as Hin by (rewrite Hf; set_solver).
      apply list_elem_of_filter in Hin as [Hch Hin]. simpl in Hch.
      apply bm_get_of_nodup in Hin; [|apply bm_wf_nodup, bm_of_list_wf].
      apply bm_get_ops in Hin as [Ho <-]; [|done]. destruct (Hc o Ho) as (o' & Ho' & [= Hi Ha Hs]).
      rewrite (proj2 (bm_get_ops r (operation_id o) o' Hr)) in Hch by done. unfold op_changed in Hch.
      rewrite !bool_decide_true in Hch by done. done.
  - intros [Hrem Hch] o Ho.
    assert (bm_get (operation_id o) (ops_by_id l) = Some o) as Hgl by (by apply bm_get_ops).
    assert (is_Some (bm_get (operation_id o) (ops_by_id r))) as [o' Hgr].
    { destruct (bm_get (operation_id o) (ops_by_id r)) eqn:E; [eauto|]. exfalso.
      apply (Hrem (operation_id o)); [apply bm_get_keys; eauto|]. unfold bm_contains. by rewrite E. }
    exists o'. pose proof Hgr as [Ho' Hid]%bm_get_ops; [|done]. split; [done|].
    destruct (op_changed o o') eqn:Ec.
    + exfalso. apply map_eq_nil in Hch. assert ((operation_id o, o) ∈ ([] : bmap RepairOperation)); [|set_solver].
      rewrite <- Hch. apply list_elem_of_filter. simpl. rewrite Hgr. split; [done|by apply bm_get_elem].
    + unfold op_changed in Ec. apply orb_false_iff in Ec as [Ea Es].
      rewrite negb_false_iff, bool_decide_eq_true in Ea, Es. unfold op_core. congruence.
Qed.

Lemma core_nodup l : NoDup (map operation_id l) -> NoDup (map op_core l).
Proof. intros Hl. apply (NoDup_fmap_1 (fun c => fst (fst c))). by rewrite <- list_fmap_compose. Qed.

(** A comparison reports no operation added, removed or changed exactly when
    the two plans propose the same actions with the same safety classes under
    the same ids. *)
Theorem diff_plans_empty_iff l r :
  NoDup (map operation_id (operations l)) -> NoDup (map operation_id (operations r)) ->
  operations_added (diff_plans l r) = [] /\ operations_removed (diff_plans l r) = []
  /\ operations_changed (diff_plans l r) = []
  <-> map op_core (operations l) ≡ₚ map op_core (operations r).
Proof.
  intros Hl Hr. simpl. split.
  - intros (Hadd & Hrem & Hch). assert (covered l r) as Hlr by (by apply covered_removed).
    apply NoDup_Permutation; [by apply core_nodup|by apply core_nodup|]. intros c. rewrite !list_elem_of_fmap. split.
    + intros (o & -> & Ho). destruct (Hlr o Ho) as (o' & ? & ?). eauto.
    + intros (x & -> & Hx). rewrite filter_keys_nil in Hadd.
      assert (is_Some (bm_get (operation_id x) (ops_by_id l))) as [o Hgo].
      { destruct (bm_get (operation_id x) (ops_by_id l)) eqn:E; [eauto|]. exfalso.
        apply (Hadd (operation_id x)); [|unfold bm_contains; by rewrite E].
        apply bm_get_keys. exists x. by apply bm_get_ops. }
      apply bm_get_ops in Hgo as [Ho Hid]; [|done]. destruct (Hlr o Ho) as (x' & Hx' & Hc).
      exists o. split; [|done]. rewrite <- Hc. f_equal. apply (same_id _ Hr); [done|done|].
      injection Hc as Hid' _ _. congruence.
  - intros Hp. assert (forall a b, map op_core (operations a) ≡ₚ map op_core (operations b) -> covered a b) as Hcov.
    { intros a b Hab o Ho. assert (op_core o ∈ map op_core (operations b)) as Hin.
      { rewrite <- Hab. apply list_elem_of_fmap. eauto. }
      apply list_elem_of_fmap in Hin as (o' & ? & ?). eauto. }
    apply Hcov in Hp as Hlr. symmetry in Hp. apply Hcov in Hp as Hrl.
    apply covered_removed in Hlr as [? ?]; [|done|done]. apply covered_removed in Hrl as [? _]; done.
Qed.

(** * The canonical form of a plan (plan_canonical.rs) *)

Module PlanCanonical.

(** Up to and with the last space: [s[..seg_start]]. *)
Fixpoint through_last_space (s : string) : string :=
  match s with
  | EmptyString => EmptyString
  | String c s' =>
      if has_char " " s' then String c (through_last_space s')
      else if decide (c = " "%char) then String c EmptyString else EmptyString
  end.

Definition string_tail (s : string) : string := match s with EmptyString => EmptyString | String _ s => s end.

(** The loop of [normalize_portable_path]; [None] is running out of fuel. *)
Fixpoint portable_loop (fuel : nat) (out : string) : option string :=
  match find_split "/fixtures/" out with
  | None => Some out
  | Some (before, rest) =>
      match fuel with
      | O => None
      | S fuel => portable_loop fuel (through_last_space before +:+ string_tail rest)
      end
  end.

Definition normalize_portable_path (s : string) : string :=
  let out := default s (portable_loop (String.length s) s) in
  if starts_with "/" out then match find_split "fixtures/" out with Some (_, rest) => rest | None => out end
  else out.

Fixpoint normalize_value_paths (v : json) : json :=
  match v with
  | JStr s => JStr (if contains "/fixtures/" s || starts_with "/" s then normalize_portable_path s else s)
  | JArr l => JArr (map normalize_value_paths l)
  | JObj members => JObj (map (fun kv => (fst kv, normalize_value_paths (snd kv))) members)
  | v => v
  end.

(** [as_array_mut], [as_object_mut] and [get_mut], as maps on the value there. *)
Definition within_array (f : json -> json) (v : json) : json := match v with JArr l => JArr (map f l) | v => v end.
Definition within_object (f : bmap json -> bmap json) (v : json) : json := match v with JObj m => JObj (f m) | v => v end.
Definition within_member (k : string) (f : json -> json) (m : bmap json) : bmap json :=
  map (fun kv => (fst kv, if decide (fst kv = k) then f (snd kv) else snd kv)) m.

Definition volatile : list string := ["generated_at"; "source_scan_id"; "diagnosis_findings"; "plan_id"].

Definition canonical_members (obj : bmap json) : bmap json :=
  within_member "diagnosis_findings" (within_array (within_object (fun f =>
    within_member "evidence" (within_array (within_object (bm_remove "id"))) (bm_remove "fingerprint" (bm_remove "id" f)))))
  (within_member "operations" (within_array (within_object (within_member "evidence" (within_array (within_object (bm_remove "finding_id"))))))
  (foldl (fun m k => bm_remove k m) obj volatile)).

(** [to_value] is [serde_json::to_value]. *)
Definition canonical_plan_json `{Digests} (to_value : RepairPlan -> Result string json) (plan : RepairPlan) : Result RepairError string :=
  if negb (bool_decide (plan_schema_version plan = PLAN_SCHEMA_VERSION))
  then Err (RepairUnsupportedPlanVersion (plan_schema_version plan) PLAN_SCHEMA_VERSION)
  else
    value ← map_err RepairJson (to_value plan);
    let obj := match value with JObj m => m | _ => [] end in
    Ok (canonical_json (normalize_value_paths (JObj (canonical_members obj)))).

(** ** Paths *)

Lemma contains_suffix n b r : contains n (b +:+ r) = false -> contains n r = false.
Proof. induction b as [|c b IH]; cbn; [done|]. intros [_ H]%orb_false_iff. by apply IH. Qed.

Lemma through_last_space_length s : String.length (through_last_space s) <= String.length s.
Proof. induction s as [|c s IH]; cbn; [lia|]. destruct (has_char " " s); cbn; [lia|]. case_decide; cbn; lia. Qed.

(** Each round removes a slash at least: the length of the text is enough fuel, and
    no occurrence is left. *)
Lemma portable_loop_total fuel s : String.length s <= fuel ->
  exists out, portable_loop fuel s = Some out /\ contains "/fixtures/" out = false.
Proof.
  revert s. induction fuel as [|fuel IH]; intros s Hs; cbn [portable_loop].
  - destruct s; [|cbn in Hs; lia]. by exists EmptyString.
  - destruct (find_split _ s) as [[b r]|] eqn:E; [|exists s; split; [done|by apply find_split_None]].
    apply find_split_app in E as [-> Hr]. apply IH. destruct r as [|c r]; [done|]. cbn [string_tail].
    pose proof (through_last_space_length b). rewrite !length_app_string in *. cbn in Hs. lia.
Qed.

(** A normalized path names no directory above the fixtures, and normalizing it
    again changes nothing. *)
Theorem portable_path_stable s : let t := normalize_portable_path s in
  contains "/fixtures/" t = false /\ normalize_portable_path t = t.
Proof.
  cbn zeta. destruct (portable_loop_total (String.length s) s) as (out & Eout & Hout); [lia|].
  assert (Hfix : forall t, contains "/fixtures/" t = false -> starts_with "/" t = false \/ find_split "fixtures/" t = None ->
            normalize_portable_path t = t).
  { intros t Ht Hs. unfold normalize_portable_path. destruct (portable_loop_total (String.length t) t) as (out' & E & _); [lia|].
    apply find_split_None in Ht. assert (portable_loop (String.length t) t = Some t) as -> by (destruct (String.length t); cbn [portable_loop]; by rewrite Ht).
    cbn [from_option id]. destruct Hs as [->|Hs]; [done|]. rewrite Hs. by destruct (starts_with "/" t). }
  remember (normalize_portable_path s) as t eqn:Et. unfold normalize_portable_path in Et.
  rewrite Eout in *. cbn [from_option id] in *. destruct (starts_with "/" out) eqn:Es; [|subst; auto]. destruct (find_split "fixtures/" out) as [[b r]|] eqn:E; [|subst; auto]. subst t.
  apply find_split_app in E as [-> Hr]. apply contains_suffix in Hout. split; [done|]. apply Hfix; [done|]. left.
  destruct r as [|c r]; [done|]. unfold starts_with in *. cbn [String.prefix] in *. destruct (ascii_dec "f" c) as [<-|]; [reflexivity|done].
Qed.

(** ** Volatile members *)

Lemma within_member_get k f m k' : bm_get k' (within_member k f m) = (if decide (k' = k) then f else id) <$> bm_get k' m.
Proof.
  induction m as [|[k0 v0] m IH]; cbn; [done|]. destruct (decide (k' = k0)) as [->|]; [|exact IH]. by case_decide.
Qed.

(** The canonical members have none of the volatile ones, and of the others only the
    operations may differ. *)
Theorem canonical_members_stable obj k : bm_wf obj ->
  (k ∈ volatile -> bm_get k (canonical_members obj) = None) /\
  (k ∉ volatile -> k <> "operations" -> bm_get k (canonical_members obj) = bm_get k obj).
Proof.
  intros Hwf. unfold canonical_members. rewrite !within_member_get. cbn [foldl volatile].
  rewrite !bm_get_remove by (by repeat apply bm_remove_wf). split.
  - intros Hk. unfold volatile in Hk. rewrite !elem_of_cons, elem_of_nil in Hk. destruct Hk as [->|[->|[->|[->|[]]]]]; by repeat case_decide.
  - intros Hk Ho. unfold volatile in Hk. rewrite !elem_of_cons in Hk. repeat (case_decide; [naive_solver|]). by destruct (bm_get k obj).
Qed.
End PlanCanonical.

(** * The summary of a plan (fmt.rs) *)

Module PlanText.

Definition with_safety (c : RepairSafety) (p : RepairPlan) : list RepairOperation := filter (fun o => safety o = c) (operations p).

Definition operation_line (o : RepairOperation) : string := "  [" +:+ operation_id o +:+ "] " +:+ rationale o.

(** A heading with its operations, and an empty line. *)
Definition operation_block (heading : string) (lines : RepairOperation -> list string) (ops : list RepairOperation) : list string :=
  match ops with [] => [] | _ => heading :: flat_map lines ops ++ [EmptyString] end.

Definition safe_lines (o : RepairOperation) : list string :=
  operation_line o :: match finding_ids o with code :: _ => ["         Finding fingerprint: " +:+ code] | [] => [] end.

Definition conflict_line (c : UnresolvableSchemaConflict) : string :=
  "Schema conflict `" +:+ conflict_field c +:+ "`: " +:+ conflict_reason c.

(** The lines of [format_plan_human]; each ends with a newline. *)
Definition plan_lines (p : RepairPlan) : list string :=
  let safe := with_safety Safe p in
  let review := with_safety ReviewRequired p in
  let destructive := with_safety Destructive p in
  let blocked := with_safety Blocked p in
  ["Dataset: " +:+ dataset_root p; EmptyString] ++
  match safe, review, destructive, blocked with
  | [], [], [], [] => ["No repair proposals."]
  | _, _, _, _ =>
      [match safe with
       | [] => "No safe automatic repairs proposed."
       | _ => pretty (length safe) +:+ " finding(s) can be repaired safely."
       end; EmptyString]
      ++ operation_block "SAFE" safe_lines safe
      ++ operation_block "REVIEW REQUIRED" (fun o => [operation_line o]) review
      ++ operation_block "DESTRUCTIVE (not auto-executed)" (fun o => [operation_line o]) destructive
      ++ operation_block "BLOCKED" (fun o => [operation_line o]) blocked
      ++ match schema_conflicts p with Some cs => map conflict_line cs ++ [EmptyString] | None => [] end
      ++ ["Automatic repair will execute " +:+ pretty (length safe) +:+ " operation(s) only."]
  end.

Definition format_plan_human (p : RepairPlan) : string :=
  foldr (fun l rest => l +:+ String newline rest) EmptyString (plan_lines p).

Lemma block_line h ls ops o : o ∈ ops -> (forall o, operation_line o ∈ ls o) -> operation_line o ∈ operation_block h ls ops.
Proof.
  intros Ho Hl. destruct ops as [|o0 ops]; [by apply elem_of_nil in Ho|]. unfold operation_block. right. apply elem_of_app. left.
  apply list_elem_of_In, in_flat_map. exists o. split; [by apply list_elem_of_In|]. by apply list_elem_of_In.
Qed.

(** The summary has the line of every operation of the plan, and says that there is
    no proposal only of a plan without operations. *)
Theorem plan_text_complete p :
  (forall o, o ∈ operations p -> operation_line o ∈ plan_lines p) /\
  (operations p = [] <-> plan_lines p = ["Dataset: " +:+ dataset_root p; EmptyString; "No repair proposals."]).
Proof.
  assert (Hin : forall o, o ∈ operations p -> o ∈ with_safety (safety o) p).
  { intros o Ho. apply list_elem_of_filter. auto. }
  assert (Hline : forall o, o ∈ operations p -> operation_line o ∈ plan_lines p).
  { intros o Ho. specialize (Hin o Ho). unfold plan_lines. do 2 right.
    assert (match with_safety Safe p, with_safety ReviewRequired p, with_safety Destructive p, with_safety Blocked p with
            | [], [], [], [] => False | _, _, _, _ => True end) as Hne.
    { destruct (safety o); (destruct (with_safety Safe p), (with_safety ReviewRequired p), (with_safety Destructive p), (with_safety Blocked p));
        (done || by apply elem_of_nil in Hin). }
    assert (operation_line o ∈ operation_block "SAFE" safe_lines (with_safety Safe p)
      ++ operation_block "REVIEW REQUIRED" (fun o => [operation_line o]) (with_safety ReviewRequired p)
      ++ operation_block "DESTRUCTIVE (not auto-executed)" (fun o => [operation_line o]) (with_safety Destructive p)
      ++ operation_block "BLOCKED" (fun o => [operation_line o]) (with_safety Blocked p)) as Hb.
    { rewrite !elem_of_app. destruct (safety o);
        [left|right; left|right; right; left|right; right; right]; apply block_line; (done || by left). }
    destruct (with_safety Safe p), (with_safety ReviewRequired p), (with_safety Destructive p), (with_safety Blocked p); try done;
      do 2 right; rewrite !elem_of_app in *; naive_solver. }
  split; [exact Hline|]. split.
  - intros He. unfold plan_lines, with_safety. by rewrite He.
  - intros He. destruct (operations p) as [|o ops] eqn:Eo; [done|]. exfalso. pose proof (Hline o ltac:(by left)) as Ho.
    rewrite He in Ho. rewrite !elem_of_cons, elem_of_nil in Ho. by destruct Ho as [|[|[|[]]]].
Qed.
End PlanText.
