(* ===== verification/Verify.v ===== *)
(** Verification of a repair: the before/after comparison of verify.rs and the
    execution manifest of manifest.rs (src/crates/parqonaut-repair/src). *)

From S2P Require Import Prelude BTree Location Errors Schema RepairPlan Deps Inventory Rules.

Inductive VerificationOutcome := Verified | VerifiedWithWarnings | VerificationFailed.

#[global] Instance VerificationOutcome_eq_dec : EqDecision VerificationOutcome.
Proof. solve_decision. Defined.

Record InvariantResult := {
  inv_name : string;
  passed : bool;
  inv_detail : string;
}.

Record VerificationReport := {
  before_scan_id : string;
  after_scan_id : string;
  invariant_results : list InvariantResult;
  resolved_finding_codes : list string;
  remaining_finding_codes : list string;
  new_finding_codes : list string;
  blocked_finding_codes : list string;
  outcome : VerificationOutcome;
  manifest_plan_id : option string;
  fingerprint_match : option bool;
}.

Definition MANIFEST_VERSION : Z := 1.

Record ExecutionManifest := {
  em_version : Z;
  em_plan_id : string;
  em_execution_id : string;
  em_parqonaut_version : string;
  em_source_fingerprint : DatasetFingerprint;
  em_output_fingerprint : DatasetFingerprint;
  em_policy_fingerprint : string;
  em_started_at : Z;
  em_completed_at : Z;
  em_operations : list OperationAuditRecord;
  em_verification : option VerificationReport;
}.

Definition repair_codes : list string :=
  [REPAIR_EXCESSIVE_SMALL_FILES; REPAIR_INEFFICIENT_ROW_GROUPS; REPAIR_INCONSISTENT_COMPRESSION;
   REPAIR_SCHEMA_DRIFT; REPAIR_MISSING_STATISTICS; REPAIR_OVERSIZED_FILE; REPAIR_SCHEMA_CONFLICT].

(** The codes of a list of findings, as a [BTreeSet]. *)
Definition code_set (fs : list Finding) : list string := bm_keys (bs_of_list (map find_code fs)).

Definition set_difference (a b : list string) : list string := filter (fun c => c ∉ b) a.
Definition set_intersection (a b : list string) : list string := filter (fun c => c ∈ b) a.

(** [Vec::dedup]: adjacent repetitions. *)
Fixpoint dedup (l : list string) : list string :=
  match l with
  | [] => []
  | x :: l' => match dedup l' with
               | [] => [x]
               | y :: r => if decide (x = y) then y :: r else x :: y :: r
               end
  end.

Definition mk_invariant (name : string) (ok : bool) (detail : string) : InvariantResult :=
  {| inv_name := name; passed := ok; inv_detail := detail |}.

Section Verify.
Context `{Digests} `{Serde}.

(** The files of the source and of the output may be read at different times:
    each side has its own view. *)
Definition scan_invariants (before_inv after_inv : DatasetInventory) : list InvariantResult :=
  let nb := length (schema_signatures before_inv) in
  let na := length (schema_signatures after_inv) in
  [mk_invariant "row_count" (bool_decide (total_rows before_inv = total_rows after_inv))
     ("before=" +:+ pretty (total_rows before_inv) +:+ " after=" +:+ pretty (total_rows after_inv));
   mk_invariant "schema_preservation" ((na <=? nb) || (na <=? 1))
     ("before_signatures=" +:+ pretty nb +:+ " after_signatures=" +:+ pretty na);
   mk_invariant "output_readability" (negb (length (parquet_files after_inv) =? 0))
     ("after_files=" +:+ pretty (length (parquet_files after_inv)))].

Definition manifest_invariant (m : ExecutionManifest) (current : DatasetFingerprint) : InvariantResult :=
  mk_invariant "manifest_fingerprint" (bool_decide (digest current = digest (em_output_fingerprint m)))
    ("recorded=" +:+ digest (em_output_fingerprint m) +:+ " current=" +:+ digest current).

Definition blocked_codes (after_set : list string) (manifest : option ExecutionManifest) : list string :=
  let blocked := filter (fun c => c = REPAIR_SCHEMA_CONFLICT) after_set in
  match manifest with
  | None => blocked
  | Some m => dedup (sort_by str_leb (blocked ++ map (fun op => "blocked:" +:+ audit_operation_id op)
      (filter (fun op => audit_safety op = Blocked /\ executed op = false) (em_operations m))))
  end.

Definition verify_repair `{ParquetFiles} (u1 u2 : nat -> string) (before after : ScanReport)
    (before_root after_root : string) (policy : RepairPolicy) (manifest : option ExecutionManifest)
    : Result RepairError VerificationReport :=
  before_inv ← from_scan_report before_root before;
  after_inv ← from_scan_report after_root after;
  let row_ok := bool_decide (total_rows before_inv = total_rows after_inv) in
  fp_invariant ← match manifest with
    | None => Ok []
    | Some m => current ← compute_fingerprint_from_scan after_root after; Ok [manifest_invariant m current]
    end;
  before_dx ← diagnose u1 before_root before policy;
  after_dx ← diagnose u2 after_root after policy;
  let before_set := code_set (diag_findings before_dx) in
  let after_set := code_set (diag_findings after_dx) in
  let resolved := filter (fun c => c ∈ repair_codes) (set_difference before_set after_set) in
  let remaining := filter (fun c => c ∈ repair_codes) (set_intersection after_set before_set) in
  let new_findings := set_difference after_set before_set in
  let blocked := blocked_codes after_set manifest in
  let has_regression := bool_decide (FORMAT_PARQUET_READ_FAILED ∈ new_findings) in
  Ok {| before_scan_id := scan_id before; after_scan_id := scan_id after;
        invariant_results := scan_invariants before_inv after_inv ++ fp_invariant;
        resolved_finding_codes := resolved; remaining_finding_codes := remaining;
        new_finding_codes := new_findings; blocked_finding_codes := blocked;
        outcome :=
          if negb row_ok || has_regression then VerificationFailed
          else if negb (bool_decide (remaining = [])) || negb (bool_decide (blocked = []))
                  || negb (bool_decide (new_findings = []))
          then VerifiedWithWarnings else Verified;
        manifest_plan_id := em_plan_id <$> manifest;
        fingerprint_match := (fun m =>
          match compute_fingerprint_from_scan after_root after with
          | Ok fp => bool_decide (digest fp = digest (em_output_fingerprint m))
          | Err _ => false
          end) <$> manifest |}.
End Verify.

(** * What the outcome means *)

Section VerifySpec.
Context `{Digests} `{Serde} `{ParquetFiles}.

Lemma verify_repair_inv u1 u2 b a br ar pol m r : verify_repair u1 u2 b a br ar pol m = Ok r ->
  exists bi ai bd ad, from_scan_report br b = Ok bi /\ from_scan_report ar a = Ok ai
    /\ diagnose u1 br b pol = Ok bd /\ diagnose u2 ar a pol = Ok ad
    /\ new_finding_codes r = set_difference (code_set (diag_findings ad)) (code_set (diag_findings bd))
    /\ outcome r = if negb (bool_decide (total_rows bi = total_rows ai))
          || bool_decide (FORMAT_PARQUET_READ_FAILED ∈ new_finding_codes r) then VerificationFailed
        else if negb (bool_decide (remaining_finding_codes r = []))
          || negb (bool_decide (blocked_finding_codes r = []))
          || negb (bool_decide (new_finding_codes r = [])) then VerifiedWithWarnings else Verified.
Proof.
  unfold verify_repair. intros (bi & Hb & H')%bind_Ok. apply bind_Ok in H' as (ai & Ha & H').
  apply bind_Ok in H' as (fp & _ & H'). apply bind_Ok in H' as (bd & Hbd & H').
  apply bind_Ok in H' as (ad & Had & [= <-]). exists bi, ai, bd, ad. simpl. done.
Qed.

(** A repair passes verification only if it kept the number of rows and added no
    unreadable file; it passes without warnings only if moreover no repair
    finding remains, nothing is blocked and no new finding appeared. *)
Theorem verification_outcome u1 u2 b a br ar pol m r bi ai :
  verify_repair u1 u2 b a br ar pol m = Ok r ->
  from_scan_report br b = Ok bi -> from_scan_report ar a = Ok ai ->
  (outcome r <> VerificationFailed <->
     total_rows bi = total_rows ai /\ FORMAT_PARQUET_READ_FAILED ∉ new_finding_codes r)
  /\ (outcome r = Verified <->
     total_rows bi = total_rows ai /\ remaining_finding_codes r = []
     /\ blocked_finding_codes r = [] /\ new_finding_codes r = []).
Proof.
  intros (bi' & ai' & bd & ad & Hb & Ha & _ & _ & _ & ->)%verify_repair_inv Hb' Ha'.
  assert (bi' = bi) as -> by congruence. assert (ai' = ai) as -> by congruence.
  set (new := new_finding_codes r). set (rem := remaining_finding_codes r). set (bl := blocked_finding_codes r).
  destruct (decide (total_rows bi = total_rows ai)) as [Hr|Hr];
    [rewrite (bool_decide_true (_ = _)) by done|rewrite (bool_decide_false (_ = _)) by done; simpl; naive_solver].
  destruct (decide (FORMAT_PARQUET_READ_FAILED ∈ new)) as [Hf|Hf].
  { rewrite (bool_decide_true (_ ∈ _)) by done. simpl. split; [naive_solver|]. split; [done|].
    intros (_ & _ & _ & Hn). rewrite Hn in Hf. set_solver. }
  rewrite (bool_decide_false (_ ∈ _)) by done. simpl.
  destruct (decide (rem = [])), (decide (bl = [])), (decide (new = [])); 
    rewrite ?(bool_decide_true (rem = [])), ?(bool_decide_false (rem = [])),
      ?(bool_decide_true (bl = [])), ?(bool_decide_false (bl = [])),
      ?(bool_decide_true (new = [])), ?(bool_decide_false (new = [])) by done; simpl; naive_solver.
Qed.

(** The recorded fingerprint of the output is compared but never decides: against
    any other manifest of the same operations, whatever digest it records, the
    verification ends with the same outcome. *)
Theorem outcome_ignores_fingerprint u1 u2 b a br ar pol m m' r :
  em_operations m = em_operations m' -> verify_repair u1 u2 b a br ar pol (Some m) = Ok r ->
  exists r', verify_repair u1 u2 b a br ar pol (Some m') = Ok r' /\ outcome r' = outcome r.
Proof.
  intros Hops. unfold verify_repair. intros (bi & Hb & H')%bind_Ok. apply bind_Ok in H' as (ai & Ha & H').
  apply bind_Ok in H' as (fp & (cur & Hcur & _)%bind_Ok & H'). apply bind_Ok in H' as (bd & Hbd & H').
  apply bind_Ok in H' as (ad & Had & [= <-]). rewrite Hb. cbn [mbind Result_bind]. rewrite Ha.
  cbn [mbind Result_bind]. rewrite Hcur. cbn [mbind Result_bind]. rewrite Hbd. cbn [mbind Result_bind].
  rewrite Had. cbn [mbind Result_bind]. eexists. split; [done|]. simpl. by rewrite Hops.
Qed.
End VerifySpec.
