(* ===== verification/Execute.v ===== *)
(** The execution pipelines: [RepairExecutor::execute] of execute.rs for local
    datasets and [RepairExecutor::execute_storage] of execute_storage.rs for
    remote sources or outputs (src/crates/parqonaut-repair/src).

    [RunFs] adds to the file operations of [RepairFs] what the pipelines read:
    Parquet footers, directory scans (paraclete-core's [ScanEngine]) and directory
    walks.  Streaming a remote source into the work directory is the argument
    [remote_seed].  [None] is the panic of the dependency sort. *)

From Stdlib Require Import Strings.Byte Ascii.
From S2P Require Import Prelude BTree Location Errors Schema RepairPlan Deps RepairExec Inventory Rules Verify Backend.
From S2P Require Import Publication PublicationSafety WorkDir Planning PlanningProofs.

Class RunFs (FS : Type) := {
  files_of : FS -> ParquetFiles;
  scan_directory : string -> FS -> Result RepairError ScanReport;
  (** The files below a directory in walk order: the entry's path and its
      relative path when that is valid UTF-8. *)
  walk : string -> FS -> list (Result string (string * option string));
  fs_read : string -> FS -> Result string bytes;
  write_json : ExecutionManifest -> string -> FS -> Result RepairError unit * FS;
}.

(** [Path::parent]. *)
Definition path_parent (p : string) : option string :=
  let pieces := drop_trailing (split_char "/" p) in
  match components p with
  | [] | [RootDir] => None
  | [_] => Some EmptyString
  | [RootDir; _] => Some "/"
  | CurDir :: [_] => Some "."
  | _ => Some (join_strings "/" (drop_trailing (take (length pieces - 1) pieces)))
  end.

Record ExecutionReport := {
  execution_id : string;
  report_plan_id : string;
  started_at : Z;
  completed_at : option Z;
  operations_executed : list string;
  operations_skipped : list string;
  staging_path : string;
  output_path : string;
  manifest_path : string;
  success : bool;
}.

Record RepairExecutor := {
  authorization : RepairAuthorization;
  verify_before_publish : bool;
}.

Section Execute.
Context {FS : Type} `{RepairFs FS} `{RunFs FS} `{Digests} `{Serde}.
(** Successive instants, random ids for the run and its diagnoses, the build. *)
Context (now : nat -> Z) (uuid : string) (u1 u2 : nat -> string) (PARQONAUT_VERSION : string).
Local Open Scope fs_scope.

Definition fs_pure {A} (r : Result RepairError A) : FsM FS A := fun fs => (r, fs).
Definition fs_ask {A} (f : FS -> Result RepairError A) : FsM FS A := fun fs => (f fs, fs).

(** * Steps shared by both pipelines *)

Definition create_parent (dest : string) : FsM FS unit :=
  match path_parent dest with
  | Some parent => fs_try RepairIo (create_dir_all parent)
  | None => fs_ret tt
  end.

Definition seed_work_dir (root work : string) (scan : ScanReport) : FsM FS working_set :=
  fs_fold (fun m a =>
    if negb (bool_decide (asset_format a = Parquet)) then fs_ret m
    else
      rel <- fs_pure (relativize root (asset_path a));;
      let dest := path_join work rel in
      create_parent dest;;;
      fs_try RepairIo (fs_copy (asset_path a) dest);;;
      fs_ret (bm_insert rel dest m)) (assets scan) [].

Definition copy_work_to_output (work output : string) : FsM FS unit :=
  entries <- (fun fs => (Ok (walk work fs), fs));;
  fs_fold (fun _ e =>
    match e with
    | Err m => fs_fail (RepairIo m)
    | Ok (entry_path, rel) =>
        let dest := path_join output (default "file.parquet" rel) in
        create_parent dest;;;
        fs_try RepairIo (fs_copy entry_path dest)
    end) entries tt.

Definition audit_context (plan : RepairPlan) : OperationAuditContext :=
  {| ctx_plan_id := plan_id plan; ctx_dataset_fingerprint := digest (dataset_fingerprint plan);
     ctx_policy_fingerprint := policy_fingerprint plan; ctx_executor_version := PARQONAUT_VERSION |}.

Definition check_fingerprint (plan : RepairPlan) (root : string) (scan : ScanReport) : FsM FS unit :=
  current <- fs_ask (fun fs => @compute_fingerprint_from_scan _ (files_of fs) _ root scan);;
  fs_pure (verify_against (dataset_fingerprint plan) current).

Definition verification_of (self : RepairExecutor) (plan : RepairPlan) (before after : ScanReport)
    (before_root after_root : string) : FsM FS (option VerificationReport) :=
  if verify_before_publish self then
    r <- fs_ask (fun fs => @verify_repair _ _ (files_of fs) u1 u2 before after before_root after_root
                   (policy_repair (policy plan)) None);;
    fs_ret (Some r)
  else fs_ret None.

(** Instant 0 starts the run, the next ones belong to the operations. *)
Definition manifest_of (plan : RepairPlan) (output_fp : DatasetFingerprint)
    (audit : list OperationAuditRecord) (verification : option VerificationReport) : ExecutionManifest :=
  {| em_version := MANIFEST_VERSION; em_plan_id := plan_id plan; em_execution_id := uuid;
     em_parqonaut_version := PARQONAUT_VERSION; em_source_fingerprint := dataset_fingerprint plan;
     em_output_fingerprint := output_fp; em_policy_fingerprint := policy_fingerprint plan;
     em_started_at := now 0; em_completed_at := now (S (length audit)); em_operations := audit;
     em_verification := verification |}.

Definition report_of (plan : RepairPlan) (o : RepairOperationOutcome) (staging output manifest : string)
    (completed : Z) : ExecutionReport :=
  {| execution_id := uuid; report_plan_id := plan_id plan; started_at := now 0;
     completed_at := Some completed; operations_executed := out_executed o;
     operations_skipped := out_skipped o; staging_path := staging; output_path := output;
     manifest_path := manifest; success := true |}.

(** The operations, with a failure reported as a retained staging area. *)
Definition run_staged (self : RepairExecutor) (plan : RepairPlan) (root staging work : string)
    (working : working_set) : option (FsM FS RepairOperationOutcome) :=
  m ← run_repair_operations (authorization self) plan root work working (audit_context plan)
        (fun k => now (S k));
  Some (fun fs => match m fs with
                  | (Ok (_, o), fs') => (Ok o, fs')
                  | (Err err, fs') =>
                      (Err (PartialExecution (staging +:+ " (" +:+ repair_error_display err +:+ ")")), fs')
                  end).

(** * Local execution *)

Definition staging_dir (output : string) : string :=
  path_join (default "." (path_parent output)) (".parqonaut-staging-" +:+ uuid).

Definition execute_prepare (plan : RepairPlan) (output : string) (scan : ScanReport)
    : FsM FS (string * string * working_set) :=
  let root := dataset_root plan in
  fs_pure (plan_validate_version plan);;;
  fs_ask (fun fs => if path_exists output fs then Err (OutputExists output) else Ok tt);;;
  fs_pure (if paths_overlap root output
           then Err (SourceDestinationOverlap (root +:+ " ⊆ " +:+ output)) else Ok tt);;;
  check_fingerprint plan root scan;;;
  let staging := staging_dir output in
  let work := path_join staging "work" in
  fs_try RepairIo (create_dir_all work);;;
  working <- seed_work_dir root work scan;;
  fs_ret (staging, work, working).

Definition execute_publish (self : RepairExecutor) (plan : RepairPlan) (output : string) (scan : ScanReport)
    (staging work : string) (o : RepairOperationOutcome) : FsM FS ExecutionReport :=
  let root := dataset_root plan in
  fs_try RepairIo (create_dir_all output);;;
  copy_work_to_output work output;;;
  after_scan <- fs_ask (scan_directory output);;
  verification <- verification_of self plan scan after_scan root output;;
  output_fp <- fs_ask (fun fs => @compute_fingerprint_from_scan _ (files_of fs) _ output after_scan);;
  let manifest_path := path_join output MANIFEST_NAME in
  write_json (manifest_of plan output_fp (out_audit o) verification) manifest_path;;;
  fs_ignore (remove_dir_all staging);;;
  fs_ret (report_of plan o staging output manifest_path (now (S (S (length (out_audit o)))))).

Definition execute (self : RepairExecutor) (plan : RepairPlan) (output : string) (scan : ScanReport) (fs : FS)
    : option (Result RepairError ExecutionReport * FS) :=
  match execute_prepare plan output scan fs with
  | (Err e, fs) => Some (Err e, fs)
  | (Ok (staging, work, working), fs) =>
      m ← run_staged self plan (dataset_root plan) staging work working;
      match m fs with
      | (Err e, fs) => Some (Err e, fs)
      | (Ok o, fs) => Some (execute_publish self plan output scan staging work o fs)
      end
  end.

(** * Storage execution *)

Context (temp_dir : Result RepairError string).
Context (remote_seed : S3Location -> string -> FsM FS working_set).

Definition location_root (loc : DatasetLocation) : string :=
  match loc with Local l => path l | S3 _ => display_uri loc end.

Definition staging_parent_path (source output : DatasetLocation) : Result RepairError string :=
  match output, source with
  | Local local, _ | S3 _, Local local => Ok (default "." (path_parent (path local)))
  | S3 _, S3 _ => d ← temp_dir; Ok (path_join d "parqonaut-repair-staging")
  end.

Definition operation_root (source : DatasetLocation) (work : string) : string :=
  match source with Local local => path local | S3 _ => work end.

Definition before_scan_for_source (source : DatasetLocation) (scan : ScanReport) (work : string)
    : FsM FS ScanReport :=
  match source with
  | Local _ => fs_ret scan
  | S3 _ => fs_ask (scan_directory work)
  end.

Definition seed_working_set (source : DatasetLocation) (work : string) (scan : ScanReport) : FsM FS working_set :=
  match source with
  | Local root => seed_work_dir (path root) work scan
  | S3 s3 => remote_seed s3 work
  end.

(** After the output was found available. *)
Definition storage_prepare (plan : RepairPlan) (source output : DatasetLocation) (scan : ScanReport)
    : FsM FS (string * string * working_set) :=
  fs_pure (if locations_overlap source output
           then Err (SourceDestinationOverlap (display_uri source +:+ " overlaps " +:+ display_uri output))
           else Ok tt);;;
  check_fingerprint plan (location_root source) scan;;;
  parent <- fs_pure (staging_parent_path source output);;
  let staging := path_join parent (".parqonaut-staging-" +:+ uuid) in
  let work := path_join staging "work" in
  fs_try RepairIo (create_dir_all work);;;
  working <- seed_working_set source work scan;;
  fs_ret (staging, work, working).

(** Verification and the manifest, before publication. *)
Definition storage_verify (self : RepairExecutor) (plan : RepairPlan) (source : DatasetLocation)
    (scan : ScanReport) (work : string) (o : RepairOperationOutcome) : FsM FS ExecutionManifest :=
  before_scan <- before_scan_for_source source scan work;;
  after_scan <- fs_ask (scan_directory work);;
  verification <- verification_of self plan before_scan after_scan (operation_root source work) work;;
  output_fp <- fs_ask (fun fs => @compute_fingerprint_from_scan _ (files_of fs) _ work after_scan);;
  fs_ret (manifest_of plan output_fp (out_audit o) verification).

Definition work_entries (work : string) (fs : FS) : list walk_entry :=
  map (fun e => match e with
                | Err m => WalkError m
                | Ok (_, None) => NonUtf8
                | Ok (p, Some rel) => WorkDir.File rel (fs_read p fs)
                end) (walk work fs).

Definition publish_local (plan : RepairPlan) (out work : string) (manifest : ExecutionManifest)
    : FsM FS (string * string) :=
  fs_try RepairIo (create_dir_all out);;;
  copy_work_to_output work out;;;
  let manifest_path := path_join out MANIFEST_NAME in
  write_json manifest manifest_path;;;
  fs_ret (out, manifest_path).
End Execute.

Section ExecuteStorage.
Context {FS : Type} `{RepairFs FS} `{RunFs FS} `{Digests} `{Serde}.
Context `{Json WriterLockRecord, Json PublicationStateRecord, Json PublicationManifest,
          Json CommitMarker, Json CurrentPointer, Json ExecutionManifest}.
Context (now : nat -> Z) (uuid : string) (u1 u2 : nat -> string) (PARQONAUT_VERSION : string).
Context (temp_dir : Result RepairError string).
Context (remote_seed : S3Location -> string -> FsM FS working_set).
Context `{UrlParser}.

Definition execute_storage (self : RepairExecutor) (plan : RepairPlan) (output : DatasetLocation)
    (scan : ScanReport) (run_id : string) (fs : FS)
    : prog (option (Result RepairError ExecutionReport * FS)) :=
  match plan_validate_version plan, map_err storage_err (parse (dataset_root plan)) with
  | Err e, _ | Ok _, Err e => Ret (Some (Err e, fs))
  | Ok _, Ok source =>
  available ← ensure_output_available (fun p => path_exists p fs) output;
  match available with
  | Err e => Ret (Some (Err e, fs))
  | Ok _ =>
  match storage_prepare uuid temp_dir remote_seed plan source output scan fs with
  | (Err e, fs) => Ret (Some (Err e, fs))
  | (Ok (staging, work, working), fs) =>
  match run_staged now PARQONAUT_VERSION self plan (operation_root source work) staging work working with
  | None => Ret None
  | Some m =>
  match m fs with
  | (Err e, fs) => Ret (Some (Err e, fs))
  | (Ok o, fs) =>
  match storage_verify now uuid u1 u2 PARQONAUT_VERSION self plan source scan work o fs with
  | (Err e, fs) => Ret (Some (Err e, fs))
  | (Ok manifest, fs) =>
      let n := S (S (length (out_audit o))) in
      let finish out manifest_path completed fs :=
        Some (Ok (report_of now uuid plan o staging out manifest_path completed),
              snd (remove_dir_all staging fs)) in
      match output with
      | Local local =>
          Ret (match publish_local plan (path local) work manifest fs with
               | (Err e, fs) => Some (Err e, fs)
               | (Ok (out, manifest_path), fs) => finish out manifest_path (now n) fs
               end)
      | S3 _ =>
          let entries := work_entries work fs in
          published ← publish_work_dir (fun k => now (n + k)) output entries run_id manifest;
          Ret (match published with
               | Err e => Some (Err e, fs)
               | Ok (out, manifest_path) => finish out manifest_path (now (n + length entries + 9)) fs
               end)
      end
  end end end end end end.
End ExecuteStorage.

(** Guarantees of the execution pipelines: refused runs leave the file system
    untouched; the verification of a remote source compares the output with
    itself. *)

Section Proofs.
Context {FS : Type} `{RepairFs FS} `{RunFs FS} `{Digests} `{Serde}.
Context (now : nat -> Z) (uuid : string) (u1 u2 : nat -> string) (PARQONAUT_VERSION : string).

(** The conditions under which [execute] must not start. *)
Definition must_refuse (plan : RepairPlan) (output : string) (scan : ScanReport) (fs : FS) : Prop :=
  plan_schema_version plan <> PLAN_SCHEMA_VERSION
  \/ path_exists output fs = true
  \/ paths_overlap (dataset_root plan) output = true
  \/ exists fp, @compute_fingerprint_from_scan _ (files_of fs) _ (dataset_root plan) scan = Ok fp
       /\ digest fp <> digest (dataset_fingerprint plan).

(** A plan of another schema version, an existing output, an output that
    overlaps the source and a dataset that changed since planning are refused
    before anything is written. *)
Theorem execute_refuses_untouched self plan output scan fs :
  must_refuse plan output scan fs ->
  exists e, execute now uuid u1 u2 PARQONAUT_VERSION self plan output scan fs = Some (Err e, fs).
Proof.
  intros Hr. unfold execute, execute_prepare, plan_validate_version, check_fingerprint, fs_bind, fs_pure, fs_ask.
  destruct (bool_decide (plan_schema_version plan = PLAN_SCHEMA_VERSION)) eqn:Ev; simpl; [|eauto].
  destruct (path_exists output fs) eqn:Eo; [eauto|].
  destruct (paths_overlap (dataset_root plan) output) eqn:Ep; [eauto|].
  apply bool_decide_eq_true in Ev. destruct Hr as [?|[?|[?|(fp & Hfp & Hd)]]]; [congruence|congruence|congruence|].
  rewrite Hfp. unfold verify_against. rewrite (bool_decide_false (_ = _)) by congruence. simpl. eauto.
Qed.

(** * Remote sources *)

Lemma same_findings_codes l1 l2 : map anon l1 = map anon l2 -> map find_code l1 = map find_code l2.
Proof.
  intros Ha. assert (forall l, map find_code l = map find_code (map anon l)) as Hc by (intros; by rewrite map_map).
  by rewrite (Hc l1), (Hc l2), Ha.
Qed.

(** Verifying a dataset against itself never fails. *)
Lemma verify_self `{ParquetFiles} v1 v2 scan root pol r :
  verify_repair v1 v2 scan scan root root pol None = Ok r ->
  outcome r <> VerificationFailed /\ new_finding_codes r = [].
Proof.
  intros (bi & ai & bd & ad & Hb & Ha & Hbd & Had & Hnew & Hout)%verify_repair_inv.
  pose proof (diagnose_anon v1 v2 root scan pol) as Han. rewrite Hbd, Had in Han.
  apply same_findings_codes in Han.
  assert (new_finding_codes r = []) as Hn.
  { rewrite Hnew. unfold set_difference, code_set. rewrite Han.
    generalize (bm_keys (bs_of_list (map find_code (diag_findings ad)))) as l. intros l.
    destruct (filter _ l) as [|x l'] eqn:Hf; [done|]. exfalso.
    assert (x ∈ filter (fun c => c ∉ l) l) as [? ?]%list_elem_of_filter by (rewrite Hf; set_solver). done. }
  split; [|done]. rewrite Hout, Hn. rewrite (bool_decide_true (_ = _)) by congruence.
  rewrite (bool_decide_false (_ ∈ _)) by set_solver. simpl. match goal with |- (if ?b then _ else _) <> _ => by destruct b end.
Qed.

(** For a dataset on S3 the "before" scan is taken from the work directory after
    the operations ran, so verification compares the repaired files with
    themselves: it cannot fail, whatever the operations did to the rows. *)
Theorem remote_verification_vacuous self plan s3 scan work o fs manifest fs' :
  storage_verify now uuid u1 u2 PARQONAUT_VERSION self plan (S3 s3) scan work o fs = (Ok manifest, fs') ->
  match em_verification manifest with
  | Some r => outcome r <> VerificationFailed /\ new_finding_codes r = []
  | None => verify_before_publish self = false
  end.
Proof.
  unfold storage_verify, before_scan_for_source, verification_of, operation_root, fs_bind, fs_ask. cbv beta iota.
  destruct (scan_directory work fs) as [after|e]; [|done].
  destruct (verify_before_publish self) eqn:Hv.
  - destruct (verify_repair _ _ _ _ _ _ _ _) as [r|e] eqn:Hr; [|done]. simpl.
    destruct (compute_fingerprint_from_scan _ _); [|done]. intros [= <- _]. simpl. by eapply verify_self.
  - simpl. destruct (compute_fingerprint_from_scan _ _); [|done]. intros [= <- _]. done.
Qed.
End Proofs.
