(* ===== verification/ExecuteExamples.v ===== *)
(** A concrete world for planning and execution: files hold lists of rows, one
    MiB each, and every transform keeps the rows it is given.  The witnesses of
    the planning and execution theorems run in it. *)

From stdpp Require Import gmap.
From Stdlib Require Import Ascii Strings.Byte.
From S2P Require Import Prelude BTree Location Errors Schema RepairPlan Deps.
From S2P Require Import DepsProofs RepairExec RepairExecProofs Inventory Rules Planning.
From S2P Require Import PlanningProofs PlanningGate Verify WorkDir Execute.


(** * The world *)

Abbreviation row_fs := (gmap string (list Z)).

Definition under (dir : string) (fs : row_fs) : list (string * list Z) :=
  filter (fun kv => path_starts_with (fst kv) dir = true) (map_to_list fs).

Definition copy_file (src dst : string) (fs : row_fs) : Result string unit * row_fs :=
  match fs !! src with Some rows => (Ok tt, <[dst := rows]> fs) | None => (Err "not found", fs) end.

Definition output_name (dir prefix : string) (n : nat) : string :=
  path_join dir (prefix +:+ "-" +:+ pad4 n +:+ ".parquet").

#[global] Instance row_repair_fs : RepairFs row_fs := {|
  path_exists p fs := negb (length (under p fs) =? 0);
  create_dir_all _ fs := (Ok tt, fs);
  remove_file p fs := match fs !! p with Some _ => (Ok tt, delete p fs) | None => (Err "not found", fs) end;
  remove_dir_all p fs := (Ok tt, foldr (fun kv m => delete (fst kv) m) fs (under p fs));
  fs_copy := copy_file;
  fs_rename src dst fs := match fs !! src with
    | Some rows => (Ok tt, <[dst := rows]> (delete src fs)) | None => (Err "not found", fs) end;
  merge_parquet_files inputs dir prefix _ fs :=
    (Ok [output_name dir prefix 0],
     <[output_name dir prefix 0 := concat (map (fun p => default [] (fs !! p)) inputs)]> fs);
  split_parquet_file src dir prefix _ fs :=
    let rows := default [] (fs !! src) in
    let k := length rows / 2 in
    (Ok [output_name dir prefix 0; output_name dir prefix 1],
     <[output_name dir prefix 1 := drop k rows]> (<[output_name dir prefix 0 := take k rows]> fs));
  rewrite_parquet_file src dst _ _ _ fs := copy_file src dst fs;
  rewrite_parquet_with_cast src dst _ _ fs := copy_file src dst fs;
  rewrite_parquet_with_rename src dst _ _ fs := copy_file src dst fs;
|}.

Definition row_size (rows : list Z) : Z := (Z.of_nat (length rows) * 2 ^ 20)%Z.

Definition row_inspection (rows : list Z) : ParquetInspection := {|
  insp_num_rows := Z.of_nat (length rows); insp_num_row_groups := 1;
  row_groups := [{| rg_index := 0; rg_num_rows := Z.of_nat (length rows); compressed_size := row_size rows;
                    total_byte_size := row_size rows |}];
  insp_fields := [{| def_name := "id"; def_logical_type := "INT64"; def_nullable := false |}];
  insp_created_by := None; insp_compression_codecs := bs_of_list ["SNAPPY"]; statistics_present := true |}.

Definition row_files (fs : row_fs) : ParquetFiles := {|
  is_file p := bool_decide (is_Some (fs !! p));
  inspect_parquet_file p := match fs !! p with Some rows => Ok (row_inspection rows) | None => Err "not found" end |}.

Definition row_asset (kv : string * list Z) : AssetRecord := {|
  asset_path := fst kv;
  asset_format := match split_last "." (fst kv) with Some (_, "parquet") => Parquet | _ => UnknownFormat end;
  asset_size_bytes := row_size (snd kv); inspection_hints := None |}.

Definition row_scan (findings : list Finding) (dir : string) (fs : row_fs) : ScanReport :=
  {| scan_id := "scan"; assets := map row_asset (under dir fs); scan_findings := findings |}.

#[global] Instance row_run_fs : RunFs row_fs := {|
  files_of := row_files;
  scan_directory dir fs := Ok (row_scan [] dir fs);
  walk dir fs := map (fun kv => Ok (fst kv, Some (strip_base (fst kv) dir))) (under dir fs);
  fs_read _ _ := Ok [];
  write_json _ p fs := (Ok tt, <[p := []]> fs);
|}.

#[global] Instance row_serde : Serde := {|
  row_groups_from_value _ := Err "unsupported"; schema_from_value _ := Err "unsupported";
  codecs_from_value _ := Err "unsupported" |}.

(** A JSON printer and a 64-bit rolling hash. *)
Fixpoint print_json (v : json) : string :=
  match v with
  | JNull => "null"
  | JBool b => bool_text b
  | JNum z => pretty z
  | JStr s => str_debug s
  | JArr l => "[" +:+ fold_right (fun x s => print_json x +:+ "," +:+ s) "]" l
  | JObj m => "{" +:+ fold_right (fun kx s => str_debug (fst kx) +:+ ":" +:+ print_json (snd kx) +:+ "," +:+ s) "}" m
  end.

Definition hash64 (s : string) : N :=
  fold_left (fun h c => (h * 1099511628211 + Ascii.N_of_ascii c) mod 2 ^ 64)%N (String.list_ascii_of_string s) 14695981039346656037%N.

#[global] Instance row_digests : Digests := {|
  json_to_string := print_json;
  sha256 s := let h := hash64 s in
    map (fun k => default Byte.x00 (Byte.of_N (N.shiftr h (8 * N.of_nat k) mod 256))) (seq 0 8) |}.

Definition ex_policy : EffectivePolicy := {|
  policy_repair := {| default_compression := "zstd"; target_row_group_mb := 128; small_file_threshold_mb := 16;
    merge_target_mb := 256; min_files_for_merge := 2; min_codecs_for_inconsistency := 2 |};
  policy_schema := SchemaPolicy_default; policy_files := FilePolicy_default; policy_ci := None |}.

Definition ex_uuid (n : nat) : string := "u" +:+ pretty n.
Definition ex_now (n : nat) : Z := Z.of_nat n.
Definition ex_executor : RepairExecutor :=
  {| authorization := {| authorized_operation_ids := [] |}; verify_before_publish := true |}.

Definition ex_generate (findings : list Finding) (fs : row_fs) : option (Result RepairError RepairPlan) :=
  generate_plan (H0 := row_files fs) ex_uuid 0 "1" "/d" (row_scan findings "/d" fs) ex_policy None.

(** * A merge that loses rows *)

(** A dataset with two small files and a larger one that an earlier repair left. *)
Definition merged_fs : row_fs :=
  list_to_map [("/d/a.parquet", [1%Z]); ("/d/b.parquet", [2%Z]);
               ("/d/merged-part-0000.parquet", map Z.of_nat (seq 10 20))].

Definition rows_under (dir : string) (fs : row_fs) : nat := length (concat (map snd (under dir fs))).

Definition ex_execute (plan : RepairPlan) (fs : row_fs) : option (Result RepairError ExecutionReport * row_fs) :=
  execute ex_now "run" ex_uuid ex_uuid "1" ex_executor plan "/out" (row_scan [] "/d" fs) fs.

(** The value of a successful computation. *)
Definition from_ok {E A} (r : option (Result E A)) : match r with Some (Ok _) => A | _ => unit end :=
  match r with Some (Ok a) => a | _ => tt end.
Definition from_run {E A S} (r : option (Result E A * S)) : match r with Some (Ok _, _) => A * S | _ => unit end :=
  match r with Some (Ok a, s) => (a, s) | _ => tt end.

Definition merged_plan : RepairPlan := Eval vm_compute in from_ok (ex_generate [] merged_fs).
Definition merged_run : ExecutionReport * row_fs := Eval vm_compute in from_run (ex_execute merged_plan merged_fs).

(** Merging writes its result under the fixed name [merged-part-0000.parquet].
    A file of that name that is not part of the merge is overwritten: planning
    and executing a repair of this dataset reports success, although 20 of its
    22 rows are missing from the output. *)
Theorem merge_overwrites_existing_file : exists plan report fs',
  ex_generate [] merged_fs = Some (Ok plan) /\ ex_execute plan merged_fs = Some (Ok report, fs')
  /\ success report = true /\ rows_under "/d" fs' = 22 /\ rows_under "/out" fs' = 2.
Proof.
  exists merged_plan, (fst merged_run), (snd merged_run).
  split; [|split; [|split; [|split]]]; vm_compute; reflexivity.
Qed.

(** * Witnesses: planning *)

Definition merged_scan : ScanReport := Eval vm_compute in row_scan [] "/d" merged_fs.
Definition merged_op : RepairOperation := Eval vm_compute in nth 1 (operations merged_plan) (ex_op EmptyString (Repartition EmptyString)).

Lemma merged_op_in : merged_op ∈ operations merged_plan.
Proof. apply (list_elem_of_lookup_2 _ 1). reflexivity. Defined.

Lemma generated_plan_safety_witness : classified (safety merged_op) (action merged_op).
Proof.
  refine (generated_plan_safety (H0 := row_files merged_fs) ex_uuid 0 "1" "/d" merged_scan
    ex_policy None merged_plan merged_op _ merged_op_in). by vm_compute.
Defined.

Definition merged_plan' : RepairPlan := Eval vm_compute in from_ok
  (generate_plan (H0 := row_files merged_fs) (fun n => "w" +:+ pretty n) 7 "2" "/d" merged_scan ex_policy None).

Lemma plan_reproducible_witness : plan_id merged_plan = plan_id merged_plan'
  /\ map op_spec (operations merged_plan) = map op_spec (operations merged_plan')
  /\ dataset_fingerprint merged_plan = dataset_fingerprint merged_plan'
  /\ policy_fingerprint merged_plan = policy_fingerprint merged_plan'.
Proof.
  refine (plan_reproducible (H0 := row_files merged_fs) ex_uuid (fun n => "w" +:+ pretty n) 0 7 "1" "2" "/d"
    merged_scan ex_policy None merged_plan merged_plan' _ _); by vm_compute.
Defined.

Definition reversed_scan : ScanReport :=
  {| scan_id := "scan"; assets := rev (assets merged_scan); scan_findings := [] |}.

Lemma fingerprint_scan_order_witness :
  from_scan_report (H := row_files merged_fs) "/d" merged_scan = from_scan_report (H := row_files merged_fs) "/d" reversed_scan
  /\ compute_fingerprint_from_scan (H0 := row_files merged_fs) "/d" merged_scan
     = compute_fingerprint_from_scan (H0 := row_files merged_fs) "/d" reversed_scan.
Proof.
  apply (fingerprint_scan_order (H0 := row_files merged_fs)).
  - apply (bool_decide_unpack _). by vm_compute.
  - apply Permutation_rev.
Defined.

Lemma merge_inputs_homogeneous_witness :
  exists inv files key, from_scan_report (H := row_files merged_fs) "/d" merged_scan = Ok inv
    /\ ["a.parquet"; "b.parquet"] = relative_paths "/d" files /\ 2 <= 2
    /\ Forall (fun f => f ∈ parquet_files inv /\ (file_size_bytes f < 16 * 2 ^ 20)%Z
         /\ structural_schema_key (file_fields f) = key) files.
Proof.
  refine (merge_inputs_homogeneous (H0 := row_files merged_fs) ex_uuid 0 "1" "/d" merged_scan ex_policy None
    merged_plan merged_op 268435456 ["a.parquet"; "b.parquet"] _ merged_op_in _); by vm_compute.
Defined.

(** The scanner reports small row groups of two files of a one-file policy. *)
Definition tiny_finding (n : nat) : Finding :=
  {| find_id := ex_uuid n; find_code := METADATA_ROW_GROUP_SUSPICIOUSLY_SMALL; find_severity := Low;
     find_summary := "small row groups"; find_detail := EmptyString; find_payloads := []; find_locations := [] |}.

Definition single_fs : row_fs := list_to_map [("/d/a.parquet", [1%Z])].
Definition tiny_plan : RepairPlan := Eval vm_compute in from_ok (ex_generate [tiny_finding 1; tiny_finding 2] single_fs).

Lemma repeated_scan_finding_unsortable_witness :
  sort_by_dependencies (operations tiny_plan) <> Some (Ok (operations tiny_plan)).
Proof.
  refine (repeated_scan_finding_unsortable (H0 := row_files single_fs) ex_uuid 0 "1" "/d"
    (row_scan [tiny_finding 1; tiny_finding 2] "/d" single_fs) ex_policy None tiny_plan
    [] (tiny_finding 1) [] (tiny_finding 2) [] _ _ _ _ _ _); [by vm_compute|reflexivity|reflexivity|reflexivity|].
  apply (bool_decide_unpack _). by vm_compute.
Defined.

Definition merged_check : CheckReport := Eval vm_compute in from_ok
  (evaluate_check (H0 := row_files merged_fs) ex_uuid 0 "1" "/d" merged_scan ex_policy).

Lemma evaluate_check_verdict_witness :
  check_exit_code merged_check = verdict CiPolicy_default merged_check
  /\ destructive_operations merged_check = 0
  /\ blocked_operations merged_check = unresolvable_schema_conflicts merged_check.
Proof.
  refine (evaluate_check_verdict (H0 := row_files merged_fs) ex_uuid 0 "1" "/d" merged_scan ex_policy merged_check _).
  by vm_compute.
Defined.

Definition snappy_section : list (string * toml_value) := [("default_compression", TString "snappy")].

#[global] Instance ex_toml : Toml := {|
  toml_from_str raw := match raw with
    | String "c" s => Ok [("default_compression", TString s)]
    | _ => Ok [("repair", TTable snappy_section)]
    end;
  toml_to_string t := match t with
    | [(k, TString s)] => if decide (k = "default_compression") then Ok (String "c" s) else Err "unsupported"
    | _ => Err "unsupported"
    end |}.

Lemma ex_toml_round_trip t s : toml_to_string t = Ok s -> toml_from_str s = Ok t.
Proof.
  destruct t as [|[k []] [|? ?]]; try done. simpl. destruct (decide (k = "default_compression")) as [->|]; [|done].
  by intros [= <-].
Defined.

Definition snappy_policy : EffectivePolicy := Eval vm_compute in from_ok (Some (policy_from_toml (Some "[repair]"))).

Lemma repair_section_ignored_witness : policy_repair snappy_policy = RepairPolicy_default.
Proof.
  refine (repair_section_ignored ex_toml_round_trip "[repair]" [("repair", TTable snappy_section)] snappy_section
    "csnappy" snappy_policy _ _ _ _ _); by vm_compute.
Defined.

Lemma diff_plans_empty_iff_witness :
  operations_added (diff_plans merged_plan merged_plan') = []
  /\ operations_removed (diff_plans merged_plan merged_plan') = []
  /\ operations_changed (diff_plans merged_plan merged_plan') = []
  <-> map op_core (operations merged_plan) ≡ₚ map op_core (operations merged_plan').
Proof. apply diff_plans_empty_iff; apply (bool_decide_unpack _); by vm_compute. Defined.

(** * Witnesses: execution and verification *)

Definition merged_order : list RepairOperation := Eval vm_compute in from_ok (sort_by_dependencies (operations merged_plan)).
Definition merged_working : working_set :=
  [("a.parquet", "/d/a.parquet"); ("b.parquet", "/d/b.parquet")].

Lemma run_repair_operations_gate_witness :
  (fun m => m merged_fs) <$> run_repair_operations (authorization ex_executor) merged_plan "/d" "/w" merged_working
      (audit_context "1" merged_plan) ex_now =
    Some (match apply_all "/d" "/w" merged_order merged_working merged_fs with
          | (Ok w, fs') => (Ok (w, {| out_executed := map operation_id merged_order; out_skipped := [];
              out_audit := imap (fun k op => audit_of (authorization ex_executor) (audit_context "1" merged_plan) op (ex_now k))
                merged_order |}), fs')
          | (Err e, fs') => (Err e, fs')
          end).
Proof.
  refine (run_repair_operations_gate (authorization ex_executor) "/d" "/w" (audit_context "1" merged_plan) ex_now
    merged_plan merged_working merged_order merged_fs _). by vm_compute.
Defined.

Definition out_fs : row_fs := snd merged_run.
Definition before_scan : ScanReport := Eval vm_compute in row_scan [] "/d" out_fs.
Definition after_scan : ScanReport := Eval vm_compute in row_scan [] "/out" out_fs.
Definition before_inv : DatasetInventory := Eval vm_compute in from_ok (Some (from_scan_report (H := row_files out_fs) "/d" before_scan)).
Definition after_inv : DatasetInventory := Eval vm_compute in from_ok (Some (from_scan_report (H := row_files out_fs) "/out" after_scan)).
Definition out_report : VerificationReport := Eval vm_compute in from_ok (Some
  (verify_repair (H1 := row_files out_fs) ex_uuid ex_uuid before_scan after_scan "/d" "/out" (policy_repair ex_policy) None)).

Lemma verification_outcome_witness :
  (outcome out_report <> VerificationFailed <->
     total_rows before_inv = total_rows after_inv /\ FORMAT_PARQUET_READ_FAILED ∉ new_finding_codes out_report)
  /\ (outcome out_report = Verified <->
     total_rows before_inv = total_rows after_inv /\ remaining_finding_codes out_report = []
     /\ blocked_finding_codes out_report = [] /\ new_finding_codes out_report = []).
Proof.
  refine (verification_outcome (H1 := row_files out_fs) ex_uuid ex_uuid before_scan after_scan "/d" "/out"
    (policy_repair ex_policy) None out_report before_inv after_inv _ _ _); by vm_compute.
Defined.

(** Two manifests of one run that record different output digests. *)
Definition ex_manifest (d : string) : ExecutionManifest :=
  manifest_of ex_now "run" "1" merged_plan {| fp_version := 1; fp_root := "/out"; fp_entries := []; digest := d |} [] None.
Definition manifest_report : VerificationReport := Eval vm_compute in from_ok (Some
  (verify_repair (H1 := row_files out_fs) ex_uuid ex_uuid before_scan after_scan "/d" "/out" (policy_repair ex_policy)
     (Some (ex_manifest "x")))).

Lemma outcome_ignores_fingerprint_witness :
  exists r', verify_repair (H1 := row_files out_fs) ex_uuid ex_uuid before_scan after_scan "/d" "/out"
      (policy_repair ex_policy) (Some (ex_manifest "y")) = Ok r' /\ outcome r' = outcome manifest_report.
Proof.
  refine (outcome_ignores_fingerprint (H1 := row_files out_fs) ex_uuid ex_uuid before_scan after_scan "/d" "/out"
    (policy_repair ex_policy) (ex_manifest "x") (ex_manifest "y") manifest_report _ _); by vm_compute.
Defined.

Lemma execute_refuses_untouched_witness : exists e,
  execute ex_now "run" ex_uuid ex_uuid "1" ex_executor merged_plan "/d/sub" merged_scan merged_fs = Some (Err e, merged_fs).
Proof.
  apply (execute_refuses_untouched ex_now "run" ex_uuid ex_uuid "1" ex_executor merged_plan "/d/sub" merged_scan merged_fs).
  right. right. left. by vm_compute.
Defined.

Definition remote_manifest : ExecutionManifest := Eval vm_compute in from_ok (Some (fst
  (storage_verify ex_now "run" ex_uuid ex_uuid "1" ex_executor merged_plan (S3 (mkS3 "b" "p")) merged_scan "/d"
     outcome_nil merged_fs))).

Lemma remote_verification_vacuous_witness :
  match em_verification remote_manifest with
  | Some r => outcome r <> VerificationFailed /\ new_finding_codes r = []
  | None => verify_before_publish ex_executor = false
  end.
Proof.
  refine (remote_verification_vacuous ex_now "run" ex_uuid ex_uuid "1" ex_executor merged_plan (mkS3 "b" "p")
    merged_scan "/d" outcome_nil merged_fs remote_manifest merged_fs _).
  vm_compute. reflexivity.
Defined.
