(* ===== verification/Journal.v ===== *)
(** The durable run journal (src/crates/parqonaut-orchestrator/src/journal): the
    [RunJournal] interface with the laws its clients rely on, and the SQLite
    implementation as rows of text columns that discharges them.

    Instants are printed and parsed by chrono: [Rfc3339] with its round trip.
    The SQLite engine runs each statement as SQL defines it. *)

From stdpp Require Import gmap sorting.
From Stdlib Require Import Ascii.
From S2P Require Import Prelude BTree Errors.

(** * Records (journal/mod.rs) *)

Record RunIdentity := {
  run_id : string;
  batch_plan_id : string;
  config_fingerprint : string;
  batch_name : string;
  output_root : string;
  identity_version : string;
  plan_digest : string;
  id_started_at : Z;
  id_updated_at : Z;
  id_completed_at : option Z;
  id_cancelled_at : option Z;
}.

Record DatasetRunRecord := {
  rec_dataset_id : string;
  rec_output_path : string;
  rec_repair_plan_id : string;
  rec_policy_fingerprint : string;
  rec_state : DatasetState;
  rec_attempts : Z;
  rec_source_fingerprint : option string;
  rec_output_fingerprint : option string;
  rec_error_class : option FailureClass;
  rec_error_message : option string;
  rec_started_at : option Z;
  rec_updated_at : Z;
  rec_completed_at : option Z;
}.

(** [attempts] is a [u32]. *)
Definition record_ok (r : DatasetRunRecord) : Prop := (0 <= rec_attempts r <= u32_max)%Z.

Class RunJournal (J : Type) := {
  run_identity : J -> Result OrchestratorError (option RunIdentity);
  list_datasets : J -> Result OrchestratorError (list DatasetRunRecord);
  dataset : string -> J -> Result OrchestratorError (option DatasetRunRecord);
  upsert_dataset : DatasetRunRecord -> J -> Result OrchestratorError unit * J;
  mark_run_completed : Z -> J -> Result OrchestratorError unit * J;
  mark_run_cancelled : Z -> J -> Result OrchestratorError unit * J;
}.

(** What a journal promises, in terms of the records it holds by dataset id. *)
Class JournalLaws (J : Type) `{RunJournal J} := {
  journal_wf : J -> Prop;
  records : J -> gmap string DatasetRunRecord;
  record_law : forall id j r, journal_wf j -> records j !! id = Some r -> rec_dataset_id r = id /\ record_ok r;
  dataset_law : forall id j o, journal_wf j -> dataset id j = Ok o -> o = records j !! id;
  list_law : forall j l, journal_wf j -> list_datasets j = Ok l ->
    NoDup (map rec_dataset_id l) /\ forall r, r ∈ l <-> records j !! rec_dataset_id r = Some r;
  upsert_law : forall r j res j', journal_wf j -> record_ok r -> upsert_dataset r j = (res, j') ->
    journal_wf j' /\ records j' = match res with Ok _ => <[rec_dataset_id r := r]> (records j) | Err _ => records j end;
  completed_law : forall t j res j', journal_wf j -> mark_run_completed t j = (res, j') ->
    journal_wf j' /\ records j' = records j;
  cancelled_law : forall t j res j', journal_wf j -> mark_run_cancelled t j = (res, j') ->
    journal_wf j' /\ records j' = records j;
}.

(** A journal whose writes are not refused. *)
Class ReliableJournal (J : Type) `{JournalLaws J} :=
  upsert_ok : forall r j, journal_wf j -> exists j', upsert_dataset r j = (Ok tt, j').

(** * Text columns (journal/sqlite.rs) *)

Class Rfc3339 := {
  to_rfc3339 : Z -> string;
  parse_from_rfc3339 : string -> option Z;
  rfc3339_round_trip : forall t, parse_from_rfc3339 (to_rfc3339 t) = Some t;
}.

(** [state_to_str]: the snake_case name serde gives the state. *)
Definition state_to_str (s : DatasetState) : string :=
  match s with
  | Pending => "pending" | PlanningValidated => "planning_validated" | Running => "running"
  | RepairComplete => "repair_complete" | Verifying => "verifying" | Succeeded => "succeeded"
  | Blocked => "blocked" | FailedRecoverable => "failed_recoverable" | FailedPermanent => "failed_permanent"
  | Cancelled => "cancelled" | StaleSource => "stale_source" | VerificationFailed => "verification_failed"
  end.

Definition parse_state (raw : string) : DatasetState :=
  default Pending (snd <$> list_find (fun s => state_to_str s = raw) all_states).

(** [format!("{c:?}").to_lowercase()]. *)
Definition class_column (c : FailureClass) : string :=
  match c with
  | Recoverable => "recoverable" | Permanent => "permanent" | ClassBlocked => "blocked"
  | ClassStaleSource => "stalesource" | ClassVerificationFailed => "verificationfailed"
  | ClassCancelled => "cancelled"
  end.

Definition parse_failure (raw : option string) : option FailureClass :=
  s ← raw;
  if decide (s = "recoverable") then Some Recoverable
  else if decide (s = "permanent") then Some Permanent
  else if decide (s = "blocked") then Some ClassBlocked
  else if decide (s = "stalesource") then Some ClassStaleSource
  else if decide (s = "verificationfailed") then Some ClassVerificationFailed
  else if decide (s = "cancelled") then Some ClassCancelled
  else None.

Lemma parse_state_to_str s : parse_state (state_to_str s) = s.
Proof. by destruct s. Qed.

Lemma parse_failure_column c : parse_failure (class_column <$> c) = c.
Proof. by destruct c as [[]|]. Qed.

(** * Tables *)

Record identity_row := {
  ir_run_id : string; ir_batch_plan_id : string; ir_config_fingerprint : string; ir_batch_name : string;
  ir_output_root : string; ir_version : string; ir_plan_digest : string;
  ir_started_at : string; ir_updated_at : string;
  ir_completed_at : option string; ir_cancelled_at : option string;
}.

Record dataset_row := {
  dr_run_id : string; dr_dataset_id : string; dr_output_path : string; dr_repair_plan_id : string;
  dr_policy_fingerprint : string; dr_state : string; dr_attempts : Z;
  dr_source_fingerprint : option string; dr_output_fingerprint : option string;
  dr_error_class : option string; dr_error_message : option string;
  dr_started_at : option string; dr_updated_at : string; dr_completed_at : option string;
}.

(** The two tables of the journal file. *)
Record SqliteRunJournal := {
  batch_runs : list identity_row;
  dataset_runs : list dataset_row;
}.

Section Sqlite.
Context `{Rfc3339} (utc_now : Z).

Definition parse_ts (s : string) : Z := default utc_now (parse_from_rfc3339 s).

Definition identity_to_row (i : RunIdentity) : identity_row := {|
  ir_run_id := run_id i; ir_batch_plan_id := batch_plan_id i; ir_config_fingerprint := config_fingerprint i;
  ir_batch_name := batch_name i; ir_output_root := output_root i; ir_version := identity_version i;
  ir_plan_digest := plan_digest i; ir_started_at := to_rfc3339 (id_started_at i);
  ir_updated_at := to_rfc3339 (id_updated_at i); ir_completed_at := to_rfc3339 <$> id_completed_at i;
  ir_cancelled_at := to_rfc3339 <$> id_cancelled_at i |}.

Definition map_identity_row (r : identity_row) : RunIdentity := {|
  run_id := ir_run_id r; batch_plan_id := ir_batch_plan_id r; config_fingerprint := ir_config_fingerprint r;
  batch_name := ir_batch_name r; output_root := ir_output_root r; identity_version := ir_version r;
  plan_digest := ir_plan_digest r; id_started_at := parse_ts (ir_started_at r);
  id_updated_at := parse_ts (ir_updated_at r); id_completed_at := parse_ts <$> ir_completed_at r;
  id_cancelled_at := parse_ts <$> ir_cancelled_at r |}.

Definition record_to_row (run : string) (r : DatasetRunRecord) : dataset_row := {|
  dr_run_id := run; dr_dataset_id := rec_dataset_id r; dr_output_path := rec_output_path r;
  dr_repair_plan_id := rec_repair_plan_id r; dr_policy_fingerprint := rec_policy_fingerprint r;
  dr_state := state_to_str (rec_state r); dr_attempts := rec_attempts r;
  dr_source_fingerprint := rec_source_fingerprint r; dr_output_fingerprint := rec_output_fingerprint r;
  dr_error_class := class_column <$> rec_error_class r; dr_error_message := rec_error_message r;
  dr_started_at := to_rfc3339 <$> rec_started_at r; dr_updated_at := to_rfc3339 (rec_updated_at r);
  dr_completed_at := to_rfc3339 <$> rec_completed_at r |}.

Definition map_dataset_row (r : dataset_row) : DatasetRunRecord := {|
  rec_dataset_id := dr_dataset_id r; rec_output_path := dr_output_path r;
  rec_repair_plan_id := dr_repair_plan_id r; rec_policy_fingerprint := dr_policy_fingerprint r;
  rec_state := parse_state (dr_state r); rec_attempts := as_u32 (dr_attempts r);
  rec_source_fingerprint := dr_source_fingerprint r; rec_output_fingerprint := dr_output_fingerprint r;
  rec_error_class := parse_failure (dr_error_class r); rec_error_message := dr_error_message r;
  rec_started_at := parse_ts <$> dr_started_at r; rec_updated_at := parse_ts (dr_updated_at r);
  rec_completed_at := parse_ts <$> dr_completed_at r |}.

(** [INSERT OR IGNORE INTO batch_runs]. *)
Definition ensure_run (i : RunIdentity) (j : SqliteRunJournal) : SqliteRunJournal :=
  if decide (run_id i ∈ map ir_run_id (batch_runs j)) then j
  else {| batch_runs := batch_runs j ++ [identity_to_row i]; dataset_runs := dataset_runs j |}.

(** [SqliteRunJournal::open] on a new file. *)
Definition journal_open (i : RunIdentity) : SqliteRunJournal :=
  ensure_run i {| batch_runs := []; dataset_runs := [] |}.

(** [INSERT .. ON CONFLICT(run_id, dataset_id) DO UPDATE]. *)
Fixpoint upsert_row (row : dataset_row) (rows : list dataset_row) : list dataset_row :=
  match rows with
  | [] => [row]
  | r :: rows' =>
      if decide (dr_run_id r = dr_run_id row /\ dr_dataset_id r = dr_dataset_id row) then row :: rows'
      else r :: upsert_row row rows'
  end.

Definition row_leb (a b : dataset_row) : bool := str_leb (dr_dataset_id a) (dr_dataset_id b).

Definition set_completed (t : string) (r : identity_row) : identity_row := {|
  ir_run_id := ir_run_id r; ir_batch_plan_id := ir_batch_plan_id r;
  ir_config_fingerprint := ir_config_fingerprint r; ir_batch_name := ir_batch_name r;
  ir_output_root := ir_output_root r; ir_version := ir_version r; ir_plan_digest := ir_plan_digest r;
  ir_started_at := ir_started_at r; ir_updated_at := t; ir_completed_at := Some t;
  ir_cancelled_at := ir_cancelled_at r |}.

Definition set_cancelled (t : string) (r : identity_row) : identity_row := {|
  ir_run_id := ir_run_id r; ir_batch_plan_id := ir_batch_plan_id r;
  ir_config_fingerprint := ir_config_fingerprint r; ir_batch_name := ir_batch_name r;
  ir_output_root := ir_output_root r; ir_version := ir_version r; ir_plan_digest := ir_plan_digest r;
  ir_started_at := ir_started_at r; ir_updated_at := t; ir_completed_at := ir_completed_at r;
  ir_cancelled_at := Some t |}.

Definition sqlite_upsert (r : DatasetRunRecord) (j : SqliteRunJournal)
    : Result OrchestratorError unit * SqliteRunJournal :=
  match batch_runs j with
  | [] => (Err (Journal "no rows returned by a query that expected to return at least one row"), j)
  | run :: _ =>
      (Ok tt, {| batch_runs := batch_runs j;
                 dataset_runs := upsert_row (record_to_row (ir_run_id run) r) (dataset_runs j) |})
  end.

#[global] Instance sqlite_journal : RunJournal SqliteRunJournal := {|
  run_identity j := Ok (map_identity_row <$> head (batch_runs j));
  list_datasets j := Ok (map map_dataset_row (sort_by row_leb (dataset_runs j)));
  dataset id j :=
    Ok (map_dataset_row <$> (snd <$> list_find (fun r => dr_dataset_id r = id) (dataset_runs j)));
  upsert_dataset := sqlite_upsert;
  mark_run_completed t j := (Ok tt, {| batch_runs := map (set_completed (to_rfc3339 t)) (batch_runs j);
                                       dataset_runs := dataset_runs j |});
  mark_run_cancelled t j := (Ok tt, {| batch_runs := map (set_cancelled (to_rfc3339 t)) (batch_runs j);
                                       dataset_runs := dataset_runs j |});
|}.

(** * The laws *)

(** One run per file, its rows all of that run and unique by dataset. *)
Definition sqlite_wf (j : SqliteRunJournal) : Prop :=
  exists run, map ir_run_id (batch_runs j) = [run]
    /\ Forall (fun r => dr_run_id r = run) (dataset_runs j)
    /\ NoDup (map dr_dataset_id (dataset_runs j)).

Definition sqlite_records (j : SqliteRunJournal) : gmap string DatasetRunRecord :=
  list_to_map (map (fun r => (dr_dataset_id r, map_dataset_row r)) (dataset_runs j)).

Lemma row_round_trip run r : record_ok r -> map_dataset_row (record_to_row run r) = r.
Proof.
  intros Hr. assert (forall t, parse_ts (to_rfc3339 t) = t) as Ht
    by (intros t; unfold parse_ts; by rewrite rfc3339_round_trip).
  assert (forall o : option Z, parse_ts <$> (to_rfc3339 <$> o) = o) as Ho by (intros [t|]; simpl; by rewrite ?Ht).
  destruct r. unfold map_dataset_row, record_to_row, record_ok in *. simpl in *. f_equal; auto.
  - apply parse_state_to_str.
  - unfold as_u32, u32_max in *. apply Z.mod_small. lia.
  - apply parse_failure_column.
Qed.

Lemma upsert_row_spec run rows row : Forall (fun r => dr_run_id r = run) rows -> dr_run_id row = run ->
  NoDup (map dr_dataset_id rows) ->
  Forall (fun r => dr_run_id r = run) (upsert_row row rows)
  /\ NoDup (map dr_dataset_id (upsert_row row rows))
  /\ (forall x, x ∈ map dr_dataset_id (upsert_row row rows) <-> x = dr_dataset_id row \/ x ∈ map dr_dataset_id rows)
  /\ (list_to_map (map (fun r => (dr_dataset_id r, map_dataset_row r)) (upsert_row row rows)) : gmap string _)
     = <[dr_dataset_id row := map_dataset_row row]> (list_to_map (map (fun r => (dr_dataset_id r, map_dataset_row r)) rows)).
Proof.
  intros Hall Hrow. induction Hall as [|r rows Hr Hall IH]; simpl.
  { intros _. split; [by repeat constructor|]. split; [repeat constructor; set_solver|]. split; [set_solver|done]. }
  intros [Hni Hnd]%NoDup_cons. destruct (IH Hnd) as (Ha & Hn & Hel & Hm).
  destruct (decide (dr_run_id r = dr_run_id row /\ dr_dataset_id r = dr_dataset_id row)) as [[_ He]|Hne]; simpl.
  - rewrite He in *. split; [by constructor|]. split; [by constructor|]. split; [set_solver|].
    by rewrite insert_insert_eq.
  - assert (dr_dataset_id r <> dr_dataset_id row) as Hd by (intros E; apply Hne; split; [congruence|done]).
    split; [by constructor|]. split; [constructor; [|done]; rewrite Hel; intros [?|?]; done|].
    split; [intros x; rewrite !elem_of_cons, Hel; tauto|]. rewrite Hm. by rewrite insert_insert_ne by done.
Qed.

#[global] Program Instance sqlite_laws : JournalLaws SqliteRunJournal := {|
  journal_wf := sqlite_wf;
  records := sqlite_records;
|}.
Next Obligation.
  intros id j r _ Hr. unfold sqlite_records in Hr. apply elem_of_list_to_map_2, list_elem_of_fmap in Hr as (x & [= -> ->] & _).
  split; [done|]. unfold record_ok, u32_max. simpl. unfold as_u32. pose proof (Z.mod_pos_bound (dr_attempts x) (2 ^ 32)). lia.
Qed.
Next Obligation.
  intros id j o (run & _ & _ & Hnd) [= <-]. unfold sqlite_records. revert Hnd.
  induction (dataset_runs j) as [|r rows IH]; simpl; [done|]. intros [Hni Hnd]%NoDup_cons.
  destruct (decide (dr_dataset_id r = id)) as [<-|Hne]; simpl; [by rewrite lookup_insert_eq|].
  rewrite lookup_insert_ne by done. rewrite <- IH by done. by destruct (list_find _ rows) as [[]|].
Qed.
Next Obligation.
  intros j l (run & _ & _ & Hnd) [= <-]. set (rows := dataset_runs j) in *.
  assert (map rec_dataset_id (map map_dataset_row (sort_by row_leb rows)) ≡ₚ map dr_dataset_id rows) as Hp.
  { rewrite map_map. simpl. apply fmap_Permutation, sort_by_perm. }
  split; [by rewrite Hp|]. intros r. unfold sqlite_records.
  rewrite <- elem_of_list_to_map by (by rewrite <- list_fmap_compose).
  rewrite !list_elem_of_fmap. setoid_rewrite sort_by_perm. fold rows. split.
  - intros (x & -> & Hx). exists x. done.
  - intros (x & [= Hid ->] & Hx). eauto.
Qed.
Next Obligation.
  intros r j res j' (run & Hrun & Hall & Hnd) Hok. simpl. unfold sqlite_upsert.
  destruct (batch_runs j) as [|i rest] eqn:Hb; [done|]. simpl in Hrun. injection Hrun as Hi Hrest.
  intros [= <- <-]. destruct (upsert_row_spec run (dataset_runs j) (record_to_row (ir_run_id i) r)) as (Ha & Hn & _ & Hm); try done.
  split.
  - exists run. simpl. split_and!; [by rewrite Hi, Hrest|done|done].
  - unfold sqlite_records. simpl. rewrite Hm. simpl. by rewrite row_round_trip.
Qed.
Next Obligation.
  intros t j res j' (run & Hrun & ?) [= <- <-]. split; [|done]. exists run. simpl. by rewrite map_map.
Qed.
Next Obligation.
  intros t j res j' (run & Hrun & ?) [= <- <-]. split; [|done]. exists run. simpl. by rewrite map_map.
Qed.

#[global] Instance sqlite_reliable : ReliableJournal SqliteRunJournal.
Proof.
  intros r j (run & Hrun & _). simpl. unfold sqlite_upsert. destruct (batch_runs j); [done|]. eauto.
Qed.

Lemma journal_open_wf i : sqlite_wf (journal_open i).
Proof. exists (run_id i). unfold journal_open, ensure_run. simpl. repeat split; constructor. Qed.

(** C40: What is written to the journal is read back: a record survives its trip
    through the text columns, by id and in the listing, and other datasets keep
    theirs. *)
Theorem journal_round_trip r j :
  sqlite_wf j -> record_ok r ->
  exists j', upsert_dataset r j = (Ok tt, j') /\ sqlite_wf j' /\ dataset (rec_dataset_id r) j' = Ok (Some r)
    /\ (exists l, list_datasets j' = Ok l /\ r ∈ l)
    /\ forall id, id <> rec_dataset_id r -> dataset id j' = dataset id j.
Proof.
  intros Hwf Hok. destruct (sqlite_reliable r j Hwf) as [j' Hu]. exists j'. split; [done|].
  pose proof (upsert_law (JournalLaws := sqlite_laws) r j _ j' Hwf Hok Hu) as [Hwf' Hrec]. split; [done|].
  assert (forall id k, sqlite_wf k -> dataset id k = Ok (records k !! id)) as Hd.
  { intros id k Hk. destruct (dataset id k) as [o|e] eqn:E; [|done]. f_equal. exact (@dataset_law _ _ sqlite_laws id k o Hk E). }
  split; [rewrite Hd by done; by rewrite Hrec, lookup_insert_eq|]. split.
  - destruct (list_datasets j') as [l|e] eqn:El; [|done]. exists l. split; [done|].
    apply (@list_law _ _ sqlite_laws j' l Hwf' El). by rewrite Hrec, lookup_insert_eq.
  - intros id Hne. rewrite !Hd by done. rewrite Hrec. by rewrite lookup_insert_ne.
Qed.
End Sqlite.
