(* ===== verification/Batch.v ===== *)
(** Batch plans and the checks that bind a resumed run to its plan: plan.rs,
    auth.rs and [validate_batch_plan] of overlap.rs in
    src/crates/parqonaut-orchestrator/src. *)

From S2P Require Import Prelude Location Errors Overlap BTree Schema.
From S2P Require Import RepairPlan Deps Inventory Rules Planning Journal.

Definition BATCH_PLAN_SCHEMA_VERSION : Z := 1.

Record DatasetPlan := {
  ds_dataset_id : string;
  ds_source_path : string;
  ds_output_path : string;
  ds_repair_plan : RepairPlan;
  ds_authorize : list string;
}.

Record BatchPlan := {
  bp_schema_version : Z;
  bp_batch_plan_id : string;
  bp_config_fingerprint : string;
  bp_batch_name : string;
  bp_max_concurrency : Z;
  bp_max_storage_requests : Z;
  bp_output_root : string;
  bp_run_root : string;
  bp_parqonaut_version : string;
  bp_datasets : list DatasetPlan;
}.

Record BatchSummary := {
  sum_dataset_count : nat;
  sum_safe_operations : nat;
  sum_review_required_operations : nat;
  sum_blocked_operations : nat;
}.

(** [serde_json::to_string] of a batch plan. *)
Class BatchJson := batch_to_string : BatchPlan -> string.

Definition batch_validate_version (p : BatchPlan) : Result OrchestratorError unit :=
  if negb (bool_decide (bp_schema_version p = BATCH_PLAN_SCHEMA_VERSION))
  then Err (UnsupportedPlanVersion (bp_schema_version p) BATCH_PLAN_SCHEMA_VERSION)
  else try_for (fun ds =>
    let v := plan_schema_version (ds_repair_plan ds) in
    if negb (bool_decide (v = PLAN_SCHEMA_VERSION)) then Err (UnsupportedPlanVersion v PLAN_SCHEMA_VERSION)
    else Ok tt) (bp_datasets p).

Definition batch_summary (p : BatchPlan) : BatchSummary :=
  let ops := concat (map (fun ds => operations (ds_repair_plan ds)) (bp_datasets p)) in {|
  sum_dataset_count := length (bp_datasets p); sum_safe_operations := count_safety Safe ops;
  sum_review_required_operations := count_safety ReviewRequired ops;
  sum_blocked_operations := count_safety Blocked ops |}.

Definition effective_run_root (p : BatchPlan) : string :=
  if decide (bp_run_root p = EmptyString) then bp_output_root p else bp_run_root p.

Section Batch.
Context `{Digests} `{BatchJson} `{UrlParser}.

Definition batch_plan_digest (p : BatchPlan) : string := stable_hex_id "batch-plan-body" (batch_to_string p).

Definition config_error (e : StorageError) : OrchestratorError := InvalidConfig (storage_error_display e).

Definition dataset_locations (p : BatchPlan) : Result OrchestratorError (list BatchPathSpec) :=
  try_map (fun ds =>
    source ← map_err config_error (parse (ds_source_path ds));
    output ← map_err config_error (parse (ds_output_path ds));
    Ok {| dataset_id := ds_dataset_id ds; source := source; output := output |}) (bp_datasets p).

Definition validate_batch_plan (p : BatchPlan) : Result OrchestratorError unit :=
  specs ← dataset_locations p;
  validate_batch_overlap specs.

(** * Authorization of a resumed run (auth.rs) *)

Definition mismatch (field expected found : string) : Result OrchestratorError unit :=
  if decide (expected = found) then Ok tt else Err (PlanIdentityMismatch field expected found).

Definition assert_plan_matches_identity (p : BatchPlan) (i : RunIdentity) : Result OrchestratorError unit :=
  _ ← batch_validate_version p;
  _ ← mismatch "batch_plan_id" (batch_plan_id i) (bp_batch_plan_id p);
  _ ← mismatch "config_fingerprint" (config_fingerprint i) (bp_config_fingerprint p);
  _ ← mismatch "output_root" (output_root i) (bp_output_root p);
  _ ← mismatch "plan_digest" (plan_digest i) (batch_plan_digest p);
  Ok tt.

Definition assert_dataset_record_matches_plan (ds : DatasetPlan) (r : DatasetRunRecord)
    : Result OrchestratorError unit :=
  _ ← mismatch "output_path" (rec_output_path r) (ds_output_path ds);
  _ ← mismatch "repair_plan_id" (rec_repair_plan_id r) (plan_id (ds_repair_plan ds));
  _ ← mismatch "policy_fingerprint" (rec_policy_fingerprint r) (policy_fingerprint (ds_repair_plan ds));
  if decide (rec_state r = Succeeded) then
    match rec_source_fingerprint r with
    | Some fp => if decide (fp = EmptyString) then Ok tt
                 else mismatch "source_fingerprint" fp (digest (dataset_fingerprint (ds_repair_plan ds)))
    | None => Ok tt
    end
  else Ok tt.

Definition find_record (id : string) (records : list DatasetRunRecord) : option DatasetRunRecord :=
  snd <$> list_find (fun r => rec_dataset_id r = id) records.

Definition assert_datasets_match_plan (p : BatchPlan) (records : list DatasetRunRecord)
    : Result OrchestratorError unit :=
  try_for (fun ds => match find_record (ds_dataset_id ds) records with
                     | None => Ok tt
                     | Some r => assert_dataset_record_matches_plan ds r
                     end) (bp_datasets p).
End Batch.
