(* ===== verification/Executor.v ===== *)
(** Execution of one dataset of a batch with retries, and the selection of the
    datasets of a run (src/crates/parqonaut-orchestrator/src/executor/mod.rs).

    A dataset task is a program over its calls to the world outside it: storage,
    the output lock (lock.rs), the repair engine (Execute.v), the shared cancel
    flag, the counter of completed datasets, the clock and the journal.  Tasks
    run concurrently, so the same program can be run alone against a world
    ([run_task]) and interleaved with other tasks call by call (BatchRun.v). *)

From stdpp Require Import gmap.
From S2P Require Import Prelude Location Errors Overlap BTree Schema.
From S2P Require Import RepairPlan Deps RepairExec Inventory Publication Journal Batch Execute.

(** What the repair of a dataset can fail with. *)
Inductive RepairFailure :=
| JoinError (message : string)
| RepairErr (e : RepairError).

(** * Calls of a task *)

Inductive dcall :=
| CRemoteOutputCommitted (output : DatasetLocation) (run : string)
| CRemotePublicationState (output : DatasetLocation) (run : string)
| CAcquireLock (output : DatasetLocation) (run : string)
| CReleaseLock (output : DatasetLocation)
| CScan (l : DatasetLocation)
| CFingerprint (l : DatasetLocation) (scan : ScanReport)
| CExecutePlan (authorize : list string) (plan : RepairPlan) (source output : DatasetLocation)
    (scan : ScanReport) (run : string)
| CIsCancelled
| CCancel
| CFetchAddCompleted
| CUtcNow
| CDataset (id : string)
| CUpsert (r : DatasetRunRecord).

Definition danswer (c : dcall) : Type :=
  match c with
  | CRemoteOutputCommitted _ _ => Result OrchestratorError bool
  | CRemotePublicationState _ _ => Result OrchestratorError (option PublicationState)
  | CAcquireLock _ _ => Result OrchestratorError unit
  | CReleaseLock _ => unit
  | CScan _ => Result RepairError ScanReport
  | CFingerprint _ _ => Result RepairError DatasetFingerprint
  | CExecutePlan _ _ _ _ _ _ => Result RepairFailure ExecutionReport
  | CIsCancelled => bool
  | CCancel => unit
  | CFetchAddCompleted => nat
  | CUtcNow => Z
  | CDataset _ => Result OrchestratorError (option DatasetRunRecord)
  | CUpsert _ => Result OrchestratorError unit
  end.

Inductive task (A : Type) : Type :=
| TRet (a : A)
| TCall (c : dcall) (k : danswer c -> task A).
Arguments TRet {_} _.
Arguments TCall {_} _ _.

#[global] Instance task_ret : MRet task := fun _ a => TRet a.
#[global] Instance task_bind : MBind task := fun A B f =>
  fix go (p : task A) : task B :=
    match p with TRet a => f a | TCall c k => TCall c (fun x => go (k x)) end.

Definition ask (c : dcall) : task (danswer c) := TCall c TRet.

Definition DEFAULT_MAX_RETRIES : Z := 2.

Inductive ExecutionMode := Fresh | Resume | DryRun.

#[global] Instance ExecutionMode_eq_dec : EqDecision ExecutionMode.
Proof. solve_decision. Defined.

Record BatchExecutorConfig := {
  max_retries : Z;
  interrupt_after_completed : option nat;
  max_storage_requests : Z;
}.

Definition default_max_storage_requests : Z := 8.

Definition BatchExecutorConfig_default : BatchExecutorConfig := {|
  max_retries := DEFAULT_MAX_RETRIES; interrupt_after_completed := None;
  max_storage_requests := default_max_storage_requests |}.

Record DatasetExecutionOutcome := {
  out_dataset_id : string;
  out_state : DatasetState;
  out_attempts : Z;
  out_error_class : option FailureClass;
  out_error_message : option string;
  skipped : bool;
}.

Record DatasetFailure := {
  class : FailureClass;
  message : string;
}.

Definition skipped_outcome (id : string) (prior : option DatasetState) : DatasetExecutionOutcome := {|
  out_dataset_id := id; out_state := default Cancelled prior; out_attempts := 0;
  out_error_class := match prior with None => Some ClassCancelled | Some _ => None end;
  out_error_message := match prior with None => Some "batch run cancelled before start" | Some _ => None end;
  skipped := true |}.

Definition classify_repair_error (e : RepairError) : FailureClass :=
  match e with
  | DatasetChanged _ _ => ClassStaleSource
  | ReviewRequiredNotAuthorized _ | DestructiveNotAllowed _ => ClassBlocked
  | VerificationInvariantFailed _ _ => ClassVerificationFailed
  | PartialExecution _ | RepairIo _ | TransformFailed _ | RepairStorage _ | RepairPublication _ => Recoverable
  | OutputExists _ | SourceDestinationOverlap _ | UnsupportedOperation _ _ | RepairPreconditionFailed _ _
  | DatasetUnreadable _ | ScanFailed _ | InvalidPlan _ | RepairUnsupportedPlanVersion _ _ | RepairJson _ =>
      Permanent
  end.

Definition failure_state (c : FailureClass) : DatasetState :=
  match c with
  | Recoverable => FailedRecoverable
  | Permanent => FailedPermanent
  | ClassBlocked => Errors.Blocked
  | ClassStaleSource => StaleSource
  | ClassVerificationFailed => VerificationFailed
  | ClassCancelled => Cancelled
  end.

Definition repair_failure (e : RepairError) : DatasetFailure :=
  {| class := classify_repair_error e; message := repair_error_display e |}.

Section Executor.
Context `{UrlParser}.

(** A refused journal write is dropped. *)
Definition upsert_record (ds : DatasetPlan) (state : DatasetState) (attempts : Z)
    (source_fp : option string) (error_class : option FailureClass) (error_message : option string)
    (started completed : option Z) : task unit :=
  now ← ask CUtcNow;
  _ ← ask (CUpsert {|
    rec_dataset_id := ds_dataset_id ds; rec_output_path := ds_output_path ds;
    rec_repair_plan_id := plan_id (ds_repair_plan ds);
    rec_policy_fingerprint := policy_fingerprint (ds_repair_plan ds);
    rec_state := state; rec_attempts := attempts; rec_source_fingerprint := source_fp;
    rec_output_fingerprint := None; rec_error_class := error_class; rec_error_message := error_message;
    rec_started_at := started; rec_updated_at := now; rec_completed_at := completed |});
  TRet tt.

Definition parse_location (raw : string) : Result DatasetFailure DatasetLocation :=
  map_err (fun e => {| class := Permanent; message := storage_error_display e |}) (parse raw).

(** Both branches of the source: scan, fingerprint, comparison with the plan. *)
Definition verify_source_fingerprint (source : DatasetLocation) (ds : DatasetPlan)
    : task (Result DatasetFailure string) :=
  scan ← ask (CScan source);
  match scan with
  | Err e => TRet (Err (repair_failure e))
  | Ok scan =>
      fp ← ask (CFingerprint source scan);
      match fp with
      | Err e => TRet (Err (repair_failure e))
      | Ok fp =>
          TRet match verify_against (dataset_fingerprint (ds_repair_plan ds)) fp with
               | Err e => Err {| class := ClassStaleSource; message := repair_error_display e |}
               | Ok _ => Ok (digest fp)
               end
      end
  end.

(** The journal record and the outcome of a dataset whose output is in place. *)
Definition succeed (ds : DatasetPlan) (attempts started : Z) (skip : bool)
    : task (Result DatasetFailure DatasetExecutionOutcome) :=
  completed ← ask CUtcNow;
  _ ← upsert_record ds Succeeded attempts (Some (digest (dataset_fingerprint (ds_repair_plan ds)))) None None
        (Some started) (Some completed);
  TRet (Ok {| out_dataset_id := ds_dataset_id ds; out_state := Succeeded; out_attempts := attempts;
              out_error_class := None; out_error_message := None; skipped := skip |}).

(** [lock.release_for(..)] or the lock's [Drop]. *)
Definition unlock (locked : bool) (output : DatasetLocation) : task unit :=
  if locked then ask (CReleaseLock output) else TRet tt.

(** After the fingerprint check: repair and record the result. *)
Definition run_repair (ds : DatasetPlan) (run : string) (source output : DatasetLocation) (locked : bool)
    (attempts started : Z) : task (Result DatasetFailure DatasetExecutionOutcome) :=
  scan ← ask (CScan source);
  match scan with
  | Err e => _ ← unlock locked output; TRet (Err (repair_failure e))
  | Ok scan =>
      execution ← ask (CExecutePlan (ds_authorize ds) (ds_repair_plan ds) source output scan run);
      _ ← unlock locked output;
      match execution with
      | Err (JoinError m) => TRet (Err {| class := Permanent; message := "dataset task join error: " +:+ m |})
      | Err (RepairErr e) =>
          let f := repair_failure e in
          completed ← ask CUtcNow;
          _ ← upsert_record ds (failure_state (class f)) attempts None (Some (class f)) (Some (message f))
                (Some started) (Some completed);
          TRet (Err f)
      | Ok _ => succeed ds attempts started false
      end
  end.

(** Has the output already been published by this run? *)
Definition observed_published (output : DatasetLocation) (run : string) : task bool :=
  match output with
  | Local _ => TRet false
  | S3 _ =>
      state ← ask (CRemotePublicationState output run);
      TRet match state with Ok (Some (Current | Committed)) => true | _ => false end
  end.

Definition execute_dataset_once (ds : DatasetPlan) (run : string) (attempts started : Z)
    : task (Result DatasetFailure DatasetExecutionOutcome) :=
  match parse_location (ds_source_path ds), parse_location (ds_output_path ds) with
  | Err e, _ | Ok _, Err e => TRet (Err e)
  | Ok source, Ok output =>
      committed ← ask (CRemoteOutputCommitted output run);
      if default false (result_ok committed) then succeed ds attempts started true
      else
        let locked := negb (requires_storage_execution source output) in
        lock ← if locked then ask (CAcquireLock output run) else TRet (Ok tt);
        match lock with
        | Err e => TRet (Err {| class := Permanent; message := orchestrator_error_display e |})
        | Ok _ =>
            published ← observed_published output run;
            if published : bool then
              r ← succeed ds attempts started true;
              _ ← unlock locked output;
              TRet r
            else
              fp ← verify_source_fingerprint source ds;
              match fp with
              | Err f => _ ← unlock locked output; TRet (Err f)
              | Ok fp =>
                  _ ← upsert_record ds Running attempts (Some fp) None None (Some started) None;
                  run_repair ds run source output locked attempts started
              end
        end
  end.

Definition cancelled_outcome (ds : DatasetPlan) (attempts : Z) : DatasetExecutionOutcome := {|
  out_dataset_id := ds_dataset_id ds; out_state := Cancelled; out_attempts := attempts;
  out_error_class := Some ClassCancelled; out_error_message := Some "batch run cancelled"; skipped := false |}.

(** The counter bump of a successful dataset and the test hook it drives. *)
Definition note_completed (config : BatchExecutorConfig) (o : DatasetExecutionOutcome) : task unit :=
  if decide (out_state o = Succeeded) then
    n ← ask CFetchAddCompleted;
    if decide (interrupt_after_completed config = Some (S n)) then ask CCancel else TRet tt
  else TRet tt.

(** The final failure of a dataset. *)
Definition final_failure (ds : DatasetPlan) (attempts started : Z) (f : DatasetFailure)
    : task DatasetExecutionOutcome :=
  let state := failure_state (class f) in
  completed ← ask CUtcNow;
  _ ← upsert_record ds state attempts None (Some (class f)) (Some (message f)) (Some started) (Some completed);
  TRet {| out_dataset_id := ds_dataset_id ds; out_state := state; out_attempts := attempts;
          out_error_class := Some (class f); out_error_message := Some (message f); skipped := false |}.

(** The retry loop; [None] is running out of fuel. *)
Fixpoint retry_loop (fuel : nat) (ds : DatasetPlan) (run : string) (config : BatchExecutorConfig)
    (prior : option DatasetState) (max_attempts attempts : Z) : task (option DatasetExecutionOutcome) :=
  match fuel with
  | 0 => TRet None
  | S fuel =>
      cancelled ← ask CIsCancelled;
      if cancelled : bool then
        completed ← ask CUtcNow;
        _ ← upsert_record ds Cancelled attempts None (Some ClassCancelled) (Some "batch run cancelled")
              None (Some completed);
        TRet (Some (cancelled_outcome ds attempts))
      else
        let attempts := as_u32 (attempts + 1) in
        started ← ask CUtcNow;
        _ ← if decide (prior = Some Succeeded) then TRet tt
            else upsert_record ds PlanningValidated attempts None None None (Some started) None;
        once ← execute_dataset_once ds run attempts started;
        match once with
        | Ok o => _ ← note_completed config o; TRet (Some o)
        | Err f =>
            if decide (class f = Recoverable /\ (attempts < max_attempts)%Z) then
              _ ← upsert_record ds FailedRecoverable attempts None (Some (class f)) (Some (message f)) None None;
              retry_loop fuel ds run config prior max_attempts attempts
            else o ← final_failure ds attempts started f; TRet (Some o)
        end
  end.

Definition prior_attempts (r : Result OrchestratorError (option DatasetRunRecord)) : Z :=
  match r with Ok (Some r) => rec_attempts r | _ => 0%Z end.

Definition execute_dataset_with_retries (fuel : nat) (ds : DatasetPlan) (run : string)
    (config : BatchExecutorConfig) (prior : option DatasetState) : task (option DatasetExecutionOutcome) :=
  recorded ← ask (CDataset (ds_dataset_id ds));
  retry_loop fuel ds run config prior (saturating_add u32_max (max_retries config) 1) (prior_attempts recorded).

(** The closure scheduled for a dataset. *)
Definition dataset_task (fuel : nat) (run : string) (config : BatchExecutorConfig)
    (t : DatasetPlan * option DatasetState) : task (option DatasetExecutionOutcome) :=
  cancelled ← ask CIsCancelled;
  if cancelled : bool then TRet (Some (skipped_outcome (ds_dataset_id (fst t)) (snd t)))
  else execute_dataset_with_retries fuel (fst t) run config (snd t).
End Executor.

(** * Running one task alone *)

Class DatasetWorld (W : Type) := {
  remote_output_committed : DatasetLocation -> string -> W -> Result OrchestratorError bool * W;
  remote_publication_state : DatasetLocation -> string -> W -> Result OrchestratorError (option PublicationState) * W;
  acquire_lock : DatasetLocation -> string -> W -> Result OrchestratorError unit * W;
  release_lock : DatasetLocation -> W -> W;
  scan_location : DatasetLocation -> W -> Result RepairError ScanReport * W;
  fingerprint_scan : DatasetLocation -> ScanReport -> W -> Result RepairError DatasetFingerprint * W;
  execute_plan : list string -> RepairPlan -> DatasetLocation -> DatasetLocation -> ScanReport -> string -> W
    -> Result RepairFailure ExecutionReport * W;
  is_cancelled : W -> bool * W;
  cancel : W -> W;
  fetch_add_completed : W -> nat * W;
  utc_now : W -> Z * W;
}.

Section RunTask.
Context {W J : Type} `{DatasetWorld W} `{RunJournal J}.

Definition exec_dcall (c : dcall) (s : W * J) : danswer c * (W * J) :=
  let world {A} (r : A * W) : A * (W * J) := (fst r, (snd r, snd s)) in
  match c with
  | CRemoteOutputCommitted o run => world (remote_output_committed o run (fst s))
  | CRemotePublicationState o run => world (remote_publication_state o run (fst s))
  | CAcquireLock o run => world (acquire_lock o run (fst s))
  | CReleaseLock o => world (tt, release_lock o (fst s))
  | CScan l => world (scan_location l (fst s))
  | CFingerprint l scan => world (fingerprint_scan l scan (fst s))
  | CExecutePlan a p src out scan run => world (execute_plan a p src out scan run (fst s))
  | CIsCancelled => world (is_cancelled (fst s))
  | CCancel => world (tt, cancel (fst s))
  | CFetchAddCompleted => world (fetch_add_completed (fst s))
  | CUtcNow => world (utc_now (fst s))
  | CDataset id => (dataset id (snd s), s)
  | CUpsert r => let '(res, j) := upsert_dataset r (snd s) in (res, (fst s, j))
  end.

Fixpoint run_task {A} (p : task A) (s : W * J) : A * (W * J) :=
  match p with
  | TRet a => (a, s)
  | TCall c k => let '(x, s') := exec_dcall c s in run_task (k x) s'
  end.
End RunTask.

(** * A run: which datasets are scheduled, what is reported *)

(** The loop that builds the tasks, for a run that is not cancelled meanwhile. *)
Definition scheduled (mode : ExecutionMode) (existing : list DatasetRunRecord) (ds : DatasetPlan) : bool :=
  match mode, find_record (ds_dataset_id ds) existing with
  | Resume, Some r =>
      negb (bool_decide (rec_state r = Succeeded))
      && negb (negb (is_runnable (rec_state r)) && is_terminal (rec_state r))
  | _, _ => true
  end.

Definition select_tasks (mode : ExecutionMode) (existing : list DatasetRunRecord) (plan : BatchPlan)
    : list DatasetPlan :=
  filter (fun ds => scheduled mode existing ds = true) (bp_datasets plan).

Definition prior_outcome (existing : list DatasetRunRecord) (ds : DatasetPlan) : list DatasetExecutionOutcome :=
  match find_record (ds_dataset_id ds) existing with
  | Some r =>
      if decide (rec_state r = Succeeded) then
        [{| out_dataset_id := ds_dataset_id ds; out_state := Succeeded; out_attempts := rec_attempts r;
            out_error_class := None; out_error_message := None; skipped := true |}]
      else if is_terminal (rec_state r) then
        [{| out_dataset_id := ds_dataset_id ds; out_state := rec_state r; out_attempts := rec_attempts r;
            out_error_class := rec_error_class r; out_error_message := rec_error_message r; skipped := true |}]
      else []
  | None => []
  end.

(** The outcomes of the tasks, then those of the records that were not rerun. *)
Definition assemble_outcomes (existing : list DatasetRunRecord) (plan : BatchPlan)
    (done : list DatasetExecutionOutcome) : list DatasetExecutionOutcome :=
  foldl (fun acc ds =>
    if existsb (fun o => bool_decide (out_dataset_id o = ds_dataset_id ds)) acc then acc
    else acc ++ prior_outcome existing ds) done (bp_datasets plan).
