(* ===== verification/ExecutorProofs.v ===== *)
(** Correctness of dataset tasks.

    [wp id p Q (r, b)] says that the task [p] of dataset [id], started when the
    journal holds [r] for it, only writes its own well-formed record and ends in
    a state that satisfies [Q], whatever the world answers; [b] records whether
    the task has seen the cancel flag set.  It speaks about one key of the
    journal only, so it is stable under the steps of other tasks. *)

From stdpp Require Import gmap.
From S2P Require Import Prelude Location Errors Overlap BTree Schema.
From S2P Require Import RepairPlan Deps RepairExec Inventory Publication Journal Batch Execute.
From S2P Require Import Executor.

Definition u32 (n : Z) : Prop := (0 <= n <= u32_max)%Z.

(** * Weakest preconditions *)

(** What a task's view of the run consists of. *)
Abbreviation tview := (option DatasetRunRecord * bool)%type.

Section Wp.
Context (id : string).
Implicit Types (r : tview).

(** The calls a task may make on the journal. *)
Definition call_ok (c : dcall) : Prop :=
  match c with
  | CDataset i => i = id
  | CUpsert rec => rec_dataset_id rec = id /\ record_ok rec
  | _ => True
  end.

(** The answers of a journal that accepts writes, and of any world. *)
Definition answers (c : dcall) r : danswer c -> tview -> Prop :=
  match c with
  | CDataset _ => fun a r' => r' = r /\ forall o, a = Ok o -> o = fst r
  | CUpsert rec => fun a r' => r' = (Some rec, snd r)
  | CIsCancelled => fun a r' => r' = (fst r, snd r || a)
  | _ => fun _ r' => r' = r
  end.

Fixpoint wp {A} (p : task A) (Q : A -> tview -> Prop) r : Prop :=
  match p with
  | TRet a => Q a r
  | TCall c k => call_ok c /\ forall a r', answers c r a r' -> wp (k a) Q r'
  end.

Lemma task_wp_mono {A} (p : task A) (Q Q' : A -> tview -> Prop) r :
  (forall a r', Q a r' -> Q' a r') -> wp p Q r -> wp p Q' r.
Proof.
  intros HQ. revert r. induction p as [a|c k IH]; intros r; simpl; [apply HQ|].
  intros [Hc Hk]. split; [done|]. intros a r' Ha. by apply IH, Hk.
Qed.

Lemma task_wp_bind {A B} (p : task A) (f : A -> task B) Q r :
  wp p (fun a r' => wp (f a) Q r') r -> wp (p ≫= f) Q r.
Proof.
  revert r. induction p as [a|c k IH]; intros r; simpl; [done|].
  intros [Hc Hk]. split; [done|]. intros a r' Ha. by apply IH, Hk.
Qed.

Lemma wp_ask {B} c (f : danswer c -> task B) Q r :
  call_ok c -> (forall a r', answers c r a r' -> wp (f a) Q r') -> wp (ask c ≫= f) Q r.
Proof. intros Hc Hk. simpl. split; [done|]. intros a r' Ha. by apply Hk. Qed.

(** A call on the world leaves the journal alone. *)
Lemma wp_ask_last c (Q : danswer c -> tview -> Prop) r :
  call_ok c -> (forall a r', answers c r a r' -> Q a r') -> wp (ask c) Q r.
Proof. done. Qed.
End Wp.

(** Step over the next call or over a sub-task with a known specification. *)
Ltac wp_call a := (apply wp_ask || apply wp_ask_last); [done|]; cbn [answers]; intros a ? ->.
Ltac wp_use L := apply task_wp_bind; eapply task_wp_mono; [|eapply L].

Section Proofs.
Context `{UrlParser}.
Implicit Types (ds : DatasetPlan) (r : tview).

(** The journal's record says what the outcome says. *)
Definition agrees (o : DatasetExecutionOutcome) (r : option DatasetRunRecord) : Prop :=
  exists x, r = Some x /\ rec_state x = out_state o /\ rec_attempts x = out_attempts o
    /\ rec_error_class x = out_error_class o /\ rec_error_message x = out_error_message o.

Lemma upsert_record_wp ds st n fp ec em t1 t2 r : u32 n ->
  wp (ds_dataset_id ds) (upsert_record ds st n fp ec em t1 t2)
    (fun _ r' => exists x, r' = (Some x, snd r) /\ rec_state x = st /\ rec_attempts x = n
       /\ rec_error_class x = ec /\ rec_error_message x = em) r.
Proof. intros Hn. unfold upsert_record. wp_call now. wp_call res. eexists. done. Qed.

(** What one attempt may answer. *)
Definition once_ok ds (n : Z) (res : Result DatasetFailure DatasetExecutionOutcome) r : Prop :=
  match res with
  | Ok o => out_dataset_id o = ds_dataset_id ds /\ out_state o = Succeeded /\ out_attempts o = n /\ agrees o (fst r)
  | Err f => class f <> ClassCancelled
  end.

Lemma repair_not_cancelled e : class (repair_failure e) <> ClassCancelled.
Proof. by destruct e. Qed.

Lemma unlock_wp ds l out r : wp (ds_dataset_id ds) (unlock l out) (fun _ r' => r' = r) r.
Proof. destruct l; [|done]. by wp_call u. Qed.

Lemma succeed_wp ds n t sk r : u32 n -> wp (ds_dataset_id ds) (succeed ds n t sk) (once_ok ds n) r.
Proof.
  intros Hn. unfold succeed. wp_call c. wp_use upsert_record_wp; [|done]. intros _ r' (x & -> & ?). simpl. repeat split. by exists x.
Qed.

Lemma run_repair_wp ds run src out l n t r : u32 n ->
  wp (ds_dataset_id ds) (run_repair ds run src out l n t) (once_ok ds n) r.
Proof.
  intros Hn. unfold run_repair. wp_call scan. destruct scan as [scan|e]; [|wp_use unlock_wp; intros _ ? ->; apply repair_not_cancelled].
  wp_call res. wp_use unlock_wp. intros _ ? ->. destruct res as [rep|[m|e]]; [by apply succeed_wp|done|].
  wp_call c. wp_use upsert_record_wp; [|done]. intros _ ? _. apply repair_not_cancelled.
Qed.

(** A sub-task that only asks the world. *)
Lemma verify_source_fingerprint_wp ds src id r : wp id (verify_source_fingerprint src ds)
  (fun res r' => r' = r /\ forall f, res = Err f -> class f <> ClassCancelled) r.
Proof.
  unfold verify_source_fingerprint. wp_call scan. destruct scan as [scan|e].
  2: { split; [done|]. intros f [= <-]. apply repair_not_cancelled. }
  wp_call fp. destruct fp as [fp|e].
  2: { split; [done|]. intros f [= <-]. apply repair_not_cancelled. }
  split; [done|].
  destruct (verify_against _ fp); [done|]. by intros f [= <-].
Qed.

Lemma execute_dataset_once_wp ds run n t r : u32 n ->
  wp (ds_dataset_id ds) (execute_dataset_once ds run n t) (once_ok ds n) r.
Proof.
  assert (forall raw e, parse_location raw = Err e -> class e <> ClassCancelled) as Hp.
  { intros raw e. unfold parse_location. destruct (parse raw); [done|]. by intros [= <-]. }
  intros Hn. unfold execute_dataset_once.
  destruct (parse_location (ds_source_path ds)) as [src|e] eqn:Hs; [|by apply Hp in Hs].
  destruct (parse_location (ds_output_path ds)) as [out|e] eqn:Ho; [|by apply Hp in Ho].
  wp_call c. destruct (default false (result_ok c)); [by apply succeed_wp|].
  apply task_wp_bind, task_wp_mono with (fun _ r' => r' = r).
  2: { destruct (negb _); [|done]. by wp_call u. }
  intros [[]|e] ? ->; [|done]. apply task_wp_bind, task_wp_mono with (fun _ r' => r' = r).
  2: { destruct out; [done|]. by wp_call st. }
  intros [] ? ->.
  - wp_use succeed_wp; [|done]. intros res r' Hr. wp_use unlock_wp. by intros _ ? ->.
  - wp_use verify_source_fingerprint_wp. intros [fp|f] ? [-> Hf].
    + wp_use upsert_record_wp; [|done]. intros _ r' _. by apply run_repair_wp.
    + wp_use unlock_wp. intros _ ? ->. by apply Hf.
Qed.

Lemma as_u32_u32 n : u32 (as_u32 n).
Proof. unfold u32, as_u32, u32_max. pose proof (Z.mod_pos_bound n (2 ^ 32)). lia. Qed.

(** What a dataset task guarantees, [n] being the attempts recorded before and
    [mx] the attempts allowed. *)
Definition task_ok ds (n mx : Z) (res : option DatasetExecutionOutcome) r : Prop :=
  exists o, res = Some o /\ out_dataset_id o = ds_dataset_id ds /\ agrees o (fst r)
    /\ (n <= out_attempts o <= Z.max (n + 1) mx)%Z
    /\ (out_state o = FailedRecoverable -> mx <= out_attempts o)%Z
    /\ (is_terminal (out_state o) = true \/ out_state o = FailedRecoverable)
    /\ (out_state o = Cancelled -> snd r = true).

Lemma final_failure_wp ds n t f r : u32 n -> wp (ds_dataset_id ds) (final_failure ds n t f)
  (fun o r' => out_dataset_id o = ds_dataset_id ds /\ out_state o = failure_state (class f)
     /\ out_attempts o = n /\ agrees o (fst r')) r.
Proof.
  intros Hn. unfold final_failure. wp_call c. wp_use upsert_record_wp; [|done]. intros _ r' (x & -> & ?). simpl. repeat split. by exists x.
Qed.

Lemma retry_loop_wp fuel ds run cfg prior mx n r : (mx <= u32_max)%Z -> (0 <= n < u32_max)%Z ->
  Z.to_nat (mx - n) < fuel ->
  wp (ds_dataset_id ds) (retry_loop fuel ds run cfg prior mx n) (task_ok ds n mx) r.
Proof.
  intros Hmx. revert n r. induction fuel as [|fuel IH]; intros n r Hn Hf; [lia|].
  assert (u32 n) as Hun by (unfold u32; lia). assert (u32 (n + 1)) as Hn' by (unfold u32; lia). cbn [retry_loop]. wp_call b. destruct b.
  - wp_call c. wp_use upsert_record_wp; [|done]. intros _ r' (x & -> & ?). eexists. split; [done|].
    split; [done|]. split; [by exists x|]. simpl. split; [lia|]. split; [done|]. split; [by left|]. by rewrite orb_true_r.
  - assert (as_u32 (n + 1) = n + 1)%Z as -> by (unfold as_u32, u32_max in *; apply Z.mod_small; lia).
    wp_call started. apply task_wp_bind, task_wp_mono with (fun _ _ => True).
    2: { destruct (decide _); [done|]. eapply task_wp_mono; [|by apply upsert_record_wp]. done. }
    intros _ r1 _. wp_use execute_dataset_once_wp; [|done]. intros [o|f] r2 Hr.
    + destruct Hr as (Hid & Hst & Hat & Hag). apply task_wp_bind, task_wp_mono with (fun _ r' => r' = r2).
      2: { unfold note_completed. rewrite decide_True by done. wp_call m.
           destruct (decide _); [by wp_call u|done]. }
      intros _ ? ->. exists o. split; [done|]. split; [done|]. split; [done|]. rewrite Hat, Hst. split; [lia|].
      split; [done|]. split; [by left|done].
    + destruct (decide (class f = Recoverable /\ (n + 1 < mx)%Z)) as [[_ Hlt]|Hstop].
      * wp_use upsert_record_wp; [|done]. intros _ r3 _. eapply task_wp_mono; [|apply IH; lia].
        intros res r' (o & -> & ? & ? & [Hlo Hhi] & ? & ?). exists o. split; [done|]. split; [done|]. split; [done|].
        split; [lia|done].
      * wp_use final_failure_wp; [|done]. intros o r' (Hid & Hst & Hat & Hag). exists o. split; [done|].
        split; [done|]. split; [done|]. split; [lia|]. rewrite Hst. simpl in Hr. split_and!.
        -- intros Hfr. assert (class f = Recoverable) by (by destruct (class f)). rewrite Hat.
           apply Z.nlt_ge. intros ?. by apply Hstop.
        -- destruct (class f); auto.
        -- by destruct (class f).
Qed.

(** The fuel that always suffices. *)
Definition enough_fuel (cfg : BatchExecutorConfig) : nat :=
  S (Z.to_nat (saturating_add u32_max (max_retries cfg) 1)).

Definition attempts_of (r : option DatasetRunRecord) : Z := match r with Some x => rec_attempts x | None => 0%Z end.
Definition budget (cfg : BatchExecutorConfig) : Z := saturating_add u32_max (max_retries cfg) 1.

(** The journal may fail to read the record, then the count starts at 0. *)
Definition dataset_ok ds cfg r (res : option DatasetExecutionOutcome) r' : Prop :=
  exists n, (n = attempts_of (fst r) \/ n = 0%Z) /\ task_ok ds n (budget cfg) res r'.

Lemma execute_dataset_wp ds run cfg prior r : (0 <= attempts_of (fst r) < u32_max)%Z -> (0 <= max_retries cfg)%Z ->
  wp (ds_dataset_id ds) (execute_dataset_with_retries (enough_fuel cfg) ds run cfg prior) (dataset_ok ds cfg r) r.
Proof.
  intros Hr Hm. unfold execute_dataset_with_retries. apply wp_ask; [done|]. cbn [answers]. intros a ? [-> Ha].
  assert (prior_attempts a = attempts_of (fst r) \/ prior_attempts a = 0%Z) as Hn.
  { destruct a as [[x|]|e]; simpl; auto. left. by rewrite <- (Ha (Some x)). }
  eapply task_wp_mono; [|apply retry_loop_wp].
  - intros res r' Hok. by exists (prior_attempts a).
  - unfold saturating_add. lia.
  - destruct Hn as [->| ->]; unfold u32_max in *; lia.
  - unfold enough_fuel. lia.
Qed.
End Proofs.

(** * Running a task alone *)

Section Alone.
Context {W J : Type} `{DatasetWorld W} `{ReliableJournal J} `{UrlParser}.
Implicit Types s : W * J.

(** Only the record of one dataset may differ. *)
Definition only_touches (id : string) (j j' : J) : Prop :=
  journal_wf j' /\ forall id', id' <> id -> records j' !! id' = records j !! id'.

Lemma exec_dcall_answers id c s a s' b : journal_wf (snd s) -> call_ok id c -> exec_dcall c s = (a, s') ->
  (exists b', answers c (records (snd s) !! id, b) a (records (snd s') !! id, b')) /\ only_touches id (snd s) (snd s').
Proof.
  intros Hwf Hc. destruct c; simpl; try (intros [= <- <-]; split; [by eexists|done]).
  - intros [= <- <-]. simpl in Hc. subst. split; [|done]. exists b. split; [done|]. intros o Ho. by eapply dataset_law.
  - simpl in Hc. destruct Hc as [<- Hok]. destruct (upsert_ok r (snd s) Hwf) as [j' Hu]. rewrite Hu.
    intros [= <- <-]. destruct (upsert_law r (snd s) _ j' Hwf Hok Hu) as [Hwf' Hrec]. unfold only_touches. simpl.
    rewrite Hrec. split; [exists b; by rewrite lookup_insert_eq|]. split; [done|]. intros id' Hne. by rewrite lookup_insert_ne.
Qed.

Lemma wp_run_task {A} id (p : task A) Q s b : journal_wf (snd s) -> wp id p Q (records (snd s) !! id, b) ->
  exists a s' b', run_task p s = (a, s') /\ Q a (records (snd s') !! id, b') /\ only_touches id (snd s) (snd s').
Proof.
  revert s b. induction p as [a|c k IH]; intros s b Hwf; simpl.
  - intros HQ. by exists a, s, b.
  - intros [Hc Hk]. destruct (exec_dcall c s) as [x s1] eqn:Hx.
    destruct (exec_dcall_answers id c s x s1 b Hwf Hc Hx) as [[b1 Ha] [Hwf1 Ht]].
    destruct (IH x s1 b1 Hwf1 (Hk x _ Ha)) as (a & s' & b' & Hrun & HQ & Hwf' & Ht'). exists a, s', b'. split; [done|].
    split; [done|]. split; [done|]. intros id' Hne. by rewrite Ht', Ht.
Qed.

(** C5: With a journal that accepts every write, a dataset task always ends.  It reports
    a terminal state or [FailedRecoverable], uses at most [max_retries + 1] attempts (one more than
    recorded if the budget was spent in an earlier run), gives up on a
    recoverable failure only when the budget is spent, leaves a journal record
    that says exactly what it reports, and never touches the record of another
    dataset. *)
Theorem dataset_execution_correct ds run cfg prior s :
  journal_wf (snd s) -> (0 <= attempts_of (records (snd s) !! ds_dataset_id ds) < u32_max)%Z ->
  (0 <= max_retries cfg)%Z ->
  exists o s', run_task (execute_dataset_with_retries (enough_fuel cfg) ds run cfg prior) s = (Some o, s')
    /\ out_dataset_id o = ds_dataset_id ds
    /\ (out_attempts o <= Z.max (attempts_of (records (snd s) !! ds_dataset_id ds) + 1) (max_retries cfg + 1))%Z
    /\ (out_state o = FailedRecoverable -> max_retries cfg < u32_max -> max_retries cfg + 1 <= out_attempts o)%Z
    /\ (is_terminal (out_state o) = true \/ out_state o = FailedRecoverable)
    /\ agrees o (records (snd s') !! ds_dataset_id ds)
    /\ forall id, id <> ds_dataset_id ds -> records (snd s') !! id = records (snd s) !! id.
Proof.
  intros Hwf Hp Hr. destruct (wp_run_task _ _ _ s false Hwf (execute_dataset_wp ds run cfg prior (_, false) Hp Hr))
    as (res & s' & b & Hrun & (n & Hn & o & -> & Hid & Hag & Hb & Hf & Ht & _) & _ & Hother).
  exists o, s'. split; [done|]. split; [done|]. unfold budget, saturating_add in *.
  simpl in Hn. split; [destruct Hn as [->| ->]; lia|]. split; [intros Hfr Hlt; specialize (Hf Hfr); lia|]. done.
Qed.
End Alone.
