(* ===== verification/Scheduler.v ===== *)
(** The bounded scheduler (src/crates/parqonaut-orchestrator/src/scheduler/mod.rs)
    as a step relation: the scheduling loop interleaves with the tasks it
    spawned and with a cancellation from outside.

    A task is spawned, starts ([record_start]), then finishes ([record_end]) or
    panics; the loop joins finished tasks in any order. *)

From S2P Require Import Prelude.

Section Scheduler.
Context {T R : Type}.

Inductive task_status :=
| NotStarted
| Started
| Finished (r : option R). (** [None]: the task panicked *)

Inductive sched_phase := LoopHead | Filling | Joining | Draining | Returned.

Record sched := {
  pending : list T;
  join_set : list (T * task_status);
  joined : list (T * option R);
  active : nat;
  peak : nat;
  sched_cancelled : bool;
  phase : sched_phase;
}.

(** The results the caller receives, in join order. *)
Definition results (st : sched) : list R := omap snd (joined st).

Definition BatchScheduler_new (max_jobs : Z) : nat := Z.to_nat (Z.max max_jobs 1).

Definition initial (tasks : list T) : sched := {|
  pending := tasks; join_set := []; joined := []; active := 0; peak := 0;
  sched_cancelled := false; phase := LoopHead |}.

Definition is_started (e : T * task_status) : bool := match snd e with Started => true | _ => false end.
(** A task holds its semaphore permit until it ends. *)
Definition holds_permit (e : T * task_status) : bool := match snd e with Finished _ => false | _ => true end.
Definition count (f : T * task_status -> bool) (l : list (T * task_status)) : nat :=
  length (filter (fun e => f e = true) l).

Definition with_loop (st : sched) (pending : list T) (join_set : list (T * task_status))
    (joined : list (T * option R)) (p : sched_phase) : sched := {|
  pending := pending; join_set := join_set; joined := joined; active := active st; peak := peak st;
  sched_cancelled := sched_cancelled st; phase := p |}.

Definition with_task (st : sched) (join_set : list (T * task_status)) (active peak : nat) : sched := {|
  pending := pending st; join_set := join_set; joined := joined st; active := active; peak := peak;
  sched_cancelled := sched_cancelled st; phase := phase st |}.

Definition with_phase (st : sched) (p : sched_phase) : sched :=
  with_loop st (pending st) (join_set st) (joined st) p.

(** Who takes a step. *)
Inductive sched_label :=
| LoopStep
| CancelStep
| StartTask (t : T)
| FinishTask (t : T) (r : R)
| PanicTask (t : T).

Definition with_cancel (st : sched) : sched := {|
  pending := pending st; join_set := join_set st; joined := joined st; active := active st; peak := peak st;
  sched_cancelled := true; phase := phase st |}.

Inductive sched_step (max_jobs : nat) : sched_label -> sched -> sched -> Prop :=
(** Tasks and environment. *)
| step_cancel st : sched_cancelled st = false -> sched_step max_jobs CancelStep st (with_cancel st)
| step_start st t l1 l2 : join_set st = l1 ++ (t, NotStarted) :: l2 ->
    sched_step max_jobs (StartTask t) st
      (with_task st (l1 ++ (t, Started) :: l2) (S (active st)) (Nat.max (peak st) (S (active st))))
| step_finish st t r l1 l2 : join_set st = l1 ++ (t, Started) :: l2 ->
    sched_step max_jobs (FinishTask t r) st
      (with_task st (l1 ++ (t, Finished (Some r)) :: l2) (active st - 1) (peak st))
| step_panic st t l1 l2 : join_set st = l1 ++ (t, Started) :: l2 ->
    sched_step max_jobs (PanicTask t) st (with_task st (l1 ++ (t, Finished None) :: l2) (active st) (peak st))
(** [while !cancel.is_cancelled()]. *)
| step_head st : phase st = LoopHead ->
    sched_step max_jobs LoopStep st (with_phase st (if sched_cancelled st then Draining else Filling))
(** [while join_set.len() < max_jobs]. *)
| step_spawn st t ts : phase st = Filling -> length (join_set st) < max_jobs -> sched_cancelled st = false ->
    pending st = t :: ts -> count holds_permit (join_set st) < max_jobs ->
    sched_step max_jobs LoopStep st (with_loop st ts (join_set st ++ [(t, NotStarted)]) (joined st) Filling)
| step_filled st : phase st = Filling ->
    max_jobs <= length (join_set st) \/ sched_cancelled st = true \/ pending st = [] ->
    sched_step max_jobs LoopStep st (with_phase st Joining)
(** [if join_set.is_empty() { break; }], then [join_next]. *)
| step_break st : phase st = Joining -> join_set st = [] ->
    sched_step max_jobs LoopStep st (with_phase st Draining)
| step_join st t r l1 l2 : phase st = Joining -> join_set st = l1 ++ (t, Finished r) :: l2 ->
    sched_step max_jobs LoopStep st (with_loop st (pending st) (l1 ++ l2) (joined st ++ [(t, r)]) LoopHead)
(** The drain after the loop. *)
| step_drain st t r l1 l2 : phase st = Draining -> join_set st = l1 ++ (t, Finished r) :: l2 ->
    sched_step max_jobs LoopStep st (with_loop st (pending st) (l1 ++ l2) (joined st ++ [(t, r)]) Draining)
| step_return st : phase st = Draining -> join_set st = [] ->
    sched_step max_jobs LoopStep st (with_phase st Returned).

Inductive sched_steps (max_jobs : nat) : sched -> sched -> Prop :=
| steps_refl st : sched_steps max_jobs st st
| steps_snoc st1 st2 st3 l : sched_steps max_jobs st1 st2 -> sched_step max_jobs l st2 st3 ->
    sched_steps max_jobs st1 st3.

(** * Invariant *)

Definition is_panic (r : option R) : bool := match r with None => true | Some _ => false end.

Definition is_panicked (e : T * task_status) : bool :=
  match snd e with Finished None => true | _ => false end.
Definition joined_panics (l : list (T * option R)) : nat :=
  length (filter (fun e => is_panic (snd e) = true) l).

(** Tasks that panicked so far. *)
Definition panics (st : sched) : nat := joined_panics (joined st) + count is_panicked (join_set st).

Record sched_inv (max_jobs : nat) (tasks : list T) (st : sched) : Prop := {
  inv_bound : length (join_set st) <= max_jobs;
  inv_active : active st = count is_started (join_set st) + panics st;
  inv_peak : peak st <= max_jobs + panics st;
  inv_tasks : map fst (joined st) ++ map fst (join_set st) ++ pending st ≡ₚ tasks;
  inv_drain : phase st = Draining \/ phase st = Returned -> sched_cancelled st = true \/ pending st = [];
  inv_break : phase st = Joining -> join_set st = [] -> sched_cancelled st = true \/ pending st = [];
  inv_returned : phase st = Returned -> join_set st = [];
}.

Lemma count_app f l1 l2 : count f (l1 ++ l2) = count f l1 + count f l2.
Proof. unfold count. by rewrite filter_app, length_app. Qed.

Lemma count_cons f e l : count f (e :: l) = (if f e then 1 else 0) + count f l.
Proof. unfold count. rewrite filter_cons. destruct (f e); [rewrite decide_True by done|rewrite decide_False by done]; done. Qed.

Lemma count_nil f : count f [] = 0.
Proof. done. Qed.

Lemma count_le f l : count f l <= length l.
Proof. unfold count. apply length_filter. Qed.

Ltac counts :=
  rewrite ?(count_app is_started), ?(count_app is_panicked), ?(count_cons is_started), ?(count_cons is_panicked), ?count_nil in *.

(** Joining moves an entry from the set to the log. *)
Lemma joined_snoc (l : list (T * option R)) t r :
  joined_panics (l ++ [(t, r)]) = joined_panics l + (if is_panic r then 1 else 0).
Proof. unfold joined_panics. rewrite filter_app, length_app. f_equal. rewrite filter_cons. simpl. by destruct r. Qed.

Lemma join_inv max_jobs tasks st t r l1 l2 p : sched_inv max_jobs tasks st ->
  join_set st = l1 ++ (t, Finished r) :: l2 -> p = LoopHead \/ p = Draining /\ phase st = Draining ->
  sched_inv max_jobs tasks (with_loop st (pending st) (l1 ++ l2) (joined st ++ [(t, r)]) p).
Proof.
  intros [Hb Ha Hp Ht Hd Hk Hr] Hj Hph. unfold panics in *. rewrite Hj in *.
  rewrite length_app in Hb. counts. simpl in *.
  split; simpl; unfold panics; simpl; rewrite ?joined_snoc, ?length_app; counts.
  - lia.
  - destruct r; simpl in *; lia.
  - destruct r; simpl in *; lia.
  - rewrite <- Ht, !map_app. simpl. rewrite <- !app_assoc. simpl. f_equiv. by rewrite Permutation_middle.
  - intros Hq. destruct Hph as [->|[-> ?]]; [by destruct Hq|]. apply Hd. by left.
  - destruct Hph as [->|[-> ?]]; done.
  - destruct Hph as [->|[-> ?]]; done.
Qed.

(** A task changes its own status. *)
Lemma task_inv max_jobs tasks st t a b l1 l2 n p : sched_inv max_jobs tasks st ->
  join_set st = l1 ++ (t, a) :: l2 ->
  n = count is_started (l1 ++ (t, b) :: l2) + (joined_panics (joined st) + count is_panicked (l1 ++ (t, b) :: l2)) ->
  p <= max_jobs + (joined_panics (joined st) + count is_panicked (l1 ++ (t, b) :: l2)) ->
  sched_inv max_jobs tasks (with_task st (l1 ++ (t, b) :: l2) n p).
Proof.
  intros [Hb Ha Hp Ht Hd Hk Hr] Hj Hn Hpk. rewrite Hj in *.
  split; simpl; unfold panics; simpl; try done.
  - rewrite length_app in *. simpl in *. lia.
  - rewrite <- Ht, !map_app. done.
  - intros Hph He. by destruct l1.
  - intros Hph. specialize (Hr Hph). by destruct l1.
Qed.

Lemma sched_step_inv max_jobs tasks l st st' : 1 <= max_jobs -> sched_inv max_jobs tasks st ->
  sched_step max_jobs l st st' -> sched_inv max_jobs tasks st'.
Proof.
  intros Hmax Hinv Hstep. pose proof Hinv as [Hb Ha Hp Ht Hd Hk Hr].
  destruct Hstep as [st Hc|st t l1 l2 Hj|st t r l1 l2 Hj|st t l1 l2 Hj|st Hph|st t ts Hph Hlt Hc Hpe _|st Hph Hfull
    |st Hph Hj|st t r l1 l2 Hph Hj|st t r l1 l2 Hph Hj|st Hph Hj].
  - split; simpl; auto.
  - pose proof (count_le is_started (join_set st)) as Hs. unfold panics in *.
    eapply task_inv; [done|done|..]; rewrite Hj in *; counts; simpl in *; rewrite ?length_app in *; simpl in *.
    + lia.
    + pose proof (count_le is_started l1). pose proof (count_le is_started l2). lia.
  - unfold panics in *. eapply task_inv; [done|done|..]; rewrite Hj in *; counts; simpl in *; lia.
  - unfold panics in *. eapply task_inv; [done|done|..]; rewrite Hj in *; counts; simpl in *; lia.
  - split; simpl; auto; destruct (sched_cancelled st) eqn:E; naive_solver.
  - unfold panics in *. split; simpl; unfold panics; simpl; counts; simpl; try done.
    + rewrite length_app. simpl. lia.
    + lia.
    + lia.
    + rewrite <- Ht, Hpe, map_app. simpl. by rewrite <- !app_assoc.
    + intros [?|?]; congruence.
  - split; simpl; auto; try done; [by intros [?|?]|]. intros _ He. rewrite He in Hfull. simpl in Hfull.
    destruct Hfull as [?|?]; [lia|done].
  - split; simpl; auto; try done.
  - eapply join_inv; eauto.
  - eapply join_inv; eauto.
  - split; simpl; auto.
Qed.

Lemma initial_sched_inv max_jobs tasks : sched_inv max_jobs tasks (initial tasks).
Proof. split; simpl; try done; try lia. by intros [?|?]. Qed.

Lemma reachable_inv max_jobs tasks st : 1 <= max_jobs -> sched_steps max_jobs (initial tasks) st ->
  sched_inv max_jobs tasks st.
Proof.
  intros Hmax Hs. remember (initial tasks) as st0 eqn:E. induction Hs as [|st1 st2 st3 l _ IH Hstep]; subst.
  - apply initial_sched_inv.
  - eapply sched_step_inv; eauto.
Qed.

(** At no time are more than [max_jobs] tasks running, and the reported peak
    exceeds that bound by at most the number of tasks that panicked (a panicking
    task never calls [record_end]). *)
Theorem concurrency_bounded max_jobs tasks st : 1 <= max_jobs -> sched_steps max_jobs (initial tasks) st ->
  count is_started (join_set st) <= max_jobs /\ peak st <= max_jobs + panics st.
Proof.
  intros Hmax Hs. destruct (reachable_inv max_jobs tasks st Hmax Hs) as [Hb _ Hp _ _ _ _].
  split; [|done]. pose proof (count_le is_started (join_set st)). lia.
Qed.

(** When the scheduler returns, every task it started has been joined once; if
    it was not cancelled, that is every task. *)
Theorem scheduler_exactly_once max_jobs tasks st : 1 <= max_jobs -> sched_steps max_jobs (initial tasks) st ->
  phase st = Returned ->
  map fst (joined st) ++ pending st ≡ₚ tasks
  /\ (sched_cancelled st = false -> map fst (joined st) ≡ₚ tasks).
Proof.
  intros Hmax Hs Hr. destruct (reachable_inv max_jobs tasks st Hmax Hs) as [_ _ _ Ht Hd _ Hj].
  rewrite (Hj Hr) in Ht. simpl in Ht. split; [done|]. intros Hc.
  destruct Hd as [?|Hp]; [by right|congruence|]. by rewrite Hp, app_nil_r in Ht.
Qed.

(** * The life of a task

    Every task is in one of the three lists; loop steps only move tasks between
    them, and a task's own step changes its status alone. *)

Definition entries (st : sched) : list (T * task_status) :=
  map (fun t => (t, NotStarted)) (pending st) ++ join_set st ++ map (fun e => (fst e, Finished (snd e))) (joined st).

(** One entry changes its status. *)
Definition entry_changes (st st' : sched) (t : T) (a b : task_status) : Prop :=
  exists rest, entries st ≡ₚ (t, a) :: rest /\ entries st' ≡ₚ (t, b) :: rest.

Lemma entries_at st t a l1 l2 : join_set st = l1 ++ (t, a) :: l2 ->
  entries st ≡ₚ (t, a) :: (map (fun t => (t, NotStarted)) (pending st) ++ (l1 ++ l2)
                           ++ map (fun e => (fst e, Finished (snd e))) (joined st)).
Proof.
  intros Hj. unfold entries. rewrite Hj. symmetry. rewrite Permutation_middle. apply Permutation_app_head.
  rewrite <- !app_assoc. simpl. by rewrite Permutation_middle.
Qed.

Lemma entries_joined st t r l1 l2 p : join_set st = l1 ++ (t, Finished r) :: l2 ->
  entries (with_loop st (pending st) (l1 ++ l2) (joined st ++ [(t, r)]) p) ≡ₚ entries st.
Proof.
  intros Hj. rewrite (entries_at st t (Finished r) l1 l2 Hj). unfold entries. simpl. rewrite map_app. simpl.
  rewrite Permutation_middle. apply Permutation_app_head. rewrite Permutation_middle. apply Permutation_app_head.
  symmetry. apply Permutation_cons_append.
Qed.

Lemma sched_step_entries max_jobs l st st' : sched_step max_jobs l st st' ->
  match l with
  | LoopStep | CancelStep => entries st' ≡ₚ entries st
  | StartTask t => entry_changes st st' t NotStarted Started
  | FinishTask t r => entry_changes st st' t Started (Finished (Some r))
  | PanicTask t => entry_changes st st' t Started (Finished None)
  end.
Proof.
  destruct 1 as [st Hc|st t l1 l2 Hj|st t r l1 l2 Hj|st t l1 l2 Hj|st Hph|st t ts Hph Hlt Hc Hpe _
    |st Hph Hfull|st Hph Hj|st t r l1 l2 Hph Hj|st t r l1 l2 Hph Hj|st Hph Hj]; try done;
    try (by apply entries_joined).
  1-3: eexists; split; [by eapply entries_at|]; by apply (entries_at (with_task st _ _ _)).
  unfold entries. simpl. rewrite Hpe. simpl. rewrite <- app_assoc. simpl.
  rewrite Permutation_middle. apply Permutation_app_head. by rewrite Permutation_middle.
Qed.

(** * Progress and termination *)

Definition status_weight (s : task_status) : nat :=
  match s with NotStarted => 6 | Started => 5 | Finished _ => 4 end.
Definition phase_weight (p : sched_phase) : nat :=
  match p with LoopHead => 4 | Filling => 3 | Joining => 2 | Draining => 1 | Returned => 0 end.

(** A measure every step decreases. *)
Definition measure (st : sched) : nat :=
  10 * length (pending st) + sum_list (map (fun e => status_weight (snd e)) (join_set st))
  + phase_weight (phase st) + (if sched_cancelled st then 0 else 1).

Lemma weights_app (l1 l2 : list (T * task_status)) :
  sum_list (map (fun e => status_weight (snd e)) (l1 ++ l2))
  = sum_list (map (fun e => status_weight (snd e)) l1) + sum_list (map (fun e => status_weight (snd e)) l2).
Proof. rewrite map_app. induction (map _ l1) as [|n l IH]; simpl; [done|]. by rewrite IH, Nat.add_assoc. Qed.

Lemma step_decreases max_jobs l st st' : sched_step max_jobs l st st' -> measure st' < measure st.
Proof.
  unfold measure. destruct 1 as [st Hc|st t l1 l2 Hj|st t r l1 l2 Hj|st t l1 l2 Hj|st Hph|st t ts Hph Hlt Hc Hpe _
    |st Hph Hfull|st Hph Hj|st t r l1 l2 Hph Hj|st t r l1 l2 Hph Hj|st Hph Hj]; simpl;
    rewrite ?Hj, ?Hph, ?Hc, ?Hpe, ?weights_app; simpl; try lia.
  destruct (sched_cancelled st); simpl; lia.
Qed.

(** The scheduler cannot get stuck (given that tasks end): until it returns some
    step is possible without a cancellation, in particular no spawn waits for a
    permit; and no execution is infinite, since every step decreases [measure]. *)
Theorem scheduler_terminates max_jobs tasks st (r : R) : 1 <= max_jobs ->
  sched_steps max_jobs (initial tasks) st ->
  (phase st <> Returned -> exists l st', sched_step max_jobs l st st' /\ sched_cancelled st' = sched_cancelled st)
  /\ forall l st', sched_step max_jobs l st st' -> measure st' < measure st.
Proof.
  intros Hmax Hs. split; [|intros l st'; apply step_decreases]. intros Hph.
  destruct (join_set st) as [|[t s] l] eqn:Hj.
  - destruct (phase st) eqn:Hp; [|destruct (sched_cancelled st) eqn:Hc; [|destruct (pending st) as [|t ts] eqn:Hpe]| | |done].
    + eexists _, _. split; [by apply step_head|done].
    + eexists _, _. split; [apply step_filled; auto|done].
    + eexists _, _. split; [apply step_filled; auto|done].
    + eexists _, _. split; [eapply step_spawn; eauto; rewrite Hj; simpl; [lia|unfold count; simpl; lia]|done].
    + eexists _, _. split; [by apply step_break|done].
    + eexists _, _. split; [by apply step_return|done].
  - destruct s as [| |res].
    + eexists _, _. split; [by apply (step_start _ st t [] l)|done].
    + eexists _, _. split; [by apply (step_finish _ st t r [] l)|done].
    + destruct (phase st) eqn:Hp; [| | | |done].
      * eexists _, _. split; [by apply step_head|done].
      * destruct (decide (max_jobs <= length (join_set st))) as [Hfull|Hroom];
          [eexists _, _; split; [apply step_filled; auto|done]|].
        destruct (sched_cancelled st) eqn:Hc; [eexists _, _; split; [apply step_filled; auto|done]|].
        destruct (pending st) as [|t' ts] eqn:Hpe; [eexists _, _; split; [apply step_filled; auto|done]|].
        eexists _, _. split; [eapply step_spawn; eauto; [lia|]|done].
        pose proof (count_le holds_permit (join_set st)). lia.
      * eexists _, _. split; [by apply (step_join _ st t res [] l)|done].
      * eexists _, _. split; [by apply (step_drain _ st t res [] l)|done].
Qed.
End Scheduler.
