(* ===== verification/BatchRun.v ===== *)
(** A batch run: the dataset tasks of executor/mod.rs under the scheduler of
    scheduler/mod.rs, on one journal and one cancel flag ([BatchExecutor::run]).

    Tasks interleave call by call with each other and with the scheduling loop.
    The journal executes a call atomically; the rest of the world answers in any
    way, except that the cancel flag is the one the scheduler reads. *)

From stdpp Require Import gmap.
From S2P Require Import Prelude Location Errors Overlap BTree Schema.
From S2P Require Import RepairPlan Deps RepairExec Inventory Publication Journal Batch Execute.
From S2P Require Import Executor ExecutorProofs Scheduler.

(** A scheduled dataset with the state of its earlier record. *)
Abbreviation dtask := (DatasetPlan * option DatasetState)%type.
Abbreviation batch_sched := (sched (T := dtask) (R := DatasetExecutionOutcome)).

Definition task_id (t : dtask) : string := ds_dataset_id (fst t).

Section BatchRun.
Context {J : Type} `{ReliableJournal J} `{UrlParser}.

Record batch := {
  b_sched : batch_sched;
  b_tasks : gmap string (task (option DatasetExecutionOutcome));
  b_journal : J;
}.

(** How a call of a running task is answered. *)
Definition task_answer (c : dcall) (st : batch_sched) (j : J) : danswer c -> batch_sched -> J -> Prop :=
  match c with
  | CDataset id => fun a st' j' => a = dataset id j /\ st' = st /\ j' = j
  | CUpsert r => fun a st' j' => upsert_dataset r j = (a, j') /\ st' = st
  | CIsCancelled => fun a st' j' => a = sched_cancelled st /\ st' = st /\ j' = j
  | CCancel => fun _ st' j' => st' = with_cancel st /\ j' = j
  | _ => fun _ st' j' => st' = st /\ j' = j
  end.

Section Steps.
Context (max_jobs : nat) (run : string) (cfg : BatchExecutorConfig).

Inductive batch_step : batch -> batch -> Prop :=
| batch_loop b l st : l = LoopStep \/ l = CancelStep -> sched_step max_jobs l (b_sched b) st ->
    batch_step b {| b_sched := st; b_tasks := b_tasks b; b_journal := b_journal b |}
| batch_start b t st : sched_step max_jobs (StartTask t) (b_sched b) st ->
    batch_step b {| b_sched := st; b_tasks := <[task_id t := dataset_task (enough_fuel cfg) run cfg t]> (b_tasks b);
                    b_journal := b_journal b |}
| batch_call b t c k a st j : (t, Started) ∈ join_set (b_sched b) -> b_tasks b !! task_id t = Some (TCall c k) ->
    task_answer c (b_sched b) (b_journal b) a st j ->
    batch_step b {| b_sched := st; b_tasks := <[task_id t := k a]> (b_tasks b); b_journal := j |}
| batch_finish b t o st : b_tasks b !! task_id t = Some (TRet (Some o)) ->
    sched_step max_jobs (FinishTask t o) (b_sched b) st ->
    batch_step b {| b_sched := st; b_tasks := delete (task_id t) (b_tasks b); b_journal := b_journal b |}
| batch_panic b t st : sched_step max_jobs (PanicTask t) (b_sched b) st ->
    batch_step b {| b_sched := st; b_tasks := delete (task_id t) (b_tasks b); b_journal := b_journal b |}.

Inductive batch_steps (b0 : batch) : batch -> Prop :=
| batch_refl : batch_steps b0 b0
| batch_snoc b b' : batch_steps b0 b -> batch_step b b' -> batch_steps b0 b'.

Definition batch_initial (tasks : list dtask) (j : J) : batch :=
  {| b_sched := initial tasks; b_tasks := ∅; b_journal := j |}.

(** * Invariant *)

(** What a task is owed and owes: before it starts, while it runs, afterwards.
    A dataset skipped because the run was cancelled before it started leaves no
    record. *)
Definition finished_ok (t : dtask) (res : option DatasetExecutionOutcome) (v : tview) : Prop :=
  (res = Some (skipped_outcome (task_id t) (snd t)) /\ snd v = true)
  \/ exists n, task_ok (fst t) n (budget cfg) res v.

Definition entry_ok (b : batch) (e : dtask * task_status (R := DatasetExecutionOutcome)) : Prop :=
  let r := records (b_journal b) !! task_id (fst e) in
  match snd e with
  | NotStarted => (0 <= attempts_of r < u32_max)%Z
  | Started => exists p seen, b_tasks b !! task_id (fst e) = Some p
      /\ (seen = true -> sched_cancelled (b_sched b) = true) /\ wp (task_id (fst e)) p (finished_ok (fst e)) (r, seen)
  | Finished (Some o) => exists seen, (seen = true -> sched_cancelled (b_sched b) = true)
      /\ finished_ok (fst e) (Some o) (r, seen)
  | Finished None => True
  end.

Record batch_inv (j0 : J) (ids : list string) (b : batch) : Prop := {
  bi_wf : journal_wf (b_journal b);
  bi_ids : map (fun e => task_id (fst e)) (entries (b_sched b)) ≡ₚ ids;
  bi_entries : Forall (entry_ok b) (entries (b_sched b));
  bi_others : forall id, id ∉ ids -> records (b_journal b) !! id = records j0 !! id;
}.

(** An entry is unaffected by what happens to other datasets. *)
Lemma entry_ok_frame b b' e :
  b_tasks b' !! task_id (fst e) = b_tasks b !! task_id (fst e) ->
  records (b_journal b') !! task_id (fst e) = records (b_journal b) !! task_id (fst e) ->
  (sched_cancelled (b_sched b) = true -> sched_cancelled (b_sched b') = true) ->
  entry_ok b e -> entry_ok b' e.
Proof.
  intros Ht Hr Hc. unfold entry_ok. rewrite Ht, Hr. destruct (snd e) as [| |[o|]]; [done| | |done].
  - intros (p & seen & ? & ? & ?). exists p, seen. auto.
  - intros (seen & ? & ?). exists seen. auto.
Qed.

Lemma sched_step_cancelled l (st st' : batch_sched) : sched_step max_jobs l st st' ->
  sched_cancelled st = true -> sched_cancelled st' = true.
Proof. by destruct 1. Qed.

Lemma dataset_task_wp t v : (0 <= attempts_of (fst v) < u32_max)%Z -> (0 <= max_retries cfg)%Z ->
  wp (task_id t) (dataset_task (enough_fuel cfg) run cfg t) (finished_ok t) v.
Proof.
  intros Hv Hm. unfold dataset_task. wp_call c. destruct c.
  - left. split; [done|]. simpl. by rewrite orb_true_r.
  - eapply task_wp_mono; [|apply execute_dataset_wp; done]. intros res r' (n & _ & Hok). right. by exists n.
Qed.

(** One entry changes its status, and only its dataset is touched. *)
Lemma change_inv j0 ids b b' t s s' :
  batch_inv j0 ids b -> entry_changes (b_sched b) (b_sched b') t s s' ->
  (sched_cancelled (b_sched b) = true -> sched_cancelled (b_sched b') = true) ->
  journal_wf (b_journal b') ->
  (forall id, id <> task_id t -> b_tasks b' !! id = b_tasks b !! id
     /\ records (b_journal b') !! id = records (b_journal b) !! id) ->
  NoDup ids -> (entry_ok b (t, s) -> entry_ok b' (t, s')) -> batch_inv j0 ids b'.
Proof.
  intros [Hwf Hids Hall Hoth] (rest & He & He') Hc Hwf' Hframe Hnd Hstep.
  assert (map (fun e => task_id (fst e)) ((t, s) :: rest) ≡ₚ ids) as Hids' by (rewrite <- Hids; by rewrite He).
  assert (task_id t ∉ map (fun e : dtask * _ => task_id (fst e)) rest) as Hni.
  { rewrite <- Hids' in Hnd. simpl in Hnd. by apply NoDup_cons in Hnd as [? _]. }
  rewrite He in Hall. apply Forall_cons in Hall as [Ht Hrest].
  split; [done| | |].
  - rewrite He'. exact Hids'.
  - rewrite He'. constructor; [by apply Hstep|]. rewrite Forall_forall in Hrest |- *. intros e Hin.
    assert (task_id (fst e) <> task_id t) as Hne.
    { intros E. apply Hni. rewrite <- E. apply list_elem_of_fmap. eauto. }
    destruct (Hframe _ Hne) as [? ?]. apply (entry_ok_frame b); auto.
  - intros id Hid. rewrite <- Hoth by done. apply Hframe. intros ->. apply Hid. rewrite <- Hids'. simpl. left.
Qed.

Lemma started_split (b : batch) t : (t, Started) ∈ join_set (b_sched b) ->
  entry_changes (b_sched b) (b_sched b) t Started Started.
Proof.
  intros (l1 & l2 & Hj)%list_elem_of_split. eexists. split; by eapply entries_at.
Qed.

Lemma entries_with_cancel (st : batch_sched) : entries (with_cancel st) = entries st.
Proof. done. Qed.

(** The running task's call and the effect it has on its view. *)
Lemma call_inv j0 ids b t c k a st j : NoDup ids -> batch_inv j0 ids b ->
  (t, Started) ∈ join_set (b_sched b) -> b_tasks b !! task_id t = Some (TCall c k) ->
  task_answer c (b_sched b) (b_journal b) a st j ->
  batch_inv j0 ids {| b_sched := st; b_tasks := <[task_id t := k a]> (b_tasks b); b_journal := j |}.
Proof.
  intros Hnd Hinv Hin Hk Ha. pose proof (started_split b t Hin) as (rest & He & _).
  pose proof (bi_entries _ _ _ Hinv) as Hall. rewrite He in Hall. apply Forall_cons in Hall as [Ht _].
  destruct Ht as (p & seen & Hp & Hseen & Hwp). simpl in Hp, Hwp. rewrite Hk in Hp. injection Hp as <-.
  destruct Hwp as [Hok Hnext].
  assert (entries st = entries (b_sched b)) as Hst
    by (destruct c; simpl in Ha; destruct_and?; subst; done).
  assert (sched_cancelled (b_sched b) = true -> sched_cancelled st = true) as Hcan
    by (destruct c; simpl in Ha; destruct_and?; subst; done).
  assert (exists seen', answers c (records (b_journal b) !! task_id t, seen) a (records j !! task_id t, seen')
    /\ (seen' = true -> sched_cancelled st = true) /\ journal_wf j
    /\ forall id, id <> task_id t -> records j !! id = records (b_journal b) !! id) as (seen' & Hans & Hs' & Hwf & Hoth).
  { pose proof (bi_wf _ _ _ Hinv) as Hwf.
    destruct c; simpl in Ha, Hok; try (destruct_and?; subst; exists seen; by auto).
    - destruct Ha as (-> & -> & ->). exists (seen || sched_cancelled (b_sched b)). split; [done|].
      split; [|done]. destruct seen; [by auto|done].
    - destruct Ha as (-> & -> & ->). exists seen. split; [|done]. split; [done|]. intros o Ho. subst. by eapply dataset_law.
    - destruct Ha as [Hu ->]. destruct Hok as [Hid Hrec].
      destruct (upsert_ok r (b_journal b) Hwf) as [j' Hu']. rewrite Hu' in Hu. injection Hu as <- <-.
      destruct (upsert_law r _ _ j' Hwf Hrec Hu') as [Hwf' ->]. exists seen. rewrite <- Hid.
      split; [simpl; by rewrite lookup_insert_eq|]. split; [done|]. split; [done|].
      intros id Hne. by rewrite lookup_insert_ne. }
  eapply (change_inv j0 ids b _ t Started Started); [done| |done|done| |done|].
  - exists rest. simpl. by rewrite Hst.
  - intros id Hne. simpl. split; [by rewrite lookup_insert_ne|by apply Hoth].
  - intros _. exists (k a), seen'. simpl. rewrite lookup_insert_eq. split; [done|]. split; [done|].
    by apply (Hnext a (records j !! task_id t, seen')).
Qed.

Lemma batch_step_inv j0 ids b b' : NoDup ids -> (0 <= max_retries cfg)%Z ->
  batch_inv j0 ids b -> batch_step b b' -> batch_inv j0 ids b'.
Proof.
  intros Hnd Hm Hinv Hstep. destruct Hstep as [b l st Hl Hs|b t st Hs|b t c k a st j Hin Hk Ha|b t o st Hk Hs|b t st Hs].
  - pose proof (sched_step_cancelled _ _ _ Hs) as Hc. pose proof (sched_step_entries _ _ _ _ Hs) as He.
    assert (entries st ≡ₚ entries (b_sched b)) as Hp by (destruct Hl as [->| ->]; exact He).
    destruct Hinv as [Hwf Hids Hall Hoth]. split; simpl; [done|by rewrite Hp| |done]. rewrite Hp.
    eapply Forall_impl; [exact Hall|]. intros e. apply entry_ok_frame; done.
  - eapply (change_inv j0 ids b _ t); [done|exact (sched_step_entries _ _ _ _ Hs)|by eapply sched_step_cancelled|apply Hinv| |done|].
    + intros id Hne. simpl. by rewrite lookup_insert_ne.
    + intros Hpre. exists (dataset_task (enough_fuel cfg) run cfg t), false. split; [by apply lookup_insert_eq|].
      split; [done|]. by apply dataset_task_wp.
  - by eapply call_inv.
  - eapply (change_inv j0 ids b _ t); [done|exact (sched_step_entries _ _ _ _ Hs)|by eapply sched_step_cancelled|apply Hinv| |done|].
    + intros id Hne. simpl. by rewrite lookup_delete_ne.
    + intros (p & seen & Hp & Hseen & Hwp). simpl in Hp, Hwp. rewrite Hk in Hp. injection Hp as <-.
      exists seen. simpl. split; [|done]. intros Hs'. by eapply sched_step_cancelled; [exact Hs|auto].
  - eapply (change_inv j0 ids b _ t); [done|exact (sched_step_entries _ _ _ _ Hs)|by eapply sched_step_cancelled|apply Hinv| |done|done].
    intros id Hne. simpl. by rewrite lookup_delete_ne.
Qed.

Lemma batch_reachable tasks j b : NoDup (map task_id tasks) -> (0 <= max_retries cfg)%Z -> journal_wf j ->
  (forall t, t ∈ tasks -> (0 <= attempts_of (records j !! task_id t) < u32_max)%Z) ->
  batch_steps (batch_initial tasks j) b -> batch_inv j (map task_id tasks) b.
Proof.
  intros Hnd Hm Hwf Hatt Hs. induction Hs as [|b b' _ IH Hstep]; [|by eapply batch_step_inv].
  assert (entries (initial tasks : batch_sched) = map (fun t => (t, NotStarted)) tasks) as He by (unfold entries; simpl; by rewrite app_nil_r).
  split; simpl; [done| | |done]; rewrite He.
  - by rewrite map_map.
  - apply Forall_forall. intros e (t & -> & Ht)%list_elem_of_fmap. by apply Hatt.
Qed.

(** The scheduler of a batch run takes scheduler steps only. *)
Lemma batch_sched_steps tasks j b : batch_steps (batch_initial tasks j) b ->
  sched_steps max_jobs (initial tasks) (b_sched b).
Proof.
  induction 1 as [|b b' _ IH Hstep]; [apply steps_refl|].
  destruct Hstep as [b l st Hl Hs|b t st Hs|b t c k a st j' Hin Hk Ha|b t o st Hk Hs|b t st Hs];
    try (by eapply steps_snoc).
  assert (st = b_sched b \/ st = with_cancel (b_sched b)) as [-> | ->]
    by (destruct c; simpl in Ha; destruct_and?; subst; auto); [done|].
  destruct (sched_cancelled (b_sched b)) eqn:Hc; simpl; [|by eapply steps_snoc; [|by apply step_cancel]].
  destruct (b_sched b). simpl in Hc. subst. done.
Qed.

Lemma joined_is_task tasks j b t r : 1 <= max_jobs -> batch_steps (batch_initial tasks j) b ->
  (t, r) ∈ joined (b_sched b) -> t ∈ tasks.
Proof.
  intros Hmax Hs Hin. rewrite <- (inv_tasks _ _ _ (reachable_inv max_jobs tasks _ Hmax (batch_sched_steps _ _ _ Hs))).
  apply elem_of_app. left. apply list_elem_of_fmap. by exists (t, r).
Qed.

(** What the journal says about a joined outcome. *)
Definition recorded (b : batch) (t : dtask) (o : DatasetExecutionOutcome) : Prop :=
  agrees o (records (b_journal b) !! task_id t)
  /\ (is_terminal (out_state o) = true
      \/ out_state o = FailedRecoverable /\ (max_retries cfg + 1 <= out_attempts o)%Z)
  /\ (out_state o = Cancelled -> sched_cancelled (b_sched b) = true).

Lemma joined_recorded tasks j b t o :
  NoDup (map task_id tasks) -> (0 <= max_retries cfg < u32_max)%Z -> journal_wf j ->
  (forall t, t ∈ tasks -> (0 <= attempts_of (records j !! task_id t) < u32_max)%Z) ->
  batch_steps (batch_initial tasks j) b -> (t, Some o) ∈ joined (b_sched b) ->
  out_dataset_id o = task_id t
  /\ (recorded b t o \/ o = skipped_outcome (task_id t) (snd t) /\ sched_cancelled (b_sched b) = true).
Proof.
  intros Hnd Hm Hwf Hatt Hs Hin. assert (0 <= max_retries cfg)%Z as Hm0 by lia.
  pose proof (bi_entries _ _ _ (batch_reachable tasks j b Hnd Hm0 Hwf Hatt Hs)) as Hall.
  assert ((t, Finished (Some o)) ∈ entries (b_sched b)) as He.
  { unfold entries. rewrite !elem_of_app. right. right. apply list_elem_of_fmap. by exists (t, Some o). }
  rewrite Forall_forall in Hall. destruct (Hall _ He) as (seen & Hseen & Hfin). simpl in Hfin.
  destruct Hfin as [[[= ->] Hs'] | (n & o' & [= <-] & Hid & Hag & _ & Hfr & Ht & Hcan)].
  - split; [by destruct (snd t)|]. right. auto.
  - split; [done|]. left. split; [done|]. split; [|auto]. destruct Ht as [?|Hf]; [by left|right]. split; [done|].
    specialize (Hfr Hf). unfold budget, saturating_add in Hfr. lia.
Qed.

(** C3: With a journal that accepts every write: whatever the interleaving of the
    tasks, the scheduling loop, cancellation, task failures and panics, every outcome a run reports is that of one of its
    datasets, and either the journal holds a record with the same state, attempts
    and error, and the state is terminal or a recoverable failure with the retry
    budget spent, or the dataset was skipped by a cancellation; no other
    dataset's record changes.  (A refused write is only logged: the task reports its
    outcome all the same.) *)
Theorem batch_outcomes_recorded tasks j b o :
  1 <= max_jobs -> NoDup (map task_id tasks) -> (0 <= max_retries cfg < u32_max)%Z -> journal_wf j ->
  (forall t, t ∈ tasks -> (0 <= attempts_of (records j !! task_id t) < u32_max)%Z) ->
  batch_steps (batch_initial tasks j) b -> o ∈ results (b_sched b) ->
  (exists t, t ∈ tasks /\ out_dataset_id o = task_id t /\
     (recorded b t o \/ o = skipped_outcome (task_id t) (snd t) /\ sched_cancelled (b_sched b) = true))
  /\ forall id, id ∉ map task_id tasks -> records (b_journal b) !! id = records j !! id.
Proof.
  intros Hmax Hnd Hm Hwf Hatt Hs Ho. assert (0 <= max_retries cfg)%Z as Hm0 by lia.
  split; [|apply (batch_reachable tasks j b Hnd Hm0 Hwf Hatt Hs)].
  apply list_elem_of_omap in Ho as ([t ro] & Hin & Hro). simpl in Hro. subst ro.
  exists t. split; [by eapply joined_is_task|by eapply joined_recorded].
Qed.

(** C4: With a journal that accepts every write, a run that returns without having been
    cancelled has dealt with every dataset it scheduled: its task panicked, or its outcome is reported and the
    journal holds that outcome, not [Cancelled]. *)
Theorem batch_run_complete tasks j b t :
  1 <= max_jobs -> NoDup (map task_id tasks) -> (0 <= max_retries cfg < u32_max)%Z -> journal_wf j ->
  (forall t, t ∈ tasks -> (0 <= attempts_of (records j !! task_id t) < u32_max)%Z) ->
  batch_steps (batch_initial tasks j) b -> phase (b_sched b) = Returned -> sched_cancelled (b_sched b) = false ->
  t ∈ tasks ->
  (t, None) ∈ joined (b_sched b)
  \/ exists o, o ∈ results (b_sched b) /\ out_dataset_id o = task_id t /\ recorded b t o /\ out_state o <> Cancelled.
Proof.
  intros Hmax Hnd Hm Hwf Hatt Hs Hph Hc Ht.
  destruct (reachable_inv max_jobs tasks _ Hmax (batch_sched_steps _ _ _ Hs)) as [_ _ _ Hperm Hd _ Hj].
  rewrite (Hj Hph) in Hperm. destruct Hd as [?|Hp]; [by right|congruence|]. rewrite Hp, app_nil_r in Hperm. simpl in Hperm.
  rewrite <- Hperm in Ht. apply list_elem_of_fmap in Ht as ([t' [o|]] & -> & Hin); [right|by left].
  destruct (joined_recorded tasks j b t' o Hnd Hm Hwf Hatt Hs Hin) as [Hid [Hrec|[_ ?]]]; [|congruence].
  exists o. split; [apply list_elem_of_omap; by exists (t', Some o)|]. split; [done|]. split; [done|].
  intros Hst. destruct Hrec as (_ & _ & Hcan). rewrite Hcan in Hc by done. done.
Qed.

(** * A task that runs alone

    Running a task in one go ([run_task]) is one of the interleavings, for a
    world that keeps the scheduler's cancel flag. *)

Definition flag {W} `{DatasetWorld W} (w : W) : bool := fst (is_cancelled w).

Lemma run_task_flag {W A} `{DatasetWorld W} (p : task A) (w : W) j a w' j' :
  (forall c (s : W * J), flag (fst (snd (exec_dcall c s)))
     = match c with CCancel => true | _ => flag (fst s) end) ->
  flag w = true -> run_task p (w, j) = (a, (w', j')) -> flag w' = true.
Proof.
  intros Hflag. revert w j. induction p as [x|c k IH]; intros w j Hw Hrun; simpl in Hrun; [by injection Hrun as <- <- <-|].
  destruct (exec_dcall c (w, j)) as [x [w1 j1]] eqn:Hx. eapply IH; [|exact Hrun].
  pose proof (Hflag c (w, j)) as Hf. rewrite Hx in Hf. simpl in Hf. rewrite Hf. by destruct c.
Qed.

Lemma run_task_steps {W} `{DatasetWorld W} b0 b t p w a w' j' :
  (forall c (s : W * J), flag (fst (snd (exec_dcall c s)))
     = match c with CCancel => true | _ => flag (fst s) end) ->
  batch_steps b0 b -> (t, Started) ∈ join_set (b_sched b) -> b_tasks b !! task_id t = Some p ->
  flag w = sched_cancelled (b_sched b) -> run_task p (w, b_journal b) = (a, (w', j')) ->
  flag w' = sched_cancelled (b_sched b) ->
  batch_steps b0 {| b_sched := b_sched b; b_tasks := <[task_id t := TRet a]> (b_tasks b); b_journal := j' |}.
Proof.
  intros Hflag. revert b w. induction p as [x|c k IH]; intros b w Hs Hin Hp Hw Hrun Hw'; simpl in Hrun.
  { injection Hrun as <- <- <-. by rewrite insert_id by done; destruct b. }
  destruct (exec_dcall c (w, b_journal b)) as [x [w1 j1]] eqn:Hx.
  pose proof (Hflag c (w, b_journal b)) as Hf. rewrite Hx in Hf. simpl in Hf.
  set (b1 := {| b_sched := b_sched b; b_tasks := <[task_id t := k x]> (b_tasks b); b_journal := j1 |}).
  assert (task_answer c (b_sched b) (b_journal b) x (b_sched b) j1) as Ha.
  { destruct c; simpl in Hx; try (by injection Hx as <- <- <-).
    - injection Hx as _ _ <-. simpl. split; [|done].
      pose proof (run_task_flag _ _ _ _ _ _ Hflag Hf Hrun) as Ht. rewrite Hw' in Ht. by destruct (b_sched b); simpl in Ht; subst.
    - destruct (upsert_dataset r (b_journal b)) as [res j2] eqn:Hu. by injection Hx as <- _ <-. }
  specialize (IH x b1 w1). simpl in IH. rewrite insert_insert_eq in IH. apply IH; try done.
  - by eapply batch_snoc; [|eapply batch_call].
  - by rewrite lookup_insert_eq.
  - rewrite Hf, <- Hw. destruct c; try done. rewrite Hw, <- Hw'. symmetry. by apply (run_task_flag _ _ _ _ _ _ Hflag Hf Hrun).
Qed.
End Steps.
End BatchRun.
