(* ===== verification/Run.v ===== *)
(** Batch runs: recovery of an interrupted journal, completion, status, report
    and exit code (run.rs and report.rs of
    src/crates/parqonaut-orchestrator/src). *)

From stdpp Require Import gmap.
From S2P Require Import Prelude Location Errors Overlap BTree Schema.
From S2P Require Import RepairPlan Deps Inventory Verify Journal Batch Executor.

(** * Options *)

(** The cancel flag is part of the world the tasks share. *)
Record BatchRunOptions := {
  opt_dry_run : bool;
  opt_jobs : option Z;
  opt_interrupt_after_completed : option nat;
}.

Definition options_validate (o : BatchRunOptions) : Result OrchestratorError unit :=
  if decide (opt_jobs o = Some 0%Z) then Err (InvalidConfig "jobs must be >= 1 when specified") else Ok tt.

(** * Reports (report.rs) *)

Record StateCounts := {
  n_pending : Z; n_running : Z; n_succeeded : Z; n_failed_recoverable : Z; n_failed_permanent : Z;
  n_blocked : Z; n_cancelled : Z; n_stale_source : Z; n_verification_failed : Z; n_other : Z;
}.

Definition counts_default : StateCounts := {|
  n_pending := 0; n_running := 0; n_succeeded := 0; n_failed_recoverable := 0; n_failed_permanent := 0;
  n_blocked := 0; n_cancelled := 0; n_stale_source := 0; n_verification_failed := 0; n_other := 0 |}.

(** [u32] counters: [+= 1] per record. *)
Definition bump (s : DatasetState) (c : StateCounts) : StateCounts :=
  let n b := if b : bool then 1%Z else 0%Z in {|
  n_pending := n_pending c + n match s with Pending | PlanningValidated => true | _ => false end;
  n_running := n_running c + n match s with Running | RepairComplete | Verifying => true | _ => false end;
  n_succeeded := n_succeeded c + n match s with Succeeded => true | _ => false end;
  n_failed_recoverable := n_failed_recoverable c + n match s with FailedRecoverable => true | _ => false end;
  n_failed_permanent := n_failed_permanent c + n match s with FailedPermanent => true | _ => false end;
  n_blocked := n_blocked c + n match s with Errors.Blocked => true | _ => false end;
  n_cancelled := n_cancelled c + n match s with Cancelled => true | _ => false end;
  n_stale_source := n_stale_source c + n match s with StaleSource => true | _ => false end;
  n_verification_failed := n_verification_failed c + n match s with Errors.VerificationFailed => true | _ => false end;
  n_other := n_other c |}.

Definition count_states (records : list DatasetRunRecord) : StateCounts :=
  foldl (fun c r => bump (rec_state r) c) counts_default records.

(** One dataset's result of the output verification (verify.rs). *)
Record DatasetVerifyResult := {
  vr_dataset_id : string;
  vr_outcome : Verify.VerificationOutcome;
  vr_message : string;
}.

Record DatasetReportEntry := {
  re_dataset_id : string;
  re_output_path : string;
  re_state : DatasetState;
  re_attempts : Z;
  re_repair_plan_id : string;
  re_policy_fingerprint : string;
  re_source_fingerprint : option string;
  re_error_class : option FailureClass;
  re_error_message : option string;
  re_manifest_path : option string;
  re_verification : option DatasetVerifyResult;
}.

Record BatchVerificationSummary := {
  vs_ok : bool; vs_passed : Z; vs_failed : Z; vs_skipped : Z;
}.

Definition BATCH_REPORT_SCHEMA_VERSION : Z := 1.

Record BatchAggregateReport := {
  ar_schema_version : Z;
  ar_run_id : string;
  ar_batch_plan_id : string;
  ar_config_fingerprint : string;
  ar_plan_digest : string;
  ar_output_root : string;
  ar_parqonaut_version : string;
  ar_executor_version : string;
  ar_max_concurrency : Z;
  ar_started_at : Z;
  ar_completed_at : option Z;
  ar_cancelled_at : option Z;
  ar_dataset_count : nat;
  ar_state_counts : StateCounts;
  ar_datasets : list DatasetReportEntry;
  ar_verification : option BatchVerificationSummary;
}.

Definition report_entry (verify_by_dataset : gmap string DatasetVerifyResult) (r : DatasetRunRecord) : DatasetReportEntry := {|
  re_dataset_id := rec_dataset_id r; re_output_path := rec_output_path r; re_state := rec_state r;
  re_attempts := rec_attempts r; re_repair_plan_id := rec_repair_plan_id r;
  re_policy_fingerprint := rec_policy_fingerprint r; re_source_fingerprint := rec_source_fingerprint r;
  re_error_class := rec_error_class r; re_error_message := rec_error_message r;
  re_manifest_path := if decide (rec_state r = Succeeded)
                      then Some (trim_end_slash (rec_output_path r) +:+ "/.parqonaut-manifest.json") else None;
  re_verification := verify_by_dataset !! rec_dataset_id r |}.

Definition build_aggregate_report (plan : BatchPlan) (i : RunIdentity) (records : list DatasetRunRecord)
    (verification : option BatchVerificationSummary) (verify_by_dataset : gmap string DatasetVerifyResult)
    : BatchAggregateReport := {|
  ar_schema_version := BATCH_REPORT_SCHEMA_VERSION;
  ar_run_id := run_id i; ar_batch_plan_id := batch_plan_id i; ar_config_fingerprint := config_fingerprint i;
  ar_plan_digest := plan_digest i; ar_output_root := output_root i;
  ar_parqonaut_version := bp_parqonaut_version plan; ar_executor_version := bp_parqonaut_version plan;
  ar_max_concurrency := bp_max_concurrency plan; ar_started_at := id_started_at i;
  ar_completed_at := id_completed_at i; ar_cancelled_at := id_cancelled_at i;
  ar_dataset_count := length (bp_datasets plan); ar_state_counts := count_states records;
  ar_datasets := map (report_entry verify_by_dataset) records; ar_verification := verification |}.

Definition exit_code (r : BatchAggregateReport) : Z :=
  match ar_cancelled_at r with
  | Some _ => 130
  | None =>
      if (n_succeeded (ar_state_counts r) =? as_u32 (Z.of_nat (ar_dataset_count r)))%Z then 0
      else if (0 <? n_succeeded (ar_state_counts r))%Z then 2 else 1
  end%Z.

(** * Runs (run.rs) *)

Definition run_is_complete (plan : BatchPlan) (records : list DatasetRunRecord) : bool :=
  forallb (fun ds => match find_record (ds_dataset_id ds) records with
                     | Some r => is_terminal (rec_state r)
                     | None => false
                     end) (bp_datasets plan).

(** [read_status]'s verdict on resuming. *)
Definition status_resumable (plan : BatchPlan) (i : RunIdentity) (records : list DatasetRunRecord) : bool :=
  negb (run_is_complete plan records)
  && (bool_decide (is_Some (id_cancelled_at i)) || (length records <? length (bp_datasets plan))
      || existsb (fun d => is_runnable (rec_state d) || bool_decide (rec_state d = FailedRecoverable)
                           || bool_decide (rec_state d = Cancelled)) records).

Section Run.
Context {J : Type} `{RunJournal J}.

Definition recovered (now : Z) (r : DatasetRunRecord) : DatasetRunRecord := {|
  rec_dataset_id := rec_dataset_id r; rec_output_path := rec_output_path r;
  rec_repair_plan_id := rec_repair_plan_id r; rec_policy_fingerprint := rec_policy_fingerprint r;
  rec_state := recover_after_crash (rec_state r); rec_attempts := rec_attempts r;
  rec_source_fingerprint := rec_source_fingerprint r; rec_output_fingerprint := rec_output_fingerprint r;
  rec_error_class := Some Recoverable;
  rec_error_message := Some ("recovered after interruption from " +:+ state_debug (rec_state r));
  rec_started_at := rec_started_at r; rec_updated_at := now; rec_completed_at := rec_completed_at r |}.

Fixpoint recover_records (now : Z) (l : list DatasetRunRecord) (j : J) : Result OrchestratorError unit * J :=
  match l with
  | [] => (Ok tt, j)
  | r :: l =>
      if decide (recover_after_crash (rec_state r) = rec_state r) then recover_records now l j
      else match upsert_dataset (recovered now r) j with
           | (Err e, j) => (Err e, j)
           | (Ok _, j) => recover_records now l j
           end
  end.

Definition recover_journal_states (now : Z) (j : J) : Result OrchestratorError unit * J :=
  match list_datasets j with
  | Err e => (Err e, j)
  | Ok l => recover_records now l j
  end.
End Run.

(** * Resuming covers the plan *)

Section ResumeProofs.
Context {J : Type} `{JournalLaws J}.

Lemma recover_records_spec now l j res j' : journal_wf j ->
  Forall (fun r => record_ok r /\ records j !! rec_dataset_id r = Some r) l -> NoDup (map rec_dataset_id l) ->
  recover_records now l j = (res, j') -> res = Ok tt ->
  journal_wf j'
  /\ (forall r, r ∈ l -> exists r', records j' !! rec_dataset_id r = Some r' /\ rec_state r' = recover_after_crash (rec_state r))
  /\ (forall id, id ∉ map rec_dataset_id l -> records j' !! id = records j !! id).
Proof.
  revert j. induction l as [|r l IH]; intros j Hwf Hall Hnd; simpl.
  { intros [= <- <-] _. split; [done|]. split; [set_solver|done]. }
  apply Forall_cons in Hall as [[Hok Hr] Hall]. simpl in Hnd. apply NoDup_cons in Hnd as [Hni Hnd].
  destruct (decide (recover_after_crash (rec_state r) = rec_state r)) as [He|Hne].
  - intros Hrun Hres. destruct (IH j Hwf Hall Hnd Hrun Hres) as (Hwf' & Hin & Hout). split; [done|]. split.
    + intros r0 [->|Hr0]%elem_of_cons; [|by apply Hin]. exists r. rewrite Hout, Hr, He by done. done.
    + intros id Hid. apply Hout. set_solver.
  - destruct (upsert_dataset (recovered now r) j) as [[[]|e] j1] eqn:Hu; [|by intros [= <- <-]].
    pose proof (upsert_law (recovered now r) _ _ _ Hwf Hok Hu) as [Hwf1 Hrec]. simpl in Hrec. intros Hrun Hres.
    destruct (IH j1 Hwf1) as (Hwf' & Hin & Hout); [|done|done|done|].
    { apply Forall_forall. intros x Hx. rewrite Forall_forall in Hall. destruct (Hall x Hx) as [? Hxr].
      split; [done|]. rewrite Hrec, lookup_insert_ne; [done|]. intros E. apply Hni. rewrite E.
      apply list_elem_of_fmap. eauto. }
    split; [done|]. split.
    + intros r0 [->|Hr0]%elem_of_cons; [|by apply Hin]. exists (recovered now r).
      by rewrite Hout, Hrec, lookup_insert_eq by done.
    + intros id Hid. rewrite not_elem_of_cons in Hid. rewrite Hout, Hrec, lookup_insert_ne; naive_solver.
Qed.

Lemma find_record_law j l id : journal_wf j -> list_datasets j = Ok l -> find_record id l = records j !! id.
Proof.
  intros Hwf Hl. destruct (list_law j l Hwf Hl) as [Hnd Hel]. unfold find_record.
  destruct (list_find _ l) as [[i r]|] eqn:Hf; simpl.
  - apply list_find_Some in Hf as (Hi & <- & _). symmetry. apply Hel. by eapply list_elem_of_lookup_2.
  - apply list_find_None in Hf. rewrite Forall_forall in Hf.
    destruct (records j !! id) as [r|] eqn:Hr; [|done]. exfalso.
    destruct (record_law id j r Hwf Hr) as [Hid _].
    apply (Hf r); [|done]. apply Hel. by rewrite Hid.
Qed.

Lemma recover_journal_spec now j j' : journal_wf j -> recover_journal_states now j = (Ok tt, j') ->
  journal_wf j' /\ forall id, (rec_state <$> records j' !! id) = (recover_after_crash ∘ rec_state) <$> records j !! id.
Proof.
  intros Hwf. unfold recover_journal_states. destruct (list_datasets j) as [l|e] eqn:Hl; [|done]. intros Hrun.
  destruct (list_law j l Hwf Hl) as [Hnd Hel].
  assert (Forall (fun r => record_ok r /\ records j !! rec_dataset_id r = Some r) l) as Hall.
  { apply Forall_forall. intros r Hr. apply Hel in Hr. split; [|done]. by apply (record_law _ j r Hwf Hr). }
  destruct (recover_records_spec now l j (Ok tt) j' Hwf Hall Hnd Hrun eq_refl) as (Hwf' & Hin & Hout).
  split; [done|]. intros id. destruct (records j !! id) as [r|] eqn:Hr; simpl.
  - destruct (record_law id j r Hwf Hr) as [Hid _]. destruct (Hin r) as (r' & Hr' & Hs); [apply Hel; by rewrite Hid|].
    rewrite Hid in Hr'. by rewrite Hr', <- Hs.
  - rewrite Hout; [by rewrite Hr|]. intros (r & -> & Hin')%list_elem_of_fmap. apply Hel in Hin'. congruence.
Qed.

(** After an interrupted run is recovered, resuming forgets no dataset: each one
    is scheduled again or its record is final, never both. *)
Theorem resume_covers_plan now j j' l plan ds :
  journal_wf j -> recover_journal_states now j = (Ok tt, j') -> list_datasets j' = Ok l ->
  ds ∈ bp_datasets plan ->
  ds ∈ select_tasks Resume l plan <->
    ~ exists r, records j' !! ds_dataset_id ds = Some r /\ is_terminal (rec_state r) = true.
Proof.
  intros Hwf Hrun Hl Hds. destruct (recover_journal_spec now j j' Hwf Hrun) as [Hwf' Hst].
  unfold select_tasks. rewrite list_elem_of_filter. unfold scheduled. rewrite (find_record_law j' l) by done.
  specialize (Hst (ds_dataset_id ds)). destruct (records j' !! ds_dataset_id ds) as [r|] eqn:Hr.
  - assert (exists s, rec_state r = recover_after_crash s) as [s Hs].
    { simpl in Hst. destruct (records j !! ds_dataset_id ds) as [r0|]; [|done]. simpl in Hst. injection Hst as ->. eauto. }
    rewrite Hs. split.
    + intros [Hsch _] (r' & [= <-] & Ht). rewrite Hs in Ht. by destruct s.
    + intros Hn. split; [|done]. destruct (is_terminal (recover_after_crash s)) eqn:Ht; [|by destruct s].
      destruct Hn. exists r. by rewrite Hs.
  - split; [|done]. intros _ (? & ? & _). done.
Qed.
End ResumeProofs.

(** * Exit codes *)

Lemma NoDup_fmap_filter (l : list DatasetRunRecord) P `{!forall r, Decision (P r)} :
  NoDup (map rec_dataset_id l) -> NoDup (map rec_dataset_id (filter P l)).
Proof.
  induction l as [|r l IH]; simpl; [done|]. intros [Hni Hnd]%NoDup_cons. rewrite filter_cons.
  destruct (decide (P r)); simpl; [|by apply IH]. apply NoDup_cons. split; [|by apply IH].
  intros (x & He & [_ Hx]%list_elem_of_filter)%list_elem_of_fmap. apply Hni. rewrite He. apply list_elem_of_fmap. eauto.
Qed.

Lemma count_succeeded l : n_succeeded (count_states l) = Z.of_nat (length (filter (fun r => rec_state r = Succeeded) l)).
Proof.
  unfold count_states. assert (forall c, n_succeeded (foldl (fun c r => bump (rec_state r) c) c l)
    = n_succeeded c + Z.of_nat (length (filter (fun r => rec_state r = Succeeded) l)))%Z as Hc; [|by rewrite Hc].
  induction l as [|r l IH]; intros c; simpl; [lia|]. rewrite IH, filter_cons. simpl.
  destruct (decide (rec_state r = Succeeded)) as [->|Hne]; simpl; [lia|]. destruct (rec_state r); simpl; lia || done.
Qed.

(** The records of a run are those of its plan, one per dataset at most. *)
Definition run_records (plan : BatchPlan) (l : list DatasetRunRecord) : Prop :=
  NoDup (map ds_dataset_id (bp_datasets plan)) /\ NoDup (map rec_dataset_id l)
  /\ (forall r, r ∈ l -> rec_dataset_id r ∈ map ds_dataset_id (bp_datasets plan))
  /\ (Z.of_nat (length (bp_datasets plan)) <= u32_max)%Z.

(** A run that was never cancelled exits with 0 exactly when every dataset of
    the plan has a [Succeeded] record. *)
Theorem exit_code_zero_iff plan i l v m : run_records plan l -> id_cancelled_at i = None ->
  exit_code (build_aggregate_report plan i l v m) = 0%Z <->
  forall ds, ds ∈ bp_datasets plan -> exists r, r ∈ l /\ rec_dataset_id r = ds_dataset_id ds /\ rec_state r = Succeeded.
Proof.
  intros (Hnp & Hnl & Hsub & Hb) Hc. unfold exit_code. simpl. rewrite Hc, count_succeeded.
  assert (as_u32 (Z.of_nat (length (bp_datasets plan))) = Z.of_nat (length (bp_datasets plan))) as ->
    by (unfold as_u32, u32_max in *; apply Z.mod_small; lia).
  set (ok := filter (fun r => rec_state r = Succeeded) l).
  assert (NoDup (map rec_dataset_id ok)) as Hno.
  { apply NoDup_fmap_filter. done. }
  assert (forall x, x ∈ map rec_dataset_id ok -> x ∈ map ds_dataset_id (bp_datasets plan)) as Hin.
  { intros x (r & -> & [_ Hr]%list_elem_of_filter)%list_elem_of_fmap. by apply Hsub. }
  assert (map rec_dataset_id ok ⊆+ map ds_dataset_id (bp_datasets plan)) as Hs by (by apply NoDup_submseteq).
  assert (length ok <= length (bp_datasets plan)) as Hle.
  { apply submseteq_length in Hs. by rewrite !length_map in Hs. }
  split.
  - intros He. assert (length ok = length (bp_datasets plan)) as Hlen.
    { destruct (Z.eqb_spec (Z.of_nat (length ok)) (Z.of_nat (length (bp_datasets plan)))); [lia|].
      exfalso. by destruct (0 <? _)%Z. }
    assert (map rec_dataset_id ok ≡ₚ map ds_dataset_id (bp_datasets plan)) as Hp.
    { apply submseteq_length_Permutation; [done|]. rewrite !length_map. lia. }
    intros ds Hds. assert (ds_dataset_id ds ∈ map rec_dataset_id ok) as Hid.
    { rewrite Hp. apply list_elem_of_fmap. eauto. }
    apply list_elem_of_fmap in Hid as (r & Heq & [Hst Hr]%list_elem_of_filter). exists r. done.
  - intros Hall. assert (length (bp_datasets plan) <= length ok) as Hge.
    { rewrite <- (length_map ds_dataset_id (bp_datasets plan)), <- (length_map rec_dataset_id ok).
      apply submseteq_length, NoDup_submseteq; [done|]. intros x (ds & -> & Hds)%list_elem_of_fmap.
      destruct (Hall ds Hds) as (r & Hr & Hid & Hst). apply list_elem_of_fmap. exists r. split; [done|].
      by apply list_elem_of_filter. }
    rewrite (proj2 (Z.eqb_eq _ _)); [done|lia].
Qed.

(** A cancellation is never forgotten: whatever happened since, a run that was
    cancelled once exits with 130, even if a later resume completed every
    dataset. *)
Lemma cancelled_exit plan i l v m t : id_cancelled_at i = Some t -> exit_code (build_aggregate_report plan i l v m) = 130%Z.
Proof. intros Hc. unfold exit_code. simpl. by rewrite Hc. Qed.

(** A dataset whose task was cancelled is final for the run: recovery keeps it
    [Cancelled], resuming does not schedule it, and a run whose other datasets
    are final counts as complete and is reported as not resumable. *)
Theorem cancelled_dataset_not_resumed r l plan i ds :
  find_record (ds_dataset_id ds) l = Some r -> rec_state r = Cancelled -> ds ∈ bp_datasets plan ->
  (forall ds', ds' ∈ bp_datasets plan -> exists r', find_record (ds_dataset_id ds') l = Some r' /\ is_terminal (rec_state r') = true) ->
  is_resumable (rec_state r) = true
  /\ recover_after_crash (rec_state r) = Cancelled /\ (ds ∉ select_tasks Resume l plan)
  /\ run_is_complete plan l = true /\ status_resumable plan i l = false.
Proof.
  intros Hf Hc Hds Hall. assert (run_is_complete plan l = true) as Hcomp.
  { apply forallb_forall. intros d Hd. apply list_elem_of_In in Hd. destruct (Hall d Hd) as (r' & -> & ?). done. }
  rewrite Hc. repeat split; [|done|by unfold status_resumable; rewrite Hcomp].
  unfold select_tasks. rewrite list_elem_of_filter. unfold scheduled. rewrite Hf, Hc. by intros [? _].
Qed.
