(* ===== verification/BatchExamples.v ===== *)
(** Concrete runs of the batch engine: a text codec for instants, a world whose
    repair engine fails once and then succeeds, a journal, and the theorems of
    Journal.v, ExecutorProofs.v, Scheduler.v and Run.v applied to them. *)

From stdpp Require Import gmap countable.
From Stdlib Require Import Ascii.
From S2P Require Import Prelude Location Errors Overlap BTree Schema.
From S2P Require Import RepairPlan Deps RepairExec Inventory Publication Rules Planning Verify.
From S2P Require Import Execute Journal Batch Executor ExecutorProofs Scheduler Run BatchRun.
From S2P Require Import ExecuteExamples.

(** * Instants as text *)

Fixpoint pos_text (p : positive) : string :=
  match p with
  | xH => EmptyString
  | xO p => String "0"%char (pos_text p)
  | xI p => String "1"%char (pos_text p)
  end.

Fixpoint text_pos (s : string) : option positive :=
  match s with
  | EmptyString => Some xH
  | String "0"%char s => xO <$> text_pos s
  | String "1"%char s => xI <$> text_pos s
  | String _ _ => None
  end.

Lemma text_pos_text p : text_pos (pos_text p) = Some p.
Proof. induction p as [p IH|p IH|]; simpl; by rewrite ?IH. Qed.

#[global] Program Instance binary_rfc3339 : Rfc3339 := {|
  to_rfc3339 t := pos_text (encode t);
  parse_from_rfc3339 s := text_pos s ≫= decode;
|}.
Next Obligation. intros t. simpl. rewrite text_pos_text. simpl. apply decode_encode. Qed.

Definition ex_identity : RunIdentity := {|
  run_id := "run-1"; batch_plan_id := "plan-1"; config_fingerprint := "cfg"; batch_name := "nightly";
  output_root := "/out"; identity_version := "0.1.0"; plan_digest := "d"; id_started_at := 10; id_updated_at := 10;
  id_completed_at := None; id_cancelled_at := None |}.

Definition ex_record (id : string) (st : DatasetState) : DatasetRunRecord := {|
  rec_dataset_id := id; rec_output_path := "/out/" +:+ id; rec_repair_plan_id := "rp"; rec_policy_fingerprint := "pf";
  rec_state := st; rec_attempts := 1; rec_source_fingerprint := None; rec_output_fingerprint := None;
  rec_error_class := None; rec_error_message := None; rec_started_at := Some 11%Z; rec_updated_at := 12;
  rec_completed_at := None |}.

Definition ex_journal : SqliteRunJournal := journal_open ex_identity.

Lemma ex_journal_wf : sqlite_wf ex_journal.
Proof. apply journal_open_wf. Qed.

Lemma ex_record_ok id st : record_ok (ex_record id st).
Proof. unfold record_ok, u32_max. simpl. lia. Qed.

Lemma journal_round_trip_witness : exists j',
  upsert_dataset (RunJournal := sqlite_journal 0) (ex_record "a" Running) ex_journal = (Ok tt, j')
  /\ dataset (RunJournal := sqlite_journal 0) "a" j' = Ok (Some (ex_record "a" Running)).
Proof.
  destruct (journal_round_trip 0 (ex_record "a" Running) ex_journal ex_journal_wf (ex_record_ok _ _)) as (j' & ? & _ & ? & _).
  by exists j'.
Defined.

(** * A world whose repair engine fails once *)

Record ex_world := { w_failures : nat; w_completed : nat; w_cancelled : bool; w_clock : Z }.

Definition ex_scan : ScanReport := Eval vm_compute in row_scan [] "/d" merged_fs.
Definition ex_report : ExecutionReport := Eval vm_compute in fst merged_run.

#[global] Instance ex_dataset_world : DatasetWorld ex_world := {|
  remote_output_committed _ _ w := (Ok false, w);
  remote_publication_state _ _ w := (Ok None, w);
  acquire_lock _ _ w := (Ok tt, w);
  release_lock _ w := w;
  scan_location _ w := (Ok ex_scan, w);
  fingerprint_scan _ _ w := (Ok (dataset_fingerprint merged_plan), w);
  execute_plan _ _ _ _ _ _ w :=
    match w_failures w with
    | 0 => (Ok ex_report, w)
    | S n => (Err (RepairErr (RepairIo "disk full")),
              {| w_failures := n; w_completed := w_completed w; w_cancelled := w_cancelled w; w_clock := w_clock w + 1 |})
    end;
  is_cancelled w := (w_cancelled w, w);
  cancel w := {| w_failures := w_failures w; w_completed := w_completed w; w_cancelled := true; w_clock := w_clock w |};
  fetch_add_completed w := (w_completed w, {| w_failures := w_failures w; w_completed := S (w_completed w);
                                             w_cancelled := w_cancelled w; w_clock := w_clock w |});
  utc_now w := (w_clock w, {| w_failures := w_failures w; w_completed := w_completed w; w_cancelled := w_cancelled w;
                             w_clock := w_clock w + 1 |});
|}.

#[global] Instance no_urls : UrlParser := fun _ => Err "relative URL without a base".

Definition ex_dataset (id : string) : DatasetPlan := {|
  ds_dataset_id := id; ds_source_path := "/d"; ds_output_path := "/out/" +:+ id; ds_repair_plan := merged_plan;
  ds_authorize := [] |}.

Definition ex_config : BatchExecutorConfig := BatchExecutorConfig_default.
Definition ex_start : ex_world * SqliteRunJournal :=
  ({| w_failures := 1; w_completed := 0; w_cancelled := false; w_clock := 20 |}, ex_journal).

Lemma dataset_execution_correct_witness : exists o s',
  run_task (H0 := sqlite_journal 0)
    (execute_dataset_with_retries (enough_fuel ex_config) (ex_dataset "a") "run-1" ex_config None) ex_start = (Some o, s')
  /\ out_state o = Succeeded /\ out_attempts o = 2%Z
  /\ agrees o (records (JournalLaws := sqlite_laws 0) (snd s') !! "a").
Proof.
  destruct (dataset_execution_correct (H2 := sqlite_reliable 0) (ex_dataset "a") "run-1" ex_config None ex_start
    ex_journal_wf ltac:(vm_compute; split; congruence) ltac:(vm_compute; congruence)) as (o & s' & Hrun & _ & _ & _ & _ & Hag & _).
  exists o, s'. split; [done|]. vm_compute in Hrun. injection Hrun as <- <-. done.
Defined.

(** A journal whose disk is full: it refuses every record. *)
Inductive FullDisk := full_disk.
#[global] Instance full_disk_journal : RunJournal FullDisk := {|
  run_identity _ := Ok None; list_datasets _ := Ok []; dataset _ _ := Ok None;
  upsert_dataset _ j := (Err (Errors.Journal "database or disk is full"), j);
  mark_run_completed _ j := (Ok tt, j); mark_run_cancelled _ j := (Ok tt, j) |}.

(** A task does not notice that its records are refused: it reports a success of
    which the journal knows nothing. *)
Theorem refused_record_unnoticed : exists o w,
  run_task (execute_dataset_with_retries (enough_fuel ex_config) (ex_dataset "a") "run-1" ex_config None)
    (fst ex_start, full_disk) = (Some o, (w, full_disk)) /\
  out_state o = Succeeded /\ dataset "a" full_disk = Ok None.
Proof. eexists _, _. split; [vm_compute; reflexivity|]. split; reflexivity. Qed.

(** * One task through the scheduler *)

Definition ex_sched (p : list nat) (js : list (nat * task_status (R := nat))) (j : list (nat * option nat)) (a k : nat)
    (ph : sched_phase) : sched (T := nat) (R := nat) := {|
  pending := p; join_set := js; joined := j; active := a; peak := k; sched_cancelled := false; phase := ph |}.

Lemma ex_running : sched_steps 1 (initial [7]) (ex_sched [] [(7, Started)] [] 1 1 Joining).
Proof.
  eapply steps_snoc with (st2 := ex_sched [] [(7, NotStarted)] [] 0 0 Joining); [|exact (step_start 1 (ex_sched [] [(7, NotStarted)] [] 0 0 Joining) 7 [] [] eq_refl)].
  eapply steps_snoc with (st2 := ex_sched [] [(7, NotStarted)] [] 0 0 Filling); [|exact (step_filled 1 (ex_sched [] [(7, NotStarted)] [] 0 0 Filling) eq_refl (or_introl (le_n 1)))].
  eapply steps_snoc with (st2 := ex_sched [7] [] [] 0 0 Filling); [|exact (step_spawn 1 (ex_sched [7] [] [] 0 0 Filling) 7 [] eq_refl (le_n 1) eq_refl eq_refl (le_n 1))].
  eapply steps_snoc with (st2 := initial [7]); [apply steps_refl|exact (step_head 1 (initial [7]) eq_refl)].
Qed.

Lemma ex_returned : sched_steps 1 (initial [7]) (ex_sched [] [] [(7, Some 49)] 0 1 Returned).
Proof.
  eapply steps_snoc with (st2 := ex_sched [] [] [(7, Some 49)] 0 1 Draining); [|exact (step_return 1 (ex_sched [] [] [(7, Some 49)] 0 1 Draining) eq_refl eq_refl)].
  eapply steps_snoc with (st2 := ex_sched [] [] [(7, Some 49)] 0 1 Joining); [|exact (step_break 1 (ex_sched [] [] [(7, Some 49)] 0 1 Joining) eq_refl eq_refl)].
  eapply steps_snoc with (st2 := ex_sched [] [] [(7, Some 49)] 0 1 Filling);
    [|exact (step_filled 1 (ex_sched [] [] [(7, Some 49)] 0 1 Filling) eq_refl (or_intror (or_intror eq_refl)))].
  eapply steps_snoc with (st2 := ex_sched [] [] [(7, Some 49)] 0 1 LoopHead); [|exact (step_head 1 (ex_sched [] [] [(7, Some 49)] 0 1 LoopHead) eq_refl)].
  eapply steps_snoc with (st2 := ex_sched [] [(7, Finished (Some 49))] [] 0 1 Joining);
    [|exact (step_join 1 (ex_sched [] [(7, Finished (Some 49))] [] 0 1 Joining) 7 (Some 49) [] [] eq_refl eq_refl)].
  eapply steps_snoc with (st2 := ex_sched [] [(7, Started)] [] 1 1 Joining); [apply ex_running|exact (step_finish 1 (ex_sched [] [(7, Started)] [] 1 1 Joining) 7 49 [] [] eq_refl)].
Qed.

Lemma concurrency_bounded_witness :
  count is_started (join_set (ex_sched [] [(7, Started)] [] 1 1 Joining)) <= 1.
Proof. apply (concurrency_bounded 1 [7] _ ltac:(lia) ex_running). Defined.

Lemma scheduler_exactly_once_witness : map fst (joined (ex_sched [] [] [(7, Some 49)] 0 1 Returned)) ≡ₚ [7].
Proof. destruct (scheduler_exactly_once 1 [7] _ ltac:(lia) ex_returned eq_refl) as [_ Hall]. by apply Hall. Defined.

Lemma scheduler_terminates_witness : exists l st',
  sched_step 1 l (ex_sched [] [(7, Started)] [] 1 1 Joining) st' /\ measure st' < measure (ex_sched [] [(7, Started)] [] 1 1 Joining).
Proof.
  destruct (scheduler_terminates 1 [7] _ 49 ltac:(lia) ex_running) as [Hlive Hdec].
  destruct Hlive as (l & st' & Hst & _); [done|]. exists l, st'. split; [done|by eapply Hdec].
Defined.

(** * A whole run: the repair engine fails once, the dataset succeeds *)

Definition ex_tasks : list dtask := [(ex_dataset "a", None)].
Definition ex_b0 : batch := batch_initial ex_tasks ex_journal.
Definition ex_ran : option DatasetExecutionOutcome * (ex_world * SqliteRunJournal) := Eval vm_compute in
  run_task (H0 := sqlite_journal 0) (dataset_task (enough_fuel ex_config) "run-1" ex_config (ex_dataset "a", None)) ex_start.
Definition ex_outcome : DatasetExecutionOutcome := Eval vm_compute in
  default (skipped_outcome EmptyString None) (fst ex_ran).

Definition ex_bs (p : list dtask) (js : list (dtask * task_status)) (jn : list (dtask * option DatasetExecutionOutcome))
    (a k : nat) (ph : sched_phase) : batch_sched := {|
  pending := p; join_set := js; joined := jn; active := a; peak := k; sched_cancelled := false; phase := ph |}.

Definition ex_t : dtask := (ex_dataset "a", None).
Definition ex_program : task (option DatasetExecutionOutcome) := dataset_task (enough_fuel ex_config) "run-1" ex_config ex_t.

Abbreviation ex_steps := (batch_steps (H := sqlite_journal 0) 1 "run-1" ex_config ex_b0).
Abbreviation ex_batch st ts j := ({| b_sched := st; b_tasks := ts; b_journal := j |} : batch).

(** A scheduler step of the run. *)
Lemma ex_loop st st' ts j : ex_steps (ex_batch st ts j) -> sched_step 1 LoopStep st st' -> ex_steps (ex_batch st' ts j).
Proof. intros Hs Hl. eapply batch_snoc; [exact Hs|]. by apply (batch_loop 1 "run-1" ex_config (ex_batch st ts j) LoopStep st' (or_introl eq_refl)). Qed.

Lemma ex_started : ex_steps (ex_batch (ex_bs [] [(ex_t, Started)] [] 1 1 Filling) {["a" := ex_program]} ex_journal).
Proof.
  assert (ex_steps (ex_batch (ex_bs [] [(ex_t, NotStarted)] [] 0 0 Filling) ∅ ex_journal)) as Hs.
  { eapply ex_loop; [eapply ex_loop; [apply batch_refl|exact (step_head 1 (initial ex_tasks) eq_refl)]|].
    exact (step_spawn 1 (ex_bs ex_tasks [] [] 0 0 Filling) ex_t [] eq_refl (le_n 1) eq_refl eq_refl (le_n 1)). }
  eapply batch_snoc; [exact Hs|].
  exact (batch_start 1 "run-1" ex_config (ex_batch (ex_bs [] [(ex_t, NotStarted)] [] 0 0 Filling) ∅ ex_journal) ex_t _
    (step_start 1 (ex_bs [] [(ex_t, NotStarted)] [] 0 0 Filling) ex_t [] [] eq_refl)).
Qed.

Lemma ex_world_flag c (s : ex_world * SqliteRunJournal) :
  flag (fst (snd (exec_dcall (H0 := sqlite_journal 0) c s))) = match c with CCancel => true | _ => flag (fst s) end.
Proof. destruct c; try done; simpl; [by destruct (w_failures (fst s))|]. by destruct (sqlite_upsert r (snd s)). Qed.

Definition ex_end_journal : SqliteRunJournal := snd (snd ex_ran).
Definition ex_final : batch_sched := ex_bs [] [] [(ex_t, Some ex_outcome)] 0 1 Returned.

Lemma ex_run_ends : exists ts, ex_steps (ex_batch ex_final ts ex_end_journal).
Proof.
  pose proof (run_task_steps (H := sqlite_journal 0) 1 "run-1" ex_config ex_b0 _ ex_t ex_program (fst ex_start) (Some ex_outcome)
    (fst (snd ex_ran)) ex_end_journal ex_world_flag ex_started (list_elem_of_here _ _) eq_refl eq_refl
    ltac:(vm_compute; reflexivity) eq_refl) as Hs. simpl in Hs.
  eapply batch_snoc in Hs; [|eapply (batch_finish _ _ _ _ ex_t ex_outcome); [apply lookup_insert_eq|
    exact (step_finish 1 (ex_bs [] [(ex_t, Started)] [] 1 1 Filling) ex_t ex_outcome [] [] eq_refl)]].
  eexists. eapply ex_loop; [eapply ex_loop; [eapply ex_loop; [eapply ex_loop; [eapply ex_loop; [eapply ex_loop; [exact Hs|]|]|]|]|]|].
  - exact (step_filled 1 (ex_bs [] [(ex_t, Finished (Some ex_outcome))] [] 0 1 Filling) eq_refl (or_introl (le_n 1))).
  - exact (step_join 1 (ex_bs [] [(ex_t, Finished (Some ex_outcome))] [] 0 1 Joining) ex_t (Some ex_outcome) [] [] eq_refl eq_refl).
  - exact (step_head 1 (ex_bs [] [] [(ex_t, Some ex_outcome)] 0 1 LoopHead) eq_refl).
  - exact (step_filled 1 (ex_bs [] [] [(ex_t, Some ex_outcome)] 0 1 Filling) eq_refl (or_intror (or_intror eq_refl))).
  - exact (step_break 1 (ex_bs [] [] [(ex_t, Some ex_outcome)] 0 1 Joining) eq_refl eq_refl).
  - exact (step_return 1 (ex_bs [] [] [(ex_t, Some ex_outcome)] 0 1 Draining) eq_refl eq_refl).
Qed.

Lemma ex_tasks_ids : NoDup (map task_id ex_tasks).
Proof. apply NoDup_singleton. Qed.

Lemma ex_tasks_fresh t : t ∈ ex_tasks ->
  (0 <= attempts_of (records (JournalLaws := sqlite_laws 0) ex_journal !! task_id t) < u32_max)%Z.
Proof. intros ->%list_elem_of_singleton. vm_compute. split; congruence. Qed.

Lemma batch_outcomes_recorded_witness : exists ts, ex_steps (ex_batch ex_final ts ex_end_journal)
  /\ forall id, id <> "a" -> records (JournalLaws := sqlite_laws 0) ex_end_journal !! id
                           = records (JournalLaws := sqlite_laws 0) ex_journal !! id.
Proof.
  destruct ex_run_ends as [ts Hs]. exists ts. split; [exact Hs|].
  destruct (batch_outcomes_recorded (H1 := sqlite_reliable 0) 1 "run-1" ex_config ex_tasks ex_journal _ ex_outcome
    (le_n 1) ex_tasks_ids ltac:(vm_compute; split; congruence) ex_journal_wf ex_tasks_fresh Hs (list_elem_of_here _ _)) as [_ Hoth].
  intros id Hne. apply Hoth. intros Hin. apply list_elem_of_singleton in Hin. done.
Defined.

Lemma batch_run_complete_witness : exists ts o, ex_steps (ex_batch ex_final ts ex_end_journal)
  /\ o ∈ results ex_final /\ out_dataset_id o = "a" /\ out_state o <> Cancelled.
Proof.
  destruct ex_run_ends as [ts Hs]. exists ts.
  destruct (batch_run_complete (H1 := sqlite_reliable 0) 1 "run-1" ex_config ex_tasks ex_journal _ ex_t
    (le_n 1) ex_tasks_ids ltac:(vm_compute; split; congruence) ex_journal_wf ex_tasks_fresh Hs eq_refl eq_refl
    (list_elem_of_here _ _)) as [Hp|(o & Ho & Hid & _ & Hst)].
  - apply list_elem_of_singleton in Hp. done.
  - exists o. done.
Defined.

(** * Recovery and reports *)

Definition ex_plan : BatchPlan := {|
  bp_schema_version := BATCH_PLAN_SCHEMA_VERSION; bp_batch_plan_id := "plan-1"; bp_config_fingerprint := "cfg";
  bp_batch_name := "nightly"; bp_max_concurrency := 2; bp_max_storage_requests := 8; bp_output_root := "/out";
  bp_run_root := EmptyString; bp_parqonaut_version := "0.1.0"; bp_datasets := [ex_dataset "a"; ex_dataset "b"] |}.

(** The journal of a run that crashed while [a] was being repaired, after [b]
    was done. *)
Definition crashed_journal : SqliteRunJournal := Eval vm_compute in
  snd (sqlite_upsert (ex_record "a" Running) (snd (sqlite_upsert (ex_record "b" Succeeded) ex_journal))).
Definition recovered_journal : SqliteRunJournal := Eval vm_compute in
  snd (recover_journal_states (H := sqlite_journal 0) 30 crashed_journal).

Lemma crashed_wf : sqlite_wf crashed_journal.
Proof. exists "run-1". vm_compute. repeat split; repeat constructor; set_solver. Qed.

Lemma resume_covers_plan_witness :
  exists l, list_datasets (RunJournal := sqlite_journal 0) recovered_journal = Ok l
    /\ ex_dataset "a" ∈ select_tasks Resume l ex_plan.
Proof.
  eexists. split; [reflexivity|].
  apply (resume_covers_plan (H0 := sqlite_laws 0) 30 crashed_journal recovered_journal _ ex_plan (ex_dataset "a")).
  - apply crashed_wf.
  - vm_compute. reflexivity.
  - reflexivity.
  - simpl. apply list_elem_of_here.
  - intros (r & Hr & Ht). vm_compute in Hr. injection Hr as <-. by vm_compute in Ht.
Defined.

Definition done_records : list DatasetRunRecord := [ex_record "a" Succeeded; ex_record "b" Succeeded].

Lemma done_run_records : run_records ex_plan done_records.
Proof.
  split; [|split; [|split]]; simpl; [repeat constructor; set_solver|repeat constructor; set_solver| |unfold u32_max; lia].
  intros r Hr. apply elem_of_cons in Hr as [->|[->|[]%elem_of_nil]%elem_of_cons]; simpl; set_solver.
Qed.

Lemma exit_code_zero_iff_witness : exit_code (build_aggregate_report ex_plan ex_identity done_records None ∅) = 0%Z.
Proof.
  apply (exit_code_zero_iff ex_plan ex_identity done_records None ∅ done_run_records eq_refl).
  intros ds Hds. apply elem_of_cons in Hds as [->|[->|[]%elem_of_nil]%elem_of_cons].
  - exists (ex_record "a" Succeeded). split; [apply list_elem_of_here|done].
  - exists (ex_record "b" Succeeded). split; [apply list_elem_of_further, list_elem_of_here|done].
Defined.

Definition cancelled_records : list DatasetRunRecord := [ex_record "a" Cancelled; ex_record "b" Succeeded].

Lemma cancelled_dataset_not_resumed_witness :
  run_is_complete ex_plan cancelled_records = true /\ status_resumable ex_plan ex_identity cancelled_records = false.
Proof.
  apply (cancelled_dataset_not_resumed (ex_record "a" Cancelled) cancelled_records ex_plan ex_identity (ex_dataset "a")).
  - reflexivity.
  - reflexivity.
  - apply list_elem_of_here.
  - intros ds Hds. apply elem_of_cons in Hds as [->|[->|[]%elem_of_nil]%elem_of_cons].
    + exists (ex_record "a" Cancelled). done.
    + exists (ex_record "b" Succeeded). done.
Defined.
