(* ===== verification/JobStore.v ===== *)
(** Durable application jobs: the queue, its leases, retries and cancellation
    (src/crates/paraclete-store/src/sqlite_store.rs, models.rs and
    src/crates/paraclete-types/src/{job,job_recovery}.rs).

    The table is a list of rows in insertion order; each SQL statement is a
    function on it.  Text columns hold instants printed by chrono ([Rfc3339]),
    compared as text; [OrderedRfc3339] says that the text of UTC instants sorts
    like the instants.  The order in which the engine visits the rows of a query
    is left open by SQL: [ScanOrder] is any order. *)

From stdpp Require Import sorting.
From S2P Require Import Prelude BTree Journal.

(** * Data *)

Inductive JobKind := KScan | KRepair | KBatchRepair | KBatchResume.

Definition job_kind_as_str (k : JobKind) : string :=
  match k with
  | KScan => "scan" | KRepair => "repair" | KBatchRepair => "batch_repair" | KBatchResume => "batch_resume"
  end.

Definition job_kind_parse (s : string) : option JobKind :=
  if decide (s = "scan") then Some KScan
  else if decide (s = "repair") then Some KRepair
  else if decide (s = "batch_repair") then Some KBatchRepair
  else if decide (s = "batch_resume") then Some KBatchResume
  else None.

Lemma job_kind_round_trip k : job_kind_parse (job_kind_as_str k) = Some k.
Proof. by destruct k. Qed.

Record JobRecoveryPolicy := {
  lease_duration_secs : Z;
  heartbeat_interval_secs : Z;
  max_attempts : Z;
}.

Definition JobRecoveryPolicy_default : JobRecoveryPolicy := {|
  lease_duration_secs := 30; heartbeat_interval_secs := 10; max_attempts := 3 |}.

(** Foreign errors carry their text. *)
Inductive StoreError :=
| Migrate (message : string)
| Sql (message : string)
| JsonError (message : string)
| ReportValidation (message : string)
| RunNotFound (id : string)
| JobNotFound (id : string)
| AuthToken (message : string)
| AuthTokenNotFound (id : string).

Definition StoreError_to_string (e : StoreError) : string :=
  match e with
  | Migrate m | Sql m | JsonError m => m
  | ReportValidation m => "report failed validation: " +:+ m
  | RunNotFound id => "run not found: " +:+ id
  | JobNotFound id => "scan job not found: " +:+ id
  | AuthToken m => "auth token: " +:+ m
  | AuthTokenNotFound id => "auth token not found: " +:+ id
  end.

(** [Uuid::parse_str], to the canonical text [Uuid::to_string] prints. *)
Class Uuids := {
  uuid_parse : string -> option string;
  uuid_canonical : forall s u, uuid_parse s = Some u -> uuid_parse u = Some u;
}.

Definition is_uuid `{Uuids} (s : string) : Prop := uuid_parse s = Some s.

Record ScanJobRow := {
  jr_job_id : string;
  jr_submitted_at : string;
  jr_started_at : option string;
  jr_completed_at : option string;
  jr_status : string;
  jr_target_kind : string;
  jr_normalized_target_key : string;
  jr_request_json : string;
  jr_failure_code : option string;
  jr_failure_message : option string;
  jr_run_id : option string;
  jr_worker_id : option string;
  jr_attempt_count : Z;
  jr_heartbeat_at : option string;
  jr_leased_until : option string;
  jr_recovery_note : option string;
  jr_job_kind : string;
  jr_payload_schema_version : Z;
  jr_cancel_requested : Z;
  jr_result_ref_json : option string;
}.

#[global] Instance ScanJobRow_eq_dec : EqDecision ScanJobRow.
Proof. solve_decision. Defined.

Record StaleRecoveryStats := { requeued : nat; failed_retries_exhausted : nat }.

Inductive JobCancelOutcome := CanceledFromQueued | CancelRequestedForRunning | AlreadyCanceled.

(** The two tables jobs live in: the jobs and the ids of the persisted runs
    ([run_id REFERENCES scan_runs]). *)
Record job_store := { jobs : list ScanJobRow; run_ids : list string }.

Definition store_empty : job_store := {| jobs := []; run_ids := [] |}.

(** * SQL *)

(** [UPDATE .. SET f WHERE p] with the number of affected rows. *)
Definition update_where (p : ScanJobRow -> bool) (f : ScanJobRow -> ScanJobRow) (s : job_store) : nat * job_store :=
  (length (filter (fun r => p r = true) (jobs s)),
   {| jobs := map (fun r => if p r then f r else r) (jobs s); run_ids := run_ids s |}).

(** The columns that [UPDATE] statements set, over a row. *)
Definition with_state (r : ScanJobRow) (status : string) (started completed : option string)
    (code msg run : option string) (worker : option string) (attempts : Z) (hb lease note : option string)
    (cancel : Z) (ref : option string) : ScanJobRow := {|
  jr_job_id := jr_job_id r; jr_submitted_at := jr_submitted_at r; jr_started_at := started;
  jr_completed_at := completed; jr_status := status; jr_target_kind := jr_target_kind r;
  jr_normalized_target_key := jr_normalized_target_key r; jr_request_json := jr_request_json r;
  jr_failure_code := code; jr_failure_message := msg; jr_run_id := run; jr_worker_id := worker;
  jr_attempt_count := attempts; jr_heartbeat_at := hb; jr_leased_until := lease; jr_recovery_note := note;
  jr_job_kind := jr_job_kind r; jr_payload_schema_version := jr_payload_schema_version r;
  jr_cancel_requested := cancel; jr_result_ref_json := ref |}.

Definition has_id (id : string) (r : ScanJobRow) : bool := bool_decide (jr_job_id r = id).
Definition has_status (st : string) (r : ScanJobRow) : bool := bool_decide (jr_status r = st).
Definition running_job (id : string) (r : ScanJobRow) : bool := has_id id r && has_status "running" r.

(** [CAST(u32 AS i32)]. *)
Definition as_i32 (z : Z) : Z := if decide (z mod 2 ^ 32 < 2 ^ 31)%Z then z mod 2 ^ 32 else (z mod 2 ^ 32 - 2 ^ 32)%Z.

(** chrono prints UTC instants so that their text sorts like the instants, as long as
    their years have four digits and no sign (0000 to 9999). *)
Class OrderedRfc3339 `{Rfc3339} := {
  four_digit_year : Z -> Prop;
  rfc3339_ordered : forall a b, four_digit_year a -> four_digit_year b -> str_lt (to_rfc3339 a) (to_rfc3339 b) <-> (a < b)%Z;
}.

(** The order in which a query visits the rows of its table. *)
Class ScanOrder := {
  scan_order : list ScanJobRow -> list ScanJobRow;
  scan_order_perm : forall l, scan_order l ≡ₚ l;
}.

(** The rows a [WHERE] clause selects. *)
Definition select `{ScanOrder} (p : ScanJobRow -> bool) (s : job_store) : list ScanJobRow :=
  scan_order (filter (fun r => p r = true) (jobs s)).

(** * Operations *)

Definition get_scan_job (id : string) (s : job_store) : Result StoreError ScanJobRow :=
  match list_find (fun r => jr_job_id r = id) (jobs s) with
  | Some (_, r) => Ok r
  | None => Err (JobNotFound id)
  end.

Definition job_cancel_requested (id : string) (s : job_store) : bool :=
  match list_find (fun r => running_job id r = true) (jobs s) with
  | Some (_, r) => negb (jr_cancel_requested r =? 0)%Z
  | None => false
  end.

(** The optional [WHERE status = ?]. *)
Definition status_matches (status : option string) (r : ScanJobRow) : bool :=
  match status with Some st => has_status st r | None => true end.

Definition count_scan_jobs (status : option string) (s : job_store) : nat :=
  length (filter (fun r => status_matches status r = true) (jobs s)).

(** [ORDER BY submitted_at DESC LIMIT limit OFFSET offset]. *)
Definition newer (a b : ScanJobRow) : bool := str_leb (jr_submitted_at b) (jr_submitted_at a).
Definition list_scan_jobs_page `{ScanOrder} (status : option string) (offset limit : nat) (s : job_store)
    : list ScanJobRow :=
  take limit (drop offset (sort_by newer (select (status_matches status) s))).

Section Store.
Context `{Rfc3339} `{ScanOrder}.

Definition insert_application_job (now : Z) (id : string) (kind : JobKind) (target_kind key request : string)
    (s : job_store) : Result StoreError unit * job_store :=
  if decide (id ∈ map jr_job_id (jobs s)) then (Err (Sql "UNIQUE constraint failed: application_jobs.job_id"), s)
  else (Ok tt, {| jobs := jobs s ++ [{|
    jr_job_id := id; jr_submitted_at := to_rfc3339 now; jr_started_at := None; jr_completed_at := None;
    jr_status := "queued"; jr_target_kind := target_kind; jr_normalized_target_key := key;
    jr_request_json := request; jr_failure_code := None; jr_failure_message := None; jr_run_id := None;
    jr_worker_id := None; jr_attempt_count := 0; jr_heartbeat_at := None; jr_leased_until := None;
    jr_recovery_note := None; jr_job_kind := job_kind_as_str kind; jr_payload_schema_version := 1;
    jr_cancel_requested := 0; jr_result_ref_json := None |}]; run_ids := run_ids s |}).

Definition insert_scan_job_queued (now : Z) (id target_kind key request : string) (s : job_store) :=
  insert_application_job now id KScan target_kind key request s.

(** [SELECT job_id .. WHERE status = 'queued' ORDER BY submitted_at ASC LIMIT 1]. *)
Definition older (a b : ScanJobRow) : bool := str_leb (jr_submitted_at a) (jr_submitted_at b).
Definition oldest_queued (s : job_store) : option ScanJobRow :=
  head (sort_by older (select (has_status "queued") s)).

Definition claimed (started worker : string) (hb lease : string) (r : ScanJobRow) : ScanJobRow :=
  with_state r "running" (Some started) (jr_completed_at r) (jr_failure_code r) (jr_failure_message r) (jr_run_id r)
    (Some worker) (jr_attempt_count r + 1) (Some hb) (Some lease) (jr_recovery_note r) (jr_cancel_requested r)
    (jr_result_ref_json r).

Definition claim_next_queued_scan_job (now : Z) (worker : string) (heartbeat_at leased_until : Z) (s : job_store)
    : option ScanJobRow * job_store :=
  match oldest_queued s with
  | None => (None, s)
  | Some r =>
      let f := claimed (to_rfc3339 now) worker (to_rfc3339 heartbeat_at) (to_rfc3339 leased_until) in
      (Some (f r), snd (update_where (has_id (jr_job_id r)) f s))
  end.

Definition renewed (hb lease : string) (r : ScanJobRow) : ScanJobRow :=
  with_state r (jr_status r) (jr_started_at r) (jr_completed_at r) (jr_failure_code r) (jr_failure_message r)
    (jr_run_id r) (jr_worker_id r) (jr_attempt_count r) (Some hb) (Some lease) (jr_recovery_note r)
    (jr_cancel_requested r) (jr_result_ref_json r).

Definition renew_scan_job_lease (id worker : string) (heartbeat_at leased_until : Z) (s : job_store)
    : bool * job_store :=
  let '(n, s) := update_where (fun r => running_job id r && bool_decide (jr_worker_id r = Some worker))
                   (renewed (to_rfc3339 heartbeat_at) (to_rfc3339 leased_until)) s in
  (0 <? n, s).

(** [status = 'running' AND leased_until IS NOT NULL AND leased_until < ?]. *)
Definition stale (now : string) (r : ScanJobRow) : bool :=
  has_status "running" r && match jr_leased_until r with Some l => bool_decide (str_lt l now) | None => false end.

Definition exhausted (now : string) (r : ScanJobRow) : ScanJobRow :=
  with_state r "failed" (jr_started_at r) (Some now) (Some "job_retries_exhausted")
    (Some "maximum job execution attempts reached after worker loss or lease expiry") (jr_run_id r) None
    (jr_attempt_count r) None None (Some "retries_exhausted") (jr_cancel_requested r) (jr_result_ref_json r).

Definition requeue (r : ScanJobRow) : ScanJobRow :=
  with_state r "queued" None (jr_completed_at r) (jr_failure_code r) (jr_failure_message r) (jr_run_id r) None
    (jr_attempt_count r) None None
    (Some "requeued after lease expired without completion (worker lost or process died)")
    (jr_cancel_requested r) (jr_result_ref_json r).

(** One iteration over the rows selected at the start of the transaction. *)
Definition recover_one (now : string) (max : Z) (acc : StaleRecoveryStats * job_store) (row : string * Z)
    : StaleRecoveryStats * job_store :=
  let '(stats, s) := acc in
  if (max <=? snd row)%Z then
    ({| requeued := requeued stats; failed_retries_exhausted := S (failed_retries_exhausted stats) |},
     snd (update_where (running_job (fst row)) (exhausted now) s))
  else
    ({| requeued := S (requeued stats); failed_retries_exhausted := failed_retries_exhausted stats |},
     snd (update_where (running_job (fst row)) requeue s)).

(** SQLite runs the recovery as one transaction that excludes other writers; the
    Postgres one is [pg_recover_stale_scan_jobs]. *)
Definition recover_stale_scan_jobs (now : Z) (policy : JobRecoveryPolicy) (s : job_store)
    : StaleRecoveryStats * job_store :=
  let rows := map (fun r => (jr_job_id r, jr_attempt_count r)) (select (stale (to_rfc3339 now)) s) in
  foldl (recover_one (to_rfc3339 now) (as_i32 (max_attempts policy)))
    ({| requeued := 0; failed_retries_exhausted := 0 |}, s) rows.

(** The final [UPDATE] of a running job, refused when no row matches. *)
Definition settle (id : string) (refusal : string) (f : ScanJobRow -> ScanJobRow) (s : job_store)
    : Result StoreError unit * job_store :=
  let '(n, s') := update_where (running_job id) f s in
  if n =? 0 then (Err (ReportValidation refusal), s') else (Ok tt, s').

Definition succeeded (now : string) (run ref : option string) (r : ScanJobRow) : ScanJobRow :=
  with_state r "succeeded" (jr_started_at r) (Some now) (jr_failure_code r) (jr_failure_message r) run None
    (jr_attempt_count r) None None (jr_recovery_note r) 0 ref.

(** [run_id REFERENCES scan_runs(run_id)]: checked when a row is updated. *)
Definition known_run (run : option string) (s : job_store) : bool :=
  match run with Some r => bool_decide (r ∈ run_ids s) | None => true end.

Definition complete_application_job_success (now : Z) (id : string) (run ref : option string) (s : job_store)
    : Result StoreError unit * job_store :=
  if known_run run s || negb (existsb (running_job id) (jobs s)) then
    settle id "application job not running or missing when completing success" (succeeded (to_rfc3339 now) run ref) s
  else (Err (Sql "FOREIGN KEY constraint failed"), s).

Definition complete_scan_job_success (now : Z) (id run : string) (s : job_store) :=
  complete_application_job_success now id (Some run) None s.

Definition canceled_running (now : string) (r : ScanJobRow) : ScanJobRow :=
  with_state r "canceled" (jr_started_at r) (Some now) (Some "canceled") (Some "job canceled by client request")
    (jr_run_id r) None (jr_attempt_count r) None None (jr_recovery_note r) 0 (jr_result_ref_json r).

Definition complete_application_job_canceled (now : Z) (id : string) (s : job_store)
    : Result StoreError unit * job_store :=
  settle id "application job not running or missing when completing cancel" (canceled_running (to_rfc3339 now)) s.

Definition failed (now code msg : string) (r : ScanJobRow) : ScanJobRow :=
  with_state r "failed" (jr_started_at r) (Some now) (Some code) (Some msg) (jr_run_id r) None (jr_attempt_count r)
    None None (jr_recovery_note r) (jr_cancel_requested r) (jr_result_ref_json r).

Definition complete_scan_job_failure (now : Z) (id code msg : string) (s : job_store)
    : Result StoreError unit * job_store :=
  settle id "scan job not running or missing when completing failure" (failed (to_rfc3339 now) code msg) s.

Definition canceled_queued (now : string) (r : ScanJobRow) : ScanJobRow :=
  with_state r "canceled" (jr_started_at r) (Some now) (Some "canceled") (Some "job canceled before start")
    (jr_run_id r) (jr_worker_id r) (jr_attempt_count r) (jr_heartbeat_at r) (jr_leased_until r)
    (jr_recovery_note r) (jr_cancel_requested r) (jr_result_ref_json r).

Definition flag_cancel (r : ScanJobRow) : ScanJobRow :=
  with_state r (jr_status r) (jr_started_at r) (jr_completed_at r) (jr_failure_code r) (jr_failure_message r)
    (jr_run_id r) (jr_worker_id r) (jr_attempt_count r) (jr_heartbeat_at r) (jr_leased_until r)
    (jr_recovery_note r) 1 (jr_result_ref_json r).

(** The statement of a cancel request, after [row] was read: other statements may
    have run in between. *)
Definition apply_cancel (now : Z) (id : string) (row : ScanJobRow) (s : job_store)
    : Result StoreError JobCancelOutcome * job_store :=
  if decide (jr_status row = "queued") then
    let '(n, s') := update_where (fun r => has_id id r && has_status "queued" r) (canceled_queued (to_rfc3339 now)) s in
    (if n =? 0 then Err (ReportValidation "job left queued before cancel could apply") else Ok CanceledFromQueued, s')
  else if decide (jr_status row = "running") then
    let '(n, s') := update_where (running_job id) flag_cancel s in
    (if n =? 0 then Err (ReportValidation "job left running before cancel could apply")
     else Ok CancelRequestedForRunning, s')
  else if decide (jr_status row = "canceled") then (Ok AlreadyCanceled, s)
  else if decide (jr_status row = "succeeded" \/ jr_status row = "failed") then
    (Err (ReportValidation ("job " +:+ id +:+ " is already terminal (" +:+ jr_status row +:+ ")")), s)
  else (Err (ReportValidation ("unknown job status `" +:+ jr_status row +:+ "`")), s).

Definition request_cancel_job (now : Z) (id : string) (s : job_store)
    : Result StoreError JobCancelOutcome * job_store :=
  match get_scan_job id s with
  | Err e => (Err e, s)
  | Ok row => apply_cancel now id row s
  end.

(** * Histories

    Any number of HTTP handlers and workers run these statements in any order;
    SQLite serialises them. *)

Inductive job_op :=
| OInsert (now : Z) (id : string) (kind : JobKind) (target_kind key request : string)
| OClaim (now : Z) (worker : string) (hb lease : Z)
| ORenew (id worker : string) (hb lease : Z)
| ORecover (now : Z)
| OSuccess (now : Z) (id : string) (run ref : option string)
| OCanceled (now : Z) (id : string)
| OFailure (now : Z) (id code msg : string)
| OCancel (now : Z) (id : string) (row : ScanJobRow)
| OPersistRun (run : string).

Context (policy : JobRecoveryPolicy).

Definition apply_op (s : job_store) (op : job_op) : job_store :=
  match op with
  | OInsert now id k tk key req => snd (insert_application_job now id k tk key req s)
  | OClaim now w hb lease => snd (claim_next_queued_scan_job now w hb lease s)
  | ORenew id w hb lease => snd (renew_scan_job_lease id w hb lease s)
  | ORecover now => snd (recover_stale_scan_jobs now policy s)
  | OSuccess now id run ref => snd (complete_application_job_success now id run ref s)
  | OCanceled now id => snd (complete_application_job_canceled now id s)
  | OFailure now id code msg => snd (complete_scan_job_failure now id code msg s)
  | OCancel now id row => snd (apply_cancel now id row s)
  | OPersistRun run => {| jobs := jobs s; run_ids := run :: run_ids s |}
  end.

Definition history (ops : list job_op) : job_store := foldl apply_op store_empty ops.
End Store.
