(* ===== verification/JobStoreProofs.v ===== *)
(** Correctness of the durable job queue: what each statement does to each row,
    the invariant of the table in every history, terminal states, leases and the
    bound on attempts. *)

From stdpp Require Import sorting.
From S2P Require Import Prelude BTree Journal JobStore.

Definition is_running (r : ScanJobRow) : Prop := jr_status r = "running".
Definition is_queued (r : ScanJobRow) : Prop := jr_status r = "queued".
Definition is_settled (r : ScanJobRow) : Prop :=
  jr_status r = "succeeded" \/ jr_status r = "failed" \/ jr_status r = "canceled".

Definition ids (s : job_store) : list string := map jr_job_id (jobs s).

Lemma map_same {A} (f : A -> A) l : (forall r, r ∈ l -> f r = r) -> map f l = l.
Proof. intros Hf. rewrite <- (list_fmap_id l) at 2. apply map_ext_in. intros r Hr. apply Hf. by apply list_elem_of_In. Qed.

Lemma elem_map {A B} (f : A -> B) x l : x ∈ l -> f x ∈ map f l.
Proof. intros Hx. by apply list_elem_of_In, in_map, list_elem_of_In. Qed.

Lemma elem_map_inv {A B} (f : A -> B) y l : y ∈ map f l -> exists x, y = f x /\ x ∈ l.
Proof. intros (x & <- & Hx)%list_elem_of_In%in_map_iff. exists x. by rewrite list_elem_of_In. Qed.

(** The head of a sorted list is one of its least elements. *)
Lemma sort_by_head {A} (leb : A -> A -> bool) l x :
  (forall x y, leb x y = true \/ leb y x = true) ->
  (forall x y z, leb x y = true -> leb y z = true -> leb x z = true) ->
  head (sort_by leb l) = Some x -> x ∈ l /\ forall y, y ∈ l -> leb x y = true.
Proof.
  intros Ht Htr Hh. assert (Hs := sort_by_sorted leb Ht l). apply Sorted_StronglySorted in Hs; [|by intros ? ? ?; apply Htr].
  setoid_rewrite <- (sort_by_perm leb l). destruct (sort_by leb l) as [|q rest]; [done|]. injection Hh as ->.
  inversion Hs as [|? ? _ Hle]; subst. split; [left|]. rewrite Forall_forall in Hle.
  intros y [->|Hy]%elem_of_cons; [|by apply Hle]. by destruct (Ht x x).
Qed.

Section Rows.
Context `{Rfc3339} `{ScanOrder} (policy : JobRecoveryPolicy).

(** The effect of an operation on one row of the table. *)
Definition row_effect (s : job_store) (op : job_op) (r : ScanJobRow) : ScanJobRow :=
  match op with
  | OInsert _ _ _ _ _ _ | OPersistRun _ => r
  | OClaim now w hb lease =>
      if decide (jr_job_id <$> oldest_queued s = Some (jr_job_id r))
      then claimed (to_rfc3339 now) w (to_rfc3339 hb) (to_rfc3339 lease) r else r
  | ORenew id w hb lease =>
      if running_job id r && bool_decide (jr_worker_id r = Some w)
      then renewed (to_rfc3339 hb) (to_rfc3339 lease) r else r
  | ORecover now =>
      if stale (to_rfc3339 now) r
      then if (as_i32 (max_attempts policy) <=? jr_attempt_count r)%Z then exhausted (to_rfc3339 now) r else requeue r
      else r
  | OSuccess now id run ref =>
      if running_job id r && known_run run s then succeeded (to_rfc3339 now) run ref r else r
  | OCanceled now id => if running_job id r then canceled_running (to_rfc3339 now) r else r
  | OFailure now id code msg => if running_job id r then failed (to_rfc3339 now) code msg r else r
  | OCancel now id row =>
      if decide (jr_status row = "queued")
      then if has_id id r && has_status "queued" r then canceled_queued (to_rfc3339 now) r else r
      else if decide (jr_status row = "running") then if running_job id r then flag_cancel r else r
      else r
  end.

(** The row an insertion adds. *)
Definition inserted (s : job_store) (op : job_op) : list ScanJobRow :=
  match op with
  | OInsert now id k tk key req =>
      drop (length (jobs s)) (jobs (snd (insert_application_job now id k tk key req s)))
  | _ => []
  end.

Lemma row_effect_id s op r : jr_job_id (row_effect s op r) = jr_job_id r.
Proof. destruct op; cbn; repeat case_match; done. Qed.

(** ** Recovery updates exactly the stale rows *)

Definition recovered_row (now : string) (max : Z) (rows : list (string * Z)) (r : ScanJobRow) : ScanJobRow :=
  match list_find (fun row => fst row = jr_job_id r) rows with
  | Some (_, row) =>
      if has_status "running" r then if (max <=? snd row)%Z then exhausted now r else requeue r else r
  | None => r
  end.

Lemma recovered_row_nil now max r : recovered_row now max [] r = r.
Proof. done. Qed.

Lemma recovered_fresh now max rows r :
  jr_job_id r ∉ map fst rows -> recovered_row now max rows r = r.
Proof.
  intros Hn. unfold recovered_row. destruct (list_find _ rows) as [[i row]|] eqn:E; [|done].
  apply list_find_Some in E as (Hi & He & _). destruct Hn. rewrite <- He.
  apply elem_map. by eapply list_elem_of_lookup_2.
Qed.

Lemma recovered_cons now max row rows r :
  fst row ∉ map fst rows ->
  recovered_row now max (row :: rows) r =
  recovered_row now max rows
    (if running_job (fst row) r then if (max <=? snd row)%Z then exhausted now r else requeue r else r).
Proof.
  intros Hn. unfold running_job, has_id. case_bool_decide as Hid; cbn [andb].
  - assert (forall r', jr_job_id r' = fst row -> recovered_row now max rows r' = r') as Hf.
    { intros r' Hr'. apply recovered_fresh. by rewrite Hr'. }
    unfold recovered_row at 1. cbn [list_find]. rewrite decide_True by done. cbn [fst].
    symmetry. destruct (has_status "running" r); [destruct (max <=? row.2)%Z|]; by apply Hf.
  - unfold recovered_row. cbn [list_find]. rewrite decide_False by done. by destruct (list_find _ rows) as [[]|].
Qed.

Lemma recover_rows now max rows acc :
  NoDup (map fst rows) ->
  jobs (snd (foldl (recover_one now max) acc rows)) = map (recovered_row now max rows) (jobs (snd acc)).
Proof.
  revert acc. induction rows as [|row rows IH]; intros [st s] Hnd; cbn [foldl].
  - symmetry. by apply map_same.
  - inversion Hnd; subst. rewrite IH by done. cbn [recover_one].
    assert (forall f st',
      jobs (snd (st' : StaleRecoveryStats, snd (update_where (running_job (fst row)) f s))) =
      map (fun r => if running_job (fst row) r then f r else r) (jobs s)) as Hu by done.
    destruct (max <=? row.2)%Z eqn:E; rewrite Hu, map_map; apply map_ext; intros r;
      rewrite recovered_cons by done; by rewrite E.
Qed.

Lemma select_elem p s r : r ∈ select p s <-> p r = true /\ r ∈ jobs s.
Proof. unfold select. rewrite scan_order_perm, list_elem_of_filter. done. Qed.

Lemma select_sublist_ids p s : NoDup (ids s) -> NoDup (map jr_job_id (select p s)).
Proof.
  intros Hnd. unfold select. eapply NoDup_Permutation_proper; [by rewrite scan_order_perm|].
  eapply sublist_NoDup; [exact Hnd|]. by apply (fmap_sublist jr_job_id), sublist_filter.
Qed.

Lemma row_by_id s r1 r2 :
  NoDup (ids s) -> r1 ∈ jobs s -> r2 ∈ jobs s -> jr_job_id r1 = jr_job_id r2 -> r1 = r2.
Proof.
  intros Hnd (i & Hi)%list_elem_of_lookup (j & Hj)%list_elem_of_lookup Hid.
  assert (i = j) as ->; [|congruence].
  eapply (NoDup_lookup (ids s)); [done| |]; unfold ids; rewrite list_lookup_fmap.
  - by rewrite Hi.
  - rewrite Hj. cbn. by rewrite Hid.
Qed.

Lemma recover_stale_rows now s :
  NoDup (ids s) ->
  jobs (snd (recover_stale_scan_jobs now policy s)) = map (row_effect s (ORecover now)) (jobs s).
Proof.
  intros Hnd. unfold recover_stale_scan_jobs. rewrite recover_rows.
  2:{ rewrite map_map. by apply select_sublist_ids. }
  cbn [snd]. apply map_ext_in. intros r Hr%list_elem_of_In. cbn [row_effect]. unfold recovered_row.
  set (rows := map _ _). destruct (list_find _ rows) as [[i row]|] eqn:E.
  - apply list_find_Some in E as (Hi & He & _). apply list_elem_of_lookup_2 in Hi.
    unfold rows in Hi. apply elem_map_inv in Hi as (r' & -> & Hr').
    apply select_elem in Hr' as [Hst Hr']. cbn [fst snd] in *.
    assert (r' = r) as -> by by eapply row_by_id. rewrite Hst.
    unfold stale in Hst. apply andb_prop in Hst as [-> _]. done.
  - destruct (stale (to_rfc3339 now) r) eqn:Hst; [|done]. exfalso.
    apply list_find_None in E. rewrite Forall_forall in E.
    apply (E (jr_job_id r, jr_attempt_count r)); [|done].
    apply list_elem_of_In, in_map_iff. exists r. split; [done|]. by apply list_elem_of_In, select_elem.
Qed.

(** ** Every statement acts row by row *)

Lemma update_where_rows p f s : jobs (snd (update_where p f s)) = map (fun r => if p r then f r else r) (jobs s).
Proof. done. Qed.

Lemma settle_rows id refusal f s :
  jobs (snd (settle id refusal f s)) = map (fun r => if running_job id r then f r else r) (jobs s).
Proof. unfold settle, update_where. by case_match. Qed.

Lemma insert_rows now id k tk key req s :
  exists extra, jobs (snd (insert_application_job now id k tk key req s)) = jobs s ++ extra /\
    Forall (fun r => jr_job_id r = id /\ is_queued r /\ (id ∉ ids s) /\ (jr_attempt_count r = 0)%Z /\
      jr_worker_id r = None /\ jr_leased_until r = None /\ jr_completed_at r = None) extra /\ (length extra <= 1)%nat.
Proof.
  unfold insert_application_job. case_decide as Hin.
  - exists []. rewrite app_nil_r. repeat split; [constructor|cbn; lia].
  - eexists. split; [done|]. split; [|cbn; lia]. repeat constructor. done.
Qed.

Lemma success_rows now id run ref s :
  jobs (snd (complete_application_job_success now id run ref s)) =
  map (row_effect s (OSuccess now id run ref)) (jobs s).
Proof.
  unfold complete_application_job_success. destruct (known_run run s) eqn:Hk; cbn [orb].
  - rewrite settle_rows. apply map_ext. intros r. cbn. by rewrite Hk, andb_true_r.
  - destruct (existsb (running_job id) (jobs s)) eqn:He; cbn [negb]; [|rewrite settle_rows].
    + cbn [snd]. symmetry. apply map_same. intros r _. cbn. by rewrite Hk, andb_false_r.
    + apply map_ext_in. intros r Hr. cbn. rewrite Hk, andb_false_r. destruct (running_job id r) eqn:Er; [|done].
      exfalso. enough (existsb (running_job id) (jobs s) = true) by congruence.
      apply existsb_exists. eauto.
Qed.

(** The operations refine their per-row effects: a table with unique ids is
    mapped row by row, and an insertion appends. *)
Lemma apply_op_rows s op :
  NoDup (ids s) -> jobs (apply_op policy s op) = map (row_effect s op) (jobs s) ++ inserted s op.
Proof.
  intros Hnd. destruct op as [now id k tk key req|now w hb lease|id w hb lease|now|now id run ref|now id|
    now id code msg|now id row|run]; cbn [apply_op inserted]; rewrite ?app_nil_r.
  - cbn [row_effect]. rewrite map_id.
    destruct (insert_rows now id k tk key req s) as (extra & -> & _). by rewrite drop_app_length.
  - unfold claim_next_queued_scan_job. destruct (oldest_queued s) as [q|] eqn:E; cbn [snd].
    + rewrite update_where_rows. apply map_ext. intros r. unfold has_id. cbn [row_effect]. rewrite E.
      case_bool_decide as Hid; [by rewrite decide_True by (cbn; congruence)|].
      rewrite decide_False; [done|]. intros [= ?]. congruence.
    + symmetry. apply map_same. intros r _. cbn. by rewrite E.
  - done.
  - by apply recover_stale_rows.
  - apply success_rows.
  - apply settle_rows.
  - apply settle_rows.
  - unfold apply_cancel. case_decide as E1; [|case_decide as E2].
    + apply map_ext. intros r. cbn [row_effect]. by rewrite decide_True.
    + apply map_ext. intros r. cbn [row_effect]. by rewrite decide_False, decide_True.
    + symmetry. rewrite map_same; [by repeat case_decide|]. intros r _. cbn [row_effect]. by rewrite !decide_False.
  - symmetry. by apply map_same.
Qed.

Lemma apply_op_ids s op : NoDup (ids s) -> NoDup (ids (apply_op policy s op)).
Proof.
  intros Hnd. unfold ids. rewrite apply_op_rows, map_app, map_map by done.
  rewrite (map_ext _ jr_job_id) by apply row_effect_id. destruct op; cbn [inserted map]; rewrite ?app_nil_r; try done.
  destruct (insert_rows now id kind target_kind key request s) as (extra & -> & Hex & Hlen).
  rewrite drop_app_length. destruct extra as [|r [|]]; cbn in *; [by rewrite app_nil_r| |lia].
  inversion Hex as [|? ? (Hid & _ & Hfresh & _)]; subst. apply NoDup_app. split; [done|]. split; [|apply NoDup_singleton].
  intros x Hx ->%list_elem_of_singleton. done.
Qed.

Lemma elem_apply_op s op r' :
  NoDup (ids s) -> r' ∈ jobs (apply_op policy s op) ->
  (exists r, r ∈ jobs s /\ r' = row_effect s op r) \/ r' ∈ inserted s op.
Proof.
  intros Hnd. rewrite apply_op_rows, elem_of_app by done. intros [Hr|]; [left|by right].
  apply elem_map_inv in Hr as (r & -> & Hr). eauto.
Qed.

Lemma get_scan_job_found s r : NoDup (ids s) -> r ∈ jobs s -> get_scan_job (jr_job_id r) s = Ok r.
Proof.
  intros Hnd Hr. unfold get_scan_job. destruct (list_find _ (jobs s)) as [[i r']|] eqn:E.
  - apply list_find_Some in E as (Hi & Hid & _). f_equal. eapply row_by_id; eauto using list_elem_of_lookup_2.
  - apply list_find_None in E. rewrite Forall_forall in E. by destruct (E r Hr).
Qed.

(** ** Claims take the oldest queued job *)

Lemma oldest_queued_spec s q :
  oldest_queued s = Some q ->
  q ∈ jobs s /\ is_queued q /\
  forall r, r ∈ jobs s -> is_queued r -> str_leb (jr_submitted_at q) (jr_submitted_at r) = true.
Proof.
  intros Hh. apply sort_by_head in Hh as [[Hq Hin]%select_elem Hle].
  - unfold has_status in Hq. apply bool_decide_eq_true in Hq. split; [done|]. split; [done|].
    intros r Hr Hrq. apply Hle, select_elem. split; [|done]. by apply bool_decide_eq_true.
  - intros x y. unfold older, str_leb. rewrite !bool_decide_eq_true. apply total, _.
  - intros x y z. unfold older, str_leb. rewrite !bool_decide_eq_true. apply transitivity.
Qed.

Lemma oldest_queued_None s : oldest_queued s = None <-> forall r, r ∈ jobs s -> ~ is_queued r.
Proof.
  unfold oldest_queued. split.
  - intros Hh r Hr Hq. assert (r ∈ sort_by older (select (has_status "queued") s)) as Hel.
    { rewrite sort_by_perm. apply select_elem. split; [|done]. by apply bool_decide_eq_true. }
    destruct (sort_by _ _); [inversion Hel|done].
  - intros Hn. destruct (sort_by _ _) as [|q l] eqn:E; [done|]. exfalso.
    assert (q ∈ sort_by older (select (has_status "queued") s)) as Hel by (rewrite E; left).
    rewrite sort_by_perm in Hel. apply select_elem in Hel as [Hq Hel].
    apply (Hn q); [done|]. by apply bool_decide_eq_true in Hq.
Qed.

(** ** The invariant of the table *)

(** The most attempts a job gets: at least one is always made. *)
Definition attempt_limit : Z := Z.max 1 (as_i32 (max_attempts policy)).

Inductive row_ok (r : ScanJobRow) : Prop :=
| ok_queued :
    is_queued r -> jr_worker_id r = None -> jr_leased_until r = None -> jr_heartbeat_at r = None ->
    jr_started_at r = None -> jr_completed_at r = None -> (0 <= jr_attempt_count r < attempt_limit)%Z ->
    row_ok r
| ok_running w l h t :
    is_running r -> jr_worker_id r = Some w -> jr_leased_until r = Some l -> jr_heartbeat_at r = Some h ->
    jr_started_at r = Some t -> jr_completed_at r = None -> (1 <= jr_attempt_count r <= attempt_limit)%Z ->
    row_ok r
| ok_terminal t :
    is_settled r -> jr_worker_id r = None -> jr_leased_until r = None -> jr_heartbeat_at r = None ->
    jr_completed_at r = Some t -> (0 <= jr_attempt_count r <= attempt_limit)%Z ->
    row_ok r.

Definition row_wf (r : ScanJobRow) : Prop := row_ok r /\ exists k, jr_job_kind r = job_kind_as_str k.

Definition store_wf (s : job_store) : Prop := NoDup (ids s) /\ Forall row_wf (jobs s).

Lemma running_job_true id r : running_job id r = true <-> jr_job_id r = id /\ is_running r.
Proof. unfold running_job, has_id, has_status. by rewrite andb_true_iff, !bool_decide_eq_true. Qed.

Lemma stale_true now r :
  stale now r = true <-> is_running r /\ exists l, jr_leased_until r = Some l /\ str_lt l now.
Proof.
  unfold stale, has_status. rewrite andb_true_iff, bool_decide_eq_true. destruct (jr_leased_until r) as [l|].
  - rewrite bool_decide_eq_true. naive_solver.
  - naive_solver.
Qed.

(** A claimed row was queued. *)
Lemma claimed_queued s r :
  NoDup (ids s) -> r ∈ jobs s -> jr_job_id <$> oldest_queued s = Some (jr_job_id r) ->
  oldest_queued s = Some r /\ is_queued r.
Proof.
  intros Hnd Hr He. destruct (oldest_queued s) as [q|] eqn:E; [|done]. injection He as He.
  destruct (oldest_queued_spec s q E) as (Hq & Hqq & _).
  assert (q = r) as -> by (eapply row_by_id; eauto). done.
Qed.

(** The status of a row decides which operations touch it. *)
Ltac by_status :=
  unfold is_queued, is_running, is_settled, attempt_limit in *; naive_solver (congruence || lia).

Lemma row_effect_ok s op r :
  NoDup (ids s) -> r ∈ jobs s -> row_ok r -> row_ok (row_effect s op r).
Proof.
  intros Hnd Hr Hok. destruct op; cbn [row_effect]; try done.
  - case_decide as Hc; [|done]. destruct (claimed_queued s r Hnd Hr Hc) as [_ Hq].
    inversion Hok; [|by_status|by_status]. eapply ok_running; try done. cbn. lia.
  - destruct (running_job id r) eqn:E; [|done]. apply running_job_true in E as [_ Hrun].
    case_bool_decide; [|done]. inversion Hok; [by_status| |by_status]. by eapply ok_running.
  - destruct (stale _ r) eqn:E; [|done]. apply stale_true in E as [Hrun _].
    inversion Hok; [by_status| |by_status]. destruct (_ <=? _)%Z eqn:Emax.
    + eapply ok_terminal; try done; [by right; left|cbn; lia].
    + apply ok_queued; try done. unfold attempt_limit in *. cbn. lia.
  - destruct (running_job id r) eqn:E; [|done]. apply running_job_true in E as [_ Hrun].
    destruct (known_run run s); [|done]. inversion Hok; [by_status| |by_status].
    eapply ok_terminal; try done; [by left|cbn; lia].
  - destruct (running_job id r) eqn:E; [|done]. apply running_job_true in E as [_ Hrun].
    inversion Hok; [by_status| |by_status]. eapply ok_terminal; try done; [by right; right|cbn; lia].
  - destruct (running_job id r) eqn:E; [|done]. apply running_job_true in E as [_ Hrun].
    inversion Hok; [by_status| |by_status]. eapply ok_terminal; try done; [by right; left|cbn; lia].
  - case_decide; [|case_decide; [|done]].
    + destruct (has_id id r && has_status "queued" r) eqn:E; [|done]. unfold has_status in E.
      rewrite andb_true_iff, !bool_decide_eq_true in E. destruct E as [_ Hq].
      inversion Hok; [|by_status|by_status]. eapply ok_terminal; try done; [by right; right|cbn; lia].
    + destruct (running_job id r) eqn:E; [|done]. apply running_job_true in E as [_ Hrun].
      inversion Hok; [by_status| |by_status]. by eapply ok_running.
Qed.

Lemma row_effect_kind s op r : jr_job_kind (row_effect s op r) = jr_job_kind r.
Proof. destruct op; cbn; repeat case_match; done. Qed.

Lemma inserted_wf s op : Forall (fun r => row_wf r /\ is_queued r /\ (jr_attempt_count r = 0)%Z /\ (jr_job_id r ∉ ids s)) (inserted s op).
Proof.
  destruct op; cbn [inserted]; try constructor. unfold insert_application_job. case_decide as Hin; cbn [snd jobs].
  - by rewrite drop_all.
  - rewrite drop_app_length. apply Forall_singleton. split; [split; [|by eexists]|done].
    apply ok_queued; try done. unfold attempt_limit. cbn. lia.
Qed.

Lemma apply_op_wf s op : store_wf s -> store_wf (apply_op policy s op).
Proof.
  intros [Hnd Hwf]. split; [by apply apply_op_ids|]. rewrite Forall_forall in *. intros r' Hr'.
  apply elem_apply_op in Hr' as [(r & Hr & ->)|Hr']; [| |done].
  - destruct (Hwf r Hr) as [Hok (k & Hk)]. split; [by apply row_effect_ok|]. exists k. by rewrite row_effect_kind.
  - assert (Hi := inserted_wf s op). rewrite Forall_forall in Hi. by apply Hi.
Qed.

Lemma apply_ops_wf s ops : store_wf s -> store_wf (foldl (apply_op policy) s ops).
Proof. revert s. induction ops as [|op ops IH]; intros s Hs; [done|]. by apply IH, apply_op_wf. Qed.

Lemma empty_wf : store_wf store_empty.
Proof. split; constructor. Qed.

Lemma history_snoc ops op : history policy (ops ++ [op]) = apply_op policy (history policy ops) op.
Proof. apply foldl_snoc. Qed.

(** ** Terminal rows, leases *)

Lemma row_effect_terminal s op r :
  NoDup (ids s) -> r ∈ jobs s -> is_settled r -> row_effect s op r = r.
Proof.
  intros Hnd Hr Ht.
  assert (Hrun : forall id, running_job id r = false).
  { intros id. destruct (running_job id r) eqn:E; [|done]. apply running_job_true in E as [_ E]. by_status. }
  destruct op; cbn [row_effect]; rewrite ?Hrun; try done.
  - case_decide as Hc; [|done]. destruct (claimed_queued s r Hnd Hr Hc) as [_ Hq]. by_status.
  - destruct (stale _ r) eqn:E; [|done]. apply stale_true in E as [E _]. by_status.
  - destruct (has_id id r && has_status "queued" r) eqn:E; [|by repeat case_decide]. unfold has_status in E.
    rewrite andb_true_iff, !bool_decide_eq_true in E. by_status.
Qed.

(** Whether an operation settles the job [id]. *)
Definition settles (id : string) (op : job_op) : Prop :=
  match op with
  | OSuccess _ j _ _ | OCanceled _ j | OFailure _ j _ _ => j = id
  | _ => False
  end.

Lemma row_effect_lease s op r :
  NoDup (ids s) -> r ∈ jobs s -> is_running r ->
  let r' := row_effect s op r in
  (is_running r' /\ jr_worker_id r' = jr_worker_id r /\ jr_attempt_count r' = jr_attempt_count r) \/
  settles (jr_job_id r) op \/
  (exists now l, op = ORecover now /\ jr_leased_until r = Some l /\ str_lt l (to_rfc3339 now)).
Proof.
  intros Hnd Hr Hrun. destruct op; cbn [row_effect settles]; try by left.
  - case_decide as Hc; [|by left]. destruct (claimed_queued s r Hnd Hr Hc) as [_ Hq]. by_status.
  - left. by case_match.
  - destruct (stale _ r) eqn:E; [|by left]. apply stale_true in E as (_ & l & Hl & Hlt). right; right. eauto.
  - destruct (running_job id r) eqn:E; [|by left]. apply running_job_true in E as [E _]. by right; left.
  - destruct (running_job id r) eqn:E; [|by left]. apply running_job_true in E as [E _]. by right; left.
  - destruct (running_job id r) eqn:E; [|by left]. apply running_job_true in E as [E _]. by right; left.
  - left. repeat case_decide; [|by case_match|done].
    destruct (has_id id r && has_status "queued" r) eqn:E; [|done]. unfold has_status in E.
    rewrite andb_true_iff, !bool_decide_eq_true in E. by_status.
Qed.

Lemma row_survives s op r :
  NoDup (ids s) -> r ∈ jobs s -> row_effect s op r ∈ jobs (apply_op policy s op).
Proof.
  intros Hnd Hr. rewrite apply_op_rows by done. apply elem_of_app. left.
  by apply elem_map.
Qed.

(** ** Attempts *)

(** The claims of [id] among the operations run from [s]. *)
Fixpoint claims_of (id : string) (s : job_store) (ops : list job_op) : Z :=
  match ops with
  | [] => 0
  | op :: ops =>
      (match op with
       | OClaim _ _ _ _ => if decide (jr_job_id <$> oldest_queued s = Some id) then 1 else 0
       | _ => 0
       end + claims_of id (apply_op policy s op) ops)%Z
  end.

Lemma row_effect_attempts s op r :
  jr_attempt_count (row_effect s op r) = (jr_attempt_count r + claims_of (jr_job_id r) s [op])%Z.
Proof. destruct op; cbn; repeat case_match; cbn; lia. Qed.

Lemma claims_of_cons id s op ops :
  claims_of id s (op :: ops) = (claims_of id s [op] + claims_of id (apply_op policy s op) ops)%Z.
Proof. cbn. lia. Qed.

Lemma row_after s ops r :
  store_wf s -> r ∈ jobs s ->
  exists r', r' ∈ jobs (foldl (apply_op policy) s ops) /\ jr_job_id r' = jr_job_id r /\
    jr_attempt_count r' = (jr_attempt_count r + claims_of (jr_job_id r) s ops)%Z /\
    (is_settled r -> r' = r).
Proof.
  revert s r. induction ops as [|op ops IH]; intros s r Hs Hr.
  - exists r. cbn. repeat split; [done|lia].
  - destruct (IH (apply_op policy s op) (row_effect s op r)) as (r' & Hr' & Hid & Hatt & Ht).
    { by apply apply_op_wf. } { apply row_survives; [apply Hs|done]. }
    exists r'. rewrite claims_of_cons, row_effect_attempts, row_effect_id in *. repeat split; [done|done|lia|].
    intros Hterm. assert (Heq : row_effect s op r = r) by (apply row_effect_terminal; [apply Hs|done|done]).
    rewrite Heq in Ht. by apply Ht.
Qed.

Lemma claims_of_app id s ops1 ops2 :
  claims_of id s (ops1 ++ ops2) =
  (claims_of id s ops1 + claims_of id (foldl (apply_op policy) s ops1) ops2)%Z.
Proof.
  revert s. induction ops1 as [|op ops1 IH]; intros s; [done|]. rewrite <- app_comm_cons.
  rewrite (claims_of_cons _ s op (ops1 ++ ops2)), (claims_of_cons _ s op ops1), IH. cbn [foldl]. lia.
Qed.

Lemma ids_grow s op id : NoDup (ids s) -> id ∈ ids s -> id ∈ ids (apply_op policy s op).
Proof.
  intros Hnd Hid. unfold ids. rewrite apply_op_rows, map_app, map_map by done.
  rewrite (map_ext _ jr_job_id) by apply row_effect_id. apply elem_of_app. by left.
Qed.

Lemma claims_of_unknown id s ops :
  store_wf s -> id ∉ ids (foldl (apply_op policy) s ops) -> claims_of id s ops = 0%Z.
Proof.
  revert s. induction ops as [|op ops IH]; intros s Hs Hn; [done|].
  assert (id ∉ ids (apply_op policy s op)) as Hn1.
  { contradict Hn. cbn [foldl]. generalize (apply_op_wf s op Hs) Hn. generalize (apply_op policy s op).
    clear. induction ops as [|op ops IH]; intros s Hs Hn; [done|]. apply IH; [by apply apply_op_wf|].
    apply ids_grow; [apply Hs|done]. }
  rewrite claims_of_cons, (IH _ (apply_op_wf s op Hs)) by done. destruct op; try done. cbn [claims_of].
  case_decide as Hc; [|done]. destruct Hn1. apply ids_grow; [apply Hs|].
  destruct (oldest_queued s) as [q|] eqn:E; [|done]. injection Hc as <-.
  apply oldest_queued_spec in E as (Hq & _). by apply elem_map.
Qed.

Lemma history_attempts ops r :
  r ∈ jobs (history policy ops) -> jr_attempt_count r = claims_of (jr_job_id r) store_empty ops.
Proof.
  revert r. induction ops as [|op ops IH] using rev_ind; intros r'; [by intros Hr%elem_of_nil|].
  assert (Hwf : store_wf (history policy ops)) by apply apply_ops_wf, empty_wf.
  rewrite history_snoc, claims_of_app. fold (history policy ops). intros Hr'.
  apply elem_apply_op in Hr' as [(r & Hr & ->)|Hr']; [| |apply Hwf].
  - rewrite row_effect_attempts, row_effect_id, (IH r) by done. done.
  - assert (Hi := inserted_wf (history policy ops) op). rewrite Forall_forall in Hi.
    destruct (Hi r' Hr') as (_ & _ & -> & Hfresh). rewrite claims_of_unknown; [|apply empty_wf|done].
    destruct op; try done. by apply elem_of_nil in Hr'.
Qed.

(** ** Recovery statistics *)

Lemma recover_stats now max rows acc :
  fst (foldl (recover_one now max) acc rows) =
  {| requeued := requeued (fst acc) + length (filter (fun row => (snd row <? max)%Z = true) rows);
     failed_retries_exhausted :=
       failed_retries_exhausted (fst acc) + length (filter (fun row => (max <=? snd row)%Z = true) rows) |}.
Proof.
  revert acc. induction rows as [|row rows IH]; intros [[q f] s].
  - cbn. f_equal; lia.
  - cbn [foldl]. rewrite IH, !filter_cons. cbn [recover_one]. destruct (max <=? row.2)%Z eqn:E;
      repeat case_decide; cbn; try f_equal; lia.
Qed.

Lemma count_select p (q : Z -> bool) s :
  length (filter (fun row : string * Z => q (snd row) = true)
    (map (fun r => (jr_job_id r, jr_attempt_count r)) (select p s))) =
  length (filter (fun r => p r && q (jr_attempt_count r) = true) (jobs s)).
Proof.
  unfold select. rewrite scan_order_perm. induction (jobs s) as [|r l IH]; [done|].
  rewrite !filter_cons. destruct (p r); cbn [andb].
  - rewrite decide_True by done. cbn [map]. rewrite filter_cons. cbn [snd].
    destruct (q (jr_attempt_count r)); [rewrite !decide_True by done; cbn; by rewrite IH|].
    by rewrite !decide_False.
  - by rewrite !decide_False.
Qed.
End Rows.

Lemma history_wf `{Rfc3339} `{ScanOrder} policy ops : store_wf policy (history policy ops).
Proof. apply apply_ops_wf, empty_wf. Qed.

(** * The queue's guarantees *)

Section Guarantees.
Context `{Rfc3339} `{ScanOrder} (policy : JobRecoveryPolicy).

(** C34: On the SQLite store, in every history of insertions, claims, renewals, recoveries,
    completions and cancellations, job ids are unique, every row's columns agree
    with its status (only running rows have a worker, a lease and a heartbeat;
    exactly the settled ones have a completion time), the kind is one the worker
    knows, and the attempt count is below the limit of the policy for a queued row and
    at most the limit for every other one.  (On Postgres overlapping recoveries can
    exceed it: [postgres_recovery_exceeds_attempts].) *)
Theorem job_table_well_formed ops : store_wf policy (history policy ops).
Proof. apply history_wf. Qed.

(** A settled job is final: whatever runs later, its row stays as it
    was settled, and reading it returns that row. *)
Theorem settled_job_final ops1 ops2 r :
  r ∈ jobs (history policy ops1) -> is_settled r ->
  get_scan_job (jr_job_id r) (history policy (ops1 ++ ops2)) = Ok r.
Proof.
  intros Hr Ht. unfold history. rewrite foldl_app. fold (history policy ops1).
  assert (Hwf : store_wf policy (history policy ops1)) by apply history_wf.
  destruct (row_after policy (history policy ops1) ops2 r Hwf Hr) as (r' & Hr' & _ & _ & Heq).
  rewrite (Heq Ht) in Hr'. by apply get_scan_job_found; [apply apply_ops_wf|].
Qed.

(** The attempt count of a job is the number of times it was claimed, and
    no history claims a job more often than the policy's [max_attempts] (once when
    that is zero or does not fit an [i32]). *)
Theorem attempts_count_claims ops r :
  r ∈ jobs (history policy ops) ->
  jr_attempt_count r = claims_of policy (jr_job_id r) store_empty ops /\
  (claims_of policy (jr_job_id r) store_empty ops <= Z.max 1 (as_i32 (max_attempts policy)))%Z.
Proof.
  intros Hr. rewrite <- (history_attempts policy ops r Hr). split; [done|].
  destruct (history_wf policy ops) as [_ Hall].
  rewrite Forall_forall in Hall. destruct (Hall r Hr) as [Hok _]. unfold attempt_limit in *.
  inversion Hok; unfold attempt_limit in *; lia.
Qed.

(** A claim returns [None] exactly when nothing is queued; otherwise it
    takes a job no queued job was submitted before, marks it running under the
    worker with the lease, counts the attempt and leaves the other rows alone. *)
Theorem claim_takes_oldest ops now w hb lease :
  let s := history policy ops in
  let '(res, s') := claim_next_queued_scan_job now w hb lease s in
  match res with
  | None => s' = s /\ forall r, r ∈ jobs s -> ~ is_queued r
  | Some r' =>
      exists r, r ∈ jobs s /\ is_queued r /\
        (forall q, q ∈ jobs s -> is_queued q -> str_leb (jr_submitted_at r) (jr_submitted_at q) = true) /\
        r' = claimed (to_rfc3339 now) w (to_rfc3339 hb) (to_rfc3339 lease) r /\
        jobs s' = map (fun q => if decide (q = r) then r' else q) (jobs s)
  end.
Proof.
  intros s. destruct (history_wf policy ops) as [Hnd _]. fold s in Hnd. unfold claim_next_queued_scan_job.
  destruct (oldest_queued s) as [r|] eqn:E.
  - destruct (oldest_queued_spec s r E) as (Hr & Hq & Hle). exists r. repeat split; try done.
    cbn [snd]. rewrite update_where_rows. apply map_ext_in. intros q Hin%list_elem_of_In. unfold has_id.
    case_bool_decide as Hid; case_decide; try congruence. destruct (row_by_id s q r); done.
  - split; [done|]. by apply oldest_queued_None.
Qed.

(** Recovery changes exactly the running jobs whose lease has expired: one
    with attempts left goes back to the queue, one without fails; the statistics
    count them. *)
Theorem recover_stale_exact ops now :
  let s := history policy ops in
  let max := as_i32 (max_attempts policy) in
  let '(stats, s') := recover_stale_scan_jobs now policy s in
  jobs s' = map (fun r => if stale (to_rfc3339 now) r
                          then if (max <=? jr_attempt_count r)%Z then exhausted (to_rfc3339 now) r else requeue r
                          else r) (jobs s) /\
  requeued stats = length (filter (fun r => stale (to_rfc3339 now) r && (jr_attempt_count r <? max)%Z = true) (jobs s)) /\
  failed_retries_exhausted stats =
    length (filter (fun r => stale (to_rfc3339 now) r && (max <=? jr_attempt_count r)%Z = true) (jobs s)).
Proof.
  intros s max. destruct (history_wf policy ops) as [Hnd _].
  destruct (recover_stale_scan_jobs now policy s) as [stats s'] eqn:E. split; [|split].
  - assert (Hr := recover_stale_rows policy now s Hnd). rewrite E in Hr. exact Hr.
  - change stats with (fst (stats, s')). rewrite <- E. unfold recover_stale_scan_jobs. rewrite recover_stats.
    apply (count_select (stale (to_rfc3339 now)) (fun z => z <? max)%Z).
  - change stats with (fst (stats, s')). rewrite <- E. unfold recover_stale_scan_jobs. rewrite recover_stats.
    apply (count_select (stale (to_rfc3339 now)) (fun z => max <=? z)%Z).
Qed.

(** What leaves the holder [w] of a lease until [until] undisturbed: no one
    settles the job, recovery never runs at an instant past the lease its last
    renewal set. *)
Context `{!OrderedRfc3339}.

Fixpoint lease_covered (id w : string) (until : Z) (ops : list job_op) : Prop :=
  match ops with
  | [] => True
  | ORecover now :: ops => four_digit_year now /\ (now <= until)%Z /\ lease_covered id w until ops
  | ORenew j w' _ l :: ops => four_digit_year l /\ lease_covered id w (if decide (j = id /\ w' = w) then l else until) ops
  | op :: ops => ~ settles id op /\ lease_covered id w until ops
  end.

Definition held (id w : string) (until n : Z) (r : ScanJobRow) : Prop :=
  jr_job_id r = id /\ is_running r /\ jr_worker_id r = Some w /\ jr_attempt_count r = n /\
  jr_leased_until r = Some (to_rfc3339 until) /\ four_digit_year until.

Lemma held_step s op ops id w until n r :
  store_wf policy s -> r ∈ jobs s -> held id w until n r -> lease_covered id w until (op :: ops) ->
  exists until', held id w until' n (row_effect policy s op r) /\ lease_covered id w until' ops.
Proof.
  intros [Hnd _] Hr (<- & Hrun & Hw & Hn & Hu & Hy) Hop. unfold held. rewrite row_effect_id.
  destruct (row_effect_lease policy s op r Hnd Hr Hrun) as [(Hrun' & Hw' & Hn')|[Hset|(now & l & -> & Hl & Hlt)]].
  - rewrite Hw', Hn'. cbn [lease_covered] in Hop. destruct op; cbn [row_effect lease_covered] in *;
      try (exists until; naive_solver).
    + exists until. case_decide; [|naive_solver]. destruct (claimed_queued s r Hnd Hr) as [_ Hq]; [done|].
      unfold is_queued, is_running in *; congruence.
    + unfold running_job, has_id, has_status in *. rewrite (bool_decide_eq_true_2 (jr_status r = "running")) in * by done.
      destruct Hop as [Hyl Hop].
      repeat case_bool_decide; cbn [andb] in *; eexists; (split; [split_and!|exact Hop]); try done;
        case_decide; naive_solver.
    + exists until. destruct (stale _ r); [|naive_solver]. case_match; by unfold is_running in *; cbn in *.
    + exists until. destruct (_ && _); [|naive_solver]. by unfold is_running in *; cbn in *.
    + exists until. destruct (running_job id r); [|naive_solver]. by unfold is_running in *; cbn in *.
    + exists until. destruct (running_job id r); [|naive_solver]. by unfold is_running in *; cbn in *.
    + exists until. split; [|naive_solver]. repeat case_decide; repeat case_match; done.
  - destruct op; cbn in *; try done; naive_solver.
  - exfalso. cbn in Hop. rewrite Hu in Hl. injection Hl as <-. apply rfc3339_ordered in Hlt; [lia|done|tauto].
Qed.

Lemma held_steps s ops id w until n r :
  store_wf policy s -> r ∈ jobs s -> held id w until n r -> lease_covered id w until ops ->
  exists r' until', r' ∈ jobs (foldl (apply_op policy) s ops) /\ held id w until' n r'.
Proof.
  revert s until r. induction ops as [|op ops IH]; intros s until r Hs Hr Hh Hc; [by exists r, until|].
  destruct (held_step s op ops id w until n r Hs Hr Hh Hc) as (until' & Hh' & Hc'). cbn [foldl].
  eapply IH; [by apply apply_op_wf| |exact Hh'|exact Hc']. apply row_survives; [apply Hs|done].
Qed.

(** C35: On the SQLite store, a worker that keeps its lease keeps the job: as long as
    nobody settles the job and recovery never runs past the lease the worker last
    renewed (at instants of the years 0000 to 9999), the job stays running under
    that worker and is not claimed again, whatever else happens to the queue.  On
    Postgres recovery may requeue a job whose lease was renewed in between
    ([postgres_recovery_takes_renewed_lease]). *)
Theorem lease_protects_holder ops1 ops2 r w until :
  r ∈ jobs (history policy ops1) -> is_running r -> jr_worker_id r = Some w ->
  jr_leased_until r = Some (to_rfc3339 until) -> four_digit_year until -> lease_covered (jr_job_id r) w until ops2 ->
  exists r', get_scan_job (jr_job_id r) (history policy (ops1 ++ ops2)) = Ok r' /\
    is_running r' /\ jr_worker_id r' = Some w /\ jr_attempt_count r' = jr_attempt_count r.
Proof.
  intros Hr Hrun Hw Hl Hy Hops.
  destruct (held_steps (history policy ops1) ops2 (jr_job_id r) w until (jr_attempt_count r) r)
    as (r' & until' & Hr' & Hid & ? & ? & ? & _); [apply history_wf|done|by repeat split|done|].
  exists r'. split; [|done]. rewrite <- Hid. apply get_scan_job_found; [apply history_wf|].
  unfold history. by rewrite foldl_app.
Qed.
End Guarantees.

(** The job statements of src/crates/paraclete-store/src/postgres_store.rs that
    differ from SQLite's: the claim skips rows another transaction has locked, and
    recovery is a transaction at READ COMMITTED, whose [SELECT] and [UPDATE]s other
    statements may run between.  store_backend.rs chooses the backend. *)

Inductive BackendKind := Sqlite | Postgres.

Definition is_postgres_url (s : string) : bool := starts_with "postgres://" s || starts_with "postgresql://" s.

(** [StoreBackend::connect], up to opening the connection. *)
Definition backend_kind (database_url : string) : Result StoreError BackendKind :=
  let url := trim database_url in
  if decide (url = EmptyString) then Err (AuthToken "PARACLETE_DATABASE_URL is empty")
  else Ok (if is_postgres_url url then Postgres else Sqlite).

Section Postgres.
Context `{Rfc3339} `{ScanOrder}.

(** [FOR UPDATE SKIP LOCKED]: [locked] are the ids other transactions hold. *)
Definition pg_pick (locked : list string) (s : job_store) : option ScanJobRow :=
  head (sort_by older (select (fun r => has_status "queued" r && negb (bool_decide (jr_job_id r ∈ locked))) s)).

Definition pg_claim_next_queued_scan_job (now : Z) (worker : string) (heartbeat_at leased_until : Z)
    (locked : list string) (s : job_store) : option ScanJobRow * job_store :=
  match pg_pick locked s with
  | None => (None, s)
  | Some r =>
      let f := claimed (to_rfc3339 now) worker (to_rfc3339 heartbeat_at) (to_rfc3339 leased_until) in
      (Some (f r), snd (update_where (has_id (jr_job_id r)) f s))
  end.

(** Recovery with the statements other sessions commit before each of its
    updates. *)
Definition pg_recover_stale_scan_jobs (now : Z) (policy : JobRecoveryPolicy)
    (between : nat -> list job_op) (s : job_store) : StaleRecoveryStats * job_store :=
  let rows := map (fun r => (jr_job_id r, jr_attempt_count r)) (select (stale (to_rfc3339 now)) s) in
  snd (foldl (fun acc row =>
          let '(i, (st, s)) := acc in
          (S i, recover_one (to_rfc3339 now) (as_i32 (max_attempts policy))
                  (st, foldl (apply_op policy) s (between i)) row))
        (0, ({| requeued := 0; failed_retries_exhausted := 0 |}, s)) rows).

(** ** Equivalence with the SQLite statements *)

Lemma pg_recover_alone now policy s :
  pg_recover_stale_scan_jobs now policy (fun _ => []) s = recover_stale_scan_jobs now policy s.
Proof.
  unfold pg_recover_stale_scan_jobs, recover_stale_scan_jobs. set (rows := map _ _). clearbody rows.
  set (step := fun acc row => _).
  enough (Hgen : forall i st s, snd (foldl step (i, (st, s)) rows) =
    foldl (recover_one (to_rfc3339 now) (as_i32 (max_attempts policy))) (st, s) rows) by apply Hgen.
  induction rows as [|row rows IH]; intros i st s'; [done|]. cbn [foldl].
  unfold step at 2. cbn [foldl]. destruct (recover_one _ _ (st, s') row) as [st' s'']. apply IH.
Qed.

Lemma pg_pick_unlocked s : pg_pick [] s = oldest_queued s.
Proof.
  unfold pg_pick, oldest_queued, select. do 3 f_equal. apply list_filter_iff. intros r.
  rewrite bool_decide_eq_false_2 by apply not_elem_of_nil. cbn [negb]. by rewrite andb_true_r.
Qed.

(** On its own a Postgres session does what SQLite does: its recovery with no
    statement in between, and its claim with no row locked, are SQLite's. *)
Theorem postgres_matches_sqlite now policy worker hb lease s :
  pg_recover_stale_scan_jobs now policy (fun _ => []) s = recover_stale_scan_jobs now policy s /\
  pg_claim_next_queued_scan_job now worker hb lease [] s = claim_next_queued_scan_job now worker hb lease s.
Proof.
  split; [apply pg_recover_alone|]. unfold pg_claim_next_queued_scan_job, claim_next_queued_scan_job.
  by rewrite pg_pick_unlocked.
Qed.

(** A claim under contention takes the oldest queued job no other session
    has locked. *)
Lemma pg_pick_spec locked s q :
  pg_pick locked s = Some q ->
  q ∈ jobs s /\ is_queued q /\ (jr_job_id q ∉ locked) /\
  forall r, r ∈ jobs s -> is_queued r -> jr_job_id r ∉ locked ->
    str_leb (jr_submitted_at q) (jr_submitted_at r) = true.
Proof.
  intros Hh. apply sort_by_head in Hh as [[Hq Hin]%select_elem Hle].
  - apply andb_prop in Hq as [Hq Hl]. unfold has_status in Hq. apply bool_decide_eq_true in Hq.
    rewrite negb_true_iff, bool_decide_eq_false in Hl. split_and!; try done.
    intros r Hr Hrq Hrl. apply Hle, select_elem. split; [|done]. unfold has_status.
    rewrite bool_decide_eq_true_2 by done. by rewrite bool_decide_eq_false_2.
  - intros x y. unfold older, str_leb. rewrite !bool_decide_eq_true. apply total, _.
  - intros x y z. unfold older, str_leb. rewrite !bool_decide_eq_true. apply transitivity.
Qed.
End Postgres.
