(* ===== verification/AuthStore.v ===== *)
(** Bearer tokens: the table of hashed secrets, creation, verification,
    rotation, disabling and the bootstrap token
    (src/crates/paraclete-store/src/auth_store.rs, paraclete-types/src/auth.rs).

    The table is a list of rows; [token_id] is its primary key and [token_hash]
    is unique.  Fresh ids and the random bytes of secrets are arguments; the text
    of chrono's parse errors is not modelled. *)

From Stdlib Require Import Ascii Strings.Byte.
From stdpp Require Import sorting.
From Stdlib Require Import Strings.Byte.
From S2P Require Import Prelude BTree RepairPlan Journal JobStore JobStoreProofs.

(** * Roles (auth.rs) *)

Inductive AuthRole := Reader | Operator | Admin.

#[global] Instance AuthRole_eq_dec : EqDecision AuthRole.
Proof. solve_decision. Defined.

(** The derived order: by declaration. *)
Definition role_rank (r : AuthRole) : nat := match r with Reader => 0 | Operator => 1 | Admin => 2 end.
Definition satisfies (self required : AuthRole) : bool := role_rank required <=? role_rank self.

Definition lower_ascii (c : ascii) : ascii :=
  let n := Ascii.N_of_ascii c in
  if ((65 <=? n) && (n <=? 90))%N then Ascii.ascii_of_N (n + 32) else c.
Fixpoint to_lowercase (s : string) : string :=
  match s with
  | EmptyString => EmptyString
  | String c s' => String (lower_ascii c) (to_lowercase s')
  end.

Definition AuthRole_from_str (s : string) : Result string AuthRole :=
  let t := to_lowercase (trim s) in
  if decide (t = "reader") then Ok Reader
  else if decide (t = "operator") then Ok Operator
  else if decide (t = "admin") then Ok Admin
  else Err ("unknown auth role `" +:+ s +:+ "`").

Definition auth_role_db (r : AuthRole) : string :=
  match r with Reader => "reader" | Operator => "operator" | Admin => "admin" end.

Definition parse_role (s : string) : Result StoreError AuthRole :=
  match AuthRole_from_str s with Ok r => Ok r | Err e => Err (AuthToken e) end.

Lemma parse_role_db r : parse_role (auth_role_db r) = Ok r.
Proof. by destruct r. Qed.

Record AuthPrincipal := { pr_token_id : string; pr_label : string; pr_role : AuthRole }.

(** * The table *)

Record token_row := {
  tk_token_id : string;
  tk_token_hash : string;
  tk_label : string;
  tk_role : string;
  tk_created_at : string;
  tk_disabled_at : option string;
  tk_note : option string;
  tk_token_prefix : option string;
  tk_last_used_at : option string;
  tk_replaced_by : option string;
}.

Record AuthTokenSummary := {
  ts_token_id : string;
  ts_label : string;
  ts_role : AuthRole;
  ts_created_at : Z;
  ts_disabled_at : option Z;
  ts_note : option string;
  ts_token_prefix : option string;
  ts_last_used_at : option Z;
  ts_replaced_by : option string;
}.

Definition auth_table := list token_row.

Definition enabled (r : token_row) : bool := match tk_disabled_at r with None => true | Some _ => false end.

(** [INSERT INTO auth_tokens]: the primary key and the unique hash. *)
Definition insert_token (r : token_row) (t : auth_table) : Result StoreError unit * auth_table :=
  if decide (tk_token_id r ∈ map tk_token_id t) then (Err (Sql "UNIQUE constraint failed: auth_tokens.token_id"), t)
  else if decide (tk_token_hash r ∈ map tk_token_hash t) then
    (Err (Sql "UNIQUE constraint failed: auth_tokens.token_hash"), t)
  else (Ok tt, t ++ [r]).

Definition set_disabled (now : string) (replaced : option (option string)) (r : token_row) : token_row := {|
  tk_token_id := tk_token_id r; tk_token_hash := tk_token_hash r; tk_label := tk_label r; tk_role := tk_role r;
  tk_created_at := tk_created_at r; tk_disabled_at := Some now; tk_note := tk_note r;
  tk_token_prefix := tk_token_prefix r; tk_last_used_at := tk_last_used_at r;
  tk_replaced_by := default (tk_replaced_by r) replaced |}.

Definition touch (now : string) (r : token_row) : token_row := {|
  tk_token_id := tk_token_id r; tk_token_hash := tk_token_hash r; tk_label := tk_label r; tk_role := tk_role r;
  tk_created_at := tk_created_at r; tk_disabled_at := tk_disabled_at r; tk_note := tk_note r;
  tk_token_prefix := tk_token_prefix r; tk_last_used_at := Some now; tk_replaced_by := tk_replaced_by r |}.

Definition update_tokens (p : token_row -> bool) (f : token_row -> token_row) (t : auth_table) : auth_table :=
  map (fun r => if p r then f r else r) t.

Definition token_has_id (id : string) (r : token_row) : bool := bool_decide (tk_token_id r = id).

(** * Operations *)

Section Auth.
Context `{Digests} `{Rfc3339} `{Uuids}.

Definition hash_bearer_token (token : string) : string := hex_encode (sha256 token).

Definition parse_dt (s : string) : Result StoreError Z :=
  match parse_from_rfc3339 s with Some t => Ok t | None => Err (AuthToken "bad timestamp") end.

Definition parse_dt_opt (s : option string) : Result StoreError (option Z) :=
  match s with None => Ok None | Some s => t ← parse_dt s; Ok (Some t) end.

(** [secret.chars().take(n)]. *)
Fixpoint take_chars (n : nat) (s : string) : string :=
  match n, s with
  | S n, String c s => String c (take_chars n s)
  | _, _ => EmptyString
  end.

(** The 32 random bytes are the argument. *)
Definition generate_bearer_secret (b : list byte) : string := "prqnt_" +:+ hex_encode b.

Definition new_row (now : Z) (id secret label role : string) (note prefix : option string) : token_row := {|
  tk_token_id := id; tk_token_hash := hash_bearer_token secret; tk_label := label; tk_role := role;
  tk_created_at := to_rfc3339 now; tk_disabled_at := None; tk_note := note; tk_token_prefix := prefix;
  tk_last_used_at := None; tk_replaced_by := None |}.

Definition insert_auth_token (now : Z) (id label plaintext : string) (role : AuthRole) (t : auth_table)
    : Result StoreError string * auth_table :=
  match insert_token (new_row now id plaintext label (auth_role_db role) None None) t with
  | (Ok _, t') => (Ok id, t')
  | (Err e, _) => (Err e, t)
  end.

(** One transaction: nothing is deleted when the insertion fails. *)
Definition upsert_bootstrap_token (now : Z) (id plaintext : string) (role : AuthRole) (t : auth_table)
    : Result StoreError unit * auth_table :=
  let cleared := filter (fun r => tk_label r <> "bootstrap") t in
  match insert_token (new_row now id plaintext "bootstrap" (auth_role_db role) None None) cleared with
  | (Ok _, t') => (Ok tt, t')
  | (Err e, _) => (Err e, t)
  end.

Definition create_auth_token (now : Z) (id : string) (b : list byte) (label : string) (role : AuthRole)
    (note : option string) (t : auth_table) : Result StoreError (string * string) * auth_table :=
  let secret := generate_bearer_secret b in
  match insert_token (new_row now id secret label (auth_role_db role) note (Some (take_chars 12 secret))) t with
  | (Ok _, t') => (Ok (id, secret), t')
  | (Err e, _) => (Err e, t)
  end.

(** The [SELECT] of a verification and the principal made of its row. *)
Definition verify_select (plaintext : string) (t : auth_table) : Result StoreError (option AuthPrincipal) :=
  match list_find (fun r => tk_token_hash r = hash_bearer_token plaintext /\ enabled r = true) t with
  | None => Ok None
  | Some (_, r) =>
      match uuid_parse (tk_token_id r) with
      | None => Err (AuthToken "invalid token_id in auth_tokens")
      | Some id => role ← parse_role (tk_role r); Ok (Some {| pr_token_id := id; pr_label := tk_label r; pr_role := role |})
      end
  end.

(** Its [UPDATE], by the row's id, which is the canonical one the store wrote;
    other statements may run in between. *)
Definition verify_touch (now : Z) (id : string) (t : auth_table) : auth_table :=
  update_tokens (fun r => token_has_id id r && enabled r) (touch (to_rfc3339 now)) t.

(** Which of the two statements of a verification the database fails, and how. *)
Record VerifyFaults := { select_fault : option StoreError; touch_fault : option StoreError }.
Definition answers_all : VerifyFaults := {| select_fault := None; touch_fault := None |}.

Definition verify_bearer_token (db : VerifyFaults) (now : Z) (plaintext : string) (t : auth_table)
    : Result StoreError (option AuthPrincipal) * auth_table :=
  match select_fault db with
  | Some e => (Err e, t)
  | None =>
      match verify_select plaintext t with
      | Ok (Some p) =>
          match touch_fault db with
          | Some e => (Err e, t)
          | None => (Ok (Some p), verify_touch now (pr_token_id p) t)
          end
      | other => (other, t)
      end
  end.

(** One transaction. *)
Definition rotate_auth_token (now : Z) (old_id new_id : string) (b : list byte) (t : auth_table)
    : Result StoreError (string * string) * auth_table :=
  match list_find (fun r => tk_token_id r = old_id /\ enabled r = true) t with
  | None => (Err (AuthTokenNotFound old_id), t)
  | Some (_, old_row) =>
      let secret := generate_bearer_secret b in
      match insert_token (new_row now new_id secret (tk_label old_row) (tk_role old_row) (tk_note old_row)
                            (Some (take_chars 12 secret))) t with
      | (Err e, _) => (Err e, t)
      | (Ok _, t') =>
          (Ok (new_id, secret),
           update_tokens (token_has_id old_id) (set_disabled (to_rfc3339 now) (Some (Some new_id))) t')
      end
  end.

Definition count_auth_tokens (t : auth_table) : nat := length t.

Definition into_summary (r : token_row) : Result StoreError AuthTokenSummary :=
  match uuid_parse (tk_token_id r) with
  | None => Err (AuthToken "invalid token_id")
  | Some id =>
      role ← parse_role (tk_role r);
      replaced ← match tk_replaced_by r with
                 | None => Ok None
                 | Some s => match uuid_parse s with
                             | None => Err (AuthToken "invalid replaced_by_token_id")
                             | Some u => Ok (Some u)
                             end
                 end;
      created ← parse_dt (tk_created_at r);
      disabled ← parse_dt_opt (tk_disabled_at r);
      last_used ← parse_dt_opt (tk_last_used_at r);
      Ok {| ts_token_id := id; ts_label := tk_label r; ts_role := role; ts_created_at := created;
            ts_disabled_at := disabled; ts_note := tk_note r; ts_token_prefix := tk_token_prefix r;
            ts_last_used_at := last_used; ts_replaced_by := replaced |}
  end.

(** [ORDER BY created_at DESC]. *)
Definition list_auth_tokens (t : auth_table) : Result StoreError (list AuthTokenSummary) :=
  try_map into_summary (sort_by (fun a b => str_leb (tk_created_at b) (tk_created_at a)) t).

Definition get_auth_token_summary (id : string) (t : auth_table) : Result StoreError (option AuthTokenSummary) :=
  match list_find (fun r => tk_token_id r = id) t with
  | None => Ok None
  | Some (_, r) => s ← into_summary r; Ok (Some s)
  end.

Definition disable_auth_token (now : Z) (id : string) (t : auth_table)
    : Result StoreError AuthTokenSummary * auth_table :=
  let t' := update_tokens (token_has_id id) (set_disabled (to_rfc3339 now) None) t in
  (if decide (id ∈ map tk_token_id t) then
     match get_auth_token_summary id t' with
     | Ok (Some s) => Ok s
     | Ok None => Err (AuthToken "token row missing after disable")
     | Err e => Err e
     end
   else Err (AuthTokenNotFound id), t').

(** The environment variables are the argument. *)
Definition bootstrap_auth_from_env (now : Z) (id : string) (env : string -> option string) (t : auth_table)
    : Result StoreError unit * auth_table :=
  let raw := match env "PRQNT_BOOTSTRAP_ADMIN_TOKEN" with
             | Some v => Some v
             | None => env "PARACLETE_BOOTSTRAP_TOKEN"
             end in
  match raw with
  | None | Some EmptyString => (Ok tt, t)
  | Some raw =>
      let role := match match env "PARACLETE_BOOTSTRAP_ROLE" with
                        | Some v => Some v
                        | None => env "PRQNT_BOOTSTRAP_ROLE"
                        end with
                  | Some s => parse_role s
                  | None => Ok Admin
                  end in
      match role with
      | Err e => (Err e, t)
      | Ok role => upsert_bootstrap_token now id raw role t
      end
  end.

(** * Histories *)

Inductive token_op :=
| TInsert (now : Z) (id label plaintext : string) (role : AuthRole)
| TBootstrap (now : Z) (id plaintext : string) (role : AuthRole)
| TCreate (now : Z) (id : string) (b : list byte) (label : string) (role : AuthRole) (note : option string)
| TTouch (now : Z) (id : string)
| TRotate (now : Z) (old_id new_id : string) (b : list byte)
| TDisable (now : Z) (id : string).

Definition apply_token_op (t : auth_table) (op : token_op) : auth_table :=
  match op with
  | TInsert now id label p role => snd (insert_auth_token now id label p role t)
  | TBootstrap now id p role => snd (upsert_bootstrap_token now id p role t)
  | TCreate now id b label role note => snd (create_auth_token now id b label role note t)
  | TTouch now id => verify_touch now id t
  | TRotate now old new b => snd (rotate_auth_token now old new b t)
  | TDisable now id => snd (disable_auth_token now id t)
  end.

Definition token_history (ops : list token_op) : auth_table := foldl apply_token_op [] ops.
End Auth.

(** Correctness of the bearer-token table: its invariant in every history,
    exactness of verification, revocation, rotation and the bootstrap token. *)

Section AuthProofs.
Context `{Digests} `{Rfc3339} `{Uuids}.

(** The ids a caller passes are UUIDs ([Uuid::new_v4]). *)
Definition op_ids_ok (op : token_op) : Prop :=
  match op with
  | TInsert _ id _ _ _ | TBootstrap _ id _ _ | TCreate _ id _ _ _ _ | TRotate _ _ id _ => is_uuid id
  | _ => True
  end.

Definition printed (s : string) : Prop := exists t, s = to_rfc3339 t.
Definition printed_opt (s : option string) : Prop := match s with None => True | Some s => printed s end.

(** A row decodes without errors; only disabled rows name a successor. *)
Record token_ok (r : token_row) : Prop := {
  ok_id : is_uuid (tk_token_id r);
  ok_role : exists role, tk_role r = auth_role_db role;
  ok_created : printed (tk_created_at r);
  ok_disabled : printed_opt (tk_disabled_at r);
  ok_used : printed_opt (tk_last_used_at r);
  ok_replaced : match tk_replaced_by r with None => True | Some u => is_uuid u /\ enabled r = false end;
}.

Record table_wf (t : auth_table) : Prop := {
  wf_ids : NoDup (map tk_token_id t);
  wf_hashes : NoDup (map tk_token_hash t);
  wf_rows : Forall token_ok t;
}.

Lemma insert_token_wf r t : table_wf t -> token_ok r -> table_wf (snd (insert_token r t)).
Proof.
  intros [Hi Hh Hr] Hok. unfold insert_token. case_decide; [done|]. case_decide; [done|]. cbn [snd].
  split; rewrite ?map_app; [| |by apply Forall_app; auto].
  - apply NoDup_app. split; [done|]. split; [|apply NoDup_singleton]. by intros x Hx ->%list_elem_of_singleton.
  - apply NoDup_app. split; [done|]. split; [|apply NoDup_singleton]. by intros x Hx ->%list_elem_of_singleton.
Qed.

Lemma new_row_ok now id secret label role note prefix :
  is_uuid id -> token_ok (new_row now id secret label (auth_role_db role) note prefix).
Proof. intros Hid. split; cbn; try done; [by eexists|by eexists]. Qed.

(** An update that keeps ids and hashes. *)
Lemma update_tokens_wf p f t :
  (forall r, tk_token_id (f r) = tk_token_id r) -> (forall r, tk_token_hash (f r) = tk_token_hash r) ->
  (forall r, token_ok r -> token_ok (f r)) -> table_wf t -> table_wf (update_tokens p f t).
Proof.
  intros Hid Hhash Hok [Hi Hh Hr]. unfold update_tokens.
  split; rewrite ?map_map.
  - by rewrite (map_ext _ tk_token_id) by (intros r; by destruct (p r)).
  - by rewrite (map_ext _ tk_token_hash) by (intros r; by destruct (p r)).
  - rewrite Forall_forall in *. intros r' (r & -> & Hin)%elem_map_inv. destruct (p r); auto.
Qed.

Lemma set_disabled_ok now u r :
  match u with Some (Some v) => is_uuid v | _ => True end -> token_ok r ->
  token_ok (set_disabled (to_rfc3339 now) u r).
Proof.
  intros Hu [? ? ? ? ? Hrep]. split; cbn; try done; [by eexists|].
  destruct u as [[v|]|]; cbn; [done|done|]. destruct (tk_replaced_by r); [|done]. split; [by apply Hrep|done].
Qed.

Lemma touch_ok now r : token_ok r -> token_ok (touch (to_rfc3339 now) r).
Proof. intros [? ? ? ? ? Hrep]. split; cbn; try done. by eexists. Qed.

Lemma filter_wf P `{forall r, Decision (P r)} t : table_wf t -> table_wf (filter P t).
Proof.
  intros [Hi Hh Hr]. split.
  - eapply sublist_NoDup; [exact Hi|]. by apply (fmap_sublist tk_token_id), sublist_filter.
  - eapply sublist_NoDup; [exact Hh|]. by apply (fmap_sublist tk_token_hash), sublist_filter.
  - rewrite Forall_forall in *. intros r [_ Hin]%list_elem_of_filter. auto.
Qed.

Lemma apply_token_op_wf t op : op_ids_ok op -> table_wf t -> table_wf (apply_token_op t op).
Proof.
  intros Hop Ht. destruct op as [now id label p role|now id p role|now id b label role note|now id|now old new b|now id];
    cbn [apply_token_op op_ids_ok] in *.
  - assert (Hi := insert_token_wf _ t Ht (new_row_ok now id p label role None None Hop)).
    unfold insert_auth_token. by destruct (insert_token _ t) as [[]].
  - assert (Hf := filter_wf (fun r => tk_label r <> "bootstrap") t Ht).
    assert (Hi := insert_token_wf _ _ Hf (new_row_ok now id p "bootstrap" role None None Hop)).
    unfold upsert_bootstrap_token. by destruct (insert_token _ _) as [[]].
  - assert (Hi := insert_token_wf _ t Ht (new_row_ok now id (generate_bearer_secret b) label role note
      (Some (take_chars 12 (generate_bearer_secret b))) Hop)).
    unfold create_auth_token. by destruct (insert_token _ t) as [[]].
  - apply update_tokens_wf; try done. intros r. apply touch_ok.
  - unfold rotate_auth_token. destruct (list_find _ t) as [[i r]|] eqn:E; [|done].
    apply list_find_Some in E as (Hl & _ & _). apply list_elem_of_lookup_2 in Hl.
    destruct Ht as [Hi Hh Hr]. assert (Hrow := proj1 (Forall_forall _ _) Hr r Hl). destruct (ok_role _ Hrow) as [role ->].
    assert (Hins := insert_token_wf _ t (Build_table_wf t Hi Hh Hr) (new_row_ok now new (generate_bearer_secret b)
      (tk_label r) role (tk_note r) (Some (take_chars 12 (generate_bearer_secret b))) Hop)).
    destruct (insert_token _ t) as [[] t']; cbn [snd] in *; [|done].
    apply update_tokens_wf; try done. intros r'. by apply set_disabled_ok.
  - unfold disable_auth_token. cbn [snd]. apply update_tokens_wf; try done. intros r. by apply set_disabled_ok.
Qed.

Lemma apply_token_ops_wf t ops :
  Forall op_ids_ok ops -> table_wf t -> table_wf (foldl apply_token_op t ops).
Proof.
  revert t. induction ops as [|op ops IH]; intros t Hops Ht; [done|]. inversion Hops; subst.
  by apply IH; [|apply apply_token_op_wf].
Qed.

Lemma token_history_wf ops : Forall op_ids_ok ops -> table_wf (token_history ops).
Proof. intros Hops. apply apply_token_ops_wf; [done|]. split; constructor. Qed.

(** * Verification *)

Definition principal_of (r : token_row) (role : AuthRole) : AuthPrincipal :=
  {| pr_token_id := tk_token_id r; pr_label := tk_label r; pr_role := role |}.

Lemma token_by_hash t r1 r2 :
  table_wf t -> r1 ∈ t -> r2 ∈ t -> tk_token_hash r1 = tk_token_hash r2 -> r1 = r2.
Proof.
  intros [_ Hh _] (i & Hi)%list_elem_of_lookup (j & Hj)%list_elem_of_lookup He.
  assert (i = j) as ->; [|congruence].
  eapply (NoDup_lookup (map tk_token_hash t)); [done| |]; rewrite list_lookup_fmap.
  - by rewrite Hi.
  - rewrite Hj. cbn. by rewrite He.
Qed.

Lemma token_by_id t r1 r2 :
  table_wf t -> r1 ∈ t -> r2 ∈ t -> tk_token_id r1 = tk_token_id r2 -> r1 = r2.
Proof.
  intros [Hi _ _] (i & Hl)%list_elem_of_lookup (j & Hj)%list_elem_of_lookup He.
  assert (i = j) as ->; [|congruence].
  eapply (NoDup_lookup (map tk_token_id t)); [done| |]; rewrite list_lookup_fmap.
  - by rewrite Hl.
  - rewrite Hj. cbn. by rewrite He.
Qed.

Lemma verify_row plaintext t r :
  table_wf t -> r ∈ t -> tk_token_hash r = hash_bearer_token plaintext -> enabled r = true ->
  exists role, tk_role r = auth_role_db role /\ verify_select plaintext t = Ok (Some (principal_of r role)).
Proof.
  intros Ht Hr Hh He. unfold verify_select. destruct (list_find _ t) as [[i r']|] eqn:E.
  - apply list_find_Some in E as (Hl & [Hh' _] & _). apply list_elem_of_lookup_2 in Hl.
    assert (r' = r) as -> by (eapply token_by_hash; eauto; congruence).
    assert (Hok := proj1 (Forall_forall _ _) (wf_rows _ Ht) r Hr). destruct (ok_role _ Hok) as [role Hrole].
    exists role. split; [done|]. assert (Hid := ok_id _ Hok). unfold is_uuid in Hid. rewrite Hid, Hrole, parse_role_db.
    done.
  - apply list_find_None in E. rewrite Forall_forall in E. by destruct (E r Hr).
Qed.

Lemma verify_none plaintext t :
  (forall r, r ∈ t -> tk_token_hash r = hash_bearer_token plaintext -> enabled r = false) ->
  verify_select plaintext t = Ok None.
Proof.
  intros Hn. unfold verify_select. destruct (list_find _ t) as [[i r]|] eqn:E; [|done].
  apply list_find_Some in E as (Hl & [Hh He] & _). apply list_elem_of_lookup_2 in Hl.
  rewrite (Hn r Hl Hh) in He. done.
Qed.

(** * Revocation *)

(** The secret's row is in the table, disabled. *)
Definition revoked (hash : string) (t : auth_table) : Prop :=
  exists r, r ∈ t /\ tk_token_hash r = hash /\ enabled r = false.

Lemma revoked_verify plaintext t :
  table_wf t -> revoked (hash_bearer_token plaintext) t -> verify_select plaintext t = Ok None.
Proof.
  intros Ht (r & Hr & Hh & He). apply verify_none. intros r' Hr' Hh'.
  assert (r' = r) as -> by (eapply token_by_hash; eauto; congruence). done.
Qed.

Lemma revoked_insert hash r t : revoked hash t -> revoked hash (snd (insert_token r t)).
Proof.
  intros (r' & Hr' & Hx). unfold insert_token. repeat case_decide; try by exists r'.
  exists r'. split; [|done]. apply elem_of_app. by left.
Qed.

Lemma revoked_update hash p f t :
  (forall r, tk_token_hash (f r) = tk_token_hash r) -> (forall r, enabled r = false -> enabled (f r) = false) ->
  revoked hash t -> revoked hash (update_tokens p f t).
Proof.
  intros Hh He (r & Hr & <- & Hd). exists (if p r then f r else r).
  split; [by apply (elem_map (fun r => if p r then f r else r))|]. destruct (p r); auto.
Qed.

Definition is_bootstrap (op : token_op) : Prop := match op with TBootstrap _ _ _ _ => True | _ => False end.

Lemma revoked_step hash t op : ~ is_bootstrap op -> revoked hash t -> revoked hash (apply_token_op t op).
Proof.
  intros Hop Hr. destruct op as [now id label p role|now id p role|now id b label role note|now id|now old new b|now id];
    cbn [apply_token_op is_bootstrap] in *; [|done| | | |].
  - unfold insert_auth_token. assert (Hi := revoked_insert hash (new_row now id p label (auth_role_db role) None None) t Hr).
    by destruct (insert_token _ t) as [[]].
  - unfold create_auth_token. assert (Hi := revoked_insert hash (new_row now id (generate_bearer_secret b) label
      (auth_role_db role) note (Some (take_chars 12 (generate_bearer_secret b)))) t Hr).
    by destruct (insert_token _ t) as [[]].
  - by apply revoked_update.
  - unfold rotate_auth_token. destruct (list_find _ t) as [[i r]|]; [|done].
    assert (Hi := revoked_insert hash (new_row now new (generate_bearer_secret b) (tk_label r) (tk_role r) (tk_note r)
      (Some (take_chars 12 (generate_bearer_secret b)))) t Hr).
    destruct (insert_token _ t) as [[] t']; cbn [snd] in *; [|done]. by apply revoked_update.
  - by apply revoked_update.
Qed.

Lemma revoked_steps hash t ops :
  Forall (fun op => ~ is_bootstrap op) ops -> revoked hash t -> revoked hash (foldl apply_token_op t ops).
Proof.
  revert t. induction ops as [|op ops IH]; intros t Hops Hr; [done|]. inversion Hops; subst.
  apply IH; [done|]. by apply revoked_step.
Qed.

(** The table decides a verification. *)
Lemma verify_select_iff ops plaintext res :
  Forall op_ids_ok ops ->
  verify_select plaintext (token_history ops) = res <->
  (exists r role, r ∈ token_history ops /\ tk_token_hash r = hash_bearer_token plaintext /\ enabled r = true /\
     tk_role r = auth_role_db role /\ res = Ok (Some (principal_of r role))) \/
  ((forall r, r ∈ token_history ops -> tk_token_hash r = hash_bearer_token plaintext -> enabled r = false) /\
     res = Ok None).
Proof.
  intros Hops. assert (Ht := token_history_wf ops Hops). set (t := token_history ops) in *. split.
  - intros <-. destruct (decide (Exists (fun r => tk_token_hash r = hash_bearer_token plaintext /\ enabled r = true) t))
      as [(r & Hr & Hh & He)%Exists_exists|Hn].
    + left. destruct (verify_row plaintext t r Ht Hr Hh He) as (role & Hrole & ->). by exists r, role.
    + right. assert (forall r, r ∈ t -> tk_token_hash r = hash_bearer_token plaintext -> enabled r = false) as Hd.
      { intros r Hr Hh. destruct (enabled r) eqn:E; [|done]. destruct Hn. apply Exists_exists. by exists r. }
      split; [done|]. by apply verify_none.
  - intros [(r & role & Hr & Hh & He & Hrole & ->)|[Hn ->]]; [|by apply verify_none].
    destruct (verify_row plaintext t r Ht Hr Hh He) as (role' & Hrole' & ->).
    by assert (role' = role) as -> by (destruct role, role'; cbn in *; congruence).
Qed.

(** A bearer secret authenticates exactly when its hash is that of an
    enabled row, and then as that row's label and role; verification never fails on
    a table the store itself wrote. *)
Theorem verify_bearer_exact ops plaintext res :
  Forall op_ids_ok ops ->
  verify_select plaintext (token_history ops) = res <->
  (exists r role, r ∈ token_history ops /\ tk_token_hash r = hash_bearer_token plaintext /\ enabled r = true /\
     tk_role r = auth_role_db role /\ res = Ok (Some (principal_of r role))) \/
  ((forall r, r ∈ token_history ops -> tk_token_hash r = hash_bearer_token plaintext -> enabled r = false) /\
     res = Ok None).
Proof. apply verify_select_iff. Qed.

(** A disabled or rotated-out token stays revoked: whatever tokens are
    created, rotated, used or disabled later, its secret does not authenticate,
    as long as the bootstrap token is not reinstalled. *)
Theorem revoked_token_never_authenticates ops1 ops2 plaintext :
  Forall op_ids_ok (ops1 ++ ops2) -> Forall (fun op => ~ is_bootstrap op) ops2 ->
  revoked (hash_bearer_token plaintext) (token_history ops1) ->
  verify_select plaintext (token_history (ops1 ++ ops2)) = Ok None.
Proof.
  intros Hops Hnb Hr. apply revoked_verify; [by apply token_history_wf|].
  unfold token_history. rewrite foldl_app. by apply revoked_steps.
Qed.

(** * Rotation *)

Lemma insert_token_fresh r t :
  tk_token_id r ∉ map tk_token_id t -> tk_token_hash r ∉ map tk_token_hash t -> insert_token r t = (Ok tt, t ++ [r]).
Proof. intros Hi Hh. unfold insert_token. by rewrite !decide_False. Qed.

Lemma find_enabled t r :
  table_wf t -> r ∈ t -> enabled r = true ->
  exists i, list_find (fun r' => tk_token_id r' = tk_token_id r /\ enabled r' = true) t = Some (i, r).
Proof.
  intros Ht Hr He. destruct (list_find _ t) as [[i r']|] eqn:E.
  - apply list_find_Some in E as (Hl & [Hid _] & _). apply list_elem_of_lookup_2 in Hl. exists i.
    by assert (r' = r) as -> by (eapply token_by_id; eauto).
  - apply list_find_None in E. rewrite Forall_forall in E. by destruct (E r Hr).
Qed.

(** Rotating an enabled token with a fresh id and a fresh secret swaps the
    two atomically: the old secret stops authenticating, the new one authenticates
    under the new id with the old label and role, the old row names its successor,
    and every other token is untouched. *)
Theorem rotation_swaps_secrets ops now r new_id b old_plaintext :
  let t := token_history ops in
  Forall op_ids_ok ops -> is_uuid new_id -> r ∈ t -> enabled r = true ->
  tk_token_hash r = hash_bearer_token old_plaintext ->
  new_id ∉ map tk_token_id t -> hash_bearer_token (generate_bearer_secret b) ∉ map tk_token_hash t ->
  let secret := generate_bearer_secret b in
  let '(res, t') := rotate_auth_token now (tk_token_id r) new_id b t in
  res = Ok (new_id, secret) /\
  verify_select old_plaintext t' = Ok None /\
  (exists role, tk_role r = auth_role_db role /\
     verify_select secret t' = Ok (Some {| pr_token_id := new_id; pr_label := tk_label r; pr_role := role |})) /\
  set_disabled (to_rfc3339 now) (Some (Some new_id)) r ∈ t' /\
  (forall r', r' ∈ t -> r' <> r -> r' ∈ t').
Proof.
  intros t Hops Hnew Hr He Hh Hid Hfresh secret.
  assert (Ht : table_wf t) by by apply token_history_wf.
  assert (Hwf' : table_wf (apply_token_op t (TRotate now (tk_token_id r) new_id b))) by by apply apply_token_op_wf.
  cbn [apply_token_op] in Hwf'. revert Hwf'. unfold rotate_auth_token.
  destruct (find_enabled t r Ht Hr He) as (i & ->). fold secret. rewrite insert_token_fresh by done. cbn [snd].
  set (row := new_row _ _ _ _ _ _ _). set (dis := set_disabled _ _). set (t' := update_tokens _ _ _). intros Ht'.
  assert (Hdis : dis r ∈ t').
  { unfold t', update_tokens. apply list_elem_of_In, in_map_iff. exists r. unfold token_has_id.
    rewrite bool_decide_eq_true_2 by done. split; [done|]. apply list_elem_of_In, elem_of_app. by left. }
  assert (Hkeep : forall r', r' ∈ t ++ [row] -> tk_token_id r' <> tk_token_id r -> r' ∈ t').
  { intros r' Hr' Hne. unfold t', update_tokens. apply list_elem_of_In, in_map_iff. exists r'. unfold token_has_id.
    rewrite bool_decide_eq_false_2 by done. split; [done|]. by apply list_elem_of_In. }
  assert (Hne : new_id <> tk_token_id r) by (intros ->; by destruct Hid; apply elem_map).
  repeat split.
  - apply revoked_verify; [done|]. exists (dis r). done.
  - assert (Hrow : row ∈ t').
    { apply Hkeep; [|done]. apply elem_of_app. right. by apply list_elem_of_singleton. }
    destruct (verify_row secret t' row Ht' Hrow eq_refl eq_refl) as (role & Hrole & ->). by exists role.
  - done.
  - intros r' Hr' Hn. apply Hkeep; [apply elem_of_app; by left|]. intros Heq. destruct Hn. by apply (token_by_id t).
Qed.

(** * The bootstrap token *)

(** Every successful bootstrap (each start of a server with the variable
    set) makes its secret authenticate with its role, whether or not that token was
    disabled or rotated before, and removes every other token labelled
    [bootstrap], the successor of a rotation among them. *)
Theorem bootstrap_reinstates ops now id plaintext role :
  let t := token_history ops in
  let '(res, t') := upsert_bootstrap_token now id plaintext role t in
  Forall op_ids_ok ops -> is_uuid id -> res = Ok tt ->
  verify_select plaintext t' = Ok (Some {| pr_token_id := id; pr_label := "bootstrap"; pr_role := role |}) /\
  forall other r, r ∈ t -> tk_label r = "bootstrap" -> tk_token_hash r = hash_bearer_token other ->
    hash_bearer_token other <> hash_bearer_token plaintext -> verify_select other t' = Ok None.
Proof.
  intros t. destruct (upsert_bootstrap_token now id plaintext role t) as [res t'] eqn:E. intros Hops Hid ->.
  assert (Ht : table_wf t) by by apply token_history_wf.
  assert (Ht' : table_wf (apply_token_op t (TBootstrap now id plaintext role))) by by apply apply_token_op_wf.
  cbn [apply_token_op] in Ht'. rewrite E in Ht'. cbn [snd] in Ht'. revert E. unfold upsert_bootstrap_token, insert_token.
  case_decide; [done|]. case_decide; [done|]. intros [= <-]. set (row := new_row _ _ _ _ _ _ _) in *.
  split.
  - assert (Hrow : row ∈ filter (fun r => tk_label r <> "bootstrap") t ++ [row]).
    { apply elem_of_app. right. by apply list_elem_of_singleton. }
    destruct (verify_row plaintext _ row Ht' Hrow eq_refl eq_refl) as (role' & Hrole & ->).
    by assert (role' = role) as -> by (destruct role, role'; cbn in *; congruence).
  - intros other r Hr Hl Hh Hne. apply verify_none. intros r' Hr' Hh'. exfalso.
    apply elem_of_app in Hr' as [Hr'|Hr'].
    + apply list_elem_of_filter in Hr' as [Hl' Hr'].
      assert (r' = r) as -> by (apply (token_by_hash t); [done|done|done|congruence]). done.
    + apply list_elem_of_singleton in Hr' as ->. apply Hne. by rewrite <- Hh'.
Qed.
End AuthProofs.
