(* ===== verification/Application.v ===== *)
(** The application boundary of src/crates/parqonaut-app/src: its errors
    (error.rs), the server's location policy (policy.rs), conversion of scan
    targets (location.rs), and the repair use cases behind the policy
    (repair.rs: [diagnose], [plan], [check], [repair]; scan.rs).

    [ServerFs] adds to the file operations what the policy reads:
    [canonicalize_utf8], which fails on a path that does not exist. *)

From Stdlib Require Import Strings.Byte Ascii.
From S2P Require Import Prelude BTree Location Errors Schema RepairPlan Deps RepairExec Inventory Rules Planning Verify.
From S2P Require Import Backend Publication PublicationSafety WorkDir Execute.

(** * Errors *)

(** [paraclete_core::CoreError]; foreign errors carry their display form. *)
Inductive CoreError :=
| MissingPath (p : string)
| Unsupported (m : string)
| CorePlugin (m : string)
| CoreIo (m : string)
| NonUtf8Path (p : string)
| CoreParquet (m : string)
| CoreInspect (m : string)
| CoreReportValidation (m : string).

Definition core_error_display (e : CoreError) : string :=
  match e with
  | MissingPath p => "target path does not exist: " +:+ p
  | Unsupported m => "unsupported target for local engine: " +:+ m
  | CorePlugin m => m
  | CoreIo m => "I/O error: " +:+ m
  | NonUtf8Path p => "path is not valid UTF-8: " +:+ p
  | CoreParquet m => "parquet error: " +:+ m
  | CoreInspect m => "shallow inspect error: " +:+ m
  | CoreReportValidation m => "report validation failed: " +:+ m
  end.

Inductive ApplicationError :=
| AInvalidRequest (m : string)
| ALocationNotAllowed (m : string)
| ATargetNotFound (m : string)
| AScanFailed (m : string)
| ARepairFailed (m : string)
| ABatchFailed (m : string)
| AConflict (m : string)
| AReviewRequired
| ABlockedRepair (m : string)
| AStaleSource (m : string)
| AInternal (m : string).

Definition app_from_core (e : CoreError) : ApplicationError :=
  match e with
  | MissingPath p => ATargetNotFound p
  | Unsupported m => AInvalidRequest m
  | other => AInternal (core_error_display other)
  end.

Definition app_from_repair (e : RepairError) : ApplicationError :=
  match e with
  | ScanFailed m => AScanFailed m
  | DatasetUnreadable m => ATargetNotFound m
  | DatasetChanged expected actual => AStaleSource ("expected " +:+ expected +:+ ", found " +:+ actual)
  | ReviewRequiredNotAuthorized _ => AReviewRequired
  | DestructiveNotAllowed id => ABlockedRepair ("destructive operation `" +:+ id +:+ "` is blocked")
  | RepairStorage m => AInvalidRequest m
  | other => ARepairFailed (repair_error_display other)
  end.

Definition app_from_storage (e : StorageError) : ApplicationError := AInvalidRequest (storage_error_display e).

(** * Location policy *)

Record StoragePolicy := {
  allow_unrestricted_local : bool;
  allowed_local_roots : list string;
  allowed_s3_buckets : list string;
  allowed_s3_prefixes : list string;
}.

Definition cli_unrestricted_local : StoragePolicy := {|
  allow_unrestricted_local := true; allowed_local_roots := []; allowed_s3_buckets := []; allowed_s3_prefixes := [] |}.

(** [serve.rs]: the policy of a network-facing server. *)
Record ServerFileConfig := {
  server_allowed_local_roots : list string;
  storage_allowed_local_roots : list string;
  storage_allowed_s3_buckets : list string;
  storage_allowed_s3_prefixes : list string;
}.

Definition storage_policy_from_config (cfg : ServerFileConfig) : StoragePolicy := {|
  allow_unrestricted_local := false;
  allowed_local_roots := server_allowed_local_roots cfg ++ storage_allowed_local_roots cfg;
  allowed_s3_buckets := storage_allowed_s3_buckets cfg;
  allowed_s3_prefixes := storage_allowed_s3_prefixes cfg |}.

Class ServerFs (FS : Type) `{RepairFs FS} := {
  canonicalize_utf8 : string -> FS -> Result string string;
  (** [realpath] fails on a path that does not exist. *)
  canonicalize_exists : forall p fs q, canonicalize_utf8 p fs = Ok q -> path_exists p fs = true;
}.

Section Policy.
Context {FS : Type} `{ServerFs FS}.

Definition validate_local_path (self : StoragePolicy) (p : string) (fs : FS) : Result ApplicationError unit :=
  if allow_unrestricted_local self then Ok tt
  else if decide (allowed_local_roots self = []) then
    Err (ALocationNotAllowed
      "local filesystem access is disabled; configure server.storage.allowed_local_roots")
  else
    abs ← map_err AInvalidRequest (canonicalize_utf8 p fs);
    if existsb (fun root =>
         path_starts_with abs (match canonicalize_utf8 root fs with Ok r => r | Err _ => root end))
         (allowed_local_roots self)
    then Ok tt
    else Err (ALocationNotAllowed ("path `" +:+ p +:+ "` is outside configured allowed_local_roots")).

(** One entry [bucket/prefix] of the allow list. *)
Definition s3_entry_allows (loc : S3Location) (entry : string) : bool :=
  match split_once "/" entry with
  | Some (b, pre) =>
      bool_decide (bucket loc = b) &&
      (bool_decide (pre = EmptyString) || starts_with (trim_end_slash pre) (prefix loc))
  | None => bool_decide (bucket loc = entry)
  end.

Definition validate_s3 (self : StoragePolicy) (loc : S3Location) : Result ApplicationError unit :=
  if negb (bool_decide (allowed_s3_buckets self = [])) &&
     negb (existsb (fun b => bool_decide (b = bucket loc)) (allowed_s3_buckets self))
  then Err (ALocationNotAllowed ("s3 bucket `" +:+ bucket loc +:+ "` is not allowed"))
  else if decide (allowed_s3_prefixes self = []) then Ok tt
  else if existsb (s3_entry_allows loc) (allowed_s3_prefixes self) then Ok tt
  else Err (ALocationNotAllowed
         ("s3 location `" +:+ s3_display_uri loc +:+ "` is outside configured allowed_s3_prefixes")).

Definition validate_dataset (self : StoragePolicy) (loc : DatasetLocation) (fs : FS)
    : Result ApplicationError unit :=
  match loc with
  | Local l => validate_local_path self (path l) fs
  | S3 s => validate_s3 self s
  end.
End Policy.

(** * Scan targets *)

Inductive ScanTarget :=
| LocalFile (p : string)
| LocalDirectory (p : string)
| LogicalDataset (dataset_id : string) (resolver_hint : option string)
| ObjectStorePlaceholder (uri : Url) (description : option string).

Section Targets.
Context `{UrlParser}.

Definition object_uri_to_location (uri : Url) : Result ApplicationError DatasetLocation :=
  if decide (scheme uri = "s3") then
    b ← ok_or (host_str uri) (AInvalidRequest "s3 URI missing bucket host");
    map_err app_from_storage (parse ("s3://" +:+ b +:+ "/" +:+ trim_start_slash (url_path uri)))
  else if decide (scheme uri = "file") then
    p ← ok_or (to_file_path uri) (AInvalidRequest "invalid file:// URI");
    if utf8_valid p then Ok (Local {| path := p |})
    else Err (AInvalidRequest "file path is not valid UTF-8")
  else Err (AInvalidRequest ("unsupported object store URI scheme `" +:+ scheme uri +:+ "`")).

Definition dataset_location_from_scan_target (target : ScanTarget) : Result ApplicationError DatasetLocation :=
  match target with
  | LocalFile p | LocalDirectory p => Ok (Local {| path := p |})
  | ObjectStorePlaceholder uri _ => object_uri_to_location uri
  | LogicalDataset id _ =>
      Err (AInvalidRequest ("logical dataset `" +:+ id +:+ "` is not supported over the application server yet"))
  end.

Definition parse_dataset_location (input : string) : Result ApplicationError DatasetLocation :=
  map_err app_from_storage (parse input).
End Targets.

(** * Repair use cases *)

Record RepairRequest := {
  rq_schema_version : Z;
  rq_source : DatasetLocation;
  rq_output : DatasetLocation;
  rq_plan : RepairPlan;
  rq_authorize : list string;
}.

Section UseCases.
Context {FS : Type} `{RepairFs FS} `{!ServerFs FS} `{RunFs FS} `{Digests} `{Serde}.
Context `{Json WriterLockRecord, Json PublicationStateRecord, Json PublicationManifest,
          Json CommitMarker, Json CurrentPointer, Json ExecutionManifest}.
Context (now : nat -> Z) (uuid : string) (u1 u2 : nat -> string) (PARQONAUT_VERSION : string).
Context (temp_dir : Result RepairError string).
Context (remote_seed : S3Location -> string -> FsM FS working_set).
Context `{UrlParser}.
(** [backend_for_location]/[RepairBackend::scan] of a remote dataset. *)
Context (remote_scan : S3Location -> FS -> Result RepairError ScanReport).

Definition backend_scan (loc : DatasetLocation) (fs : FS) : Result RepairError ScanReport :=
  match loc with Local l => scan_directory (path l) fs | S3 s => remote_scan s fs end.

(** Run a program to its error-converted result. *)
Definition app_result {A} (m : option (Result RepairError A * FS)) : option (Result ApplicationError A * FS) :=
  match m with None => None | Some (r, fs) => Some (map_err app_from_repair r, fs) end.

Local Open Scope prog_scope.

Definition repair (req : RepairRequest) (policy : StoragePolicy) (run_id : string) (fs : FS)
    : prog (option (Result ApplicationError ExecutionReport * FS)) :=
  match validate_dataset policy (rq_source req) fs with
  | Err e => Ret (Some (Err e, fs))
  | Ok _ =>
  match validate_dataset policy (rq_output req) fs with
  | Err e => Ret (Some (Err e, fs))
  | Ok _ =>
  match backend_scan (rq_source req) fs with
  | Err e => Ret (Some (Err (app_from_repair e), fs))
  | Ok scan =>
      let executor := {| authorization := auth_from_ids (rq_authorize req); verify_before_publish := true |} in
      if requires_storage_execution (rq_source req) (rq_output req) then
        m ← execute_storage now uuid u1 u2 PARQONAUT_VERSION temp_dir remote_seed executor (rq_plan req)
              (rq_output req) scan run_id fs;
        Ret (app_result m)
      else Ret (app_result (execute now uuid u1 u2 PARQONAUT_VERSION executor (rq_plan req)
                  (location_root (rq_output req)) scan fs))
  end end end.

(** The read-only use cases: the policy, then the scan, then the engine.
    [None] is the panic of the dependency sort. *)
Definition diagnose_location (loc : DatasetLocation) (pol : EffectivePolicy) (fs : FS)
    : Result RepairError DiagnosisReport :=
  scan ← backend_scan loc fs;
  @diagnose (files_of fs) _ u1 (location_root loc) scan (policy_repair pol).

Definition generate_plan_for_location (loc : DatasetLocation) (pol : EffectivePolicy)
    (target : option (list FieldDescriptor)) (fs : FS) : option (Result RepairError RepairPlan) :=
  match backend_scan loc fs with
  | Err e => Some (Err e)
  | Ok scan => @generate_plan _ (files_of fs) _ u1 (now 0) PARQONAUT_VERSION (location_root loc) scan pol target
  end.

Definition evaluate_check_for_location (loc : DatasetLocation) (pol : EffectivePolicy) (fs : FS)
    : option (Result RepairError CheckReport) :=
  match backend_scan loc fs with
  | Err e => Some (Err e)
  | Ok scan => @evaluate_check _ (files_of fs) _ u1 (now 0) PARQONAUT_VERSION (location_root loc) scan pol
  end.

(** A use case behind the policy. *)
Definition guarded {A} (policy : StoragePolicy) (loc : DatasetLocation) (fs : FS)
    (m : option (Result RepairError A)) : option (Result ApplicationError A) :=
  match validate_dataset policy loc fs with
  | Err e => Some (Err e)
  | Ok _ => match m with None => None | Some r => Some (map_err app_from_repair r) end
  end.

Definition app_diagnose loc pol policy fs := guarded policy loc fs (Some (diagnose_location loc pol fs)).
Definition app_plan loc pol target policy fs := guarded policy loc fs (generate_plan_for_location loc pol target fs).
Definition app_check loc pol policy fs := guarded policy loc fs (evaluate_check_for_location loc pol fs).

(** [ExecutionManifest::read_json]. *)
Context (read_manifest : string -> FS -> Result RepairError ExecutionManifest).

Record VerifyRequest := {
  vq_before : DatasetLocation;
  vq_after_local_path : string;
  vq_manifest_path : option string;
  vq_policy : EffectivePolicy;
}.

Definition app_verify (req : VerifyRequest) (policy : StoragePolicy) (fs : FS)
    : Result ApplicationError VerificationReport :=
  _ ← validate_dataset policy (vq_before req) fs;
  before_scan ← map_err app_from_repair (backend_scan (vq_before req) fs);
  after_scan ← map_err app_from_repair (scan_directory (vq_after_local_path req) fs);
  manifest ← match vq_manifest_path req with
             | Some p => m ← map_err app_from_repair (read_manifest p fs); Ok (Some m)
             | None => Ok None
             end;
  map_err app_from_repair
    (@verify_repair _ _ (files_of fs) u1 u2 before_scan after_scan (location_root (vq_before req))
       (vq_after_local_path req) (policy_repair (vq_policy req)) manifest).
End UseCases.

(** What the server's location policy admits and refuses, and what that means
    for a repair. *)

Section LocalPolicy.
Context {FS : Type} `{ServerFs FS}.

(** A restricted policy admits a local path exactly when the path exists
    and its canonical form lies, component by component, below the canonical form
    of a configured root. *)
Theorem local_path_admitted_iff pol p fs :
  allow_unrestricted_local pol = false ->
  validate_local_path pol p fs = Ok tt <->
  exists abs root, canonicalize_utf8 p fs = Ok abs /\ root ∈ allowed_local_roots pol /\
    path_starts_with abs (match canonicalize_utf8 root fs with Ok r => r | Err _ => root end) = true.
Proof.
  intros Hr. unfold validate_local_path. rewrite Hr. case_decide as Hn.
  { rewrite Hn. split; [done|]. intros (? & ? & _ & Hin & _). by apply elem_of_nil in Hin. }
  destruct (canonicalize_utf8 p fs) as [abs|e]; cbn; [|by split; [|intros (? & ? & ? & _)]].
  destruct (existsb _ _) eqn:E.
  - split; [intros _|done]. apply existsb_exists in E as (root & Hin & Hs).
    exists abs, root. split; [done|]. split; [by apply list_elem_of_In|done].
  - split; [done|]. intros (? & root & [= <-] & Hin & Hs). apply not_true_iff_false in E. destruct E.
    apply existsb_exists. exists root. split; [by apply list_elem_of_In|done].
Qed.

Lemma restricted_local_exists pol p fs :
  allow_unrestricted_local pol = false -> validate_local_path pol p fs = Ok tt -> path_exists p fs = true.
Proof.
  intros Hr. unfold validate_local_path. rewrite Hr. case_decide; [done|].
  destruct (canonicalize_utf8 p fs) eqn:E; [|done]. intros _. by eapply canonicalize_exists.
Qed.
End LocalPolicy.

(** An S3 location is admitted exactly when its bucket is listed (or no
    bucket is) and one of the entries allows it (or there is none); with neither
    list every S3 location is admitted. *)
Theorem s3_admitted_iff pol loc :
  validate_s3 pol loc = Ok tt <->
  (allowed_s3_buckets pol = [] \/ bucket loc ∈ allowed_s3_buckets pol) /\
  (allowed_s3_prefixes pol = [] \/ exists entry, entry ∈ allowed_s3_prefixes pol /\ s3_entry_allows loc entry = true).
Proof.
  unfold validate_s3.
  assert (Hb : existsb (fun b => bool_decide (b = bucket loc)) (allowed_s3_buckets pol) = true <->
               bucket loc ∈ allowed_s3_buckets pol).
  { rewrite existsb_exists. setoid_rewrite bool_decide_eq_true. rewrite list_elem_of_In. naive_solver. }
  assert (Hp : existsb (s3_entry_allows loc) (allowed_s3_prefixes pol) = true <->
               exists entry, entry ∈ allowed_s3_prefixes pol /\ s3_entry_allows loc entry = true).
  { rewrite existsb_exists. by setoid_rewrite list_elem_of_In. }
  rewrite <- Hb, <- Hp. clear. destruct (existsb _ (allowed_s3_buckets pol)), (existsb _ (allowed_s3_prefixes pol));
    repeat case_bool_decide; repeat case_decide; cbn; naive_solver.
Qed.

Lemma trim_end_app_slash s : trim_end_slash (s +:+ "/") = trim_end_slash s.
Proof.
  unfold trim_end_slash. induction s as [|c s IH]; [done|]. sapp. cbn [trim_end]. by rewrite IH.
Qed.

Lemma split_once_first c a b : has_char c a = false -> split_once c (a +:+ String c b) = Some (a, b).
Proof.
  induction a as [|d a IH]; sapp; cbn [split_once has_char].
  - by rewrite bool_decide_eq_true_2.
  - intros [Hd Ha]%orb_false_iff. rewrite Hd, IH; done.
Qed.

(** An allow-list entry [bucket/prefix/] also admits the siblings of the
    prefix: its final slash is dropped and the rest compared as text, so every
    [prefix + anything] of the bucket is inside the policy. *)
Theorem s3_entry_admits_siblings b pre suffix :
  has_char "/" b = false -> trim_end_slash pre = pre ->
  validate_s3 {| allow_unrestricted_local := false; allowed_local_roots := []; allowed_s3_buckets := [b];
                 allowed_s3_prefixes := [b +:+ "/" +:+ pre +:+ "/"] |}
    {| bucket := b; prefix := pre +:+ suffix |} = Ok tt.
Proof.
  intros Hb Hpre. apply s3_admitted_iff. cbn. split; [right; left|]. right.
  exists (b +:+ "/" +:+ pre +:+ "/"). split; [left|]. unfold s3_entry_allows. sapp.
  rewrite split_once_first by done. cbn [bucket prefix]. rewrite bool_decide_eq_true_2 by done. cbn [andb].
  rewrite trim_end_app_slash, Hpre, starts_with_app. apply orb_true_r.
Qed.

Section Repair.
Context {FS : Type} `{RepairFs FS} `{!ServerFs FS} `{RunFs FS} `{Digests} `{Serde}.
Context `{Json WriterLockRecord, Json PublicationStateRecord, Json PublicationManifest,
          Json CommitMarker, Json CurrentPointer, Json ExecutionManifest}.
Context (now : nat -> Z) (uuid : string) (u1 u2 : nat -> string) (version : string).
Context (temp_dir : Result RepairError string).
Context (remote_seed : S3Location -> string -> FsM FS working_set).
Context `{UrlParser}.
Context (remote_scan : S3Location -> FS -> Result RepairError ScanReport).

(** A request whose source or output is outside the policy is refused before
    any scan, storage call or file operation. *)
Theorem repair_outside_policy_refused req pol run_id fs e :
  validate_dataset pol (rq_source req) fs = Err e \/
  validate_dataset pol (rq_source req) fs = Ok tt /\ validate_dataset pol (rq_output req) fs = Err e ->
  repair now uuid u1 u2 version temp_dir remote_seed remote_scan req pol run_id fs = Ret (Some (Err e, fs)).
Proof. unfold repair. intros [->|[-> ->]]; done. Qed.

Lemma execute_output_exists self plan output scan fs :
  path_exists output fs = true ->
  exists e, execute now uuid u1 u2 version self plan output scan fs = Some (Err e, fs).
Proof.
  intros Hx. unfold execute, execute_prepare, fs_bind, fs_pure, fs_ask.
  destruct (plan_validate_version plan); [|by eexists]. rewrite Hx. by eexists.
Qed.

Lemma execute_storage_output_exists self plan l scan run_id fs :
  path_exists (path l) fs = true ->
  exists e, execute_storage now uuid u1 u2 version temp_dir remote_seed self plan (Local l) scan run_id fs =
    Ret (Some (Err e, fs)).
Proof.
  intros Hx. unfold execute_storage. destruct (plan_validate_version plan); [|by eexists].
  destruct (map_err storage_err _); [|by eexists]. cbn. rewrite Hx. cbn. by eexists.
Qed.

(** Under a restricted policy no repair to a local output can succeed: the
    policy admits only outputs that exist, and the executor refuses those.  The
    request fails before any file is written. *)
Theorem restricted_local_output_never_repaired req pol run_id fs l :
  allow_unrestricted_local pol = false -> rq_output req = Local l ->
  exists e, repair now uuid u1 u2 version temp_dir remote_seed remote_scan req pol run_id fs =
    Ret (Some (Err e, fs)).
Proof.
  intros Hr Ho. unfold repair. rewrite Ho. destruct (validate_dataset pol (rq_source req) fs); [|by eexists].
  destruct (validate_dataset pol (Local l) fs) as [[]|e] eqn:E; [|by eexists].
  apply restricted_local_exists in E; [|done]. destruct (backend_scan _ _ fs); [|by eexists].
  case_match.
  - edestruct execute_storage_output_exists as [e ->]; [done|]. by eexists.
  - edestruct execute_output_exists as [e ->]; [done|]. by eexists.
Qed.
End Repair.
