(* ===== verification/Server.v ===== *)
(** The HTTP service of src/crates/paraclete-service/src: API errors (error.rs),
    the router's protected and public routes (http/mod.rs), bearer authentication
    and roles (http/auth.rs), and the list queries of api_types.rs.

    axum's router is a parameter ([AxumRouter]): which of the registered patterns it
    picks for a path, and which of the methods registered there for a request's. *)

From Stdlib Require Import Ascii.
From S2P Require Import Prelude Location Errors RepairPlan Journal JobStore AuthStore Execute Application.
From S2P Require Import JobStoreProofs.

(** * Errors (error.rs) *)

Inductive ErrorCode :=
| EInvalidRequest | EInvalidJsonRequest | ERunNotFound | EJobNotFound | ETokenNotFound | ETargetNotFound
| EScanFailed | EStoreError | EInternalError | EUnauthorized | EForbidden | ELocationNotAllowed.

Inductive AppError :=
| HInvalidRequest (m : string)
| HInvalidJsonRequest (status : Z) (m : string)
| HRunNotFound
| HJobNotFound
| HTokenNotFound
| HTargetNotFound (m : string)
| HScanFailed (m : string)
| HStore (m : string)
| HInternal (m : string)
| HUnauthorized (m : string)
| HForbidden (m : string)
| HLocationNotAllowed (m : string).

Definition app_error_display (e : AppError) : string :=
  match e with
  | HInvalidRequest m | HInvalidJsonRequest _ m | HUnauthorized m | HForbidden m => m
  | HRunNotFound => "run not found"
  | HJobNotFound => "job not found"
  | HTokenNotFound => "token not found"
  | HTargetNotFound _ => "target not found"
  | HScanFailed m => "scan failed: " +:+ m
  | HStore m => "store error: " +:+ m
  | HInternal m => "internal error: " +:+ m
  | HLocationNotAllowed m => "location not allowed: " +:+ m
  end.

Definition app_error_code (e : AppError) : ErrorCode :=
  match e with
  | HInvalidRequest _ => EInvalidRequest
  | HInvalidJsonRequest _ _ => EInvalidJsonRequest
  | HRunNotFound => ERunNotFound
  | HJobNotFound => EJobNotFound
  | HTokenNotFound => ETokenNotFound
  | HTargetNotFound _ => ETargetNotFound
  | HScanFailed _ => EScanFailed
  | HStore _ => EStoreError
  | HInternal _ => EInternalError
  | HUnauthorized _ => EUnauthorized
  | HForbidden _ => EForbidden
  | HLocationNotAllowed _ => ELocationNotAllowed
  end.

Definition app_error_status (e : AppError) : Z :=
  match e with
  | HInvalidRequest _ => 400
  | HInvalidJsonRequest status _ => status
  | HRunNotFound | HJobNotFound | HTokenNotFound | HTargetNotFound _ => 404
  | HScanFailed _ => 422
  | HStore _ | HInternal _ => 500
  | HUnauthorized _ => 401
  | HForbidden _ | HLocationNotAllowed _ => 403
  end.

Definition app_error_from_store (e : StoreError) : AppError :=
  match e with
  | RunNotFound _ => HRunNotFound
  | JobNotFound _ => HJobNotFound
  | AuthTokenNotFound _ => HTokenNotFound
  | ReportValidation msg =>
      if contains "already terminal" msg || contains "already canceled" msg then HInvalidRequest msg
      else HStore (StoreError_to_string e)
  | other => HStore (StoreError_to_string other)
  end.

Definition app_error_from_core (e : CoreError) : AppError :=
  match e with
  | MissingPath _ => HTargetNotFound (core_error_display e)
  | Unsupported _ | NonUtf8Path _ => HInvalidRequest (core_error_display e)
  | CoreReportValidation msg => HInvalidRequest msg
  | _ => HScanFailed (core_error_display e)
  end.

Definition app_error_from_application (e : ApplicationError) : AppError :=
  match e with
  | AInvalidRequest m | AConflict m | ABlockedRepair m | AStaleSource m => HInvalidRequest m
  | ALocationNotAllowed m => HLocationNotAllowed m
  | ATargetNotFound m => HTargetNotFound m
  | AScanFailed m | ARepairFailed m | ABatchFailed m => HScanFailed m
  | AReviewRequired => HInvalidRequest "review authorization required"
  | AInternal m => HInternal m
  end.

(** * Routes (http/mod.rs) *)

Inductive Method := GET | POST | HEAD | OtherMethod.

#[global] Instance Method_eq_dec : EqDecision Method.
Proof. solve_decision. Defined.

Inductive Handler :=
| h_openapi_json | h_post_async_scan | h_post_scan_sync | h_get_job | h_list_jobs | h_get_run | h_get_report
| h_get_assets | h_get_findings | h_list_target_runs | h_get_diff | h_whoami | h_get_admin_tokens
| h_post_admin_tokens | h_get_admin_token | h_post_admin_token_rotate | h_post_admin_token_disable
| h_post_diagnose | h_post_plan | h_post_check | h_post_repair_job | h_post_verify | h_post_batch_check
| h_post_batch_plan | h_post_batch_repair_job | h_get_batch_status | h_post_batch_resume | h_post_batch_verify
| h_post_job_cancel | h_prometheus_metrics | h_health | h_health_live | h_health_ready.

#[global] Instance Handler_eq_dec : EqDecision Handler.
Proof. solve_decision. Defined.

Definition protected_routes : list (string * Method * Handler) := [
  ("/openapi.json", GET, h_openapi_json);
  ("/scans", POST, h_post_async_scan);
  ("/scans/sync", POST, h_post_scan_sync);
  ("/jobs/scans", POST, h_post_async_scan);
  ("/jobs/{job_id}", GET, h_get_job);
  ("/jobs", GET, h_list_jobs);
  ("/runs/{run_id}", GET, h_get_run);
  ("/runs/{run_id}/report", GET, h_get_report);
  ("/runs/{run_id}/assets", GET, h_get_assets);
  ("/runs/{run_id}/findings", GET, h_get_findings);
  ("/targets/{target_kind}/runs", GET, h_list_target_runs);
  ("/diff", GET, h_get_diff);
  ("/whoami", GET, h_whoami);
  ("/admin/tokens", GET, h_get_admin_tokens);
  ("/admin/tokens", POST, h_post_admin_tokens);
  ("/admin/tokens/{token_id}", GET, h_get_admin_token);
  ("/admin/tokens/{token_id}/rotate", POST, h_post_admin_token_rotate);
  ("/admin/tokens/{token_id}/disable", POST, h_post_admin_token_disable);
  ("/diagnose", POST, h_post_diagnose);
  ("/plans", POST, h_post_plan);
  ("/checks", POST, h_post_check);
  ("/repairs", POST, h_post_repair_job);
  ("/verifications", POST, h_post_verify);
  ("/batches/check", POST, h_post_batch_check);
  ("/batches/plans", POST, h_post_batch_plan);
  ("/batches/repairs", POST, h_post_batch_repair_job);
  ("/batches/{run_dir}", GET, h_get_batch_status);
  ("/batches/{run_dir}/resume", POST, h_post_batch_resume);
  ("/batches/{run_dir}/verify", POST, h_post_batch_verify);
  ("/jobs/{job_id}/cancel", POST, h_post_job_cancel);
  ("/metrics", GET, h_prometheus_metrics)
].

Definition public_routes : list (string * Method * Handler) := [
  ("/metrics", GET, h_prometheus_metrics);
  ("/api/v1/health", GET, h_health);
  ("/api/v1/health/live", GET, h_health_live);
  ("/api/v1/health/ready", GET, h_health_ready)
].

(** A route's segments: literal, or a parameter. *)
Definition is_param (seg : string) : bool := starts_with "{" seg.

Fixpoint segments_match (route path : list string) : bool :=
  match route, path with
  | [], [] => true
  | r :: rs, p :: ps =>
      (if is_param r then negb (bool_decide (p = EmptyString)) else bool_decide (r = p)) && segments_match rs ps
  | _, _ => false
  end.

Definition path_matches (route path : string) : bool :=
  segments_match (split_char "/" route) (split_char "/" path).

(** Whether a route's method router answers a method: [get] also answers [HEAD]. *)
Definition method_matches (route m : Method) : bool :=
  bool_decide (route = m) || (bool_decide (route = GET) && bool_decide (m = HEAD)).

Definition has_parameter (route : string) : bool := existsb is_param (split_char "/" route).

(** axum's router: a path is matched by its segments ([{x}] matches any non-empty
    one), static patterns before ones with parameters; the pattern is chosen by the
    path alone, and the method then among those registered for it. *)
Class AxumRouter := {
  match_path : list string -> string -> option string;
  match_method : list Method -> Method -> option Method;
  match_path_sound : forall routes path r, match_path routes path = Some r -> r ∈ routes /\ path_matches r path = true;
  match_path_complete : forall routes path r, r ∈ routes -> path_matches r path = true -> is_Some (match_path routes path);
  match_path_static : forall routes path, path ∈ routes -> has_parameter path = false -> match_path routes path = Some path;
  match_method_sound : forall ms m r, match_method ms m = Some r -> r ∈ ms /\ method_matches r m = true;
  match_method_complete : forall ms m r, r ∈ ms -> method_matches r m = true -> is_Some (match_method ms m);
}.

Section Routing.
Context `{AxumRouter}.

Definition patterns (routes : list (string * Method * Handler)) : list string := map (fun r => fst (fst r)) routes.

(** The method router of a pattern: [get(..).post(..)]. *)
Definition methods_of (routes : list (string * Method * Handler)) (pattern : string) : list Method :=
  map (fun r => snd (fst r)) (filter (fun r => fst (fst r) = pattern) routes).

Definition find_route (routes : list (string * Method * Handler)) (path : string) (m : Method) : option Handler :=
  pattern ← match_path (patterns routes) path;
  m' ← match_method (methods_of routes pattern) m;
  r ← list_find (fun r => fst r = (pattern, m')) routes;
  Some (snd (snd r)).
End Routing.

(** * Authentication (http/auth.rs) *)

(** A request to a protected route: the path below [/api/v1], the method and the
    [Authorization] header when it is visible ASCII. *)
Record Request := { req_path : string; req_method : Method; authorization_header : option string }.

Definition parse_bearer (header : option string) : option string :=
  h ← header;
  rest ← match strip_prefix "Bearer " h with Some r => Some r | None => strip_prefix "bearer " h end;
  let t := trim rest in
  if decide (t = EmptyString) then None else Some t.

Definition required_role (path : string) (m : Method) : AuthRole :=
  if starts_with "/admin/tokens" path then Admin
  else if decide (m = POST) then Operator
  else Reader.

Definition dquote : string := String (Ascii.ascii_of_N 34) EmptyString.

(** The middleware's own responses. *)
Record ErrorResponse := { rsp_status : Z; rsp_code : ErrorCode; rsp_message : string; www_authenticate : option string }.

Definition unauthorized_response (m : string) : ErrorResponse := {|
  rsp_status := 401; rsp_code := EUnauthorized; rsp_message := m;
  www_authenticate := Some ("Bearer realm=" +:+ dquote +:+ "paraclete" +:+ dquote) |}.
Definition forbidden_response (m : string) : ErrorResponse := {|
  rsp_status := 403; rsp_code := EForbidden; rsp_message := m; www_authenticate := None |}.
Definition internal_error_response : ErrorResponse := {|
  rsp_status := 500; rsp_code := EInternalError; rsp_message := "internal error"; www_authenticate := None |}.

(** The outcome of the middleware: an error response, or the principal for the
    inner handler. *)
Section Middleware.
Context `{Digests} `{Rfc3339} `{Uuids}.

(** [db] is what the database fails of the verification. *)
Definition auth_middleware (db : VerifyFaults) (now : Z) (req : Request) (t : auth_table)
    : Result ErrorResponse AuthPrincipal * auth_table :=
  match parse_bearer (authorization_header req) with
  | None => (Err (unauthorized_response "missing or invalid Authorization header"), t)
  | Some token =>
      match verify_bearer_token db now token t with
      | (Ok (Some principal), t') =>
          (if satisfies (pr_role principal) (required_role (req_path req) (req_method req)) then Ok principal
           else Err (forbidden_response "insufficient role for this operation"), t')
      | (Ok None, t') => (Err (unauthorized_response "invalid or disabled bearer token"), t')
      | (Err _, t') => (Err internal_error_response, t')
      end
  end.

(** What becomes of a request to the protected router. *)
Inductive Served :=
| NotFound
| Refused (e : ErrorResponse)
| MethodNotAllowed
| Reached (h : Handler) (p : AuthPrincipal).

(** The middleware is a layer of the routes: it runs once a pattern matches the path
    and before the method is looked at. *)
Definition serve_protected `{AxumRouter} (db : VerifyFaults) (now : Z) (req : Request) (t : auth_table) : Served * auth_table :=
  match match_path (patterns protected_routes) (req_path req) with
  | None => (NotFound, t)
  | Some _ =>
      match auth_middleware db now req t with
      | (Err e, t') => (Refused e, t')
      | (Ok p, t') =>
          (match find_route protected_routes (req_path req) (req_method req) with
           | Some h => Reached h p
           | None => MethodNotAllowed
           end, t')
      end
  end.
End Middleware.

(** * Paging (api_types.rs) *)

Definition MAX_PAGE_SIZE : Z := 500.
Definition DEFAULT_PAGE_SIZE : Z := 50.

Definition clamp (lo hi z : Z) : Z := Z.max lo (Z.min hi z).

Record PageQuery := { pq_limit : Z; pq_offset : Z }.

Definition clamped (q : PageQuery) : Z * Z := (clamp 1 MAX_PAGE_SIZE (pq_limit q), pq_offset q).

(** The protected API: every route's role, and which requests reach a handler. *)

(** The roles the API promises: token administration for administrators,
    submissions and cancellations for operators, reading for readers. *)
Definition handler_role (h : Handler) : AuthRole :=
  match h with
  | h_get_admin_tokens | h_post_admin_tokens | h_get_admin_token | h_post_admin_token_rotate
  | h_post_admin_token_disable => Admin
  | h_post_async_scan | h_post_scan_sync | h_post_diagnose | h_post_plan | h_post_check | h_post_repair_job
  | h_post_verify | h_post_batch_check | h_post_batch_plan | h_post_batch_repair_job | h_post_batch_resume
  | h_post_batch_verify | h_post_job_cancel => Operator
  | _ => Reader
  end.

Lemma segments_of path l : split_char "/" path = l -> path = join_strings "/" l.
Proof. intros <-. symmetry. apply join_split. Qed.

(** What the role of a route depends on: its leading literal segments and its
    method. *)
Definition route_ok (r : string * Method * Handler) : bool :=
  let '(route, m, h) := r in
  (bool_decide (m = GET) || bool_decide (m = POST)) &&
  match split_char "/" route with
  | EmptyString :: first :: rest =>
      if decide (first = "admin") then
        match rest with second :: _ => bool_decide (second = "tokens" /\ handler_role h = Admin) | [] => false end
      else match first with
           | String c _ =>
               negb (bool_decide (c = "a"%char)) && negb (bool_decide (c = "{"%char)) &&
               bool_decide (handler_role h = if decide (m = POST) then Operator else Reader)
           | EmptyString => false
           end
  | _ => false
  end.

Lemma protected_routes_ok : forallb route_ok protected_routes = true.
Proof. vm_compute. reflexivity. Qed.

Lemma segments_match_literal r rs path :
  is_param r = false -> segments_match (r :: rs) path = true ->
  exists ps, path = r :: ps /\ segments_match rs ps = true.
Proof.
  intros Hr. destruct path as [|p ps]; [done|]. cbn [segments_match]. rewrite Hr.
  intros [<-%bool_decide_eq_true Hs]%andb_prop. by exists ps.
Qed.

Lemma starts_with_slash_join p q l :
  starts_with (String "/" p) (join_strings "/" (EmptyString :: q :: l)) = starts_with p (join_strings "/" (q :: l)).
Proof. done. Qed.

Lemma method_post m m' : m = GET \/ m = POST -> method_matches m m' = true -> m' = POST <-> m = POST.
Proof. unfold method_matches. intros [->| ->]; destruct m'; cbn; naive_solver. Qed.

(** What a matching route says of the path's text. *)
Lemma matching_route_role route m h path m' :
  (route, m, h) ∈ protected_routes -> path_matches route path = true -> method_matches m m' = true ->
  required_role path m' = handler_role h.
Proof.
  intros Hin Hp Hm. assert (Hok := protected_routes_ok). rewrite forallb_forall in Hok.
  apply list_elem_of_In, Hok in Hin. clear Hok. unfold path_matches in Hp. unfold route_ok in Hin.
  apply andb_prop in Hin as [Hgp Hin]. rewrite orb_true_iff, !bool_decide_eq_true in Hgp.
  assert (Hpost := method_post m m' Hgp Hm).
  destruct (split_char "/" route) as [|[|] [|first rest]]; try done.
  apply segments_match_literal in Hp as (ps & Hpath & Hp); [|done].
  unfold required_role. rewrite (segments_of path _ Hpath). case_decide as Hadm.
  - subst first. apply segments_match_literal in Hp as (ps' & -> & Hp); [|done].
    destruct rest as [|second rest]; [done|]. apply bool_decide_eq_true in Hin as [-> ->].
    apply segments_match_literal in Hp as (ps'' & -> & _); [|done].
    replace (starts_with _ _) with true; [done|]. symmetry. apply starts_with_spec.
    destruct ps''; [by exists EmptyString|]. eexists. exact eq_refl.
  - destruct first as [|c first]; [done|]. apply andb_prop in Hin as [Hin Hrole]. apply andb_prop in Hin as [Ha Hb].
    apply bool_decide_eq_true in Hrole. rewrite negb_true_iff, bool_decide_eq_false in Ha, Hb.
    apply segments_match_literal in Hp as (ps' & -> & _).
    2:{ unfold is_param, starts_with. cbn [String.prefix]. destruct (ascii_dec "{" c); congruence. }
    rewrite starts_with_slash_join, Hrole.
    assert (starts_with "admin/tokens" (join_strings "/" (String c first :: ps')) = false) as ->.
    { unfold starts_with. destruct ps'; cbn [join_strings]; sapp; cbn [String.prefix];
        destruct (ascii_dec "a" c); congruence. }
    repeat case_decide; naive_solver.
Qed.

Section Routed.
Context `{AxumRouter}.

Lemma find_route_elem routes path m h :
  find_route routes path m = Some h ->
  exists route m', (route, m', h) ∈ routes /\ path_matches route path = true /\ method_matches m' m = true.
Proof.
  unfold find_route. intros (route & Hp & (m' & Hm & ([i r] & Hr & [= <-])%bind_Some)%bind_Some)%bind_Some.
  apply match_path_sound in Hp as [_ Hp]. apply match_method_sound in Hm as [_ Hm]. apply list_find_Some in Hr as (Hr & He & _).
  exists route, m'. split; [|done]. apply list_elem_of_lookup_2 in Hr. destruct r as [k h']. cbn in *. by subst k.
Qed.

Lemma find_route_matched routes path m h : find_route routes path m = Some h -> is_Some (match_path (patterns routes) path).
Proof. unfold find_route. intros (route & Hp & _)%bind_Some. by exists route. Qed.

Lemma route_role path m h :
  find_route protected_routes path m = Some h -> required_role path m = handler_role h.
Proof. intros (route & m' & Hin & Hp & Hm)%find_route_elem. by eapply matching_route_role. Qed.

(** The role check of the middleware, which reads the request's path as text,
    agrees with the router: whatever path and method reach a protected handler
    (parameters filled in any way), the role demanded is the handler's. *)
Theorem required_role_of_route path m h :
  find_route protected_routes path m = Some h -> required_role path m = handler_role h.
Proof. apply route_role. Qed.

(** A path that is a pattern itself is not taken for the parameter of another one:
    [GET /jobs/scans] has no handler although [GET /jobs/{job_id}] is a route. *)
Lemma static_post_only path : path ∈ patterns protected_routes -> has_parameter path = false ->
  methods_of protected_routes path = [POST] -> find_route protected_routes path GET = None.
Proof.
  intros Hin Hp Hm. unfold find_route. rewrite match_path_static by done. cbn [mbind option_bind]. rewrite Hm.
  destruct (match_method _ GET) as [m'|] eqn:E; [|done]. apply match_method_sound in E as [->%list_elem_of_singleton Hg]. done.
Qed.

Theorem static_route_shadows : Forall (fun path => find_route protected_routes path GET = None)
  ["/jobs/scans"; "/batches/check"; "/batches/plans"; "/batches/repairs"].
Proof.
  repeat (apply Forall_cons; split; [apply static_post_only; [apply (bool_decide_unpack _); vm_compute; exact I|reflexivity|reflexivity]|]).
  constructor.
Qed.
End Routed.

Section Requests.
Context `{Digests} `{Rfc3339} `{Uuids} `{AxumRouter}.

(** The caller a token history gives a request, if any. *)
Definition caller (ops : list token_op) (req : Request) (p : AuthPrincipal) : Prop :=
  exists token r role,
    parse_bearer (authorization_header req) = Some token /\ r ∈ token_history ops /\
    tk_token_hash r = hash_bearer_token token /\ enabled r = true /\ tk_role r = auth_role_db role /\
    p = principal_of r role.

(** The database answers both statements of a verification. *)
Definition answered (db : VerifyFaults) : Prop := select_fault db = None /\ touch_fault db = None.

Lemma middleware_Ok db now req ops p :
  Forall op_ids_ok ops ->
  fst (auth_middleware db now req (token_history ops)) = Ok p <->
  answered db /\ caller ops req p /\ satisfies (pr_role p) (required_role (req_path req) (req_method req)) = true.
Proof.
  intros Hops. unfold auth_middleware, caller, answered. destruct (parse_bearer _) as [token|]; cbn.
  2:{ split; [done|]. by intros (_ & (? & ? & ? & ? & _) & _). }
  unfold verify_bearer_token. destruct (select_fault db) as [e|]; [split; [done|naive_solver]|].
  destruct (verify_select token (token_history ops)) as [[q|]|e] eqn:E; cbn.
  - destruct (touch_fault db) as [e|]; cbn; [split; [done|naive_solver]|].
    apply verify_select_iff in E as [(r & role & Hr & Hh & He & Hrole & [= ->])|[_ ?]]; [|done|done].
    split.
    + destruct (satisfies _ _) eqn:Hs; [|done]. intros [= <-]. split; [done|]. split; [by exists token, r, role|done].
    + intros (_ & (? & r' & role' & [= <-] & Hr' & Hh' & He' & Hrole' & ->) & Hs).
      assert (r' = r) as -> by (eapply token_by_hash; eauto using token_history_wf; congruence).
      assert (role' = role) as -> by (destruct role, role'; cbn in *; congruence).
      cbn in *. by rewrite Hs.
  - apply verify_select_iff in E as [(? & ? & ? & ? & ? & ? & ?)|[Hn _]]; [done| |done]. split; [done|].
    intros (_ & (? & r & ? & [= <-] & Hr & Hh & He & _) & _). by rewrite (Hn r Hr Hh) in He.
  - apply verify_select_iff in E as [(? & ? & ? & ? & ? & ? & ?)|[_ ?]]; done.
Qed.

(** C37: A request to the API reaches a handler exactly when axum's router finds it for
    the path and the method, the database answers the verification, and the request
    carries the secret of an enabled token whose role satisfies the handler's; the
    handler then sees that token's id, label and role. *)
Theorem protected_request_iff db now req ops h p :
  Forall op_ids_ok ops ->
  fst (serve_protected db now req (token_history ops)) = Reached h p <->
  find_route protected_routes (req_path req) (req_method req) = Some h /\ answered db /\ caller ops req p /\
  satisfies (pr_role p) (handler_role h) = true.
Proof.
  intros Hops. unfold serve_protected. destruct (find_route _ _ _) as [h'|] eqn:Ef.
  - destruct (find_route_matched _ _ _ _ Ef) as [route ->].
    assert (Hm := middleware_Ok db now req ops p Hops). rewrite (route_role _ _ _ Ef) in Hm.
    destruct (auth_middleware db now req (token_history ops)) as [[q|e] t']; cbn in *.
    + split.
      * intros [= -> ->]. split; [done|]. by apply Hm.
      * intros ([= ->] & Hc). assert (Ok (E := ErrorResponse) q = Ok p) as [= ->] by (by apply Hm). done.
    + split; [done|]. intros ([= ->] & Hc). assert (Err e = Ok p) by (by apply Hm). done.
  - destruct (match_path _ _); [|naive_solver]. destruct (auth_middleware _ _ _ _) as [[q|e] t']; naive_solver.
Qed.
End Requests.
