(* ===== verification/Service.v ===== *)
(** Jobs as the service presents and runs them: the views of service.rs
    ([scan_job_row_to_view], [list_scan_jobs], [cancel_job]) and the worker of
    worker.rs ([run_claimed_job], the heartbeat, [fail_job]), in
    src/crates/paraclete-service/src.

    The worker's store calls interleave with the statements of other workers and
    handlers, and may fail: [store_call] runs the next interference of a script before
    each.  The application's work (a scan, a repair, a batch) is an argument: the
    events that happen while it runs and its outcome. *)

From Stdlib Require Import Ascii.
From stdpp Require Import sorting.
From S2P Require Import Prelude BTree Errors RepairPlan Journal JobStore AuthStore Application Server JobStoreProofs.

(** * Views (service.rs) *)

Inductive JobStatus := Queued | Running | Succeeded | Failed | Canceled.

#[global] Instance JobStatus_eq_dec : EqDecision JobStatus.
Proof. solve_decision. Defined.

Inductive JobErrorCode :=
| JInvalidRequest | JTargetNotFound | JScanFailed | JStoreError | JInternalError | JWorkerLost
| JJobRetriesExhausted.

Definition parse_job_status_label (s : string) : Result AppError JobStatus :=
  if decide (s = "queued") then Ok Queued
  else if decide (s = "running") then Ok Running
  else if decide (s = "succeeded") then Ok Succeeded
  else if decide (s = "failed") then Ok Failed
  else if decide (s = "canceled") then Ok Canceled
  else Err (HInternal ("unknown job status `" +:+ s +:+ "`")).

Definition parse_failure_code (s : string) : JobErrorCode :=
  if decide (s = "invalid_request") then JInvalidRequest
  else if decide (s = "target_not_found") then JTargetNotFound
  else if decide (s = "scan_failed") then JScanFailed
  else if decide (s = "store_error") then JStoreError
  else if decide (s = "internal_error") then JInternalError
  else if decide (s = "worker_lost") then JWorkerLost
  else if decide (s = "job_retries_exhausted") then JJobRetriesExhausted
  else JInternalError.

Definition normalize_job_status_filter (s : string) : Result AppError string :=
  let t := to_lowercase (trim s) in
  if decide (t ∈ ["queued"; "running"; "succeeded"; "failed"; "canceled"]) then Ok t
  else Err (HInvalidRequest ("unknown job status filter `" +:+ s +:+ "`")).

Record JobFailureBody := { jf_code : JobErrorCode; jf_message : string }.

Record ScanJobView := {
  v_job_id : string;
  v_job_kind : JobKind;
  v_status : JobStatus;
  v_submitted_at : Z;
  v_started_at : option Z;
  v_completed_at : option Z;
  v_target_kind : string;
  v_normalized_target_key : string;
  v_attempt_count : Z;
  v_worker_id : option string;
  v_heartbeat_at : option Z;
  v_leased_until : option Z;
  v_recovery_note : option string;
  v_run_id : option string;
  v_result_ref : option json;
  v_cancel_requested : bool;
  v_failure : option JobFailureBody;
  v_job_url : string;
}.

Record JobListQuery := { jq_status : option string; jq_limit : Z; jq_offset : Z }.

Record ScanJobListResponse := { items : list ScanJobView; total : nat; limit : Z; offset : Z }.

(** [Option::map(f).transpose()]. *)
Definition transpose {E A B} (f : A -> Result E B) (o : option A) : Result E (option B) :=
  match o with None => Ok None | Some a => b ← f a; Ok (Some b) end.

Section Views.
(** [serde_json::from_str] on a stored result reference. *)
Context `{Rfc3339} `{Uuids} `{ScanOrder} (json_from_str : string -> option json).

Definition parse_rfc3339 (s : string) : Result AppError Z :=
  match parse_from_rfc3339 s with Some t => Ok t | None => Err (HInternal "invalid timestamp in job row") end.

Definition failure_of (status : JobStatus) (row : ScanJobRow) : option JobFailureBody :=
  match status with
  | Failed => Some {| jf_code := match jr_failure_code row with Some c => parse_failure_code c | None => JInternalError end;
                      jf_message := default EmptyString (jr_failure_message row) |}
  | Canceled => Some {| jf_code := JInvalidRequest; jf_message := default "canceled" (jr_failure_message row) |}
  | _ => None
  end.

Definition scan_job_row_to_view (row : ScanJobRow) : Result AppError ScanJobView :=
  job_id ← ok_or (uuid_parse (jr_job_id row)) (HInternal "invalid job_id in store");
  status ← parse_job_status_label (jr_status row);
  submitted ← parse_rfc3339 (jr_submitted_at row);
  started ← transpose parse_rfc3339 (jr_started_at row);
  completed ← transpose parse_rfc3339 (jr_completed_at row);
  run ← transpose (fun s => ok_or (uuid_parse s) (HInternal "invalid run_id on job")) (jr_run_id row);
  kind ← ok_or (job_kind_parse (jr_job_kind row)) (HInternal ("unknown job_kind `" +:+ jr_job_kind row +:+ "`"));
  result ← transpose (fun s => ok_or (json_from_str s) (HInternal "invalid result_ref_json on job"))
             (jr_result_ref_json row);
  heartbeat ← transpose parse_rfc3339 (jr_heartbeat_at row);
  leased ← transpose parse_rfc3339 (jr_leased_until row);
  Ok {| v_job_id := job_id; v_job_kind := kind; v_status := status; v_submitted_at := submitted;
        v_started_at := started; v_completed_at := completed; v_target_kind := jr_target_kind row;
        v_normalized_target_key := jr_normalized_target_key row; v_attempt_count := jr_attempt_count row;
        v_worker_id := jr_worker_id row; v_heartbeat_at := heartbeat; v_leased_until := leased;
        v_recovery_note := jr_recovery_note row; v_run_id := run; v_result_ref := result;
        v_cancel_requested := negb (jr_cancel_requested row =? 0)%Z; v_failure := failure_of status row;
        v_job_url := "/api/v1/jobs/" +:+ job_id |}.

Definition get_scan_job_view (id : string) (s : job_store) : Result AppError ScanJobView :=
  row ← map_err app_error_from_store (get_scan_job id s);
  scan_job_row_to_view row.

Definition list_scan_jobs (q : JobListQuery) (s : job_store) : Result AppError ScanJobListResponse :=
  status_filter ← transpose normalize_job_status_filter (jq_status q);
  let lim := clamp 1 MAX_PAGE_SIZE (jq_limit q) in
  let rows := list_scan_jobs_page status_filter (Z.to_nat (jq_offset q)) (Z.to_nat lim) s in
  views ← try_map scan_job_row_to_view rows;
  Ok {| items := views; total := count_scan_jobs status_filter s; limit := lim; offset := jq_offset q |}.

Definition cancel_job (now : Z) (id : string) (s : job_store) : Result AppError (JobStatus * string) * job_store :=
  let '(r, s') := request_cancel_job now id s in
  (match r with
   | Err e => Err (app_error_from_store e)
   | Ok CanceledFromQueued => Ok (Canceled, "job canceled")
   | Ok AlreadyCanceled => Ok (Canceled, "job already canceled")
   | Ok CancelRequestedForRunning => Ok (Running, "cancel requested; worker will stop at next safe boundary")
   end, s').
End Views.

(** * The worker (worker.rs) *)

Definition app_error_to_job_failure_label (e : AppError) : string :=
  match e with
  | HInvalidRequest _ | HInvalidJsonRequest _ _ => "invalid_request"
  | HTargetNotFound _ => "target_not_found"
  | HRunNotFound => "store_error"
  | HScanFailed _ => "scan_failed"
  | HStore _ => "store_error"
  | HInternal _ | HJobNotFound | HTokenNotFound | HUnauthorized _ | HForbidden _ | HLocationNotAllowed _ =>
      "internal_error"
  end.

(** A panic's payload: text, or something else. *)
Definition panic_message (payload : option string) : string :=
  match payload with Some s => "worker panic: " +:+ s | None => "worker panic" end.

(** How a store call may fail: the driver's error comes before or after the
    statement took effect. *)
Inductive fault := NoFault | FailBefore | FailAfter.

Record world := { store : job_store; script : list (list job_op * fault) }.

Section Worker.
Context `{Rfc3339} `{Uuids} `{ScanOrder} (policy : JobRecoveryPolicy).

Definition store_call {A} (f : job_store -> Result StoreError A * job_store) (w : world) : Result StoreError A * world :=
  match script w with
  | [] => let '(r, s) := f (store w) in (r, {| store := s; script := [] |})
  | (ops, ft) :: rest =>
      let s := foldl (apply_op policy) (store w) ops in
      match ft with
      | NoFault => let '(r, s') := f s in (r, {| store := s'; script := rest |})
      | FailBefore => (Err (Sql "database error"), {| store := s; script := rest |})
      | FailAfter => (Err (Sql "database error"), {| store := snd (f s); script := rest |})
      end
  end.

(** ** The heartbeat *)

Inductive hb_pc := HbIdle | HbRenew | HbStopped.
Record heartbeat := { pc : hb_pc; cancel_flag : bool }.

(** One store call of the heartbeat loop: wake up, stop when cancelled, look for
    a cancel request; then renew the lease, and stop when it was lost. *)
Definition heartbeat_step (jid wid : string) (now : Z) (h : heartbeat) (s : job_store) : heartbeat * job_store :=
  match pc h with
  | HbStopped => (h, s)
  | HbIdle =>
      if cancel_flag h then ({| pc := HbStopped; cancel_flag := true |}, s)
      else ({| pc := HbRenew; cancel_flag := job_cancel_requested jid s |}, s)
  | HbRenew =>
      let '(renewed, s') := renew_scan_job_lease jid wid now (now + lease_duration_secs policy) s in
      ({| pc := if renewed then HbIdle else HbStopped; cancel_flag := cancel_flag h |}, s')
  end.

(** The same call when the store fails: [unwrap_or(false)] on the check, [break]
    on the renewal. *)
Definition heartbeat_error (h : heartbeat) : heartbeat :=
  match pc h with
  | HbStopped => h
  | HbIdle => if cancel_flag h then {| pc := HbStopped; cancel_flag := true |} else {| pc := HbRenew; cancel_flag := false |}
  | HbRenew => {| pc := HbStopped; cancel_flag := cancel_flag h |}
  end.

(** What happens while the application works on the job. *)
Inductive work_event := Beat (now : Z) | BeatError | Other (op : job_op).

Definition work_step (jid wid : string) (st : heartbeat * job_store) (e : work_event) : heartbeat * job_store :=
  match e with
  | Beat now => heartbeat_step jid wid now (fst st) (snd st)
  | BeatError => (heartbeat_error (fst st), snd st)
  | Other op => (fst st, apply_op policy (snd st) op)
  end.

Inductive work_outcome :=
| WDone (result_ref : string)
| WFail (e : AppError)
| WPanic (payload : option string).

Record work := { events : list work_event; outcome : work_outcome }.

Definition run_work (jid wid : string) (wk : work) (flag : bool) (w : world) : bool * world :=
  let '(h, s) := foldl (work_step jid wid) ({| pc := HbIdle; cancel_flag := flag |}, store w) (events wk) in
  (cancel_flag h, {| store := s; script := script w |}).

(** ** A claimed job *)

Inductive job_outcome := JOk | JErr (e : AppError) | JPanic (payload : option string).

Definition settled_by (r : Result StoreError unit * world) : job_outcome * world :=
  match r with
  | (Ok _, w) => (JOk, w)
  | (Err e, w) => (JErr (app_error_from_store e), w)
  end.

Definition cancel_running_job (now : Z) (jid : string) (w : world) : job_outcome * world :=
  settled_by (store_call (complete_application_job_canceled now jid) w).

Definition complete_with_result_ref (now : Z) (jid : string) (run : option string) (ref : string) (w : world)
    : job_outcome * world :=
  settled_by (store_call (complete_application_job_success now jid run (Some ref)) w).

(** [run_scan_job]; [parse_request] is [serde_json::from_str], the work's result is
    the id of the persisted run. *)
Definition run_scan_job (parse_request : string -> Result string unit) (now : Z) (jid wid request_json : string)
    (wk : work) (flag : bool) (w : world) : job_outcome * world :=
  match parse_request request_json with
  | Err e => (JErr (HInvalidRequest ("invalid scan job payload: " +:+ e)), w)
  | Ok _ =>
      let '(_, w) := run_work jid wid wk flag w in
      match outcome wk with
      | WPanic m => (JPanic m, w)
      | WFail e => (JErr e, w)
      | WDone run => settled_by (store_call (complete_scan_job_success now jid run) w)
      end
  end.

(** [run_repair_job], [run_batch_repair_job] and [run_batch_resume_job]. *)
Definition run_cancellable_job (now : Z) (jid wid : string) (wk : work) (cancel : bool) (w : world)
    : job_outcome * world :=
  if cancel then cancel_running_job now jid w
  else
    let '(flag, w) := run_work jid wid wk false w in
    match outcome wk with
    | WPanic m => (JPanic m, w)
    | WFail e => (JErr e, w)
    | WDone ref =>
        if flag then cancel_running_job now jid w
        else complete_with_result_ref now jid None ref w
    end.

Definition run_claimed_job (parse_request : string -> Result string unit) (now : Z) (jid wid : string) (kind : JobKind)
    (request_json : string) (wk : work) (w : world) : job_outcome * world :=
  match store_call (fun s => (Ok (job_cancel_requested jid s), s)) w with
  | (Err e, w) => (JErr (app_error_from_store e), w)
  | (Ok cancel, w) =>
      match kind with
      | KScan => run_scan_job parse_request now jid wid request_json wk cancel w
      | KRepair | KBatchRepair | KBatchResume => run_cancellable_job now jid wid wk cancel w
      end
  end.

Definition fail_job (now : Z) (jid : string) (e : AppError) (w : world) : world :=
  snd (store_call (complete_scan_job_failure now jid (app_error_to_job_failure_label e) (app_error_display e)) w).

(** The job, caught panics included. *)
Definition run_outcome (parse_request : string -> Result string unit) (now : Z) (jid wid : string) (kind : JobKind)
    (request_json : string) (wk : work) (w : world) : world :=
  match run_claimed_job parse_request now jid wid kind request_json wk w with
  | (JOk, w) => w
  | (JErr e, w) => fail_job now jid e w
  | (JPanic p, w) => snd (store_call (complete_scan_job_failure now jid "internal_error" (panic_message p)) w)
  end.

(** One iteration of the worker's loop (the gauges' counts apart). *)
Definition worker_iteration (parse_request : string -> Result string unit) (now : Z) (wid : string) (wk : work)
    (w : world) : world :=
  let '(_, w) := store_call (fun s => let '(st, s') := recover_stale_scan_jobs now policy s in (Ok st, s')) w in
  match store_call (fun s => let '(r, s') := claim_next_queued_scan_job now wid now (now + lease_duration_secs policy) s in
                       (Ok r, s')) w with
  | (Ok (Some job), w) =>
      match uuid_parse (jr_job_id job) with
      | Some jid => run_outcome parse_request now jid wid (default KScan (job_kind_parse (jr_job_kind job)))
                      (jr_request_json job) wk w
      | None => w
      end
  | (_, w) => w
  end.
End Worker.

(** Correctness of the worker and of the job views: a claimed job is settled,
    what a cancel request does to each kind of job, when the heartbeat stops, and
    that every row of the queue can be shown. *)

(** * The worker settles its job *)

Section WorkerProofs.
Context `{Rfc3339} `{Uuids} `{ScanOrder} (policy : JobRecoveryPolicy).

Definition not_running (id : string) (s : job_store) : Prop :=
  forall r, r ∈ jobs s -> jr_job_id r = id -> ~ is_running r.

Definition no_faults (w : world) : Prop := Forall (fun x => snd x = NoFault) (script w).

(** Without faults a call is the statement on some later store. *)
Lemma call_ok {A} (f : job_store -> Result StoreError A * job_store) w :
  no_faults w ->
  exists s, fst (store_call policy f w) = fst (f s) /\ store (snd (store_call policy f w)) = snd (f s) /\
    no_faults (snd (store_call policy f w)).
Proof.
  unfold no_faults, store_call. destruct w as [s [|[ops ft] rest]]; cbn [script store].
  - intros _. exists s. destruct (f s). by repeat split.
  - inversion 1; subst. cbn in *. subst ft. exists (foldl (apply_op policy) s ops).
    destruct (f (foldl _ s ops)). by repeat split.
Qed.

Lemma settle_not_running id refusal f s :
  (forall r, ~ is_running (f r)) -> not_running id (snd (settle id refusal f s)).
Proof.
  intros Hf r. rewrite settle_rows. intros (r0 & -> & _)%elem_map_inv Hid Hrun.
  destruct (running_job id r0) eqn:E; [by apply (Hf r0)|].
  assert (running_job id r0 = true) by (by apply running_job_true). congruence.
Qed.

Lemma failure_not_running now id code msg s : not_running id (snd (complete_scan_job_failure now id code msg s)).
Proof. by apply settle_not_running. Qed.

Lemma canceled_not_running now id s : not_running id (snd (complete_application_job_canceled now id s)).
Proof. by apply settle_not_running. Qed.

Lemma success_not_running now id run ref s :
  fst (complete_application_job_success now id run ref s) = Ok tt ->
  not_running id (snd (complete_application_job_success now id run ref s)).
Proof. unfold complete_application_job_success. case_match; [|done]. intros _. by apply settle_not_running. Qed.

(** A settling statement that reports success leaves the job settled. *)
Lemma settled_by_JOk (f : job_store -> Result StoreError unit * job_store) id w :
  no_faults w -> (forall s, fst (f s) = Ok tt -> not_running id (snd (f s))) ->
  let '(o, w') := settled_by (store_call policy f w) in
  no_faults w' /\ (o = JOk -> not_running id (store w')) /\ forall p, o <> JPanic p.
Proof.
  intros Hw Hf. destruct (call_ok f w Hw) as (s & Hr & Hs & Hw').
  destruct (store_call policy f w) as [[[]|e] w'] eqn:E; cbn in *; (split; [done|]); (split; [|done]); [|done].
  intros _. rewrite Hs. by apply Hf.
Qed.

Lemma run_work_faults jid wid wk flag w : no_faults w -> no_faults (snd (run_work policy jid wid wk flag w)).
Proof. unfold run_work, no_faults. by destruct (foldl _ _ _). Qed.

Lemma claimed_job_outcome parse now jid wid kind req wk w :
  no_faults w ->
  let '(o, w') := run_claimed_job policy parse now jid wid kind req wk w in
  no_faults w' /\ (o = JOk -> not_running jid (store w')).
Proof.
  intros Hw. unfold run_claimed_job.
  destruct (call_ok (fun s => (Ok (job_cancel_requested jid s), s)) w Hw) as (s & _ & _ & Hw1).
  destruct (store_call policy _ w) as [[cancel|e] w1]; cbn [snd] in Hw1; [|by split].
  assert (Hcancel : forall w2, no_faults w2 ->
    let '(o, w') := cancel_running_job policy now jid w2 in no_faults w' /\ (o = JOk -> not_running jid (store w'))).
  { intros w2 Hw2. unfold cancel_running_job.
    assert (Hs := settled_by_JOk (complete_application_job_canceled now jid) jid w2 Hw2
      (fun s _ => canceled_not_running now jid s)). destruct (settled_by _). naive_solver. }
  assert (Hsuccess : forall run ref w2, no_faults w2 ->
    let '(o, w') := settled_by (store_call policy (complete_application_job_success now jid run ref) w2) in
    no_faults w' /\ (o = JOk -> not_running jid (store w'))).
  { intros run ref w2 Hw2.
    assert (Hs := settled_by_JOk (complete_application_job_success now jid run ref) jid w2 Hw2
      (success_not_running now jid run ref)). destruct (settled_by _). naive_solver. }
  assert (Hcancellable : let '(o, w') := run_cancellable_job policy now jid wid wk cancel w1 in
    no_faults w' /\ (o = JOk -> not_running jid (store w'))).
  { unfold run_cancellable_job. destruct cancel; [by apply Hcancel|].
    assert (Hw2 := run_work_faults jid wid wk false w1 Hw1). destruct (run_work _ _ _ _ _ _) as [flag w2]. cbn in Hw2.
    destruct (outcome wk); [|done|done]. destruct flag; [by apply Hcancel|by apply Hsuccess]. }
  destruct kind; [|exact Hcancellable|exact Hcancellable|exact Hcancellable].
  unfold run_scan_job. destruct (parse req); [|done].
  assert (Hw2 := run_work_faults jid wid wk cancel w1 Hw1). destruct (run_work _ _ _ _ _ _) as [flag w2]. cbn in Hw2.
  destruct (outcome wk); [by apply Hsuccess|done|done].
Qed.

(** C36: A worker leaves no job behind: whatever other workers and handlers do in
    between, however the application's work ends (result, error or panic), and
    whether or not a cancel was requested, once [run_outcome] returns the job is
    not running, as long as the database answers. *)
Theorem worker_settles_job parse now jid wid kind req wk w :
  no_faults w -> not_running jid (store (run_outcome policy parse now jid wid kind req wk w)).
Proof.
  intros Hw. unfold run_outcome. assert (Ho := claimed_job_outcome parse now jid wid kind req wk w Hw).
  destruct (run_claimed_job _ _ _ _ _ _ _ _ _) as [[|e|p] w1]; destruct Ho as [Hw1 Hn]; [by apply Hn| |].
  - unfold fail_job. edestruct (call_ok (complete_scan_job_failure now jid (app_error_to_job_failure_label e)
      (app_error_display e)) w1 Hw1) as (s & _ & -> & _). apply failure_not_running.
  - edestruct (call_ok (complete_scan_job_failure now jid "internal_error" (panic_message p)) w1 Hw1) as (s & _ & -> & _).
    apply failure_not_running.
Qed.

(** * Cancellation *)

Lemma cancel_requested_row s r :
  NoDup (ids s) -> r ∈ jobs s -> is_running r ->
  job_cancel_requested (jr_job_id r) s = negb (jr_cancel_requested r =? 0)%Z.
Proof.
  intros Hnd Hr Hrun. unfold job_cancel_requested. destruct (list_find _ (jobs s)) as [[i r']|] eqn:E.
  - apply list_find_Some in E as (Hl & [Hid _]%running_job_true & _). apply list_elem_of_lookup_2 in Hl.
    by assert (r' = r) as -> by (by apply (row_by_id s)).
  - apply list_find_None in E. rewrite Forall_forall in E. destruct (E r Hr). by apply running_job_true.
Qed.

Lemma settle_row id refusal f s r :
  NoDup (ids s) -> r ∈ jobs s -> jr_job_id r = id -> is_running r -> (forall x, jr_job_id (f x) = jr_job_id x) ->
  fst (settle id refusal f s) = Ok tt /\ get_scan_job id (snd (settle id refusal f s)) = Ok (f r).
Proof.
  intros Hnd Hr Hid Hrun Hf. assert (Hrj : running_job id r = true) by (by apply running_job_true). split.
  - unfold settle, update_where. case_match eqn:E; [|done]. exfalso.
    apply Nat.eqb_eq, nil_length_inv in E. assert (r ∈ filter (fun r => running_job id r = true) (jobs s)) as Hin.
    { by apply list_elem_of_filter. } rewrite E in Hin. by apply elem_of_nil in Hin.
  - assert (Hg : id = jr_job_id (f r)) by (by rewrite Hf). rewrite Hg at 1. apply get_scan_job_found.
    + unfold ids. rewrite settle_rows, map_map. rewrite (map_ext _ jr_job_id); [done|].
      intros x. by destruct (running_job _ x).
    + rewrite settle_rows. apply list_elem_of_In, in_map_iff. exists r. rewrite Hrj.
      split; [done|by apply list_elem_of_In].
Qed.

(** A repair or batch job whose cancellation was requested before the worker
    starts it ends canceled, without the work being run. *)
Theorem cancel_before_start ops now wid kind parse wk r :
  r ∈ jobs (history policy ops) -> is_running r -> jr_cancel_requested r <> 0%Z -> kind <> KScan ->
  let w := run_outcome policy parse now (jr_job_id r) wid kind (jr_request_json r) wk
             {| store := history policy ops; script := [] |} in
  get_scan_job (jr_job_id r) (store w) = Ok (canceled_running (to_rfc3339 now) r).
Proof.
  intros Hr Hrun Hc Hk. destruct (history_wf policy ops) as [Hnd _].
  destruct (settle_row (jr_job_id r) "application job not running or missing when completing cancel"
    (canceled_running (to_rfc3339 now)) _ r Hnd Hr eq_refl Hrun ltac:(done)) as [Hok Hrow].
  unfold run_outcome, run_claimed_job, run_cancellable_job, store_call. cbn [script store].
  rewrite (cancel_requested_row _ r Hnd Hr Hrun). replace (jr_cancel_requested r =? 0)%Z with false by lia. cbn [negb].
  unfold cancel_running_job, store_call, complete_application_job_canceled. cbn [script store].
  destruct (settle _ _ _ _) as [res s'] eqn:E. cbn in Hok, Hrow. subst res.
  by destruct kind; cbn.
Qed.

(** A scan job pays no attention to a cancel request: a running scan whose
    cancellation was requested before its worker looked at it is recorded as
    succeeded when the scan ends. *)
Theorem running_scan_ignores_cancel ops now wid parse run r :
  r ∈ jobs (history policy ops) -> is_running r -> jr_cancel_requested r <> 0%Z ->
  parse (jr_request_json r) = Ok tt -> run ∈ run_ids (history policy ops) ->
  let w := run_outcome policy parse now (jr_job_id r) wid KScan (jr_request_json r)
             {| events := []; outcome := WDone run |} {| store := history policy ops; script := [] |} in
  get_scan_job (jr_job_id r) (store w) = Ok (succeeded (to_rfc3339 now) (Some run) None r).
Proof.
  intros Hr Hrun Hc Hp Hin. destruct (history_wf policy ops) as [Hnd _].
  destruct (settle_row (jr_job_id r) "application job not running or missing when completing success"
    (succeeded (to_rfc3339 now) (Some run) None) _ r Hnd Hr eq_refl Hrun ltac:(done)) as [Hok Hrow].
  unfold run_outcome, run_claimed_job, run_scan_job, store_call. cbn [script store]. rewrite Hp. cbn.
  unfold complete_scan_job_success, complete_application_job_success, known_run.
  rewrite bool_decide_eq_true_2 by done. cbn [orb]. destruct (settle _ _ _ _) as [res s'] eqn:E.
  cbn in Hok, Hrow. by subst res.
Qed.

(** * The heartbeat *)

Lemma stopped_beats jid wid ts b s :
  foldl (work_step policy jid wid) ({| pc := HbStopped; cancel_flag := b |}, s) (map Beat ts) =
  ({| pc := HbStopped; cancel_flag := b |}, s).
Proof. by induction ts. Qed.

(** Once the heartbeat has seen a cancel request it renews the lease no more,
    however long the work goes on: after any number of beats the store is as it
    was, and the first recovery past the lease takes the job from the worker that
    is still running it. *)
Theorem heartbeat_stops_after_cancel `{!OrderedRfc3339} ops jid wid ts now until r :
  r ∈ jobs (history policy ops) -> jr_job_id r = jid -> jr_leased_until r = Some (to_rfc3339 until) -> (until < now)%Z ->
  four_digit_year until -> four_digit_year now ->
  let '(h, s) := foldl (work_step policy jid wid) ({| pc := HbIdle; cancel_flag := true |}, history policy ops)
                   (map Beat ts) in
  s = history policy ops /\ not_running jid (snd (recover_stale_scan_jobs now policy s)).
Proof.
  intros Hr <- Hl Hlt Hyu Hyn.
  assert (Hs : snd (foldl (work_step policy (jr_job_id r) wid)
    ({| pc := HbIdle; cancel_flag := true |}, history policy ops) (map Beat ts)) = history policy ops).
  { destruct ts as [|t ts]; [done|]. cbn [map foldl work_step heartbeat_step fst snd pc cancel_flag].
    by rewrite stopped_beats. }
  destruct (foldl _ _ _) as [h s]. cbn in Hs. subst s. split; [done|].
  destruct (history_wf policy ops) as [Hnd _]. intros r'.
  rewrite recover_stale_rows by done. intros (r0 & -> & Hr0)%elem_map_inv Hid Hrun. rewrite row_effect_id in Hid.
  assert (r0 = r) as -> by (by apply (row_by_id (history policy ops))).
  revert Hrun. cbn [row_effect]. destruct (stale (to_rfc3339 now) r) eqn:E.
  - case_match; done.
  - intros Hrun. apply not_true_iff_false in E. apply E, stale_true. split; [done|].
    exists (to_rfc3339 until). split; [done|]. by apply rfc3339_ordered.
Qed.
End WorkerProofs.

(** * Every row can be shown *)

Section ViewProofs.
Context `{Rfc3339} `{Uuids} `{ScanOrder} (json_from_str : string -> option json) (policy : JobRecoveryPolicy).

Definition uuid_opt (o : option string) : Prop := match o with None => True | Some s => is_uuid s end.
Definition json_opt (o : option string) : Prop := match o with None => True | Some s => is_Some (json_from_str s) end.

(** What callers pass: fresh UUIDs, the ids of runs, references the server
    serialised itself. *)
Definition op_args_ok (op : job_op) : Prop :=
  match op with
  | OInsert _ id _ _ _ _ => is_uuid id
  | OSuccess _ _ run ref => uuid_opt run /\ json_opt ref
  | _ => True
  end.

Record row_decodes (r : ScanJobRow) : Prop := {
  dec_id : is_uuid (jr_job_id r);
  dec_submitted : printed (jr_submitted_at r);
  dec_started : printed_opt (jr_started_at r);
  dec_completed : printed_opt (jr_completed_at r);
  dec_heartbeat : printed_opt (jr_heartbeat_at r);
  dec_leased : printed_opt (jr_leased_until r);
  dec_run : uuid_opt (jr_run_id r);
  dec_ref : json_opt (jr_result_ref_json r);
}.

Lemma printed_now t : printed (to_rfc3339 t).
Proof. by exists t. Qed.
Hint Resolve printed_now : core.

Lemma row_effect_decodes s op r : op_args_ok op -> row_decodes r -> row_decodes (row_effect policy s op r).
Proof. intros Hop []. destruct op; cbn [row_effect]; repeat case_match; try done; split; cbn in *; naive_solver. Qed.

Lemma inserted_decodes s op : op_args_ok op -> Forall row_decodes (inserted s op).
Proof.
  intros Hop. destruct op; cbn [inserted]; try constructor. unfold insert_application_job. case_decide; cbn [snd jobs].
  - by rewrite drop_all.
  - rewrite drop_app_length. apply Forall_singleton. by split; cbn.
Qed.

Lemma history_decodes ops : Forall op_args_ok ops -> Forall row_decodes (jobs (history policy ops)).
Proof.
  induction ops as [|op ops IH] using rev_ind; intros Hops; [constructor|].
  apply Forall_app in Hops as [Hops Hop]. rewrite Forall_singleton in Hop. specialize (IH Hops).
  rewrite history_snoc, Forall_forall in *. intros r' [(r & Hr & ->)|Hr']%elem_apply_op.
  - apply row_effect_decodes; [done|]. by apply IH.
  - assert (Hi := inserted_decodes (history policy ops) op Hop). rewrite Forall_forall in Hi. by apply Hi.
  - apply history_wf.
Qed.

Lemma transpose_Ok {A B} (f : A -> Result AppError B) o :
  match o with None => True | Some a => exists b, f a = Ok b end -> exists b, transpose f o = Ok b.
Proof. destruct o as [a|]; [intros [b Hb]; cbn; rewrite Hb|]; by eexists. Qed.

Lemma parse_printed s : printed s -> exists t, parse_rfc3339 s = Ok t.
Proof. intros [t ->]. exists t. unfold parse_rfc3339. by rewrite rfc3339_round_trip. Qed.

Lemma parse_printed_opt o : printed_opt o -> exists t, transpose parse_rfc3339 o = Ok t.
Proof. intros Ho. apply transpose_Ok. destruct o; [by apply parse_printed|done]. Qed.

Definition status_text (s : JobStatus) : string :=
  match s with
  | Queued => "queued" | Running => "running" | Succeeded => "succeeded" | Failed => "failed" | Canceled => "canceled"
  end.

Lemma wf_status r : row_wf policy r -> exists st, jr_status r = status_text st /\ parse_job_status_label (jr_status r) = Ok st.
Proof.
  intros [Hok _]. assert (exists st, jr_status r = status_text st) as [st Hst].
  { inversion Hok; unfold is_queued, is_running, is_settled in *;
      [by exists Queued|by exists Running|]. destruct_or!; [by exists Succeeded|by exists Failed|by exists Canceled]. }
  exists st. split; [done|]. rewrite Hst. by destruct st.
Qed.

Lemma view_of_row r : row_wf policy r -> row_decodes r ->
  exists v, scan_job_row_to_view json_from_str r = Ok v /\
    v_job_id v = jr_job_id r /\ jr_status r = status_text (v_status v) /\ jr_job_kind r = job_kind_as_str (v_job_kind v).
Proof.
  intros Hwf [Hid Hsub Hst Hco Hhb Hle Hrun Href]. unfold scan_job_row_to_view, is_uuid in *. rewrite Hid. cbn [ok_or].
  destruct (wf_status r Hwf) as (st & Hstt & Hst'). destruct Hwf as [_ (k & Hk)].
  assert (job_kind_parse (jr_job_kind r) = Some k) as Hk' by (by rewrite Hk, job_kind_round_trip).
  destruct (parse_printed _ Hsub) as [t1 E1], (parse_printed_opt _ Hst) as [t2 E2], (parse_printed_opt _ Hco) as [t3 E3],
    (parse_printed_opt _ Hhb) as [t4 E4], (parse_printed_opt _ Hle) as [t5 E5].
  destruct (transpose_Ok (fun s => ok_or (uuid_parse s) (HInternal "invalid run_id on job")) (jr_run_id r)) as [u Eu].
  { destruct (jr_run_id r) as [s|]; [|done]. exists s. cbn in *. unfold is_uuid in Hrun. by rewrite Hrun. }
  destruct (transpose_Ok (fun s => ok_or (json_from_str s) (HInternal "invalid result_ref_json on job"))
    (jr_result_ref_json r)) as [j Ej].
  { destruct (jr_result_ref_json r) as [s|]; [|done]. destruct Href as [j Hj]. exists j. by rewrite Hj. }
  rewrite Hst', E1, E2, E3, Eu, Hk', Ej, E4, E5. cbn. eexists. by split_and!.
Qed.

Lemma try_map_total {A B} (f : A -> Result AppError B) l :
  (forall a, a ∈ l -> exists b, f a = Ok b) -> exists bs, try_map f l = Ok bs /\ length bs = length l.
Proof.
  induction l as [|a l IH]; intros Hf; [by exists []|]. destruct (Hf a ltac:(left)) as [b Hb].
  destruct IH as (bs & Hbs & Hlen); [intros x Hx; apply Hf; by right|]. exists (b :: bs).
  cbn. rewrite Hb. cbn. rewrite Hbs. cbn. by rewrite Hlen.
Qed.

(** Listing jobs never fails on a row: in every history every job of the
    queue decodes to a view with its own id, status and kind, and a page holds as
    many jobs as the clamped limit and the offset leave of the total. *)
Theorem job_list_total ops q :
  Forall op_args_ok ops -> (0 <= jq_offset q)%Z ->
  match jq_status q with None => True | Some f => exists f', normalize_job_status_filter f = Ok f' end ->
  exists resp, list_scan_jobs json_from_str q (history policy ops) = Ok resp /\
    length (items resp) = Nat.min (Z.to_nat (clamp 1 MAX_PAGE_SIZE (jq_limit q))) (total resp - Z.to_nat (jq_offset q)) /\
    Forall (fun v => exists r, r ∈ jobs (history policy ops) /\ v_job_id v = jr_job_id r /\
                      jr_status r = status_text (v_status v)) (items resp).
Proof.
  intros Hops Hoff Hf. unfold list_scan_jobs.
  destruct (transpose_Ok normalize_job_status_filter (jq_status q)) as [st Est]; [by destruct (jq_status q)|].
  rewrite Est. cbn. set (s := history policy ops). set (rows := list_scan_jobs_page _ _ _ s).
  assert (Hrows : forall r, r ∈ rows -> r ∈ jobs s).
  { intros r Hr. unfold rows, list_scan_jobs_page in Hr. 
    eapply elem_of_sublist in Hr; [|apply sublist_take]. eapply elem_of_sublist in Hr; [|apply sublist_drop].
    rewrite sort_by_perm in Hr. apply select_elem in Hr as [_ Hr]. exact Hr. }
  assert (Hview : forall r, r ∈ rows -> exists v, scan_job_row_to_view json_from_str r = Ok v /\
    v_job_id v = jr_job_id r /\ jr_status r = status_text (v_status v)).
  { intros r Hr. destruct (view_of_row r) as (v & Hv & Hid & Hstat & _); [| |by exists v].
    - destruct (history_wf policy ops) as [_ Hwf]. rewrite Forall_forall in Hwf. by apply Hwf, Hrows.
    - assert (Hd := history_decodes ops Hops). rewrite Forall_forall in Hd. by apply Hd, Hrows. }
  destruct (try_map_total (scan_job_row_to_view json_from_str) rows) as (vs & Hvs & Hlen).
  { intros r Hr. destruct (Hview r Hr) as (v & Hv & _). by exists v. }
  rewrite Hvs. cbn. eexists. split; [done|]. cbn [items total]. split.
  - rewrite Hlen. unfold rows, list_scan_jobs_page, count_scan_jobs, select.
    by rewrite length_take, length_drop, (Permutation_length (sort_by_perm newer _)), (Permutation_length (scan_order_perm _)).
  - apply try_map_Ok in Hvs. rewrite Forall_forall. intros v (i & Hi)%list_elem_of_lookup.
    destruct (Forall2_lookup_r _ _ _ _ _ Hvs Hi) as (r & Hr & Hv). apply list_elem_of_lookup_2 in Hr.
    destruct (Hview r Hr) as (v' & Hv' & ? & ?). assert (v' = v) as -> by congruence. exists r. auto.
Qed.
End ViewProofs.
