(* ===== verification/ServerExamples.v ===== *)
(** A concrete server: instants printed in an ordered notation, tables visited in
    insertion order, and the witnesses of the theorems on jobs, tokens and
    requests. *)

From Stdlib Require Import Ascii Strings.Byte.
From stdpp Require Import gmap sorting.
From S2P Require Import Prelude BTree Errors Location RepairPlan Journal JobStore JobStoreProofs.
From S2P Require Import AuthStore RepairExec Execute Application Server.
From S2P Require Import Verify Backend Publication PublicationExamples ExecuteExamples Service.

(** * An ordered notation for instants *)

Fixpoint tally (c : ascii) (n : nat) (tail : string) : string :=
  match n with 0 => tail | S n => String c (tally c n tail) end.

Definition tally_instant (z : Z) : string :=
  if (0 <=? z)%Z then String "p" (tally "b" (Z.to_nat z) EmptyString)
  else String "n" (tally "a" (Z.to_nat (- z)) "z").

Definition parse_tally (s : string) : option Z :=
  match s with
  | String c rest =>
      if decide (c = "p"%char) then Some (Z.of_nat (String.length rest))
      else Some (1 - Z.of_nat (String.length rest))%Z
  | EmptyString => None
  end.

Lemma tally_length c n tail : String.length (tally c n tail) = n + String.length tail.
Proof. induction n; cbn; congruence. Qed.

Lemma tally_round_trip z : parse_tally (tally_instant z) = Some z.
Proof. unfold tally_instant. case_match; cbn; rewrite tally_length; cbn; f_equal; lia. Qed.

#[global] Instance tally_rfc3339 : Rfc3339 := {|
  to_rfc3339 := tally_instant; parse_from_rfc3339 := parse_tally; rfc3339_round_trip := tally_round_trip |}.

Lemma compare_same c a b : String.compare (String c a) (String c b) = String.compare a b.
Proof. cbn. unfold Ascii.compare. by rewrite N.compare_refl. Qed.

Lemma compare_self s : String.compare s s = Eq.
Proof. induction s; [done|]. by rewrite compare_same. Qed.

Lemma str_lt_compare a b : str_lt a b <-> String.compare a b = Lt.
Proof.
  unfold str_lt, String.le, String.leb. destruct (String.compare a b) eqn:E.
  - apply String.compare_eq_iff in E. naive_solver.
  - split; [done|]. intros _. split; [done|]. intros ->. by rewrite compare_self in E.
  - naive_solver.
Qed.

Lemma tally_up n m : String.compare (tally "b" n "") (tally "b" m "") = Nat.compare n m.
Proof. revert m. induction n as [|n IH]; intros [|m]; try done. cbn [tally]. by rewrite compare_same, IH. Qed.

Lemma tally_down n m : String.compare (tally "a" n "z") (tally "a" m "z") = Nat.compare m n.
Proof. revert m. induction n as [|n IH]; intros [|m]; try done. cbn [tally]. by rewrite compare_same, IH. Qed.

#[global] Program Instance tally_ordered : OrderedRfc3339 := {| four_digit_year _ := True |}.
Next Obligation.
  intros a b _ _. rewrite str_lt_compare. cbn [to_rfc3339 tally_rfc3339]. unfold tally_instant.
  destruct (Z.leb_spec 0 a), (Z.leb_spec 0 b); rewrite ?compare_same, ?tally_up, ?tally_down, ?Nat.compare_lt_iff;
    [lia| |split; [lia|done]|lia].
  split; [done|lia].
Qed.

#[global] Instance insertion_order : ScanOrder := {| scan_order l := l; scan_order_perm l := reflexivity l |}.
#[global] Program Instance text_uuids : Uuids := {| uuid_parse := Some |}.
Next Obligation. congruence. Qed.

(** * Jobs *)

Definition ex_policy3 : JobRecoveryPolicy := JobRecoveryPolicy_default.

(** Job [j] is claimed by worker [w1] at instant 10, its lease ends at 40. *)
Definition claimed_by_w1 : list job_op := [
  OInsert 1 "j" KRepair "dataset_location" "/d" "{}";
  OClaim 10 "w1" 10 40
].

Definition row_of (ops : list job_op) (id : string) : ScanJobRow :=
  default {| jr_job_id := ""; jr_submitted_at := ""; jr_started_at := None; jr_completed_at := None; jr_status := "";
             jr_target_kind := ""; jr_normalized_target_key := ""; jr_request_json := ""; jr_failure_code := None;
             jr_failure_message := None; jr_run_id := None; jr_worker_id := None; jr_attempt_count := 0;
             jr_heartbeat_at := None; jr_leased_until := None; jr_recovery_note := None; jr_job_kind := "";
             jr_payload_schema_version := 0; jr_cancel_requested := 0; jr_result_ref_json := None |}
    (snd <$> list_find (fun r => jr_job_id r = id) (jobs (history ex_policy3 ops))).

Lemma row_of_elem ops id :
  list_find (fun r => jr_job_id r = id) (jobs (history ex_policy3 ops)) <> None ->
  row_of ops id ∈ jobs (history ex_policy3 ops).
Proof.
  unfold row_of. destruct (list_find _ _) as [[i r]|] eqn:E; [|done]. intros _. cbn.
  apply list_find_Some in E as (Hl & _). by eapply list_elem_of_lookup_2.
Qed.

Lemma settled_job_final_witness :
  get_scan_job "j" (history ex_policy3 ((claimed_by_w1 ++ [OFailure 20 "j" "scan_failed" "gone"]) ++
    [ORecover 100; OClaim 110 "w2" 110 140])) =
  Ok (row_of (claimed_by_w1 ++ [OFailure 20 "j" "scan_failed" "gone"]) "j").
Proof.
  refine (settled_job_final ex_policy3 _ [ORecover 100; OClaim 110 "w2" 110 140]
    (row_of (claimed_by_w1 ++ [OFailure 20 "j" "scan_failed" "gone"]) "j") _ _).
  - apply row_of_elem. vm_compute. discriminate.
  - right; left. vm_compute. reflexivity.
Defined.

Lemma attempts_count_claims_witness :
  jr_attempt_count (row_of (claimed_by_w1 ++ [ORecover 100; OClaim 110 "w2" 110 140]) "j") = 2%Z /\
  (claims_of ex_policy3 "j" store_empty (claimed_by_w1 ++ [ORecover 100; OClaim 110 "w2" 110 140]) <=
     Z.max 1 (as_i32 (max_attempts ex_policy3)))%Z.
Proof.
  split; [vm_compute; reflexivity|].
  refine (proj2 (attempts_count_claims ex_policy3 (claimed_by_w1 ++ [ORecover 100; OClaim 110 "w2" 110 140])
    (row_of (claimed_by_w1 ++ [ORecover 100; OClaim 110 "w2" 110 140]) "j") _)).
  apply row_of_elem. vm_compute. discriminate.
Defined.

(** Renewed at 35 until 65, [w1] survives the recovery at 60. *)
Lemma lease_protects_holder_witness :
  exists r', get_scan_job "j" (history ex_policy3 (claimed_by_w1 ++ [ORenew "j" "w1" 35 65; ORecover 60])) = Ok r' /\
    is_running r' /\ jr_worker_id r' = Some "w1" /\ jr_attempt_count r' = 1%Z.
Proof.
  refine (lease_protects_holder ex_policy3 claimed_by_w1 [ORenew "j" "w1" 35 65; ORecover 60]
    (row_of claimed_by_w1 "j") "w1" 40 _ _ _ _ _ _).
  - apply row_of_elem. vm_compute. discriminate.
  - vm_compute. reflexivity.
  - vm_compute. reflexivity.
  - vm_compute. reflexivity.
  - exact I.
  - vm_compute. intuition discriminate.
Defined.

(** The completions do not name the worker: a worker that lost its job to
    recovery settles it all the same, although another worker holds it under a
    valid lease, and the new holder's own completion is then refused. *)
Theorem stale_worker_settles_reclaimed_job :
  let reclaimed := history ex_policy3 (claimed_by_w1 ++ [ORecover 50; OClaim 51 "w2" 51 81]) in
  jr_worker_id (row_of (claimed_by_w1 ++ [ORecover 50; OClaim 51 "w2" 51 81]) "j") = Some "w2" /\
  let stale := run_outcome ex_policy3 (fun _ => Ok tt) 52 "j" "w1" KRepair "{}"
                 {| events := []; outcome := WFail (HScanFailed "gone") |} {| store := reclaimed; script := [] |} in
  (exists r, get_scan_job "j" (store stale) = Ok r /\ jr_status r = "failed") /\
  fst (complete_application_job_success 53 "j" None (Some "{}") (store stale)) =
    Err (ReportValidation "application job not running or missing when completing success").
Proof. vm_compute. split; [done|]. split; [by eexists|done]. Qed.

(** On Postgres recovery can take a lease that is valid: a renewal committed
    between the [SELECT] of the stale jobs and the [UPDATE], which does not look at
    the lease again, is lost; the same renewal before the transaction keeps it. *)
Theorem postgres_recovery_takes_renewed_lease :
  let s := history ex_policy3 claimed_by_w1 in
  let renewal := ORenew "j" "w1" 50 80 in
  fst (renew_scan_job_lease "j" "w1" 50 80 s) = true /\
  (exists r, get_scan_job "j" (snd (pg_recover_stale_scan_jobs 50 ex_policy3 (fun _ => [renewal]) s)) = Ok r /\
     jr_status r = "queued") /\
  (exists r, get_scan_job "j" (snd (recover_stale_scan_jobs 50 ex_policy3 (apply_op ex_policy3 s renewal))) = Ok r /\
     jr_status r = "running" /\ jr_worker_id r = Some "w1").
Proof. vm_compute. split; [done|]. split; by eexists. Qed.

(** On Postgres two recoveries that overlap can run a job more often than the limit:
    the second one requeues on the attempt count it selected before another worker
    claimed the job for its last attempt. *)
Theorem postgres_recovery_exceeds_attempts :
  let policy := {| lease_duration_secs := 60; heartbeat_interval_secs := 10; max_attempts := 2 |} in
  let s := snd (pg_recover_stale_scan_jobs 50 policy (fun _ => [ORecover 50; OClaim 51 "w2" 51 81]) (history policy claimed_by_w1)) in
  exists r, get_scan_job "j" (apply_op policy s (OClaim 52 "w3" 52 82)) = Ok r /\
    jr_status r = "running" /\ jr_attempt_count r = 3%Z.
Proof. vm_compute. by eexists. Qed.

(** * The worker *)

Lemma worker_settles_job_witness :
  not_running "j" (store (run_outcome ex_policy3 (fun _ => Ok tt) 20 "j" "w1" KRepair "{}"
    {| events := [Beat 18; Other (ORecover 19)]; outcome := WPanic (Some "index out of bounds") |}
    {| store := history ex_policy3 claimed_by_w1; script := [([ORecover 20], NoFault)] |})).
Proof. apply worker_settles_job. repeat constructor. Defined.

Definition cancel_requested : list job_op := claimed_by_w1 ++ [OCancel 11 "j" (row_of claimed_by_w1 "j")].

Lemma cancel_before_start_witness :
  get_scan_job "j" (store (run_outcome ex_policy3 (fun _ => Ok tt) 12 "j" "w1" KRepair "{}"
    {| events := []; outcome := WDone "{}" |} {| store := history ex_policy3 cancel_requested; script := [] |})) =
  Ok (canceled_running (to_rfc3339 12) (row_of cancel_requested "j")).
Proof.
  refine (cancel_before_start ex_policy3 cancel_requested 12 "w1" KRepair (fun _ => Ok tt)
    {| events := []; outcome := WDone "{}" |} (row_of cancel_requested "j") _ _ _ _).
  - apply row_of_elem. vm_compute. discriminate.
  - vm_compute. reflexivity.
  - vm_compute. discriminate.
  - discriminate.
Defined.

Definition scan_cancel_requested : list job_op :=
  let running := [OInsert 1 "j" KScan "local_directory" "/d" "{}"; OPersistRun "run"; OClaim 10 "w1" 10 40] in
  running ++ [OCancel 11 "j" (row_of running "j")].

Lemma running_scan_ignores_cancel_witness :
  get_scan_job "j" (store (run_outcome ex_policy3 (fun _ => Ok tt) 12 "j" "w1" KScan "{}"
    {| events := []; outcome := WDone "run" |} {| store := history ex_policy3 scan_cancel_requested; script := [] |})) =
  Ok (succeeded (to_rfc3339 12) (Some "run") None (row_of scan_cancel_requested "j")).
Proof.
  refine (running_scan_ignores_cancel ex_policy3 scan_cancel_requested 12 "w1" (fun _ => Ok tt) "run"
    (row_of scan_cancel_requested "j") _ _ _ _ _).
  - apply row_of_elem. vm_compute. discriminate.
  - vm_compute. reflexivity.
  - vm_compute. discriminate.
  - reflexivity.
  - vm_compute. left.
Defined.

Lemma heartbeat_stops_after_cancel_witness :
  let '(h, s) := foldl (work_step ex_policy3 "j" "w1")
                   ({| pc := HbIdle; cancel_flag := true |}, history ex_policy3 cancel_requested) (map Beat [20; 30; 40]%Z) in
  s = history ex_policy3 cancel_requested /\ not_running "j" (snd (recover_stale_scan_jobs 41 ex_policy3 s)).
Proof.
  refine (heartbeat_stops_after_cancel ex_policy3 cancel_requested "j" "w1" [20; 30; 40]%Z 41 40
    (row_of cancel_requested "j") _ _ _ _ I I).
  - apply row_of_elem. vm_compute. discriminate.
  - vm_compute. reflexivity.
  - vm_compute. reflexivity.
  - lia.
Defined.

Definition ex_query : JobListQuery := {| jq_status := Some " Running "; jq_limit := 1000; jq_offset := 0 |}.

Lemma job_list_total_witness :
  exists resp, list_scan_jobs (fun _ => Some JNull) ex_query (history ex_policy3 cancel_requested) = Ok resp /\
    length (items resp) = Nat.min (Z.to_nat (clamp 1 MAX_PAGE_SIZE 1000)) (total resp - 0) /\
    Forall (fun v => exists r, r ∈ jobs (history ex_policy3 cancel_requested) /\ v_job_id v = jr_job_id r /\
                      jr_status r = status_text (v_status v)) (items resp).
Proof.
  refine (job_list_total (fun _ => Some JNull) ex_policy3 cancel_requested ex_query _ _ _).
  - repeat constructor.
  - cbn. lia.
  - exists "running". vm_compute. reflexivity.
Defined.

(** * Tokens *)

Definition ex_bytes (n : nat) : list byte := replicate 4 (default Byte.x00 (Byte.of_N (N.of_nat n))).

Definition ex_tokens : list token_op := [
  TBootstrap 1 "t0" "root-secret" Admin;
  TCreate 2 "t1" (ex_bytes 7) "ci" Operator None
].

Definition ci_secret : string := generate_bearer_secret (ex_bytes 7).

Definition token_row_of (ops : list token_op) (id : string) : token_row :=
  default (new_row 0 "" "" "" "" None None) (snd <$> list_find (fun r => tk_token_id r = id) (token_history ops)).

Lemma token_row_elem ops id :
  list_find (fun r => tk_token_id r = id) (token_history ops) <> None -> token_row_of ops id ∈ token_history ops.
Proof.
  unfold token_row_of. destruct (list_find _ _) as [[i r]|] eqn:E; [|done]. intros _. cbn.
  apply list_find_Some in E as (Hl & _). by eapply list_elem_of_lookup_2.
Qed.

Ltac uuid_ops := repeat constructor.

Lemma revoked_token_never_authenticates_witness :
  verify_select ci_secret (token_history ((ex_tokens ++ [TDisable 3 "t1"]) ++ [TRotate 4 "t0" "t2" (ex_bytes 9)])) = Ok None.
Proof.
  refine (revoked_token_never_authenticates (ex_tokens ++ [TDisable 3 "t1"]) [TRotate 4 "t0" "t2" (ex_bytes 9)] ci_secret _ _ _).
  - uuid_ops.
  - repeat constructor. tauto.
  - exists (token_row_of (ex_tokens ++ [TDisable 3 "t1"]) "t1"). split.
    + apply token_row_elem. vm_compute. discriminate.
    + vm_compute. split; reflexivity.
Defined.

Lemma rotation_swaps_secrets_witness :
  let '(res, t') := rotate_auth_token 5 "t1" "t9" (ex_bytes 9) (token_history ex_tokens) in
  res = Ok ("t9", generate_bearer_secret (ex_bytes 9)) /\ verify_select ci_secret t' = Ok None.
Proof.
  assert (Hr := rotation_swaps_secrets ex_tokens 5 (token_row_of ex_tokens "t1") "t9" (ex_bytes 9) ci_secret).
  cbn zeta in Hr. change (tk_token_id (token_row_of ex_tokens "t1")) with "t1" in Hr.
  destruct (rotate_auth_token 5 "t1" "t9" (ex_bytes 9) (token_history ex_tokens)) as [res t'].
  destruct Hr as (H1 & H2 & _); [| | | | | | |by split].
  - uuid_ops.
  - reflexivity.
  - apply token_row_elem. vm_compute. discriminate.
  - vm_compute. reflexivity.
  - vm_compute. reflexivity.
  - apply (bool_decide_unpack _). vm_compute. exact I.
  - apply (bool_decide_unpack _). vm_compute. exact I.
Defined.

(** The bootstrap token was disabled; the next start of the server with the same
    variable makes it an administrator again. *)
Lemma bootstrap_reinstates_witness :
  let t := token_history (ex_tokens ++ [TDisable 3 "t0"]) in
  verify_select "root-secret" t = Ok None /\
  let '(_, t') := upsert_bootstrap_token 9 "t9" "root-secret" Admin t in
  verify_select "root-secret" t' = Ok (Some {| pr_token_id := "t9"; pr_label := "bootstrap"; pr_role := Admin |}).
Proof.
  split; [vm_compute; reflexivity|].
  assert (Hb := bootstrap_reinstates (ex_tokens ++ [TDisable 3 "t0"]) 9 "t9" "root-secret" Admin).
  assert (Hok : fst (upsert_bootstrap_token 9 "t9" "root-secret" Admin (token_history (ex_tokens ++ [TDisable 3 "t0"]))) = Ok tt)
    by (vm_compute; reflexivity).
  cbn zeta in Hb. destruct (upsert_bootstrap_token _ _ _ _ _) as [res t']. cbn in Hok.
  destruct Hb as [Hv _]; [uuid_ops|reflexivity|exact Hok|exact Hv].
Defined.

(** * Requests *)

(** A router: the path itself when it is a static pattern, else the first pattern that
    matches; the first method that answers. *)
Lemma static_matches path : has_parameter path = false -> path_matches path path = true.
Proof.
  unfold has_parameter, path_matches. induction (split_char "/" path) as [|x l IH]; [done|]. cbn. intros [Hx Hl]%orb_false_iff.
  rewrite Hx, bool_decide_eq_true_2 by done. by apply IH.
Qed.

#[global] Program Instance simple_router : AxumRouter := {|
  match_path routes path := if decide (path ∈ routes /\ has_parameter path = false) then Some path
                            else snd <$> list_find (fun r => path_matches r path = true) routes;
  match_method ms m := snd <$> list_find (fun r => method_matches r m = true) ms |}.
Next Obligation.
  intros routes path r. cbn. case_decide as Hs; [intros [= <-]; split; [tauto|apply static_matches; tauto]|].
  intros ([i r'] & (Hi & Hm & _)%list_find_Some & ->)%fmap_Some. split; [by eapply list_elem_of_lookup_2|done].
Qed.
Next Obligation.
  intros routes path r Hr Hm. cbn. case_decide; [by eexists|]. apply fmap_is_Some. by eapply list_find_elem_of.
Qed.
Next Obligation. intros routes path Hr Hp. cbn. by rewrite decide_True. Qed.
Next Obligation.
  intros ms m r. cbn. intros ([i r'] & (Hi & Hm & _)%list_find_Some & ->)%fmap_Some. split; [by eapply list_elem_of_lookup_2|done].
Qed.
Next Obligation. intros ms m r Hr Hm. cbn. apply fmap_is_Some. by eapply list_find_elem_of. Qed.

Definition ex_request (path secret : string) (m : Method) : Request :=
  {| req_path := path; req_method := m; authorization_header := Some ("Bearer " +:+ secret) |}.

Lemma protected_request_iff_witness :
  fst (serve_protected answers_all 9 (ex_request "/jobs/17/cancel" ci_secret POST) (token_history ex_tokens)) =
  Reached h_post_job_cancel {| pr_token_id := "t1"; pr_label := "ci"; pr_role := Operator |}.
Proof.
  apply protected_request_iff; [uuid_ops|]. split; [vm_compute; reflexivity|]. split; [split; reflexivity|]. split; [|reflexivity].
  exists ci_secret, (token_row_of ex_tokens "t1"), Operator.
  split; [vm_compute; reflexivity|]. split; [apply token_row_elem; vm_compute; discriminate|].
  vm_compute. repeat split.
Defined.

(** An operator cannot create tokens. *)
Example operator_cannot_administer :
  fst (serve_protected answers_all 9 (ex_request "/admin/tokens" ci_secret POST) (token_history ex_tokens)) =
  Refused (forbidden_response "insufficient role for this operation").
Proof. vm_compute. reflexivity. Qed.

(** A static pattern decides the method, an unknown path is not authenticated, and a
    database that fails is an internal error. *)
Example routed_otherwise :
  fst (serve_protected answers_all 9 (ex_request "/jobs/scans" ci_secret GET) (token_history ex_tokens)) = MethodNotAllowed /\
  fst (serve_protected answers_all 9 (ex_request "/nowhere" ci_secret GET) (token_history ex_tokens)) = NotFound /\
  fst (serve_protected {| select_fault := Some (AuthToken "down"); touch_fault := None |} 9
         (ex_request "/jobs" ci_secret GET) (token_history ex_tokens)) = Refused internal_error_response.
Proof. vm_compute. repeat split. Qed.

(** * The location policy *)

(** Canonical paths are the normalised ones. *)
#[global] Program Instance row_server_fs : ServerFs row_fs := {|
  canonicalize_utf8 p fs := if path_exists p fs then Ok (normalize_local_path p) else Err "No such file or directory" |}.
Next Obligation. intros p fs q. cbn. by case_match. Qed.

Definition restricted : StoragePolicy := storage_policy_from_config {|
  server_allowed_local_roots := ["/data"]; storage_allowed_local_roots := [];
  storage_allowed_s3_buckets := ["my-bucket"]; storage_allowed_s3_prefixes := ["my-bucket/datasets/"] |}.

Definition policy_fs : row_fs := {["/data/in/a.parquet" := [1; 2; 3]%Z]}.

Lemma s3_entry_admits_siblings_witness :
  validate_s3 {| allow_unrestricted_local := false; allowed_local_roots := []; allowed_s3_buckets := ["my-bucket"];
                 allowed_s3_prefixes := ["my-bucket" +:+ "/" +:+ "datasets" +:+ "/"] |}
    {| bucket := "my-bucket"; prefix := "datasets" +:+ "-private/payroll" |} = Ok tt.
Proof. apply s3_entry_admits_siblings; vm_compute; reflexivity. Defined.

Lemma local_path_admitted_iff_witness :
  validate_local_path restricted "/data/in" policy_fs = Ok tt.
Proof.
  apply local_path_admitted_iff; [reflexivity|]. exists "/data/in", "/data".
  split; [vm_compute; reflexivity|]. split; [left|vm_compute; reflexivity].
Defined.

(** ** A repair under the policy *)

Definition safety_code (x : RepairSafety) : nat :=
  match x with Safe => 0 | ReviewRequired => 1 | Destructive => 2 | Blocked => 3 end.
Definition code_safety (n : nat) : RepairSafety :=
  match n with 0 => Safe | 1 => ReviewRequired | 2 => Destructive | _ => Blocked end.
Definition source_code (x : AuthorizationSource) : nat :=
  match x with AutomaticSafePolicy => 0 | ExplicitUser => 1 | BlockedByPolicy => 2 | NotAuthorized => 3 end.
Definition code_source (n : nat) : AuthorizationSource :=
  match n with 0 => AutomaticSafePolicy | 1 => ExplicitUser | 2 => BlockedByPolicy | _ => NotAuthorized end.
Definition outcome_code (x : VerificationOutcome) : nat :=
  match x with Verify.Verified => 0 | VerifiedWithWarnings => 1 | VerificationFailed => 2 end.
Definition code_outcome (n : nat) : VerificationOutcome :=
  match n with 0 => Verify.Verified | 1 => VerifiedWithWarnings | _ => VerificationFailed end.

Definition entry_tuple (e : FingerprintEntry) :=
  (fe_relative_path e, fe_size_bytes e, fe_num_rows e, fe_num_row_groups e, fe_schema_signature e, fe_compression_codecs e).
Definition tuple_entry t : FingerprintEntry :=
  let '(a, b, c, d, e, f) := t in
  {| fe_relative_path := a; fe_size_bytes := b; fe_num_rows := c; fe_num_row_groups := d; fe_schema_signature := e;
     fe_compression_codecs := f |}.
Definition fp_tuple (x : DatasetFingerprint) := (fp_version x, fp_root x, map entry_tuple (fp_entries x), digest x).
Definition tuple_fp t : DatasetFingerprint :=
  let '(a, b, c, d) := t in {| fp_version := a; fp_root := b; fp_entries := map tuple_entry c; digest := d |}.
Definition audit_tuple (x : OperationAuditRecord) :=
  (audit_operation_id x, audit_plan_id x, audit_dataset_fingerprint x, audit_policy_fingerprint x,
   audit_executor_version x, safety_code (audit_safety x), source_code (authorization_source x), authorization_time x,
   executed x, skip_reason x).
Definition tuple_audit t : OperationAuditRecord :=
  let '(a, b, c, d, e, f, g, h, i, j) := t in
  {| audit_operation_id := a; audit_plan_id := b; audit_dataset_fingerprint := c; audit_policy_fingerprint := d;
     audit_executor_version := e; audit_safety := code_safety f; authorization_source := code_source g;
     authorization_time := h; executed := i; skip_reason := j |}.
Definition inv_tuple (x : InvariantResult) := (inv_name x, passed x, inv_detail x).
Definition tuple_inv t : InvariantResult := let '(a, b, c) := t in {| inv_name := a; passed := b; inv_detail := c |}.
Definition report_tuple (x : VerificationReport) :=
  (before_scan_id x, after_scan_id x, map inv_tuple (invariant_results x), resolved_finding_codes x,
   remaining_finding_codes x, new_finding_codes x, blocked_finding_codes x, outcome_code (Verify.outcome x),
   manifest_plan_id x, fingerprint_match x).
Definition tuple_report t : VerificationReport :=
  let '(a, b, c, d, e, f, g, h, i, j) := t in
  {| before_scan_id := a; after_scan_id := b; invariant_results := map tuple_inv c; resolved_finding_codes := d;
     remaining_finding_codes := e; new_finding_codes := f; blocked_finding_codes := g;
     Verify.outcome := code_outcome h; manifest_plan_id := i; fingerprint_match := j |}.
Definition manifest_tuple (x : ExecutionManifest) :=
  (em_version x, em_plan_id x, em_execution_id x, em_parqonaut_version x, fp_tuple (em_source_fingerprint x),
   fp_tuple (em_output_fingerprint x), em_policy_fingerprint x, em_started_at x, em_completed_at x,
   map audit_tuple (em_operations x), report_tuple <$> em_verification x).
Definition tuple_manifest t : ExecutionManifest :=
  let '(a, b, c, d, e, f, g, h, i, j, k) := t in
  {| em_version := a; em_plan_id := b; em_execution_id := c; em_parqonaut_version := d;
     em_source_fingerprint := tuple_fp e; em_output_fingerprint := tuple_fp f; em_policy_fingerprint := g;
     em_started_at := h; em_completed_at := i; em_operations := map tuple_audit j; em_verification := tuple_report <$> k |}.

Lemma map_back {A B} (f : A -> B) (g : B -> A) l : (forall x, g (f x) = x) -> map g (map f l) = l.
Proof. intros Hgf. rewrite map_map. by apply map_same. Qed.

Lemma fp_back x : tuple_fp (fp_tuple x) = x.
Proof. destruct x. cbn. by rewrite map_back by (by intros []). Qed.

Lemma audit_back x : tuple_audit (audit_tuple x) = x.
Proof. destruct x as [? ? ? ? ? [] [] ? ? ?]; reflexivity. Qed.

Lemma report_back x : tuple_report (report_tuple x) = x.
Proof. destruct x as [? ? ? ? ? ? ? [] ? ?]; cbn; by rewrite map_back by (by intros []). Qed.

Lemma manifest_back x : tuple_manifest (manifest_tuple x) = x.
Proof.
  destruct x as [? ? ? ? ? ? ? ? ? ? [v|]];
    cbn -[tuple_fp fp_tuple tuple_audit audit_tuple tuple_report report_tuple]; rewrite !fp_back, map_back by apply audit_back;
    [by rewrite report_back|done].
Qed.

#[global] Instance ExecutionManifest_json : Json ExecutionManifest := json_via manifest_tuple tuple_manifest manifest_back.

#[global] Instance plain_paths : UrlParser := fun _ => Err "relative URL without a base".

Definition ex_repair_request : RepairRequest := {|
  rq_schema_version := 1; rq_source := Local {| path := "/data/in" |}; rq_output := Local {| path := "/data/out" |};
  rq_plan := merged_plan; rq_authorize := [] |}.

Lemma restricted_local_output_never_repaired_witness :
  exists e, repair ex_now "u" ex_uuid ex_uuid "1" (Err (ScanFailed "no temporary directory"))
    (fun _ _ => fs_fail (ScanFailed "offline")) (fun _ _ => Err (ScanFailed "offline")) ex_repair_request restricted
    "run" policy_fs = Ret (Some (Err e, policy_fs)).
Proof.
  apply (restricted_local_output_never_repaired ex_now "u" ex_uuid ex_uuid "1" (Err (ScanFailed "no temporary directory"))
    (fun _ _ => fs_fail (ScanFailed "offline")) (fun _ _ => Err (ScanFailed "offline")) ex_repair_request restricted
    "run" policy_fs {| path := "/data/out" |}); reflexivity.
Defined.
