(* ===== verification/Config.v ===== *)
(** The batch configuration and the locations derived from it: config.rs,
    location.rs and paths.rs of src/crates/parqonaut-orchestrator/src. *)

From Stdlib Require Import Ascii.
From S2P Require Import Prelude Location Errors Overlap BTree Schema RepairPlan Inventory Rules Planning Backend.
From S2P Require Import RepairExec Execute Executor.

Definition BATCH_CONFIG_SCHEMA_VERSION : Z := 1.

(** * Configured locations (location.rs) *)

Record ConfigLocation := mkConfigLocation { as_location : DatasetLocation }.

#[global] Instance ConfigLocation_eq_dec : EqDecision ConfigLocation.
Proof. solve_decision. Defined.

(** The file-system calls of the configuration code; errors are the display
    form of [std::io::Error]. *)
Class ConfigFs (FS : Type) `{RepairFs FS} := {
  fs_canonicalize : string -> FS -> Result string string;
  read_to_string : string -> FS -> Result string string;
  is_dir : string -> FS -> bool;
  (** [realpath] returns an absolute path. *)
  canonicalize_absolute : forall p fs q, fs_canonicalize p fs = Ok q -> is_absolute q = true;
}.

Definition resolve_dataset_location (base : string) (location : DatasetLocation)
    : Result OrchestratorError DatasetLocation :=
  match location with
  | Local local =>
      let p := if is_absolute (path local) then path local else path_join base (path local) in
      Ok (Local {| path := p |})
  | S3 _ => Ok location
  end.

Definition join_output_segment (root : DatasetLocation) (segment : string)
    : Result OrchestratorError DatasetLocation :=
  if bool_decide (segment = EmptyString) || contains ".." segment || has_char "/"%char segment then
    Err (InvalidConfig ("invalid output segment `" +:+ segment +:+ "`"))
  else match root with
  | Local local => Ok (Local {| path := path_join (path local) segment |})
  | S3 s3 =>
      Ok (S3 {| bucket := bucket s3;
                prefix := if decide (prefix s3 = EmptyString) then segment
                          else trim_end_slash (prefix s3) +:+ "/" +:+ segment |})
  end.

Definition location_display (location : DatasetLocation) : string := display_uri location.

Definition local_path_for_policy (base p : string) : string :=
  if is_absolute p then p else path_join base p.

Definition map_storage_err (e : StorageError) : OrchestratorError := InvalidConfig (storage_error_display e).

Definition ConfigLocation_serialize (c : ConfigLocation) : string := display_uri (as_location c).

Section Locations.
Context `{UrlParser}.

(** [Deserialize]; the error is the text given to [serde::de::Error::custom]. *)
Definition ConfigLocation_deserialize (raw : string) : Result string ConfigLocation :=
  map_err storage_error_display (loc ← parse raw; Ok (mkConfigLocation loc)).

Definition parse_output_override (raw base : string) : Result OrchestratorError DatasetLocation :=
  let trimmed := trim raw in
  if contains "://" trimmed || is_absolute trimmed then
    loc ← map_err map_storage_err (parse trimmed);
    resolve_dataset_location base loc
  else Err (InvalidConfig ("output override `" +:+ raw +:+ "` is not an absolute path or URI")).
End Locations.

Section Canonical.
Context {FS : Type} `{ConfigFs FS}.

Definition canonicalize_local_location (base : string) (location : DatasetLocation) (fs : FS)
    : Result OrchestratorError DatasetLocation :=
  resolved ← resolve_dataset_location base location;
  match resolved with
  | Local local =>
      canonical ← map_err OrchIo (fs_canonicalize (path local) fs);
      if utf8_valid canonical then Ok (Local {| path := canonical |})
      else Err (InvalidConfig "non-UTF8 path")
  | S3 _ => Ok resolved
  end.
End Canonical.

(** * Configuration (config.rs) *)

Record BatchSection := {
  cfg_name : string;
  cfg_max_concurrency : Z;
  cfg_output_root : option ConfigLocation;
  cfg_run_root : option string;
  cfg_max_storage_requests : Z;
}.

Record DatasetConfig := {
  cfg_id : string;
  cfg_path : ConfigLocation;
  cfg_policy : option string;
  cfg_target_schema : option string;
  cfg_authorize : list string;
  cfg_output : option string;
}.

Record BatchConfig := {
  cfg_schema_version : Z;
  cfg_batch : BatchSection;
  cfg_datasets : list DatasetConfig;
}.

Definition default_concurrency : Z := 2.

(** [toml::from_str] at [BatchConfig], given how a location field is read, and
    [serde_json::from_slice] of a target schema. *)
Class ConfigFormats := {
  config_from_str : (string -> Result string ConfigLocation) -> string -> Result string BatchConfig;
  fields_from_slice : bytes -> Result string (list FieldDescriptor);
}.

(** The loop of [validate] over the dataset ids. *)
Fixpoint check_ids (seen : gset string) (l : list DatasetConfig) : Result OrchestratorError unit :=
  match l with
  | [] => Ok tt
  | ds :: l =>
      if bool_decide (cfg_id ds ∈ seen) then Err (DuplicateDatasetId (cfg_id ds))
      else check_ids ({[cfg_id ds]} ∪ seen) l
  end.

Definition config_validate (c : BatchConfig) : Result OrchestratorError unit :=
  if negb (bool_decide (cfg_schema_version c = BATCH_CONFIG_SCHEMA_VERSION)) then
    Err (UnsupportedConfigVersion (cfg_schema_version c) BATCH_CONFIG_SCHEMA_VERSION)
  else if bool_decide (cfg_max_concurrency (cfg_batch c) = 0%Z) then
    Err (InvalidConfig "batch.max_concurrency must be >= 1")
  else if bool_decide (cfg_max_storage_requests (cfg_batch c) = 0%Z) then
    Err (InvalidConfig "batch.max_storage_requests must be >= 1")
  else
    _ ← check_ids ∅ (cfg_datasets c);
    match cfg_output_root (cfg_batch c) with
    | None => Err (InvalidConfig "batch.output_root is required")
    | Some _ => Ok tt
    end.

Definition require_output_root (c : BatchConfig) : Result OrchestratorError ConfigLocation :=
  ok_or (cfg_output_root (cfg_batch c))
    (InvalidConfig "batch.output_root is required for planning and execution").

Definition resolve_path (base p : string) : string := local_path_for_policy base p.

(** The derived [Serialize]: fields in declaration order, [skip_serializing_if]
    ones left out. *)
Definition opt_member (k : string) (v : option string) : list (string * json) :=
  match v with Some s => [(k, JStr s)] | None => [] end.
Definition opt_value (v : option string) : json := match v with Some s => JStr s | None => JNull end.

Definition section_json (s : BatchSection) : json :=
  JObj ([("name", JStr (cfg_name s)); ("max_concurrency", JNum (cfg_max_concurrency s))]
        ++ opt_member "output_root" (ConfigLocation_serialize <$> cfg_output_root s)
        ++ opt_member "run_root" (cfg_run_root s)
        ++ [("max_storage_requests", JNum (cfg_max_storage_requests s))]).

Definition dataset_config_json (d : DatasetConfig) : json :=
  JObj ([("id", JStr (cfg_id d)); ("path", JStr (ConfigLocation_serialize (cfg_path d)));
         ("policy", opt_value (cfg_policy d)); ("target_schema", opt_value (cfg_target_schema d))]
        ++ match cfg_authorize d with [] => [] | l => [("authorize", JArr (map JStr l))] end
        ++ opt_member "output" (cfg_output d)).

Definition config_json (c : BatchConfig) : json :=
  JObj [("schema_version", JNum (cfg_schema_version c)); ("batch", section_json (cfg_batch c));
        ("datasets", JArr (map dataset_config_json (cfg_datasets c)))].

Definition batch_config_fingerprint `{Digests} (c : BatchConfig) : string :=
  stable_hex_id "batch-config" (json_to_string (config_json c)).

Section Files.
Context {FS : Type} `{RunFs FS} `{ConfigFs FS} `{UrlParser} `{ConfigFormats} `{Toml}.

Definition config_from_toml (raw : string) : Result OrchestratorError BatchConfig :=
  cfg ← map_err InvalidConfig (config_from_str ConfigLocation_deserialize raw);
  _ ← config_validate cfg;
  Ok cfg.

Definition from_toml_path (p : string) (fs : FS) : Result OrchestratorError BatchConfig :=
  raw ← map_err OrchIo (read_to_string p fs);
  config_from_toml raw.

Definition resolve_policy (base : string) (ds : DatasetConfig) (fs : FS)
    : Result OrchestratorError EffectivePolicy :=
  toml ← match cfg_policy ds with
         | Some p => text ← map_err OrchIo (read_to_string (resolve_path base p) fs); Ok (Some text)
         | None => Ok None
         end;
  map_err InvalidConfig (policy_from_toml toml).

Definition resolve_target_schema (base : string) (ds : DatasetConfig) (fs : FS)
    : Result OrchestratorError (option (list FieldDescriptor)) :=
  match cfg_target_schema ds with
  | None => Ok None
  | Some p =>
      raw ← map_err OrchIo (fs_read (resolve_path base p) fs);
      fields ← map_err OrchJson (fields_from_slice raw);
      Ok (Some fields)
  end.
End Files.

(** * Output mapping (paths.rs) *)

Record OutputMapping := {
  map_dataset_id : string;
  map_source : DatasetLocation;
  map_output : DatasetLocation;
}.

Definition mapping_specs (mappings : list OutputMapping) : list BatchPathSpec :=
  map (fun m => {| dataset_id := map_dataset_id m; source := map_source m; output := map_output m |}) mappings.

(** The loop over [seen_outputs]. *)
Fixpoint check_outputs (seen : gset string) (l : list OutputMapping) : Result OrchestratorError unit :=
  match l with
  | [] => Ok tt
  | m :: l =>
      let key := location_display (map_output m) in
      if bool_decide (key ∈ seen) then
        Err (PathOverlap ("datasets `" +:+ map_dataset_id m +:+ "` and others target the same output `"
                          +:+ key +:+ "`"))
      else check_outputs ({[key]} ∪ seen) l
  end.

(** [config_path.parent().unwrap_or_else(|| Utf8Path::new("."))]. *)
Definition config_base (config_path : string) : string := default "." (path_parent config_path).

Section Mappings.
Context {FS : Type} `{ConfigFs FS} `{UrlParser}.

Definition resolve_dataset_output (base : string) (root : DatasetLocation) (ds : DatasetConfig)
    : Result OrchestratorError DatasetLocation :=
  match cfg_output ds with
  | None => join_output_segment root (cfg_id ds)
  | Some text =>
      if contains "://" text || is_absolute text then parse_output_override text base
      else if has_char "/"%char text || contains ".." text then
        Ok (Local {| path := resolve_path base text |})
      else join_output_segment root text
  end.

Definition dataset_mapping (base : string) (root : DatasetLocation) (fs : FS) (ds : DatasetConfig)
    : Result OrchestratorError OutputMapping :=
  source ← canonicalize_local_location base (as_location (cfg_path ds)) fs;
  output ← resolve_dataset_output base root ds;
  Ok {| map_dataset_id := cfg_id ds; map_source := source; map_output := output |}.

Definition resolve_output_mappings (config : BatchConfig) (base : string) (fs : FS)
    : Result OrchestratorError (list OutputMapping) :=
  configured ← require_output_root config;
  root ← resolve_dataset_location base (as_location configured);
  mappings ← try_map (dataset_mapping base root fs) (cfg_datasets config);
  _ ← check_outputs ∅ mappings;
  _ ← validate_batch_overlap (mapping_specs mappings);
  Ok mappings.

Definition resolve_run_root (config : BatchConfig) (base : string) : Result OrchestratorError string :=
  match cfg_run_root (cfg_batch config) with
  | Some p => Ok (resolve_path base p)
  | None =>
      configured ← require_output_root config;
      root ← resolve_dataset_location base (as_location configured);
      match root with
      | Local local => Ok (path local)
      | S3 _ => Ok (path_join (path_join base ".parqonaut") "runs")
      end
  end.
End Mappings.

(** The batch configuration is checked exactly, its output locations stay below
    their root and apart, and where the derived locations escape the checks. *)

(** * Validation *)

Lemma check_ids_Ok seen l : check_ids seen l = Ok tt <->
  NoDup (map cfg_id l) /\ Forall (fun d => cfg_id d ∉ seen) l.
Proof.
  revert seen. induction l as [|d l IH]; intros seen; cbn [check_ids map].
  - split; [|done]. intros _. split; constructor.
  - rewrite NoDup_cons, Forall_cons. case_bool_decide as Hs; [split; [done|tauto]|].
    rewrite IH, !Forall_forall. setoid_rewrite not_elem_of_union. setoid_rewrite not_elem_of_singleton.
    assert (cfg_id d ∉ map cfg_id l <-> forall x, x ∈ l -> cfg_id x <> cfg_id d) as ->.
    { split.
      - intros Hn x Hx He. apply Hn. rewrite <- He. by apply list_elem_of_fmap_2.
      - intros Hn [x [He Hx]]%list_elem_of_fmap. by apply (Hn x). }
    naive_solver.
Qed.

(** A configuration is accepted exactly when its version is supported, both
    limits are non-zero, the dataset ids are distinct and an output root is
    given. *)
Theorem config_validate_iff c : config_validate c = Ok tt <->
  cfg_schema_version c = BATCH_CONFIG_SCHEMA_VERSION
  /\ cfg_max_concurrency (cfg_batch c) <> 0%Z /\ cfg_max_storage_requests (cfg_batch c) <> 0%Z
  /\ NoDup (map cfg_id (cfg_datasets c)) /\ is_Some (cfg_output_root (cfg_batch c)).
Proof.
  unfold config_validate. repeat case_bool_decide; simpl; try naive_solver.
  rewrite bind_Ok. split.
  - intros ([] & [Hd _]%check_ids_Ok & Hr). destruct (cfg_output_root _); naive_solver.
  - intros (_ & _ & _ & Hd & [r ->]). exists tt. split; [|done]. apply check_ids_Ok.
    split; [done|]. apply Forall_forall. set_solver.
Qed.

(** * Segments below the output root *)

Lemma ends_with_char_inv c s : ends_with_char c s = true -> exists a, s = a +:+ String c EmptyString.
Proof.
  induction s as [|d s IH]; [done|]. destruct s as [|e s]; cbn [ends_with_char].
  - intros ->%bool_decide_eq_true. by exists EmptyString.
  - intros H. destruct (IH H) as [a Ha]. exists (String d a). rewrite Ha. by sapp.
Qed.

Definition segment_ok (s : string) : Prop :=
  s <> EmptyString /\ contains ".." s = false /\ has_char "/"%char s = false.

Lemma segment_valid_name s : segment_ok s -> s <> "." -> valid_name s.
Proof. intros (He & Hd & Hs) Hdot. repeat split; try done. by intros ->. Qed.

Lemma join_output_segment_Ok root seg loc : join_output_segment root seg = Ok loc ->
  segment_ok seg /\ match root, loc with
  | Local r, Local l => path l = path_join (path r) seg
  | S3 r, S3 l => bucket l = bucket r
      /\ prefix l = if decide (prefix r = EmptyString) then seg else trim_end_slash (prefix r) +:+ "/" +:+ seg
  | _, _ => False
  end.
Proof.
  unfold join_output_segment, segment_ok. case_bool_decide; [done|]. simpl.
  destruct (contains _ _), (has_char _ _); try done. by destruct root; intros [= <-].
Qed.

(** Joining a file name adds one component to any base path. *)
Lemma components_join base n : valid_name n -> components (path_join base n) = components base ++ [Normal n].
Proof.
  intros Hn. destruct (decide (base = EmptyString)) as [->|Hb].
  { pose proof Hn as (He & Hd & _ & Hs). unfold path_join. rewrite (not_absolute_no_slash n Hs). simpl.
    unfold components. rewrite (not_absolute_no_slash n Hs), split_char_no by done. simpl.
    rewrite piece_component_name by done. by rewrite decide_False. }
  destruct (ends_with_char "/"%char base) eqn:E; [|by apply components_join_name].
  destruct (ends_with_char_inv _ _ E) as [a ->]. pose proof Hn as (_ & _ & _ & Hs).
  unfold path_join. rewrite (not_absolute_no_slash n Hs), decide_False, E, app_assoc_string by done.
  sapp. unfold components. rewrite !split_char_snoc, !omap_app by done. simpl.
  rewrite piece_component_name by done.
  assert (is_absolute (a +:+ String "/" n) = is_absolute (a +:+ "/")) as ->.
  { destruct a; sapp; by rewrite !is_absolute_cons. }
  rewrite app_nil_r, app_assoc. f_equal. f_equal. destruct (is_absolute _); [done|].
  destruct (split_char _ a) eqn:Ea; [by apply split_char_ne in Ea|done].
Qed.

Lemma starts_with_cancel p a b : starts_with (p +:+ a) (p +:+ b) = starts_with a b.
Proof. unfold starts_with. induction p as [|c p IH]; sapp; [done|]. cbn. by destruct (ascii_dec c c). Qed.

Lemma trim_end_keep f a n : n <> EmptyString -> (forall x y, n = x +:+ String y EmptyString -> f y = false) ->
  trim_end f (a +:+ n) = a +:+ n.
Proof.
  intros Hn Hl.
  assert (trim_end f n = n) as Hk.
  { clear a. induction n as [|c n IH]; [done|]. cbn [trim_end]. destruct n as [|d n].
    - cbn. by rewrite (Hl EmptyString c).
    - rewrite IH; [done|done|]. intros x y E. apply (Hl (String c x) y). rewrite E. by sapp. }
  induction a as [|c a IH]; sapp; [done|]. cbn [trim_end]. rewrite IH.
  destruct (a +:+ n) eqn:E; [|done]. by destruct a.
Qed.

Lemma segment_last s x y : has_char "/"%char s = false -> s = x +:+ String y EmptyString -> is_slash y = false.
Proof.
  intros Hs ->. rewrite has_char_app in Hs. cbn in Hs. unfold is_slash.
  apply bool_decide_eq_false. intros ->. by rewrite orb_true_r in Hs.
Qed.

(** The normalised prefix of a segment under an S3 root. *)
Lemma normalize_s3_segment root : exists common, forall seg loc, join_output_segment (S3 root) seg = Ok loc ->
  exists l, loc = S3 l /\ bucket l = bucket root /\ normalize_s3_prefix (prefix l) = common +:+ seg.
Proof.
  set (base := if decide (prefix root = EmptyString) then EmptyString else trim_end_slash (prefix root) +:+ "/").
  exists (trim_start_slash base). intros seg loc Hj.
  apply join_output_segment_Ok in Hj as ((Hne & _ & Hs) & Hl). destruct loc as [|l]; [done|].
  destruct Hl as [Hb Hp]. exists l. split_and!; [done..|].
  assert (prefix l = base +:+ seg) as ->.
  { rewrite Hp. unfold base. case_decide; sapp; [done|]. rewrite app_assoc_string. by sapp. }
  assert (trim_start_slash (base +:+ seg) = trim_start_slash base +:+ seg) as Ht.
  { destruct (decide (trim_start is_slash base = EmptyString)) as [E|E].
    - unfold trim_start_slash. rewrite E. sapp. destruct seg as [|c seg]; [done|].
      assert (is_slash c = false) as Hc.
      { cbn in Hs. apply orb_false_iff in Hs as [Hs _]. apply bool_decide_eq_false in Hs.
        apply bool_decide_eq_false. congruence. }
      clear -E Hc. induction base as [|d b IH]; sapp; cbn in *; [by rewrite Hc|].
      by destruct (is_slash d); [apply IH|].
    - by apply trim_start_app. }
  unfold normalize_s3_prefix. rewrite Ht. apply trim_end_keep; [done|].
  intros x y E. by eapply segment_last.
Qed.

(** Two datasets that take their outputs from the output root: under a local
    root the outputs overlap exactly when the segments are equal, so distinct
    ids never collide; under an S3 root the comparison is textual and they are
    reported to overlap as soon as one segment is the beginning of the other. *)
Theorem default_outputs_overlap root a b la lb :
  join_output_segment root a = Ok la -> join_output_segment root b = Ok lb -> a <> "." -> b <> "." ->
  locations_overlap la lb =
    match root with
    | Local _ => bool_decide (a = b)
    | S3 _ => starts_with b a || starts_with a b
    end.
Proof.
  intros Ha Hb Hda Hdb. destruct root as [r|r].
  - apply join_output_segment_Ok in Ha as [Sa Ha], Hb as [Sb Hb].
    destruct la as [la|], lb as [lb|]; try done. simpl. unfold paths_overlap, path_starts_with.
    rewrite Ha, Hb, !components_join by by apply segment_valid_name.
    assert (forall x y, components (path r) ++ [Normal x] `prefix_of` components (path r) ++ [Normal y] <-> x = y) as Hp.
    { intros x y. split; [|by intros ->]. intros [t Ht]. rewrite <- app_assoc in Ht.
      apply (inj _) in Ht. simpl in Ht. by injection Ht as ->. }
    destruct (decide (a = b)) as [->|Hne].
    + rewrite !bool_decide_eq_true_2 by (by try apply Hp). done.
    + rewrite !bool_decide_eq_false_2; [done|by intros ?|by rewrite Hp..].
  - destruct (normalize_s3_segment r) as [common Hc].
    apply Hc in Ha as (l & -> & Hla & Hna), Hb as (m & -> & Hlb & Hnb). simpl. unfold s3_prefixes_overlap.
    rewrite Hna, Hnb, !starts_with_cancel, decide_True by congruence. done.
Qed.

(** * Output mappings *)

Lemma check_outputs_Ok seen l : check_outputs seen l = Ok tt ->
  NoDup (map (fun m => location_display (map_output m)) l).
Proof.
  assert (forall l seen, check_outputs seen l = Ok tt ->
    NoDup (map (fun m => location_display (map_output m)) l)
    /\ Forall (fun m => location_display (map_output m) ∉ seen) l) as H.
  { clear. induction l as [|m l IH]; intros seen; cbn [check_outputs map]; [split; constructor|].
    case_bool_decide as Hs; [done|]. intros [Hn Hf]%IH. rewrite Forall_forall in Hf. split.
    - constructor; [|done]. intros (x & Hx & Hin)%list_elem_of_fmap.
      specialize (Hf x Hin). rewrite <- Hx in Hf. set_solver.
    - constructor; [done|]. apply Forall_forall. intros x Hx. specialize (Hf x Hx). set_solver. }
  intros Hc. by apply H in Hc as [Hn _].
Qed.

(** [Path::starts_with] never relates an absolute path and a non-empty relative
    one. *)
Lemma relative_never_overlaps p q : is_absolute p = true -> is_absolute q = false -> components q <> [] ->
  paths_overlap p q = false.
Proof.
  intros Hp Hq Hne. unfold paths_overlap, path_starts_with.
  assert (exists cs, components p = RootDir :: cs) as [cs Hc] by (unfold components; rewrite Hp; by eexists).
  assert (forall cs', components q <> RootDir :: cs') as Hr.
  { intros cs' E. unfold components in E. rewrite Hq in E.
    assert (RootDir ∉ omap piece_component (split_char "/" q)) as Hn.
    { rewrite list_elem_of_omap. intros (s & _ & Hs). unfold piece_component in Hs. by repeat case_decide. }
    destruct (split_char "/" q) as [|s pieces]; [done|]. case_decide; [done|].
    rewrite app_nil_l in E. apply Hn. rewrite E. apply list_elem_of_here. }
  rewrite !bool_decide_eq_false_2; [done|..]; rewrite Hc; intros [t Ht].
  - destruct (components q); [done|]. by eapply Hr.
  - destruct (components q) as [|c cq] eqn:E; [done|]. injection Ht as <- _. by eapply (Hr cq).
Qed.

Section Mappings.
Context {FS : Type} `{ConfigFs FS} `{UrlParser}.

Lemma canonicalize_local_absolute base loc fs l :
  canonicalize_local_location base loc fs = Ok (Local l) -> is_absolute (path l) = true.
Proof.
  unfold canonicalize_local_location. rewrite bind_Ok. intros ([r|r] & _ & Hr); [|done].
  apply bind_Ok in Hr as (q & Hq & Hr). destruct (fs_canonicalize _ _) as [q'|] eqn:E; [|done].
  injection Hq as ->. destruct (utf8_valid q); [|done]. injection Hr as <-. by eapply canonicalize_absolute.
Qed.

Lemma resolve_output_mappings_Ok config base fs ms : resolve_output_mappings config base fs = Ok ms ->
  exists configured root, cfg_output_root (cfg_batch config) = Some configured
    /\ resolve_dataset_location base (as_location configured) = Ok root
    /\ Forall2 (fun d m => dataset_mapping base root fs d = Ok m) (cfg_datasets config) ms
    /\ check_outputs ∅ ms = Ok tt /\ validate_batch_overlap (mapping_specs ms) = Ok tt.
Proof.
  unfold resolve_output_mappings, require_output_root. destruct (cfg_output_root _) as [configured|]; [|done].
  simpl. rewrite bind_Ok. intros (root & Hroot & Hm). exists configured, root.
  apply bind_Ok in Hm as (ms' & Hms & Hm). apply bind_Ok in Hm as ([] & Hc & Hm).
  apply bind_Ok in Hm as ([] & Hv & [= ->]). apply try_map_Ok in Hms. done.
Qed.

Lemma mapping_id base root fs d m : dataset_mapping base root fs d = Ok m -> map_dataset_id m = cfg_id d.
Proof.
  unfold dataset_mapping. rewrite bind_Ok. intros (s & _ & Hm). apply bind_Ok in Hm as (o & _ & [= <-]). done.
Qed.

Lemma mapping_ids base root fs ds ms : Forall2 (fun d m => dataset_mapping base root fs d = Ok m) ds ms ->
  map map_dataset_id ms = map cfg_id ds.
Proof. induction 1 as [|d m ds ms Hm _ IH]; [done|]. simpl. f_equal; [by eapply mapping_id|done]. Qed.

(** The mapping of a configuration keeps the datasets in order with their ids,
    reads local sources at absolute canonical paths, gives every dataset its
    own output, and no object below an output belongs to a source of the batch
    or to another output. *)
Theorem output_mappings_sound config base fs ms :
  resolve_output_mappings config base fs = Ok ms ->
  map map_dataset_id ms = map cfg_id (cfg_datasets config)
  /\ NoDup (map (fun m => location_display (map_output m)) ms)
  /\ (forall m l, m ∈ ms -> map_source m = Local l -> is_absolute (path l) = true)
  /\ (forall i j a b o, ms !! i = Some a -> ms !! j = Some b -> owns (map_output a) o ->
        ~ owns (map_source b) o /\ (i = j \/ ~ owns (map_output b) o)).
Proof.
  intros (configured & root & _ & _ & Hf & Hc & Hv)%resolve_output_mappings_Ok. split_and!.
  - by eapply mapping_ids.
  - by eapply check_outputs_Ok.
  - intros m l [i Hi]%list_elem_of_lookup Hs.
    destruct (Forall2_lookup_r _ _ _ _ _ Hf Hi) as (d & _ & Hd). unfold dataset_mapping in Hd.
    apply bind_Ok in Hd as (s & Hcan & Hd). apply bind_Ok in Hd as (o & _ & [= <-]). simpl in Hs. subst s.
    by eapply canonicalize_local_absolute.
  - intros i j a b o Ha Hb Ho.
    set (spec := fun m => {| dataset_id := map_dataset_id m; source := map_source m; output := map_output m |}).
    apply (accepted_batch_outputs_private (mapping_specs ms) i j (spec a) (spec b) o Hv); [..|done];
      unfold mapping_specs; rewrite list_lookup_fmap; by rewrite ?Ha, ?Hb.
Qed.
End Mappings.
