(* ===== verification/BatchPlanning.v ===== *)
(** Building a batch plan from a configuration and checking a configuration:
    plan.rs, check.rs and the existence tests of storage.rs in
    src/crates/parqonaut-orchestrator/src. *)

From S2P Require Import Prelude Location Errors Overlap BTree Schema.
From S2P Require Import RepairPlan Deps Inventory Rules Planning PlanningProofs Backend RepairExec Execute.
From S2P Require Import Journal Batch Executor Config.

Record BatchCheckReport := {
  chk_ok : bool;
  chk_errors : list string;
  chk_warnings : list string;
  chk_dataset_count : nat;
  chk_output_root : option string;
  chk_config_fingerprint : option string;
}.

Definition check_failure (errors : list string) : BatchCheckReport := {|
  chk_ok := false; chk_errors := errors; chk_warnings := []; chk_dataset_count := 0;
  chk_output_root := None; chk_config_fingerprint := None |}.

(** [Uuid::nil]. *)
Definition nil_uuid : string := "00000000-0000-0000-0000-000000000000".

Section BatchPlanning.
Context {FS : Type} `{RunFs FS} `{ConfigFs FS} `{UrlParser} `{ConfigFormats} `{Toml} `{Digests} `{Serde}.
(** The ids and times a dataset's planning draws, and the version constant. *)
Context (uuid : string -> nat -> string) (now : string -> Z) (PARQONAUT_VERSION : string).
(** The remote backend: a scan of a prefix, and the counts of objects and
    prefixes on the first page of a listing. *)
Context (remote_scan : S3Location -> FS -> Result RepairError ScanReport).
Context (remote_list : S3Location -> FS -> Result StorageError (nat * nat)).

(** * Plans (plan.rs) *)

Definition unscannable_dataset_plan (id : string) (root : DatasetLocation) (policy : EffectivePolicy)
    (target : option (list FieldDescriptor)) : RepairPlan :=
  let root := location_root root in
  let digest := stable_hex_id "unscannable-dataset" root in
  let policy_fp := policy_fingerprint_of policy in {|
    plan_schema_version := PLAN_SCHEMA_VERSION;
    plan_id := stable_hex_id "plan" (digest +:+ ":" +:+ policy_fp);
    plan_parqonaut_version := PARQONAUT_VERSION; dataset_root := root;
    dataset_fingerprint := {| fp_version := 1; fp_root := root; fp_entries := []; digest := digest |};
    policy_fingerprint := policy_fp; generated_at := now id; source_scan_id := nil_uuid; policy := policy;
    operations := []; expected_outcomes := []; diagnosis_findings := []; schema_diff := None;
    schema_conflicts := None; target_schema := target |}.

(** [None] is a panic of the planner. *)
Definition plan_dataset (id : string) (source : DatasetLocation) (policy : EffectivePolicy)
    (target : option (list FieldDescriptor)) (fs : FS) : option RepairPlan :=
  let scanned := match source with Local local => scan_directory (path local) fs | S3 s3 => remote_scan s3 fs end in
  let fallback := unscannable_dataset_plan id source policy target in
  match scanned with
  | Err _ => Some fallback
  | Ok scan =>
      match @generate_plan _ (files_of fs) _ (uuid id) (now id) PARQONAUT_VERSION (location_root source) scan
              policy target with
      | None => None
      | Some (Ok plan) => Some plan
      | Some (Err _) => Some fallback
      end
  end.

(** The loop over the datasets and their mappings. *)
Fixpoint plan_datasets (base : string) (l : list (DatasetConfig * OutputMapping)) (fs : FS)
    : option (Result OrchestratorError (list DatasetPlan)) :=
  match l with
  | [] => Some (Ok [])
  | (ds, mapping) :: l =>
      match resolve_policy base ds fs with
      | Err e => Some (Err e)
      | Ok policy =>
      match resolve_target_schema base ds fs with
      | Err e => Some (Err e)
      | Ok target =>
          plan ← plan_dataset (cfg_id ds) (map_source mapping) policy target fs;
          rest ← plan_datasets base l fs;
          Some (rest ← rest;
                Ok ({| ds_dataset_id := map_dataset_id mapping;
                       ds_source_path := location_display (map_source mapping);
                       ds_output_path := location_display (map_output mapping);
                       ds_repair_plan := plan; ds_authorize := cfg_authorize ds |} :: rest))
      end end
  end.

Definition plan_payload (config_fp output_root run_root : string) (datasets : list DatasetPlan) : json :=
  JObj [("config_fingerprint", JStr config_fp); ("output_root", JStr output_root); ("run_root", JStr run_root);
        ("datasets", JArr (map (fun d => JObj [
           ("id", JStr (ds_dataset_id d)); ("output", JStr (ds_output_path d));
           ("plan_id", JStr (plan_id (ds_repair_plan d)));
           ("source_fp", JStr (digest (dataset_fingerprint (ds_repair_plan d))));
           ("policy_fp", JStr (policy_fingerprint (ds_repair_plan d)))]) datasets))].

Definition build_batch_plan (config : BatchConfig) (config_path : string) (fs : FS)
    : option (Result OrchestratorError BatchPlan) :=
  let base := config_base config_path in
  let prepared :=
    _ ← config_validate config;
    mappings ← resolve_output_mappings config base fs;
    configured ← require_output_root config;
    root ← resolve_dataset_location base (as_location configured);
    run_root ← resolve_run_root config base;
    Ok (mappings, root, run_root) in
  match prepared with
  | Err e => Some (Err e)
  | Ok (mappings, root, run_root) =>
      planned ← plan_datasets base (zip (cfg_datasets config) mappings) fs;
      Some (datasets ← planned;
        let config_fp := batch_config_fingerprint config in
        Ok {| bp_schema_version := BATCH_PLAN_SCHEMA_VERSION;
              bp_batch_plan_id := stable_hex_id "batch-plan"
                (canonical_json (plan_payload config_fp (location_display root) run_root datasets));
              bp_config_fingerprint := config_fp; bp_batch_name := cfg_name (cfg_batch config);
              bp_max_concurrency := cfg_max_concurrency (cfg_batch config);
              bp_max_storage_requests := cfg_max_storage_requests (cfg_batch config);
              bp_output_root := location_display root; bp_run_root := run_root;
              bp_parqonaut_version := PARQONAUT_VERSION; bp_datasets := datasets |})
  end.

(** * Checking a configuration (check.rs) *)

Definition check_success (config : BatchConfig) (root : string) (warnings : list string) : BatchCheckReport := {|
  chk_ok := true; chk_errors := []; chk_warnings := warnings; chk_dataset_count := length (cfg_datasets config);
  chk_output_root := Some root; chk_config_fingerprint := Some (batch_config_fingerprint config) |}.

Definition dataset_exists (location : DatasetLocation) (fs : FS) : Result OrchestratorError bool :=
  match location with
  | Local local => Ok (path_exists (path local) fs)
  | S3 s3 =>
      page ← map_err (fun e => OrchStorage (storage_error_display e)) (remote_list s3 fs);
      Ok (negb (fst page =? 0) || negb (snd page =? 0))
  end.

Definition dataset_is_directory_like (location : DatasetLocation) (fs : FS) : bool :=
  match location with Local local => is_dir (path local) fs | S3 _ => true end.

(** One round of the loop over the datasets: an early report, or a warning. *)
Definition check_missing (ds : DatasetConfig) (what : string) (base : string) (p : option string) (fs : FS)
    : option BatchCheckReport :=
  match p with
  | Some p =>
      let resolved := resolve_path base p in
      if path_exists resolved fs then None
      else Some (check_failure ["dataset `" +:+ cfg_id ds +:+ "`: " +:+ what +:+ " `" +:+ resolved +:+ "` not found"])
  | None => None
  end.

Definition check_dataset (base : string) (ds : DatasetConfig) (mapping : OutputMapping) (fs : FS)
    : Result OrchestratorError (BatchCheckReport + list string) :=
  let shown := location_display (map_source mapping) in
  there ← dataset_exists (map_source mapping) fs;
  if negb there then
    Ok (inl (check_failure ["dataset `" +:+ cfg_id ds +:+ "`: source `" +:+ shown +:+ "` does not exist"]))
  else
    let warnings := if dataset_is_directory_like (map_source mapping) fs then []
      else ["dataset `" +:+ cfg_id ds +:+ "`: source `" +:+ shown +:+ "` is not a directory-like dataset prefix"] in
    match check_missing ds "policy" base (cfg_policy ds) fs with
    | Some report => Ok (inl report)
    | None =>
    match check_missing ds "target_schema" base (cfg_target_schema ds) fs with
    | Some report => Ok (inl report)
    | None => _ ← resolve_policy base ds fs; Ok (inr warnings)
    end end.

Fixpoint check_datasets (base : string) (l : list (DatasetConfig * OutputMapping)) (fs : FS)
    : Result OrchestratorError (BatchCheckReport + list string) :=
  match l with
  | [] => Ok (inr [])
  | (ds, mapping) :: l =>
      step ← check_dataset base ds mapping fs;
      match step with
      | inl report => Ok (inl report)
      | inr warnings =>
          rest ← check_datasets base l fs;
          Ok (match rest with inl report => inl report | inr more => inr (warnings ++ more) end)
      end
  end.

Definition plan_failure (e : OrchestratorError) : BatchCheckReport :=
  check_failure [match e with
                 | Repair e => "repair planning failed: " +:+ repair_error_display e
                 | other => orchestrator_error_display other
                 end].

Definition check_output_root (config : BatchConfig) (root : DatasetLocation) (run_root : string)
    (warnings : list string) (fs : FS) : BatchCheckReport :=
  match root with
  | Local local =>
      if negb (path_exists (path local) fs) then
        check_success config (location_display root)
          (warnings ++ ["output_root `" +:+ path local +:+ "` does not exist yet (will be created on execution)"])
      else if negb (is_dir (path local) fs) then
        check_failure ["output_root `" +:+ path local +:+ "` exists but is not a directory"]
      else check_success config (location_display root) warnings
  | S3 _ =>
      check_success config (location_display root)
        (warnings ++ ["output_root `" +:+ location_display root
                      +:+ "` is remote; run journals will be stored under `" +:+ run_root +:+ "`"])
  end.

Definition batch_check_inner (config_path : string) (fs : FS) : option (Result OrchestratorError BatchCheckReport) :=
  let base := config_base config_path in
  let prepared :=
    config ← from_toml_path config_path fs;
    mappings ← resolve_output_mappings config base fs;
    configured ← require_output_root config;
    root ← resolve_dataset_location base (as_location configured);
    run_root ← resolve_run_root config base;
    checked ← check_datasets base (zip (cfg_datasets config) mappings) fs;
    Ok (config, root, run_root, checked) in
  match prepared with
  | Err e => Some (Err e)
  | Ok (_, _, _, inl report) => Some (Ok report)
  | Ok (config, root, run_root, inr warnings) =>
      built ← build_batch_plan config config_path fs;
      Some (Ok (match built with
                | Err e => plan_failure e
                | Ok _ => check_output_root config root run_root warnings fs
                end))
  end.

Definition batch_check (config_path : string) (fs : FS) : option BatchCheckReport :=
  checked ← batch_check_inner config_path fs;
  Some (match checked with
        | Ok report => report
        | Err e => check_failure [orchestrator_error_display e]
        end).

(** [plan_batch] of run.rs. *)
Definition plan_batch (config_path : string) (fs : FS) : option (Result OrchestratorError BatchPlan) :=
  match from_toml_path config_path fs with
  | Err e => Some (Err e)
  | Ok config => build_batch_plan config config_path fs
  end.
End BatchPlanning.

(** * Planning is total and its plans are accepted *)

Section BatchPlanningProofs.
Context {FS : Type} `{RunFs FS} `{ConfigFs FS} `{UrlParser} `{ConfigFormats} `{Toml} `{Digests} `{Serde}.
Context (uuid : string -> nat -> string) (now : string -> Z) (PARQONAUT_VERSION : string).
Context (remote_scan : S3Location -> FS -> Result RepairError ScanReport).
Context (remote_list : S3Location -> FS -> Result StorageError (nat * nat)).

Local Abbreviation plan_dataset := (plan_dataset uuid now PARQONAUT_VERSION remote_scan).
Local Abbreviation plan_datasets := (plan_datasets uuid now PARQONAUT_VERSION remote_scan).
Local Abbreviation build_batch_plan := (build_batch_plan uuid now PARQONAUT_VERSION remote_scan).

(** Whatever the scan and the planner answer, a dataset gets a plan of the
    current version. *)
Lemma plan_dataset_total id source policy target fs : exists plan,
  plan_dataset id source policy target fs = Some plan /\ plan_schema_version plan = PLAN_SCHEMA_VERSION.
Proof.
  unfold BatchPlanning.plan_dataset. cbv zeta.
  destruct (match source with Local _ => _ | S3 _ => _ end) as [scan|]; [|eauto].
  pose proof (@generate_plan_total _ (files_of fs) _ (uuid id) (now id) PARQONAUT_VERSION (location_root source)
    scan policy target) as Ht.
  destruct (@generate_plan _ _ _ _ _ _ _ _ _ _) as [[plan|]|] eqn:E; [|eauto|done].
  exists plan. split; [done|]. unfold generate_plan in E.
  destruct (from_scan_report _ _) as [inv|]; [|done]. destruct (diagnose _ _ _ _) as [dx|]; [|done].
  cbv zeta in E. destruct (proposals _ _ _ _ _ _) as [[ops|]|]; [|done..]. simpl in E.
  destruct (compute_dataset_fingerprint _ _); [|done]. by injection E as <-.
Qed.

(** The entry of the batch plan for a dataset. *)
Definition planned (mapping : OutputMapping) (ds : DatasetConfig) (p : DatasetPlan) : Prop :=
  ds_dataset_id p = map_dataset_id mapping /\ ds_source_path p = location_display (map_source mapping)
  /\ ds_output_path p = location_display (map_output mapping) /\ ds_authorize p = cfg_authorize ds
  /\ plan_schema_version (ds_repair_plan p) = PLAN_SCHEMA_VERSION.

Lemma plan_datasets_spec base l fs :
  exists r, plan_datasets base l fs = Some r
  /\ (is_ok r = true <-> Forall (fun dm => is_ok (resolve_policy base (fst dm) fs) = true
                                          /\ is_ok (resolve_target_schema base (fst dm) fs) = true) l)
  /\ (forall plans, r = Ok plans -> Forall2 (fun dm p => planned (snd dm) (fst dm) p) l plans).
Proof.
  induction l as [|[ds m] l (r & Hr & Hok & Hps)]; simpl.
  { eexists. split_and!; [done|split; [constructor|done]|]. intros ? [= <-]. constructor. }
  setoid_rewrite Forall_cons. simpl. destruct (resolve_policy base ds fs) as [pol|e]; [|exists (Err e); naive_solver].
  destruct (resolve_target_schema base ds fs) as [target|e]; [|exists (Err e); naive_solver].
  destruct (plan_dataset_total (cfg_id ds) (map_source m) pol target fs) as (p & -> & Hv). simpl.
  rewrite Hr. simpl. eexists. split_and!; [done|..].
  - rewrite <- Hok. destruct r; naive_solver.
  - destruct r as [rest|]; [|done]. intros plans [= <-]. constructor; [done|by apply Hps].
Qed.

Lemma zip_Forall_fst {A B} (P : A -> Prop) (l : list A) (k : list B) : length l = length k ->
  Forall (fun ab => P (fst ab)) (zip l k) <-> Forall P l.
Proof.
  revert k. induction l as [|a l IH]; intros [|b k] Hl; simpl in *; try done.
  rewrite !Forall_cons, IH by lia. done.
Qed.

Lemma zip_Forall_snd {A B} (P : B -> Prop) (l : list A) (k : list B) : length l = length k ->
  Forall (fun ab => P (snd ab)) (zip l k) <-> Forall P k.
Proof.
  revert k. induction l as [|a l IH]; intros [|b k] Hl; simpl in *; try done.
  rewrite !Forall_cons, IH by lia. done.
Qed.

(** Planning a batch never panics, and it succeeds exactly when the
    configuration is valid, its outputs can be mapped and the policy and schema
    files of every dataset can be read: a source that cannot be scanned or
    planned does not fail the batch. *)
Theorem batch_planning_total config config_path fs :
  exists r, build_batch_plan config config_path fs = Some r
  /\ (is_ok r = true <->
      config_validate config = Ok tt
      /\ is_ok (resolve_output_mappings config (config_base config_path) fs) = true
      /\ Forall (fun ds => is_ok (resolve_policy (config_base config_path) ds fs) = true
                           /\ is_ok (resolve_target_schema (config_base config_path) ds fs) = true)
           (cfg_datasets config)).
Proof.
  unfold BatchPlanning.build_batch_plan. cbv zeta. set (base := config_base config_path).
  destruct (config_validate config) as [[]|e]; [|exists (Err e); simpl; naive_solver]. simpl.
  destruct (resolve_output_mappings config base fs) as [ms|e] eqn:Hm; [|exists (Err e); simpl; naive_solver].
  simpl. destruct (resolve_output_mappings_Ok _ _ _ _ Hm) as (configured & root & Hroot & Hres & Hf & _).
  unfold require_output_root, resolve_run_root, require_output_root. rewrite Hroot. simpl. rewrite Hres. simpl.
  assert (exists rr, match cfg_run_root (cfg_batch config) with
    | Some p => Ok (resolve_path base p)
    | None => match root with Local local => Ok (path local)
                            | S3 _ => Ok (path_join (path_join base ".parqonaut") "runs") end
    end = @Ok OrchestratorError _ rr) as [rr ->] by (destruct (cfg_run_root _), root; eauto).
  simpl. destruct (plan_datasets_spec base (zip (cfg_datasets config) ms) fs) as (r & -> & Hok & _). simpl.
  eexists. split; [done|].
  rewrite (zip_Forall_fst (fun ds => is_ok (resolve_policy base ds fs) = true
    /\ is_ok (resolve_target_schema base ds fs) = true)) in Hok by by eapply Forall2_length.
  destruct r; naive_solver.
Qed.

Lemma build_batch_plan_Ok config config_path fs plan : build_batch_plan config config_path fs = Some (Ok plan) ->
  exists ms, resolve_output_mappings config (config_base config_path) fs = Ok ms
  /\ bp_schema_version plan = BATCH_PLAN_SCHEMA_VERSION
  /\ Forall2 (fun dm p => planned (snd dm) (fst dm) p) (zip (cfg_datasets config) ms) (bp_datasets plan).
Proof.
  unfold BatchPlanning.build_batch_plan. cbv zeta.
  destruct (config_validate config) as [[]|]; [|done]. simpl.
  destruct (resolve_output_mappings _ _ _) as [ms|]; [|done]. simpl.
  destruct (require_output_root config) as [configured|]; [|done]. simpl.
  destruct (resolve_dataset_location _ _) as [root|]; [|done]. simpl.
  destruct (resolve_run_root config _) as [rr|]; [|done]. simpl.
  destruct (plan_datasets_spec (config_base config_path) (zip (cfg_datasets config) ms) fs) as (r & -> & _ & Hps).
  simpl. destruct r as [plans|]; [|done]. intros [= <-]. exists ms. split_and!; [done..|by apply Hps].
Qed.

Lemma planned_locations ms ds plans : length ds = length ms ->
  Forall2 (fun dm p => planned (snd dm) (fst dm) p) (zip ds ms) plans ->
  (forall m, m ∈ ms -> parse (location_display (map_source m)) = Ok (map_source m)
                      /\ parse (location_display (map_output m)) = Ok (map_output m)) ->
  try_map (fun d =>
    source ← map_err config_error (parse (ds_source_path d));
    output ← map_err config_error (parse (ds_output_path d));
    Ok {| dataset_id := ds_dataset_id d; source := source; output := output |}) plans = Ok (mapping_specs ms).
Proof.
  revert ds plans. induction ms as [|m ms IH]; intros [|d ds] plans Hl Hf Hp; try done; simpl in *.
  { by inversion Hf. }
  inversion Hf as [|? p ? plans' (Hid & Hs & Ho & _) Hrest]; subst. simpl in *.
  destruct (Hp m) as [Hps Hpo]; [apply list_elem_of_here|]. rewrite Hs, Ho, Hps, Hpo. simpl.
  rewrite (IH ds) by (auto; intros; apply Hp; by apply list_elem_of_further). by rewrite Hid.
Qed.

(** The executor accepts the plans built here: their versions are current, and
    when the displayed locations parse back to themselves the overlap check is
    repeated on the same locations and passes. *)
Theorem built_plan_accepted config config_path fs plan :
  build_batch_plan config config_path fs = Some (Ok plan) ->
  (forall ms m, resolve_output_mappings config (config_base config_path) fs = Ok ms -> m ∈ ms ->
     parse (location_display (map_source m)) = Ok (map_source m)
     /\ parse (location_display (map_output m)) = Ok (map_output m)) ->
  batch_validate_version plan = Ok tt /\ validate_batch_plan plan = Ok tt
  /\ map ds_dataset_id (bp_datasets plan) = map cfg_id (cfg_datasets config).
Proof.
  intros (ms & Hms & Hv & Hf)%build_batch_plan_Ok Hp. specialize (Hp ms).
  destruct (resolve_output_mappings_Ok _ _ _ _ Hms) as (configured & root & _ & _ & Hd & _ & Hval).
  pose proof (Forall2_length _ _ _ Hd) as Hl. split_and!.
  - unfold batch_validate_version. rewrite Hv, bool_decide_eq_true_2 by done. simpl.
    apply try_for_Ok, Forall_lookup. intros i p Hi.
    destruct (Forall2_lookup_r _ _ _ _ _ Hf Hi) as (dm & _ & _ & _ & _ & _ & ->).
    by rewrite bool_decide_eq_true_2.
  - unfold validate_batch_plan, dataset_locations.
    rewrite (planned_locations ms (cfg_datasets config)); [done..|]. intros m. by apply Hp.
  - revert Hf Hd Hl. clear. intros Hf Hd Hl. rewrite <- (mapping_ids _ _ _ _ _ Hd).
    revert Hf Hl. generalize (cfg_datasets config) as ds, (bp_datasets plan) as plans. clear.
    induction ms as [|m ms IH]; intros [|d ds] plans Hf Hl; try done; simpl in *; [by inversion Hf|].
    inversion Hf as [|? p ? plans' (Hid & _) Hrest]; subst. simpl in *. f_equal; [done|]. eapply IH; [done|lia].
Qed.

Local Abbreviation batch_check := (batch_check uuid now PARQONAUT_VERSION remote_scan remote_list).
Local Abbreviation check_datasets := (check_datasets remote_list).

Lemma check_dataset_inr base ds m fs w : check_dataset remote_list base ds m fs = Ok (inr w) ->
  dataset_exists remote_list (map_source m) fs = Ok true /\ is_ok (resolve_policy base ds fs) = true.
Proof.
  unfold check_dataset. cbv zeta. destruct (dataset_exists _ _ _) as [[]|]; simpl; [|done..].
  destruct (check_missing _ _ _ _ _); [done|]. destruct (check_missing _ _ _ _ _); [done|].
  by destruct (resolve_policy _ _ _).
Qed.

Lemma check_dataset_inl base ds m fs report : check_dataset remote_list base ds m fs = Ok (inl report) ->
  chk_ok report = false.
Proof.
  unfold check_dataset, check_missing. cbv zeta. destruct (dataset_exists _ _ _) as [[]|]; simpl; [|by intros [= <-]|done].
  destruct (resolve_policy _ _ _); simpl; repeat (case_match; simpl); intros Hr; by simplify_eq.
Qed.

Lemma check_datasets_spec base l fs r : check_datasets base l fs = Ok r ->
  match r with
  | inl report => chk_ok report = false
  | inr _ => Forall (fun dm => dataset_exists remote_list (map_source (snd dm)) fs = Ok true) l
  end.
Proof.
  revert r. induction l as [|[ds m] l IH]; intros r; simpl; [intros [= <-]; constructor|].
  rewrite bind_Ok. intros ([report|w] & Hs & Hr).
  - injection Hr as <-. by eapply check_dataset_inl.
  - apply bind_Ok in Hr as ([report|more] & Hr & [= <-]); specialize (IH _ Hr); [done|].
    constructor; [|done]. by apply check_dataset_inr in Hs as [? _].
Qed.

(** A configuration that passes the check can be planned: the check ends with a
    report, and when the report is positive every source exists and planning
    with the same files yields a batch plan. *)
Theorem check_passes_plannable config_path fs : exists report,
  batch_check config_path fs = Some report
  /\ (chk_ok report = true -> exists config ms plan,
        from_toml_path config_path fs = Ok config
        /\ resolve_output_mappings config (config_base config_path) fs = Ok ms
        /\ Forall (fun m => dataset_exists remote_list (map_source m) fs = Ok true) ms
        /\ build_batch_plan config config_path fs = Some (Ok plan)
        /\ chk_dataset_count report = length (bp_datasets plan)).
Proof.
  unfold BatchPlanning.batch_check, batch_check_inner. cbv zeta. set (base := config_base config_path).
  destruct (from_toml_path config_path fs) as [config|e]; [|by eexists]. simpl.
  destruct (resolve_output_mappings config base fs) as [ms|e] eqn:Hms; [|by eexists]. simpl.
  destruct (require_output_root config) as [configured|e]; [|by eexists]. simpl.
  destruct (resolve_dataset_location base _) as [root|e]; [|by eexists]. simpl.
  destruct (resolve_run_root config base) as [rr|e]; [|by eexists]. simpl.
  destruct (check_datasets base _ fs) as [[report|w]|e] eqn:Hc; simpl; [..|by eexists];
    apply check_datasets_spec in Hc; [exists report; split; [done|congruence]|].
  destruct (batch_planning_total config config_path fs) as (r & Hr & _). rewrite Hr. simpl.
  destruct r as [plan|e]; [|by eexists]. eexists. split; [done|]. intros Hok. exists config, ms, plan.
  pose proof (resolve_output_mappings_Ok _ _ _ _ Hms) as (? & ? & _ & _ & Hd & _).
  apply Forall2_length in Hd. split_and!; [done|done| |done|].
  - rewrite <- (zip_Forall_snd (fun m => dataset_exists remote_list (map_source m) fs = Ok true)
      (cfg_datasets config)) by done. done.
  - apply build_batch_plan_Ok in Hr as (ms' & Hms' & _ & Hf). apply Forall2_length in Hf.
    fold base in Hms'. rewrite Hms in Hms'. injection Hms' as <-. rewrite length_zip in Hf. revert Hok. unfold check_output_root.
    repeat case_match; simpl; intros; try done; lia.
Qed.
End BatchPlanningProofs.
