(* ===== verification/Lock.v ===== *)
(** The lock file beside a local output: lock.rs of
    src/crates/parqonaut-orchestrator/src.

    Acquiring a lock is a program over single file-system calls, so that
    processes can be interleaved between any two of them and killed anywhere.
    Files are inodes: a handle keeps its inode when the path is removed. *)

From Stdlib Require Import Ascii.
From S2P Require Import Prelude Location Errors BTree Backend Publication Inventory Execute.

(** * The program *)

Inductive CreateError := AlreadyExists | CreateIo (e : string).

Inductive lcall :=
| LCreateDirAll (p : string)
| LCreateNew (p : string)
| LWriteLine (handle : nat) (text : string)
| LOpen (p : string)
| LReadToString (handle : nat)
| LRemoveFile (p : string).

Definition lanswer (c : lcall) : Type :=
  match c with
  | LCreateDirAll _ | LWriteLine _ _ | LRemoveFile _ => Result string unit
  | LCreateNew _ => Result CreateError nat
  | LOpen _ => Result string nat
  | LReadToString _ => Result string string
  end.

Inductive lprog (A : Type) : Type :=
| LRet (a : A)
| LCall (c : lcall) (k : lanswer c -> lprog A).
Arguments LRet {_} _.
Arguments LCall {_} _ _.

#[global] Instance lprog_bind : MBind lprog := fun A B f =>
  fix go (p : lprog A) : lprog B :=
    match p with LRet a => f a | LCall c k => LCall c (fun x => go (k x)) end.

Record DatasetLock := { lock_path : string; lock_file : nat }.

Definition lock_path_for (output : string) : string := output +:+ ".parqonaut.lock".

Definition lock_held (output : string) : OrchestratorError :=
  LockHeld ("output `" +:+ output +:+ "` is locked (existing lockfile `" +:+ lock_path_for output +:+ "`)").

(** The file was created by this call: record the owner. *)
Definition write_owner (output run : string) (handle : nat) : lprog (Result OrchestratorError DatasetLock) :=
  LCall (LWriteLine handle run) (fun r => LRet
    (map_err OrchIo (_ ← r; Ok {| lock_path := lock_path_for output; lock_file := handle |}))).

Definition read_lock_owner (p : string) : lprog (Result string string) :=
  LCall (LOpen p) (fun r =>
    match r with
    | Err e => LRet (Err e)
    | Ok handle => LCall (LReadToString handle) (fun r => LRet (text ← r; Ok (trim text)))
    end).

Definition after_owner (output run : string) (again : lprog (Result OrchestratorError DatasetLock))
    (owner : Result string string) : lprog (Result OrchestratorError DatasetLock) :=
  match owner with
  | Ok owner =>
      if decide (owner = run) then LCall (LRemoveFile (lock_path_for output)) (fun _ => again)
      else LRet (Err (lock_held output))
  | Err _ => LRet (Err (lock_held output))
  end.

(** The lock exists; [again] is the recursive call, made once, when the lock
    carries this run's id. *)
Definition reclaim (output run : string) (again : option (lprog (Result OrchestratorError DatasetLock)))
    : lprog (Result OrchestratorError DatasetLock) :=
  match again with
  | None => LRet (Err (lock_held output))
  | Some again => read_lock_owner (lock_path_for output) ≫= after_owner output run again
  end.

Definition try_create (output run : string) (again : option (lprog (Result OrchestratorError DatasetLock)))
    : lprog (Result OrchestratorError DatasetLock) :=
  LCall (LCreateNew (lock_path_for output)) (fun r =>
    match r with
    | Ok handle => write_owner output run handle
    | Err AlreadyExists => reclaim output run again
    | Err (CreateIo e) => LRet (Err (OrchIo e))
    end).

(** [retries] is 1 for [retried = false], 0 for [retried = true]. *)
Fixpoint acquire_inner (output run : string) (retries : nat) : lprog (Result OrchestratorError DatasetLock) :=
  let again := match retries with 0 => None | S n => Some (acquire_inner output run n) end in
  match path_parent (lock_path_for output) with
  | None => try_create output run again
  | Some parent =>
      LCall (LCreateDirAll parent) (fun r =>
        match r with
        | Err e => LRet (Err (OrchIo e))
        | Ok _ => try_create output run again
        end)
  end.

Definition acquire_dataset_lock (output run : string) : lprog (Result OrchestratorError DatasetLock) :=
  acquire_inner output run 1.

(** [impl Drop]: the path is removed, whatever file it names. *)
Definition drop_lock (l : DatasetLock) : lprog unit := LCall (LRemoveFile (lock_path l)) (fun _ => LRet tt).

Definition map_publication_lock_err (e : PublicationError) : OrchestratorError :=
  match e with
  | PubLockHeld run_id => LockHeld ("remote writer lock held by run `" +:+ run_id +:+ "`")
  | other => OrchStorage (publication_error_display other)
  end.

Section OutputLock.
Context `{Publication.Json WriterLockRecord}.

(** [OutputLock::acquire]: a lock file for a local output, the writer lock of
    the publication protocol for a remote one. *)
Definition output_lock_acquire (output : DatasetLocation) (run : string)
    : lprog (Result OrchestratorError DatasetLock) + prog (Result OrchestratorError RemotePublicationLock) :=
  match output with
  | Local local => inl (acquire_dataset_lock (path local) run)
  | S3 _ => inr (r ← Publication.acquire output run; Ret (map_err map_publication_lock_err r))
  end.

(** [release_for]: the local lock is dropped, the remote one released. *)
Definition output_lock_release (lock : DatasetLock + RemotePublicationLock)
    : lprog unit + prog (Result OrchestratorError unit) :=
  match lock with
  | inl local => inl (drop_lock local)
  | inr remote => inr (r ← Publication.release remote; Ret (map_err map_publication_lock_err r))
  end.
End OutputLock.

(** * The file system *)

Record lock_fs := {
  dir : gmap string nat;
  inodes : gmap nat string;
}.

Definition newline : string := String (Ascii.ascii_of_N 10) EmptyString.

(** A call that does not fail. *)
Definition exec_lcall (c : lcall) (fs : lock_fs) : lanswer c * lock_fs :=
  match c with
  | LCreateDirAll _ => (Ok tt, fs)
  | LCreateNew p =>
      match dir fs !! p with
      | Some _ => (Err AlreadyExists, fs)
      | None => let h := fresh (dom (inodes fs)) in
                (Ok h, {| dir := <[p := h]> (dir fs); inodes := <[h := EmptyString]> (inodes fs) |})
      end
  | LWriteLine h text =>
      (Ok tt, {| dir := dir fs; inodes := <[h := default EmptyString (inodes fs !! h) +:+ text +:+ newline]> (inodes fs) |})
  | LOpen p => (match dir fs !! p with Some h => Ok h | None => Err "No such file or directory" end, fs)
  | LReadToString h => (Ok (default EmptyString (inodes fs !! h)), fs)
  | LRemoveFile p =>
      match dir fs !! p with
      | Some _ => (Ok tt, {| dir := delete p (dir fs); inodes := inodes fs |})
      | None => (Err "No such file or directory", fs)
      end
  end.

Fixpoint run_lprog {A} (p : lprog A) (fs : lock_fs) : A * lock_fs :=
  match p with
  | LRet a => (a, fs)
  | LCall c k => let '(x, fs') := exec_lcall c fs in run_lprog (k x) fs'
  end.

(** What a call may do: succeed as above, or fail; a failed write leaves any
    part of the line in the file. *)
Inductive lstep (fs : lock_fs) : forall c, lanswer c -> lock_fs -> Prop :=
| lstep_exec c : lstep fs c (fst (exec_lcall c fs)) (snd (exec_lcall c fs))
| lstep_create_dir p e : lstep fs (LCreateDirAll p) (Err e) fs
| lstep_create p e : lstep fs (LCreateNew p) (Err (CreateIo e)) fs
| lstep_write h text part rest e : text +:+ newline = part +:+ rest ->
    lstep fs (LWriteLine h text) (Err e)
      {| dir := dir fs; inodes := <[h := default EmptyString (inodes fs !! h) +:+ part]> (inodes fs) |}
| lstep_open p e : lstep fs (LOpen p) (Err e) fs
| lstep_read h e : lstep fs (LReadToString h) (Err e) fs
| lstep_remove p e : lstep fs (LRemoveFile p) (Err e) fs.

(** The next call of a program is answered. *)
Definition prog_step {A} (fs : lock_fs) (p p' : lprog A) (fs' : lock_fs) : Prop :=
  match p with
  | LRet _ => False
  | LCall c k => exists a, lstep fs c a fs' /\ p' = k a
  end.

(** * Processes *)

Abbreviation lock_prog := (lprog (Result OrchestratorError DatasetLock)).

(** Each slot is a run; at any time at most one process works for it. *)
Record lock_sys := {
  files : lock_fs;
  procs : list (option lock_prog);
}.

Section System.
Context (output : string) (runs : list string).

Inductive lock_step (s : lock_sys) : lock_sys -> Prop :=
| step_start i run : runs !! i = Some run -> procs s !! i = Some None ->
    lock_step s {| files := files s; procs := <[i := Some (acquire_dataset_lock output run)]> (procs s) |}
| step_call i p p' fs : procs s !! i = Some (Some p) -> prog_step (files s) p p' fs ->
    lock_step s {| files := fs; procs := <[i := Some p']> (procs s) |}
| step_drop i l a fs : procs s !! i = Some (Some (LRet (Ok l))) -> lstep (files s) (LRemoveFile (lock_path l)) a fs ->
    lock_step s {| files := fs; procs := <[i := None]> (procs s) |}
| step_exit i p : procs s !! i = Some (Some p) ->
    lock_step s {| files := files s; procs := <[i := None]> (procs s) |}.

Inductive lock_reachable (s0 : lock_sys) : lock_sys -> Prop :=
| lock_refl : lock_reachable s0 s0
| lock_trans s s' : lock_reachable s0 s -> lock_step s s' -> lock_reachable s0 s'.

(** The files are arbitrary at the start: earlier runs may have died. *)
Definition lock_initial (fs : lock_fs) : lock_sys := {| files := fs; procs := replicate (length runs) None |}.

Definition holds (s : lock_sys) (i : nat) (l : DatasetLock) : Prop := procs s !! i = Some (Some (LRet (Ok l))).
End System.

(** What a lock file guarantees: the outcome of acquiring it alone, and mutual
    exclusion of runs when each run has one process at a time. *)

(** * Alone *)

Definition owner_of (fs : lock_fs) (h : nat) : string := trim (default EmptyString (inodes fs !! h)).

(** The lock of [output] is the file [h] that names [run]. *)
Definition locked_by (output run : string) (fs : lock_fs) (h : nat) : Prop :=
  dir fs !! lock_path_for output = Some h /\ inodes fs !! h = Some (run +:+ newline).

Lemma run_lprog_bind {A B} (p : lprog A) (f : A -> lprog B) fs :
  run_lprog (p ≫= f) fs = let '(a, fs') := run_lprog p fs in run_lprog (f a) fs'.
Proof.
  revert fs. induction p as [a|c k IH]; intros fs; [done|]. simpl.
  destruct (exec_lcall c fs) as [x fs']. apply IH.
Qed.

Lemma run_acquire_inner output run n fs :
  run_lprog (acquire_inner output run n) fs =
  run_lprog (try_create output run (match n with 0 => None | S n => Some (acquire_inner output run n) end)) fs.
Proof. destruct n; simpl; by destruct (path_parent _). Qed.

Lemma create_absent output run again fs r fs' : dir fs !! lock_path_for output = None ->
  run_lprog (try_create output run again) fs = (r, fs') ->
  exists h, r = Ok {| lock_path := lock_path_for output; lock_file := h |} /\ locked_by output run fs' h.
Proof.
  intros Hd. simpl. rewrite Hd. simpl. intros [= <- <-]. eexists. split; [done|]. split; simpl.
  - by rewrite lookup_insert_eq.
  - by rewrite !lookup_insert_eq.
Qed.

(** Without interference: a free lock is taken and names the run; a lock that
    names the run (left by its crashed process) is replaced; any other lock,
    one whose owner was never written included, is refused and untouched. *)
Theorem acquire_alone output run fs r fs' :
  run_lprog (acquire_dataset_lock output run) fs = (r, fs') ->
  match dir fs !! lock_path_for output with
  | Some h =>
      if decide (owner_of fs h = run)
      then exists h', r = Ok {| lock_path := lock_path_for output; lock_file := h' |} /\ locked_by output run fs' h'
      else r = Err (lock_held output) /\ fs' = fs
  | None => exists h', r = Ok {| lock_path := lock_path_for output; lock_file := h' |} /\ locked_by output run fs' h'
  end.
Proof.
  unfold acquire_dataset_lock. rewrite run_acquire_inner.
  destruct (dir fs !! lock_path_for output) as [h|] eqn:Hd; [|by apply create_absent].
  unfold try_create. cbn [run_lprog exec_lcall]. rewrite Hd. unfold reclaim, read_lock_owner.
  cbn [mbind lprog_bind run_lprog exec_lcall]. rewrite Hd.
  cbn [mbind lprog_bind run_lprog exec_lcall]. unfold after_owner. cbn [Result_bind].
  fold (owner_of fs h). case_decide.
  - cbn [run_lprog exec_lcall]. rewrite Hd. rewrite run_acquire_inner. apply create_absent. simpl.
    by rewrite lookup_delete_eq.
  - by intros [= <- <-].
Qed.

(** * Together *)

Section Exclusion.
Context (output : string) (runs : list string).
Local Abbreviation lp := (lock_path_for output).

(** Run ids are told apart even by the beginning of a line that was only partly
    written, as ids of one length are, and are not changed by trimming. *)
Definition run_ids_ok : Prop :=
  (forall r, r ∈ runs -> trim (r +:+ newline) = r)
  /\ (forall i j ri rj part rest, runs !! i = Some ri -> runs !! j = Some rj ->
        rj +:+ newline = part +:+ rest -> trim part = ri -> i = j).

(** Where a process is in its acquisition. *)
Inductive position :=
| PStart (n : nat) | PCreate (n : nat) | PWrite (h : nat) | POpen | PRead (h : nat) | PRemove
| PHeld (h : nat) | PFail (e : OrchestratorError).

Definition again (run : string) (n : nat) : option lock_prog :=
  match n with 0 => None | S n => Some (acquire_inner output run n) end.

Definition prog_of (run : string) (pos : position) : lock_prog :=
  match pos with
  | PStart n => acquire_inner output run n
  | PCreate n => try_create output run (again run n)
  | PWrite h => write_owner output run h
  | POpen => reclaim output run (again run 1)
  | PRead h => LCall (LReadToString h) (fun r => LRet (text ← r; Ok (trim text)))
                 ≫= after_owner output run (acquire_inner output run 0)
  | PRemove => LCall (LRemoveFile lp) (fun _ => acquire_inner output run 0)
  | PHeld h => LRet (Ok {| lock_path := lp; lock_file := h |})
  | PFail e => LRet (Err e)
  end.

Definition slot_of (run : string) (pos : option position) : option lock_prog := prog_of run <$> pos.

Definition pos_ok (fs : lock_fs) (run : string) (pos : position) : Prop :=
  match pos with
  | PStart n | PCreate n => n <= 1
  | PWrite h => dir fs !! lp = Some h /\ inodes fs !! h = Some EmptyString
  | PHeld h => locked_by output run fs h
  | PRead h => is_Some (inodes fs !! h) /\ (owner_of fs h = run -> dir fs !! lp = Some h)
  | PRemove => exists h, dir fs !! lp = Some h /\ owner_of fs h = run
  | POpen | PFail _ => True
  end.

Definition creator (pos : option position) : bool :=
  match pos with Some (PWrite _ | PHeld _) => true | _ => false end.

Definition fs_ok (fs : lock_fs) : Prop := forall p h, dir fs !! p = Some h -> is_Some (inodes fs !! h).

Record lock_inv (s : lock_sys) (ps : list (option position)) : Prop := {
  inv_fs : fs_ok (files s);
  inv_length : length ps = length runs;
  inv_progs : procs s = zip_with slot_of runs ps;
  inv_pos : forall i run pos, runs !! i = Some run -> ps !! i = Some (Some pos) -> pos_ok (files s) run pos;
  inv_one : forall i j p q, ps !! i = Some p -> ps !! j = Some q -> creator p = true -> creator q = true -> i = j;
}.

Lemma proc_pos s ps i p : lock_inv s ps -> procs s !! i = Some p ->
  exists run pos, runs !! i = Some run /\ ps !! i = Some pos /\ p = slot_of run pos.
Proof. intros Hi. rewrite (inv_progs _ _ Hi). intros (run & pos & ? & ? & ?)%lookup_zip_with_Some. eauto. Qed.

Lemma zip_insert i run pos ps : length ps = length runs -> runs !! i = Some run ->
  zip_with slot_of runs (<[i := pos]> ps)
  = <[i := slot_of run pos]> (zip_with slot_of runs ps).
Proof.
  intros Hl Hr. by rewrite insert_zip_with, (list_insert_id runs).
Qed.

(** A process moves and the files change: what has to hold of the others. *)
Lemma lock_move s ps i run pos fs pos' : lock_inv s ps -> runs !! i = Some run -> ps !! i = Some pos ->
  fs_ok fs -> (forall p, pos' = Some p -> pos_ok fs run p) ->
  (forall j rj pj, i <> j -> runs !! j = Some rj -> ps !! j = Some (Some pj) -> pos_ok (files s) rj pj -> pos_ok fs rj pj) ->
  (creator pos' = true -> creator pos = true \/ forall j q, ps !! j = Some q -> creator q = true -> i = j) ->
  lock_inv {| files := fs; procs := <[i := slot_of run pos']> (procs s) |} (<[i := pos']> ps).
Proof.
  intros [Hfs Hl Hps Hpos Hone] Hr Hp Hfs' Hnew Hothers Hcr.
  assert (i < length ps) by by eapply lookup_lt_Some.
  split; simpl; [done|by rewrite length_insert|by rewrite Hps, (zip_insert i run)|..].
  - intros j rj pj Hj Hpj. destruct (decide (i = j)) as [<-|Hne].
    + rewrite list_lookup_insert_eq in Hpj by done. simplify_eq. by apply Hnew.
    + rewrite list_lookup_insert_ne in Hpj by done. eapply Hothers; eauto.
  - intros j k p q Hj Hk Cp Cq.
    destruct (decide (i = j)) as [<-|Hj'], (decide (i = k)) as [<-|Hk']; [done|..];
      rewrite ?list_lookup_insert_eq in Hj by done; rewrite ?list_lookup_insert_eq in Hk by done;
      rewrite ?list_lookup_insert_ne in Hj by done; rewrite ?list_lookup_insert_ne in Hk by done; simplify_eq.
    + destruct (Hcr Cp) as [C|C]; [by eapply Hone|by eapply C].
    + destruct (Hcr Cq) as [C|C]; [by eapply Hone|symmetry; by eapply C].
    + by eapply Hone.
Qed.

(** ** Changes of the files, seen by another process *)

Definition failed {c} : lanswer c -> Prop :=
  match c with
  | LCreateNew _ => fun a => exists e, a = Err (CreateIo e)
  | LCreateDirAll _ | LWriteLine _ _ | LRemoveFile _ | LOpen _ | LReadToString _ => fun a => exists e, a = Err e
  end.

Lemma lstep_inv fs c a fs' : lstep fs c a fs' ->
  (a = fst (exec_lcall c fs) /\ fs' = snd (exec_lcall c fs))
  \/ failed a /\ (fs' = fs \/ exists h text part rest, c = LWriteLine h text /\ text +:+ newline = part +:+ rest
       /\ fs' = {| dir := dir fs; inodes := <[h := default EmptyString (inodes fs !! h) +:+ part]> (inodes fs) |}).
Proof. destruct 1; [by left|right; unfold failed; eauto 10..]. Qed.

Section Frames.
Context (Hids : run_ids_ok) (fs : lock_fs) (i j : nat) (ri rj : string).
Context (Hi : runs !! i = Some ri) (Hj : runs !! j = Some rj) (Hne : i <> j).

Lemma other_owner part rest : ri +:+ newline = part +:+ rest -> trim part <> rj.
Proof. intros Hp Ht. destruct Hids as [_ H]. apply Hne. symmetry. by eapply (H j i). Qed.

Lemma own_line : trim (rj +:+ newline) = rj.
Proof. destruct Hids as [H _]. apply H. by eapply list_elem_of_lookup_2. Qed.

Lemma frame_create h pos : dir fs !! lp = None -> inodes fs !! h = None -> pos_ok fs rj pos ->
  pos_ok {| dir := <[lp := h]> (dir fs); inodes := <[h := EmptyString]> (inodes fs) |} rj pos.
Proof.
  intros Hd Hh. destruct pos as [n|n|h'| |h'| |h'|e]; simpl; try done.
  - intros [H' _]. by rewrite Hd in H'.
  - intros [[c Hc] H']. assert (h' <> h) by congruence. unfold owner_of in *. simpl.
    rewrite lookup_insert_ne, Hc in * by done. split; [by eexists|]. intros Ho.
    rewrite Hd in H'. by specialize (H' Ho).
  - intros (h' & H' & _). by rewrite Hd in H'.
  - intros [H' _]. by rewrite Hd in H'.
Qed.

Lemma frame_write h part rest pos : dir fs !! lp = Some h -> inodes fs !! h = Some EmptyString ->
  ri +:+ newline = part +:+ rest -> creator (Some pos) = false -> pos_ok fs rj pos ->
  pos_ok {| dir := dir fs; inodes := <[h := default EmptyString (inodes fs !! h) +:+ part]> (inodes fs) |} rj pos.
Proof.
  intros Hd Hh Hp Hc. destruct pos as [n|n|h'| |h'| |h'|e]; simpl; try done.
  - intros [Hs H']. unfold owner_of. simpl. destruct (decide (h' = h)) as [->|Hh'].
    + rewrite lookup_insert_eq, Hh. simpl. rewrite app_empty_string. split; [by eexists|]. intros Ho.
      by apply (other_owner part rest) in Ho.
    + by rewrite lookup_insert_ne.
  - intros (h' & H' & Ho). rewrite Hd in H'. injection H' as <-. unfold owner_of in Ho. rewrite Hh in Ho.
    exfalso. by eapply (other_owner EmptyString (ri +:+ newline)).
Qed.

Lemma frame_remove h pos : dir fs !! lp = Some h -> owner_of fs h = ri -> pos_ok fs rj pos ->
  pos_ok {| dir := delete lp (dir fs); inodes := inodes fs |} rj pos.
Proof.
  intros Hd Ho. assert (owner_of fs h <> rj) as Hr.
  { rewrite Ho. intros E. destruct Hids as [Ht H]. apply Hne. eapply (H i j ri rj (rj +:+ newline) EmptyString); eauto.
    - by rewrite app_nil_string.
    - rewrite own_line. congruence. }
  destruct pos as [n|n|h'| |h'| |h'|e]; simpl; try done.
  - intros [H' Hw]. rewrite Hd in H'. injection H' as <-. unfold owner_of in Ho. rewrite Hw in Ho. simpl in Ho.
    exfalso. apply Hne. destruct Hids as [_ H]. by eapply (H i j ri rj EmptyString (rj +:+ newline)).
  - intros [Hs H']. split; [done|]. intros Ho'. specialize (H' Ho'). rewrite Hd in H'. injection H' as <-. done.
  - intros (h' & H' & Ho'). rewrite Hd in H'. injection H' as <-. done.
  - intros [H' Hw]. rewrite Hd in H'. injection H' as <-. unfold owner_of in Hr. rewrite Hw in Hr. simpl in Hr.
    by rewrite own_line in Hr.
Qed.
End Frames.

(** ** Steps *)

Lemma again_le n run : n <= 1 -> again run n = None \/ (n = 1 /\ again run n = Some (acquire_inner output run 0)).
Proof. destruct n as [|[|]]; [by left|by right|lia]. Qed.

(** The first call of an acquisition. *)
Lemma start_cases run n : acquire_inner output run n = prog_of run (PCreate n)
  \/ exists p, acquire_inner output run n = LCall (LCreateDirAll p) (fun r =>
       match r with Err e => LRet (Err (OrchIo e)) | Ok _ => prog_of run (PCreate n) end).
Proof. destruct n; simpl; destruct (path_parent lp); eauto. Qed.

Lemma fs_ok_create fs h : fs_ok fs -> fs_ok {| dir := <[lp := h]> (dir fs); inodes := <[h := EmptyString]> (inodes fs) |}.
Proof.
  intros Hfs p h' Hp. simpl in *. destruct (decide (h' = h)) as [->|]; [by rewrite lookup_insert_eq; eexists|].
  rewrite lookup_insert_ne by done. apply (Hfs p). destruct (decide (p = lp)) as [->|].
  - by rewrite lookup_insert_eq in Hp; simplify_eq.
  - by rewrite lookup_insert_ne in Hp.
Qed.

Lemma fs_ok_write fs h text : fs_ok fs -> fs_ok {| dir := dir fs; inodes := <[h := text]> (inodes fs) |}.
Proof.
  intros Hfs p h' Hp. simpl in *. destruct (decide (h' = h)) as [->|]; [by rewrite lookup_insert_eq; eexists|].
  rewrite lookup_insert_ne by done. by apply (Hfs p).
Qed.

Lemma fs_ok_remove fs : fs_ok fs -> fs_ok {| dir := delete lp (dir fs); inodes := inodes fs |}.
Proof. intros Hfs p h Hp. simpl in Hp. apply lookup_delete_Some in Hp as [_ Hp]. by eapply Hfs. Qed.

(** A process that only moves. *)
Lemma lock_quiet s ps i run pos pos' : lock_inv s ps -> runs !! i = Some run -> ps !! i = Some pos ->
  (forall p, pos' = Some p -> pos_ok (files s) run p) -> creator pos' = false ->
  lock_inv {| files := files s; procs := <[i := slot_of run pos']> (procs s) |} (<[i := pos']> ps).
Proof. intros Hinv Hr Hp Hok Hc. eapply lock_move; eauto; [apply Hinv|congruence]. Qed.

(** The path is removed by a process whose run the file names. *)
Lemma lock_removed s ps i run pos pos' h : run_ids_ok -> lock_inv s ps -> runs !! i = Some run -> ps !! i = Some pos ->
  dir (files s) !! lp = Some h -> owner_of (files s) h = run -> (forall p, pos' = Some p -> exists n, p = PStart n /\ n <= 1) ->
  lock_inv {| files := {| dir := delete lp (dir (files s)); inodes := inodes (files s) |};
              procs := <[i := slot_of run pos']> (procs s) |} (<[i := pos']> ps).
Proof.
  intros Hids Hinv Hr Hp Hd Ho Hpos. eapply lock_move; eauto.
  - apply fs_ok_remove, Hinv.
  - intros p (n & -> & Hn)%Hpos. done.
  - intros j rj pj Hne Hj _. by eapply (frame_remove Hids _ i j run rj).
  - destruct pos' as [p|]; [|done]. destruct (Hpos p eq_refl) as (n & -> & _). done.
Qed.

(** One call of a process keeps the invariant. *)
Lemma create_inv s ps i run n p' fs : run_ids_ok -> lock_inv s ps -> runs !! i = Some run -> n <= 1 ->
  (exists pos, ps !! i = Some (Some pos) /\ creator (Some pos) = false) ->
  prog_step (files s) (prog_of run (PCreate n)) p' fs ->
  exists ps', lock_inv {| files := fs; procs := <[i := Some p']> (procs s) |} ps'.
Proof.
  intros Hids Hinv Hr Hn (pos & Hp & Hnc) (a & Hs & ->). apply lstep_inv in Hs as [[-> ->]|[[e ->] Hf]].
  - simpl. destruct (dir (files s) !! lp) as [h|] eqn:Hd; simpl.
    + destruct (again_le n run Hn) as [->|[-> ->]].
      * eexists. apply (lock_quiet s ps i run (Some pos) (Some (PFail (lock_held output)))); try done. by intros ? [= <-].
      * eexists. apply (lock_quiet s ps i run (Some pos) (Some POpen)); try done. by intros ? [= <-].
    + set (h := fresh (dom (inodes (files s)))).
      assert (inodes (files s) !! h = None) as Hh by (apply not_elem_of_dom, is_fresh).
      eexists. eapply (lock_move s ps i run (Some pos) _ (Some (PWrite h))); eauto.
      * apply fs_ok_create, Hinv.
      * intros p [= <-]. simpl. by rewrite !lookup_insert_eq.
      * intros j rj pj Hne Hj _. by apply (frame_create (files s) rj).
      * intros _. right. intros j q Hj Hq. destruct q as [q|]; [|done].
        assert (exists rj, runs !! j = Some rj) as [rj Hrj].
        { apply lookup_lt_is_Some. rewrite <- (inv_length _ _ Hinv). by eapply lookup_lt_Some. }
        pose proof (inv_pos _ _ Hinv _ _ _ Hrj Hj) as Hok.
        destruct q; try done; destruct Hok as [Hok _]; by rewrite Hd in Hok.
  - destruct Hf as [->|(h & t & part & rest & [=] & _)]. eexists.
    apply (lock_quiet s ps i run (Some pos) (Some (PFail (OrchIo e)))); try done. by intros ? [= <-].
Qed.

(** The owner line is written, or part of it. *)
Lemma write_inv s ps i run h part rest pos' : run_ids_ok -> lock_inv s ps -> runs !! i = Some run ->
  ps !! i = Some (Some (PWrite h)) -> run +:+ newline = part +:+ rest ->
  (pos' = PHeld h /\ part = run +:+ newline \/ exists e, pos' = PFail e) ->
  lock_inv {| files := {| dir := dir (files s);
                inodes := <[h := default EmptyString (inodes (files s) !! h) +:+ part]> (inodes (files s)) |};
              procs := <[i := Some (prog_of run pos')]> (procs s) |} (<[i := Some pos']> ps).
Proof.
  intros Hids Hinv Hr Hp Hpart Hpos'. destruct (inv_pos _ _ Hinv _ _ _ Hr Hp) as [Hd Hh].
  eapply (lock_move s ps i run _ _ (Some pos')); eauto.
  - apply fs_ok_write, Hinv.
  - intros p [= <-]. destruct Hpos' as [[-> ->]|[e ->]]; [|done].
    simpl. unfold locked_by. simpl. by rewrite lookup_insert_eq, Hh.
  - intros j rj pj Hne Hj Hpj. eapply (frame_write Hids (files s) i j run rj); eauto.
    destruct (creator (Some pj)) eqn:C; [|done]. exfalso. apply Hne. by eapply (inv_one _ _ Hinv).
Qed.

Lemma lock_call_inv s ps i run pos p' fs : run_ids_ok -> lock_inv s ps -> runs !! i = Some run -> ps !! i = Some (Some pos) ->
  prog_step (files s) (prog_of run pos) p' fs ->
  exists ps', lock_inv {| files := fs; procs := <[i := Some p']> (procs s) |} ps'.
Proof.
  intros Hids Hinv Hr Hp Hs. pose proof (inv_pos _ _ Hinv _ _ _ Hr Hp) as Hok.
  pose proof (fun pos' => lock_quiet s ps i run (Some pos) pos' Hinv Hr Hp) as Hq.
  destruct pos as [n|n|h| |h| |h|e]; simpl in Hok.
  - simpl in Hs. destruct (start_cases run n) as [E|[d E]]; rewrite E in Hs.
    + by eapply create_inv; eauto.
    + destruct Hs as (a & Hs & ->). apply lstep_inv in Hs as [[-> ->]|[[e ->] [->|(? & ? & ? & ? & [=] & _)]]].
      * eexists. apply (Hq (Some (PCreate n))); [|done]. by intros ? [= <-].
      * eexists. apply (Hq (Some (PFail (OrchIo e)))); [|done]. by intros ? [= <-].
  - by eapply create_inv; eauto.
  - pose proof (fun part rest pos' => write_inv s ps i run h part rest pos' Hids Hinv Hr Hp) as Hw.
    destruct Hs as (a & Hs & ->). apply lstep_inv in Hs as [[-> ->]|[[e ->] [->|(h' & t & part & rest & [= <- <-] & Hpr & ->)]]].
    + eexists. simpl. apply (Hw (run +:+ newline) EmptyString (PHeld h)); [by rewrite app_nil_string|by left].
    + eexists. apply (Hq (Some (PFail (OrchIo e)))); [|done]. by intros ? [= <-].
    + eexists. apply (Hw part rest (PFail (OrchIo e)) Hpr). eauto.
  - destruct Hs as (a & Hs & ->). apply lstep_inv in Hs as [[-> ->]|[[e ->] [->|(? & ? & ? & ? & [=] & _)]]].
    + simpl. destruct (dir (files s) !! lp) as [h|] eqn:Hd.
      * eexists. apply (Hq (Some (PRead h))); [|done]. intros ? [= <-]. simpl.
        split; [by eapply (inv_fs _ _ Hinv)|done].
      * eexists. apply (Hq (Some (PFail (lock_held output)))); [|done]. by intros ? [= <-].
    + eexists. apply (Hq (Some (PFail (lock_held output)))); [|done]. by intros ? [= <-].
  - destruct Hs as (a & Hs & ->). apply lstep_inv in Hs as [[-> ->]|[[e ->] [->|(? & ? & ? & ? & [=] & _)]]].
    + simpl. case_decide as Ho.
      * eexists. apply (Hq (Some PRemove)); [|done]. intros ? [= <-]. simpl. destruct Hok as [_ Hok]. eauto.
      * eexists. apply (Hq (Some (PFail (lock_held output)))); [|done]. by intros ? [= <-].
    + eexists. apply (Hq (Some (PFail (lock_held output)))); [|done]. by intros ? [= <-].
  - destruct Hok as (h & Hd & Ho). destruct Hs as (a & Hs & ->).
    apply lstep_inv in Hs as [[-> ->]|[[e ->] [->|(? & ? & ? & ? & [=] & _)]]].
    + simpl. rewrite Hd. simpl. eexists. eapply (lock_removed s ps i run _ (Some (PStart 0))); eauto.
      intros p [= <-]. eauto.
    + eexists. apply (Hq (Some (PStart 0))); [|done]. intros ? [= <-]. simpl. lia.
  - done.
  - done.
Qed.

Lemma step_inv s s' ps : run_ids_ok -> lock_inv s ps -> lock_step output runs s s' -> exists ps', lock_inv s' ps'.
Proof.
  intros Hids Hinv Hs. destruct Hs as [i run Hr Hn|i p p' fs Hp Hs|i l a fs Hp Hs|i p Hp].
  - destruct (proc_pos _ _ _ _ Hinv Hn) as (run' & pos & Hr' & Hpos & Hsl). simplify_eq.
    eexists. apply (lock_quiet s ps i run pos (Some (PStart 1))); [done..| |done]. intros ? [= <-]. simpl. lia.
  - destruct (proc_pos _ _ _ _ Hinv Hp) as (run & [pos|] & Hr & Hpos & Hsl); [|done].
    injection Hsl as ->. by eapply lock_call_inv.
  - destruct (proc_pos _ _ _ _ Hinv Hp) as (run & [pos|] & Hr & Hpos & Hsl); [|done].
    assert (exists h, pos = PHeld h /\ lock_path l = lp) as (h & -> & Hl).
    { injection Hsl as Hl. destruct pos as [[|n]|n|h| |h| |h|e]; simpl in Hl; try done;
        try (by destruct (path_parent _)). injection Hl as ->. eauto. }
    pose proof (inv_pos _ _ Hinv _ _ _ Hr Hpos) as [Hd Hh]. rewrite Hl in Hs.
    apply lstep_inv in Hs as [[-> ->]|[[e ->] [->|(? & ? & ? & ? & [=] & _)]]].
    + simpl. rewrite Hd. eexists. apply (lock_removed s ps i run _ None h Hids Hinv Hr Hpos Hd); [|done].
      unfold owner_of. rewrite Hh. simpl. destruct Hids as [Ht _]. apply Ht. by eapply list_elem_of_lookup_2.
    + eexists. by apply (lock_quiet s ps i run _ None Hinv Hr Hpos).
  - destruct (proc_pos _ _ _ _ Hinv Hp) as (run & pos & Hr & Hpos & _).
    eexists. by apply (lock_quiet s ps i run _ None Hinv Hr Hpos).
Qed.

Lemma lock_initial_inv fs : fs_ok fs -> lock_inv (lock_initial runs fs) (replicate (length runs) None).
Proof.
  intros Hfs. split; simpl; [done|by rewrite length_replicate|..].
  - symmetry. induction runs as [|r l IH]; simpl; [done|]. by rewrite IH.
  - intros i run pos _ [? _]%lookup_replicate. done.
  - intros i j p q [-> _]%lookup_replicate. done.
Qed.

Lemma lock_reachable_inv fs s : run_ids_ok -> fs_ok fs -> lock_reachable output runs (lock_initial runs fs) s ->
  exists ps, lock_inv s ps.
Proof.
  intros Hids Hfs. induction 1 as [|s s' _ [ps IH] Hs]; [eexists; by apply lock_initial_inv|]. by eapply step_inv.
Qed.

(** C11: Runs whose ids can be told apart exclude each other, as long as each run has
    at most one process at a time: whatever the interleaving of the calls, the
    failures and the kills, and whatever lock files were left behind, at most
    one process holds the lock of an output, and the lock file names its run. *)
Theorem lock_excludes_other_runs fs s i j li lj run :
  run_ids_ok -> fs_ok fs -> lock_reachable output runs (lock_initial runs fs) s ->
  holds s i li -> runs !! i = Some run ->
  locked_by output run (files s) (lock_file li) /\ (holds s j lj -> i = j).
Proof.
  intros Hids Hfs Hs Hi Hr. destruct (lock_reachable_inv _ _ Hids Hfs Hs) as [ps Hinv].
  assert (forall k lk, holds s k lk -> exists r h, runs !! k = Some r /\ ps !! k = Some (Some (PHeld h)) /\ lock_file lk = h)
    as Hheld.
  { intros k lk Hk. destruct (proc_pos _ _ _ _ Hinv Hk) as (r & [pos|] & Hrk & Hpos & Hsl); [|done].
    injection Hsl as Hl. destruct pos as [[|n]|n|h| |h| |h|e]; simpl in Hl; try done;
      try (by destruct (path_parent _)). injection Hl as ->. eauto 10. }
  destruct (Hheld _ _ Hi) as (r & h & Hr' & Hp & <-). simplify_eq. split.
  - by apply (inv_pos _ _ Hinv _ _ _ Hr Hp).
  - intros Hj. destruct (Hheld _ _ Hj) as (r' & h' & _ & Hp' & _). by eapply (inv_one _ _ Hinv).
Qed.
End Exclusion.

(** * Witness and counterexample *)

Definition empty_fs : lock_fs := {| dir := ∅; inodes := ∅ |}.

(** Let process [i] answer its next calls without failures. *)
Fixpoint drive (n i : nat) (s : lock_sys) : lock_sys :=
  match n with
  | 0 => s
  | S n =>
      match procs s !! i with
      | Some (Some (LCall c k)) =>
          let '(a, fs) := exec_lcall c (files s) in
          drive n i {| files := fs; procs := <[i := Some (k a)]> (procs s) |}
      | _ => s
      end
  end.

Definition launch (output run : string) (i : nat) (s : lock_sys) : lock_sys :=
  {| files := files s; procs := <[i := Some (acquire_dataset_lock output run)]> (procs s) |}.

(** The holder in slot [i] drops its lock. *)
Definition let_go (i : nat) (s : lock_sys) : lock_sys :=
  match procs s !! i with
  | Some (Some (LRet (Ok l))) =>
      {| files := snd (exec_lcall (LRemoveFile (lock_path l)) (files s)); procs := <[i := None]> (procs s) |}
  | _ => s
  end.

Lemma drive_reachable output runs s0 n i s : lock_reachable output runs s0 s ->
  lock_reachable output runs s0 (drive n i s).
Proof.
  revert s. induction n as [|n IH]; intros s Hs; [done|]. simpl.
  destruct (procs s !! i) as [[[|c k]|]|] eqn:E; try done. destruct (exec_lcall c (files s)) as [a fs] eqn:Ec.
  apply IH. eapply lock_trans; [done|]. eapply step_call; [done|]. exists a. split; [|done].
  pose proof (lstep_exec (files s) c) as Hl. by rewrite Ec in Hl.
Qed.

Lemma launch_reachable output runs s0 run i s : runs !! i = Some run -> procs s !! i = Some None ->
  lock_reachable output runs s0 s -> lock_reachable output runs s0 (launch output run i s).
Proof. intros Hr Hp Hs. eapply lock_trans; [done|]. by eapply step_start. Qed.

Lemma let_go_reachable output runs s0 i s : lock_reachable output runs s0 s ->
  lock_reachable output runs s0 (let_go i s).
Proof.
  intros Hs. unfold let_go. destruct (procs s !! i) as [[[[l|]|]|]|] eqn:E; try done.
  eapply lock_trans; [done|]. eapply step_drop; [done|]. apply lstep_exec.
Qed.

Definition one_holder : lock_sys :=
  drive 6 0 (launch "/out/a" "run-1" 0 (lock_initial ["run-1"; "run-2"] empty_fs)).

Fixpoint prefixes (s : string) : list string :=
  EmptyString :: match s with EmptyString => [] | String c s => map (String c) (prefixes s) end.

Lemma prefixes_app a b : a ∈ prefixes (a +:+ b).
Proof.
  induction a as [|c a IH]; sapp; [destruct b; apply list_elem_of_here|].
  simpl. apply list_elem_of_further, list_elem_of_fmap_2, IH.
Qed.

Lemma run_ids_12 : run_ids_ok ["run-1"; "run-2"].
Proof.
  split; [apply Forall_forall; by repeat constructor|].
  assert (Forall (fun part => trim part <> "run-1") (prefixes ("run-2" +:+ newline))) as H1
    by (vm_compute; repeat constructor; discriminate).
  assert (Forall (fun part => trim part <> "run-2") (prefixes ("run-1" +:+ newline))) as H2
    by (vm_compute; repeat constructor; discriminate).
  rewrite Forall_forall in H1, H2. intros i j ri rj part rest Hi Hj Hp Ht.
  assert (part ∈ prefixes (rj +:+ newline)) as Hin by (rewrite Hp; apply prefixes_app).
  destruct i as [|[|]], j as [|[|]]; try done; injection Hi as <-; injection Hj as <-; exfalso;
    [by apply (H1 part)|by apply (H2 part)].
Qed.

Lemma lock_excludes_other_runs_witness :
  locked_by "/out/a" "run-1" (files one_holder) 0
  /\ (holds one_holder 1 {| lock_path := "/out/a.parqonaut.lock"; lock_file := 0 |} -> 0 = 1).
Proof.
  refine (lock_excludes_other_runs "/out/a" ["run-1"; "run-2"] empty_fs one_holder 0 1
    {| lock_path := "/out/a.parqonaut.lock"; lock_file := 0 |} _ "run-1" run_ids_12 _ _ _ _).
  - intros p h Hp. by vm_compute in Hp.
  - unfold one_holder. apply drive_reachable, launch_reachable; [done..|]. apply lock_refl.
  - by vm_compute.
  - done.
Defined.

Lemma acquire_alone_witness : exists h,
  fst (run_lprog (acquire_dataset_lock "/out/a" "run-1") empty_fs)
    = Ok {| lock_path := lock_path_for "/out/a"; lock_file := h |}
  /\ locked_by "/out/a" "run-1" (snd (run_lprog (acquire_dataset_lock "/out/a" "run-1") empty_fs)) h.
Proof. exact (acquire_alone "/out/a" "run-1" empty_fs _ _ (surjective_pairing _)). Defined.

Definition shared_run : lock_sys :=
  let s := drive 6 0 (launch "/out/a" "run-1" 0 (lock_initial ["run-1"; "run-1"; "run-2"] empty_fs)) in
  let s := let_go 0 (drive 12 1 (launch "/out/a" "run-1" 1 s)) in
  drive 6 2 (launch "/out/a" "run-2" 2 s).

(** Two processes working for one run (a run resumed twice) are not told apart:
    the second takes over the lock the first still holds, the first then removes
    the lock file of the second, and a different run acquires the output while
    the second is at work. *)
Theorem resumed_twice_loses_lock : exists l1 l2,
  lock_reachable "/out/a" ["run-1"; "run-1"; "run-2"] (lock_initial ["run-1"; "run-1"; "run-2"] empty_fs) shared_run
  /\ holds shared_run 1 l1 /\ holds shared_run 2 l2 /\ locked_by "/out/a" "run-2" (files shared_run) (lock_file l2).
Proof.
  exists {| lock_path := "/out/a.parqonaut.lock"; lock_file := 1 |},
    {| lock_path := "/out/a.parqonaut.lock"; lock_file := 2 |}. split; [|by vm_compute].
  unfold shared_run. cbv zeta. apply drive_reachable, launch_reachable; [done..|].
  apply let_go_reachable, drive_reachable, launch_reachable; [done..|].
  apply drive_reachable, launch_reachable; [done..|]. apply lock_refl.
Qed.
