(* ===== verification/BatchVerify.v ===== *)
(** Verification of a finished batch and the commands around a run: verify.rs
    and run.rs of src/crates/parqonaut-orchestrator/src. *)

From stdpp Require Import gmap.
From S2P Require Import Prelude Location Errors Overlap BTree Schema.
From S2P Require Import RepairPlan Deps Inventory Rules Planning Verify Backend Publication RepairExec Execute.
From S2P Require Import Journal Batch Executor Run.

(** * Verification (verify.rs) *)

Record BatchVerifyReport := {
  bv_ok : bool;
  bv_datasets : list DatasetVerifyResult;
  bv_passed : Z;
  bv_failed : Z;
  bv_skipped : Z;
}.

Definition is_s3 (p : string) : bool := starts_with "s3://" p.

(** What the verification of one dataset adds to the report. *)
Inductive Verdict := Passed | Failed | Skipped.

#[global] Instance Verdict_eq_dec : EqDecision Verdict.
Proof. solve_decision. Defined.

Section BatchVerify.
Context {FS St : Type} `{RepairFs FS} `{RunFs FS} `{StorageBackend St} `{UrlParser} `{Digests} `{Serde}.
Context `{Publication.Json CommitMarker}.
(** Ids drawn by the two diagnoses of a dataset, the scan of a remote prefix
    and [ExecutionManifest::read_json]. *)
Context (u1 u2 : string -> nat -> string).
Context (remote_scan : S3Location -> FS -> Result RepairError ScanReport).
Context (read_manifest : string -> FS -> Result RepairError ExecutionManifest).

(** [remote_output_committed] of storage.rs. *)
Definition output_committed (output : DatasetLocation) (run : string) (st : St)
    : Result OrchestratorError bool * St :=
  match output with
  | Local _ => (Ok false, st)
  | S3 _ =>
      let '(r, st) := Backend.run (is_version_committed output (version_from_run_id run)) st in
      (map_err (fun e => OrchStorage (publication_error_display e)) r, st)
  end.

Definition verify_scan (location : DatasetLocation) (fs : FS) : Result OrchestratorError ScanReport :=
  map_err Repair (match location with Local l => scan_directory (path l) fs | S3 s => remote_scan s fs end).

Definition MANIFEST_FILE : string := ".parqonaut-manifest.json".

Definition local_manifest_if_present (output : DatasetLocation) (fs : FS) : option ExecutionManifest :=
  match output with
  | Local local => result_ok (read_manifest (path_join (path local) MANIFEST_FILE) fs)
  | S3 _ => None
  end.

(** Both scans, their roots and the manifest. *)
Definition verify_inputs (ds : DatasetPlan) (fs : FS)
    : Result OrchestratorError (ScanReport * ScanReport * string * string * option ExecutionManifest) :=
  if is_s3 (ds_source_path ds) || is_s3 (ds_output_path ds) then
    source ← map_err config_error (parse (ds_source_path ds));
    output ← map_err config_error (parse (ds_output_path ds));
    before ← verify_scan source fs;
    after ← verify_scan output fs;
    Ok (before, after, location_root source, location_root output, local_manifest_if_present output fs)
  else
    let source := ds_source_path ds in
    let output := ds_output_path ds in
    before ← map_err Repair (scan_directory source fs);
    after ← map_err Repair (scan_directory output fs);
    let manifest_path := path_join output MANIFEST_FILE in
    manifest ← (if path_exists manifest_path fs
                then m ← map_err Repair (read_manifest manifest_path fs); Ok (Some m)
                else Ok None);
    Ok (before, after, source, output, manifest).

Definition verify_succeeded (ds : DatasetPlan) (batch_run_id : option string) (fs : FS) (st : St)
    : Result OrchestratorError (DatasetVerifyResult * Verdict) * St :=
  let checked :=
    inputs ← verify_inputs ds fs;
    let '(before, after, source_root, output_root, manifest) := inputs in
    map_err Repair (@verify_repair _ _ (files_of fs) (u1 (ds_dataset_id ds)) (u2 (ds_dataset_id ds))
      before after source_root output_root (policy_repair EffectivePolicy_default) manifest) in
  match checked with
  | Err e => (Err e, st)
  | Ok report =>
      let ok := match outcome report with Verify.Verified | VerifiedWithWarnings => true | _ => false end in
      let '(committed, st) :=
        if ok && is_s3 (ds_output_path ds) then
          match parse (ds_output_path ds) with
          | Err e => (Err (config_error e), st)
          | Ok output => output_committed output (default "batch-run" batch_run_id) st
          end
        else (Ok ok, st) in
      (ok ← committed;
       Ok ({| vr_dataset_id := ds_dataset_id ds;
              vr_outcome := if ok : bool then outcome report else Verify.VerificationFailed;
              vr_message := "resolved=" +:+ pretty (length (resolved_finding_codes report))
                +:+ " remaining=" +:+ pretty (length (remaining_finding_codes report))
                +:+ " new=" +:+ pretty (length (new_finding_codes report)) |},
           if ok then Passed else Failed), st)
  end.

Definition verify_one (records : list DatasetRunRecord) (batch_run_id : option string) (ds : DatasetPlan)
    (fs : FS) (st : St) : Result OrchestratorError (DatasetVerifyResult * Verdict) * St :=
  match find_record (ds_dataset_id ds) records with
  | None => (Err (InvalidConfig ("missing journal record for dataset `" +:+ ds_dataset_id ds +:+ "`")), st)
  | Some record =>
      if decide (rec_state record = Succeeded) then verify_succeeded ds batch_run_id fs st
      else (Ok ({| vr_dataset_id := ds_dataset_id ds; vr_outcome := Verify.VerificationFailed;
                   vr_message := "dataset state is " +:+ state_debug (rec_state record) +:+ ", expected succeeded" |},
                Skipped), st)
  end.

Fixpoint verify_all (records : list DatasetRunRecord) (batch_run_id : option string) (l : list DatasetPlan)
    (fs : FS) (st : St) : Result OrchestratorError (list (DatasetVerifyResult * Verdict)) * St :=
  match l with
  | [] => (Ok [], st)
  | ds :: l =>
      match verify_one records batch_run_id ds fs st with
      | (Err e, st) => (Err e, st)
      | (Ok r, st) =>
          let '(rest, st) := verify_all records batch_run_id l fs st in
          (rest ← rest; Ok (r :: rest), st)
      end
  end.

Definition count_verdict (v : Verdict) (l : list (DatasetVerifyResult * Verdict)) : Z :=
  Z.of_nat (length (filter (fun r => snd r = v) l)).

Definition verify_batch_with_run (plan : BatchPlan) (records : list DatasetRunRecord)
    (batch_run_id : option string) (fs : FS) (st : St) : Result OrchestratorError BatchVerifyReport * St :=
  match batch_validate_version plan with
  | Err e => (Err e, st)
  | Ok _ =>
      let '(r, st) := verify_all records batch_run_id (bp_datasets plan) fs st in
      (l ← r;
       Ok {| bv_ok := bool_decide (count_verdict Failed l = 0%Z); bv_datasets := map fst l;
             bv_passed := count_verdict Passed l; bv_failed := count_verdict Failed l;
             bv_skipped := count_verdict Skipped l |}, st)
  end.

Definition verify_results_map (report : BatchVerifyReport) : gmap string DatasetVerifyResult :=
  list_to_map (rev (map (fun d => (vr_dataset_id d, d)) (bv_datasets report))).

(** * What the report says *)

Lemma verify_all_spec records run l fs st rs st' : verify_all records run l fs st = (Ok rs, st') ->
  Forall2 (fun ds r => vr_dataset_id (fst r) = ds_dataset_id ds
    /\ exists rec, find_record (ds_dataset_id ds) records = Some rec
       /\ (snd r = Skipped <-> rec_state rec <> Succeeded)
       /\ (snd r = Passed -> vr_outcome (fst r) <> Verify.VerificationFailed)
       /\ (snd r <> Passed -> vr_outcome (fst r) = Verify.VerificationFailed)) l rs.
Proof.
  revert st rs st'. induction l as [|ds l IH]; intros st rs st'; simpl; [intros [= <- _]; constructor|].
  destruct (verify_one records run ds fs st) as [[r|] st1] eqn:Hone; [|done].
  destruct (verify_all records run l fs st1) as [rest st2] eqn:Hall.
  destruct rest as [rest|]; [|done]. intros [= <- <-]. constructor; [|by eapply IH]. clear IH Hall.
  unfold verify_one in Hone. destruct (find_record _ _) as [rec|]; [|done]. case_decide as Hst; cycle 1.
  { injection Hone as <- _. simpl. split; [done|]. eexists. split_and!; [done|..]; naive_solver. }
  unfold verify_succeeded in Hone.
  destruct (_ ← verify_inputs ds fs; _) as [report|]; [|done]. cbv zeta in Hone.
  destruct (if _ && _ then _ else _) as [committed st3] eqn:Hc.
  destruct committed as [ok|]; [|done]. simpl in Hone. injection Hone as <- _. simpl. split; [done|].
  eexists. split; [done|]. destruct ok; split_and!; try naive_solver.
  intros _ Hf. rewrite Hf in Hc. simpl in Hc. by injection Hc.
Qed.

Lemma count_verdicts l : (count_verdict Passed l + count_verdict Failed l + count_verdict Skipped l)%Z = Z.of_nat (length l).
Proof.
  unfold count_verdict. induction l as [|[r v] l IH]; [done|]. rewrite !filter_cons. simpl.
  destruct v; repeat case_decide; simplify_eq; simpl; lia.
Qed.

(** A verification report covers every dataset of the plan once and in order;
    its three counts add up; a dataset is skipped exactly when its record is not
    [Succeeded], and counts as passed only with a positive outcome; and the
    batch is [ok] exactly when no dataset failed, skipped ones included. *)
Theorem verify_report_exact plan records run fs st report st' :
  verify_batch_with_run plan records run fs st = (Ok report, st') ->
  map vr_dataset_id (bv_datasets report) = map ds_dataset_id (bp_datasets plan)
  /\ (bv_passed report + bv_failed report + bv_skipped report)%Z = Z.of_nat (length (bp_datasets plan))
  /\ (bv_ok report = true <-> bv_failed report = 0%Z)
  /\ bv_skipped report = Z.of_nat (length (filter (fun ds =>
       (rec_state <$> find_record (ds_dataset_id ds) records) <> Some Succeeded) (bp_datasets plan)))
  /\ bv_passed report = Z.of_nat (length (filter (fun d => vr_outcome d <> Verify.VerificationFailed) (bv_datasets report))).
Proof.
  unfold verify_batch_with_run. destruct (batch_validate_version plan); [|done].
  destruct (verify_all _ _ _ _ _) as [[rs|] st1] eqn:Hall; [|done]. simpl. intros [= <- _]. simpl.
  apply verify_all_spec in Hall. split_and!.
  - induction Hall as [|ds r l rs [Hid _] _ IH]; simpl; [done|]. by rewrite Hid, IH.
  - rewrite count_verdicts. f_equal. symmetry. by eapply Forall2_length.
  - by rewrite bool_decide_eq_true.
  - unfold count_verdict. f_equal. induction Hall as [|ds r l rs (_ & rec & Hrec & Hsk & _) _ IH]; [done|].
    rewrite !filter_cons, Hrec. simpl.
    destruct (decide (snd r = Skipped)) as [E|E], (decide (Some (rec_state rec) <> Some Succeeded)) as [E'|E'];
      simpl; try (by rewrite IH); exfalso.
    + apply E'. apply Hsk in E. congruence.
    + apply E, Hsk. congruence.
  - unfold count_verdict. f_equal. induction Hall as [|ds r l rs (_ & rec & _ & _ & Hp & Hnp) _ IH]; [done|].
    simpl. rewrite !filter_cons.
    destruct (decide (snd r = Passed)) as [E|E], (decide (vr_outcome (fst r) <> Verify.VerificationFailed)) as [E'|E'];
      simpl; try (by rewrite IH); exfalso; [by apply E', Hp|by apply E', Hnp].
Qed.

Lemma verify_all_each records run l fs st rs st' ds : verify_all records run l fs st = (Ok rs, st') -> ds ∈ l ->
  exists st1 r st2, verify_one records run ds fs st1 = (Ok r, st2).
Proof.
  revert st rs st'. induction l as [|d l IH]; intros st rs st' Hall Hin; [by apply not_elem_of_nil in Hin|].
  simpl in Hall. destruct (verify_one records run d fs st) as [[r|] st1] eqn:Hone; [|done].
  destruct (verify_all records run l fs st1) as [[rest|] st2] eqn:Hrest; [|done].
  apply elem_of_cons in Hin as [->|Hin]; eauto.
Qed.

(** Local datasets are never verified.  A plan stores the display form
    [file://..] of a local source, and the local branch opens that text as a
    path; when no such path exists the scan fails, so one repaired local
    dataset makes the verification of the whole batch an error. *)
Theorem local_dataset_fails_verification plan records run fs st ds l rec :
  (forall p, path_exists p fs = false -> is_ok (scan_directory p fs) = false) ->
  ds ∈ bp_datasets plan -> ds_source_path ds = display_uri (Local l) -> is_s3 (ds_output_path ds) = false ->
  find_record (ds_dataset_id ds) records = Some rec -> rec_state rec = Succeeded ->
  path_exists (display_uri (Local l)) fs = false ->
  is_ok (fst (verify_batch_with_run plan records run fs st)) = false.
Proof.
  intros Hscan Hin Hsrc Hout Hrec Hst Hmiss. unfold verify_batch_with_run.
  destruct (batch_validate_version plan); [|done].
  destruct (verify_all _ _ _ _ _) as [[rs|] st1] eqn:Hall; [exfalso|done].
  destruct (verify_all_each _ _ _ _ _ _ _ _ Hall Hin) as (st2 & r & st3 & Hone).
  unfold verify_one in Hone. rewrite Hrec, decide_True in Hone by done. unfold verify_succeeded, verify_inputs in Hone.
  rewrite Hsrc, Hout in Hone. simpl in Hone. specialize (Hscan _ Hmiss). simpl in Hscan.
  by destruct (scan_directory _ _).
Qed.

(** A batch in which nothing succeeded verifies as [ok]: every dataset is
    skipped and none fails. *)
Theorem unrepaired_batch_verifies_ok plan records run fs st :
  batch_validate_version plan = Ok tt ->
  (forall ds, ds ∈ bp_datasets plan -> exists rec, find_record (ds_dataset_id ds) records = Some rec
     /\ rec_state rec <> Succeeded) ->
  exists report, verify_batch_with_run plan records run fs st = (Ok report, st)
    /\ bv_ok report = true /\ bv_passed report = 0%Z /\ bv_skipped report = Z.of_nat (length (bp_datasets plan)).
Proof.
  intros Hv Hall. unfold verify_batch_with_run. rewrite Hv.
  assert (exists rs, verify_all records run (bp_datasets plan) fs st = (Ok rs, st)
    /\ length rs = length (bp_datasets plan) /\ Forall (fun r => snd r = Skipped) rs) as (rs & -> & Hl & Hf).
  { induction (bp_datasets plan) as [|ds l IH]; simpl; [by exists []|].
    destruct (Hall ds) as (rec & Hrec & Hst); [apply list_elem_of_here|].
    destruct IH as (rs & Hrs & Hl & Hf); [intros; apply Hall; by apply list_elem_of_further|].
    unfold verify_one. rewrite Hrec, decide_False by done. rewrite Hrs.
    eexists. split; [done|]. simpl. split; [by rewrite Hl|by constructor]. }
  simpl. eexists. split; [done|]. simpl.
  assert (forall v, v <> Skipped -> count_verdict v rs = 0%Z) as Hz.
  { clear Hl. intros v Hne. unfold count_verdict. induction Hf as [|r rs Hr _ IH]; [done|].
    rewrite filter_cons, decide_False by congruence. apply IH. }
  rewrite !Hz by done. split_and!; [done..|]. pose proof (count_verdicts rs) as Hc. rewrite !Hz in Hc by done. lia.
Qed.
End BatchVerify.
