(* ===== verification/Commands.v ===== *)
(** The commands of a batch run: starting, resuming, inspecting and verifying a
    run directory (run.rs and the body of [BatchExecutor::run] and [dry_run] in
    executor/mod.rs of src/crates/parqonaut-orchestrator/src). *)

From stdpp Require Import gmap.
From S2P Require Import Prelude Location Errors Overlap BTree Schema RepairPlan Deps Inventory Rules Planning Verify.
From S2P Require Import Backend Publication RepairExec Execute Journal Batch Executor Run BatchVerify.

Definition RUNS_DIR : string := ".parqonaut/runs".
Definition JOURNAL_FILE : string := "journal.sqlite".
Definition PLAN_SNAPSHOT : string := "batch-plan.json".
Definition REPORT_FILE : string := "report.json".

Definition run_directory (run_root run : string) : string := path_join (path_join run_root RUNS_DIR) run.

Record BatchRunOutcome := {
  peak_concurrent_datasets : nat;
  bo_datasets : list DatasetExecutionOutcome;
  bo_cancelled : bool;
}.

Record DryRunDatasetPreview := {
  dp_dataset_id : string;
  dp_source_path : string;
  dp_output_path : string;
  dp_action : string;
  dp_repair_plan_id : string;
}.

Record DryRunReport := {
  dry_batch_plan_id : string;
  dry_dataset_count : nat;
  dry_max_concurrency : Z;
  dry_datasets : list DryRunDatasetPreview;
  creates_journal : bool;
}.

Record BatchExecutionResult := {
  res_run_id : string;
  res_run_dir : string;
  res_outcome : option BatchRunOutcome;
  res_dry_run : option DryRunReport;
  already_completed : bool;
}.

Record BatchStatusReport := {
  st_run_id : string;
  st_batch_plan_id : string;
  st_batch_name : string;
  st_output_root : string;
  st_config_fingerprint : string;
  st_plan_digest : string;
  st_started_at : string;
  st_updated_at : string;
  st_completed_at : option string;
  st_cancelled_at : option string;
  st_state_counts : StateCounts;
  st_datasets : list DatasetRunRecord;
  st_resumable : bool;
  st_completed : bool;
}.

(** [serde_json] at a batch plan and a report, [std::fs::write]. *)
Class RunFormats := {
  plan_from_slice : bytes -> Result string BatchPlan;
  plan_to_string_pretty : BatchPlan -> Result string string;
  report_to_string_pretty : BatchAggregateReport -> Result string string;
}.
Class WriteFs (FS : Type) := fs_write : string -> string -> FS -> Result string unit * FS.

Section Commands.
Context {FS St : Type} `{RepairFs FS} `{RunFs FS} `{WriteFs FS} `{StorageBackend St} `{UrlParser} `{Digests} `{Serde}.
Context `{Publication.Json CommitMarker} `{BatchJson} `{RunFormats} `{Rfc3339}.
Context (u1 u2 : string -> nat -> string).
Context (remote_scan : S3Location -> FS -> Result RepairError ScanReport).
Context (read_manifest : string -> FS -> Result RepairError ExecutionManifest).
(** The clock readings of a command, the version constant. *)
Context (now : nat -> Z) (PARQONAUT_VERSION : string).

(** What a command can change: the files, the object store, and the journals
    by their path. *)
Record world := {
  w_fs : FS;
  w_store : St;
  w_journals : gmap string SqliteRunJournal;
}.

(** The scheduler's answer to the tasks of a run: outcomes, peak and whether
    the run was cancelled. *)
Context (schedule : BatchPlan -> string -> BatchExecutorConfig -> list (DatasetPlan * option DatasetState) ->
  world * SqliteRunJournal -> (list DatasetExecutionOutcome * nat * bool) * (world * SqliteRunJournal)).

#[local] Instance clocked_journal : RunJournal SqliteRunJournal := sqlite_journal (now 0).

Definition with_fs (fs : FS) (w : world) : world := {| w_fs := fs; w_store := w_store w; w_journals := w_journals w |}.
Definition with_store (st : St) (w : world) : world := {| w_fs := w_fs w; w_store := st; w_journals := w_journals w |}.
Definition with_journal (p : string) (j : SqliteRunJournal) (w : world) : world :=
  {| w_fs := w_fs w; w_store := w_store w; w_journals := <[p := j]> (w_journals w) |}.

(** Fallible commands. *)
Definition Cmd (A : Type) : Type := world -> Result OrchestratorError A * world.
#[local] Instance Cmd_bind : MBind Cmd := fun A B f m w =>
  match m w with (Ok a, w) => f a w | (Err e, w) => (Err e, w) end.
Definition cmd_ret {A} (a : A) : Cmd A := fun w => (Ok a, w).
Definition cmd_pure {A} (r : Result OrchestratorError A) : Cmd A := fun w => (r, w).
Definition cmd_io {A} (f : FS -> Result string A * FS) : Cmd A := fun w =>
  let '(r, fs) := f (w_fs w) in (map_err OrchIo r, with_fs fs w).

(** ** Plans and journals on disk *)

Definition plan_from_json (raw : bytes) : Result OrchestratorError BatchPlan :=
  plan ← map_err OrchJson (plan_from_slice raw);
  _ ← batch_validate_version plan;
  Ok plan.

Definition read_plan (p : string) : Cmd BatchPlan := fun w =>
  (raw ← map_err OrchIo (fs_read p (w_fs w)); plan_from_json raw, w).

Definition create_parent_dir (p : string) : Cmd unit :=
  match path_parent p with Some parent => cmd_io (create_dir_all parent) | None => cmd_ret tt end.

Definition write_plan (plan : BatchPlan) (p : string) : Cmd unit :=
  _ ← create_parent_dir p;
  text ← cmd_pure (map_err OrchJson (plan_to_string_pretty plan));
  cmd_io (fs_write p text).

Definition write_report (report : BatchAggregateReport) (p : string) : Cmd unit :=
  _ ← create_parent_dir p;
  text ← cmd_pure (map_err OrchJson (report_to_string_pretty report));
  cmd_io (fs_write p text).

(** [create_if_missing(false)]. *)
Definition open_existing (p : string) : Cmd SqliteRunJournal := fun w =>
  (ok_or (w_journals w !! p) (Journal "unable to open database file"), w).

Definition open_or_create (p : string) (i : RunIdentity) : Cmd SqliteRunJournal := fun w =>
  let j := ensure_run i (default {| batch_runs := []; dataset_runs := [] |} (w_journals w !! p)) in
  (Ok j, with_journal p j w).

Definition open_journal (p : string) (i : RunIdentity) : Cmd SqliteRunJournal :=
  _ ← create_parent_dir p;
  open_or_create p i.

(** An update of the journal at [p]. *)
Definition cmd_journal (p : string) (f : SqliteRunJournal -> Result OrchestratorError unit * SqliteRunJournal)
    (j : SqliteRunJournal) : Cmd SqliteRunJournal := fun w =>
  let '(r, j) := f j in (_ ← r; Ok j, with_journal p j w).

Definition stored_identity (j : SqliteRunJournal) : Result OrchestratorError RunIdentity :=
  i ← run_identity j;
  ok_or i (Journal "missing run identity").

(** ** The executor *)

Definition dry_run (plan : BatchPlan) : Result OrchestratorError DryRunReport :=
  _ ← batch_validate_version plan;
  _ ← validate_batch_plan plan;
  Ok {| dry_batch_plan_id := bp_batch_plan_id plan; dry_dataset_count := length (bp_datasets plan);
        dry_max_concurrency := bp_max_concurrency plan;
        dry_datasets := map (fun ds => {| dp_dataset_id := ds_dataset_id ds; dp_source_path := ds_source_path ds;
          dp_output_path := ds_output_path ds; dp_action := "repair";
          dp_repair_plan_id := plan_id (ds_repair_plan ds) |}) (bp_datasets plan);
        creates_journal := false |}.

Definition executor_run (plan : BatchPlan) (run p : string) (config : BatchExecutorConfig) (mode : ExecutionMode)
    (dry : bool) (j : SqliteRunJournal) : Cmd (BatchRunOutcome * SqliteRunJournal) := fun w =>
  if dry then
    (Ok ({| peak_concurrent_datasets := 0; bo_datasets := []; bo_cancelled := false |}, j), w)
  else
    let checked := _ ← batch_validate_version plan; _ ← validate_batch_plan plan; list_datasets j in
    match checked with
    | Err e => (Err e, w)
    | Ok existing =>
        let tasks := map (fun ds => (ds, rec_state <$> find_record (ds_dataset_id ds) existing))
                         (select_tasks mode existing plan) in
        let '(done, peak, cancelled, (w, j)) := schedule plan run config tasks (w, j) in
        (Ok ({| peak_concurrent_datasets := peak; bo_datasets := assemble_outcomes existing plan done;
                bo_cancelled := cancelled |}, j), with_journal p j w)
    end.

(** ** Runs *)

Definition new_identity (plan : BatchPlan) (run : string) : RunIdentity := {|
  run_id := run; batch_plan_id := bp_batch_plan_id plan; config_fingerprint := bp_config_fingerprint plan;
  batch_name := bp_batch_name plan; output_root := bp_output_root plan; identity_version := PARQONAUT_VERSION;
  plan_digest := batch_plan_digest plan; id_started_at := now 0; id_updated_at := now 0;
  id_completed_at := None; id_cancelled_at := None |}.

(** The checks that bind a stored run to its plan, with the records. *)
Definition authorized_records (plan : BatchPlan) (j : SqliteRunJournal)
    : Result OrchestratorError (RunIdentity * list DatasetRunRecord) :=
  identity ← stored_identity j;
  _ ← assert_plan_matches_identity plan identity;
  records ← list_datasets j;
  _ ← assert_datasets_match_plan plan records;
  Ok (identity, records).

Definition exec_config (plan : BatchPlan) (options : BatchRunOptions) : BatchExecutorConfig := {|
  max_retries := DEFAULT_MAX_RETRIES; interrupt_after_completed := opt_interrupt_after_completed options;
  max_storage_requests := bp_max_storage_requests plan |}.

Definition with_concurrency (jobs : Z) (plan : BatchPlan) : BatchPlan := {|
  bp_schema_version := bp_schema_version plan; bp_batch_plan_id := bp_batch_plan_id plan;
  bp_config_fingerprint := bp_config_fingerprint plan; bp_batch_name := bp_batch_name plan;
  bp_max_concurrency := jobs; bp_max_storage_requests := bp_max_storage_requests plan;
  bp_output_root := bp_output_root plan; bp_run_root := bp_run_root plan;
  bp_parqonaut_version := bp_parqonaut_version plan; bp_datasets := bp_datasets plan |}.

(** The verification and its result, an error included. *)
Definition cmd_verify (plan : BatchPlan) (records : list DatasetRunRecord) (run : string)
    : Cmd (Result OrchestratorError BatchVerifyReport) := fun w =>
  let '(r, st) := verify_batch_with_run u1 u2 remote_scan read_manifest plan records (Some run) (w_fs w) (w_store w) in
  (Ok r, with_store st w).

(** Closing a run: mark the journal, verify, write the report.  A verification
    error is dropped ([.ok()]).  [cancelled] is the flag as the executor last read
    it. *)
Definition finish_run (plan : BatchPlan) (run p dir : string) (fallback : RunIdentity) (cancelled : bool)
    (j : SqliteRunJournal) : Cmd unit :=
  records ← cmd_pure (list_datasets j);
  j ← (if cancelled then cmd_journal p (mark_run_cancelled (now 2)) j
       else if run_is_complete plan records then cmd_journal p (mark_run_completed (now 2)) j
       else cmd_ret j);
  verify ← cmd_verify plan records run;
  let verify := result_ok verify in
  identity ← cmd_pure (run_identity j);
  write_report (build_aggregate_report plan (default fallback identity) records
    ((fun v => {| vs_ok := bv_ok v; vs_passed := bv_passed v; vs_failed := bv_failed v; vs_skipped := bv_skipped v |})
       <$> verify) (default ∅ (verify_results_map <$> verify)))
    (path_join dir REPORT_FILE).

Definition execute_with_journal (plan : BatchPlan) (run dir : string) (options : BatchRunOptions) (resume : bool)
    : Cmd BatchExecutionResult :=
  let identity := new_identity plan run in
  let p := path_join dir JOURNAL_FILE in
  j ← (if resume then open_existing p else open_journal p identity);
  j ← (if resume then _ ← cmd_pure (authorized_records plan j); cmd_journal p (recover_journal_states (now 1)) j
       else cmd_ret j);
  let plan := with_concurrency (default (bp_max_concurrency plan) (opt_jobs options)) plan in
  ran ← executor_run plan run p (exec_config plan options) (if resume then Resume else Fresh) (opt_dry_run options) j;
  _ ← finish_run plan run p dir identity (bo_cancelled (fst ran)) (snd ran);
  cmd_ret {| res_run_id := run; res_run_dir := dir; res_outcome := Some (fst ran); res_dry_run := None;
             already_completed := false |}.

Definition dry_result (plan : BatchPlan) (run dir : string) : Result OrchestratorError BatchExecutionResult :=
  dry ← dry_run plan;
  Ok {| res_run_id := run; res_run_dir := dir; res_outcome := None; res_dry_run := Some dry; already_completed := false |}.

Definition execute_batch_plan (new_run : string) (plan : BatchPlan) (options : BatchRunOptions)
    : Cmd BatchExecutionResult :=
  _ ← cmd_pure (options_validate options);
  if opt_dry_run options then cmd_pure (dry_result plan new_run ".")
  else
    let run_root := effective_run_root plan in
    _ ← cmd_io (create_dir_all run_root);
    _ ← match parse (bp_output_root plan) with
        | Ok (Local local) => cmd_io (create_dir_all (path local))
        | _ => cmd_ret tt
        end;
    let dir := run_directory run_root new_run in
    _ ← cmd_io (create_dir_all dir);
    _ ← write_plan plan (path_join dir PLAN_SNAPSHOT);
    execute_with_journal plan new_run dir options false.

Definition execute_batch (new_run plan_path : string) (options : BatchRunOptions) : Cmd BatchExecutionResult :=
  plan ← read_plan plan_path;
  execute_batch_plan new_run plan options.

Definition resume_batch (dir : string) (options : BatchRunOptions) : Cmd BatchExecutionResult :=
  _ ← cmd_pure (options_validate options);
  plan ← read_plan (path_join dir PLAN_SNAPSHOT);
  let p := path_join dir JOURNAL_FILE in
  j ← open_existing p;
  authorized ← cmd_pure (authorized_records plan j);
  let '(identity, records) := authorized in
  if opt_dry_run options then cmd_pure (dry_result plan (run_id identity) dir)
  else if run_is_complete plan records then
    _ ← (if decide (id_completed_at identity = None) then cmd_journal p (mark_run_completed (now 0)) j else cmd_ret j);
    cmd_ret {| res_run_id := run_id identity; res_run_dir := dir; res_outcome := None; res_dry_run := None;
               already_completed := true |}
  else execute_with_journal plan (run_id identity) dir options true.

Definition placeholder_plan (i : RunIdentity) : BatchPlan := {|
  bp_schema_version := BATCH_REPORT_SCHEMA_VERSION; bp_batch_plan_id := batch_plan_id i;
  bp_config_fingerprint := config_fingerprint i; bp_batch_name := batch_name i; bp_max_concurrency := 1;
  bp_max_storage_requests := 8; bp_output_root := output_root i; bp_run_root := output_root i;
  bp_parqonaut_version := identity_version i; bp_datasets := [] |}.

Definition read_status (dir : string) : Cmd BatchStatusReport :=
  j ← open_existing (path_join dir JOURNAL_FILE);
  identity ← cmd_pure (stored_identity j);
  datasets ← cmd_pure (list_datasets j);
  plan ← read_plan (path_join dir PLAN_SNAPSHOT);
  cmd_ret {| st_run_id := run_id identity; st_batch_plan_id := batch_plan_id identity;
             st_batch_name := batch_name identity; st_output_root := output_root identity;
             st_config_fingerprint := config_fingerprint identity; st_plan_digest := plan_digest identity;
             st_started_at := to_rfc3339 (id_started_at identity); st_updated_at := to_rfc3339 (id_updated_at identity);
             st_completed_at := to_rfc3339 <$> id_completed_at identity;
             st_cancelled_at := to_rfc3339 <$> id_cancelled_at identity;
             st_state_counts :=
               ar_state_counts (build_aggregate_report (placeholder_plan identity) identity datasets None ∅);
             st_datasets := datasets; st_resumable := status_resumable plan identity datasets;
             st_completed := run_is_complete plan datasets |}.

Definition verify_run (dir : string) : Cmd BatchVerifyReport :=
  plan ← read_plan (path_join dir PLAN_SNAPSHOT);
  j ← open_existing (path_join dir JOURNAL_FILE);
  authorized ← cmd_pure (authorized_records plan j);
  let '(identity, records) := authorized in
  verified ← cmd_verify plan records (run_id identity);
  cmd_pure verified.
End Commands.

(** What the commands of a batch run guarantee: a dry run changes nothing, a
    run directory is resumed only with its own plan, finished runs are not run
    again, and a started run can be resumed. *)

Section CommandsProofs.
Context {FS St : Type} `{RepairFs FS} `{RunFs FS} `{WriteFs FS} `{StorageBackend St} `{UrlParser} `{Digests} `{Serde}.
Context `{Publication.Json CommitMarker} `{BatchJson} `{RunFormats} `{Rfc3339}.
Context (u1 u2 : string -> nat -> string).
Context (remote_scan : S3Location -> FS -> Result RepairError ScanReport).
Context (read_manifest : string -> FS -> Result RepairError ExecutionManifest).
Context (now : nat -> Z) (PARQONAUT_VERSION : string).
Context (schedule : BatchPlan -> string -> BatchExecutorConfig -> list (DatasetPlan * option DatasetState) ->
  @world FS St * SqliteRunJournal -> (list DatasetExecutionOutcome * nat * bool) * (@world FS St * SqliteRunJournal)).

Local Abbreviation resume_batch := (resume_batch u1 u2 remote_scan read_manifest now PARQONAUT_VERSION schedule).
Local Abbreviation execute_batch_plan := (execute_batch_plan u1 u2 remote_scan read_manifest now PARQONAUT_VERSION schedule).
Local Abbreviation execute_with_journal := (execute_with_journal u1 u2 remote_scan read_manifest now PARQONAUT_VERSION schedule).

Lemma cmd_bind_Ok {A B} (m : @Cmd FS St A) (f : A -> @Cmd FS St B) w b w' :
  Cmd_bind _ _ f m w = (Ok b, w') <-> exists a w1, m w = (Ok a, w1) /\ f a w1 = (Ok b, w').
Proof. unfold Cmd_bind. destruct (m w) as [[a|e] w1]; naive_solver. Qed.

Lemma cmd_bind_pure {A B} (r : Result OrchestratorError A) (f : A -> @Cmd FS St B) w :
  Cmd_bind _ _ f (cmd_pure r) w = match r with Ok a => f a w | Err e => (Err e, w) end.
Proof. unfold Cmd_bind, cmd_pure. by destruct r. Qed.

(** Reading the plan and the journal leaves the world alone. *)
Lemma read_plan_bind {B} p (f : BatchPlan -> @Cmd FS St B) w :
  Cmd_bind _ _ f (read_plan p) w =
  match (raw ← map_err OrchIo (fs_read p (w_fs w)); plan_from_json raw) with Ok plan => f plan w | Err e => (Err e, w) end.
Proof. unfold Cmd_bind, read_plan. by destruct (_ ≫= _). Qed.

Lemma open_existing_bind {B} p (f : SqliteRunJournal -> @Cmd FS St B) w :
  Cmd_bind _ _ f (open_existing p) w =
  match w_journals w !! p with Some j => f j w | None => (Err (Journal "unable to open database file"), w) end.
Proof. unfold Cmd_bind, open_existing. by destruct (_ !! _). Qed.

(** The plan snapshot of a run directory. *)
Definition snapshot (dir : string) (w : @world FS St) : Result OrchestratorError BatchPlan :=
  raw ← map_err OrchIo (fs_read (path_join dir PLAN_SNAPSHOT) (w_fs w)); plan_from_json raw.

(** What [resume_batch] decides before anything runs. *)
Lemma resume_unfold dir options w : resume_batch dir options w =
  match options_validate options with
  | Err e => (Err e, w)
  | Ok _ =>
  match snapshot dir w with
  | Err e => (Err e, w)
  | Ok plan =>
  match w_journals w !! path_join dir JOURNAL_FILE with
  | None => (Err (Journal "unable to open database file"), w)
  | Some j =>
  match authorized_records now plan j with
  | Err e => (Err e, w)
  | Ok (stored, records) =>
      if opt_dry_run options then (dry_result plan (run_id stored) dir, w)
      else if run_is_complete plan records then
        (Ok {| res_run_id := run_id stored; res_run_dir := dir; res_outcome := None; res_dry_run := None;
               already_completed := true |},
         if decide (id_completed_at stored = None)
         then with_journal (path_join dir JOURNAL_FILE)
                (snd (@mark_run_completed _ (clocked_journal now) (now 0) j)) w
         else w)
      else execute_with_journal plan (run_id stored) dir options true w
  end end end end.
Proof.
  unfold Commands.resume_batch, mbind. cbv zeta. rewrite cmd_bind_pure. destruct (options_validate options); [|done].
  rewrite read_plan_bind. unfold snapshot. destruct (_ ≫= _) as [plan|]; [|done].
  rewrite open_existing_bind. destruct (_ !! _) as [j|]; [|done].
  rewrite cmd_bind_pure. destruct (authorized_records _ _ _) as [[stored records]|]; [|done].
  destruct (opt_dry_run options); [done|]. destruct (run_is_complete _ _); [|done].
  case_decide; done.
Qed.

(** Dry runs change nothing: neither starting a plan nor resuming a directory
    with [dry_run] touches a file, an object or a journal, or schedules a
    dataset. *)
Theorem dry_run_changes_nothing new_run plan dir options w :
  opt_dry_run options = true ->
  snd (execute_batch_plan new_run plan options w) = w
  /\ snd (resume_batch dir options w) = w
  /\ (forall r, fst (execute_batch_plan new_run plan options w) = Ok r \/ fst (resume_batch dir options w) = Ok r ->
        res_outcome r = None /\ creates_journal <$> res_dry_run r = Some false).
Proof.
  intros Hd.
  assert (forall plan run d r, dry_result plan run d = Ok r -> res_outcome r = None /\ creates_journal <$> res_dry_run r = Some false)
    as Hdry.
  { intros p run d r. unfold dry_result. rewrite bind_Ok. intros (dry & Hdr & [= <-]). split; [done|].
    unfold dry_run in Hdr. apply bind_Ok in Hdr as (_ & _ & Hdr). apply bind_Ok in Hdr as (_ & _ & [= <-]). done. }
  assert (execute_batch_plan new_run plan options w =
    (_ ← options_validate options; dry_result plan new_run ".", w)) as He.
  { unfold Commands.execute_batch_plan, mbind. rewrite cmd_bind_pure, Hd. by destruct (options_validate options). }
  rewrite He, resume_unfold, Hd. split; [done|]. split.
  { by repeat case_match. }
  intros r [Hr|Hr].
  - simpl in Hr. apply bind_Ok in Hr as (_ & _ & Hr). by eapply Hdry.
  - repeat (case_match; simplify_eq/=; try done). by eapply Hdry.
Qed.

(** C12: A run directory is resumed only with its own plan.  When [resume_batch]
    returns without an error, the stored run names the snapshot's plan by id,
    digest, configuration and output root; a directory refused for any of these
    reasons is left as it was; and a complete run is not executed again: only
    its completion time may be recorded. *)
Theorem resume_batch_gate dir options w r w' :
  resume_batch dir options w = (r, w') ->
  (is_ok r = true -> exists plan j stored records,
     snapshot dir w = Ok plan /\ w_journals w !! path_join dir JOURNAL_FILE = Some j
     /\ authorized_records now plan j = Ok (stored, records)
     /\ batch_plan_id stored = bp_batch_plan_id plan /\ plan_digest stored = batch_plan_digest plan
     /\ config_fingerprint stored = bp_config_fingerprint plan /\ output_root stored = bp_output_root plan)
  /\ (forall plan j, snapshot dir w = Ok plan -> w_journals w !! path_join dir JOURNAL_FILE = Some j ->
        is_ok (authorized_records now plan j) = false -> w' = w /\ is_ok r = false)
  /\ (forall plan j stored records, snapshot dir w = Ok plan ->
        w_journals w !! path_join dir JOURNAL_FILE = Some j ->
        authorized_records now plan j = Ok (stored, records) -> run_is_complete plan records = true ->
        w_fs w' = w_fs w /\ w_store w' = w_store w
        /\ (forall j', w_journals w' !! path_join dir JOURNAL_FILE = Some j' -> dataset_runs j' = dataset_runs j)).
Proof.
  rewrite resume_unfold. intros Hr. split_and!.
  - intros Hok. destruct (options_validate options); [|by injection Hr as <- _].
    destruct (snapshot dir w) as [plan|]; [|by injection Hr as <- _].
    destruct (w_journals w !! _) as [j|]; [|by injection Hr as <- _].
    destruct (authorized_records now plan j) as [[stored records]|] eqn:Ha; [|by injection Hr as <- _].
    exists plan, j, stored, records. split_and!; try done; clear Hr; unfold authorized_records in Ha;
      apply bind_Ok in Ha as (i & _ & Ha); apply bind_Ok in Ha as ([] & Hm & Ha);
      apply bind_Ok in Ha as (l & _ & Ha); apply bind_Ok in Ha as (_ & _ & [= <- <-]);
      unfold assert_plan_matches_identity, mismatch in Hm; apply bind_Ok in Hm as (_ & _ & Hm);
      by repeat case_decide.
  - intros plan j Hp Hj Ha. rewrite Hp, Hj in Hr.
    destruct (authorized_records now plan j) as [[]|]; [done|].
    destruct (options_validate options); by injection Hr as <- <-.
  - intros plan j stored records Hp Hj Ha Hc. rewrite Hp, Hj, Ha, Hc in Hr.
    assert (w' = w \/ w' = with_journal (path_join dir JOURNAL_FILE)
              (snd (@mark_run_completed _ (clocked_journal now) (now 0) j)) w) as [->| ->].
    { destruct (options_validate options); [|injection Hr; auto].
      destruct (opt_dry_run options); [injection Hr; auto|]. case_decide; injection Hr; auto. }
    + split_and!; [done..|]. intros j' Hj'. rewrite Hj in Hj'. by injection Hj' as ->.
    + split_and!; [done..|]. simpl. intros j'. rewrite lookup_insert_eq. by intros [= <-].
Qed.

Lemma mismatch_same f x : mismatch f x x = Ok tt.
Proof. unfold mismatch. by rewrite decide_True. Qed.

(** The journal a new run creates authorizes the run's own plan: a run
    interrupted before its first dataset can be resumed. *)
Theorem fresh_journal_authorizes plan run :
  batch_validate_version plan = Ok tt ->
  exists stored, run_id stored = run /\
    authorized_records now plan (ensure_run (new_identity now PARQONAUT_VERSION plan run)
                                   {| batch_runs := []; dataset_runs := [] |}) = Ok (stored, []).
Proof.
  intros Hv. exists (map_identity_row (now 0) (identity_to_row (new_identity now PARQONAUT_VERSION plan run))).
  split; [done|]. set (stored := map_identity_row _ _).
  assert (assert_plan_matches_identity plan stored = Ok tt) as Ha.
  { unfold assert_plan_matches_identity. rewrite Hv. change (batch_plan_id stored) with (bp_batch_plan_id plan).
    change (config_fingerprint stored) with (bp_config_fingerprint plan).
    change (output_root stored) with (bp_output_root plan).
    change (plan_digest stored) with (batch_plan_digest plan). by rewrite !mismatch_same. }
  assert (assert_datasets_match_plan plan [] = Ok tt) as Hd by (apply try_for_Ok, Forall_forall; by intros ds _).
  unfold authorized_records. change (stored_identity _ _) with (@Ok OrchestratorError _ stored).
  cbn [mbind Result_bind]. rewrite Ha. cbn [mbind Result_bind].
  change (@list_datasets _ _ _) with (@Ok OrchestratorError (list DatasetRunRecord) []). cbn [mbind Result_bind].
  by rewrite Hd.
Qed.
End CommandsProofs.
