(* ===== verification/ConfigExamples.v ===== *)
(** Configurations, plans and run directories in a concrete world: witnesses of
    the theorems on configuration, planning, verification and the commands, and
    the configurations that slip through the overlap check. *)

From stdpp Require Import gmap.
From Stdlib Require Import Ascii Strings.Byte.
From S2P Require Import Prelude BTree Location Errors Overlap Schema RepairPlan Deps.
From S2P Require Import RepairExec Inventory Rules Planning Verify Backend Memory Publication PublicationExamples.
From S2P Require Import Execute ExecuteExamples Journal Batch Executor Run BatchExamples.
From S2P Require Import Config BatchPlanning BatchVerify Commands.

(** * The world: files below [/w], the working directory *)

Definition absolute (p : string) : string := if is_absolute p then p else path_join "/w" p.

#[local] Program Instance row_config_fs : ConfigFs row_fs := {|
  fs_canonicalize p fs := if path_exists (absolute p) fs then Ok (absolute p) else Err "No such file or directory";
  read_to_string _ _ := Ok EmptyString;
  is_dir p fs := path_exists (absolute p) fs |}.
Next Obligation.
  intros p fs q. simpl. destruct (negb _); [|done]. intros [= <-]. unfold absolute.
  destruct (is_absolute p) eqn:E; [done|]. unfold path_join. rewrite E. by destruct p.
Qed.

(** A scan fails on a path that does not exist. *)
#[local] Instance strict_run_fs : RunFs row_fs := {|
  files_of := row_files;
  scan_directory dir fs := if path_exists dir fs then Ok (row_scan [] dir fs)
                           else Err (ScanFailed ("target path does not exist: " +:+ dir));
  walk := walk; fs_read _ _ := Ok []; write_json := write_json |}.

(** URLs without percent-encoding or dot segments: a file URL with a host has no
    file path. *)
Definition url_of (scheme rest : string) : Url :=
  let '(host, p) := default (rest, EmptyString) (split_once "/"%char rest) in {|
  scheme := scheme; username := EmptyString; password := None;
  host_str := if decide (host = EmptyString) then None else Some host; url_path := "/" +:+ p;
  to_file_path := if decide (host = EmptyString) then Some ("/" +:+ p) else None |}.
#[local] Instance file_urls : UrlParser := fun input =>
  match strip_prefix "file://" input, strip_prefix "s3://" input with
  | Some rest, _ => Ok (url_of "file" rest)
  | None, Some rest => Ok (url_of "s3" rest)
  | None, None => Err "relative URL without a base"
  end.

Definition local (p : string) : ConfigLocation := mkConfigLocation (Local (mkLocal p)).
Definition config_at (root : ConfigLocation) (ds : list DatasetConfig) : BatchConfig := {|
  cfg_schema_version := 1;
  cfg_batch := {| cfg_name := "nightly"; cfg_max_concurrency := 2; cfg_output_root := Some root;
                  cfg_run_root := None; cfg_max_storage_requests := 8 |};
  cfg_datasets := ds |}.
Definition entry (id : string) (output : option string) : DatasetConfig := {|
  cfg_id := id; cfg_path := local ("data/" +:+ id); cfg_policy := None; cfg_target_schema := None;
  cfg_authorize := []; cfg_output := output |}.

Definition data_fs : row_fs := {["/w/data/a/p.parquet" := [1; 2]%Z; "/w/data/b/p.parquet" := [3]%Z]}.

Definition good_config : BatchConfig := config_at (local "fixed") [entry "a" None; entry "b" (Some "bb")].

#[local] Instance ex_formats : ConfigFormats := {|
  config_from_str _ _ := Ok good_config; fields_from_slice _ := Err "unsupported" |}.

Definition ex_remote_scan (s : S3Location) (fs : row_fs) : Result RepairError ScanReport := Err (ScanFailed "offline").
Definition build (config : BatchConfig) (config_path : string) : option (Result OrchestratorError BatchPlan) :=
  build_batch_plan (fun _ => ex_uuid) (fun _ => 0%Z) "1" ex_remote_scan config config_path data_fs.

Definition good_mappings : list OutputMapping := Eval vm_compute in
  from_ok (Some (resolve_output_mappings good_config "/w" data_fs)).

Lemma output_mappings_sound_witness : map map_dataset_id good_mappings = ["a"; "b"].
Proof.
  refine (proj1 (output_mappings_sound good_config "/w" data_fs good_mappings _)). vm_compute. reflexivity.
Defined.

Lemma default_outputs_overlap_witness :
  locations_overlap (S3 (mkS3 "lake" "fixed/sales")) (S3 (mkS3 "lake" "fixed/sales_eu")) = true.
Proof.
  exact (default_outputs_overlap (S3 (mkS3 "lake" "fixed")) "sales" "sales_eu" _ _ eq_refl eq_refl
    ltac:(discriminate) ltac:(discriminate)).
Defined.

Definition good_plan : BatchPlan := Eval vm_compute in from_ok (build good_config "/w/batch.toml").

Lemma built_plan_accepted_witness : batch_validate_version good_plan = Ok tt /\ validate_batch_plan good_plan = Ok tt
  /\ map ds_dataset_id (bp_datasets good_plan) = ["a"; "b"].
Proof.
  refine (built_plan_accepted (fun _ => ex_uuid) (fun _ => 0%Z) "1" ex_remote_scan good_config "/w/batch.toml"
    data_fs good_plan _ _); [vm_compute; reflexivity|].
  intros ms m Hms. vm_compute in Hms. injection Hms as <-.
  intros [->|[->|[]%elem_of_nil]%elem_of_cons]%elem_of_cons; split; vm_compute; reflexivity.
Defined.

(** * Configurations the overlap check does not see through *)

(** A configuration named without a directory ([batch.toml]) is resolved against
    the empty path, so a relative output root stays relative while sources are
    canonical: the output of [a] lies inside its source, the mapping and the
    plan are accepted, and the plan cannot be executed because [file://data/..]
    is not the URI of a path.  Named by its full path the same configuration is
    rejected. *)
Theorem bare_config_name_defeats_overlap :
  let config := config_at (local "data/a") [entry "a" None] in
  (exists ms, resolve_output_mappings config (config_base "batch.toml") data_fs = Ok ms
     /\ map map_source ms = [Local (mkLocal "/w/data/a")] /\ map map_output ms = [Local (mkLocal "data/a/a")])
  /\ (exists plan e, build config "batch.toml" = Some (Ok plan) /\ validate_batch_plan plan = Err (InvalidConfig e))
  /\ (exists e, resolve_output_mappings config (config_base "/w/batch.toml") data_fs = Err (PathOverlap e)).
Proof.
  intros config. split_and!.
  - eexists. split; [vm_compute; reflexivity|done].
  - eexists _, _. split; vm_compute; reflexivity.
  - eexists. vm_compute. reflexivity.
Qed.

(** Outputs written with [..] are joined to the configuration directory without
    being normalised: this output is the directory [/w/data/a/fixed] inside the
    source [/w/data/a], and the mapping is accepted. *)
Theorem dotted_output_defeats_overlap :
  let config := config_at (local "/w/fixed") [entry "a" (Some "x/../data/a/fixed")] in
  exists ms, resolve_output_mappings config (config_base "/w/batch.toml") data_fs = Ok ms
    /\ map map_source ms = [Local (mkLocal "/w/data/a")]
    /\ map map_output ms = [Local (mkLocal "/w/x/../data/a/fixed")]
    /\ paths_overlap "/w/data/a" (normalize_local_path "/w/x/../data/a/fixed") = true.
Proof. intros config. eexists. split; [vm_compute; reflexivity|done]. Qed.

(** * Verification and commands *)

Definition ex_store : MemoryBackend := memory_new CAPS_S3.
Definition no_manifest (p : string) (fs : row_fs) : Result RepairError ExecutionManifest := Err (ScanFailed "missing").
Definition ex_verify := verify_batch_with_run (FS := row_fs) (St := MemoryBackend) (fun _ => ex_uuid) (fun _ => ex_uuid)
  ex_remote_scan no_manifest.

Definition failed_records : list DatasetRunRecord := [ex_record "a" FailedPermanent; ex_record "b" StaleSource].

Lemma unrepaired_batch_verifies_ok_witness : exists report,
  ex_verify good_plan failed_records None data_fs ex_store = (Ok report, ex_store) /\ bv_ok report = true
  /\ bv_passed report = 0%Z /\ bv_skipped report = 2%Z.
Proof.
  refine (unrepaired_batch_verifies_ok (fun _ => ex_uuid) (fun _ => ex_uuid) ex_remote_scan no_manifest good_plan
    failed_records None data_fs ex_store eq_refl _).
  intros ds [->|[->|[]%elem_of_nil]%elem_of_cons]%elem_of_cons; eexists; split; by vm_compute.
Defined.

Definition failed_report : BatchVerifyReport := Eval vm_compute in
  from_ok (Some (fst (ex_verify good_plan failed_records None data_fs ex_store))).

Lemma verify_report_exact_witness :
  (bv_passed failed_report + bv_failed failed_report + bv_skipped failed_report)%Z = 2%Z.
Proof.
  refine (proj1 (proj2 (verify_report_exact (fun _ => ex_uuid) (fun _ => ex_uuid) ex_remote_scan no_manifest good_plan
    failed_records None data_fs ex_store failed_report ex_store _))).
  vm_compute. reflexivity.
Defined.

Lemma local_dataset_fails_verification_witness :
  is_ok (fst (ex_verify good_plan done_records None data_fs ex_store)) = false.
Proof.
  refine (local_dataset_fails_verification (fun _ => ex_uuid) (fun _ => ex_uuid) ex_remote_scan no_manifest good_plan
    done_records None data_fs ex_store (hd (ex_dataset "a") (bp_datasets good_plan)) (mkLocal "/w/data/a")
    (ex_record "a" Succeeded) _ _ eq_refl eq_refl eq_refl eq_refl _).
  - intros p. simpl. by intros ->.
  - apply list_elem_of_here.
  - by vm_compute.
Defined.

#[local] Instance ex_run_formats : RunFormats := {|
  plan_from_slice _ := Ok good_plan; plan_to_string_pretty _ := Ok EmptyString; report_to_string_pretty _ := Ok EmptyString |}.
#[local] Instance row_write_fs : WriteFs row_fs := fun p _ fs => (Ok tt, <[p := []]> fs).
#[local] Instance named_plans : BatchJson := bp_batch_plan_id.

Definition ex_schedule (plan : BatchPlan) (run : string) (config : BatchExecutorConfig)
    (tasks : list (DatasetPlan * option DatasetState)) (s : @world row_fs MemoryBackend * SqliteRunJournal)
    : (list DatasetExecutionOutcome * nat * bool) * (@world row_fs MemoryBackend * SqliteRunJournal) :=
  (map (fun t => skipped_outcome (ds_dataset_id (fst t)) (snd t)) tasks, 1, false, s).

Definition ex_world_of (j : SqliteRunJournal) : @world row_fs MemoryBackend :=
  {| w_fs := data_fs; w_store := ex_store; w_journals := {["/w/run/journal.sqlite" := j]} |}.

Definition started_journal : SqliteRunJournal :=
  ensure_run (new_identity (fun _ => 7%Z) "1" good_plan "run-1") {| batch_runs := []; dataset_runs := [] |}.

Definition ex_options (dry : bool) : BatchRunOptions :=
  {| opt_dry_run := dry; opt_jobs := None; opt_interrupt_after_completed := None |}.
Definition ex_resume (dry : bool) := resume_batch (fun _ => ex_uuid) (fun _ => ex_uuid) ex_remote_scan no_manifest
  (fun _ => 7%Z) "1" ex_schedule "/w/run" (ex_options dry) (ex_world_of started_journal).

Lemma dry_run_changes_nothing_witness :
  snd (ex_resume true) = ex_world_of started_journal.
Proof.
  exact (proj1 (proj2 (dry_run_changes_nothing (fun _ => ex_uuid) (fun _ => ex_uuid) ex_remote_scan no_manifest
    (fun _ => 7%Z) "1" ex_schedule "run-2" good_plan "/w/run" (ex_options true) (ex_world_of started_journal) eq_refl))).
Defined.

Lemma resume_batch_gate_witness : exists plan j stored records,
  snapshot "/w/run" (ex_world_of started_journal) = Ok plan
  /\ w_journals (ex_world_of started_journal) !! path_join "/w/run" JOURNAL_FILE = Some j
  /\ authorized_records (fun _ => 7%Z) plan j = Ok (stored, records)
  /\ batch_plan_id stored = bp_batch_plan_id plan /\ plan_digest stored = batch_plan_digest plan
  /\ config_fingerprint stored = bp_config_fingerprint plan /\ output_root stored = bp_output_root plan.
Proof.
  refine (proj1 (resume_batch_gate (fun _ => ex_uuid) (fun _ => ex_uuid) ex_remote_scan no_manifest
    (fun _ => 7%Z) "1" ex_schedule "/w/run" (ex_options true) (ex_world_of started_journal)
    (fst (ex_resume true)) (snd (ex_resume true)) (surjective_pairing (ex_resume true))) _).
  vm_compute. reflexivity.
Defined.

Lemma fresh_journal_authorizes_witness : exists stored, run_id stored = "run-1"
  /\ authorized_records (fun _ => 7%Z) good_plan started_journal = Ok (stored, []).
Proof. exact (fresh_journal_authorizes (fun _ => 7%Z) "1" good_plan "run-1" eq_refl). Defined.
