(* ===== verification/ParquetFooter.v ===== *)
(** Reading a Parquet footer with two bounded range requests:
    src/crates/parqonaut-storage/src/parquet_range.rs. *)

From Stdlib Require Import Strings.Byte.
From S2P Require Import Prelude Location Backend Memory.

Open Scope prog_scope.

#[global] Instance byte_eq_decision : EqDecision byte := Byte.byte_eq_dec.

(** * Data *)

Definition PARQUET_MAGIC : bytes := ["P"%byte; "A"%byte; "R"%byte; "1"%byte].
Definition FOOTER_TRAILER_LEN : Z := 8.

Record ParquetRangeMetrics := {
  prm_head_requests : Z; prm_range_get_requests : Z; prm_range_bytes_read : Z;
}.

Record ParquetFooterBytes := { footer : bytes; metadata_len : Z; object_size : Z }.

(** [&b[b.len() - n..]]. *)
Definition suffix_bytes (n : nat) (b : bytes) : bytes := drop (length b - n) b.

Definition magic_valid (f : ParquetFooterBytes) : bool :=
  (8 <=? length (footer f)) && bool_decide (suffix_bytes 4 (footer f) = PARQUET_MAGIC).

(** [u32::from_le_bytes] and [u32::to_le_bytes]. *)
Definition from_le_bytes (b : bytes) : Z :=
  foldr (fun x acc => (Z.of_N (Byte.to_N x) + 256 * acc)%Z) 0%Z b.

Definition byte_of_Z (z : Z) : byte :=
  match Byte.of_N (Z.to_N (z mod 256)) with Some b => b | None => "000"%byte end.

Fixpoint le_bytes (n : nat) (z : Z) : bytes :=
  match n with 0 => [] | S n => byte_of_Z z :: le_bytes n (z / 256) end.

Definition to_le_bytes (z : Z) : bytes := le_bytes 4 z.

(** * Operations *)

Definition parse_metadata_length (trailer : bytes) : Result StorageError Z :=
  if negb (length trailer =? 8) then Err (InvalidLocation "expected 8-byte Parquet trailer")
  else if negb (bool_decide (drop 4 trailer = PARQUET_MAGIC)) then
    Err (InvalidLocation "Parquet trailer missing PAR1 magic")
  else Ok (from_le_bytes (take 4 trailer)).

Definition metrics_delta (before after : StorageMetrics) : ParquetRangeMetrics := {|
  prm_head_requests := saturating_sub (head_requests after) (head_requests before);
  prm_range_get_requests := saturating_sub (range_get_requests after) (range_get_requests before);
  prm_range_bytes_read := saturating_sub (range_bytes_read after) (range_bytes_read before) |}.

Definition read_parquet_footer (object : ObjectLocation)
    : prog (Result StorageError (ParquetFooterBytes * ParquetRangeMetrics)) :=
  caps ← request CCapabilities;
  if negb (range_reads caps) then Ret (Err (UnsupportedCapability "range_reads"))
  else
    before ← request CMetrics;
    meta <-? request (CHead object) ;;
    let size := md_size meta in
    if (size <? FOOTER_TRAILER_LEN)%Z then
      Ret (Err (InvalidLocation ("object too small for Parquet footer: " +:+ pretty size +:+ " bytes")))
    else
      let trailer_start := (size - FOOTER_TRAILER_LEN)%Z in
      range <-? lift_result (byte_range_new trailer_start (size - 1)) ;;
      trailer <-? request (CReadRange object range) ;;
      metadata_len <-? lift_result (parse_metadata_length trailer) ;;
      if (size <? metadata_len + FOOTER_TRAILER_LEN)%Z then
        Ret (Err (InvalidLocation ("invalid Parquet metadata length " +:+ pretty metadata_len
                                   +:+ " for size " +:+ pretty size)))
      else
        let footer_start := (size - (metadata_len + FOOTER_TRAILER_LEN))%Z in
        footer <-?
          (if (footer_start =? trailer_start)%Z then Ret (Ok trailer)
           else range <-? lift_result (byte_range_new footer_start (size - 1)) ;;
                request (CReadRange object range)) ;;
        if (length footer <? 8) || negb (bool_decide (suffix_bytes 4 footer = PARQUET_MAGIC)) then
          Ret (Err (InvalidLocation "Parquet footer missing PAR1 magic"))
        else
          after ← request CMetrics;
          Ret (Ok ({| footer := footer; metadata_len := metadata_len; object_size := size |},
                   metrics_delta before after)).

Definition synthetic_parquet_bytes (content_len : nat) (metadata : bytes) : bytes :=
  replicate content_len "000"%byte ++ metadata ++ to_le_bytes (Z.of_nat (length metadata)) ++ PARQUET_MAGIC.

(** * Integers and bytes *)

Lemma byte_of_Z_to_N z : Z.of_N (Byte.to_N (byte_of_Z z)) = (z mod 256)%Z.
Proof.
  unfold byte_of_Z. assert (0 <= z mod 256 < 256)%Z as Hz by (apply Z.mod_pos_bound; lia).
  destruct (Byte.of_N _) as [b|] eqn:E.
  - apply Byte.to_of_N in E. rewrite E, Z2N.id by lia. done.
  - apply Byte.of_N_None_iff in E. lia.
Qed.

Lemma le_bytes_length n z : length (le_bytes n z) = n.
Proof. revert z. induction n; intros z; simpl; [done|]. by rewrite IHn. Qed.

Lemma le_bytes_roundtrip n z : (0 <= z < 256 ^ Z.of_nat n)%Z -> from_le_bytes (le_bytes n z) = z.
Proof.
  revert z. induction n as [|n IH]; intros z Hz.
  { simpl in *. lia. }
  cbn [le_bytes from_le_bytes foldr]. fold from_le_bytes.
  change (foldr _ 0%Z (le_bytes n (z / 256))) with (from_le_bytes (le_bytes n (z / 256))).
  rewrite byte_of_Z_to_N, IH.
  - pose proof (Z.div_mod z 256). lia.
  - rewrite Nat2Z.inj_succ, Z.pow_succ_r in Hz by lia.
    split; [apply Z.div_pos; lia|apply Z.div_lt_upper_bound; lia].
Qed.

Lemma from_le_bytes_bounds b : (0 <= from_le_bytes b < 256 ^ Z.of_nat (length b))%Z.
Proof.
  induction b as [|x b IH]; cbn [from_le_bytes foldr length]; [lia|].
  change (foldr _ 0%Z b) with (from_le_bytes b).
  assert (Byte.to_N x <= 255)%N by (pose proof (Byte.to_N_bounded x); lia).
  rewrite Nat2Z.inj_succ, Z.pow_succ_r by lia. lia.
Qed.

Lemma le_bytes_of_bytes b : le_bytes (length b) (from_le_bytes b) = b.
Proof.
  induction b as [|x b IH]; [done|]. cbn [from_le_bytes foldr length le_bytes].
  change (foldr _ 0%Z b) with (from_le_bytes b).
  assert (Byte.to_N x <= 255)%N by (pose proof (Byte.to_N_bounded x); lia).
  rewrite (Z.mul_comm 256), Z.div_add, Z.div_small by lia. rewrite Z.add_0_l, IH. f_equal.
  unfold byte_of_Z. rewrite Z.mod_add, Z.mod_small by lia. by rewrite N2Z.id, Byte.of_to_N.
Qed.

(** * What a successful read returns *)

(** [d] is the content of a Parquet file whose footer, metadata and trailer, is [f]. *)
Definition is_footer_of (d f : bytes) (n : Z) : Prop :=
  exists body metadata, d = body ++ f /\ f = metadata ++ to_le_bytes n ++ PARQUET_MAGIC
    /\ Z.of_nat (length metadata) = n.

Lemma parse_metadata_length_ok b n :
  parse_metadata_length b = Ok n -> b = to_le_bytes n ++ PARQUET_MAGIC /\ (0 <= n < 2 ^ 32)%Z.
Proof.
  unfold parse_metadata_length. destruct (Nat.eqb_spec (length b) 8) as [Hl|]; [|done]. cbn [negb].
  case_bool_decide as Hd; [|done]. intros [= <-].
  assert (length (take 4 b) = 4) as Hl4 by (rewrite length_take; lia). split.
  - pose proof (le_bytes_of_bytes (take 4 b)) as Hr. rewrite Hl4 in Hr. unfold to_le_bytes.
    by rewrite Hr, <- Hd, take_drop.
  - pose proof (from_le_bytes_bounds (take 4 b)) as Hb. by rewrite Hl4 in Hb.
Qed.

Lemma drop_range (d : bytes) (start : Z) : (0 <= start < Z.of_nat (length d))%Z ->
  let br := {| range_start := start; range_end := (Z.of_nat (length d) - 1)%Z |} in
  take (Z.to_nat (byte_range_len br)) (drop (Z.to_nat start) d) = drop (Z.to_nat start) d.
Proof.
  intros Hs br. apply take_ge. rewrite length_drop. unfold byte_range_len, saturating_sub. simpl. lia.
Qed.

Lemma footer_split (d : bytes) (n : nat) : n + 8 <= length d ->
  suffix_bytes 8 d = to_le_bytes (Z.of_nat n) ++ PARQUET_MAGIC ->
  is_footer_of d (suffix_bytes (n + 8) d) (Z.of_nat n).
Proof.
  intros Hl Ht. unfold suffix_bytes in *.
  exists (take (length d - (n + 8)) d), (take n (drop (length d - (n + 8)) d)). split_and!.
  - by rewrite take_drop.
  - rewrite <- Ht. rewrite <- (take_drop n (drop (length d - (n + 8)) d)) at 1.
    rewrite drop_drop. do 2 f_equal. lia.
  - rewrite length_take, length_drop. lia.
Qed.

Lemma magic_suffix (b : bytes) : 8 <= length b -> suffix_bytes 4 b = PARQUET_MAGIC ->
  suffix_bytes 4 (suffix_bytes 8 b) = PARQUET_MAGIC.
Proof.
  intros Hl <-. unfold suffix_bytes. rewrite drop_drop, length_drop. f_equal. lia.
Qed.

Section Sound.
Context {St : Type} `{BackendLaws St}.

(** A range request up to the last byte of an object, on an object known. *)
Lemma read_to_end o (start : Z) s r s1 d : view s o = Some d -> addressable o ->
  (0 <= start < Z.of_nat (length d))%Z ->
  run (range <-? lift_result (byte_range_new start (Z.of_nat (length d) - 1)) ;; request (CReadRange o range)) s
    = (r, s1) ->
  view s1 o = Some d /\ (forall b, r = Ok b -> b = drop (Z.to_nat start) d).
Proof.
  intros Hv Ha Hs. unfold byte_range_new. rewrite (proj2 (Z.ltb_ge _ _)) by lia. simpl.
  destruct (read_range _ _ s) as [x s'] eqn:E. intros [= <- <-].
  apply law_read_range in E as [Hsame E]; [|simpl; lia]. split; [by rewrite Hsame|].
  intros b ->. destruct E as (d' & Hd' & ->). rewrite Hv in Hd'. injection Hd' as <-. by apply drop_range.
Qed.

Lemma run_try {E A B} (p : prog (Result E A)) (f : A -> prog (Result E B)) s :
  run (try p f) s = let '(r, s') := run p s in
                    match r with Ok a => run (f a) s' | Err e => (Err e, s') end.
Proof. unfold try. rewrite run_bind. destruct (run p s) as [[a|e] s']; done. Qed.

Lemma run_try_ok {E A B} (p : prog (Result E A)) (f : A -> prog (Result E B)) s b s' :
  run (try p f) s = (Ok b, s') -> exists a s1, run p s = (Ok a, s1) /\ run (f a) s1 = (Ok b, s').
Proof. rewrite run_try. destruct (run p s) as [[a|e] s1]; intros Hr; [eauto|done]. Qed.

(** A footer that is returned is the footer of the object: its metadata has the
    length the trailer declares and ends the object. *)
Theorem read_parquet_footer_sound o s f m s' : addressable o ->
  run (read_parquet_footer o) s = (Ok (f, m), s') ->
  exists d, view s o = Some d /\ object_size f = Z.of_nat (length d)
    /\ is_footer_of d (footer f) (metadata_len f) /\ magic_valid f = true
    /\ (0 <= metadata_len f < 2 ^ 32)%Z.
Proof.
  intros Ha. unfold read_parquet_footer. cbn [request mbind prog_bind run exec_call].
  destruct (negb _); [done|]. cbn [run exec_call]. intros (meta & s1 & Eh & Hr)%run_try_ok. cbn [run request exec_call] in Eh.
  destruct (head o s) as [rh sh] eqn:Eh'. injection Eh as -> ->.
  apply law_head in Eh' as [Hsame (d & Hv & Hsz)]. rewrite Hsz in Hr. unfold FOOTER_TRAILER_LEN in *.
  case_match eqn:Hlt; [done|]. apply Z.ltb_ge in Hlt.
  assert (view s1 o = Some d) as Hv1 by (by rewrite Hsame). clear Hsame meta Hsz.
  apply run_try_ok in Hr as (range & s1' & [= Er <-] & Hr).
  apply run_try_ok in Hr as (trailer & s2 & Et & Hr).
  destruct (read_to_end o (Z.of_nat (length d) - 8) s1 (Ok trailer) s2 d) as [Hv2 Htr]; try done; [lia| |].
  { rewrite run_try. cbn [lift_result run]. by rewrite Er. }
  specialize (Htr _ eq_refl).
  apply run_try_ok in Hr as (n & s2' & [= Hp <-] & Hr).
  apply parse_metadata_length_ok in Hp as [Htl Hnb].
  case_match eqn:Hsize; [done|]. apply Z.ltb_ge in Hsize.
  apply run_try_ok in Hr as (fb & s3 & Ef & Hr).
  assert (fb = suffix_bytes (Z.to_nat n + 8) d) as Hfb.
  { unfold suffix_bytes. destruct (Z.eqb_spec (Z.of_nat (length d) - (n + 8)) (Z.of_nat (length d) - 8)) as [He|He].
    - injection Ef as <- <-. rewrite Htr. f_equal. lia.
    - destruct (read_to_end o (Z.of_nat (length d) - (n + 8)) s2 _ s3 d Hv2 Ha ltac:(lia) Ef) as [_ Hx].
      rewrite (Hx _ eq_refl). f_equal. lia. }
  case_match eqn:Hchk; [done|]. apply orb_false_iff in Hchk as [Hl8 Hm].
  cbn [run mbind prog_bind request exec_call] in Hr. injection Hr as <- <- <-.
  exists d. split_and!; try done; simpl; [| |lia|lia].
  - rewrite Hfb. rewrite <- (Z2Nat.id n) at 2 by lia. apply footer_split; [lia|].
    rewrite Z2Nat.id by lia. rewrite <- Htl, Htr. unfold suffix_bytes. f_equal. lia.
  - unfold magic_valid. cbn [footer]. apply negb_false_iff in Hm. apply Nat.ltb_ge in Hl8.
    by rewrite Hm, (proj2 (Nat.leb_le 8 _) Hl8).
Qed.
End Sound.

(** * Completeness on the in-memory backend *)

(** Counters that the two or three requests of one read do not wrap around. *)
Definition counters_fit (s : MemoryBackend) (n : Z) : Prop :=
  (0 <= head_requests (collector s) < 2 ^ 64 - 3)%Z /\ (0 <= range_get_requests (collector s) < 2 ^ 64 - 2)%Z
  /\ (0 <= range_bytes_read (collector s) < 2 ^ 64 - (n + 16))%Z.

Lemma memory_read_tail o s st start : stored s !! key o = Some st ->
  (0 <= start < Z.of_nat (length (data st)))%Z ->
  memory_read_range o {| range_start := start; range_end := (Z.of_nat (length (data st)) - 1)%Z |} s
  = (Ok (drop (Z.to_nat start) (data st)),
     with_metrics (record_range_get (Z.of_nat (length (data st)) - start)) (with_metrics record_head s)).
Proof.
  intros Hs Hb. unfold memory_read_range. rewrite memory_head_spec. cbn [stored with_metrics]. rewrite Hs.
  cbn [range_start range_end]. rewrite (proj2 (Z.leb_gt _ _)) by lia.
  rewrite slice_clamp by lia. rewrite take_ge by (rewrite length_drop; lia).
  rewrite length_drop. do 3 f_equal. lia.
Qed.

Lemma wrap_u64_small z : (0 <= z < 2 ^ 64)%Z -> wrap_u64 z = z.
Proof. intros. unfold wrap_u64. by rewrite Z.mod_small. Qed.

Lemma parse_trailer n : (0 <= n < 2 ^ 32)%Z -> parse_metadata_length (to_le_bytes n ++ PARQUET_MAGIC) = Ok n.
Proof.
  intros Hn. unfold parse_metadata_length, to_le_bytes.
  rewrite length_app, le_bytes_length. cbn [length PARQUET_MAGIC Nat.add Nat.eqb negb].
  rewrite drop_app_length' by (by rewrite le_bytes_length). rewrite bool_decide_eq_true_2 by done.
  cbn [negb]. rewrite take_app_length' by (by rewrite le_bytes_length).
  by rewrite le_bytes_roundtrip.
Qed.

Definition trailer_of (n : Z) : bytes := to_le_bytes n ++ PARQUET_MAGIC.

Lemma trailer_length n : length (trailer_of n) = 8.
Proof. unfold trailer_of, to_le_bytes. by rewrite length_app, le_bytes_length. Qed.

Lemma magic_of_trailer metadata n : suffix_bytes 4 (metadata ++ trailer_of n) = PARQUET_MAGIC.
Proof.
  unfold suffix_bytes, trailer_of. rewrite app_assoc, drop_app_length'; [done|].
  rewrite !length_app. cbn [length PARQUET_MAGIC]. lia.
Qed.

Lemma trailer_magic metadata n :
  (length (metadata ++ trailer_of n) <? 8)
  || negb (bool_decide (suffix_bytes 4 (metadata ++ trailer_of n) = PARQUET_MAGIC)) = false.
Proof.
  rewrite magic_of_trailer, bool_decide_eq_true_2 by done.
  rewrite (proj2 (Nat.ltb_ge _ _)); [done|]. rewrite length_app, trailer_length. lia.
Qed.

Lemma run_range_only `{StorageBackend St} (start end_ : Z) o (s : St) : (start <= end_)%Z ->
  run (range <-? lift_result (byte_range_new start end_) ;; request (CReadRange o range)) s
  = read_range o {| range_start := start; range_end := end_ |} s.
Proof.
  intros Hse. unfold byte_range_new. rewrite (proj2 (Z.ltb_ge _ _)) by lia.
  simpl. by destruct (read_range _ _ _).
Qed.

Lemma footer_metrics (f : ParquetFooterBytes) before after h r b :
  saturating_sub (head_requests after) (head_requests before) = h ->
  saturating_sub (range_get_requests after) (range_get_requests before) = r ->
  saturating_sub (range_bytes_read after) (range_bytes_read before) = b ->
  Ok (E:=StorageError) (f, metrics_delta before after)
  = Ok (f, {| prm_head_requests := h; prm_range_get_requests := r; prm_range_bytes_read := b |}).
Proof. by intros <- <- <-. Qed.

(** Counters that fit do not wrap. *)
Local Ltac u64_counters :=
  repeat match goal with |- context [wrap_u64 ?z] => rewrite (wrap_u64_small z) by lia end;
  unfold saturating_sub; lia.

Lemma run_read_range `{StorageBackend St} {B} (start end_ : Z) o (f : bytes -> prog (Result StorageError B)) (s : St) :
  (start <= end_)%Z ->
  run (range <-? lift_result (byte_range_new start end_) ;; trailer <-? request (CReadRange o range) ;; f trailer) s
  = let '(r, s') := read_range o {| range_start := start; range_end := end_ |} s in
    match r with Ok b => run (f b) s' | Err e => (Err e, s') end.
Proof.
  intros Hse. rewrite run_try. unfold byte_range_new. rewrite (proj2 (Z.ltb_ge _ _)) by lia. cbn [lift_result run].
  rewrite run_try. cbn [request run exec_call]. by destruct (read_range _ _ _) as [[b|e] s'].
Qed.

(** The footer of a well-formed Parquet object is read with one range request of
    eight bytes, and a second one of exactly the footer if it has metadata. *)
Theorem read_parquet_footer_complete o s st body metadata :
  let n := Z.of_nat (length metadata) in
  let empty := (n =? 0)%Z in
  range_reads (caps s) = true -> stored s !! key o = Some st ->
  data st = body ++ metadata ++ trailer_of n -> (n < 2 ^ 32)%Z -> counters_fit s n ->
  fst (run (read_parquet_footer o) s) =
    Ok ({| footer := metadata ++ trailer_of n; metadata_len := n; object_size := Z.of_nat (length (data st)) |},
        {| prm_head_requests := if empty then 2 else 3; prm_range_get_requests := if empty then 1 else 2;
           prm_range_bytes_read := if empty then 8 else n + 16 |}).
Proof.
  intros n empty Hc Hs Hd Hn (Hh & Hr & Hb).
  assert (length (data st) = length body + length metadata + 8) as Hlen.
  { rewrite Hd, !length_app, trailer_length. lia. }
  assert (drop (Z.to_nat (Z.of_nat (length (data st)) - 8)) (data st) = trailer_of n) as Htr.
  { rewrite Hd at 2. rewrite app_assoc. apply drop_app_length'. rewrite length_app. lia. }
  assert (drop (Z.to_nat (Z.of_nat (length (data st)) - (n + 8))) (data st) = metadata ++ trailer_of n) as Hft.
  { rewrite Hd at 2. apply drop_app_length'. lia. }
  assert (stored (with_metrics record_head s) !! key o = Some st) as Hs' by done.
  unfold read_parquet_footer. cbn [request mbind prog_bind run exec_call capabilities metrics MemoryStorageBackend].
  rewrite Hc. cbn [negb run exec_call metrics]. rewrite run_try. cbn [request run exec_call head MemoryStorageBackend].
  rewrite memory_head_spec, Hs. cbn [md_size object_metadata_from_key]. unfold FOOTER_TRAILER_LEN.
  rewrite (proj2 (Z.ltb_ge _ _)) by lia. rewrite run_read_range by lia. cbn [read_range MemoryStorageBackend].
  rewrite (memory_read_tail _ _ st) by (done || lia). rewrite Htr, run_try. cbn [lift_result run].
  unfold trailer_of at 1. rewrite parse_trailer by lia.
  rewrite (proj2 (Z.ltb_ge _ _)) by lia. rewrite run_try.
  destruct (decide (n = 0)%Z) as [E|E].
  - rewrite (proj2 (Z.eqb_eq (_ - (n + 8)) _)) by lia. cbn [run].
    pose proof (trailer_magic [] n) as Hm. cbn [app] in Hm.
    assert (empty = true) as -> by (by apply Z.eqb_eq). rewrite Hm.
    assert (metadata = []) as -> by (apply nil_length_inv; lia).
    apply footer_metrics; simpl; u64_counters.
  - rewrite (proj2 (Z.eqb_neq (_ - (n + 8)) _)) by lia. rewrite run_range_only by lia.
    cbn [read_range MemoryStorageBackend]. rewrite (memory_read_tail _ _ st) by (done || lia). rewrite Hft.
    assert (empty = false) as -> by (by apply Z.eqb_neq). rewrite trailer_magic. apply footer_metrics; simpl; u64_counters.
Qed.
