(* ===== verification/RemoteInventory.v ===== *)
(** Listing a remote dataset, its inventory and its fingerprint, and the
    contract that a backend is tested against: inventory.rs, fingerprint.rs,
    contract.rs, the [list] calls of memory.rs and local.rs in
    src/crates/parqonaut-storage/src. *)

From stdpp Require Import sorting.
From Stdlib Require Import Ascii String.
From Stdlib Require Import Strings.Byte Ascii.
From S2P Require Import Prelude BTree Location Backend Memory Publication RepairPlan Config PublicationExamples.
From S2P Require Import ParquetFooter.

(** * Listing *)

Record ListOptions := { recursive : bool; max_keys : option nat }.

Record ListPage := {
  page_objects : list ObjectMetadata;
  page_prefixes : list string;
  truncated : bool;
  continuation_token : option string;
}.

(** [StorageBackend::list], as an interface of its own. *)
Class ListingBackend (St : Type) := list_page :
  DatasetLocation -> ListOptions -> option string -> St -> Result StorageError ListPage * St.

(** ** The in-memory backend *)

Definition record_list (m : StorageMetrics) : StorageMetrics := {|
  head_requests := head_requests m; list_requests := wrap_u64 (list_requests m + 1);
  range_get_requests := range_get_requests m; full_get_requests := full_get_requests m;
  put_requests := put_requests m; multipart_parts := multipart_parts m;
  bytes_read := bytes_read m; bytes_written := bytes_written m;
  range_bytes_read := range_bytes_read m; retries := retries m |}.

Definition memory_prefix (dataset : DatasetLocation) : string :=
  match dataset with
  | Local l => "local:" +:+ path l
  | S3 s => if decide (prefix s = EmptyString) then "s3:" +:+ bucket s +:+ "/"
            else "s3:" +:+ bucket s +:+ "/" +:+ prefix s
  end.

Definition uri_leb (a b : ObjectMetadata) : bool :=
  str_leb (object_display_uri (md_location a)) (object_display_uri (md_location b)).

Definition memory_list (dataset : DatasetLocation) (options : ListOptions) (token : option string)
    (s : MemoryBackend) : Result StorageError ListPage * MemoryBackend :=
  let s := with_metrics record_list s in
  let keep (kv : string * StoredObject) :=
    match strip_prefix (memory_prefix dataset) (fst kv) with
    | Some rest => recursive options || negb (has_char "/"%char rest)
    | None => false
    end in
  (Ok {| page_objects := sort_by uri_leb (map (fun kv => object_metadata_from_key (fst kv) (snd kv))
           (filter (fun kv => keep kv = true) (map_to_list (stored s))));
         page_prefixes := []; truncated := false; continuation_token := None |}, s).

#[global] Instance memory_listing : ListingBackend MemoryBackend := memory_list.

(** ** Pages of a listing (local.rs) *)

Record ListEntry := {
  entry_metadata : ObjectMetadata;
  entry_is_file : bool;
  entry_prefix : option string;
}.

Definition entry_uri (e : ListEntry) : string := object_display_uri (md_location (entry_metadata e)).

(** [object_location_for_relative]: the objects of a local dataset are named by
    their path below the root. *)
Definition object_location_for_relative (dataset : DatasetLocation) (relative : string) : ObjectLocation :=
  match dataset with
  | Local _ => LocalObject relative
  | S3 s3 => S3Object (bucket s3)
      (if decide (prefix s3 = EmptyString) then relative else trim_end_slash (prefix s3) +:+ "/" +:+ relative)
  end.

(** The page of the sorted entries after a token. *)
Definition page_start (entries : list ListEntry) (token : option string) : nat :=
  match token with
  | None => 0
  | Some token =>
      match list_find (fun e => entry_uri e = token) entries with
      | Some (i, _) => i + 1
      | None => length entries
      end
  end.

Definition page_entries (entries : list ListEntry) (options : ListOptions) (token : option string)
    : list ListEntry * bool * option string :=
  let start := page_start entries token in
  let page := take (default (length entries) (max_keys options)) (drop start entries) in
  let more := start + length page <? length entries in
  (page, more, if more then entry_uri <$> last page else None).

Definition page_of (entries : list ListEntry) (options : ListOptions) (token : option string) : ListPage :=
  let '(page, more, next) := page_entries entries options token in {|
  page_objects := map entry_metadata (filter (fun e => recursive options || entry_is_file e = true) page);
  page_prefixes := bm_keys (bs_of_list (omap entry_prefix
    (filter (fun e => recursive options || entry_is_file e = false) page)));
  truncated := more; continuation_token := next |}.

(** * Inventory (inventory.rs) *)

Record Inventory := { inv_dataset : DatasetLocation; inv_objects : list ObjectMetadata }.

Fixpoint ends_with (suffix s : string) : bool :=
  if decide (s = suffix) then true
  else match s with EmptyString => false | String _ s => ends_with suffix s end.

Definition strip_published_data_relative_key (relative_key : string) : option string :=
  rest ← strip_prefix ".parqonaut/versions/" relative_key;
  split ← split_once "/"%char rest;
  strip_prefix "data/" (snd split).

Definition logical_inventory_key (relative_key : string) : string :=
  default relative_key (strip_published_data_relative_key relative_key).

(** [path.strip_prefix(root)] followed by [trim_start_matches('/')]. *)
Definition local_relative (root p : string) : string :=
  join_strings "/" (map component_text (drop (length (components root)) (components p))).

Definition relative_object_key (dataset : DatasetLocation) (object : ObjectLocation) : option string :=
  match dataset, object with
  | Local root, LocalObject p =>
      if path_starts_with p (path root) then Some (local_relative (path root) p) else None
  | S3 root, S3Object b k =>
      if decide (bucket root = b) then
        let p := trim_end_slash (prefix root) in
        if decide (p = EmptyString) then Some (trim_start_slash k)
        else if decide (k = p) then Some EmptyString
        else strip_prefix (p +:+ "/") k
      else None
  | _, _ => None
  end.

Definition dataset_object_relative_key (dataset : DatasetLocation) (object : ObjectLocation) : option string :=
  k ← relative_object_key dataset object;
  Some (logical_inventory_key k).

Definition excluded_segment (segment : string) : bool :=
  bool_decide (segment = ".parqonaut") || bool_decide (segment = "_staging")
  || starts_with ".parqonaut-staging-" segment.

Definition is_excluded_inventory_path (relative_key : string) : bool :=
  let key := trim_start_slash relative_key in
  if decide (key = EmptyString) then true
  else if ends_with ".parqonaut.lock" key || ends_with ".parqonaut-manifest.json" key then true
  else existsb excluded_segment (split_char "/"%char key).

Definition object_sort_key (location : ObjectLocation) : string :=
  match location with LocalObject p => p | S3Object _ k => k end.

Definition inventory_leb (a b : ObjectMetadata) : bool :=
  str_leb (object_sort_key (md_location a)) (object_sort_key (md_location b)).

(** [dedup_by]: an element equal to the one kept before it is dropped. *)
Fixpoint dedup_from (last : ObjectMetadata) (l : list ObjectMetadata) : list ObjectMetadata :=
  match l with
  | [] => []
  | x :: l =>
      if decide (object_sort_key (md_location x) = object_sort_key (md_location last)) then dedup_from last l
      else x :: dedup_from x l
  end.
Definition dedup_objects (l : list ObjectMetadata) : list ObjectMetadata :=
  match l with [] => [] | x :: l => x :: dedup_from x l end.

Definition retained (dataset : DatasetLocation) (o : ObjectMetadata) : bool :=
  match dataset_object_relative_key dataset (md_location o) with
  | Some k => negb (is_excluded_inventory_path k)
  | None => false
  end.

Definition is_parquet (dataset : DatasetLocation) (o : ObjectMetadata) : bool :=
  match dataset_object_relative_key dataset (md_location o) with
  | Some k => ends_with ".parquet" k
  | None => false
  end.

(** The objects of a committed version among those listed. *)
Definition published_of (dataset : DatasetLocation) (version : string) (raw : list ObjectMetadata)
    : list ObjectMetadata :=
  let data_prefix := ".parqonaut/versions/" +:+ version +:+ "/data/" in
  filter (fun o =>
    match relative_object_key dataset (md_location o) with
    | Some relative =>
        match strip_prefix data_prefix relative with
        | Some logical => negb (is_excluded_inventory_path logical) && ends_with ".parquet" logical
        | None => false
        end
    | None => false
    end = true) raw.

(** Order and duplicates. *)
Definition arrange (objects : list ObjectMetadata) : list ObjectMetadata :=
  dedup_objects (sort_by inventory_leb objects).

Section Inventory.
Context {St : Type} `{StorageBackend St} `{ListingBackend St}.
Context `{Json CommitMarker} `{Json CurrentPointer}.

(** The loop over the pages; [None] is running out of fuel. *)
Fixpoint list_all (fuel : nat) (dataset : DatasetLocation) (token : option string) (st : St)
    : option (Result StorageError (list ObjectMetadata) * St) :=
  match fuel with
  | 0 => None
  | S fuel =>
      match list_page dataset {| recursive := true; max_keys := None |} token st with
      | (Err e, st) => Some (Err e, st)
      | (Ok page, st) =>
          if truncated page then
            match list_all fuel dataset (continuation_token page) st with
            | Some (r, st) => Some (rest ← r; Ok (page_objects page ++ rest), st)
            | None => None
            end
          else Some (Ok (page_objects page), st)
      end
  end.

Definition published_data_inventory (dataset : DatasetLocation) (raw : list ObjectMetadata) (st : St)
    : Result StorageError (list ObjectMetadata) * St :=
  let other {A} (r : Result PublicationError A) := map_err (fun e => Other (publication_error_display e)) r in
  match dataset with
  | Local _ => (Ok [], st)
  | S3 _ =>
      match run (read_current_version dataset) st with
      | (Err e, st) => (other (Err e), st)
      | (Ok None, st) => (Ok [], st)
      | (Ok (Some version), st) =>
          match run (is_version_committed dataset version) st with
          | (Err e, st) => (other (Err e), st)
          | (Ok false, st) => (Ok [], st)
          | (Ok true, st) => (Ok (published_of dataset version raw), st)
          end
      end
  end.

Definition list_remote_inventory (fuel : nat) (dataset : DatasetLocation) (st : St)
    : option (Result StorageError Inventory * St) :=
  match list_all fuel dataset None st with
  | None => None
  | Some (Err e, st) => Some (Err e, st)
  | Some (Ok raw, st) =>
      let objects := filter (fun o => retained dataset o = true) raw in
      let '(objects, st) :=
        if existsb (is_parquet dataset) objects then (objects, st)
        else match published_data_inventory dataset raw st with
             | (Ok published, st) => (objects ++ published, st)
             | (Err _, st) => (objects, st)
             end in
      Some (Ok {| inv_dataset := dataset; inv_objects := arrange objects |}, st)
  end.
End Inventory.

(** * Fingerprint (fingerprint.rs) *)

Definition REMOTE_FINGERPRINT_VERSION : Z := 1.

Record RemoteFingerprintEntry := {
  rfe_relative_key : string; rfe_size : Z; rfe_etag : string; rfe_version_id : option string;
}.

Record RemoteFingerprint := {
  rf_version : Z; rf_dataset_uri : string; rf_digest : string; rf_entries : list RemoteFingerprintEntry;
}.

Definition entry_from_object (i : Inventory) (o : ObjectMetadata) : option RemoteFingerprintEntry :=
  k ← dataset_object_relative_key (inv_dataset i) (md_location o);
  Some {| rfe_relative_key := k; rfe_size := md_size o; rfe_etag := default EmptyString (md_etag o);
          rfe_version_id := md_version_id o |}.

Definition rfe_leb (a b : RemoteFingerprintEntry) : bool := str_leb (rfe_relative_key a) (rfe_relative_key b).

Definition rfe_json (e : RemoteFingerprintEntry) : json := JObj [
  ("relative_key", JStr (rfe_relative_key e)); ("size", JNum (rfe_size e)); ("etag", JStr (rfe_etag e));
  ("version_id", match rfe_version_id e with Some v => JStr v | None => JNull end)].

Section Fingerprint.
Context `{Digests}.

Definition remote_digest_entries (entries : list RemoteFingerprintEntry) : string :=
  hex_encode (sha256 ("parqonaut-remote-fp-v1" +:+ nul
    +:+ json_to_string (JArr (map rfe_json (sort_by rfe_leb entries))))).

Definition compute_remote_fingerprint (i : Inventory) : RemoteFingerprint :=
  let entries := sort_by rfe_leb (omap (entry_from_object i) (inv_objects i)) in {|
  rf_version := REMOTE_FINGERPRINT_VERSION; rf_dataset_uri := display_uri (inv_dataset i);
  rf_digest := remote_digest_entries entries; rf_entries := entries |}.

Definition remote_verify_against (self current : RemoteFingerprint) : Result StorageError unit :=
  if negb (bool_decide (rf_digest self = rf_digest current)) then
    Err (Conflict ("remote fingerprint mismatch: expected " +:+ rf_digest self +:+ ", got " +:+ rf_digest current))
  else Ok tt.
End Fingerprint.

(** The inventory of a remote dataset: paging visits every entry once, the order
    of the listing does not matter, and which versions of a published dataset
    it contains. *)

(** * Paging *)

(** The pages a client sees that follows the continuation tokens. *)
Fixpoint pages (fuel : nat) (entries : list ListEntry) (options : ListOptions) (token : option string)
    : option (list (list ListEntry)) :=
  match fuel with
  | 0 => None
  | S fuel =>
      let '(page, more, next) := page_entries entries options token in
      if more then rest ← pages fuel entries options next; Some (page :: rest) else Some [page]
  end.

Lemma page_start_at entries i e : NoDup (map entry_uri entries) -> entries !! i = Some e ->
  page_start entries (Some (entry_uri e)) = i + 1.
Proof.
  intros Hnd He. unfold page_start. assert (list_find (fun x => entry_uri x = entry_uri e) entries = Some (i, e)) as ->; [|done].
  apply list_find_Some. split_and!; [done|done|]. intros j y Hj Hlt Hy.
  assert (j = i); [|lia]. eapply (NoDup_lookup _ j i (entry_uri y) Hnd); rewrite list_lookup_fmap;
    [by rewrite Hj|by rewrite He; simpl; rewrite Hy].
Qed.

Lemma pages_from fuel entries options token k n : NoDup (map entry_uri entries) ->
  max_keys options = Some (S k) -> page_start entries token = n -> n <= length entries -> length entries - n < fuel ->
  exists ps, pages fuel entries options token = Some ps /\ concat ps = drop n entries.
Proof.
  intros Hnd Hk. revert token n. induction fuel as [|fuel IH]; intros token n Hs Hn Hf; [lia|].
  simpl. unfold page_entries. rewrite Hs, Hk. simpl.
  set (page := take (S k) (drop n entries)).
  assert (length page = S k `min` (length entries - n)) as Hlen by (unfold page; by rewrite length_take, length_drop).
  destruct (n + length page <? length entries) eqn:E.
  - apply Nat.ltb_lt in E. destruct (last page) as [e|] eqn:He; [|apply last_None in He; rewrite He in Hlen, E; cbn [length] in Hlen, E; lia].
    assert (entries !! (n + k) = Some e) as Hl.
    { rewrite last_lookup in He. replace (pred (length page)) with k in He by lia. unfold page in He.
      rewrite lookup_take_lt, lookup_drop in He by lia. done. }
    destruct (IH (Some (entry_uri e)) (n + S k)) as (ps & Hps & Hc).
    + rewrite (page_start_at _ (n + k)) by done. lia.
    + lia.
    + lia.
    + change (entry_uri <$> Some e) with (Some (entry_uri e)). rewrite Hps. simpl. eexists. split; [done|]. simpl. rewrite Hc.
      unfold page. rewrite <- drop_drop, take_drop. done.
  - apply Nat.ltb_ge in E. eexists. split; [done|]. simpl. rewrite app_nil_r. unfold page.
    apply take_ge. rewrite length_drop. lia.
Qed.

(** A client that asks for pages of any size above zero and follows the
    continuation tokens ends and sees every entry of the listing once and in
    order, provided the entries have distinct URIs. *)
Theorem paging_complete entries options k : NoDup (map entry_uri entries) -> max_keys options = Some (S k) ->
  exists ps, pages (S (length entries)) entries options None = Some ps /\ concat ps = entries.
Proof. intros Hnd Hk. apply (pages_from _ _ _ _ k 0); try done; lia. Qed.

(** * Order and duplicates *)

Definition sort_key (o : ObjectMetadata) : string := object_sort_key (md_location o).

Lemma inventory_sorted l : StronglySorted (fun a b => inventory_leb a b = true) (sort_by inventory_leb l).
Proof.
  apply Sorted_StronglySorted.
  - intros a b c. unfold inventory_leb, str_leb. rewrite !bool_decide_eq_true. apply (transitivity (R := String.le)).
  - apply sort_by_sorted. intros a b. unfold inventory_leb, str_leb. rewrite !bool_decide_eq_true.
    apply (total String.le).
Qed.

Lemma sort_inventory_unique l1 l2 : NoDup (map sort_key l1) -> l1 ≡ₚ l2 ->
  sort_by inventory_leb l1 = sort_by inventory_leb l2.
Proof.
  intros Hnd Hp. apply (StronglySorted_unique_strong (fun a b => inventory_leb a b = true));
    [|apply inventory_sorted..|by rewrite !sort_by_perm].
  intros a b Ha Hb Hab Hba. rewrite sort_by_perm in Ha, Hb. rewrite <- Hp in Hb.
  assert (sort_key a = sort_key b) as Hk.
  { unfold inventory_leb, str_leb in Hab, Hba. rewrite bool_decide_eq_true in Hab, Hba. by apply (anti_symm String.le). }
  apply list_elem_of_lookup in Ha as [i Hi], Hb as [j Hj].
  assert (i = j) as <-; [|congruence].
  eapply (NoDup_lookup _ i j (sort_key a) Hnd); rewrite list_lookup_fmap; [by rewrite Hi|by rewrite Hj; simpl; rewrite Hk].
Qed.

Lemma dedup_from_strict x l : StronglySorted (fun a b => inventory_leb a b = true) (x :: l) ->
  StronglySorted str_lt (map sort_key (x :: dedup_from x l)).
Proof.
  revert x. induction l as [|y l IH]; intros x Hs; simpl; [repeat constructor|].
  inversion Hs as [|? ? Hs' Hx]; subst. inversion Hs' as [|? ? Hs'' Hy]; subst. inversion Hx as [|? ? Hxy Hxl]; subst.
  unfold inventory_leb, str_leb in Hxy. apply bool_decide_eq_true in Hxy. case_decide as He.
  - apply IH. by constructor.
  - assert (str_lt (sort_key x) (sort_key y)) as Hlt by (by split; [|apply not_eq_sym]).
    specialize (IH y Hs'). simpl in IH. constructor; [done|]. simpl. constructor; [done|].
    inversion IH as [|? ? _ Hall]; subst. eapply Forall_impl; [done|]. intros k Hk. by etrans.
Qed.

Lemma dedup_from_elem x l o : o ∈ l -> exists o', o' ∈ x :: dedup_from x l /\ sort_key o' = sort_key o.
Proof.
  revert x. induction l as [|y l IH]; intros x Ho; [by apply not_elem_of_nil in Ho|].
  simpl. apply elem_of_cons in Ho as [->|Ho]; case_decide as He.
  - exists x. split; [apply list_elem_of_here|done].
  - exists y. split; [apply list_elem_of_further, list_elem_of_here|done].
  - by apply IH.
  - destruct (IH y Ho) as (o' & Hin & Hk). exists o'. split; [by apply list_elem_of_further|done].
Qed.

Lemma arrange_elem l o : o ∈ l -> exists o', o' ∈ arrange l /\ sort_key o' = sort_key o.
Proof.
  intros Ho. unfold arrange. assert (o ∈ sort_by inventory_leb l) as Hs by (by rewrite sort_by_perm).
  destruct (sort_by inventory_leb l) as [|x s]; [by apply not_elem_of_nil in Hs|]. simpl.
  apply elem_of_cons in Hs as [->|Hs]; [|by apply dedup_from_elem].
  exists x. split; [apply list_elem_of_here|done].
Qed.

(** The inventory does not depend on the order in which the backend lists the
    objects, and its keys are strictly increasing. *)
Theorem inventory_order_independent dataset l1 l2 : NoDup (map sort_key l1) -> l1 ≡ₚ l2 ->
  let kept := filter (fun o => retained dataset o = true) in
  arrange (kept l1) = arrange (kept l2) /\ StronglySorted str_lt (map sort_key (arrange (kept l1))).
Proof.
  intros Hnd Hp kept. split.
  - unfold arrange. rewrite (sort_inventory_unique (kept l1) (kept l2)); [done| |unfold kept; by rewrite Hp].
    unfold kept. clear Hp l2. induction l1 as [|x l IH]; simpl in *; [constructor|].
    inversion Hnd as [|? ? Hx Hl]; subst. rewrite filter_cons. case_decide; [|by apply IH].
    simpl. constructor; [|by apply IH]. intros Hin. apply Hx. apply list_elem_of_fmap in Hin as (y & Hy & Hin).
    apply list_elem_of_filter in Hin as [_ Hin]. apply list_elem_of_fmap. eauto.
  - unfold arrange. pose proof (inventory_sorted (kept l1)) as Hs.
    destruct (sort_by inventory_leb (kept l1)) as [|x s]; simpl; [constructor|]. by apply dedup_from_strict.
Qed.

(** * Published versions *)

Lemma split_once_at c a b : has_char c a = false -> split_once c (a +:+ String c b) = Some (a, b).
Proof.
  induction a as [|d a IH]; sapp; cbn; [by rewrite bool_decide_eq_true_2|].
  rewrite orb_false_iff. intros [Hd Ha]. by rewrite Hd, IH.
Qed.

Definition version_data_key (version name : string) : string :=
  ".parqonaut/versions/" +:+ version +:+ "/data/" +:+ name.

Lemma logical_key_of_version version name : has_char "/"%char version = false ->
  logical_inventory_key (version_data_key version name) = name.
Proof.
  intros Hv. unfold logical_inventory_key, strip_published_data_relative_key, version_data_key.
  rewrite strip_prefix_app. cbn [mbind option_bind]. change ("/data/" +:+ name) with (String "/" ("data/" +:+ name)).
  rewrite split_once_at by done. cbn [mbind option_bind snd]. by rewrite strip_prefix_app.
Qed.

(** With no retained Parquet object the committed version has none either. *)
Lemma published_redundant dataset version raw : has_char "/"%char version = false ->
  existsb (is_parquet dataset) (filter (fun o => retained dataset o = true) raw) = false ->
  published_of dataset version raw = [].
Proof.
  intros Hv Hn. destruct (published_of dataset version raw) as [|o l] eqn:E; [done|exfalso].
  unfold published_of in E. cbv zeta in E.
  assert (o ∈ o :: l) as Ho by apply list_elem_of_here. rewrite <- E in Ho.
  apply list_elem_of_filter in Ho as [Hc Ho].
  destruct (relative_object_key dataset (md_location o)) as [rel|] eqn:Hrel; [|done].
  destruct (strip_prefix _ rel) as [logical|] eqn:Hs; [|done]. apply strip_prefix_inv in Hs.
  rewrite !app_assoc_string in Hs. change (rel = version_data_key version logical) in Hs. subst rel.
  apply andb_prop in Hc as [Hx Hp]. apply negb_true_iff in Hx.
  assert (dataset_object_relative_key dataset (md_location o) = Some logical) as Hk.
  { unfold dataset_object_relative_key. rewrite Hrel. simpl. by rewrite logical_key_of_version. }
  assert (existsb (is_parquet dataset) (filter (fun o => retained dataset o = true) raw) = true); [|congruence].
  apply existsb_exists. exists o. split.
  - apply list_elem_of_In, list_elem_of_filter. split; [|done]. unfold retained. by rewrite Hk, Hx.
  - unfold is_parquet. by rewrite Hk.
Qed.

Section Versions.
Context {St : Type} `{StorageBackend St} `{ListingBackend St} `{Json CommitMarker} `{Json CurrentPointer}.

(** The inventory is a function of the listing alone: whatever CURRENT names
    and whichever versions are committed, it consists of the retained objects,
    and the data files of every version, superseded and uncommitted ones
    included, are retained under their logical names. *)
Theorem inventory_ignores_current fuel dataset st raw st1 inv st2 :
  list_all fuel dataset None st = Some (Ok raw, st1) ->
  list_remote_inventory fuel dataset st = Some (Ok inv, st2) ->
  (forall v, fst (run (read_current_version dataset) st1) = Ok (Some v) -> has_char "/"%char v = false) ->
  inv_objects inv = arrange (filter (fun o => retained dataset o = true) raw)
  /\ (forall o version name, o ∈ raw -> has_char "/"%char version = false ->
        relative_object_key dataset (md_location o) = Some (version_data_key version name) ->
        is_excluded_inventory_path name = false ->
        dataset_object_relative_key dataset (md_location o) = Some name
        /\ exists o', o' ∈ inv_objects inv /\ sort_key o' = sort_key o).
Proof.
  intros Hall Hinv Hcur. unfold list_remote_inventory in Hinv. rewrite Hall in Hinv.
  assert (inv_objects inv = arrange (filter (fun o => retained dataset o = true) raw)) as Hobj.
  { destruct (existsb _ _) eqn:Hp; [by injection Hinv as <- _|].
    assert (forall p st3, published_data_inventory dataset raw st1 = (Ok p, st3) -> p = []) as Hpub.
    { unfold published_data_inventory. destruct dataset as [|s3]; [by intros p st3 [= <- _]|]. intros p st3.
      destruct (run (read_current_version _) st1) as [[[v|]|] st4] eqn:Hr; [|by intros [= <- _]|done].
      destruct (run _ st4) as [[[]|] st5]; [|by intros [= <- _]|done].
      intros [= <- _]. apply published_redundant; [|done]. by apply Hcur. }
    destruct (published_data_inventory dataset raw st1) as [[p|] st3]; injection Hinv as <- _; [|done].
    simpl. by rewrite (Hpub p st3 eq_refl), app_nil_r. }
  split; [done|]. intros o version name Ho Hv Hrel Hx.
  assert (dataset_object_relative_key dataset (md_location o) = Some name) as Hk.
  { unfold dataset_object_relative_key. rewrite Hrel. simpl. by rewrite logical_key_of_version. }
  split; [done|]. rewrite Hobj. apply arrange_elem, list_elem_of_filter. split; [|done].
  unfold retained. by rewrite Hk, Hx.
Qed.
End Versions.

(** The local backend names the objects of a local dataset by their path below
    the root, which is not below the root: their inventory is empty. *)
Theorem local_listing_inventory_empty root raw : is_absolute (path root) = true ->
  Forall (fun o => exists relative, is_absolute relative = false /\ components relative <> []
            /\ md_location o = object_location_for_relative (Local root) relative) raw ->
  arrange (filter (fun o => retained (Local root) o = true) raw) = [].
Proof.
  intros Hroot Hall. assert (filter (fun o => retained (Local root) o = true) raw = []) as ->; [|done].
  induction Hall as [|o raw (rel & Hr & Hne & Hloc) _ IH]; [done|]. rewrite filter_cons, IH.
  case_decide as Hret; [exfalso|done]. unfold retained, dataset_object_relative_key, relative_object_key in Hret.
  rewrite Hloc in Hret. simpl in Hret.
  pose proof (relative_never_overlaps (path root) rel Hroot Hr Hne) as Ho. unfold paths_overlap in Ho.
  apply orb_false_iff in Ho as [_ Ho]. by rewrite Ho in Hret.
Qed.

(** The inventory and the footer reader on the in-memory backend: two published
    versions at once, an inventory of a local dataset, pages, a footer. *)

(** A dataset with a superseded version [v1] and the current version [v2], not
    even committed. *)
Definition lake : DatasetLocation := S3 {| bucket := "lake"; prefix := "orders" |}.

Definition put (k : string) (d : bytes) (s : MemoryBackend) : MemoryBackend :=
  snd (memory_conditional_create (S3Object "lake" ("orders/" +:+ k)) must_not_exist d s).

Definition two_versions : MemoryBackend :=
  put (version_data_key "v1" "a.parquet") [x00] (put (version_data_key "v2" "a.parquet") [x01]
    (put ".parqonaut/versions/v1/commit.json" [] (memory_new CAPS_S3))).

Lemma inventory_ignores_current_witness :
  exists raw st1 inv st2,
    list_all 1 lake None two_versions = Some (Ok raw, st1)
    /\ list_remote_inventory 1 lake two_versions = Some (Ok inv, st2)
    /\ inv_objects inv = arrange (filter (fun o => retained lake o = true) raw)
    /\ map (fun o => dataset_object_relative_key lake (md_location o)) (inv_objects inv)
       = [Some "a.parquet"; Some "a.parquet"].
Proof.
  eexists _, _, _, _. split; [vm_compute; reflexivity|]. split; [vm_compute; reflexivity|]. split.
  - refine (proj1 (inventory_ignores_current 1 lake two_versions _ _ _ _ _ _ _));
      [vm_compute; reflexivity|vm_compute; reflexivity|].
    intros v Hv. vm_compute in Hv. discriminate Hv.
  - vm_compute. reflexivity.
Defined.

Definition entry (name : string) : ListEntry := {|
  entry_metadata := {| md_location := LocalObject name; md_size := 1; md_etag := None; md_version_id := None;
                       md_last_modified := None |};
  entry_is_file := true; entry_prefix := None |}.

Lemma paging_complete_witness :
  let entries := [entry "a"; entry "b"; entry "c"] in
  let options := {| recursive := true; max_keys := Some 2 |} in
  (exists ps, pages 4 entries options None = Some ps /\ concat ps = entries)
  /\ pages 4 entries options None = Some [[entry "a"; entry "b"]; [entry "c"]].
Proof.
  split; [|vm_compute; reflexivity]. apply (paging_complete [entry "a"; entry "b"; entry "c"] _ 1); [|reflexivity].
  apply (bool_decide_unpack _). vm_compute. exact I.
Defined.

Lemma local_listing_inventory_empty_witness :
  let root := {| path := "/data/orders" |} in
  let o := entry_metadata (entry "a.parquet") in
  md_location o = object_location_for_relative (Local root) "a.parquet"
  /\ arrange (filter (fun o => retained (Local root) o = true) [o]) = [].
Proof.
  split; [reflexivity|].
  apply (local_listing_inventory_empty {| path := "/data/orders" |} [entry_metadata (entry "a.parquet")]);
    [vm_compute; reflexivity|].
  constructor; [|constructor]. exists "a.parquet". split_and!; [vm_compute; reflexivity| |reflexivity].
  vm_compute. intros H. discriminate H.
Defined.

(** An object with four bytes of data and two of metadata. *)
Definition parquet_object : ObjectLocation := S3Object "lake" "orders/a.parquet".
Definition parquet_store : MemoryBackend := put "a.parquet" (synthetic_parquet_bytes 4 [x05; x06]) (memory_new CAPS_S3).

Lemma read_parquet_footer_sound_witness :
  exists f m s' d, run (read_parquet_footer parquet_object) parquet_store = (Ok (f, m), s')
    /\ memory_view parquet_store parquet_object = Some d
    /\ is_footer_of d (footer f) (metadata_len f) /\ metadata_len f = 2%Z.
Proof.
  eexists _, _, _, _. split; [vm_compute; reflexivity|]. split; [vm_compute; reflexivity|]. split.
  - edestruct (read_parquet_footer_sound parquet_object parquet_store) as (d & Hd & _ & Hf & _);
      [reflexivity|vm_compute; reflexivity|].
    vm_compute in Hd. injection Hd as <-. exact Hf.
  - reflexivity.
Defined.

Lemma read_parquet_footer_complete_witness :
  fst (run (read_parquet_footer parquet_object) parquet_store) =
    Ok ({| footer := [x05; x06] ++ trailer_of 2; metadata_len := 2; object_size := 14 |},
        {| prm_head_requests := 3; prm_range_get_requests := 2; prm_range_bytes_read := 18 |}).
Proof.
  apply (read_parquet_footer_complete parquet_object parquet_store
           {| data := synthetic_parquet_bytes 4 [x05; x06]; etag := mem_etag (synthetic_parquet_bytes 4 [x05; x06]);
              Memory.version_id := 1 |} (replicate 4 x00) [x05; x06]);
    try reflexivity; vm_compute; split_and!; (reflexivity || discriminate).
Defined.

(** * The behavioural contract of a backend (contract.rs) *)

Module Contract.
Section Contract.
Context `{UrlParser} {St : Type} `{StorageBackend St} `{ListingBackend St}.

Definition contract_object : ObjectLocation := S3Object "contract-test" "prefix/object.bin".

(** A check is a function on the backend; [None] is a failed assertion. *)
Definition check_replaced (md : ObjectMetadata) (s : St) : option St :=
  match conditional_replace contract_object (matching md) (list_byte_of_string "hello-world") s with
  | (Ok replaced, s) =>
      if (md_size replaced =? 11)%Z then
        match conditional_replace contract_object {| expected_etag := Some "stale"; expected_version_id := None |} (list_byte_of_string "nope") s with
        | (Err (PreconditionFailed _), s) => Some s
        | _ => None
        end
      else None
  | _ => None
  end.

Definition check_range (s : St) : option St :=
  match byte_range_new 1 3 with
  | Ok r =>
      match read_range contract_object r s with
      | (Ok range, s) => if decide (range = list_byte_of_string "ell") then Some s else None
      | _ => None
      end
  | Err _ => None
  end.

Definition check_delete (s : St) : option St :=
  match delete_owned_object contract_object s with
  | (Ok _, s) => match head contract_object s with (Err (NotFound _), s) => Some s | _ => None end
  | _ => None
  end.

Definition check_object (caps : StorageCapabilities) (s : St) : option St :=
  match conditional_create contract_object must_not_exist (list_byte_of_string "hello") s with
  | (Ok md, s) =>
      if (md_size md =? 5)%Z && bool_decide (is_Some (md_etag md)) then
        match conditional_create contract_object must_not_exist (list_byte_of_string "again") s with
        | (Err (Conflict _), s) =>
            match head contract_object s with
            | (Ok h, s) =>
                if (md_size h =? 5)%Z then
                  s ← (if range_reads caps then check_range s else Some s);
                  s ← (if cap_conditional_replace caps then check_replaced h s else Some s);
                  check_delete s
                else None
            | _ => None
            end
        | _ => None
        end
      else None
  | _ => None
  end.

Definition check_listing (caps : StorageCapabilities) (dataset : DatasetLocation) (s : St) : option St :=
  if stream_reads caps then Some (snd (list_page dataset {| recursive := true; max_keys := None |} None s))
  else match list_page dataset {| recursive := false; max_keys := None |} None s with (Err _, s) => Some s | _ => None end.

Definition storage_backend_contract (s : St) : option St :=
  let caps := capabilities s in
  match parse "s3://contract-test/prefix/" with
  | Ok dataset =>
      s ← (if cap_conditional_create caps then check_object caps s else Some s);
      check_listing caps dataset s
  | Err _ => None
  end.

Definition assert_unsupported_when_missing_capability (s : St) : option St :=
  if range_reads (capabilities s) then Some s
  else
    match byte_range_new 0 0 with
    | Ok r =>
        match read_range (S3Object "b" "k") r s with
        | (Err (UnsupportedCapability _ | NotFound _), s) => Some s
        | _ => None
        end
    | Err _ => None
    end.
End Contract.

#[export] Instance noop_listing : ListingBackend Noop.NoopStorageBackend := fun _ _ _ => Noop.noop_list.
Import Noop.

(** A fresh in-memory backend passes its contract for every set of capabilities that
    has streaming reads, and fails it for every other: its listing never refuses. *)
Theorem memory_contract `{UrlParser} dataset c : parse "s3://contract-test/prefix/" = Ok dataset ->
  bool_decide (is_Some (storage_backend_contract (memory_new c))) = stream_reads c.
Proof. intros E. unfold storage_backend_contract. rewrite E. destruct c as [[] [] ? ? [] [] ? ?]; vm_compute; reflexivity. Qed.

Theorem noop_contract `{UrlParser} dataset b : parse "s3://contract-test/prefix/" = Ok dataset ->
  storage_backend_contract b = Some b /\ assert_unsupported_when_missing_capability b = Some b.
Proof. intros E. unfold storage_backend_contract. by rewrite E. Qed.

(** The url crate on the URI of the contract: the contract runs and passes. *)
Example memory_contract_passes :
  let _ : UrlParser := fun _ => Ok {| scheme := "s3"; username := EmptyString; password := None;
    host_str := Some "contract-test"; url_path := "/prefix/"; to_file_path := None |} in
  bool_decide (is_Some (storage_backend_contract (memory_new CAPS_S3))) = true.
Proof. intros urls. apply (memory_contract (S3 {| bucket := "contract-test"; prefix := "prefix" |}) CAPS_S3). reflexivity. Qed.
End Contract.
