(* ===== verification/LocalFs.v ===== *)
(** A Unix file system as the local backend uses it: a tree of directories and
    files, paths walked component by component, and programs over single
    system calls, run on a disk that works or one that fails.

    Symbolic links and permissions are not part of the tree; a refused access is
    one of the failures. *)

From Stdlib Require Import Ascii Strings.Byte.
From S2P Require Import Prelude Location Backend BTree RepairExec Execute Config.

(** * The tree *)

Record file := { content : bytes; mtime : Z }.

Inductive node :=
| File (f : file)
| Dir (children : gmap string node).

Fixpoint node_at (t : node) (p : list string) : option node :=
  match p with
  | [] => Some t
  | n :: p => match t with Dir m => child ← m !! n; node_at child p | File _ => None end
  end.

(** Replace the node at [p]; the parent has to be a directory. *)
Fixpoint put_node (t : node) (p : list string) (x : node) : option node :=
  match p with
  | [] => Some x
  | n :: p =>
      match t with
      | File _ => None
      | Dir m =>
          match p with
          | [] => Some (Dir (<[n := x]> m))
          | _ => child ← m !! n; child ← put_node child p x; Some (Dir (<[n := child]> m))
          end
      end
  end.

Fixpoint remove_node (t : node) (p : list string) : option node :=
  match p with
  | [] => None
  | n :: p =>
      match t with
      | File _ => None
      | Dir m =>
          match p with
          | [] => Some (Dir (delete n m))
          | _ => child ← m !! n; child ← remove_node child p; Some (Dir (<[n := child]> m))
          end
      end
  end.

(** The regular files below a node, by their path from it. *)
Fixpoint files_below (t : node) : list (list string * file) :=
  match t with
  | File f => [([], f)]
  | Dir m => map_fold (fun n child acc => map (fun e => (n :: fst e, snd e)) (files_below child) ++ acc) [] m
  end.

(** * Paths *)

Inductive IoKind := KNotFound | KPermissionDenied | KAlreadyExists | KOther.
Record IoError := { io_kind : IoKind; io_text : string }.

Definition ENOENT : IoError := {| io_kind := KNotFound; io_text := "No such file or directory (os error 2)" |}.
Definition EEXIST : IoError := {| io_kind := KAlreadyExists; io_text := "File exists (os error 17)" |}.
Definition ENOTDIR : IoError := {| io_kind := KOther; io_text := "Not a directory (os error 20)" |}.
Definition EISDIR : IoError := {| io_kind := KOther; io_text := "Is a directory (os error 21)" |}.
Definition UNEXPECTED_EOF : IoError := {| io_kind := KOther; io_text := "early eof" |}.

Definition walk_step (cur : list string) (c : Component) : list string :=
  match c with
  | RootDir => []
  | CurDir => cur
  | ParentDir => removelast cur
  | Normal n => cur ++ [n]
  end.

(** Every component but the last leads through an existing directory. *)
Fixpoint walk_components (t : node) (cur : list string) (cs : list Component) : Result IoError (list string) :=
  match cs with
  | [] => Ok cur
  | RootDir :: cs => walk_components t [] cs
  | c :: cs =>
      match node_at t cur with
      | Some (Dir _) => walk_components t (walk_step cur c) cs
      | Some (File _) => Err ENOTDIR
      | None => Err ENOENT
      end
  end.

(** Directories missing on the way are created; [false] when a file is in the
    way. *)
Fixpoint make_dirs (t : node) (cur : list string) (cs : list Component) : bool * node :=
  match cs with
  | [] => (true, t)
  | c :: cs =>
      let cur := walk_step cur c in
      match node_at t cur with
      | Some (Dir _) => make_dirs t cur cs
      | Some (File _) => (false, t)
      | None => match put_node t cur (Dir ∅) with
                | Some t => make_dirs t cur cs
                | None => (false, t)
                end
      end
  end.

(** * System calls *)

Record Disk := {
  tree : node;
  cwd : list string;
  clock : Z;          (** nanoseconds since the epoch, as files are stamped *)
  uuid_count : nat;
  counters : StorageMetrics;  (** of the backend that makes the calls *)
}.

Definition with_tree (t : node) (d : Disk) : Disk :=
  {| tree := t; cwd := cwd d; clock := clock d; uuid_count := uuid_count d;
     counters := counters d |}.

Definition walk_path (p : string) (d : Disk) : Result IoError (list string) :=
  walk_components (tree d) (cwd d) (components p).

Record Metadata := { meta_is_file : bool; meta_len : Z; meta_modified : option Z }.

(** [modified()] and [duration_since(UNIX_EPOCH)]. *)
Definition since_epoch (z : Z) : option Z := if (z <? 0)%Z then None else Some z.

Definition metadata_of (x : node) : Metadata :=
  match x with
  | File f => {| meta_is_file := true; meta_len := Z.of_nat (length (content f)); meta_modified := since_epoch (mtime f) |}
  | Dir _ => {| meta_is_file := false; meta_len := 4096; meta_modified := None |}
  end.

(** A trailing slash asks for a directory. *)
Definition wants_dir (p : string) : bool := ends_with_char "/"%char p.

Definition sys_stat (p : string) (d : Disk) : Result IoError node :=
  pos ← walk_path p d;
  match node_at (tree d) pos with
  | None => Err ENOENT
  | Some (File f) => if wants_dir p then Err ENOTDIR else Ok (File f)
  | Some x => Ok x
  end.

Definition sys_metadata (p : string) (d : Disk) : Result IoError Metadata := metadata_of <$> sys_stat p d.

Definition sys_create_dir_all (p : string) (d : Disk) : Result IoError unit * Disk :=
  let '(ok, t) := make_dirs (tree d) (cwd d) (components p) in
  (if ok then Ok tt else Err ENOTDIR, with_tree t d).

Definition write_file (pos : list string) (b : bytes) (d : Disk) : Result IoError unit * Disk :=
  match put_node (tree d) pos (File {| content := b; mtime := clock d |}) with
  | Some t => (Ok tt, with_tree t d)
  | None => (Err ENOENT, d)
  end.

(** Opening for writing: a new file only, or any file, truncated. *)
Definition sys_open_new (p : string) (d : Disk) : Result IoError unit * Disk :=
  match walk_path p d with
  | Err e => (Err e, d)
  | Ok pos =>
      match node_at (tree d) pos with
      | Some _ => (Err EEXIST, d)
      | None => if wants_dir p then (Err EISDIR, d) else write_file pos [] d
      end
  end.

Definition sys_open_truncate (p : string) (d : Disk) : Result IoError unit * Disk :=
  match walk_path p d with
  | Err e => (Err e, d)
  | Ok pos =>
      match node_at (tree d) pos with
      | Some (Dir _) => (Err EISDIR, d)
      | _ => if wants_dir p then (Err EISDIR, d) else write_file pos [] d
      end
  end.

(** Appending to the file just opened under [p]. *)
Definition sys_write_all (p : string) (b : bytes) (d : Disk) : Result IoError unit * Disk :=
  match walk_path p d with
  | Err e => (Err e, d)
  | Ok pos =>
      match node_at (tree d) pos with
      | Some (File f) => write_file pos (content f ++ b) d
      | _ => (Err ENOENT, d)
      end
  end.

Definition sys_read_exact (p : string) (start len : Z) (d : Disk) : Result IoError bytes :=
  match sys_stat p d with
  | Err e => Err e
  | Ok (Dir _) => Err EISDIR
  | Ok (File f) =>
      let b := take (Z.to_nat len) (drop (Z.to_nat start) (content f)) in
      if (Z.of_nat (length b) =? len)%Z then Ok b else Err UNEXPECTED_EOF
  end.

Definition sys_read_to_end (p : string) (d : Disk) : Result IoError bytes :=
  match sys_stat p d with
  | Err e => Err e
  | Ok (Dir _) => Err EISDIR
  | Ok (File f) => Ok (content f)
  end.

Definition sys_remove_file (p : string) (d : Disk) : Result IoError unit * Disk :=
  match walk_path p d with
  | Err e => (Err e, d)
  | Ok pos =>
      match node_at (tree d) pos with
      | None => (Err ENOENT, d)
      | Some (Dir _) => (Err EISDIR, d)
      | Some (File _) =>
          if wants_dir p then (Err ENOTDIR, d)
          else match remove_node (tree d) pos with
               | Some t => (Ok tt, with_tree t d)
               | None => (Err EISDIR, d)
               end
      end
  end.

(** [rename] of a file onto a path that is absent or a file. *)
Definition sys_rename (a b : string) (d : Disk) : Result IoError unit * Disk :=
  match walk_path a d, walk_path b d with
  | Ok pa, Ok pb =>
      match node_at (tree d) pa, node_at (tree d) pb with
      | Some (File _), Some (Dir _) => (Err EISDIR, d)
      | Some (File f), _ =>
          match remove_node (tree d) pa with
          | Some t => match put_node t pb (File f) with
                      | Some t => (Ok tt, with_tree t d)
                      | None => (Err ENOENT, d)
                      end
          | None => (Err ENOENT, d)
          end
      | _, _ => (Err ENOENT, d)
      end
  | Err e, _ | _, Err e => (Err e, d)
  end.

(** * Programs *)

Inductive syscall :=
| SMetadata (p : string)
| SCreateDirAll (p : string)
| SOpenNew (p : string)
| SOpenTruncate (p : string)
| SWriteAll (p : string) (b : bytes)
| SOpenRead (p : string)
| SReadExact (p : string) (start len : Z)
| SReadToEnd (p : string)
| SRemoveFile (p : string)
| SRename (a b : string)
| SUuid
| SRecord (f : StorageMetrics -> StorageMetrics).

Definition sys_answer (c : syscall) : Type :=
  match c with
  | SMetadata _ => Result IoError Metadata
  | SReadExact _ _ _ | SReadToEnd _ => Result IoError bytes
  | SUuid => nat
  | SRecord _ => unit
  | _ => Result IoError unit
  end.

Definition sys_exec (c : syscall) (d : Disk) : sys_answer c * Disk :=
  match c with
  | SMetadata p => (sys_metadata p d, d)
  | SCreateDirAll p => sys_create_dir_all p d
  | SOpenNew p => sys_open_new p d
  | SOpenTruncate p => sys_open_truncate p d
  | SWriteAll p b => sys_write_all p b d
  | SOpenRead p => ((fun _ => tt) <$> sys_stat p d, d)
  | SReadExact p s l => (sys_read_exact p s l d, d)
  | SReadToEnd p => (sys_read_to_end p d, d)
  | SRemoveFile p => sys_remove_file p d
  | SRename a b => sys_rename a b d
  | SUuid => (uuid_count d, {| tree := tree d; cwd := cwd d; clock := clock d; uuid_count := S (uuid_count d);
                               counters := counters d |})
  | SRecord f => (tt, {| tree := tree d; cwd := cwd d; clock := clock d; uuid_count := uuid_count d;
                         counters := f (counters d) |})
  end.

Inductive sprog (A : Type) : Type :=
| SRet (a : A)
| SCall (c : syscall) (k : sys_answer c -> sprog A).
Arguments SRet {_} _.
Arguments SCall {_} _ _.

#[global] Instance sprog_bind : MBind sprog := fun A B f =>
  fix go (p : sprog A) : sprog B :=
    match p with SRet a => f a | SCall c k => SCall c (fun x => go (k x)) end.

Definition sys (c : syscall) : sprog (sys_answer c) := SCall c SRet.

Fixpoint sys_run {A} (p : sprog A) (d : Disk) : A * Disk :=
  match p with
  | SRet a => (a, d)
  | SCall c k => let '(x, d) := sys_exec c d in sys_run (k x) d
  end.

Lemma sys_run_bind {A B} (p : sprog A) (f : A -> sprog B) d :
  sys_run (p ≫= f) d = let '(a, d') := sys_run p d in sys_run (f a) d'.
Proof.
  revert d. induction p as [a|c k IH]; intros d; [done|]. simpl. destruct (sys_exec c d) as [x d']. apply IH.
Qed.

(** A call that fails does nothing, except that a write may have stored some of
    the bytes. *)
Definition sys_fail (c : syscall) (e : IoError) (written : nat) (d : Disk) : sys_answer c * Disk :=
  match c with
  | SWriteAll p b => (Err e, snd (sys_write_all p (take written b) d))
  | SUuid => sys_exec SUuid d
  | SRecord f => sys_exec (SRecord f) d
  | SMetadata _ => (Err e, d)
  | SCreateDirAll _ => (Err e, d)
  | SOpenNew _ => (Err e, d)
  | SOpenTruncate _ => (Err e, d)
  | SOpenRead _ => (Err e, d)
  | SReadExact _ _ _ => (Err e, d)
  | SReadToEnd _ => (Err e, d)
  | SRemoveFile _ => (Err e, d)
  | SRename _ _ => (Err e, d)
  end.

(** One entry per call: how it fails, or [None] if it does not. *)
Fixpoint sys_run_faulty {A} (p : sprog A) (faults : list (option (IoError * nat))) (d : Disk) : A * Disk :=
  match p with
  | SRet a => (a, d)
  | SCall c k =>
      let '(x, d) := match hd_error faults with
                     | Some (Some (e, written)) => sys_fail c e written d
                     | _ => sys_exec c d
                     end in
      sys_run_faulty (k x) (tail faults) d
  end.

(** What the system calls do to the files of the tree, and the paths of objects
    and temporary files. *)

(** * Trees *)

Definition file_at (t : node) (p : list string) : option bytes :=
  match node_at t p with Some (File f) => Some (content f) | _ => None end.

(** The rest of [q] below [p]. *)
Fixpoint strip (p q : list string) : option (list string) :=
  match p, q with
  | [], _ => Some q
  | n :: p, m :: q => if decide (n = m) then strip p q else None
  | _, [] => None
  end.

Lemma strip_Some p q r : strip p q = Some r <-> q = p ++ r.
Proof.
  revert q. induction p as [|n p IH]; intros q; simpl; [naive_solver|].
  destruct q as [|m q]; [naive_solver|]. case_decide as E; [subst; rewrite IH; naive_solver|naive_solver].
Qed.

Lemma strip_None p q : strip p q = None <-> forall r, q <> p ++ r.
Proof.
  destruct (strip p q) as [r|] eqn:E.
  - apply strip_Some in E as ->. split; [done|]. intros H. by destruct (H r).
  - split; [|done]. intros _ r Hr. apply strip_Some in Hr. congruence.
Qed.

Lemma node_at_app t p r : node_at t (p ++ r) = x ← node_at t p; node_at x r.
Proof.
  revert t. induction p as [|n p IH]; intros t; [done|]. simpl.
  destruct t as [|m]; [done|]. destruct (m !! n) as [c|]; [|done]. simpl. apply IH.
Qed.

Lemma file_at_cons n q m : file_at (Dir m) (n :: q) = c ← m !! n; file_at c q.
Proof. unfold file_at. simpl. by destruct (m !! n). Qed.

Lemma file_at_put t p x t' q : put_node t p x = Some t' ->
  file_at t' q = match strip p q with Some r => file_at x r | None => file_at t q end.
Proof.
  revert t t' q. induction p as [|n p IH]; intros t t' q; [by intros [= <-]|].
  cbn [put_node]. destruct t as [f|m]; [done|]. intros Hp.
  assert (exists c', t' = Dir (<[n := c']> m) /\ forall q,
    file_at c' q = match strip p q with Some r => file_at x r | None => (c ← m !! n; file_at c q) end) as (c' & -> & Hc).
  { destruct p as [|n' p]; [injection Hp as <-; by exists x|].
    destruct (m !! n) as [c|] eqn:E; [|done]. cbn [mbind option_bind] in Hp.
    destruct (put_node c (n' :: p) x) as [c'|] eqn:E'; [|done]. injection Hp as <-. exists c'. split; [done|].
    intros q'. by rewrite (IH c c' q' E'). }
  destruct q as [|k q]; [done|]. rewrite !file_at_cons. cbn [strip]. case_decide as E.
  - subst k. rewrite lookup_insert_eq. simpl. apply Hc.
  - by rewrite lookup_insert_ne.
Qed.

Lemma file_at_remove t p t' q : remove_node t p = Some t' ->
  file_at t' q = match strip p q with Some _ => None | None => file_at t q end.
Proof.
  revert t t' q. induction p as [|n p IH]; intros t t' q; [done|].
  cbn [remove_node]. destruct t as [f|m]; [done|]. intros Hp.
  destruct p as [|n' p].
  - injection Hp as <-. destruct q as [|k q]; [done|]. rewrite !file_at_cons. cbn [strip]. case_decide as E.
    + subst k. by rewrite lookup_delete_eq.
    + by rewrite lookup_delete_ne.
  - destruct (m !! n) as [c|] eqn:E; [|done]. cbn [mbind option_bind] in Hp.
    destruct (remove_node c (n' :: p)) as [c'|] eqn:E'; [|done]. injection Hp as <-.
    destruct q as [|k q]; [done|]. rewrite !file_at_cons. cbn [strip]. case_decide as Ek.
    + subst k. rewrite lookup_insert_eq, E. simpl. rewrite (IH c c' q E'). done.
    + by rewrite lookup_insert_ne.
Qed.

(** Nothing lies below a path that is not a directory. *)
Lemma file_below t p r : (forall m, node_at t p <> Some (Dir m)) -> r <> [] -> file_at t (p ++ r) = None.
Proof.
  intros Hd Hr. unfold file_at. rewrite node_at_app. destruct (node_at t p) as [[f|m]|]; simpl; [|by destruct (Hd m)|done].
  by destruct r.
Qed.

Lemma file_at_put_file t p f t' q : put_node t p (File f) = Some t' ->
  (forall m, node_at t p <> Some (Dir m)) ->
  file_at t' q = if decide (q = p) then Some (content f) else file_at t q.
Proof.
  intros Hp Hd. rewrite (file_at_put _ _ _ _ q Hp). destruct (strip p q) as [r|] eqn:E.
  - apply strip_Some in E as ->. destruct r as [|n r].
    + by rewrite app_nil_r, decide_True.
    + rewrite decide_False by (intros He; apply (f_equal length) in He; rewrite length_app in He; simpl in He; lia).
      by rewrite file_below.
  - rewrite strip_None in E. rewrite decide_False; [done|]. intros ->. apply (E []). by rewrite app_nil_r.
Qed.

Lemma file_at_remove_file t p f t' q : remove_node t p = Some t' -> node_at t p = Some (File f) ->
  file_at t' q = if decide (q = p) then None else file_at t q.
Proof.
  intros Hp Hf. rewrite (file_at_remove _ _ _ q Hp). destruct (strip p q) as [r|] eqn:E.
  - apply strip_Some in E as ->. destruct r as [|n r]; [by rewrite app_nil_r, decide_True|].
    rewrite file_below; [by case_decide| |done]. intros m Hm. congruence.
  - rewrite strip_None in E. rewrite decide_False; [done|]. intros ->. apply (E []). by rewrite app_nil_r.
Qed.

Lemma make_dirs_files t cur cs ok t' q : make_dirs t cur cs = (ok, t') -> file_at t' q = file_at t q.
Proof.
  revert t cur. induction cs as [|c cs IH]; intros t cur; cbn [make_dirs]; [by intros [= _ <-]|].
  destruct (node_at t (walk_step cur c)) as [[f|m]|] eqn:E; [by intros [= _ <-]|apply IH|].
  destruct (put_node _ _ _) as [t1|] eqn:Ep; [|by intros [= _ <-]]. intros H. rewrite (IH _ _ H).
  rewrite (file_at_put _ _ _ _ q Ep). destruct (strip _ q) as [r|] eqn:Es; [|done].
  apply strip_Some in Es as ->. unfold file_at at 2. rewrite node_at_app, E. simpl.
  unfold file_at. destruct r as [|n r]; [done|]. simpl. by rewrite lookup_empty.
Qed.

(** * Walking a path of names *)

Lemma walk_names t cur ns pos : walk_components t cur (map Normal ns) = Ok pos -> pos = cur ++ ns.
Proof.
  revert cur. induction ns as [|n ns IH]; intros cur; simpl; [intros [= <-]; by rewrite app_nil_r|].
  destruct (node_at t cur) as [[|m]|]; try done. intros ->%IH. by rewrite <- app_assoc.
Qed.

Lemma walk_names_err t cur ns e : walk_components t cur (map Normal ns) = Err e -> node_at t (cur ++ ns) = None.
Proof.
  revert cur. induction ns as [|n ns IH]; intros cur; simpl; [done|].
  destruct (node_at t cur) as [[f|m]|] eqn:E.
  - intros _. by rewrite node_at_app, E.
  - intros H%IH. by rewrite <- app_assoc in H.
  - intros _. by rewrite node_at_app, E.
Qed.

(** A path that denotes the position [ns], whatever the working directory. *)
Definition denotes (p : string) (ns : list string) : Prop :=
  components p = RootDir :: map Normal ns /\ wants_dir p = false.

Lemma walk_denotes p ns d pos : denotes p ns -> walk_path p d = Ok pos -> pos = ns.
Proof. intros [Hc _]. unfold walk_path. rewrite Hc. cbn [walk_components]. apply (walk_names _ []). Qed.

Lemma walk_denotes_err p ns d e : denotes p ns -> walk_path p d = Err e -> node_at (tree d) ns = None.
Proof. intros [Hc _]. unfold walk_path. rewrite Hc. cbn [walk_components]. apply (walk_names_err _ []). Qed.

Lemma stat_denotes p ns d : denotes p ns ->
  match sys_stat p d with
  | Ok x => node_at (tree d) ns = Some x
  | Err _ => node_at (tree d) ns = None
  end.
Proof.
  intros Hp. unfold sys_stat. destruct (walk_path p d) as [pos|e] eqn:E.
  - apply (walk_denotes _ _ _ _ Hp) in E as ->. simpl. destruct Hp as [_ Hw]. rewrite Hw.
    by destruct (node_at (tree d) ns) as [[]|].
  - simpl. by apply (walk_denotes_err p ns d e).
Qed.

(** The file a path leads to. *)
Definition file_of (p : string) (d : Disk) : option bytes :=
  match sys_stat p d with Ok (File f) => Some (content f) | _ => None end.

Lemma file_of_denotes p ns d : denotes p ns -> file_of p d = file_at (tree d) ns.
Proof.
  intros Hp. unfold file_of, file_at. pose proof (stat_denotes p ns d Hp) as H.
  destruct (sys_stat p d) as [x|e]; by rewrite H.
Qed.

(** * The effect of a call on the files *)

(** [d'] has the files of [d] but for position [ns], which holds [v]. *)
Definition files_upd (ns : list string) (v : option bytes) (d d' : Disk) : Prop :=
  forall q, file_at (tree d') q = if decide (q = ns) then v else file_at (tree d) q.

Definition files_same (d d' : Disk) : Prop := forall q, file_at (tree d') q = file_at (tree d) q.

Lemma create_dir_all_files p d r d' : sys_create_dir_all p d = (r, d') -> files_same d d'.
Proof.
  unfold sys_create_dir_all. destruct (make_dirs _ _ _) as [ok t] eqn:E. intros [= _ <-] q.
  by apply (make_dirs_files _ _ _ _ _ q) in E.
Qed.

Lemma write_file_files ns b d r d' : (forall m, node_at (tree d) ns <> Some (Dir m)) ->
  write_file ns b d = (r, d') ->
  match r with Ok _ => files_upd ns (Some b) d d' | Err _ => d' = d end.
Proof.
  intros Hd. unfold write_file. destruct (put_node _ _ _) as [t|] eqn:E; intros [= <- <-]; [|done].
  intros q. exact (file_at_put_file _ _ _ _ q E Hd).
Qed.

Lemma open_new_files p ns d r d' : denotes p ns -> sys_open_new p d = (r, d') ->
  match r with
  | Ok _ => file_at (tree d) ns = None /\ files_upd ns (Some []) d d'
  | Err _ => d' = d
  end.
Proof.
  intros Hp. unfold sys_open_new. destruct (walk_path p d) as [pos|] eqn:E; [|by intros [= <- <-]].
  apply (walk_denotes _ _ _ _ Hp) in E as ->. destruct (node_at (tree d) ns) as [x|] eqn:En; [by intros [= <- <-]|].
  destruct (wants_dir p); [by intros [= <- <-]|]. intros H. apply write_file_files in H; [|congruence].
  destruct r; [|done]. split; [|done]. unfold file_at. by rewrite En.
Qed.

Lemma open_truncate_files p ns d r d' : denotes p ns -> sys_open_truncate p d = (r, d') ->
  match r with Ok _ => files_upd ns (Some []) d d' | Err _ => d' = d end.
Proof.
  intros Hp. unfold sys_open_truncate. destruct (walk_path p d) as [pos|] eqn:E; [|by intros [= <- <-]].
  apply (walk_denotes _ _ _ _ Hp) in E as ->.
  destruct (node_at (tree d) ns) as [[f|m]|] eqn:En; [| by intros [= <- <-]|];
    (destruct (wants_dir p); [by intros [= <- <-]|]; intros H; apply write_file_files in H; [done|congruence]).
Qed.

Lemma walk_exists t cur ns x : node_at t (cur ++ ns) = Some x -> walk_components t cur (map Normal ns) = Ok (cur ++ ns).
Proof.
  revert cur. induction ns as [|n ns IH]; intros cur; [by rewrite app_nil_r|]. intros Hx. simpl.
  pose proof Hx as Hx'. rewrite node_at_app in Hx'. destruct (node_at t cur) as [[f|m]|]; [done| |done].
  specialize (IH (cur ++ [n])). rewrite <- app_assoc in IH. by apply IH.
Qed.

Lemma put_exists t p x y : node_at t p = Some y -> is_Some (put_node t p x).
Proof.
  revert t. induction p as [|n p IH]; intros t; [by eexists|]. cbn [node_at put_node].
  destruct t as [|m]; [done|]. destruct p as [|n' p]; [by eexists|]. destruct (m !! n) as [c|]; [|done].
  cbn [mbind option_bind]. intros [c' ->]%IH. by eexists.
Qed.

(** Writing to a file that is there succeeds. *)
Lemma write_all_files p ns d b c : denotes p ns -> file_at (tree d) ns = Some c ->
  exists d', sys_write_all p b d = (Ok tt, d') /\ files_upd ns (Some (c ++ b)) d d'.
Proof.
  intros [Hp _] Hf. unfold file_at in Hf. destruct (node_at (tree d) ns) as [[f|m]|] eqn:En; [|done|done].
  injection Hf as <-. unfold sys_write_all, walk_path. rewrite Hp. cbn [walk_components].
  rewrite (walk_exists (tree d) [] ns _ En). cbn [app]. rewrite En. unfold write_file.
  destruct (put_exists (tree d) ns (File {| content := content f ++ b; mtime := clock d |}) _ En) as [t Ht].
  rewrite Ht. eexists. split; [done|]. intros q. apply (file_at_put_file _ _ _ _ q Ht). intros m. congruence.
Qed.

Lemma remove_file_files p ns d r d' : denotes p ns -> sys_remove_file p d = (r, d') ->
  match r with
  | Ok _ => files_upd ns None d d'
  | Err e => d' = d /\ (io_kind e = KNotFound -> file_at (tree d) ns = None)
  end.
Proof.
  intros Hp. unfold sys_remove_file. destruct (walk_path p d) as [pos|e] eqn:E.
  - apply (walk_denotes _ _ _ _ Hp) in E as ->. unfold file_at.
    destruct (node_at (tree d) ns) as [[f|m]|] eqn:En; [|by intros [= <- <-]|by intros [= <- <-]].
    rewrite (proj2 Hp). destruct (remove_node _ _) as [t|] eqn:Er; intros [= <- <-].
    + intros q. exact (file_at_remove_file _ _ _ _ q Er En).
    + done.
  - intros [= <- <-]. split; [done|]. intros _. unfold file_at. by rewrite (walk_denotes_err p ns d e Hp E).
Qed.

Lemma remove_keeps_dirs t p t' q m : remove_node t p = Some t' -> node_at t' q = Some (Dir m) ->
  exists m', node_at t q = Some (Dir m').
Proof.
  revert t t' q. induction p as [|n p IH]; intros t t' q; [done|]. cbn [remove_node].
  destruct t as [|mt]; [done|]. destruct q as [|k q]; [by eauto|]. cbn [node_at]. destruct p as [|n' p].
  - intros [= <-]. destruct (decide (n = k)) as [->|Hk]; [by rewrite lookup_delete_eq|].
    rewrite lookup_delete_ne by done. eauto.
  - destruct (mt !! n) as [c|] eqn:E; [|done]. cbn [mbind option_bind].
    destruct (remove_node c (n' :: p)) as [c'|] eqn:E'; [|done]. intros [= <-].
    destruct (decide (n = k)) as [->|Hk].
    + rewrite lookup_insert_eq, E. cbn [mbind option_bind]. by apply IH.
    + rewrite lookup_insert_ne by done. eauto.
Qed.

Lemma rename_files a b na nb d r d' c : denotes a na -> denotes b nb -> na <> nb ->
  file_at (tree d) na = Some c -> sys_rename a b d = (r, d') ->
  match r with
  | Ok _ => forall q, file_at (tree d') q =
      if decide (q = nb) then Some c else if decide (q = na) then None else file_at (tree d) q
  | Err _ => d' = d
  end.
Proof.
  intros Ha Hb Hne Hc. unfold sys_rename.
  destruct (walk_path a d) as [pa|] eqn:Ea; [|by intros [= <- <-]].
  destruct (walk_path b d) as [pb|] eqn:Eb; [|by intros [= <- <-]].
  apply (walk_denotes _ _ _ _ Ha) in Ea as ->. apply (walk_denotes _ _ _ _ Hb) in Eb as ->.
  unfold file_at in Hc. destruct (node_at (tree d) na) as [[f|]|] eqn:Ea; [|done|done]. injection Hc as <-.
  destruct (remove_node (tree d) na) as [t1|] eqn:Er; [|by destruct (node_at (tree d) nb) as [[]|]; intros [= <- <-]].
  destruct (put_node t1 nb (File f)) as [t2|] eqn:Ep; [|by destruct (node_at (tree d) nb) as [[]|]; intros [= <- <-]].
  intros Hr. destruct (node_at (tree d) nb) as [[g|m]|] eqn:En; [|by injection Hr as <- <-|];
    (injection Hr as <- <-; intros q; simpl; rewrite (file_at_put_file _ _ _ _ q Ep);
      [case_decide; [done|exact (file_at_remove_file _ _ _ _ q Er Ea)]|];
      intros m Hm; destruct (remove_keeps_dirs _ _ _ _ _ Er Hm) as [m' Hm']; congruence).
Qed.

(** * Object paths *)

Lemma path_join_ne base n : valid_name n -> path_join base n <> EmptyString.
Proof.
  intros (Hn & _ & _ & Hs). unfold path_join. rewrite (not_absolute_no_slash n Hs). case_decide; [done|].
  destruct base as [|c base]; [done|]. by destruct (ends_with_char _ _).
Qed.

(** A key of several segments is pushed segment by segment. *)
Lemma path_join_segments P segs l : P <> EmptyString -> Forall valid_name segs -> valid_name l ->
  path_join P (join_strings "/" (segs ++ [l])) = path_join (foldl path_join P segs) l.
Proof.
  intros HP Hs Hl. revert P HP. induction Hs as [|x segs Hx Hs IH]; intros P HP; [done|].
  cbn [foldl app]. rewrite <- IH by (by apply path_join_ne).
  assert (join_strings "/" (x :: segs ++ [l]) = x +:+ "/" +:+ join_strings "/" (segs ++ [l])) as ->
    by (by destruct segs).
  assert (is_absolute (join_strings "/" (segs ++ [l])) = false) as Ha.
  { destruct segs as [|y segs].
    - simpl. apply not_absolute_no_slash, Hl.
    - apply Forall_cons in Hs as [Hy _]. cbn [app join_strings]. destruct (segs ++ [l]); [apply not_absolute_no_slash, Hy|].
      rewrite is_absolute_app by apply Hy. apply not_absolute_no_slash, Hy. }
  set (rest := join_strings "/" (segs ++ [l])) in *. pose proof Hx as (Hx1 & _ & _ & Hxs).
  pose proof (ends_with_slash_join P x Hx HP) as He. pose proof (path_join_ne P x Hx) as Hne.
  unfold path_join at 2. rewrite Ha, decide_False, He by done.
  unfold path_join. rewrite is_absolute_app, (not_absolute_no_slash x Hxs) by done. rewrite !decide_False by done.
  destruct (ends_with_char _ P); by rewrite !app_assoc_string.
Qed.

Lemma foldl_join_components P segs : P <> EmptyString -> Forall valid_name segs ->
  components (foldl path_join P segs) = components P ++ map Normal segs /\ foldl path_join P segs <> EmptyString.
Proof.
  intros HP Hs. revert P HP. induction Hs as [|x segs Hx Hs IH]; intros P HP; [by rewrite app_nil_r|].
  destruct (IH (path_join P x)) as [H1 H2]; [by apply path_join_ne|]. split; [|done].
  cbn [foldl]. rewrite H1, components_join by done. by rewrite <- app_assoc.
Qed.

Lemma split_last_snoc Q l : has_char "/"%char l = false -> split_last "/"%char (Q +:+ "/" +:+ l) = Some (Q, l).
Proof.
  intros Hl. induction Q as [|c Q IH].
  - change (EmptyString +:+ "/" +:+ l) with (String "/" l). cbn [split_last].
    assert (split_last "/"%char l = None) as ->; [|by rewrite decide_True].
    induction l as [|c l IH]; [done|]. cbn [has_char] in Hl. apply orb_false_iff in Hl as [Hc Hl].
    cbn [split_last]. rewrite IH by done. rewrite decide_False; [done|].
    intros ->. by rewrite bool_decide_eq_true_2 in Hc.
  - rewrite app_cons_string. cbn [split_last]. by rewrite IH.
Qed.

Lemma split_last_parts c s a b : split_last c s = Some (a, b) -> s = a +:+ String c b.
Proof.
  revert a. induction s as [|d s IH]; intros a; [done|]. cbn [split_last].
  destruct (split_last c s) as [[a' b']|]; [|case_decide; [|done]; by intros [= <- <-]; subst].
  intros [= <- <-]. by rewrite (IH a' eq_refl).
Qed.

Lemma contains_app_r n a b : contains n b = true -> contains n (a +:+ b) = true.
Proof.
  intros Hb. induction a as [|c a IH]; [done|]. rewrite app_cons_string. cbn [contains]. by rewrite IH, orb_true_r.
Qed.

Lemma contains_prefix n s : starts_with n s = true -> contains n s = true.
Proof. intros H. destruct s as [|c s]; cbn [contains]; by rewrite H. Qed.

Lemma contains_weaken a b s : contains (a +:+ b) s = true -> contains a s = true.
Proof.
  assert (forall s, starts_with (a +:+ b) s = true -> starts_with a s = true) as Hs.
  { intros s'. rewrite !starts_with_spec. intros [r ->]. exists (b +:+ r). by rewrite app_assoc_string. }
  induction s as [|c s IH]; cbn [contains]; rewrite !orb_true_iff;
    (intros [H|H]; [left; by apply Hs|right; by auto]).
Qed.

(** The temporary file of a replace lies beside the object under a name no
    object uses. *)
Lemma with_extension_name Q l ext : Q <> EmptyString -> ends_with_char "/"%char Q = false -> valid_name l ->
  has_char "/"%char ext = false -> ext <> EmptyString ->
  exists n, valid_name n /\ with_extension (path_join Q l) ext = path_join Q n /\ contains ("." +:+ ext) n = true.
Proof.
  intros HQ He Hl Hx Hxe. pose proof Hl as (Hl1 & _ & _ & Hls).
  assert (path_join Q l = Q +:+ "/" +:+ l) as ->.
  { unfold path_join. by rewrite (not_absolute_no_slash l Hls), decide_False, He by done. }
  unfold with_extension. rewrite split_last_snoc by done.
  set (stem := match split_last "." l with Some (EmptyString, _) | None => l | Some (stem, _) => stem end).
  assert (stem <> EmptyString /\ has_char "/"%char stem = false) as [Hs1 Hs2].
  { unfold stem. destruct (split_last "." l) as [[[|c st] b]|] eqn:E; [done| |done].
    apply split_last_parts in E. split; [done|]. rewrite E, has_char_app in Hls. by apply orb_false_iff in Hls as [-> _]. }
  exists (stem +:+ "." +:+ ext). split_and!.
  - destruct stem as [|c stem]; [done|]. repeat split; try done.
    + destruct stem; [|done]. destruct ext; done.
    + destruct stem as [|? [|]]; [|done|done]. by destruct ext.
    + rewrite !has_char_app, Hs2, Hx. done.
  - unfold path_join. rewrite decide_False, He by done.
    rewrite not_absolute_no_slash by (rewrite !has_char_app, Hs2, Hx; done). by rewrite !app_assoc_string.
  - apply contains_app_r, contains_prefix, starts_with_spec. exists EmptyString. by rewrite app_nil_string.
Qed.
