(* ===== verification/LocalBackend.v ===== *)
(** The local file system backend: src/crates/parqonaut-storage/src/local.rs. *)

From Stdlib Require Import Ascii Strings.Byte.
From S2P Require Import Prelude BTree Location Backend RemoteInventory RepairExec Execute LocalFs Config.

(** * Errors and metadata *)

Definition map_io_error (location : string) (e : IoError) : StorageError :=
  match io_kind e with
  | KNotFound => NotFound location
  | KPermissionDenied => PermissionDenied location
  | KAlreadyExists | KOther => Io (io_text e)
  end.

(** [?] on an [io::Error]: [StorageError::from]. *)
Definition io (e : IoError) : StorageError := Io (io_text e).

Definition compute_etag (m : Metadata) : string :=
  "local-" +:+ pretty (meta_len m) +:+ "-"
  +:+ match meta_modified m with Some ts => pretty ts | None => "unknown" end.

Definition compute_version_id (m : Metadata) : string :=
  match meta_modified m with Some ts => pretty ts | None => "0" end.

Definition modified_time (m : Metadata) : option Z := (fun ts => (ts / 10 ^ 9)%Z) <$> meta_modified m.

Definition build_metadata (location : ObjectLocation) (m : Metadata) : ObjectMetadata := {|
  md_location := location; md_size := meta_len m; md_etag := Some (compute_etag m);
  md_version_id := Some (compute_version_id m); md_last_modified := modified_time m |}.

(** * Programs with errors *)

Definition stry {A B} (p : sprog (Result StorageError A)) (f : A -> sprog (Result StorageError B))
    : sprog (Result StorageError B) :=
  r ← p; match r with Ok a => f a | Err e => SRet (Err e) end.

Declare Scope sprog_scope.
Delimit Scope sprog_scope with sprog.
Notation "x <-! p ;; q" := (stry p (fun x => q))
  (at level 100, p at next level, right associativity) : sprog_scope.
Open Scope sprog_scope.

Definition mapped {A} (f : IoError -> StorageError) (p : sprog (Result IoError A)) : sprog (Result StorageError A) :=
  r ← p; SRet (map_err f r).

Section Backend.
(** The base directory, and the names of version 4 UUIDs as they are drawn. *)
Context (base : option string) (uuid : nat -> string).

Definition resolve_local_path (p : string) : Result StorageError string :=
  if is_absolute p then Ok p
  else match base with Some base => Ok (path_join base p) | None => Ok p end.

Definition resolve_s3_prefix (s3 : S3Location) : Result StorageError string :=
  base ← ok_or base (InvalidLocation "S3 dataset locations require a local base directory");
  let p := path_join base (bucket s3) in
  Ok (if decide (prefix s3 = EmptyString) then p else path_join p (trim_end_slash (prefix s3))).

Definition resolve_s3_object (bucket key : string) : Result StorageError string :=
  base ← ok_or base (InvalidLocation "S3 object locations require a local base directory");
  if contains ".." key then Err (InvalidLocation "object key must not contain '..'")
  else Ok (path_join (path_join base bucket) key).

Definition dataset_root (dataset : DatasetLocation) : Result StorageError string :=
  match dataset with Local l => resolve_local_path (path l) | S3 s3 => resolve_s3_prefix s3 end.

Definition object_path (object : ObjectLocation) : Result StorageError string :=
  match object with LocalObject p => resolve_local_path p | S3Object b k => resolve_s3_object b k end.

Definition temp_path_for (p : string) : sprog string :=
  n ← sys SUuid; SRet (with_extension p ("parqonaut-tmp-" +:+ uuid n)).

(** [fs::metadata] of something that has to be a file. *)
Definition file_metadata (object : ObjectLocation) (p : string) : sprog (Result StorageError Metadata) :=
  meta <-! mapped (map_io_error (object_display_uri object)) (sys (SMetadata p)) ;;
  SRet (if meta_is_file meta then Ok meta else Err (NotFound (object_display_uri object))).

Definition metadata_for_path (object : ObjectLocation) (p : string) : sprog (Result StorageError ObjectMetadata) :=
  meta <-! file_metadata object p ;; SRet (Ok (build_metadata object meta)).

Definition ensure_parent (p : string) : sprog (Result StorageError unit) :=
  match path_parent p with
  | Some parent => mapped io (sys (SCreateDirAll parent))
  | None => SRet (Ok tt)
  end.

(** * Requests *)

Definition local_head (object : ObjectLocation) : sprog (Result StorageError ObjectMetadata) :=
  _ ← sys (SRecord record_head);
  p <-! SRet (object_path object) ;;
  metadata_for_path object p.

Definition local_read_range (object : ObjectLocation) (range : ByteRange) : sprog (Result StorageError bytes) :=
  p <-! SRet (object_path object) ;;
  meta <-! file_metadata object p ;;
  let file_len := meta_len meta in
  if (file_len <=? range_start range)%Z then SRet (Err (InvalidLocation "range start beyond object size"))
  else
    let end_ := Z.min (range_end range) (saturating_sub file_len 1) in
    _ <-! mapped (map_io_error (object_display_uri object)) (sys (SOpenRead p)) ;;
    let len := (end_ - range_start range + 1)%Z in
    buf <-! mapped io (sys (SReadExact p (range_start range) len)) ;;
    _ ← sys (SRecord (record_range_get len));
    SRet (Ok buf).

(** The stream of [read_stream(object, None)] and what reading it to its end
    gives; an error of the stream is its text. *)
Definition local_read_all (object : ObjectLocation) : sprog (Result StorageError (Result string bytes)) :=
  p <-! SRet (object_path object) ;;
  meta <-! file_metadata object p ;;
  _ <-! mapped (map_io_error (object_display_uri object)) (sys (SOpenRead p)) ;;
  _ ← sys (SRecord (record_full_get (meta_len meta)));
  r ← sys (SReadToEnd p);
  SRet (Ok (map_err io_text r)).

(** [write_all] and [sync_all] on the file just opened. *)
Definition write_opened (p : string) (data : bytes) : sprog (Result StorageError unit) :=
  mapped io (sys (SWriteAll p data)).

Definition create_file (object : ObjectLocation) (p : string) (condition : ConditionalCreate) (data : bytes)
    : sprog (Result StorageError unit) :=
  if if_absent condition then
    r ← sys (SOpenNew p);
    match r with
    | Ok _ => write_opened p data
    | Err e => SRet (Err (match io_kind e with
        | KAlreadyExists => Conflict ("object already exists: " +:+ object_display_uri object)
        | _ => map_io_error (object_display_uri object) e
        end))
    end
  else
    _ <-! mapped io (sys (SOpenTruncate p)) ;;
    write_opened p data.

Definition local_conditional_create (object : ObjectLocation) (condition : ConditionalCreate) (data : bytes)
    : sprog (Result StorageError ObjectMetadata) :=
  p <-! SRet (object_path object) ;;
  _ <-! ensure_parent p ;;
  _ <-! create_file object p condition data ;;
  _ ← sys (SRecord (record_put (Z.of_nat (length data))));
  metadata_for_path object p.

(** The conditions of a replace, against the metadata of the moment. *)
Definition check_replace (c : ConditionalReplace) (current : ObjectMetadata) : Result StorageError unit :=
  let mismatch (expected actual : option string) :=
    bool_decide (is_Some expected) && negb (bool_decide (actual = expected)) in
  if mismatch (expected_etag c) (md_etag current) then Err (PreconditionFailed "etag mismatch")
  else if mismatch (expected_version_id c) (md_version_id current) then
    Err (PreconditionFailed "version_id mismatch")
  else Ok tt.

(** The new content is written beside the object and moved over it. *)
Definition replace_file (p : string) (data : bytes) : sprog (Result StorageError unit) :=
  temp ← temp_path_for p;
  _ <-! mapped io (sys (SOpenTruncate temp)) ;;
  _ <-! write_opened temp data ;;
  mapped io (sys (SRename temp p)).

Definition local_conditional_replace (object : ObjectLocation) (condition : ConditionalReplace) (data : bytes)
    : sprog (Result StorageError ObjectMetadata) :=
  p <-! SRet (object_path object) ;;
  current <-! metadata_for_path object p ;;
  _ <-! SRet (check_replace condition current) ;;
  _ <-! replace_file p data ;;
  _ ← sys (SRecord (record_put (Z.of_nat (length data))));
  metadata_for_path object p.

Definition local_delete_owned_object (object : ObjectLocation) : sprog (Result StorageError unit) :=
  p <-! SRet (object_path object) ;;
  r ← sys (SRemoveFile p);
  SRet (match r with
        | Ok _ => Ok tt
        | Err e => match io_kind e with
                   | KNotFound => Ok tt
                   | _ => Err (map_io_error (object_display_uri object) e)
                   end
        end).

(** ** Streams *)

Record LocalWriteStream := {
  ws_temp_path : string;
  ws_final_path : string;
  ws_content_length : option Z;
  ws_bytes_written : Z;
  ws_finalized : bool;
}.

Definition local_write_stream (object : ObjectLocation) (content_length : option Z)
    : sprog (Result StorageError LocalWriteStream) :=
  p <-! SRet (object_path object) ;;
  _ <-! ensure_parent p ;;
  temp ← temp_path_for p;
  _ <-! mapped io (sys (SOpenTruncate temp)) ;;
  SRet (Ok {| ws_temp_path := temp; ws_final_path := p; ws_content_length := content_length;
              ws_bytes_written := 0; ws_finalized := false |}).

(** [poll_write]: the file takes some of the bytes the content length still
    allows; [accepted] is the most it takes. *)
Definition poll_write (w : LocalWriteStream) (buf : bytes) (accepted : nat)
    : sprog (Result IoError nat * LocalWriteStream) :=
  let write (offered : bytes) :=
    let b := take accepted offered in
    r ← sys (SWriteAll (ws_temp_path w) b);
    SRet (match r with
          | Ok _ => (Ok (length b), {| ws_temp_path := ws_temp_path w; ws_final_path := ws_final_path w;
                       ws_content_length := ws_content_length w;
                       ws_bytes_written := (ws_bytes_written w + Z.of_nat (length b))%Z;
                       ws_finalized := ws_finalized w |})
          | Err e => (Err e, w)
          end) in
  match ws_content_length w with
  | Some max =>
      if (max <=? ws_bytes_written w)%Z then SRet (Ok 0, w)
      else write (take (Z.to_nat (max - ws_bytes_written w)) buf)
  | None => write buf
  end.

(** [poll_shutdown]: the temporary file is moved to the object, once. *)
Definition poll_shutdown (w : LocalWriteStream) : sprog (Result IoError unit * LocalWriteStream) :=
  if ws_finalized w then SRet (Ok tt, w)
  else
    r ← sys (SRename (ws_temp_path w) (ws_final_path w));
    SRet (match r with
          | Ok _ => (Ok tt, {| ws_temp_path := ws_temp_path w; ws_final_path := ws_final_path w;
                       ws_content_length := ws_content_length w; ws_bytes_written := ws_bytes_written w;
                       ws_finalized := true |})
          | Err e => (Err e, w)
          end).

(** The reader of a stream: the bytes of the file from its position on, how many
    of them it may deliver and how many it has delivered. *)
Record RangeLimitedReader := { rl_file : bytes; rl_bounded_len : option Z; rl_read : Z }.

Definition range_reader (content : bytes) (range : option ByteRange) : RangeLimitedReader :=
  match range with
  | Some r =>
      let end_ := Z.min (range_end r) (saturating_sub (Z.of_nat (length content)) 1) in
      {| rl_file := drop (Z.to_nat (range_start r)) content;
         rl_bounded_len := Some (saturating_sub end_ (range_start r) + 1)%Z; rl_read := 0 |}
  | None => {| rl_file := content; rl_bounded_len := None; rl_read := 0 |}
  end.

(** [poll_read] into a buffer with [remaining] free bytes; the file gives at most
    [available] at once. *)
Definition poll_read (remaining available : nat) (r : RangeLimitedReader) : bytes * RangeLimitedReader :=
  let deliver (n : nat) :=
    let b := take (Nat.min n available) (rl_file r) in
    (b, {| rl_file := drop (length b) (rl_file r); rl_bounded_len := rl_bounded_len r;
           rl_read := (rl_read r + Z.of_nat (length b))%Z |}) in
  match rl_bounded_len r with
  | Some max =>
      if (max <=? rl_read r)%Z then ([], r)
      else deliver (Nat.min remaining (Z.to_nat (max - rl_read r)))
  | None => deliver remaining
  end.

(** The backend on a disk that works. *)
Definition LocalStorageBackend : StorageBackend Disk := {|
  capabilities _ := CAPS_LOCAL;
  metrics := counters;
  head o := sys_run (local_head o);
  read_range o r := sys_run (local_read_range o r);
  read_all o := sys_run (local_read_all o);
  conditional_create o c data := sys_run (local_conditional_create o c data);
  conditional_replace o c data := sys_run (local_conditional_replace o c data);
  delete_owned_object o := sys_run (local_delete_owned_object o);
|}.

(** * Listing *)

(** Paths below the root, by their names. *)
Definition relative_text (names : list string) : string := join_strings "/" names.

Definition file_entry (dataset : DatasetLocation) (names : list string) (f : file) : option ListEntry :=
  let relative := relative_text names in
  if utf8_valid relative then
    Some {| entry_metadata := build_metadata (object_location_for_relative dataset relative) (metadata_of (File f));
            entry_is_file := true; entry_prefix := None |}
  else None.

Definition dir_entry (dataset : DatasetLocation) (name : string) : option ListEntry :=
  if utf8_valid name then
    Some {| entry_metadata := {| md_location := object_location_for_relative dataset name; md_size := 0;
              md_etag := None; md_version_id := None; md_last_modified := None |};
            entry_is_file := false; entry_prefix := Some (trim_end_slash name +:+ "/") |}
  else None.

Definition collect_recursive (dataset : DatasetLocation) (root : node) : list ListEntry :=
  omap (fun e => file_entry dataset (fst e) (snd e)) (files_below root).

Definition collect_shallow (dataset : DatasetLocation) (root : node) : list ListEntry :=
  match root with
  | File _ => []
  | Dir m => omap (fun e => match snd e with
                            | Dir _ => dir_entry dataset (fst e)
                            | File f => file_entry dataset [fst e] f
                            end) (map_to_list m)
  end.

(** [read_dir] of a file is an error. *)
Definition collect_list_entries (dataset : DatasetLocation) (root : node) (recursive : bool)
    : Result StorageError (list ListEntry) :=
  match root with
  | File _ => Err (io ENOTDIR)
  | Dir _ => Ok (if recursive then collect_recursive dataset root else collect_shallow dataset root)
  end.

Definition entry_leb (a b : ListEntry) : bool := str_leb (entry_uri a) (entry_uri b).

Definition local_list (dataset : DatasetLocation) (options : ListOptions) (token : option string) (d : Disk)
    : Result StorageError ListPage * Disk :=
  let d := snd (sys_exec (SRecord record_list) d) in
  (root ← dataset_root dataset;
   match sys_stat root d with
   | Err _ => Ok {| page_objects := []; page_prefixes := []; truncated := false; continuation_token := None |}
   | Ok x =>
       entries ← collect_list_entries dataset x (recursive options);
       Ok (page_of (sort_by entry_leb entries) options token)
   end, d).
End Backend.

(** The local backend on a disk that works keeps the contract of a storage
    backend, for the buckets below a base directory and for absolute paths. *)

(** * Running requests *)

Lemma run_stry {A B} (p : sprog (Result StorageError A)) (f : A -> sprog (Result StorageError B)) d :
  sys_run (stry p f) d = let '(r, d') := sys_run p d in
                         match r with Ok a => sys_run (f a) d' | Err e => (Err e, d') end.
Proof. unfold stry. rewrite sys_run_bind. by destruct (sys_run p d) as [[a|e] d']. Qed.

Lemma run_mapped {A} f (p : sprog (Result IoError A)) d :
  sys_run (mapped f p) d = let '(r, d') := sys_run p d in (map_err f r, d').
Proof. unfold mapped. rewrite sys_run_bind. by destruct (sys_run p d). Qed.

Lemma run_file_metadata o p d :
  sys_run (file_metadata o p) d =
  (match sys_stat p d with
   | Ok (File f) => Ok (metadata_of (File f))
   | Ok (Dir _) => Err (NotFound (object_display_uri o))
   | Err e => Err (map_io_error (object_display_uri o) e)
   end, d).
Proof.
  unfold file_metadata. rewrite run_stry, run_mapped. cbn [sys sys_run sys_exec]. unfold sys_metadata.
  by destruct (sys_stat p d) as [[f|m]|e].
Qed.

Lemma run_metadata_for_path o p d :
  sys_run (metadata_for_path o p) d =
  (match sys_stat p d with
   | Ok (File f) => Ok (build_metadata o (metadata_of (File f)))
   | Ok (Dir _) => Err (NotFound (object_display_uri o))
   | Err e => Err (map_io_error (object_display_uri o) e)
   end, d).
Proof.
  unfold metadata_for_path. rewrite run_stry, run_file_metadata. by destruct (sys_stat p d) as [[f|m]|e].
Qed.

(** * Namespaces *)

(** The objects a backend tells apart, by their positions in the tree. *)
Class Namespace (base : option string) (uuid : nat -> string) := {
  local_addressable : ObjectLocation -> Prop;
  position : ObjectLocation -> list string;
  object_path_denotes : forall o, local_addressable o ->
    exists p, object_path base o = Ok p /\ denotes p (position o);
  position_inj : forall o o', local_addressable o -> local_addressable o' -> position o = position o' -> o = o';
  temp_path_denotes : forall o p n, local_addressable o -> object_path base o = Ok p ->
    exists T, denotes (with_extension p ("parqonaut-tmp-" +:+ uuid n)) T
      /\ forall o', local_addressable o' -> position o' <> T;
}.

Definition not_temp (n : string) : Prop := contains ".parqonaut-tmp-" n = false.

Lemma temp_beside Q l ext dir : Q <> EmptyString -> ends_with_char "/"%char Q = false -> valid_name l ->
  has_char "/"%char ext = false -> components Q = RootDir :: map Normal dir ->
  exists n, denotes (with_extension (path_join Q l) ("parqonaut-tmp-" +:+ ext)) (dir ++ [n]) /\ ~ not_temp n.
Proof.
  intros HQ He Hl Hx Hc.
  destruct (with_extension_name Q l ("parqonaut-tmp-" +:+ ext)) as (n & Hn & Hw & Hcon); try done.
  exists n. split.
  - rewrite Hw. split; [|by apply ends_with_slash_join]. rewrite components_join, Hc by done. cbn [app]. by rewrite map_app.
  - unfold not_temp. rewrite <- (app_assoc_string "." "parqonaut-tmp-") in Hcon. apply contains_weaken in Hcon.
    change ("." +:+ "parqonaut-tmp-") with ".parqonaut-tmp-" in Hcon. congruence.
Qed.

(** ** Buckets below a base directory *)

Section Based.
(** A base directory given by an absolute path of names, and UUIDs without slashes. *)
Context (base : string) (base_names : list string) (uuid : nat -> string).
Context (Hbase : components base = RootDir :: map Normal base_names).
Context (Huuid : forall n, has_char "/"%char (uuid n) = false).

Definition bucket_object (o : ObjectLocation) : Prop :=
  match o with
  | S3Object b k => valid_name b /\ Forall valid_name (split_char "/"%char k) /\ contains ".." k = false
      /\ Forall not_temp (split_char "/"%char k)
  | LocalObject _ => False
  end.

Definition bucket_position (o : ObjectLocation) : list string :=
  match o with S3Object b k => base_names ++ b :: split_char "/"%char k | LocalObject _ => [] end.

Lemma bucket_path_split b k : bucket_object (S3Object b k) ->
  exists Q l segs, object_path (Some base) (S3Object b k) = Ok (path_join Q l)
    /\ Q <> EmptyString /\ ends_with_char "/"%char Q = false /\ valid_name l
    /\ split_char "/"%char k = segs ++ [l] /\ components Q = RootDir :: map Normal (base_names ++ b :: segs).
Proof.
  intros (Hb & Hk & Hdd & _).
  destruct (exists_last (split_char_ne "/"%char k)) as (segs & l & Hs). rewrite Hs in Hk.
  apply Forall_app in Hk as [Hsegs [Hl _]%Forall_cons].
  assert (base <> EmptyString) as Hne by (intros ->; done).
  exists (foldl path_join (path_join base b) segs), l, segs.
  destruct (foldl_join_components (path_join base b) segs) as [Hc Hq]; [by apply path_join_ne|done|].
  split_and!; try done.
  - cbn [object_path resolve_s3_object ok_or mbind Result_bind]. rewrite Hdd. f_equal.
    rewrite <- path_join_segments by (try apply path_join_ne; done). by rewrite <- Hs, join_split.
  - clear Hc Hq Hs. induction segs as [|x segs _] using rev_ind; [by apply ends_with_slash_join|].
    apply Forall_app in Hsegs as [Hsegs [Hx _]%Forall_cons]. rewrite foldl_app. cbn [foldl].
    apply ends_with_slash_join; [done|].
    by destruct (foldl_join_components (path_join base b) segs) as [_ ?]; [by apply path_join_ne|done|].
  - rewrite Hc, components_join, Hbase by done. cbn [app]. by rewrite !map_app, <- app_assoc.
Qed.

#[program] Definition bucket_namespace : Namespace (Some base) uuid :=
  {| local_addressable := bucket_object; position := bucket_position |}.
Next Obligation.
  intros [|b k] Ha; [done|]. destruct (bucket_path_split b k Ha) as (Q & l & segs & -> & HQ & He & Hl & Hs & Hc).
  eexists. split; [done|]. split; [|by apply ends_with_slash_join].
  rewrite components_join, Hc by done. cbn [bucket_position]. rewrite Hs. cbn [app].
  rewrite !map_app. cbn [map]. rewrite !map_app. by rewrite <- !app_assoc.
Qed.
Next Obligation.
  intros [|b k] [|b' k'] Ha Ha'; try done. intros [= -> Hk]%app_inv_head. f_equal.
  by rewrite <- (join_split "/"%char k), Hk, join_split.
Qed.
Next Obligation.
  intros [|b k] p n Ha; [done|].
  destruct (bucket_path_split b k Ha) as (Q & l & segs & -> & HQ & He & Hl & Hs & Hc). intros [= <-].
  destruct (temp_beside Q l (uuid n) _ HQ He Hl (Huuid n) Hc) as (name & Hd & Hn). eexists. split; [done|].
  intros [|b' k'] Ha' Hp; [done|]. destruct Ha' as (_ & _ & _ & Ht). cbn [bucket_position] in Hp.
  apply (f_equal last) in Hp. rewrite last_snoc in Hp.
  destruct (exists_last (split_char_ne "/"%char k')) as (segs' & l' & Hs'). rewrite Hs' in Hp, Ht.
  rewrite app_comm_cons, app_assoc, last_snoc in Hp. injection Hp as ->.
  by apply Forall_app in Ht as [_ [Ht _]%Forall_cons].
Qed.
End Based.

(** ** Absolute paths *)

Section Direct.
Context (uuid : nat -> string) (Huuid : forall n, has_char "/"%char (uuid n) = false).

Definition names_of (p : string) : list string :=
  omap (fun c => match c with Normal n => Some n | _ => None end) (components p).

(** A normalised absolute path below a directory other than the root. *)
Definition direct_object (o : ObjectLocation) : Prop :=
  match o with
  | LocalObject p => exists segs l, segs <> [] /\ Forall valid_name (segs ++ [l]) /\ not_temp l
      /\ p = path_of_components (RootDir :: map Normal (segs ++ [l]))
  | S3Object _ _ => False
  end.

Definition direct_position (o : ObjectLocation) : list string :=
  match o with LocalObject p => names_of p | S3Object _ _ => [] end.

Lemma names_of_map ns : omap (fun c => match c with Normal n => Some n | _ => None end) (map Normal ns) = ns.
Proof. induction ns as [|n ns IH]; [done|]. cbn [map omap list_omap]. by rewrite IH. Qed.

Lemma only_names_map ns : Forall valid_name ns -> only_names (map Normal ns).
Proof. intros H. apply Forall_map. eapply Forall_impl; [done|]. intros n Hn. by exists n. Qed.

Lemma direct_split o : direct_object o ->
  exists Q l segs, object_path None o = Ok (path_join Q l) /\ Q <> EmptyString
    /\ ends_with_char "/"%char Q = false /\ valid_name l /\ not_temp l /\ direct_position o = segs ++ [l]
    /\ components Q = RootDir :: map Normal segs /\ o = LocalObject (path_join Q l).
Proof.
  destruct o as [p|]; [|done]. intros (segs & l & Hne & Hv & Ht & ->).
  pose proof Hv as [Hsegs [Hl _]%Forall_cons]%Forall_app.
  destruct (components_rooted (map Normal segs)) as (Hc & Hq & He); [by apply only_names_map|].
  destruct (components_rooted (map Normal (segs ++ [l]))) as (Hc' & _ & _); [by apply only_names_map|].
  exists (path_of_components (RootDir :: map Normal segs)), l, segs.
  assert (path_of_components (RootDir :: map Normal (segs ++ [l]))
          = path_join (path_of_components (RootDir :: map Normal segs)) l) as Heq.
  { rewrite map_app. cbn [map]. by rewrite app_comm_cons, path_of_components_snoc. }
  split_and!; try done.
  - cbn [object_path]. unfold resolve_local_path. rewrite Heq. by destruct (is_absolute _).
  - apply He. by destruct segs.
  - cbn [direct_position]. unfold names_of. rewrite Hc'. cbn [omap list_omap]. apply names_of_map.
  - by rewrite Heq.
Qed.

#[program] Definition direct_namespace : Namespace None uuid :=
  {| local_addressable := direct_object; position := direct_position |}.
Next Obligation.
  intros o Ho. destruct (direct_split o Ho) as (Q & l & segs & -> & HQ & He & Hl & _ & Hp & Hc & _).
  eexists. split; [done|]. split; [|by apply ends_with_slash_join].
  rewrite components_join, Hc, Hp by done. cbn [app]. by rewrite map_app.
Qed.
Next Obligation.
  assert (forall o, direct_object o -> o = LocalObject (path_of_components (RootDir :: map Normal (direct_position o)))) as H.
  { intros [p|] Ho; [|done]. destruct Ho as (segs & l & Hne & Hv & Ht & ->). cbn [direct_position]. unfold names_of.
    destruct (components_rooted (map Normal (segs ++ [l]))) as (-> & _ & _); [by apply only_names_map|].
    cbn [omap list_omap]. by rewrite names_of_map. }
  intros o o' Ho Ho' Hp. rewrite (H o Ho), (H o' Ho'). by rewrite Hp.
Qed.
Next Obligation.
  intros o p n Ho. destruct (direct_split o Ho) as (Q & l & segs & -> & HQ & He & Hl & _ & _ & Hc & _). intros [= <-].
  destruct (temp_beside Q l (uuid n) _ HQ He Hl (Huuid n) Hc) as (name & Hd & Hn). eexists. split; [done|].
  intros o' Ho' Hp. destruct (direct_split o' Ho') as (_ & l' & segs' & _ & _ & _ & _ & Ht & Hp' & _).
  rewrite Hp' in Hp. apply (f_equal last) in Hp. rewrite !last_snoc in Hp. by simplify_eq.
Qed.
End Direct.

(** * The laws of a namespace *)

Section Laws.
Context (base : option string) (uuid : nat -> string) {NS : Namespace base uuid}.

Definition local_view (d : Disk) : objects := fun o =>
  match object_path base o with Ok p => file_of p d | Err _ => None end.

Lemma local_view_at o d : local_addressable o ->
  local_view d o = file_at (tree d) (position o).
Proof.
  intros Ha. destruct (object_path_denotes o Ha) as (p & Hp & Hd). unfold local_view. rewrite Hp.
  by apply file_of_denotes.
Qed.

(** From files to objects. *)
Lemma same_files d d' : files_same d d' -> same_on local_addressable (local_view d) (local_view d').
Proof. intros H o Ho. by rewrite !local_view_at, H by done. Qed.

Lemma same_but_temp d d' T : (forall o, local_addressable o -> position o <> T) ->
  (forall q, q <> T -> file_at (tree d') q = file_at (tree d) q) ->
  same_on local_addressable (local_view d) (local_view d').
Proof. intros HT H o Ho. rewrite !local_view_at by done. by apply H, HT. Qed.

Lemma updated_but_temp o v d d' T : local_addressable o ->
  (forall o, local_addressable o -> position o <> T) ->
  (forall q, q <> T -> file_at (tree d') q = if decide (q = position o) then v else file_at (tree d) q) ->
  same_on local_addressable (upd (local_view d) o v) (local_view d').
Proof.
  intros Ha HT H o' Ho. unfold upd. rewrite local_view_at, H by (try apply HT; done).
  case_decide as E; case_decide as E'; try done.
  - by destruct E'; apply position_inj.
  - simplify_eq.
  - by rewrite local_view_at.
Qed.

Lemma updated_files o v d d' : local_addressable o -> files_upd (position o) v d d' ->
  same_on local_addressable (upd (local_view d) o v) (local_view d').
Proof.
  intros Ha H o' Ho. unfold upd. rewrite local_view_at, H by done. case_decide as E; case_decide as E'; try done.
  - by destruct E'; apply position_inj.
  - simplify_eq.
  - by rewrite local_view_at.
Qed.

(** ** Creating an object *)

Lemma ensure_parent_files p d r d' : sys_run (ensure_parent p) d = (r, d') -> files_same d d'.
Proof.
  unfold ensure_parent. destruct (path_parent p); [|by intros [= _ <-]]. rewrite run_mapped. cbn [sys sys_run sys_exec].
  destruct (sys_create_dir_all s d) as [x d1] eqn:E. intros [= _ <-]. by apply create_dir_all_files in E.
Qed.

Lemma create_file_files o p ns data d r d' : denotes p ns ->
  sys_run (create_file o p must_not_exist data) d = (r, d') ->
  match r with
  | Ok _ => file_at (tree d) ns = None /\ files_upd ns (Some data) d d'
  | Err _ => d' = d
  end.
Proof.
  intros Hp. unfold create_file. cbn [must_not_exist if_absent]. rewrite sys_run_bind. cbn [sys sys_run sys_exec].
  destruct (sys_open_new p d) as [x d1] eqn:E. apply (open_new_files p ns) in E; [|done]. destruct x as [|e].
  - destruct E as [Hn Hu]. unfold write_opened. rewrite run_mapped. cbn [sys sys_run sys_exec].
    assert (file_at (tree d1) ns = Some []) as Hf by (by rewrite Hu, decide_True).
    destruct (write_all_files p ns d1 data [] Hp Hf) as (d2 & -> & Hw). intros [= <- <-].
    split; [done|]. intros q. rewrite Hw. case_decide; [done|]. by rewrite Hu, decide_False.
  - subst d1. by intros [= <- <-].
Qed.

Lemma local_create_spec o data d r d' : local_addressable o ->
  sys_run (local_conditional_create base o must_not_exist data) d = (r, d') ->
  (local_view d o = None
     /\ same_on local_addressable (upd (local_view d) o (Some data)) (local_view d')
     /\ forall m, r <> Err (Conflict m))
  \/ is_ok r = false /\ same_on local_addressable (local_view d) (local_view d').
Proof.
  intros Ha. destruct (object_path_denotes o Ha) as (p & Hp & Hd). unfold local_conditional_create.
  rewrite run_stry. cbn [sys_run]. rewrite Hp, run_stry.
  destruct (sys_run (ensure_parent p) d) as [x d1] eqn:E1. apply ensure_parent_files in E1.
  destruct x as [u|e]; [|intros [= <- <-]; right; split; [done|by apply same_files]].
  rewrite run_stry. destruct (sys_run (create_file _ _ _ _) d1) as [x d2] eqn:E2.
  apply (create_file_files _ _ _ _ _ _ _ Hd) in E2.
  destruct x as [u'|e]; [|intros [= <- <-]; subst d2; right; split; [done|by apply same_files]].
  destruct E2 as [Hn Hu]. rewrite sys_run_bind. cbn [sys sys_run sys_exec]. rewrite run_metadata_for_path.
  intros [= <- <-]. left. rewrite local_view_at by done. split; [by rewrite <- E1|]. split.
  - apply updated_files; [done|]. intros q. simpl. rewrite Hu. case_decide; [done|apply E1].
  - intros m. destruct (sys_stat p _) as [[]|e]; try done. unfold map_io_error. by destruct (io_kind e).
Qed.

(** ** Replacing an object *)

Lemma replace_file_files o p data d r d' : local_addressable o ->
  object_path base o = Ok p -> denotes p (position o) ->
  sys_run (replace_file uuid p data) d = (r, d') ->
  same_on local_addressable (upd (local_view d) o (Some data)) (local_view d')
  \/ is_ok r = false /\ same_on local_addressable (local_view d) (local_view d').
Proof.
  intros Ha Hp Hd. unfold replace_file, temp_path_for. rewrite sys_run_bind. cbn [sys mbind sprog_bind sys_run sys_exec].
  destruct (temp_path_denotes o p (uuid_count d) Ha Hp) as (T & HT & Hfresh).
  set (temp := with_extension _ _) in *. set (d1 := {| tree := tree d; cwd := _ |}).
  rewrite run_stry, run_mapped. cbn [sys sys_run sys_exec].
  destruct (sys_open_truncate temp d1) as [x d2] eqn:E2. apply (open_truncate_files _ _ _ _ _ HT) in E2.
  destruct x as [u|e]; [|intros [= <- <-]; subst d2; right; split; [done|by apply same_files]].
  cbn [map_err]. rewrite run_stry. unfold write_opened. rewrite run_mapped. cbn [sys sys_run sys_exec].
  assert (file_at (tree d2) T = Some []) as Hf by (by rewrite E2, decide_True).
  destruct (write_all_files temp T d2 data [] HT Hf) as (d3 & -> & Hw). cbn [map_err app] in *.
  rewrite run_mapped. cbn [sys sys_run sys_exec].
  assert (forall q, q <> T -> file_at (tree d3) q = file_at (tree d) q) as H3.
  { intros q Hq. rewrite Hw, decide_False, E2, decide_False by done. done. }
  destruct (sys_rename temp p d3) as [x d4] eqn:E4.
  apply (rename_files _ _ T (position o) _ _ _ data HT Hd) in E4;
    [|intros Hx; by apply (Hfresh o Ha)|by rewrite Hw, decide_True].
  destruct x as [u'|e]; intros [= <- <-].
  - left. apply (updated_but_temp o _ d d4 T); [done|done|]. intros q Hq. rewrite E4. case_decide; [done|].
    rewrite decide_False by done. by apply H3.
  - subst d4. right. split; [done|]. by apply (same_but_temp d d3 T).
Qed.

Lemma local_replace_spec o c data d r d' : local_addressable o ->
  sys_run (local_conditional_replace base uuid o c data) d = (r, d') ->
  (local_view d o <> None
     /\ same_on local_addressable (upd (local_view d) o (Some data)) (local_view d'))
  \/ is_ok r = false /\ same_on local_addressable (local_view d) (local_view d').
Proof.
  intros Ha. destruct (object_path_denotes o Ha) as (p & Hp & Hd). unfold local_conditional_replace.
  rewrite run_stry. cbn [sys_run]. rewrite Hp, run_stry, run_metadata_for_path.
  assert (local_view d o = file_of p d) as Hv by (unfold local_view; by rewrite Hp).
  unfold file_of in Hv. destruct (sys_stat p d) as [[f|m]|e]; [|by intros [= <- <-]; right|by intros [= <- <-]; right].
  rewrite run_stry. cbn [sys_run]. destruct (check_replace _ _); [|by intros [= <- <-]; right].
  rewrite run_stry. destruct (sys_run (replace_file _ _ _) d) as [x d1] eqn:E.
  apply (replace_file_files o) in E; [|done..].
  destruct x as [u|e]; [|intros [= <- <-]; destruct E as [E|E]; [left|by right]; split; [congruence|done]].
  destruct E as [E|[? _]]; [|done].
  rewrite sys_run_bind. cbn [sys sys_run sys_exec]. rewrite run_metadata_for_path. intros [= _ <-].
  left. split; [congruence|done].
Qed.

Lemma local_delete_spec o d r d' : local_addressable o ->
  sys_run (local_delete_owned_object base o) d = (r, d') ->
  match r with
  | Ok _ => same_on local_addressable (upd (local_view d) o None) (local_view d')
  | Err _ => same_on local_addressable (local_view d) (local_view d')
  end.
Proof.
  intros Ha. destruct (object_path_denotes o Ha) as (p & Hp & Hd). unfold local_delete_owned_object.
  rewrite run_stry. cbn [sys_run]. rewrite Hp, sys_run_bind. cbn [sys sys_run sys_exec].
  destruct (sys_remove_file p d) as [x d1] eqn:E. apply (remove_file_files _ _ _ _ _ Hd) in E.
  destruct x as [u|e]; [intros [= <- <-]; by apply updated_files|]. destruct E as [-> Hn].
  destruct (io_kind e) eqn:Ek; intros [= <- <-]; try done.
  apply updated_files; [done|]. intros q. case_decide as Hq; [subst q|done]. by apply Hn.
Qed.

(** ** The laws *)

Definition LocalBackendOps : StorageBackend Disk := LocalStorageBackend base uuid.

Lemma local_head_law o d r d' : sys_run (local_head base o) d = (r, d') ->
  tree d' = tree d /\
  match r with
  | Ok md => exists c, local_view d o = Some c /\ md_size md = Z.of_nat (length c)
  | Err (NotFound _) => local_view d o = None
  | Err _ => True
  end.
Proof.
  unfold local_head. rewrite sys_run_bind. cbn [sys sys_run sys_exec]. rewrite run_stry. cbn [sys_run].
  unfold local_view, file_of. destruct (object_path base o) as [p|e]; [|intros [= <- <-]; by destruct e].
  rewrite run_metadata_for_path. set (d1 := {| tree := _ |}).
  assert (sys_stat p d1 = sys_stat p d) as -> by done. intros [= <- <-]. split; [done|].
  destruct (sys_stat p d) as [[f|m]|e]; [by eexists|done|]. unfold map_io_error. by destruct (io_kind e).
Qed.

Lemma local_read_range_law o br d r d' : (0 <= range_start br <= range_end br)%Z ->
  sys_run (local_read_range base o br) d = (r, d') ->
  tree d' = tree d /\
  match r with
  | Ok b => exists c, local_view d o = Some c /\
      b = take (Z.to_nat (byte_range_len br)) (drop (Z.to_nat (range_start br)) c)
  | Err _ => True
  end.
Proof.
  intros Hbr. unfold local_read_range. rewrite run_stry. cbn [sys_run]. unfold local_view, file_of.
  destruct (object_path base o) as [p|e]; [|by intros [= <- <-]].
  rewrite run_stry, run_file_metadata. destruct (sys_stat p d) as [[f|m]|e] eqn:Es; [|by intros [= <- <-]|by intros [= <- <-]].
  cbn [meta_len metadata_of]. destruct (Z.leb_spec (Z.of_nat (length (content f))) (range_start br)); [by intros [= <- <-]|].
  rewrite run_stry, run_mapped. cbn [sys sys_run sys_exec]. rewrite Es. cbn [fmap Result_fmap map_err].
  rewrite run_stry, run_mapped. cbn [sys sys_run sys_exec]. unfold sys_read_exact. rewrite Es.
  destruct (_ =? _)%Z; [|by intros [= <- <-]]. cbn [map_err mbind sprog_bind sys_run sys_exec]. intros [= <- <-].
  split; [done|]. eexists. split; [done|]. unfold byte_range_len, saturating_sub.
  destruct (Z.min_spec (range_end br) (Z.max 0 (Z.of_nat (length (content f)) - 1))) as [[? ->]|[? ->]].
  - f_equal. lia.
  - rewrite !take_ge by (rewrite length_drop; lia). done.
Qed.

Lemma local_read_all_law o d r d' : sys_run (local_read_all base o) d = (r, d') ->
  tree d' = tree d /\
  match r with
  | Ok (Ok b) => local_view d o = Some b
  | Err (NotFound _) => local_view d o = None
  | _ => True
  end.
Proof.
  unfold local_read_all. rewrite run_stry. cbn [sys_run]. unfold local_view, file_of.
  destruct (object_path base o) as [p|e]; [|intros [= <- <-]; by destruct e].
  rewrite run_stry, run_file_metadata. destruct (sys_stat p d) as [[f|m]|e] eqn:Es; [|by intros [= <- <-]|].
  - rewrite run_stry, run_mapped. cbn [sys sys_run sys_exec]. rewrite Es.
    cbn [fmap Result_fmap map_err]. rewrite !sys_run_bind. cbn [sys sys_run sys_exec]. rewrite sys_run_bind.
    cbn [sys sys_run sys_exec]. unfold sys_read_to_end. change (sys_stat p _) with (sys_stat p d). rewrite Es. by intros [= <- <-].
  - intros [= <- <-]. split; [done|]. unfold map_io_error. by destruct (io_kind e).
Qed.

Lemma same_tree d d' : tree d' = tree d -> same_on local_addressable (local_view d) (local_view d').
Proof. intros H. apply same_files. intros q. by rewrite H. Qed.

(** The local backend keeps the contract of the trait, so what is proved of the
    publication protocol against the contract holds on it. *)
#[program] Definition LocalLaws : @BackendLaws Disk LocalBackendOps :=
  {| view := local_view; addressable := local_addressable |}.
Next Obligation. done. Qed.
Next Obligation. intros o d r d' [Ht Hr]%local_head_law. split; [by apply same_tree|done]. Qed.
Next Obligation. intros o br d r d' Hbr [Ht Hr]%local_read_range_law; [|done]. split; [by apply same_tree|done]. Qed.
Next Obligation. intros o d r d' [Ht Hr]%local_read_all_law. split; [by apply same_tree|done]. Qed.
Next Obligation.
  intros o data d r d' Ha H. apply local_create_spec in H; [|done].
  destruct H as [(Hn & Hs & Hc)|[Hr Hs]]; destruct r as [md|[]]; try done; auto. by destruct (Hc message).
Qed.
Next Obligation.
  intros o c data d r d' Ha H. apply local_replace_spec in H; [|done].
  destruct r as [md|e]; [by destruct H as [?|[? _]]|]. destruct H as [?|[_ ?]]; auto.
Qed.
Next Obligation.
  intros o d r d' Ha H. apply local_delete_spec in H; [|done]. destruct r; auto.
Qed.

(** C38: On a file system on which no call fails, what a request that changes an object
    does to the objects of the base directory.  A create under the condition that the
    object does not exist either found it absent and added exactly its data, or failed
    and changed no object; a replace either found the object present and gave it exactly
    the data, or failed and changed no object; a delete removes it or fails and changes
    no object.  (A create whose write fails may leave a truncated object,
    [failed_create_leaves_object]; what failing calls do to a replace is
    [replace_atomic].) *)
Theorem local_writes_exact o data c d : local_addressable o ->
  let same := same_on local_addressable (local_view d) in
  let upd_to v := same_on local_addressable (upd (local_view d) o v) in
  (let '(r, d') := sys_run (local_conditional_create base o must_not_exist data) d in
   local_view d o = None /\ upd_to (Some data) (local_view d') \/ is_ok r = false /\ same (local_view d'))
  /\ (let '(r, d') := sys_run (local_conditional_replace base uuid o c data) d in
      local_view d o <> None /\ upd_to (Some data) (local_view d') \/ is_ok r = false /\ same (local_view d'))
  /\ (let '(r, d') := sys_run (local_delete_owned_object base o) d in
      if is_ok r then upd_to None (local_view d') else same (local_view d')).
Proof.
  intros Ha same upd_to. split_and!; destruct (sys_run _ d) as [r d'] eqn:E.
  - apply local_create_spec in E; [|done]. naive_solver.
  - apply local_replace_spec in E; [|done]. naive_solver.
  - apply local_delete_spec in E; [|done]. by destruct r.
Qed.

End Laws.
