(* ===== verification/LocalDurability.v ===== *)
(** The local backend on a disk whose calls may fail: a replace installs the new
    content or keeps the old one, a create can leave a part of the data behind;
    concurrent replaces and equal time stamps defeat the conditions; what a
    listing returns. *)

From Stdlib Require Import Ascii Strings.Byte.
From S2P Require Import Prelude BTree Location Backend RemoteInventory RepairExec Execute LocalFs Config LocalBackend.

(** * Failing calls *)

(** [Q] holds of every outcome, whichever calls fail. *)
Fixpoint every_run {A} (p : sprog A) (Q : A -> Disk -> Prop) (d : Disk) : Prop :=
  match p with
  | SRet a => Q a d
  | SCall c k =>
      (let '(x, d') := sys_exec c d in every_run (k x) Q d')
      /\ forall e written, let '(x, d') := sys_fail c e written d in every_run (k x) Q d'
  end.

Lemma every_run_faulty {A} (p : sprog A) Q faults d : every_run p Q d ->
  let '(a, d') := sys_run_faulty p faults d in Q a d'.
Proof.
  revert faults d. induction p as [a|c k IH]; intros faults d; [done|]. cbn [every_run sys_run_faulty]. intros [He Hf].
  destruct (hd_error faults) as [[[e w]|]|].
  - specialize (Hf e w). destruct (sys_fail c e w d). by apply IH.
  - destruct (sys_exec c d). by apply IH.
  - destruct (sys_exec c d). by apply IH.
Qed.

Lemma every_run_bind {A B} (p : sprog A) (f : A -> sprog B) Q d :
  every_run p (fun a d' => every_run (f a) Q d') d -> every_run (p ≫= f) Q d.
Proof.
  revert d. induction p as [a|c k IH]; intros d; [done|]. cbn [every_run]. intros [He Hf]. split.
  - change (let '(x, d') := sys_exec c d in every_run (k x ≫= f) Q d'). destruct (sys_exec c d). by apply IH.
  - intros e w. specialize (Hf e w). change (let '(x, d') := sys_fail c e w d in every_run (k x ≫= f) Q d').
    destruct (sys_fail c e w d). by apply IH.
Qed.

Lemma every_run_mono {A} (p : sprog A) (Q Q' : A -> Disk -> Prop) d :
  (forall a d', Q a d' -> Q' a d') -> every_run p Q d -> every_run p Q' d.
Proof.
  intros HQ. revert d. induction p as [a|c k IH]; intros d; [by apply HQ|]. cbn [every_run]. intros [He Hf]. split.
  - destruct (sys_exec c d). by apply IH.
  - intros e w. specialize (Hf e w). destruct (sys_fail c e w d). by apply IH.
Qed.

Lemma every_run_stry {A B} (p : sprog (Result StorageError A)) (f : A -> sprog (Result StorageError B)) Q d :
  every_run p (fun r d' => match r with Ok a => every_run (f a) Q d' | Err e => Q (Err e) d' end) d ->
  every_run (stry p f) Q d.
Proof. intros H. apply every_run_bind. eapply every_run_mono; [|done]. by intros [a|e] d'. Qed.

Lemma every_run_mapped {A} f (p : sprog (Result IoError A)) Q d :
  every_run p (fun r d' => Q (map_err f r) d') d -> every_run (mapped f p) Q d.
Proof. intros H. unfold mapped. apply every_run_bind. exact H. Qed.

(** Calls that leave the tree alone. *)
Lemma every_run_metadata o p Q d : (forall r, Q r d) -> every_run (metadata_for_path o p) Q d.
Proof.
  intros HQ. unfold metadata_for_path, file_metadata. apply every_run_stry, every_run_stry, every_run_mapped.
  assert (forall r : Result IoError Metadata, every_run (SRet (map_err (map_io_error (object_display_uri o)) r))
    (fun r d => match r with
      | Ok a => every_run (SRet (if meta_is_file a then Ok a else Err (NotFound (object_display_uri o))))
          (fun r d' => match r with Ok a => every_run (SRet (Ok (build_metadata o a))) Q d' | Err e => Q (Err e) d' end) d
      | Err e => Q (Err e) d end) d) as H; [|split; [apply H|intros; apply H]].
  intros [m|e]; simpl; [|apply HQ]. destruct (meta_is_file m); apply HQ.
Qed.

Section Faulty.
Context (base : option string) (uuid : nat -> string) {NS : Namespace base uuid}.

(** The files of [d'] are those of [d] except perhaps the temporary one at [T]. *)
Definition only_temp (T : list string) (d d' : Disk) : Prop :=
  forall q, q <> T -> file_at (tree d') q = file_at (tree d) q.

Lemma every_run_open_truncate p T d d0 Q : denotes p T -> only_temp T d0 d ->
  (forall r d', only_temp T d0 d' -> (r = Ok tt -> file_at (tree d') T = Some []) -> Q r d') ->
  every_run (mapped io (sys (SOpenTruncate p))) Q d.
Proof.
  intros Hp H0 HQ. apply every_run_mapped. cbn [sys every_run sys_exec sys_fail]. split.
  - destruct (sys_open_truncate p d) as [r d'] eqn:E. apply (open_truncate_files _ _ _ _ _ Hp) in E.
    apply HQ; destruct r as [[]|e]; simpl; try done.
    + intros q Hq. by rewrite E, decide_False, H0.
    + by subst.
    + intros _. by rewrite E, decide_True.
  - intros e _. by apply HQ.
Qed.

Lemma every_run_write p T b d d0 Q : denotes p T -> only_temp T d0 d -> file_at (tree d) T = Some [] ->
  (forall r d', only_temp T d0 d' -> (r = Ok tt -> file_at (tree d') T = Some b) -> Q r d') ->
  every_run (write_opened p b) Q d.
Proof.
  intros Hp H0 Hf HQ. apply every_run_mapped. cbn [sys every_run sys_exec sys_fail]. split.
  - destruct (write_all_files p T d b [] Hp Hf) as (d' & -> & Hw). apply HQ.
    + intros q Hq. by rewrite Hw, decide_False, H0.
    + intros _. by rewrite Hw, decide_True.
  - intros e w. destruct (write_all_files p T d (take w b) [] Hp Hf) as (d' & -> & Hw). apply HQ; [|done].
    intros q Hq. simpl. by rewrite Hw, decide_False, H0.
Qed.

Lemma every_run_rename temp p T ns b d d0 Q : denotes temp T -> denotes p ns -> T <> ns -> only_temp T d0 d ->
  file_at (tree d) T = Some b ->
  (forall d', (forall q, q <> T -> file_at (tree d') q = if decide (q = ns) then Some b else file_at (tree d0) q) ->
     Q (Ok tt) d') ->
  (forall e d', only_temp T d0 d' -> Q (Err e) d') ->
  every_run (mapped io (sys (SRename temp p))) Q d.
Proof.
  intros HT Hp Hne H0 Hb Hok Herr. apply every_run_mapped. cbn [sys every_run sys_exec sys_fail]. split.
  - destruct (sys_rename temp p d) as [r d'] eqn:E. apply (rename_files _ _ T ns _ _ _ b HT Hp Hne Hb) in E.
    destruct r as [[]|e]; simpl.
    + apply Hok. intros q Hq. rewrite E. case_decide; [done|]. rewrite decide_False by done. by apply H0.
    + subst. by apply Herr.
  - intros e _. by apply Herr.
Qed.

(** C39: Whichever calls of a replace fail, and however much of a failed write
    reaches the disk, the object has its old content or all of the new one, the
    other objects are as they were, and success means the new content. *)
Theorem replace_atomic o c data faults d : local_addressable o ->
  let '(r, d') := sys_run_faulty (local_conditional_replace base uuid o c data) faults d in
  same_on local_addressable (upd (local_view base d) o (Some data)) (local_view base d')
  \/ is_ok r = false /\ same_on local_addressable (local_view base d) (local_view base d').
Proof.
  intros Ha. destruct (object_path_denotes o Ha) as (p & Hp & Hd).
  destruct (temp_path_denotes o p (uuid_count d) Ha Hp) as (T & HT & Hfresh).
  apply every_run_faulty. unfold local_conditional_replace. apply every_run_stry. cbn [every_run].
  rewrite Hp. apply every_run_stry, every_run_metadata.
  assert (forall d' (r : Result StorageError ObjectMetadata), only_temp T d d' -> is_ok r = false ->
    same_on local_addressable (upd (local_view base d) o (Some data)) (local_view base d')
    \/ is_ok r = false /\ same_on local_addressable (local_view base d) (local_view base d')) as Hfail.
  { intros d' r Ht Hr. right. split; [done|]. by apply (same_but_temp base uuid d d' T). }
  assert (only_temp T d d) as H0 by done.
  intros [current|e]; [|by apply Hfail]. apply every_run_stry. cbn [every_run].
  destruct (check_replace c current); [|by apply Hfail].
  assert (every_run (replace_file uuid p data) (fun r d' => match r with
    | Ok _ => forall q, q <> T -> file_at (tree d') q = if decide (q = position o) then Some data else file_at (tree d) q
    | Err _ => only_temp T d d' end) d) as Hrep.
  { unfold replace_file, temp_path_for. apply every_run_bind, every_run_bind. cbn [sys every_run sys_exec sys_fail].
    split; [|intros _ _]; apply every_run_stry, (every_run_open_truncate _ T _ d); try done;
      (intros [[]|e] d1 H1 Hc1; [|done]; apply every_run_stry, (every_run_write _ T _ _ d); try done; [by apply Hc1|];
       intros [[]|e] d2 H2 Hc2; [|done];
       apply (every_run_rename _ p T (position o) data _ d); try done; [|by apply Hc2];
       intros Hx; by apply (Hfresh o Ha)). }
  apply every_run_stry. eapply every_run_mono; [|exact Hrep]. intros [u|e] d1 H1; [|by apply Hfail].
  apply every_run_bind. cbn [sys every_run sys_exec sys_fail].
  split; [|intros _ _]; apply every_run_metadata; intros r; left;
    apply (updated_but_temp base uuid o _ d _ T); done.
Qed.
End Faulty.

(** * Streams *)

(** The calls of a writer: buffers and how much the file takes of each. *)
Fixpoint write_polls (w : LocalWriteStream) (polls : list (bytes * nat)) : sprog LocalWriteStream :=
  match polls with
  | [] => SRet w
  | (buf, accepted) :: polls => r ← poll_write w buf accepted; write_polls (snd r) polls
  end.

(** The bytes those calls accept. *)
Fixpoint accepted_bytes (limit : option Z) (written : Z) (polls : list (bytes * nat)) : bytes :=
  match polls with
  | [] => []
  | (buf, accepted) :: polls =>
      let b := take accepted (match limit with
                              | Some max => take (Z.to_nat (max - written)) buf
                              | None => buf
                              end) in
      b ++ accepted_bytes limit (written + Z.of_nat (length b)) polls
  end.

Lemma accepted_bytes_bounded max written polls : (written <= max)%Z ->
  (written + Z.of_nat (length (accepted_bytes (Some max) written polls)) <= max)%Z.
Proof.
  revert written. induction polls as [|[buf n] polls IH]; intros written Hw; simpl; [lia|].
  set (b := take n _). assert (Z.of_nat (length b) <= max - written)%Z.
  { unfold b. rewrite !length_take. lia. }
  specialize (IH (written + Z.of_nat (length b))%Z). rewrite length_app. lia.
Qed.

Section Streams.
Context (base : option string) (uuid : nat -> string) {NS : Namespace base uuid}.

Lemma write_polls_files w T polls d d0 sofar : denotes (ws_temp_path w) T -> only_temp T d0 d ->
  file_at (tree d) T = Some sofar ->
  exists w' d', sys_run (write_polls w polls) d = (w', d') /\ only_temp T d0 d'
    /\ ws_temp_path w' = ws_temp_path w /\ ws_final_path w' = ws_final_path w /\ ws_finalized w' = ws_finalized w
    /\ file_at (tree d') T = Some (sofar ++ accepted_bytes (ws_content_length w) (ws_bytes_written w) polls).
Proof.
  revert w d sofar. induction polls as [|[buf n] polls IH]; intros w d sofar HT H0 Hf.
  { exists w, d. split_and!; try done. by rewrite app_nil_r. }
  cbn [write_polls accepted_bytes]. rewrite sys_run_bind.
  set (b := take n _). assert (exists r w1 d1, sys_run (poll_write w buf n) d = ((r, w1), d1) /\ only_temp T d0 d1
    /\ ws_temp_path w1 = ws_temp_path w /\ ws_final_path w1 = ws_final_path w /\ ws_finalized w1 = ws_finalized w
    /\ ws_content_length w1 = ws_content_length w /\ ws_bytes_written w1 = (ws_bytes_written w + Z.of_nat (length b))%Z
    /\ file_at (tree d1) T = Some (sofar ++ b)) as (r & w1 & d1 & -> & H1 & Ht1 & Hf1 & Hz1 & Hc1 & Hb1 & Hw1).
  { unfold poll_write. destruct (write_all_files (ws_temp_path w) T d b sofar HT Hf) as (d1 & Hd1 & Hu).
    assert (only_temp T d0 d1 /\ file_at (tree d1) T = Some (sofar ++ b)) as [Ho Hn].
    { split; [|by rewrite Hu, decide_True]. intros q Hq. by rewrite Hu, decide_False, H0. }
    subst b. destruct (ws_content_length w) as [max|] eqn:El.
    - destruct (Z.leb_spec max (ws_bytes_written w)).
      + exists (Ok 0), w, d. assert (Z.to_nat (max - ws_bytes_written w) = 0) as -> by lia.
        rewrite take_0, take_nil. split_and!; try done; [simpl; lia|by rewrite app_nil_r].
      + rewrite sys_run_bind. cbn [sys sys_run sys_exec]. rewrite Hd1. do 3 eexists. by split_and!.
    - rewrite sys_run_bind. cbn [sys sys_run sys_exec]. rewrite Hd1. do 3 eexists. by split_and!. }
  cbn [snd]. destruct (IH w1 d1 (sofar ++ b)) as (w' & d' & Hr & Ho & Ht' & Hf' & Hz' & Hfin); [by rewrite Ht1|done|done|].
  exists w', d'. split_and!; try congruence; [done|]. by rewrite Hfin, Hc1, Hb1, <- app_assoc.
Qed.

Lemma write_stream_open o limit d w d0 p : local_addressable o -> object_path base o = Ok p ->
  sys_run (local_write_stream base uuid o limit) d = (Ok w, d0) ->
  exists T, denotes (ws_temp_path w) T /\ (forall o', local_addressable o' -> position o' <> T)
    /\ only_temp T d d0 /\ file_at (tree d0) T = Some []
    /\ w = {| ws_temp_path := ws_temp_path w; ws_final_path := p; ws_content_length := limit;
              ws_bytes_written := 0; ws_finalized := false |}.
Proof.
  intros Ha Hp. unfold local_write_stream. rewrite run_stry. cbn [sys_run]. rewrite Hp, run_stry.
  destruct (sys_run (ensure_parent p) d) as [[u|e] d1] eqn:E1; [|done]. apply ensure_parent_files in E1.
  destruct (temp_path_denotes o p (uuid_count d1) Ha Hp) as (T & HT & Hfresh).
  unfold temp_path_for. rewrite !sys_run_bind. cbn [sys sys_run sys_exec].
  rewrite run_stry, run_mapped. cbn [sys sys_run sys_exec].
  destruct (sys_open_truncate _ _) as [[[]|e] d2] eqn:E2; [|done]. apply (open_truncate_files _ _ _ _ _ HT) in E2.
  cbn [map_err]. intros [= <- <-]. exists T. split_and!; try done.
  - intros q Hq. rewrite E2, decide_False by done. apply E1.
  - by rewrite E2, decide_True.
Qed.

(** A write stream never delivers more than its content length; nothing it does
    is visible in the objects before it is shut down; a shutdown that succeeds
    installs exactly the bytes the stream accepted. *)
Theorem write_stream_publishes o limit polls d w d0 : local_addressable o ->
  sys_run (local_write_stream base uuid o limit) d = (Ok w, d0) ->
  let data := accepted_bytes limit 0 polls in
  let '(w1, d1) := sys_run (write_polls w polls) d0 in
  let '((r, _), d2) := sys_run (poll_shutdown w1) d1 in
  same_on local_addressable (local_view base d) (local_view base d1)
  /\ (if is_ok r then same_on local_addressable (upd (local_view base d) o (Some data)) (local_view base d2)
      else same_on local_addressable (local_view base d) (local_view base d2))
  /\ (forall max, limit = Some max -> (0 <= max)%Z -> (Z.of_nat (length data) <= max)%Z).
Proof.
  intros Ha Hopen data. destruct (object_path_denotes o Ha) as (p & Hp & Hd).
  destruct (write_stream_open o limit d w d0 p Ha Hp Hopen) as (T & HT & Hfresh & H0 & Hf & Hw).
  destruct (write_polls_files w T polls d0 d [] HT H0 Hf) as (w1 & d1 & -> & H1 & Ht1 & Hp1 & Hz1 & Hc1).
  rewrite Hw in Ht1, Hp1, Hz1, Hc1. cbn in Ht1, Hp1, Hz1, Hc1. fold data in Hc1.
  unfold poll_shutdown. rewrite Hz1, sys_run_bind, Ht1, Hp1. cbn [sys sys_run sys_exec].
  destruct (sys_rename (ws_temp_path w) p d1) as [r d2] eqn:E.
  apply (rename_files _ _ T (position o) _ _ _ data HT Hd) in E; [|intros Hx; by apply (Hfresh o Ha)|done].
  destruct r as [u|e]; cbn [is_ok]; split_and!; try (by apply (same_but_temp base uuid d d1 T));
    try (intros max -> Hmax; by apply (accepted_bytes_bounded max 0 polls)).
  - apply (updated_but_temp base uuid o _ d d2 T); [done|done|]. intros q Hq. rewrite E. case_decide; [done|].
    rewrite decide_False by done. by apply H1.
  - subst d2. by apply (same_but_temp base uuid d d1 T).
Qed.
End Streams.

(** What a reader has still to deliver. *)
Definition to_deliver (r : RangeLimitedReader) : bytes :=
  match rl_bounded_len r with
  | Some max => take (Z.to_nat (max - rl_read r)) (rl_file r)
  | None => rl_file r
  end.

(** The calls of a reader: the room in the buffer and what the file has ready. *)
Fixpoint read_polls (polls : list (nat * nat)) (r : RangeLimitedReader) : bytes * RangeLimitedReader :=
  match polls with
  | [] => ([], r)
  | (remaining, available) :: polls =>
      let '(b, r) := poll_read remaining available r in
      let '(bs, r) := read_polls polls r in (b ++ bs, r)
  end.

Lemma poll_read_delivers n m r : let '(b, r') := poll_read n m r in to_deliver r = b ++ to_deliver r'.
Proof.
  unfold poll_read, to_deliver. destruct (rl_bounded_len r) as [max|] eqn:El.
  - destruct (Z.leb_spec max (rl_read r)); cbn [rl_bounded_len rl_read rl_file]; [by rewrite El|].
    set (k := Nat.min (Nat.min n (Z.to_nat (max - rl_read r))) m). set (b := take k (rl_file r)).
    rewrite <- (take_drop (length b) (take (Z.to_nat (max - rl_read r)) (rl_file r))) at 1. f_equal.
    + rewrite take_take. unfold b. rewrite length_take. rewrite Nat.min_l by lia.
      destruct (decide (k <= length (rl_file r))); [by rewrite Nat.min_l by lia|].
      rewrite Nat.min_r by lia. rewrite !take_ge by lia. done.
    + rewrite skipn_firstn_comm. f_equal. lia.
  - cbn [rl_bounded_len rl_file]. set (b := take _ _). unfold b. rewrite length_take.
    rewrite <- (take_drop (Nat.min (Nat.min n m) (length (rl_file r))) (rl_file r)) at 1. f_equal.
    destruct (decide (Nat.min n m <= length (rl_file r))); [by rewrite Nat.min_l by lia|].
    rewrite Nat.min_r by lia. rewrite !take_ge by lia. done.
Qed.

Lemma read_polls_deliver polls r : let '(b, r') := read_polls polls r in to_deliver r = b ++ to_deliver r'.
Proof.
  revert r. induction polls as [|[n m] polls IH]; intros r; [done|]. cbn [read_polls].
  pose proof (poll_read_delivers n m r) as H. destruct (poll_read n m r) as [b r1].
  specialize (IH r1). destruct (read_polls polls r1) as [bs r2]. by rewrite H, IH, app_assoc.
Qed.

(** However a range is read, in whatever portions, what is delivered until the
    stream returns nothing is the range. *)
Theorem range_stream_exact content range polls n m b r' :
  (0 <= range_start range <= range_end range)%Z -> (range_start range < Z.of_nat (length content))%Z ->
  read_polls polls (range_reader content (Some range)) = (b, r') -> 0 < n -> 0 < m -> fst (poll_read n m r') = [] ->
  b = take (Z.to_nat (byte_range_len range)) (drop (Z.to_nat (range_start range)) content).
Proof.
  intros Hr Hs Hp Hn Hm He. pose proof (read_polls_deliver polls (range_reader content (Some range))) as H.
  rewrite Hp in H. assert (to_deliver r' = []) as Hd.
  { unfold poll_read, to_deliver in *. destruct (rl_bounded_len r') as [max|].
    - destruct (Z.leb_spec max (rl_read r')); [by replace (Z.to_nat (max - rl_read r')) with 0 by lia|].
      cbn [fst] in He. apply (f_equal length) in He. rewrite length_take in He. cbn [length] in He.
      assert (length (rl_file r') = 0) as Hl by lia. by rewrite (nil_length_inv _ Hl), take_nil.
    - cbn [fst] in He. apply (f_equal length) in He. rewrite length_take in He. cbn [length] in He.
      apply nil_length_inv. lia. }
  rewrite Hd, app_nil_r in H. rewrite <- H. unfold to_deliver. cbn [range_reader rl_bounded_len rl_read rl_file].
  unfold byte_range_len, saturating_sub. rewrite Z.sub_0_r.
  destruct (Z.min_spec (range_end range) (Z.max 0 (Z.of_nat (length content) - 1))) as [[? ->]|[? ->]].
  - f_equal.
  - rewrite !take_ge by (rewrite length_drop; lia). done.
Qed.

(** * Listing *)

Lemma files_below_cons n ns f m : (n :: ns, f) ∈ files_below (Dir m) <-> exists c, m !! n = Some c /\ (ns, f) ∈ files_below c.
Proof.
  cbn [files_below]. generalize dependent m. intros m.
  induction m as [|k c m Hk Hfold IH] using map_first_key_ind.
  - rewrite map_fold_empty. split; [by intros ?%not_elem_of_nil|]. intros (c & Hc & _). by rewrite lookup_empty in Hc.
  - rewrite map_fold_insert_first_key by done. rewrite elem_of_app, IH. split.
    + intros [[[ns' f'] [[= -> -> ->] He]]%list_elem_of_fmap|(c' & Hc' & He)].
      * exists c. by rewrite lookup_insert_eq.
      * exists c'. split; [|done]. rewrite lookup_insert_ne; [done|]. intros ->. congruence.
    + intros (c' & Hc' & He). destruct (decide (k = n)) as [->|Hne].
      * rewrite lookup_insert_eq in Hc'. injection Hc' as ->. left. apply list_elem_of_fmap. by exists (ns, f).
      * rewrite lookup_insert_ne in Hc' by done. right. by exists c'.
Qed.

Lemma files_below_nil f t : ([], f) ∈ files_below t <-> t = File f.
Proof.
  destruct t as [g|m]; [cbn [files_below]; rewrite list_elem_of_singleton; naive_solver|]. split; [|done].
  cbn [files_below]. generalize dependent m. intros m.
  induction m as [|k c m Hk Hfold IH] using map_first_key_ind.
  - rewrite map_fold_empty. by intros ?%not_elem_of_nil.
  - rewrite map_fold_insert_first_key by done. rewrite elem_of_app. intros [[[ns f'] [? _]]%list_elem_of_fmap|H]; [done|by apply IH in H].
Qed.

(** The walk finds every file of the tree under its path, and nothing else. *)
Lemma files_below_spec ns f t : (ns, f) ∈ files_below t <-> node_at t ns = Some (File f).
Proof.
  revert t. induction ns as [|n ns IH]; intros t.
  - rewrite files_below_nil. cbn [node_at]. naive_solver.
  - destruct t as [g|m]; [|rewrite files_below_cons; cbn [node_at]; setoid_rewrite IH].
    + cbn [files_below node_at]. rewrite list_elem_of_singleton. naive_solver.
    + destruct (m !! n) as [c|] eqn:E; naive_solver.
Qed.

Lemma sort_by_elem {A} (leb : A -> A -> bool) x l : x ∈ sort_by leb l <-> x ∈ l.
Proof. by rewrite (sort_by_perm leb l). Qed.

Lemma filter_never {A} (P : A -> Prop) `{forall x, Decision (P x)} (l : list A) : (forall x, ~ P x) -> filter P l = [].
Proof. intros HP. induction l as [|x l IH]; [done|]. by rewrite filter_cons_False. Qed.

Lemma filter_always {A} (P : A -> Prop) `{forall x, Decision (P x)} (l : list A) : (forall x, P x) -> filter P l = l.
Proof. intros HP. induction l as [|x l IH]; [done|]. by rewrite filter_cons_True, IH. Qed.

(** A recursive listing of a directory on an unlimited page names the files
    below the directory whose path is valid UTF-8, each by its path from it. *)
Theorem recursive_listing_exact base dataset root ns m d page d' :
  dataset_root base dataset = Ok root -> denotes root ns -> node_at (tree d) ns = Some (Dir m) ->
  local_list base dataset {| recursive := true; max_keys := None |} None d = (Ok page, d') ->
  truncated page = false /\ page_prefixes page = [] /\
  forall o, o ∈ map md_location (page_objects page) <->
    exists rel, file_at (tree d) (ns ++ rel) <> None /\ utf8_valid (relative_text rel) = true
      /\ o = object_location_for_relative dataset (relative_text rel).
Proof.
  intros Hroot Hd Hn. unfold local_list. rewrite Hroot. cbn [mbind Result_bind recursive sys_exec snd].
  pose proof (stat_denotes root ns d Hd) as Hs.
  match goal with |- context [sys_stat root ?x] => change (sys_stat root x) with (sys_stat root d) end.
  destruct (sys_stat root d) as [x|e]; rewrite Hs in Hn; [|done]. injection Hn as ->.
  cbn [collect_list_entries]. intros [= <- <-].
  unfold page_of, page_entries. cbn [max_keys default page_start recursive orb drop].
  rewrite firstn_all. rewrite Nat.ltb_irrefl. cbn [truncated page_prefixes page_objects].
  split; [done|]. split; [by rewrite filter_never|]. intros o. rewrite filter_always by done.
  rewrite list_elem_of_fmap. setoid_rewrite list_elem_of_fmap. setoid_rewrite sort_by_elem.
  unfold collect_recursive. setoid_rewrite list_elem_of_omap. unfold file_entry. split.
  - intros (md & -> & e & -> & [rel f] & Hin & He). cbn [fst snd] in He. destruct (utf8_valid _) eqn:Hu; [|done].
    injection He as <-. exists rel. split_and!; [|done|done].
    apply files_below_spec in Hin. unfold file_at. by rewrite node_at_app, Hs; cbn [mbind option_bind]; rewrite Hin.
  - intros (rel & Hf & Hu & ->). unfold file_at in Hf. rewrite node_at_app, Hs in Hf. cbn [mbind option_bind] in Hf.
    destruct (node_at (Dir m) rel) as [[f|]|] eqn:Hin; [|done|done]. apply files_below_spec in Hin.
    eexists (entry_metadata _). split; [|eexists; split; [reflexivity|exists (rel, f); split; [exact Hin|]]].
    2: { cbn [fst snd]. rewrite Hu. reflexivity. }
    reflexivity.
Qed.

(** * What the conditions do not protect *)

Definition store_disk : Disk := {|
  tree := Dir {["store" := Dir ∅]}; cwd := []; clock := 1700000000000000000; uuid_count := 0;
  counters := metrics_zero |}.

Definition store_uuid (n : nat) : string := pretty n.
Definition obj : ObjectLocation := S3Object "lake" "orders/CURRENT".

Definition store_create (o : ObjectLocation) (data : bytes) : sprog (Result StorageError ObjectMetadata) :=
  local_conditional_create (Some "/store") o must_not_exist data.
Definition store_replace (o : ObjectLocation) (md : ObjectMetadata) (data : bytes)
    : sprog (Result StorageError ObjectMetadata) :=
  local_conditional_replace (Some "/store") store_uuid o (matching md) data.
Definition store_view (d : Disk) : objects := local_view (Some "/store") d.

(** A create whose write fails after one of two bytes reports an error and
    leaves an object of one byte, on which every later create conflicts. *)
Theorem failed_create_leaves_object :
  let '(r, d) := sys_run_faulty (store_create obj [x01; x02]) [None; None; Some (UNEXPECTED_EOF, 1)] store_disk in
  let '(r', d') := sys_run (store_create obj [x01; x02]) d in
  is_ok r = false /\ store_view store_disk obj = None /\ store_view d obj = Some [x01]
  /\ (exists m, r' = Err (Conflict m)) /\ store_view d' obj = Some [x01].
Proof. vm_compute. repeat split; eauto. Qed.

(** Run the first [n] calls of a program. *)
Fixpoint sys_run_for {A} (n : nat) (p : sprog A) (d : Disk) : sprog A * Disk :=
  match n, p with
  | S n, SCall c k => let '(x, d) := sys_exec c d in sys_run_for n (k x) d
  | _, _ => (p, d)
  end.

(** Two clients that replace an object under the same metadata both succeed when
    the second runs between the check and the rename of the first: the update
    of the second is lost. *)
Theorem replace_race_loses_update :
  exists d md, sys_run (store_create obj [x00]) store_disk = (Ok md, d)
    /\ let '(rest, d1) := sys_run_for 1 (store_replace obj md [x01; x01]) d in
       let '(r2, d2) := sys_run (store_replace obj md [x02; x02; x02]) d1 in
       let '(r1, d3) := sys_run rest d2 in
       is_ok r1 = true /\ is_ok r2 = true
       /\ store_view d2 obj = Some [x02; x02; x02] /\ store_view d3 obj = Some [x01; x01].
Proof. do 2 eexists. split; [vm_compute; reflexivity|]. vm_compute. repeat split. Qed.

(** Contents of one length written within one tick of the clock have one etag:
    a replace under the metadata of the first content replaces the second. *)
Theorem same_tick_same_etag :
  exists d md d1 md1, sys_run (store_create obj [x00]) store_disk = (Ok md, d)
    /\ sys_run (store_replace obj md [x01]) d = (Ok md1, d1) /\ md1 = md
    /\ let '(r, d2) := sys_run (store_replace obj md [x02]) d1 in
       is_ok r = true /\ store_view d2 obj = Some [x02].
Proof. do 4 eexists. split; [vm_compute; reflexivity|]. split; [vm_compute; reflexivity|]. vm_compute. repeat split. Qed.

(** An object whose key is a directory of another one is reported to exist by a
    create and not to exist by a head. *)
Theorem directory_conflicts :
  let '(r1, d1) := sys_run (store_create obj [x00]) store_disk in
  let o := S3Object "lake" "orders" in
  is_ok r1 = true /\ (exists m, fst (sys_run (store_create o [x00]) d1) = Err (Conflict m))
  /\ (exists l, fst (sys_run (local_head (Some "/store") o) d1) = Err (NotFound l)).
Proof. vm_compute. repeat split; eauto. Qed.

(** The theorems on the local backend at concrete disks. *)

Lemma store_uuid_no_slash n : has_char "/"%char (store_uuid n) = false.
Proof.
  unfold store_uuid, pretty, pretty_nat, pretty, pretty_N. destruct (decide _); [done|].
  assert (forall x s, has_char "/"%char s = false -> has_char "/"%char (pretty_N_go x s) = false) as H; [|by apply H].
  intros x. induction (N.lt_wf_0 x) as [x _ IH]. intros s Hs.
  destruct (decide (0 < x)%N) as [Hx|Hx].
  - rewrite pretty_N_go_step by done. apply IH; [by apply N.div_lt|]. cbn [has_char]. rewrite Hs, orb_false_r.
    unfold pretty_N_char. by repeat case_match.
  - assert (x = 0%N) as -> by lia. by rewrite pretty_N_go_0.
Qed.

#[global] Instance store_namespace : Namespace (Some "/store") store_uuid :=
  bucket_namespace "/store" ["store"] store_uuid eq_refl store_uuid_no_slash.

#[global] Instance root_namespace : Namespace None store_uuid := direct_namespace store_uuid store_uuid_no_slash.

Lemma valid_name_dec n : bool_decide (n <> EmptyString /\ n <> "." /\ n <> ".." /\ has_char "/"%char n = false) = true ->
  valid_name n.
Proof. apply bool_decide_eq_true_1. Qed.

Lemma obj_addressable : local_addressable (base := Some "/store") (uuid := store_uuid) obj.
Proof. repeat split; repeat constructor; done. Qed.

Lemma abs_addressable : local_addressable (base := None) (uuid := store_uuid) (LocalObject "/store/a.parquet").
Proof.
  exists ["store"], "a.parquet". split; [done|]. split; [|done].
  repeat constructor; by apply valid_name_dec.
Qed.

Abbreviation in_store := (local_addressable (base := Some "/store") (uuid := store_uuid)).

Lemma local_writes_exact_witness :
  let d := snd (sys_run (store_create obj [x00]) store_disk) in
  (let '(r, d') := sys_run (local_conditional_create None (LocalObject "/store/a.parquet") must_not_exist [x01]) d in
   is_ok r = true /\ local_view None d' (LocalObject "/store/a.parquet") = Some [x01])
  /\ (let '(r, d') := sys_run (local_conditional_create (Some "/store") obj must_not_exist [x01]) d in
      local_view (Some "/store") d obj = None /\ same_on in_store
        (upd (local_view (Some "/store") d) obj (Some [x01])) (local_view (Some "/store") d')
      \/ is_ok r = false /\ same_on in_store (local_view (Some "/store") d) (local_view (Some "/store") d')).
Proof.
  intros d. split; [vm_compute; split; reflexivity|].
  exact (proj1 (local_writes_exact (Some "/store") store_uuid obj [x01] {| expected_etag := None; expected_version_id := None |}
    d obj_addressable)).
Defined.

Lemma replace_atomic_witness :
  let d := snd (sys_run (store_create obj [x00]) store_disk) in
  let c := {| expected_etag := None; expected_version_id := None |} in
  let '(r, d') := sys_run_faulty (local_conditional_replace (Some "/store") store_uuid obj c [x01; x02])
                    [None; None; None; Some (UNEXPECTED_EOF, 1)] d in
  (same_on in_store (upd (local_view (Some "/store") d) obj (Some [x01; x02])) (local_view (Some "/store") d')
   \/ is_ok r = false /\ same_on in_store (local_view (Some "/store") d) (local_view (Some "/store") d'))
  /\ is_ok r = false /\ local_view (Some "/store") d' obj = Some [x00].
Proof.
  intros d c. destruct (sys_run_faulty _ _ d) as [r d'] eqn:E. split.
  - pose proof (replace_atomic (Some "/store") store_uuid obj c [x01; x02] [None; None; None; Some (UNEXPECTED_EOF, 1)]
      d obj_addressable) as H. rewrite E in H. exact H.
  - vm_compute in E. injection E as <- <-. vm_compute. split; reflexivity.
Defined.

Lemma write_stream_publishes_witness :
  exists w d0, sys_run (local_write_stream (Some "/store") store_uuid obj (Some 3%Z)) store_disk = (Ok w, d0)
  /\ let polls := [([x01; x02], 1); ([x02; x03], 5); ([x04], 1)] in
     let '(w1, d1) := sys_run (write_polls w polls) d0 in
     let '((r, _), d2) := sys_run (poll_shutdown w1) d1 in
     (is_ok r = true -> same_on in_store (upd (local_view (Some "/store") store_disk) obj (Some [x01; x02; x03]))
        (local_view (Some "/store") d2))
     /\ is_ok r = true /\ local_view (Some "/store") d1 obj = None /\ local_view (Some "/store") d2 obj = Some [x01; x02; x03].
Proof.
  do 2 eexists. split; [vm_compute; reflexivity|]. cbv zeta.
  pose proof (write_stream_publishes (Some "/store") store_uuid obj (Some 3%Z) [([x01; x02], 1); ([x02; x03], 5); ([x04], 1)]
    store_disk _ _ obj_addressable ltac:(vm_compute; reflexivity)) as H. cbv zeta in H.
  destruct (sys_run (write_polls _ _) _) as [w1 d1] eqn:E1. destruct (sys_run (poll_shutdown w1) d1) as [[r w2] d2] eqn:E2.
  split.
  - intros Hr. destruct H as (_ & H & _). rewrite Hr in H. exact H.
  - clear H. vm_compute in E1. injection E1 as <- <-. vm_compute in E2. injection E2 as <- <- <-.
    split_and!; vm_compute; reflexivity.
Defined.

Lemma range_stream_exact_witness :
  fst (read_polls [(2, 9); (9, 1); (9, 9)] (range_reader [x01; x02; x03; x04; x05; x06] (Some {| range_start := 1; range_end := 4 |})))
  = [x02; x03; x04; x05].
Proof.
  apply (range_stream_exact [x01; x02; x03; x04; x05; x06] {| range_start := 1; range_end := 4 |} [(2, 9); (9, 1); (9, 9)] 1 1 _
    (snd (read_polls [(2, 9); (9, 1); (9, 9)]
      (range_reader [x01; x02; x03; x04; x05; x06] (Some {| range_start := 1; range_end := 4 |})))));
    [vm_compute; split; discriminate|vm_compute; reflexivity|vm_compute; reflexivity|lia|lia|vm_compute; reflexivity].
Defined.

Lemma recursive_listing_exact_witness :
  let d := snd (sys_run (store_create obj [x00]) store_disk) in
  let dataset := S3 {| bucket := "lake"; prefix := "" |} in
  exists page d', local_list (Some "/store") dataset {| recursive := true; max_keys := None |} None d = (Ok page, d')
    /\ map md_location (page_objects page) = [obj]
    /\ (forall o, o ∈ map md_location (page_objects page) <->
          exists rel, file_at (tree d) (["store"; "lake"] ++ rel) <> None /\ utf8_valid (relative_text rel) = true
            /\ o = object_location_for_relative dataset (relative_text rel)).
Proof.
  intros d dataset. do 2 eexists. split; [vm_compute; reflexivity|]. split; [vm_compute; reflexivity|].
  refine (proj2 (proj2 (recursive_listing_exact (Some "/store") dataset "/store/lake" ["store"; "lake"] _ d _ _
    _ _ _ _))); [reflexivity|split; reflexivity|vm_compute; reflexivity|vm_compute; reflexivity].
Defined.
