(* ===== verification/ScanTypes.v ===== *)
(** The contracts of a scan: finding codes, findings with their evidence and
    fingerprints, datasets, assets, reports and the validation of reports
    (finding_code.rs, finding.rs, fingerprint.rs, dataset.rs, assets.rs, scan.rs,
    scan_plan.rs, report.rs, validation.rs of src/crates/paraclete-types/src). *)

From Stdlib Require Import Ascii.
From Stdlib Require Import Strings.Byte.
From S2P Require Import Prelude BTree Location Schema RepairPlan Inventory Application Backend ParquetFooter.

(** * Finding codes *)

Inductive FindingCodeError :=
| CodeEmpty
| CodeTooLong
| CodeInvalidShape (m : string)
| CodeInvalidSegment (s : string).

Definition CODE_MAX_LEN : nat := 256.

Fixpoint all_chars (f : ascii -> bool) (s : string) : bool :=
  match s with EmptyString => true | String c s => f c && all_chars f s end.

Definition char_between (lo hi c : ascii) : bool :=
  ((Ascii.N_of_ascii lo <=? Ascii.N_of_ascii c) && (Ascii.N_of_ascii c <=? Ascii.N_of_ascii hi))%N.

Definition segment_char (c : ascii) : bool :=
  char_between "a" "z" c || char_between "0" "9" c || bool_decide (c = "_"%char).

Definition validate_segment (seg : string) : Result FindingCodeError unit :=
  if decide (seg = EmptyString) then Err (CodeInvalidShape "empty segment")
  else if negb (all_chars segment_char seg) then Err (CodeInvalidSegment seg)
  else Ok tt.

Definition validate_code_str (s : string) : Result FindingCodeError unit :=
  let parts := split_char "."%char s in
  if length parts <? 2 then Err (CodeInvalidShape "need at least two dot-separated segments")
  else
    _ ← try_for validate_segment parts;
    match parts with
    | "system" :: _ =>
        if length parts <? 3 then Err (CodeInvalidShape "system codes require system.<domain>.<name>") else Ok tt
    | "plugin" :: rest =>
        if length parts <? 3 then Err (CodeInvalidShape "plugin codes require plugin.<plugin_id>.<name>")
        else match rest with
             | id :: _ =>
                 if negb (all_chars (fun c => segment_char c || bool_decide (c = "-"%char)) id)
                 then Err (CodeInvalidSegment id) else Ok tt
             | [] => Ok tt
             end
    | "user" :: _ => Ok tt
    | _ => Err (CodeInvalidShape "code must start with system., plugin., or user.")
    end.

Definition try_new (code : string) : Result FindingCodeError string :=
  if decide (code = EmptyString) then Err CodeEmpty
  else if (CODE_MAX_LEN <? String.length code) then Err CodeTooLong
  else _ ← validate_code_str code; Ok code.

(** The codes of the built-in rules. *)
Definition FORMAT_UNKNOWN : string := "system.format.unknown".
Definition FORMAT_MIXED_DATASET : string := "system.format.mixed_dataset".
Definition PARTITION_INCONSISTENT_KEYS : string := "system.partition.inconsistent_keys".
Definition METADATA_FILE_TOO_SMALL : string := "system.metadata.file_too_small".
Definition METADATA_ROW_GROUP_SUSPICIOUSLY_SMALL : string := "system.metadata.row_group_suspiciously_small".
Definition TARGET_SCAN_TRUNCATED : string := "system.target.scan_truncated".
Definition FORMAT_PARQUET_READ_FAILED : string := "system.format.parquet_read_failed".
Definition DATASET_MULTIPLE_DETECTED : string := "system.dataset.multiple_datasets_detected".
Definition PARTITION_UNPARTITIONED_COLLECTION : string := "system.partition.unpartitioned_collection".
Definition FORMAT_TEXT_PROBE_BOUNDED : string := "system.format.text_probe_bounded".
Definition DATASET_GROUPING_AMBIGUOUS : string := "system.dataset.grouping_ambiguous".
Definition ASSET_INSPECTION_SKIPPED : string := "system.asset.inspection_skipped".
Definition ASSET_INSPECTION_PARTIAL : string := "system.asset.inspection_partial".

(** * Findings *)

Inductive FindingCategory :=
| CatFormat | CatTarget | CatSchema | CatPartitioning | CatMetadata | CatIntegrity | CatQuality
| CatPerformance | CatCoverage | CatPlugin.

Inductive EvidenceKind :=
| FileSlice | ColumnStats | SchemaFragment | MetadataTable | ParquetFooterEvidence | PartitionLayoutEvidence | CustomEvidence.

Record PartitionSegment := { seg_key : string; seg_value : string }.

#[global] Instance PartitionSegment_eq_dec : EqDecision PartitionSegment.
Proof. solve_decision. Defined.

Record EvidenceLocationRef := {
  ref_path : option string;
  ref_row_group_index : option Z;
  ref_partition : list PartitionSegment;
}.

Record EvidenceReference := { er_label : string; er_target : option string }.

Record Evidence := {
  ev_id : string;
  ev_kind : EvidenceKind;
  ev_summary : string;
  ev_location_ref : option EvidenceLocationRef;
  ev_payload : option json;
  ev_references : list EvidenceReference;
}.

Record FindingLocation := {
  loc_file : option string;
  loc_columns : list string;
  loc_partition : list PartitionSegment;
  loc_row_group : option Z;
}.

Record Recommendation := { rec_summary : string; rec_detail : option string }.

(** [Finding]; the fingerprint is the digest of the second algorithm. *)
Record ScanFinding := {
  sf_id : string;
  sf_code : string;
  sf_severity : FindingSeverity;
  sf_category : FindingCategory;
  sf_summary : string;
  sf_detail : string;
  sf_evidence : list Evidence;
  sf_locations : list FindingLocation;
  sf_recommendations : list Recommendation;
  sf_fingerprint : option string;
  sf_attributes : bmap json;
}.

(** What repair reads of a finding. *)
Definition repair_finding (f : ScanFinding) : Finding := {|
  find_id := sf_id f; find_code := sf_code f; find_severity := sf_severity f; find_summary := sf_summary f;
  find_detail := sf_detail f; find_payloads := map ev_payload (sf_evidence f);
  find_locations := map loc_file (sf_locations f) |}.

(** ** Their JSON forms (serde names) *)

Definition severity_name (s : FindingSeverity) : string :=
  match s with Info => "info" | Low => "low" | Medium => "medium" | High => "high" | Critical => "critical" end.

Definition category_name (c : FindingCategory) : string :=
  match c with
  | CatFormat => "format" | CatTarget => "target" | CatSchema => "schema" | CatPartitioning => "partitioning"
  | CatMetadata => "metadata" | CatIntegrity => "integrity" | CatQuality => "quality"
  | CatPerformance => "performance" | CatCoverage => "coverage" | CatPlugin => "plugin"
  end.

Definition evidence_kind_name (k : EvidenceKind) : string :=
  match k with
  | FileSlice => "file_slice" | ColumnStats => "column_stats" | SchemaFragment => "schema_fragment"
  | MetadataTable => "metadata_table" | ParquetFooterEvidence => "parquet_footer"
  | PartitionLayoutEvidence => "partition_layout" | CustomEvidence => "custom"
  end.

Definition opt_json {A} (f : A -> json) (o : option A) : json := match o with Some a => f a | None => JNull end.
(** A member that is skipped when absent. *)
Definition opt_member {A} (k : string) (f : A -> json) (o : option A) : list (string * json) :=
  match o with Some a => [(k, f a)] | None => [] end.
Definition list_member (k : string) (l : list json) : list (string * json) :=
  match l with [] => [] | _ => [(k, JArr l)] end.

Definition segment_json (s : PartitionSegment) : json :=
  JObj [("key", JStr (seg_key s)); ("value", JStr (seg_value s))].

Definition location_ref_json (l : EvidenceLocationRef) : json :=
  JObj (opt_member "path" JStr (ref_path l) ++ opt_member "row_group_index" JNum (ref_row_group_index l)
        ++ list_member "partition" (map segment_json (ref_partition l))).

Definition reference_json (r : EvidenceReference) : json :=
  JObj (("label", JStr (er_label r)) :: opt_member "target" JStr (er_target r)).

Definition evidence_fingerprint_value (e : Evidence) : json :=
  sort_json_value (JObj (
    [("id", JStr (ev_id e)); ("kind", JStr (evidence_kind_name (ev_kind e))); ("summary", JStr (ev_summary e))]
    ++ opt_member "location_ref" location_ref_json (ev_location_ref e)
    ++ opt_member "payload" sort_json_value (ev_payload e)
    ++ list_member "references" (map reference_json (ev_references e)))).

Definition location_fingerprint_value (l : FindingLocation) : json := JObj [
  ("file", opt_json JStr (loc_file l)); ("columns", JArr (map JStr (loc_columns l)));
  ("partition", JArr (map segment_json (loc_partition l))); ("row_group", opt_json JNum (loc_row_group l))].

Definition finding_fingerprint_payload (f : ScanFinding) : json := JObj [
  ("code", JStr (sf_code f)); ("severity", JStr (severity_name (sf_severity f)));
  ("category", JStr (category_name (sf_category f))); ("summary", JStr (sf_summary f));
  ("detail", JStr (sf_detail f)); ("evidence", JArr (map evidence_fingerprint_value (sf_evidence f)));
  ("locations", JArr (map location_fingerprint_value (sf_locations f)))].

Section Fingerprint.
Context `{Digests}.

Definition compute_fingerprint (f : ScanFinding) : string :=
  hex_encode (sha256 (json_to_string (sort_json_value (finding_fingerprint_payload f)))).

Definition finalize (f : ScanFinding) : ScanFinding := {|
  sf_id := sf_id f; sf_code := sf_code f; sf_severity := sf_severity f; sf_category := sf_category f;
  sf_summary := sf_summary f; sf_detail := sf_detail f; sf_evidence := sf_evidence f;
  sf_locations := sf_locations f; sf_recommendations := sf_recommendations f;
  sf_fingerprint := Some (compute_fingerprint f); sf_attributes := sf_attributes f |}.
End Fingerprint.

(** * Scans *)

Inductive GroupingKind := SingleFile | PathAnchor | PathAnchorSchemaSplit | PathAnchorPartFilePattern.
Inductive PartitionLayout := Unpartitioned | HiveDirectoryKeys.
Inductive InspectionStatus := Inspected | InspFailed | InspSkipped.
Inductive ProbeDepth := FullWithinCap | PartialHead.
Inductive ParseConfidence := ConfHigh | ConfPartial | ConfLow.
Inductive FailureKind :=
| FkIoError | FkFormatReadError | FkUnsupportedFormat | FkProbeDecodeError | FkTruncatedByPolicy | FkInternalEngineError.
Inductive ScanProfile := ProfileQuick | ProfileStandard | ProfileDeep | ProfileBaseline.

#[global] Instance GroupingKind_eq_dec : EqDecision GroupingKind.
Proof. solve_decision. Defined.
#[global] Instance PartitionLayout_eq_dec : EqDecision PartitionLayout.
Proof. solve_decision. Defined.
#[global] Instance InspectionStatus_eq_dec : EqDecision InspectionStatus.
Proof. solve_decision. Defined.
#[global] Instance ProbeDepth_eq_dec : EqDecision ProbeDepth.
Proof. solve_decision. Defined.
#[global] Instance ParseConfidence_eq_dec : EqDecision ParseConfidence.
Proof. solve_decision. Defined.

Inductive ScanMode := FullScan | IncrementalScan.
Record ScanOptions := { scan_mode : ScanMode; max_files : Z; format_hints : list DataFormat }.
Record ScanRequest := {
  req_scan_id : string; req_target : ScanTarget; req_profile : ScanProfile; req_options : ScanOptions;
}.

Record ResolvedAsset := { ra_path : string; ra_format : DataFormat; ra_size_bytes : Z }.
Record ScanPlan := { plan_scan_root : string; plan_assets : list ResolvedAsset; plan_truncated : bool }.

Record DatasetFile := {
  df_path : string; df_format : DataFormat; df_partitions : list PartitionSegment; df_byte_length : option Z;
}.

Record Dataset := {
  ds_dataset_id : string;
  ds_grouping_kind : GroupingKind;
  ds_partition_layout : PartitionLayout;
  ds_files : list DatasetFile;
  ds_schema : option (list FieldDefinition);
}.

Record ProbeMetadata := {
  bytes_sampled : Z;
  probe_file_size_bytes : option Z;
  encoding_assumption : string;
  probe_depth : ProbeDepth;
  parse_confidence : ParseConfidence;
  probe_notes : option string;
}.

(** [AssetRecord] with all of its fields. *)
Record ScanAsset := {
  sa_path : string;
  sa_format : DataFormat;
  sa_size_bytes : Z;
  sa_inspection_status : InspectionStatus;
  sa_failure_kind : option FailureKind;
  sa_failure_message : option string;
  sa_dataset_id : option string;
  sa_probe : option ProbeMetadata;
  sa_inspection_hints : option json;
}.

Record ScanSummary := {
  discovered_assets : Z;
  files_scanned : Z;
  inspected_assets : Z;
  failed_inspection_assets : Z;
  skipped_inspection_assets : Z;
  dataset_member_assets : Z;
  dataset_count : Z;
  partial_inspection : bool;
  scan_truncated : bool;
  findings_total : Z;
  findings_by_severity : bmap Z;
}.

Record DatasetSummary := { dsum_dataset_id : string; dsum_file_count : Z; dsum_dominant_format : DataFormat }.
Record FormatSummary := { fsum_format : DataFormat; fsum_file_count : Z }.

Record ReportMetadata := {
  meta_scan_id : string; meta_generated_at : Z; meta_contract_schema : string; meta_report_format : string;
  meta_engine_revision : option string;
}.

Definition CONTRACT_SCHEMA_VERSION : string := "0.5.0".
Definition REPORT_FORMAT_VERSION : string := "0.5.0".

(** [ScanReport] with all of its fields. *)
Record Report := {
  rep_request : ScanRequest;
  rep_metadata : ReportMetadata;
  rep_summary : ScanSummary;
  rep_assets : list ScanAsset;
  rep_datasets : list Dataset;
  rep_dataset_summaries : list DatasetSummary;
  rep_format_summaries : list FormatSummary;
  rep_findings : list ScanFinding;
}.

(** What repair reads of a report. *)
Definition repair_report (r : Report) : ScanReport := {|
  scan_id := req_scan_id (rep_request r);
  assets := map (fun a => {| asset_path := sa_path a; asset_format := sa_format a;
                             asset_size_bytes := sa_size_bytes a; inspection_hints := sa_inspection_hints a |})
                (rep_assets r);
  scan_findings := map repair_finding (rep_findings r) |}.

(** * Validation *)

Inductive ValidationError :=
| FindingEmptySummary | FindingEmptyDetail | ReportScanIdMismatch | ReportFindingCountMismatch
| ReportDatasetCountMismatch | ReportPartialInspectionMismatch | ReportDiscoveryCountMismatch
| ReportAssetInspectionMismatch | ReportDatasetMemberCountMismatch | ReportDatasetMembershipMismatch
| ReportAssetRecordInconsistent.

Definition validation_error_display (e : ValidationError) : string :=
  match e with
  | FindingEmptySummary => "finding summary must not be empty"
  | FindingEmptyDetail => "finding detail must not be empty"
  | ReportScanIdMismatch => "report metadata scan_id must match request.scan_id"
  | ReportFindingCountMismatch => "report summary.findings_total must match findings.len()"
  | ReportDatasetCountMismatch => "report summary.dataset_count must match datasets.len()"
  | ReportPartialInspectionMismatch =>
      "report summary.partial_inspection must align with failures and truncation flags"
  | ReportDiscoveryCountMismatch => "report summary.discovered_assets must match assets.len() and files_scanned"
  | ReportAssetInspectionMismatch => "report summary inspection counters must match asset records"
  | ReportDatasetMemberCountMismatch => "report summary.dataset_member_assets must match assets with dataset_id"
  | ReportDatasetMembershipMismatch => "dataset member path missing from assets or dataset_id mismatch"
  | ReportAssetRecordInconsistent => "asset record fields inconsistent with inspection_status"
  end.

Definition validate_finding (f : ScanFinding) : Result ValidationError unit :=
  if decide (trim (sf_summary f) = EmptyString) then Err FindingEmptySummary
  else if decide (trim (sf_detail f) = EmptyString) then Err FindingEmptyDetail
  else Ok tt.

Definition count_status (s : InspectionStatus) (l : list ScanAsset) : Z :=
  Z.of_nat (length (filter (fun a => sa_inspection_status a = s) l)).

Definition count_members (l : list ScanAsset) : Z :=
  Z.of_nat (length (filter (fun a => is_Some (sa_dataset_id a)) l)).

(** The record of one asset agrees with its status. *)
Definition asset_consistent (a : ScanAsset) : bool :=
  match sa_inspection_status a with
  | InspFailed =>
      bool_decide (is_Some (sa_failure_kind a))
      && negb (bool_decide (trim (default EmptyString (sa_failure_message a)) = EmptyString))
  | Inspected => negb (bool_decide (is_Some (sa_failure_message a))) && negb (bool_decide (is_Some (sa_failure_kind a)))
  | InspSkipped =>
      negb (bool_decide (is_Some (sa_failure_message a))) && negb (bool_decide (is_Some (sa_failure_kind a)))
      && negb (bool_decide (is_Some (sa_probe a))) && negb (bool_decide (is_Some (sa_dataset_id a)))
  end.

(** The map from asset paths to dataset ids; a later record of a path wins. *)
Definition membership (l : list ScanAsset) : bmap string :=
  bm_of_list (omap (fun a => id ← sa_dataset_id a; Some (sa_path a, id)) l).

Definition members_agree (m : bmap string) (d : Dataset) : bool :=
  forallb (fun f => bool_decide (bm_get (df_path f) m = Some (ds_dataset_id d))) (ds_files d).

Definition validate_report (r : Report) : Result ValidationError unit :=
  let s := rep_summary r in
  let n := Z.of_nat (length (rep_assets r)) in
  if negb (bool_decide (meta_scan_id (rep_metadata r) = req_scan_id (rep_request r))) then Err ReportScanIdMismatch
  else if negb (findings_total s =? Z.of_nat (length (rep_findings r)))%Z then Err ReportFindingCountMismatch
  else if negb (dataset_count s =? Z.of_nat (length (rep_datasets r)))%Z then Err ReportDatasetCountMismatch
  else if negb (Bool.eqb (partial_inspection s) ((0 <? failed_inspection_assets s)%Z || scan_truncated s)) then
    Err ReportPartialInspectionMismatch
  else if negb (discovered_assets s =? n)%Z || negb (files_scanned s =? n)%Z
          || negb (discovered_assets s =? files_scanned s)%Z then Err ReportDiscoveryCountMismatch
  else if negb (forallb asset_consistent (rep_assets r)) then Err ReportAssetRecordInconsistent
  else
    let inspected := count_status Inspected (rep_assets r) in
    let failed := count_status InspFailed (rep_assets r) in
    let skipped := count_status InspSkipped (rep_assets r) in
    if negb (inspected =? inspected_assets s)%Z || negb (failed =? failed_inspection_assets s)%Z
       || negb (skipped =? skipped_inspection_assets s)%Z
       || negb (count_members (rep_assets r) =? dataset_member_assets s)%Z then Err ReportAssetInspectionMismatch
    else if negb (inspected + failed + skipped =? discovered_assets s)%Z then Err ReportAssetInspectionMismatch
    else if negb (forallb (members_agree (membership (rep_assets r))) (rep_datasets r)) then
      Err ReportDatasetMembershipMismatch
    else Ok tt.

(** Inspecting a Parquet footer (src/crates/paraclete-core/src/parquet_inspect.rs).

    The parquet crate is outside: [ParquetMetaData] holds what the code reads of
    its metadata, [ParquetCrate] its three entry points. *)

(** * The metadata of the parquet crate *)

Record ColumnDescr := { cd_name : string; cd_physical : string; cd_logical : string; cd_optional : bool }.
(** The [Debug] form of a chunk's codec, and whether it has statistics. *)
Record ColumnChunk := { cc_compression : string; cc_statistics : bool }.
Record RowGroupMeta := {
  rgm_num_rows : Z; rgm_compressed_size : Z; rgm_total_byte_size : Z; rgm_columns : list ColumnChunk;
}.
Record ParquetMetaData := {
  pm_num_rows : Z; pm_created_by : option string; pm_columns : list ColumnDescr; pm_row_groups : list RowGroupMeta;
}.

Class ParquetCrate := {
  (** [SerializedFileReader::new] on an open file, or its error. *)
  serialized_metadata : bytes -> Result string ParquetMetaData;
  (** [ParquetMetaDataReader::decode_footer_tail]: the metadata length. *)
  decode_footer_tail : bytes -> Result string nat;
  decode_metadata : bytes -> Result string ParquetMetaData;
}.

(** * Inspections *)

Definition schema_from_parquet_meta (cols : list ColumnDescr) : list FieldDefinition :=
  map (fun c => {| def_name := cd_name c; def_logical_type := cd_physical c +:+ " " +:+ cd_logical c;
                   def_nullable := cd_optional c |}) cols.

Definition row_group_summary (i : nat) (rg : RowGroupMeta) : RowGroupSummary := {|
  rg_index := i; rg_num_rows := rgm_num_rows rg; compressed_size := rgm_compressed_size rg;
  total_byte_size := rgm_total_byte_size rg |}.

Definition inspection_from_metadata (meta : ParquetMetaData) : ParquetInspection :=
  let chunks := concat (map rgm_columns (pm_row_groups meta)) in
  {| insp_num_rows := pm_num_rows meta;
     insp_num_row_groups := length (pm_row_groups meta);
     row_groups := imap row_group_summary (pm_row_groups meta);
     insp_fields := schema_from_parquet_meta (pm_columns meta);
     insp_created_by := pm_created_by meta;
     insp_compression_codecs := bs_of_list (map (fun c => to_uppercase (cc_compression c)) chunks);
     statistics_present := (0 <? length (pm_row_groups meta)) && forallb cc_statistics chunks |}.

Section Readers.
Context `{ParquetCrate}.

Definition inspect_parquet_chunk_reader (b : bytes) : Result CoreError ParquetInspection :=
  meta ← map_err CoreParquet (serialized_metadata b); Ok (inspection_from_metadata meta).

(** [inspect_parquet_file] on what opening the path gave. *)
Definition inspect_parquet_path (opened : Result string bytes) : Result CoreError ParquetInspection :=
  b ← map_err CoreIo opened; inspect_parquet_chunk_reader b.

Definition inspect_parquet_footer_buffer (object_size : Z) (footer : bytes) : Result CoreError ParquetInspection :=
  if (length footer <? 8) || (object_size <? Z.of_nat (length footer))%Z then
    Err (CoreParquet "invalid Parquet footer buffer")
  else
    metadata_len ← map_err CoreParquet (decode_footer_tail (suffix_bytes 8 footer));
    if negb (metadata_len + 8 =? length footer) then
      Err (CoreParquet ("footer buffer length " +:+ pretty (length footer) +:+ " does not match metadata length "
                        +:+ pretty metadata_len))
    else
      meta ← map_err CoreParquet (decode_metadata (take metadata_len footer));
      Ok (inspection_from_metadata meta).
End Readers.

Definition footer_inspection_heap_bound (footer_len : nat) : nat := footer_len.
