(* ===== verification/ScanInfer.v ===== *)
(** Which Parquet files form a dataset: Hive segments, path anchors, schema
    signatures and the grouping of readable files
    (src/crates/paraclete-core/src/dataset_infer.rs). *)

From Stdlib Require Import Ascii.
From S2P Require Import Prelude BTree Location Schema RepairPlan Inventory RepairExec Execute AuthStore ScanTypes.

(** * Maps keyed by paths *)

(** [BTreeMap<Utf8PathBuf, _>]: keys are equal and ordered as lists of
    components; inserting at a key that is present keeps the key's text. *)
Abbreviation pmap V := (list (string * V)).

Definition path_eqb (p q : string) : bool := bool_decide (components p = components q).

Fixpoint pm_insert {V} (k : string) (v : V) (m : pmap V) : pmap V :=
  match m with
  | [] => [(k, v)]
  | (k', v') :: m' =>
      if path_eqb k k' then (k', v) :: m'
      else if path_leb k k' then (k, v) :: m
      else (k', v') :: pm_insert k v m'
  end.

Fixpoint pm_get {V} (k : string) (m : pmap V) : option V :=
  match m with
  | [] => None
  | (k', v) :: m' => if path_eqb k k' then Some v else pm_get k m'
  end.

Definition pm_of_list {V} (l : list (string * V)) : pmap V :=
  fold_left (fun m kv => pm_insert (fst kv) (snd kv) m) l [].

(** [entry(k).or_default().push(v)] on a map of vectors. *)
Definition bm_push {V} (k : string) (v : V) (m : bmap (list V)) : bmap (list V) :=
  bm_insert k (default [] (bm_get k m) ++ [v]) m.

(** * Hive segments and anchors *)

Inductive AnchorInferenceNote :=
| SchemaSplit (anchor : string) (dataset_ids : list string)
| MixedSchemaPartPattern (anchor dataset_id : string).

Definition is_ascii_alphanumeric (c : ascii) : bool :=
  char_between "a" "z" c || char_between "A" "Z" c || char_between "0" "9" c.

Definition hive_key_value (k v : string) : bool :=
  negb (bool_decide (k = EmptyString)) && negb (bool_decide (v = EmptyString))
  && all_chars (fun c => is_ascii_alphanumeric c || bool_decide (c = "_"%char)) k.

Definition hive_dir_segment (comp : string) : bool :=
  match split_once "=" comp with Some (k, v) => hive_key_value k v | None => false end.

(** The path below the scan root, or the path itself when it is not below it. *)
Definition scan_relative (root file : string) : string :=
  if path_starts_with file root then strip_base file root else file.

Definition hive_partition_segments (root file : string) : list PartitionSegment :=
  omap (fun comp =>
    if decide (comp = EmptyString) then None
    else match split_once "=" comp with
         | Some (k, v) => if hive_key_value k v then Some {| seg_key := k; seg_value := v |} else None
         | None => None
         end)
    (flat_map (fun c => split_char "/" (component_text c)) (components (scan_relative root file))).

(** Drop the elements at the end that satisfy a predicate. *)
Fixpoint drop_last_while {A} (f : A -> bool) (l : list A) : list A :=
  match l with
  | [] => []
  | x :: l =>
      match drop_last_while f l with
      | [] => if f x then [] else [x]
      | r => x :: r
      end
  end.

Definition dataset_anchor_key (root file : string) : string :=
  let parent := default EmptyString (path_parent (scan_relative root file)) in
  let comps := filter (fun s => s <> EmptyString /\ s <> ".") (map component_text (components parent)) in
  join_strings "/" (drop_last_while hive_dir_segment comps).

(** * Signatures *)

Definition FNV_OFFSET : Z := 14695981039346656037.
Definition FNV_PRIME : Z := 1099511628211.

Fixpoint fnv1a64_from (h : Z) (s : string) : Z :=
  match s with
  | EmptyString => h
  | String c s => fnv1a64_from (wrap_u64 (Z.lxor h (Z.of_N (Ascii.N_of_ascii c)) * FNV_PRIME)) s
  end.

Definition stable_fnv1a64 (s : string) : Z := fnv1a64_from FNV_OFFSET s.

(** [n] lower-case hexadecimal digits, the least significant last. *)
Fixpoint hex_digits (n : nat) (z : Z) : string :=
  match n with
  | 0 => EmptyString
  | S n => hex_digits n (z / 16) +:+ String (hex_digit (Z.to_N (z mod 16))) EmptyString
  end.

Definition short_sig (sig : string) : string := hex_digits 16 (stable_fnv1a64 sig).

Definition dataset_id_for_anchor (root anchor : string) : string :=
  if decide (anchor = EmptyString) then root +:+ "::parquet::default" else root +:+ "::parquet::" +:+ anchor.

(** [Path::file_name]. *)
Definition file_name (p : string) : option string :=
  match last (components p) with Some (Normal n) => Some n | _ => None end.

Definition basename (p : string) : string := default EmptyString (file_name p).

(** [str::ends_with]. *)
Definition ends_with (suffix s : string) : bool :=
  (String.length suffix <=? String.length s)
  && bool_decide (String.substring (String.length s - String.length suffix) (String.length suffix) s = suffix).

(** The last character of a text with a suffix. *)
Lemma ends_with_get suffix s k c : ends_with suffix s = true -> String.length suffix = S k -> String.get k suffix = Some c ->
  String.get (String.length s - 1) s = Some c.
Proof.
  unfold ends_with. intros He Hl Hg. apply andb_true_iff in He as [Hle He]. apply Nat.leb_le in Hle. apply bool_decide_eq_true in He.
  rewrite <- He, String.substring_correct1 in Hg by lia. rewrite <- Hg. f_equal. lia.
Qed.

Definition looks_like_part_parquet_file (name : string) : bool :=
  let lower := to_lowercase name in
  (starts_with "part-" lower || starts_with "part_" lower)
  && (ends_with ".parquet" lower || ends_with ".pq" lower).

(** * Datasets *)

Section Infer.
(** [std::fs::metadata(p).ok().map(|m| m.len())]. *)
Context (byte_len : string -> option Z).

Definition dataset_file (root p : string) : DatasetFile := {|
  df_path := p; df_format := Parquet; df_partitions := hive_partition_segments root p; df_byte_length := byte_len p |}.

(** The first schema found among the inspected paths. *)
Fixpoint first_schema (inspections : pmap ParquetInspection) (paths : list string) : option (list FieldDefinition) :=
  match paths with
  | [] => None
  | p :: paths =>
      match pm_get p inspections with Some i => Some (insp_fields i) | None => first_schema inspections paths end
  end.

Definition build_dataset (root dataset_id : string) (paths : list string) (inspections : pmap ParquetInspection)
    (kind : GroupingKind) : Dataset :=
  let any_hive := existsb (fun p => negb (bool_decide (hive_partition_segments root p = []))) paths in
  {| ds_dataset_id := dataset_id; ds_grouping_kind := kind;
     ds_partition_layout := if any_hive then HiveDirectoryKeys else Unpartitioned;
     ds_files := map (dataset_file root) paths; ds_schema := first_schema inspections paths |}.

Definition group_by_anchor (root : string) (paths : list string) : bmap (list string) :=
  fold_left (fun m p => bm_push (dataset_anchor_key root p) p m) paths [].

Definition group_by_signature (inspections : pmap ParquetInspection) (paths : list string) : bmap (list string) :=
  fold_left (fun m p => match pm_get p inspections with
                        | Some i => bm_push (parquet_schema_signature (insp_fields i)) p m
                        | None => m
                        end) paths [].

Definition all_part_named (paths : list string) : bool :=
  forallb (fun p => looks_like_part_parquet_file (basename p)) paths.

Definition split_by_schema (inspections : pmap ParquetInspection) (paths : list string) : bool :=
  (1 <? length (group_by_signature inspections paths))
  && negb (all_part_named paths && forallb (fun p => bool_decide (is_Some (pm_get p inspections))) paths).

(** One iteration over the anchors: its datasets and its notes. *)
Definition infer_anchor (root : string) (inspections : pmap ParquetInspection) (anchor : string) (paths0 : list string)
    : list Dataset * list AnchorInferenceNote :=
  let paths := sort_by path_leb paths0 in
  let base_id := dataset_id_for_anchor root anchor in
  let sigs := group_by_signature inspections paths in
  if split_by_schema inspections paths then
    let sid sig := base_id +:+ "::sig" +:+ short_sig sig in
    (map (fun '(sig, group) =>
            build_dataset root (sid sig) (sort_by path_leb group) inspections PathAnchorSchemaSplit) sigs,
     [SchemaSplit anchor (sort_by str_leb (map (fun '(sig, _) => sid sig) sigs))])
  else
    let '(kind, notes) :=
      if length paths <=? 1 then (SingleFile, [])
      else if (1 <? length sigs) && all_part_named paths then
        (PathAnchorPartFilePattern, [MixedSchemaPartPattern anchor base_id])
      else (PathAnchor, []) in
    ([build_dataset root base_id paths inspections kind], notes).

Definition dataset_id_leb (a b : Dataset) : bool := str_leb (ds_dataset_id a) (ds_dataset_id b).

Definition infer_parquet_datasets (plan : ScanPlan) (parquet_paths : list string) (inspections : pmap ParquetInspection)
    : list Dataset * list AnchorInferenceNote :=
  let inferred := map (fun '(anchor, paths) => infer_anchor (plan_scan_root plan) inspections anchor paths)
                      (group_by_anchor (plan_scan_root plan) parquet_paths) in
  (sort_by dataset_id_leb (flat_map fst inferred), flat_map snd inferred).
End Infer.

(** * Readings of datasets *)

Definition partition_key_sets_for_dataset (d : Dataset) : list (string * bset) :=
  map (fun f => (df_path f, bs_of_list (map seg_key (df_partitions f)))) (ds_files d).

Fixpoint count_format (f : DataFormat) (counts : list (DataFormat * Z)) : list (DataFormat * Z) :=
  match counts with
  | [] => [(f, 1%Z)]
  | (g, c) :: counts => if decide (g = f) then (g, c + 1)%Z :: counts else (g, c) :: count_format f counts
  end.

(** [Iterator::max_by_key]: the last of the greatest. *)
Fixpoint max_count (best : option (DataFormat * Z)) (counts : list (DataFormat * Z)) : option (DataFormat * Z) :=
  match counts with
  | [] => best
  | (f, c) :: counts =>
      max_count (match best with
                 | Some (g, b) => if (b <=? c)%Z then Some (f, c) else Some (g, b)
                 | None => Some (f, c)
                 end) counts
  end.

Definition dominant_format (assets : list ResolvedAsset) : DataFormat :=
  let counts := fold_left (fun m a => if decide (ra_format a = UnknownFormat) then m else count_format (ra_format a) m)
                          assets [] in
  match max_count None counts with Some (f, _) => f | None => UnknownFormat end.

(** Path-keyed maps and the inference of datasets: every readable file belongs to
    exactly one dataset, and the files of a dataset share their anchor and, unless
    they are part files, their schema signature. *)

(** * Path-keyed maps *)

Definition path_lt (a b : string) : Prop := path_leb a b = true /\ components a <> components b.

#[global] Instance path_lt_trans : Transitive path_lt.
Proof.
  intros a b c [Hab Hn] [Hbc Hn']. split; [by eapply components_leb_trans|].
  intros Hac. apply Hn'. unfold path_leb in *. rewrite Hac in Hab. by apply components_leb_antisym.
Qed.

Lemma path_eqb_spec p q : path_eqb p q = true <-> components p = components q.
Proof. apply bool_decide_eq_true. Qed.

Lemma path_eqb_refl p : path_eqb p p = true.
Proof. by apply path_eqb_spec. Qed.

Section PMap.
Context {V : Type}.
Implicit Types (m : pmap V).

Definition pm_keys m : list string := map fst m.
Definition pm_wf m : Prop := StronglySorted path_lt (pm_keys m).

Lemma pm_get_insert k k' (v : V) m :
  pm_get k' (pm_insert k v m) = if path_eqb k' k then Some v else pm_get k' m.
Proof.
  induction m as [|[k0 v0] m IH]; simpl; [done|]. destruct (path_eqb k k0) eqn:E.
  - apply path_eqb_spec in E. cbn [pm_get]. unfold path_eqb. rewrite E. by case_bool_decide.
  - destruct (path_leb k k0); cbn [pm_get]; [done|]. rewrite IH.
    destruct (path_eqb k' k0) eqn:E1; [|done]. destruct (path_eqb k' k) eqn:E2; [|done].
    apply path_eqb_spec in E1, E2. assert (path_eqb k k0 = true) by (apply path_eqb_spec; congruence). congruence.
Qed.

Lemma pm_insert_keys k (v : V) m k' : k' ∈ pm_keys (pm_insert k v m) -> k' = k \/ k' ∈ pm_keys m.
Proof.
  induction m as [|[k0 v0] m IH]; simpl; [set_solver|].
  destruct (path_eqb k k0); simpl; [set_solver|]. destruct (path_leb k k0); simpl; set_solver.
Qed.

Lemma pm_insert_wf k (v : V) m : pm_wf m -> pm_wf (pm_insert k v m).
Proof.
  unfold pm_wf. induction m as [|[k0 v0] m IH]; simpl; [by repeat constructor|].
  intros Hm. inversion Hm as [|? ? Hs Hall]; subst. rewrite Forall_forall in Hall.
  destruct (path_eqb k k0) eqn:E; simpl; [done|].
  assert (components k <> components k0) as Hne by (intros E'; apply path_eqb_spec in E'; congruence).
  destruct (path_leb k k0) eqn:Hle; simpl.
  - assert (path_lt k k0) by done. constructor; [done|]. constructor; [done|].
    apply Forall_forall. intros x Hx. etrans; eauto.
  - constructor; [by apply IH|]. apply Forall_forall. intros x [->|Hx]%pm_insert_keys; [|auto].
    split; [|done]. unfold path_leb in *. destruct (components_leb_total (components k0) (components k)); congruence.
Qed.

Lemma pm_of_list_ind (P : pmap V -> Prop) l :
  P [] -> (forall m k v, P m -> (k, v) ∈ l -> P (pm_insert k v m)) -> P (pm_of_list l).
Proof.
  intros H0. unfold pm_of_list. revert H0. generalize ([] : pmap V).
  induction l as [|[k v] l IH]; intros m Hm Hstep; simpl; [done|].
  apply IH; [apply Hstep; set_solver|]. intros. apply Hstep; set_solver.
Qed.

Lemma pm_of_list_wf (l : list (string * V)) : pm_wf (pm_of_list l).
Proof. apply pm_of_list_ind; [constructor|]. intros. by apply pm_insert_wf. Qed.

Lemma pm_of_list_keys (l : list (string * V)) k : k ∈ pm_keys (pm_of_list l) -> k ∈ map fst l.
Proof.
  revert k. apply pm_of_list_ind; [intros; set_solver|]. intros m k v Hm Hin k' [->|?]%pm_insert_keys; [|auto].
  apply list_elem_of_In, in_map_iff. exists (k, v). split; [done|]. by apply list_elem_of_In.
Qed.

Lemma path_lt_nodup (l : list string) : StronglySorted path_lt l -> NoDup (map components l).
Proof.
  induction 1 as [|k l Hs IH Hall]; simpl; constructor; [|done].
  rewrite list_elem_of_fmap. intros (x & Heq & Hin). rewrite Forall_forall in Hall. by destruct (Hall _ Hin).
Qed.

Lemma pm_get_keys k m : is_Some (pm_get k m) <-> components k ∈ map components (pm_keys m).
Proof.
  induction m as [|[k0 v0] m IH]; simpl; [split; [by intros [? ?]|set_solver]|].
  destruct (path_eqb k k0) eqn:E.
  - apply path_eqb_spec in E. split; [rewrite E; set_solver|eauto].
  - assert (components k <> components k0) as Hne by (intros E'; apply path_eqb_spec in E'; congruence). set_solver.
Qed.

Lemma pm_get_of_key k m : k ∈ pm_keys m -> is_Some (pm_get k m).
Proof. intros Hin. apply pm_get_keys. by apply (list_elem_of_fmap_2 components). Qed.

(** With distinct paths, a collected map answers with the list's own value. *)
Lemma pm_of_list_get_nodup k (v : V) l : NoDup (map components (map fst l)) -> (k, v) ∈ l ->
  pm_get k (pm_of_list l) = Some v.
Proof.
  unfold pm_of_list. generalize ([] : pmap V).
  induction l as [|[k0 v0] l IH]; simpl; [set_solver|].
  intros m. inversion 1 as [|? ? Hni Hnd]; subst. intros [[= -> ->]|Hin]%elem_of_cons; [|by apply IH].
  assert (forall m', components k0 ∉ map components (map fst l) ->
            pm_get k0 (fold_left (fun m kv => pm_insert (fst kv) (snd kv) m) l m') = pm_get k0 m') as Hk.
  { clear. induction l as [|[k1 v1] l IH]; simpl; [done|]. intros m' Hn. rewrite IH by set_solver.
    rewrite pm_get_insert. destruct (path_eqb k0 k1) eqn:E; [|done]. apply path_eqb_spec in E. set_solver. }
  by rewrite Hk, pm_get_insert, path_eqb_refl by done.
Qed.
End PMap.

(** * Grouping *)

Lemma filter_all {A} (P : A -> Prop) `{forall x, Decision (P x)} l : Forall P l -> filter P l = l.
Proof. induction 1 as [|x l Hx _ IH]; [done|]. by rewrite filter_cons_True, IH. Qed.

Section Group.
Context {V : Type}.
Implicit Types (m : bmap (list V)).

Definition members m : list V := concat (map snd m).

Lemma bm_get_below k m : Forall (str_lt k) (bm_keys m) -> bm_get k m = None.
Proof.
  intros Hall. destruct (bm_get k m) eqn:E; [|done]. assert (k ∈ bm_keys m) as Hin by (apply bm_get_keys; eauto).
  rewrite Forall_forall in Hall. by apply Hall, str_lt_irrefl in Hin.
Qed.

Lemma bm_push_members k (v : V) m : bm_wf m -> members (bm_push k v m) ≡ₚ v :: members m.
Proof.
  unfold bm_push, members, bm_wf. induction m as [|[k0 vs] m IH]; simpl; [done|].
  inversion 1 as [|? ? Hs Hall]; subst. destruct (decide (k = k0)) as [->|Hne]; simpl.
  - by rewrite <- app_assoc, Permutation_middle.
  - destruct (decide (str_lt k k0)) as [Hlt|Hlt]; simpl.
    + rewrite bm_get_below; [done|]. eapply Forall_impl; [exact Hall|]. intros x Hx. by etrans.
    + rewrite IH by done. by rewrite Permutation_middle.
Qed.

(** Collect the elements of a list under a partial key. *)
Definition group_with (key : V -> option string) (l : list V) (m0 : bmap (list V)) : bmap (list V) :=
  fold_left (fun m p => match key p with Some k => bm_push k p m | None => m end) l m0.

Lemma group_with_wf key l m : bm_wf m -> bm_wf (group_with key l m).
Proof.
  revert m. induction l as [|p l IH]; intros m Hm; simpl; [done|]. apply IH.
  destruct (key p); [by apply bm_insert_wf|done].
Qed.

Lemma group_with_members key l m : bm_wf m ->
  members (group_with key l m) ≡ₚ filter (fun p => is_Some (key p)) l ++ members m.
Proof.
  revert m. induction l as [|p l IH]; intros m Hm; simpl; [done|].
  destruct (key p) as [k|] eqn:E.
  - rewrite IH by by apply bm_insert_wf. rewrite bm_push_members by done.
    rewrite filter_cons_True by (rewrite E; eauto). simpl. by rewrite Permutation_middle.
  - rewrite IH by done. rewrite filter_cons_False; [done|]. rewrite E. by intros [? ?].
Qed.

Lemma group_with_get key l m k :
  default [] (bm_get k (group_with key l m)) = default [] (bm_get k m) ++ filter (fun p => key p = Some k) l.
Proof.
  revert m. induction l as [|p l IH]; intros m; simpl; [by rewrite app_nil_r|].
  rewrite IH. destruct (key p) as [k0|] eqn:E.
  - unfold bm_push. rewrite bm_get_insert. destruct (decide (k = k0)) as [->|Hne]; simpl.
    + rewrite filter_cons_True by done. by rewrite <- app_assoc.
    + rewrite filter_cons_False; [done|]. rewrite E. congruence.
  - rewrite filter_cons_False; [done|]. by rewrite E.
Qed.

(** The group of a key is the sublist of the elements with that key. *)
Lemma group_with_elem key l k vs : (k, vs) ∈ group_with key l [] -> vs = filter (fun p => key p = Some k) l.
Proof.
  intros Hin. assert (bm_wf (group_with key l [])) as Hwf by (apply group_with_wf; constructor).
  apply bm_get_of_nodup in Hin; [|by apply bm_wf_nodup].
  pose proof (group_with_get key l [] k) as Hg. by rewrite Hin in Hg.
Qed.

Lemma group_with_key key (l : list V) p k : p ∈ l -> key p = Some k -> k ∈ bm_keys (group_with key l []).
Proof.
  intros Hin Hk. apply bm_get_keys. pose proof (group_with_get key l [] k) as Hg.
  destruct (bm_get k _); [eauto|]. simpl in Hg. assert (p ∈ filter (fun p => key p = Some k) l) as Hf.
  { by apply list_elem_of_filter. } rewrite <- Hg in Hf. set_solver.
Qed.

(** At most one group: at most one key. *)
Lemma group_with_single key (l : list V) p q : length (group_with key l []) <= 1 -> p ∈ l -> q ∈ l ->
  is_Some (key p) -> is_Some (key q) -> key p = key q.
Proof.
  intros Hlen Hp Hq [k Hk] [k' Hk']. rewrite Hk, Hk'.
  pose proof (group_with_key key l p k Hp Hk) as H1. pose proof (group_with_key key l q k' Hq Hk') as H2.
  destruct (group_with key l []) as [|[k0 vs] [|]]; simpl in *; [set_solver| |lia].
  rewrite list_elem_of_singleton in H1, H2. by subst.
Qed.
End Group.

Definition ds_paths (d : Dataset) : list string := map df_path (ds_files d).
Definition anchor_of (root p : string) : option string := Some (dataset_anchor_key root p).
Definition signature_of (inspections : pmap ParquetInspection) (p : string) : option string :=
  (fun i => parquet_schema_signature (insp_fields i)) <$> pm_get p inspections.

Lemma group_by_anchor_with root paths : group_by_anchor root paths = group_with (anchor_of root) paths [].
Proof. done. Qed.

Lemma group_by_signature_with inspections paths :
  group_by_signature inspections paths = group_with (signature_of inspections) paths [].
Proof.
  unfold group_by_signature, group_with. generalize ([] : bmap (list string)).
  induction paths as [|p paths IH]; intros m; simpl; [done|]. rewrite IH. f_equal.
  unfold signature_of. by destruct (pm_get p inspections).
Qed.

Lemma signature_some inspections p : is_Some (pm_get p inspections) -> is_Some (signature_of inspections p).
Proof. intros [x Hx]. unfold signature_of. rewrite Hx. eauto. Qed.

(** * Inference *)

Section Infer.
Context (byte_len : string -> option Z).

Lemma ds_paths_build root id paths inspections kind :
  ds_paths (build_dataset byte_len root id paths inspections kind) = paths.
Proof. unfold ds_paths. simpl. rewrite map_map. simpl. apply map_id. Qed.

Lemma group_by_signature_members inspections paths : Forall (fun p => is_Some (pm_get p inspections)) paths ->
  members (group_by_signature inspections paths) ≡ₚ paths.
Proof.
  intros Hall. rewrite group_by_signature_with, group_with_members by constructor.
  unfold members. simpl. rewrite app_nil_r. rewrite filter_all; [done|].
  eapply Forall_impl; [exact Hall|]. intros p [x Hx]. unfold signature_of. rewrite Hx. eauto.
Qed.

Lemma concat_sorted_groups root id inspections (sigs : bmap (list string)) :
  concat (map ds_paths (map (fun '(sig, group) =>
    build_dataset byte_len root (id sig) (sort_by path_leb group) inspections PathAnchorSchemaSplit) sigs))
  ≡ₚ members sigs.
Proof.
  unfold members. induction sigs as [|[s g] sigs IH]; [done|]. cbn [map concat snd]. rewrite ds_paths_build.
  by rewrite IH, sort_by_perm.
Qed.

Lemma infer_anchor_paths root inspections anchor paths :
  Forall (fun p => is_Some (pm_get p inspections)) paths ->
  concat (map ds_paths (fst (infer_anchor byte_len root inspections anchor paths))) ≡ₚ paths.
Proof.
  intros Hall. unfold infer_anchor.
  destruct (split_by_schema inspections (sort_by path_leb paths)).
  - cbn [fst]. rewrite concat_sorted_groups, group_by_signature_members; [apply sort_by_perm|].
    eapply Forall_Permutation; [..|exact Hall]; [intros ?; reflexivity|]. by rewrite sort_by_perm.
  - destruct (length _ <=? 1); [|destruct (_ && _)]; cbn [fst map concat];
      rewrite ds_paths_build, app_nil_r; apply sort_by_perm.
Qed.

Lemma concat_map_perm {A B} (f : A -> list B) l1 l2 : l1 ≡ₚ l2 -> concat (map f l1) ≡ₚ concat (map f l2).
Proof. intros Hp. rewrite <- !flat_map_concat_map. by apply Permutation_flat_map. Qed.

Lemma flat_map_map {A B C} (f : B -> list C) (g : A -> B) l : flat_map f (map g l) = flat_map (fun a => f (g a)) l.
Proof. induction l as [|a l IH]; simpl; [done|]. by rewrite IH. Qed.

Lemma concat_flat_map {A B C} (f : B -> list C) (g : A -> list B) l :
  concat (map f (flat_map g l)) = flat_map (fun a => concat (map f (g a))) l.
Proof. induction l as [|a l IH]; simpl; [done|]. by rewrite map_app, concat_app, IH. Qed.

Definition infer plan paths inspections := fst (infer_parquet_datasets byte_len plan paths inspections).

(** The inferred datasets, before sorting. *)
Lemma infer_elem plan paths inspections d : d ∈ infer plan paths inspections <->
  exists anchor group, (anchor, group) ∈ group_by_anchor (plan_scan_root plan) paths /\
    d ∈ fst (infer_anchor byte_len (plan_scan_root plan) inspections anchor group).
Proof.
  unfold infer, infer_parquet_datasets. cbn [fst]. rewrite sort_by_perm.
  rewrite list_elem_of_In, in_flat_map. setoid_rewrite in_map_iff. setoid_rewrite <- list_elem_of_In. split.
  - intros (x & ([anchor group] & <- & Hg) & Hd). eauto.
  - intros (anchor & group & Hg & Hd). eexists. split; [|exact Hd]. by exists (anchor, group).
Qed.

Lemma flat_map_perm {A B} (f g : A -> list B) l : Forall (fun a => f a ≡ₚ g a) l -> flat_map f l ≡ₚ flat_map g l.
Proof. induction 1 as [|a l Ha _ IH]; simpl; [done|]. by rewrite Ha, IH. Qed.

Lemma infer_partition plan paths inspections : Forall (fun p => is_Some (pm_get p inspections)) paths ->
  concat (map ds_paths (infer plan paths inspections)) ≡ₚ paths.
Proof.
  intros Hall. unfold infer, infer_parquet_datasets. cbn [fst].
  set (g := group_by_anchor (plan_scan_root plan) paths).
  rewrite (concat_map_perm _ _ _ (sort_by_perm _ _)), flat_map_map, concat_flat_map. transitivity (members g).
  - unfold members. rewrite <- flat_map_concat_map. apply flat_map_perm. apply Forall_forall. intros [a vs] Hin.
    apply infer_anchor_paths. apply (group_with_elem (anchor_of (plan_scan_root plan))) in Hin. subst vs.
    rewrite Forall_forall in Hall. apply Forall_forall. intros p Hp. by apply list_elem_of_filter in Hp as [_ ?%Hall].
  - unfold g. rewrite group_by_anchor_with, group_with_members by constructor. unfold members. simpl.
    rewrite app_nil_r, filter_all; [done|]. apply Forall_forall. intros. eexists. reflexivity.
Qed.

(** Within one anchor: a dataset's files are files of the anchor, with one
    signature unless the files are part files. *)
Lemma infer_anchor_dataset root inspections anchor paths d :
  d ∈ fst (infer_anchor byte_len root inspections anchor paths) ->
  (forall p, p ∈ ds_paths d -> p ∈ paths) /\
  (ds_grouping_kind d <> PathAnchorPartFilePattern -> Forall (fun p => is_Some (pm_get p inspections)) paths ->
   forall p q, p ∈ ds_paths d -> q ∈ ds_paths d -> signature_of inspections p = signature_of inspections q).
Proof.
  unfold infer_anchor. set (sorted := sort_by path_leb paths).
  assert (forall p, p ∈ sorted <-> p ∈ paths) as Hs by (intros p; unfold sorted; by rewrite sort_by_perm).
  rewrite group_by_signature_with.
  destruct (split_by_schema inspections sorted) eqn:Esplit.
  - cbn [fst]. rewrite list_elem_of_In, in_map_iff. intros ([sig g] & <- & Hin).
    apply list_elem_of_In, group_with_elem in Hin. rewrite ds_paths_build. subst g.
    split; [intros p; rewrite sort_by_perm, list_elem_of_filter, Hs; by intros [? ?]|].
    intros _ _ p q. rewrite !sort_by_perm, !list_elem_of_filter. intros [-> _] [-> _]. done.
  - unfold split_by_schema in Esplit. rewrite group_by_signature_with in Esplit.
    destruct (length sorted <=? 1) eqn:El; [|destruct (_ && all_part_named _) eqn:Ep];
      cbn [fst]; rewrite list_elem_of_singleton; intros ->; rewrite ds_paths_build;
      (split; [intros p; apply Hs|]); cbn [ds_grouping_kind build_dataset]; [|done|].
    + intros _ _ p q. apply Nat.leb_le in El. destruct sorted as [|x [|y s]]; simpl in El; [set_solver| |lia].
      rewrite !list_elem_of_singleton. by intros -> ->.
    + intros _ Hall p q Hp Hq. apply (group_with_single (signature_of inspections) sorted); [|done..| |].
      * destruct (1 <? _) eqn:E1; [|by apply Nat.ltb_ge]. simpl in Esplit, Ep. by rewrite Ep in Esplit.
      * apply signature_some. rewrite Forall_forall in Hall. by apply Hall, Hs.
      * apply signature_some. rewrite Forall_forall in Hall. by apply Hall, Hs.
Qed.

(** Two files of one anchor and one signature are in the same dataset. *)
Lemma infer_anchor_together root inspections anchor paths p q :
  Forall (fun p => is_Some (pm_get p inspections)) paths -> p ∈ paths -> q ∈ paths ->
  signature_of inspections p = signature_of inspections q ->
  exists d, d ∈ fst (infer_anchor byte_len root inspections anchor paths) /\ p ∈ ds_paths d /\ q ∈ ds_paths d.
Proof.
  intros Hall Hp Hq Hsig. unfold infer_anchor. set (sorted := sort_by path_leb paths).
  assert (forall p, p ∈ sorted <-> p ∈ paths) as Hs by (intros x; unfold sorted; by rewrite sort_by_perm).
  destruct (split_by_schema inspections sorted).
  - rewrite group_by_signature_with. rewrite Forall_forall in Hall.
    destruct (signature_some _ _ (Hall _ Hp)) as [k Hk].
    pose proof (group_with_key (signature_of inspections) sorted p k (proj2 (Hs p) Hp) Hk) as Hkey.
    apply bm_get_keys in Hkey as [g Hg]. apply bm_get_elem in Hg. pose proof (group_with_elem _ _ _ _ Hg) as ->.
    eexists. split; [cbn [fst]; apply list_elem_of_In, in_map_iff; eexists; split; [|by apply list_elem_of_In]|].
    + cbn. reflexivity.
    + rewrite ds_paths_build, !sort_by_perm, !list_elem_of_filter, !Hs. rewrite <- Hsig. done.
  - destruct (length sorted <=? 1); [|destruct (_ && _)]; (eexists; split;
      [cbn [fst]; by apply list_elem_of_singleton|]; by rewrite ds_paths_build, !Hs).
Qed.

(** ** Claims *)

(** The inferred datasets partition the readable Parquet files: each path is a
    file of exactly one dataset. *)
Theorem datasets_partition plan paths inspections :
  Forall (fun p => is_Some (pm_get p inspections)) paths ->
  flat_map (fun d => map df_path (ds_files d)) (fst (infer_parquet_datasets byte_len plan paths inspections)) ≡ₚ paths.
Proof. rewrite flat_map_concat_map. apply infer_partition. Qed.

(** Two files of one dataset have the same anchor and, unless the dataset keeps
    part files together, the same schema signature; two readable files with the
    same anchor and the same signature are always in one dataset. *)
Theorem dataset_grouping plan paths inspections :
  Forall (fun p => is_Some (pm_get p inspections)) paths ->
  let root := plan_scan_root plan in
  let datasets := fst (infer_parquet_datasets byte_len plan paths inspections) in
  (forall d p q, d ∈ datasets -> p ∈ map df_path (ds_files d) -> q ∈ map df_path (ds_files d) ->
     dataset_anchor_key root p = dataset_anchor_key root q /\
     (ds_grouping_kind d <> PathAnchorPartFilePattern ->
      signature_of inspections p = signature_of inspections q)) /\
  (forall p q, p ∈ paths -> q ∈ paths -> dataset_anchor_key root p = dataset_anchor_key root q ->
     signature_of inspections p = signature_of inspections q ->
     exists d, d ∈ datasets /\ p ∈ map df_path (ds_files d) /\ q ∈ map df_path (ds_files d)).
Proof.
  intros Hall root datasets.
  assert (forall a g, (a, g) ∈ group_by_anchor root paths -> forall p, p ∈ g <-> dataset_anchor_key root p = a /\ p ∈ paths)
    as Hgroup.
  { intros a g Hin p. apply (group_with_elem (anchor_of root)) in Hin. subst g.
    rewrite list_elem_of_filter. unfold anchor_of. by split; intros [? ?]; split; try done; congruence. }
  assert (forall a g, (a, g) ∈ group_by_anchor root paths -> Forall (fun p => is_Some (pm_get p inspections)) g) as Hread.
  { intros a g Hin. rewrite Forall_forall in *. intros p Hp. apply Hall. by apply (Hgroup _ _ Hin) in Hp as [_ ?]. }
  split.
  - intros d p q Hd Hp Hq. apply infer_elem in Hd as (a & g & Hin & Hd).
    destruct (infer_anchor_dataset _ _ _ _ _ Hd) as [Hsub Hsig]. split.
    + transitivity a; [|symmetry]; apply (Hgroup _ _ Hin), Hsub; done.
    + intros Hk. apply Hsig; eauto.
  - intros p q Hp Hq Ha Hsig.
    pose proof (group_with_key (anchor_of root) paths p _ Hp eq_refl) as Hkey.
    apply bm_get_keys in Hkey as [g Hg]. apply bm_get_elem in Hg.
    destruct (infer_anchor_together root inspections (dataset_anchor_key root p) g p q) as (d & Hd & Hpq);
      [by eauto|by apply (Hgroup _ _ Hg)|by apply (Hgroup _ _ Hg)|done|].
    exists d. split; [|done]. apply infer_elem. eauto.
Qed.
End Infer.
