(* ===== verification/ScanRules.v ===== *)
(** The findings of a scan: the builders of schema_findings.rs and
    scan_findings.rs and the built-in rules of scan_rules.rs
    (src/crates/paraclete-core/src).

    [Uuid::new_v4] draws from a supply of ids, a small state monad. *)

From Stdlib Require Import Ascii.
From S2P Require Import Prelude BTree Location Schema RepairPlan Inventory Application ScanTypes ScanInfer.

(** * Random ids *)

Definition Fresh (A : Type) : Type := nat -> A * nat.

#[global] Instance Fresh_ret : MRet Fresh := fun _ a n => (a, n).
#[global] Instance Fresh_bind : MBind Fresh := fun _ _ f m n => let '(a, n) := m n in f a n.

(** A loop that collects what its body draws. *)
Fixpoint fresh_map {A B} (f : A -> Fresh B) (l : list A) : Fresh (list B) :=
  match l with
  | [] => mret []
  | a :: l => b ← f a; bs ← fresh_map f l; mret (b :: bs)
  end.

Class UuidSupply := { uuid_at : nat -> string }.

Definition new_v4 `{UuidSupply} : Fresh string := fun n => (uuid_at n, S n).

(** * Shared shapes *)

Section Build.
Context `{Digests} `{UuidSupply}.

Definition at_path (p : string) : option EvidenceLocationRef :=
  Some {| ref_path := Some p; ref_row_group_index := None; ref_partition := [] |}.

Definition file_location (p : option string) : FindingLocation := {|
  loc_file := p; loc_columns := []; loc_partition := []; loc_row_group := None |}.

Definition mk_evidence (kind : EvidenceKind) (summary : string) (loc : option EvidenceLocationRef) (payload : json)
    : Fresh Evidence :=
  i ← new_v4;
  mret {| ev_id := i; ev_kind := kind; ev_summary := summary; ev_location_ref := loc;
          ev_payload := Some payload; ev_references := [] |}.

(** A finalized finding with no recommendation and no attribute. *)
Definition mk_finding (code : string) (severity : FindingSeverity) (category : FindingCategory) (summary detail : string)
    (evidence : list Evidence) (locations : list FindingLocation) : Fresh ScanFinding :=
  i ← new_v4;
  mret (finalize {| sf_id := i; sf_code := code; sf_severity := severity; sf_category := category;
    sf_summary := summary; sf_detail := detail; sf_evidence := evidence; sf_locations := locations;
    sf_recommendations := []; sf_fingerprint := None; sf_attributes := [] |}).

(** * Structural findings (scan_findings.rs) *)

Definition scan_truncated_finding (root : string) (max : Z) : Fresh ScanFinding :=
  ev ← mk_evidence FileSlice "Truncation context" (at_path root) (JObj [("max_files", JNum max)]);
  mk_finding TARGET_SCAN_TRUNCATED Medium CatTarget "Scan resolution was truncated by max_files"
    ("The local resolver stopped after reaching the configured max_files cap (" +:+ pretty max
       +:+ "); some paths may be missing from this report.")
    [ev] [file_location None].

Definition parquet_read_failed_finding (p : string) (err : CoreError) : Fresh ScanFinding :=
  ev ← mk_evidence ParquetFooterEvidence "Read or parse failure" (at_path p)
         (JObj [("error", JStr (core_error_display err))]);
  mk_finding FORMAT_PARQUET_READ_FAILED High CatFormat "Parquet metadata could not be read"
    ("The engine could not deserialize Parquet footer metadata for this path: " +:+ core_error_display err)
    [ev] [file_location (Some p)].

Definition multiple_datasets_finding (root : string) (count : nat) : Fresh ScanFinding :=
  ev ← mk_evidence PartitionLayoutEvidence "Dataset count" (at_path root)
         (JObj [("dataset_count", JNum (Z.of_nat count))]);
  mk_finding DATASET_MULTIPLE_DETECTED Info CatCoverage
    "Multiple logical Parquet datasets detected under one scan root"
    "Parquet files were grouped into more than one dataset anchor; treat each dataset summary independently."
    [ev] [file_location None].

Definition unpartitioned_collection_finding (dataset_id : string) (file_count : nat) : Fresh ScanFinding :=
  ev ← mk_evidence PartitionLayoutEvidence "Co-located Parquet files" None
         (JObj [("dataset_id", JStr dataset_id); ("file_count", JNum (Z.of_nat file_count))]);
  mk_finding PARTITION_UNPARTITIONED_COLLECTION Info CatPartitioning
    "Parquet files form a collection without Hive-style partition directories"
    "Multiple readable Parquet files share a dataset anchor but no Hive `key=value` path segments were observed."
    [ev] [file_location None].

(** * Probe and grouping findings (schema_findings.rs) *)

Definition probe_depth_name (d : ProbeDepth) : string :=
  match d with FullWithinCap => "full_within_cap" | PartialHead => "partial_head" end.
Definition parse_confidence_name (c : ParseConfidence) : string :=
  match c with ConfHigh => "high" | ConfPartial => "partial" | ConfLow => "low" end.

Definition probe_json (p : ProbeMetadata) : json :=
  JObj ([("bytes_sampled", JNum (bytes_sampled p))]
        ++ opt_member "file_size_bytes" JNum (probe_file_size_bytes p)
        ++ [("encoding_assumption", JStr (encoding_assumption p));
            ("probe_depth", JStr (probe_depth_name (probe_depth p)));
            ("parse_confidence", JStr (parse_confidence_name (parse_confidence p)))]
        ++ opt_member "notes" JStr (probe_notes p)).

Definition text_probe_bounded_finding (p : string) (hints : json) (probe : ProbeMetadata) : Fresh ScanFinding :=
  ev ← mk_evidence FileSlice "Probe bounds and hints" (at_path p)
         (JObj [("hints", hints); ("probe", probe_json probe)]);
  mk_finding FORMAT_TEXT_PROBE_BOUNDED Info CatFormat "Bounded shallow text probe completed"
    "Second-class text formats are only sampled within configured byte limits; see probe metadata for coverage and confidence."
    [ev] [file_location (Some p)].

Definition inspection_partial_finding (p reason : string) : Fresh ScanFinding :=
  ev ← mk_evidence FileSlice "Partial inspection context" (at_path p) (JObj [("reason", JStr reason)]);
  mk_finding ASSET_INSPECTION_PARTIAL Low CatCoverage "Inspection was only partial for this asset" reason
    [ev] [file_location (Some p)].

Definition inspection_skipped_aggregate_finding (skipped : Z) (sample_paths : list string) : Fresh ScanFinding :=
  ev ← mk_evidence FileSlice "Skipped count and sample paths" None
         (JObj [("skipped_assets", JNum skipped); ("sample_paths", JArr (map JStr (take 8 sample_paths)))]);
  mk_finding ASSET_INSPECTION_SKIPPED Info CatCoverage
    (pretty skipped +:+ " asset(s) skipped format-specific inspection")
    "Unknown or unsupported extensions do not receive Parquet footer or shallow text probes in this engine revision."
    [ev] [file_location None].

(** The dash in the second detail is U+2014, three bytes of UTF-8. *)
Definition em_dash : string :=
  String (ascii_of_nat 226) (String (ascii_of_nat 128) (String (ascii_of_nat 148) EmptyString)).

Definition grouping_ambiguous_from_note (n : AnchorInferenceNote) : Fresh ScanFinding :=
  match n with
  | SchemaSplit anchor ids =>
      ev ← mk_evidence PartitionLayoutEvidence "Anchor and resulting dataset ids" None
             (JObj [("anchor", JStr anchor); ("resolution", JStr "schema_split");
                    ("dataset_ids", JArr (map JStr ids))]);
      mk_finding DATASET_GROUPING_AMBIGUOUS Medium CatPartitioning
        "Parquet grouping under one path anchor was ambiguous"
        "Multiple readable Parquet schemas were detected under the same anchor; datasets were split by schema signature."
        [ev] [file_location None]
  | MixedSchemaPartPattern anchor id =>
      ev ← mk_evidence PartitionLayoutEvidence "Anchor and dataset" None
             (JObj [("anchor", JStr anchor); ("resolution", JStr "part_file_pattern_merge"); ("dataset_id", JStr id)]);
      mk_finding DATASET_GROUPING_AMBIGUOUS Low CatPartitioning
        "Mixed Parquet schemas co-located under part-file naming"
        ("Schemas differ but filenames resemble Parquet shard parts; the engine kept a single dataset" +:+ em_dash
           +:+ "verify writer intent.")
        [ev] [file_location None]
  end.

Definition grouping_ambiguous_from_notes (notes : list AnchorInferenceNote) : Fresh (list ScanFinding) :=
  fresh_map grouping_ambiguous_from_note notes.

(** * Built-in rules (scan_rules.rs) *)

Definition FILE_TOO_SMALL_BYTES : Z := 4096.
Definition ROW_GROUP_SMALL_ROWS : Z := 48.
Definition ROW_GROUP_RULE_MIN_TOTAL_ROWS : Z := 200.
Definition ROW_GROUP_RULE_MIN_GROUPS : nat := 4.

Definition format_label (f : DataFormat) : string :=
  match f with
  | Parquet => "parquet" | Csv => "csv" | Inventory.Json => "json" | Ndjson => "ndjson" | UnknownFormat => "unknown"
  end.

(** Rule 1: files of unknown format. *)
Definition unknown_format_rule (assets : list ResolvedAsset) : Fresh (list ScanFinding) :=
  match filter (fun a => ra_format a = UnknownFormat) assets with
  | [] => mret []
  | unknown =>
      ev ← fresh_map (fun a =>
             mk_evidence FileSlice ("Unknown format for " +:+ ra_path a) (at_path (ra_path a))
               (JObj [("size_bytes", JNum (ra_size_bytes a))])) unknown;
      f ← mk_finding FORMAT_UNKNOWN Medium CatFormat "One or more files use an unknown format"
            "Extension and naming did not map to a supported tabular format."
            ev (map (fun a => file_location (Some (ra_path a))) unknown);
      mret [f]
  end.

(** The distinct formats other than unknown. *)
Definition format_set (assets : list ResolvedAsset) : list DataFormat :=
  remove_dups (filter (fun f => f <> UnknownFormat) (map ra_format assets)).

(** Rule 2: more than one known format. *)
Definition mixed_format_rule (root : string) (assets : list ResolvedAsset) : Fresh (list ScanFinding) :=
  if 2 <=? length (format_set assets) then
    ev ← mk_evidence PartitionLayoutEvidence "Detected format mixture under scan root" (at_path root)
           (JObj [("formats", JArr (map JStr (sort_by str_leb (map format_label (format_set assets)))))]);
    f ← mk_finding FORMAT_MIXED_DATASET Medium CatFormat "Directory contains multiple tabular formats"
          "Mixed formats reduce shared diagnostics depth; isolate Parquet datasets where possible."
          [ev] [file_location None];
    mret [f]
  else mret [].

(** The key sets of a dataset's files disagree. *)
Definition keys_inconsistent (sets : list (string * bset)) : bool :=
  let nonempty := filter (fun s => snd s <> []) sets in
  let has_nonempty := existsb (fun s => negb (bool_decide (snd s = []))) sets in
  let has_empty := existsb (fun s => bool_decide (snd s = [])) sets in
  let sigs := remove_dups (map (fun s => bm_keys (snd s)) nonempty) in
  (has_nonempty && has_empty) || (1 <? length sigs).

(** Rule 3: inconsistent Hive keys in one dataset. *)
Definition partition_keys_rule (d : Dataset) : Fresh (list ScanFinding) :=
  let sets := partition_key_sets_for_dataset d in
  if keys_inconsistent sets && negb (bool_decide (sets = [])) then
    evs ← fresh_map (fun s =>
            mk_evidence PartitionLayoutEvidence ("Partition keys for " +:+ fst s) (at_path (fst s))
              (JObj [("dataset_id", JStr (ds_dataset_id d)); ("keys", JArr (map JStr (bm_keys (snd s))))])) sets;
    ev0 ← mk_evidence PartitionLayoutEvidence "Affected dataset" None
            (JObj [("dataset_id", JStr (ds_dataset_id d))]);
    f ← mk_finding PARTITION_INCONSISTENT_KEYS High CatPartitioning
          "Hive-style partition keys are inconsistent across files"
          ("Dataset `" +:+ ds_dataset_id d
             +:+ "` mixes partition key sets or combines partitioned and unpartitioned paths.")
          (ev0 :: evs) (map (fun s => file_location (Some (fst s))) sets);
    mret [f]
  else mret [].

(** Rule 4: a Parquet file that is too small. *)
Definition small_file_rule (a : ResolvedAsset) : Fresh (list ScanFinding) :=
  if bool_decide (ra_format a = Parquet) && (ra_size_bytes a <? FILE_TOO_SMALL_BYTES)%Z then
    ev ← mk_evidence ParquetFooterEvidence "File size on disk" (at_path (ra_path a))
           (JObj [("size_bytes", JNum (ra_size_bytes a))]);
    f ← mk_finding METADATA_FILE_TOO_SMALL Low CatMetadata
          ("Parquet file is very small (" +:+ pretty (ra_size_bytes a) +:+ " bytes)")
          ("Files under " +:+ pretty FILE_TOO_SMALL_BYTES
             +:+ " bytes are often incomplete, truncated, or unsuitable for reliable metadata heuristics.")
          [ev] [file_location (Some (ra_path a))];
    mret [f]
  else mret [].

Definition min_row_group_rows (i : ParquetInspection) : option Z :=
  match map rg_num_rows (row_groups i) with [] => None | z :: l => Some (foldl Z.min z l) end.

(** When rule 5 fires: the smallest row group's rows. *)
Definition small_row_group (i : ParquetInspection) : option Z :=
  if (ROW_GROUP_RULE_MIN_GROUPS <=? insp_num_row_groups i)
     && (ROW_GROUP_RULE_MIN_TOTAL_ROWS <=? insp_num_rows i)%Z then
    match min_row_group_rows i with
    | Some m => if (m <? ROW_GROUP_SMALL_ROWS)%Z then Some m else None
    | None => None
    end
  else None.

(** Rule 5: many row groups, one of them small. *)
Definition row_group_rule (pi : string * ParquetInspection) : Fresh (list ScanFinding) :=
  let '(p, i) := pi in
  match small_row_group i with
  | Some min_rows =>
      ev ← mk_evidence ParquetFooterEvidence "Row group row counts from footer" (at_path p)
             (JObj [("num_rows", JNum (insp_num_rows i));
                    ("num_row_groups", JNum (Z.of_nat (insp_num_row_groups i)));
                    ("min_row_group_rows", JNum min_rows)]);
      f ← mk_finding METADATA_ROW_GROUP_SUSPICIOUSLY_SMALL Medium CatMetadata
            "Parquet row groups look suspiciously small"
            ("At least one row group has fewer than " +:+ pretty ROW_GROUP_SMALL_ROWS
               +:+ " rows while the file has " +:+ pretty (insp_num_rows i) +:+ " rows across "
               +:+ pretty (insp_num_row_groups i)
               +:+ " row groups, suggesting fragmentation or suboptimal write patterns.")
            [ev] [file_location (Some p)];
      mret [f]
  | None => mret []
  end.

Definition evaluate_scan_rules (plan : ScanPlan) (assets : list ResolvedAsset)
    (inspections : list (string * ParquetInspection)) (datasets : list Dataset) : Fresh (list ScanFinding) :=
  unknown ← unknown_format_rule assets;
  mixed ← mixed_format_rule (plan_scan_root plan) assets;
  keys ← fresh_map partition_keys_rule datasets;
  small ← fresh_map small_file_rule assets;
  groups ← fresh_map row_group_rule inspections;
  mret (unknown ++ mixed ++ concat keys ++ concat small ++ concat groups).
End Build.
