(* ===== verification/ScanEngine.v ===== *)
(** The local scan engine: classification of paths, resolution of targets, bounded
    text probes and the pipeline that assembles a validated report
    (format_detection.rs, local_resolve.rs, shallow_inspect.rs, failure_map.rs,
    scan_engine.rs, target_resolution.rs and orchestrator.rs of
    src/crates/paraclete-core/src). *)

From Stdlib Require Import Ascii.
From S2P Require Import Prelude BTree Location Schema RepairPlan Backend Inventory RepairExec Execute AuthStore Application ParquetFooter ScanTypes ScanInfer ScanRules.

(** * The outside *)

(** What a directory walk yields for one entry: its kind and its path, or the
    lossy form of a path that is not UTF-8. *)
Record WalkEntry := { we_is_file : bool; we_path : Result string string }.

(** The file system at the time of the scan, and serde_json's parser. *)
Class ScanFs := {
  sfs_exists : string -> bool;
  (** [fs::metadata(p)], as the length, or the I/O error's text. *)
  sfs_metadata : string -> Result string Z;
  (** [WalkDir::new(root).follow_links(false)]; [None] is an entry in error. *)
  sfs_walk : string -> list (option WalkEntry);
  sfs_open : string -> Result string unit;
  (** [metadata] and one [read] of at most [n] bytes on the open file. *)
  sfs_len : string -> Result string Z;
  sfs_read : string -> nat -> Result string string;
  sfs_contents : string -> Result string bytes;
  (** [String::from_utf8_lossy], and whether the first char of a text is
      alphabetic in Unicode's sense. *)
  from_utf8_lossy : string -> string;
  alphabetic_start : string -> bool;
  (** [serde_json::from_str], or its error's text. *)
  json_from_str : string -> Result string json;
}.

(** * Formats (format_detection.rs) *)

(** [Path::extension]. *)
Definition path_extension (p : string) : option string :=
  name ← file_name p;
  match split_last "." name with
  | Some (EmptyString, _) | None => None
  | Some (_, ext) => Some ext
  end.

Definition classify_format_from_path (p : string) : DataFormat :=
  match path_extension p with
  | Some ext =>
      let e := to_lowercase ext in
      if bool_decide (e = "parquet") || bool_decide (e = "pq") then Parquet
      else if bool_decide (e = "csv") then Csv
      else if bool_decide (e = "json") then Inventory.Json
      else if bool_decide (e = "ndjson") || bool_decide (e = "jsonl") then Ndjson
      else UnknownFormat
  | None => UnknownFormat
  end.

(** * Resolution (local_resolve.rs) *)

Section Resolve.
Context `{ScanFs}.

Definition resolve_file (p : string) : Result CoreError ScanPlan :=
  if negb (sfs_exists p) then Err (MissingPath p)
  else
    len ← map_err CoreIo (sfs_metadata p);
    Ok {| plan_scan_root := default "." (path_parent p);
          plan_assets := [{| ra_path := p; ra_format := classify_format_from_path p; ra_size_bytes := len |}];
          plan_truncated := false |}.

(** The loop of [resolve_directory]; [n] assets are already collected. *)
Fixpoint collect_assets (cap n : Z) (entries : list (option WalkEntry)) : Result CoreError (list ResolvedAsset * bool) :=
  match entries with
  | [] => Ok ([], false)
  | None :: entries => collect_assets cap n entries
  | Some e :: entries =>
      if negb (we_is_file e) then collect_assets cap n entries
      else
        p ← map_err NonUtf8Path (we_path e);
        match sfs_metadata p with
        | Err _ => collect_assets cap n entries
        | Ok len =>
            let a := {| ra_path := p; ra_format := classify_format_from_path p; ra_size_bytes := len |} in
            if (cap <=? n + 1)%Z then Ok ([a], true)
            else '(rest, truncated) ← collect_assets cap (n + 1) entries; Ok (a :: rest, truncated)
        end
  end.

Definition scan_cap (options : ScanOptions) : Z := Z.min (Z.max (max_files options) 1) u64_max.

Definition resolve_directory (root : string) (options : ScanOptions) : Result CoreError ScanPlan :=
  if negb (sfs_exists root) then Err (MissingPath root)
  else
    '(assets, truncated) ← collect_assets (scan_cap options) 0 (sfs_walk root);
    Ok {| plan_scan_root := root; plan_assets := assets; plan_truncated := truncated |}.

Definition resolve_local_scan_plan (target : ScanTarget) (options : ScanOptions) : Result CoreError ScanPlan :=
  match target with
  | LocalFile p => resolve_file p
  | LocalDirectory p => resolve_directory p options
  | LogicalDataset _ _ => Err (Unsupported "logical dataset resolution")
  | ObjectStorePlaceholder _ _ => Err (Unsupported "object store resolution")
  end.

(** [ScanOptions::default]. *)
Definition default_scan_options : ScanOptions := {| scan_mode := FullScan; max_files := 100000; format_hints := [] |}.

(** [LocalPathResolver::resolve] and [ScanOrchestrator::classify_formats] with it
    and the extension detector. *)
Definition local_path_resolve (target : ScanTarget) : Result CoreError (list string) :=
  plan ← resolve_local_scan_plan target default_scan_options; Ok (map ra_path (plan_assets plan)).

Definition classify_formats (target : ScanTarget) : Result CoreError (list DataFormat) :=
  paths ← local_path_resolve target; Ok (map classify_format_from_path paths).
End Resolve.

(** * Bounded text probes (shallow_inspect.rs) *)

Definition HEAD_BYTES : nat := 64 * 1024.

Record ShallowInspectOutcome := { so_hints : json; so_probe : ProbeMetadata }.

Definition newline : ascii := ascii_of_nat 10.
Definition carriage_return : ascii := ascii_of_nat 13.
Definition tab : ascii := ascii_of_nat 9.

(** [str::lines]: a line keeps no terminator, and a text that ends in a newline
    has no empty last line. *)
Fixpoint strip_cr (s : string) : string :=
  match s with
  | EmptyString => EmptyString
  | String c EmptyString => if decide (c = carriage_return) then EmptyString else s
  | String c s => String c (strip_cr s)
  end.

Fixpoint lines_of (pieces : list string) : list string :=
  match pieces with
  | [] => []
  | [last] => if decide (last = EmptyString) then [] else [last]
  | p :: pieces => strip_cr p :: lines_of pieces
  end.

Definition lines (s : string) : list string := lines_of (split_char newline s).

Definition probe_common (bytes_read file_size : Z) : ProbeDepth * ParseConfidence :=
  let depth :=
    if (file_size <=? bytes_read)%Z && (file_size <=? Z.of_nat HEAD_BYTES)%Z then FullWithinCap
    else if (Z.of_nat HEAD_BYTES <? file_size)%Z then PartialHead else FullWithinCap in
  (depth, if bool_decide (depth = PartialHead) then ConfPartial else ConfHigh).

(** [line.matches(c).count()]. *)
Fixpoint count_char (c : ascii) (s : string) : nat :=
  match s with EmptyString => 0 | String d s => (if decide (d = c) then 1 else 0) + count_char c s end.

Definition guess_csv_delimiter (line : string) : ascii :=
  fst (fold_left (fun best d => if (snd best <? count_char d line) then (d, count_char d line) else best)
                 [","%char; tab; ";"%char] (","%char, 0)).

Definition split_csv_line (line : string) (delim : ascii) : list string :=
  filter (fun s => s <> EmptyString) (map trim (split_char delim line)).

Definition numeric_char (c : ascii) : bool :=
  char_between "0" "9" c || bool_decide (c = "."%char) || bool_decide (c = "-"%char).

Section Probe.
Context `{ScanFs}.

Definition looks_like_header (cells : list string) : bool :=
  negb (bool_decide (cells = []))
  && forallb (fun c => negb (all_chars numeric_char c) && (alphabetic_start c || starts_with "_" c)) cells.

Definition read_head_bytes (p : string) (max : nat) : Result CoreError (string * Z) :=
  _ ← map_err CoreIo (sfs_open p);
  size ← map_err CoreIo (sfs_len p);
  buf ← map_err CoreIo (sfs_read p max);
  Ok (buf, size).

Definition csv_hints (delim : string) (columns : nat) (header : json) (samples : Z) : json := JObj [
  ("shallow_format", JStr "csv"); ("delimiter", JStr delim); ("column_count", JNum (Z.of_nat columns));
  ("header_names", header); ("sample_line_count", JNum samples)].

Definition inspect_csv_shallow (p : string) : Result CoreError ShallowInspectOutcome :=
  '(buf, file_size) ← read_head_bytes p HEAD_BYTES;
  let n := Z.of_nat (String.length buf) in
  let '(depth, conf) := probe_common n file_size in
  let '(first, rest) := match lines (from_utf8_lossy buf) with l :: ls => (l, ls) | [] => (EmptyString, []) end in
  let first := trim_end (fun c => bool_decide (c = carriage_return) || bool_decide (c = newline)) first in
  let '(hints, conf) :=
    if decide (first = EmptyString) then (csv_hints "," 0 JNull 0, ConfLow)
    else
      let delim := guess_csv_delimiter first in
      let cells := split_csv_line first delim in
      (csv_hints (String delim EmptyString) (length cells `max` 1)
         (if looks_like_header cells then JArr (map JStr cells) else JNull)
         (saturating_add u32_max 1 (Z.of_nat (length (take 7 rest)))), conf) in
  Ok {| so_hints := hints;
        so_probe := {| bytes_sampled := n; probe_file_size_bytes := Some file_size;
          encoding_assumption := "utf-8-lossy"; probe_depth := depth; parse_confidence := conf;
          probe_notes := if bool_decide (depth = PartialHead)
                         then Some "only leading bytes read; file exceeds probe cap" else None |} |}.

Definition json_kind (v : json) : string :=
  match v with
  | JObj _ => "object" | JArr _ => "array" | JStr _ => "string" | JNum _ => "number" | JBool _ => "bool"
  | JNull => "null"
  end.

Fixpoint sample_keys (v : json) : json :=
  match v with
  | JObj members => JArr (map JStr (take 24 (sort_by str_leb (map fst members))))
  | JArr (x :: _) => sample_keys x
  | _ => JArr []
  end.

(** The hints, the confidence and the notes of the two branches. *)
Definition ndjson_hints (text : string) : Result CoreError (json * ParseConfidence * option string) :=
  let notes := Some "ndjson semantics: only first non-empty line parsed" in
  let line := trim (default EmptyString (hd_error (filter (fun l => trim l <> EmptyString) (lines text)))) in
  if decide (line = EmptyString) then
    Ok (JObj [("shallow_format", JStr "ndjson"); ("first_line_kind", JStr "empty")], ConfPartial, notes)
  else
    v ← map_err CoreInspect (json_from_str line);
    Ok (JObj [("shallow_format", JStr "ndjson"); ("first_line_kind", JStr (json_kind v));
              ("sample_keys", sample_keys v)], ConfPartial, notes).

Definition json_hints (text : string) (file_size : Z) : Result CoreError (json * ParseConfidence * option string) :=
  v ← map_err CoreInspect (json_from_str (trim text));
  let '(conf, notes) :=
    if (Z.of_nat HEAD_BYTES <? file_size)%Z
    then (ConfPartial, Some "json parsed from bounded head only; file exceeds probe cap")
    else (ConfHigh, None) in
  Ok (JObj [("shallow_format", JStr "json"); ("top_level_kind", JStr (json_kind v)); ("sample_keys", sample_keys v)],
      conf, notes).

Definition inspect_json_like_shallow (p : string) (ndjson : bool) : Result CoreError ShallowInspectOutcome :=
  '(buf, file_size) ← read_head_bytes p HEAD_BYTES;
  let n := Z.of_nat (String.length buf) in
  let '(depth, _) := probe_common n file_size in
  let text := from_utf8_lossy buf in
  '(hints, conf, notes) ← (if ndjson then ndjson_hints text else json_hints text file_size);
  Ok {| so_hints := hints;
        so_probe := {| bytes_sampled := n; probe_file_size_bytes := Some file_size;
          encoding_assumption := "utf-8-lossy"; probe_depth := depth; parse_confidence := conf;
          probe_notes := notes |} |}.
End Probe.

(** * The engine (failure_map.rs, scan_engine.rs) *)

Definition failure_kind (e : CoreError) : FailureKind :=
  match e with
  | MissingPath _ | CoreIo _ | NonUtf8Path _ => FkIoError
  | CoreParquet _ => FkFormatReadError
  | CoreInspect _ => FkProbeDecodeError
  | Unsupported _ => FkUnsupportedFormat
  | CoreReportValidation _ | CorePlugin _ => FkInternalEngineError
  end.

(** What the loop over the assets adds for one asset. *)
Record AssetOutcome := {
  out_record : ScanAsset;
  out_inspection : option ParquetInspection;
  out_failure : option CoreError;
  out_findings : list ScanFinding;
  out_skipped : bool;
}.

Definition base_record (a : ResolvedAsset) : ScanAsset := {|
  sa_path := ra_path a; sa_format := ra_format a; sa_size_bytes := ra_size_bytes a;
  sa_inspection_status := InspSkipped; sa_failure_kind := None; sa_failure_message := None; sa_dataset_id := None;
  sa_probe := None; sa_inspection_hints := None |}.

Definition inspected_record (a : ResolvedAsset) (probe : option ShallowInspectOutcome) : ScanAsset := {|
  sa_path := ra_path a; sa_format := ra_format a; sa_size_bytes := ra_size_bytes a;
  sa_inspection_status := Inspected; sa_failure_kind := None; sa_failure_message := None; sa_dataset_id := None;
  sa_probe := so_probe <$> probe; sa_inspection_hints := so_hints <$> probe |}.

Definition failed_record (a : ResolvedAsset) (e : CoreError) : ScanAsset := {|
  sa_path := ra_path a; sa_format := ra_format a; sa_size_bytes := ra_size_bytes a;
  sa_inspection_status := InspFailed; sa_failure_kind := Some (failure_kind e);
  sa_failure_message := Some (core_error_display e); sa_dataset_id := None;
  sa_probe := None; sa_inspection_hints := None |}.

Definition with_dataset_id (r : ScanAsset) (id : string) : ScanAsset := {|
  sa_path := sa_path r; sa_format := sa_format r; sa_size_bytes := sa_size_bytes r;
  sa_inspection_status := sa_inspection_status r; sa_failure_kind := sa_failure_kind r;
  sa_failure_message := sa_failure_message r; sa_dataset_id := Some id; sa_probe := sa_probe r;
  sa_inspection_hints := sa_inspection_hints r |}.

Section Engine.
Context `{ScanFs} `{ParquetCrate} `{Digests} `{UuidSupply}.
(** [Utc::now()] when the report is assembled. *)
Context (now : Z).

Definition inspect_parquet_asset (p : string) : Result CoreError ParquetInspection :=
  inspect_parquet_path (_ ← sfs_open p; sfs_contents p).

(** A text asset: the probe's record and findings; [partial] decides from the
    confidence whether the second finding is added. *)
Definition text_outcome (a : ResolvedAsset) (r : Result CoreError ShallowInspectOutcome)
    (partial : ParseConfidence -> bool) (reason : string) : Fresh AssetOutcome :=
  match r with
  | Ok out =>
      f ← text_probe_bounded_finding (ra_path a) (so_hints out) (so_probe out);
      fs ← (if partial (parse_confidence (so_probe out))
            then g ← inspection_partial_finding (ra_path a) reason; mret [g] else mret []);
      mret {| out_record := inspected_record a (Some out); out_inspection := None; out_failure := None;
              out_findings := f :: fs; out_skipped := false |}
  | Err e =>
      mret {| out_record := failed_record a e; out_inspection := None; out_failure := None; out_findings := [];
              out_skipped := false |}
  end.

Definition partial_or_low (c : ParseConfidence) : bool :=
  match c with ConfPartial | ConfLow => true | ConfHigh => false end.

Definition inspect_one (a : ResolvedAsset) : Fresh AssetOutcome :=
  match ra_format a with
  | Parquet =>
      mret match inspect_parquet_asset (ra_path a) with
           | Ok i => {| out_record := inspected_record a None; out_inspection := Some i; out_failure := None;
                        out_findings := []; out_skipped := false |}
           | Err e => {| out_record := failed_record a e; out_inspection := None; out_failure := Some e;
                         out_findings := []; out_skipped := false |}
           end
  | Csv => text_outcome a (inspect_csv_shallow (ra_path a)) partial_or_low
             "csv shallow probe used partial coverage or low-confidence parse"
  | Inventory.Json => text_outcome a (inspect_json_like_shallow (ra_path a) false) partial_or_low
              "json probe used bounded bytes or partial structural parse"
  | Ndjson => text_outcome a (inspect_json_like_shallow (ra_path a) true) (fun _ => true)
                "ndjson probe evaluates first non-empty line only"
  | UnknownFormat =>
      mret {| out_record := base_record a; out_inspection := None; out_failure := None; out_findings := [];
              out_skipped := true |}
  end.

Definition resolved_leb (a b : ResolvedAsset) : bool := path_leb (ra_path a) (ra_path b).

(** [path_to_dataset]: a later entry of a path wins. *)
Definition path_to_dataset (datasets : list Dataset) : pmap string :=
  pm_of_list (flat_map (fun d => map (fun f => (df_path f, ds_dataset_id d)) (ds_files d)) datasets).

Definition assign_dataset (m : pmap string) (r : ScanAsset) : ScanAsset :=
  if bool_decide (sa_inspection_status r = Inspected) && bool_decide (sa_format r = Parquet) then
    match pm_get (sa_path r) m with Some id => with_dataset_id r id | None => r end
  else r.

Definition dominant_format_in_dataset (assets : list ResolvedAsset) (d : Dataset) : DataFormat :=
  dominant_format (filter (fun a => existsb (fun f => path_eqb (df_path f) (ra_path a)) (ds_files d) = true) assets).

(** The declaration order of the formats. *)
Definition format_rank (f : DataFormat) : nat :=
  match f with Parquet => 0 | Csv => 1 | Inventory.Json => 2 | Ndjson => 3 | UnknownFormat => 4 end.

(** [*m.entry(f).or_insert(0) += 1] on a map keyed by formats. *)
Fixpoint bump_format (f : DataFormat) (m : list FormatSummary) : list FormatSummary :=
  match m with
  | [] => [{| fsum_format := f; fsum_file_count := 1 |}]
  | s :: m' =>
      if decide (fsum_format s = f) then {| fsum_format := f; fsum_file_count := fsum_file_count s + 1 |} :: m'
      else if format_rank f <? format_rank (fsum_format s) then {| fsum_format := f; fsum_file_count := 1 |} :: m
      else s :: bump_format f m'
  end.

Definition summarize_formats (assets : list ResolvedAsset) : list FormatSummary :=
  fold_left (fun m a => bump_format (ra_format a) m) assets [].

Definition count_severities (fs : list ScanFinding) : bmap Z :=
  fold_left (fun m f => bm_insert (severity_name (sf_severity f))
                          (default 0%Z (bm_get (severity_name (sf_severity f)) m) + 1)%Z m) fs [].

Definition finding_code_leb (a b : ScanFinding) : bool := str_leb (sf_code a) (sf_code b).

(** The findings added after the loop, in the order they are pushed. *)
Definition extra_findings (request : ScanRequest) (plan : ScanPlan) (outcomes : list AssetOutcome)
    (failures : list (string * CoreError)) (skipped : list string) (notes : list AnchorInferenceNote)
    (datasets : list Dataset) : Fresh (list ScanFinding) :=
  failed ← fresh_map (fun '(p, e) => parquet_read_failed_finding p e) failures;
  truncated ← fresh_map (fun _ : unit => scan_truncated_finding (plan_scan_root plan) (max_files (req_options request)))
                (if plan_truncated plan then [tt] else []);
  skipped ← fresh_map (fun _ : unit => inspection_skipped_aggregate_finding (Z.of_nat (length skipped)) skipped)
              (if 0 <? length skipped then [tt] else []);
  ambiguous ← grouping_ambiguous_from_notes notes;
  several ← fresh_map (fun _ : unit => multiple_datasets_finding (plan_scan_root plan) (length datasets))
              (if 2 <=? length datasets then [tt] else []);
  unpartitioned ← fresh_map (fun d => unpartitioned_collection_finding (ds_dataset_id d) (length (ds_files d)))
    (filter (fun d => ds_partition_layout d = Unpartitioned /\ 2 <= length (ds_files d)) datasets);
  mret (flat_map out_findings outcomes ++ failed ++ truncated ++ skipped ++ ambiguous ++ several ++ unpartitioned).

Definition scan_summary (truncated : bool) (records : list ScanAsset) (datasets : list Dataset)
    (findings : list ScanFinding) : ScanSummary :=
  let n := Z.of_nat (length records) in
  let failed := count_status InspFailed records in
  {| discovered_assets := n; files_scanned := n; inspected_assets := count_status Inspected records;
     failed_inspection_assets := failed; skipped_inspection_assets := count_status InspSkipped records;
     dataset_member_assets := count_members records; dataset_count := Z.of_nat (length datasets);
     partial_inspection := (0 <? failed)%Z || truncated; scan_truncated := truncated;
     findings_total := Z.of_nat (length findings); findings_by_severity := count_severities findings |}.

(** [engine_run] after resolution, up to the validation of the report. *)
Definition build_report (request : ScanRequest) (plan : ScanPlan) : Fresh Report :=
  let assets := sort_by resolved_leb (plan_assets plan) in
  outcomes ← fresh_map inspect_one assets;
  let inspections := pm_of_list (omap (fun o => i ← out_inspection o; Some (sa_path (out_record o), i)) outcomes) in
  let failures := omap (fun o => e ← out_failure o; Some (sa_path (out_record o), e)) outcomes in
  let skipped := map (fun o => sa_path (out_record o)) (filter (fun o => out_skipped o = true) outcomes) in
  let '(datasets, notes) :=
    infer_parquet_datasets (fun p => result_ok (sfs_metadata p)) plan (map fst inspections) inspections in
  let records := map (fun o => assign_dataset (path_to_dataset datasets) (out_record o)) outcomes in
  extra ← extra_findings request plan outcomes failures skipped notes datasets;
  rules ← evaluate_scan_rules plan assets inspections datasets;
  let findings := sort_by finding_code_leb (rules ++ extra) in
  mret {| rep_request := request;
          rep_metadata := {| meta_scan_id := req_scan_id request; meta_generated_at := now;
            meta_contract_schema := CONTRACT_SCHEMA_VERSION; meta_report_format := REPORT_FORMAT_VERSION;
            meta_engine_revision := Some "phase-3" |};
          rep_summary := scan_summary (plan_truncated plan) records datasets findings;
          rep_assets := records; rep_datasets := datasets;
          rep_dataset_summaries := map (fun d => {| dsum_dataset_id := ds_dataset_id d;
            dsum_file_count := Z.of_nat (length (ds_files d));
            dsum_dominant_format := dominant_format_in_dataset assets d |}) datasets;
          rep_format_summaries := summarize_formats assets; rep_findings := findings |}.

(** [ScanEngine::run]. *)
Definition engine_run (request : ScanRequest) : Fresh (Result CoreError Report) :=
  match resolve_local_scan_plan (req_target request) (req_options request) with
  | Err e => mret (Err e)
  | Ok plan =>
      report ← build_report request plan;
      mret (_ ← map_err (fun e => CoreReportValidation (validation_error_display e)) (validate_report report);
            Ok report)
  end.
End Engine.
