(* ===== verification/ScanProofs.v ===== *)
(** The scan engine: every report it assembles passes validation, the report does
    not depend on the order of the directory walk, resolution respects the file
    cap, and the findings are well formed.  Module [Remote] is the scan of a remote
    dataset (src/crates/parqonaut-repair/src/storage_scan.rs). *)

From Stdlib Require Import Ascii.
From S2P Require Import Prelude Errors Memory Publication RemoteInventory.
From S2P Require Import BTree Location Schema RepairPlan Backend Inventory RepairExec Execute AuthStore Application ParquetFooter ScanTypes ScanInfer ScanRules ScanEngine.

(** * Loops that draw ids *)

Ltac fresh_simpl := unfold mbind, mret, Fresh_bind, Fresh_ret.

Lemma fresh_map_Forall2 {A B} (f : A -> Fresh B) l n bs n' :
  fresh_map f l n = (bs, n') -> Forall2 (fun a b => exists m m', f a m = (b, m')) l bs.
Proof.
  revert n bs. induction l as [|a l IH]; intros n bs; cbn [fresh_map]; fresh_simpl.
  - intros [= <- <-]. constructor.
  - destruct (f a n) as [b m] eqn:Ea. destruct (fresh_map f l m) as [bs' m'] eqn:El.
    intros [= <- <-]. constructor; [eauto|]. by eapply IH.
Qed.

Lemma fresh_map_Forall {A B} (f : A -> Fresh B) (P : B -> Prop) l n :
  (forall a m, a ∈ l -> P (fst (f a m))) -> Forall P (fst (fresh_map f l n)).
Proof.
  revert n. induction l as [|a l IH]; intros n Hf; cbn [fresh_map]; fresh_simpl; [constructor|].
  pose proof (Hf a n ltac:(set_solver)) as Ha. destruct (f a n) as [b m].
  specialize (IH m ltac:(set_solver)). destruct (fresh_map f l m) as [bs m']. cbn in *. by constructor.
Qed.

(** * Records of assets *)

(** Error texts are never blank. *)
Lemma trim_start_nonempty f s : (exists c, f c = false /\ has_char c s = true) -> trim_start f s <> EmptyString.
Proof.
  intros (c & Hc & Hs). induction s as [|d s IH]; simpl in *; [done|].
  destruct (f d) eqn:Ed; [|done]. apply IH. apply orb_true_iff in Hs as [Hs|Hs]; [|done].
  apply bool_decide_eq_true in Hs. congruence.
Qed.

Lemma trim_end_nonempty f c s : f c = false -> trim_end f (String c s) <> EmptyString.
Proof. intros Hc. simpl. destruct (trim_end f s); [by rewrite Hc|done]. Qed.

Lemma trim_nonempty c s : Ascii.is_space c = false -> trim (String c s) <> EmptyString.
Proof. intros Hc. unfold trim. simpl. rewrite Hc. by apply trim_end_nonempty. Qed.

Section Engine.
Context `{ScanFs} `{ParquetCrate} `{Digests} `{UuidSupply}.

(** What inspecting an asset fixes of its outcome. *)
Record outcome_of (a : ResolvedAsset) (o : AssetOutcome) : Prop := {
  oo_path : sa_path (out_record o) = ra_path a;
  oo_format : sa_format (out_record o) = ra_format a;
  oo_consistent : asset_consistent (out_record o) = true;
  oo_no_dataset : sa_dataset_id (out_record o) = None;
  oo_parquet : is_Some (out_inspection o) -> ra_format a = Parquet;
  oo_inspected : is_Some (out_inspection o) -> sa_inspection_status (out_record o) = Inspected;
}.

Lemma failed_record_consistent a e : (exists m, e = CoreIo m \/ e = CoreParquet m \/ e = CoreInspect m) ->
  asset_consistent (failed_record a e) = true.
Proof.
  intros (m & He). unfold asset_consistent. cbn [failed_record sa_inspection_status sa_failure_kind sa_failure_message default].
  rewrite bool_decide_eq_true_2 by eauto. rewrite bool_decide_eq_false_2; [done|].
  destruct He as [->|[->| ->]]; cbn [core_error_display]; sapp; by apply trim_nonempty.
Qed.

(** The probes fail with I/O, Parquet or parse errors only. *)
Lemma map_err_kind {E A B} (f : string -> E) (r : Result string A) (k : A -> Result E B) e (P : E -> Prop) :
  (forall m, P (f m)) -> (forall a e, k a = Err e -> P e) -> (a ← map_err f r; k a) = Err e -> P e.
Proof. intros Hf Hk. destruct r; simpl; [by apply Hk|]. intros [= <-]. apply Hf. Qed.

Definition probe_error (e : CoreError) : Prop := exists m, e = CoreIo m \/ e = CoreParquet m \/ e = CoreInspect m.

Lemma probe_error_io m : probe_error (CoreIo m). Proof. exists m. auto. Qed.
Lemma probe_error_parquet m : probe_error (CoreParquet m). Proof. exists m. auto. Qed.
Lemma probe_error_inspect m : probe_error (CoreInspect m). Proof. exists m. auto. Qed.
Hint Resolve probe_error_io probe_error_parquet probe_error_inspect : core.

Lemma read_head_error p n e : read_head_bytes p n = Err e -> probe_error e.
Proof.
  unfold read_head_bytes. apply map_err_kind; [auto|]. intros _ e1. apply map_err_kind; [auto|].
  intros ? e2. by apply map_err_kind; [auto|].
Qed.

Lemma inspect_csv_error p e : inspect_csv_shallow p = Err e -> probe_error e.
Proof.
  unfold inspect_csv_shallow. destruct (read_head_bytes p HEAD_BYTES) as [[buf size]|e'] eqn:E; cbn [mbind Result_bind].
  - repeat (case_match || case_decide); discriminate.
  - intros [= <-]. by eapply read_head_error.
Qed.

Lemma inspect_json_error p nd e : inspect_json_like_shallow p nd = Err e -> probe_error e.
Proof.
  unfold inspect_json_like_shallow. destruct (read_head_bytes p HEAD_BYTES) as [[buf size]|e'] eqn:E; cbn [mbind Result_bind].
  - destruct (probe_common _ _). destruct (if nd then _ else _) as [[[h c] no]|e'] eqn:Ej; cbn [mbind Result_bind]; [done|].
    intros [= <-]. destruct nd; revert Ej.
    + unfold ndjson_hints. case_decide; [done|]. by apply map_err_kind; auto.
    + unfold json_hints. apply map_err_kind; [auto|]. intros v e0. by destruct (_ <? _)%Z.
  - intros [= <-]. by eapply read_head_error.
Qed.

Lemma inspect_parquet_error p e : inspect_parquet_asset p = Err e -> probe_error e.
Proof.
  unfold inspect_parquet_asset, inspect_parquet_path. apply map_err_kind; [auto|].
  intros b e'. unfold inspect_parquet_chunk_reader. by apply map_err_kind; auto.
Qed.

Lemma text_outcome_of a r partial reason n : ra_format a <> Parquet -> (forall e, r = Err e -> probe_error e) ->
  outcome_of a (fst (text_outcome a r partial reason n)).
Proof.
  intros Hf He. unfold text_outcome. destruct r as [out|e].
  - destruct (partial _); cbn; constructor; cbn; try done; try by intros [? ?].
  - cbn. constructor; cbn [out_record out_inspection failed_record sa_path sa_format sa_dataset_id];
      try done; try by intros [? ?]. by apply failed_record_consistent, He.
Qed.

Lemma inspect_one_of a n : outcome_of a (fst (inspect_one a n)).
Proof.
  unfold inspect_one. destruct (ra_format a) eqn:Ef; try (apply text_outcome_of; [congruence|];
    eauto using inspect_csv_error, inspect_json_error).
  - cbn. destruct (inspect_parquet_asset (ra_path a)) as [i|e] eqn:E; constructor;
      cbn [out_record out_inspection failed_record inspected_record sa_path sa_format sa_dataset_id
           sa_inspection_status]; try done; try by intros [? ?].
    by apply failed_record_consistent, (inspect_parquet_error (ra_path a)).
  - cbn. constructor; cbn; try done; try by intros [? ?].
Qed.

Lemma outcomes_of assets n : Forall2 outcome_of assets (fst (fresh_map inspect_one assets n)).
Proof.
  destruct (fresh_map inspect_one assets n) as [os n'] eqn:E. apply fresh_map_Forall2 in E.
  eapply Forall2_impl; [exact E|]. intros a o (m & m' & Ho). pose proof (inspect_one_of a m) as Hi.
  by rewrite Ho in Hi.
Qed.

(** * Membership *)

Definition inspections_of (os : list AssetOutcome) : pmap ParquetInspection :=
  pm_of_list (omap (fun o => i ← out_inspection o; Some (sa_path (out_record o), i)) os).

Definition datasets_of (plan : ScanPlan) (os : list AssetOutcome) : list Dataset :=
  fst (infer_parquet_datasets (fun p => result_ok (sfs_metadata p)) plan (map fst (inspections_of os)) (inspections_of os)).

Definition records_of (datasets : list Dataset) (os : list AssetOutcome) : list ScanAsset :=
  map (fun o => assign_dataset (path_to_dataset datasets) (out_record o)) os.

Lemma dataset_pairs_paths datasets :
  map fst (flat_map (fun d => map (fun f => (df_path f, ds_dataset_id d)) (ds_files d)) datasets)
  = concat (map ds_paths datasets).
Proof.
  induction datasets as [|d ds IH]; simpl; [done|]. rewrite map_app, IH, map_map. done.
Qed.

Lemma datasets_of_paths plan os : concat (map ds_paths (datasets_of plan os)) ≡ₚ map fst (inspections_of os).
Proof.
  apply infer_partition. apply Forall_forall. intros p Hp. by apply pm_get_of_key.
Qed.

(** The map from paths to datasets answers with the dataset of the path. *)
Lemma path_to_dataset_get plan os d p : d ∈ datasets_of plan os -> p ∈ ds_paths d ->
  pm_get p (path_to_dataset (datasets_of plan os)) = Some (ds_dataset_id d).
Proof.
  intros Hd Hp. apply pm_of_list_get_nodup.
  - rewrite dataset_pairs_paths. rewrite (datasets_of_paths plan os). apply path_lt_nodup, pm_of_list_wf.
  - unfold ds_paths in Hp. apply list_elem_of_fmap in Hp as (f & -> & Hf). apply list_elem_of_In, in_flat_map.
    exists d. split; [by apply list_elem_of_In|]. apply in_map_iff. exists f. split; [done|]. by apply list_elem_of_In.
Qed.

(** A path of a dataset is the path of an inspected Parquet outcome. *)
Lemma dataset_path_outcome plan assets os d p : Forall2 outcome_of assets os -> d ∈ datasets_of plan os ->
  p ∈ ds_paths d -> exists o, o ∈ os /\ sa_path (out_record o) = p /\
    sa_inspection_status (out_record o) = Inspected /\ sa_format (out_record o) = Parquet.
Proof.
  intros Hos Hd Hp. assert (p ∈ map fst (inspections_of os)) as Hin.
  { rewrite <- (datasets_of_paths plan os), <- flat_map_concat_map, list_elem_of_In, in_flat_map.
    exists d. by rewrite <- !list_elem_of_In. }
  apply pm_of_list_keys in Hin. apply list_elem_of_fmap in Hin as ([p' i] & -> & Ho).
  apply list_elem_of_omap in Ho as (o & Ho & Hi). destruct (out_inspection o) as [i'|] eqn:Ei; [|done].
  cbn in Hi. injection Hi as <- <-. exists o. split; [done|]. split; [done|].
  apply list_elem_of_lookup in Ho as [k Hk]. destruct (Forall2_lookup_r _ _ _ _ _ Hos Hk) as (a & _ & Hoa).
  destruct Hoa as [_ Hf _ _ Hpq Hst]. split; [apply Hst; rewrite Ei; eauto|]. rewrite Hf. apply Hpq. rewrite Ei. eauto.
Qed.

(** A collected map whose entries at a key all agree. *)
Lemma bm_of_list_get_agree {V} k (v : V) l : (k, v) ∈ l -> (forall v', (k, v') ∈ l -> v' = v) ->
  bm_get k (bm_of_list l) = Some v.
Proof.
  unfold bm_of_list. generalize ([] : bmap V). intros m Hin Hag.
  assert (forall m l, (forall v', (k, v') ∈ l -> v' = v) -> bm_get k m = Some v \/ (k, v) ∈ l ->
            bm_get k (fold_left (fun m kv => bm_insert (fst kv) (snd kv) m) l m) = Some v) as Hk.
  { clear. intros m l. revert m. induction l as [|[k1 v1] l IH]; intros m Hag Hor; simpl.
    - destruct Hor as [|Hin]; [done|set_solver].
    - apply IH; [set_solver|]. rewrite bm_get_insert. case_decide; subst.
      + left. f_equal. apply Hag. set_solver.
      + destruct Hor as [|Hin]; [by left|]. apply elem_of_cons in Hin as [[=]|]; [by subst|by right]. }
  apply Hk; auto.
Qed.

Lemma assign_dataset_path m r : sa_path (assign_dataset m r) = sa_path r.
Proof. unfold assign_dataset. by destruct (_ && _), (pm_get (sa_path r) m). Qed.

Lemma assign_dataset_id m r id : sa_dataset_id r = None -> sa_dataset_id (assign_dataset m r) = Some id ->
  pm_get (sa_path r) m = Some id.
Proof. unfold assign_dataset. destruct (_ && _), (pm_get (sa_path r) m); cbn; congruence. Qed.

Lemma membership_of plan assets os d : Forall2 outcome_of assets os -> d ∈ datasets_of plan os ->
  members_agree (membership (records_of (datasets_of plan os) os)) d = true.
Proof.
  intros Hos Hd. apply forallb_forall. intros f Hf%list_elem_of_In. apply bool_decide_eq_true.
  set (m := path_to_dataset (datasets_of plan os)).
  assert (df_path f ∈ ds_paths d) as Hp by (by apply (list_elem_of_fmap_2 df_path)).
  destruct (dataset_path_outcome _ _ _ _ _ Hos Hd Hp) as (o & Ho & Hpath & Hst & Hfmt).
  pose proof (path_to_dataset_get plan os d _ Hd Hp) as Hget. fold m in Hget.
  apply bm_of_list_get_agree.
  - apply list_elem_of_omap. exists (assign_dataset m (out_record o)). split.
    + unfold records_of. fold m. apply list_elem_of_In, in_map_iff. exists o. split; [done|]. by apply list_elem_of_In.
    + unfold assign_dataset. rewrite Hst, Hfmt, Hpath, Hget. simpl. by rewrite Hpath.
  - intros v' Hv. apply list_elem_of_omap in Hv as (r & Hr & Hv). apply list_elem_of_fmap in Hr as (o' & -> & Ho').
    apply list_elem_of_lookup in Ho' as [k Hk]. destruct (Forall2_lookup_r _ _ _ _ _ Hos Hk) as (a & _ & Hoa).
    destruct (sa_dataset_id (assign_dataset _ _)) as [id|] eqn:E; [|done]. cbn [mbind option_bind] in Hv.
    apply assign_dataset_id in E; [|apply (oo_no_dataset _ _ Hoa)].
    rewrite assign_dataset_path in Hv. injection Hv as Heq <-. rewrite Heq in E. unfold m in Hget. congruence.
Qed.

(** * Validation *)

Lemma count_status_sum l :
  (count_status Inspected l + count_status InspFailed l + count_status InspSkipped l = Z.of_nat (length l))%Z.
Proof.
  unfold count_status. induction l as [|a l IH]; [done|]. cbn [length].
  destruct (sa_inspection_status a) eqn:E;
    repeat ((rewrite filter_cons_True by congruence) || (rewrite filter_cons_False by congruence));
    cbn [length]; lia.
Qed.

Lemma assign_dataset_consistent m r : sa_dataset_id r = None -> asset_consistent r = true ->
  asset_consistent (assign_dataset m r) = true.
Proof.
  unfold assign_dataset. intros Hn Hc. destruct (bool_decide (sa_inspection_status r = Inspected)) eqn:E; [|done].
  apply bool_decide_eq_true in E. destruct (bool_decide _); cbn [andb]; [|done].
  destruct (pm_get (sa_path r) m); [|done]. revert Hc. unfold asset_consistent. cbn. by rewrite E.
Qed.

Lemma records_consistent datasets assets os : Forall2 outcome_of assets os ->
  forallb asset_consistent (records_of datasets os) = true.
Proof.
  intros Hos. apply forallb_forall. intros r Hr%list_elem_of_In. apply list_elem_of_fmap in Hr as (o & -> & Ho).
  apply list_elem_of_lookup in Ho as [k Hk]. destruct (Forall2_lookup_r _ _ _ _ _ Hos Hk) as (a & _ & []).
  by apply assign_dataset_consistent.
Qed.

(** The parts of an assembled report that validation reads. *)
Lemma build_report_parts now request plan n : let r := fst (build_report now request plan n) in
  let os := fst (fresh_map inspect_one (sort_by resolved_leb (plan_assets plan)) n) in
  rep_request r = request /\ meta_scan_id (rep_metadata r) = req_scan_id request /\
  rep_assets r = records_of (datasets_of plan os) os /\ rep_datasets r = datasets_of plan os /\
  rep_summary r = scan_summary (plan_truncated plan) (rep_assets r) (rep_datasets r) (rep_findings r).
Proof.
  unfold build_report. fresh_simpl. destruct (fresh_map inspect_one _ n) as [os n1] eqn:Eo.
  cbn [fst]. unfold records_of, datasets_of. fold (inspections_of os).
  destruct (infer_parquet_datasets _ _ _ _) as [ds notes].
  destruct (extra_findings _ _ _ _ _ _ _ n1) as [extra n2]. destruct (evaluate_scan_rules _ _ _ _ n2) as [rules n3].
  done.
Qed.

(** Validation accepts a report whose parts come from the outcomes of its assets. *)
Lemma parts_valid request plan assets os truncated r : Forall2 outcome_of assets os ->
  rep_request r = request -> meta_scan_id (rep_metadata r) = req_scan_id request ->
  rep_assets r = records_of (datasets_of plan os) os -> rep_datasets r = datasets_of plan os ->
  rep_summary r = scan_summary truncated (rep_assets r) (rep_datasets r) (rep_findings r) ->
  validate_report r = Ok tt.
Proof.
  intros Hos Hreq Hid Hassets Hds Hsum. unfold validate_report. rewrite Hid, Hreq, Hsum. unfold scan_summary.
  cbn [findings_total dataset_count partial_inspection failed_inspection_assets scan_truncated discovered_assets
       files_scanned inspected_assets skipped_inspection_assets dataset_member_assets].
  rewrite bool_decide_eq_true_2, !Z.eqb_refl, Bool.eqb_reflx by done. cbn [negb orb].
  rewrite Hassets at 1. rewrite (records_consistent _ _ _ Hos). cbn [negb].
  rewrite count_status_sum, Z.eqb_refl. cbn [negb]. rewrite Hds, Hassets.
  destruct (forallb _ (datasets_of plan os)) eqn:E; [done|]. apply not_true_iff_false in E. destruct E.
  apply forallb_forall. intros d Hd%list_elem_of_In. by eapply membership_of.
Qed.

Lemma build_report_valid now request plan n : validate_report (fst (build_report now request plan n)) = Ok tt.
Proof.
  destruct (build_report_parts now request plan n) as (Hreq & Hid & Hassets & Hds & Hsum).
  by eapply parts_valid; [apply outcomes_of|..].
Qed.

(** ** Claims *)

(** C13: A scan fails only when its target cannot be resolved: once it is, the
    pipeline returns a report, and that report satisfies every check of
    [validate_report]. *)
Theorem engine_report_always_valid now request n :
  match resolve_local_scan_plan (req_target request) (req_options request) with
  | Ok plan => exists report n', engine_run now request n = (Ok report, n') /\ validate_report report = Ok tt
                 /\ length (rep_assets report) = length (plan_assets plan)
  | Err e => engine_run now request n = (Err e, n)
  end.
Proof.
  unfold engine_run. destruct (resolve_local_scan_plan _ _) as [plan|e]; [|done].
  pose proof (build_report_valid now request plan n) as Hv.
  pose proof (build_report_parts now request plan n) as Hp. cbn zeta in Hp.
  pose proof (outcomes_of (sort_by resolved_leb (plan_assets plan)) n) as Hos. apply Forall2_length in Hos.
  unfold mbind at 1, Fresh_bind, mret, Fresh_ret. destruct (build_report now request plan n) as [r n'].
  cbn [fst] in *. rewrite Hv. cbn. exists r, n'. split; [done|]. split; [done|].
  destruct Hp as (_ & _ & -> & _). unfold records_of. rewrite length_map, <- Hos. by rewrite sort_by_perm.
Qed.

(** Plans with the same root and truncation flag, and the same assets in any order,
    give the same report, findings and ids included. *)
Lemma report_order_independent now request plan1 plan2 n :
  plan_scan_root plan1 = plan_scan_root plan2 -> plan_truncated plan1 = plan_truncated plan2 ->
  plan_assets plan1 ≡ₚ plan_assets plan2 -> NoDup (map (fun a => components (ra_path a)) (plan_assets plan1)) ->
  build_report now request plan1 n = build_report now request plan2 n.
Proof.
  intros Hr Ht Hp Hnd. unfold build_report.
  assert (sort_by resolved_leb (plan_assets plan1) = sort_by resolved_leb (plan_assets plan2)) as ->
    by by apply (sort_by_path_unique ra_path).
  fresh_simpl. destruct (fresh_map inspect_one _ n) as [os n1]. unfold infer_parquet_datasets. rewrite Hr.
  unfold extra_findings, evaluate_scan_rules. by rewrite Hr, Ht.
Qed.
End Engine.

(** * Scans of a location (storage_scan.rs, [scan_directory] of verify.rs) *)

Module Remote.

(** ** The cached inspection of a remote file *)

Definition row_group_json (g : RowGroupSummary) : json := JObj [
  ("index", JNum (Z.of_nat (rg_index g))); ("num_rows", JNum (rg_num_rows g));
  ("compressed_size", JNum (compressed_size g)); ("total_byte_size", JNum (total_byte_size g))].

Definition field_json (f : FieldDefinition) : json := JObj [
  ("name", JStr (def_name f)); ("logical_type", JStr (def_logical_type f)); ("nullable", JBool (def_nullable f))].

Definition parquet_inspection_hints (i : ParquetInspection) : json := JObj [("parqonaut_parquet_inspection", JObj [
  ("num_rows", JNum (insp_num_rows i)); ("num_row_groups", JNum (Z.of_nat (insp_num_row_groups i)));
  ("row_groups", JArr (map row_group_json (row_groups i)));
  ("schema", JObj [("fields", JArr (map field_json (insp_fields i)))]);
  ("compression_codecs", JArr (map JStr (bm_keys (insp_compression_codecs i))));
  ("statistics_present", JBool (statistics_present i))])].

(** ** Inspection *)

Definition scan_storage_err (e : StorageError) : RepairError := ScanFailed (storage_error_display e).
Definition core_storage_err (e : StorageError) : CoreError := CoreParquet (storage_error_display e).

Section Inspect.
Context `{UrlParser} `{ParquetCrate}.

Definition object_location_from_display_uri (uri : string) : Result CoreError ObjectLocation :=
  match strip_prefix "s3://" uri with
  | Some rest =>
      '(b, k) ← ok_or (split_once "/"%char rest) (CoreParquet ("invalid S3 object URI: " +:+ uri));
      if decide (k = EmptyString) then Err (CoreParquet ("invalid S3 object URI (missing key): " +:+ uri))
      else Ok (S3Object b k)
  | None =>
      match url_parse uri with
      | Ok url =>
          if decide (scheme url = "file") then
            p ← ok_or (to_file_path url) (CoreParquet ("invalid file URI: " +:+ uri));
            if utf8_valid p then Ok (LocalObject p) else Err (CoreParquet ("non-UTF8 file URI: " +:+ uri))
          else Ok (LocalObject uri)
      | Err _ => Ok (LocalObject uri)
      end
  end.

Definition inspect_remote_parquet (p : string) (object_size : Z) : prog (Result CoreError ParquetInspection) :=
  match object_location_from_display_uri p with
  | Err e => Ret (Err e)
  | Ok object =>
      r ← read_parquet_footer object;
      Ret ('(f, _) ← map_err core_storage_err r; inspect_parquet_footer_buffer object_size (footer f))
  end.

(** The body of the loop over the assets. *)
Definition remote_failed_record (a : ResolvedAsset) (e : CoreError) : ScanAsset := {|
  sa_path := ra_path a; sa_format := ra_format a; sa_size_bytes := ra_size_bytes a;
  sa_inspection_status := InspFailed; sa_failure_kind := Some FkFormatReadError;
  sa_failure_message := Some (core_error_display e); sa_dataset_id := None;
  sa_probe := None; sa_inspection_hints := None |}.

Definition remote_inspected_record (a : ResolvedAsset) (i : ParquetInspection) : ScanAsset := {|
  sa_path := ra_path a; sa_format := ra_format a; sa_size_bytes := ra_size_bytes a;
  sa_inspection_status := Inspected; sa_failure_kind := None; sa_failure_message := None; sa_dataset_id := None;
  sa_probe := None; sa_inspection_hints := Some (parquet_inspection_hints i) |}.

Definition remote_outcome (a : ResolvedAsset) (r : Result CoreError ParquetInspection) : AssetOutcome :=
  match r with
  | Ok i => {| out_record := remote_inspected_record a i; out_inspection := Some i; out_failure := None;
               out_findings := []; out_skipped := false |}
  | Err e => {| out_record := remote_failed_record a e; out_inspection := None; out_failure := Some e;
                out_findings := []; out_skipped := false |}
  end.

Definition remote_inspect_one (a : ResolvedAsset) : prog AssetOutcome :=
  if decide (ra_format a = Parquet) then
    r ← inspect_remote_parquet (ra_path a) (ra_size_bytes a); Ret (remote_outcome a r)
  else Ret {| out_record := base_record a; out_inspection := None; out_failure := None; out_findings := []; out_skipped := false |}.

Fixpoint remote_inspect_all (assets : list ResolvedAsset) : prog (list AssetOutcome) :=
  match assets with
  | [] => Ret []
  | a :: assets => o ← remote_inspect_one a; os ← remote_inspect_all assets; Ret (o :: os)
  end.
End Inspect.

(** ** The report *)

Definition remote_assets (location : DatasetLocation) (inventory : RemoteInventory.Inventory) : list ResolvedAsset :=
  sort_by resolved_leb (omap (fun o =>
    relative ← dataset_object_relative_key location (md_location o);
    Some {| ra_path := object_display_uri (md_location o); ra_format := classify_format_from_path relative;
            ra_size_bytes := md_size o |}) (inv_objects inventory)).

Section Scan.
Context `{ScanFs} `{ParquetCrate} `{Digests} `{UuidSupply} `{UrlParser}.
Context (now : Z).

(** From the outcomes of the assets to the report. *)
Definition remote_report (request : ScanRequest) (plan : ScanPlan) (outcomes : list AssetOutcome) : Fresh Report :=
  let assets := plan_assets plan in
  let inspections := pm_of_list (omap (fun o => i ← out_inspection o; Some (sa_path (out_record o), i)) outcomes) in
  let failures := omap (fun o => e ← out_failure o; Some (sa_path (out_record o), e)) outcomes in
  let '(datasets, notes) :=
    infer_parquet_datasets (fun p => result_ok (sfs_metadata p)) plan (map fst inspections) inspections in
  let records := map (fun o => assign_dataset (path_to_dataset datasets) (out_record o)) outcomes in
  extra ← extra_findings request plan outcomes failures [] notes datasets;
  rules ← evaluate_scan_rules plan assets inspections datasets;
  let findings := sort_by finding_code_leb (rules ++ extra) in
  mret {| rep_request := request;
          rep_metadata := {| meta_scan_id := req_scan_id request; meta_generated_at := now;
            meta_contract_schema := CONTRACT_SCHEMA_VERSION; meta_report_format := REPORT_FORMAT_VERSION;
            meta_engine_revision := Some "phase-5-storage-scan" |};
          rep_summary := scan_summary false records datasets findings;
          rep_assets := records; rep_datasets := datasets;
          rep_dataset_summaries := map (fun d => {| dsum_dataset_id := ds_dataset_id d;
            dsum_file_count := Z.of_nat (length (ds_files d));
            dsum_dominant_format := dominant_format_in_dataset assets d |}) datasets;
          rep_format_summaries := summarize_formats assets; rep_findings := findings |}.

Section Backend.
Context {St : Type} `{StorageBackend St} `{ListingBackend St} `{Publication.Json CommitMarker} `{Publication.Json CurrentPointer}.

(** [None] is running out of fuel over the pages of the listing. *)
Definition scan_remote_dataset (fuel : nat) (location : DatasetLocation) (st : St) (n : nat)
    : option (Result RepairError Report * (St * nat)) :=
  match list_remote_inventory fuel location st with
  | None => None
  | Some (Err e, st) => Some (Err (scan_storage_err e), (st, n))
  | Some (Ok inventory, st) =>
      let '(scan_id, n) := new_v4 n in
      match url_parse (display_uri location) with
      | Err e => Some (Err (ScanFailed e), (st, n))
      | Ok uri =>
          let request := {| req_scan_id := scan_id; req_target := ObjectStorePlaceholder uri None;
                            req_profile := ProfileStandard; req_options := default_scan_options |} in
          let plan := {| plan_scan_root := location_root location; plan_assets := remote_assets location inventory;
                         plan_truncated := false |} in
          let '(outcomes, st) := run (remote_inspect_all (plan_assets plan)) st in
          let '(report, n) := remote_report request plan outcomes n in
          Some (match validate_report report with
                | Ok _ => Ok report
                | Err e => Err (ScanFailed (validation_error_display e))
                end, (st, n))
      end
  end.

(** [scan_directory]; [is_file] is [Utf8Path::is_file]. *)
Definition scan_directory_report (is_file : string -> bool) (p : string) : Fresh (Result RepairError Report) :=
  scan_id ← new_v4;
  let request := {| req_scan_id := scan_id; req_target := if is_file p then LocalFile p else LocalDirectory p;
                    req_profile := ProfileStandard; req_options := default_scan_options |} in
  r ← engine_run now request;
  mret (map_err (fun e => ScanFailed (core_error_display e)) r).

Definition scan_dataset (is_file : string -> bool) (fuel : nat) (location : DatasetLocation) (st : St) (n : nat)
    : option (Result RepairError Report * (St * nat)) :=
  match location with
  | Local l => let '(r, n) := scan_directory_report is_file (path l) n in Some (r, (st, n))
  | S3 _ => scan_remote_dataset fuel location st n
  end.
End Backend.
End Scan.

(** ** The report of a remote scan is valid *)

Section Valid.
Context `{ScanFs} `{ParquetCrate} `{Digests} `{UuidSupply} `{UrlParser}.
Context {St : Type} `{StorageBackend St}.

Lemma footer_buffer_error size f e : inspect_parquet_footer_buffer size f = Err e -> probe_error e.
Proof.
  unfold inspect_parquet_footer_buffer. destruct (_ || _); [intros [= <-]; apply probe_error_parquet|].
  apply map_err_kind; [apply probe_error_parquet|]. intros n e1.
  destruct (negb _); [intros [= <-]; apply probe_error_parquet|].
  apply map_err_kind; [apply probe_error_parquet|done].
Qed.

Lemma object_location_error uri e : object_location_from_display_uri uri = Err e -> probe_error e.
Proof.
  unfold object_location_from_display_uri. destruct (strip_prefix _ uri) as [rest|].
  - destruct (split_once _ rest) as [[b k]|]; cbn; [|intros [= <-]; apply probe_error_parquet].
    case_decide; [intros [= <-]; apply probe_error_parquet|done].
  - destruct (url_parse uri) as [url|]; [|done]. case_decide; [|done].
    destruct (to_file_path url) as [p|]; cbn; [|intros [= <-]; apply probe_error_parquet].
    destruct (utf8_valid p); [done|intros [= <-]; apply probe_error_parquet].
Qed.

Lemma inspect_remote_error p size s e : fst (run (inspect_remote_parquet p size) s) = Err e -> probe_error e.
Proof.
  unfold inspect_remote_parquet. destruct (object_location_from_display_uri p) as [o|e'] eqn:Eo.
  - rewrite run_bind. destruct (run (read_parquet_footer o) s) as [[[f m]|e'] s1]; cbn; [apply footer_buffer_error|].
    intros [= <-]. apply probe_error_parquet.
  - cbn. intros [= <-]. by eapply object_location_error.
Qed.

Lemma remote_failed_consistent a e : probe_error e -> asset_consistent (remote_failed_record a e) = true.
Proof.
  intros (m & He). unfold asset_consistent. cbn [remote_failed_record sa_inspection_status sa_failure_kind sa_failure_message default].
  rewrite bool_decide_eq_true_2 by eauto. rewrite bool_decide_eq_false_2; [done|].
  destruct He as [->|[->| ->]]; cbn [core_error_display]; sapp; by apply trim_nonempty.
Qed.

Lemma remote_inspect_one_of a s : outcome_of a (fst (run (remote_inspect_one a) s)).
Proof.
  unfold remote_inspect_one. case_decide as Ef.
  - rewrite run_bind. pose proof (inspect_remote_error (ra_path a) (ra_size_bytes a) s) as He.
    destruct (run (inspect_remote_parquet _ _) s) as [[i|e] s1]; cbn [run fst remote_outcome]; constructor;
      cbn [out_record out_inspection remote_failed_record remote_inspected_record sa_path sa_format sa_dataset_id
           sa_inspection_status]; try done; try by intros [? ?].
    by apply remote_failed_consistent, He.
  - constructor; try done; try by intros [? ?].
Qed.

Lemma remote_outcomes_of assets s : Forall2 outcome_of assets (fst (run (remote_inspect_all assets) s)).
Proof.
  revert s. induction assets as [|a assets IH]; intros s; cbn [remote_inspect_all]; [constructor|]. rewrite run_bind.
  pose proof (remote_inspect_one_of a s) as Ha. destruct (run (remote_inspect_one a) s) as [o s1].
  rewrite run_bind. specialize (IH s1). destruct (run (remote_inspect_all assets) s1) as [os s2]. by constructor.
Qed.

Lemma remote_report_parts now request plan os n : let r := fst (remote_report now request plan os n) in
  rep_request r = request /\ meta_scan_id (rep_metadata r) = req_scan_id request /\
  rep_assets r = records_of (datasets_of plan os) os /\ rep_datasets r = datasets_of plan os /\
  rep_summary r = scan_summary false (rep_assets r) (rep_datasets r) (rep_findings r).
Proof.
  unfold remote_report, records_of, datasets_of. fold (inspections_of os). destruct (infer_parquet_datasets _ _ _ _) as [ds notes].
  fresh_simpl. destruct (extra_findings _ _ _ _ _ _ _ n) as [extra n2]. by destruct (evaluate_scan_rules _ _ _ _ n2) as [rules n3].
Qed.

Context `{ListingBackend St} `{Publication.Json CommitMarker} `{Publication.Json CurrentPointer}.

(** A scan of a remote dataset fails only when it cannot be listed or its location is
    not a URL: otherwise there is a report, validation accepts it, and it has a record
    for every object that the inventory names, readable or not. *)
Theorem remote_report_always_valid now fuel location st n :
  match list_remote_inventory fuel location st with
  | None => scan_remote_dataset now fuel location st n = None
  | Some (Err e, st') => scan_remote_dataset now fuel location st n = Some (Err (scan_storage_err e), (st', n))
  | Some (Ok inventory, st') =>
      match url_parse (display_uri location) with
      | Err e => scan_remote_dataset now fuel location st n = Some (Err (ScanFailed e), (st', S n))
      | Ok _ => exists report st'' n', scan_remote_dataset now fuel location st n = Some (Ok report, (st'', n')) /\
          validate_report report = Ok tt /\ map sa_path (rep_assets report) = map ra_path (remote_assets location inventory)
      end
  end.
Proof.
  unfold scan_remote_dataset. destruct (list_remote_inventory _ _ _) as [[[inventory|e] st']|]; [|done|done].
  cbn [new_v4]. destruct (url_parse _) as [uri|e]; [|done]. cbn [plan_assets].
  set (request := {| req_scan_id := _ |}). set (plan := {| plan_scan_root := _ |}).
  pose proof (remote_outcomes_of (remote_assets location inventory) st') as Hos.
  destruct (run (remote_inspect_all _) st') as [os st'']. cbn [fst] in Hos.
  destruct (remote_report_parts now request plan os (S n)) as (Hr & Hi & Ha & Hd & Hs).
  destruct (remote_report now request plan os (S n)) as [r n']. cbn [fst] in *.
  assert (validate_report r = Ok tt) as Hv by (by eapply parts_valid). rewrite Hv.
  exists r, st'', n'. split; [done|]. split; [done|]. rewrite Ha. unfold records_of. rewrite map_map.
  generalize (path_to_dataset (datasets_of plan os)). clear -Hos. intros m.
  induction Hos as [|a o assets os Ho _ IH]; [done|]. cbn. rewrite assign_dataset_path, (oo_path _ _ Ho). by f_equal.
Qed.
End Valid.

(** ** The cached inspection read back *)

Lemma bm_insert_last {V} k (v : V) m : (forall k', k' ∈ bm_keys m -> str_lt k' k) -> bm_insert k v m = m ++ [(k, v)].
Proof.
  induction m as [|[k0 v0] m IH]; intros Hm; [done|]. pose proof (Hm k0 ltac:(cbn; set_solver)) as Hlt. cbn.
  rewrite decide_False by (intros ->; by eapply str_lt_irrefl). rewrite decide_False; [|intros Hgt; eapply str_lt_irrefl; by etrans].
  f_equal. apply IH. intros k' Hk'. apply Hm. cbn. set_solver.
Qed.

(** A set is what collecting its elements gives. *)
Lemma bs_of_keys (m : bset) : bm_wf m -> bs_of_list (bm_keys m) = m.
Proof.
  unfold bs_of_list, bm_of_list, bm_wf. change m with ([] ++ m) at 1 3. generalize ([] : bset) as acc.
  induction m as [|[k []] m IH]; intros acc Hs; cbn in *; [by rewrite app_nil_r|]. unfold bm_keys in *. rewrite map_app in Hs. cbn in Hs.
  rewrite bm_insert_last; [replace (acc ++ (k, tt) :: m) with ((acc ++ [(k, tt)]) ++ m) by (by rewrite <- app_assoc); apply IH|].
  - rewrite !map_app. cbn. by rewrite <- app_assoc.
  - intros k' Hk'. apply StronglySorted_app_1_elem_of with (x1 := k') (x2 := k) in Hs; [done|done|by left].
Qed.

Definition row_group_fits (g : RowGroupSummary) : Prop :=
  (Z.of_nat (rg_index g) < 2 ^ 64 /\ - 2 ^ 63 <= rg_num_rows g < 2 ^ 63 /\
   - 2 ^ 63 <= compressed_size g < 2 ^ 63 /\ - 2 ^ 63 <= total_byte_size g < 2 ^ 63)%Z.

Definition inspection_fits (i : ParquetInspection) : Prop :=
  (- 2 ^ 63 <= insp_num_rows i < 2 ^ 63)%Z /\ (Z.of_nat (insp_num_row_groups i) < 2 ^ 64)%Z /\
  Forall row_group_fits (row_groups i) /\ bm_wf (insp_compression_codecs i).

(** What serde_json reads of the values it wrote. *)
Class SerdeRoundTrip `{Serde} : Prop := {
  row_groups_back gs : Forall row_group_fits gs -> row_groups_from_value (JArr (map row_group_json gs)) = Ok gs;
  schema_back fs : schema_from_value (JObj [("fields", JArr (map field_json fs))]) = Ok fs;
  codecs_back l : codecs_from_value (JArr (map JStr l)) = Ok l;
}.

(** The inspection cached in the report of a remote scan is the one planning reads
    back, but for the name of the writer. *)
Theorem inspection_hints_round_trip `{SerdeRoundTrip} i p : inspection_fits i ->
  parquet_inspection_from_hints (parquet_inspection_hints i) p = Ok {|
    insp_num_rows := insp_num_rows i; insp_num_row_groups := insp_num_row_groups i; row_groups := row_groups i;
    insp_fields := insp_fields i; insp_created_by := None; insp_compression_codecs := insp_compression_codecs i;
    statistics_present := statistics_present i |}.
Proof.
  intros (Hn & Hg & Hrg & Hwf). unfold parquet_inspection_from_hints, parquet_inspection_hints. set (node := JObj [("num_rows", _); _; _; _; _; _]).
  change (json_get "parqonaut_parquet_inspection" _) with (Some node). cbn [ok_or mbind Result_bind].
  change (json_get "num_rows" node) with (Some (JNum (insp_num_rows i))).
  cbn [ok_or mbind Result_bind option_bind as_i64]. rewrite (proj2 (Z.leb_le _ _)), (proj2 (Z.ltb_lt _ _)) by lia.
  change (json_get "num_row_groups" node) with (Some (JNum (Z.of_nat (insp_num_row_groups i)))).
  cbn [ok_or mbind Result_bind option_bind as_u64 andb]. rewrite (proj2 (Z.leb_le _ _)), (proj2 (Z.ltb_lt _ _)) by lia.
  change (json_get "row_groups" node) with (Some (JArr (map row_group_json (row_groups i)))).
  change (json_get "schema" node) with (Some (JObj [("fields", JArr (map field_json (insp_fields i)))])).
  change (json_get "compression_codecs" node) with (Some (JArr (map JStr (bm_keys (insp_compression_codecs i))))).
  change (json_get "statistics_present" node) with (Some (JBool (statistics_present i))).
  cbn -[row_group_json field_json bs_of_list bm_keys]. rewrite row_groups_back by done.
  cbn -[row_group_json field_json bs_of_list bm_keys]. rewrite schema_back. cbn -[bs_of_list bm_keys].
  rewrite codecs_back. cbn -[bs_of_list bm_keys]. by rewrite bs_of_keys, Nat2Z.id.
Qed.

(** ** Reading only *)

Definition reads (c : call) : Prop :=
  match c with
  | CCapabilities | CMetrics | CHead _ | CReadAll _ => True
  | CReadRange _ r => (0 <= range_start r <= range_end r)%Z
  | CCreate _ _ _ | CReplace _ _ _ | CDelete _ => False
  end.

Inductive read_only {A} : prog A -> Prop :=
| read_only_ret a : read_only (Ret a)
| read_only_call c k : reads c -> (forall x, read_only (k x)) -> read_only (Call c k).

Create HintDb reads.
#[local] Hint Constructors read_only : reads.

Lemma read_only_bind {A B} (p : prog A) (f : A -> prog B) : read_only p -> (forall a, read_only (f a)) -> read_only (p ≫= f).
Proof. intros Hp Hf. induction Hp as [a|c k Hc _ IH]; cbn; [apply Hf|]. by constructor. Qed.

Lemma read_only_try {E A B} (p : prog (Result E A)) (f : A -> prog (Result E B)) :
  read_only p -> (forall a, read_only (f a)) -> read_only (try p f).
Proof. intros Hp Hf. apply read_only_bind; [done|]. intros [a|e]; auto with reads. Qed.

Lemma read_only_request c : reads c -> read_only (request c).
Proof. intros Hc. constructor; auto with reads. Qed.

Ltac asks := match goal with |- read_only (request ?c) => apply (read_only_request c) end.

Lemma run_read_only {St} `{BackendLaws St} {A} (p : prog A) s : read_only p ->
  same_on addressable (view s) (view (snd (run p s))).
Proof.
  intros Hp. revert s. induction Hp as [a|c k Hc _ IH]; intros s; [done|]. cbn [run].
  destruct (exec_call c s) as [x s'] eqn:E. etrans; [|apply IH].
  destruct c; cbn in E, Hc; try done; simplify_eq; try done.
  - by apply law_head in E as [Hs _].
  - by apply law_read_range in E as [Hs _].
  - by apply law_read_all in E as [Hs _].
Qed.

Lemma footer_read_only o : read_only (read_parquet_footer o).
Proof.
  unfold read_parquet_footer. apply read_only_bind; [by asks|]. intros caps. destruct (negb _); [auto with reads|].
  apply read_only_bind; [by asks|]. intros before. apply read_only_try; [by asks|]. intros md.
  unfold FOOTER_TRAILER_LEN. destruct (Z.ltb_spec (md_size md) 8); [auto with reads|].
  unfold byte_range_new at 1. destruct (Z.ltb_spec (md_size md - 1) (md_size md - 8)); [lia|]. cbn [lift_result try mbind prog_bind].
  apply read_only_try; [asks; cbn; lia|]. intros trailer.
  destruct (parse_metadata_length trailer) as [len|e]; [|constructor].
  destruct (Z.ltb_spec (md_size md) (len + 8)); [auto with reads|]. apply read_only_try.
  - destruct (_ =? _)%Z; [constructor|]. unfold byte_range_new. destruct (Z.ltb_spec (md_size md - 1) (md_size md - (len + 8))); [constructor|].
    asks. cbn. lia.
  - intros f. destruct (_ || _); [constructor|]. apply read_only_bind; [by asks|constructor].
Qed.

Section ReadOnly.
Context `{UrlParser} `{ParquetCrate} `{ScanFs} `{Digests} `{UuidSupply}.
Context {St : Type} `{BackendLaws St} `{ListingBackend St} `{Publication.Json CommitMarker} `{Publication.Json CurrentPointer}.
(** Listing changes no object. *)
Context (Hlist : forall dataset options token s,
  same_on addressable (view s) (view (snd (list_page dataset options token s)))).

Lemma inspect_all_read_only assets : read_only (remote_inspect_all assets).
Proof.
  induction assets as [|a assets IH]; cbn; [constructor|]. apply read_only_bind.
  - unfold remote_inspect_one, inspect_remote_parquet. case_decide; [|constructor]. apply read_only_bind; [|constructor].
    destruct (object_location_from_display_uri _); [|constructor]. apply read_only_bind; [apply footer_read_only|constructor].
  - intros o. apply read_only_bind; [done|constructor].
Qed.

Lemma list_all_same fuel dataset token s r s' : list_all fuel dataset token s = Some (r, s') ->
  same_on addressable (view s) (view s').
Proof.
  revert token s r s'. induction fuel as [|fuel IH]; intros token s r s'; [done|]. cbn.
  pose proof (Hlist dataset {| recursive := true; max_keys := None |} token s) as Hs.
  destruct (list_page _ _ _ _) as [[page|e] s1]; cbn in Hs; [|by intros [= <- <-]].
  destruct (truncated page); [|by intros [= <- <-]].
  destruct (list_all fuel _ _ s1) as [[r2 s2]|] eqn:E; [|done]. intros [= <- <-]. etrans; [exact Hs|by eapply IH].
Qed.

Lemma current_version_read_only ds : read_only (read_current_version ds).
Proof.
  unfold read_current_version, pure_storage. apply read_only_try; [constructor|]. intros o. apply read_only_bind.
  - unfold read_json_object. apply read_only_bind; [by asks|]. intros [[b|io]|e]; constructor.
  - intros [p|[]]; try constructor. case_match; constructor.
Qed.

Lemma committed_read_only ds v : read_only (is_version_committed ds v).
Proof.
  unfold is_version_committed, pure_storage. apply read_only_try; [constructor|]. intros o. apply read_only_bind; [by asks|].
  intros [md|[]]; constructor.
Qed.

Lemma inventory_same fuel dataset s r s' : list_remote_inventory fuel dataset s = Some (r, s') ->
  same_on addressable (view s) (view s').
Proof.
  unfold list_remote_inventory. destruct (list_all fuel dataset None s) as [[[raw|e] s1]|] eqn:E; [|by intros [= <- <-]; eapply list_all_same|done].
  apply list_all_same in E. destruct (existsb _ _); [by intros [= <- <-]|]. unfold published_data_inventory.
  destruct dataset as [l|b]; [by intros [= <- <-]|].
  pose proof (run_read_only _ s1 (current_version_read_only (S3 b))) as Hc.
  destruct (run (read_current_version _) s1) as [[[v|]|e] s2]; cbn [snd] in Hc; try (by intros [= <- <-]; etrans).
  pose proof (run_read_only _ s2 (committed_read_only (S3 b) v)) as Hd.
  destruct (run (is_version_committed _ _) s2) as [[[]|e] s3]; cbn [snd] in Hd;
    intros [= <- <-]; (etrans; [exact E|]); by etrans.
Qed.

(** A scan of a remote dataset changes no object of the store, whatever its outcome. *)
Theorem remote_scan_read_only now fuel location s n r s' n' :
  scan_remote_dataset now fuel location s n = Some (r, (s', n')) -> same_on addressable (view s) (view s').
Proof.
  unfold scan_remote_dataset. destruct (list_remote_inventory fuel location s) as [[[inventory|e] s1]|] eqn:E; [| |done];
    apply inventory_same in E; [|by intros [= <- <- <-]].
  cbn [new_v4]. destruct (url_parse _); [|by intros [= <- <- <-]]. cbn [plan_assets].
  pose proof (run_read_only _ s1 (inspect_all_read_only (remote_assets location inventory))) as Hi.
  destruct (run (remote_inspect_all _) s1) as [os s2]. destruct (remote_report _ _ _ _ _) as [rep n2].
  intros [= <- <- <-]. by etrans.
Qed.
End ReadOnly.

(** ** The footer tells what the file tells *)

(** The parquet crate on the last bytes of a file and on the file. *)
Class FooterCrate `{ParquetCrate} : Prop := {
  footer_tail n : (0 <= n < 2 ^ 32)%Z -> decode_footer_tail (trailer_of n) = Ok (Z.to_nat n);
  file_metadata body metadata m : (Z.of_nat (length metadata) < 2 ^ 32)%Z -> decode_metadata metadata = Ok m ->
    serialized_metadata (body ++ metadata ++ trailer_of (Z.of_nat (length metadata))) = Ok m;
}.

(** An inspection that two range requests produced is the inspection of the whole
    object. *)
Theorem remote_inspection_agrees `{UrlParser} `{FooterCrate} {St} `{BackendLaws St} p size o (s s' : St) i :
  object_location_from_display_uri p = Ok o -> addressable o ->
  run (inspect_remote_parquet p size) s = (Ok i, s') ->
  exists d, view s o = Some d /\ inspect_parquet_chunk_reader d = Ok i.
Proof.
  intros Ho Ha. unfold inspect_remote_parquet. rewrite Ho, run_bind.
  destruct (run (read_parquet_footer o) s) as [[[f m]|e] s1] eqn:Ef; cbn [run]; [|done]. intros [= Hi <-].
  apply read_parquet_footer_sound in Ef as (d & Hd & _ & (body & metadata & -> & Hf & Hlen) & _ & Hn); [|done].
  exists (body ++ footer f). split; [done|]. revert Hi. rewrite Hf. fold (trailer_of (metadata_len f)).
  unfold inspect_parquet_footer_buffer. destruct (_ || _); [done|].
  assert (suffix_bytes 8 (metadata ++ trailer_of (metadata_len f)) = trailer_of (metadata_len f)) as ->.
  { unfold suffix_bytes. rewrite length_app, trailer_length. apply drop_app_length'. lia. }
  rewrite footer_tail by done. cbn [map_err mbind Result_bind]. destruct (negb _); [done|].
  rewrite take_app_length' by lia. destruct (decode_metadata metadata) as [meta|e] eqn:Em; [|done]. cbn [map_err mbind Result_bind]. intros [= <-].
  unfold inspect_parquet_chunk_reader. rewrite <- Hlen. rewrite (file_metadata _ _ meta) by (done || lia). done.
Qed.
End Remote.
