(* ===== verification/ScanRuleProofs.v ===== *)
(** Resolution within its cap, the exact conditions of the built-in rules, and
    the well-formedness of every finding of a report. *)

From Stdlib Require Import Ascii.
From S2P Require Import Prelude BTree Location Schema RepairPlan Backend Inventory RepairExec Execute AuthStore.
From S2P Require Import Application ParquetFooter ScanTypes ScanInfer ScanRules ScanEngine ScanProofs.

(** * Resolution *)

Section Resolve.
Context `{ScanFs}.

(** The asset of a walk entry that is a file with readable metadata. *)
Definition readable_asset (e : option WalkEntry) : option ResolvedAsset :=
  e ← e;
  if we_is_file e then
    p ← result_ok (we_path e);
    len ← result_ok (sfs_metadata p);
    Some {| ra_path := p; ra_format := classify_format_from_path p; ra_size_bytes := len |}
  else None.

Lemma collect_assets_spec cap entries n l t : (n < cap)%Z -> collect_assets cap n entries = Ok (l, t) ->
  l = take (Z.to_nat (cap - n)) (omap readable_asset entries) /\
  (t = true <-> (cap - n <= Z.of_nat (length (omap readable_asset entries)))%Z).
Proof.
  revert n l t. induction entries as [|[e|] entries IH]; intros n l t Hn; cbn [collect_assets].
  - intros [= <- <-]. cbn [length omap list_omap]. rewrite take_nil. split; [done|]. split; [done|lia].
  - cbn [omap list_omap readable_asset mbind option_bind]. destruct (we_is_file e); cbn [negb]; [|by apply IH].
    destruct (we_path e) as [p|]; cbn [map_err result_ok mbind option_bind Result_bind]; [|done].
    destruct (sfs_metadata p) as [len|] eqn:Em; cbn [result_ok mbind option_bind]; [|by apply IH].
    destruct (cap <=? n + 1)%Z eqn:Ec.
    + intros [= <- <-]. apply Z.leb_le in Ec. assert (cap - n = 1)%Z as -> by lia.
      change (Z.to_nat 1) with 1. cbn [take length]. rewrite take_0. split; [done|]. split; [lia|done].
    + apply Z.leb_gt in Ec. destruct (collect_assets cap (n + 1) entries) as [[rest t']|] eqn:Er; [|done].
      cbn [mbind Result_bind]. intros [= <- <-]. apply IH in Er as [-> Ht]; [|lia].
      replace (Z.to_nat (cap - n)) with (S (Z.to_nat (cap - (n + 1)))) by lia. cbn [take length].
      split; [done|]. rewrite Ht. lia.
  - cbn [omap list_omap readable_asset mbind option_bind]. by apply IH.
Qed.

(** Below the cap every readable file is collected. *)
Definition utf8_entry (e : option WalkEntry) : Prop :=
  match e with Some e => we_is_file e = true -> is_ok (we_path e) = true | None => True end.

Lemma collect_assets_all cap entries n : Forall utf8_entry entries ->
  (n + Z.of_nat (length (omap readable_asset entries)) < cap)%Z ->
  collect_assets cap n entries = Ok (omap readable_asset entries, false).
Proof.
  intros Hu. revert n. induction Hu as [|[e|] entries He Hu IH]; intros n Hn; cbn [collect_assets]; [done| |by apply IH].
  cbn [omap list_omap readable_asset mbind option_bind utf8_entry] in *. destruct (we_is_file e); cbn [negb]; [|by apply IH].
  specialize (He eq_refl). destruct (we_path e) as [p|]; [|done]. cbn [map_err result_ok mbind option_bind Result_bind] in *.
  destruct (sfs_metadata p) as [len|]; cbn [result_ok mbind option_bind] in *; [|by apply IH].
  cbn [length] in Hn. destruct (Z.leb_spec cap (n + 1)); [lia|]. by rewrite IH by lia.
Qed.

Lemma scan_cap_pos options : (0 < scan_cap options)%Z.
Proof. unfold scan_cap, u64_max. lia. Qed.

(** C18: A resolved directory holds exactly the first [max(max_files, 1)] readable
    files of the walk, in walk order; the plan is marked truncated exactly when
    at least that many readable files exist. *)
Theorem directory_plan_exact root options plan : resolve_directory root options = Ok plan ->
  let readable := omap readable_asset (sfs_walk root) in
  plan_assets plan = take (Z.to_nat (scan_cap options)) readable /\
  (plan_truncated plan = true <-> (scan_cap options <= Z.of_nat (length readable))%Z) /\
  plan_scan_root plan = root.
Proof.
  unfold resolve_directory. destruct (sfs_exists root); cbn [negb]; [|done].
  destruct (collect_assets (scan_cap options) 0 (sfs_walk root)) as [[l t]|] eqn:E; cbn [mbind Result_bind]; [|done].
  intros [= <-]. apply collect_assets_spec in E as [-> Ht]; [|apply scan_cap_pos].
  rewrite Z.sub_0_r in *. done.
Qed.
End Resolve.

(** The same file system with another walk. *)
Definition with_walk (fs : ScanFs) (walk : string -> list (option WalkEntry)) : ScanFs := {|
  sfs_exists := @sfs_exists fs; sfs_metadata := @sfs_metadata fs; sfs_walk := walk; sfs_open := @sfs_open fs;
  sfs_len := @sfs_len fs; sfs_read := @sfs_read fs; sfs_contents := @sfs_contents fs;
  from_utf8_lossy := @from_utf8_lossy fs; alphabetic_start := @alphabetic_start fs; json_from_str := @json_from_str fs |}.

Section WalkOrder.
Context `{ParquetCrate} `{Digests} `{UuidSupply}.

(** C17: A scan of a directory gives the same report, findings and ids included, on two
    file systems that differ only in the order in which the walk of the directory
    delivers its entries, as long as it has fewer readable files than the cap, the
    paths are UTF-8 and no file is listed twice.  (With as many files as the cap or
    more, the walk decides which ones are scanned.) *)
Theorem scan_order_independent (fs : ScanFs) walk1 walk2 now request root n :
  req_target request = LocalDirectory root -> walk1 root ≡ₚ walk2 root -> Forall utf8_entry (walk1 root) ->
  let readable := omap (readable_asset (H := fs)) (walk1 root) in
  (Z.of_nat (length readable) < scan_cap (req_options request))%Z -> NoDup (map (fun a => components (ra_path a)) readable) ->
  engine_run (H := with_walk fs walk1) now request n = engine_run (H := with_walk fs walk2) now request n.
Proof.
  cbn zeta. intros Ht Hp Hu Hcap Hnd. unfold engine_run. rewrite Ht. cbn [resolve_local_scan_plan]. unfold resolve_directory.
  cbn [sfs_exists with_walk]. destruct (sfs_exists root); cbn [negb]; [|done]. cbn [sfs_walk].
  rewrite (collect_assets_all (H := with_walk fs walk1)) by done.
  rewrite (collect_assets_all (H := with_walk fs walk2));
    [|by rewrite <- Hp|change (readable_asset (H := with_walk fs walk2)) with (readable_asset (H := fs)); by rewrite <- Hp].
  change (readable_asset (H := with_walk fs walk2)) with (readable_asset (H := fs)).
  change (readable_asset (H := with_walk fs walk1)) with (readable_asset (H := fs)). cbn [mbind Result_bind].
  change (build_report (H := with_walk fs walk2)) with (build_report (H := fs)).
  change (build_report (H := with_walk fs walk1)) with (build_report (H := fs)).
  unfold mbind, Fresh_bind. rewrite (report_order_independent _ request _
    {| plan_scan_root := root; plan_assets := omap readable_asset (walk2 root); plan_truncated := false |}); [done|done|done| |done].
  cbn. by rewrite Hp.
Qed.
End WalkOrder.

(** * Shapes of findings *)

Section Rules.
Context `{Digests} `{UuidSupply}.

(** What a rule decides of a finding: its code and the files it points at. *)
Definition shape (f : ScanFinding) : string * list (option string) := (sf_code f, map loc_file (sf_locations f)).

Lemma mk_finding_single code sev cat summary detail ev locs n :
  map shape (fst ((f ← mk_finding code sev cat summary detail ev locs; mret [f]) n)) = [(code, map loc_file locs)].
Proof. reflexivity. Qed.

Lemma fresh_map_proj {A B C} (g : B -> C) (h : A -> C) (f : A -> Fresh B) l n :
  (forall a m, g (fst (f a m)) = h a) -> map g (fst (fresh_map f l n)) = map h l.
Proof.
  intros Hf. revert n. induction l as [|a l IH]; intros n; cbn [fresh_map]; fresh_simpl; [done|].
  pose proof (Hf a n) as Ha. destruct (f a n) as [b m]. specialize (IH m). destruct (fresh_map f l m) as [bs m'].
  cbn in *. by rewrite Ha, IH.
Qed.

Definition unknown_shapes (assets : list ResolvedAsset) : list (string * list (option string)) :=
  match filter (fun a => ra_format a = UnknownFormat) assets with
  | [] => []
  | unknown => [(FORMAT_UNKNOWN, map (fun a => Some (ra_path a)) unknown)]
  end.

Definition keys_shapes (d : Dataset) : list (string * list (option string)) :=
  if keys_inconsistent (partition_key_sets_for_dataset d)
     && negb (bool_decide (partition_key_sets_for_dataset d = [])) then
    [(PARTITION_INCONSISTENT_KEYS, map (fun f => Some (df_path f)) (ds_files d))]
  else [].

Definition small_shapes (a : ResolvedAsset) : list (string * list (option string)) :=
  if bool_decide (ra_format a = Parquet) && (ra_size_bytes a <? FILE_TOO_SMALL_BYTES)%Z
  then [(METADATA_FILE_TOO_SMALL, [Some (ra_path a)])] else [].

Definition group_shapes (pi : string * ParquetInspection) : list (string * list (option string)) :=
  match small_row_group (snd pi) with
  | Some _ => [(METADATA_ROW_GROUP_SUSPICIOUSLY_SMALL, [Some (fst pi)])]
  | None => []
  end.

Definition mixed_shapes (assets : list ResolvedAsset) : list (string * list (option string)) :=
  if 2 <=? length (format_set assets) then [(FORMAT_MIXED_DATASET, [None])] else [].

Lemma unknown_rule_shapes assets n : map shape (fst (unknown_format_rule assets n)) = unknown_shapes assets.
Proof.
  unfold unknown_format_rule, unknown_shapes. destruct (filter _ assets) as [|a l]; [done|].
  unfold mbind at 1, Fresh_bind. destruct (fresh_map _ (a :: l) n) as [evs m].
  rewrite mk_finding_single. by rewrite map_map.
Qed.

Lemma keys_rule_shapes d n : map shape (fst (partition_keys_rule d n)) = keys_shapes d.
Proof.
  unfold partition_keys_rule, keys_shapes. destruct (_ && _); [|done].
  unfold mbind at 1, Fresh_bind. destruct (fresh_map _ _ n) as [evs m].
  unfold mbind at 1, Fresh_bind. destruct (mk_evidence _ _ _ _ m) as [ev0 m'].
  rewrite mk_finding_single. unfold partition_key_sets_for_dataset. by rewrite !map_map.
Qed.

Lemma small_rule_shapes a n : map shape (fst (small_file_rule a n)) = small_shapes a.
Proof. unfold small_file_rule, small_shapes. by destruct (_ && _). Qed.

Lemma group_rule_shapes pi n : map shape (fst (row_group_rule pi n)) = group_shapes pi.
Proof. destruct pi as [p i]. unfold row_group_rule, group_shapes. cbn [fst snd]. by destruct (small_row_group i). Qed.

Lemma mixed_rule_shapes root assets n : map shape (fst (mixed_format_rule root assets n)) = mixed_shapes assets.
Proof. unfold mixed_format_rule, mixed_shapes. by destruct (2 <=? _). Qed.

Lemma concat_fresh_shapes {A} (f : A -> Fresh (list ScanFinding)) h l n :
  (forall a m, map shape (fst (f a m)) = h a) -> map shape (concat (fst (fresh_map f l n))) = flat_map h l.
Proof. intros Hf. rewrite concat_map, (fresh_map_proj (map shape) h) by done. by rewrite flat_map_concat_map. Qed.

Lemma rules_shapes plan assets inspections datasets n :
  map shape (fst (evaluate_scan_rules plan assets inspections datasets n))
  = unknown_shapes assets ++ mixed_shapes assets ++ flat_map keys_shapes datasets
    ++ flat_map small_shapes assets ++ flat_map group_shapes inspections.
Proof.
  unfold evaluate_scan_rules. fresh_simpl.
  pose proof (unknown_rule_shapes assets n) as H1. destruct (unknown_format_rule assets n) as [l1 n1].
  pose proof (mixed_rule_shapes (plan_scan_root plan) assets n1) as H2.
  destruct (mixed_format_rule (plan_scan_root plan) assets n1) as [l2 n2].
  pose proof (concat_fresh_shapes partition_keys_rule keys_shapes datasets n2 keys_rule_shapes) as H3.
  destruct (fresh_map partition_keys_rule datasets n2) as [l3 n3].
  pose proof (concat_fresh_shapes small_file_rule small_shapes assets n3 small_rule_shapes) as H4.
  destruct (fresh_map small_file_rule assets n3) as [l4 n4].
  pose proof (concat_fresh_shapes row_group_rule group_shapes inspections n4 group_rule_shapes) as H5.
  destruct (fresh_map row_group_rule inspections n4) as [l5 n5]. cbn [fst] in *.
  by rewrite !map_app, H1, H2, H3, H4, H5.
Qed.

(** A finding of the given code that points at the given files. *)
Definition flags (out : list ScanFinding) (code : string) (files : list (option string)) : Prop :=
  exists f, f ∈ out /\ sf_code f = code /\ map loc_file (sf_locations f) = files.

Lemma flags_shape out code files : flags out code files <-> (code, files) ∈ map shape out.
Proof.
  rewrite list_elem_of_fmap. unfold flags, shape. split.
  - intros (f & Hf & <- & <-). eauto.
  - intros (f & [= -> ->] & Hf). eauto.
Qed.

Lemma unknown_shapes_elem assets code files : (code, files) ∈ unknown_shapes assets <->
  code = FORMAT_UNKNOWN /\ (exists a, a ∈ assets /\ ra_format a = UnknownFormat) /\
  files = map (fun a => Some (ra_path a)) (filter (fun a => ra_format a = UnknownFormat) assets).
Proof.
  unfold unknown_shapes. destruct (filter _ assets) as [|a l] eqn:E.
  - split; [by intros ?%not_elem_of_nil|]. intros (_ & (a & Ha & Hf) & _).
    assert (a ∈ filter (fun a => ra_format a = UnknownFormat) assets) as Hin by by apply list_elem_of_filter.
    rewrite E in Hin. by apply not_elem_of_nil in Hin.
  - rewrite list_elem_of_singleton. split; [|intros (-> & _ & ->); done]. intros [= -> ->]. split; [done|].
    split; [|done]. exists a. assert (a ∈ filter (fun a => ra_format a = UnknownFormat) assets) as Hin
      by (rewrite E; set_solver). by apply list_elem_of_filter in Hin as [? ?].
Qed.

Lemma two_elements {A} `{EqDecision A} (l : list A) : 1 < length (remove_dups l) <->
  exists x y, x ∈ l /\ y ∈ l /\ x <> y.
Proof.
  pose proof (NoDup_remove_dups l) as Hnd. split.
  - destruct (remove_dups l) as [|x [|y r]] eqn:E; cbn [length]; try lia. intros _. exists x, y.
    rewrite <- !(elem_of_remove_dups l), E. inversion Hnd; subst. set_solver.
  - intros (x & y & Hx & Hy & Hne). rewrite <- (elem_of_remove_dups l) in Hx, Hy.
    destruct (remove_dups l) as [|u [|v r]]; [set_solver| |cbn; lia].
    apply list_elem_of_singleton in Hx, Hy. congruence.
Qed.

Lemma mixed_shapes_elem assets code files : (code, files) ∈ mixed_shapes assets <->
  code = FORMAT_MIXED_DATASET /\ files = [None] /\
  exists a b, a ∈ assets /\ b ∈ assets /\ ra_format a <> UnknownFormat /\ ra_format b <> UnknownFormat
    /\ ra_format a <> ra_format b.
Proof.
  assert (2 <= length (format_set assets) <-> exists a b, a ∈ assets /\ b ∈ assets /\ ra_format a <> UnknownFormat
    /\ ra_format b <> UnknownFormat /\ ra_format a <> ra_format b) as Hk.
  { unfold format_set. rewrite (two_elements (filter _ _) : 2 <= _ <-> _). setoid_rewrite list_elem_of_filter. setoid_rewrite list_elem_of_fmap.
    split; [intros (x & y & (Hx & a & -> & Ha) & (Hy & b & -> & Hb) & Hne); by exists a, b|].
    intros (a & b & Ha & Hb & Hka & Hkb & Hne). exists (ra_format a), (ra_format b). eauto 10. }
  rewrite <- Hk. unfold mixed_shapes. destruct (2 <=? _) eqn:E.
  - apply Nat.leb_le in E. rewrite list_elem_of_singleton. split; [by intros [= -> ->]|by intros (-> & -> & _)].
  - apply Nat.leb_gt in E. split; [by intros ?%not_elem_of_nil|lia].
Qed.

(** The keys of a sorted set are determined by its elements. *)
Lemma sorted_keys_ext {V W} (m : bmap V) (m' : bmap W) : bm_wf m -> bm_wf m' ->
  (forall k, k ∈ bm_keys m <-> k ∈ bm_keys m') -> bm_keys m = bm_keys m'.
Proof.
  intros Hm Hm' Hk. apply (StronglySorted_unique_strong str_lt); [|done|done|].
  - intros a b _ _ Hab Hba. by destruct (str_lt_irrefl a), (transitivity Hab Hba).
  - apply NoDup_Permutation; [by apply bm_wf_nodup..|done].
Qed.

(** Two files whose Hive keys differ as sets. *)
Definition keys_differ (d : Dataset) : Prop :=
  exists f g, f ∈ ds_files d /\ g ∈ ds_files d /\
    ~ (forall k, k ∈ map seg_key (df_partitions f) <-> k ∈ map seg_key (df_partitions g)).

Definition file_keys (f : DatasetFile) : list string := bm_keys (bs_of_list (map seg_key (df_partitions f))).

Lemma file_keys_ext f g : file_keys f = file_keys g <->
  (forall k, k ∈ map seg_key (df_partitions f) <-> k ∈ map seg_key (df_partitions g)).
Proof.
  unfold file_keys. split.
  - intros Heq k. rewrite <- (bs_of_list_elem k (map seg_key (df_partitions f))), Heq. apply bs_of_list_elem.
  - intros Hk. apply sorted_keys_ext; [apply bm_of_list_wf..|]. intros k. by rewrite !bs_of_list_elem.
Qed.

Lemma bm_keys_nil {V} (m : bmap V) : bm_keys m = [] <-> m = [].
Proof. destruct m; [done|]. by split. Qed.

Lemma keys_inconsistent_spec d :
  keys_inconsistent (partition_key_sets_for_dataset d) = true <-> keys_differ d.
Proof.
  unfold keys_differ. setoid_rewrite <- file_keys_ext.
  set (sets := partition_key_sets_for_dataset d).
  assert (forall s, s ∈ sets <-> exists f, f ∈ ds_files d /\ s = (df_path f, bs_of_list (map seg_key (df_partitions f)))) as Hs.
  { intros s. unfold sets, partition_key_sets_for_dataset. rewrite list_elem_of_fmap. naive_solver. }
  unfold keys_inconsistent. rewrite orb_true_iff, andb_true_iff, !existsb_exists, Nat.ltb_lt.
  setoid_rewrite <- list_elem_of_In. rewrite (two_elements (map _ _)).
  setoid_rewrite list_elem_of_fmap. setoid_rewrite list_elem_of_filter. setoid_rewrite Hs. split.
  - intros [((s & (f & Hf & ->) & Hne) & (s' & (g & Hg & ->) & He))|
            (x & y & (s & -> & _ & f & Hf & ->) & (s' & -> & _ & g & Hg & ->) & Hne)]; [|by exists f, g].
    exists f, g. split; [done|]. split; [done|]. unfold file_keys. cbn [snd] in *.
    apply negb_true_iff, bool_decide_eq_false in Hne. apply bool_decide_eq_true in He. rewrite He. simpl.
    by rewrite bm_keys_nil.
  - intros (f & g & Hf & Hg & Hne). unfold file_keys in Hne.
    set (F := bs_of_list (map seg_key (df_partitions f))) in *. set (G := bs_of_list (map seg_key (df_partitions g))) in *.
    destruct (decide (F = [])) as [HF|HF], (decide (G = [])) as [HG|HG].
    + rewrite HF, HG in Hne. done.
    + left. split; [exists (df_path g, G)|exists (df_path f, F)]; (split; [eauto|]); cbn [snd];
        [by rewrite bool_decide_eq_false_2|by rewrite bool_decide_eq_true_2].
    + left. split; [exists (df_path f, F)|exists (df_path g, G)]; (split; [eauto|]); cbn [snd];
        [by rewrite bool_decide_eq_false_2|by rewrite bool_decide_eq_true_2].
    + right. exists (bm_keys F), (bm_keys G). split; [exists (df_path f, F); eauto 6|].
      split; [exists (df_path g, G); eauto 6|done].
Qed.

Lemma keys_shapes_elem datasets code files : (code, files) ∈ flat_map keys_shapes datasets <->
  code = PARTITION_INCONSISTENT_KEYS /\
  exists d, d ∈ datasets /\ keys_differ d /\ files = map (fun f => Some (df_path f)) (ds_files d).
Proof.
  rewrite list_elem_of_In, in_flat_map. setoid_rewrite <- list_elem_of_In.
  assert (forall d, (code, files) ∈ keys_shapes d <-> code = PARTITION_INCONSISTENT_KEYS /\ keys_differ d /\
            files = map (fun f => Some (df_path f)) (ds_files d)) as Hd; [|setoid_rewrite Hd; naive_solver].
  intros d. rewrite <- keys_inconsistent_spec. unfold keys_shapes.
  destruct (keys_inconsistent _) eqn:Ek; cbn [andb]; [|split; [by intros ?%not_elem_of_nil|by intros (_ & ? & _)]].
  rewrite bool_decide_eq_false_2; cbn [negb].
  - rewrite list_elem_of_singleton. naive_solver.
  - intros E. by rewrite E in Ek.
Qed.

Lemma small_shapes_elem assets code files : (code, files) ∈ flat_map small_shapes assets <->
  code = METADATA_FILE_TOO_SMALL /\
  exists a, a ∈ assets /\ ra_format a = Parquet /\ (ra_size_bytes a < 4096)%Z /\ files = [Some (ra_path a)].
Proof.
  rewrite list_elem_of_In, in_flat_map. setoid_rewrite <- list_elem_of_In.
  assert (forall a, (code, files) ∈ small_shapes a <-> code = METADATA_FILE_TOO_SMALL /\ ra_format a = Parquet /\
            (ra_size_bytes a < 4096)%Z /\ files = [Some (ra_path a)]) as Ha; [|setoid_rewrite Ha; naive_solver].
  intros a. unfold small_shapes, FILE_TOO_SMALL_BYTES.
  destruct (bool_decide (ra_format a = Parquet)) eqn:Ef, (ra_size_bytes a <? 4096)%Z eqn:Es; cbn [andb];
    rewrite ?list_elem_of_singleton, ?elem_of_nil;
    rewrite ?bool_decide_eq_true, ?bool_decide_eq_false in Ef; rewrite ?Z.ltb_lt, ?Z.ltb_ge in Es;
    [naive_solver|split; [done|lia]|naive_solver|naive_solver].
Qed.

Lemma foldl_min_lt z l b : (foldl Z.min z l < b)%Z <-> (z < b)%Z \/ Exists (fun x => (x < b)%Z) l.
Proof.
  revert z. induction l as [|x l IH]; intros z; simpl; [rewrite Exists_nil; tauto|].
  rewrite IH, Exists_cons, Z.min_lt_iff. tauto.
Qed.

Lemma small_row_group_spec i : is_Some (small_row_group i) <->
  4 <= insp_num_row_groups i /\ (200 <= insp_num_rows i)%Z /\
  exists rg, rg ∈ row_groups i /\ (rg_num_rows rg < 48)%Z.
Proof.
  unfold small_row_group, ROW_GROUP_RULE_MIN_GROUPS, ROW_GROUP_RULE_MIN_TOTAL_ROWS, ROW_GROUP_SMALL_ROWS, min_row_group_rows.
  destruct (4 <=? _) eqn:E1, (200 <=? _)%Z eqn:E2; cbn [andb];
    rewrite ?Nat.leb_le, ?Nat.leb_gt in E1; rewrite ?Z.leb_le, ?Z.leb_gt in E2;
    try (split; [by intros [? ?]|lia]).
  destruct (row_groups i) as [|rg l]; simpl.
  - split; [by intros [? ?]|]. intros (_ & _ & rg & Hin & _). set_solver.
  - assert ((foldl Z.min (rg_num_rows rg) (map rg_num_rows l) < 48)%Z <->
            exists r, r ∈ rg :: l /\ (rg_num_rows r < 48)%Z) as Hm.
    { rewrite foldl_min_lt, Exists_exists. setoid_rewrite list_elem_of_fmap. setoid_rewrite elem_of_cons. naive_solver. }
    destruct (_ <? 48)%Z eqn:E; rewrite ?Z.ltb_lt, ?Z.ltb_ge in E.
    + split; [|eauto]. intros _. split; [done|]. split; [done|]. by apply Hm.
    + split; [by intros [? ?]|]. intros (_ & _ & Hex%Hm). lia.
Qed.

Lemma group_shapes_elem inspections code files : (code, files) ∈ flat_map group_shapes inspections <->
  code = METADATA_ROW_GROUP_SUSPICIOUSLY_SMALL /\
  exists p i, (p, i) ∈ inspections /\ files = [Some p] /\ is_Some (small_row_group i).
Proof.
  rewrite list_elem_of_In, in_flat_map. setoid_rewrite <- list_elem_of_In. split.
  - intros ([p i] & Hin & Hg). unfold group_shapes in Hg. cbn [fst snd] in Hg.
    destruct (small_row_group i) eqn:E; [|by apply not_elem_of_nil in Hg]. apply list_elem_of_singleton in Hg.
    injection Hg as -> ->. split; [done|]. exists p, i. rewrite E. eauto.
  - intros (-> & p & i & Hin & -> & [m Hm]). exists (p, i). split; [done|]. unfold group_shapes. cbn [fst snd].
    rewrite Hm. by apply list_elem_of_singleton.
Qed.

(** ** Claim *)

(** C16: The built-in rules report exactly what they describe.  Unknown formats: iff
    an asset's format is unknown, pointing at all of them.  Mixed formats: iff two
    assets have different known formats.  Inconsistent keys: one finding for each
    dataset with two files whose Hive key sets differ.  Small files: one for each
    Parquet asset under 4096 bytes.  Row groups: one for each inspected file with
    at least 4 row groups and 200 rows of which some row group has under 48 (strictly:
    the comment of the constant says at most 48). *)
Theorem scan_rules_exact plan assets inspections datasets n :
  let out := fst (evaluate_scan_rules plan assets inspections datasets n) in
  (forall files, flags out FORMAT_UNKNOWN files <->
     (exists a, a ∈ assets /\ ra_format a = UnknownFormat) /\
     files = map (fun a => Some (ra_path a)) (filter (fun a => ra_format a = UnknownFormat) assets)) /\
  (forall files, flags out FORMAT_MIXED_DATASET files <-> files = [None] /\
     exists a b, a ∈ assets /\ b ∈ assets /\ ra_format a <> UnknownFormat /\ ra_format b <> UnknownFormat
       /\ ra_format a <> ra_format b) /\
  (forall files, flags out PARTITION_INCONSISTENT_KEYS files <->
     exists d, d ∈ datasets /\ keys_differ d /\ files = map (fun f => Some (df_path f)) (ds_files d)) /\
  (forall files, flags out METADATA_FILE_TOO_SMALL files <->
     exists a, a ∈ assets /\ ra_format a = Parquet /\ (ra_size_bytes a < 4096)%Z /\ files = [Some (ra_path a)]) /\
  (forall files, flags out METADATA_ROW_GROUP_SUSPICIOUSLY_SMALL files <->
     exists p i, (p, i) ∈ inspections /\ files = [Some p] /\ 4 <= insp_num_row_groups i /\
       (200 <= insp_num_rows i)%Z /\ exists rg, rg ∈ row_groups i /\ (rg_num_rows rg < 48)%Z).
Proof.
  intros out. setoid_rewrite flags_shape. unfold out. rewrite rules_shapes. setoid_rewrite elem_of_app.
  setoid_rewrite elem_of_app. setoid_rewrite elem_of_app. setoid_rewrite elem_of_app.
  setoid_rewrite unknown_shapes_elem. setoid_rewrite mixed_shapes_elem. setoid_rewrite keys_shapes_elem.
  setoid_rewrite small_shapes_elem. setoid_rewrite group_shapes_elem. setoid_rewrite small_row_group_spec.
  repeat split; intros; repeat match goal with
  | H : _ \/ _ |- _ => destruct H
  | H : _ /\ _ |- _ => destruct H as [? H]
  | H : _ = _ :> string |- _ => discriminate H
  end; eauto 10.
Qed.
End Rules.

(** Every finding of a report is well formed: a valid code, a summary and a detail
    that are not blank, evidence, and the fingerprint of its own content.  A
    fingerprint determines the finding up to its id, recommendations and
    attributes, evidence ids included. *)

(** * Texts that are not blank *)

Definition visible (s : string) : Prop := exists c, Ascii.is_space c = false /\ has_char c s = true.

Lemma trim_start_has f c s : f c = false -> has_char c s = true -> has_char c (trim_start f s) = true.
Proof.
  intros Hf. induction s as [|d s IH]; simpl; [done|]. intros Hs. destruct (f d) eqn:Ed; [|done]. apply IH.
  apply orb_true_iff in Hs as [Hs|Hs]; [|done]. apply bool_decide_eq_true in Hs. congruence.
Qed.

Lemma trim_end_has f c s : f c = false -> has_char c s = true -> trim_end f s <> EmptyString.
Proof.
  intros Hf. induction s as [|d s IH]; simpl; [done|]. intros Hs.
  destruct (trim_end f s) eqn:E; [|done]. apply orb_true_iff in Hs as [Hs|Hs]; [|by destruct (IH Hs)].
  apply bool_decide_eq_true in Hs. subst d. by rewrite Hf.
Qed.

Lemma trim_visible s : visible s -> trim s <> EmptyString.
Proof. intros (c & Hc & Hs). unfold trim. eapply trim_end_has; [exact Hc|]. by apply trim_start_has. Qed.

Lemma visible_app_l a b : visible a -> visible (a +:+ b).
Proof. intros (c & Hc & Ha). exists c. by rewrite has_char_app, Ha. Qed.
Lemma visible_app_r a b : visible b -> visible (a +:+ b).
Proof. intros (c & Hc & Hb). exists c. by rewrite has_char_app, Hb, orb_true_r. Qed.
Lemma visible_head c s : Ascii.is_space c = false -> visible (String c s).
Proof. intros Hc. exists c. split; [done|]. simpl. by rewrite bool_decide_eq_true_2. Qed.

(** * Well-formed findings *)

Section Findings.
Context `{ScanFs} `{ParquetCrate} `{Digests} `{UuidSupply}.

Record finding_ok (f : ScanFinding) : Prop := {
  fo_valid : validate_finding f = Ok tt;
  fo_code : try_new (sf_code f) = Ok (sf_code f);
  fo_evidence : sf_evidence f <> [];
  fo_locations : sf_locations f <> [];
  fo_fingerprint : sf_fingerprint f = Some (compute_fingerprint f);
}.

Lemma mk_finding_ok code sev cat summary detail ev locs n :
  try_new code = Ok code -> visible summary -> visible detail -> ev <> [] -> locs <> [] ->
  finding_ok (fst (mk_finding code sev cat summary detail ev locs n)).
Proof.
  intros Hc Hs Hd He Hl. apply trim_visible in Hs, Hd. constructor; try done.
  unfold validate_finding. cbn [mk_finding fst mbind Fresh_bind mret Fresh_ret new_v4 finalize sf_summary sf_detail].
  by rewrite !decide_False.
Qed.

(** The common case: one piece of evidence. *)
Lemma mk_one_ok kind es loc payload code sev cat summary detail locs n :
  try_new code = Ok code -> visible summary -> visible detail -> locs <> [] ->
  finding_ok (fst ((ev ← mk_evidence kind es loc payload; mk_finding code sev cat summary detail [ev] locs) n)).
Proof. intros. unfold mbind, Fresh_bind. destruct (mk_evidence _ _ _ _ n) as [ev m]. by apply mk_finding_ok. Qed.

Ltac show_visible :=
  first [ by apply visible_head | apply visible_app_l; show_visible | apply visible_app_r; show_visible ].
Ltac finding_ok_tac := apply mk_one_ok; [by vm_compute|show_visible|show_visible|done].

Lemma scan_truncated_ok root max n : finding_ok (fst (scan_truncated_finding root max n)).
Proof. finding_ok_tac. Qed.
Lemma parquet_read_failed_ok p e n : finding_ok (fst (parquet_read_failed_finding p e n)).
Proof. finding_ok_tac. Qed.
Lemma multiple_datasets_ok root c n : finding_ok (fst (multiple_datasets_finding root c n)).
Proof. finding_ok_tac. Qed.
Lemma unpartitioned_ok d c n : finding_ok (fst (unpartitioned_collection_finding d c n)).
Proof. finding_ok_tac. Qed.
Lemma text_probe_ok p h pr n : finding_ok (fst (text_probe_bounded_finding p h pr n)).
Proof. finding_ok_tac. Qed.
Lemma inspection_partial_ok p reason n : visible reason -> finding_ok (fst (inspection_partial_finding p reason n)).
Proof. intros. apply mk_one_ok; [by vm_compute|show_visible|done|done]. Qed.
Lemma inspection_skipped_ok k l n : finding_ok (fst (inspection_skipped_aggregate_finding k l n)).
Proof. apply mk_one_ok; [by vm_compute| |show_visible|done]. apply visible_app_r. by exists "a"%char. Qed.
Lemma grouping_ambiguous_ok a n : finding_ok (fst (grouping_ambiguous_from_note a n)).
Proof. destruct a; finding_ok_tac. Qed.

(** A rule with at most one finding. *)
Lemma mk_single_ok code sev cat summary detail ev locs n :
  try_new code = Ok code -> visible summary -> visible detail -> ev <> [] -> locs <> [] ->
  Forall finding_ok (fst ((f ← mk_finding code sev cat summary detail ev locs; mret [f]) n)).
Proof.
  intros. pose proof (mk_finding_ok code sev cat summary detail ev locs n) as Hf. unfold mbind, Fresh_bind.
  destruct (mk_finding _ _ _ _ _ _ _ n) as [f m]. constructor; [|constructor]. by apply Hf.
Qed.

Lemma fresh_map_nonempty {A B} (f : A -> Fresh B) a l n : fst (fresh_map f (a :: l) n) <> [].
Proof. cbn [fresh_map]. fresh_simpl. destruct (f a n) as [b m]. by destruct (fresh_map f l m). Qed.

Lemma unknown_rule_ok assets n : Forall finding_ok (fst (unknown_format_rule assets n)).
Proof.
  unfold unknown_format_rule. destruct (filter _ assets) as [|a l]; [constructor|].
  unfold mbind at 1, Fresh_bind. destruct (fresh_map _ (a :: l) n) as [evs m] eqn:E.
  apply mk_single_ok; [by vm_compute|show_visible|show_visible| |done].
  intros ->. eapply (fresh_map_nonempty _ a l n). by rewrite E.
Qed.

Lemma mixed_rule_ok root assets n : Forall finding_ok (fst (mixed_format_rule root assets n)).
Proof.
  unfold mixed_format_rule. destruct (2 <=? _); [|constructor].
  unfold mbind at 1, Fresh_bind. destruct (mk_evidence _ _ _ _ n) as [ev m].
  apply mk_single_ok; [by vm_compute|show_visible|show_visible|done|done].
Qed.

Lemma keys_rule_ok d n : Forall finding_ok (fst (partition_keys_rule d n)).
Proof.
  unfold partition_keys_rule. destruct (_ && _) eqn:E; [|constructor].
  unfold mbind at 1, Fresh_bind. destruct (fresh_map _ _ n) as [evs m].
  unfold mbind at 1, Fresh_bind. destruct (mk_evidence _ _ _ _ m) as [ev0 m'].
  apply mk_single_ok; [by vm_compute|show_visible|show_visible|done|].
  apply andb_true_iff in E as [_ E]. apply negb_true_iff, bool_decide_eq_false in E.
  by destruct (partition_key_sets_for_dataset d).
Qed.

Lemma small_rule_ok a n : Forall finding_ok (fst (small_file_rule a n)).
Proof.
  unfold small_file_rule. destruct (_ && _); [|constructor].
  unfold mbind at 1, Fresh_bind. destruct (mk_evidence _ _ _ _ n) as [ev m].
  apply mk_single_ok; [by vm_compute|show_visible|show_visible|done|done].
Qed.

Lemma group_rule_ok pi n : Forall finding_ok (fst (row_group_rule pi n)).
Proof.
  destruct pi as [p i]. unfold row_group_rule. destruct (small_row_group i); [|constructor].
  unfold mbind at 1, Fresh_bind. destruct (mk_evidence _ _ _ _ n) as [ev m].
  apply mk_single_ok; [by vm_compute|show_visible|show_visible|done|done].
Qed.

Lemma concat_fresh_ok {A} (f : A -> Fresh (list ScanFinding)) l n :
  (forall a m, Forall finding_ok (fst (f a m))) -> Forall finding_ok (concat (fst (fresh_map f l n))).
Proof. intros Hf. apply Forall_concat, fresh_map_Forall. auto. Qed.

Lemma rules_ok plan assets inspections datasets n :
  Forall finding_ok (fst (evaluate_scan_rules plan assets inspections datasets n)).
Proof.
  unfold evaluate_scan_rules. fresh_simpl.
  pose proof (unknown_rule_ok assets n) as H1'. destruct (unknown_format_rule assets n) as [l1 n1].
  pose proof (mixed_rule_ok (plan_scan_root plan) assets n1) as H2'.
  destruct (mixed_format_rule (plan_scan_root plan) assets n1) as [l2 n2].
  pose proof (concat_fresh_ok partition_keys_rule datasets n2 keys_rule_ok) as H3'.
  destruct (fresh_map partition_keys_rule datasets n2) as [l3 n3].
  pose proof (concat_fresh_ok small_file_rule assets n3 small_rule_ok) as H4'.
  destruct (fresh_map small_file_rule assets n3) as [l4 n4].
  pose proof (concat_fresh_ok row_group_rule inspections n4 group_rule_ok) as H5'.
  destruct (fresh_map row_group_rule inspections n4) as [l5 n5]. cbn [fst] in *.
  by rewrite !Forall_app.
Qed.

Lemma text_outcome_ok a r partial reason n : visible reason ->
  Forall finding_ok (out_findings (fst (text_outcome a r partial reason n))).
Proof.
  intros Hr. unfold text_outcome. destruct r as [out|e]; [|constructor]. fresh_simpl.
  pose proof (text_probe_ok (ra_path a) (so_hints out) (so_probe out) n) as H1'.
  destruct (text_probe_bounded_finding _ _ _ n) as [f m]. cbn [fst] in H1'.
  destruct (partial _); [|by apply Forall_singleton].
  pose proof (inspection_partial_ok (ra_path a) reason m Hr) as H2'.
  destruct (inspection_partial_finding _ _ m) as [g m']. constructor; [done|]. by apply Forall_singleton.
Qed.

Lemma inspect_one_ok a n : Forall finding_ok (out_findings (fst (inspect_one a n))).
Proof.
  unfold inspect_one. destruct (ra_format a); try (apply text_outcome_ok; show_visible).
  - cbn. destruct (inspect_parquet_asset (ra_path a)); constructor.
  - constructor.
Qed.

Lemma extra_ok request plan os failures skipped notes datasets n : Forall (fun o => Forall finding_ok (out_findings o)) os ->
  Forall finding_ok (fst (extra_findings request plan os failures skipped notes datasets n)).
Proof.
  intros Hos. unfold extra_findings. fresh_simpl.
  pose proof (fresh_map_Forall (fun '(p, e) => parquet_read_failed_finding p e) finding_ok failures n
    ltac:(intros [p e] m _; apply parquet_read_failed_ok)) as H1'. destruct (fresh_map _ failures n) as [l1 n1].
  pose proof (fresh_map_Forall (fun _ : unit => scan_truncated_finding (plan_scan_root plan) (max_files (req_options request)))
    finding_ok (if plan_truncated plan then [tt] else []) n1 ltac:(intros; apply scan_truncated_ok)) as H2'.
  destruct (fresh_map _ (if plan_truncated plan then _ else _) n1) as [l2 n2].
  pose proof (fresh_map_Forall (fun _ : unit => inspection_skipped_aggregate_finding (Z.of_nat (length skipped)) skipped)
    finding_ok (if 0 <? length skipped then [tt] else []) n2 ltac:(intros; apply inspection_skipped_ok)) as H3'.
  destruct (fresh_map _ (if 0 <? length skipped then _ else _) n2) as [l3 n3].
  unfold grouping_ambiguous_from_notes.
  pose proof (fresh_map_Forall grouping_ambiguous_from_note finding_ok notes n3
    ltac:(intros; apply grouping_ambiguous_ok)) as H4'. destruct (fresh_map _ notes n3) as [l4 n4].
  pose proof (fresh_map_Forall (fun _ : unit => multiple_datasets_finding (plan_scan_root plan) (length datasets))
    finding_ok (if 2 <=? length datasets then [tt] else []) n4 ltac:(intros; apply multiple_datasets_ok)) as H5'.
  destruct (fresh_map _ (if 2 <=? length datasets then _ else _) n4) as [l5 n5].
  pose proof (fresh_map_Forall (fun d => unpartitioned_collection_finding (ds_dataset_id d) (length (ds_files d)))
    finding_ok (filter (fun d => ds_partition_layout d = Unpartitioned /\ 2 <= length (ds_files d)) datasets) n5
    ltac:(intros; apply unpartitioned_ok)) as H6'. destruct (fresh_map _ (filter _ datasets) n5) as [l6 n6].
  cbn [fst] in *. rewrite !Forall_app. split; [|done]. rewrite flat_map_concat_map. apply Forall_concat.
  by apply Forall_map.
Qed.

(** ** Claim *)

(** Every finding of a report the engine builds passes [validate_finding], has a
    code the code parser accepts (so [code(..)] never panics), carries evidence
    and a location, and holds the fingerprint of its own content. *)
Theorem report_findings_wellformed now request plan n :
  Forall finding_ok (rep_findings (fst (build_report now request plan n))).
Proof.
  unfold build_report. fresh_simpl.
  pose proof (fresh_map_Forall inspect_one (fun o => Forall finding_ok (out_findings o))
    (sort_by resolved_leb (plan_assets plan)) n ltac:(intros; apply inspect_one_ok)) as Hos.
  destruct (fresh_map inspect_one _ n) as [os n1]. cbn [fst] in Hos.
  destruct (infer_parquet_datasets _ _ _ _) as [ds notes].
  match goal with |- context [extra_findings ?a ?b ?c ?d ?e ?f ?g n1] =>
    pose proof (extra_ok a b c d e f g n1 Hos) as He; destruct (extra_findings a b c d e f g n1) as [extra n2] end.
  match goal with |- context [evaluate_scan_rules ?a ?b ?c ?d n2] =>
    pose proof (rules_ok a b c d n2) as Hr; destruct (evaluate_scan_rules a b c d n2) as [rules n3] end.
  cbn [fst rep_findings] in *. eapply Forall_Permutation; [intros x; reflexivity|apply sort_by_perm|].
  by apply Forall_app.
Qed.
End Findings.

(** * Fingerprints *)

(** Equal canonical objects have equal canonical members. *)
Lemma sorted_member l1 l2 k v1 v2 : NoDup (map fst l1) -> NoDup (map fst l2) -> (k, v1) ∈ l1 -> (k, v2) ∈ l2 ->
  sort_json_value (JObj l1) = sort_json_value (JObj l2) -> sort_json_value v1 = sort_json_value v2.
Proof.
  intros Hn1 Hn2 H1 H2. cbn [sort_json_value]. intros [= Heq].
  assert (forall l v, NoDup (map fst l) -> (k, v) ∈ l ->
    bm_get k (bm_of_list (map (fun kv => (fst kv, sort_json_value (snd kv))) l)) = Some (sort_json_value v)) as Hg.
  { intros l v Hn Hin. apply bm_of_list_get_nodup; [by rewrite map_map|].
    by apply (list_elem_of_fmap_2' (fun kv => (fst kv, sort_json_value (snd kv))) l (k, v)). }
  pose proof (Hg l1 v1 Hn1 H1) as E1. rewrite Heq, (Hg l2 v2 Hn2 H2) in E1. by injection E1.
Qed.

Ltac distinct_keys := apply (bool_decide_unpack _); by vm_compute.

Lemma evidence_value_id e e' :
  sort_json_value (evidence_fingerprint_value e) = sort_json_value (evidence_fingerprint_value e') -> ev_id e = ev_id e'.
Proof.
  unfold evidence_fingerprint_value. cbn [sort_json_value]. intros Heq.
  assert (forall e, exists l, NoDup (map fst l) /\ ("id", JStr (ev_id e)) ∈ l /\
    bm_of_list (map (fun kv => (fst kv, sort_json_value (snd kv)))
      ([("id", JStr (ev_id e)); ("kind", JStr (evidence_kind_name (ev_kind e))); ("summary", JStr (ev_summary e))]
       ++ opt_member "location_ref" location_ref_json (ev_location_ref e)
       ++ opt_member "payload" sort_json_value (ev_payload e)
       ++ list_member "references" (map reference_json (ev_references e)))) = l) as Hl.
  { intros x. eexists. split; [apply bm_wf_nodup, bm_of_list_wf|]. split; [|reflexivity].
    apply bm_get_elem, bm_of_list_get_nodup; [|simpl; set_solver].
    destruct (ev_location_ref x), (ev_payload x), (ev_references x); distinct_keys. }
  destruct (Hl e) as (l1 & Hn1 & Hi1 & E1), (Hl e') as (l2 & Hn2 & Hi2 & E2). rewrite E1, E2 in Heq.
  pose proof (sorted_member l1 l2 _ _ _ Hn1 Hn2 Hi1 Hi2 Heq) as Hid. by injection Hid.
Qed.

(** ** Claim *)

(** The text that is hashed into a finding's fingerprint determines the ids of its
    evidence: two findings that differ only in those (random) ids hash different
    texts. *)
Theorem fingerprint_covers_evidence_ids f g :
  sort_json_value (finding_fingerprint_payload f) = sort_json_value (finding_fingerprint_payload g) ->
  map ev_id (sf_evidence f) = map ev_id (sf_evidence g).
Proof.
  unfold finding_fingerprint_payload. intros Heq.
  apply (sorted_member _ _ "evidence" (JArr (map evidence_fingerprint_value (sf_evidence f)))
           (JArr (map evidence_fingerprint_value (sf_evidence g)))) in Heq;
    [|distinct_keys|distinct_keys|set_solver|set_solver].
  cbn [sort_json_value] in Heq. injection Heq as Heq. revert Heq. generalize (sf_evidence g).
  induction (sf_evidence f) as [|e l IH]; intros [|e' l']; try done. cbn [map].
  intros Heq. apply (f_equal (fun l => (hd JNull l, tl l))) in Heq. cbn [hd tl] in Heq.
  apply pair_equal_spec in Heq as [He Hl]. by rewrite (evidence_value_id _ _ He), (IH _ Hl).
Qed.
