(* ===== verification/ScanStore.v ===== *)
(** Stored scan runs: redaction before persistence, the diff of two reports, target
    identities, and the statements of the two SQL stores on the scan tables
    (src/crates/paraclete-types/src/run.rs; sqlite_store.rs, postgres_store.rs,
    labels.rs, models.rs and store_backend.rs of src/crates/paraclete-store/src).

    Serialization of reports and summaries is serde's ([ReportSerde], with its round
    trip); text columns hold chrono instants ([Rfc3339]) and canonical ids ([Uuids]).
    The stores differ in what their database does with a collation and with a
    negative [LIMIT] or [OFFSET]: that is [SqlDialect]. *)

From Stdlib Require Import Ascii.
From S2P Require Import Prelude BTree Location Schema RepairPlan Inventory Journal JobStore Application ScanTypes ScanRules.

(** * Runs *)

Inductive RunOutcome := RunCompleted | RunCompletedPartial.

#[global] Instance RunOutcome_eq_dec : EqDecision RunOutcome.
Proof. solve_decision. Defined.

Record TargetIdentity := { target_kind : string; normalized_key : string }.

#[global] Instance TargetIdentity_eq_dec : EqDecision TargetIdentity.
Proof. solve_decision. Defined.

(** [Url::as_str]. *)
Class UrlText := url_as_str : Url -> string.

Definition from_scan_target `{UrlText} (t : ScanTarget) : TargetIdentity :=
  match t with
  | LocalFile p => {| target_kind := "local_file"; normalized_key := p |}
  | LocalDirectory p => {| target_kind := "local_directory"; normalized_key := p |}
  | LogicalDataset id _ => {| target_kind := "logical_dataset"; normalized_key := id |}
  | ObjectStorePlaceholder uri _ => {| target_kind := "object_store_placeholder"; normalized_key := url_as_str uri |}
  end.

(** * Redaction *)

Record RedactionPolicy := {
  strip_probe_inspection_hints : bool;
  strip_probe_metadata : bool;
  strip_finding_evidence_payloads : bool;
  truncate_failure_messages_to : option nat;
}.

Definition transport_safe_persist : RedactionPolicy := {|
  strip_probe_inspection_hints := true; strip_probe_metadata := true; strip_finding_evidence_payloads := true;
  truncate_failure_messages_to := Some (8 * 1024) |}.

(** Is the byte the first of a UTF-8 character? *)
Definition char_start (c : ascii) : bool :=
  let n := Ascii.N_of_ascii c in negb ((128 <=? n) && (n <? 192))%N.

(** [s.chars().take(n).collect()] on UTF-8 text. *)
Fixpoint take_chars (n : nat) (s : string) : string :=
  match s with
  | EmptyString => EmptyString
  | String c s =>
      if char_start c then match n with 0 => EmptyString | S n => String c (take_chars n s) end
      else String c (take_chars n s)
  end.

Definition redact_asset (p : RedactionPolicy) (a : ScanAsset) : ScanAsset := {|
  sa_path := sa_path a; sa_format := sa_format a; sa_size_bytes := sa_size_bytes a;
  sa_inspection_status := sa_inspection_status a; sa_failure_kind := sa_failure_kind a;
  sa_failure_message := match truncate_failure_messages_to p with
                        | Some max => take_chars max <$> sa_failure_message a
                        | None => sa_failure_message a
                        end;
  sa_dataset_id := sa_dataset_id a;
  sa_probe := if strip_probe_metadata p then None else sa_probe a;
  sa_inspection_hints := if strip_probe_inspection_hints p then None else sa_inspection_hints a |}.

Definition strip_payload (e : Evidence) : Evidence := {|
  ev_id := ev_id e; ev_kind := ev_kind e; ev_summary := ev_summary e; ev_location_ref := ev_location_ref e;
  ev_payload := None; ev_references := ev_references e |}.

Definition redact_finding (p : RedactionPolicy) (f : ScanFinding) : ScanFinding :=
  if strip_finding_evidence_payloads p then {|
    sf_id := sf_id f; sf_code := sf_code f; sf_severity := sf_severity f; sf_category := sf_category f;
    sf_summary := sf_summary f; sf_detail := sf_detail f; sf_evidence := map strip_payload (sf_evidence f);
    sf_locations := sf_locations f; sf_recommendations := sf_recommendations f;
    sf_fingerprint := sf_fingerprint f; sf_attributes := sf_attributes f |}
  else f.

Definition apply_redaction_policy (r : Report) (p : RedactionPolicy) : Report := {|
  rep_request := rep_request r; rep_metadata := rep_metadata r; rep_summary := rep_summary r;
  rep_assets := map (redact_asset p) (rep_assets r); rep_datasets := rep_datasets r;
  rep_dataset_summaries := rep_dataset_summaries r; rep_format_summaries := rep_format_summaries r;
  rep_findings := map (redact_finding p) (rep_findings r) |}.

(** * Diffs *)

Record SummaryDelta := {
  discovered_assets_delta : Z; inspected_assets_delta : Z; failed_inspection_assets_delta : Z;
  skipped_inspection_assets_delta : Z; dataset_member_assets_delta : Z; dataset_count_delta : Z;
  findings_total_delta : Z;
}.

Record RunDiff := {
  diff_run_a : string; diff_run_b : string; diff_findings_added : list string; diff_findings_removed : list string;
  datasets_added : list string; datasets_removed : list string; summary_delta : SummaryDelta;
}.

Definition finding_fingerprints (r : Report) : bset :=
  bs_of_list (map (fun f => default ("fallback:" +:+ sf_id f) (sf_fingerprint f)) (rep_findings r)).

Definition dataset_ids (r : Report) : bset := bs_of_list (map ds_dataset_id (rep_datasets r)).

(** [BTreeSet::difference]. *)
Definition bs_difference (a b : bset) : list string := filter (fun k => bm_get k b = None) (bm_keys a).

(** [i64::try_from(n).unwrap_or(0)] of an unsigned [n]. *)
Definition i64_or_zero (n : Z) : Z := if (n <? 2 ^ 63)%Z then n else 0%Z.

Definition diff_summaries (a b : ScanSummary) : SummaryDelta :=
  let d f := (i64_or_zero (f b) - i64_or_zero (f a))%Z in
  {| discovered_assets_delta := d discovered_assets; inspected_assets_delta := d inspected_assets;
     failed_inspection_assets_delta := d failed_inspection_assets;
     skipped_inspection_assets_delta := d skipped_inspection_assets;
     dataset_member_assets_delta := d dataset_member_assets; dataset_count_delta := d dataset_count;
     findings_total_delta := d findings_total |}.

Definition diff_reports (run_a run_b : string) (a b : Report) : RunDiff := {|
  diff_run_a := run_a; diff_run_b := run_b;
  diff_findings_added := bs_difference (finding_fingerprints b) (finding_fingerprints a);
  diff_findings_removed := bs_difference (finding_fingerprints a) (finding_fingerprints b);
  datasets_added := bs_difference (dataset_ids b) (dataset_ids a);
  datasets_removed := bs_difference (dataset_ids a) (dataset_ids b);
  summary_delta := diff_summaries (rep_summary a) (rep_summary b) |}.

(** * Labels *)

Definition grouping_kind_label (k : GroupingKind) : string :=
  match k with
  | SingleFile => "single_file" | PathAnchor => "path_anchor" | PathAnchorSchemaSplit => "path_anchor_schema_split"
  | PathAnchorPartFilePattern => "path_anchor_part_file_pattern"
  end.

Definition partition_layout_label (p : PartitionLayout) : string :=
  match p with Unpartitioned => "unpartitioned" | HiveDirectoryKeys => "hive_directory_keys" end.

Definition failure_kind_db (k : FailureKind) : string :=
  match k with
  | FkIoError => "io_error" | FkFormatReadError => "format_read_error" | FkUnsupportedFormat => "unsupported_format"
  | FkProbeDecodeError => "probe_decode_error" | FkTruncatedByPolicy => "truncated_by_policy"
  | FkInternalEngineError => "internal_engine_error"
  end.

(** [serde_json::from_str::<FailureKind>] on the quoted label. *)
Definition failure_kind_from (s : string) : option FailureKind :=
  find (fun k => bool_decide (failure_kind_db k = s))
    [FkIoError; FkFormatReadError; FkUnsupportedFormat; FkProbeDecodeError; FkTruncatedByPolicy; FkInternalEngineError].

Definition parse_data_format (s : string) : option DataFormat :=
  if decide (s = "parquet") then Some Parquet
  else if decide (s = "csv") then Some Csv
  else if decide (s = "json") then Some Inventory.Json
  else if decide (s = "ndjson") then Some Ndjson
  else if decide (s = "unknown") then Some UnknownFormat
  else None.

Definition inspection_status_db (s : InspectionStatus) : string :=
  match s with Inspected => "inspected" | InspFailed => "failed" | InspSkipped => "skipped" end.

Definition parse_inspection_status (s : string) : Result StoreError InspectionStatus :=
  if decide (s = "inspected") then Ok Inspected
  else if decide (s = "failed") then Ok InspFailed
  else if decide (s = "skipped") then Ok InspSkipped
  else Err (ReportValidation ("unknown inspection_status " +:+ s)).

Definition run_outcome_db (o : RunOutcome) : string :=
  match o with RunCompleted => "completed" | RunCompletedPartial => "completed_partial" end.

Definition parse_run_outcome (s : string) : Result StoreError RunOutcome :=
  if decide (s = "completed") then Ok RunCompleted
  else if decide (s = "completed_partial") then Ok RunCompletedPartial
  else Err (ReportValidation ("unknown run_outcome " +:+ s)).

(** * Tables *)

Record RunRow := {
  rr_run_id : string; rr_request_scan_id : string; rr_target_kind : string; rr_normalized_target_key : string;
  rr_target_json : string; rr_started_at : string; rr_completed_at : string; rr_run_outcome : string;
  rr_engine_revision : option string; rr_contract_schema_version : string; rr_report_format_version : string;
  rr_report_sha256 : string; rr_summary_json : string;
}.

Record AssetRow := {
  ar_run_id : string; ar_path : string; ar_format : string; ar_inspection_status : string;
  ar_failure_kind : option string; ar_failure_message : option string; ar_dataset_id : option string;
}.

Record DatasetRow := {
  dr_run_id : string; dr_dataset_id : string; dr_grouping_kind : string; dr_partition_layout : string;
  dr_file_count : Z;
}.

Record FindingRow := {
  fr_run_id : string; fr_fingerprint : string; fr_code : string; fr_severity : string; fr_category : string;
  fr_asset_path : option string; fr_dataset_id : option string;
}.

Record scan_tables := {
  scan_runs : list RunRow;
  scan_reports : list (string * string);
  scan_assets : list AssetRow;
  scan_datasets : list DatasetRow;
  scan_findings_table : list FindingRow;
}.

Definition tables_empty : scan_tables := {|
  scan_runs := []; scan_reports := []; scan_assets := []; scan_datasets := []; scan_findings_table := [] |}.

(** Inserting rows with a primary key, one statement after the other. *)
Fixpoint insert_all {R K} `{EqDecision K} (key : R -> K) (constraint : string) (rows table : list R)
    : Result StoreError (list R) :=
  match rows with
  | [] => Ok table
  | r :: rows =>
      if decide (key r ∈ map key table) then Err (Sql constraint) else insert_all key constraint rows (table ++ [r])
  end.

(** What serde does with reports, summaries and targets.  (serde reads a payload that is
    present and null back as absent; no report of the engine has one.) *)
Class ReportSerde := {
  report_to_string : Report -> string;
  report_from_string : string -> Result string Report;
  summary_to_string : ScanSummary -> string;
  summary_from_string : string -> Result string ScanSummary;
  target_to_string : ScanTarget -> string;
  value_from_string : string -> option json;
  report_serde : forall r, report_from_string (report_to_string r) = Ok r;
  summary_serde : forall s, summary_from_string (summary_to_string s) = Ok s;
  target_serde : forall t, is_Some (value_from_string (target_to_string t));
}.

Definition json_as_str (v : json) : option string := match v with JStr s => Some s | _ => None end.

(** How the database orders text, names a violated key and pages rows. *)
Class SqlDialect := {
  text_leb : string -> string -> bool;
  text_leb_total : forall a b, text_leb a b = true \/ text_leb b a = true;
  (** The text of a violated primary key: table and columns. *)
  unique_error : string -> list string -> string;
  sql_page : forall A, Z -> Z -> list A -> Result string (list A);
  sql_page_ok : forall A limit offset (l : list A), (0 <= limit)%Z -> (0 <= offset)%Z ->
    sql_page A limit offset l = Ok (take (Z.to_nat limit) (drop (Z.to_nat offset) l));
}.
Arguments sql_page {_ _}.

(** [limit as i64]. *)
Definition as_i64 (z : Z) : Z := wrap_i64 z.

(** * Statements *)

Record StoredAssetRow := {
  st_path : string; st_format : DataFormat; st_inspection_status : InspectionStatus;
  st_failure_kind : option FailureKind; st_failure_message : option string; st_dataset_id : option string;
}.

Record ScanRunListItem := {
  li_run_id : string; li_request_scan_id : string; li_completed_at : Z; li_run_outcome : RunOutcome;
  li_target_identity : TargetIdentity;
}.

Record RunPublicMeta := {
  pmeta_run_id : string; pmeta_request_scan_id : string; pmeta_target_identity : TargetIdentity;
  pmeta_target_json : json; pmeta_started_at : Z; pmeta_completed_at : Z; pmeta_run_outcome : RunOutcome;
  pmeta_engine_revision : option string; pmeta_contract_schema_version : string;
  pmeta_report_format_version : string; pmeta_report_sha256 : string; pmeta_summary : ScanSummary;
}.

(** [ScanRun]: the header, without the digest and the summary. *)
Record ScanRun := {
  run_run_id : string; run_request_scan_id : string; run_target_identity : TargetIdentity; run_target_json : json;
  run_started_at : Z; run_completed_at : Z; run_outcome : RunOutcome; run_engine_revision : option string;
  run_contract_schema_version : string; run_report_format_version : string;
}.

Section Store.
Context `{Digests} `{Rfc3339} `{Uuids} `{UrlText} `{ReportSerde} {D : SqlDialect}.

Definition run_row (run_id : string) (started completed : Z) (stored : Report) : RunRow :=
  let identity := from_scan_target (req_target (rep_request stored)) in
  {| rr_run_id := run_id; rr_request_scan_id := req_scan_id (rep_request stored);
     rr_target_kind := target_kind identity; rr_normalized_target_key := normalized_key identity;
     rr_target_json := target_to_string (req_target (rep_request stored));
     rr_started_at := to_rfc3339 started; rr_completed_at := to_rfc3339 completed;
     rr_run_outcome := run_outcome_db (if partial_inspection (rep_summary stored) then RunCompletedPartial else RunCompleted);
     rr_engine_revision := meta_engine_revision (rep_metadata stored);
     rr_contract_schema_version := meta_contract_schema (rep_metadata stored);
     rr_report_format_version := meta_report_format (rep_metadata stored);
     rr_report_sha256 := hex_encode (sha256 (report_to_string stored));
     rr_summary_json := summary_to_string (rep_summary stored) |}.

Definition asset_row (run_id : string) (a : ScanAsset) : AssetRow := {|
  ar_run_id := run_id; ar_path := sa_path a; ar_format := format_label (sa_format a);
  ar_inspection_status := inspection_status_db (sa_inspection_status a);
  ar_failure_kind := failure_kind_db <$> sa_failure_kind a; ar_failure_message := sa_failure_message a;
  ar_dataset_id := sa_dataset_id a |}.

Definition dataset_row (run_id : string) (d : Dataset) : DatasetRow := {|
  dr_run_id := run_id; dr_dataset_id := ds_dataset_id d; dr_grouping_kind := grouping_kind_label (ds_grouping_kind d);
  dr_partition_layout := partition_layout_label (ds_partition_layout d);
  dr_file_count := Z.of_nat (length (ds_files d)) |}.

Definition finding_row (run_id : string) (f : ScanFinding) : FindingRow := {|
  fr_run_id := run_id; fr_fingerprint := default "missing_fingerprint" (sf_fingerprint f); fr_code := sf_code f;
  fr_severity := severity_name (sf_severity f); fr_category := category_name (sf_category f);
  fr_asset_path := hd_error (sf_locations f) ≫= loc_file;
  fr_dataset_id := bm_get "dataset_id" (sf_attributes f) ≫= json_as_str |}.

(** The statements of the transaction, on the tables it started from. *)
Definition persist_tx (run_id : string) (started completed : Z) (stored : Report) (t : scan_tables)
    : Result StoreError scan_tables :=
  runs ← insert_all rr_run_id (unique_error "scan_runs" ["run_id"])
           [run_row run_id started completed stored] (scan_runs t);
  reports ← insert_all fst (unique_error "scan_reports" ["run_id"])
              [(run_id, report_to_string stored)] (scan_reports t);
  assets ← insert_all (fun r => (ar_run_id r, ar_path r)) (unique_error "scan_assets" ["run_id"; "path"])
             (map (asset_row run_id) (rep_assets stored)) (scan_assets t);
  datasets ← insert_all (fun r => (dr_run_id r, dr_dataset_id r))
               (unique_error "scan_datasets" ["run_id"; "dataset_id"])
               (map (dataset_row run_id) (rep_datasets stored)) (scan_datasets t);
  findings ← insert_all (fun r => (fr_run_id r, fr_fingerprint r))
               (unique_error "scan_findings" ["run_id"; "fingerprint"])
               (map (finding_row run_id) (rep_findings stored)) (scan_findings_table t);
  Ok {| scan_runs := runs; scan_reports := reports; scan_assets := assets; scan_datasets := datasets;
        scan_findings_table := findings |}.

(** Commit only when every statement succeeded. *)
Definition persist_scan_run (run_id : string) (started completed : Z) (report : Report) (redaction : RedactionPolicy)
    (t : scan_tables) : Result StoreError unit * scan_tables :=
  let validated r := map_err (fun e => ReportValidation (validation_error_display e)) (validate_report r) in
  let stored := apply_redaction_policy report redaction in
  match (_ ← validated report; _ ← validated stored; persist_tx run_id started completed stored t) with
  | Ok t' => (Ok tt, t')
  | Err e => (Err e, t)
  end.

Definition load_report (run_id : string) (t : scan_tables) : Result StoreError Report :=
  match find (fun r => bool_decide (fst r = run_id)) (scan_reports t) with
  | None => Err (RunNotFound run_id)
  | Some (_, s) => map_err JsonError (report_from_string s)
  end.

Definition find_run (run_id : string) (t : scan_tables) : option RunRow :=
  find (fun r => bool_decide (rr_run_id r = run_id)) (scan_runs t).

Definition load_stored_scan_summary (run_id : string) (t : scan_tables) : Result StoreError ScanSummary :=
  row ← ok_or (find_run run_id t) (RunNotFound run_id);
  match summary_from_string (rr_summary_json row) with
  | Ok s => Ok s
  | Err _ => r ← load_report run_id t; Ok (rep_summary r)
  end.

Definition ensure_run_exists (run_id : string) (t : scan_tables) : Result StoreError unit :=
  if length (filter (fun r => rr_run_id r = run_id) (scan_runs t)) =? 0 then Err (RunNotFound run_id) else Ok tt.

(** An optional [AND column = ?]. *)
Definition column_matches (wanted : option string) (value : string) : bool :=
  match wanted with Some w => bool_decide (value = w) | None => true end.

Definition select_assets (run_id : string) (status : option string) (t : scan_tables) : list AssetRow :=
  filter (fun r => bool_decide (ar_run_id r = run_id) && column_matches status (ar_inspection_status r) = true)
    (scan_assets t).

Definition count_assets (run_id : string) (status : option string) (t : scan_tables) : Result StoreError nat :=
  _ ← ensure_run_exists run_id t; Ok (length (select_assets run_id status t)).

Definition stored_asset_row_from_sql (r : AssetRow) : Result StoreError StoredAssetRow :=
  format ← ok_or (parse_data_format (ar_format r)) (ReportValidation "unknown asset format label");
  status ← parse_inspection_status (ar_inspection_status r);
  Ok {| st_path := ar_path r; st_format := format; st_inspection_status := status;
        st_failure_kind := ar_failure_kind r ≫= failure_kind_from; st_failure_message := ar_failure_message r;
        st_dataset_id := ar_dataset_id r |}.

Definition asset_path_leb (a b : AssetRow) : bool := text_leb (ar_path a) (ar_path b).

Definition list_assets_page (run_id : string) (status : option string) (offset limit : Z) (t : scan_tables)
    : Result StoreError (list StoredAssetRow) :=
  _ ← ensure_run_exists run_id t;
  rows ← map_err Sql (sql_page (as_i64 limit) (as_i64 offset) (sort_by asset_path_leb (select_assets run_id status t)));
  try_map stored_asset_row_from_sql rows.

Definition select_findings (run_id : string) (severity code : option string) (t : scan_tables) : list FindingRow :=
  filter (fun r => bool_decide (fr_run_id r = run_id) && column_matches severity (fr_severity r)
                   && column_matches code (fr_code r) = true) (scan_findings_table t).

Definition count_findings (run_id : string) (severity code : option string) (t : scan_tables) : Result StoreError nat :=
  _ ← ensure_run_exists run_id t; Ok (length (select_findings run_id severity code t)).

Definition fingerprint_leb (a b : FindingRow) : bool := text_leb (fr_fingerprint a) (fr_fingerprint b).

(** A [StoredFindingRow] is the row without its run. *)
Definition list_findings_page (run_id : string) (severity code : option string) (offset limit : Z) (t : scan_tables)
    : Result StoreError (list FindingRow) :=
  _ ← ensure_run_exists run_id t;
  map_err Sql (sql_page (as_i64 limit) (as_i64 offset) (sort_by fingerprint_leb (select_findings run_id severity code t))).

Definition parse_instant (s what : string) : Result StoreError Z :=
  ok_or (parse_from_rfc3339 s) (ReportValidation ("invalid " +:+ what)).
Definition parse_id (s what : string) : Result StoreError string :=
  ok_or (uuid_parse s) (ReportValidation ("invalid " +:+ what)).

Definition list_item (r : RunRow) : Result StoreError ScanRunListItem :=
  run_id ← parse_id (rr_run_id r) "run_id";
  scan_id ← parse_id (rr_request_scan_id r) "request_scan_id";
  completed ← parse_instant (rr_completed_at r) "completed_at";
  outcome ← parse_run_outcome (rr_run_outcome r);
  Ok {| li_run_id := run_id; li_request_scan_id := scan_id; li_completed_at := completed; li_run_outcome := outcome;
        li_target_identity := {| target_kind := rr_target_kind r; normalized_key := rr_normalized_target_key r |} |}.

(** [ORDER BY completed_at DESC]. *)
Definition completed_geb (a b : RunRow) : bool := text_leb (rr_completed_at b) (rr_completed_at a).

Definition list_runs_for_target (identity : TargetIdentity) (limit : Z) (t : scan_tables)
    : Result StoreError (list ScanRunListItem) :=
  rows ← map_err Sql (sql_page limit 0 (sort_by completed_geb
    (filter (fun r => rr_target_kind r = target_kind identity /\ rr_normalized_target_key r = normalized_key identity)
       (scan_runs t))));
  try_map list_item rows.

Definition get_run_public_meta (run_id : string) (t : scan_tables) : Result StoreError RunPublicMeta :=
  r ← ok_or (find_run run_id t) (RunNotFound run_id);
  target_json ← ok_or (value_from_string (rr_target_json r)) (ReportValidation "invalid target_json");
  summary ← match summary_from_string (rr_summary_json r) with
            | Ok s => Ok s
            | Err _ => rep ← load_report run_id t; Ok (rep_summary rep)
            end;
  id ← parse_id (rr_run_id r) "run_id";
  scan_id ← parse_id (rr_request_scan_id r) "request_scan_id";
  started ← parse_instant (rr_started_at r) "started_at";
  completed ← parse_instant (rr_completed_at r) "completed_at";
  outcome ← parse_run_outcome (rr_run_outcome r);
  Ok {| pmeta_run_id := id; pmeta_request_scan_id := scan_id;
        pmeta_target_identity := {| target_kind := rr_target_kind r; normalized_key := rr_normalized_target_key r |};
        pmeta_target_json := target_json; pmeta_started_at := started; pmeta_completed_at := completed;
        pmeta_run_outcome := outcome; pmeta_engine_revision := rr_engine_revision r;
        pmeta_contract_schema_version := rr_contract_schema_version r;
        pmeta_report_format_version := rr_report_format_version r; pmeta_report_sha256 := rr_report_sha256 r;
        pmeta_summary := summary |}.

Definition get_run_header (run_id : string) (t : scan_tables) : Result StoreError ScanRun :=
  m ← get_run_public_meta run_id t;
  Ok {| run_run_id := pmeta_run_id m; run_request_scan_id := pmeta_request_scan_id m;
        run_target_identity := pmeta_target_identity m; run_target_json := pmeta_target_json m;
        run_started_at := pmeta_started_at m; run_completed_at := pmeta_completed_at m;
        run_outcome := pmeta_run_outcome m; run_engine_revision := pmeta_engine_revision m;
        run_contract_schema_version := pmeta_contract_schema_version m;
        run_report_format_version := pmeta_report_format_version m |}.

Definition count_run {R} (run_of : R -> string) (run_id : string) (rows : list R) : nat :=
  length (filter (fun r => run_of r = run_id) rows).

Definition verify_projection_integrity (run_id : string) (t : scan_tables) : Result StoreError unit :=
  report ← load_report run_id t;
  if (count_run ar_run_id run_id (scan_assets t) =? length (rep_assets report))
     && (count_run dr_run_id run_id (scan_datasets t) =? length (rep_datasets report))
     && (count_run fr_run_id run_id (scan_findings_table t) =? length (rep_findings report))
  then Ok tt else Err (ReportValidation "projection row counts do not match report").
End Store.

(** * The two databases *)

(** SQLite: binary collation; a negative limit is no limit, a negative offset is 0. *)
Definition sqlite_page {A} (limit offset : Z) (l : list A) : Result string (list A) :=
  let rest := drop (Z.to_nat offset) l in
  Ok (if (limit <? 0)%Z then rest else take (Z.to_nat limit) rest).

#[global, program] Instance SqliteDialect : SqlDialect := {|
  text_leb := str_leb;
  unique_error table columns :=
    "UNIQUE constraint failed: " +:+ join_strings ", " (map (fun c => table +:+ "." +:+ c) columns);
  sql_page := @sqlite_page |}.
Next Obligation. intros a b. unfold str_leb. rewrite !bool_decide_eq_true. apply (total String.le). Qed.
Next Obligation. intros A limit offset l Hl Ho. unfold sqlite_page. by rewrite (proj2 (Z.ltb_ge _ _) Hl). Qed.

(** Postgres: the database's collation; negative limits and offsets are errors. *)
Definition postgres_page {A} (limit offset : Z) (l : list A) : Result string (list A) :=
  if (limit <? 0)%Z then Err "LIMIT must not be negative"
  else if (offset <? 0)%Z then Err "OFFSET must not be negative"
  else Ok (take (Z.to_nat limit) (drop (Z.to_nat offset) l)).

Class Collation := {
  collate : string -> string -> bool;
  collate_total : forall a b, collate a b = true \/ collate b a = true;
}.

#[program] Definition PostgresDialect `{Collation} : SqlDialect := {|
  text_leb := collate;
  unique_error table columns := "duplicate key value violates unique constraint " +:+ table +:+ "_pkey";
  sql_page := @postgres_page |}.
Next Obligation. intros ? a b. apply collate_total. Qed.
Next Obligation.
  intros ? A limit offset l Hl Ho. unfold postgres_page. by rewrite (proj2 (Z.ltb_ge _ _) Hl), (proj2 (Z.ltb_ge _ _) Ho).
Qed.

Section Backends.
Context `{Digests} `{Rfc3339} `{Uuids} `{UrlText} `{ReportSerde} `{Collation}.

Definition pg_persist_scan_run := persist_scan_run (D := PostgresDialect).
Definition pg_list_assets_page := list_assets_page (D := PostgresDialect).
Definition pg_list_findings_page := list_findings_page (D := PostgresDialect).
Definition pg_list_runs_for_target := list_runs_for_target (D := PostgresDialect).

(** [StoreBackend]: every call goes to the store that was connected. *)
Inductive StoreBackend := SqliteStore (t : scan_tables) | PostgresStore (t : scan_tables).

Definition backend_tables (b : StoreBackend) : scan_tables :=
  match b with SqliteStore t | PostgresStore t => t end.

Definition backend_persist_scan_run (run_id : string) (started completed : Z) (report : Report)
    (redaction : RedactionPolicy) (b : StoreBackend) : Result StoreError unit * StoreBackend :=
  match b with
  | SqliteStore t => let '(r, t) := persist_scan_run run_id started completed report redaction t in (r, SqliteStore t)
  | PostgresStore t =>
      let '(r, t) := pg_persist_scan_run run_id started completed report redaction t in (r, PostgresStore t)
  end.

Definition backend_load_report (run_id : string) (b : StoreBackend) : Result StoreError Report :=
  load_report run_id (backend_tables b).

Definition backend_list_assets_page (run_id : string) (status : option string) (offset limit : Z) (b : StoreBackend)
    : Result StoreError (list StoredAssetRow) :=
  match b with
  | SqliteStore t => list_assets_page run_id status offset limit t
  | PostgresStore t => pg_list_assets_page run_id status offset limit t
  end.

Definition backend_list_findings_page (run_id : string) (severity code : option string) (offset limit : Z)
    (b : StoreBackend) : Result StoreError (list FindingRow) :=
  match b with
  | SqliteStore t => list_findings_page run_id severity code offset limit t
  | PostgresStore t => pg_list_findings_page run_id severity code offset limit t
  end.

Definition backend_list_runs_for_target (identity : TargetIdentity) (limit : Z) (b : StoreBackend)
    : Result StoreError (list ScanRunListItem) :=
  match b with
  | SqliteStore t => list_runs_for_target identity limit t
  | PostgresStore t => pg_list_runs_for_target identity limit t
  end.

Definition backend_verify_projection_integrity (run_id : string) (b : StoreBackend) : Result StoreError unit :=
  verify_projection_integrity run_id (backend_tables b).
End Backends.
