(* ===== verification/ScanStoreProofs.v ===== *)
(** Stored scan runs: when persisting succeeds, what is read back, the integrity of
    the projections as an invariant, pages, diffs and redaction. *)

From Stdlib Require Import Ascii.
From S2P Require Import Prelude BTree Location Schema RepairPlan Backend Inventory Journal JobStore Execute Application.
From S2P Require Import ParquetFooter ScanTypes ScanInfer ScanRules ScanEngine ScanProofs ScanRuleProofs ScanStore.

(** * Labels *)

Lemma format_label_round_trip f : parse_data_format (format_label f) = Some f.
Proof. by destruct f. Qed.
Lemma status_round_trip s : parse_inspection_status (inspection_status_db s) = Ok s.
Proof. by destruct s. Qed.
Lemma outcome_round_trip o : parse_run_outcome (run_outcome_db o) = Ok o.
Proof. by destruct o. Qed.
Lemma failure_kind_round_trip k : failure_kind_from (failure_kind_db k) = Some k.
Proof. by destruct k. Qed.

(** * Inserting rows *)

Lemma insert_all_Ok {R K} `{EqDecision K} (key : R -> K) c rows table t' :
  insert_all key c rows table = Ok t' <->
  t' = table ++ rows /\ NoDup (map key rows) /\ Forall (fun r => key r ∉ map key table) rows.
Proof.
  revert table. induction rows as [|r rows IH]; intros table; cbn [insert_all map].
  - rewrite app_nil_r. split; [by intros [= <-]; repeat constructor|by intros (-> & _)].
  - case_decide as Hin.
    + split; [done|]. intros (_ & _ & Hf). by inversion Hf.
    + rewrite IH, map_app, <- app_assoc. cbn [map app]. rewrite NoDup_cons, Forall_cons. setoid_rewrite not_elem_of_app.
      setoid_rewrite list_elem_of_singleton. split.
      * intros (-> & Hnd & Hf). rewrite Forall_forall in Hf. repeat split; [|done|done|apply Forall_forall; naive_solver].
        rewrite list_elem_of_fmap. intros (x & Hx & Hin'). by destruct (Hf x Hin') as [_ []].
      * intros (-> & [Hni Hnd] & _ & Hf). rewrite Forall_forall in *. repeat split; try done; [naive_solver|].
        intros Heq. apply Hni. rewrite <- Heq. by apply (list_elem_of_fmap_2 key).
Qed.

Section Store.
Context `{Digests} `{Rfc3339} `{Uuids} `{UrlText} `{ReportSerde} {D : SqlDialect}.

(** * The invariant of the tables *)

Definition run_ids_of (t : scan_tables) : list string := map rr_run_id (scan_runs t).

Record tables_wf (t : scan_tables) : Prop := {
  tw_runs : NoDup (run_ids_of t);
  tw_reports : map fst (scan_reports t) = run_ids_of t;
  tw_assets : Forall (fun r => ar_run_id r ∈ run_ids_of t) (scan_assets t);
  tw_datasets : Forall (fun r => dr_run_id r ∈ run_ids_of t) (scan_datasets t);
  tw_findings : Forall (fun r => fr_run_id r ∈ run_ids_of t) (scan_findings_table t);
  (** The stored projections of a run are those of its stored report. *)
  tw_integrity : forall id, id ∈ run_ids_of t -> verify_projection_integrity id t = Ok tt;
}.

Definition appended (run_id : string) (started completed : Z) (r : Report) (t : scan_tables) : scan_tables := {|
  scan_runs := scan_runs t ++ [run_row run_id started completed r];
  scan_reports := scan_reports t ++ [(run_id, report_to_string r)];
  scan_assets := scan_assets t ++ map (asset_row run_id) (rep_assets r);
  scan_datasets := scan_datasets t ++ map (dataset_row run_id) (rep_datasets r);
  scan_findings_table := scan_findings_table t ++ map (finding_row run_id) (rep_findings r) |}.

Definition distinct_rows (r : Report) : Prop :=
  NoDup (map sa_path (rep_assets r)) /\ NoDup (map ds_dataset_id (rep_datasets r)) /\
  NoDup (map (fun f => default "missing_fingerprint" (sf_fingerprint f)) (rep_findings r)).

(** Rows of a fresh run clash with no row of the table. *)
Lemma fresh_rows {R A K} (run_of : R -> string) (key : R -> K) (row : A -> R) (ids : list string) (run_id : string)
    (table : list R) (l : list A) : run_id ∉ ids -> Forall (fun r => run_of r ∈ ids) table ->
  (forall r r', key r = key r' -> run_of r = run_of r') -> (forall a, run_of (row a) = run_id) ->
  Forall (fun r => key r ∉ map key table) (map row l).
Proof.
  intros Hid Ht Hk Hr. apply Forall_forall. intros r Hin. apply list_elem_of_fmap in Hin as (a & -> & _).
  rewrite list_elem_of_fmap. intros (r' & Heq & Hin'). rewrite Forall_forall in Ht. apply Hid.
  rewrite <- (Hr a), (Hk _ _ Heq). auto.
Qed.

Lemma nodup_map_inj {A B C} (f : A -> B) (g : A -> C) l : (forall a b, f a = f b -> g a = g b) ->
  NoDup (map g l) -> NoDup (map f l).
Proof.
  intros Hfg. induction l as [|a l IH]; simpl; [constructor|]. rewrite !NoDup_cons. intros [Hni Hnd]. split; [|auto].
  rewrite list_elem_of_fmap. intros (b & Heq & Hin). apply Hni. rewrite (Hfg _ _ Heq). by apply (list_elem_of_fmap_2 g).
Qed.

Lemma nodup_rows {A R K L} (row : A -> R) (key : R -> K) (g : A -> L) l :
  (forall a b, key (row a) = key (row b) <-> g a = g b) -> (NoDup (map key (map row l)) <-> NoDup (map g l)).
Proof. intros Hk. rewrite map_map. split; apply nodup_map_inj; intros a b; apply Hk. Qed.

Lemma persist_tx_Ok run_id started completed r t t' : tables_wf t ->
  (persist_tx run_id started completed r t = Ok t' <->
   ~ (run_id ∈ run_ids_of t) /\ distinct_rows r /\ t' = appended run_id started completed r t).
Proof.
  intros Hwf. unfold persist_tx, distinct_rows. repeat setoid_rewrite bind_Ok. repeat setoid_rewrite insert_all_Ok.
  destruct Hwf as [_ Hrep Has Hds Hfs _]. split.
  - intros (? & (-> & _ & Hr) & ? & (-> & _ & _) & ? & (-> & Ha & _) & ? & (-> & Hd & _) & ? & (-> & Hf & _) & [= <-]).
    inversion Hr; subst. split; [done|]. split; [|done].
    rewrite (nodup_rows _ _ sa_path) in Ha by (intros; cbn; split; congruence).
    rewrite (nodup_rows _ _ ds_dataset_id) in Hd by (intros; cbn; split; congruence).
    rewrite (nodup_rows _ _ (fun f => default "missing_fingerprint" (sf_fingerprint f))) in Hf by (intros; cbn; split; congruence).
    done.
  - intros (Hid & (Ha & Hd & Hf) & ->). repeat (eexists; split; [split; [reflexivity|split]|]);
      [..|reflexivity].
    + apply NoDup_singleton.
    + by apply Forall_singleton.
    + apply NoDup_singleton.
    + apply Forall_singleton. by rewrite Hrep.
    + by apply (nodup_rows _ _ sa_path); [intros; cbn; split; congruence|].
    + eapply (fresh_rows ar_run_id); [exact Hid|exact Has|intros; congruence|done].
    + by apply (nodup_rows _ _ ds_dataset_id); [intros; cbn; split; congruence|].
    + eapply (fresh_rows dr_run_id); [exact Hid|exact Hds|intros; congruence|done].
    + by apply (nodup_rows _ _ (fun f => default "missing_fingerprint" (sf_fingerprint f))); [intros; cbn; split; congruence|].
    + eapply (fresh_rows fr_run_id); [exact Hid|exact Hfs|intros; congruence|done].
Qed.

(** * Reading back *)

Lemma find_app_fresh {A} (p : A -> bool) l x : Forall (fun a => p a = false) l -> p x = true -> find p (l ++ [x]) = Some x.
Proof. induction 1 as [|a l Ha _ IH]; intros Hx; simpl; [by rewrite Hx|]. rewrite Ha. auto. Qed.

Lemma find_app_other {A} (p : A -> bool) l x : p x = false -> find p (l ++ [x]) = find p l.
Proof. intros Hx. induction l as [|a l IH]; simpl; [by rewrite Hx|]. by destruct (p a). Qed.

Lemma load_appended run_id started completed r t : tables_wf t -> ~ (run_id ∈ run_ids_of t) ->
  load_report run_id (appended run_id started completed r t) = Ok r.
Proof.
  intros Hwf Hid. unfold load_report. cbn [appended scan_reports]. rewrite find_app_fresh.
  - by rewrite report_serde.
  - apply Forall_forall. intros x Hx. apply bool_decide_eq_false. intros Heq. apply Hid.
    rewrite <- (tw_reports _ Hwf), <- Heq. by apply (list_elem_of_fmap_2 fst).
  - by apply bool_decide_eq_true.
Qed.

Lemma load_appended_other run_id id started completed r t : id <> run_id ->
  load_report id (appended run_id started completed r t) = load_report id t.
Proof.
  intros Hne. unfold load_report. cbn [appended scan_reports]. rewrite find_app_other; [done|].
  apply bool_decide_eq_false. cbn. congruence.
Qed.

Lemma count_run_app {R} (run_of : R -> string) id (l1 l2 : list R) :
  count_run run_of id (l1 ++ l2) = count_run run_of id l1 + count_run run_of id l2.
Proof. unfold count_run. by rewrite filter_app, length_app. Qed.

Lemma count_run_all {R A} (run_of : R -> string) id (row : A -> R) l : (forall a, run_of (row a) = id) ->
  count_run run_of id (map row l) = length l.
Proof.
  intros Hr. unfold count_run. rewrite filter_all; [apply length_map|]. apply Forall_forall.
  intros x (a & -> & _)%list_elem_of_fmap. apply Hr.
Qed.

Lemma count_run_none {R} (run_of : R -> string) id (l : list R) : Forall (fun r => run_of r <> id) l ->
  count_run run_of id l = 0.
Proof.
  unfold count_run. induction 1 as [|r l Hr _ IH]; [done|]. by rewrite filter_cons_False.
Qed.

Lemma count_run_absent {R} (run_of : R -> string) id (ids : list string) (l : list R) : Forall (fun r => run_of r ∈ ids) l ->
  ~ (id ∈ ids) -> count_run run_of id l = 0.
Proof.
  intros Hl Hid. apply count_run_none. eapply Forall_impl; [exact Hl|]. intros r Hr Heq. apply Hid. by rewrite <- Heq.
Qed.

Lemma integrity_appended run_id started completed r t : tables_wf t -> ~ (run_id ∈ run_ids_of t) ->
  verify_projection_integrity run_id (appended run_id started completed r t) = Ok tt.
Proof.
  intros Hwf Hid. unfold verify_projection_integrity. rewrite load_appended by done. cbn [mbind Result_bind].
  cbn [appended scan_assets scan_datasets scan_findings_table]. rewrite !count_run_app, !count_run_all by done.
  destruct Hwf as [_ _ Ha Hd Hf _].
  rewrite (count_run_absent _ _ _ _ Ha Hid), (count_run_absent _ _ _ _ Hd Hid), (count_run_absent _ _ _ _ Hf Hid).
  by rewrite !Nat.add_0_l, !Nat.eqb_refl.
Qed.

Lemma integrity_other run_id id started completed r t : id <> run_id ->
  verify_projection_integrity id (appended run_id started completed r t) = verify_projection_integrity id t.
Proof.
  intros Hne. unfold verify_projection_integrity. rewrite load_appended_other by done.
  cbn [appended scan_assets scan_datasets scan_findings_table]. rewrite !count_run_app.
  assert (forall R A (run_of : R -> string) (row : A -> R) l, (forall a, run_of (row a) = run_id) ->
            count_run run_of id (map row l) = 0) as Hn.
  { intros R A run_of row l Hr. apply count_run_none, Forall_forall. intros x (a & -> & _)%list_elem_of_fmap.
    rewrite Hr. congruence. }
  rewrite (Hn _ _ ar_run_id), (Hn _ _ dr_run_id), (Hn _ _ fr_run_id) by done. by rewrite !Nat.add_0_r.
Qed.

Lemma run_ids_appended run_id started completed r t :
  run_ids_of (appended run_id started completed r t) = run_ids_of t ++ [run_id].
Proof. unfold run_ids_of. cbn. by rewrite map_app. Qed.

Lemma rows_in_ids {R A} (run_of : R -> string) (row : A -> R) l table (ids : list string) id :
  Forall (fun r => run_of r ∈ ids) table -> (forall a, run_of (row a) = id) ->
  Forall (fun r => run_of r ∈ ids ++ [id]) (table ++ map row l).
Proof.
  intros Ht Hr. apply Forall_app. split.
  - eapply Forall_impl; [exact Ht|]. intros x Hx. apply elem_of_app. by left.
  - apply Forall_forall. intros x (a & -> & _)%list_elem_of_fmap. rewrite Hr. set_solver.
Qed.

Lemma appended_wf run_id started completed r t : tables_wf t -> ~ (run_id ∈ run_ids_of t) ->
  tables_wf (appended run_id started completed r t).
Proof.
  intros Hwf Hid. pose proof Hwf as [Hr Hrep Ha Hd Hf Hint].
  constructor; rewrite ?run_ids_appended; cbn [appended scan_reports scan_assets scan_datasets scan_findings_table].
  - apply NoDup_app. split; [done|]. split; [|apply NoDup_singleton]. intros x Hx ->%list_elem_of_singleton. done.
  - by rewrite map_app, Hrep.
  - by apply rows_in_ids.
  - by apply rows_in_ids.
  - by apply rows_in_ids.
  - intros id. rewrite elem_of_app, list_elem_of_singleton. intros [Hin| ->].
    + rewrite integrity_other; [auto|]. congruence.
    + by apply integrity_appended.
Qed.

Lemma tables_empty_wf : tables_wf tables_empty.
Proof.
  constructor; cbn; try constructor; try done.
  intros id Hin. by apply not_elem_of_nil in Hin.
Qed.

Lemma persist_success run_id started completed report policy t : tables_wf t -> validate_report report = Ok tt ->
  validate_report (apply_redaction_policy report policy) = Ok tt -> ~ (run_id ∈ run_ids_of t) ->
  distinct_rows (apply_redaction_policy report policy) ->
  persist_scan_run run_id started completed report policy t
  = (Ok tt, appended run_id started completed (apply_redaction_policy report policy) t).
Proof.
  intros Hwf Hv Hv' Hid Hd. unfold persist_scan_run. rewrite Hv, Hv'. cbn [map_err mbind Result_bind].
  by rewrite (proj2 (persist_tx_Ok run_id started completed (apply_redaction_policy report policy) t _ Hwf)
    (conj Hid (conj Hd eq_refl))).
Qed.

Lemma persist_success_inv run_id started completed report policy t t' : tables_wf t ->
  persist_scan_run run_id started completed report policy t = (Ok tt, t') ->
  ~ (run_id ∈ run_ids_of t) /\ t' = appended run_id started completed (apply_redaction_policy report policy) t.
Proof.
  intros Hwf. unfold persist_scan_run. destruct (_ ≫= _) as [t0|e] eqn:E; [|done]. intros [= <-].
  rewrite bind_Ok in E. destruct E as (? & _ & E). rewrite bind_Ok in E. destruct E as (? & _ & E).
  by apply persist_tx_Ok in E as (Hid & _ & ->).
Qed.

(** ** Claims *)

(** C14: Persisting a run is atomic and can be read back.  It succeeds exactly when the
    report and its redacted form validate, the run id is new, and no two assets
    share a path, no two datasets an id and no two findings a fingerprint.  On
    success the redacted report, its summary and consistent projections are found
    under the run id; on failure nothing changed.  Other runs are never touched,
    and the integrity of all projections is preserved. *)
Theorem persist_scan_run_spec run_id started completed report policy t : tables_wf t ->
  let stored := apply_redaction_policy report policy in
  let '(res, t') := persist_scan_run run_id started completed report policy t in
  (res = Ok tt <-> validate_report report = Ok tt /\ validate_report stored = Ok tt /\
     ~ (run_id ∈ run_ids_of t) /\ distinct_rows stored) /\
  (if is_ok res then load_report run_id t' = Ok stored /\ verify_projection_integrity run_id t' = Ok tt /\
                     load_stored_scan_summary run_id t' = Ok (rep_summary report)
   else t' = t) /\
  (forall id, id <> run_id -> load_report id t' = load_report id t) /\ tables_wf t'.
Proof.
  intros Hwf stored. unfold persist_scan_run. fold stored.
  destruct (validate_report report) as [[]|e]; cbn [map_err mbind Result_bind is_ok];
    [|split; [split; [done|by intros (? & _)]|done]].
  destruct (validate_report stored) as [[]|e]; cbn [map_err mbind Result_bind is_ok];
    [|split; [split; [done|by intros (_ & ? & _)]|done]].
  destruct (persist_tx run_id started completed stored t) as [t'|e] eqn:E; cbn [is_ok].
  - apply persist_tx_Ok in E as (Hid & Hd & ->); [|done]. split; [done|].
    split; [|by split; [intros; apply load_appended_other|apply appended_wf]].
    split; [by apply load_appended|]. split; [by apply integrity_appended|].
    unfold load_stored_scan_summary, find_run. cbn [appended scan_runs]. rewrite find_app_fresh.
    + cbn [ok_or mbind Result_bind run_row rr_summary_json]. by rewrite summary_serde.
    + apply Forall_forall. intros x Hx. apply bool_decide_eq_false. intros Heq. apply Hid. rewrite <- Heq.
      by apply (list_elem_of_fmap_2 rr_run_id).
    + by apply bool_decide_eq_true.
  - split; [|done]. split; [done|]. intros (_ & _ & Hid & Hd). exfalso.
    assert (persist_tx run_id started completed stored t = Ok (appended run_id started completed stored t)) as E'
      by by apply persist_tx_Ok. congruence.
Qed.

(** One call of the store's only write to the scan tables. *)
Definition persist_step (t : scan_tables) (c : string * Z * Z * Report * RedactionPolicy) : scan_tables :=
  let '(run_id, started, completed, report, policy) := c in
  snd (persist_scan_run run_id started completed report policy t).

Lemma persist_steps_wf calls t : tables_wf t -> tables_wf (foldl persist_step t calls).
Proof.
  revert t. induction calls as [|[[[[id st] co] rep] pol] calls IH]; intros t Hwf; [done|]. apply IH.
  cbn [persist_step]. destruct (persist_scan_run id st co rep pol t) as [[[]|e] t'] eqn:E; cbn [snd].
  - apply persist_success_inv in E as [Hid ->]; [|done]. by apply appended_wf.
  - unfold persist_scan_run in E. destruct (_ ≫= _); [done|]. by injection E as _ <-.
Qed.

(** A run that was persisted stays. *)
Lemma persist_steps_keep calls t id : tables_wf t -> id ∈ run_ids_of t -> id ∈ run_ids_of (foldl persist_step t calls).
Proof.
  revert t. induction calls as [|[[[[id' st] co] rep] pol] calls IH]; intros t Hwf Hin; [done|].
  apply IH; [by apply (persist_steps_wf [(id', st, co, rep, pol)])|]. cbn [persist_step].
  destruct (persist_scan_run id' st co rep pol t) as [[[]|e] t'] eqn:E; cbn [snd].
  - apply persist_success_inv in E as [_ ->]; [|done]. rewrite run_ids_appended. set_solver.
  - unfold persist_scan_run in E. destruct (_ ≫= _); [done|]. by injection E as _ <-.
Qed.

Lemma persist_steps_first id st co rep pol calls : validate_report rep = Ok tt ->
  validate_report (apply_redaction_policy rep pol) = Ok tt -> distinct_rows (apply_redaction_policy rep pol) ->
  id ∈ run_ids_of (foldl persist_step tables_empty ((id, st, co, rep, pol) :: calls)).
Proof.
  intros Hv Hv' Hd. cbn [foldl]. apply persist_steps_keep;
    [by apply (persist_steps_wf [(id, st, co, rep, pol)]), tables_empty_wf|].
  cbn [persist_step]. rewrite persist_success; [|apply tables_empty_wf|done|done|apply not_elem_of_nil|done].
  cbn [snd]. rewrite run_ids_appended. set_solver.
Qed.

(** C15: Whatever sequence of runs is persisted into an empty store, successfully or
    not: every run that has a header has a report that loads, and the row counts
    of its projections are those of the report. *)
Theorem projections_always_consistent calls id : let t := foldl persist_step tables_empty calls in
  id ∈ map rr_run_id (scan_runs t) ->
  (exists report, load_report id t = Ok report) /\ verify_projection_integrity id t = Ok tt.
Proof.
  intros t Hin. pose proof (persist_steps_wf calls tables_empty tables_empty_wf) as Hwf.
  pose proof (tw_integrity _ Hwf id Hin) as Hi. split; [|done].
  unfold verify_projection_integrity in Hi. destruct (load_report id t) eqn:E; [eauto|]. unfold t in E. by rewrite E in Hi.
Qed.
End Store.

(** Reading stored scans: redaction keeps reports valid, diffs are exact, and the
    pages of a run are the slices of its sorted assets. *)

(** * Redaction *)

Lemma count_status_map s f l : (forall a, sa_inspection_status (f a) = sa_inspection_status a) ->
  count_status s (map f l) = count_status s l.
Proof.
  intros Hf. unfold count_status. f_equal. induction l as [|a l IH]; [done|]. cbn [map].
  destruct (decide (sa_inspection_status a = s)).
  - rewrite !filter_cons_True by (rewrite ?Hf; done). cbn [length]. by rewrite IH.
  - rewrite !filter_cons_False by (rewrite ?Hf; done). done.
Qed.

Lemma count_members_map f l : (forall a, sa_dataset_id (f a) = sa_dataset_id a) ->
  count_members (map f l) = count_members l.
Proof.
  intros Hf. unfold count_members. f_equal. induction l as [|a l IH]; [done|]. cbn [map].
  destruct (decide (is_Some (sa_dataset_id a))).
  - rewrite !filter_cons_True by (rewrite ?Hf; done). cbn [length]. by rewrite IH.
  - rewrite !filter_cons_False by (rewrite ?Hf; done). done.
Qed.

Lemma membership_map f l : (forall a, sa_dataset_id (f a) = sa_dataset_id a) -> (forall a, sa_path (f a) = sa_path a) ->
  membership (map f l) = membership l.
Proof.
  intros Hd Hp. unfold membership. f_equal. induction l as [|a l IH]; [done|]. cbn [map omap list_omap].
  by rewrite Hd, Hp, IH.
Qed.

(** Redacting an asset keeps its record consistent unless its message goes blank. *)
Lemma redact_asset_consistent p a : asset_consistent a = true ->
  (sa_inspection_status a = InspFailed ->
   trim (default EmptyString (sa_failure_message (redact_asset p a))) <> EmptyString) ->
  asset_consistent (redact_asset p a) = true.
Proof.
  unfold asset_consistent. cbn [redact_asset sa_inspection_status sa_failure_kind sa_failure_message sa_dataset_id sa_probe].
  destruct (sa_inspection_status a) eqn:Es; intros Hc Hm.
  - destruct (truncate_failure_messages_to p), (sa_failure_message a); done.
  - apply andb_true_iff in Hc as [-> _]. rewrite bool_decide_eq_false_2; [done|]. by apply Hm.
  - revert Hc. rewrite !andb_true_iff. destruct (truncate_failure_messages_to p), (sa_failure_message a),
      (strip_probe_metadata p), (sa_probe a); cbn; tauto.
Qed.

Definition messages_survive (p : RedactionPolicy) (r : Report) : Prop :=
  Forall (fun a => sa_inspection_status a = InspFailed ->
    trim (default EmptyString (sa_failure_message (redact_asset p a))) <> EmptyString) (rep_assets r).

Lemma validate_consistent r : validate_report r = Ok tt -> forallb asset_consistent (rep_assets r) = true.
Proof.
  unfold validate_report. intros Hv. destruct (forallb asset_consistent (rep_assets r)); [done|].
  repeat case_match; done.
Qed.

Lemma redaction_valid p r : messages_survive p r -> validate_report r = Ok tt ->
  validate_report (apply_redaction_policy r p) = Ok tt.
Proof.
  intros Hm Hv. pose proof (validate_consistent _ Hv) as Hc. rewrite <- Hv.
  assert (forallb asset_consistent (map (redact_asset p) (rep_assets r)) = true) as Hc'.
  { apply forallb_forall. intros x Hx%list_elem_of_In. apply list_elem_of_fmap in Hx as (a & -> & Ha).
    unfold messages_survive in Hm. rewrite Forall_forall in Hm. apply redact_asset_consistent; [|auto].
    rewrite forallb_forall in Hc. by apply Hc, list_elem_of_In. }
  unfold validate_report. cbn [apply_redaction_policy rep_request rep_metadata rep_summary rep_assets rep_datasets rep_findings].
  rewrite Hc', Hc, !length_map, !count_status_map, count_members_map, membership_map by done. done.
Qed.

Lemma take_chars_head n c s : char_start c = true -> take_chars (S n) (String c s) = String c (take_chars n s).
Proof. intros Hc. cbn [take_chars]. by rewrite Hc. Qed.

Section Engine.
Context `{ScanFs} `{ParquetCrate} `{Digests} `{UuidSupply}.

(** The message of a failed asset starts with a visible ASCII character. *)
Definition plain_message (a : ScanAsset) : Prop := sa_inspection_status a = InspFailed ->
  exists c s, sa_failure_message a = Some (String c s) /\ Ascii.is_space c = false /\ char_start c = true.

Lemma text_outcome_plain a r partial reason n : (forall e, r = Err e -> probe_error e) ->
  plain_message (out_record (fst (text_outcome a r partial reason n))).
Proof.
  intros He. unfold text_outcome. destruct r as [out|e].
  - destruct (partial _); cbn; by intros [=].
  - intros _. destruct (He e eq_refl) as (m & [->|[->| ->]]); cbn; eauto.
Qed.

Lemma inspect_one_plain a n : plain_message (out_record (fst (inspect_one a n))).
Proof.
  unfold inspect_one. destruct (ra_format a) eqn:Ef; try (apply text_outcome_plain;
    eauto using inspect_csv_error, inspect_json_error).
  - cbn [mret Fresh_ret fst]. destruct (inspect_parquet_asset (ra_path a)) as [i|e] eqn:E; [by intros [=]|].
    intros _. destruct (inspect_parquet_error _ _ E) as (m & [->|[->| ->]]); cbn; eauto.
  - by intros [=].
Qed.

Lemma assign_dataset_plain m r : plain_message r -> plain_message (assign_dataset m r).
Proof. unfold assign_dataset. by destruct (_ && _), (pm_get (sa_path r) m). Qed.

Lemma report_messages_plain now request plan n : Forall plain_message (rep_assets (fst (build_report now request plan n))).
Proof.
  destruct (build_report_parts now request plan n) as (_ & _ & -> & _). unfold records_of.
  apply Forall_forall. intros r (o & -> & Ho)%list_elem_of_fmap. apply assign_dataset_plain.
  pose proof (fresh_map_Forall inspect_one (fun o => plain_message (out_record o))
    (sort_by resolved_leb (plan_assets plan)) n ltac:(intros; apply inspect_one_plain)) as Hall.
  rewrite Forall_forall in Hall. by apply Hall.
Qed.

(** ** Claim *)

(** A report of the engine stays valid under every redaction that keeps at least
    one character of the failure messages, the one for HTTP persistence included. *)
Theorem engine_report_redaction_valid now request plan n policy : truncate_failure_messages_to policy <> Some 0 ->
  validate_report (apply_redaction_policy (fst (build_report now request plan n)) policy) = Ok tt.
Proof.
  intros Hp. apply redaction_valid; [|apply build_report_valid].
  eapply Forall_impl; [apply report_messages_plain|]. intros a Ha Hs. destruct (Ha Hs) as (c & s & Hmsg & Hc & Hst).
  cbn [redact_asset sa_failure_message]. rewrite Hmsg.
  destruct (truncate_failure_messages_to policy) as [[|max]|]; [done| |by apply trim_nonempty].
  cbn [fmap option_fmap option_map default]. rewrite take_chars_head by done. by apply trim_nonempty.
Qed.
End Engine.

(** * Diffs *)

Lemma bs_difference_elem a b k : k ∈ bs_difference (bs_of_list a) (bs_of_list b) <-> k ∈ a /\ ~ (k ∈ b).
Proof.
  unfold bs_difference. rewrite list_elem_of_filter, bs_of_list_elem, eq_None_not_Some, bm_get_keys, bs_of_list_elem. tauto.
Qed.

Definition fingerprint_of (f : ScanFinding) : string := default ("fallback:" +:+ sf_id f) (sf_fingerprint f).

(** The diff of two reports is exact: a fingerprint is added iff the second report
    has it and the first has not, removed iff the other way round, likewise for
    dataset ids; swapping the reports swaps the lists. *)
Theorem diff_reports_exact ra rb a b :
  let d := diff_reports ra rb a b in
  (forall k, k ∈ diff_findings_added d <->
     k ∈ map fingerprint_of (rep_findings b) /\ ~ (k ∈ map fingerprint_of (rep_findings a))) /\
  (forall k, k ∈ diff_findings_removed d <->
     k ∈ map fingerprint_of (rep_findings a) /\ ~ (k ∈ map fingerprint_of (rep_findings b))) /\
  (forall k, k ∈ datasets_added d <->
     k ∈ map ds_dataset_id (rep_datasets b) /\ ~ (k ∈ map ds_dataset_id (rep_datasets a))) /\
  diff_findings_added (diff_reports rb ra b a) = diff_findings_removed d /\
  datasets_added (diff_reports rb ra b a) = datasets_removed d.
Proof.
  intros d. split; [intros k; apply bs_difference_elem|]. split; [intros k; apply bs_difference_elem|].
  split; [intros k; apply bs_difference_elem|done].
Qed.

(** * Pages *)

Section Pages.
Context `{Digests} `{Rfc3339} `{Uuids} `{UrlText} `{ReportSerde} {D : SqlDialect}.

Definition stored_asset (a : ScanAsset) : StoredAssetRow := {|
  st_path := sa_path a; st_format := sa_format a; st_inspection_status := sa_inspection_status a;
  st_failure_kind := sa_failure_kind a; st_failure_message := sa_failure_message a; st_dataset_id := sa_dataset_id a |}.

Lemma stored_asset_row id a : stored_asset_row_from_sql (asset_row id a) = Ok (stored_asset a).
Proof.
  unfold stored_asset_row_from_sql. cbn [asset_row ar_format ar_inspection_status ar_failure_kind].
  rewrite format_label_round_trip, status_round_trip. cbn [ok_or mbind Result_bind option_bind fmap option_fmap option_map].
  unfold stored_asset. by destruct (sa_failure_kind a) as [[]|].
Qed.

Lemma try_map_map {E A B C} (f : B -> Result E C) (g : A -> B) (h : A -> C) l : (forall a, f (g a) = Ok (h a)) ->
  try_map f (map g l) = Ok (map h l).
Proof. intros Hf. induction l as [|a l IH]; [done|]. cbn [map try_map]. by rewrite Hf, IH. Qed.

Lemma filter_map_comm {A B} (P : B -> Prop) `{forall b, Decision (P b)} (f : A -> B) l :
  filter P (map f l) = map f (filter (fun a => P (f a)) l).
Proof.
  induction l as [|a l IH]; [done|]. cbn [map]. destruct (decide (P (f a))).
  - rewrite !filter_cons_True by done. cbn [map]. by rewrite IH.
  - by rewrite !filter_cons_False.
Qed.

Lemma filter_none {A} (P : A -> Prop) `{forall a, Decision (P a)} l : Forall (fun a => ~ P a) l -> filter P l = [].
Proof. induction 1 as [|a l Ha _ IH]; [done|]. by rewrite filter_cons_False. Qed.

Definition has_label (status : option string) (a : ScanAsset) : Prop :=
  column_matches status (inspection_status_db (sa_inspection_status a)) = true.

#[global] Instance has_label_dec status a : Decision (has_label status a).
Proof. unfold has_label. apply _. Defined.

Lemma select_appended run_id started completed r t status : tables_wf t -> ~ (run_id ∈ run_ids_of t) ->
  select_assets run_id status (appended run_id started completed r t)
  = map (asset_row run_id) (filter (has_label status) (rep_assets r)).
Proof.
  intros Hwf Hid. unfold select_assets. cbn [appended scan_assets]. rewrite filter_app, filter_none, app_nil_l.
  - rewrite filter_map_comm. f_equal. apply list_filter_iff. intros a. unfold has_label.
    cbn [asset_row ar_run_id ar_inspection_status]. by rewrite bool_decide_eq_true_2 by done.
  - eapply Forall_impl; [apply (tw_assets _ Hwf)|]. intros x Hx Heq. apply andb_true_iff in Heq as [Heq _].
    apply bool_decide_eq_true in Heq. apply Hid. by rewrite <- Heq.
Qed.

Lemma as_i64_small z : (0 <= z < 2 ^ 63)%Z -> as_i64 z = z.
Proof. intros Hz. unfold as_i64, wrap_i64. rewrite Z.mod_small by lia. lia. Qed.

Lemma ensure_appended run_id started completed r t : ensure_run_exists run_id (appended run_id started completed r t) = Ok tt.
Proof.
  unfold ensure_run_exists. cbn [appended scan_runs]. rewrite filter_app, length_app, filter_cons_True by done.
  cbn [length filter list_filter]. destruct (_ =? 0) eqn:E; [|done]. apply Nat.eqb_eq in E. cbn in E. lia.
Qed.

(** ** Claim *)

(** After a run is persisted, a page of its assets is the slice of its (redacted)
    assets with the wanted status, in the database's order of their paths; the
    count is the number of them.  No asset is lost or listed twice across pages. *)
Theorem asset_pages_exact run_id started completed report policy t t' status offset limit :
  tables_wf t -> persist_scan_run run_id started completed report policy t = (Ok tt, t') ->
  (0 <= offset < 2 ^ 63)%Z -> (0 <= limit < 2 ^ 63)%Z ->
  let wanted := filter (has_label status) (rep_assets (apply_redaction_policy report policy)) in
  list_assets_page run_id status offset limit t'
  = Ok (take (Z.to_nat limit) (drop (Z.to_nat offset)
          (map stored_asset (sort_by (fun a b => text_leb (sa_path a) (sa_path b)) wanted)))) /\
  count_assets run_id status t' = Ok (length wanted).
Proof.
  intros Hwf Hper Ho Hl wanted. apply persist_success_inv in Hper as [Hid ->]; [|done].
  unfold list_assets_page, count_assets. rewrite ensure_appended. cbn [mbind Result_bind].
  rewrite select_appended, length_map by done. split; [|done]. fold wanted.
  rewrite !as_i64_small, sql_page_ok by lia. cbn [map_err mbind Result_bind].
  rewrite <- (sort_by_map (asset_row run_id) (fun a b => text_leb (sa_path a) (sa_path b))) by done.
  rewrite !skipn_map, !firstn_map. apply try_map_map, stored_asset_row.
Qed.
End Pages.
