(* ===== verification/ScanCodec.v ===== *)
(** A serialization of scan reports with its round trip, for the concrete stores of
    the examples: every part of a report is countable, and the number of a report
    is written in binary. *)

From stdpp Require Import countable.
From S2P Require Import Prelude BTree Location Schema RepairPlan Inventory BatchExamples Application ScanTypes ScanStore.

(** * JSON *)

Fixpoint json_tree (v : json) : gen_tree (string + Z + bool) :=
  match v with
  | JNull => GenNode 0 []
  | JBool b => GenLeaf (inr b)
  | JNum z => GenLeaf (inl (inr z))
  | JStr s => GenLeaf (inl (inl s))
  | JArr l => GenNode 1 (map json_tree l)
  | JObj m => GenNode 2 (flat_map (fun kx => [GenLeaf (inl (inl (fst kx))); json_tree (snd kx)]) m)
  end.

Fixpoint tree_json (t : gen_tree (string + Z + bool)) : json :=
  match t with
  | GenLeaf (inr b) => JBool b
  | GenLeaf (inl (inr z)) => JNum z
  | GenLeaf (inl (inl s)) => JStr s
  | GenNode 0 _ => JNull
  | GenNode 1 l => JArr (map tree_json l)
  | GenNode _ l =>
      JObj ((fix members (l : list (gen_tree (string + Z + bool))) : list (string * json) :=
               match l with
               | GenLeaf (inl (inl k)) :: v :: l => (k, tree_json v) :: members l
               | _ => []
               end) l)
  end.

Fixpoint tree_json_tree (v : json) : tree_json (json_tree v) = v.
Proof.
  destruct v as [|b|z|s|l|m]; try reflexivity.
  - cbn. f_equal. induction l as [|x l IH]; cbn; [done|]. by rewrite tree_json_tree, IH.
  - cbn. f_equal. induction m as [|[k x] m IH]; cbn; [done|]. by rewrite tree_json_tree, IH.
Qed.

(** Equality through an encoding. *)
Definition via_eq_dec {A B} `{EqDecision B} (f : A -> B) (g : B -> A) (Hgf : forall x, g (f x) = x) : EqDecision A.
Proof.
  intros x y. destruct (decide (f x = f y)) as [Heq|Hne].
  - left. by rewrite <- (Hgf x), <- (Hgf y), Heq.
  - right. by intros ->.
Defined.

#[global] Instance json_eq_dec : EqDecision json := via_eq_dec json_tree tree_json tree_json_tree.
#[global] Instance json_countable : Countable json := inj_countable' json_tree tree_json tree_json_tree.

(** * Records and enumerations *)

#[global] Instance DataFormat_countable : Countable DataFormat.
Proof.
  refine (inj_countable' (fun f => match f with Parquet => 0 | Csv => 1 | Inventory.Json => 2 | Ndjson => 3 | UnknownFormat => 4 end)
    (fun n => match n with 0 => Parquet | 1 => Csv | 2 => Inventory.Json | 3 => Ndjson | _ => UnknownFormat end) _). by intros [].
Defined.

#[global] Instance FindingSeverity_eq_dec : EqDecision FindingSeverity.
Proof. solve_decision. Defined.
#[global] Instance FindingSeverity_countable : Countable FindingSeverity.
Proof.
  refine (inj_countable' (fun f => match f with Info => 0 | Low => 1 | Medium => 2 | High => 3 | Critical => 4 end)
    (fun n => match n with 0 => Info | 1 => Low | 2 => Medium | 3 => High | _ => Critical end) _). by intros [].
Defined.

#[global] Instance FindingCategory_eq_dec : EqDecision FindingCategory.
Proof. solve_decision. Defined.
#[global] Instance FindingCategory_countable : Countable FindingCategory.
Proof.
  refine (inj_countable' (fun f => match f with
      | CatFormat => 0 | CatTarget => 1 | CatSchema => 2 | CatPartitioning => 3 | CatMetadata => 4 | CatIntegrity => 5
      | CatQuality => 6 | CatPerformance => 7 | CatCoverage => 8 | CatPlugin => 9 end)
    (fun n => match n with
      | 0 => CatFormat | 1 => CatTarget | 2 => CatSchema | 3 => CatPartitioning | 4 => CatMetadata | 5 => CatIntegrity
      | 6 => CatQuality | 7 => CatPerformance | 8 => CatCoverage | _ => CatPlugin end) _). by intros [].
Defined.

#[global] Instance EvidenceKind_eq_dec : EqDecision EvidenceKind.
Proof. solve_decision. Defined.
#[global] Instance EvidenceKind_countable : Countable EvidenceKind.
Proof.
  refine (inj_countable' (fun f => match f with
      | FileSlice => 0 | ColumnStats => 1 | SchemaFragment => 2 | MetadataTable => 3 | ParquetFooterEvidence => 4
      | PartitionLayoutEvidence => 5 | CustomEvidence => 6 end)
    (fun n => match n with
      | 0 => FileSlice | 1 => ColumnStats | 2 => SchemaFragment | 3 => MetadataTable | 4 => ParquetFooterEvidence
      | 5 => PartitionLayoutEvidence | _ => CustomEvidence end) _). by intros [].
Defined.

#[global] Instance GroupingKind_countable : Countable GroupingKind.
Proof.
  refine (inj_countable' (fun f => match f with SingleFile => 0 | PathAnchor => 1 | PathAnchorSchemaSplit => 2
      | PathAnchorPartFilePattern => 3 end)
    (fun n => match n with 0 => SingleFile | 1 => PathAnchor | 2 => PathAnchorSchemaSplit
      | _ => PathAnchorPartFilePattern end) _). by intros [].
Defined.
#[global] Instance PartitionLayout_countable : Countable PartitionLayout.
Proof.
  refine (inj_countable' (fun f => match f with Unpartitioned => 0 | HiveDirectoryKeys => 1 end)
    (fun n => match n with 0 => Unpartitioned | _ => HiveDirectoryKeys end) _). by intros [].
Defined.
#[global] Instance InspectionStatus_countable : Countable InspectionStatus.
Proof.
  refine (inj_countable' (fun f => match f with Inspected => 0 | InspFailed => 1 | InspSkipped => 2 end)
    (fun n => match n with 0 => Inspected | 1 => InspFailed | _ => InspSkipped end) _). by intros [].
Defined.
#[global] Instance ProbeDepth_countable : Countable ProbeDepth.
Proof.
  refine (inj_countable' (fun f => match f with FullWithinCap => 0 | PartialHead => 1 end)
    (fun n => match n with 0 => FullWithinCap | _ => PartialHead end) _). by intros [].
Defined.
#[global] Instance ParseConfidence_countable : Countable ParseConfidence.
Proof.
  refine (inj_countable' (fun f => match f with ConfHigh => 0 | ConfPartial => 1 | ConfLow => 2 end)
    (fun n => match n with 0 => ConfHigh | 1 => ConfPartial | _ => ConfLow end) _). by intros [].
Defined.
#[global] Instance FailureKind_eq_dec : EqDecision FailureKind.
Proof. solve_decision. Defined.
#[global] Instance FailureKind_countable : Countable FailureKind.
Proof.
  refine (inj_countable' (fun f => match f with FkIoError => 0 | FkFormatReadError => 1 | FkUnsupportedFormat => 2
      | FkProbeDecodeError => 3 | FkTruncatedByPolicy => 4 | FkInternalEngineError => 5 end)
    (fun n => match n with 0 => FkIoError | 1 => FkFormatReadError | 2 => FkUnsupportedFormat
      | 3 => FkProbeDecodeError | 4 => FkTruncatedByPolicy | _ => FkInternalEngineError end) _). by intros [].
Defined.
#[global] Instance ScanProfile_eq_dec : EqDecision ScanProfile.
Proof. solve_decision. Defined.
#[global] Instance ScanProfile_countable : Countable ScanProfile.
Proof.
  refine (inj_countable' (fun f => match f with ProfileQuick => 0 | ProfileStandard => 1 | ProfileDeep => 2 | ProfileBaseline => 3 end)
    (fun n => match n with 0 => ProfileQuick | 1 => ProfileStandard | 2 => ProfileDeep | _ => ProfileBaseline end) _).
  by intros [].
Defined.
#[global] Instance ScanMode_eq_dec : EqDecision ScanMode.
Proof. solve_decision. Defined.
#[global] Instance ScanMode_countable : Countable ScanMode.
Proof.
  refine (inj_countable' (fun f => match f with FullScan => 0 | IncrementalScan => 1 end)
    (fun n => match n with 0 => FullScan | _ => IncrementalScan end) _). by intros [].
Defined.

(** A record as the tuple of its fields. *)
Ltac record_eq f g := refine (via_eq_dec f g _); by intros [].
Ltac record_countable f g := refine (inj_countable' f g _); by intros [].

Definition PartitionSegment_fields (r : PartitionSegment) := (seg_key r, seg_value r).
Definition PartitionSegment_of x : PartitionSegment :=
  let '(x0, x1) := x in {| seg_key := x0; seg_value := x1 |}.
#[global] Instance PartitionSegment_countable : Countable PartitionSegment.
Proof. record_countable PartitionSegment_fields PartitionSegment_of. Defined.

Definition EvidenceLocationRef_fields (r : EvidenceLocationRef) := (ref_path r, ref_row_group_index r, ref_partition r).
Definition EvidenceLocationRef_of x : EvidenceLocationRef :=
  let '(x0, x1, x2) := x in {| ref_path := x0; ref_row_group_index := x1; ref_partition := x2 |}.
#[global] Instance EvidenceLocationRef_codec_eq_dec : EqDecision EvidenceLocationRef.
Proof. record_eq EvidenceLocationRef_fields EvidenceLocationRef_of. Defined.
#[global] Instance EvidenceLocationRef_countable : Countable EvidenceLocationRef.
Proof. record_countable EvidenceLocationRef_fields EvidenceLocationRef_of. Defined.

Definition EvidenceReference_fields (r : EvidenceReference) := (er_label r, er_target r).
Definition EvidenceReference_of x : EvidenceReference :=
  let '(x0, x1) := x in {| er_label := x0; er_target := x1 |}.
#[global] Instance EvidenceReference_codec_eq_dec : EqDecision EvidenceReference.
Proof. record_eq EvidenceReference_fields EvidenceReference_of. Defined.
#[global] Instance EvidenceReference_countable : Countable EvidenceReference.
Proof. record_countable EvidenceReference_fields EvidenceReference_of. Defined.

Definition Evidence_fields (r : Evidence) := (ev_id r, ev_kind r, ev_summary r, ev_location_ref r, ev_payload r, ev_references r).
Definition Evidence_of x : Evidence :=
  let '(x0, x1, x2, x3, x4, x5) := x in {| ev_id := x0; ev_kind := x1; ev_summary := x2; ev_location_ref := x3; ev_payload := x4; ev_references := x5 |}.
#[global] Instance Evidence_codec_eq_dec : EqDecision Evidence.
Proof. record_eq Evidence_fields Evidence_of. Defined.
#[global] Instance Evidence_countable : Countable Evidence.
Proof. record_countable Evidence_fields Evidence_of. Defined.

Definition FindingLocation_fields (r : FindingLocation) := (loc_file r, loc_columns r, loc_partition r, loc_row_group r).
Definition FindingLocation_of x : FindingLocation :=
  let '(x0, x1, x2, x3) := x in {| loc_file := x0; loc_columns := x1; loc_partition := x2; loc_row_group := x3 |}.
#[global] Instance FindingLocation_codec_eq_dec : EqDecision FindingLocation.
Proof. record_eq FindingLocation_fields FindingLocation_of. Defined.
#[global] Instance FindingLocation_countable : Countable FindingLocation.
Proof. record_countable FindingLocation_fields FindingLocation_of. Defined.

Definition Recommendation_fields (r : Recommendation) := (rec_summary r, rec_detail r).
Definition Recommendation_of x : Recommendation :=
  let '(x0, x1) := x in {| rec_summary := x0; rec_detail := x1 |}.
#[global] Instance Recommendation_codec_eq_dec : EqDecision Recommendation.
Proof. record_eq Recommendation_fields Recommendation_of. Defined.
#[global] Instance Recommendation_countable : Countable Recommendation.
Proof. record_countable Recommendation_fields Recommendation_of. Defined.

Definition ScanFinding_fields (r : ScanFinding) := (sf_id r, sf_code r, sf_severity r, sf_category r, sf_summary r, sf_detail r, sf_evidence r, sf_locations r, sf_recommendations r, sf_fingerprint r, sf_attributes r).
Definition ScanFinding_of x : ScanFinding :=
  let '(x0, x1, x2, x3, x4, x5, x6, x7, x8, x9, x10) := x in {| sf_id := x0; sf_code := x1; sf_severity := x2; sf_category := x3; sf_summary := x4; sf_detail := x5; sf_evidence := x6; sf_locations := x7; sf_recommendations := x8; sf_fingerprint := x9; sf_attributes := x10 |}.
#[global] Instance ScanFinding_codec_eq_dec : EqDecision ScanFinding.
Proof. record_eq ScanFinding_fields ScanFinding_of. Defined.
#[global] Instance ScanFinding_countable : Countable ScanFinding.
Proof. record_countable ScanFinding_fields ScanFinding_of. Defined.

Definition ScanOptions_fields (r : ScanOptions) := (scan_mode r, max_files r, format_hints r).
Definition ScanOptions_of x : ScanOptions :=
  let '(x0, x1, x2) := x in {| scan_mode := x0; max_files := x1; format_hints := x2 |}.
#[global] Instance ScanOptions_codec_eq_dec : EqDecision ScanOptions.
Proof. record_eq ScanOptions_fields ScanOptions_of. Defined.
#[global] Instance ScanOptions_countable : Countable ScanOptions.
Proof. record_countable ScanOptions_fields ScanOptions_of. Defined.

Definition Url_fields (r : Url) := (scheme r, username r, password r, host_str r, url_path r, to_file_path r).
Definition Url_of x : Url :=
  let '(x0, x1, x2, x3, x4, x5) := x in {| scheme := x0; username := x1; password := x2; host_str := x3; url_path := x4; to_file_path := x5 |}.
#[global] Instance Url_codec_eq_dec : EqDecision Url.
Proof. record_eq Url_fields Url_of. Defined.
#[global] Instance Url_countable : Countable Url.
Proof. record_countable Url_fields Url_of. Defined.

Definition ScanTarget_fields (t : ScanTarget) : string + string + (string * option string) + (Url * option string) :=
  match t with
  | LocalFile p => inl (inl (inl p))
  | LocalDirectory p => inl (inl (inr p))
  | LogicalDataset i h => inl (inr (i, h))
  | ObjectStorePlaceholder u d => inr (u, d)
  end.
Definition ScanTarget_of (x : string + string + (string * option string) + (Url * option string)) : ScanTarget :=
  match x with
  | inl (inl (inl p)) => LocalFile p
  | inl (inl (inr p)) => LocalDirectory p
  | inl (inr (i, h)) => LogicalDataset i h
  | inr (u, d) => ObjectStorePlaceholder u d
  end.
#[global] Instance ScanTarget_eq_dec : EqDecision ScanTarget.
Proof. record_eq ScanTarget_fields ScanTarget_of. Defined.
#[global] Instance ScanTarget_countable : Countable ScanTarget.
Proof. record_countable ScanTarget_fields ScanTarget_of. Defined.

Definition ScanRequest_fields (r : ScanRequest) := (req_scan_id r, req_target r, req_profile r, req_options r).
Definition ScanRequest_of x : ScanRequest :=
  let '(x0, x1, x2, x3) := x in {| req_scan_id := x0; req_target := x1; req_profile := x2; req_options := x3 |}.
#[global] Instance ScanRequest_codec_eq_dec : EqDecision ScanRequest.
Proof. record_eq ScanRequest_fields ScanRequest_of. Defined.
#[global] Instance ScanRequest_countable : Countable ScanRequest.
Proof. record_countable ScanRequest_fields ScanRequest_of. Defined.

Definition FieldDefinition_fields (r : FieldDefinition) := (def_name r, def_logical_type r, def_nullable r).
Definition FieldDefinition_of x : FieldDefinition :=
  let '(x0, x1, x2) := x in {| def_name := x0; def_logical_type := x1; def_nullable := x2 |}.
#[global] Instance FieldDefinition_codec_eq_dec : EqDecision FieldDefinition.
Proof. record_eq FieldDefinition_fields FieldDefinition_of. Defined.
#[global] Instance FieldDefinition_countable : Countable FieldDefinition.
Proof. record_countable FieldDefinition_fields FieldDefinition_of. Defined.

Definition DatasetFile_fields (r : DatasetFile) := (df_path r, df_format r, df_partitions r, df_byte_length r).
Definition DatasetFile_of x : DatasetFile :=
  let '(x0, x1, x2, x3) := x in {| df_path := x0; df_format := x1; df_partitions := x2; df_byte_length := x3 |}.
#[global] Instance DatasetFile_codec_eq_dec : EqDecision DatasetFile.
Proof. record_eq DatasetFile_fields DatasetFile_of. Defined.
#[global] Instance DatasetFile_countable : Countable DatasetFile.
Proof. record_countable DatasetFile_fields DatasetFile_of. Defined.

Definition Dataset_fields (r : Dataset) := (ds_dataset_id r, ds_grouping_kind r, ds_partition_layout r, ds_files r, ds_schema r).
Definition Dataset_of x : Dataset :=
  let '(x0, x1, x2, x3, x4) := x in {| ds_dataset_id := x0; ds_grouping_kind := x1; ds_partition_layout := x2; ds_files := x3; ds_schema := x4 |}.
#[global] Instance Dataset_codec_eq_dec : EqDecision Dataset.
Proof. record_eq Dataset_fields Dataset_of. Defined.
#[global] Instance Dataset_countable : Countable Dataset.
Proof. record_countable Dataset_fields Dataset_of. Defined.

Definition ProbeMetadata_fields (r : ProbeMetadata) := (bytes_sampled r, probe_file_size_bytes r, encoding_assumption r, probe_depth r, parse_confidence r, probe_notes r).
Definition ProbeMetadata_of x : ProbeMetadata :=
  let '(x0, x1, x2, x3, x4, x5) := x in {| bytes_sampled := x0; probe_file_size_bytes := x1; encoding_assumption := x2; probe_depth := x3; parse_confidence := x4; probe_notes := x5 |}.
#[global] Instance ProbeMetadata_codec_eq_dec : EqDecision ProbeMetadata.
Proof. record_eq ProbeMetadata_fields ProbeMetadata_of. Defined.
#[global] Instance ProbeMetadata_countable : Countable ProbeMetadata.
Proof. record_countable ProbeMetadata_fields ProbeMetadata_of. Defined.

Definition ScanAsset_fields (r : ScanAsset) := (sa_path r, sa_format r, sa_size_bytes r, sa_inspection_status r, sa_failure_kind r, sa_failure_message r, sa_dataset_id r, sa_probe r, sa_inspection_hints r).
Definition ScanAsset_of x : ScanAsset :=
  let '(x0, x1, x2, x3, x4, x5, x6, x7, x8) := x in {| sa_path := x0; sa_format := x1; sa_size_bytes := x2; sa_inspection_status := x3; sa_failure_kind := x4; sa_failure_message := x5; sa_dataset_id := x6; sa_probe := x7; sa_inspection_hints := x8 |}.
#[global] Instance ScanAsset_codec_eq_dec : EqDecision ScanAsset.
Proof. record_eq ScanAsset_fields ScanAsset_of. Defined.
#[global] Instance ScanAsset_countable : Countable ScanAsset.
Proof. record_countable ScanAsset_fields ScanAsset_of. Defined.

Definition ScanSummary_fields (r : ScanSummary) := (discovered_assets r, files_scanned r, inspected_assets r, failed_inspection_assets r, skipped_inspection_assets r, dataset_member_assets r, dataset_count r, partial_inspection r, scan_truncated r, findings_total r, findings_by_severity r).
Definition ScanSummary_of x : ScanSummary :=
  let '(x0, x1, x2, x3, x4, x5, x6, x7, x8, x9, x10) := x in {| discovered_assets := x0; files_scanned := x1; inspected_assets := x2; failed_inspection_assets := x3; skipped_inspection_assets := x4; dataset_member_assets := x5; dataset_count := x6; partial_inspection := x7; scan_truncated := x8; findings_total := x9; findings_by_severity := x10 |}.
#[global] Instance ScanSummary_codec_eq_dec : EqDecision ScanSummary.
Proof. record_eq ScanSummary_fields ScanSummary_of. Defined.
#[global] Instance ScanSummary_countable : Countable ScanSummary.
Proof. record_countable ScanSummary_fields ScanSummary_of. Defined.

Definition DatasetSummary_fields (r : DatasetSummary) := (dsum_dataset_id r, dsum_file_count r, dsum_dominant_format r).
Definition DatasetSummary_of x : DatasetSummary :=
  let '(x0, x1, x2) := x in {| dsum_dataset_id := x0; dsum_file_count := x1; dsum_dominant_format := x2 |}.
#[global] Instance DatasetSummary_codec_eq_dec : EqDecision DatasetSummary.
Proof. record_eq DatasetSummary_fields DatasetSummary_of. Defined.
#[global] Instance DatasetSummary_countable : Countable DatasetSummary.
Proof. record_countable DatasetSummary_fields DatasetSummary_of. Defined.

Definition FormatSummary_fields (r : FormatSummary) := (fsum_format r, fsum_file_count r).
Definition FormatSummary_of x : FormatSummary :=
  let '(x0, x1) := x in {| fsum_format := x0; fsum_file_count := x1 |}.
#[global] Instance FormatSummary_codec_eq_dec : EqDecision FormatSummary.
Proof. record_eq FormatSummary_fields FormatSummary_of. Defined.
#[global] Instance FormatSummary_countable : Countable FormatSummary.
Proof. record_countable FormatSummary_fields FormatSummary_of. Defined.

Definition ReportMetadata_fields (r : ReportMetadata) := (meta_scan_id r, meta_generated_at r, meta_contract_schema r, meta_report_format r, meta_engine_revision r).
Definition ReportMetadata_of x : ReportMetadata :=
  let '(x0, x1, x2, x3, x4) := x in {| meta_scan_id := x0; meta_generated_at := x1; meta_contract_schema := x2; meta_report_format := x3; meta_engine_revision := x4 |}.
#[global] Instance ReportMetadata_codec_eq_dec : EqDecision ReportMetadata.
Proof. record_eq ReportMetadata_fields ReportMetadata_of. Defined.
#[global] Instance ReportMetadata_countable : Countable ReportMetadata.
Proof. record_countable ReportMetadata_fields ReportMetadata_of. Defined.

Definition Report_fields (r : Report) := (rep_request r, rep_metadata r, rep_summary r, rep_assets r, rep_datasets r, rep_dataset_summaries r, rep_format_summaries r, rep_findings r).
Definition Report_of x : Report :=
  let '(x0, x1, x2, x3, x4, x5, x6, x7) := x in {| rep_request := x0; rep_metadata := x1; rep_summary := x2; rep_assets := x3; rep_datasets := x4; rep_dataset_summaries := x5; rep_format_summaries := x6; rep_findings := x7 |}.
#[global] Instance Report_codec_eq_dec : EqDecision Report.
Proof. record_eq Report_fields Report_of. Defined.
#[global] Instance Report_countable : Countable Report.
Proof. record_countable Report_fields Report_of. Defined.

(** * The serialization *)

Definition write_value {A} `{Countable A} (a : A) : string := pos_text (encode a).
Definition read_value {A} `{Countable A} (s : string) : Result string A :=
  ok_or (text_pos s ≫= decode) "invalid".

Lemma read_write {A} `{Countable A} (a : A) : read_value (write_value a) = Ok a.
Proof. unfold read_value, write_value. rewrite text_pos_text. cbn [mbind option_bind]. by rewrite decode_encode. Qed.

#[global] Program Instance binary_report_serde : ReportSerde := {|
  report_to_string := write_value; report_from_string := read_value;
  summary_to_string := write_value; summary_from_string := read_value;
  target_to_string := write_value; value_from_string s := Some (JStr s) |}.
Next Obligation. intros. apply read_write. Qed.
Next Obligation. intros. apply read_write. Qed.
Next Obligation. intros. eauto. Qed.
