(* ===== verification/ScanExamples.v ===== *)
(** Concrete scans: a lake of a few files, its reports and their storage, the
    witnesses of the theorems on scans, and what the engine does on inputs its
    comments describe otherwise. *)

From Stdlib Require Import Ascii Strings.Byte.
From stdpp Require Import countable.
From S2P Require Import Prelude Memory Publication PublicationExamples RemoteInventory.
From S2P Require Import BTree Location Schema RepairPlan Backend Inventory Journal JobStore Application.
From S2P Require Import ExecuteExamples ServerExamples ParquetFooter ScanTypes ScanInfer ScanRules ScanEngine.
From S2P Require Import ScanProofs ScanRuleProofs ScanStore ScanStoreProofs ScanCodec.

(** * A file system of text files *)

Record lake_file := { lf_path : string; lf_size : Z; lf_text : string }.
Definition lake : Type := list lake_file.

Definition lake_find (l : lake) (p : string) : Result string lake_file :=
  ok_or (find (fun f => bool_decide (lf_path f = p)) l) "No such file or directory (os error 2)".

Definition lake_fs (l : lake) : ScanFs := {|
  sfs_exists p := existsb (fun f => path_starts_with (lf_path f) p) l;
  sfs_metadata p := f ← lake_find l p; Ok (lf_size f);
  sfs_walk root := map (fun f => Some {| we_is_file := true; we_path := Ok (lf_path f) |}) l;
  sfs_open p := f ← lake_find l p; Ok tt;
  sfs_len p := f ← lake_find l p; Ok (lf_size f);
  sfs_read p n := f ← lake_find l p; Ok (String.substring 0 n (lf_text f));
  sfs_contents p := f ← lake_find l p; Ok (String.list_byte_of_string (lf_text f));
  from_utf8_lossy s := s;
  alphabetic_start s := match s with String c _ => is_ascii_alphanumeric c | EmptyString => false end;
  json_from_str s := if decide (s = "{}") then Ok (JObj []) else Err "expected value at line 1 column 1" |}.

(** A Parquet file of the example is the name of its only column. *)
Definition lake_metadata (b : bytes) : Result string ParquetMetaData :=
  match b with
  | [] => Err "EOF: file size of 0 is less than footer"
  | _ => Ok {| pm_num_rows := 10; pm_created_by := None;
               pm_columns := [{| cd_name := String.string_of_list_byte b; cd_physical := "INT64"; cd_logical := "None";
                                 cd_optional := true |}];
               pm_row_groups := [{| rgm_num_rows := 10; rgm_compressed_size := 100; rgm_total_byte_size := 100;
                                    rgm_columns := [{| cc_compression := "snappy"; cc_statistics := true |}] |}] |}
  end.

#[global] Instance lake_crate : ParquetCrate := {|
  serialized_metadata := lake_metadata; decode_footer_tail b := Ok 0; decode_metadata := lake_metadata |}.

#[global] Instance lake_uuids : UuidSupply := {| uuid_at n := "uuid-" +:+ pretty n |}.
#[global] Instance lake_urls : UrlText := fun u => scheme u +:+ "://" +:+ url_path u.

Definition file_at (p text : string) : lake_file := {| lf_path := p; lf_size := 5000; lf_text := text |}.

Definition ex_lake : lake := [
  file_at "/lake/notes.bin" "?"; file_at "/lake/sales/dt=2/p.parquet" "qty"; file_at "/lake/sales/dt=1/p.parquet" "qty";
  file_at "/lake/bad.parquet" EmptyString; file_at "/lake/x.csv" "id,name"].

Definition ex_request (max : Z) : ScanRequest := {|
  req_scan_id := "scan-1"; req_target := LocalDirectory "/lake"; req_profile := ProfileStandard;
  req_options := {| scan_mode := FullScan; max_files := max; format_hints := [] |} |}.

Definition ex_plan (l : lake) (max : Z) : option ScanPlan :=
  result_ok (resolve_local_scan_plan (H := lake_fs l) (LocalDirectory "/lake") (req_options (ex_request max))).

Definition ex_scan (l : lake) (n : nat) : option Report :=
  result_ok (fst (engine_run (H := lake_fs l) 7 (ex_request 100) n)).

(** One scan of the lake: statuses, datasets and codes. *)
Example ex_scan_assets : option_map (fun r => map (fun a => (sa_path a, sa_inspection_status a, sa_dataset_id a)) (rep_assets r))
    (ex_scan ex_lake 0)
  = Some [("/lake/bad.parquet", InspFailed, None); ("/lake/notes.bin", InspSkipped, None);
          ("/lake/sales/dt=1/p.parquet", Inspected, Some "/lake::parquet::sales");
          ("/lake/sales/dt=2/p.parquet", Inspected, Some "/lake::parquet::sales");
          ("/lake/x.csv", Inspected, None)].
Proof. vm_compute. reflexivity. Qed.

Example ex_scan_codes : option_map (fun r => map sf_code (rep_findings r)) (ex_scan ex_lake 0)
  = Some [ASSET_INSPECTION_SKIPPED; FORMAT_MIXED_DATASET; FORMAT_PARQUET_READ_FAILED;
          FORMAT_TEXT_PROBE_BOUNDED; FORMAT_UNKNOWN].
Proof. vm_compute. reflexivity. Qed.

(** * Witnesses *)

#[local] Instance ex_fs : ScanFs := lake_fs ex_lake.

Definition ex_inspection (column : string) : ParquetInspection :=
  inspection_from_metadata (match lake_metadata (String.list_byte_of_string column) with
                            | Ok m => m
                            | Err _ => {| pm_num_rows := 0; pm_created_by := None; pm_columns := []; pm_row_groups := [] |}
                            end).

Definition ex_paths : list string := ["/lake/a/1.parquet"; "/lake/a/2.parquet"; "/lake/b/3.parquet"].
Definition ex_inspections : pmap ParquetInspection :=
  pm_of_list [("/lake/a/1.parquet", ex_inspection "x"); ("/lake/a/2.parquet", ex_inspection "y");
              ("/lake/b/3.parquet", ex_inspection "x")].
Definition ex_empty_plan : ScanPlan := {| plan_scan_root := "/lake"; plan_assets := []; plan_truncated := false |}.

Lemma ex_readable : Forall (fun p => is_Some (pm_get p ex_inspections)) ex_paths.
Proof. repeat constructor; vm_compute; eauto. Qed.

Lemma datasets_partition_witness :
  flat_map (fun d => map df_path (ds_files d))
    (fst (infer_parquet_datasets (fun _ => None) ex_empty_plan ex_paths ex_inspections)) ≡ₚ ex_paths.
Proof. apply (datasets_partition (fun _ => None) ex_empty_plan ex_paths ex_inspections). apply ex_readable. Defined.

Lemma dataset_grouping_witness :
  length (fst (infer_parquet_datasets (fun _ => None) ex_empty_plan ex_paths ex_inspections)) = 3 /\
  exists d, d ∈ fst (infer_parquet_datasets (fun _ => None) ex_empty_plan ex_paths ex_inspections) /\
    "/lake/a/1.parquet" ∈ map df_path (ds_files d) /\ "/lake/a/1.parquet" ∈ map df_path (ds_files d).
Proof.
  split; [vm_compute; reflexivity|].
  apply (dataset_grouping (fun _ => None) ex_empty_plan ex_paths ex_inspections ex_readable);
    [set_solver|set_solver|reflexivity|reflexivity].
Defined.

Definition ex_plan1 : ScanPlan := {| plan_scan_root := "/lake"; plan_truncated := false; plan_assets := [
  {| ra_path := "/lake/x.csv"; ra_format := Csv; ra_size_bytes := 5000 |};
  {| ra_path := "/lake/bad.parquet"; ra_format := Parquet; ra_size_bytes := 5000 |}] |}.
Definition ex_walk (root : string) : list (option WalkEntry) := sfs_walk (ScanFs := lake_fs ex_lake) root.
Definition ex_walk_back (root : string) : list (option WalkEntry) := rev (ex_walk root).

Lemma scan_order_independent_witness :
  engine_run (H := with_walk (lake_fs ex_lake) ex_walk) 7 (ex_request 100) 0 =
  engine_run (H := with_walk (lake_fs ex_lake) ex_walk_back) 7 (ex_request 100) 0 /\
  is_ok (fst (engine_run (H := with_walk (lake_fs ex_lake) ex_walk_back) 7 (ex_request 100) 0)) = true.
Proof.
  split; [|vm_compute; reflexivity].
  apply (scan_order_independent (lake_fs ex_lake) ex_walk ex_walk_back 7 (ex_request 100) "/lake" 0); [reflexivity|apply Permutation_rev| | |].
  - repeat constructor.
  - vm_compute. reflexivity.
  - apply (bool_decide_unpack _). vm_compute. exact I.
Defined.

Lemma directory_plan_exact_witness : exists plan, resolve_directory "/lake" (req_options (ex_request 2)) = Ok plan /\
  plan_assets plan = take 2 (omap readable_asset (sfs_walk "/lake")) /\ plan_truncated plan = true.
Proof.
  destruct (resolve_directory "/lake" (req_options (ex_request 2))) as [plan|e] eqn:E; [|vm_compute in E; discriminate E].
  exists plan. split; [reflexivity|].
  destruct (directory_plan_exact "/lake" (req_options (ex_request 2)) plan E) as (Ha & Ht & _).
  split; [exact Ha|]. apply Ht. vm_compute. discriminate.
Defined.

Definition ex_evidence (id : string) : Evidence := {|
  ev_id := id; ev_kind := FileSlice; ev_summary := "s"; ev_location_ref := None; ev_payload := None; ev_references := [] |}.
Definition ex_finding (id : string) : ScanFinding := {|
  sf_id := "f"; sf_code := FORMAT_UNKNOWN; sf_severity := Info; sf_category := CatFormat; sf_summary := "s";
  sf_detail := "d"; sf_evidence := [ex_evidence id]; sf_locations := []; sf_recommendations := [];
  sf_fingerprint := None; sf_attributes := [] |}.

Lemma fingerprint_covers_evidence_ids_witness :
  map ev_id (sf_evidence (ex_finding "a")) = map ev_id (sf_evidence (ex_finding "a")) /\
  sort_json_value (finding_fingerprint_payload (ex_finding "a")) <>
  sort_json_value (finding_fingerprint_payload (ex_finding "b")).
Proof.
  split; [apply (fingerprint_covers_evidence_ids (ex_finding "a") (ex_finding "a")); reflexivity|].
  intros Heq. apply (fingerprint_covers_evidence_ids (ex_finding "a") (ex_finding "b")) in Heq. discriminate Heq.
Defined.

Lemma engine_report_redaction_valid_witness :
  validate_report (apply_redaction_policy (fst (build_report 7 (ex_request 100) ex_plan1 0)) transport_safe_persist) = Ok tt.
Proof. apply (engine_report_redaction_valid 7 (ex_request 100) ex_plan1 0 transport_safe_persist). discriminate. Defined.

(** A report of two skipped files. *)
Definition ex_skipped (p : string) : ScanAsset := base_record {| ra_path := p; ra_format := UnknownFormat; ra_size_bytes := 3 |}.
Definition ex_small : Report := {|
  rep_request := ex_request 100;
  rep_metadata := {| meta_scan_id := "scan-1"; meta_generated_at := 7; meta_contract_schema := CONTRACT_SCHEMA_VERSION;
    meta_report_format := REPORT_FORMAT_VERSION; meta_engine_revision := None |};
  rep_summary := scan_summary false [ex_skipped "/lake/z"; ex_skipped "/lake/y"] [] [];
  rep_assets := [ex_skipped "/lake/z"; ex_skipped "/lake/y"]; rep_datasets := []; rep_dataset_summaries := [];
  rep_format_summaries := []; rep_findings := [] |}.

Lemma ex_small_valid : validate_report ex_small = Ok tt.
Proof. vm_compute. reflexivity. Qed.
Lemma ex_small_redacted_valid : validate_report (apply_redaction_policy ex_small transport_safe_persist) = Ok tt.
Proof. vm_compute. reflexivity. Qed.
Lemma ex_small_distinct : distinct_rows (apply_redaction_policy ex_small transport_safe_persist).
Proof. split; [|split]; apply (bool_decide_unpack _); vm_compute; exact I. Qed.

Definition ex_persist : Result StoreError unit * scan_tables :=
  persist_scan_run "run-1" 1 2 ex_small transport_safe_persist tables_empty.

Lemma persist_scan_run_spec_witness : fst ex_persist = Ok tt /\
  load_report "run-1" (snd ex_persist) = Ok (apply_redaction_policy ex_small transport_safe_persist).
Proof.
  pose proof (persist_scan_run_spec "run-1" 1 2 ex_small transport_safe_persist tables_empty tables_empty_wf) as Hs.
  unfold ex_persist. cbv zeta in Hs. destruct (persist_scan_run "run-1" 1 2 ex_small transport_safe_persist tables_empty) as [res t'].
  destruct Hs as (Hok & Hres & _). assert (res = Ok tt) as Hr.
  { apply Hok. split; [apply ex_small_valid|]. split; [apply ex_small_redacted_valid|].
    split; [apply not_elem_of_nil|apply ex_small_distinct]. }
  subst res. split; [reflexivity|apply Hres].
Defined.

Lemma ex_persist_appended : ex_persist
  = (Ok tt, appended "run-1" 1 2 (apply_redaction_policy ex_small transport_safe_persist) tables_empty).
Proof.
  apply persist_success; [apply tables_empty_wf|apply ex_small_valid|apply ex_small_redacted_valid|apply not_elem_of_nil|].
  apply ex_small_distinct.
Qed.

Definition ex_calls : list (string * Z * Z * Report * RedactionPolicy) :=
  [("run-1", 1%Z, 2%Z, ex_small, transport_safe_persist); ("run-1", 3%Z, 4%Z, ex_small, transport_safe_persist)].

Lemma ex_calls_runs : "run-1" ∈ map rr_run_id (scan_runs (foldl persist_step tables_empty ex_calls)).
Proof.
  apply (persist_steps_first "run-1" 1 2 ex_small transport_safe_persist [("run-1", 3%Z, 4%Z, ex_small, transport_safe_persist)]);
    [apply ex_small_valid|apply ex_small_redacted_valid|apply ex_small_distinct].
Qed.

Lemma projections_always_consistent_witness :
  verify_projection_integrity "run-1" (foldl persist_step tables_empty ex_calls) = Ok tt.
Proof. apply (projections_always_consistent ex_calls "run-1" ex_calls_runs). Defined.

Lemma asset_pages_exact_witness :
  option_map (map st_path) (result_ok (list_assets_page "run-1" None 1 5 (snd ex_persist))) = Some ["/lake/z"].
Proof.
  destruct (asset_pages_exact "run-1" 1 2 ex_small transport_safe_persist tables_empty (snd ex_persist) None 1 5) as [-> _];
    [apply tables_empty_wf| |lia|lia|vm_compute; reflexivity].
  rewrite <- (f_equal fst ex_persist_appended : fst ex_persist = Ok tt). apply surjective_pairing.
Defined.

(** * Findings of the modelling *)

(** Two scans of an unchanged lake: the second run, whose ids come later in the
    supply, is reported to have removed and added every finding. *)
Definition rescan : option (list string * list string * nat) :=
  a ← ex_scan ex_lake 0; b ← ex_scan ex_lake 100;
  let d := diff_reports "run-1" "run-2" a b in
  Some (diff_findings_added d, diff_findings_removed d, length (rep_findings a)).

(** Scanning an unchanged directory twice and diffing the reports lists all five
    findings as added and all five as removed: fingerprints are not stable. *)
Theorem rescan_changes_every_fingerprint :
  exists added removed n, rescan = Some (added, removed, n) /\ n = 5 /\ length added = 5 /\ length removed = 5.
Proof. vm_compute. do 3 eexists. split; [reflexivity|]. auto. Qed.

(** Files in the root and files in a directory called [default]. *)
Definition default_lake : lake := [file_at "/lake/a.parquet" "x"; file_at "/lake/default/b.parquet" "x"].

(** The two datasets get one id, so the report validates but cannot be stored:
    the second row violates the primary key of [scan_datasets]. *)
Theorem default_directory_not_storable :
  exists report, ex_scan default_lake 0 = Some report /\
    map ds_dataset_id (rep_datasets report) = ["/lake::parquet::default"; "/lake::parquet::default"] /\
    fst (persist_scan_run "run-1" 1 2 report transport_safe_persist tables_empty)
      = Err (Sql "UNIQUE constraint failed: scan_datasets.run_id, scan_datasets.dataset_id").
Proof.
  destruct (ex_scan default_lake 0) as [report|] eqn:E; [|vm_compute in E; discriminate E].
  exists report. split; [done|]. vm_compute in E. injection E as <-. split; [vm_compute; reflexivity|]. lazy. reflexivity.
Qed.

(** Five files and [max_files = 5]: nothing is missing, yet the plan says truncated. *)
Theorem exact_cap_reported_truncated :
  option_map (fun p => (length (plan_assets p), plan_truncated p)) (ex_plan ex_lake 5) = Some (length ex_lake, true).
Proof. vm_compute. reflexivity. Qed.

(** The documented dash of a plugin id is refused. *)
Theorem plugin_id_dash_refused : try_new "plugin.my-plugin.rule" = Err (CodeInvalidSegment "my-plugin").
Proof. vm_compute. reflexivity. Qed.

(** A file name that looks like [key=value] counts as a Hive directory. *)
Theorem file_name_counts_as_partition :
  hive_partition_segments "/lake" "/lake/x=1.parquet" = [{| seg_key := "x"; seg_value := "1.parquet" |}] /\
  dataset_anchor_key "/lake" "/lake/x=1.parquet" = EmptyString.
Proof. vm_compute. split; reflexivity. Qed.

(** Empty cells are not counted as columns. *)
Theorem csv_empty_cells_not_counted : split_csv_line "id,,name" "," = ["id"; "name"].
Proof. vm_compute. reflexivity. Qed.

(** * A remote dataset *)

Module RemoteExamples.
Import Remote.

(** A Parquet file whose metadata is the name of its only column. *)
Definition tail_length (b : bytes) : Result string nat :=
  map_err storage_error_display (n ← parse_metadata_length b; Ok (Z.to_nat n)).

#[local] Instance column_crate : ParquetCrate := {|
  serialized_metadata b := n ← tail_length (suffix_bytes 8 b); lake_metadata (take n (suffix_bytes (n + 8) b));
  decode_footer_tail := tail_length;
  decode_metadata := lake_metadata |}.

Lemma tail_length_trailer n : (0 <= n < 2 ^ 32)%Z -> tail_length (trailer_of n) = Ok (Z.to_nat n).
Proof.
  intros Hn. unfold tail_length, parse_metadata_length, trailer_of, to_le_bytes. cbn [length].
  rewrite length_app, le_bytes_length. cbn [Nat.add length PARQUET_MAGIC Nat.eqb negb].
  rewrite drop_app_length', take_app_length' by (by rewrite le_bytes_length). rewrite bool_decide_eq_true_2 by done.
  cbn [negb mbind Result_bind map_err]. by rewrite le_bytes_roundtrip.
Qed.

#[local] Instance column_footer_crate : FooterCrate.
Proof.
  split.
  - apply tail_length_trailer.
  - intros body metadata m Hn Hm. cbn [serialized_metadata column_crate]. set (n := Z.of_nat (length metadata)) in *.
    assert (suffix_bytes 8 (body ++ metadata ++ trailer_of n) = trailer_of n) as ->.
    { unfold suffix_bytes. rewrite app_assoc, !length_app, trailer_length. apply drop_app_length'. rewrite length_app. lia. }
    rewrite tail_length_trailer by lia. cbn [mbind Result_bind]. unfold n. rewrite Nat2Z.id. fold n. unfold suffix_bytes.
    rewrite drop_app_length' by (rewrite !length_app, trailer_length; lia). by rewrite take_app_length'.
Qed.

(** Enough of serde_json for the cached inspections. *)
Definition unexpected {A} : Result string A := Err "invalid type".

Fixpoint each {A} (f : json -> Result string A) (l : list json) : Result string (list A) :=
  match l with [] => Ok [] | v :: l => a ← f v; rest ← each f l; Ok (a :: rest) end.

Lemma each_map {A} (f : json -> Result string A) g l : (forall a, a ∈ l -> f (g a) = Ok a) -> each f (map g l) = Ok l.
Proof.
  induction l as [|a l IH]; intros Hf; cbn; [done|]. rewrite Hf by (by left). cbn. rewrite IH; [done|]. intros b Hb. apply Hf. by right.
Qed.

Definition row_group_of (v : json) : Result string RowGroupSummary :=
  match v with
  | JObj [(_, JNum i); (_, JNum rows); (_, JNum c); (_, JNum t)] =>
      Ok {| rg_index := Z.to_nat i; rg_num_rows := rows; compressed_size := c; total_byte_size := t |}
  | _ => unexpected
  end.
Definition field_of (v : json) : Result string FieldDefinition :=
  match v with
  | JObj [(_, JStr n); (_, JStr t); (_, JBool b)] => Ok {| def_name := n; def_logical_type := t; def_nullable := b |}
  | _ => unexpected
  end.

#[local] Instance cached_serde : Serde := {|
  row_groups_from_value v := match v with JArr l => each row_group_of l | _ => unexpected end;
  schema_from_value v := match v with JObj [(_, JArr l)] => each field_of l | _ => unexpected end;
  codecs_from_value v := match v with JArr l => each (fun v => match v with JStr s => Ok s | _ => unexpected end) l | _ => unexpected end |}.

#[local] Instance cached_serde_round_trip : SerdeRoundTrip.
Proof.
  split; intros l; [intros _|..]; apply each_map; try done.
  - intros [] _. cbn. by rewrite Nat2Z.id.
  - by intros [] _.
Qed.

Example cached_inspection_back p : is_ok (parquet_inspection_from_hints (parquet_inspection_hints (ex_inspection "x")) p) = true.
Proof.
  rewrite (inspection_hints_round_trip (ex_inspection "x")); [done|].
  split; [cbn; lia|]. split; [cbn; lia|]. split; [constructor; [cbn; unfold row_group_fits; cbn; lia|constructor]|].
  apply bm_of_list_wf.
Qed.

#[local] Instance any_url : UrlParser := fun uri => Ok {| scheme := "s3"; username := EmptyString; password := None;
  host_str := Some "lake"; url_path := "/sales"; to_file_path := None |}.

#[local] Instance no_files : ScanFs := lake_fs [].

Definition put (k : string) (d : bytes) (s : MemoryBackend) : MemoryBackend :=
  snd (memory_conditional_create (S3Object "lake" k) must_not_exist d s).

Definition remote_lake : MemoryBackend :=
  put "sales/dt=1/a.parquet" (synthetic_parquet_bytes 4 [x05]) (put "sales/notes.txt" [x05]
    (put "sales/broken.parquet" [x05; x06] (memory_new CAPS_S3))).

Definition sales : DatasetLocation := S3 {| bucket := "lake"; prefix := "sales" |}.

(** One object is inspected through its footer, one has no footer, one is no Parquet
    file; the size of the first one is missing, for the sizes of a dataset's files
    come from the local file system. *)
Example remote_scan_statuses :
  match scan_remote_dataset 7 3 sales remote_lake 0 with
  | Some (Ok r, _) => Some (map (fun a => (sa_path a, sa_inspection_status a)) (rep_assets r),
                            map (fun d => (ds_dataset_id d, map (fun f => (df_path f, df_byte_length f)) (ds_files d))) (rep_datasets r))
  | _ => None
  end = Some ([("s3://lake/sales/broken.parquet", InspFailed); ("s3://lake/sales/dt=1/a.parquet", Inspected);
               ("s3://lake/sales/notes.txt", InspSkipped)],
              [("s3://lake/sales::parquet::default", [("s3://lake/sales/dt=1/a.parquet", None)])]).
Proof. vm_compute. reflexivity. Qed.

Example remote_scan_changes_nothing r s' n' :
  scan_remote_dataset 7 3 sales remote_lake 0 = Some (r, (s', n')) ->
  same_on addressable (memory_view remote_lake) (memory_view s').
Proof. intros E. apply (remote_scan_read_only (St := MemoryBackend)) in E; [exact E|done]. Qed.

Example remote_inspection_of_whole :
  fst (run (inspect_remote_parquet "s3://lake/sales/dt=1/a.parquet" 13) remote_lake) =
    inspect_parquet_chunk_reader (synthetic_parquet_bytes 4 [x05]).
Proof. vm_compute. reflexivity. Qed.
End RemoteExamples.
