(* ===== verification/TypeUnify.v ===== *)
(** Unification of column types over the schemas of several inputs
    (src/crates/parqonaut-columnar/src/schema/{kind,unify,unified}.rs,
    src/crates/parqonaut-columnar/src/error.rs,
    src/crates/parqonaut-workflow/src/schema_policy.rs and the error type and
    wrappers of src/crates/parqonaut-stream/src/{error,schema}.rs).

    The Arrow types the sources name are constructors of [DataType]; the others
    are known by their [Debug] text only.  Below the definitions: unification is
    a partial join with [Null] as unit, commutative and (unless conflicts are
    stringified) associative, so the unified schema does not depend on the order
    of the inputs. *)

From S2P Require Import Prelude.

(** * Arrow schemas *)

Inductive TimeUnit := TSecond | TMillisecond | TMicrosecond | TNanosecond.

Inductive DataType :=
| ANull | ABoolean | AInt8 | AInt16 | AInt32 | AInt64 | AFloat32 | AFloat64
| AUtf8 | ALargeUtf8 | ABinary | ALargeBinary | ADate32 | ADate64
| ATimestamp (u : TimeUnit) (tz : option string)
| AOther (debug : string).

#[global] Instance TimeUnit_eq_dec : EqDecision TimeUnit.
Proof. solve_decision. Defined.
#[global] Instance DataType_eq_dec : EqDecision DataType.
Proof. solve_decision. Defined.

Record Field := { fd_name : string; fd_type : DataType; fd_nullable : bool }.
Abbreviation Schema := (list Field).

#[global] Instance Field_eq_dec : EqDecision Field.
Proof. solve_decision. Defined.

(** The [Debug] text of an Arrow type. *)
Definition time_unit_debug (u : TimeUnit) : string :=
  match u with
  | TSecond => "Second" | TMillisecond => "Millisecond"
  | TMicrosecond => "Microsecond" | TNanosecond => "Nanosecond"
  end.

Definition data_type_debug (t : DataType) : string :=
  match t with
  | ANull => "Null" | ABoolean => "Boolean" | AInt8 => "Int8" | AInt16 => "Int16" | AInt32 => "Int32"
  | AInt64 => "Int64" | AFloat32 => "Float32" | AFloat64 => "Float64" | AUtf8 => "Utf8"
  | ALargeUtf8 => "LargeUtf8" | ABinary => "Binary" | ALargeBinary => "LargeBinary"
  | ADate32 => "Date32" | ADate64 => "Date64"
  | ATimestamp u tz =>
      "Timestamp(" +:+ time_unit_debug u +:+ ", "
        +:+ match tz with
            | None => "None"
            | Some s => "Some(" +:+ String (Ascii.ascii_of_nat 34) (s +:+ String (Ascii.ascii_of_nat 34) ")")
            end +:+ ")"
  | AOther d => d
  end.

(** * Errors *)

Inductive ColumnarError :=
| CSchema (msg : string) | CValidation (msg : string) | CIo (msg : string) | CArrow (msg : string)
| CCancelled | CParquet (msg : string) | COther (msg : string).

Definition columnar_error_display (e : ColumnarError) : string :=
  match e with
  | CSchema m => "schema error: " +:+ m
  | CValidation m => "batch validation failed: " +:+ m
  | CIo m => "I/O error: " +:+ m
  | CArrow m => "arrow error: " +:+ m
  | CCancelled => "pipeline cancelled"
  | CParquet m => "parquet error: " +:+ m
  | COther m => m
  end.

(** Errors of the streaming engine; those of other crates by their text. *)
Inductive MawError :=
| MIo (msg : string) | MCsv (msg : string) | MParquet (msg : string) | MArrow (msg : string)
| MSchema (msg : string) | MInvalidInput (msg : string) | MUnsupportedCapability (msg : string)
| MConfig (msg : string) | MState (msg : string) | MEncoding (msg : string) | MJson (msg : string)
| MWalkdir (msg : string) | MGlob (msg : string) | MJoin (msg : string).

Definition maw_error_display (e : MawError) : string :=
  match e with
  | MIo m => "IO error: " +:+ m
  | MCsv m => "CSV parsing error: " +:+ m
  | MParquet m => "Parquet error: " +:+ m
  | MArrow m => "Arrow error: " +:+ m
  | MSchema m => "Schema error: " +:+ m
  | MInvalidInput m => "Invalid input: " +:+ m
  | MUnsupportedCapability m => "unsupported capability: " +:+ m
  | MConfig m => "Configuration error: " +:+ m
  | MState m => "State error: " +:+ m
  | MEncoding m => "Encoding error: " +:+ m
  | MJson m => "JSON error: " +:+ m
  | MWalkdir m => "Walkdir error: " +:+ m
  | MGlob m => "Glob error: " +:+ m
  | MJoin m => "Join error: " +:+ m
  end.

(** * Type kinds (kind.rs) *)

Inductive TypeKind :=
| KNull | KBool | KI8 | KI16 | KI32 | KI64 | KF32 | KF64 | KUtf8 | KDate | KDatetime | KBinary.

#[global] Instance TypeKind_eq_dec : EqDecision TypeKind.
Proof. solve_decision. Defined.

Definition type_kind_debug (k : TypeKind) : string :=
  match k with
  | KNull => "Null" | KBool => "Bool" | KI8 => "I8" | KI16 => "I16" | KI32 => "I32" | KI64 => "I64"
  | KF32 => "F32" | KF64 => "F64" | KUtf8 => "Utf8" | KDate => "Date" | KDatetime => "Datetime"
  | KBinary => "Binary"
  end.

Definition from_arrow_type (dt : DataType) : Result ColumnarError TypeKind :=
  match dt with
  | ANull => Ok KNull
  | ABoolean => Ok KBool
  | AInt8 => Ok KI8
  | AInt16 => Ok KI16
  | AInt32 => Ok KI32
  | AInt64 => Ok KI64
  | AFloat32 => Ok KF32
  | AFloat64 => Ok KF64
  | AUtf8 | ALargeUtf8 => Ok KUtf8
  | ABinary | ALargeBinary => Ok KBinary
  | ADate32 => Ok KDate
  | ADate64 => Ok KDatetime
  | ATimestamp _ _ => Ok KDatetime
  | AOther _ => Err (CSchema ("unsupported Arrow type for unification: " +:+ data_type_debug dt))
  end.

Definition to_arrow_type (k : TypeKind) : DataType :=
  match k with
  | KNull => ANull
  | KBool => ABoolean
  | KI8 => AInt8
  | KI16 => AInt16
  | KI32 => AInt32
  | KI64 => AInt64
  | KF32 => AFloat32
  | KF64 => AFloat64
  | KUtf8 => AUtf8
  | KDate => ADate32
  | KDatetime => ATimestamp TMillisecond None
  | KBinary => ABinary
  end.

(** * Unification (unify.rs) *)

Inductive SchemaConflictPolicy := Strict | Widen | Stringify.

#[global] Instance SchemaConflictPolicy_eq_dec : EqDecision SchemaConflictPolicy.
Proof. solve_decision. Defined.

Definition is_strict (p : SchemaConflictPolicy) : bool := match p with Strict => true | _ => false end.

Definition widen_types (left right : TypeKind) (stringify_conflicts : bool) (policy : SchemaConflictPolicy)
    : Result ColumnarError TypeKind :=
  if decide (left = KNull) then Ok right
  else if decide (right = KNull) then Ok left
  else if decide (left = right) then Ok left
  else
    match left, right with
    | KBool, KI8 | KI8, KBool => Ok KI8
    | KBool, KI16 | KI16, KBool => Ok KI16
    | KBool, KI32 | KI32, KBool => Ok KI32
    | KBool, KI64 | KI64, KBool => Ok KI64
    | KBool, KF32 | KF32, KBool => Ok KF32
    | KBool, KF64 | KF64, KBool => Ok KF64
    | KI8, KI16 | KI16, KI8 => Ok KI16
    | KI8, KI32 | KI32, KI8 => Ok KI32
    | KI8, KI64 | KI64, KI8 => Ok KI64
    | KI16, KI32 | KI32, KI16 => Ok KI32
    | KI16, KI64 | KI64, KI16 => Ok KI64
    | KI32, KI64 | KI64, KI32 => Ok KI64
    | KI8, KF32 | KF32, KI8 => Ok KF32
    | KI8, KF64 | KF64, KI8 => Ok KF64
    | KI16, KF32 | KF32, KI16 => Ok KF32
    | KI16, KF64 | KF64, KI16 => Ok KF64
    | KI32, KF32 | KF32, KI32 => Ok KF32
    | KI32, KF64 | KF64, KI32 => Ok KF64
    | KI64, KF32 | KF32, KI64 => Ok KF64
    | KI64, KF64 | KF64, KI64 => Ok KF64
    | KF32, KF64 | KF64, KF32 => Ok KF64
    | KDate, KDatetime | KDatetime, KDate => Ok KDatetime
    | _, _ =>
        if (bool_decide (left = KUtf8) || bool_decide (right = KUtf8)) && stringify_conflicts then Ok KUtf8
        else if (bool_decide (left = KBinary) || bool_decide (right = KBinary)) && stringify_conflicts then Ok KUtf8
        else if is_strict policy then
          Err (CSchema ("Cannot unify incompatible types under strict policy: "
                          +:+ type_kind_debug left +:+ " and " +:+ type_kind_debug right))
        else Err (CSchema ("Cannot unify incompatible types: "
                             +:+ type_kind_debug left +:+ " and " +:+ type_kind_debug right))
    end.

Definition unify_types (left right : TypeKind) (policy : SchemaConflictPolicy) : Result ColumnarError TypeKind :=
  widen_types left right (match policy with Stringify => true | _ => false end) policy.

(** * Unified schemas (unified.rs) *)

Record UnifiedSchema := {
  us_schema : Schema;
  us_column_mapping : gmap string string;
  us_type_mapping : gmap string TypeKind;
}.

Definition unified_new : UnifiedSchema :=
  {| us_schema := []; us_column_mapping := ∅; us_type_mapping := ∅ |}.

Fixpoint try_fold {E A B} (f : A -> B -> Result E A) (l : list B) (a : A) : Result E A :=
  match l with
  | [] => Ok a
  | x :: l => a ← f a x; try_fold f l a
  end.

(** One field: [column_types] and [column_order] after it. *)
Definition unify_field (policy : SchemaConflictPolicy) (acc : gmap string TypeKind * list string) (field : Field)
    : Result ColumnarError (gmap string TypeKind * list string) :=
  type_kind ← from_arrow_type (fd_type field);
  match fst acc !! fd_name field with
  | Some existing => widened ← unify_types existing type_kind policy; Ok (<[fd_name field := widened]> (fst acc), snd acc)
  | None => Ok (<[fd_name field := type_kind]> (fst acc), snd acc ++ [fd_name field])
  end.

(** Every name of [column_order] is a key of [column_types], so that indexing
    does not panic ([column_order_keys] below). *)
Definition unified_fields (column_types : gmap string TypeKind) (column_order : list string) : Schema :=
  omap (fun c => k ← column_types !! c; Some {| fd_name := c; fd_type := to_arrow_type k; fd_nullable := true |})
    column_order.

Definition from_schemas (schemas : list Schema) (policy : SchemaConflictPolicy) : Result ColumnarError UnifiedSchema :=
  r ← try_fold (fun acc schema => try_fold (unify_field policy) schema acc) schemas (∅, []);
  Ok {| us_schema := unified_fields (fst r) (snd r); us_column_mapping := us_column_mapping unified_new;
        us_type_mapping := fst r |}.

Definition get_column_type (u : UnifiedSchema) (column : string) : option TypeKind := us_type_mapping u !! column.

Definition get_unified_column_name (u : UnifiedSchema) (original : string) : string :=
  default original (us_column_mapping u !! original).

Definition unified_from_schemas (schemas : list Schema) (policy : SchemaConflictPolicy) : Result MawError UnifiedSchema :=
  map_err (fun e => MSchema (columnar_error_display e)) (from_schemas schemas policy).

(** * The join *)

(** [unify_types] without its error text. *)
Definition join (policy : SchemaConflictPolicy) (a b : TypeKind) : option TypeKind := result_ok (unify_types a b policy).

Lemma join_comm policy a b : join policy a b = join policy b a.
Proof. by destruct policy, a, b. Qed.

Lemma join_assoc policy a b c : policy <> Stringify ->
  (x ← join policy a b; join policy x c) = (x ← join policy b c; join policy a x).
Proof. intros Hp. destruct policy; [| |done]; destruct a, b, c; reflexivity. Qed.

(** The unified type absorbs both: it is an upper bound of the order the join
    induces, under every policy. *)
Lemma join_upper policy a b c : join policy a b = Some c -> join policy a c = Some c /\ join policy b c = Some c.
Proof. destruct policy, a, b; intros [= <-]; done. Qed.

Lemma join_swap policy a b c : policy <> Stringify ->
  (x ← join policy a b; join policy x c) = (x ← join policy a c; join policy x b).
Proof.
  intros Hp. rewrite (join_assoc _ a b c Hp), (join_comm policy b c), <- (join_assoc _ a c b Hp). done.
Qed.

(** What a list of types unifies to, from the left as the code does it. *)
Definition join_all (policy : SchemaConflictPolicy) (ks : list TypeKind) : option TypeKind :=
  foldl (fun acc k => a ← acc; join policy a k) (Some KNull) ks.

Lemma join_null policy k : join policy KNull k = Some k.
Proof. by destruct policy. Qed.

Lemma join_all_snoc policy ks k : join_all policy (ks ++ [k]) = (a ← join_all policy ks; join policy a k).
Proof. unfold join_all. by rewrite foldl_app. Qed.

(** * The fold over the fields *)

Lemma try_fold_app {E A B} (f : A -> B -> Result E A) l1 l2 a :
  try_fold f (l1 ++ l2) a = (b ← try_fold f l1 a; try_fold f l2 b).
Proof. revert a. induction l1 as [|x l1 IH]; intros a; [done|]. simpl. destruct (f a x); [apply IH|done]. Qed.

Lemma try_fold_concat {E A B} (f : A -> B -> Result E A) ls a :
  try_fold (fun acc l => try_fold f l acc) ls a = try_fold f (concat ls) a.
Proof.
  revert a. induction ls as [|l ls IH]; intros a; [done|]. cbn [try_fold concat]. rewrite try_fold_app.
  destruct (try_fold f l a); [apply IH|done].
Qed.

(** The kinds of the fields of one column, in order. *)
Definition kinds_of (c : string) (fields : list Field) : list (Result ColumnarError TypeKind) :=
  map (fun f => from_arrow_type (fd_type f)) (filter (fun f => fd_name f = c) fields).

Definition column_join (policy : SchemaConflictPolicy) (c : string) (fields : list Field) : option TypeKind :=
  join_all policy (omap result_ok (kinds_of c fields)).

Definition supported (f : Field) : Prop := is_ok (from_arrow_type (fd_type f)) = true.

(** The distinct elements in the order of their first occurrence. *)
Definition first_occurrences (l : list string) : list string :=
  foldl (fun acc x => if decide (x ∈ acc) then acc else acc ++ [x]) [] l.

Lemma first_occurrences_snoc l x :
  first_occurrences (l ++ [x])
  = if decide (x ∈ first_occurrences l) then first_occurrences l else first_occurrences l ++ [x].
Proof. unfold first_occurrences. by rewrite foldl_app. Qed.

Lemma first_occurrences_elem l x : x ∈ first_occurrences l <-> x ∈ l.
Proof.
  induction l as [|y l IH] using rev_ind; [done|]. rewrite first_occurrences_snoc, elem_of_app, list_elem_of_singleton.
  case_decide; [|rewrite elem_of_app, list_elem_of_singleton]; rewrite IH; [|done].
  split; [tauto|]. intros [?| ->]; [done|]. by apply IH.
Qed.

Lemma first_occurrences_NoDup l : NoDup (first_occurrences l).
Proof.
  induction l as [|y l IH] using rev_ind; [constructor|]. rewrite first_occurrences_snoc. case_decide; [done|].
  apply NoDup_app. split; [done|]. split; [|apply NoDup_singleton]. intros z Hz ->%list_elem_of_singleton. done.
Qed.

Lemma column_join_snoc policy c fields f : column_join policy c (fields ++ [f])
  = if decide (fd_name f = c) then
      match from_arrow_type (fd_type f) with
      | Ok k => a ← column_join policy c fields; join policy a k
      | Err _ => column_join policy c fields
      end
    else column_join policy c fields.
Proof.
  unfold column_join, kinds_of. rewrite filter_app, map_app, omap_app. cbn [filter list_filter].
  case_decide; cbn [map omap list_omap].
  - destruct (from_arrow_type (fd_type f)); cbn [result_ok]; [apply join_all_snoc|by rewrite app_nil_r].
  - by rewrite app_nil_r.
Qed.

(** A column that has not occurred joins to the unit. *)
Lemma column_join_absent policy c fields : ~ c ∈ map fd_name fields -> column_join policy c fields = Some KNull.
Proof.
  intros Hc. unfold column_join, kinds_of.
  assert (filter (fun f => fd_name f = c) fields = []) as ->; [|done].
  apply elem_of_nil_inv. intros f [<- Hf]%list_elem_of_filter. apply Hc, list_elem_of_fmap. eauto.
Qed.

Definition unified_types (policy : SchemaConflictPolicy) (fields : list Field) (types : gmap string TypeKind) : Prop :=
  forall c, types !! c = if decide (c ∈ map fd_name fields) then column_join policy c fields else None.

Lemma unified_types_insert policy fields f types w : unified_types policy fields types ->
  column_join policy (fd_name f) (fields ++ [f]) = Some w ->
  unified_types policy (fields ++ [f]) (<[fd_name f := w]> types).
Proof.
  intros Ht Hw c. rewrite map_app, lookup_insert. case_decide as Hac.
  - subst c. by rewrite Hw, decide_True by set_solver.
  - rewrite Ht, column_join_snoc, (decide_False _ _ Hac). apply decide_ext. set_solver.
Qed.

Lemma column_joins_snoc policy fields f : (forall c, is_Some (column_join policy c fields)) ->
  is_Some (column_join policy (fd_name f) (fields ++ [f])) -> forall c, is_Some (column_join policy c (fields ++ [f])).
Proof.
  intros Hj Hf c. destruct (decide (fd_name f = c)) as [<-|Hne]; [done|].
  rewrite column_join_snoc, decide_False by done. apply Hj.
Qed.

(** The fold succeeds exactly when every type is supported and every column
    joins; it then holds these joins, in the order of first occurrence. *)
Lemma unify_fold_spec policy fields :
  match try_fold (unify_field policy) fields (∅, []) with
  | Ok acc => Forall supported fields /\ (forall c, is_Some (column_join policy c fields)) /\
              unified_types policy fields (fst acc) /\ snd acc = first_occurrences (map fd_name fields)
  | Err _ => ~ Forall supported fields \/ exists c, column_join policy c fields = None
  end.
Proof.
  induction fields as [|f fields IH] using rev_ind; [by repeat split; eauto|].
  rewrite try_fold_app. destruct (try_fold _ fields _) as [[types order]|e]; cbn [mbind Result_bind].
  2:{ destruct IH as [IH|[c IH]]; [left; rewrite Forall_app; tauto|right; exists c].
      rewrite column_join_snoc, IH. by case_decide; [destruct (from_arrow_type _)|]. }
  destruct IH as (Hs & Hj & Ht & Ho). cbn [try_fold fst snd] in *. unfold unify_field. cbn [fst snd].
  pose proof (column_join_snoc policy (fd_name f) fields f) as Hc. rewrite decide_True in Hc by done.
  destruct (from_arrow_type (fd_type f)) as [k|e] eqn:Ek; cbn [mbind Result_bind].
  2:{ left. rewrite Forall_app, Forall_singleton. unfold supported at 2. rewrite Ek. by intros [_ H]. }
  assert (Forall supported (fields ++ [f])) as Hs'.
  { apply Forall_app. split; [done|]. apply Forall_singleton. unfold supported. by rewrite Ek. }
  pose proof (Ht (fd_name f)) as Hta. rewrite map_app. cbn [map]. rewrite first_occurrences_snoc, Hta.
  destruct (decide (fd_name f ∈ map fd_name fields)) as [Hin|Hnin].
  - rewrite decide_True by by apply first_occurrences_elem.
    destruct (Hj (fd_name f)) as [x Hx]. rewrite Hx in *. unfold join in Hc. cbn in Hc |- *.
    destruct (unify_types x k policy) as [w|e] eqn:Ew; cbn in *; [|eauto].
    split; [done|]. split; [apply column_joins_snoc; eauto|]. split; [by apply unified_types_insert|done].
  - rewrite decide_False by by rewrite first_occurrences_elem.
    rewrite (column_join_absent policy _ fields) in Hc by done. cbn in Hc. rewrite join_null in Hc. cbn [mbind Result_bind fst snd try_fold].
    split; [done|]. split; [apply column_joins_snoc; eauto|]. split; [by apply unified_types_insert|by rewrite Ho].
Qed.

(** * Order of the inputs *)

Lemma join_all_perm policy ks ks' : policy <> Stringify -> ks ≡ₚ ks' -> join_all policy ks = join_all policy ks'.
Proof.
  intros Hp Hks. unfold join_all. generalize (Some KNull). induction Hks as [|k l l' _ IH|k k' l|l1 l2 l3 _ IH1 _ IH2];
    intros a; cbn [foldl]; [done|apply IH| |by rewrite IH1].
  f_equal. destruct a as [a|]; [|done]. cbn. by apply join_swap.
Qed.

Lemma column_join_perm policy c fields fields' : policy <> Stringify -> fields ≡ₚ fields' ->
  column_join policy c fields = column_join policy c fields'.
Proof.
  intros Hp Hf. apply join_all_perm; [done|]. apply omap_Permutation, Permutation_map. by rewrite Hf.
Qed.

(** Success of [from_schemas] as a predicate on all fields. *)
Definition unifiable (policy : SchemaConflictPolicy) (fields : list Field) : Prop :=
  Forall supported fields /\ forall c, is_Some (column_join policy c fields).

Lemma unifiable_perm policy fields fields' : policy <> Stringify -> fields ≡ₚ fields' ->
  unifiable policy fields -> unifiable policy fields'.
Proof.
  intros Hp Hf [Hs Hj]. split; [by rewrite <- Hf|]. intros c. by rewrite <- (column_join_perm policy c fields fields').
Qed.

Lemma from_schemas_spec policy schemas :
  match from_schemas schemas policy with
  | Ok u => unifiable policy (concat schemas) /\ unified_types policy (concat schemas) (us_type_mapping u) /\
            us_schema u = unified_fields (us_type_mapping u) (first_occurrences (map fd_name (concat schemas)))
  | Err _ => ~ unifiable policy (concat schemas)
  end.
Proof.
  unfold from_schemas. rewrite try_fold_concat. pose proof (unify_fold_spec policy (concat schemas)) as H.
  destruct (try_fold _ _ _) as [[types order]|e]; cbn [mbind Result_bind fst snd us_type_mapping us_schema] in *.
  - destruct H as (Hs & Hj & Ht & ->). done.
  - intros [Hs Hj]. destruct H as [H|[c H]]; [done|]. specialize (Hj c). rewrite H in Hj. by destruct Hj.
Qed.

(** Indexing [column_types] by a name of [column_order] never panics. *)
Lemma unified_names policy fields types : unifiable policy fields -> unified_types policy fields types ->
  map fd_name (unified_fields types (first_occurrences (map fd_name fields))) = first_occurrences (map fd_name fields).
Proof.
  intros [_ Hj] Ht.
  assert (Forall (fun c => is_Some (types !! c)) (first_occurrences (map fd_name fields))) as Hall.
  { apply Forall_forall. intros c Hc. apply (proj1 (first_occurrences_elem _ _)) in Hc. rewrite Ht, decide_True by done. apply Hj. }
  induction Hall as [|c l [k Hk] _ IH]; [done|]. unfold unified_fields in *. cbn. rewrite Hk. cbn. by rewrite <- IH at 2.
Qed.

(** ** Claims *)

(** The unified schema has the columns of all inputs, each once, in the order of
    their first occurrence; the type of a column is the join of its types in all
    inputs and absorbs each of them. *)
Theorem unified_schema_exact policy schemas u : from_schemas schemas policy = Ok u ->
  let fields := concat schemas in
  map fd_name (us_schema u) = first_occurrences (map fd_name fields) /\
  (forall f, f ∈ us_schema u -> fd_nullable f = true /\
     exists k, fd_type f = to_arrow_type k /\ column_join policy (fd_name f) fields = Some k) /\
  (forall c, get_column_type u c = if decide (c ∈ map fd_name fields) then column_join policy c fields else None).
Proof.
  intros Hu fields. pose proof (from_schemas_spec policy schemas) as H. rewrite Hu in H. destruct H as (Hok & Ht & Hs).
  rewrite Hs. split; [by eapply unified_names|]. split; [|exact Ht].
  intros f (c & Hc & Hf)%list_elem_of_omap. apply (proj1 (first_occurrences_elem _ _)) in Hc.
  pose proof (Ht c) as Htc. rewrite decide_True in Htc by done.
  destruct (us_type_mapping u !! c) as [k|] eqn:Ek; [|done]. cbn in Hf. injection Hf as <-. cbn. eauto.
Qed.

(** C23: Unless conflicts are stringified, the order of the inputs decides neither
    whether they unify nor the types of the columns, only the order of the
    columns. *)
Theorem unification_order_independent policy schemas schemas' : policy <> Stringify -> schemas ≡ₚ schemas' ->
  match from_schemas schemas policy, from_schemas schemas' policy with
  | Ok u, Ok u' => us_type_mapping u = us_type_mapping u' /\ us_schema u ≡ₚ us_schema u'
  | Err _, Err _ => True
  | _, _ => False
  end.
Proof.
  intros Hp Hs. assert (concat schemas ≡ₚ concat schemas') as Hc by by rewrite Hs.
  pose proof (from_schemas_spec policy schemas) as H. pose proof (from_schemas_spec policy schemas') as H'.
  destruct (from_schemas schemas policy) as [u|e], (from_schemas schemas' policy) as [u'|e'];
    [|apply H'; by apply (unifiable_perm _ _ _ Hp Hc), H|apply H; by apply (unifiable_perm _ _ _ Hp (symmetry Hc)), H'|done].
  destruct H as (_ & Ht & ->), H' as (_ & Ht' & ->).
  assert (us_type_mapping u = us_type_mapping u') as <-.
  { apply map_eq. intros c. rewrite Ht, Ht', (column_join_perm _ _ _ _ Hp Hc). apply decide_ext. by rewrite Hc. }
  split; [done|]. apply omap_Permutation, NoDup_Permutation; [apply first_occurrences_NoDup..|].
  intros c. rewrite !first_occurrences_elem. by rewrite Hc.
Qed.

(** Under [Stringify] it does: a date and an integer column conflict, unless a
    string column came first. *)
Theorem stringify_depends_on_order :
  let column t := [{| fd_name := "c"; fd_type := t; fd_nullable := true |}] in
  is_ok (from_schemas [column ADate32; column AInt64; column AUtf8] Stringify) = false /\
  is_ok (from_schemas [column AUtf8; column ADate32; column AInt64] Stringify) = true.
Proof. vm_compute. done. Qed.

(** [Strict] still widens: it refuses exactly what [Widen] refuses. *)
Theorem strict_widens a b : join Strict a b = join Widen a b.
Proof. by destruct a, b. Qed.
