(* ===== verification/RustNum.v ===== *)
(** Text of numbers as Rust's standard library reads and writes it: [FromStr] of
    [i64], [f64] and [bool], their [Display], the conversion [i64 as f64], and
    little-endian bytes.  Floats are IEEE binary64 values of [SpecFloat]. *)

From Stdlib Require Import Ascii SpecFloat.
From Stdlib Require Import Ascii.
From S2P Require Import Prelude.

(** * Integers *)

Definition digit_value (c : ascii) : option Z :=
  let n := Z.of_nat (nat_of_ascii c) in
  if (48 <=? n)%Z && (n <=? 57)%Z then Some (n - 48)%Z else None.

(** The value of a run of decimal digits, and how many there were before the
    first other character. *)
Fixpoint digits_run (s : string) (acc : Z) (count : nat) : Z * nat * string :=
  match s with
  | EmptyString => (acc, count, EmptyString)
  | String c s' =>
      match digit_value c with
      | Some d => digits_run s' (acc * 10 + d)%Z (S count)
      | None => (acc, count, s)
      end
  end.

(** An optional sign. *)
Definition split_sign (s : string) : bool * string :=
  match s with
  | String c s' => if decide (c = "-"%char) then (true, s') else if decide (c = "+"%char) then (false, s') else (false, s)
  | EmptyString => (false, s)
  end.

Definition i64_min : Z := - 2 ^ 63.
Definition i64_max : Z := 2 ^ 63 - 1.

Definition parse_i64 (s : string) : option Z :=
  let '(neg, body) := split_sign s in
  let '(v, count, rest) := digits_run body 0 0 in
  match count, rest with
  | S _, EmptyString =>
      let z := if neg then (- v)%Z else v in
      if (i64_min <=? z)%Z && (z <=? i64_max)%Z then Some z else None
  | _, _ => None
  end.

Definition parse_bool (s : string) : option bool :=
  if decide (s = "true") then Some true else if decide (s = "false") then Some false else None.

Definition i64_to_string (z : Z) : string := pretty z.
Definition bool_to_string (b : bool) : string := if b then "true" else "false".

(** * Floats *)

Definition prec : Z := 53.
Definition emax : Z := 1024.

Definition i64_to_f64 (z : Z) : spec_float := binary_normalize prec emax z 0 false.

(** The float nearest to [m * 10^e], ties to even. *)
Definition f64_of_decimal (neg : bool) (m : Z) (e : Z) : spec_float :=
  match m with
  | Zpos p =>
      if (0 <=? e)%Z then
        match binary_normalize prec emax (m * 10 ^ e) 0 false with
        | S754_finite _ q x => S754_finite neg q x
        | S754_infinity _ => S754_infinity neg
        | S754_zero _ => S754_zero neg
        | S754_nan => S754_nan
        end
      else SFdiv prec emax (S754_finite neg p 0) (S754_finite false (Z.to_pos (10 ^ (- e))) 0)
  | _ => S754_zero neg
  end.

(** [e] or [E], a sign, at least one digit; nothing else after it. *)
Definition parse_exponent (s : string) : option Z :=
  match s with
  | EmptyString => Some 0%Z
  | String c s' =>
      if decide (c = "e"%char \/ c = "E"%char) then
        let '(neg, body) := split_sign s' in
        let '(v, count, rest) := digits_run body 0 0 in
        match count, rest with
        | S _, EmptyString => Some (if neg then (- v)%Z else v)
        | _, _ => None
        end
      else None
  end.

Definition lower_char (c : ascii) : ascii :=
  let n := nat_of_ascii c in if (65 <=? n)%nat && (n <=? 90)%nat then ascii_of_nat (n + 32) else c.
Fixpoint lower_text (s : string) : string :=
  match s with EmptyString => EmptyString | String c s => String (lower_char c) (lower_text s) end.

Definition parse_f64 (s : string) : option spec_float :=
  let '(neg, body) := split_sign s in
  let special := lower_text body in
  if decide (special = "nan") then Some S754_nan
  else if decide (special = "inf" \/ special = "infinity") then Some (S754_infinity neg)
  else
    let '(whole, n, rest) := digits_run body 0 0 in
    let '(m, frac, rest) :=
      match rest with
      | String c rest' => if decide (c = "."%char) then digits_run rest' whole 0 else (whole, 0, rest)
      | EmptyString => (whole, 0, rest)
      end in
    if decide (n + frac = 0)%nat then None
    else e ← parse_exponent rest; Some (f64_of_decimal neg m (e - Z.of_nat frac)).

(** [Display]: the shortest digits that read back as the same float, without
    exponent. *)

(** [m * 2^e >= 10^p]. *)
Definition at_least_pow10 (m e p : Z) : bool :=
  (10 ^ Z.max p 0 * 2 ^ Z.max (- e) 0 <=? m * 2 ^ Z.max e 0 * 10 ^ Z.max (- p) 0)%Z.

(** The [p] with [10^(p-1) <= m * 2^e < 10^p], searched upwards from an estimate
    that is at most three too small. *)
Fixpoint decimal_point (fuel : nat) (m e p : Z) : Z :=
  match fuel with
  | 0 => p
  | S fuel => if at_least_pow10 m e p then decimal_point fuel m e (p + 1) else p
  end.

(** [m * 2^e * 10^k] rounded down, and whether it was exact. *)
Definition scaled (m e k : Z) : Z * bool :=
  let num := (m * 2 ^ Z.max e 0 * 10 ^ Z.max k 0)%Z in
  let den := (2 ^ Z.max (- e) 0 * 10 ^ Z.max (- k) 0)%Z in
  ((num / den)%Z, (num mod den =? 0)%Z).

(** The [n]-digit decimals around the value that read back as it, nearest first. *)
Definition shortest_with (m : positive) (e p : Z) (n : nat) : option Z :=
  let k := (Z.of_nat n - p)%Z in
  let '(low, exact) := scaled (Zpos m) e k in
  let '(twice, _) := scaled (2 * Zpos m) e k in
  let back d := bool_decide (0 < d)%Z && SFeqb (f64_of_decimal false d (- k)) (S754_finite false m e) in
  let candidates := if exact then [low]
                    else if (twice - 2 * low =? 0)%Z then [low; (low + 1)%Z] else [(low + 1)%Z; low] in
  head (filter (fun d => back d = true) candidates).

Fixpoint shortest_digits (fuel n : nat) (m : positive) (e p : Z) : Z * nat :=
  match fuel with
  | 0 => (fst (scaled (Zpos m) e (Z.of_nat n - p)), n)
  | S fuel => match shortest_with m e p n with
              | Some d => (d, n)
              | None => shortest_digits fuel (S n) m e p
              end
  end.

Fixpoint zeros (n : nat) : string := match n with 0 => EmptyString | S n => String "0"%char (zeros n) end.

(** [digits * 10^(-k)] in positional notation. *)
Definition positional (digits : string) (k : Z) : string :=
  let len := Z.of_nat (String.length digits) in
  if (k <=? 0)%Z then digits +:+ zeros (Z.to_nat (- k))
  else if (len <=? k)%Z then "0." +:+ zeros (Z.to_nat (k - len)) +:+ digits
  else String.substring 0 (Z.to_nat (len - k)) digits +:+ "."
         +:+ String.substring (Z.to_nat (len - k)) (Z.to_nat k) digits.

Definition f64_to_string (x : spec_float) : string :=
  match x with
  | S754_nan => "NaN"
  | S754_infinity s => if s then "-inf" else "inf"
  | S754_zero s => if s then "-0" else "0"
  | S754_finite s m e =>
      let p := decimal_point 4 (Zpos m) e ((Z.log2 (Zpos m) + e) * 30103 / 100000) in
      let '(d, n) := shortest_digits 17 1 m e p in
      (if s then "-" else EmptyString) +:+ positional (pretty d) (Z.of_nat n - p)
  end.

(** * Bytes *)

(** [to_le_bytes] of an unsigned integer of [n] bytes, as raw text. *)
Fixpoint le_bytes (n : nat) (z : Z) : string :=
  match n with
  | 0 => EmptyString
  | S n => String (ascii_of_N (Z.to_N (z mod 256))) (le_bytes n (z / 256))
  end.

(** * Checks *)

Example parse_i64_examples :
  map parse_i64 ["0"; "+7"; "-12"; "007"; ""; "+"; "1_0"; " 1"; "9223372036854775807"; "9223372036854775808";
                 "-9223372036854775808"]
  = [Some 0; Some 7; Some (-12); Some 7; None; None; None; None; Some i64_max; None; Some i64_min]%Z.
Proof. vm_compute. reflexivity. Qed.

Example f64_examples :
  map (fun s => f64_to_string <$> parse_f64 s)
    ["0.1"; "1."; ".5"; "."; "1e21"; "-2.50"; "5e-324"; "1.7976931348623157e308"; "1e309"; "123456.789"; "iNf"; "-0";
     "9007199254740993"; "0.30000000000000004"; "e5"; "1e"]
  = [Some "0.1"; Some "1"; Some "0.5"; None; Some "1000000000000000000000"; Some "-2.5";
     Some ("0." +:+ zeros 323 +:+ "5"); Some ("17976931348623157" +:+ zeros 292); Some "inf"; Some "123456.789";
     Some "inf"; Some "-0"; Some "9007199254740992"; Some "0.30000000000000004"; None; None].
Proof. vm_compute. reflexivity. Qed.

(** * Integers read back *)

Lemma digit_value_char x : (x < 10)%N -> digit_value (pretty_N_char x) = Some (Z.of_N x).
Proof.
  intros Hx. assert (x = 0 \/ x = 1 \/ x = 2 \/ x = 3 \/ x = 4 \/ x = 5 \/ x = 6 \/ x = 7 \/ x = 8 \/ x = 9)%N by lia.
  by destruct_or?; subst.
Qed.

Lemma digits_run_go x s : exists k, (0 < x -> 0 < k)%N /\ forall acc n,
  digits_run (pretty_N_go x s) acc n = digits_run s (acc * 10 ^ Z.of_N k + Z.of_N x) (n + N.to_nat k).
Proof.
  revert s. induction (N.lt_wf_0 x) as [x _ IH]; intros s.
  destruct (decide (x = 0)%N) as [->|Hx].
  { exists 0%N. split; [done|]. intros acc n. rewrite pretty_N_go_0. f_equal; lia. }
  rewrite pretty_N_go_step by lia.
  destruct (IH (x `div` 10)%N ltac:(apply N.div_lt; lia) (String (pretty_N_char (x `mod` 10)) s)) as (k & _ & Hk).
  exists (k + 1)%N. split; [lia|]. intros acc n. rewrite Hk. cbn [digits_run].
  rewrite digit_value_char by (apply N.mod_lt; lia). f_equal; [|lia].
  rewrite N2Z.inj_add, Z.pow_add_r by lia. rewrite N2Z.inj_div, N2Z.inj_mod.
  change (Z.of_N 10) with 10%Z. change (10 ^ Z.of_N 1)%Z with 10%Z.
  pose proof (Z_div_mod_eq_full (Z.of_N x) 10). lia.
Qed.

Lemma split_sign_pretty (x : N) : split_sign (pretty x) = (false, pretty x).
Proof.
  unfold split_sign. destruct (pretty x) as [|c s] eqn:E; [done|].
  assert (digit_value c <> None) as Hc.
  { unfold pretty, pretty_N in E. case_decide as H0; [injection E as <- <-; done|].
    assert (forall t, match pretty_N_go x t with String c _ => digit_value c <> None | EmptyString => False end) as Hd.
    { clear E. revert H0. induction (N.lt_wf_0 x) as [y _ IH]; intros H0 t. rewrite pretty_N_go_step by lia.
      destruct (decide (y `div` 10 = 0)%N) as [->|Hq]; [|apply IH; [apply N.div_lt; lia|done]].
      rewrite pretty_N_go_0, digit_value_char by (apply N.mod_lt; lia). done. }
    specialize (Hd EmptyString). by rewrite E in Hd. }
  destruct (decide _) as [->|]; [done|]. by destruct (decide _) as [->|].
Qed.

Lemma digits_run_pretty (x : N) : exists n, digits_run (pretty x) 0 0 = (Z.of_N x, S n, EmptyString).
Proof.
  unfold pretty, pretty_N. case_decide as H0; [subst; by exists 0|].
  destruct (digits_run_go x EmptyString) as (k & Hk & ->). exists (N.to_nat k - 1). cbn [digits_run].
  repeat f_equal; lia.
Qed.

(** An [i64] that is printed reads back as itself. *)
Lemma parse_i64_to_string z : (i64_min <= z <= i64_max)%Z -> parse_i64 (i64_to_string z) = Some z.
Proof.
  intros Hz. unfold parse_i64, i64_to_string.
  assert (forall v : Z, (i64_min <= v <= i64_max)%Z -> (i64_min <=? v)%Z && (v <=? i64_max)%Z = true) as Hrange.
  { intros v Hv. apply andb_true_iff. rewrite !Z.leb_le. done. }
  destruct z as [|p|p]; [by vm_compute| |].
  - change (pretty (Z.pos p)) with (pretty (N.pos p)). rewrite split_sign_pretty.
    destruct (digits_run_pretty (N.pos p)) as [n ->]. cbn [Z.of_N]. by rewrite Hrange.
  - change (pretty (Z.neg p)) with (String "-" (pretty (N.pos p))). cbn [split_sign]. rewrite decide_True by done.
    destruct (digits_run_pretty (N.pos p)) as [n ->]. cbn [Z.of_N Z.opp]. by rewrite Hrange.
Qed.

(** [String::from_utf8_lossy] of the Rust standard library: each maximal ill-formed
    part of a byte string becomes U+FFFD. *)

Definition in_range (lo hi : N) (c : ascii) : bool := (lo <=? N_of_ascii c)%N && (N_of_ascii c <=? hi)%N.
Definition continuation (c : ascii) : bool := in_range 128 191 c.

(** What the byte after a lead byte may be, and how many continuation bytes
    follow that one. *)
Definition sequence_of (lead : ascii) : option ((N * N) * nat) :=
  let n := N_of_ascii lead in
  if (194 <=? n)%N && (n <=? 223)%N then Some ((128, 191)%N, 0)
  else if (n =? 224)%N then Some ((160, 191)%N, 1)
  else if (n =? 237)%N then Some ((128, 159)%N, 1)
  else if (225 <=? n)%N && (n <=? 239)%N then Some ((128, 191)%N, 1)
  else if (n =? 240)%N then Some ((144, 191)%N, 2)
  else if (241 <=? n)%N && (n <=? 243)%N then Some ((128, 191)%N, 2)
  else if (n =? 244)%N then Some ((128, 143)%N, 2)
  else None.

(** Up to [k] continuation bytes, whether all were there, and the rest. *)
Fixpoint continuations (k : nat) (s : string) : string * bool * string :=
  match k, s with
  | 0, _ => (EmptyString, true, s)
  | S k, String c s' =>
      if continuation c then let '(t, ok, rest) := continuations k s' in (String c t, ok, rest)
      else (EmptyString, false, s)
  | S _, EmptyString => (EmptyString, false, s)
  end.

(** The character at the front of a non-empty text: its bytes when it is well
    formed, and what follows it (or the ill-formed part). *)
Definition next_char (lead : ascii) (s : string) : option string * string :=
  if in_range 0 127 lead then (Some (String lead EmptyString), s)
  else
    match sequence_of lead, s with
    | Some ((lo, hi), k), String c s' =>
        if in_range lo hi c then
          let '(t, ok, rest) := continuations k s' in
          (if ok then Some (String lead (String c t)) else None, rest)
        else (None, s)
    | _, _ => (None, s)
    end.

Definition replacement : string :=
  String (ascii_of_N 239) (String (ascii_of_N 191) (String (ascii_of_N 189) EmptyString)).

Fixpoint lossy (fuel : nat) (s : string) : string :=
  match fuel, s with
  | S fuel, String c s' =>
      let '(ch, rest) := next_char c s' in default replacement ch +:+ lossy fuel rest
  | _, _ => EmptyString
  end.

(** Every round consumes a byte. *)
Definition from_utf8_lossy (s : string) : string := lossy (String.length s) s.

Fixpoint well_formed (fuel : nat) (s : string) : bool :=
  match fuel, s with
  | S fuel, String c s' => let '(ch, rest) := next_char c s' in bool_decide (is_Some ch) && well_formed fuel rest
  | 0, String _ _ => false
  | _, EmptyString => true
  end.

Definition valid_utf8 (s : string) : bool := well_formed (String.length s) s.

Lemma continuations_text k s : let '(t, _, rest) := continuations k s in s = t +:+ rest.
Proof.
  revert s. induction k as [|k IH]; intros s; [by destruct s|]. destruct s as [|c s]; [done|]. cbn [continuations].
  destruct (continuation c); [|done]. specialize (IH s). destruct (continuations k s) as [[t ok] rest]. by rewrite IH.
Qed.

Lemma next_char_text c s t rest : next_char c s = (Some t, rest) -> String c s = t +:+ rest.
Proof.
  unfold next_char. destruct (in_range 0 127 c); [by intros [= <- <-]|].
  destruct (sequence_of c) as [[[lo hi] k]|]; [|done]. destruct s as [|c' s]; [done|].
  destruct (in_range lo hi c'); [|done]. pose proof (continuations_text k s) as H.
  destruct (continuations k s) as [[t' ok] rest']. destruct ok; [|done]. intros [= <- <-]. by rewrite H.
Qed.

(** Well-formed text is kept. *)
Lemma from_utf8_lossy_valid s : valid_utf8 s = true -> from_utf8_lossy s = s.
Proof.
  unfold valid_utf8, from_utf8_lossy. generalize (String.length s). intros n. revert s.
  induction n as [|n IH]; intros s; [by destruct s|]. destruct s as [|c s]; [done|]. cbn [well_formed lossy].
  destruct (next_char c s) as [[t|] rest] eqn:E; [|done]. cbn [default]. rewrite bool_decide_true by eauto. cbn [andb].
  intros Hw. rewrite (IH rest Hw). symmetry. by apply next_char_text.
Qed.

Example lossy_examples :
  let b n := String (ascii_of_N n) EmptyString in
  from_utf8_lossy ("a" +:+ b 195%N +:+ b 169%N) = "a" +:+ b 195%N +:+ b 169%N /\
  from_utf8_lossy (b 240%N +:+ b 159%N +:+ "x" +:+ b 255%N) = replacement +:+ "x" +:+ replacement.
Proof. vm_compute. done. Qed.
