(* ===== verification/StreamColumns.v ===== *)
(** Columns of the streaming engine: reading CSV records into typed columns
    (src/crates/parqonaut-stream/src/csv_in.rs), aligning batches with the
    unified schema (coercion.rs), CSV output (writer_csv.rs) and the schema of
    an input (schema_introspect.rs).

    Not in the repository, hence parameters: the [arrow] crate's
    [RecordBatch::try_new] ([ArrowCrate]), the [csv] crate ([CsvCrate]) and
    [encoding_rs] (a field of the same class). *)

From Stdlib Require Import Ascii SpecFloat.
From S2P Require Import Prelude TypeUnify RustNum.

(** * Outcomes *)

(** How a call ends without a value: the error it returns, or a panic. *)
Inductive Fault := Fails (e : MawError) | Panics.

Definition fails {A} (e : MawError) : Result Fault A := Err (Fails e).

(** * Arrays and batches *)

(** The array types the engine looks into; of the others it knows the type and
    which entries are valid. *)
Inductive Array :=
| Int32Array (l : list (option Z))
| Int64Array (l : list (option Z))
| Float64Array (l : list (option spec_float))
| StringArray (l : list (option string))
| BooleanArray (l : list (option bool))
| LargeStringArray (l : list (option string))
| OtherArray (dt : DataType) (valid : list bool).

Definition array_type (a : Array) : DataType :=
  match a with
  | Int32Array _ => AInt32 | Int64Array _ => AInt64 | Float64Array _ => AFloat64 | StringArray _ => AUtf8
  | BooleanArray _ => ABoolean | LargeStringArray _ => ALargeUtf8 | OtherArray dt _ => dt
  end.

Definition array_len (a : Array) : nat :=
  match a with
  | Int32Array l | Int64Array l => length l
  | Float64Array l => length l
  | StringArray l | LargeStringArray l => length l
  | BooleanArray l => length l
  | OtherArray _ l => length l
  end.

(** What a row of an array holds. *)
Inductive Value := VNull | VInt (z : Z) | VFloat (x : spec_float) | VStr (s : string) | VBool (b : bool) | VOpaque.

Definition cell_of {A} (f : A -> Value) (l : list (option A)) (i : nat) : Value :=
  match mjoin (l !! i) with Some x => f x | None => VNull end.

Definition cell (a : Array) (i : nat) : Value :=
  match a with
  | Int32Array l | Int64Array l => cell_of VInt l i
  | Float64Array l => cell_of VFloat l i
  | StringArray l | LargeStringArray l => cell_of VStr l i
  | BooleanArray l => cell_of VBool l i
  | OtherArray _ l => if default false (l !! i) then VOpaque else VNull
  end.

Definition is_null (a : Array) (i : nat) : bool := match cell a i with VNull => true | _ => false end.

Record RecordBatch := { rb_schema : Schema; rb_columns : list Array; rb_num_rows : nat }.

(** The rows of a batch. *)
Definition batch_rows (b : RecordBatch) : list (list Value) :=
  map (fun i => map (fun a => cell a i) (rb_columns b)) (seq 0 (rb_num_rows b)).

Definition column_fits (f : Field) (a : Array) : Prop := fd_type f = array_type a.

(** Nulls only where the field allows them. *)
Definition column_admits (f : Field) (a : Array) : Prop :=
  column_fits f a /\ (fd_nullable f = true \/ forall i, i < array_len a -> is_null a i = false).

(** [RecordBatch::try_new]: as many columns as fields, of their types and of one
    length, and no null in a column that is not nullable. *)
Class ArrowCrate := {
  try_new : Schema -> list Array -> Result string RecordBatch;
  try_new_sound : forall s cols b, try_new s cols = Ok b ->
    Forall2 column_admits s cols /\ rb_schema b = s /\ rb_columns b = cols
    /\ Forall (fun a => array_len a = rb_num_rows b) cols;
  try_new_complete : forall s cols n, Forall2 column_admits s cols -> cols <> [] -> Forall (fun a => array_len a = n) cols -> is_ok (try_new s cols) = true;
}.

Inductive Encoding := UTF_8 | WINDOWS_1252.

(** The [csv] crate: the records of a text as successive reads return them, the
    header record as text, a record as the writer prints it; [decode] of
    [encoding_rs]. *)
Class CsvCrate := {
  csv_records : option Z -> option Z -> string -> list (Result string (list string));
  csv_utf8 : list string -> Result string (list string);
  csv_line : list string -> string;
  decode : Encoding -> string -> string;
}.

(** * Reading CSV (csv_in.rs) *)

Record CsvConfig := {
  cc_delimiter : option Z;
  cc_quote : option Z;
  cc_has_headers : bool;
  cc_encoding : string;
  cc_na_values : list string;
  cc_batch_size : nat;
}.

Definition csv_config_default : CsvConfig :=
  {| cc_delimiter := None; cc_quote := None; cc_has_headers := true; cc_encoding := "utf8";
     cc_na_values := ["NA"; "null"; "\N"]; cc_batch_size := N.to_nat 64000 |}.

Record CsvReader := {
  cr_reader : list (Result string (list string));  (** the reads still to come *)
  cr_headers : list string;
  cr_batch_size : nat;
  cr_na_values : list string;
  cr_encoding : Encoding;
  cr_pending_record : option (list string);
}.

Definition encoding_of (name : string) : Encoding :=
  let e := lower_text name in
  if decide (e = "utf8" \/ e = "utf-8") then UTF_8
  else if decide (e = "latin1" \/ e = "iso-8859-1") then WINDOWS_1252
  else UTF_8.

Definition bom : string := String (ascii_of_N 239) (String (ascii_of_N 187) (String (ascii_of_N 191) EmptyString)).

(** One pass over the cells of a column: which kinds of text occur. *)
Record Seen := { has_strings : bool; has_ints : bool; has_floats : bool; has_bools : bool }.
Definition seen_none : Seen := {| has_strings := false; has_ints := false; has_floats := false; has_bools := false |}.

Definition see (s : Seen) (v : option string * bool) : Seen :=
  match v with
  | (Some val, false) =>
      if bool_decide (is_Some (parse_i64 val)) then
        {| has_strings := has_strings s; has_ints := true; has_floats := has_floats s; has_bools := has_bools s |}
      else if bool_decide (is_Some (parse_f64 val)) then
        {| has_strings := has_strings s; has_ints := has_ints s; has_floats := true; has_bools := has_bools s |}
      else if bool_decide (is_Some (parse_bool val)) then
        {| has_strings := has_strings s; has_ints := has_ints s; has_floats := has_floats s; has_bools := true |}
      else {| has_strings := true; has_ints := has_ints s; has_floats := has_floats s; has_bools := has_bools s |}
  | _ => s
  end.

Definition create_column_array (values : list (option string)) (nulls : list bool) : Array :=
  let s := foldl see seen_none (zip values nulls) in
  if has_strings s || (negb (has_ints s) && negb (has_floats s) && negb (has_bools s)) then StringArray values
  else if has_floats s then Float64Array (map (fun v => v ≫= parse_f64) values)
  else if has_ints s then Int64Array (map (fun v => v ≫= parse_i64) values)
  else if has_bools s then BooleanArray (map (fun v => v ≫= parse_bool) values)
  else StringArray values.

Section Csv.
Context `{ArrowCrate} `{CsvCrate}.

(** [CsvReader::new] on the content of the file. *)
Definition csv_reader_new (content : string) (config : CsvConfig) : Result Fault CsvReader :=
  let records := csv_records (cc_delimiter config) (cc_quote config) content in
  let reader rest headers pending :=
    {| cr_reader := rest; cr_headers := headers; cr_batch_size := cc_batch_size config;
       cr_na_values := cc_na_values config; cr_encoding := encoding_of (cc_encoding config);
       cr_pending_record := pending |} in
  match records with
  | Err e :: _ => fails (MCsv e)
  | Ok first :: rest =>
      if cc_has_headers config then
        match csv_utf8 first with
        | Ok headers => Ok (reader rest headers None)
        | Err e => fails (MCsv e)
        end
      else Ok (reader rest (map (fun i => "col_" +:+ pretty (i + 1)%nat) (seq 0 (length first))) (Some first))
  | [] => Ok (if cc_has_headers config then reader [] [] None else reader [] [] (Some []))
  end.

Definition decode_field (r : CsvReader) (field : string) : string :=
  decode (cr_encoding r) (default field (strip_prefix bom field)).

(** [values] and [nulls] of one column. *)
Definition column_cells (r : CsvReader) (records : list (list string)) (col_idx : nat) : list (option string * bool) :=
  map (fun record => match record !! col_idx with
                     | Some field =>
                         let field_str := decode_field r field in
                         if bool_decide (field_str ∈ cr_na_values r) then (None, true) else (Some field_str, false)
                     | None => (None, true)
                     end) records.

Definition column_array (r : CsvReader) (records : list (list string)) (col_idx : nat) : Array :=
  let cells := column_cells r records col_idx in create_column_array (map fst cells) (map snd cells).

Definition records_to_batch (r : CsvReader) (records : list (list string)) : Result Fault RecordBatch :=
  let columns := map (column_array r records) (seq 0 (length (cr_headers r))) in
  let fields := zip_with (fun name a => {| fd_name := name; fd_type := array_type a; fd_nullable := true |})
                  (cr_headers r) columns in
  map_err (fun e => Fails (MArrow e)) (try_new fields columns).

(** Up to [n] further records, and what is left. *)
Fixpoint read_records (n : nat) (rest : list (Result string (list string)))
    : Result Fault (list (list string) * list (Result string (list string))) :=
  match n, rest with
  | 0, _ | _, [] => Ok ([], rest)
  | S n, Err e :: _ => fails (MCsv e)
  | S n, Ok r :: rest => p ← read_records n rest; Ok (r :: fst p, snd p)
  end.

Definition with_rest (rest : list (Result string (list string))) (r : CsvReader) : CsvReader :=
  {| cr_reader := rest; cr_headers := cr_headers r; cr_batch_size := cr_batch_size r;
     cr_na_values := cr_na_values r; cr_encoding := cr_encoding r; cr_pending_record := None |}.

Definition csv_read_batch (r : CsvReader) : Result Fault (option RecordBatch * CsvReader) :=
  p ← read_records (cr_batch_size r) (cr_reader r);
  let records := option_list (cr_pending_record r) ++ fst p in
  let r := with_rest (snd p) r in
  match records with
  | [] => Ok (None, r)
  | _ => b ← records_to_batch r records; Ok (Some b, r)
  end.

(** The batches until the first [None], as the loops [while let Some(batch)] see
    them; each read of a positive batch size takes the pending record or at least
    one of those left, so [S (length ..)] rounds are enough. *)
Fixpoint csv_batches (fuel : nat) (r : CsvReader) : list (Result Fault RecordBatch) :=
  match fuel with
  | 0 => []
  | S fuel =>
      match csv_read_batch r with
      | Err e => [Err e]
      | Ok (None, _) => []
      | Ok (Some b, r) => Ok b :: csv_batches fuel r
      end
  end.

Definition csv_fuel (r : CsvReader) : nat := S (length (option_list (cr_pending_record r)) + length (cr_reader r)).

Definition infer_schema (r : CsvReader) : Result Fault Schema :=
  p ← csv_read_batch r;
  match fst p with
  | Some b => Ok (rb_schema b)
  | None => Ok (map (fun name => {| fd_name := name; fd_type := AUtf8; fd_nullable := true |}) (cr_headers r))
  end.
End Csv.

(** * Alignment (coercion.rs) *)

Record BatchAligner := {
  ba_unified_schema : UnifiedSchema;
  ba_column_mapping : gmap string string;
  ba_include_columns : option (list string);
  ba_exclude_columns : option (list string);
  ba_stringify_conflicts : bool;
}.

(** [(0..num_rows).map(|i| if array.is_null(i) { None } else { f(array.value(i)) })]. *)
Definition map_rows {A B} (num_rows : nat) (f : A -> option B) (l : list (option A)) : list (option B) :=
  map (fun i => mjoin (l !! i) ≫= f) (seq 0 num_rows).

Definition create_null_column (t : DataType) (num_rows : nat) : Array :=
  match t with
  | AUtf8 | ALargeUtf8 => StringArray (replicate num_rows None)
  | AInt64 => Int64Array (replicate num_rows None)
  | AFloat64 => Float64Array (replicate num_rows None)
  | ABoolean => BooleanArray (replicate num_rows None)
  | _ => StringArray (replicate num_rows None)
  end.

(** [array_value_display] of a valid entry; a [LargeUtf8] array is no
    [StringArray], so that its downcast panics. *)
Definition stringify_column (a : Array) (num_rows : nat) : Result Fault Array :=
  match a with
  | StringArray l => Ok (StringArray (map_rows num_rows Some l))
  | Int64Array l | Int32Array l => Ok (StringArray (map_rows num_rows (Some ∘ i64_to_string) l))
  | Float64Array l => Ok (StringArray (map_rows num_rows (Some ∘ f64_to_string) l))
  | BooleanArray l => Ok (StringArray (map_rows num_rows (Some ∘ bool_to_string) l))
  | LargeStringArray l =>
      if bool_decide (Exists (fun i => is_Some (mjoin (l !! i))) (seq 0 num_rows)) then Err Panics
      else Ok (StringArray (map_rows num_rows (fun _ => None) l))
  | OtherArray dt valid =>
      Ok (StringArray (map (fun i => if default false (valid !! i) then Some (data_type_debug dt) else None)
                         (seq 0 num_rows)))
  end.

Definition coerce_same (a : Array) (num_rows : nat) : Result Fault Array :=
  match a with
  | Int32Array _ | Int64Array _ | Float64Array _ | StringArray _ | BooleanArray _ => Ok a
  | LargeStringArray _ => Err Panics
  | OtherArray dt _ => Ok (create_null_column dt num_rows)
  end.

Definition coerce_column (al : BatchAligner) (a : Array) (target : DataType) (num_rows : nat) : Result Fault Array :=
  if decide (array_type a = target) then coerce_same a num_rows
  else
    match a, target with
    | StringArray l, AInt64 => Ok (Int64Array (map_rows num_rows parse_i64 l))
    | StringArray l, AFloat64 => Ok (Float64Array (map_rows num_rows parse_f64 l))
    | StringArray l, ABoolean => Ok (BooleanArray (map_rows num_rows parse_bool l))
    | LargeStringArray _, AInt64 | LargeStringArray _, AFloat64 | LargeStringArray _, ABoolean => Err Panics
    | Int64Array l, AFloat64 => Ok (Float64Array (map_rows num_rows (Some ∘ i64_to_f64) l))
    | _, AUtf8 => stringify_column a num_rows
    | _, _ =>
        if ba_stringify_conflicts al && bool_decide (target = AUtf8) then stringify_column a num_rows
        else fails (MSchema ("Cannot coerce " +:+ data_type_debug (array_type a) +:+ " to " +:+ data_type_debug target))
    end.

Definition keeps_column (al : BatchAligner) (name : string) : bool :=
  match ba_include_columns al with Some include => bool_decide (name ∈ include) | None => true end
  && match ba_exclude_columns al with Some exclude => bool_decide (name ∉ exclude) | None => true end.

Fixpoint position (name : string) (l : list string) : option nat :=
  match l with
  | [] => None
  | x :: l => if decide (x = name) then Some 0 else S <$> position name l
  end.

Definition align_column (al : BatchAligner) (batch : RecordBatch) (source_fields : list string) (field : Field)
    : Result Fault Array :=
  let mapped_name := default (fd_name field) (ba_column_mapping al !! fd_name field) in
  match position mapped_name source_fields with
  | Some source_idx =>
      match rb_columns batch !! source_idx with
      | Some source_array => coerce_column al source_array (fd_type field) (rb_num_rows batch)
      | None => Ok (create_null_column (fd_type field) (rb_num_rows batch))
      end
  | None => Ok (create_null_column (fd_type field) (rb_num_rows batch))
  end.

Section Align.
Context `{ArrowCrate}.

Definition align_batch_with_source (al : BatchAligner) (batch : RecordBatch) (source_fields : list string)
    : Result Fault RecordBatch :=
  let schema := us_schema (ba_unified_schema al) in
  aligned_columns ← try_map (align_column al batch source_fields) (filter (fun f => keeps_column al (fd_name f) = true) schema);
  map_err (fun e => Fails (MArrow e)) (try_new schema aligned_columns).
End Align.

(** * CSV output (writer_csv.rs) *)

(** [array_value_to_string] with the empty [na_string] of the default
    configuration. *)
Definition array_value_to_string (a : Array) (row : nat) : Result Fault string :=
  if is_null a row then Ok EmptyString
  else
    match a with
    | StringArray l => Ok (default EmptyString (mjoin (l !! row)))
    | LargeStringArray _ => Err Panics
    | Int64Array l => Ok (i64_to_string (default 0%Z (mjoin (l !! row))))
    | Float64Array l => Ok (f64_to_string (default (S754_zero false) (mjoin (l !! row))))
    | BooleanArray l => Ok (bool_to_string (default false (mjoin (l !! row))))
    | Int32Array _ | OtherArray _ _ => Ok "unknown"
    end.

Section Writer.
Context `{CsvCrate}.

(** The text one [write_batch] adds; [headers_written] is false before the
    first. *)
Definition write_batch_text (headers_written : bool) (batch : RecordBatch) : Result Fault string :=
  rows ← try_map (fun row => record ← try_map (fun a => array_value_to_string a row) (rb_columns batch);
                             Ok (csv_line record)) (seq 0 (rb_num_rows batch));
  Ok ((if headers_written then EmptyString else csv_line (map fd_name (rb_schema batch)))
        +:+ join_strings EmptyString rows).
End Writer.
