(* ===== verification/StreamColumnsProofs.v ===== *)
(** What the columns of the streaming engine keep of their input: the inferred
    type of a CSV column, the batches of a file, and alignment as a conversion of
    single values. *)

From Stdlib Require Import Ascii SpecFloat.
From S2P Require Import Prelude TypeUnify RustNum StreamColumns.

(** * Numbers *)

Lemma digits_run_prefix s acc n v k rest : digits_run s acc n = (v, k, rest) -> n <= k /\
  (n < k -> match s with String c _ => is_Some (digit_value c) | EmptyString => False end).
Proof.
  revert acc n. induction s as [|c s IH]; intros acc n; cbn [digits_run].
  - intros [= _ <- _]. split; [lia|]. lia.
  - destruct (digit_value c) eqn:Ec.
    + intros Hr. apply IH in Hr as [Hk _]. split; [lia|]. eauto.
    + intros [= _ <- _]. split; [lia|]. lia.
Qed.

(** What [i64] accepts, [f64] accepts. *)
Lemma parse_i64_f64 s z : parse_i64 s = Some z -> is_Some (parse_f64 s).
Proof.
  unfold parse_i64, parse_f64. destruct (split_sign s) as [neg body].
  destruct (digits_run body 0 0) as [[v k] rest] eqn:E. destruct k as [|k]; [done|].
  destruct rest as [|]; [|done]. intros _. pose proof (digits_run_prefix _ _ _ _ _ _ E) as [_ Hd].
  specialize (Hd ltac:(lia)). destruct body as [|c body]; [done|]. destruct Hd as [d Hd].
  assert (forall t, lower_text (String c body) = t -> match t with String c' _ => lower_char c = c' | _ => False end) as Hl
    by by intros t <-.
  assert (lower_char c = c) as Hlc.
  { unfold digit_value in Hd. unfold lower_char. destruct ((65 <=? nat_of_ascii c) && _) eqn:E65; [|done].
    apply andb_true_iff in E65 as [E65 _]. apply Nat.leb_le in E65.
    destruct (_ && _) eqn:E57 in Hd; [|done]. apply andb_true_iff in E57 as [_ E57]. lia. }
  rewrite Hlc in Hl.
  rewrite decide_False by (intros Ht; specialize (Hl _ Ht); cbn in Hl; by subst c).
  rewrite decide_False by (intros [Ht|Ht]; specialize (Hl _ Ht); cbn in Hl; by subst c).
  cbn [parse_exponent mbind option_bind]. rewrite decide_False by lia. eauto.
Qed.

(** * Inferred columns *)

Definition is_int (v : string) : bool := bool_decide (is_Some (parse_i64 v)).
Definition is_float (v : string) : bool := negb (is_int v) && bool_decide (is_Some (parse_f64 v)).
Definition is_bool (v : string) : bool :=
  negb (is_int v) && negb (bool_decide (is_Some (parse_f64 v))) && bool_decide (is_Some (parse_bool v)).
Definition is_text (v : string) : bool := negb (is_int v) && negb (is_float v) && negb (is_bool v).

(** The non-null cells of a column. *)
Definition cells (values : list (option string)) : list string := omap id values.

Definition flags (values : list (option string)) : Seen :=
  {| has_strings := existsb is_text (cells values); has_ints := existsb is_int (cells values);
     has_floats := existsb is_float (cells values); has_bools := existsb is_bool (cells values) |}.

Lemma see_flags values s :
  foldl see s (zip values (map (fun v => bool_decide (v = None)) values))
  = {| has_strings := has_strings s || has_strings (flags values); has_ints := has_ints s || has_ints (flags values);
       has_floats := has_floats s || has_floats (flags values); has_bools := has_bools s || has_bools (flags values) |}.
Proof.
  revert s. induction values as [|v values IH]; intros s; cbn [map zip zip_with foldl].
  { unfold flags. cbn. destruct s. cbn. by rewrite !orb_false_r. }
  rewrite IH. unfold flags, cells. destruct v as [v|]; [|reflexivity].
  cbn [omap list_omap id existsb has_strings has_ints has_floats has_bools].
  change (bool_decide (Some v = None)) with false. unfold see, is_text, is_bool, is_float, is_int.
  destruct (bool_decide (is_Some (parse_i64 v))), (bool_decide (is_Some (parse_f64 v))), (bool_decide (is_Some (parse_bool v)));
    cbn; destruct (has_strings s), (has_ints s), (has_floats s), (has_bools s); reflexivity.
Qed.

(** A value that a text of the column denotes. *)
Definition reads_as (v : string) (x : Value) : Prop :=
  match x with
  | VStr s => s = v
  | VInt z => parse_i64 v = Some z
  | VFloat y => parse_f64 v = Some y
  | VBool b => parse_bool v = Some b
  | VNull | VOpaque => False
  end.

(** Booleans and numbers, and nothing else, in one column. *)
Definition mixes (values : list (option string)) : Prop :=
  (exists v, v ∈ cells values /\ is_bool v = true) /\
  (exists v, v ∈ cells values /\ (is_int v = true \/ is_float v = true)) /\
  (forall v, v ∈ cells values -> is_text v = false).

Lemma existsb_true {A} (f : A -> bool) l : existsb f l = true <-> exists x, x ∈ l /\ f x = true.
Proof. rewrite existsb_exists. by setoid_rewrite list_elem_of_In. Qed.

Lemma existsb_false {A} (f : A -> bool) l : existsb f l = false <-> forall x, x ∈ l -> f x = false.
Proof.
  rewrite <- not_true_iff_false, existsb_true. split.
  - intros Hn x Hx. apply not_true_is_false. eauto.
  - intros Hn (x & Hx & Hf). by rewrite Hn in Hf.
Qed.

Lemma cells_elem values v : v ∈ cells values <-> exists i, values !! i = Some (Some v).
Proof.
  unfold cells. rewrite list_elem_of_omap. unfold id. split.
  - intros (x & Hx & ->). by apply list_elem_of_lookup in Hx.
  - intros (i & Hi). exists (Some v). split; [|done]. by eapply list_elem_of_lookup_2.
Qed.

(** The four classes are exclusive and exhaustive. *)
Lemma is_int_parse v : is_int v = true <-> is_Some (parse_i64 v).
Proof. apply bool_decide_eq_true. Qed.
Lemma is_bool_parse v : is_bool v = true -> parse_i64 v = None /\ parse_f64 v = None /\ is_Some (parse_bool v).
Proof.
  unfold is_bool, is_int. rewrite !andb_true_iff, !negb_true_iff, !bool_decide_eq_false, bool_decide_eq_true, <- !eq_None_not_Some.
  tauto.
Qed.
Lemma number_parse v : is_int v = true \/ is_float v = true -> is_Some (parse_f64 v).
Proof.
  intros [Hi|Hf]; [apply is_int_parse in Hi as [z Hz]; by eapply parse_i64_f64|].
  unfold is_float in Hf. apply andb_true_iff in Hf as [_ Hf]. by apply bool_decide_eq_true in Hf.
Qed.
Lemma class_cases v : is_int v = true \/ is_float v = true \/ is_bool v = true \/ is_text v = true.
Proof. unfold is_text. destruct (is_int v), (is_float v), (is_bool v); auto. Qed.

Lemma cell_of_map {A} (f : A -> Value) (p : string -> option A) values i v : values !! i = Some (Some v) ->
  cell_of f (map (fun o => o ≫= p) values) i = match p v with Some x => f x | None => VNull end.
Proof. intros Hv. unfold cell_of. by rewrite list_lookup_fmap, Hv. Qed.

Lemma cell_of_none {A} (f : A -> Value) (p : string -> option A) values i : values !! i = Some None ->
  cell_of f (map (fun o => o ≫= p) values) i = VNull.
Proof. intros Hv. unfold cell_of. by rewrite list_lookup_fmap, Hv. Qed.

(** The array chosen by the flags, as [create_column_array] does. *)
Definition inferred (values : list (option string)) : Array :=
  create_column_array values (map (fun v => bool_decide (v = None)) values).

Lemma inferred_cases values :
  let f := flags values in
  inferred values =
    if has_strings f || negb (has_ints f || has_floats f || has_bools f) then StringArray values
    else if has_floats f then Float64Array (map (fun v => v ≫= parse_f64) values)
    else if has_ints f then Int64Array (map (fun v => v ≫= parse_i64) values)
    else BooleanArray (map (fun v => v ≫= parse_bool) values).
Proof.
  unfold inferred, create_column_array. rewrite see_flags. cbn [has_strings has_ints has_floats has_bools seen_none orb].
  by destruct (has_strings _), (has_ints _), (has_floats _), (has_bools _).
Qed.

Lemma inferred_shape values : array_len (inferred values) = length values /\
  forall i, values !! i = Some None -> cell (inferred values) i = VNull.
Proof.
  rewrite inferred_cases. cbn zeta. repeat case_match; cbn [array_len cell]; rewrite ?length_map; split; try done;
    intros i Hi; try (by apply cell_of_none). unfold cell_of. by rewrite Hi.
Qed.

Lemma inferred_keeps values : ~ mixes values ->
  forall i v, values !! i = Some (Some v) -> reads_as v (cell (inferred values) i).
Proof.
  intros Hm i v Hv. assert (v ∈ cells values) as Hin by (apply cells_elem; eauto).
  rewrite inferred_cases. cbn zeta. destruct (has_strings (flags values)) eqn:Es; cbn [orb].
  { cbn [cell]. unfold cell_of. by rewrite Hv. }
  unfold flags in *. cbn [has_strings has_ints has_floats has_bools] in *. rewrite existsb_false in Es.
  destruct (existsb is_float (cells values)) eqn:Ef; [|destruct (existsb is_int (cells values)) eqn:Ei;
    [|destruct (existsb is_bool (cells values)) eqn:Eb]]; rewrite ?orb_true_r; cbn [orb negb];
    try (cbn [cell]; erewrite cell_of_map by done).
  - assert (is_Some (parse_f64 v)) as [x Hx]; [|rewrite Hx; exact Hx].
    apply number_parse. rewrite existsb_true in Ef. destruct (class_cases v) as [?|[?|[Hb|Ht]]]; [auto..| |].
    + destruct Hm. split; [eauto|]. split; [|done]. destruct Ef as (w & Hw & Hf). eauto.
    + by rewrite Es in Ht.
  - assert (is_Some (parse_i64 v)) as [x Hx]; [|rewrite Hx; exact Hx]. rewrite existsb_true in Ei. rewrite existsb_false in Ef.
    destruct (class_cases v) as [Hi|[Hf|[Hb|Ht]]]; [by apply is_int_parse| | |].
    + by rewrite Ef in Hf.
    + destruct Hm. split; [eauto|]. split; [|done]. destruct Ei as (w & Hw & Hi). eauto.
    + by rewrite Es in Ht.
  - assert (is_Some (parse_bool v)) as [x Hx]; [|rewrite Hx; exact Hx]. rewrite existsb_false in Ei, Ef.
    destruct (class_cases v) as [Hi|[Hf|[Hb|Ht]]]; [by rewrite Ei in Hi|by rewrite Ef in Hf| |by rewrite Es in Ht].
    by apply is_bool_parse in Hb as (_ & _ & Hb).
  - cbn [cell]. unfold cell_of. by rewrite Hv.
Qed.

Lemma inferred_loses values : mixes values ->
  exists i v, values !! i = Some (Some v) /\ ~ reads_as v (cell (inferred values) i).
Proof.
  intros ((b & Hb & Hbb) & (n & Hn & Hnn) & Ht). pose proof Hb as (i & Hi)%cells_elem. exists i, b. split; [done|].
  apply is_bool_parse in Hbb as (Hbi & Hbf & _). rewrite inferred_cases. cbn zeta. unfold flags.
  cbn [has_strings has_ints has_floats has_bools]. rewrite (proj2 (existsb_false is_text (cells values)) Ht). cbn [orb].
  assert (existsb is_int (cells values) || existsb is_float (cells values) = true) as Hnum.
  { apply orb_true_iff. rewrite !existsb_true. destruct Hnn; eauto. }
  rewrite Hnum. cbn [orb negb]. destruct (existsb is_float (cells values)) eqn:Ef.
  - cbn [cell]. rewrite (cell_of_map _ _ _ _ _ Hi), Hbf. cbn. tauto.
  - rewrite orb_false_r in Hnum. rewrite Hnum. cbn [cell]. rewrite (cell_of_map _ _ _ _ _ Hi), Hbi. cbn. tauto.
Qed.

Section Reader.
Context `{ArrowCrate} `{CsvCrate}.

Lemma column_array_inferred r records c : column_array r records c = inferred (map fst (column_cells r records c)).
Proof.
  unfold column_array, inferred. f_equal. unfold column_cells. rewrite !map_map. apply map_ext. intros record.
  destruct (record !! c); [|done]. by case_match.
Qed.

(** ** Claim *)

(** A column of a CSV batch has one entry per record, null where the cell is
    missing or an NA value.  Every other cell is kept with the value its text
    denotes in the inferred type, exactly when the column does not mix booleans
    with numbers (it then loses the booleans). *)
Theorem csv_column_exact r records c :
  let values := map fst (column_cells r records c) in
  let a := column_array r records c in
  array_len a = length records /\ (forall i, values !! i = Some None -> cell a i = VNull) /\
  ((forall i v, values !! i = Some (Some v) -> reads_as v (cell a i)) <-> ~ mixes values).
Proof.
  intros values a. unfold a. rewrite column_array_inferred. fold values.
  destruct (inferred_shape values) as [Hl Hn]. split; [|split; [done|]].
  { rewrite Hl. unfold values, column_cells. by rewrite !length_map. }
  split; [|apply inferred_keeps]. intros Hk Hm. apply inferred_loses in Hm as (i & v & Hv & Hr). eauto.
Qed.
End Reader.

(** * The batches of a file *)

(** The results until the first error, which ends the loop. *)
Fixpoint until_error {E A} (l : list (Result E A)) : list (Result E A) :=
  match l with
  | [] => []
  | Ok a :: l => Ok a :: until_error l
  | Err e :: _ => [Err e]
  end.

Section Batches.
Context `{ArrowCrate} `{CsvCrate}.

Lemma read_records_ok n rs : read_records n (map Ok rs) = Ok (take n rs, map Ok (drop n rs)).
Proof.
  revert rs. induction n as [|n IH]; intros rs; [by destruct rs|]. destruct rs as [|r rs]; [done|].
  cbn [map read_records]. by rewrite IH.
Qed.

Lemma csv_batches_chunks fuel r rs : 0 < cr_batch_size r -> cr_reader r = map Ok rs ->
  length (option_list (cr_pending_record r)) + length rs < fuel ->
  exists chunks, concat chunks = option_list (cr_pending_record r) ++ rs /\
    Forall (fun c => 0 < length c <= S (cr_batch_size r)) chunks /\
    csv_batches fuel r = until_error (map (records_to_batch r) chunks).
Proof.
  revert r rs. induction fuel as [|fuel IH]; intros r rs Hb Hr Hf; [lia|]. cbn [csv_batches]. unfold csv_read_batch.
  rewrite Hr, read_records_ok. cbn [mbind Result_bind fst snd].
  set (chunk := option_list (cr_pending_record r) ++ take (cr_batch_size r) rs).
  assert (length chunk <= S (cr_batch_size r)) as Hlen.
  { unfold chunk. rewrite length_app, length_take. destruct (cr_pending_record r); cbn; lia. }
  set (r' := with_rest (map Ok (drop (cr_batch_size r) rs)) r).
  assert (chunk <> [] \/ rs = [] /\ cr_pending_record r = None) as [Hc|[-> Hp]].
  { unfold chunk. destruct (cr_pending_record r); [by left|]. destruct rs; [by right|]. left.
    by destruct (cr_batch_size r); [lia|]. }
  2:{ unfold chunk. rewrite Hp. exists []. by rewrite take_nil. }
  destruct (IH r' (drop (cr_batch_size r) rs)) as (chunks & Hcat & Hall & Heq); [done|done| |].
  { unfold r'. cbn. rewrite length_drop. destruct chunk eqn:Ec; [done|].
    destruct (cr_pending_record r); cbn in *; [|destruct rs; cbn in *; [by rewrite take_nil in Ec|]]; lia. }
  exists (chunk :: chunks). split; [|split].
  - cbn [concat]. rewrite Hcat. change (cr_pending_record r') with (@None (list string)). cbn [option_list app].
    unfold chunk. rewrite <- app_assoc. f_equal. apply take_drop.
  - constructor; [|done]. destruct chunk; [done|]. cbn in *. lia.
  - destruct chunk as [|x chunk'] eqn:Ec; [done|]. cbn [map until_error].
    change (records_to_batch r' (x :: chunk')) with (records_to_batch r (x :: chunk')).
    destruct (records_to_batch r (x :: chunk')); cbn [mbind Result_bind]; [|done]. by rewrite Heq.
Qed.

(** ** Claim *)

(** Reading a file whose records all parse delivers each record in exactly one
    batch, in order, and ends: the rounds of the model are enough.  A batch has
    at most one record more than the batch size. *)
Theorem csv_file_batches r rs : 0 < cr_batch_size r -> cr_reader r = map Ok rs ->
  exists chunks, concat chunks = option_list (cr_pending_record r) ++ rs /\
    Forall (fun c => 0 < length c <= S (cr_batch_size r)) chunks /\
    csv_batches (csv_fuel r) r = until_error (map (records_to_batch r) chunks).
Proof. intros Hb Hr. apply csv_batches_chunks; [done|done|]. unfold csv_fuel. rewrite Hr, length_map. lia. Qed.
End Batches.

(** * Alignment *)

(** Arrays are represented by the constructor of their type. *)
Definition array_wf (a : Array) : Prop :=
  match a with
  | OtherArray dt _ => dt ∉ [AInt32; AInt64; AFloat64; AUtf8; ABoolean; ALargeUtf8]
  | _ => True
  end.

Definition batch_wf (b : RecordBatch) : Prop :=
  Forall (fun a => array_wf a /\ array_len a = rb_num_rows b) (rb_columns b).

(** The conversion of one value. *)
Definition convert (source target : DataType) (x : Value) : Value :=
  match x, target with
  | VStr s, AInt64 => match parse_i64 s with Some z => VInt z | None => VNull end
  | VStr s, AFloat64 => match parse_f64 s with Some f => VFloat f | None => VNull end
  | VStr s, ABoolean => match parse_bool s with Some b => VBool b | None => VNull end
  | VInt z, AFloat64 => VFloat (i64_to_f64 z)
  | VInt z, AUtf8 => VStr (i64_to_string z)
  | VFloat f, AUtf8 => VStr (f64_to_string f)
  | VBool b, AUtf8 => VStr (bool_to_string b)
  | VOpaque, AUtf8 => VStr (data_type_debug source)
  | _, _ => x
  end.

(** The pairs of array and target that can be coerced, and the targets a missing
    column can have. *)
Definition alignable (source : option Array) (target : DataType) : Prop :=
  match source with
  | None => target ∈ [AUtf8; AInt64; AFloat64; ABoolean]
  | Some a =>
      match a, target with
      | Int32Array _, AInt32 | Int64Array _, AInt64 | Int64Array _, AFloat64 | Float64Array _, AFloat64
      | BooleanArray _, ABoolean | StringArray _, AUtf8
      | StringArray _, AInt64 | StringArray _, AFloat64 | StringArray _, ABoolean
      | Int32Array _, AUtf8 | Int64Array _, AUtf8 | Float64Array _, AUtf8 | BooleanArray _, AUtf8
      | OtherArray _ _, AUtf8 => True
      | LargeStringArray l, AUtf8 => Forall (fun x => x = None) l
      | _, _ => False
      end
  end.

#[global] Instance alignable_dec source target : Decision (alignable source target).
Proof. destruct source as [[l|l|l|l|l|l|dt v]|]; cbn; [destruct target; apply _..|apply _]. Defined.

Definition source_column (al : BatchAligner) (batch : RecordBatch) (source_fields : list string) (f : Field)
    : option Array :=
  position (default (fd_name f) (ba_column_mapping al !! fd_name f)) source_fields ≫= (fun i => rb_columns batch !! i).

Lemma align_column_source al batch src f :
  align_column al batch src f =
    match source_column al batch src f with
    | Some a => coerce_column al a (fd_type f) (rb_num_rows batch)
    | None => Ok (create_null_column (fd_type f) (rb_num_rows batch))
    end.
Proof. unfold align_column, source_column. by destruct (position _ _). Qed.

Lemma map_rows_lookup {A B} n (f : A -> option B) l i : i < n -> map_rows n f l !! i = Some (mjoin (l !! i) ≫= f).
Proof. intros Hi. unfold map_rows. rewrite list_lookup_fmap, lookup_seq_lt by done. done. Qed.

Lemma map_rows_length {A B} n (f : A -> option B) l : length (map_rows n f l) = n.
Proof. unfold map_rows. by rewrite length_map, length_seq. Qed.

Lemma cell_map_rows {A B} (w : B -> Value) n (f : A -> option B) l i : i < n ->
  cell_of w (map_rows n f l) i
  = match mjoin (l !! i) with Some x => match f x with Some y => w y | None => VNull end | None => VNull end.
Proof. intros Hi. unfold cell_of. rewrite map_rows_lookup by done. cbn. by destruct (mjoin (l !! i)). Qed.

Lemma cell_convert {A} (v : A -> Value) (g : Value -> Value) l i : g VNull = VNull ->
  g (cell_of v l i) = match mjoin (l !! i) with Some x => g (v x) | None => VNull end.
Proof. intros Hg. unfold cell_of. by destruct (mjoin (l !! i)). Qed.

(** A coerced column, cell by cell. *)
Definition coerced (a b : Array) (t : DataType) (n : nat) : Prop :=
  array_type b = t /\ array_len b = n /\ forall i, i < n -> cell b i = convert (array_type a) t (cell a i).

Ltac by_cells := split; [done|split; [apply map_rows_length|intros i Hi; cbn [cell array_type]; rewrite cell_map_rows by done;
  rewrite (cell_convert _ (convert _ _)) by done; by destruct (mjoin _)]].

Lemma stringify_other dt valid n : coerced (OtherArray dt valid)
  (StringArray (map (fun i => if default false (valid !! i) then Some (data_type_debug dt) else None) (seq 0 n))) AUtf8 n.
Proof.
  split; [done|]. split; [cbn; by rewrite length_map, length_seq|]. intros i Hi. cbn [cell array_type]. unfold cell_of.
  rewrite list_lookup_fmap, lookup_seq_lt by done. cbn. by destruct (default false _).
Qed.

Lemma stringify_large l n : length l = n -> Forall (fun x => x = None) l ->
  exists b, stringify_column (LargeStringArray l) n = Ok b /\ coerced (LargeStringArray l) b AUtf8 n.
Proof.
  intros Hn Hl. cbn [stringify_column]. rewrite bool_decide_false.
  - eexists. split; [done|]. split; [done|]. split; [apply map_rows_length|]. intros i Hi. cbn [cell array_type].
    rewrite cell_map_rows by done. unfold cell_of.
    destruct (l !! i) eqn:E; [|done]. rewrite Forall_lookup in Hl. by rewrite (Hl _ _ E).
  - intros (i & _ & x & Hx)%Exists_exists. destruct (l !! i) eqn:E; [|done].
    rewrite Forall_lookup in Hl. by rewrite (Hl _ _ E) in Hx.
Qed.

Lemma stringify_large_panics l n : length l = n -> ~ Forall (fun x => x = None) l ->
  stringify_column (LargeStringArray l) n = Err Panics.
Proof.
  intros Hn Hl. cbn [stringify_column]. rewrite bool_decide_true; [done|].
  apply not_Forall_Exists in Hl; [|intros x; destruct x; [by right|by left]].
  apply Exists_exists in Hl as (x & Hx & Hs). apply list_elem_of_lookup in Hx as (i & Hi).
  apply Exists_exists. exists i. split; [apply elem_of_seq; apply lookup_lt_Some in Hi; lia|].
  rewrite Hi. cbn in Hs |- *. destruct x; [eauto|]. by destruct Hs.
Qed.

Lemma coerce_alignable al a t n : array_wf a -> array_len a = n -> alignable (Some a) t ->
  exists b, coerce_column al a t n = Ok b /\ coerced a b t n.
Proof.
  intros Hw Hn Ha. unfold coerce_column. destruct a; cbn [array_type array_len] in *; destruct t; try done;
    try (rewrite decide_True by done; cbn [coerce_same]; eexists; split; [done|]; split; [done|]; split; [done|];
         intros i Hi; cbn [cell array_type]; unfold cell_of; by destruct (mjoin _));
    try (rewrite decide_False by done; cbn [stringify_column]; eexists; split; [done|]; by_cells).
  - rewrite decide_False by done. by apply stringify_large.
  - rewrite decide_False by (intros ->; apply Hw; set_solver). eexists. split; [done|]. apply stringify_other.
Qed.

Lemma coerce_not_alignable al a t n : array_wf a -> array_len a = n -> ~ alignable (Some a) t ->
  forall b, coerce_column al a t n = Ok b -> array_type b <> t.
Proof.
  intros Hw Hn Ha b. unfold coerce_column. destruct a as [l|l|l|l|l|l|dt valid]; cbn [array_type array_len] in *.
  1-6: destruct t; try (exfalso; apply Ha; done);
    try (rewrite decide_False by done; cbn [ba_stringify_conflicts]; rewrite bool_decide_false, andb_false_r by done; done);
    try (rewrite decide_True by done; done); try (rewrite decide_False by done; done).
  - rewrite decide_False by done. by rewrite stringify_large_panics.
  - destruct (decide (dt = t)) as [->|Hne]; cbn [coerce_same].
    + intros [= <-]. cbn in Hw. destruct t; cbn; try done; exfalso; apply Hw; set_solver.
    + destruct t; try (by exfalso; apply Ha); rewrite bool_decide_false, andb_false_r by done; done.
Qed.

Lemma null_column_spec t n : array_len (create_null_column t n) = n /\ (forall i, cell (create_null_column t n) i = VNull) /\
  (array_type (create_null_column t n) = t <-> alignable None t).
Proof.
  assert (forall A (v : A -> Value) i, cell_of v (replicate n None) i = VNull) as Hc.
  { intros A v i. unfold cell_of. destruct (replicate n None !! i) as [x|] eqn:E; [|done].
    apply lookup_replicate in E as [-> _]. done. }
  split; [|split].
  - destruct t; cbn; apply length_replicate.
  - intros i. destruct t; cbn; apply Hc.
  - unfold alignable. destruct t; cbn; set_solver.
Qed.

Section Aligned.
Context `{ArrowCrate}.

(** What [align_column] yields for one field of the unified schema. *)
Definition aligned_value (al : BatchAligner) (batch : RecordBatch) (src : list string) (i : nat) (f : Field) : Value :=
  match source_column al batch src f with
  | Some a => convert (array_type a) (fd_type f) (cell a i)
  | None => VNull
  end.

Definition aligned_as (al : BatchAligner) (batch : RecordBatch) (src : list string) (f : Field) (b : Array) : Prop :=
  column_fits f b /\ array_len b = rb_num_rows batch /\
  forall i, i < rb_num_rows batch -> cell b i = aligned_value al batch src i f.

Lemma source_column_wf al batch src f a : batch_wf batch -> source_column al batch src f = Some a ->
  array_wf a /\ array_len a = rb_num_rows batch.
Proof.
  intros Hw. unfold source_column. destruct (position _ _) as [k|]; [|done]. cbn. intros Ha.
  by apply (Forall_lookup_1 _ _ _ _ Hw Ha).
Qed.

Lemma align_column_ok al batch src f : batch_wf batch -> alignable (source_column al batch src f) (fd_type f) ->
  exists b, align_column al batch src f = Ok b /\ aligned_as al batch src f b.
Proof.
  intros Hw Ha. rewrite align_column_source. unfold aligned_as, aligned_value.
  destruct (source_column al batch src f) as [a|] eqn:Es.
  - destruct (source_column_wf _ _ _ _ _ Hw Es) as [Hwa Hl].
    destruct (coerce_alignable al a (fd_type f) _ Hwa Hl Ha) as (b & -> & Ht & Hn & Hc). exists b. done.
  - destruct (null_column_spec (fd_type f) (rb_num_rows batch)) as (Hl & Hc & Ht). eexists. split; [done|].
    split; [by symmetry; apply Ht|]. auto.
Qed.

Lemma align_column_fits al batch src f b : batch_wf batch -> align_column al batch src f = Ok b -> column_fits f b ->
  alignable (source_column al batch src f) (fd_type f).
Proof.
  intros Hw Hb Hf. rewrite align_column_source in Hb.
  destruct (source_column al batch src f) as [a|] eqn:Es.
  - destruct (source_column_wf _ _ _ _ _ Hw Es) as [Hwa Hl]. apply dec_stable.
    intros Hn. by eapply (coerce_not_alignable al a _ _ Hwa Hl Hn).
  - injection Hb as <-. destruct (null_column_spec (fd_type f) (rb_num_rows batch)) as (_ & _ & Ht). by apply Ht.
Qed.

Lemma filter_all_true {A} (P : A -> Prop) `{forall x, Decision (P x)} l : Forall P l -> filter P l = l.
Proof. induction 1 as [|x l Hx _ IH]; [done|]. by rewrite filter_cons_True, IH. Qed.

Lemma filter_short {A} (P : A -> Prop) `{forall x, Decision (P x)} l : length (filter P l) = length l -> Forall P l.
Proof.
  induction l as [|x l IH]; [done|]. rewrite filter_cons. case_decide as Hx; cbn [length].
  - intros [= Hl]. by constructor; [|apply IH].
  - pose proof (length_filter P l). lia.
Qed.

Lemma Forall2_both {A B} (P Q : A -> B -> Prop) l k : Forall2 P l k -> Forall2 Q l k ->
  Forall2 (fun a b => P a b /\ Q a b) l k.
Proof. induction 1; inversion 1; subst; constructor; auto. Qed.

Lemma admits_fits s cols : Forall2 column_admits s cols -> Forall2 column_fits s cols.
Proof. intros Hf. eapply Forall2_impl; [exact Hf|]. by intros f a [? _]. Qed.

Lemma nullable_admits s cols : Forall2 column_fits s cols -> Forall (fun f => fd_nullable f = true) s ->
  Forall2 column_admits s cols.
Proof. induction 1 as [|f a s cols Hf _ IH]; intros Hn; constructor; apply Forall_cons in Hn as [? ?]; [by split; [|left]|auto]. Qed.

(** The columns of a batch that [align_batch_with_source] returns. *)
Lemma align_ok_inv al batch src b : batch_wf batch -> align_batch_with_source al batch src = Ok b ->
  let schema := us_schema (ba_unified_schema al) in
  rb_schema b = schema /\ Forall (fun a => array_len a = rb_num_rows b) (rb_columns b) /\
  Forall (fun f => keeps_column al (fd_name f) = true /\ alignable (source_column al batch src f) (fd_type f)) schema /\
  Forall2 (aligned_as al batch src) schema (rb_columns b).
Proof.
  intros Hw Hb schema. unfold align_batch_with_source in Hb. fold schema in Hb.
  destruct (try_map _ _) as [cols|] eqn:Ec; [|done]. cbn [mbind Result_bind] in Hb. apply try_map_Ok in Ec.
  destruct (try_new schema cols) as [b'|] eqn:En; [|done]. injection Hb as <-.
  apply try_new_sound in En as (Hf & Hs & -> & Hl). apply admits_fits in Hf.
  assert (Forall (fun f => keeps_column al (fd_name f) = true) schema) as Hk.
  { apply (filter_short (fun f => keeps_column al (fd_name f) = true)). by rewrite (Forall2_length _ _ _ Ec), (Forall2_length _ _ _ Hf). }
  rewrite (filter_all_true _ schema Hk) in Ec.
  pose proof (Forall2_both _ _ _ _ Ec Hf) as Hboth.
  split; [done|]. split; [done|]. split.
  - apply Forall_and. split; [done|]. eapply Forall2_Forall_l; [exact Hboth|]. apply Forall_true. intros a f [Ha Hfit].
    by eapply align_column_fits.
  - eapply Forall2_impl; [exact Hboth|]. intros f a [Ha Hfit].
    destruct (align_column_ok al batch src f Hw (align_column_fits _ _ _ _ _ Hw Ha Hfit)) as (a' & Ha' & Hal).
    rewrite Ha in Ha'. by injection Ha' as <-.
Qed.

(** ** Claims *)

(** A batch aligns exactly when no column filter drops a field of the unified
    schema and every field has a source column that can be coerced to its type,
    or is missing and of type string, 64-bit integer, float or boolean. *)
Theorem alignment_succeeds_iff al batch src : batch_wf batch ->
  let schema := us_schema (ba_unified_schema al) in
  schema <> [] -> Forall (fun f => fd_nullable f = true) schema ->
  is_ok (align_batch_with_source al batch src) = true <->
  Forall (fun f => keeps_column al (fd_name f) = true /\ alignable (source_column al batch src f) (fd_type f)) schema.
Proof.
  intros Hw schema Hne Hnull. split.
  - destruct (align_batch_with_source al batch src) as [b|] eqn:E; [|done]. intros _.
    by destruct (align_ok_inv _ _ _ _ Hw E) as (_ & _ & Hf & _).
  - intros [Hk Ha]%Forall_and. unfold align_batch_with_source. fold schema. rewrite (filter_all_true _ schema Hk).
    assert (exists cols, try_map (align_column al batch src) schema = Ok cols /\ Forall2 (aligned_as al batch src) schema cols)
      as (cols & -> & Hcols).
    { clear Hne Hnull Hk. induction Ha as [|f l Hf _ (cols & Hc & Hall)]; [by exists []|]. cbn [try_map].
      destruct (align_column_ok al batch src f Hw Hf) as (b & -> & Hb). cbn [mbind Result_bind].
      rewrite Hc. exists (b :: cols). split; [done|]. by constructor. }
    cbn [mbind Result_bind]. pose proof (try_new_complete schema cols (rb_num_rows batch)) as Hn.
    destruct (try_new schema cols); [done|]. apply Hn.
    + apply nullable_admits; [|done]. eapply Forall2_impl; [exact Hcols|]. by intros f a (Hf & _).
    + intros ->. by inversion Hcols.
    + eapply Forall2_Forall_r; [exact Hcols|]. apply Forall_true. by intros f a (_ & Hl & _).
Qed.

(** C24: An aligned batch has the unified schema and one row per row of its source:
    field by field the converted value of the source column, or null where the
    source has no such column. *)
Theorem aligned_rows_converted al batch src b : batch_wf batch ->
  us_schema (ba_unified_schema al) <> [] -> align_batch_with_source al batch src = Ok b ->
  rb_schema b = us_schema (ba_unified_schema al) /\
  batch_rows b = map (fun i => map (aligned_value al batch src i) (us_schema (ba_unified_schema al)))
                   (seq 0 (rb_num_rows batch)).
Proof.
  intros Hw Hne Hb. destruct (align_ok_inv _ _ _ _ Hw Hb) as (Hs & Hl & _ & Hcols). split; [done|].
  assert (rb_num_rows b = rb_num_rows batch) as Hn.
  { destruct (us_schema (ba_unified_schema al)) as [|f fs]; [done|]. inversion Hcols as [|? a ? cols (_ & Ha & _) _ Hf Ec].
    rewrite <- Ec in Hl. apply Forall_cons in Hl as [Hl _]. congruence. }
  unfold batch_rows. rewrite Hn. apply list_fmap_ext. intros i k Hk%lookup_seq. destruct Hk as [-> Hk]. cbn [Nat.add].
  clear -Hcols Hk. induction Hcols as [|f a fs cols (_ & _ & Hc) _ IH]; [done|]. cbn [map]. by rewrite Hc, IH.
Qed.
End Aligned.
