(* ===== verification/StreamFs.v ===== *)
(** The file system as the streaming engine uses it: files and directories by
    the text of their path, single calls, programs over them, and what a process
    that stops at any point leaves behind.

    A path is known by its text: the engine reaches a file always under the same
    one.  A call that fails behaves like a stop at that call followed by the
    return of the error. *)

From S2P Require Import Prelude Execute.

(** * Disk *)

Record SFile := { sf_text : string; sf_mtime : Z }.
Record SDisk := { sd_files : gmap string SFile; sd_dirs : gset string; sd_clock : Z }.

Definition with_files (fs : gmap string SFile) (d : SDisk) : SDisk :=
  {| sd_files := fs; sd_dirs := sd_dirs d; sd_clock := sd_clock d |}.
Definition with_dirs (ds : gset string) (d : SDisk) : SDisk :=
  {| sd_files := sd_files d; sd_dirs := ds; sd_clock := sd_clock d |}.

Definition text_at (d : SDisk) (p : string) : option string := sf_text <$> sd_files d !! p.

(** The empty path is the working directory. *)
Definition dir_exists (d : SDisk) (p : string) : bool :=
  bool_decide (p = EmptyString) || bool_decide (p = "/") || bool_decide (p = ".") || bool_decide (p ∈ sd_dirs d).

Definition path_exists (d : SDisk) (p : string) : bool := bool_decide (is_Some (sd_files d !! p)) || dir_exists d p.

Definition parent_exists (d : SDisk) (p : string) : bool :=
  match path_parent p with Some q => dir_exists d q | None => false end.

(** The regular files directly in a directory. *)
Definition files_in (d : SDisk) (dir : string) : list string :=
  filter (fun p => path_parent p = Some dir) (map fst (map_to_list (sd_files d))).

(** [p] and the directories above it, innermost first. *)
Fixpoint ancestors (fuel : nat) (p : string) : list string :=
  match fuel with
  | 0 => []
  | S fuel => p :: match path_parent p with Some q => ancestors fuel q | None => [] end
  end.
Definition ancestors_of (p : string) : list string := ancestors (S (String.length p)) p.

Definition below (dir p : string) : bool := bool_decide (dir ∈ tail (ancestors_of p)).

(** * Calls *)

Inductive fcall :=
| FMetadata (p : string)
| FExists (p : string)
| FRead (p : string)
| FReadDir (p : string)
| FCreateDirAll (p : string)
| FRemoveDirAll (p : string)
| FCreate (p : string)
| FAppend (p s : string)
| FRename (a b : string)
| FRemove (p : string)
| FNow.

Definition fanswer (c : fcall) : Type :=
  match c with
  | FMetadata _ => Result string (Z * Z)  (** length, modification time *)
  | FExists _ => bool
  | FRead _ => Result string string
  | FReadDir _ => Result string (list string)
  | FNow => Z
  | _ => Result string unit
  end.

Definition ENOENT_text : string := "No such file or directory (os error 2)".
Definition ENOTDIR_text : string := "Not a directory (os error 20)".
Definition EISDIR_text : string := "Is a directory (os error 21)".
Definition EEXIST_text : string := "File exists (os error 17)".

Definition put_text (p s : string) (d : SDisk) : SDisk :=
  with_files (<[p := {| sf_text := s; sf_mtime := sd_clock d |}]> (sd_files d)) d.

Definition fexec (c : fcall) (d : SDisk) : fanswer c * SDisk :=
  match c with
  | FMetadata p =>
      (match sd_files d !! p with
       | Some f => Ok (Z.of_nat (String.length (sf_text f)), sf_mtime f)
       | None => if dir_exists d p then Ok (4096%Z, 0%Z) else Err ENOENT_text
       end, d)
  | FExists p => (path_exists d p, d)
  | FRead p =>
      (match sd_files d !! p with
       | Some f => Ok (sf_text f)
       | None => Err (if dir_exists d p then EISDIR_text else ENOENT_text)
       end, d)
  | FReadDir p => (if dir_exists d p then Ok (files_in d p) else Err ENOENT_text, d)
  | FCreateDirAll p =>
      if existsb (fun q => bool_decide (is_Some (sd_files d !! q))) (ancestors_of p) then (Err ENOTDIR_text, d)
      else (Ok tt, with_dirs (list_to_set (ancestors_of p) ∪ sd_dirs d) d)
  | FRemoveDirAll p =>
      if bool_decide (p ∈ sd_dirs d) then
        (Ok tt, {| sd_files := filter (fun e => below p (fst e) = false) (sd_files d);
                   sd_dirs := filter (fun q => q <> p /\ below p q = false) (sd_dirs d); sd_clock := sd_clock d |})
      else (Err ENOENT_text, d)
  | FCreate p =>
      if dir_exists d p then (Err EISDIR_text, d)
      else if parent_exists d p then (Ok tt, put_text p EmptyString d) else (Err ENOENT_text, d)
  | FAppend p s =>
      match sd_files d !! p with
      | Some f => (Ok tt, put_text p (sf_text f +:+ s) d)
      | None => (Err ENOENT_text, d)
      end
  | FRename a b =>
      match sd_files d !! a with
      | Some f =>
          if dir_exists d b then (Err EISDIR_text, d)
          else if parent_exists d b then (Ok tt, with_files (<[b := f]> (delete a (sd_files d))) d)
          else (Err ENOENT_text, d)
      | None => (Err ENOENT_text, d)
      end
  | FRemove p =>
      match sd_files d !! p with
      | Some _ => (Ok tt, with_files (delete p (sd_files d)) d)
      | None => (Err (if dir_exists d p then EISDIR_text else ENOENT_text), d)
      end
  | FNow => (sd_clock d, {| sd_files := sd_files d; sd_dirs := sd_dirs d; sd_clock := sd_clock d + 1 |})
  end.

(** A disk on which the process stops during the call: a prefix of the bytes is
    written, some of the files and directories are removed or created; the other
    calls happen or do not. *)
Definition interrupted (c : fcall) (d d' : SDisk) : Prop :=
  match c with
  | FAppend p s =>
      exists f s', sd_files d !! p = Some f /\ String.prefix s' s = true /\ d' = put_text p (sf_text f +:+ s') d
  | FRemoveDirAll p =>
      sd_clock d' = sd_clock d /\ sd_files d' ⊆ sd_files d /\ sd_dirs d' ⊆ sd_dirs d /\
      (forall q, below p q = false -> sd_files d' !! q = sd_files d !! q) /\
      (forall q, q <> p -> below p q = false -> q ∈ sd_dirs d -> q ∈ sd_dirs d')
  | FCreateDirAll p =>
      exists ds, ds ⊆ (list_to_set (ancestors_of p) : gset string) /\ d' = with_dirs (ds ∪ sd_dirs d) d
  | _ => False
  end.

(** * Programs *)

Inductive fprog (A : Type) : Type :=
| FRet (a : A)
| FCall (c : fcall) (k : fanswer c -> fprog A).
Arguments FRet {_} _.
Arguments FCall {_} _ _.

#[global] Instance fprog_ret : MRet fprog := fun _ a => FRet a.
#[global] Instance fprog_bind : MBind fprog := fun A B f =>
  fix go (p : fprog A) : fprog B :=
    match p with FRet a => f a | FCall c k => FCall c (fun x => go (k x)) end.

Definition fsys (c : fcall) : fprog (fanswer c) := FCall c FRet.

Definition fexists (p : string) : fprog bool := fsys (FExists p).

(** [?]. *)
Definition ftry {E A B} (p : fprog (Result E A)) (k : A -> fprog (Result E B)) : fprog (Result E B) :=
  r ← p; match r with Ok a => k a | Err e => FRet (Err e) end.

Declare Scope stream_scope.
Delimit Scope stream_scope with stream.
Notation "x <-? m ; k" := (ftry m (fun x => k)) (at level 100, m at next level, right associativity) : stream_scope.
Notation "m ?; k" := (ftry m (fun _ => k)) (at level 100, right associativity) : stream_scope.

Fixpoint frun {A} (p : fprog A) (d : SDisk) : A * SDisk :=
  match p with
  | FRet a => (a, d)
  | FCall c k => let '(x, d) := fexec c d in frun (k x) d
  end.

(** The disks a process that runs [p] may leave behind when it stops. *)
Fixpoint stops {A} (p : fprog A) (d d' : SDisk) : Prop :=
  d' = d \/
  match p with
  | FRet _ => False
  | FCall c k => interrupted c d d' \/ let '(x, d1) := fexec c d in stops (k x) d1 d'
  end.

(** * Crash logic *)

(** [I] holds wherever [p] stops and [Q] of its result. *)
Fixpoint safe {A} (I : SDisk -> Prop) (p : fprog A) (Q : A -> SDisk -> Prop) (d : SDisk) : Prop :=
  I d /\
  match p with
  | FRet a => Q a d
  | FCall c k => (forall d', interrupted c d d' -> I d') /\ let '(x, d1) := fexec c d in safe I (k x) Q d1
  end.

Lemma fsafe_run {A} I (p : fprog A) Q d : safe I p Q d -> let '(a, d') := frun p d in Q a d'.
Proof.
  revert d. induction p as [a|c k IH]; intros d; cbn [safe frun]; [tauto|]. intros (_ & _ & H).
  destruct (fexec c d). by apply IH.
Qed.

Lemma safe_stops {A} I (p : fprog A) Q d d' : safe I p Q d -> stops p d d' -> I d'.
Proof.
  revert d. induction p as [a|c k IH]; intros d; cbn [safe stops].
  - intros [Hi _] [->|[]]; done.
  - intros (Hi & Hc & Hk) [->|[Hs|Hs]]; [done|by apply Hc|]. destruct (fexec c d). eapply IH; eauto.
Qed.

Lemma safe_here {A} I (p : fprog A) Q d : safe I p Q d -> I d.
Proof. destruct p; cbn [safe]; tauto. Qed.

Lemma fsafe_bind {A B} I (p : fprog A) (f : A -> fprog B) Q d :
  safe I p (fun a d' => safe I (f a) Q d') d -> safe I (p ≫= f) Q d.
Proof.
  revert d. induction p as [a|c k IH]; intros d; cbn [safe]; [tauto|]. intros (Hi & Hc & Hk). split; [done|].
  split; [done|]. change (let '(x, d1) := fexec c d in safe I (k x ≫= f) Q d1). destruct (fexec c d). by apply IH.
Qed.

Lemma fsafe_mono {A} I (p : fprog A) (Q Q' : A -> SDisk -> Prop) d :
  (forall a d', I d' -> Q a d' -> Q' a d') -> safe I p Q d -> safe I p Q' d.
Proof.
  intros HQ. revert d. induction p as [a|c k IH]; intros d; cbn [safe]; [intuition auto|].
  intros (Hi & Hc & Hk). split; [done|]. split; [done|]. destruct (fexec c d). by apply IH.
Qed.

Lemma fsafe_try {E A B} I (p : fprog (Result E A)) (k : A -> fprog (Result E B)) Q d :
  safe I p (fun r d' => match r with Ok a => safe I (k a) Q d' | Err e => Q (Err e) d' end) d ->
  safe I (ftry p k) Q d.
Proof.
  intros H. apply fsafe_bind. eapply fsafe_mono; [|exact H]. intros [a|e] d' Hi HQ; [done|]. by split.
Qed.

Lemma frun_bind {A B} (p : fprog A) (f : A -> fprog B) d :
  frun (p ≫= f) d = let '(a, d') := frun p d in frun (f a) d'.
Proof.
  revert d. induction p as [a|c k IH]; intros d; [done|]. cbn [frun].
  change (frun (FCall c k ≫= f) d) with (let '(x, d1) := fexec c d in frun (k x ≫= f) d1).
  destruct (fexec c d). apply IH.
Qed.

Lemma frun_try {E A B} (p : fprog (Result E A)) (k : A -> fprog (Result E B)) d :
  frun (ftry p k) d = let '(r, d') := frun p d in match r with Ok a => frun (k a) d' | Err e => (Err e, d') end.
Proof. unfold ftry. rewrite frun_bind. by destruct (frun p d) as [[a|e] d']. Qed.
