(* ===== verification/StreamState.v ===== *)
(** Checkpoints of a resumable conversion
    (src/crates/parqonaut-stream/src/state.rs).

    A [SystemTime] is its distance from the epoch in nanoseconds.  [serde_json]
    is a parameter that reads back what it wrote ([StateJson]); SHA-256 is the
    one of [Digests]. *)

From Stdlib Require Import SpecFloat.
From S2P Require Import Prelude BTree RepairExec RepairPlan Execute TypeUnify RustNum StreamColumns StreamFs.
Local Open Scope stream_scope.

Definition CHECKPOINT_SCHEMA_VERSION : Z := 1.

Record StreamExecutionIdentity := {
  id_schema_version : Z;
  id_inputs_fingerprint : string;
  id_output_path : string;
  id_output_format : string;
  id_schema_policy : string;
  id_compression : string;
  id_batch_size : Z;
}.

#[global] Instance StreamExecutionIdentity_eq_dec : EqDecision StreamExecutionIdentity.
Proof. solve_decision. Defined.

Record FileState := {
  fs_path : string;
  fs_format : string;
  fs_processed : bool;
  fs_last_offset : option Z;
  fs_last_row_group : option nat;
  fs_bytes_processed : Z;
  fs_rows_processed : Z;
  fs_source_size : Z;
  fs_source_modified : Z;
}.

Record ProcessingState := {
  ps_schema_version : Z;
  ps_identity : StreamExecutionIdentity;
  ps_created_at : Z;
  ps_updated_at : Z;
  ps_files : gmap string FileState;
  ps_total_files : nat;
  ps_processed_files : nat;
  ps_total_bytes : Z;
  ps_processed_bytes : Z;
  ps_committed : bool;
}.

(** * The state *)

Definition state_new (created updated : Z) (identity : StreamExecutionIdentity) : ProcessingState :=
  {| ps_schema_version := CHECKPOINT_SCHEMA_VERSION; ps_identity := identity; ps_created_at := created;
     ps_updated_at := updated; ps_files := ∅; ps_total_files := 0; ps_processed_files := 0; ps_total_bytes := 0;
     ps_processed_bytes := 0; ps_committed := false |}.

Definition add_file (path format : string) (size modified : Z) (st : ProcessingState) : ProcessingState :=
  {| ps_schema_version := ps_schema_version st; ps_identity := ps_identity st; ps_created_at := ps_created_at st;
     ps_updated_at := ps_updated_at st;
     ps_files := <[path := {| fs_path := path; fs_format := format; fs_processed := false; fs_last_offset := None;
                              fs_last_row_group := None; fs_bytes_processed := 0; fs_rows_processed := 0;
                              fs_source_size := size; fs_source_modified := modified |}]> (ps_files st);
     ps_total_files := ps_total_files st + 1; ps_processed_files := ps_processed_files st;
     ps_total_bytes := wrap_u64 (ps_total_bytes st + size); ps_processed_bytes := ps_processed_bytes st;
     ps_committed := ps_committed st |}.

Definition processed_file (bytes rows : Z) (f : FileState) : FileState :=
  {| fs_path := fs_path f; fs_format := fs_format f; fs_processed := true; fs_last_offset := fs_last_offset f;
     fs_last_row_group := fs_last_row_group f; fs_bytes_processed := bytes; fs_rows_processed := rows;
     fs_source_size := fs_source_size f; fs_source_modified := fs_source_modified f |}.

Definition mark_file_processed (path : string) (bytes rows now : Z) (st : ProcessingState) : ProcessingState :=
  match ps_files st !! path with
  | Some f =>
      {| ps_schema_version := ps_schema_version st; ps_identity := ps_identity st; ps_created_at := ps_created_at st;
         ps_updated_at := now; ps_files := <[path := processed_file bytes rows f]> (ps_files st);
         ps_total_files := ps_total_files st; ps_processed_files := ps_processed_files st + 1;
         ps_total_bytes := ps_total_bytes st; ps_processed_bytes := wrap_u64 (ps_processed_bytes st + bytes);
         ps_committed := ps_committed st |}
  | None =>
      {| ps_schema_version := ps_schema_version st; ps_identity := ps_identity st; ps_created_at := ps_created_at st;
         ps_updated_at := now; ps_files := ps_files st; ps_total_files := ps_total_files st;
         ps_processed_files := ps_processed_files st; ps_total_bytes := ps_total_bytes st;
         ps_processed_bytes := ps_processed_bytes st; ps_committed := ps_committed st |}
  end.

Definition file_progress (offset : Z) (row_group : option nat) (f : FileState) : FileState :=
  {| fs_path := fs_path f; fs_format := fs_format f; fs_processed := fs_processed f; fs_last_offset := Some offset;
     fs_last_row_group := row_group; fs_bytes_processed := offset; fs_rows_processed := fs_rows_processed f;
     fs_source_size := fs_source_size f; fs_source_modified := fs_source_modified f |}.

Definition update_file_progress (path : string) (offset : Z) (row_group : option nat) (now : Z) (st : ProcessingState)
    : ProcessingState :=
  {| ps_schema_version := ps_schema_version st; ps_identity := ps_identity st; ps_created_at := ps_created_at st;
     ps_updated_at := now; ps_files := alter (file_progress offset row_group) path (ps_files st);
     ps_total_files := ps_total_files st; ps_processed_files := ps_processed_files st;
     ps_total_bytes := ps_total_bytes st; ps_processed_bytes := ps_processed_bytes st;
     ps_committed := ps_committed st |}.

Definition is_file_processed (st : ProcessingState) (path : string) : bool :=
  default false (fs_processed <$> ps_files st !! path).

Definition get_file_state (st : ProcessingState) (path : string) : option FileState := ps_files st !! path.

Definition get_resume_point (st : ProcessingState) (path : string) : option (Z * option nat) :=
  (fun f => (default 0%Z (fs_last_offset f), fs_last_row_group f)) <$> ps_files st !! path.

Definition is_complete (st : ProcessingState) : bool :=
  bool_decide (ps_processed_files st = ps_total_files st) && bool_decide (0 < ps_total_files st).

Definition get_progress_percentage (st : ProcessingState) : spec_float :=
  if (ps_total_bytes st =? 0)%Z then S754_zero false
  else SFmul prec emax (SFdiv prec emax (i64_to_f64 (ps_processed_bytes st)) (i64_to_f64 (ps_total_bytes st)))
         (i64_to_f64 100).

Definition set_committed (st : ProcessingState) : ProcessingState :=
  {| ps_schema_version := ps_schema_version st; ps_identity := ps_identity st; ps_created_at := ps_created_at st;
     ps_updated_at := ps_updated_at st; ps_files := ps_files st; ps_total_files := ps_total_files st;
     ps_processed_files := ps_processed_files st; ps_total_bytes := ps_total_bytes st;
     ps_processed_bytes := ps_processed_bytes st; ps_committed := true |}.

(** * Sources *)

(** A call whose I/O error becomes the one of the engine. *)
Definition fio {A} (p : fprog (Result string A)) : fprog (Result Fault A) :=
  r ← p; FRet (map_err (fun e => Fails (MIo e)) r).

Definition fret {A} (a : A) : fprog (Result Fault A) := FRet (Ok a).
Definition ffail {A} (e : MawError) : fprog (Result Fault A) := FRet (Err (Fails e)).

Section Fingerprint.
Context `{Digests}.

(** The hashed text: path, length and modification time of each input. *)
Fixpoint fingerprint_bytes (paths : list string) (acc : string) : fprog (Result Fault string) :=
  match paths with
  | [] => fret acc
  | path :: paths =>
      meta <-? fio (fsys (FMetadata path));
      fingerprint_bytes paths (acc +:+ path +:+ le_bytes 8 (fst meta) +:+ le_bytes 16 (Z.max 0 (snd meta)))
  end.

Definition fingerprint_inputs (paths : list string) : fprog (Result Fault string) :=
  bytes <-? fingerprint_bytes (sort_by str_leb paths) EmptyString;
  fret (hex_encode (sha256 bytes)).
End Fingerprint.

Fixpoint verify_files (files : list FileState) : fprog (Result Fault unit) :=
  match files with
  | [] => fret tt
  | file :: files =>
      r ← fsys (FMetadata (fs_path file));
      match r with
      | Err e => ffail (MState ("STALE CHECKPOINT: source missing " +:+ fs_path file +:+ " (" +:+ e +:+ ")"))
      | Ok (len, modified) =>
          if decide (len <> fs_source_size file) then
            ffail (MState ("STALE CHECKPOINT: source size changed for " +:+ fs_path file))
          else if decide (modified <> fs_source_modified file) then
            ffail (MState ("STALE CHECKPOINT: source modified for " +:+ fs_path file))
          else verify_files files
      end
  end.

Definition verify_sources_unchanged (st : ProcessingState) : fprog (Result Fault unit) :=
  verify_files (map snd (map_to_list (ps_files st))).

(** * The checkpoint file *)

Class StateJson := {
  state_to_json : ProcessingState -> Result string string;
  state_of_json : string -> Result string ProcessingState;
  state_json_round_trip : forall st text, state_to_json st = Ok text -> state_of_json text = Ok st;
}.

Record StateManager := { sm_state_path : option string; sm_state : option ProcessingState }.

Definition manager_new (state_path : option string) : StateManager := {| sm_state_path := state_path; sm_state := None |}.

Section Manager.
Context `{StateJson}.

Definition load_state (m : StateManager) : fprog (Result Fault (option ProcessingState * StateManager)) :=
  match sm_state_path m with
  | None => fret (None, m)
  | Some path =>
      there ← fexists path;
      match there with
      | false => fret (None, m)
      | true =>
        content <-? fio (fsys (FRead path));
        match state_of_json content with
        | Err e => ffail (MJson e)
        | Ok state =>
            if decide (ps_schema_version state <> CHECKPOINT_SCHEMA_VERSION) then
              ffail (MState ("unsupported checkpoint schema version " +:+ pretty (ps_schema_version state)))
            else fret (Some state, {| sm_state_path := sm_state_path m; sm_state := Some state |})
        end
      end
  end.

Definition create_parent (path : string) : fprog (Result Fault unit) :=
  match path_parent path with
  | Some parent => fio (fsys (FCreateDirAll parent))
  | None => fret tt
  end.

(** Written under a temporary name and renamed; syncing has no effect on what a
    stopped process leaves behind. *)
Definition save_state (m : StateManager) (state : ProcessingState) : fprog (Result Fault StateManager) :=
  match sm_state_path m with
  | None => fret m
  | Some path =>
      match state_to_json state with
      | Err e => ffail (MJson e)
      | Ok content =>
          create_parent path ?;
          let tmp := with_extension path "json.tmp" in
          fio (fsys (FCreate tmp)) ?;
          fio (fsys (FAppend tmp content)) ?;
          fio (fsys (FRename tmp path)) ?;
          fret {| sm_state_path := sm_state_path m; sm_state := Some state |}
      end
  end.

Definition create_state (m : StateManager) (identity : StreamExecutionIdentity)
    : fprog (ProcessingState * StateManager) :=
  created ← fsys FNow; updated ← fsys FNow;
  let state := state_new created updated identity in
  FRet (state, {| sm_state_path := sm_state_path m; sm_state := Some state |}).

Definition get_state (m : StateManager) : option ProcessingState := sm_state m.

Definition cleanup (m : StateManager) : fprog (Result Fault unit) :=
  match sm_state_path m with
  | None => fret tt
  | Some path =>
      there ← fexists path;
      match there with true => fio (fsys (FRemove path)) | false => fret tt end
  end.
End Manager.
