(* ===== verification/StreamPipeline.v ===== *)
(** The streaming engine: discovery of inputs
    (src/crates/parqonaut-stream/src/discover.rs), options (cli.rs), the schema
    of an input (schema_introspect.rs), Parquet files (parquet_in.rs,
    writer_parquet.rs) and the pipeline with its resumable execution
    (pipeline.rs).

    Parameters: the [walkdir] and [globwalk] crates ([WalkCrates]), the [parquet]
    crate ([ParquetIo]).  A source is read when it is opened.  The texts two
    readers of standard input see are arguments, since the second one continues
    where the first stopped. *)

From Stdlib Require Import Ascii.
From S2P Require Import Prelude BTree RepairExec RepairPlan Inventory ScanInfer ScanEngine Execute Location TypeUnify RustNum.
From S2P Require Import StreamColumns StreamFs StreamState.
Local Open Scope stream_scope.

(** * Inputs (discover.rs) *)

Inductive FileFormat := FCsv | FParquet.
Record InputFile := { in_path : string; in_format : FileFormat; in_size : Z }.
Record DiscoveryConfig := { dc_recursive : bool; dc_follow_symlinks : bool; dc_max_depth : option nat }.

Definition from_extension (path : string) : option FileFormat :=
  match path_extension path with
  | Some ext =>
      if decide (ext = "csv" \/ ext = "tsv") then Some FCsv
      else if decide (ext = "parquet") then Some FParquet
      else None
  | None => None
  end.

(** The entries of a walk, in its order: paths or errors. *)
Class WalkCrates := {
  walk_dir : bool -> option nat -> string -> SDisk -> list (Result string string);
  glob_walk : bool -> string -> SDisk -> Result string (list (Result string string));
}.

Definition is_file (d : SDisk) (p : string) : bool := bool_decide (is_Some (sd_files d !! p)).

Definition file_size (d : SDisk) (p : string) : Z := Z.of_nat (String.length (default EmptyString (text_at d p))).

(** One entry of a walk: a supported regular file, or nothing. *)
Definition entry_file (d : SDisk) (path : string) : option InputFile :=
  if is_file d path then
    format ← from_extension path; Some {| in_path := path; in_format := format; in_size := file_size d path |}
  else None.

Definition entry_files (d : SDisk) (e : string -> MawError) (entries : list (Result string string))
    : Result MawError (list InputFile) :=
  match try_map id entries with
  | Ok paths => Ok (omap (entry_file d) paths)
  | Err text => Err (e text)
  end.

(** [dedup_by]: of neighbours with one path the first stays. *)
Fixpoint dedup_inputs (l : list InputFile) : list InputFile :=
  match l with
  | a :: l' =>
      match dedup_inputs l' with
      | b :: r => if path_eqb (in_path a) (in_path b) then a :: r else a :: b :: r
      | [] => [a]
      end
  | [] => []
  end.

Section Discover.
Context `{WalkCrates}.

Definition discover_directory (dir : string) (config : DiscoveryConfig) (d : SDisk) : Result MawError (list InputFile) :=
  entry_files d MWalkdir (walk_dir (dc_follow_symlinks config) (dc_max_depth config) dir d).

Definition discover_glob (pattern : string) (config : DiscoveryConfig) (d : SDisk) : Result MawError (list InputFile) :=
  entries ← map_err MGlob (glob_walk (dc_follow_symlinks config) pattern d); entry_files d MWalkdir entries.

Definition discover_one (config : DiscoveryConfig) (d : SDisk) (input : string) : Result MawError (list InputFile) :=
  if decide (input = "-") then Ok [{| in_path := "-"; in_format := FCsv; in_size := 0 |}]
  else if is_file d input then Ok (option_list (entry_file d input))
  else if dir_exists d input then discover_directory input config d
  else discover_glob input config d.

Definition discover_inputs (inputs : list string) (config : DiscoveryConfig) (d : SDisk)
    : Result MawError (list InputFile) :=
  found ← try_map (discover_one config d) inputs;
  Ok (dedup_inputs (sort_by (fun a b => path_leb (in_path a) (in_path b)) (concat found))).
End Discover.

(** * Options (cli.rs) *)

Inductive OutputFormat := OCsv | OParquet.
Inductive Compression := CompNone | CompSnappy | CompGzip | CompZstd.

Definition output_format_display (f : OutputFormat) : string := match f with OCsv => "csv" | OParquet => "parquet" end.
Definition compression_display (c : Compression) : string :=
  match c with CompNone => "none" | CompSnappy => "snappy" | CompGzip => "gzip" | CompZstd => "zstd" end.
Definition policy_label (p : SchemaConflictPolicy) : string :=
  match p with Strict => "strict" | Widen => "widen" | Stringify => "stringify" end.
Definition file_format_label (f : FileFormat) : string := match f with FCsv => "csv" | FParquet => "parquet" end.

(** The options the engine looks at; characters are code points. *)
Record Cli := {
  cli_inputs : list string;
  cli_out : option string;
  cli_out_format : option OutputFormat;
  cli_delimiter : option Z;
  cli_quote : option Z;
  cli_no_headers : bool;
  cli_encoding : string;
  cli_na : string;
  cli_columns : option string;
  cli_exclude : option string;
  cli_stringify_conflicts : bool;
  cli_schema_conflicts : string;
  cli_infer_rows : nat;
  cli_compression : Compression;
  cli_zstd_level : Z;
  cli_no_recursive : bool;
  cli_follow_symlinks : bool;
  cli_state : option string;
  cli_resume : bool;
}.

Definition conflict_policy (cli : Cli) : SchemaConflictPolicy :=
  if cli_stringify_conflicts cli then Stringify
  else if decide (cli_schema_conflicts cli = "widen") then Widen
  else if decide (cli_schema_conflicts cli = "stringify") then Stringify
  else Strict.

Definition determine_output_format (cli : Cli) (path : string) : OutputFormat :=
  match cli_out_format cli with
  | Some format => format
  | None =>
      match path_extension path with
      | Some ext => if decide (ext = "parquet") then OParquet else OCsv
      | None => OCsv
      end
  end.

(** [char as u8]. *)
Definition as_u8 (c : Z) : Z := (c mod 256)%Z.

Definition csv_config (cli : Cli) (batch_size : nat) : CsvConfig :=
  {| cc_delimiter := as_u8 <$> cli_delimiter cli; cc_quote := as_u8 <$> cli_quote cli;
     cc_has_headers := negb (cli_no_headers cli); cc_encoding := cli_encoding cli;
     cc_na_values := map trim (split_char "," (cli_na cli)); cc_batch_size := batch_size |}.

Definition column_list (c : string) : list string :=
  filter (fun s => s <> EmptyString) (map trim (split_char "," c)).

Definition aligner_of (cli : Cli) (unified : UnifiedSchema) : BatchAligner :=
  {| ba_unified_schema := unified; ba_column_mapping := ∅; ba_include_columns := column_list <$> cli_columns cli;
     ba_exclude_columns := column_list <$> cli_exclude cli;
     ba_stringify_conflicts := bool_decide (conflict_policy cli = Stringify) |}.

(** * Parquet files *)

Inductive PqCompression := UNCOMPRESSED | SNAPPY | GZIP | ZSTD (level : Z).

Definition compression_from_cli_opts (c : Compression) (zstd_level : Z) : PqCompression :=
  match c with
  | CompNone => UNCOMPRESSED
  | CompSnappy => SNAPPY
  | CompGzip => GZIP
  | CompZstd => ZSTD zstd_level
  end.

(** The [parquet] crate: reading a file in batches of a size, and a writer that
    hands out the bytes it appends to the file; what it makes of a zstd level out
    of range is its own matter. *)
Class ParquetIo := {
  pq_open : string -> nat -> Result string (Schema * list (Result string RecordBatch));
  pq_writer : Type;
  pq_start : Schema -> PqCompression -> Result string (pq_writer * string);
  pq_write : pq_writer -> RecordBatch -> Result string (pq_writer * string);
  pq_close : pq_writer -> Result string string;
}.

(** * Sources *)

Section Sources.
Context `{ArrowCrate} `{CsvCrate} `{ParquetIo}.

Definition read_source (stdin path : string) : fprog (Result Fault string) :=
  if decide (path = "-") then fret stdin else fio (fsys (FRead path)).

(** The column names of an opened source and the batches its reader returns. *)
Definition source_batches (cli : Cli) (batch_size : nat) (format : FileFormat) (content : string)
    : Result Fault (list string * list (Result Fault RecordBatch)) :=
  match format with
  | FCsv =>
      r ← csv_reader_new content (csv_config cli batch_size);
      Ok (cr_headers r, csv_batches (csv_fuel r) r)
  | FParquet =>
      p ← map_err (fun e => Fails (MParquet e)) (pq_open content batch_size);
      Ok (map fd_name (fst p), map (map_err (fun e => Fails (MParquet e))) (snd p))
  end.

Definition schema_for_input (stdin : string) (file : InputFile) : fprog (Result Fault Schema) :=
  match in_format file with
  | FParquet =>
      content <-? fio (fsys (FRead (in_path file)));
      FRet (map_err (fun e => Fails (MParquet e)) (fst <$> pq_open content 1024))
  | FCsv =>
      content <-? read_source stdin (in_path file);
      FRet (r ← csv_reader_new content
                  {| cc_delimiter := cc_delimiter csv_config_default; cc_quote := cc_quote csv_config_default;
                     cc_has_headers := cc_has_headers csv_config_default; cc_encoding := cc_encoding csv_config_default;
                     cc_na_values := cc_na_values csv_config_default; cc_batch_size := 1024 |};
            infer_schema r)
  end.

Fixpoint schemas_for_inputs (stdin : string) (files : list InputFile) : fprog (Result Fault (list Schema)) :=
  match files with
  | [] => fret []
  | f :: files =>
      s <-? schema_for_input stdin f;
      ss <-? schemas_for_inputs stdin files;
      fret (s :: ss)
  end.

(** * One file *)

(** The loop over the batches of a source, into CSV. *)
Fixpoint write_csv_loop (out : string) (al : BatchAligner) (fields : list string)
    (batches : list (Result Fault RecordBatch)) (headers_written : bool) (rows : Z) : fprog (Result Fault Z) :=
  match batches with
  | [] => fret rows
  | Err e :: _ => FRet (Err e)
  | Ok batch :: batches =>
      match align_batch_with_source al batch fields with
      | Err e => FRet (Err e)
      | Ok aligned =>
          match write_batch_text headers_written aligned with
          | Err e => FRet (Err e)
          | Ok text =>
              fio (fsys (FAppend out text)) ?;
              write_csv_loop out al fields batches true (rows + Z.of_nat (rb_num_rows aligned))
          end
      end
  end.

Definition pq_append (out : string) {A} (r : Result string (A * string)) : fprog (Result Fault A) :=
  match r with
  | Err e => ffail (MParquet e)
  | Ok (a, text) => fio (fsys (FAppend out text)) ?; fret a
  end.

(** Into Parquet: the writer is opened with the first batch. *)
Definition pq_writer_for (out : string) (schema : Schema) (c : PqCompression) (writer : option pq_writer)
    : fprog (Result Fault pq_writer) :=
  match writer with
  | Some w => fret w
  | None => fio (fsys (FCreate out)) ?; pq_append out (pq_start schema c)
  end.

Fixpoint write_parquet_loop (out : string) (al : BatchAligner) (c : PqCompression) (fields : list string)
    (batches : list (Result Fault RecordBatch)) (writer : option pq_writer) (rows : Z) : fprog (Result Fault Z) :=
  match batches with
  | [] =>
      match writer with
      | Some w => pq_append out ((fun text => (tt, text)) <$> pq_close w) ?; fret rows
      | None => fret rows
      end
  | Err e :: _ => FRet (Err e)
  | Ok batch :: batches =>
      match align_batch_with_source al batch fields with
      | Err e => FRet (Err e)
      | Ok aligned =>
          w <-? pq_writer_for out (us_schema (ba_unified_schema al)) c writer;
          w <-? pq_append out (pq_write w aligned);
          write_parquet_loop out al c fields batches (Some w) (rows + Z.of_nat (rb_num_rows aligned))
      end
  end.

Definition process_one_file_blocking (stdin : string) (file : InputFile) (out : string) (format : OutputFormat)
    (al : BatchAligner) (cli : Cli) : fprog (Result Fault Z) :=
  content <-? read_source stdin (in_path file);
  match source_batches cli (Nat.max (cli_infer_rows cli) 1) (in_format file) content with
  | Err e => FRet (Err e)
  | Ok (fields, batches) =>
      match format with
      | OCsv => fio (fsys (FCreate out)) ?; write_csv_loop out al fields batches false 0
      | OParquet =>
          write_parquet_loop out al (compression_from_cli_opts (cli_compression cli) (cli_zstd_level cli))
            fields batches None 0
      end
  end.

(** * Assembling the parts *)

(** The text after the first line break. *)
Fixpoint after_newline (s : string) : option string :=
  match s with
  | EmptyString => None
  | String c s => if decide (c = ascii_of_N 10) then Some s else after_newline s
  end.

Fixpoint concat_csv_parts (out : string) (parts : list string) (first : bool) : fprog (Result Fault unit) :=
  match parts with
  | [] => fret tt
  | part :: parts =>
      content <-? fio (fsys (FRead part));
      (if first then fio (fsys (FAppend out content))
       else match after_newline (from_utf8_lossy content) with
            | Some body => fio (fsys (FAppend out body))
            | None => fret tt
            end) ?;
      concat_csv_parts out parts false
  end.

(** One part: its batches into the writer. *)
Fixpoint copy_batches (out : string) (w : pq_writer) (batches : list (Result string RecordBatch))
    : fprog (Result Fault pq_writer) :=
  match batches with
  | [] => fret w
  | Err e :: _ => ffail (MParquet e)
  | Ok b :: batches => w <-? pq_append out (pq_write w b); copy_batches out w batches
  end.

Fixpoint concat_parquet_parts (out : string) (parts : list string) (w : pq_writer) : fprog (Result Fault unit) :=
  match parts with
  | [] => pq_append out ((fun text => (tt, text)) <$> pq_close w)
  | part :: parts =>
      content <-? fio (fsys (FRead part));
      match pq_open content (N.to_nat 64000) with
      | Err e => ffail (MParquet e)
      | Ok (_, batches) =>
          w <-? copy_batches out w batches;
          concat_parquet_parts out parts w
      end
  end.

Definition finalize_staged_parts (staging out : string) (format : OutputFormat) (unified : UnifiedSchema)
    : fprog (Result Fault unit) :=
  entries <-? fio (fsys (FReadDir staging));
  match sort_by path_leb entries with
  | [] => ffail (MInvalidInput "no staged parts to finalize")
  | [part] => fio (fsys (FRename part out))
  | parts =>
      match format with
      | OParquet =>
          fio (fsys (FCreate out)) ?;
          w <-? pq_append out (pq_start (us_schema unified) UNCOMPRESSED);
          concat_parquet_parts out parts w
      | OCsv =>
          fio (fsys (FCreate out)) ?;
          concat_csv_parts out parts true
      end
  end.

(** * Resumable execution *)

Context `{StateJson} `{Digests}.

(** [{idx:05}]. *)
Definition pad5 (n : nat) : string := let d := pretty n in zeros (5 - String.length d) +:+ d.

Definition part_path (staging : string) (format : OutputFormat) (idx : nat) : string :=
  path_join staging ("part-" +:+ pad5 idx +:+ "." +:+ output_format_display format).

Definition identity_of (cli : Cli) (fingerprint output_path : string) (format : OutputFormat) : StreamExecutionIdentity :=
  {| id_schema_version := CHECKPOINT_SCHEMA_VERSION; id_inputs_fingerprint := fingerprint;
     id_output_path := output_path; id_output_format := output_format_display format;
     id_schema_policy := policy_label (conflict_policy cli); id_compression := compression_display (cli_compression cli);
     id_batch_size := Z.of_nat (Nat.max (cli_infer_rows cli) 1) |}.

(** What a run starts from: the loaded checkpoint (or the news that nothing is
    left to do), or a fresh one. *)
Inductive Start := AlreadyDone | StartFrom (st : ProcessingState) (m : StateManager).

Definition resume_state (manager : StateManager) (identity : StreamExecutionIdentity) (output_path : string)
    : fprog (Result Fault Start) :=
  loaded <-? load_state manager;
  match loaded with
  | (None, _) => ffail (MInvalidInput "resume requested but no checkpoint found")
  | (Some st, m) =>
      if decide (ps_identity st <> identity) then
        ffail (MState "STALE CHECKPOINT: execution identity mismatch (output, policy, or inputs changed)")
      else
        verify_sources_unchanged st ?;
        if ps_committed st && is_complete st then
          there ← fexists output_path;
          match there with true => fret AlreadyDone | false => fret (StartFrom st m) end
        else fret (StartFrom st m)
  end.

Fixpoint add_inputs (files : list InputFile) (st : ProcessingState) : fprog (Result Fault ProcessingState) :=
  match files with
  | [] => fret st
  | file :: files =>
      meta <-? fio (fsys (FMetadata (in_path file)));
      add_inputs files (add_file (in_path file) (file_format_label (in_format file)) (fst meta) (snd meta) st)
  end.

Definition remove_staging (staging : string) : fprog unit :=
  there ← fexists staging;
  match there with true => _ ← fsys (FRemoveDirAll staging); FRet tt | false => FRet tt end.

Definition fresh_state (manager : StateManager) (identity : StreamExecutionIdentity) (staging : string)
    (files : list InputFile) : fprog (Result Fault Start) :=
  _ ← remove_staging staging;
  created ← create_state manager identity;
  let '(st, m) := created in
  st <-? add_inputs files st;
  m <-? save_state m st;
  fret (StartFrom st m).

(** The files one after the other, from position [idx] on.  [interrupt_after] is
    the value of PARQONAUT_STREAM_INTERRUPT_AFTER. *)
Fixpoint process_inputs (interrupt_after : option nat) (stdin staging : string) (format : OutputFormat)
    (al : BatchAligner) (cli : Cli) (idx : nat) (files : list InputFile) (st : ProcessingState) (m : StateManager)
    : fprog (Result Fault (ProcessingState * StateManager)) :=
  match files with
  | [] => fret (st, m)
  | file :: files =>
      if is_file_processed st (in_path file) then
        process_inputs interrupt_after stdin staging format al cli (S idx) files st m
      else
        rows <-? process_one_file_blocking stdin file (part_path staging format idx) format al cli;
        now ← fsys FNow;
        let st := mark_file_processed (in_path file) 0 rows now st in
        m <-? save_state m st;
        if decide (interrupt_after = Some idx) then
          ffail (MConfig "execution interrupted (PARQONAUT_STREAM_INTERRUPT_AFTER)")
        else process_inputs interrupt_after stdin staging format al cli (S idx) files st m
  end.

Definition finish_run (staging output_path : string) (format : OutputFormat) (unified : UnifiedSchema)
    (st : ProcessingState) (m : StateManager) : fprog (Result Fault unit) :=
  if is_complete st then
    finalize_staged_parts staging output_path format unified ?;
    save_state m (set_committed st) ?;
    _ ← remove_staging staging; fret tt
  else fret tt.

Definition run_from (interrupt_after : option nat) (stdin output_path : string) (format : OutputFormat)
    (unified : UnifiedSchema) (cli : Cli) (files : list InputFile) (st : ProcessingState) (m : StateManager)
    : fprog (Result Fault unit) :=
  let staging := with_extension output_path "staging" in
  fio (fsys (FCreateDirAll staging)) ?;
  done <-? process_inputs interrupt_after stdin staging format (aligner_of cli unified) cli 0 files st m;
  finish_run staging output_path format unified (fst done) (snd done).

Definition execute_resumable (interrupt_after : option nat) (stdin state_path : string) (files : list InputFile)
    (unified : UnifiedSchema) (output_path : string) (format : OutputFormat) (cli : Cli) : fprog (Result Fault unit) :=
  let manager := manager_new (Some state_path) in
  fingerprint <-? fingerprint_inputs (map in_path files);
  let identity := identity_of cli fingerprint output_path format in
  start <-? (if cli_resume cli then resume_state manager identity output_path
             else fresh_state manager identity (with_extension output_path "staging") files);
  match start with
  | AlreadyDone => fret tt
  | StartFrom st m => run_from interrupt_after stdin output_path format unified cli files st m
  end.

(** * The pipeline up to its two ways of executing *)

Definition unify_inputs (cli : Cli) (stdin : string) (files : list InputFile) : fprog (Result Fault UnifiedSchema) :=
  schemas <-? schemas_for_inputs stdin files;
  FRet (map_err Fails (unified_from_schemas schemas (conflict_policy cli))).

Context `{WalkCrates}.

(** [execute] with a state file, on the disk it finds. *)
Definition execute_with_state (interrupt_after : option nat) (stdin1 stdin2 state_path : string) (cli : Cli) (d : SDisk)
    : Result Fault unit * SDisk :=
  let config := {| dc_recursive := negb (cli_no_recursive cli); dc_follow_symlinks := cli_follow_symlinks cli;
                   dc_max_depth := None |} in
  match discover_inputs (cli_inputs cli) config d with
  | Err e => (Err (Fails e), d)
  | Ok [] => (Err (Fails (MInvalidInput "No input files found")), d)
  | Ok files =>
      frun (unified <-? unify_inputs cli stdin1 files;
            let output_path := default "output" (cli_out cli) in
            execute_resumable interrupt_after stdin2 state_path files unified output_path
              (determine_output_format cli output_path) cli) d
  end.
End Sources.
