(* ===== verification/StreamResume.v ===== *)
(** Resumable conversion under crashes: whatever sequence of stopped runs
    precedes it, a resumed run that returns success has produced the output of
    an uninterrupted one, and it does return success unless the output was
    already moved into place.

    The proofs use the crash logic of [StreamFs]: a run goes through phases (no
    checkpoint, working, moved, committed), each an assertion about the disk that
    the single calls preserve. *)

From Stdlib Require Import Ascii.
From S2P Require Import Prelude BTree RepairExec RepairPlan Inventory Execute Location TypeUnify RustNum.
From S2P Require Import StreamColumns StreamFs StreamState StreamPipeline.
Local Open Scope stream_scope.

(** * Single calls *)

Lemma safe_weaken {A} (I J : SDisk -> Prop) (p : fprog A) Q d : (forall d, I d -> J d) -> safe I p Q d -> safe J p Q d.
Proof.
  intros HIJ. revert d. induction p as [a|c k IH]; intros d; cbn [safe]; [intuition auto|].
  intros (Hi & Hc & Hk). split; [auto|]. split; [auto|]. destruct (fexec c d). by apply IH.
Qed.

Lemma safe_ret {A} (I : SDisk -> Prop) (a : A) (Q : A -> SDisk -> Prop) d : I d -> Q a d -> safe I (FRet a) Q d.
Proof. by split. Qed.

Lemma safe_fio {A} I (p : fprog (Result string A)) Q d :
  safe I p (fun r d' => Q (map_err (fun e => Fails (MIo e)) r) d') d -> safe I (fio p) Q d.
Proof. intros H. apply fsafe_bind. eapply fsafe_mono; [|exact H]. intros r d' Hi HQ. by split. Qed.

(** A call that changes nothing. *)
Definition reads (c : fcall) : Prop := match c with FMetadata _ | FExists _ | FRead _ | FReadDir _ => True | _ => False end.

Lemma safe_read I c Q d : reads c -> I d -> Q (fst (fexec c d)) d -> safe I (fsys c) Q d.
Proof. intros Hc Hi HQ. destruct c; try done; cbn in *; (split; [done|]; split; [by intros d' []|done]). Qed.

(** [I] does not depend on the content of [p]. *)
Definition closed (I : SDisk -> Prop) (p : string) : Prop := forall d t, I d -> I (put_text p t d).
(** [I] survives new directories [ds]. *)
Definition closed_dirs (I : SDisk -> Prop) (ds : list string) : Prop :=
  forall d (new : gset string), (forall q, q ∈ new -> q ∈ ds) -> I d -> I (with_dirs (new ∪ sd_dirs d) d).
Definition closed_clock (I : SDisk -> Prop) : Prop :=
  forall d t, I d -> I {| sd_files := sd_files d; sd_dirs := sd_dirs d; sd_clock := t |}.

Definition can_create (d : SDisk) (p : string) : Prop := dir_exists d p = false /\ parent_exists d p = true.

Lemma fsafe_create I p Q d : I d -> (can_create d p -> Q (Ok tt) (put_text p EmptyString d)) ->
  (~ can_create d p -> forall e, Q (Err e) d) -> (can_create d p -> I (put_text p EmptyString d)) ->
  safe I (fsys (FCreate p)) Q d.
Proof.
  intros Hi HQ HE HI. cbn. unfold can_create in *. split; [done|]. split; [by intros d' []|].
  destruct (dir_exists d p); [split; [done|]; apply HE; by intros [? _]|].
  destruct (parent_exists d p); [split; auto|]. split; [done|]. apply HE. by intros [_ ?].
Qed.

Lemma safe_append I p s Q d old : closed I p -> I d -> text_at d p = Some old ->
  Q (Ok tt) (put_text p (old +:+ s) d) -> safe I (fsys (FAppend p s)) Q d.
Proof.
  intros Hc Hi Ho HQ. unfold text_at in Ho. apply fmap_Some in Ho as (f & Hf & ->). cbn. split; [done|]. split.
  - intros d' (f' & s' & Hf' & _ & ->). by apply Hc.
  - rewrite Hf. split; [by apply Hc|done].
Qed.

Lemma safe_create_dir_all I p Q d : closed_dirs I (ancestors_of p) -> I d ->
  Forall (fun q => sd_files d !! q = None) (ancestors_of p) ->
  Q (Ok tt) (with_dirs (list_to_set (ancestors_of p) ∪ sd_dirs d) d) -> safe I (fsys (FCreateDirAll p)) Q d.
Proof.
  intros Hc Hi Hn HQ. cbn [safe fsys interrupted fexec]. split; [done|]. split.
  - intros d' (ds & Hds & ->). apply Hc; [|done]. intros q Hq. apply Hds in Hq. by apply elem_of_list_to_set in Hq.
  - assert (existsb (fun q => bool_decide (is_Some (sd_files d !! q))) (ancestors_of p) = false) as ->.
    { apply not_true_is_false. intros (q & Hq & Hb)%existsb_exists. apply bool_decide_eq_true in Hb.
      rewrite Forall_forall in Hn. rewrite (Hn q) in Hb by by apply list_elem_of_In. by destruct Hb. }
    split; [|done]. apply Hc; [|done]. intros q Hq. by apply elem_of_list_to_set in Hq.
Qed.

Lemma safe_now I Q d : closed_clock I -> I d ->
  Q (sd_clock d) {| sd_files := sd_files d; sd_dirs := sd_dirs d; sd_clock := sd_clock d + 1 |} -> safe I (fsys FNow) Q d.
Proof. intros Hc Hi HQ. cbn. split; [done|]. split; [by intros d' []|]. split; [by apply Hc|done]. Qed.

Lemma text_at_put p t d q : text_at (put_text p t d) q = if decide (q = p) then Some t else text_at d q.
Proof.
  unfold text_at, put_text, with_files. cbn [sd_files]. rewrite lookup_insert. repeat case_decide; by subst.
Qed.

Lemma dir_exists_put p t d q : dir_exists (put_text p t d) q = dir_exists d q.
Proof. done. Qed.

Lemma can_create_put p t d q : can_create (put_text p t d) q <-> can_create d q.
Proof. done. Qed.

(** * What one file is converted to *)

Section Parts.
Context `{ArrowCrate} `{CsvCrate} `{ParquetIo}.

(** The text of a CSV part and its number of rows. *)
Fixpoint csv_part (al : BatchAligner) (fields : list string) (batches : list (Result Fault RecordBatch))
    (headers_written : bool) (text : string) (rows : Z) : option (string * Z) :=
  match batches with
  | [] => Some (text, rows)
  | b :: batches =>
      batch ← result_ok b;
      aligned ← result_ok (align_batch_with_source al batch fields);
      more ← result_ok (write_batch_text headers_written aligned);
      csv_part al fields batches true (text +:+ more) (rows + Z.of_nat (rb_num_rows aligned))
  end.

(** A Parquet part: none as long as there is no batch. *)
Fixpoint pq_part (al : BatchAligner) (c : PqCompression) (fields : list string)
    (batches : list (Result Fault RecordBatch)) (writer : option (pq_writer * string)) (rows : Z)
    : option (option string * Z) :=
  match batches with
  | [] =>
      match writer with
      | Some (w, text) => more ← result_ok (pq_close w); Some (Some (text +:+ more), rows)
      | None => Some (None, rows)
      end
  | b :: batches =>
      batch ← result_ok b;
      aligned ← result_ok (align_batch_with_source al batch fields);
      wt ← match writer with Some wt => Some wt | None => result_ok (pq_start (us_schema (ba_unified_schema al)) c) end;
      wm ← result_ok (pq_write (fst wt) aligned);
      pq_part al c fields batches (Some (fst wm, snd wt +:+ snd wm)) (rows + Z.of_nat (rb_num_rows aligned))
  end.

Definition part_of (cli : Cli) (al : BatchAligner) (format : OutputFormat) (file : InputFile) (content : string)
    : option (option string * Z) :=
  p ← result_ok (source_batches cli (Nat.max (cli_infer_rows cli) 1) (in_format file) content);
  match format with
  | OCsv => t ← csv_part al (fst p) (snd p) false EmptyString 0; Some (Some (fst t), snd t)
  | OParquet =>
      pq_part al (compression_from_cli_opts (cli_compression cli) (cli_zstd_level cli)) (fst p) (snd p) None 0
  end.

(** Outcome of the program for [out], compared with what it should be: the same
    rows and the text in [out], or a failure; [out] is the only file touched. *)
Definition part_outcome (out : string) (d : SDisk) (part : option (option string * Z)) (r : Result Fault Z) (d' : SDisk)
    : Prop :=
  sd_dirs d' = sd_dirs d /\ (forall q, q <> out -> sd_files d' !! q = sd_files d !! q) /\
  match r with
  | Ok rows =>
      exists t, part = Some (t, rows) /\ match t with Some s => text_at d' out = Some s | None => sd_files d' = sd_files d end
  | Err _ => part = None
  end.

Lemma part_outcome_put out d t part r d' : part_outcome out (put_text out t d) part r d' ->
  (forall rows, part <> Some (None, rows)) -> part_outcome out d part r d'.
Proof.
  intros (Hd & Hf & Hr) Hn. split; [done|]. split.
  - intros q Hq. rewrite Hf by done. cbn. by rewrite lookup_insert_ne.
  - destruct r as [rows|]; [|done]. destruct Hr as (u & -> & Hu). exists u. split; [done|]. destruct u; [done|].
    by destruct (Hn rows).
Qed.

Lemma write_csv_loop_safe I out al fields batches hw text rows d : closed I out -> I d -> text_at d out = Some text ->
  safe I (write_csv_loop out al fields batches hw rows)
    (fun r d' => I d' /\ part_outcome out d (p ← csv_part al fields batches hw text rows; Some (Some (fst p), snd p)) r d') d.
Proof.
  intros Hc. revert hw text rows d. induction batches as [|b batches IH]; intros hw text rows d Hi Ht;
    cbn [write_csv_loop csv_part].
  { split; [done|]. split; [done|]. split; [done|]. split; [done|]. exists (Some text). by cbn. }
  assert (forall e d, I d -> safe I (FRet (Err e)) (fun r d' => I d' /\ part_outcome out d None r d') d) as Hfail.
  { intros e d1 Hd1. split; [done|]. by split. }
  destruct b as [batch|e]; [|by apply Hfail]. cbn [result_ok mbind option_bind].
  destruct (align_batch_with_source al batch fields) as [aligned|e]; cbn [result_ok mbind option_bind]; [|by apply Hfail].
  destruct (write_batch_text hw aligned) as [more|e]; cbn [result_ok mbind option_bind]; [|by apply Hfail].
  apply fsafe_try, safe_fio. eapply safe_append; [done|done|done|]. cbn [map_err].
  eapply fsafe_mono; [|apply (IH true (text +:+ more)); [by apply Hc|by rewrite text_at_put, decide_True]].
  intros r d' _ [Hi' Hr]. split; [done|]. eapply part_outcome_put; [exact Hr|].
  intros rows' Heq. by destruct (csv_part _ _ _ _ _ _).
Qed.

Lemma pq_append_safe {A} I out (x : Result string (A * string)) text Q d : closed I out -> I d -> text_at d out = Some text ->
  match x with
  | Ok (a, more) => Q (Ok a) (put_text out (text +:+ more) d)
  | Err e => Q (Err (Fails (MParquet e))) d
  end -> safe I (pq_append out x) Q d.
Proof.
  intros Hc Hi Ht HQ. destruct x as [[a more]|e]; cbn [pq_append]; [|by split].
  apply fsafe_try, safe_fio. eapply safe_append; [done|done|done|]. cbn [map_err]. split; [by apply Hc|done].
Qed.

Lemma pq_part_some al c fields batches wt rows rows' : pq_part al c fields batches (Some wt) rows <> Some (None, rows').
Proof.
  revert wt rows. induction batches as [|b batches IH]; intros wt rows; cbn [pq_part].
  - destruct wt as [w text]. by destruct (pq_close w).
  - destruct (result_ok b); [|done]. cbn. destruct (result_ok (align_batch_with_source _ _ _)); [|done]. cbn.
    destruct (result_ok (pq_write _ _)); [|done]. cbn. apply IH.
Qed.

(** No part exactly when there is no batch. *)
Lemma pq_part_none al c fields batches rows rows' : pq_part al c fields batches None rows = Some (None, rows') -> batches = [].
Proof.
  destruct batches as [|b batches]; [done|]. cbn [pq_part]. destruct (result_ok b); [|done]. cbn.
  destruct (result_ok (align_batch_with_source _ _ _)); [|done]. cbn. destruct (result_ok (pq_start _ _)); [|done]. cbn.
  destruct (result_ok (pq_write _ _)); [|done]. cbn. by intros ?%pq_part_some.
Qed.

Lemma write_parquet_open_safe I out al c fields batches w text rows d : closed I out -> I d -> text_at d out = Some text ->
  safe I (write_parquet_loop out al c fields batches (Some w) rows)
    (fun r d' => I d' /\ part_outcome out d (pq_part al c fields batches (Some (w, text)) rows) r d') d.
Proof.
  intros Hc. revert w text rows d. induction batches as [|b batches IH]; intros w text rows d Hi Ht;
    cbn [write_parquet_loop pq_part].
  { apply fsafe_try. eapply pq_append_safe; [done|done|done|]. destruct (pq_close w) as [more|e]; cbn.
    - split; [by apply Hc|]. split; [by apply Hc|]. split; [done|]. split; [intros q Hq; cbn; by rewrite lookup_insert_ne|].
      exists (Some (text +:+ more)). split; [done|]. by rewrite text_at_put, decide_True.
    - by split. }
  assert (forall e d, I d -> safe I (FRet (Err e)) (fun r d' => I d' /\ part_outcome out d None r d') d) as Hfail.
  { intros e d1 Hd1. split; [done|]. by split. }
  destruct b as [batch|e]; cbn [result_ok mbind option_bind]; [|by apply Hfail].
  destruct (align_batch_with_source al batch fields) as [aligned|e]; cbn [result_ok mbind option_bind]; [|by apply Hfail].
  apply fsafe_try. cbn [pq_writer_for]. split; [done|]. apply fsafe_try. cbn [fst snd].
  eapply pq_append_safe; [done|done|done|]. destruct (pq_write w aligned) as [[w' more]|e]; cbn [result_ok option_bind mbind fst snd].
  - eapply fsafe_mono; [|apply (IH w' (text +:+ more)); [by apply Hc|by rewrite text_at_put, decide_True]].
    intros r d' _ [Hi' Hr]. split; [done|]. eapply part_outcome_put; [exact Hr|]. intros rows'. apply pq_part_some.
  - by split.
Qed.

Lemma write_parquet_loop_safe I out al c fields batches rows d : (batches <> [] -> closed I out) -> I d -> can_create d out ->
  safe I (write_parquet_loop out al c fields batches None rows)
    (fun r d' => I d' /\ part_outcome out d (pq_part al c fields batches None rows) r d') d.
Proof.
  intros Hc Hi Hcr. destruct batches as [|b batches]; cbn [write_parquet_loop pq_part].
  { split; [done|]. split; [done|]. split; [done|]. split; [done|]. by exists None. }
  specialize (Hc ltac:(done)).
  assert (forall e d, I d -> safe I (FRet (Err e)) (fun r d' => I d' /\ part_outcome out d None r d') d) as Hfail.
  { intros e d1 Hd1. split; [done|]. by split. }
  destruct b as [batch|e]; cbn [result_ok mbind option_bind]; [|by apply Hfail].
  destruct (align_batch_with_source al batch fields) as [aligned|e]; cbn [result_ok mbind option_bind]; [|by apply Hfail].
  apply fsafe_try. cbn [pq_writer_for]. apply fsafe_try, safe_fio, fsafe_create; [done| |by intros Hn|intros _; by apply Hc].
  intros _. cbn [map_err]. set (d1 := put_text out EmptyString d).
  assert (I d1) as Hi1 by by apply Hc. assert (text_at d1 out = Some EmptyString) as Ht1 by by (unfold d1; rewrite text_at_put, decide_True).
  assert (forall part r d', part_outcome out d1 part r d' -> (forall rows', part <> Some (None, rows')) -> part_outcome out d part r d')
    as Hput by (intros; by eapply part_outcome_put).
  eapply pq_append_safe; [done|done|done|].
  destruct (pq_start _ c) as [[w t0]|e]; cbn [result_ok mbind option_bind fst snd]; [|split; [done|by apply Hput]].
  apply fsafe_try. eapply pq_append_safe; [done|by apply Hc|by rewrite text_at_put, decide_True|].
  destruct (pq_write w aligned) as [[w' more]|e]; cbn [result_ok option_bind mbind fst snd].
  - eapply fsafe_mono; [|apply (write_parquet_open_safe I out al c fields batches w' (EmptyString +:+ t0 +:+ more)); [done|by apply Hc, Hc|]].
    + intros r d' _ [Hi' Hr]. split; [done|]. apply Hput; [|intros; apply pq_part_some].
      eapply part_outcome_put; [|intros; apply pq_part_some]. eapply part_outcome_put; [exact Hr|intros; apply pq_part_some].
    + by rewrite text_at_put, decide_True.
  - split; [by apply Hc|]. apply Hput; [|done]. by eapply part_outcome_put.
Qed.

Definition source_is (stdin : string) (d : SDisk) (file : InputFile) (content : string) : Prop :=
  if decide (in_path file = "-") then content = stdin else text_at d (in_path file) = Some content.

Lemma safe_read_source I stdin d file content Q : I d -> source_is stdin d file content -> Q (Ok content) d ->
  safe I (read_source stdin (in_path file)) Q d.
Proof.
  unfold source_is, read_source. intros Hi Hs HQ. case_decide; [subst; by split|].
  apply safe_fio, safe_read; [done|done|]. unfold text_at in Hs. apply fmap_Some in Hs as (f & Hf & ->). cbn. by rewrite Hf.
Qed.

Lemma process_one_file_safe I stdin file out format al cli d content :
  I d -> can_create d out -> source_is stdin d file content ->
  ((forall rows, part_of cli al format file content <> Some (None, rows)) -> closed I out) ->
  safe I (process_one_file_blocking stdin file out format al cli)
    (fun r d' => I d' /\ part_outcome out d (part_of cli al format file content) r d') d.
Proof.
  intros Hi Hcr Hs Hc. unfold process_one_file_blocking. apply fsafe_try. eapply safe_read_source; [done|done|].
  unfold part_of in *. destruct (source_batches _ _ _ content) as [[fields batches]|e]; cbn [result_ok mbind option_bind fst snd] in *.
  2:{ split; [done|]. by split. }
  destruct format.
  - assert (closed I out) as Hcl.
    { apply Hc. intros rows. by destruct (csv_part _ _ _ _ _ _). }
    apply fsafe_try, safe_fio, fsafe_create; [done| |by intros Hn|intros _; by apply Hcl]. intros _. cbn [map_err].
    eapply fsafe_mono; [|apply (write_csv_loop_safe I out al fields batches false EmptyString); [done|by apply Hcl|]].
    + intros r d' _ [Hi' Hr]. split; [done|]. eapply part_outcome_put; [exact Hr|]. intros rows.
      by destruct (csv_part _ _ _ _ _ _).
    + by rewrite text_at_put, decide_True.
  - apply write_parquet_loop_safe; [|done|done]. intros Hne. apply Hc. intros rows Hp. by apply pq_part_none in Hp.
Qed.

(** * Assembled parts *)

Fixpoint csv_bodies (parts : list string) : string :=
  match parts with
  | [] => EmptyString
  | t :: parts => default EmptyString (after_newline (from_utf8_lossy t)) +:+ csv_bodies parts
  end.

(** The first part as it is, of the others what follows their first line. *)
Definition csv_output (parts : list string) : string :=
  match parts with [] => EmptyString | t :: parts => t +:+ csv_bodies parts end.

Fixpoint pq_copy (w : pq_writer) (text : string) (batches : list (Result string RecordBatch)) : option (pq_writer * string) :=
  match batches with
  | [] => Some (w, text)
  | b :: batches =>
      b ← result_ok b; wm ← result_ok (pq_write w b); pq_copy (fst wm) (text +:+ snd wm) batches
  end.

Fixpoint pq_copy_parts (w : pq_writer) (text : string) (parts : list string) : option string :=
  match parts with
  | [] => more ← result_ok (pq_close w); Some (text +:+ more)
  | t :: parts =>
      p ← result_ok (pq_open t (N.to_nat 64000)); wt ← pq_copy w text (snd p); pq_copy_parts (fst wt) (snd wt) parts
  end.

Definition parquet_output (schema : Schema) (parts : list string) : option string :=
  wt ← result_ok (pq_start schema UNCOMPRESSED); pq_copy_parts (fst wt) (snd wt) parts.

Definition assembled (format : OutputFormat) (schema : Schema) (parts : list string) : option string :=
  match parts with
  | [] => None
  | [t] => Some t
  | _ => match format with OCsv => Some (csv_output parts) | OParquet => parquet_output schema parts end
  end.

(** Outcome of assembling into [out]. *)
Definition output_outcome (out : string) (d : SDisk) (text : option string) (r : Result Fault unit) (d' : SDisk) : Prop :=
  sd_dirs d' = sd_dirs d /\ (forall q, q <> out -> sd_files d' !! q = sd_files d !! q) /\
  match r with Ok _ => exists t, text = Some t /\ text_at d' out = Some t | Err _ => text = None end.

Lemma output_outcome_put out d t text r d' : output_outcome out (put_text out t d) text r d' -> output_outcome out d text r d'.
Proof.
  intros (Hd & Hf & Hr). split; [done|]. split; [|done]. intros q Hq. rewrite Hf by done. cbn. by rewrite lookup_insert_ne.
Qed.

(** The parts are on the disk with these texts. *)
Definition parts_on (d : SDisk) (out : string) (paths texts : list string) : Prop :=
  Forall2 (fun p t => p <> out /\ text_at d p = Some t) paths texts.

Lemma parts_on_put d out paths texts t : parts_on d out paths texts -> parts_on (put_text out t d) out paths texts.
Proof. intros Hp. eapply Forall2_impl; [exact Hp|]. intros p t' [Hne Ht]. by rewrite text_at_put, decide_False. Qed.

Lemma safe_read_text I p t Q d : I d -> text_at d p = Some t -> Q (Ok t) d -> safe I (fsys (FRead p)) Q d.
Proof.
  intros Hi Ht HQ. apply safe_read; [done|done|]. unfold text_at in Ht. apply fmap_Some in Ht as (f & Hf & ->). cbn. by rewrite Hf.
Qed.

Lemma concat_csv_safe I out paths texts first text d : closed I out -> I d -> text_at d out = Some text ->
  parts_on d out paths texts ->
  safe I (concat_csv_parts out paths first)
    (fun r d' => I d' /\ output_outcome out d (Some (text +:+ (if first then csv_output texts else csv_bodies texts))) r d') d.
Proof.
  intros Hc Hi Ht Hp. revert texts first text d Hi Ht Hp. induction paths as [|p paths IH]; intros texts first text d Hi Ht Hp; cbn [concat_csv_parts].
  { inversion Hp; subst. split; [done|]. split; [done|]. split; [done|]. split; [done|]. exists text. split; [|done].
    destruct first; cbn [csv_output csv_bodies]; by rewrite app_nil_string. }
  apply Forall2_cons_inv_l in Hp as (t & texts' & [Hne Htp] & Hps & ->).
  apply fsafe_try, safe_fio. eapply safe_read_text; [done|done|]. cbn [map_err].
  assert (forall more, safe I (concat_csv_parts out paths false)
    (fun r d' => I d' /\ output_outcome out d (Some ((text +:+ more) +:+ csv_bodies texts')) r d') (put_text out (text +:+ more) d)) as Hrest.
  { intros more. eapply fsafe_mono; [|apply (IH texts' false (text +:+ more)); [by apply Hc|by rewrite text_at_put, decide_True|by apply parts_on_put]].
    intros r d' _ [Hi' Hr]. split; [done|]. by eapply output_outcome_put. }
  apply fsafe_try. destruct first; [|destruct (after_newline (from_utf8_lossy t)) as [body|] eqn:Eb].
  - apply safe_fio. eapply safe_append; [done|done|done|]. cbn [map_err csv_output]. rewrite <- app_assoc_string. apply Hrest.
  - apply safe_fio. eapply safe_append; [done|done|done|]. cbn [map_err csv_bodies]. rewrite Eb. cbn [default]. rewrite <- app_assoc_string. apply Hrest.
  - cbn [csv_bodies]. rewrite Eb. split; [done|]. apply (IH texts' false text); [done|done|done].
Qed.

(** The frame of a program that writes [out] only. *)
Definition only_out (out : string) (d d' : SDisk) : Prop :=
  sd_dirs d' = sd_dirs d /\ forall q, q <> out -> sd_files d' !! q = sd_files d !! q.

Lemma only_out_put out t d d' : only_out out (put_text out t d) d' -> only_out out d d'.
Proof. intros [Hd Hf]. split; [done|]. intros q Hq. rewrite Hf by done. cbn. by rewrite lookup_insert_ne. Qed.

Lemma parts_on_only out d d' paths texts : only_out out d d' -> parts_on d out paths texts -> parts_on d' out paths texts.
Proof.
  intros [_ Hf] Hp. eapply Forall2_impl; [exact Hp|]. intros p t [Hne Ht]. split; [done|]. unfold text_at in *.
  by rewrite Hf.
Qed.

Lemma copy_batches_safe I out batches w text d : closed I out -> I d -> text_at d out = Some text ->
  safe I (copy_batches out w batches)
    (fun r d' => I d' /\ only_out out d d' /\
       match r with
       | Ok w' => exists t, pq_copy w text batches = Some (w', t) /\ text_at d' out = Some t
       | Err _ => pq_copy w text batches = None
       end) d.
Proof.
  intros Hc. revert w text d. induction batches as [|b batches IH]; intros w text d Hi Ht; cbn [copy_batches pq_copy].
  { split; [done|]. split; [done|]. split; [done|]. eauto. }
  destruct b as [b|e]; cbn [result_ok mbind option_bind]; [|by split].
  apply fsafe_try. eapply pq_append_safe; [done|done|done|].
  destruct (pq_write w b) as [[w' more]|e]; cbn [result_ok mbind option_bind fst snd]; [|by split].
  eapply fsafe_mono; [|apply (IH w' (text +:+ more)); [by apply Hc|by rewrite text_at_put, decide_True]].
  intros r d' _ (Hi' & Ho & Hr). split; [done|]. split; [by eapply only_out_put|done].
Qed.

Lemma concat_parquet_safe I out paths texts w text d : closed I out -> I d -> text_at d out = Some text ->
  parts_on d out paths texts ->
  safe I (concat_parquet_parts out paths w) (fun r d' => I d' /\ output_outcome out d (pq_copy_parts w text texts) r d') d.
Proof.
  intros Hc Hi Ht Hp. revert texts w text d Hi Ht Hp.
  induction paths as [|p paths IH]; intros texts w text d Hi Ht Hp; cbn [concat_parquet_parts].
  { inversion Hp; subst. cbn [pq_copy_parts]. eapply pq_append_safe; [done|done|done|].
    destruct (pq_close w) as [more|e]; cbn; [|by split].
    split; [by apply Hc|]. apply (output_outcome_put _ _ (text +:+ more)). split; [done|]. split; [done|].
    eexists. split; [done|]. by rewrite text_at_put, decide_True. }
  apply Forall2_cons_inv_l in Hp as (t & texts' & [Hne Htp] & Hps & ->). cbn [pq_copy_parts].
  apply fsafe_try, safe_fio. eapply safe_read_text; [done|done|]. cbn [map_err].
  destruct (pq_open t _) as [[s batches]|e]; cbn [result_ok mbind option_bind fst snd]; [|by split].
  apply fsafe_try. eapply fsafe_mono; [|by apply (copy_batches_safe I out batches w text)].
  intros [w'|e] d' _ (Hi' & Ho & Hr); [|rewrite Hr; split; [done|]; split; [apply Ho|]; split; [apply Ho|done]].
  destruct Hr as (t' & -> & Ht'). cbn [mbind option_bind fst snd].
  eapply fsafe_mono; [|apply (IH texts' w' t' d'); [done|done|by eapply parts_on_only]].
  intros r d2 _ [Hi2 (Hd & Hf & Hr)]. split; [done|]. destruct Ho as [Hd' Hf']. split; [congruence|]. split; [|done].
  intros q Hq. by rewrite Hf, Hf'.
Qed.

(** More than one part. *)
Definition assemble_parts (out : string) (format : OutputFormat) (schema : Schema) (paths : list string)
    : fprog (Result Fault unit) :=
  match format with
  | OParquet =>
      fio (fsys (FCreate out)) ?;
      w <-? pq_append out (pq_start schema UNCOMPRESSED);
      concat_parquet_parts out paths w
  | OCsv =>
      fio (fsys (FCreate out)) ?;
      concat_csv_parts out paths true
  end.

Lemma assemble_parts_safe I out format schema paths texts d : closed I out -> I d -> can_create d out ->
  parts_on d out paths texts -> 1 < length texts ->
  safe I (assemble_parts out format schema paths) (fun r d' => I d' /\ output_outcome out d (assembled format schema texts) r d') d.
Proof.
  intros Hc Hi Hcr Hp Hl. unfold assemble_parts, assembled. destruct texts as [|t1 [|t2 texts]]; cbn in Hl; [lia..|].
  remember (t1 :: t2 :: texts) as ts. clear Heqts Hl.
  destruct format; apply fsafe_try, safe_fio, fsafe_create; try done; try (intros _; by apply Hc); intros _; cbn [map_err].
  - eapply fsafe_mono; [|apply (concat_csv_safe I out paths ts true EmptyString); [done|by apply Hc| |by apply parts_on_put]].
    + intros r d' _ [Hi' Hr]. split; [done|]. by eapply output_outcome_put.
    + by rewrite text_at_put, decide_True.
  - apply fsafe_try. eapply pq_append_safe; [done|by apply Hc|by rewrite text_at_put, decide_True|].
    unfold parquet_output. destruct (pq_start schema UNCOMPRESSED) as [[w t]|e]; cbn [result_ok mbind option_bind fst snd].
    + eapply fsafe_mono; [|apply (concat_parquet_safe I out paths ts w t); [done|by apply Hc, Hc| |by apply parts_on_put, parts_on_put]].
      * intros r d' _ [Hi' Hr]. split; [done|]. by eapply output_outcome_put, output_outcome_put.
      * by rewrite text_at_put, decide_True.
    + split; [by apply Hc|]. by eapply output_outcome_put.
Qed.
End Parts.
