(* ===== verification/StreamPhases.v ===== *)
(** The phases of a resumable conversion: what the disk holds before the first
    checkpoint, while files are converted, after a single part was moved into
    place, and after the commit; and that the calls of a run lead from phase to
    phase. *)

From Stdlib Require Import Ascii.
From S2P Require Import Prelude BTree RepairExec RepairPlan Inventory Execute Location TypeUnify RustNum StreamColumns.
From S2P Require Import StreamFs StreamState StreamPipeline StreamResume.

Local Open Scope stream_scope.

Lemma sort_by_done {A} (leb : A -> A -> bool) l : StronglySorted (fun a b => leb a b = true) l -> sort_by leb l = l.
Proof.
  induction 1 as [|a l _ IH Ha]; [done|]. cbn. fold (sort_by leb l). rewrite IH. destruct l as [|b l]; [done|]. cbn.
  apply Forall_cons in Ha as [-> _]. done.
Qed.

Lemma filter_agree {A} (P Q : A -> Prop) `{forall x, Decision (P x)} `{forall x, Decision (Q x)} (l : list A) :
  (forall x, x ∈ l -> P x <-> Q x) -> filter P l = filter Q l.
Proof.
  induction l as [|x l IH]; intros Hx; [done|]. rewrite !filter_cons.
  rewrite IH by (intros y Hy; apply Hx; by right). assert (P x <-> Q x) as Hpq by (apply Hx; by left).
  destruct (decide (P x)), (decide (Q x)); tauto.
Qed.

Lemma below_parent dir p : path_parent p = Some dir -> below dir p = true.
Proof.
  intros Hp. unfold below, ancestors_of. destruct p as [|c p]; [by vm_compute in Hp|]. cbn [String.length ancestors tail].
  rewrite Hp. apply bool_decide_eq_true. set_solver.
Qed.

Section Phases.
Context `{ArrowCrate} `{CsvCrate} `{ParquetIo} `{StateJson} `{Digests}.
Context (stdin state_path output : string) (files : list InputFile) (unified : UnifiedSchema) (format : OutputFormat).
Context (cli : Cli) (d0 : SDisk).

Definition staging : string := with_extension output "staging".
Definition tmp : string := with_extension state_path "json.tmp".
Definition part (i : nat) : string := part_path staging format i.
Definition al : BatchAligner := aligner_of cli unified.
Definition state_dir : string := default EmptyString (path_parent state_path).

(** The files a run writes, and the ones it reads. *)
Definition managed : list string := state_path :: tmp :: output :: map part (seq 0 (length files)).
Definition names : list string := managed ++ map in_path files.

(** The paths do not get in each other's way, and part names sort by number. *)
Record layout : Prop := {
  ly_names : NoDup names;
  ly_parts : Forall (fun p => path_parent p = Some staging) (map part (seq 0 (length files)));
  ly_sorted : StronglySorted (fun p q => path_leb p q = true) (map part (seq 0 (length files)));
  ly_components : NoDup (map components (map part (seq 0 (length files))));
  ly_outside : Forall (fun p => below staging p = false) (state_path :: tmp :: output :: map in_path files);
  ly_plain : Forall (fun p => p ∉ ancestors_of staging ++ ancestors_of state_dir) names;
  ly_state_dir : path_parent state_path = Some state_dir /\ path_parent tmp = Some state_dir;
  ly_output_dir : exists dir, path_parent output = Some dir /\ dir <> staging /\ below staging dir = false;
  ly_inputs : files <> [];
  ly_staging : staging ∉ [EmptyString; "/"; "."];
}.

(** The disk before the first run: the sources are there, nothing is in the way
    and there is no checkpoint. *)
Record disk_ok : Prop := {
  dk_sources : Forall (fun f => in_path f <> "-" /\ is_Some (sd_files d0 !! in_path f)) files;
  dk_dirs : Forall (fun p => dir_exists d0 p = false) names;
  dk_output : parent_exists d0 output = true;
  dk_ancestors : Forall (fun q => sd_files d0 !! q = None) (ancestors_of staging ++ ancestors_of state_dir);
  dk_staging : staging ∈ sd_dirs d0 \/ files_in d0 staging = [];
  dk_fresh : text_at d0 state_path = None;
}.

Context (LY : layout) (DK : disk_ok).

(** ** What never changes *)

Record base (d : SDisk) : Prop := {
  b_sources : Forall (fun f => sd_files d !! in_path f = sd_files d0 !! in_path f) files;
  b_dirs : Forall (fun p => dir_exists d p = false) names;
  b_output : parent_exists d output = true;
  b_ancestors : Forall (fun q => sd_files d !! q = None) (ancestors_of staging ++ ancestors_of state_dir);
}.

Lemma base_initial : base d0.
Proof. destruct DK. split; [|done..]. by apply Forall_true. Qed.

Lemma managed_not_source p f : p ∈ managed -> f ∈ files -> in_path f <> p.
Proof.
  intros Hp Hf <-. pose proof (ly_names LY) as Hn. unfold names in Hn. apply NoDup_app in Hn as (_ & Hn & _).
  apply (Hn _ Hp). apply list_elem_of_fmap. eauto.
Qed.

Lemma managed_not_ancestor p q : p ∈ managed -> q ∈ ancestors_of staging ++ ancestors_of state_dir -> q <> p.
Proof.
  intros Hp Hq ->. pose proof (ly_plain LY) as Hn. rewrite Forall_forall in Hn. apply (Hn p); [|done].
  unfold names. set_solver.
Qed.

(** Changes of managed files keep the rest. *)
Lemma base_frame d d' : base d -> sd_dirs d' = sd_dirs d ->
  (forall q, q ∉ managed -> sd_files d' !! q = sd_files d !! q) -> base d'.
Proof.
  intros [Hs Hd Ho Ha] Hdirs Hf. assert (forall p, dir_exists d' p = dir_exists d p) as Hde.
  { intros p. unfold dir_exists. by rewrite Hdirs. }
  split.
  - rewrite Forall_forall in Hs |- *. intros f Hin. rewrite <- (Hs f Hin). apply Hf. intros Hm.
    by apply (managed_not_source _ _ Hm Hin).
  - eapply Forall_impl; [exact Hd|]. intros p Hp. by rewrite Hde.
  - unfold parent_exists in *. destruct (path_parent output); [|done]. by rewrite Hde.
  - rewrite Forall_forall in Ha |- *. intros q Hq. rewrite Hf; [by apply Ha|]. intros Hm.
    by apply (managed_not_ancestor _ _ Hm Hq).
Qed.

Lemma base_put p : p ∈ managed -> closed base p.
Proof.
  intros Hp d t Hb. apply (base_frame d); [done|done|]. intros q Hq. cbn. rewrite lookup_insert_ne; [done|]. by intros ->.
Qed.

Lemma base_clock : closed_clock base.
Proof. intros d t Hb. by apply (base_frame d). Qed.

Lemma base_dirs ds : (forall q, q ∈ ds -> q ∈ ancestors_of staging ++ ancestors_of state_dir) -> closed_dirs base ds.
Proof.
  intros Hds d new Hnew [Hs Hd Ho Ha]. split; [done| | |done].
  - rewrite Forall_forall in Hd |- *. intros p Hp. specialize (Hd p Hp). pose proof (ly_plain LY) as Hn.
    rewrite Forall_forall in Hn. specialize (Hn p Hp). unfold dir_exists in *. cbn.
    destruct (bool_decide (p = "")), (bool_decide (p = "/")), (bool_decide (p = ".")); try done. cbn in *.
    apply bool_decide_eq_false. apply bool_decide_eq_false in Hd. set_solver.
  - unfold parent_exists in *. destruct (path_parent output); [|done]. unfold dir_exists in *. cbn.
    rewrite !orb_true_iff, !bool_decide_eq_true in *. set_solver.
Qed.

(** ** Checkpoints *)

(** The part a file is converted to, from the sources as they were. *)
Definition expected (f : InputFile) : option (option string * Z) :=
  content ← text_at d0 (in_path f); part_of cli al format f content.

(** The output of a conversion that is not interrupted. *)
Definition final_output : option string :=
  ps ← mapM expected files; assembled format (us_schema unified) (omap fst ps).

Fixpoint source_bytes (paths : list string) (acc : string) : string :=
  match paths with
  | [] => acc
  | p :: paths =>
      let f := default {| sf_text := EmptyString; sf_mtime := 0 |} (sd_files d0 !! p) in
      source_bytes paths (acc +:+ p +:+ le_bytes 8 (Z.of_nat (String.length (sf_text f)))
                              +:+ le_bytes 16 (Z.max 0 (sf_mtime f)))
  end.

Definition fingerprint : string := hex_encode (sha256 (source_bytes (sort_by str_leb (map in_path files)) EmptyString)).
Definition identity : StreamExecutionIdentity := identity_of cli fingerprint output format.

Definition processed_count (st : ProcessingState) : nat :=
  length (filter (fun f => is_file_processed st (in_path f) = true) files).

(** An entry of the checkpoint describes a source as it was. *)
Definition entry_ok (k : string) (fs : FileState) : Prop :=
  fs_path fs = k /\ k ∈ map in_path files /\ exists f, sd_files d0 !! k = Some f /\
  fs_source_size fs = Z.of_nat (String.length (sf_text f)) /\ fs_source_modified fs = sf_mtime f.

Record state_ok (st : ProcessingState) : Prop := {
  so_version : ps_schema_version st = CHECKPOINT_SCHEMA_VERSION;
  so_identity : ps_identity st = identity;
  so_total : ps_total_files st = length files;
  so_processed : ps_processed_files st = processed_count st;
  so_entries : map_Forall entry_ok (ps_files st);
  so_keys : Forall (fun f => is_Some (ps_files st !! in_path f)) files;
}.

Definition checkpoint (d : SDisk) (st : ProcessingState) : Prop :=
  exists text, text_at d state_path = Some text /\ state_of_json text = Ok st.

(** Processed files have their part. *)
Definition parts_ok (st : ProcessingState) (d : SDisk) : Prop :=
  forall i f, files !! i = Some f -> is_file_processed st (in_path f) = true ->
    exists t rows, expected f = Some (t, rows) /\ forall s, t = Some s -> text_at d (part i) = Some s.

(** Only parts are in the staging directory, and none of a file without rows. *)
Definition staging_clean (d : SDisk) : Prop :=
  forall p, is_Some (sd_files d !! p) -> path_parent p = Some staging ->
    exists i f, files !! i = Some f /\ p = part i /\ forall rows, expected f <> Some (None, rows).

Record absent (d : SDisk) : Prop := { ab_base : base d; ab_none : text_at d state_path = None }.

Record working (st : ProcessingState) (d : SDisk) : Prop := {
  wk_base : base d;
  wk_checkpoint : checkpoint d st;
  wk_state : state_ok st;
  wk_open : ps_committed st = false;
  wk_parts : parts_ok st d;
  wk_clean : staging_clean d;
}.

Record moved (st : ProcessingState) (d : SDisk) : Prop := {
  mv_base : base d;
  mv_checkpoint : checkpoint d st;
  mv_state : state_ok st;
  mv_open : ps_committed st = false;
  mv_complete : is_complete st = true;
  mv_empty : files_in d staging = [];
}.

Record committed (st : ProcessingState) (d : SDisk) : Prop := {
  cm_base : base d;
  cm_checkpoint : checkpoint d st;
  cm_state : state_ok st;
  cm_committed : ps_committed st = true;
  cm_complete : is_complete st = true;
  cm_output : exists t, final_output = Some t /\ text_at d output = Some t;
}.

Definition phase (d : SDisk) : Prop :=
  absent d \/ (exists st, working st d) \/ (exists st, moved st d) \/ (exists st, committed st d).

(** ** The phases do not look at other files *)

Lemma managed_distinct : NoDup managed.
Proof. pose proof (ly_names LY) as Hn. unfold names in Hn. by apply NoDup_app in Hn as (? & _ & _). Qed.

Lemma part_managed i f : files !! i = Some f -> part i ∈ managed.
Proof.
  intros Hi%lookup_lt_Some. unfold managed. do 3 right. apply list_elem_of_fmap. exists i. split; [done|]. apply elem_of_seq. lia.
Qed.

Lemma part_parent i f : files !! i = Some f -> path_parent (part i) = Some staging.
Proof.
  intros Hi%lookup_lt_Some. pose proof (ly_parts LY) as Hp. rewrite Forall_forall in Hp. apply Hp.
  apply list_elem_of_fmap. exists i. split; [done|]. apply elem_of_seq. lia.
Qed.

Lemma part_inj i j f g : files !! i = Some f -> files !! j = Some g -> part i = part j -> i = j.
Proof.
  intros Hi%lookup_lt_Some Hj%lookup_lt_Some Hp. pose proof managed_distinct as Hn. unfold managed in Hn.
  apply NoDup_cons in Hn as [_ Hn]. apply NoDup_cons in Hn as [_ Hn]. apply NoDup_cons in Hn as [_ Hn].
  apply (NoDup_lookup _ i j (part i) Hn); rewrite list_lookup_fmap, lookup_seq_lt by done; cbn; congruence.
Qed.

Lemma parent_outside p : p ∈ state_path :: tmp :: output :: map in_path files -> path_parent p <> Some staging.
Proof.
  intros Hp Hs. pose proof (ly_outside LY) as Ho. rewrite Forall_forall in Ho. specialize (Ho p Hp).
  by rewrite (below_parent _ _ Hs) in Ho.
Qed.

Lemma part_not p i f : p ∈ [state_path; tmp; output] -> files !! i = Some f -> part i <> p.
Proof.
  intros Hp Hi <-. apply (parent_outside (part i)); [|by eapply part_parent].
  rewrite !elem_of_cons in Hp |- *. rewrite elem_of_nil in Hp. tauto.
Qed.

Lemma three_distinct : tmp <> state_path /\ output <> state_path /\ output <> tmp.
Proof.
  pose proof managed_distinct as Hn. unfold managed in Hn. apply NoDup_cons in Hn as [Hn1 Hn].
  apply NoDup_cons in Hn as [Hn2 _]. set_solver.
Qed.

(** Files that no phase but the one named looks at. *)
Lemma checkpoint_put p t d st : p <> state_path -> checkpoint d st -> checkpoint (put_text p t d) st.
Proof. intros Hp (text & Ht & Hs). exists text. by rewrite text_at_put, decide_False. Qed.

Lemma clean_put p t d : path_parent p <> Some staging -> staging_clean d -> staging_clean (put_text p t d).
Proof.
  intros Hp Hc q Hq Hs. apply Hc; [|done]. cbn in Hq. rewrite lookup_insert_ne in Hq; [done|]. by intros ->.
Qed.

Lemma parts_put p t st d : (forall i f, files !! i = Some f -> is_file_processed st (in_path f) = true -> part i <> p) ->
  parts_ok st d -> parts_ok st (put_text p t d).
Proof.
  intros Hp Ho i f Hi Hf. destruct (Ho i f Hi Hf) as (u & rows & He & Hu). exists u, rows. split; [done|].
  intros s Hs. rewrite text_at_put, decide_False; [by apply Hu|]. by apply Hp with f.
Qed.

Lemma working_put st p : p = tmp \/ p = output -> closed (working st) p.
Proof.
  intros Hp d t [Hb Hc Hs Ho Hpt Hcl]. assert (p ∈ [state_path; tmp; output]) as Hin by set_solver.
  destruct three_distinct as (Hd1 & Hd2 & Hd3). split; [|by apply checkpoint_put; [destruct Hp as [->| ->]|]|done|done| |].
  - apply base_put; [|done]. unfold managed. set_solver.
  - apply parts_put; [|done]. intros i f Hi _. by eapply part_not.
  - apply clean_put; [|done]. apply parent_outside. set_solver.
Qed.

(** The part of a file that is still to be converted. *)
Lemma working_put_part st i f : files !! i = Some f -> is_file_processed st (in_path f) = false ->
  (forall rows, expected f <> Some (None, rows)) -> closed (working st) (part i).
Proof.
  intros Hi Hf He d t [Hb Hc Hs Ho Hpt Hcl]. split; [| |done|done| |].
  - apply base_put; [|done]. by eapply part_managed.
  - apply checkpoint_put; [|done]. eapply part_not; [|done]. set_solver.
  - apply parts_put; [|done]. intros j g Hj Hg Heq. assert (i = j) as <- by by eapply part_inj.
    assert (f = g) as <- by congruence. congruence.
  - intros q Hq Hqs. destruct (decide (q = part i)) as [->|Hne]; [eauto|]. apply Hcl; [|done].
    cbn in Hq. by rewrite lookup_insert_ne in Hq.
Qed.

Lemma files_in_elem d dir p : p ∈ files_in d dir <-> is_Some (sd_files d !! p) /\ path_parent p = Some dir.
Proof.
  unfold files_in. rewrite list_elem_of_filter, list_elem_of_fmap. split.
  - intros (Hp & [q f] & -> & Hq%elem_of_map_to_list). cbn in *. eauto.
  - intros ([f Hf] & Hp). split; [done|]. exists (p, f). split; [done|]. by apply elem_of_map_to_list.
Qed.

Lemma files_in_nil d dir : files_in d dir = [] <-> forall p, is_Some (sd_files d !! p) -> path_parent p <> Some dir.
Proof.
  split.
  - intros Hn p Hp Hd. assert (p ∈ files_in d dir) as Hin by by apply files_in_elem. rewrite Hn in Hin. by apply not_elem_of_nil in Hin.
  - intros Hn. apply elem_of_nil_inv. intros p [Hp Hd]%files_in_elem. by apply (Hn p).
Qed.

(** A phase depends on the files, and on the directories through [base]. *)
Lemma working_same st d d' : sd_files d' = sd_files d -> base d' -> working st d -> working st d'.
Proof.
  destruct d, d'. cbn. intros -> Hb [_ Hc Hs Ho Hp Hcl]. by split.
Qed.
Lemma absent_same d d' : sd_files d' = sd_files d -> base d' -> absent d -> absent d'.
Proof. destruct d, d'. cbn. intros -> Hb [_ Hn]. by split. Qed.
Lemma moved_same st d d' : sd_files d' = sd_files d -> base d' -> moved st d -> moved st d'.
Proof. destruct d, d'. cbn. intros -> Hb [_ Hc Hs Ho Hp Hcl]. by split. Qed.
Lemma committed_same st d d' : sd_files d' = sd_files d -> base d' -> committed st d -> committed st d'.
Proof. destruct d, d'. cbn. intros -> Hb [_ Hc Hs Ho Hp Hcl]. by split. Qed.

(** What the transitions need of a phase. *)
Record stable (J : SDisk -> Prop) : Prop := {
  sb_base : forall d, J d -> base d;
  sb_same : forall d d', sd_files d' = sd_files d -> sd_dirs d ⊆ sd_dirs d' -> base d' -> J d -> J d';
  sb_tmp : closed J tmp;
}.

Lemma stable_dirs J ds : stable J -> (forall q, q ∈ ds -> q ∈ ancestors_of staging ++ ancestors_of state_dir) ->
  closed_dirs J ds.
Proof.
  intros [Hb Hs _] Hds d new Hnew Hj. apply (Hs d); [done|cbn; set_solver| |done]. apply (base_dirs ds); [done|done|auto].
Qed.

Lemma stable_clock J : stable J -> closed_clock J.
Proof. intros [Hb Hs _] d t Hj. apply (Hs d); [done|done|apply base_clock; auto|done]. Qed.

Lemma tmp_managed : tmp ∈ managed.
Proof. unfold managed. set_solver. Qed.

Lemma working_stable st : stable (working st).
Proof. split; [by intros d []|by eauto using working_same|apply working_put; auto]. Qed.

Lemma absent_stable : stable absent.
Proof.
  split; [by intros d []|by eauto using absent_same|]. intros d t [Hb Hn]. split; [by apply base_put; [apply tmp_managed|]|].
  destruct three_distinct as (Hd1 & _). by rewrite text_at_put, decide_False.
Qed.

Lemma empty_put p t d : path_parent p <> Some staging -> files_in d staging = [] -> files_in (put_text p t d) staging = [].
Proof.
  intros Hp. rewrite !files_in_nil. intros Hn q Hq. destruct (decide (q = p)) as [->|Hne]; [done|]. apply Hn.
  cbn in Hq. by rewrite lookup_insert_ne in Hq.
Qed.

Lemma moved_stable st : stable (moved st).
Proof.
  split; [by intros d []|by eauto using moved_same|]. intros d t [Hb Hc Hs Ho Hcm He]. destruct three_distinct as (Hd1 & _).
  split; [by apply base_put; [apply tmp_managed|]|by apply checkpoint_put|done|done|done|].
  apply empty_put; [|done]. apply parent_outside. set_solver.
Qed.

Lemma committed_stable st : stable (committed st).
Proof.
  split; [by intros d []|by eauto using committed_same|]. intros d t [Hb Hc Hs Ho Hcm (o & Hf & Hout)].
  destruct three_distinct as (Hd1 & Hd2 & Hd3).
  split; [by apply base_put; [apply tmp_managed|]|by apply checkpoint_put|done|done|done|].
  exists o. split; [done|]. by rewrite text_at_put, decide_False.
Qed.

(** A stable phase in which the staging directory or a text is there. *)
Lemma stable_and J K : stable J -> (forall d d', sd_files d' = sd_files d -> sd_dirs d ⊆ sd_dirs d' -> K d -> K d') ->
  closed K tmp -> stable (fun d => J d /\ K d).
Proof.
  intros [Hb Hs Ht] Hk Hc. split; [by intros d [? _]; auto| |].
  - intros d d' Hf Hd Hb' [Hj Hkd]. split; [by eapply Hs|by eapply Hk].
  - intros d t [Hj Hkd]. split; [by apply Ht|by apply Hc].
Qed.

Lemma stable_output J t : stable J -> stable (fun d => J d /\ text_at d output = Some t).
Proof.
  intros Hj. apply stable_and; [done| |].
  - intros d d' Hf _ Ht. unfold text_at in *. by rewrite Hf.
  - intros d x Ht. destruct three_distinct as (_ & _ & Hne). by rewrite text_at_put, decide_False.
Qed.

Lemma dir_exists_mono d d' p : sd_dirs d ⊆ sd_dirs d' -> dir_exists d p = true -> dir_exists d' p = true.
Proof. intros Hd. unfold dir_exists. rewrite !orb_true_iff, !bool_decide_eq_true. set_solver. Qed.

Lemma stable_staging J : stable J -> stable (fun d => J d /\ dir_exists d staging = true).
Proof.
  intros Hj. apply stable_and; [done| |].
  - intros d d' _ Hd. by apply dir_exists_mono.
  - by intros d x Ht.
Qed.

(** ** Saving a checkpoint *)

(** After the rename of the temporary file. *)
Definition installed (f : SFile) (d : SDisk) : SDisk := with_files (<[state_path := f]> (delete tmp (sd_files d))) d.

Lemma installed_other f d q : q <> state_path -> q <> tmp -> sd_files (installed f d) !! q = sd_files d !! q.
Proof. intros H1' H2'. cbn. by rewrite lookup_insert_ne, lookup_delete_ne. Qed.

Lemma installed_base f d : base d -> base (installed f d).
Proof.
  intros Hb. apply (base_frame d); [done|done|]. intros q Hq. apply installed_other; intros ->; apply Hq; unfold managed; set_solver.
Qed.

Lemma installed_checkpoint f d st : state_of_json (sf_text f) = Ok st -> checkpoint (installed f d) st.
Proof. intros Hs. exists (sf_text f). split; [|done]. unfold text_at. cbn. by rewrite lookup_insert_eq. Qed.

Lemma save_safe J J' st m d : stable J -> J d -> sm_state_path m = Some state_path ->
  is_ok (state_to_json st) = true ->
  (forall d f, J d -> sd_files d !! tmp = Some f -> state_of_json (sf_text f) = Ok st -> J' (installed f d)) ->
  safe (fun d => J d \/ J' d) (save_state m st)
    (fun r d' => J' d' /\ exists m', r = Ok m' /\ sm_state_path m' = Some state_path) d.
Proof.
  intros Hst Hj Hm Hjs Hi. unfold save_state. rewrite Hm. destruct (state_to_json st) as [content|] eqn:Ec; [|done].
  destruct (ly_state_dir LY) as [Hsd Htd]. fold tmp. unfold create_parent. rewrite Hsd.
  assert (base d) as Hb by by apply (sb_base _ Hst).
  assert (forall d, J d -> dir_exists d state_dir = true -> can_create d tmp /\ can_create d state_path) as Hcan.
  { intros d' Hj' Hdir. pose proof (b_dirs _ (sb_base _ Hst _ Hj')) as Hbd. rewrite Forall_forall in Hbd.
    unfold can_create, parent_exists. rewrite Hsd, Htd. repeat split; try done; apply Hbd; unfold names, managed; set_solver. }
  apply fsafe_try, safe_fio, (safe_weaken J); [by left|]. apply safe_create_dir_all; [|done| |].
  { apply stable_dirs; [done|]. set_solver. }
  { pose proof (b_ancestors _ Hb) as Ha. by apply Forall_app in Ha as [_ Ha]. }
  cbn [map_err]. set (d1 := with_dirs _ d).
  assert (J d1) as Hj1.
  { apply (stable_dirs J (ancestors_of state_dir)); [done|set_solver| |done]. intros q Hq. by apply elem_of_list_to_set in Hq. }
  assert (dir_exists d1 state_dir = true) as Hdir.
  { unfold dir_exists, d1. cbn [sd_dirs with_dirs]. rewrite !orb_true_iff, !bool_decide_eq_true. right. rewrite elem_of_union, elem_of_list_to_set. left.
    unfold ancestors_of. cbn [ancestors]. set_solver. }
  apply fsafe_try, safe_fio, (safe_weaken J); [by left|].
  apply fsafe_create; [done| |intros Hn; by destruct Hn, (Hcan d1)|intros _; by apply (sb_tmp _ Hst)]. intros _. cbn [map_err].
  set (d2 := put_text tmp EmptyString d1). assert (J d2) as Hj2 by by apply (sb_tmp _ Hst).
  apply fsafe_try, safe_fio, (safe_weaken J); [by left|].
  eapply safe_append; [apply (sb_tmp _ Hst)|done|by unfold d2; rewrite text_at_put, decide_True|]. cbn [map_err].
  set (d3 := put_text tmp _ d2). assert (J d3) as Hj3 by by apply (sb_tmp _ Hst).
  destruct (Hcan d3 Hj3 Hdir) as [_ [Hc1 Hc2]].
  apply fsafe_try, safe_fio. cbn [safe fsys interrupted fexec]. split; [by left|]. split; [by intros d' []|].
  assert (sd_files d3 !! tmp = Some {| sf_text := EmptyString +:+ content; sf_mtime := sd_clock d2 |}) as Hf.
  { unfold d3. cbn. by rewrite lookup_insert_eq. }
  rewrite Hf, Hc1, Hc2. cbn [map_err]. assert (J' (installed {| sf_text := EmptyString +:+ content; sf_mtime := sd_clock d2 |} d3)) as Hj'.
  { apply Hi; [done|done|]. cbn. by apply state_json_round_trip. }
  split; [by right|]. split; [by right|]. split; [done|]. eauto.
Qed.

(** ** Marking a file *)

Lemma keys_distinct : NoDup (map in_path files).
Proof. pose proof (ly_names LY) as Hn. unfold names in Hn. by apply NoDup_app in Hn as (_ & _ & ?). Qed.

Lemma mark_processed st k rows now q : is_Some (ps_files st !! k) ->
  is_file_processed (mark_file_processed k 0 rows now st) q = if decide (q = k) then true else is_file_processed st q.
Proof.
  intros [fs Hfs]. unfold mark_file_processed, is_file_processed. rewrite Hfs. cbn [ps_files]. rewrite lookup_insert.
  repeat case_decide; by subst.
Qed.

Lemma count_mark (l : list InputFile) (P : string -> bool) k : NoDup (map in_path l) -> k ∈ map in_path l -> P k = false ->
  length (filter (fun f => (if decide (in_path f = k) then true else P (in_path f)) = true) l)
  = S (length (filter (fun f => P (in_path f) = true) l)).
Proof.
  induction l as [|f l IH]; [set_solver|]. cbn [map]. intros [Hn Hd]%NoDup_cons Hk Hp. rewrite !filter_cons.
  destruct (decide (in_path f = k)) as [Heq|Hne].
  - rewrite decide_True by done. rewrite (decide_False (P := P (in_path f) = true)) by congruence. cbn [length]. f_equal.
    f_equal. apply filter_agree. intros g Hg. rewrite decide_False; [done|]. intros Hgk. apply Hn. rewrite Heq, <- Hgk.
    apply list_elem_of_fmap. eauto.
  - assert (k ∈ map in_path l) as Hk' by (apply elem_of_cons in Hk as [?|?]; [by subst|done]).
    destruct (decide (P (in_path f) = true)); cbn [length]; by rewrite IH.
Qed.

Lemma mark_ok st i f rows now : state_ok st -> files !! i = Some f -> is_file_processed st (in_path f) = false ->
  state_ok (mark_file_processed (in_path f) 0 rows now st).
Proof.
  intros [Hv Hid Ht Hp He Hk] Hi Hf. assert (f ∈ files) as Hin by by eapply list_elem_of_lookup_2.
  assert (is_Some (ps_files st !! in_path f)) as Hsome by (rewrite Forall_forall in Hk; by apply Hk).
  assert (processed_count (mark_file_processed (in_path f) 0 rows now st) = S (processed_count st)) as Hc.
  { unfold processed_count. rewrite <- (count_mark files (is_file_processed st) (in_path f)); [|apply keys_distinct| |done].
    - f_equal. apply filter_agree. intros g Hg. by rewrite mark_processed.
    - apply list_elem_of_fmap. eauto. }
  pose proof Hsome as [fs Hfs]. split; unfold mark_file_processed in *; rewrite Hfs in *; cbn in *; try done.
  - rewrite Hc, Hp. lia.
  - apply map_Forall_insert_2; [|done]. apply (He _ _ Hfs).
  - rewrite Forall_forall in Hk |- *. intros g Hg. rewrite lookup_insert. case_decide; [eauto|]. by apply Hk.
Qed.

(** While the part of [f] is complete but not yet recorded. *)
Definition ready (st : ProcessingState) (i : nat) (f : InputFile) (rows : Z) (d : SDisk) : Prop :=
  working st d /\ exists t, expected f = Some (t, rows) /\ forall s, t = Some s -> text_at d (part i) = Some s.

Lemma ready_stable st i f rows : files !! i = Some f -> stable (ready st i f rows).
Proof.
  intros Hi. split.
  - by intros d [[] _].
  - intros d d' Hf _ Hb [Hw (t & Ht & Hp)]. split; [by eapply working_same|]. exists t. split; [done|].
    intros s Hs. unfold text_at in *. rewrite Hf. by apply Hp.
  - intros d x [Hw (t & Ht & Hp)]. split; [by apply working_put; [left|]|]. exists t. split; [done|]. intros s Hs.
    rewrite text_at_put, decide_False; [by apply Hp|]. eapply part_not; [|done]. set_solver.
Qed.

Lemma installed_parts f st d : parts_ok st d -> parts_ok st (installed f d).
Proof.
  intros Hp i g Hi Hg. destruct (Hp i g Hi Hg) as (t & rows & He & Ht). exists t, rows. split; [done|]. intros s Hs.
  unfold text_at in *. rewrite installed_other; [by apply Ht|eapply part_not; [|done]; set_solver..].
Qed.

Lemma installed_clean f d : staging_clean d -> staging_clean (installed f d).
Proof.
  intros Hc q Hq Hs. apply Hc; [|done]. rewrite installed_other in Hq; [done|..]; intros ->;
    by apply (parent_outside _) in Hs; [|set_solver].
Qed.

Lemma ready_installed st i f rows now d sf : files !! i = Some f -> is_file_processed st (in_path f) = false ->
  ready st i f rows d -> state_of_json (sf_text sf) = Ok (mark_file_processed (in_path f) 0 rows now st) ->
  working (mark_file_processed (in_path f) 0 rows now st) (installed sf d).
Proof.
  intros Hi Hf [[Hb Hc Hs Ho Hp Hcl] (t & He & Ht)] Hj.
  assert (is_Some (ps_files st !! in_path f)) as Hsome.
  { pose proof (so_keys _ Hs) as Hk. rewrite Forall_forall in Hk. apply Hk. by eapply list_elem_of_lookup_2. }
  split; [by apply installed_base|by apply installed_checkpoint|by eapply mark_ok| | |by apply installed_clean].
  - destruct Hsome as [fs Hfs]. unfold mark_file_processed. rewrite Hfs. done.
  - apply installed_parts. intros j g Hj' Hg. rewrite mark_processed in Hg by done.
    destruct (decide (in_path g = in_path f)) as [Heq|Hne]; [|by apply Hp].
    assert (i = j) as <-.
    { apply (NoDup_lookup _ i j (in_path f) keys_distinct); rewrite list_lookup_fmap; [by rewrite Hi|by rewrite Hj'; cbn; rewrite Heq]. }
    assert (f = g) as <- by congruence. exists t, rows. auto.
Qed.

(** ** Completion *)

Lemma complete_all st : state_ok st -> is_complete st = true -> Forall (fun f => is_file_processed st (in_path f) = true) files.
Proof.
  intros [_ _ Ht Hp _ _] Hc. unfold is_complete in Hc. apply andb_true_iff in Hc as [Hc _].
  apply bool_decide_eq_true in Hc. rewrite Ht, Hp in Hc. unfold processed_count in Hc.
  revert Hc. generalize files. intros l. induction l as [|f l IH]; [done|]. rewrite filter_cons. case_decide as Hf; cbn [length].
  - intros [= Hl]. by constructor; [|apply IH].
  - pose proof (length_filter (fun f => is_file_processed st (in_path f) = true) l). lia.
Qed.

Lemma committed_ok st : state_ok st -> state_ok (set_committed st).
Proof. intros [Hv Hid Ht Hp He Hk]. by split. Qed.

(** The parts in the order of their files. *)
Definition listed (l : list (nat * InputFile)) : list (string * string) :=
  omap (fun e => p ← expected (snd e); t ← fst p; Some (part (fst e), t)) l.
Definition part_list : list (string * string) := listed (zip (seq 0 (length files)) files).

Lemma part_list_elem p t : (p, t) ∈ part_list <-> exists i f rows, files !! i = Some f /\ p = part i /\ expected f = Some (Some t, rows).
Proof.
  unfold part_list, listed. rewrite list_elem_of_omap. split.
  - intros ([i f] & Hin & He). apply list_elem_of_lookup in Hin as (k & Hk). apply lookup_zip_Some in Hk as [Hs Hf].
    apply lookup_seq in Hs as [-> _]. cbn in *. destruct (expected f) as [[[s|] rows]|] eqn:Ee; cbn in He; try done.
    injection He as <- <-. eauto 10.
  - intros (i & f & rows & Hi & -> & He). exists (i, f). cbn. rewrite He. split; [|done].
    apply (list_elem_of_lookup_2 _ i). apply lookup_zip_Some. split; [|done]. apply lookup_seq_lt. by eapply lookup_lt_Some.
Qed.

Lemma listed_sorted (R : string -> string -> Prop) l : StronglySorted R (map (part ∘ fst) l) -> StronglySorted R (map fst (listed l)).
Proof.
  induction l as [|[i f] l IH]; [constructor|]. cbn [map]. intros [Hs Ha]%StronglySorted_inv. unfold listed. cbn.
  destruct (expected f) as [[[t|] rows]|]; cbn; [|by apply IH..]. constructor; [by apply IH|].
  apply Forall_map, Forall_forall. intros [q s] Hq. apply list_elem_of_omap in Hq as ([j g] & Hj & Hg). cbn in *.
  rewrite Forall_map, Forall_forall in Ha. specialize (Ha (j, g) Hj). cbn in Ha.
  destruct (expected g) as [[[u|] ?]|]; cbn in Hg; try done. by injection Hg as <- <-.
Qed.

Lemma zip_seq_fst n k (l : list InputFile) : length l = n -> map (part ∘ fst) (zip (seq k n) l) = map part (seq k n).
Proof.
  revert k l. induction n as [|n IH]; intros k l Hl; [done|]. destruct l as [|f l]; [done|]. cbn. f_equal. apply IH. by injection Hl.
Qed.

Lemma listed_expected l k : Forall (fun f => is_Some (expected f)) l ->
  exists ps, mapM expected l = Some ps /\ omap fst ps = map snd (listed (zip (seq k (length l)) l)).
Proof.
  intros Hl. revert k. induction Hl as [|f l [[t rows] Hf] _ IH]; intros k; [by exists []|].
  destruct (IH (S k)) as (ps & Hps & Heq). cbn [mapM length seq zip zip_with]. rewrite Hf. cbn. rewrite Hps.
  exists ((t, rows) :: ps). split; [done|]. unfold listed. cbn. rewrite Hf. destruct t; cbn; [f_equal|]; exact Heq.
Qed.

Lemma part_list_distinct : NoDup (map components (map fst part_list)).
Proof.
  assert (StronglySorted (fun p q => components p <> components q) (map fst part_list)) as Hdist.
  { apply listed_sorted. rewrite zip_seq_fst by done. pose proof (ly_components LY) as Hn. revert Hn.
    generalize (map part (seq 0 (length files))). intros l. induction l as [|p l IH]; [constructor|]. cbn.
    intros [Hn Hd]%NoDup_cons. constructor; [by apply IH|].
    apply Forall_forall. intros q Hq Heq. apply Hn. rewrite Heq. apply list_elem_of_fmap. eauto. }
  revert Hdist. generalize (map fst part_list). intros l. induction 1 as [|p l _ IH Ha]; [constructor|]. cbn.
  constructor; [|done]. intros (q & Heq & Hq)%list_elem_of_fmap. rewrite Forall_forall in Ha. by apply (Ha q).
Qed.

Lemma staged_listing st d : working st d -> is_complete st = true ->
  sort_by path_leb (files_in d staging) = map fst part_list /\
  parts_on d output (map fst part_list) (map snd part_list) /\
  final_output = assembled format (us_schema unified) (map snd part_list).
Proof.
  intros [Hb Hc Hs Ho Hp Hcl] Hcm. pose proof (complete_all _ Hs Hcm) as Hall. rewrite Forall_forall in Hall.
  assert (forall i f, files !! i = Some f -> exists t rows, expected f = Some (t, rows) /\ forall s, t = Some s -> text_at d (part i) = Some s) as Hex.
  { intros i f Hi. apply Hp; [done|]. apply Hall. by eapply list_elem_of_lookup_2. }
  assert (map (part ∘ fst) (zip (seq 0 (length files)) files) = map part (seq 0 (length files))) as Hz by by apply zip_seq_fst.
  assert (StronglySorted (fun p q => path_leb p q = true) (map fst part_list)) as Hsorted.
  { apply listed_sorted. rewrite Hz. apply (ly_sorted LY). }
  assert (forall p, p ∈ map fst part_list <-> p ∈ files_in d staging) as Helem.
  { intros p. rewrite files_in_elem, list_elem_of_fmap. split.
    - intros ([q t] & -> & (i & f & rows & Hi & -> & He)%part_list_elem). cbn. split; [|by eapply part_parent].
      destruct (Hex i f Hi) as (t' & rows' & He' & Ht'). rewrite He in He'. injection He' as <- <-.
      specialize (Ht' t eq_refl). unfold text_at in Ht'. apply fmap_Some in Ht' as (sf & -> & _). eauto.
    - intros [Hq Hqs]. destruct (Hcl p Hq Hqs) as (i & f & Hi & -> & Hn). destruct (Hex i f Hi) as (t & rows & He & _).
      destruct t as [t|]; [|by destruct (Hn rows)]. exists (part i, t). split; [done|]. apply part_list_elem. eauto 10. }
  pose proof part_list_distinct as Hnd.
  split; [|split].
  - assert (map fst part_list ≡ₚ files_in d staging) as Hperm.
    { apply NoDup_Permutation; [by apply NoDup_fmap_1 in Hnd| |done]. unfold files_in. apply NoDup_filter, NoDup_fst_map_to_list. }
    pose proof (sort_by_path_unique id (map fst part_list) (files_in d staging) Hnd Hperm) as Hu. unfold id in Hu.
    change (fun a b => path_leb a b) with path_leb in Hu. rewrite <- Hu. by apply sort_by_done.
  - unfold parts_on. apply Forall2_fmap_l, Forall2_fmap_r, Forall_Forall2_diag, Forall_forall.
    intros [p t] (i & f & rows & Hi & -> & He)%part_list_elem. cbn. split; [eapply part_not; [|done]; set_solver|].
    destruct (Hex i f Hi) as (t' & rows' & He' & Ht'). rewrite He in He'. injection He' as <- <-. by apply Ht'.
  - unfold final_output. destruct (listed_expected files 0) as (ps & -> & Hps).
    { apply Forall_forall. intros f (i & Hi)%list_elem_of_lookup. destruct (Hex i f Hi) as (t & rows & -> & _). eauto. }
    cbn. by rewrite Hps.
Qed.

(** ** Assembling the output *)

Lemma output_creatable d : base d -> can_create d output.
Proof.
  intros [_ Hd Ho _]. split; [|done]. rewrite Forall_forall in Hd. apply Hd. unfold names, managed. set_solver.
Qed.

(** Moving a single part into place. *)
Lemma rename_moved st d p t f : working st d -> is_complete st = true -> part_list = [(p, t)] -> sd_files d !! p = Some f ->
  moved st (with_files (<[output := f]> (delete p (sd_files d))) d).
Proof.
  intros Hw Hcm Hpl Hf. destruct (staged_listing st d Hw Hcm) as (Hsort & _ & _). rewrite Hpl in Hsort. cbn in Hsort.
  assert (forall q, is_Some (sd_files d !! q) -> path_parent q = Some staging -> q = p) as Honly.
  { intros q Hq Hqs. assert (q ∈ sort_by path_leb (files_in d staging)) as Hin.
    { rewrite sort_by_perm. by apply files_in_elem. }
    rewrite Hsort in Hin. by apply list_elem_of_singleton in Hin. }
  assert ((p, t) ∈ part_list) as (i & g & rows & Hi & Hp & _)%part_list_elem by (rewrite Hpl; set_solver). subst p.
  destruct Hw as [Hb (text & Ht & Hj) Hs Ho _ _]. destruct three_distinct as (_ & Hos & _).
  assert (part i <> state_path) as Hps by (eapply part_not; [|done]; set_solver).
  split; [| |done|done|done|].
  - apply (base_frame d); [done|done|]. intros q Hq. cbn. rewrite lookup_insert_ne, lookup_delete_ne; [done|..]; intros <-; apply Hq;
      [by eapply part_managed|unfold managed; set_solver].
  - exists text. split; [|done]. unfold text_at in *. cbn. by rewrite lookup_insert_ne, lookup_delete_ne.
  - apply files_in_nil. intros q Hq Hqs. cbn in Hq. destruct (decide (q = output)) as [->|Hne].
    { by apply (parent_outside output) in Hqs; [|set_solver]. }
    rewrite lookup_insert_ne in Hq by done. destruct (decide (q = part i)) as [->|Hne'].
    { rewrite lookup_delete_eq in Hq. by destruct Hq. }
    rewrite lookup_delete_ne in Hq by done. by apply Hne', Honly.
Qed.

Definition assembled_now (st : ProcessingState) (d : SDisk) : Prop :=
  (working st d \/ moved st d) /\ exists t, final_output = Some t /\ text_at d output = Some t.

Lemma finalize_safe st d : working st d -> is_complete st = true -> dir_exists d staging = true ->
  safe (fun d => working st d \/ moved st d) (finalize_staged_parts staging output format unified)
    (fun r d' => match r with Ok _ => assembled_now st d' | Err _ => final_output = None /\ working st d' end) d.
Proof.
  intros Hw Hcm Hdir. destruct (staged_listing st d Hw Hcm) as (Hsort & Hon & Hfin).
  unfold finalize_staged_parts. apply fsafe_try, safe_fio, (safe_weaken (working st)); [by left|].
  apply safe_read; [done|done|]. cbn [fexec fst]. rewrite Hdir. cbn [map_err]. rewrite Hsort.
  destruct part_list as [|[p t] [|[p2 t2] rest]] eqn:Epl; cbn [map fst snd] in *.
  - split; [by left|]. done.
  - apply Forall2_cons in Hon as [[Hne Ht] _]. destruct (output_creatable d (wk_base _ _ Hw)) as [Hc1 Hc2].
    apply safe_fio. cbn [safe fsys interrupted fexec]. split; [by left|]. split; [by intros d' []|].
    unfold text_at in Ht. apply fmap_Some in Ht as (f & Hf & ->). rewrite Hf, Hc1, Hc2.
    pose proof (rename_moved st d p (sf_text f) f Hw Hcm Epl Hf) as Hm. cbn [map_err]. split; [by right|].
    split; [by right|]. exists (sf_text f). split; [done|]. unfold text_at. cbn. by rewrite lookup_insert_eq.
  - apply (safe_weaken (working st)); [by left|].
    change (safe (working st) (assemble_parts output format (us_schema unified) (p :: p2 :: map fst rest))
      (fun r d' => match r with Ok _ => assembled_now st d' | Err _ => final_output = None /\ working st d' end) d).
    eapply fsafe_mono; [|apply (assemble_parts_safe (working st) output format (us_schema unified) _ (t :: t2 :: map snd rest));
      [apply working_put; by right|done|by apply output_creatable, (wk_base st)|done|cbn; lia]].
    intros r d' _ [Hw' (_ & _ & Hr)]. rewrite <- Hfin in Hr. destruct r; [|done]. split; [by left|done].
Qed.

(** ** Removing the staging directory *)

Lemma remove_dir_effect p d : let d' := snd (fexec (FRemoveDirAll p) d) in d' = d \/ interrupted (FRemoveDirAll p) d d'.
Proof.
  cbn [fexec]. destruct (bool_decide (p ∈ sd_dirs d)); [|by left]. right. cbn. split; [done|]. split; [|split; [|split]].
  - apply map_filter_subseteq.
  - set_solver.
  - intros q Hq. destruct (sd_files d !! q) eqn:E.
    + by apply map_lookup_filter_Some_2.
    + by apply map_lookup_filter_None; left.
  - intros q Hq Hb Hin. set_solver.
Qed.

Lemma removed_base d d' : base d -> interrupted (FRemoveDirAll staging) d d' -> base d'.
Proof.
  intros [Hs Hd Ho Ha] (_ & Hf & Hds & Hkeep & Hdkeep). pose proof (ly_outside LY) as Hout. rewrite Forall_forall in Hout. split.
  - rewrite Forall_forall in Hs |- *. intros f Hin. rewrite <- (Hs f Hin). apply Hkeep, Hout. do 3 right.
    apply list_elem_of_fmap. eauto.
  - eapply Forall_impl; [exact Hd|]. intros p. unfold dir_exists. rewrite !orb_false_iff, !bool_decide_eq_false. set_solver.
  - destruct (ly_output_dir LY) as (dir & Hdir & Hne & Hb). unfold parent_exists in *. rewrite Hdir in *. unfold dir_exists in *.
    rewrite !orb_true_iff, !bool_decide_eq_true in *. destruct Ho as [?|Hin]; [auto|]. right. by apply Hdkeep.
  - eapply Forall_impl; [exact Ha|]. intros q Hq. cbn in Hq. destruct (sd_files d' !! q) eqn:E; [|done].
    by rewrite (lookup_weaken _ _ _ _ E Hf) in Hq.
Qed.

Lemma removed_text d d' p : interrupted (FRemoveDirAll staging) d d' -> p ∈ [state_path; tmp; output] ->
  text_at d' p = text_at d p.
Proof.
  intros (_ & _ & _ & Hkeep & _) Hp. unfold text_at. rewrite Hkeep; [done|]. pose proof (ly_outside LY) as Hout.
  rewrite Forall_forall in Hout. apply Hout. set_solver.
Qed.

(** A phase that does not depend on the staging directory. *)
Lemma remove_staging_safe J d : (forall d d', J d -> interrupted (FRemoveDirAll staging) d d' -> J d') -> J d ->
  safe J (remove_staging staging) (fun _ d' => J d') d.
Proof.
  intros Hr Hj. unfold remove_staging. apply fsafe_bind, safe_read; [done|done|]. cbn [fexec fst].
  destruct (path_exists d staging); [|by split]. apply fsafe_bind. cbn [safe fsys]. split; [done|]. split; [by eauto|].
  pose proof (remove_dir_effect staging d) as He. destruct (fexec (FRemoveDirAll staging) d) as [x d1]. cbn in He.
  assert (J d1) by (destruct He as [->|He]; eauto). done.
Qed.

Lemma committed_removed st d d' : committed st d -> interrupted (FRemoveDirAll staging) d d' -> committed st d'.
Proof.
  intros [Hb (text & Ht & Hj) Hs Hc Hcm (t & Hf & Ho)] Hr. split; [by eapply removed_base| |done|done|done|].
  - exists text. by rewrite (removed_text _ _ _ Hr) by set_solver.
  - exists t. by rewrite (removed_text _ _ _ Hr) by set_solver.
Qed.

(** ** A run *)

(** [serde_json] writes every checkpoint. *)
Context (HJ : forall st, is_ok (state_to_json st) = true).

Lemma phase_working st d : working st d -> phase d.
Proof. intros Hw. right. left. eauto. Qed.
Lemma phase_moved st d : moved st d -> phase d.
Proof. intros Hw. do 2 right. left. eauto. Qed.
Lemma phase_committed st d : committed st d -> phase d.
Proof. intros Hw. do 3 right. eauto. Qed.

Lemma installed_committed st d f : assembled_now st d -> is_complete st = true ->
  state_of_json (sf_text f) = Ok (set_committed st) -> committed (set_committed st) (installed f d).
Proof.
  intros [Hw (t & Hf & Ht)] Hcm Hj. assert (base d /\ state_ok st) as [Hb Hs] by (by destruct Hw as [[]|[]]).
  split; [by apply installed_base|by apply installed_checkpoint|by apply committed_ok|done|done|].
  exists t. split; [done|]. destruct three_distinct as (_ & Hd2 & Hd3). unfold text_at. by rewrite installed_other.
Qed.

Lemma assembled_stable st : stable (assembled_now st).
Proof.
  split.
  - by intros d [[[]|[]] _].
  - intros d d' Hf Hd Hb [Hw (t & Hfin & Ht)]. split.
    + destruct Hw as [Hw|Hw]; [left; by eapply working_same|right; by eapply moved_same].
    + exists t. split; [done|]. unfold text_at in *. by rewrite Hf.
  - intros d x [Hw (t & Hfin & Ht)]. split.
    + destruct Hw as [Hw|Hw]; [left; by apply working_put; [left|]|right; by apply (moved_stable st)].
    + exists t. split; [done|]. destruct three_distinct as (_ & _ & Hne). by rewrite text_at_put, decide_False.
Qed.

(** How a run ends: committed, or with an error for the reason [why]. *)
Definition run_ends (why : Prop) (r : Result Fault unit) (d : SDisk) : Prop :=
  phase d /\ match r with Ok _ => exists st, committed st d | Err _ => why end.

Lemma finish_run_safe st m d : working st d -> is_complete st = true -> dir_exists d staging = true ->
  sm_state_path m = Some state_path -> 
  safe phase (finish_run staging output format unified st m) (run_ends (final_output = None)) d.
Proof.
  intros Hw Hcm Hdir Hm. unfold finish_run. rewrite Hcm. apply fsafe_try.
  apply (safe_weaken (fun d => working st d \/ moved st d)); [intros d' [?|?]; [by eapply phase_working|by eapply phase_moved]|].
  eapply fsafe_mono; [|by apply finalize_safe]. intros [u|e] d1 _ Hr.
  2:{ destruct Hr as [Hf Hw1]. split; [by eapply phase_working|done]. }
  apply fsafe_try. apply (safe_weaken (fun d => assembled_now st d \/ committed (set_committed st) d)).
  { intros d' [[[?|?] _]|?]; [by eapply phase_working|by eapply phase_moved|by eapply phase_committed]. }
  eapply fsafe_mono; [|apply (save_safe (assembled_now st) (committed (set_committed st)));
    [apply assembled_stable|done|done|apply HJ|intros; by apply installed_committed]].
  intros r d2 _ (Hc & m' & -> & Hm'). apply fsafe_bind.
  apply (safe_weaken (committed (set_committed st))); [intros d3; by apply phase_committed|].
  eapply fsafe_mono; [|apply remove_staging_safe; [apply committed_removed|done]].
  intros [] d3 _ Hc3. split; [by eapply phase_committed|]. split; [by eapply phase_committed|]. eauto.
Qed.

(** *** The files *)

Lemma part_creatable d i f : base d -> dir_exists d staging = true -> files !! i = Some f -> can_create d (part i).
Proof.
  intros [_ Hd _ _] Hs Hi. split.
  - rewrite Forall_forall in Hd. apply Hd. unfold names. apply elem_of_app. left. by eapply part_managed.
  - unfold parent_exists. by rewrite (part_parent _ _ Hi).
Qed.

Lemma source_unchanged d f content : base d -> f ∈ files -> text_at d0 (in_path f) = Some content -> source_is stdin d f content.
Proof.
  intros [Hs _ _ _] Hf Ht. unfold source_is. pose proof (dk_sources DK) as Hd. rewrite Forall_forall in Hs, Hd.
  destruct (Hd f Hf) as [Hne _]. rewrite decide_False by done. unfold text_at in *. by rewrite (Hs f Hf).
Qed.

Lemma source_there f : f ∈ files -> exists content, text_at d0 (in_path f) = Some content.
Proof.
  intros Hf. pose proof (dk_sources DK) as Hd. rewrite Forall_forall in Hd. destruct (Hd f Hf) as [_ [sf Hsf]].
  exists (sf_text sf). unfold text_at. by rewrite Hsf.
Qed.

(** The conversion of one file under the invariant of its phase. *)
Lemma convert_safe cli' st d i f : (forall f c, part_of cli' al format f c = part_of cli al format f c) ->
  working st d -> dir_exists d staging = true -> files !! i = Some f -> is_file_processed st (in_path f) = false ->
  safe (working st) (process_one_file_blocking stdin f (part i) format al cli')
    (fun r d' => dir_exists d' staging = true /\ match r with Ok rows => ready st i f rows d' | Err _ => expected f = None /\ working st d' end) d.
Proof.
  intros Hcli Hw Hdir Hi Hf. assert (f ∈ files) as Hin by by eapply list_elem_of_lookup_2.
  destruct (source_there f Hin) as [content Hc].
  assert (expected f = part_of cli al format f content) as He by (unfold expected; by rewrite Hc).
  eapply fsafe_mono; [|apply (process_one_file_safe (working st) stdin f (part i) format al cli' d content)]; [|done| | |].
  - intros r d' _ [Hw' (Hd' & Hfr & Hr)]. split; [unfold dir_exists in *; by rewrite Hd'|]. rewrite Hcli, <- He in Hr.
    destruct r as [rows|e]; [|done]. destruct Hr as (t & Ht & Hout). split; [done|]. exists t. split; [done|].
    intros s ->. done.
  - eapply part_creatable; [apply Hw|done|done].
  - apply source_unchanged; [apply Hw|done|done].
  - rewrite Hcli, <- He. intros Hn. by eapply working_put_part.
Qed.

Lemma final_none f : f ∈ files -> expected f = None -> final_output = None.
Proof.
  intros Hf He. unfold final_output. assert (mapM expected files = None) as ->; [|done].
  revert Hf. generalize files. intros l. induction l as [|g l IH]; [set_solver|]. cbn [mapM]. intros [->|Hin]%elem_of_cons.
  - by rewrite He.
  - rewrite IH by done. by destruct (expected g).
Qed.

Lemma all_complete st : state_ok st -> Forall (fun f => is_file_processed st (in_path f) = true) files -> is_complete st = true.
Proof.
  intros [_ _ Ht Hp _ _] Hall. unfold is_complete. rewrite Ht, Hp. unfold processed_count.
  assert (filter (fun f => is_file_processed st (in_path f) = true) files = files) as ->.
  { revert Hall. generalize files. induction 1 as [|f l Hf _ IH]; [done|]. by rewrite filter_cons_True, IH. }
  rewrite bool_decide_true by done. cbn. apply bool_decide_eq_true. pose proof (ly_inputs LY) as Hne. destruct files; [done|cbn; lia].
Qed.

Definition inputs_done (interrupt_after : option nat) (r : Result Fault (ProcessingState * StateManager)) (d : SDisk) : Prop :=
  match r with
  | Ok (st, m) => working st d /\ dir_exists d staging = true /\ sm_state_path m = Some state_path /\ is_complete st = true
  | Err _ => phase d /\ (final_output = None \/ interrupt_after <> None)
  end.

Lemma process_inputs_safe cli' ia pre l st m d : (forall f c, part_of cli' al format f c = part_of cli al format f c) ->
  files = pre ++ l -> working st d -> dir_exists d staging = true -> sm_state_path m = Some state_path ->
  Forall (fun f => is_file_processed st (in_path f) = true) pre ->
  safe phase (process_inputs ia stdin staging format al cli' (length pre) l st m) (inputs_done ia) d.
Proof.
  intros Hcli. revert pre st m d. induction l as [|f l IH]; intros pre st m d Hfiles Hw Hdir Hm Hpre; cbn [process_inputs].
  { split; [by eapply phase_working|]. split; [done|]. split; [done|]. split; [done|]. rewrite app_nil_r in Hfiles. subst pre.
    by apply all_complete; [apply Hw|]. }
  assert (files !! length pre = Some f) as Hi by by rewrite Hfiles, list_lookup_middle.
  assert (files = (pre ++ [f]) ++ l) as Hfiles' by by rewrite <- app_assoc.
  assert (S (length pre) = length (pre ++ [f])) as Hlen by (rewrite length_app; cbn; lia).
  destruct (is_file_processed st (in_path f)) eqn:Ef.
  { rewrite Hlen. apply IH; [done|done|done|done|]. apply Forall_app. by rewrite Forall_singleton. }
  apply fsafe_try, (safe_weaken (working st)); [intros d1; by apply phase_working|]. fold (part (length pre)).
  eapply fsafe_mono; [|by apply (convert_safe cli' st d (length pre) f)].
  intros [rows|e] d1 _ [Hdir1 Hr].
  2:{ destruct Hr as [He Hw1]. split; [by eapply phase_working|]. left. eapply final_none; [|done]. by eapply list_elem_of_lookup_2. }
  apply fsafe_bind, (safe_weaken (fun d => ready st (length pre) f rows d)); [intros d2 [? _]; by eapply phase_working|].
  apply safe_now; [by apply stable_clock, ready_stable|done|]. cbn [fanswer] in *. set (now := sd_clock d1). set (d2 := {| sd_files := _ |}).
  assert (ready st (length pre) f rows d2 /\ dir_exists d2 staging = true) as Hr2.
  { split; [|done]. by apply (stable_clock _ (ready_stable st (length pre) f rows Hi)). }
  set (st' := mark_file_processed (in_path f) 0 rows now st). apply fsafe_try.
  apply (safe_weaken (fun d => (ready st (length pre) f rows d /\ dir_exists d staging = true) \/ (working st' d /\ dir_exists d staging = true))).
  { intros d3 [[[? _] _]|[? _]]; by eapply phase_working. }
  eapply fsafe_mono; [|apply (save_safe (fun d => ready st (length pre) f rows d /\ dir_exists d staging = true)
     (fun d => working st' d /\ dir_exists d staging = true)); [by apply stable_staging, ready_stable|done|done|apply HJ|]].
  2:{ intros d3 sf [Hr3 Hdir3] _ Hj. split; [by eapply ready_installed|done]. }
  intros r d3 _ ([Hw3 Hdir3] & m' & -> & Hm'). case_decide as Hia.
  { split; [by eapply phase_working|]. split; [by eapply phase_working|]. right. by rewrite Hia. }
  rewrite Hlen. apply IH; [done|done|done|done|].
  assert (is_Some (ps_files st !! in_path f)) as Hsome.
  { destruct Hr as [Hw1 _]. pose proof (so_keys _ (wk_state _ _ Hw1)) as Hk. rewrite Forall_forall in Hk. apply Hk. by eapply list_elem_of_lookup_2. }
  apply Forall_app. split; [|apply Forall_singleton; unfold st'; by rewrite mark_processed, decide_True].
  eapply Forall_impl; [exact Hpre|]. intros g Hg. cbn in Hg. unfold st'. rewrite mark_processed by done. by case_decide.
Qed.

(** *** From a checkpoint *)

Definition with_resume (b : bool) (c : Cli) : Cli :=
  {| cli_inputs := cli_inputs c; cli_out := cli_out c; cli_out_format := cli_out_format c;
     cli_delimiter := cli_delimiter c; cli_quote := cli_quote c; cli_no_headers := cli_no_headers c;
     cli_encoding := cli_encoding c; cli_na := cli_na c; cli_columns := cli_columns c; cli_exclude := cli_exclude c;
     cli_stringify_conflicts := cli_stringify_conflicts c; cli_schema_conflicts := cli_schema_conflicts c;
     cli_infer_rows := cli_infer_rows c; cli_compression := cli_compression c; cli_zstd_level := cli_zstd_level c;
     cli_no_recursive := cli_no_recursive c; cli_follow_symlinks := cli_follow_symlinks c; cli_state := cli_state c;
     cli_resume := b |}.

Lemma staging_created_safe J Q d : stable J -> J d ->
  (forall d', J d' -> dir_exists d' staging = true -> Q (Ok tt) d') -> safe J (fio (fsys (FCreateDirAll staging))) Q d.
Proof.
  intros Hst Hj HQ. apply safe_fio, safe_create_dir_all; [apply stable_dirs; [done|set_solver]|done| |].
  { pose proof (b_ancestors _ (sb_base _ Hst _ Hj)) as Ha. by apply Forall_app in Ha as [Ha _]. }
  cbn [map_err]. apply HQ.
  - apply (stable_dirs J (ancestors_of staging)); [done|set_solver| |done]. intros q Hq. by rewrite elem_of_list_to_set in Hq.
  - unfold dir_exists. cbn [sd_dirs with_dirs]. rewrite !orb_true_iff, !bool_decide_eq_true. right.
    rewrite elem_of_union, elem_of_list_to_set. left. unfold ancestors_of. cbn [ancestors]. set_solver.
Qed.

Lemma run_from_working b ia st m d : working st d -> sm_state_path m = Some state_path ->
  safe phase (run_from ia stdin output format unified (with_resume b cli) files st m)
    (run_ends (final_output = None \/ ia <> None)) d.
Proof.
  intros Hw Hm. unfold run_from. fold staging. change (aligner_of (with_resume b cli) unified) with al.
  apply fsafe_try, (safe_weaken (working st)); [intros d1; by apply phase_working|].
  apply staging_created_safe; [apply working_stable|done|]. intros d1 Hw1 Hdir. apply fsafe_try.
  eapply fsafe_mono; [|apply (process_inputs_safe (with_resume b cli) ia [] files st m d1); by eauto].
  intros [[st' m']|e] d2 _ Hr; [|by destruct Hr as [Hp Hwhy]; split]. destruct Hr as (Hw2 & Hdir2 & Hm2 & Hcm). cbn [fst snd].
  eapply fsafe_mono; [|by apply finish_run_safe]. intros r d3 _ [Hp Hr]. split; [done|]. destruct r; [done|by left].
Qed.

Lemma process_inputs_skip ia al' cli' k l st m : Forall (fun f => is_file_processed st (in_path f) = true) l ->
  process_inputs ia stdin staging format al' cli' k l st m = fret (st, m).
Proof. intros Hl. revert k. induction Hl as [|f l Hf _ IH]; intros k; cbn [process_inputs]; [done|]. by rewrite Hf. Qed.

(** After the only part was moved, a resumed run cannot finish. *)
Lemma run_from_moved b ia st m d : moved st d -> sm_state_path m = Some state_path ->
  safe phase (run_from ia stdin output format unified (with_resume b cli) files st m)
    (fun r d' => r = Err (Fails (MInvalidInput "no staged parts to finalize")) /\ moved st d') d.
Proof.
  intros Hmv Hm. unfold run_from. fold staging. change (aligner_of (with_resume b cli) unified) with al.
  apply fsafe_try, (safe_weaken (moved st)); [intros d1; by apply phase_moved|].
  apply staging_created_safe; [apply moved_stable|done|]. intros d1 Hm1 Hdir.
  rewrite process_inputs_skip by (apply complete_all; apply Hm1). apply fsafe_try. split; [by eapply phase_moved|]. cbn [fst snd].
  unfold finish_run. rewrite (mv_complete _ _ Hm1). apply fsafe_try. unfold finalize_staged_parts. apply fsafe_try, safe_fio.
  apply safe_read; [done|by eapply phase_moved|]. cbn [fexec fst]. rewrite Hdir, (mv_empty _ _ Hm1). cbn.
  split; [by eapply phase_moved|done].
Qed.

(** *** Starting *)

Lemma source_metadata d p : base d -> p ∈ map in_path files ->
  exists f, sd_files d0 !! p = Some f /\ sd_files d !! p = Some f.
Proof.
  intros [Hs _ _ _] (f & -> & Hf)%list_elem_of_fmap. pose proof (dk_sources DK) as Hd. rewrite Forall_forall in Hs, Hd.
  destruct (Hd f Hf) as [_ [sf Hsf]]. exists sf. by rewrite (Hs f Hf).
Qed.

Lemma fingerprint_bytes_safe I paths acc Q d : I d -> base d -> Forall (fun p => p ∈ map in_path files) paths ->
  Q (Ok (source_bytes paths acc)) d -> safe I (fingerprint_bytes paths acc) Q d.
Proof.
  intros Hi Hb Hp. revert acc. induction Hp as [|p paths Hin _ IH]; intros acc HQ; cbn [fingerprint_bytes source_bytes] in *.
  { by split. }
  destruct (source_metadata d p Hb Hin) as (f & Hf0 & Hf). rewrite Hf0 in HQ. cbn [default] in HQ.
  apply fsafe_try, safe_fio, safe_read; [done|done|]. cbn [fexec fst]. rewrite Hf. cbn [map_err fst snd]. by apply IH.
Qed.

Lemma fingerprint_safe I Q d : I d -> base d -> Q (Ok fingerprint) d -> safe I (fingerprint_inputs (map in_path files)) Q d.
Proof.
  intros Hi Hb HQ. unfold fingerprint_inputs. apply fsafe_try, fingerprint_bytes_safe; [done|done| |by split].
  apply Forall_forall. intros p Hp. by rewrite sort_by_perm in Hp.
Qed.

Lemma verify_safe I st Q d : I d -> base d -> state_ok st -> Q (Ok tt) d -> safe I (verify_sources_unchanged st) Q d.
Proof.
  intros Hi Hb Hs HQ. unfold verify_sources_unchanged.
  assert (Forall (fun fs => entry_ok (fs_path fs) fs) (map snd (map_to_list (ps_files st)))) as Hall.
  { apply Forall_map, Forall_forall. intros [k fs] Hin%elem_of_map_to_list. cbn. pose proof (so_entries _ Hs k fs Hin) as He.
    by pose proof He as (-> & _). }
  induction Hall as [|fs l (_ & Hk & f & Hf0 & Hsize & Hmod) _ IH]; cbn [verify_files]; [by split|].
  destruct (source_metadata d _ Hb Hk) as (f' & Hf0' & Hf'). rewrite Hf0 in Hf0'. injection Hf0' as <-.
  apply fsafe_bind, safe_read; [done|done|]. cbn [fexec fst]. rewrite Hf'. rewrite Hsize, Hmod. by rewrite !decide_False by tauto.
Qed.

Lemma checkpoint_there d st : checkpoint d st -> exists f, sd_files d !! state_path = Some f /\ state_of_json (sf_text f) = Ok st.
Proof. intros (text & Ht & Hj). unfold text_at in Ht. apply fmap_Some in Ht as (f & Hf & ->). eauto. Qed.

Lemma load_safe I st Q d : I d -> checkpoint d st -> state_ok st ->
  Q (Ok (Some st, {| sm_state_path := Some state_path; sm_state := Some st |})) d ->
  safe I (load_state (manager_new (Some state_path))) Q d.
Proof.
  intros Hi Hc Hs HQ. apply checkpoint_there in Hc as (f & Hf & Hj). unfold load_state. cbn [sm_state_path manager_new].
  apply fsafe_bind, safe_read; [done|done|]. cbn [fexec fst]. unfold path_exists. rewrite bool_decide_true by (rewrite Hf; eauto).
  cbn [orb]. apply fsafe_try, safe_fio, safe_read; [done|done|]. cbn [fexec fst]. rewrite Hf. cbn [map_err]. rewrite Hj.
  rewrite decide_False by (rewrite (so_version _ Hs); tauto). by split.
Qed.

(** What [--resume] starts from. *)
Lemma resume_safe d (Q : Result Fault Start -> SDisk -> Prop) : phase d ->
  (absent d -> forall e, Q (Err e) d) ->
  (forall st m, working st d \/ moved st d -> sm_state_path m = Some state_path -> Q (Ok (StartFrom st m)) d) ->
  (forall st, committed st d -> Q (Ok AlreadyDone) d) ->
  safe phase (resume_state (manager_new (Some state_path)) identity output) Q d.
Proof.
  intros Hp Ha Hw Hc. pose proof Hp as [Hab|Hrest].
  - destruct Hab as [Hb Hn]. unfold resume_state, load_state. cbn [sm_state_path manager_new]. apply fsafe_try, fsafe_bind, safe_read; [done|done|].
    cbn [fexec fst]. unfold path_exists. pose proof (b_dirs _ Hb) as Hd. rewrite Forall_forall in Hd.
    rewrite (Hd state_path) by (unfold names, managed; set_solver). unfold text_at in Hn. apply fmap_None in Hn. rewrite Hn.
    rewrite bool_decide_false by (by intros [? ?]). cbn [orb]. split; [done|]. split; [done|]. apply Ha. split; [done|].
    unfold text_at. by rewrite Hn.
  - assert (exists st, checkpoint d st /\ state_ok st /\ base d /\
      ((working st d \/ moved st d) /\ ps_committed st = false \/ committed st d)) as (st & Hck & Hs & Hb & Hcase).
    { destruct Hrest as [[st Hx]|[[st Hx]|[st Hx]]]; exists st; (split; [apply Hx|]; split; [apply Hx|]; split; [apply Hx|]);
        [left; split; [by left|apply Hx]|left; split; [by right|apply Hx]|by right]. }
    unfold resume_state. apply fsafe_try, (load_safe phase st); [done|done|done|]. rewrite decide_False by (rewrite (so_identity _ Hs); tauto).
    apply fsafe_try, verify_safe; [done|done|done|]. destruct Hcase as [[Hx Ho]|Hcm].
    + rewrite Ho. cbn [andb]. split; [done|]. by apply Hw.
    + rewrite (cm_committed _ _ Hcm), (cm_complete _ _ Hcm). cbn [andb]. apply fsafe_bind, safe_read; [done|done|]. cbn [fexec fst].
      destruct (cm_output _ _ Hcm) as (t & _ & Ht). unfold path_exists. rewrite bool_decide_true.
      * cbn [orb]. split; [done|]. by eapply Hc.
      * unfold text_at in Ht. apply fmap_Some in Ht as (f & -> & _). eauto.
Qed.

(** A new state after the files [pre] were added. *)
Record adding (pre : list InputFile) (st : ProcessingState) : Prop := {
  ad_version : ps_schema_version st = CHECKPOINT_SCHEMA_VERSION;
  ad_identity : ps_identity st = identity;
  ad_total : ps_total_files st = length pre;
  ad_processed : ps_processed_files st = 0;
  ad_open : ps_committed st = false;
  ad_entries : map_Forall (fun k fs => entry_ok k fs /\ fs_processed fs = false) (ps_files st);
  ad_keys : Forall (fun f => is_Some (ps_files st !! in_path f)) pre;
}.

Lemma add_inputs_safe I pre l st Q d : I d -> base d -> files = pre ++ l -> adding pre st ->
  (forall st', adding files st' -> Q (Ok st') d) -> safe I (add_inputs l st) Q d.
Proof.
  intros Hi Hb. revert pre st. induction l as [|f l IH]; intros pre st Hfiles Had HQ; cbn [add_inputs].
  { rewrite app_nil_r in Hfiles. split; [done|]. apply HQ. by rewrite Hfiles. }
  assert (in_path f ∈ map in_path files) as Hin by (rewrite Hfiles, map_app; set_solver).
  destruct (source_metadata d _ Hb Hin) as (sf & Hf0 & Hf).
  apply fsafe_try, safe_fio, safe_read; [done|done|]. cbn [fexec fst]. rewrite Hf. cbn [map_err fst snd].
  apply (IH (pre ++ [f])); [by rewrite <- app_assoc| |done]. destruct Had as [Hv Hid Ht Hp Ho He Hk].
  split; try done; cbn.
  - rewrite Ht, length_app. done.
  - apply map_Forall_insert_2; [|done]. split; [|done]. split; [done|]. split; [done|]. exists sf. done.
  - apply Forall_app. rewrite Forall_singleton. split; [|by rewrite lookup_insert_eq].
    eapply Forall_impl; [exact Hk|]. intros g [fs Hg]. rewrite lookup_insert. case_decide; eauto.
Qed.

Lemma adding_ok st : adding files st -> state_ok st /\ forall k, is_file_processed st k = false.
Proof.
  intros [Hv Hid Ht Hp Ho He Hk].
  assert (forall k, is_file_processed st k = false) as Hnone.
  { intros k. unfold is_file_processed. destruct (ps_files st !! k) as [fs|] eqn:E; [|done]. by destruct (He _ _ E) as [_ Hfs]. }
  split; [|done]. split; try done.
  - rewrite Hp. unfold processed_count. assert (filter (fun f => is_file_processed st (in_path f) = true) files = []) as ->; [|done].
    apply elem_of_nil_inv. intros f [Hf _]%list_elem_of_filter. by rewrite Hnone in Hf.
  - intros k fs Hfs. by destruct (He _ _ Hfs).
Qed.

Definition emptied (d : SDisk) : Prop := absent d /\ files_in d staging = [].

Lemma emptied_stable : stable emptied.
Proof.
  apply stable_and; [apply absent_stable| |].
  - intros d d' Hf _. by rewrite !files_in_nil, Hf.
  - intros d t Hn. apply empty_put; [|done]. apply parent_outside. set_solver.
Qed.

Lemma emptied_installed st d f : emptied d -> adding files st -> state_of_json (sf_text f) = Ok st -> working st (installed f d).
Proof.
  intros [[Hb Hn] Hempty] Had Hj. destruct (adding_ok st Had) as [Hs Hnone]. rewrite files_in_nil in Hempty.
  split; [by apply installed_base|by apply installed_checkpoint|done|apply Had| |].
  - intros i g Hi Hg. by rewrite Hnone in Hg.
  - apply installed_clean. intros q Hq Hqs. by destruct (Hempty q Hq).
Qed.

Lemma absent_removed d d' : absent d -> interrupted (FRemoveDirAll staging) d d' -> absent d'.
Proof.
  intros [Hb Hn] Hr. split; [by eapply removed_base|]. by rewrite (removed_text _ _ _ Hr) by set_solver.
Qed.

Lemma empty_staging_safe d : absent d -> staging ∈ sd_dirs d \/ files_in d staging = [] ->
  safe absent (remove_staging staging) (fun _ d' => emptied d') d.
Proof.
  intros Ha Hst. unfold remove_staging. apply fsafe_bind, safe_read; [done|done|]. cbn [fexec fst].
  destruct (path_exists d staging) eqn:Ep.
  - apply fsafe_bind. cbn [safe fsys]. split; [done|]. split; [by eauto using absent_removed|].
    pose proof (remove_dir_effect staging d) as He. cbn [fexec] in *. destruct (bool_decide (staging ∈ sd_dirs d)) eqn:Ed; cbn [snd] in He.
    + assert (absent (snd (fexec (FRemoveDirAll staging) d))) as Ha'.
      { cbn [fexec]. rewrite Ed. cbn [snd]. destruct He as [He|He]; [by rewrite He|by eapply absent_removed]. }
      cbn [fexec] in Ha'. rewrite Ed in Ha'. split; [done|]. split; [done|]. split; [done|]. apply files_in_nil. cbn.
      intros q [f [Hf Hbq]%map_lookup_filter_Some] Hq. cbn in Hbq. by rewrite (below_parent _ _ Hq) in Hbq.
    + apply bool_decide_eq_false in Ed. destruct Hst as [?|Hst]; [done|]. split; [done|]. split; [done|]. by split.
  - split; [done|]. split; [done|]. destruct Hst as [Hst|?]; [|done]. unfold path_exists, dir_exists in Ep.
    apply orb_false_iff in Ep as [_ Ep]. rewrite !orb_false_iff, !bool_decide_eq_false in Ep. by destruct Ep as [_ Ep].
Qed.

(** What a fresh run starts from. *)
Lemma fresh_safe d : absent d -> staging ∈ sd_dirs d \/ files_in d staging = [] ->
  safe phase (fresh_state (manager_new (Some state_path)) identity staging files)
    (fun r d' => exists st m, r = Ok (StartFrom st m) /\ working st d' /\ sm_state_path m = Some state_path) d.
Proof.
  intros Ha Hst. unfold fresh_state. apply fsafe_bind, (safe_weaken absent); [by left|].
  eapply fsafe_mono; [|by apply empty_staging_safe]. intros [] d1 _ He1.
  assert (forall d, emptied d -> phase d) as Hph by (intros d' [? _]; by left).
  pose proof (stable_clock _ emptied_stable) as Hclock.
  apply fsafe_bind. unfold create_state. apply fsafe_bind, (safe_weaken emptied); [done|]. apply safe_now; [done|done|].
  set (d2 := {| sd_files := _ |}). assert (emptied d2) as He2 by by apply (Hclock d1).
  apply fsafe_bind, (safe_weaken emptied); [done|]. apply safe_now; [done|done|].
  set (d3 := {| sd_files := _ |}). assert (emptied d3) as He3 by by apply (Hclock d2).
  split; [by apply Hph|]. apply fsafe_try, (safe_weaken emptied); [done|].
  apply (add_inputs_safe emptied []); [done|apply He3|done|by split|]. intros st Had. apply fsafe_try.
  apply (safe_weaken (fun d => emptied d \/ working st d)); [intros d4 [Hx|Hx]; [by apply Hph|by eapply phase_working]|].
  eapply fsafe_mono; [|apply (save_safe emptied (working st)); [apply emptied_stable|done|done|apply HJ|]].
  - intros r d5 _ (Hw & m & -> & Hm). split; [by eapply phase_working|]. eauto.
  - intros d4 f He4 _ Hj. by apply emptied_installed.
Qed.

(** ** Sequences of runs *)

(** A run of the command, with or without [--resume]. *)
Definition run (resume : bool) (interrupt_after : option nat) : fprog (Result Fault unit) :=
  execute_resumable interrupt_after stdin state_path files unified output format (with_resume resume cli).

Lemma run_fresh_safe ia d : absent d -> staging ∈ sd_dirs d \/ files_in d staging = [] ->
  safe phase (run false ia) (run_ends (final_output = None \/ ia <> None)) d.
Proof.
  intros Ha Hst. unfold run, execute_resumable. apply fsafe_try, fingerprint_safe; [by left|apply Ha|].
  change (identity_of (with_resume false cli) fingerprint output format) with identity. cbn [cli_resume with_resume].
  apply fsafe_try. eapply fsafe_mono; [|by apply fresh_safe]. intros r d1 _ (st & m & -> & Hw & Hm). by apply run_from_working.
Qed.

Lemma run_resume_safe ia d : phase d ->
  safe phase (run true ia) (run_ends (final_output = None \/ ia <> None \/ absent d \/ exists st, moved st d)) d.
Proof.
  intros Hp. assert (base d) as Hb by (by destruct Hp as [[]|[[? []]|[[? []]|[? []]]]]).
  unfold run, execute_resumable. apply fsafe_try, fingerprint_safe; [done|done|].
  change (identity_of (with_resume true cli) fingerprint output format) with identity. cbn [cli_resume with_resume].
  apply fsafe_try, resume_safe; [done| | |].
  - intros Ha e. split; [done|tauto].
  - intros st m [Hw|Hmv] Hm.
    + eapply fsafe_mono; [|by apply run_from_working]. intros r d1 _ [Hp1 Hr]. split; [done|]. destruct r; [done|tauto].
    + eapply fsafe_mono; [|by eapply run_from_moved]. intros r d1 _ [-> Hmv1]. split; [by eapply phase_moved|]. eauto 6.
  - intros st Hc. split; [done|]. split; [done|]. eauto.
Qed.

(** The disks after a first run and any number of resumed ones with the same options,
    each of which may stop anywhere (or run to its end).  A second fresh run over a
    checkpoint is not among them: it can lose rows (see [restart_loses_rows]). *)
Inductive history : SDisk -> Prop :=
| history_first ia d : stops (run false ia) d0 d -> history d
| history_resumed ia d d' : history d -> stops (run true ia) d d' -> history d'.

Lemma absent_initial : absent d0.
Proof. split; [apply base_initial|apply DK]. Qed.

Lemma history_phase d : history d -> phase d.
Proof.
  induction 1 as [ia d Hs|ia d d' _ IH Hs].
  - eapply safe_stops; [|exact Hs]. apply run_fresh_safe; [apply absent_initial|apply DK].
  - eapply safe_stops; [|exact Hs]. by apply run_resume_safe.
Qed.

(** The one state from which a resumed run does not finish: all files are
    recorded, the output is not, and the parts are gone. *)
Definition stuck (d : SDisk) : Prop :=
  exists st, checkpoint d st /\ is_complete st = true /\ ps_committed st = false /\ files_in d staging = [].

Lemma run_resumes ia d : history d ->
  let '(r, d') := frun (run true ia) d in
  match r with
  | Ok _ => exists t, final_output = Some t /\ text_at d' output = Some t
  | Err _ => final_output = None \/ ia <> None \/ text_at d state_path = None \/ stuck d
  end.
Proof.
  intros Hh. apply history_phase in Hh. pose proof (fsafe_run _ _ _ _ (run_resume_safe ia d Hh)) as Hr.
  destruct (frun (run true ia) d) as [[u|e] d']; destruct Hr as [_ Hr].
  - destruct Hr as [st Hc]. apply Hc.
  - destruct Hr as [Hf|[Hi|[[_ Ha]|[st Hm]]]]; [by left|by right; left|by do 2 right; left|]. do 3 right. exists st.
    split; [apply Hm|]. split; [apply Hm|]. split; apply Hm.
Qed.

Lemma run_starts ia :
  let '(r, d') := frun (run false ia) d0 in
  match r with
  | Ok _ => exists t, final_output = Some t /\ text_at d' output = Some t
  | Err _ => final_output = None \/ ia <> None
  end.
Proof.
  pose proof (fsafe_run _ _ _ _ (run_fresh_safe ia d0 absent_initial (dk_staging DK))) as Hr.
  destruct (frun (run false ia) d0) as [[u|e] d']; destruct Hr as [_ Hr]; [|done]. destruct Hr as [st Hc]. apply Hc.
Qed.
End Phases.

(** Resumable conversion: the claims about sequences of stopped and resumed runs,
    and what the assembled CSV output contains. *)

(** * Stopping after some calls *)

(** The disk after the first [n] calls. *)
Fixpoint after {A} (n : nat) (p : fprog A) (d : SDisk) : SDisk :=
  match n, p with
  | S n, FCall c k => let '(x, d1) := fexec c d in after n (k x) d1
  | _, _ => d
  end.

Lemma after_stops {A} n (p : fprog A) d : stops p d (after n p d).
Proof.
  revert p d. induction n as [|n IH]; intros p d; [destruct p; by left|]. destruct p as [a|c k]; [by left|]. cbn [after stops].
  right. right. destruct (fexec c d). apply IH.
Qed.

Lemma frun_stops {A} (p : fprog A) d : stops p d (snd (frun p d)).
Proof.
  revert d. induction p as [a|c k IH]; intros d; [by left|]. cbn [frun stops]. right. right. destruct (fexec c d). apply IH.
Qed.

(** * Exactly once *)

Section Claims.
Context `{ArrowCrate} `{CsvCrate} `{ParquetIo} `{StateJson} `{Digests}.

(** C19: Let sources, checkpoint, staged parts and output have paths that do not get in
    each other's way, the part names sort by number, and no checkpoint exist before the
    first run ([layout], [disk_ok]).  After one fresh run and any number of [--resume]
    runs with the same options, stopped wherever: when a further resumed run reports success, the output is the one of an uninterrupted conversion of the
    sources, with the rows of every input exactly once. *)
Theorem resumed_output_exact stdin state_path output files unified format cli d0 ia d d' :
  layout state_path output files format -> disk_ok state_path output files format d0 ->
  (forall st, is_ok (state_to_json st) = true) ->
  history stdin state_path output files unified format cli d0 d ->
  frun (run stdin state_path output files unified format cli true ia) d = (Ok tt, d') ->
  exists t, final_output files unified format cli d0 = Some t /\ text_at d' output = Some t.
Proof.
  intros LY DK HJ Hh Hr. pose proof (run_resumes stdin state_path output files unified format cli d0 LY DK HJ ia d Hh) as Hx.
  by rewrite Hr in Hx.
Qed.

(** C20: Under the same conditions on paths and disk it does report success: an undisturbed run, the first one or a resumed one
    after one fresh run and any number of [--resume] runs with the same options that
    left a checkpoint, produces the output if there is one, except when the only part was already moved to the output and
    the commit was not recorded. *)
Theorem resumed_run_completes stdin state_path output files unified format cli d0 d t :
  layout state_path output files format -> disk_ok state_path output files format d0 ->
  (forall st, is_ok (state_to_json st) = true) ->
  final_output files unified format cli d0 = Some t ->
  (exists d', frun (run stdin state_path output files unified format cli false None) d0 = (Ok tt, d') /\ text_at d' output = Some t) /\
  (history stdin state_path output files unified format cli d0 d -> text_at d state_path <> None -> ~ stuck state_path output d ->
   exists d', frun (run stdin state_path output files unified format cli true None) d = (Ok tt, d') /\ text_at d' output = Some t).
Proof.
  intros LY DK HJ Hf. split.
  - pose proof (run_starts stdin state_path output files unified format cli d0 LY DK HJ None) as Hx.
    destruct (frun _ d0) as [[[]|e] d1]; [|by destruct Hx as [Hx|Hx]; [rewrite Hf in Hx|]].
    exists d1. split; [done|]. destruct Hx as (t' & Ht' & Ho). congruence.
  - intros Hh Hs Hn. pose proof (run_resumes stdin state_path output files unified format cli d0 LY DK HJ None d Hh) as Hx.
    destruct (frun _ d) as [[[]|e] d1].
    + exists d1. split; [done|]. destruct Hx as (t' & Ht' & Ho). congruence.
    + exfalso. rewrite Hf in Hx. by destruct Hx as [?|[?|[?|?]]].
Qed.
End Claims.

(** * CSV output *)

Definition newline : ascii := ascii_of_N 10.

Lemma after_newline_head h rest : has_char newline h = false -> after_newline (h +:+ String newline rest) = Some rest.
Proof.
  induction h as [|c h IH]; intros Hh; sapp; cbn [after_newline has_char] in *.
  - by rewrite decide_True.
  - apply orb_false_iff in Hh as [Hc Hh]. rewrite decide_False; [by apply IH|]. intros ->.
    by apply bool_decide_eq_false in Hc.
Qed.

Lemma join_cons b l : b +:+ join_strings EmptyString l = join_strings EmptyString (b :: l).
Proof. destruct l; cbn [join_strings]; [apply app_nil_string|done]. Qed.

(** When every part starts with the same one-line header and is valid UTF-8, the
    assembled CSV file is that header followed by the rows of all parts in their
    order: no row is lost and no header repeated. *)
Theorem csv_output_rows h bodies : has_char newline h = false ->
  Forall (fun b => valid_utf8 (h +:+ String newline b) = true) bodies -> bodies <> [] ->
  csv_output (map (fun b => h +:+ String newline b) bodies) = h +:+ String newline (join_strings EmptyString bodies).
Proof.
  intros Hh Hv Hne. destruct bodies as [|b bodies]; [done|]. cbn [map csv_output]. apply Forall_cons in Hv as [_ Hv].
  assert (csv_bodies (map (fun b => h +:+ String newline b) bodies) = join_strings EmptyString bodies) as ->.
  { clear Hne b. induction Hv as [|b l Hb _ IH]; [done|]. cbn [map csv_bodies].
    rewrite from_utf8_lossy_valid, after_newline_head by done. cbn [default]. rewrite IH. apply join_cons. }
  rewrite app_assoc_string. sapp. by rewrite join_cons.
Qed.
