(* ===== verification/StreamConcurrent.v ===== *)
(** Conversion without a state file: one reader task per input, a channel of eight
    batches and one writer task (process_files_concurrently, spawn_readers and
    spawn_writer of src/crates/parqonaut-stream/src/pipeline.rs), as a step
    relation.  What the writer does with a batch is an argument: its answer to
    each batch, to opening the output and to finishing it.  The tasks run on tokio's
    blocking pool; its size is an argument too.  Conversion from and to object storage
    (storage_convert.rs) runs the same tasks with other ends. *)

From Stdlib Require Import Ascii.
From S2P Require Import Prelude RepairPlan RepairExec ScanInfer Location TypeUnify StreamColumns StreamFs StreamState StreamPipeline.

(** * Tasks *)

Record Reader := {
  rd_todo : list (Result Fault RecordBatch);  (** the aligned batches still to send *)
  rd_end : option (Result Fault unit);
}.

Record Conversion := {
  cv_readers : list Reader;
  cv_queue : list RecordBatch;
  cv_opened : bool;  (** the writer has opened the output *)
  cv_open : bool;  (** the writer still holds its end of the channel *)
  cv_written : list RecordBatch;
  cv_writer : option (Result Fault unit);
}.

Definition channel_capacity : nat := 8.

Section Readers.
Context `{ArrowCrate} `{CsvCrate} `{ParquetIo}.

(** The batches of one input as its task aligns them; a source that cannot be
    opened is an error in place of the first. *)
Definition reader_batches (cli : Cli) (al : BatchAligner) (file : InputFile) (content : Result Fault string)
    : list (Result Fault RecordBatch) :=
  match content ≫= source_batches cli (N.to_nat 64000) (in_format file) with
  | Err e => [Err e]
  | Ok (fields, batches) => map (fun b => b ≫= fun batch => align_batch_with_source al batch fields) batches
  end.
End Readers.

Definition reader_new (batches : list (Result Fault RecordBatch)) : Reader := {| rd_todo := batches; rd_end := None |}.

Section Steps.
Context (threads : nat) (opened : Result Fault unit) (accepts : list RecordBatch -> RecordBatch -> Result Fault unit)
  (finished : list RecordBatch -> Result Fault unit).

Definition conversion_start (inputs : list (list (Result Fault RecordBatch))) : Conversion :=
  {| cv_readers := map reader_new inputs; cv_queue := []; cv_opened := false; cv_open := true; cv_written := [];
     cv_writer := None |}.

Definition set_reader (i : nat) (r : Reader) (c : Conversion) : Conversion :=
  {| cv_readers := <[i := r]> (cv_readers c); cv_queue := cv_queue c; cv_opened := cv_opened c; cv_open := cv_open c;
     cv_written := cv_written c; cv_writer := cv_writer c |}.

(** The writer ends and drops its end of the channel. *)
Definition writer_ended (res : Result Fault unit) (c : Conversion) : Conversion :=
  {| cv_readers := cv_readers c; cv_queue := []; cv_opened := cv_opened c; cv_open := false;
     cv_written := cv_written c; cv_writer := Some res |}.

(** [spawn_blocking]: tasks are queued in the order of their creation, the readers
    and then the writer, and start as threads of the pool are free.  A thread runs
    its task to the end, so as many tasks have started as there are threads and
    tasks that ended.  (tokio's pool has 512 threads unless configured otherwise.) *)
Definition ended (c : Conversion) : nat := length (filter (fun r => is_Some (rd_end r)) (cv_readers c)).
Definition task_started (c : Conversion) (task : nat) : Prop := task < threads + ended c.
Definition writer_started (c : Conversion) : Prop := task_started c (length (cv_readers c)).

Inductive conversion_step (c : Conversion) : Conversion -> Prop :=
| step_send i b todo :
    task_started c i -> cv_readers c !! i = Some {| rd_todo := Ok b :: todo; rd_end := None |} -> cv_open c = true ->
    length (cv_queue c) < channel_capacity ->
    conversion_step c
      {| cv_readers := <[i := {| rd_todo := todo; rd_end := None |}]> (cv_readers c); cv_queue := cv_queue c ++ [b];
         cv_opened := cv_opened c; cv_open := true; cv_written := cv_written c; cv_writer := cv_writer c |}
| step_send_closed i b todo :
    task_started c i -> cv_readers c !! i = Some {| rd_todo := Ok b :: todo; rd_end := None |} -> cv_open c = false ->
    conversion_step c (set_reader i {| rd_todo := Ok b :: todo; rd_end := Some (Ok tt) |} c)
| step_reader_fails i e todo :
    task_started c i -> cv_readers c !! i = Some {| rd_todo := Err e :: todo; rd_end := None |} ->
    conversion_step c (set_reader i {| rd_todo := Err e :: todo; rd_end := Some (Err e) |} c)
| step_reader_done i :
    task_started c i -> cv_readers c !! i = Some {| rd_todo := []; rd_end := None |} ->
    conversion_step c (set_reader i {| rd_todo := []; rd_end := Some (Ok tt) |} c)
| step_open :
    writer_started c -> cv_writer c = None -> cv_opened c = false -> opened = Ok tt ->
    conversion_step c
      {| cv_readers := cv_readers c; cv_queue := cv_queue c; cv_opened := true; cv_open := cv_open c;
         cv_written := cv_written c; cv_writer := None |}
| step_open_fails e :
    writer_started c -> cv_writer c = None -> cv_opened c = false -> opened = Err e ->
    conversion_step c (writer_ended (Err e) c)
| step_write b queue :
    writer_started c -> cv_writer c = None -> cv_opened c = true -> cv_queue c = b :: queue -> accepts (cv_written c) b = Ok tt ->
    conversion_step c
      {| cv_readers := cv_readers c; cv_queue := queue; cv_opened := true; cv_open := cv_open c;
         cv_written := cv_written c ++ [b]; cv_writer := None |}
| step_write_fails b queue e :
    writer_started c -> cv_writer c = None -> cv_opened c = true -> cv_queue c = b :: queue -> accepts (cv_written c) b = Err e ->
    conversion_step c (writer_ended (Err e) c)
| step_writer_done :
    writer_started c -> cv_writer c = None -> cv_opened c = true -> cv_queue c = [] -> Forall (fun r => is_Some (rd_end r)) (cv_readers c) ->
    conversion_step c (writer_ended (finished (cv_written c)) c).

Definition conversion_reach (inputs : list (list (Result Fault RecordBatch))) : Conversion -> Prop :=
  rtc conversion_step (conversion_start inputs).

Definition conversion_over (c : Conversion) : Prop :=
  is_Some (cv_writer c) /\ Forall (fun r => is_Some (rd_end r)) (cv_readers c).

(** [handle.await??] for each reader in order, then for the writer. *)
Definition conversion_result (c : Conversion) : Result Fault unit :=
  _ ← try_for (fun r => default (Ok tt) (rd_end r)) (cv_readers c); default (Ok tt) (cv_writer c).

(** * Invariant *)

(** [out] holds the lists of [sent], element by element in some interleaving. *)
Inductive merged : list (list RecordBatch) -> list RecordBatch -> Prop :=
| merged_nil n : merged (replicate n []) []
| merged_snoc sent i l b out : merged sent out -> sent !! i = Some l -> merged (<[i := l ++ [b]]> sent) (out ++ [b]).

(** A reader has sent [s] of its input; when it ended well, all of it. *)
Definition reader_inv (input : list (Result Fault RecordBatch)) (s : list RecordBatch) (r : Reader) : Prop :=
  input = map Ok s ++ rd_todo r /\ forall u, rd_end r = Some (Ok u) -> rd_todo r = [].

Definition failed_writer (c : Conversion) : bool := match cv_writer c with Some (Err _) => true | _ => false end.

Record conversion_inv (inputs : list (list (Result Fault RecordBatch))) (c : Conversion) : Prop := {
  ci_sent : failed_writer c = false -> exists sent, merged sent (cv_written c ++ cv_queue c) /\
    Forall3 reader_inv inputs sent (cv_readers c);
  ci_capacity : length (cv_queue c) <= channel_capacity;
  ci_open : cv_open c = true <-> cv_writer c = None;
  ci_finished : is_Some (cv_writer c) -> cv_queue c = [] /\
    (failed_writer c = false -> Forall (fun r => is_Some (rd_end r)) (cv_readers c));
}.

Lemma Forall3_insert_23 {A B C} (P : A -> B -> C -> Prop) la lb lc i b c :
  Forall3 P la lb lc -> (forall a b' c', la !! i = Some a -> lb !! i = Some b' -> lc !! i = Some c' -> P a b c) ->
  Forall3 P la (<[i := b]> lb) (<[i := c]> lc).
Proof.
  intros Hf. revert i. induction Hf as [|a b' c' la lb lc Hp Hrest IH]; intros i Hi; [by constructor|].
  destruct i as [|i]; cbn.
  - constructor; [|done]. by apply (Hi a b' c').
  - constructor; [done|]. apply IH. intros x y z Hx Hy Hz. by apply (Hi x y z).
Qed.

Lemma Forall3_insert_3 {A B C} (P : A -> B -> C -> Prop) la lb lc i c :
  Forall3 P la lb lc -> (forall a b c', la !! i = Some a -> lb !! i = Some b -> lc !! i = Some c' -> P a b c) ->
  Forall3 P la lb (<[i := c]> lc).
Proof.
  intros Hf. revert i. induction Hf as [|a b' c' la lb lc Hp Hrest IH]; intros i Hi; [by constructor|].
  destruct i as [|i]; cbn.
  - constructor; [|done]. by apply (Hi a b' c').
  - constructor; [done|]. apply IH. intros x y z Hx Hy Hz. by apply (Hi x y z).
Qed.

Lemma start_inv inputs : conversion_inv inputs (conversion_start inputs).
Proof.
  assert (exists sent, merged sent ([] ++ []) /\ Forall3 reader_inv inputs sent (map reader_new inputs)) as Hs.
  { exists (replicate (length inputs) []). split; [constructor|].
    induction inputs as [|l inputs IH]; constructor; [by split|done]. }
  split; cbn [conversion_start cv_writer cv_queue cv_readers cv_written cv_open length]; [done|lia|done|by intros [? ?]].
Qed.

(** A step of reader [i] that sends nothing. *)
Lemma reader_step_inv inputs c i r r' : conversion_inv inputs c -> cv_readers c !! i = Some r -> rd_end r = None ->
  rd_todo r' = rd_todo r -> is_Some (rd_end r') -> (forall u, rd_end r' = Some (Ok u) -> rd_todo r = [] \/ cv_open c = false) ->
  conversion_inv inputs (set_reader i r' c).
Proof.
  intros [Hs Hc Ho Hf] Hi Hr Ht He Hend. split; cbn; [|done|done|].
  - intros Hw. destruct (Hs Hw) as (sent & Hm & Hall). exists sent. split; [done|].
    apply Forall3_insert_3; [done|]. intros a b c' Hla Hlb Hc'. assert (c' = r) as -> by congruence.
    assert (reader_inv a b r) as [Hin _] by by eapply Forall3_lookup_lmr.
    split; [by rewrite Ht|]. intros u Hu. rewrite Ht. destruct (Hend u Hu) as [?|Hop]; [done|].
    exfalso. assert (is_Some (cv_writer c)) as Hsome.
    { destruct (cv_writer c) eqn:E; [eauto|]. by rewrite (proj2 Ho) in Hop. }
    destruct (Hf Hsome) as [_ Hends]. specialize (Hends Hw). rewrite Forall_lookup in Hends.
    destruct (Hends _ _ Hi) as [x Hx]. congruence.
  - intros Hsome. destruct (Hf Hsome) as [Hq Hends]. split; [done|]. intros Hw. apply Forall_insert; [by apply Hends|done].
Qed.

Lemma conversion_step_inv inputs c c' : conversion_inv inputs c -> conversion_step c c' -> conversion_inv inputs c'.
Proof.
  intros Hinv Hstep. pose proof Hinv as [Hs Hc Ho Hf].
  destruct Hstep as [i b todo _ Hi Hopen Hcap|i b todo _ Hi Hopen|i e todo _ Hi|i _ Hi|_ Hw Ho' He|e _ Hw Ho' He
    |b queue _ Hw Ho' Hq Ha|b queue e _ Hw Ho' Hq Ha|_ Hw Ho' Hq Hends].
  - assert (cv_writer c = None) as Hw by by apply Ho. split; cbn; [| |done|by rewrite Hw; intros [? ?]].
    + intros _. destruct (Hs ltac:(unfold failed_writer; by rewrite Hw)) as (sent & Hm & Hall).
      assert (exists s, sent !! i = Some s) as [s Hsi].
      { apply lookup_lt_is_Some. apply lookup_lt_Some in Hi. pose proof (Forall3_length_lm _ _ _ _ Hall). pose proof (Forall3_length_lr _ _ _ _ Hall). lia. }
      exists (<[i := s ++ [b]]> sent). rewrite app_assoc. split; [by apply merged_snoc|].
      apply Forall3_insert_23; [done|]. intros a s' r Ha Hs' Hr. assert (s' = s) as -> by congruence.
      assert (r = {| rd_todo := Ok b :: todo; rd_end := None |}) as -> by congruence.
      assert (reader_inv a s {| rd_todo := Ok b :: todo; rd_end := None |}) as [Hin _] by by eapply Forall3_lookup_lmr.
      split; [|done]. cbn in *. rewrite Hin, map_app. cbn. by rewrite <- app_assoc.
    + rewrite length_app. cbn. lia.
  - eapply reader_step_inv; [done|done|done|done|by eauto|]. by right.
  - eapply reader_step_inv; [done|done|done|done|by eauto|]. done.
  - eapply reader_step_inv; [done|done|done|done|by eauto|]. by left.
  - split; cbn; [|done|by rewrite Hw in Ho|by intros [? ?]]. intros _. apply Hs. unfold failed_writer. by rewrite Hw.
  - split; cbn; [done|lia|done|]. by intros _.
  - split; cbn; [| |by rewrite Hw in Ho|by intros [? ?]].
    + intros _. destruct (Hs ltac:(unfold failed_writer; by rewrite Hw)) as (sent & Hm & Hall). exists sent.
      rewrite Hq in Hm. by rewrite <- app_assoc.
    + rewrite Hq in Hc. cbn in Hc. lia.
  - split; cbn; [done|lia|done|]. by intros _.
  - split; cbn; [|lia|done|by intros _]. intros _. rewrite Hq in Hs.
    destruct (Hs ltac:(unfold failed_writer; by rewrite Hw)) as (sent & Hm & Hall). eauto.
Qed.

Lemma reach_inv inputs c : conversion_reach inputs c -> conversion_inv inputs c.
Proof. intros Hr. revert Hr. apply rtc_ind_r; [apply start_inv|]. intros c1 c2 _ Hs Hi. by eapply conversion_step_inv. Qed.

Lemma reach_length inputs c : conversion_reach inputs c -> length (cv_readers c) = length inputs.
Proof.
  revert c. apply (rtc_ind_r (fun c => length (cv_readers c) = length inputs)); [by cbn; rewrite length_map|].
  intros c1 c2 _ Hs IH. destruct Hs; cbn; rewrite ?length_insert; done.
Qed.

(** * Progress *)

Definition reader_work (r : Reader) : nat := 2 * length (rd_todo r) + match rd_end r with None => 1 | Some _ => 0 end.

(** What is left to do; every step takes something away. *)
Definition conversion_work (c : Conversion) : nat :=
  sum_list_with reader_work (cv_readers c) + length (cv_queue c)
  + (if cv_opened c then 0 else 1) + match cv_writer c with None => 1 | Some _ => 0 end.

Lemma sum_list_with_insert {A} (f : A -> nat) (l : list A) i r r' : l !! i = Some r ->
  sum_list_with f (<[i := r']> l) + f r = sum_list_with f l + f r'.
Proof.
  revert i. induction l as [|x l IH]; intros i Hi; [done|]. destruct i as [|i]; [cbn in *; injection Hi as ->; lia|].
  specialize (IH i Hi). change (<[S i := r']> (x :: l)) with (x :: <[i := r']> l). cbn [sum_list_with]. lia.
Qed.

Lemma reader_work_eq todo e :
  reader_work {| rd_todo := todo; rd_end := e |} = 2 * length todo + match e with None => 1 | Some _ => 0 end.
Proof. done. Qed.

Ltac work_arith := rewrite !reader_work_eq in *; cbn [length] in *; lia.

Lemma step_work c c' : conversion_step c c' -> conversion_work c' < conversion_work c.
Proof.
  unfold conversion_work.
  destruct 1 as [i b todo _ Hi Hopen Hcap|i b todo _ Hi Hopen|i e todo _ Hi|i _ Hi|_ Hw Ho He|e _ Hw Ho He
    |b queue _ Hw Ho Hq Ha|b queue e _ Hw Ho Hq Ha|_ Hw Ho Hq Hends];
    cbn [cv_readers cv_queue cv_opened cv_writer set_reader writer_ended]; try (rewrite ?Hq, ?Ho, ?Hw; cbn [length]; lia).
  - pose proof (sum_list_with_insert reader_work _ _ _ {| rd_todo := todo; rd_end := None |} Hi) as Hsum. rewrite length_app. work_arith.
  - pose proof (sum_list_with_insert reader_work _ _ _ {| rd_todo := Ok b :: todo; rd_end := Some (Ok tt) |} Hi) as Hsum. work_arith.
  - pose proof (sum_list_with_insert reader_work _ _ _ {| rd_todo := Err e :: todo; rd_end := Some (Err e) |} Hi) as Hsum. work_arith.
  - pose proof (sum_list_with_insert reader_work _ _ _ {| rd_todo := []; rd_end := Some (Ok tt) |} Hi) as Hsum. work_arith.
Qed.

(** The readers and the writer fit into the pool. *)
Definition pool_fits (c : Conversion) : Prop := length (cv_readers c) < threads.

Lemma fits_started c i r : pool_fits c -> cv_readers c !! i = Some r -> task_started c i.
Proof. unfold pool_fits, task_started. intros Hp Hi%lookup_lt_Some. lia. Qed.

Lemma fits_writer c : pool_fits c -> writer_started c.
Proof. unfold pool_fits, writer_started, task_started. lia. Qed.

(** A task that has not ended can move. *)
Lemma reader_moves c i r : pool_fits c -> cv_readers c !! i = Some r -> rd_end r = None ->
  cv_queue c = [] -> exists c', conversion_step c c'.
Proof.
  intros Hp Hi Hr Hq. pose proof (fits_started c i r Hp Hi) as Hst.
  destruct r as [todo e]. cbn in Hr. subst e. destruct todo as [|[b|e] todo].
  - eexists. by apply step_reader_done.
  - destruct (cv_open c) eqn:Eo; eexists; [eapply step_send; [done|done|done|]; rewrite Hq; unfold channel_capacity; cbn; lia|by eapply step_send_closed].
  - eexists. by eapply step_reader_fails.
Qed.

Lemma unended_moves c : pool_fits c -> cv_queue c = [] ->
  ~ Forall (fun r => is_Some (rd_end r)) (cv_readers c) -> exists c', conversion_step c c'.
Proof.
  intros Hp Hq Hnot. apply not_Forall_Exists in Hnot; [|intros r; apply _]. apply Exists_exists in Hnot as (r & Hr & He).
  apply list_elem_of_lookup in Hr as (i & Hi). eapply reader_moves; [done|done| |done]. cbn in He. by apply eq_None_not_Some.
Qed.

Lemma conversion_moves inputs c : pool_fits c -> conversion_inv inputs c -> ~ conversion_over c -> exists c', conversion_step c c'.
Proof.
  intros Hp Hinv Hn. pose proof (fits_writer c Hp) as Hst. destruct (cv_opened c) eqn:Eop.
  2: { destruct (cv_writer c) eqn:Ew; [|destruct opened as [[]|e] eqn:Eo; eexists; [by apply step_open|by eapply step_open_fails]].
    destruct (ci_finished _ _ Hinv ltac:(rewrite Ew; eauto)) as [Hq _]. eapply unended_moves; [done..|]. intros Hall. apply Hn. split; [rewrite Ew; eauto|done]. }
  destruct (cv_queue c) as [|b queue] eqn:Eq.
  - destruct (decide (Forall (fun r => is_Some (rd_end r)) (cv_readers c))) as [Hall|Hnot].
    + destruct (cv_writer c) eqn:Ew; [destruct Hn; split; [by rewrite Ew; eauto|done]|]. eexists. by apply step_writer_done.
    + by eapply unended_moves.
  - assert (cv_writer c = None) as Hw.
    { destruct (cv_writer c) eqn:Ew; [|done]. destruct (ci_finished _ _ Hinv ltac:(rewrite Ew; eauto)) as [Hq _]. congruence. }
    destruct (accepts (cv_written c) b) as [[]|e] eqn:Ea; eexists; [by eapply step_write|by eapply step_write_fails].
Qed.

(** ** Success *)

Definition task_fine (r : Reader) : Prop :=
  Forall (fun b => is_ok b = true) (rd_todo r) /\ (rd_end r = None \/ rd_end r = Some (Ok tt)).

Definition conversion_fine (c : Conversion) : Prop :=
  Forall task_fine (cv_readers c) /\ (cv_writer c = None \/ cv_writer c = Some (Ok tt)).

Lemma step_fine c c' : opened = Ok tt -> (forall w b, accepts w b = Ok tt) -> (forall w, finished w = Ok tt) ->
  conversion_fine c -> conversion_step c c' -> conversion_fine c'.
Proof.
  intros Hopen Hacc Hfin [Hr Hw] Hstep. rewrite Forall_lookup in Hr.
  destruct Hstep as [i b todo _ Hi _ _|i b todo _ Hi _|i e todo _ Hi|i _ Hi|_ _ _ _|e _ _ _ He|b queue _ _ _ _ _|b queue e _ _ _ _ He|_ _ _ _ _];
    split; cbn; try done; try (by apply Forall_lookup); try (by left); try congruence;
    try (apply Forall_insert; [by apply Forall_lookup|]; destruct (Hr _ _ Hi) as [Ht He']; split; cbn in *; auto).
  - by apply Forall_cons in Ht as [_ Ht].
  - by apply Forall_cons in Ht as [? _].
  - right. by rewrite Hfin.
Qed.

Lemma fine_result c : conversion_fine c -> conversion_result c = Ok tt.
Proof.
  intros [Hr Hw]. unfold conversion_result.
  assert (try_for (fun r => default (Ok tt) (rd_end r)) (cv_readers c) = Ok tt) as ->.
  { induction Hr as [|r l [_ Hr] _ IH]; [done|]. cbn [try_for]. destruct Hr as [-> | ->]; exact IH. }
  by destruct Hw as [-> | ->].
Qed.

Lemma success_complete inputs c : conversion_reach inputs c -> conversion_over c ->
  conversion_result c = Ok tt ->
  exists batches, inputs = map (map Ok) batches /\ merged batches (cv_written c).
Proof.
  intros Hr [[w Hw] Hends] Hres. apply reach_inv in Hr. unfold conversion_result in Hres. rewrite Hw in Hres. cbn [default] in Hres.
  apply bind_Ok in Hres as ([] & Hfor & Hwr). unfold id in Hwr. subst w.
  destruct (ci_finished _ _ Hr ltac:(rewrite Hw; eauto)) as [Hq _].
  destruct (ci_sent _ _ Hr ltac:(unfold failed_writer; by rewrite Hw)) as (sent & Hm & Hall).
  rewrite Hq, app_nil_r in Hm. exists sent. split; [|done]. clear -Hall Hends Hfor.
  induction Hall as [|input s r inputs sent readers [Hin Hdone] _ IH]; [done|]. cbn [try_for map] in *.
  apply bind_Ok in Hfor as ([] & Hr & Hfor). apply Forall_cons in Hends as [[e He] Hends]. rewrite He in Hr. cbn in Hr. unfold id in Hr. subst e.
  f_equal; [|by apply IH]. by rewrite Hin, (Hdone tt He), app_nil_r.
Qed.

(** An input that fails does not stop the writer: the command fails, and the output
    holds the other inputs and is finished as if they were all. *)
Theorem failed_input_output_finished e b : 2 < threads -> opened = Ok tt -> (forall w x, accepts w x = Ok tt) -> (forall w, finished w = Ok tt) ->
  exists c, conversion_reach [[Err e]; [Ok b]] c /\ conversion_over c /\ conversion_result c = Err e /\
    cv_writer c = Some (Ok tt) /\ cv_written c = [b].
Proof.
  intros Hp Hopen Hacc Hfin. eexists. split.
  - assert (forall c i, i <= 2 -> task_started c i) as Hst by (unfold task_started; lia).
    eapply rtc_l; [eapply (step_reader_fails _ 0); [apply Hst; lia|done]|]. cbn.
    eapply rtc_l; [eapply (step_send _ 1); [apply Hst; lia|done|done|cbn; unfold channel_capacity; lia]|].
    eapply rtc_l; [eapply (step_reader_done _ 1); [apply Hst; lia|done]|].
    eapply rtc_l; [eapply step_open; [apply Hst; cbn; lia|done..]|].
    eapply rtc_l; [eapply step_write; [apply Hst; cbn; lia|done..]|].
    eapply rtc_l; [|apply rtc_refl]. eapply step_writer_done; [apply Hst; cbn; lia|done|done|done|]. cbn. repeat constructor; eauto.
  - cbn. rewrite Hfin. split; [split; [eauto|repeat constructor; eauto]|done].
Qed.

(** With as many inputs as threads the writer waits for a reader to end and, when each
    input has more batches than the channel holds, the readers wait for the writer:
    no schedule of the conversion ends. *)
Record starved (c : Conversion) : Prop := {
  st_writer : cv_writer c = None /\ cv_open c = true;
  st_tasks : threads <= length (cv_readers c);
  st_queue : length (cv_queue c) <= channel_capacity;
  st_readers : Forall (fun r => rd_end r = None /\ channel_capacity < length (rd_todo r) + length (cv_queue c)
    /\ Forall (fun b => is_ok b = true) (rd_todo r)) (cv_readers c);
}.

Lemma starved_step c c' : starved c -> conversion_step c c' -> starved c'.
Proof.
  intros [[Hw Ho] Ht Hq Hr] Hs.
  assert (~ writer_started c) as Hno.
  { unfold writer_started, task_started, ended.
    assert (length (filter (fun r => is_Some (rd_end r)) (cv_readers c)) = 0) as ->; [|lia].
    clear -Hr. induction Hr as [|r l (E & _) _ IH]; [done|]. rewrite filter_cons_False; [done|]. rewrite E. by intros [? ?]. }
  rewrite Forall_lookup in Hr.
  destruct Hs as [i b todo _ Hi _ Hcap|i b todo _ Hi Hclosed|i e todo _ Hi|i _ Hi|?|?|?|?|?]; try done; [|congruence|..];
    destruct (Hr _ _ Hi) as (_ & Hlen & Hok); cbn [rd_todo length] in *.
  - split; cbn [cv_writer cv_open cv_readers cv_queue]; rewrite ?length_insert, ?length_app; cbn [length]; [done|done|lia|].
    apply Forall_insert.
    + apply Forall_lookup. intros j r Hj. destruct (Hr j r Hj) as (He & Hl & Hb). split; [done|]. split; [lia|done].
    + cbn. apply Forall_cons in Hok as [_ Hok]. split; [done|]. split; [lia|done].
  - by apply Forall_cons in Hok as [? _].
  - unfold channel_capacity in *. lia.
Qed.

Theorem many_inputs_deadlock inputs c : 0 < threads <= length inputs ->
  Forall (fun l => channel_capacity < length l /\ Forall (fun b => is_ok b = true) l) inputs ->
  conversion_reach inputs c -> ~ conversion_over c.
Proof.
  intros [Hpos Hn] Hin Hr. assert (starved c) as Hst.
  { revert c Hr. apply rtc_ind_r; [|intros c1 c2 _ Hs Hc; by eapply starved_step].
    split; cbn; [done|by rewrite length_map|lia|]. apply Forall_fmap. eapply Forall_impl; [exact Hin|].
    intros l [Hl Hb]. cbn. split; [done|]. split; [lia|done]. }
  intros [[w Hw] _]. destruct Hst as [[Hnone _] _ _ _]. congruence.
Qed.

(** ** Claims *)

(** C21: A conversion that reports success has written the batches of every input,
    each input's in its order and each exactly once. *)
Theorem concurrent_conversion_complete inputs c : conversion_reach inputs c -> conversion_over c ->
  conversion_result c = Ok tt ->
  exists batches, inputs = map (map Ok) batches /\ merged batches (cv_written c).
Proof. apply success_complete. Qed.

(** C22: On a blocking pool with a thread for every reader and one for the writer
    (tokio's has 512 threads by default), the tasks never deadlock: until all have
    ended one of them can move, every step takes away some of the work that is left,
    and the channel never holds more than its capacity.  When no batch of an input
    fails and the writer accepts every batch, the conversion reports success. *)
Theorem concurrent_conversion_terminates inputs c : length inputs < threads -> conversion_reach inputs c ->
  length (cv_queue c) <= channel_capacity /\ (conversion_over c \/ exists c', conversion_step c c') /\
  (forall c', conversion_step c c' -> conversion_work c' < conversion_work c) /\
  (Forall (Forall (fun b => is_ok b = true)) inputs -> opened = Ok tt -> (forall w b, accepts w b = Ok tt) ->
   (forall w, finished w = Ok tt) -> conversion_result c = Ok tt).
Proof.
  intros Hp Hr. pose proof (reach_inv _ _ Hr) as Hinv. repeat split; [by eapply ci_capacity| |apply step_work|].
  - destruct (decide (is_Some (cv_writer c) /\ Forall (fun r => is_Some (rd_end r)) (cv_readers c))); [by left|].
    right. eapply conversion_moves; [unfold pool_fits; by rewrite (reach_length _ _ Hr)|done|done].
  - intros Hin Hopen Hacc Hfin. apply fine_result. revert c Hr Hinv. apply (rtc_ind_r (fun c => conversion_inv inputs c -> conversion_fine c)).
    + intros _. split; [|by left]. cbn. apply Forall_fmap. eapply Forall_impl; [exact Hin|]. intros l Hl. split; [done|by left].
    + intros c1 c2 Hr Hs IH _. eapply step_fine; [done..|apply IH; by apply reach_inv|done].
Qed.
End Steps.

(** * Conversion from and to object storage (storage_convert.rs) *)

Module StorageConvert.

Inductive ConvertInput := LocalInput (file : InputFile) | RemoteParquet (uri : string).

Definition s3_scheme (s : string) : bool := starts_with "s3://" s.

Definition convert_needs_routing (cli : Cli) : bool :=
  existsb s3_scheme (cli_inputs cli) || match cli_out cli with Some o => s3_scheme o | None => false end.

(** [StorageParquetBatchSource] on an object: its schema, and its stream, which is a
    failure or the batches up to one; errors by their display form. *)
Class RemoteParquetFiles := {
  remote_schema : ObjectLocation -> Result string Schema;
  remote_stream : ObjectLocation -> Result string (list (Result string RecordBatch));
}.

Definition resolve_output_format (path : string) (explicit : option OutputFormat) : OutputFormat :=
  match explicit with
  | Some format => format
  | None => if ends_with ".parquet" path || s3_scheme path then OParquet else OCsv
  end.

(** The aligner of this path. *)
Definition convert_aligner (cli : Cli) (unified : UnifiedSchema) : BatchAligner :=
  {| ba_unified_schema := unified; ba_column_mapping := ∅; ba_include_columns := column_list <$> cli_columns cli;
     ba_exclude_columns := column_list <$> cli_exclude cli;
     ba_stringify_conflicts := cli_stringify_conflicts cli || bool_decide (cli_schema_conflicts cli = "stringify") |}.

(** What [execute] hands to the tasks. *)
Record ConvertJob := {
  job_inputs : list ConvertInput;
  job_unified : UnifiedSchema;
  job_output : string;
  job_format : OutputFormat;
}.

Section Convert.
Context `{ArrowCrate} `{CsvCrate} `{ParquetIo} `{WalkCrates} `{UrlParser} `{RemoteParquetFiles}.

Definition resolve_one (config : DiscoveryConfig) (d : SDisk) (input : string) : Result MawError (list ConvertInput) :=
  if s3_scheme input then
    if negb (ends_with ".parquet" input) then Err (MInvalidInput ("remote convert input must be a Parquet object: " +:+ input))
    else Ok [RemoteParquet input]
  else files ← discover_inputs [input] config d; Ok (map LocalInput files).

Definition resolve_convert_inputs (inputs : list string) (config : DiscoveryConfig) (d : SDisk) : Result MawError (list ConvertInput) :=
  found ← try_map (resolve_one config d) inputs; Ok (concat found).

Definition object_of (uri : string) : Result Fault ObjectLocation :=
  map_err (fun e => Fails (MInvalidInput (storage_error_display e))) (parse_object uri).

Definition schema_for_remote_parquet (uri : string) : Result Fault Schema :=
  loc ← object_of uri; map_err (fun e => Fails (MSchema e)) (remote_schema loc).

Local Open Scope stream_scope.

Fixpoint convert_schemas (stdin : string) (inputs : list ConvertInput) : fprog (Result Fault (list Schema)) :=
  match inputs with
  | [] => fret []
  | input :: inputs =>
      s <-? (match input with
             | LocalInput f => schema_for_input stdin f
             | RemoteParquet uri => FRet (schema_for_remote_parquet uri)
             end);
      ss <-? convert_schemas stdin inputs;
      fret (s :: ss)
  end.

Definition build_unified_schema (stdin : string) (inputs : list ConvertInput) (policy : SchemaConflictPolicy) : fprog (Result Fault UnifiedSchema) :=
  schemas <-? convert_schemas stdin inputs;
  FRet (map_err Fails (unified_from_schemas schemas policy)).

Definition remote_csv (input : ConvertInput) : bool := match input with RemoteParquet uri => ends_with ".csv" uri | LocalInput _ => false end.

(** [execute] up to the start of the tasks; [plan] and [dry_run] are the options of
    these names. *)
Definition convert_execute (plan dry_run : bool) (stdin : string) (cli : Cli) (d : SDisk) : fprog (Result Fault ConvertJob) :=
  if bool_decide (is_Some (cli_state cli)) then
    ffail (MUnsupportedCapability "resumable convert with remote s3:// paths is not supported in v0.9.1")
  else if plan || dry_run then ffail (MUnsupportedCapability "plan/dry-run for remote convert uses local stream path only")
  else
    let config := {| dc_recursive := negb (cli_no_recursive cli); dc_follow_symlinks := cli_follow_symlinks cli; dc_max_depth := None |} in
    inputs <-? FRet (map_err Fails (resolve_convert_inputs (cli_inputs cli) config d));
    match inputs with
    | [] => ffail (MInvalidInput "no inputs")
    | _ =>
        if existsb remote_csv inputs then
          ffail (MUnsupportedCapability "remote CSV input is not supported; use local CSV or s3:// Parquet")
        else
          unified <-? build_unified_schema stdin inputs (conflict_policy cli);
          let output := default "output.parquet" (cli_out cli) in
          let format := resolve_output_format output (cli_out_format cli) in
          match format with
          | OCsv => if s3_scheme output then ffail (MUnsupportedCapability "remote output must be Parquet (s3://…/*.parquet)")
                    else fret {| job_inputs := inputs; job_unified := unified; job_output := output; job_format := format |}
          | OParquet => fret {| job_inputs := inputs; job_unified := unified; job_output := output; job_format := format |}
          end
    end.

(** [read_input]: the aligned batches of an input, to its end or its first failure;
    [contents] is what opening a local file gives. *)
Definition input_batches (cli : Cli) (al : BatchAligner) (contents : string -> Result Fault string) (input : ConvertInput)
    : list (Result Fault RecordBatch) :=
  match input with
  | LocalInput file => reader_batches cli al file (contents (in_path file))
  | RemoteParquet uri =>
      match (loc ← object_of uri; schema ← map_err (fun e => Fails (MSchema e)) (remote_schema loc);
             items ← map_err (fun e => Fails (MSchema e)) (remote_stream loc); Ok (map fd_name schema, items)) with
      | Err e => [Err e]
      | Ok (fields, items) =>
          map (fun item => batch ← map_err (fun e => Fails (MSchema e)) item; align_batch_with_source al batch fields) items
      end
  end.

(** The writer of the job: a remote one ([write_remote_parquet]) refuses to end with
    no rows; [sink_opened], [sink_accepts] and [sink_finished] are the storage sink
    ([write_parquet_batch_stream]), the [file_] ones the writers of local files. *)
Context (sink_opened : ObjectLocation -> Result string unit) (sink_accepts : list RecordBatch -> RecordBatch -> Result string unit)
  (sink_finished : list RecordBatch -> Result string unit).
Context (file_opened : string -> OutputFormat -> Result Fault unit) (file_accepts : OutputFormat -> list RecordBatch -> RecordBatch -> Result Fault unit)
  (file_finished : OutputFormat -> list RecordBatch -> Result Fault unit).

Definition remote_output (job : ConvertJob) : bool := s3_scheme (job_output job) && match job_format job with OParquet => true | OCsv => false end.

Definition rows_written (batches : list RecordBatch) : nat := sum_list_with rb_num_rows batches.

(** [write_output] and its refusals. *)
Definition local_opened (job : ConvertJob) : Result Fault unit :=
  match job_format job with
  | OCsv => if s3_scheme (job_output job) then fails (MUnsupportedCapability "remote CSV output is not supported")
            else file_opened (job_output job) OCsv
  | OParquet => if s3_scheme (job_output job) then fails (MInvalidInput "remote parquet write must use async write_remote_parquet")
                else file_opened (job_output job) OParquet
  end.

Definition writer_opened (job : ConvertJob) : Result Fault unit :=
  if remote_output job then loc ← object_of (job_output job); map_err (fun e => Fails (MParquet e)) (sink_opened loc)
  else local_opened job.

Definition writer_accepts (job : ConvertJob) (written : list RecordBatch) (b : RecordBatch) : Result Fault unit :=
  if remote_output job then map_err (fun e => Fails (MParquet e)) (sink_accepts written b) else file_accepts (job_format job) written b.

Definition writer_finished (job : ConvertJob) (written : list RecordBatch) : Result Fault unit :=
  if remote_output job then
    _ ← map_err (fun e => Fails (MParquet e)) (sink_finished written);
    if rows_written written =? 0 then fails (MInvalidInput "remote convert wrote no rows") else Ok tt
  else file_finished (job_format job) written.

(** [run_convert_pipeline]: the tasks of the job.  A remote writer receives each batch
    in a blocking task of its own, queued behind the readers like a local writer. *)
Definition convert_inputs (cli : Cli) (contents : string -> Result Fault string) (job : ConvertJob) : list (list (Result Fault RecordBatch)) :=
  map (input_batches cli (convert_aligner cli (job_unified job)) contents) (job_inputs job).

Definition convert_reach (threads : nat) (cli : Cli) (contents : string -> Result Fault string) (job : ConvertJob) : Conversion -> Prop :=
  conversion_reach threads (writer_opened job) (writer_accepts job) (writer_finished job) (convert_inputs cli contents job).

(** ** What reaches the tasks *)

Lemma aligner_same cli unified : convert_aligner cli unified = aligner_of cli unified.
Proof.
  unfold convert_aligner, aligner_of, conflict_policy. f_equal. destruct (cli_stringify_conflicts cli); [done|]. cbn.
  repeat case_bool_decide; repeat case_decide; congruence.
Qed.

Lemma resolved_inputs inputs config d l : resolve_convert_inputs inputs config d = Ok l ->
  Forall (fun i => match i with RemoteParquet uri => s3_scheme uri = true /\ ends_with ".parquet" uri = true | LocalInput _ => True end) l.
Proof.
  unfold resolve_convert_inputs. intros (found & Hf & [= <-])%bind_Ok. revert found Hf. induction inputs as [|i inputs IH]; intros found Hf.
  - by injection Hf as <-.
  - cbn [try_map] in Hf. apply bind_Ok in Hf as (x & Hx & Hf). apply bind_Ok in Hf as (xs & Hxs & [= <-]). cbn. apply Forall_app. split; [|by apply IH].
    unfold resolve_one in Hx. destruct (s3_scheme i) eqn:Es; [destruct (ends_with _ i) eqn:Ee; [injection Hx as <-; by repeat constructor|done]|].
    apply bind_Ok in Hx as (files & _ & [= <-]). by apply Forall_fmap, Forall_true.
Qed.

(** Only Parquet objects are read remotely, so that the refusal of remote CSV inputs
    is never reached. *)
Lemma resolved_no_csv inputs config d l : resolve_convert_inputs inputs config d = Ok l -> existsb remote_csv l = false.
Proof.
  intros Hl%resolved_inputs. apply not_true_is_false. intros (i & Hi & Hc)%existsb_exists. apply list_elem_of_In in Hi.
  rewrite Forall_forall in Hl. specialize (Hl i Hi). destruct i as [f|uri]; [done|]. destruct Hl as [_ Hp]. cbn in Hc.
  apply (ends_with_get _ _ 3 "v"%char) in Hc; [|done|done]. apply (ends_with_get _ _ 7 "t"%char) in Hp; [|done|done]. congruence.
Qed.

Lemma frun_try_ok {A B} (p : fprog (Result Fault A)) (f : A -> fprog (Result Fault B)) d b d' :
  frun (ftry p f) d = (Ok b, d') -> exists a d1, frun p d = (Ok a, d1) /\ frun (f a) d1 = (Ok b, d').
Proof. unfold ftry. rewrite frun_bind. destruct (frun p d) as [[a|e] d1]; [eauto|done]. Qed.

(** What [execute] hands to the tasks: the command asked for nothing this path does
    not do, there is an input, remote inputs are Parquet objects, and so is a remote
    output: the refusals of [write_output] are never reached. *)
Theorem convert_job_sound plan dry_run stdin cli d0 d job d' : frun (convert_execute plan dry_run stdin cli d0) d = (Ok job, d') ->
  cli_state cli = None /\ plan = false /\ dry_run = false /\ job_inputs job <> [] /\
  (forall uri, RemoteParquet uri ∈ job_inputs job -> s3_scheme uri = true /\ ends_with ".parquet" uri = true) /\
  writer_opened job = if s3_scheme (job_output job)
                      then loc ← object_of (job_output job); map_err (fun e => Fails (MParquet e)) (sink_opened loc)
                      else file_opened (job_output job) (job_format job).
Proof.
  unfold convert_execute. case_bool_decide as Hs; [done|]. destruct plan, dry_run; try done. cbn [orb].
  intros (inputs & d1 & [= Hin <-] & Hr)%frun_try_ok. destruct (resolve_convert_inputs _ _ d0) as [l|] eqn:El; [|done]. injection Hin as ->.
  pose proof (resolved_inputs _ _ _ _ El) as Hall. rewrite (resolved_no_csv _ _ _ _ El) in Hr. destruct inputs as [|i inputs]; [done|].
  apply frun_try_ok in Hr as (unified & d2 & _ & Hr).
  set (output := default "output.parquet" (cli_out cli)) in Hr. set (format := resolve_output_format output (cli_out_format cli)) in Hr.
  assert (job = {| job_inputs := i :: inputs; job_unified := unified; job_output := output; job_format := format |} /\
          (s3_scheme output = true -> format = OParquet)) as [-> Hf].
  { destruct format; [destruct (s3_scheme output); [done|]|]; injection Hr as <- <-; done. }
  split; [by apply eq_None_not_Some|]. repeat (split; [done|]). split.
  - intros uri Huri. rewrite Forall_forall in Hall. exact (Hall _ Huri).
  - unfold writer_opened, remote_output, local_opened. cbn [job_output job_format]. destruct (s3_scheme output); [by rewrite Hf|]. by destruct format.
Qed.

(** A writer that ended well finished what it had written. *)
Lemma writer_end_finished threads job inputs c : conversion_reach threads (writer_opened job) (writer_accepts job) (writer_finished job) inputs c ->
  cv_writer c = Some (Ok tt) -> writer_finished job (cv_written c) = Ok tt.
Proof.
  revert c. apply (rtc_ind_r (fun c => cv_writer c = Some (Ok tt) -> writer_finished job (cv_written c) = Ok tt)); [done|].
  intros c1 c2 _ Hstep IH. destruct Hstep; cbn in *; try done; try exact IH. by intros [= <-].
Qed.

(** A conversion into object storage that reports success has written the batches of
    every input, each exactly once and each input's in its order, and a row at least. *)
Theorem remote_convert_complete threads cli contents job c : remote_output job = true ->
  convert_reach threads cli contents job c -> conversion_over c -> conversion_result c = Ok tt ->
  0 < rows_written (cv_written c) /\
  exists batches, convert_inputs cli contents job = map (map Ok) batches /\ merged batches (cv_written c).
Proof.
  intros Hrem Hreach Hover Hres. split; [|by eapply success_complete]. destruct Hover as [[w Hw] _].
  unfold conversion_result in Hres. rewrite Hw in Hres. apply bind_Ok in Hres as ([] & _ & Hres). cbn in Hres. unfold id in Hres. subst w.
  apply (writer_end_finished _ _ _ _ Hreach) in Hw. unfold writer_finished in Hw. rewrite Hrem in Hw. apply bind_Ok in Hw as ([] & _ & Hw).
  destruct (Nat.eqb_spec (rows_written (cv_written c)) 0); [done|lia].
Qed.
End Convert.
End StorageConvert.
