(* ===== verification/StreamExamples.v ===== *)
(** Concrete conversions: instances of the streaming engine's parameters, the
    claims at concrete inputs, and the engine's behaviour in the corners its
    documentation does not mention. *)

From Stdlib Require Import Ascii SpecFloat.
From S2P Require Import Prelude BTree RepairExec RepairPlan Inventory Execute ExecuteExamples BatchExamples TypeUnify RustNum StreamColumns.
From S2P Require Import StreamColumnsProofs StreamFs StreamState StreamPipeline StreamResume StreamPhases StreamConcurrent.

(** * A checkpoint format *)

(** Texts one after the other: each character is marked, a dot ends a text. *)
Fixpoint token_text (t : string) (rest : string) : string :=
  match t with
  | EmptyString => String "." rest
  | String c t => String "x" (String c (token_text t rest))
  end.
Definition tokens_text (ts : list string) : string := foldr token_text EmptyString ts.

Fixpoint tokens_of (s : string) : list string :=
  match s with
  | String "." s => EmptyString :: tokens_of s
  | String "x" (String c s) => match tokens_of s with t :: ts => String c t :: ts | [] => [] end
  | _ => []
  end.

Lemma tokens_of_token t rest : tokens_of (token_text t rest) = t :: tokens_of rest.
Proof. induction t as [|c t IH]; [done|]. cbn. by rewrite IH. Qed.

Lemma tokens_round_trip ts : tokens_of (tokens_text ts) = ts.
Proof. induction ts as [|t ts IH]; [done|]. cbn [tokens_text foldr]. rewrite tokens_of_token. f_equal. exact IH. Qed.

Definition z_text (z : Z) : string :=
  match z with Z0 => "0" | Zpos p => String "+" (pos_text p) | Zneg p => String "-" (pos_text p) end.
Definition text_z (s : string) : Z :=
  match s with
  | String "+" s => default 0%Z (Zpos <$> text_pos s)
  | String "-" s => default 0%Z (Zneg <$> text_pos s)
  | _ => 0
  end.

Lemma text_z_text z : text_z (z_text z) = z.
Proof. destruct z; cbn; by rewrite ?text_pos_text. Qed.

Definition nat_text (n : nat) : string := z_text (Z.of_nat n).
Definition text_nat (s : string) : nat := Z.to_nat (text_z s).
Lemma text_nat_text n : text_nat (nat_text n) = n.
Proof. unfold text_nat, nat_text. rewrite text_z_text. lia. Qed.

Definition opt_text {A} (f : A -> string) (o : option A) : string :=
  match o with Some x => String "s" (f x) | None => EmptyString end.
Definition text_opt {A} (f : string -> A) (s : string) : option A :=
  match s with String _ s => Some (f s) | EmptyString => None end.

Definition flag_text (b : bool) : string := if b then "t" else EmptyString.
Definition text_flag (s : string) : bool := match s with EmptyString => false | _ => true end.

Definition file_tokens (kf : string * FileState) : list string :=
  let '(k, f) := kf in
  [k; fs_path f; fs_format f; flag_text (fs_processed f); opt_text z_text (fs_last_offset f);
   opt_text nat_text (fs_last_row_group f); z_text (fs_bytes_processed f); z_text (fs_rows_processed f);
   z_text (fs_source_size f); z_text (fs_source_modified f)].

Fixpoint tokens_files (fuel : nat) (ts : list string) : list (string * FileState) :=
  match fuel, ts with
  | S fuel, k :: p :: fmt :: pr :: lo :: lr :: bp :: rp :: sz :: md :: ts =>
      (k, {| fs_path := p; fs_format := fmt; fs_processed := text_flag pr; fs_last_offset := text_opt text_z lo;
             fs_last_row_group := text_opt text_nat lr; fs_bytes_processed := text_z bp; fs_rows_processed := text_z rp;
             fs_source_size := text_z sz; fs_source_modified := text_z md |}) :: tokens_files fuel ts
  | _, _ => []
  end.

Lemma tokens_files_tokens l fuel : length l <= fuel -> tokens_files fuel (concat (map file_tokens l)) = l.
Proof.
  revert fuel. induction l as [|[k []] l IH]; intros [|fuel] Hf; cbn in Hf; try done; try lia. cbn.
  rewrite IH, !text_z_text by lia. repeat f_equal.
  - by destruct fs_processed.
  - destruct fs_last_offset; cbn; [by rewrite text_z_text|done].
  - destruct fs_last_row_group; cbn; [by rewrite text_nat_text|done].
Qed.

Definition state_tokens (st : ProcessingState) : list string :=
  let i := ps_identity st in
  [z_text (ps_schema_version st); z_text (id_schema_version i); id_inputs_fingerprint i; id_output_path i;
   id_output_format i; id_schema_policy i; id_compression i; z_text (id_batch_size i); z_text (ps_created_at st);
   z_text (ps_updated_at st); nat_text (ps_total_files st); nat_text (ps_processed_files st); z_text (ps_total_bytes st);
   z_text (ps_processed_bytes st); flag_text (ps_committed st)] ++ concat (map file_tokens (map_to_list (ps_files st))).

Definition tokens_state (ts : list string) : Result string ProcessingState :=
  match ts with
  | v :: iv :: fp :: op :: fmt :: pol :: co :: bs :: cr :: up :: tf :: pf :: tb :: pb :: cm :: files =>
      Ok {| ps_schema_version := text_z v;
            ps_identity := {| id_schema_version := text_z iv; id_inputs_fingerprint := fp; id_output_path := op;
              id_output_format := fmt; id_schema_policy := pol; id_compression := co; id_batch_size := text_z bs |};
            ps_created_at := text_z cr; ps_updated_at := text_z up;
            ps_files := list_to_map (tokens_files (length files) files); ps_total_files := text_nat tf;
            ps_processed_files := text_nat pf; ps_total_bytes := text_z tb; ps_processed_bytes := text_z pb;
            ps_committed := text_flag cm |}
  | _ => Err "checkpoint"
  end.

Lemma length_file_tokens l : length l <= length (concat (map file_tokens l)).
Proof. induction l as [|[k f] l IH]; [done|]. cbn [map concat]. rewrite length_app. cbn. lia. Qed.

Lemma tokens_state_tokens st : tokens_state (state_tokens st) = Ok st.
Proof.
  destruct st as [v [] cr up fs tf pf tb pb cm].
  cbn -[text_z z_text text_nat nat_text tokens_files file_tokens map_to_list list_to_map text_flag flag_text length].
  rewrite !text_z_text, !text_nat_text, tokens_files_tokens by apply length_file_tokens. rewrite list_to_map_to_list.
  by destruct cm.
Qed.

#[global] Instance token_states : StateJson.
Proof.
  refine {| state_to_json st := Ok (tokens_text (state_tokens st)); state_of_json s := tokens_state (tokens_of s) |}.
  intros st text Ht. assert (text = tokens_text (state_tokens st)) as -> by congruence. by rewrite tokens_round_trip, tokens_state_tokens.
Defined.

(** * The other parameters *)

#[global] Instance column_fits_dec : RelDecision column_fits.
Proof. intros f a. unfold column_fits. apply _. Defined.

Definition admits (f : Field) (a : Array) : bool :=
  bool_decide (column_fits f a) && (fd_nullable f || forallb (fun i => negb (is_null a i)) (seq 0 (array_len a))).

Lemma admits_spec f a : admits f a = true <-> column_admits f a.
Proof.
  unfold admits, column_admits. rewrite andb_true_iff, bool_decide_eq_true, orb_true_iff, forallb_forall.
  setoid_rewrite in_seq. setoid_rewrite negb_true_iff. split; (intros [Hf [Hn|Hn]]; (split; [done|])); auto; right; intros i Hi; apply Hn; lia.
Qed.

#[global] Instance column_admits_dec : RelDecision column_admits.
Proof. intros f a. refine (cast_if (decide (admits f a = true))); by rewrite <- admits_spec. Defined.

Definition try_columns (s : Schema) (cols : list Array) : Result string RecordBatch :=
  match cols with
  | [] => Err "must either specify a row count or at least one column"
  | a :: _ =>
      if decide (Forall2 column_admits s cols /\ Forall (fun c => array_len c = array_len a) cols)
      then Ok {| rb_schema := s; rb_columns := cols; rb_num_rows := array_len a |}
      else Err "column types must match schema types"
  end.

#[global] Instance plain_arrow : ArrowCrate.
Proof.
  refine {| try_new := try_columns |}.
  - intros s [|a cols] b; [done|]. unfold try_columns. case_decide as Hd; [|done]. intros [= <-]. by destruct Hd.
  - intros s [|a cols] n Hf Hne Hn; [done|]. unfold try_columns. rewrite decide_True; [done|]. split; [done|].
    pose proof (Forall_cons_1 _ _ _ Hn) as [Ha _]. by rewrite Ha.
Defined.

Definition plain_records (text : string) : list (list string) :=
  map (split_char ",") (filter (fun l => l <> EmptyString) (split_char newline text)).

#[global] Instance plain_csv : CsvCrate := {|
  csv_records _ _ text := map Ok (plain_records text);
  csv_utf8 r := Ok r;
  csv_line r := join_strings "," r +:+ String newline EmptyString;
  decode _ s := s |}.

(** No Parquet file is read or written here. *)
#[global] Instance no_parquet : ParquetIo := {|
  pq_open _ _ := Err "not a Parquet file";
  pq_writer := unit;
  pq_start _ _ := Err "no writer";
  pq_write _ _ := Err "no writer";
  pq_close _ := Err "no writer" |}.

(** * A conversion of two files *)

Definition nl : string := String newline EmptyString.
Definition ex_cli : Cli := {|
  cli_inputs := ["a.csv"; "b.csv"]; cli_out := Some "out.csv"; cli_out_format := None; cli_delimiter := None;
  cli_quote := None; cli_no_headers := false; cli_encoding := "utf8"; cli_na := "NA,null,\N"; cli_columns := None;
  cli_exclude := None; cli_stringify_conflicts := false; cli_schema_conflicts := "strict"; cli_infer_rows := 2;
  cli_compression := CompZstd; cli_zstd_level := 5; cli_no_recursive := false; cli_follow_symlinks := false;
  cli_state := Some "s.json"; cli_resume := false |}.

Definition ex_source (text : string) (t : Z) : SFile := {| sf_text := text; sf_mtime := t |}.
Definition ex_a : string := "id,name" +:+ nl +:+ "1,x" +:+ nl +:+ "2,NA" +:+ nl +:+ "3,z" +:+ nl.
Definition ex_b : string := "name,id" +:+ nl +:+ "y,7" +:+ nl.
Definition ex_disk : SDisk := {|
  sd_files := {[ "a.csv" := ex_source ex_a 3; "b.csv" := ex_source ex_b 4 ]}; sd_dirs := ∅; sd_clock := 10 |}.
Definition ex_input (p : string) : InputFile := {| in_path := p; in_format := FCsv; in_size := 0 |}.

Definition ex_unify (files : list InputFile) : UnifiedSchema :=
  match fst (frun (unify_inputs ex_cli EmptyString files) ex_disk) with Ok u => u | Err _ => unified_new end.

(** A run over some of the files under the options [cli]. *)
Definition ex_run_of (files : list InputFile) (cli : Cli) (resume : bool) (ia : option nat) : fprog (Result Fault unit) :=
  run EmptyString "s.json" "out.csv" files (ex_unify files) OCsv cli resume ia.

Definition ex_files : list InputFile := [ex_input "a.csv"; ex_input "b.csv"].
Definition ex_run : bool -> option nat -> fprog (Result Fault unit) := ex_run_of ex_files ex_cli.

(** The disk after a first run that was interrupted behind its first file. *)
Definition ex_interrupted : SDisk := snd (frun (ex_run false (Some 0)) ex_disk).

Ltac by_computation := refine (bool_decide_unpack _ _); vm_compute; exact I.

Lemma ex_layout : layout "s.json" "out.csv" ex_files OCsv.
Proof.
  split; try by_computation. exists EmptyString. split; [reflexivity|]. split; [discriminate|reflexivity].
Qed.

Lemma ex_disk_ok : disk_ok "s.json" "out.csv" ex_files OCsv ex_disk.
Proof. split; by_computation. Qed.

Lemma ex_history : history EmptyString "s.json" "out.csv" ex_files (ex_unify ex_files) OCsv ex_cli ex_disk ex_interrupted.
Proof.
  apply (history_first _ _ _ _ _ _ _ _ (Some 0)). unfold ex_interrupted, ex_run, ex_run_of.
  exact (frun_stops (run EmptyString "s.json" "out.csv" ex_files (ex_unify ex_files) OCsv ex_cli false (Some 0)) ex_disk).
Qed.

Lemma token_states_print st : is_ok (state_to_json st) = true.
Proof. done. Qed.

(** The interrupted run stopped between the files; the resumed one finishes. *)
Lemma resumed_output_exact_witness :
  fst (frun (ex_run false (Some 0)) ex_disk) = Err (Fails (MConfig "execution interrupted (PARQONAUT_STREAM_INTERRUPT_AFTER)")) /\
  exists t, final_output ex_files (ex_unify ex_files) OCsv ex_cli ex_disk = Some t /\
    text_at (snd (frun (ex_run true None) ex_interrupted)) "out.csv" = Some t.
Proof.
  split; [vm_compute; reflexivity|].
  apply (resumed_output_exact EmptyString "s.json" "out.csv" ex_files (ex_unify ex_files) OCsv ex_cli ex_disk None ex_interrupted).
  - exact ex_layout.
  - exact ex_disk_ok.
  - exact token_states_print.
  - exact ex_history.
  - vm_compute. reflexivity.
Defined.

Definition ex_output : string := "id,name" +:+ nl +:+ "1,x" +:+ nl +:+ "2," +:+ nl +:+ "3,z" +:+ nl +:+ "7,y" +:+ nl.

Lemma ex_not_stuck : ~ stuck "s.json" "out.csv" ex_interrupted.
Proof.
  intros (st & (text & Ht & Hj) & Hc & _). assert (is_ok (state_of_json text) = true) as Hok by by rewrite Hj.
  assert (text = default EmptyString (text_at ex_interrupted "s.json")) as -> by by rewrite Ht.
  revert Hj Hc. clear. vm_compute. intros [= <-]. discriminate.
Qed.

Lemma resumed_run_completes_witness :
  (exists d', frun (ex_run false None) ex_disk = (Ok tt, d') /\ text_at d' "out.csv" = Some ex_output) /\
  (exists d', frun (ex_run true None) ex_interrupted = (Ok tt, d') /\ text_at d' "out.csv" = Some ex_output).
Proof.
  destruct (resumed_run_completes EmptyString "s.json" "out.csv" ex_files (ex_unify ex_files) OCsv ex_cli ex_disk ex_interrupted
    ex_output ex_layout ex_disk_ok token_states_print) as [Hfirst Hresumed]; [vm_compute; reflexivity|].
  split; [exact Hfirst|]. apply Hresumed; [exact ex_history|vm_compute; discriminate|exact ex_not_stuck].
Defined.

(** ** Where a resumed run goes wrong *)

(** A conversion of one file, stopped between the rename of its part and the
    checkpoint that records the commit: no resumed run succeeds, although the
    output is complete. *)
Theorem single_part_commit_lost :
  let one := [ex_input "a.csv"] in
  let d := after 21 (ex_run_of one ex_cli false None) ex_disk in
  text_at d "out.csv" = final_output one (ex_unify one) OCsv ex_cli ex_disk /\
  fst (frun (ex_run_of one ex_cli true None) d) = Err (Fails (MInvalidInput "no staged parts to finalize")).
Proof. vm_compute. done. Qed.

(** A run that starts over removes the staged parts before it replaces the old
    checkpoint.  Stopped in between and resumed, it reports success with an
    output that lacks the rows of the files processed before. *)
Theorem restart_loses_rows :
  let d := after 4 (ex_run false None) ex_interrupted in
  fst (frun (ex_run true None) d) = Ok tt /\
  text_at (snd (frun (ex_run true None) d)) "out.csv" = Some ("id,name" +:+ nl +:+ "7,y" +:+ nl).
Proof. vm_compute. done. Qed.

Definition with_na (na : string) (c : Cli) : Cli := {|
  cli_inputs := cli_inputs c; cli_out := cli_out c; cli_out_format := cli_out_format c; cli_delimiter := cli_delimiter c;
  cli_quote := cli_quote c; cli_no_headers := cli_no_headers c; cli_encoding := cli_encoding c; cli_na := na;
  cli_columns := cli_columns c; cli_exclude := cli_exclude c; cli_stringify_conflicts := cli_stringify_conflicts c;
  cli_schema_conflicts := cli_schema_conflicts c; cli_infer_rows := cli_infer_rows c; cli_compression := cli_compression c;
  cli_zstd_level := cli_zstd_level c; cli_no_recursive := cli_no_recursive c; cli_follow_symlinks := cli_follow_symlinks c;
  cli_state := cli_state c; cli_resume := cli_resume c |}.

(** The identity of a run does not cover how cells are read: resumed with other
    NA values, the output is the one of neither. *)
Theorem resume_accepts_other_na :
  let d := snd (frun (ex_run_of ex_files (with_na "y" ex_cli) true None) ex_interrupted) in
  fst (frun (ex_run_of ex_files (with_na "y" ex_cli) true None) ex_interrupted) = Ok tt /\
  text_at d "out.csv" <> final_output ex_files (ex_unify ex_files) OCsv ex_cli ex_disk /\
  text_at d "out.csv" <> final_output ex_files (ex_unify ex_files) OCsv (with_na "y" ex_cli) ex_disk.
Proof. vm_compute. by split_and!. Qed.

(** * Schemas and columns *)

Definition col (name : string) (t : DataType) : Field := {| fd_name := name; fd_type := t; fd_nullable := true |}.

Lemma unified_schema_exact_witness :
  map fd_name (us_schema (ex_unify ex_files)) = ["id"; "name"] /\ get_column_type (ex_unify ex_files) "id" = Some KI64.
Proof.
  destruct (from_schemas [[col "id" AInt64; col "name" AUtf8]; [col "name" AUtf8; col "id" AInt64]] Strict) as [u|e] eqn:E;
    [|vm_compute in E; discriminate].
  destruct (unified_schema_exact Strict _ u E) as (Hnames & _ & Hty).
  assert (ex_unify ex_files = u) as -> by (vm_compute in E |- *; congruence).
  split; [exact Hnames|exact (Hty "id")].
Defined.

Lemma unification_order_independent_witness :
  match from_schemas [[col "a" AInt64]; [col "b" AUtf8; col "a" AFloat64]] Widen,
        from_schemas [[col "b" AUtf8; col "a" AFloat64]; [col "a" AInt64]] Widen with
  | Ok u, Ok u' => us_type_mapping u = us_type_mapping u' /\ us_schema u ≡ₚ us_schema u'
  | Err _, Err _ => True
  | _, _ => False
  end.
Proof.
  apply (unification_order_independent Widen [[col "a" AInt64]; [col "b" AUtf8; col "a" AFloat64]]); [discriminate|].
  apply Permutation_swap.
Defined.

Definition ex_reader : CsvReader := {|
  cr_reader := map Ok [["1"; "x"]; ["2"; "NA"]; ["3"]]; cr_headers := ["id"; "name"]; cr_batch_size := 2;
  cr_na_values := ["NA"]; cr_encoding := UTF_8; cr_pending_record := None |}.

Lemma csv_file_batches_witness : exists chunks, concat chunks = [["1"; "x"]; ["2"; "NA"]; ["3"]] /\
  Forall (fun c => 0 < length c <= 3) chunks /\
  csv_batches (csv_fuel ex_reader) ex_reader = until_error (map (records_to_batch ex_reader) chunks).
Proof. apply (csv_file_batches ex_reader [["1"; "x"]; ["2"; "NA"]; ["3"]]); [cbn; lia|reflexivity]. Defined.

Definition ex_batch : RecordBatch := {|
  rb_schema := [col "n" AInt64; col "s" AUtf8];
  rb_columns := [Int64Array [Some 4%Z; None]; StringArray [Some "7"; Some "x"]]; rb_num_rows := 2 |}.

Definition aligner_for (s : Schema) (include : option (list string)) : BatchAligner := {|
  ba_unified_schema := {| us_schema := s; us_column_mapping := ∅; us_type_mapping := ∅ |}; ba_column_mapping := ∅;
  ba_include_columns := include; ba_exclude_columns := None; ba_stringify_conflicts := false |}.

Definition ex_target : Schema := [col "s" AInt64; col "n" AFloat64; col "m" ABoolean].

Lemma ex_batch_wf : batch_wf ex_batch.
Proof. repeat constructor. Qed.

Lemma alignment_succeeds_iff_witness :
  is_ok (align_batch_with_source (aligner_for ex_target None) ex_batch ["n"; "s"]) = true <->
  Forall (fun f => keeps_column (aligner_for ex_target None) (fd_name f) = true /\
    alignable (source_column (aligner_for ex_target None) ex_batch ["n"; "s"] f) (fd_type f)) ex_target.
Proof.
  apply (alignment_succeeds_iff (aligner_for ex_target None) ex_batch ["n"; "s"]); [exact ex_batch_wf|discriminate|].
  repeat constructor.
Defined.

Lemma aligned_rows_converted_witness : exists b,
  align_batch_with_source (aligner_for ex_target None) ex_batch ["n"; "s"] = Ok b /\
  batch_rows b = [[VInt 7; VFloat (i64_to_f64 4); VNull]; [VNull; VNull; VNull]].
Proof.
  destruct (align_batch_with_source (aligner_for ex_target None) ex_batch ["n"; "s"]) as [b|e] eqn:E;
    [|vm_compute in E; discriminate].
  exists b. split; [reflexivity|].
  destruct (aligned_rows_converted (aligner_for ex_target None) ex_batch ["n"; "s"] b) as [_ Hrows];
    [exact ex_batch_wf|discriminate|exact E|]. exact Hrows.
Defined.

(** Alignment keeps the columns of the whole unified schema, so that a selection
    of columns that leaves one out fails every batch. *)
Theorem column_selection_fails al batch src : batch_wf batch ->
  Exists (fun f => keeps_column al (fd_name f) = false) (us_schema (ba_unified_schema al)) ->
  is_ok (align_batch_with_source al batch src) = false.
Proof.
  intros Hw He. destruct (align_batch_with_source al batch src) as [b|e] eqn:E; [|done]. exfalso.
  destruct (align_ok_inv _ _ _ _ Hw E) as (_ & _ & Hk & _). apply Exists_exists in He as (f & Hf & Hno).
  rewrite Forall_forall in Hk. destruct (Hk f Hf) as [Hyes _]. congruence.
Qed.

(** Types that unify but cannot be aligned: a boolean or 32-bit column where
    another input has 64-bit integers, a date in all inputs, a missing 32-bit
    column. *)
Theorem unified_not_alignable :
  let aligns src target := is_ok (align_batch_with_source (aligner_for [col "c" target] None)
    {| rb_schema := []; rb_columns := option_list src; rb_num_rows := 1 |} (if src is Some _ then ["c"] else [])) in
  (unify_types KBool KI64 Strict = Ok KI64 /\ aligns (Some (BooleanArray [Some true])) AInt64 = false) /\
  (unify_types KI32 KI64 Strict = Ok KI64 /\ aligns (Some (Int32Array [Some 1%Z])) AInt64 = false) /\
  (unify_types KDate KDate Strict = Ok KDate /\ aligns (Some (OtherArray ADate32 [true])) ADate32 = false) /\
  aligns None AInt32 = false.
Proof. vm_compute. done. Qed.

(** A date that is stringified becomes the name of its type. *)
Theorem stringified_date : stringify_column (OtherArray ADate32 [true; false]) 2 = Ok (StringArray [Some "Date32"; None]).
Proof. reflexivity. Qed.

(** In a CSV column of booleans and numbers the booleans become null. *)
Theorem mixed_column_loses_booleans :
  create_column_array [Some "true"; Some "3"] [false; false] = Int64Array [None; Some 3%Z].
Proof. reflexivity. Qed.

(** * Conversion without a state file *)

Definition ex_inputs : list (list (Result Fault RecordBatch)) := [[Ok ex_batch]; [Ok ex_batch]].
Definition ex_accepts (_ : list RecordBatch) (_ : RecordBatch) : Result Fault unit := Ok tt.
Definition ex_finished (_ : list RecordBatch) : Result Fault unit := Ok tt.

Definition ex_done : Conversion := {|
  cv_readers := replicate 2 {| rd_todo := []; rd_end := Some (Ok tt) |}; cv_queue := []; cv_opened := true; cv_open := false;
  cv_written := [ex_batch; ex_batch]; cv_writer := Some (Ok tt) |}.

(** tokio's default number of blocking threads. *)
Definition ex_threads : nat := 512.

Lemma ex_task_started c i : i <= 2 -> task_started ex_threads c i.
Proof. unfold task_started, ex_threads. lia. Qed.

Lemma ex_done_reached : conversion_reach ex_threads (Ok tt) ex_accepts ex_finished ex_inputs ex_done.
Proof.
  eapply rtc_l; [apply step_open; [apply ex_task_started; cbn; lia|done..]|].
  eapply rtc_l; [eapply (step_send _ _ _ _ _ 1); [apply ex_task_started; lia|reflexivity|reflexivity|unfold channel_capacity; cbn; lia]|].
  eapply rtc_l; [eapply (step_send _ _ _ _ _ 0); [apply ex_task_started; lia|reflexivity|reflexivity|unfold channel_capacity; cbn; lia]|].
  eapply rtc_l; [apply (step_reader_done _ _ _ _ _ 0); [apply ex_task_started; lia|reflexivity]|].
  eapply rtc_l; [eapply step_write; [apply ex_task_started; cbn; lia|reflexivity..]|].
  eapply rtc_l; [apply (step_reader_done _ _ _ _ _ 1); [apply ex_task_started; lia|reflexivity]|].
  eapply rtc_l; [eapply step_write; [apply ex_task_started; cbn; lia|reflexivity..]|].
  eapply rtc_l; [apply step_writer_done; [apply ex_task_started; cbn; lia|reflexivity|reflexivity|reflexivity|by repeat constructor]|]. apply rtc_refl.
Qed.

Lemma concurrent_conversion_complete_witness :
  exists batches, ex_inputs = map (map Ok) batches /\ merged batches (cv_written ex_done).
Proof.
  apply (concurrent_conversion_complete ex_threads (Ok tt) ex_accepts ex_finished ex_inputs ex_done); [exact ex_done_reached| |reflexivity].
  split; [eexists; reflexivity|]. repeat constructor; eexists; reflexivity.
Defined.

Lemma concurrent_conversion_terminates_witness :
  exists c', conversion_step ex_threads (Ok tt) ex_accepts ex_finished (conversion_start ex_inputs) c' /\
    conversion_work c' < conversion_work (conversion_start ex_inputs).
Proof.
  destruct (concurrent_conversion_terminates ex_threads (Ok tt) ex_accepts ex_finished ex_inputs (conversion_start ex_inputs))
    as (_ & [[[w Hw] _]|[c' Hs]] & Hwork & _); [unfold ex_threads; cbn; lia|apply rtc_refl|discriminate|].
  exists c'. split; [exact Hs|exact (Hwork c' Hs)].
Defined.

(** 512 inputs of nine batches each: no schedule ends. *)
Example deadlock_512 c :
  conversion_reach ex_threads (Ok tt) ex_accepts ex_finished (replicate 512 (replicate 9 (Ok ex_batch))) c -> ~ conversion_over c.
Proof.
  apply many_inputs_deadlock.
  - unfold ex_threads. rewrite length_replicate. lia.
  - apply Forall_replicate. split; [rewrite length_replicate; unfold channel_capacity; lia|by apply Forall_replicate].
Qed.
