(* ===== verification/TransformFilter.v ===== *)
(** Row filters of the transform engine: the filter language with its parser and
    evaluation (src/crates/parqonaut-transform/src/engine/filter.rs, compat.rs)
    and the errors of the crate (error.rs).

    The grammar is written with the combinators of the [nom] crate; [Nom] gives
    them their documented meaning on complete input.  Filter texts are ASCII.  The
    compute kernels of the [arrow] crate are parameters ([ArrowKernels]). *)

From Stdlib Require Import Ascii SpecFloat.
From S2P Require Import Prelude TypeUnify RustNum StreamColumns StreamColumnsProofs.

(** * Errors (error.rs) *)

Inductive ParqknifeError :=
| PIo (e : string)
| PParquet (e : string)
| PArrow (e : string)
| PColumnar (e : ColumnarError)
| PInvalidInput (e : string)
| PSchemaMismatch (e : string)
| PFilterError (e : string)
| PSpecError (e : string)
| PS3Error (e : string)
| PUnsupported (e : string).

Definition parqknife_error_display (e : ParqknifeError) : string :=
  match e with
  | PIo s => "I/O error: " +:+ s
  | PParquet s => "Parquet error: " +:+ s
  | PArrow s => "Arrow error: " +:+ s
  | PColumnar c => "Columnar error: " +:+ columnar_error_display c
  | PInvalidInput s => "Invalid input: " +:+ s
  | PSchemaMismatch s => "Schema mismatch: " +:+ s
  | PFilterError s => "Filter expression error: " +:+ s
  | PSpecError s => "Spec parsing error: " +:+ s
  | PS3Error s => "S3 error: " +:+ s
  | PUnsupported s => "Unsupported operation: " +:+ s
  end.

(** * Expressions *)

Inductive FilterValue :=
| FInt64 (z : Z)
| FFloat64 (x : spec_float)
| FString (s : string)
| FBool (b : bool)
| FNull.

Inductive FilterExpr :=
| FEq (c : string) (v : FilterValue)
| FNe (c : string) (v : FilterValue)
| FLt (c : string) (v : FilterValue)
| FLe (c : string) (v : FilterValue)
| FGt (c : string) (v : FilterValue)
| FGe (c : string) (v : FilterValue)
| FIn (c : string) (vs : list FilterValue)
| FIsNull (c : string)
| FIsNotNull (c : string)
| FAnd (l r : FilterExpr)
| FOr (l r : FilterExpr)
| FNot (e : FilterExpr).

#[global] Instance spec_float_eq_dec : EqDecision spec_float.
Proof. solve_decision. Defined.
#[global] Instance FilterValue_eq_dec : EqDecision FilterValue.
Proof. solve_decision. Defined.

(** * Parser combinators *)

Module Nom.
(** A parser returns what it read and the rest, or refuses. *)
Definition parser (A : Type) : Type := string -> option (A * string).

Fixpoint span (p : ascii -> bool) (s : string) : string * string :=
  match s with
  | String c s' => if p c then let '(a, b) := span p s' in (String c a, b) else (EmptyString, s)
  | EmptyString => (EmptyString, EmptyString)
  end.

Definition tag (t : string) : parser string := fun i => (fun rest => (t, rest)) <$> strip_prefix t i.

Definition take_while1 (p : ascii -> bool) : parser string := fun i =>
  match span p i with (EmptyString, _) => None | (a, rest) => Some (a, rest) end.

Definition satisfy (p : ascii -> bool) : parser ascii := fun i =>
  match i with String c rest => if p c then Some (c, rest) else None | EmptyString => None end.

Definition is_space (c : ascii) : bool := bool_decide (c ∈ [" "%char; "009"%char; "010"%char; "013"%char]).
Definition multispace0 : parser string := fun i => Some (span is_space i).
Definition multispace1 : parser string := take_while1 is_space.

Definition is_digit (c : ascii) : bool := bool_decide (is_Some (digit_value c)).
Definition digit1 : parser string := take_while1 is_digit.

(** An optional sign and digits; a number out of range is refused. *)
Definition i64 : parser Z := fun i =>
  let '(neg, body) := split_sign i in
  let '(v, count, rest) := digits_run body 0 0 in
  let z := if neg then (- v)%Z else v in
  match count with
  | 0 => None
  | S _ => if (i64_min <=? z)%Z && (z <=? i64_max)%Z then Some (z, rest) else None
  end.

Definition pmap {A B} (f : A -> B) (p : parser A) : parser B := fun i => (fun xr => (f (fst xr), snd xr)) <$> p i.
Definition then_ {A B} (p : parser A) (q : A -> parser B) : parser B := fun i => xr ← p i; q (fst xr) (snd xr).
Definition preceded {A B} (p : parser A) (q : parser B) : parser B := then_ p (fun _ => q).
Definition delimited {A B C} (p : parser A) (q : parser B) (r : parser C) : parser B :=
  then_ p (fun _ => then_ q (fun x => pmap (fun _ => x) r)).
Definition opt {A} (p : parser A) : parser (option A) := fun i =>
  match p i with Some (x, rest) => Some (Some x, rest) | None => Some (None, i) end.

Fixpoint alt {A} (ps : list (parser A)) : parser A := fun i =>
  match ps with
  | [] => None
  | p :: ps => match p i with Some r => Some r | None => alt ps i end
  end.

(** The text a parser read. *)
Definition recognize {A} (p : parser A) : parser string := fun i =>
  xr ← p i; Some (String.substring 0 (String.length i - String.length (snd xr)) i, snd xr).

(** As often as possible; a round that reads nothing is refused.  There are at
    most as many rounds as characters. *)
Fixpoint many0_rounds {A} (fuel : nat) (p : parser A) (i : string) : option (list A * string) :=
  match fuel with
  | 0 => Some ([], i)
  | S fuel =>
      match p i with
      | None => Some ([], i)
      | Some (x, rest) =>
          if String.length rest =? String.length i then None
          else xsr ← many0_rounds fuel p rest; Some (x :: fst xsr, snd xsr)
      end
  end.
Definition many0 {A} (p : parser A) : parser (list A) := fun i => many0_rounds (S (String.length i)) p i.

(** Further elements, each behind a separator. *)
Fixpoint separated_rounds {A B} (fuel : nat) (sep : parser B) (p : parser A) (i : string) : option (list A * string) :=
  match fuel with
  | 0 => Some ([], i)
  | S fuel =>
      match sep i with
      | None => Some ([], i)
      | Some (_, i1) =>
          if String.length i1 =? String.length i then None
          else match p i1 with
               | None => Some ([], i)
               | Some (x, rest) => xsr ← separated_rounds fuel sep p rest; Some (x :: fst xsr, snd xsr)
               end
      end
  end.
Definition separated_list1 {A B} (sep : parser B) (p : parser A) : parser (list A) :=
  then_ p (fun x => pmap (cons x) (fun i => separated_rounds (S (String.length i)) sep p i)).
End Nom.
Import Nom.

(** * The grammar *)

Definition is_alphabetic (c : ascii) : bool :=
  let n := N_of_ascii c in ((65 <=? n) && (n <=? 90) || (97 <=? n) && (n <=? 122))%N.
Definition ident_start (c : ascii) : bool := bool_decide (c = "_"%char) || is_alphabetic c.
Definition ident_char (c : ascii) : bool := is_alphabetic c || is_digit c || bool_decide (c = "_"%char).

Definition identifier : parser string :=
  recognize (then_ (satisfy ident_start) (fun _ => take_while1 ident_char)).

Definition dquote : ascii := "034"%char.

Definition char_ (c : ascii) : parser ascii := satisfy (fun d => bool_decide (d = c)).

Definition value : parser FilterValue :=
  alt [pmap FInt64 i64;
       pmap (fun s => FFloat64 (default (S754_zero false) (parse_f64 s)))
         (recognize (then_ (opt (char_ "-")) (fun _ => then_ digit1 (fun _ => opt (preceded (char_ ".") digit1)))));
       pmap FString (delimited (char_ dquote) (take_while1 (fun c => negb (bool_decide (c = dquote)))) (char_ dquote));
       pmap (fun _ => FBool true) (tag "true");
       pmap (fun _ => FBool false) (tag "false");
       pmap (fun _ => FNull) (tag "NULL")].

Definition comparison_op : parser string := alt [tag "!="; tag "<="; tag ">="; tag "="; tag "<"; tag ">"].

Definition op_expr (op column : string) (v : FilterValue) : FilterExpr :=
  if decide (op = "=") then FEq column v
  else if decide (op = "!=") then FNe column v
  else if decide (op = "<") then FLt column v
  else if decide (op = "<=") then FLe column v
  else if decide (op = ">") then FGt column v
  else FGe column v.

Definition binary_comparison : parser FilterExpr :=
  then_ identifier (fun column => preceded multispace0 (then_ comparison_op (fun op =>
    preceded multispace0 (pmap (op_expr op column) value)))).

Definition is_null_expr : parser FilterExpr :=
  then_ identifier (fun column => preceded multispace0 (pmap (fun _ => FIsNull column) (tag "IS NULL"))).

Definition is_not_null_expr : parser FilterExpr :=
  then_ identifier (fun column => preceded multispace0 (pmap (fun _ => FIsNotNull column) (tag "IS NOT NULL"))).

Definition in_expr : parser FilterExpr :=
  then_ identifier (fun column => preceded multispace0 (preceded (tag "IN") (preceded multispace0
    (pmap (FIn column)
       (delimited (char_ "(") (separated_list1 (delimited multispace0 (char_ ",") multispace0) value) (char_ ")")))))).

Definition not_expr (comparison : parser FilterExpr) : parser FilterExpr :=
  pmap FNot (preceded (delimited multispace0 (tag "NOT") multispace1) comparison).

Definition and_expr (comparison : parser FilterExpr) : parser FilterExpr :=
  then_ comparison (fun first =>
    pmap (fun rest => fold_left FAnd rest first)
      (many0 (preceded (delimited multispace0 (tag "AND") multispace0) comparison))).

Definition or_expr (comparison : parser FilterExpr) : parser FilterExpr :=
  then_ (and_expr comparison) (fun first =>
    pmap (fun rest => fold_left FOr rest first)
      (many0 (preceded (delimited multispace0 (tag "OR") multispace0) (and_expr comparison)))).

Definition filter_expr (comparison : parser FilterExpr) : parser FilterExpr :=
  alt [or_expr comparison; and_expr comparison; comparison].

Definition paren_expr (comparison : parser FilterExpr) : parser FilterExpr :=
  delimited (delimited multispace0 (char_ "(") multispace0) (filter_expr comparison)
    (delimited multispace0 (char_ ")") multispace0).

(** [fuel] bounds how deeply negations and parentheses nest; each reads a
    character first. *)
Fixpoint comparison (fuel : nat) : parser FilterExpr :=
  match fuel with
  | 0 => fun _ => None
  | S fuel => fun i =>
      alt [is_null_expr; is_not_null_expr; in_expr; binary_comparison; not_expr (comparison fuel);
           paren_expr (comparison fuel)] i
  end.

(** [detail] is the text of [nom]'s error. *)
Definition parse_filter (detail expr : string) : Result ParqknifeError FilterExpr :=
  match filter_expr (comparison (S (String.length expr))) expr with
  | Some (e, _) => Ok e
  | None => Err (PFilterError ("Parse error: " +:+ detail))
  end.

(** * Evaluation *)

Definition kleene_and (a b : option bool) : option bool :=
  match a, b with
  | Some false, _ | _, Some false => Some false
  | Some true, Some true => Some true
  | _, _ => None
  end.
Definition kleene_or (a b : option bool) : option bool :=
  match a, b with
  | Some true, _ | _, Some true => Some true
  | Some false, Some false => Some false
  | _, _ => None
  end.

(** The rows a mask keeps: those where it is true. *)
Definition kept {A} (mask : list (option bool)) (rows : list A) : list A :=
  omap (fun mr => if decide (fst mr = Some true) then Some (snd mr) else None) (zip mask rows).

(** Batches as the engine holds them: columns of one length that the schema
    admits. *)
Definition batch_ok (b : RecordBatch) : Prop := batch_wf b /\ Forall2 column_admits (rb_schema b) (rb_columns b).

(** Compute kernels of the [arrow] crate. *)
Class ArrowKernels := {
  k_and : list (option bool) -> list (option bool) -> Result string (list (option bool));
  k_or : list (option bool) -> list (option bool) -> Result string (list (option bool));
  k_not : list (option bool) -> Result string (list (option bool));
  k_is_null : Array -> Result string (list (option bool));
  k_is_not_null : Array -> Result string (list (option bool));
  k_filter : RecordBatch -> list (option bool) -> Result string RecordBatch;
  k_cast : Array -> DataType -> Result string Array;
  k_and_spec : forall l r, length l = length r -> k_and l r = Ok (zip_with kleene_and l r);
  k_or_spec : forall l r, length l = length r -> k_or l r = Ok (zip_with kleene_or l r);
  k_not_spec : forall l, k_not l = Ok (map (fmap negb) l);
  k_is_null_spec : forall a, k_is_null a = Ok (map (fun i => Some (is_null a i)) (seq 0 (array_len a)));
  k_is_not_null_spec : forall a, k_is_not_null a = Ok (map (fun i => Some (negb (is_null a i))) (seq 0 (array_len a)));
  k_filter_spec : forall b mask, batch_ok b -> length mask = rb_num_rows b ->
    exists b', k_filter b mask = Ok b' /\ batch_ok b' /\ rb_schema b' = rb_schema b /\
      batch_rows b' = kept mask (batch_rows b);
  k_cast_spec : forall a t a', k_cast a t = Ok a' -> array_wf a' /\ array_type a' = t /\ array_len a' = array_len a;
}.

(** [eq_arrays], [lt_arrays] and so on: false where an entry is null. *)
Definition compare_arrays {A} (f : A -> A -> bool) (left right : list (option A)) : Result ParqknifeError (list (option bool)) :=
  if decide (length left <> length right) then Err (PFilterError "Array length mismatch")
  else Ok (zip_with (fun a b => match a, b with Some x, Some y => Some (f x y) | _, _ => Some false end) left right).

Definition eq_arrays : list (option Z) -> list (option Z) -> Result ParqknifeError (list (option bool)) := compare_arrays Z.eqb.
Definition lt_arrays : list (option Z) -> list (option Z) -> Result ParqknifeError (list (option bool)) := compare_arrays Z.ltb.
Definition le_arrays : list (option Z) -> list (option Z) -> Result ParqknifeError (list (option bool)) := compare_arrays Z.leb.
Definition gt_arrays : list (option Z) -> list (option Z) -> Result ParqknifeError (list (option bool)) := compare_arrays Z.gtb.
Definition ge_arrays : list (option Z) -> list (option Z) -> Result ParqknifeError (list (option bool)) := compare_arrays Z.geb.
Definition eq_string_arrays : list (option string) -> list (option string) -> Result ParqknifeError (list (option bool)) :=
  compare_arrays (fun a b => bool_decide (a = b)).

Definition type_mismatch {A} : Result ParqknifeError A := Err (PFilterError "Type mismatch").
Definition unsupported_comparison {A} : Result ParqknifeError A := Err (PFilterError "Unsupported comparison type").

Definition column_by_name (b : RecordBatch) (col : string) : option Array :=
  i ← position col (map fd_name (rb_schema b)); rb_columns b !! i.

Definition column_or_error (b : RecordBatch) (col : string) : Result ParqknifeError Array :=
  match column_by_name b col with
  | Some a => Ok a
  | None => Err (PInvalidInput ("Column not found: " +:+ col))
  end.

(** An entry of [value_vec.contains(..)] of [eval_in]; nulls are never in. *)
Definition contained {A} (f : A -> bool) (l : list (option A)) : list (option bool) :=
  map (fun x => Some (match x with Some x => f x | None => false end)) l.

(** Floats are compared as numbers, a NaN with every NaN. *)
Definition float_in (vals : list FilterValue) (x : spec_float) : bool :=
  existsb (fun v => match v with
                    | FFloat64 f => match x, f with S754_nan, S754_nan => true | _, _ => SFeqb x f end
                    | _ => false
                    end) vals.

Section Evaluate.
Context `{ArrowKernels}.

Definition kernel {A} (r : Result string A) : Result ParqknifeError A := map_err PArrow r.

Definition eval_eq (b : RecordBatch) (col : string) (val : FilterValue) : Result ParqknifeError (list (option bool)) :=
  array ← column_or_error b col;
  match val with
  | FInt64 v => match array with Int64Array l => eq_arrays l (replicate (length l) (Some v)) | _ => type_mismatch end
  | FString v => match array with StringArray l => eq_string_arrays l (replicate (length l) (Some v)) | _ => type_mismatch end
  | _ => unsupported_comparison
  end.

Definition eval_ne (b : RecordBatch) (col : string) (val : FilterValue) : Result ParqknifeError (list (option bool)) :=
  result ← eval_eq b col val; kernel (k_not result).

(** [eval_lt], [eval_le], [eval_gt] and [eval_ge] differ in the comparison. *)
Definition eval_order (cmp : list (option Z) -> list (option Z) -> Result ParqknifeError (list (option bool)))
    (b : RecordBatch) (col : string) (val : FilterValue) : Result ParqknifeError (list (option bool)) :=
  array ← column_or_error b col;
  match val with
  | FInt64 v => match array with Int64Array l => cmp l (replicate (length l) (Some v)) | _ => type_mismatch end
  | _ => unsupported_comparison
  end.

Definition eval_lt := eval_order lt_arrays.
Definition eval_le := eval_order le_arrays.
Definition eval_gt := eval_order gt_arrays.
Definition eval_ge := eval_order ge_arrays.

Definition eval_in (b : RecordBatch) (col : string) (vals : list FilterValue) : Result ParqknifeError (list (option bool)) :=
  array ← column_or_error b col;
  match vals with
  | [] => Ok (replicate (array_len array) (Some false))
  | FInt64 _ :: _ =>
      match array with
      | Int64Array l => Ok (contained (fun x => bool_decide (FInt64 x ∈ vals)) l)
      | _ => Err (PFilterError "Type mismatch for IN: expected Int64")
      end
  | FString _ :: _ =>
      match array with
      | StringArray l => Ok (contained (fun x => bool_decide (FString x ∈ vals)) l)
      | _ => Err (PFilterError "Type mismatch for IN: expected String")
      end
  | FBool _ :: _ =>
      match array with
      | BooleanArray l => Ok (contained (fun x => bool_decide (FBool x ∈ vals)) l)
      | _ => Err (PFilterError "Type mismatch for IN: expected Bool")
      end
  | FFloat64 _ :: _ =>
      match array with
      | Float64Array l => Ok (contained (float_in vals) l)
      | _ => Err (PFilterError "Type mismatch for IN: expected Float64")
      end
  | FNull :: _ => Err (PFilterError "IN operator cannot use NULL as a value")
  end.

Definition eval_is_null (b : RecordBatch) (col : string) : Result ParqknifeError (list (option bool)) :=
  array ← column_or_error b col; kernel (k_is_null array).
Definition eval_is_not_null (b : RecordBatch) (col : string) : Result ParqknifeError (list (option bool)) :=
  array ← column_or_error b col; kernel (k_is_not_null array).

Fixpoint evaluate_filter (b : RecordBatch) (expr : FilterExpr) : Result ParqknifeError (list (option bool)) :=
  match expr with
  | FEq col val => eval_eq b col val
  | FNe col val => eval_ne b col val
  | FLt col val => eval_lt b col val
  | FLe col val => eval_le b col val
  | FGt col val => eval_gt b col val
  | FGe col val => eval_ge b col val
  | FIn col vals => eval_in b col vals
  | FIsNull col => eval_is_null b col
  | FIsNotNull col => eval_is_not_null b col
  | FAnd l r => left ← evaluate_filter b l; right ← evaluate_filter b r; kernel (k_and left right)
  | FOr l r => left ← evaluate_filter b l; right ← evaluate_filter b r; kernel (k_or left right)
  | FNot e => result ← evaluate_filter b e; kernel (k_not result)
  end.

(** [FilterTransform]. *)
Definition filter_transform (expr : FilterExpr) (b : RecordBatch) : Result ParqknifeError RecordBatch :=
  mask ← evaluate_filter b expr; kernel (k_filter b mask).
End Evaluate.

(** * Rows *)

(** What a filter says about one row; [get] is the value of a column.  The language is
    two-valued on rows: a comparison with a null is false and its negation true, so that
    [!=] and the NOT of an equality hold for nulls, unlike in SQL. *)
Definition row_compare (f : Z -> Z -> bool) (x : Value) (v : FilterValue) : bool :=
  match x, v with VInt a, FInt64 b => f a b | _, _ => false end.

Definition row_equal (x : Value) (v : FilterValue) : bool :=
  match x, v with
  | VInt a, FInt64 b => (a =? b)%Z
  | VStr a, FString b => bool_decide (a = b)
  | _, _ => false
  end.

Definition row_in (x : Value) (vals : list FilterValue) : bool :=
  match x with
  | VInt a => bool_decide (FInt64 a ∈ vals)
  | VStr a => bool_decide (FString a ∈ vals)
  | VBool a => bool_decide (FBool a ∈ vals)
  | VFloat a => float_in vals a
  | VNull | VOpaque => false
  end.

Definition row_null (x : Value) : bool := match x with VNull => true | _ => false end.

Fixpoint row_holds (get : string -> Value) (e : FilterExpr) : bool :=
  match e with
  | FEq c v => row_equal (get c) v
  | FNe c v => negb (row_equal (get c) v)
  | FLt c v => row_compare Z.ltb (get c) v
  | FLe c v => row_compare Z.leb (get c) v
  | FGt c v => row_compare Z.gtb (get c) v
  | FGe c v => row_compare Z.geb (get c) v
  | FIn c vs => row_in (get c) vs
  | FIsNull c => row_null (get c)
  | FIsNotNull c => negb (row_null (get c))
  | FAnd l r => row_holds get l && row_holds get r
  | FOr l r => row_holds get l || row_holds get r
  | FNot e => negb (row_holds get e)
  end.

Definition cell_at (b : RecordBatch) (i : nat) (col : string) : Value :=
  match column_by_name b col with Some a => cell a i | None => VNull end.

(** The comparisons the engine has for a column. *)
Definition comparable (strings : bool) (a : Array) (v : FilterValue) : Prop :=
  match a, v with
  | Int64Array _, FInt64 _ => True
  | StringArray _, FString _ => strings = true
  | _, _ => False
  end.

Definition members (a : Array) (vals : list FilterValue) : Prop :=
  match vals, a with
  | [], _ | FInt64 _ :: _, Int64Array _ | FString _ :: _, StringArray _ | FBool _ :: _, BooleanArray _
  | FFloat64 _ :: _, Float64Array _ => True
  | _, _ => False
  end.

Definition on_column (b : RecordBatch) (col : string) (P : Array -> Prop) : Prop :=
  match column_by_name b col with Some a => P a | None => False end.

Fixpoint applicable (b : RecordBatch) (e : FilterExpr) : Prop :=
  match e with
  | FEq c v | FNe c v => on_column b c (fun a => comparable true a v)
  | FLt c v | FLe c v | FGt c v | FGe c v => on_column b c (fun a => comparable false a v)
  | FIn c vs => on_column b c (fun a => members a vs)
  | FIsNull c | FIsNotNull c => on_column b c (fun _ => True)
  | FAnd l r | FOr l r => applicable b l /\ applicable b r
  | FNot e => applicable b e
  end.

(** ** Masks *)

Lemma map_entries {A B} (F : option A -> B) (l : list (option A)) :
  map (fun i => F (mjoin (l !! i))) (seq 0 (length l)) = map F l.
Proof.
  induction l as [|x l IH]; [done|]. cbn [length seq map]. f_equal.
  rewrite <- seq_shift, map_map. by rewrite <- IH.
Qed.

Lemma column_by_name_len b col a : batch_ok b -> column_by_name b col = Some a -> array_len a = rb_num_rows b.
Proof.
  intros [Hw _] Ha. unfold column_by_name in Ha. destruct (position _ _) as [i|]; [|done]. cbn in Ha.
  unfold batch_wf in Hw. rewrite Forall_lookup in Hw. by destruct (Hw i a Ha).
Qed.

Definition mask_of (b : RecordBatch) (f : nat -> bool) : list (option bool) :=
  map (fun i => Some (f i)) (seq 0 (rb_num_rows b)).

Lemma mask_of_length b f : length (mask_of b f) = rb_num_rows b.
Proof. unfold mask_of. by rewrite length_map, length_seq. Qed.

Lemma mask_of_zip b f g (k : option bool -> option bool -> option bool) h :
  (forall x y, k (Some x) (Some y) = Some (h x y)) ->
  zip_with k (mask_of b f) (mask_of b g) = mask_of b (fun i => h (f i) (g i)).
Proof. intros Hk. unfold mask_of. induction (seq 0 (rb_num_rows b)) as [|i l IH]; [done|]. cbn. by rewrite Hk, IH. Qed.

Lemma compare_mask {A} (f : A -> A -> bool) (l : list (option A)) v :
  compare_arrays f l (replicate (length l) (Some v)) =
  Ok (map (fun i => Some (match mjoin (l !! i) with Some x => f x v | None => false end)) (seq 0 (length l))).
Proof.
  unfold compare_arrays. rewrite length_replicate, decide_False by tauto. f_equal.
  rewrite (map_entries (fun o => Some (match o with Some x => f x v | None => false end))).
  induction l as [|[x|] l IH]; cbn; by rewrite ?IH.
Qed.

Lemma contained_mask {A} (f : A -> bool) (l : list (option A)) :
  contained f l = map (fun i => Some (match mjoin (l !! i) with Some x => f x | None => false end)) (seq 0 (length l)).
Proof. by rewrite (map_entries (fun o => Some (match o with Some x => f x | None => false end))). Qed.

Section Masks.
Context `{ArrowKernels} (b : RecordBatch) (Hb : batch_ok b).

(** An expression applies and the mask says which rows it holds of, or it does not
    apply and is refused. *)
Definition evaluates (e : FilterExpr) : Prop :=
  (applicable b e /\ evaluate_filter b e = Ok (mask_of b (fun i => row_holds (cell_at b i) e))) \/
  (~ applicable b e /\ is_ok (evaluate_filter b e) = false).

Ltac on_the_column col a Ea Hlen :=
  unfold column_or_error, on_column, cell_at; destruct (column_by_name b col) as [a|] eqn:Ea;
  [pose proof (column_by_name_len b col a Hb Ea) as Hlen|right; split; [tauto|done]].

(** The mask of an array whose entries decide one by one. *)
Lemma mask_eq (n : nat) (f : nat -> option bool) (g : nat -> bool) : n = rb_num_rows b ->
  (forall i, f i = Some (g i)) -> map f (seq 0 n) = mask_of b g.
Proof. intros -> Hfg. unfold mask_of. apply map_ext. exact Hfg. Qed.

Lemma order_evaluates f col v :
  (on_column b col (fun a => comparable false a v) /\
     eval_order (compare_arrays f) b col v = Ok (mask_of b (fun i => row_compare f (cell_at b i col) v))) \/
  (~ on_column b col (fun a => comparable false a v) /\ is_ok (eval_order (compare_arrays f) b col v) = false).
Proof.
  unfold eval_order. on_the_column col a Ea Hlen. cbn [mbind Result_bind].
  destruct v as [v| | | |], a; cbn [comparable]; try (by right; split; [intros ?|]); left; split; try done.
  rewrite compare_mask. f_equal. apply mask_eq; [done|]. intros i. cbn [cell]. unfold cell_of.
  by destruct (mjoin _).
Qed.

Lemma eq_evaluates col v :
  (on_column b col (fun a => comparable true a v) /\
     eval_eq b col v = Ok (mask_of b (fun i => row_equal (cell_at b i col) v))) \/
  (~ on_column b col (fun a => comparable true a v) /\ is_ok (eval_eq b col v) = false).
Proof.
  unfold eval_eq. on_the_column col a Ea Hlen. cbn [mbind Result_bind].
  destruct v as [v| |v| |], a; cbn [comparable]; try (by right; split; [intros ?|]); left; split; try done;
    unfold eq_arrays, eq_string_arrays; rewrite compare_mask; f_equal; (apply mask_eq; [done|]); intros i; cbn [cell];
    unfold cell_of; by destruct (mjoin _).
Qed.

Lemma row_in_nil x : row_in x [] = false.
Proof. destruct x; [done| |done| | |done]; by apply bool_decide_eq_false, not_elem_of_nil. Qed.

Lemma replicate_mask {A} (x : A) (n k : nat) (g : nat -> A) : (forall i, g i = x) -> replicate n x = map g (seq k n).
Proof. intros Hg. revert k. induction n as [|n IH]; intros k; cbn; [done|]. by rewrite Hg, (IH (S k)). Qed.

Lemma in_evaluates col vals :
  (on_column b col (fun a => members a vals) /\ eval_in b col vals = Ok (mask_of b (fun i => row_in (cell_at b i col) vals))) \/
  (~ on_column b col (fun a => members a vals) /\ is_ok (eval_in b col vals) = false).
Proof.
  unfold eval_in. on_the_column col a Ea Hlen. cbn [mbind Result_bind].
  destruct vals as [|v vals].
  { left. split; [done|]. f_equal. rewrite Hlen. apply replicate_mask. intros i. by rewrite row_in_nil. }
  destruct v as [v|v|v|v|], a; cbn [members]; try (by right; split; [intros ?|]); left; (split; [done|]); f_equal;
    rewrite contained_mask; (apply mask_eq; [done|]); intros i; cbn [cell]; unfold cell_of; by destruct (mjoin _).
Qed.

Lemma null_evaluates (k : Array -> Result string (list (option bool))) (g : bool -> bool) col :
  (forall a, k a = Ok (map (fun i => Some (g (is_null a i))) (seq 0 (array_len a)))) ->
  (on_column b col (fun _ => True) /\
     (array ← column_or_error b col; kernel (k array)) = Ok (mask_of b (fun i => g (row_null (cell_at b i col))))) \/
  (~ on_column b col (fun _ => True) /\ is_ok (array ← column_or_error b col; kernel (k array)) = false).
Proof.
  intros Hk. on_the_column col a Ea Hlen. left. split; [done|]. cbn [mbind Result_bind]. rewrite Hk. unfold kernel. cbn [map_err].
  f_equal. apply mask_eq; [done|]. intros i. unfold is_null, row_null. done.
Qed.

Lemma not_mask f : map (fmap negb) (mask_of b f) = mask_of b (fun i => negb (f i)).
Proof. unfold mask_of. rewrite map_map. by apply map_ext. Qed.

Lemma filter_evaluates e : evaluates e.
Proof.
  induction e as [c v|c v|c v|c v|c v|c v|c vs|c|c|l IHl r IHr|l IHl r IHr|e IHe]; unfold evaluates; cbn [applicable evaluate_filter row_holds].
  - apply eq_evaluates.
  - unfold eval_ne. destruct (eq_evaluates c v) as [[Ha ->]|[Ha He]]; [left|right]; (split; [done|]).
    + cbn [mbind Result_bind]. rewrite k_not_spec. unfold kernel. cbn [map_err]. by rewrite not_mask.
    + by destruct (eval_eq b c v).
  - apply order_evaluates.
  - apply order_evaluates.
  - apply order_evaluates.
  - apply order_evaluates.
  - apply in_evaluates.
  - by apply (null_evaluates k_is_null (fun x => x)), k_is_null_spec.
  - by apply (null_evaluates k_is_not_null negb), k_is_not_null_spec.
  - destruct IHl as [[Hl ->]|[Hl El]]; [|right; split; [tauto|by destruct (evaluate_filter b l)]]. cbn [mbind Result_bind].
    destruct IHr as [[Hr ->]|[Hr Er]]; [|right; split; [tauto|by destruct (evaluate_filter b r)]]. left. split; [done|].
    cbn [mbind Result_bind]. rewrite k_and_spec by by rewrite !mask_of_length. unfold kernel. cbn [map_err].
    by rewrite (mask_of_zip _ _ _ _ andb) by by intros [] [].
  - destruct IHl as [[Hl ->]|[Hl El]]; [|right; split; [tauto|by destruct (evaluate_filter b l)]]. cbn [mbind Result_bind].
    destruct IHr as [[Hr ->]|[Hr Er]]; [|right; split; [tauto|by destruct (evaluate_filter b r)]]. left. split; [done|].
    cbn [mbind Result_bind]. rewrite k_or_spec by by rewrite !mask_of_length. unfold kernel. cbn [map_err].
    by rewrite (mask_of_zip _ _ _ _ orb) by by intros [] [].
  - destruct IHe as [[He ->]|[He Ee]]; [left|right]; (split; [done|]).
    + cbn [mbind Result_bind]. rewrite k_not_spec. unfold kernel. cbn [map_err]. by rewrite not_mask.
    + by destruct (evaluate_filter b e).
Qed.
End Masks.

Lemma kept_mask {A} (f : nat -> bool) (g : nat -> A) l :
  kept (map (fun i => Some (f i)) l) (map g l) = map g (filter (fun i => f i = true) l).
Proof.
  induction l as [|i l IH]; [done|]. rewrite filter_cons. unfold kept in *. cbn [map zip_with omap list_omap fst snd].
  destruct (f i) eqn:E.
  - rewrite !decide_True by done. cbn [map]. by rewrite <- IH.
  - rewrite !decide_False by done. by rewrite <- IH.
Qed.

(** Whether a filter applies, and what it leaves. *)
Lemma filter_cases `{ArrowKernels} b e : batch_ok b ->
  (applicable b e /\ exists b', filter_transform e b = Ok b' /\ batch_ok b' /\ rb_schema b' = rb_schema b /\
    batch_rows b' = map (fun i => map (fun a => cell a i) (rb_columns b))
                      (filter (fun i => row_holds (cell_at b i) e = true) (seq 0 (rb_num_rows b)))) \/
  (~ applicable b e /\ is_ok (filter_transform e b) = false).
Proof.
  intros Hb. unfold filter_transform. destruct (filter_evaluates b Hb e) as [[Ha ->]|[Ha He]].
  - left. split; [done|]. cbn [mbind Result_bind].
    destruct (k_filter_spec b _ Hb (mask_of_length b (fun i => row_holds (cell_at b i) e))) as (b' & -> & Hok & Hs & Hr).
    exists b'. repeat (split; [done|]). rewrite Hr. unfold batch_rows, mask_of. apply kept_mask.
  - right. split; [done|]. by destruct (evaluate_filter b e).
Qed.

(** ** Claim *)

(** A filter is refused exactly when it names an unknown column or compares a
    column with a value of another type; otherwise the batch keeps its schema and
    exactly the rows the expression holds of, in their order. *)
Theorem filter_rows_exact `{ArrowKernels} b e : batch_ok b ->
  (is_ok (filter_transform e b) = true <-> applicable b e) /\
  forall b', filter_transform e b = Ok b' -> batch_ok b' /\ rb_schema b' = rb_schema b /\
    batch_rows b' = map (fun i => map (fun a => cell a i) (rb_columns b))
                      (filter (fun i => row_holds (cell_at b i) e = true) (seq 0 (rb_num_rows b))).
Proof.
  intros Hb. destruct (filter_cases b e Hb) as [(Ha & b' & -> & Hrest)|[Ha He]].
  - split; [done|]. by intros b'' [= <-].
  - rewrite He. split; [done|]. intros b' Hb'. by rewrite Hb' in He.
Qed.

(** * The parser's recursion *)

(** A parser never returns more than it was given, [consumes] less. *)
Definition shrinks {A} (p : parser A) : Prop := forall i x r, p i = Some (x, r) -> String.length r <= String.length i.
Definition consumes {A} (p : parser A) : Prop := forall i x r, p i = Some (x, r) -> String.length r < String.length i.

Create HintDb parsers.

Lemma consumes_shrinks {A} (p : parser A) : consumes p -> shrinks p.
Proof. intros Hp i x r Hi. specialize (Hp i x r Hi). lia. Qed.

Lemma span_length p s : String.length (fst (span p s)) + String.length (snd (span p s)) = String.length s.
Proof. induction s as [|c s IH]; [done|]. cbn. destruct (p c); [|done]. destruct (span p s). cbn in *. lia. Qed.

Lemma strip_prefix_length t i rest : strip_prefix t i = Some rest -> String.length t + String.length rest = String.length i.
Proof.
  revert i. induction t as [|c t IH]; intros i Hi; [by injection Hi as ->|]. destruct i as [|d i]; [done|]. cbn in Hi.
  destruct (bool_decide (c = d)); [|done]. cbn. specialize (IH i Hi). lia.
Qed.

Lemma tag_consumes t : t <> EmptyString -> consumes (tag t).
Proof.
  intros Ht i x r Hi. unfold tag in Hi. destruct (strip_prefix t i) as [rest|] eqn:E; [|done]. injection Hi as <- <-.
  apply strip_prefix_length in E. destruct t; [done|]. cbn in E. lia.
Qed.

Lemma take_while1_consumes p : consumes (take_while1 p).
Proof.
  intros i x r Hi. unfold take_while1 in Hi. pose proof (span_length p i) as Hl. destruct (span p i) as [[|c a] b]; [done|].
  injection Hi as <- <-. cbn in Hl. lia.
Qed.

Lemma satisfy_consumes p : consumes (satisfy p).
Proof. intros [|c i] x r Hi; [done|]. cbn in Hi. destruct (p c); [|done]. injection Hi as <- <-. cbn. lia. Qed.

Lemma multispace0_shrinks : shrinks multispace0.
Proof. intros i x r Hi. injection Hi as Hi. pose proof (span_length is_space i) as Hl. rewrite Hi in Hl. cbn in Hl. lia. Qed.

Lemma digits_run_length s acc n : String.length (snd (digits_run s acc n)) <= String.length s.
Proof.
  revert acc n. induction s as [|c s IH]; intros acc n; [done|]. cbn. destruct (digit_value c); [|done].
  etransitivity; [apply IH|]. lia.
Qed.

Lemma i64_shrinks : shrinks i64.
Proof.
  intros i x r Hi. unfold i64 in Hi. destruct (split_sign i) as [neg body] eqn:Es.
  assert (String.length body <= String.length i) as Hb.
  { destruct i as [|c i]; cbn in Es; [by injection Es as <- <-|].
    repeat case_decide; injection Es as <- <-; cbn; lia. }
  pose proof (digits_run_length body 0 0) as Hd. destruct (digits_run body 0 0) as [[v [|k]] rest]; [done|].
  destruct (_ && _); [|done]. injection Hi as <- <-. cbn in Hd. lia.
Qed.

Lemma pmap_shrinks {A B} (f : A -> B) p : shrinks p -> shrinks (pmap f p).
Proof. intros Hp i x r Hi. unfold pmap in Hi. destruct (p i) as [[y r']|] eqn:E; [|done]. injection Hi as <- <-. by eapply Hp. Qed.

Lemma pmap_consumes {A B} (f : A -> B) p : consumes p -> consumes (pmap f p).
Proof. intros Hp i x r Hi. unfold pmap in Hi. destruct (p i) as [[y r']|] eqn:E; [|done]. injection Hi as <- <-. by eapply Hp. Qed.

Lemma then_shrinks {A B} (p : parser A) (q : A -> parser B) : shrinks p -> (forall x, shrinks (q x)) -> shrinks (then_ p q).
Proof.
  intros Hp Hq i x r Hi. unfold then_ in Hi. destruct (p i) as [[y r']|] eqn:E; [|done]. cbn in Hi.
  specialize (Hp _ _ _ E). specialize (Hq _ _ _ _ Hi). lia.
Qed.

Lemma then_consumes {A B} (p : parser A) (q : A -> parser B) : consumes p -> (forall x, shrinks (q x)) -> consumes (then_ p q).
Proof.
  intros Hp Hq i x r Hi. unfold then_ in Hi. destruct (p i) as [[y r']|] eqn:E; [|done]. cbn in Hi.
  specialize (Hp _ _ _ E). specialize (Hq _ _ _ _ Hi). lia.
Qed.

Lemma then_consumes_r {A B} (p : parser A) (q : A -> parser B) : shrinks p -> (forall x, consumes (q x)) -> consumes (then_ p q).
Proof.
  intros Hp Hq i x r Hi. unfold then_ in Hi. destruct (p i) as [[y r']|] eqn:E; [|done]. cbn in Hi.
  specialize (Hp _ _ _ E). specialize (Hq _ _ _ _ Hi). lia.
Qed.

Lemma opt_shrinks {A} (p : parser A) : shrinks p -> shrinks (opt p).
Proof. intros Hp i x r Hi. unfold opt in Hi. destruct (p i) as [[y r']|] eqn:E; injection Hi as <- <-; [by eapply Hp|done]. Qed.

Lemma recognize_shrinks {A} (p : parser A) : shrinks p -> shrinks (recognize p).
Proof. intros Hp i x r Hi. unfold recognize in Hi. destruct (p i) as [[y r']|] eqn:E; [|done]. injection Hi as <- <-. by eapply Hp. Qed.

Lemma recognize_consumes {A} (p : parser A) : consumes p -> consumes (recognize p).
Proof. intros Hp i x r Hi. unfold recognize in Hi. destruct (p i) as [[y r']|] eqn:E; [|done]. injection Hi as <- <-. by eapply Hp. Qed.

Lemma alt_shrinks {A} (ps : list (parser A)) : Forall shrinks ps -> shrinks (alt ps).
Proof.
  induction 1 as [|p ps Hp _ IH]; intros i x r Hi; [done|]. cbn in Hi. destruct (p i) as [[y r']|] eqn:E; [|by eapply IH].
  injection Hi as <- <-. by eapply Hp.
Qed.

Lemma many0_shrinks {A} (p : parser A) : shrinks p -> shrinks (many0 p).
Proof.
  intros Hp i. unfold many0. generalize (S (String.length i)) as n. intros n. revert i.
  induction n as [|n IH]; intros i x r Hi; cbn in Hi; [by injection Hi as <- <-|].
  destruct (p i) as [[y r']|] eqn:E; [|by injection Hi as <- <-]. destruct (_ =? _)%nat; [done|].
  destruct (many0_rounds n p r') as [[xs r'']|] eqn:Er; [|done]. injection Hi as <- <-.
  specialize (Hp _ _ _ E). specialize (IH _ _ _ Er). cbn. lia.
Qed.

Lemma separated_shrinks {A B} (sep : parser B) (p : parser A) : shrinks sep -> shrinks p -> shrinks (separated_list1 sep p).
Proof.
  intros Hs Hp. apply then_shrinks; [done|]. intros x. apply pmap_shrinks. intros i.
  generalize (S (String.length i)) as n. intros n. revert i.
  induction n as [|n IH]; intros i y r Hi; cbn in Hi; [by injection Hi as <- <-|].
  destruct (sep i) as [[z r1]|] eqn:Es; [|by injection Hi as <- <-]. destruct (_ =? _)%nat; [done|].
  destruct (p r1) as [[w r2]|] eqn:Ep; [|by injection Hi as <- <-].
  destruct (separated_rounds n sep p r2) as [[xs r3]|] eqn:Er; [|done]. injection Hi as <- <-.
  specialize (Hs _ _ _ Es). specialize (Hp _ _ _ Ep). specialize (IH _ _ _ Er). cbn. lia.
Qed.

#[export] Hint Resolve take_while1_consumes satisfy_consumes multispace0_shrinks i64_shrinks pmap_shrinks pmap_consumes
  then_shrinks opt_shrinks recognize_shrinks alt_shrinks many0_shrinks separated_shrinks consumes_shrinks : parsers.
#[export] Hint Extern 1 (consumes (tag _)) => (apply tag_consumes; discriminate) : parsers.
#[export] Hint Extern 1 (Forall shrinks _) => (repeat constructor) : parsers.
#[export] Hint Unfold preceded delimited char_ : parsers.

Ltac shrink := unfold preceded, delimited, char_, multispace1, digit1; eauto 20 with parsers.

Lemma identifier_consumes : consumes identifier.
Proof. apply recognize_consumes, then_consumes; shrink. Qed.
#[export] Hint Resolve identifier_consumes : parsers.

Lemma value_shrinks : shrinks value.
Proof. unfold value. apply alt_shrinks. repeat constructor; shrink. Qed.
#[export] Hint Resolve value_shrinks : parsers.

(** Parsers that answer alike on short inputs. *)
Definition agree {A} (n : nat) (p q : parser A) : Prop := forall i, String.length i <= n -> p i = q i.

Lemma agree_refl {A} n (p : parser A) : agree n p p.
Proof. by intros i. Qed.

Lemma agree_le {A} n m (p q : parser A) : m <= n -> agree n p q -> agree m p q.
Proof. intros Hm Ha i Hi. apply Ha. lia. Qed.

Lemma agree_pmap {A B} n (f : A -> B) p q : agree n p q -> agree n (pmap f p) (pmap f q).
Proof. intros Ha i Hi. unfold pmap. by rewrite Ha. Qed.

Lemma agree_then {A B} n (p q : parser A) (f g : A -> parser B) : shrinks p -> agree n p q -> (forall x, agree n (f x) (g x)) ->
  agree n (then_ p f) (then_ q g).
Proof.
  intros Hp Ha Hf i Hi. unfold then_. rewrite <- Ha by done. destruct (p i) as [[x r]|] eqn:E; [|done]. cbn.
  apply Hf. specialize (Hp _ _ _ E). lia.
Qed.

Lemma agree_then_strict {A B} n (p : parser A) (f g : A -> parser B) : consumes p -> (forall x, agree n (f x) (g x)) ->
  agree (S n) (then_ p f) (then_ p g).
Proof.
  intros Hp Hf i Hi. unfold then_. destruct (p i) as [[x r]|] eqn:E; [|done]. cbn. apply Hf.
  specialize (Hp _ _ _ E). lia.
Qed.

Lemma agree_alt {A} n (ps qs : list (parser A)) : Forall2 (agree n) ps qs -> agree n (alt ps) (alt qs).
Proof. induction 1 as [|p q ps qs Ha _ IH]; intros i Hi; [done|]. cbn. rewrite Ha by done. destruct (q i); [done|]. by apply IH. Qed.

Lemma agree_many0 {A} n (p q : parser A) : shrinks p -> agree n p q -> agree n (many0 p) (many0 q).
Proof.
  intros Hp Ha i. unfold many0. generalize (S (String.length i)) as k. intros k. revert i.
  induction k as [|k IH]; intros i Hi; [done|]. cbn. rewrite <- Ha by done. destruct (p i) as [[x r]|] eqn:E; [|done].
  destruct (_ =? _)%nat; [done|]. specialize (Hp _ _ _ E). by rewrite IH by lia.
Qed.

Section Grammar.
Context (c : parser FilterExpr) (Hc : shrinks c).

Lemma not_shrinks : shrinks (not_expr c).
Proof. unfold not_expr. shrink. Qed.
Lemma and_shrinks : shrinks (and_expr c).
Proof. unfold and_expr. apply then_shrinks; [done|]. intros x. apply pmap_shrinks, many0_shrinks. shrink. Qed.
Lemma or_shrinks : shrinks (or_expr c).
Proof.
  unfold or_expr. apply then_shrinks; [apply and_shrinks|]. intros x. apply pmap_shrinks, many0_shrinks.
  apply then_shrinks; [shrink|]. intros _. apply and_shrinks.
Qed.
Lemma filter_expr_shrinks : shrinks (filter_expr c).
Proof. apply alt_shrinks. repeat constructor; [apply or_shrinks|apply and_shrinks|done]. Qed.
Lemma paren_shrinks : shrinks (paren_expr c).
Proof.
  unfold paren_expr, delimited at 1. apply then_shrinks; [shrink|]. intros _.
  apply then_shrinks; [apply filter_expr_shrinks|]. intros e. apply pmap_shrinks. shrink.
Qed.

Context (d : parser FilterExpr) (n : nat) (Ha : agree n c d).

Lemma agree_and : agree n (and_expr c) (and_expr d).
Proof.
  apply agree_then; [done|done|]. intros x. apply agree_pmap, agree_many0; [shrink|].
  apply agree_then; [shrink|apply agree_refl|done].
Qed.
Lemma agree_or : agree n (or_expr c) (or_expr d).
Proof.
  apply agree_then; [apply and_shrinks|apply agree_and|]. intros x. apply agree_pmap, agree_many0.
  - apply then_shrinks; [shrink|]. intros _. apply and_shrinks.
  - apply agree_then; [shrink|apply agree_refl|]. intros _. apply agree_and.
Qed.
Lemma agree_filter_expr : agree n (filter_expr c) (filter_expr d).
Proof. apply agree_alt. repeat constructor; [apply agree_or|apply agree_and|done]. Qed.
Lemma agree_not : agree (S n) (not_expr c) (not_expr d).
Proof.
  apply agree_pmap, agree_then_strict; [|done]. apply then_consumes_r; [shrink|]. intros _. apply then_consumes; shrink.
Qed.
Lemma agree_paren : agree (S n) (paren_expr c) (paren_expr d).
Proof.
  apply agree_then_strict.
  - apply then_consumes_r; [shrink|]. intros _. apply then_consumes; shrink.
  - intros _. apply agree_then; [apply filter_expr_shrinks|apply agree_filter_expr|]. intros x. apply agree_refl.
Qed.
End Grammar.

Lemma comparison_shrinks f : shrinks (comparison f).
Proof.
  induction f as [|f IH]; [done|]. intros i. apply (alt_shrinks [is_null_expr; is_not_null_expr; in_expr; binary_comparison;
    not_expr (comparison f); paren_expr (comparison f)]). repeat constructor.
  - unfold is_null_expr. shrink.
  - unfold is_not_null_expr. shrink.
  - unfold in_expr. shrink.
  - unfold binary_comparison, comparison_op. apply then_shrinks; [shrink|]. intros x. apply then_shrinks; [shrink|]. intros _.
    apply then_shrinks; [apply alt_shrinks; repeat constructor; shrink|]. intros op. shrink.
  - by apply not_shrinks.
  - by apply paren_shrinks.
Qed.

(** ** Claim *)

(** The bound on the nesting is no restriction: with any other one that exceeds the
    length of the text the parser gives the same answer. *)
Theorem filter_nesting_enough n f1 f2 : n < f1 -> n < f2 -> agree n (filter_expr (comparison f1)) (filter_expr (comparison f2)).
Proof.
  intros H1 H2. apply agree_filter_expr; [apply comparison_shrinks|]. revert f1 f2 H1 H2.
  induction n as [|n IH]; intros [|f1] [|f2] H1 H2; try lia.
  - intros i Hi. destruct i; [|cbn in Hi; lia]. done.
  - apply agree_alt. repeat constructor; try apply agree_refl.
    + apply agree_not. apply IH; lia.
    + apply agree_paren; [apply comparison_shrinks|]. apply IH; lia.
Qed.

(** * Printing *)

Definition print_value (v : FilterValue) : string :=
  match v with
  | FInt64 z => i64_to_string z
  | FString s => String dquote (s +:+ String dquote EmptyString)
  | FBool b => bool_to_string b
  | FNull | FFloat64 _ => "NULL"
  end.

Definition print_op (op c : string) (v : FilterValue) : string := c +:+ " " +:+ op +:+ " " +:+ print_value v.

Fixpoint print_more (vs : list FilterValue) : string :=
  match vs with [] => EmptyString | v :: vs => ", " +:+ print_value v +:+ print_more vs end.
Definition print_values (vs : list FilterValue) : string :=
  match vs with [] => EmptyString | v :: vs => print_value v +:+ print_more vs end.

(** As a person writes filters, with parentheses only where the grammar needs them:
    OR binds weakest, then AND, then NOT and the comparisons, and both connectives
    group to the left.  [level] is 0 where an OR may stand bare, 1 where an AND may,
    2 for an operand. *)
Definition parens (b : bool) (s : string) : string := if b then "(" +:+ s +:+ ")" else s.

Fixpoint print_at (level : nat) (e : FilterExpr) : string :=
  match e with
  | FEq c v => print_op "=" c v
  | FNe c v => print_op "!=" c v
  | FLt c v => print_op "<" c v
  | FLe c v => print_op "<=" c v
  | FGt c v => print_op ">" c v
  | FGe c v => print_op ">=" c v
  | FIn c vs => c +:+ " IN (" +:+ print_values vs +:+ ")"
  | FIsNull c => c +:+ " IS NULL"
  | FIsNotNull c => c +:+ " IS NOT NULL"
  | FAnd l r => parens (1 <? level) (print_at 1 l +:+ " AND " +:+ print_at 2 r)
  | FOr l r => parens (0 <? level) (print_at 0 l +:+ " OR " +:+ print_at 1 r)
  | FNot e => "NOT " +:+ print_at 2 e
  end.

Definition print_filter (e : FilterExpr) : string := print_at 0 e.

(** Column names the language has: an identifier of at least two characters. *)
Definition writable_column (c : string) : Prop := identifier c = Some (c, EmptyString).

(** Values it has: integers, texts without quotes, booleans, null; no floats. *)
Definition writable_value (v : FilterValue) : Prop :=
  match v with
  | FInt64 z => (i64_min <= z <= i64_max)%Z
  | FString s => s <> EmptyString /\ has_char dquote s = false
  | FBool _ | FNull => True
  | FFloat64 _ => False
  end.

Fixpoint writable (e : FilterExpr) : Prop :=
  match e with
  | FEq c v | FNe c v | FLt c v | FLe c v | FGt c v | FGe c v => writable_column c /\ writable_value v
  | FIn c vs => writable_column c /\ vs <> [] /\ Forall writable_value vs
  | FIsNull c | FIsNotNull c => writable_column c
  | FAnd l r | FOr l r => writable l /\ writable r
  | FNot e => writable e
  end.

(** ** Pieces read back *)

(** A text that does not start with a character of [p]. *)
Definition starts_off (p : ascii -> bool) (s : string) : Prop := match s with String c _ => p c = false | EmptyString => True end.

Lemma span_all_app p s rest : fst (span p s) = s -> starts_off p rest -> span p (s +:+ rest) = (s, rest).
Proof.
  induction s as [|c s IH]; intros Hs Hr; sapp.
  - destruct rest as [|d rest]; [done|]. cbn. cbn in Hr. by rewrite Hr.
  - cbn in Hs |- *. destruct (p c); [|done]. destruct (span p s) as [a b] eqn:E. cbn in Hs. injection Hs as ->.
    by rewrite IH.
Qed.

Lemma span_full p s : snd (span p s) = EmptyString -> fst (span p s) = s.
Proof. induction s as [|c s IH]; [done|]. cbn. destruct (p c); [|done]. destruct (span p s). cbn in *. intros Hb. by rewrite IH. Qed.

Lemma substring_app a b : String.substring 0 (String.length a) (a +:+ b) = a.
Proof. induction a as [|c a IH]; sapp; [by destruct b|]. cbn. by rewrite IH. Qed.

(** What [identifier] accepts. *)
Lemma writable_column_inv c : writable_column c -> exists d s, c = String d s /\ ident_start d = true /\ s <> EmptyString /\
  fst (span ident_char s) = s.
Proof.
  unfold writable_column, identifier, recognize, then_. destruct c as [|d s]; [done|]. cbn [satisfy].
  destruct (ident_start d) eqn:Ed; [|done]. cbn. unfold take_while1.
  destruct (span ident_char s) as [[|x a] b] eqn:Es; [done|]. cbn. intros [= _ ->]. exists d, s.
  split; [done|]. split; [done|]. split; [by destruct s|].
  rewrite <- (span_full ident_char s) at 2; rewrite Es; done.
Qed.

Lemma identifier_app c rest : writable_column c -> starts_off ident_char rest -> identifier (c +:+ rest) = Some (c, rest).
Proof.
  intros Hc Hr. destruct (writable_column_inv c Hc) as (d & s & -> & Hd & Hs & Hspan).
  unfold identifier, recognize, then_. sapp. cbn [satisfy]. rewrite Hd. cbn [mbind option_bind fst snd]. unfold take_while1.
  rewrite span_all_app by done. destruct s as [|x s]; [done|]. cbn [mbind option_bind snd]. f_equal. f_equal.
  change (String d (String x s +:+ rest)) with (String d (String x s) +:+ rest).
  rewrite length_app_string. replace (_ - _) with (String.length (String d (String x s))) by (cbn; lia). apply substring_app.
Qed.

(** What ends a value. *)
Definition value_end (rest : string) : Prop :=
  match rest with String c _ => c = ")"%char \/ c = ","%char \/ c = " "%char | EmptyString => True end.

Lemma digits_run_tail s rest acc n v k : digits_run s acc n = (v, k, EmptyString) -> digits_run (s +:+ rest) acc n = digits_run rest v k.
Proof.
  revert acc n. induction s as [|c s IH]; intros acc n Hs; sapp; cbn in *; [by injection Hs as -> ->|].
  destruct (digit_value c); [by apply IH|done].
Qed.

Lemma digits_run_stop rest v k : value_end rest -> digits_run rest v k = (v, k, rest).
Proof. destruct rest as [|c rest]; [done|]. cbn. by intros [->|[->| ->]]. Qed.

Lemma pretty_not_empty (x : N) : pretty x <> EmptyString.
Proof. intros Hx. destruct (digits_run_pretty x) as [n Hn]. by rewrite Hx in Hn. Qed.

Lemma split_sign_app s rest neg body : s <> EmptyString -> split_sign s = (neg, body) ->
  split_sign (s +:+ rest) = (neg, body +:+ rest).
Proof.
  intros Hs. destruct s as [|c s]; [done|]. sapp. unfold split_sign. repeat case_decide; intros [= <- <-]; by sapp.
Qed.

Lemma i64_app z rest : (i64_min <= z <= i64_max)%Z -> value_end rest -> i64 (i64_to_string z +:+ rest) = Some (z, rest).
Proof.
  intros Hz He. unfold i64, i64_to_string.
  assert ((i64_min <=? z)%Z && (z <=? i64_max)%Z = true) as Hin by (apply andb_true_iff; rewrite !Z.leb_le; done).
  destruct (decide (0 <= z)%Z) as [Hp|Hn].
  - assert (exists x, pretty z = pretty x /\ z = Z.of_N x) as (x & -> & ->) by (exists (Z.to_N z); split; [by destruct z|lia]).
    destruct (digits_run_pretty x) as [n Hx]. rewrite (split_sign_app _ _ _ _ (pretty_not_empty x) (split_sign_pretty x)).
    rewrite (digits_run_tail _ _ _ _ _ _ Hx), digits_run_stop by done.
    by rewrite Hin.
  - destruct z as [|p|p]; [lia|lia|]. change (pretty (Z.neg p)) with (String "-" (pretty (N.pos p))). sapp.
    cbn [split_sign]. rewrite decide_True by done. destruct (digits_run_pretty (N.pos p)) as [n Hn'].
    rewrite (digits_run_tail _ _ _ _ _ _ Hn'), digits_run_stop by done. change (- Z.of_N (N.pos p))%Z with (Z.neg p). by rewrite Hin.
Qed.

Lemma span_until c s rest : has_char c s = false ->
  span (fun x => negb (bool_decide (x = c))) (s +:+ String c rest) = (s, String c rest).
Proof.
  intros Hs. apply span_all_app; [|cbn; by rewrite bool_decide_eq_true_2]. induction s as [|x s IH]; [done|].
  cbn in Hs |- *. apply orb_false_iff in Hs as [Hx Hs]. apply bool_decide_eq_false in Hx.
  rewrite bool_decide_eq_false_2 by congruence. cbn. destruct (span _ s) as [a b]. cbn in *. f_equal. by apply IH.
Qed.

(** The first alternatives refuse a text that starts with no digit. *)
Lemma no_number c s : digit_value c = None -> c <> "-"%char -> c <> "+"%char -> i64 (String c s) = None.
Proof.
  intros Hd Hm Hp. unfold i64. cbn [split_sign]. rewrite !decide_False by done. cbn [digits_run]. by rewrite Hd.
Qed.

Lemma no_decimal c s : is_digit c = false -> c <> "-"%char ->
  recognize (then_ (opt (char_ "-")) (fun _ => then_ digit1 (fun _ => opt (preceded (char_ ".") digit1)))) (String c s) = None.
Proof.
  intros Hd Hm. unfold recognize, then_, opt, char_. cbn [satisfy]. rewrite bool_decide_eq_false_2 by done.
  cbn [mbind option_bind fst snd]. unfold digit1, take_while1. cbn [span]. by rewrite Hd.
Qed.

Lemma value_app v rest : writable_value v -> value_end rest -> value (print_value v +:+ rest) = Some (v, rest).
Proof.
  intros Hv He. unfold value. destruct v as [z|x|s|b|]; cbn [print_value writable_value] in *; [|done| | |].
  - cbn [alt]. unfold pmap at 1. by rewrite i64_app.
  - destruct Hv as [Hs Hq]. sapp. rewrite app_assoc_string. sapp. cbn [alt]. unfold pmap at 1. rewrite no_number by done.
    cbn [fmap option_fmap]. unfold pmap at 1. rewrite no_decimal by done. cbn [fmap option_fmap].
    unfold pmap, delimited, then_, pmap, char_. cbn [satisfy]. rewrite bool_decide_eq_true_2 by done.
    cbn [mbind option_bind fst snd fmap option_fmap]. unfold take_while1. rewrite span_until by done.
    destruct s as [|x s]; [done|]. cbn [mbind option_bind fst snd satisfy]. by rewrite bool_decide_eq_true_2.
  - destruct b; cbn [bool_to_string]; sapp; cbn [alt]; unfold pmap at 1; rewrite no_number by done; cbn [fmap option_fmap];
      unfold pmap at 1; rewrite no_decimal by done; reflexivity.
  - sapp. cbn [alt]. unfold pmap at 1. rewrite no_number by done. cbn [fmap option_fmap].
    unfold pmap at 1. rewrite no_decimal by done. reflexivity.
Qed.

(** Values do not start with a space. *)
Lemma print_value_start v rest : writable_value v -> starts_off is_space (print_value v +:+ rest).
Proof.
  intros Hv. destruct v as [z|x|s|b|]; cbn [print_value]; [|done|by sapp|destruct b; by sapp|by sapp].
  unfold i64_to_string. assert (forall x : N, starts_off is_space (pretty x +:+ rest)) as Hn.
  { intros x. destruct (digits_run_pretty x) as [n Hx]. destruct (pretty x) as [|c s]; [done|]. sapp. cbn [starts_off].
    apply bool_decide_eq_false. intros Hc. cbn in Hx. repeat (apply elem_of_cons in Hc as [->|Hc]; [done|]). by apply elem_of_nil in Hc. }
  destruct z as [|p|p]; [apply (Hn 0%N)|apply (Hn (N.pos p))|]. change (pretty (Z.neg p)) with (String "-" (pretty (N.pos p))). by sapp.
Qed.

Lemma span_off p s : starts_off p s -> span p s = (EmptyString, s).
Proof. destruct s as [|c s]; [done|]. cbn. by intros ->. Qed.

Lemma skip_one s : starts_off is_space s -> multispace0 (String " " s) = Some (" ", s).
Proof. intros Hs. unfold multispace0. cbn [span]. change (is_space " ") with true. cbn match. by rewrite span_off. Qed.

Lemma skip_none s : starts_off is_space s -> multispace0 s = Some (EmptyString, s).
Proof. intros Hs. unfold multispace0. by rewrite span_off. Qed.

Lemma char_app c s : char_ c (String c s) = Some (c, s).
Proof. unfold char_. cbn [satisfy]. by rewrite bool_decide_eq_true_2. Qed.

Definition value_sep : parser ascii := delimited multispace0 (char_ ",") multispace0.

Lemma value_sep_app s : starts_off is_space s -> value_sep (", " +:+ s) = Some (","%char, s).
Proof.
  intros Hs. unfold value_sep, delimited, then_. sapp. rewrite skip_none by done. cbn [fst snd mbind option_bind].
  rewrite char_app. cbn [fst snd mbind option_bind]. unfold pmap. by rewrite skip_one.
Qed.

Lemma value_end_more vs rest : value_end (print_more vs +:+ String ")" rest).
Proof. destruct vs as [|v vs]; cbn [print_more]; [by left|]. sapp. by right; left. Qed.

Lemma more_app vs rest fuel : Forall writable_value vs -> length vs < fuel ->
  separated_rounds fuel value_sep value (print_more vs +:+ String ")" rest) = Some (vs, String ")" rest).
Proof.
  revert fuel. induction vs as [|v vs IH]; intros [|fuel] Hall Hf; cbn [length] in Hf; try lia; [done|].
  apply Forall_cons in Hall as [Hv Hall]. cbn [print_more]. rewrite !app_assoc_string. cbn [separated_rounds].
  rewrite value_sep_app by by apply print_value_start.
  rewrite (proj2 (Nat.eqb_neq _ _)) by (rewrite (length_app_string ", "); cbn; lia).
  rewrite value_app by (done || apply value_end_more). cbn [mbind option_bind fst snd]. by rewrite IH by (done || lia).
Qed.

Lemma more_length vs : length vs <= String.length (print_more vs).
Proof. induction vs as [|v vs IH]; [done|]. cbn [print_more length]. rewrite !length_app_string. cbn. lia. Qed.

Lemma values_app vs rest : vs <> [] -> Forall writable_value vs ->
  separated_list1 value_sep value (print_values vs +:+ String ")" rest) = Some (vs, String ")" rest).
Proof.
  intros Hne Hall. destruct vs as [|v vs]; [done|]. apply Forall_cons in Hall as [Hv Hall]. unfold separated_list1, then_.
  cbn [print_values]. rewrite app_assoc_string, value_app by (done || apply value_end_more). cbn [mbind option_bind fst snd].
  unfold pmap. pose proof (more_length vs) as Hl. by rewrite more_app by (done || rewrite length_app_string; lia).
Qed.

(** ** Atoms *)

(** What follows an operand in a printed text, and what ends an expression there. *)
Definition follows (rest : string) : Prop :=
  match rest with String c _ => c = ")"%char \/ c = " "%char | EmptyString => True end.
Definition closes (rest : string) : Prop := match rest with String c _ => c = ")"%char | EmptyString => True end.

Lemma follows_value_end rest : follows rest -> value_end rest.
Proof. destruct rest; cbn; tauto. Qed.

Lemma closes_follows rest : closes rest -> follows rest.
Proof. destruct rest; cbn; auto. Qed.

Lemma closes_no_space rest : closes rest -> starts_off is_space rest.
Proof. destruct rest as [|c rest]; cbn; [done|]. by intros ->. Qed.

(** Behind a column name, the spaces are skipped. *)
Lemma after_column {A} (c text : string) (k : string -> parser A) : writable_column c -> starts_off is_space text ->
  then_ identifier (fun column => preceded multispace0 (k column)) (c +:+ " " +:+ text) = k c text.
Proof.
  intros Hc Ht. unfold then_. rewrite identifier_app by (done || by sapp). cbn [mbind option_bind fst snd]. unfold preceded, then_.
  sapp. by rewrite skip_one.
Qed.

Lemma null_app f c rest : writable_column c -> comparison (S f) (c +:+ " IS NULL" +:+ rest) = Some (FIsNull c, rest).
Proof.
  intros Hc. cbn [comparison alt]. unfold is_null_expr. change (" IS NULL" +:+ rest) with (" " +:+ "IS NULL" +:+ rest).
  rewrite after_column by (done || by sapp). unfold pmap, tag. by rewrite strip_prefix_app.
Qed.

Lemma not_null_app f c rest : writable_column c -> comparison (S f) (c +:+ " IS NOT NULL" +:+ rest) = Some (FIsNotNull c, rest).
Proof.
  intros Hc. cbn [comparison alt]. unfold is_null_expr, is_not_null_expr.
  change (" IS NOT NULL" +:+ rest) with (" " +:+ "IS NOT NULL" +:+ rest).
  rewrite !after_column by (done || by sapp). unfold pmap, tag. by rewrite strip_prefix_app.
Qed.

Lemma in_app f c vs rest : writable_column c -> vs <> [] -> Forall writable_value vs ->
  comparison (S f) (c +:+ " IN (" +:+ print_values vs +:+ String ")" rest) = Some (FIn c vs, rest).
Proof.
  intros Hc Hne Hall. cbn [comparison alt]. unfold is_null_expr, is_not_null_expr, in_expr.
  remember (print_values vs +:+ String ")" rest) as text eqn:Et. change (" IN (" +:+ text) with (" " +:+ "IN (" +:+ text).
  rewrite !after_column by (done || by sapp).
  change (pmap (fun _ => FIsNull c) (tag "IS NULL") ("IN (" +:+ text)) with (@None (FilterExpr * string)).
  change (pmap (fun _ => FIsNotNull c) (tag "IS NOT NULL") ("IN (" +:+ text)) with (@None (FilterExpr * string)).
  cbn match. unfold preceded, then_ at 1. change (tag "IN" ("IN (" +:+ text)) with (Some ("IN", String " " (String "(" text))).
  cbn [mbind option_bind fst snd]. unfold then_ at 1. rewrite skip_one by done. cbn [mbind option_bind fst snd].
  unfold pmap at 1, delimited at 1, then_ at 1. rewrite char_app. cbn [mbind option_bind fst snd]. unfold then_ at 1.
  fold value_sep. rewrite Et, values_app by done. cbn [mbind option_bind fst snd]. unfold pmap. by rewrite char_app.
Qed.

Definition operators : list string := ["="; "!="; "<"; "<="; ">"; ">="].

(** An operator is read as such and is none of the keywords. *)
Lemma operator_app op s : op ∈ operators -> comparison_op (op +:+ " " +:+ s) = Some (op, " " +:+ s) /\
  starts_off is_space (op +:+ " " +:+ s) /\
  (forall t, t ∈ ["IS NULL"; "IS NOT NULL"; "IN"] -> tag t (op +:+ " " +:+ s) = None).
Proof.
  intros Hop. unfold operators in Hop.
  repeat (apply elem_of_cons in Hop as [->|Hop];
    [split; [reflexivity|]; split; [reflexivity|]; intros t Ht; unfold tag;
     repeat (apply elem_of_cons in Ht as [->|Ht]; [reflexivity|]); by apply elem_of_nil in Ht|]).
  by apply elem_of_nil in Hop.
Qed.

Lemma op_app f op c v rest : op ∈ operators -> writable_column c -> writable_value v -> follows rest ->
  comparison (S f) (print_op op c v +:+ rest) = Some (op_expr op c v, rest).
Proof.
  intros Hop Hc Hv Hr. unfold print_op. rewrite !app_assoc_string.
  destruct (operator_app op (print_value v +:+ rest) Hop) as (Hread & Hsp & Hno).
  cbn [comparison alt]. unfold is_null_expr, is_not_null_expr, in_expr, binary_comparison. rewrite !after_column by done.
  unfold pmap at 1. rewrite Hno by set_solver. cbn [fmap option_fmap option_map]. unfold pmap at 1. rewrite Hno by set_solver.
  cbn [fmap option_fmap option_map]. unfold preceded at 1, then_ at 1. rewrite Hno by set_solver. cbn [mbind option_bind].
  unfold then_ at 1. rewrite Hread. cbn [mbind option_bind fst snd]. unfold preceded, then_ at 1. sapp.
  rewrite skip_one by by apply print_value_start. cbn [mbind option_bind fst snd]. unfold pmap.
  by rewrite value_app by (done || by apply follows_value_end).
Qed.

(** ** Composed expressions *)

Lemma many0_stop {A} (p : parser A) i : p i = None -> many0 p i = Some ([], i).
Proof. intros Hp. unfold many0. cbn [many0_rounds]. by rewrite Hp. Qed.

(** Any number of rounds beyond the characters of the text gives the same. *)
Lemma many0_rounds_enough {A} (p : parser A) : shrinks p -> forall n m i, String.length i < n -> String.length i < m ->
  many0_rounds n p i = many0_rounds m p i.
Proof.
  intros Hp n. induction n as [|n IH]; intros [|m] i Hn Hm; try lia. cbn [many0_rounds].
  destruct (p i) as [[x r]|] eqn:E; [|done]. apply Hp in E. destruct (Nat.eqb_spec (String.length r) (String.length i)); [done|].
  by rewrite (IH m) by lia.
Qed.

Lemma many0_more {A} (p : parser A) i x r : shrinks p -> p i = Some (x, r) -> String.length r < String.length i ->
  many0 p i = pmap (cons x) (many0 p) r.
Proof.
  intros Hp Hi Hl. unfold pmap. unfold many0 at 1. cbn [many0_rounds]. rewrite Hi, (proj2 (Nat.eqb_neq _ _)) by lia.
  rewrite (many0_rounds_enough p Hp (String.length i) (S (String.length r))) by lia.
  fold (many0 p r). by destruct (many0 p r) as [[xs r']|].
Qed.

(** The text behind the spaces it starts with. *)
Definition skip (s : string) : string := snd (span is_space s).

Lemma skip_starts s : starts_off is_space (skip s).
Proof.
  unfold skip. induction s as [|c s IH]; [done|]. cbn [span]. destruct (is_space c) eqn:E; [|done].
  by destruct (span is_space s).
Qed.

Lemma skip_off s : starts_off is_space s -> skip s = s.
Proof. intros Hs. unfold skip. by rewrite span_off. Qed.

Definition connective (word : string) : parser string := delimited multispace0 (tag word) multispace0.

(** A connective reads the spaces before it. *)
Lemma connective_skip {A} (word : string) (q : parser A) i :
  preceded (connective word) q i = preceded (connective word) q (skip i).
Proof.
  unfold connective, preceded, delimited, then_. rewrite (skip_none (skip i) (skip_starts i)). 
  change (multispace0 i) with (Some (span is_space i)). unfold skip. by destruct (span is_space i).
Qed.

Lemma connective_app {A} (word : string) (q : parser A) s i : starts_off is_space (word +:+ " " +:+ s) -> starts_off is_space s ->
  skip i = word +:+ " " +:+ s -> preceded (connective word) q i = q s.
Proof.
  intros Hw Hs Hi. rewrite connective_skip, Hi. unfold connective, preceded, delimited, then_.
  rewrite skip_none by done. cbn [mbind option_bind fst snd]. unfold tag. rewrite strip_prefix_app.
  cbn [mbind option_bind fmap option_fmap option_map fst snd]. unfold pmap. sapp. by rewrite skip_one.
Qed.

(** It is refused where another text follows. *)
Lemma connective_stop {A} (word : string) (q : parser A) i : strip_prefix word (skip i) = None ->
  preceded (connective word) q i = None.
Proof.
  intros Hi. rewrite connective_skip. unfold connective, preceded, delimited, then_. rewrite (skip_none _ (skip_starts i)).
  cbn [mbind option_bind fst snd]. unfold tag. by rewrite Hi.
Qed.

Lemma closes_stop (word : string) i rest : word ∈ ["AND"; "OR"] -> closes rest -> skip i = skip rest -> strip_prefix word (skip i) = None.
Proof.
  intros Hw Hr ->. rewrite skip_off by by apply closes_no_space.
  destruct rest as [|c rest]; cbn in Hr; [|subst c];
    (repeat (apply elem_of_cons in Hw as [->|Hw]; [reflexivity|])); by apply elem_of_nil in Hw.
Qed.

(** A connective with its operand reads something. *)
Lemma connective_operand {A} (word : string) (q : parser A) : word <> EmptyString -> shrinks q -> consumes (preceded (connective word) q).
Proof.
  intros Hw Hq. unfold preceded, connective, delimited. apply then_consumes; [|done].
  apply then_consumes_r; [shrink|]. intros _. apply then_consumes; [by apply tag_consumes|]. intros x. shrink.
Qed.

Section Composed.
Context (c : parser FilterExpr).

(** [p] reads [text] as an operand [e] in front of [rest], which may lose the
    spaces it starts with: a closing parenthesis takes them. *)
Definition reads (p : parser FilterExpr) (text : string) (e : FilterExpr) (rest : string) : Prop :=
  exists r, p (text +:+ rest) = Some (e, r) /\ skip r = skip rest.

(** A chain of connectives has read [text] as [e] and goes on behind it. *)
Definition chain (join : FilterExpr -> FilterExpr -> FilterExpr) (more p : parser FilterExpr) (text : string) (e : FilterExpr)
    (rest : string) : Prop :=
  exists r, p (text +:+ rest) = pmap (fun es => fold_left join es e) (many0 more) r /\ skip r = skip rest.

Definition and_more : parser FilterExpr := preceded (connective "AND") c.
Definition or_more : parser FilterExpr := preceded (connective "OR") (and_expr c).

Lemma and_chain_one text e rest : reads c text e rest -> chain FAnd and_more (and_expr c) text e rest.
Proof. intros (r & Hr & Hs). exists r. split; [|done]. unfold and_expr, then_. by rewrite Hr. Qed.

(** One more operand joins the chain on its right. *)
Lemma chain_more join (word : string) p q text e next x rest : shrinks q -> word <> EmptyString ->
  starts_off is_space (word +:+ " " +:+ next +:+ rest) -> starts_off is_space (next +:+ rest) ->
  chain join (preceded (connective word) q) p text e (" " +:+ word +:+ " " +:+ next +:+ rest) -> reads q next x rest ->
  chain join (preceded (connective word) q) p (text +:+ " " +:+ word +:+ " " +:+ next) (join e x) rest.
Proof.
  intros Hq Hw Hsw Hsn (r & Hr & Hs) (r' & Hx & Hs'). exists r'. split; [|done]. rewrite !app_assoc_string, Hr.
  assert (skip r = word +:+ " " +:+ next +:+ rest) as Hskip.
  { rewrite Hs. unfold skip. sapp. cbn [span]. change (is_space " ") with true. cbn match. by rewrite span_off. }
  pose proof (connective_app word q _ r Hsw Hsn Hskip) as Hstep. rewrite Hx in Hstep.
  unfold pmap at 1. rewrite (many0_more _ _ _ _ (consumes_shrinks _ (connective_operand word q Hw Hq)) Hstep)
    by exact (connective_operand word q Hw Hq _ _ _ Hstep).
  unfold pmap. by destruct (many0 _ r') as [[es r'']|].
Qed.

(** A chain ends where its connective does not follow. *)
Lemma chain_end join (word : string) p q text e rest : (forall i, skip i = skip rest -> strip_prefix word (skip i) = None) ->
  chain join (preceded (connective word) q) p text e rest -> reads p text e rest.
Proof.
  intros Hstop (r & Hr & Hs). exists r. split; [|done]. rewrite Hr. unfold pmap.
  by rewrite many0_stop by (apply connective_stop, Hstop, Hs).
Qed.

Lemma or_chain_one text e rest : reads (and_expr c) text e rest -> chain FOr or_more (or_expr c) text e rest.
Proof. intros (r & Hr & Hs). exists r. split; [|done]. unfold or_expr, then_. by rewrite Hr. Qed.

Lemma filter_reads text e rest : closes rest -> chain FOr or_more (or_expr c) text e rest -> reads (filter_expr c) text e rest.
Proof.
  intros Hr Hch. destruct (chain_end FOr "OR" _ _ _ _ _ (fun i => closes_stop "OR" i rest ltac:(set_solver) Hr) Hch) as (r & E & Hs).
  exists r. split; [|done]. unfold filter_expr. cbn [alt]. by rewrite E.
Qed.
End Composed.

(** ** Operands *)

Lemma column_start c rest : writable_column c -> starts_off is_space (c +:+ rest).
Proof.
  intros Hc. destruct (writable_column_inv c Hc) as (d & s & -> & Hd & _). sapp. cbn [starts_off]. apply bool_decide_eq_false.
  intros Hin. repeat (apply elem_of_cons in Hin as [->|Hin]; [done|]). by apply elem_of_nil in Hin.
Qed.

(** A printed expression does not start with a space. *)
Lemma print_start k e rest : writable e -> starts_off is_space (print_at k e +:+ rest).
Proof.
  revert k rest. induction e as [c v|c v|c v|c v|c v|c v|c vs|c|c|l IHl r IHr|l IHl r IHr|e IHe]; intros k rest;
    cbn [writable print_at]; intros Hw; try (unfold print_op; rewrite app_assoc_string; apply column_start; tauto); [| |by sapp].
  - destruct (1 <? k); cbn [parens]; [by sapp|]. rewrite app_assoc_string. apply IHl; tauto.
  - destruct (0 <? k); cbn [parens]; [by sapp|]. rewrite app_assoc_string. apply IHl; tauto.
Qed.

(** An operand starts with a parenthesis or with a word and a space; the next word
    starts with no N unless the first one is NOT, and with no parenthesis. *)
Inductive operand_text : string -> Prop :=
| operand_paren s : operand_text (String "(" s)
| operand_not s : operand_text ("NOT" +:+ " " +:+ s)
| operand_atom c s : writable_column c -> starts_off (fun x => bool_decide (x ∈ ["N"; "("; " "; "009"; "010"; "013"]%char)) s ->
    operand_text (c +:+ " " +:+ s).

Lemma print_operand e rest : writable e -> operand_text (print_at 2 e +:+ rest).
Proof.
  destruct e as [c v|c v|c v|c v|c v|c v|c vs|c|c|l r|l r|e]; cbn [writable print_at parens Nat.ltb Nat.leb]; intros Hw;
    try (unfold print_op; rewrite !app_assoc_string; apply operand_atom; [tauto|by sapp]).
  - sapp. constructor.
  - sapp. constructor.
  - rewrite app_assoc_string. apply (operand_not (print_at 2 e +:+ rest)).
Qed.

(** The characters of a word. *)
Lemma column_word c : writable_column c -> exists d x w, c = String d (String x w) /\ ident_start d = true /\
  (forall y w', w = String y w' -> ident_char y = true).
Proof.
  intros Hc. destruct (writable_column_inv c Hc) as (d & s & -> & Hd & Hne & Hspan). destruct s as [|x w]; [done|].
  exists d, x, w. split; [done|]. split; [done|]. intros y w' ->. cbn [span] in Hspan.
  destruct (ident_char x); [|done]. destruct (ident_char y); [done|]. done.
Qed.

(** Behind a word NOT, none of the other comparisons reads an operand. *)
Lemma operand_no_test t text : t ∈ ["IS NULL"; "IS NOT NULL"] -> operand_text text -> tag t text = None.
Proof.
  intros Ht Ho. assert (exists u, t = "IS N" +:+ u) as [u ->].
  { repeat (apply elem_of_cons in Ht as [->|Ht]; [by eexists|]). by apply elem_of_nil in Ht. }
  unfold tag. destruct (strip_prefix _ text) as [r|] eqn:E; [|done]. apply strip_prefix_inv in E. exfalso.
  rewrite app_assoc_string in E. destruct Ho as [s|s|c s Hc Hs]; [done|done|].
  destruct (column_word c Hc) as (d & x & w & -> & _ & Hw). destruct w as [|y w]; sapp; cbn in E.
  - destruct s as [|n s]; [done|]. injection E as -> -> -> _. done.
  - injection E as -> -> -> _. by specialize (Hw _ _ eq_refl).
Qed.

Lemma operand_no_list {A} text (k : parser A) : (forall i, starts_off (fun x => bool_decide (x = "("%char)) i -> k i = None) ->
  operand_text text -> preceded (tag "IN") (preceded multispace0 k) text = None.
Proof.
  intros Hk Ho. unfold preceded, then_ at 1, tag. destruct (strip_prefix "IN" text) as [r|] eqn:E; [|done].
  apply strip_prefix_inv in E. cbn [fmap option_fmap option_map mbind option_bind fst snd].
  destruct Ho as [s|s|c s Hc Hs]; [done|done|]. unfold then_.
  destruct (column_word c Hc) as (d & x & w & -> & _ & Hw). destruct w as [|y w]; sapp; cbn in E; injection E as -> -> <-.
  - destruct s as [|n s]; [by apply Hk|]. cbn [starts_off] in Hs. apply bool_decide_eq_false in Hs. sapp. rewrite skip_one.
    + apply Hk. apply bool_decide_eq_false. set_solver.
    + apply bool_decide_eq_false. set_solver.
  - specialize (Hw _ _ eq_refl). rewrite skip_none.
    + apply Hk. apply bool_decide_eq_false. by intros ->.
    + cbn [starts_off]. apply bool_decide_eq_false. intros Hin.
      repeat (apply elem_of_cons in Hin as [->|Hin]; [done|]). by apply elem_of_nil in Hin.
Qed.

Lemma operand_no_operator text : operand_text text -> comparison_op text = None.
Proof.
  intros Ho. destruct Ho as [s|s|c s Hc Hs]; [done|done|]. destruct (column_word c Hc) as (d & x & w & -> & Hd & _). sapp.
  unfold comparison_op. cbn [alt]. unfold tag. cbn [strip_prefix].
  rewrite !bool_decide_eq_false_2; [done|..]; by intros <-.
Qed.

Lemma operand_start text : operand_text text -> starts_off is_space text.
Proof. destruct 1; [done|done|by apply column_start]. Qed.

Lemma not_app f e text rest : operand_text (text +:+ rest) -> reads (comparison f) text e rest ->
  reads (comparison (S f)) ("NOT " +:+ text) (FNot e) rest.
Proof.
  intros Ho (r & He & Hs). exists r. split; [|done]. rewrite app_assoc_string. change ("NOT " +:+ ?x) with ("NOT" +:+ " " +:+ x).
  cbn [comparison alt]. unfold is_null_expr, is_not_null_expr, in_expr, binary_comparison.
  rewrite !after_column by (reflexivity || by apply operand_start).
  unfold pmap at 1. rewrite operand_no_test by (done || set_solver). cbn [fmap option_fmap option_map].
  unfold pmap at 1. rewrite operand_no_test by (done || set_solver). cbn [fmap option_fmap option_map].
  rewrite operand_no_list; [|intros [|x i]; cbn [starts_off]; [done|]; intros Hx; unfold pmap, delimited, then_, char_;
    cbn [satisfy]; by rewrite Hx|done].
  unfold then_ at 1. rewrite operand_no_operator by done. cbn [mbind option_bind].
  unfold not_expr, pmap at 1, preceded, delimited, then_. rewrite skip_none by done. cbn [mbind option_bind fst snd].
  unfold tag. rewrite strip_prefix_app. cbn [mbind option_bind fmap option_fmap option_map fst snd]. unfold pmap.
  unfold multispace1, take_while1. sapp. cbn [span]. change (is_space " ") with true. cbn match.
  rewrite span_off by by apply operand_start.
  cbn [mbind option_bind fmap option_fmap option_map fst snd]. by rewrite He.
Qed.

Lemma paren_app f e text rest : starts_off is_space (text +:+ String ")" rest) -> 
  reads (filter_expr (comparison f)) text e (String ")" rest) ->
  reads (comparison (S f)) ("(" +:+ text +:+ ")") e rest.
Proof.
  intros Hs (r & He & Hr). exists (skip rest). rewrite !app_assoc_string. change (")" +:+ rest) with (String ")" rest).
  change ("(" +:+ ?x) with (String "(" x). set (t := text +:+ String ")" rest) in *. split; [|by apply skip_off, skip_starts].
  cbn [comparison alt].
  assert (identifier (String "(" t) = None) as Hid by reflexivity.
  unfold is_null_expr, is_not_null_expr, in_expr, binary_comparison, then_. rewrite Hid. cbn [mbind option_bind].
  change (not_expr (comparison f) (String "(" t)) with (@None (FilterExpr * string)). cbn match.
  unfold paren_expr, delimited, then_. rewrite (skip_none (String "(" t)) by done. cbn [mbind option_bind fst snd].
  rewrite char_app. cbn [mbind option_bind fst snd]. unfold pmap. rewrite skip_none by done.
  cbn [mbind option_bind fmap option_fmap option_map fst snd]. rewrite He. cbn [mbind option_bind fst snd].
  assert (snd (span is_space r) = String ")" rest) as Hr' by (rewrite <- (skip_off (String ")" rest)) by done; exact Hr).
  change (multispace0 r) with (Some (span is_space r)). destruct (span is_space r) as [a b]. cbn [snd] in Hr'. subst b.
  cbn [mbind option_bind fst snd]. rewrite char_app. cbn [mbind option_bind fst snd].
  unfold multispace0, skip. by destruct (span is_space rest).
Qed.

(** ** Printed expressions *)

(** How deeply operands nest. *)
Fixpoint nesting (e : FilterExpr) : nat :=
  match e with
  | FAnd l r | FOr l r => S (Nat.max (nesting l) (nesting r))
  | FNot e => S (nesting e)
  | _ => 1
  end.

(** An expression reads back at the three levels. *)
Definition operand_back (f : nat) (e : FilterExpr) : Prop :=
  forall rest, follows rest -> reads (comparison f) (print_at 2 e) e rest.
Definition and_back (f : nat) (e : FilterExpr) : Prop :=
  forall rest, follows rest -> chain FAnd (and_more (comparison f)) (and_expr (comparison f)) (print_at 1 e) e rest.
Definition or_back (f : nat) (e : FilterExpr) : Prop :=
  forall rest, follows rest -> strip_prefix "AND" (skip rest) = None ->
    chain FOr (or_more (comparison f)) (or_expr (comparison f)) (print_at 0 e) e rest.

Lemma and_back_one f e : print_at 1 e = print_at 2 e -> operand_back f e -> and_back f e.
Proof. intros He Ho rest Hr. rewrite He. apply and_chain_one. by apply Ho. Qed.

(** Where no AND follows, an AND chain is complete. *)
Lemma and_reads f e rest : and_back f e -> follows rest -> strip_prefix "AND" (skip rest) = None ->
  reads (and_expr (comparison f)) (print_at 1 e) e rest.
Proof. intros Ha Hr Hs. eapply chain_end; [|by apply Ha]. by intros i ->. Qed.

Lemma or_back_one f e : print_at 0 e = print_at 1 e -> and_back f e -> or_back f e.
Proof. intros He Ha rest Hr Hs. rewrite He. apply or_chain_one. by apply and_reads. Qed.

Lemma and_back_more f l r : writable r -> and_back f l -> operand_back f r -> and_back f (FAnd l r).
Proof.
  intros Hw Hl Hr rest Hf. cbn [print_at parens Nat.ltb Nat.leb]. change (" AND " +:+ ?x) with (" " +:+ "AND" +:+ " " +:+ x).
  apply chain_more; [apply comparison_shrinks|done|by sapp|by apply print_start| |by apply Hr]. apply Hl. by right.
Qed.

Lemma or_back_more f l r : writable r -> or_back f l -> and_back f r -> or_back f (FOr l r).
Proof.
  intros Hw Hl Hr rest Hf Hs. cbn [print_at parens Nat.ltb Nat.leb]. change (" OR " +:+ ?x) with (" " +:+ "OR" +:+ " " +:+ x).
  apply chain_more; [apply and_shrinks, comparison_shrinks|done|by sapp|by apply print_start| |by apply and_reads].
  apply Hl; [by right|]. by sapp.
Qed.

Lemma paren_back f e : print_at 2 e = "(" +:+ print_at 0 e +:+ ")" -> writable e -> or_back f e -> operand_back (S f) e.
Proof.
  intros He Hw Ho rest Hr. rewrite He. apply paren_app; [by apply print_start|]. apply filter_reads; [reflexivity|].
  apply Ho; [by left|done].
Qed.

Lemma atom_back f e : writable e -> match e with FAnd _ _ | FOr _ _ | FNot _ => False | _ => True end -> operand_back (S f) e.
Proof.
  destruct e as [c v|c v|c v|c v|c v|c v|c vs|c|c|l r|l r|e]; cbn [writable]; intros Hw Hatom rest Hr; try done;
    exists rest; (split; [|done]); cbn [print_at];
    try (match type of Hw with _ /\ writable_value _ => destruct Hw as [Hc Hv] end; rewrite op_app; [done|unfold operators; set_solver|done..]).
  - destruct Hw as (Hc & Hne & Hall). rewrite !app_assoc_string. by apply in_app.
  - rewrite app_assoc_string. by apply null_app.
  - rewrite app_assoc_string. by apply not_null_app.
Qed.

Lemma print_back e : writable e -> forall f, nesting e <= f -> operand_back f e /\ and_back f e /\ or_back f e.
Proof.
  assert (forall f x, print_at 0 x = print_at 1 x -> print_at 1 x = print_at 2 x -> operand_back f x ->
    operand_back f x /\ and_back f x /\ or_back f x) as Hone.
  { intros f x H0 H1 Ho. pose proof (and_back_one f x H1 Ho). by auto using or_back_one. }
  induction e as [c v|c v|c v|c v|c v|c v|c vs|c|c|l IHl r IHr|l IHl r IHr|e IHe]; cbn [nesting];
    intros Hw [|f] Hf; try lia; try (apply Hone; [done|done|by apply atom_back]).
  - destruct Hw as [Hl Hr]. assert (forall g, f <= g -> and_back g (FAnd l r) /\ or_back g (FAnd l r)) as Hg.
    { intros g Hg. destruct (IHl Hl g) as (_ & Hal & _); [lia|]. destruct (IHr Hr g) as (Hor & _ & _); [lia|].
      pose proof (and_back_more g l r Hr Hal Hor). by auto using or_back_one. }
    split; [|apply Hg; lia]. apply paren_back; [done|done|]. apply Hg. lia.
  - destruct Hw as [Hl Hr]. assert (forall g, f <= g -> or_back g (FOr l r)) as Hg.
    { intros g Hg. destruct (IHl Hl g) as (_ & _ & Hol); [lia|]. destruct (IHr Hr g) as (_ & Har & _); [lia|].
      by apply or_back_more. }
    assert (operand_back (S f) (FOr l r)) as Ho by (apply paren_back; [done|done|]; apply Hg; lia).
    split; [done|]. split; [by apply and_back_one|]. apply Hg. lia.
  - apply Hone; [done|done|]. intros rest Hr. cbn [print_at]. apply not_app; [by apply print_operand|].
    destruct (IHe Hw f) as (Ho & _ & _); [lia|]. by apply Ho.
Qed.

Lemma nesting_length e k : nesting e <= S (String.length (print_at k e)).
Proof.
  revert k. induction e as [c v|c v|c v|c v|c v|c v|c vs|c|c|l IHl r IHr|l IHl r IHr|e IHe]; intros k; cbn [print_at nesting]; try lia.
  - specialize (IHl 1). specialize (IHr 2). destruct (1 <? k); cbn [parens]; rewrite !length_app_string; cbn; lia.
  - specialize (IHl 0). specialize (IHr 1). destruct (0 <? k); cbn [parens]; rewrite !length_app_string; cbn; lia.
  - specialize (IHe 2). rewrite length_app_string. cbn. lia.
Qed.

(** ** Claim *)

(** C27: Filters are read with the usual precedence: an expression over ASCII column
    names of at least two characters with integers, non-empty texts without quotes,
    booleans and null (no floats), printed with parentheses only around an OR below
    AND or NOT, an AND below NOT, and a right operand of the same connective, parses
    back as itself.  So NOT binds tighter than AND and AND than OR, and both
    connectives group to the left. *)
Theorem parse_print_filter detail e : writable e -> parse_filter detail (print_filter e) = Ok e.
Proof.
  intros Hw. unfold parse_filter, print_filter. destruct (print_back e Hw _ (nesting_length e 0)) as (_ & _ & Ho).
  destruct (filter_reads _ _ e EmptyString I (Ho EmptyString I eq_refl)) as (r & Hr & _).
  rewrite app_nil_string in Hr. by rewrite Hr.
Qed.
