(* ===== verification/TransformOps.v ===== *)
(** Column operations of the transform engine and the pipeline that applies them
    batch by batch (transforms.rs, cast.rs, schema.rs and pipeline.rs of
    src/crates/parqonaut-transform/src/engine).

    The options of a step hold hash maps; an operation gets their entries in the
    order they are iterated. *)

From Stdlib Require Import Ascii.
From S2P Require Import Prelude TypeUnify RustNum StreamColumns StreamColumnsProofs TransformFilter.

(** * Operations *)

Definition index_of (s : Schema) (name : string) : option nat := position name (map fd_name s).

Section Operations.
Context `{ArrowCrate} `{ArrowKernels}.

Definition arrow {A} (r : Result string A) : Result ParqknifeError A := map_err PArrow r.

Definition projection_transform (columns : list string) (b : RecordBatch) : Result ParqknifeError RecordBatch :=
  indices ← try_map (fun col_name => match index_of (rb_schema b) col_name with
                                     | Some idx => Ok idx
                                     | None => Err (PInvalidInput ("Column not found: " +:+ col_name))
                                     end) columns;
  arrow (try_new (omap (fun i => rb_schema b !! i) indices) (omap (fun i => rb_columns b !! i) indices)).

Definition renamed (to : string) (f : Field) : Field :=
  {| fd_name := to; fd_type := fd_type f; fd_nullable := fd_nullable f |}.

(** One entry of the loop; names are looked up in the schema of the batch. *)
Definition rename_one (schema : Schema) (new_fields : list Field) (ft : string * string) : Result ParqknifeError (list Field) :=
  let '(from, to) := ft in
  if decide (from = to) then Err (PInvalidInput "rename from and to must differ")
  else match index_of schema from with
       | None => Err (PInvalidInput ("column not found: " +:+ from))
       | Some idx =>
           if decide (to ∈ map fd_name schema) then Err (PInvalidInput ("target column already exists: " +:+ to))
           else match schema !! idx with
                | Some field => Ok (<[idx := renamed to field]> new_fields)
                | None => Ok new_fields
                end
       end.

Definition rename_columns_transform (renames : list (string * string)) (b : RecordBatch) : Result ParqknifeError RecordBatch :=
  new_fields ← try_fold (rename_one (rb_schema b)) renames (rb_schema b);
  arrow (try_new new_fields (rb_columns b)).

Definition parse_cast_target (current : DataType) (current_nullable : bool) (label : string)
    : Result ParqknifeError (DataType * bool) :=
  match strip_prefix "nullable=" (lower_text label) with
  | Some v => Ok (current, bool_decide (v = "true"))
  | None =>
      let upper := to_uppercase label in
      if contains "INT64" upper then Ok (AInt64, current_nullable)
      else if contains "INT32" upper then Ok (AInt32, current_nullable)
      else if contains "UTF8" upper || contains "STRING" upper then Ok (AUtf8, current_nullable)
      else if contains "FLOAT" upper || contains "DOUBLE" upper then Ok (AFloat64, current_nullable)
      else Err (PInvalidInput ("unsupported cast target: " +:+ label))
  end.

Definition cast_one (schema : Schema) (acc : list Field * list Array) (ct : string * string)
    : Result ParqknifeError (list Field * list Array) :=
  let '(col, target) := ct in
  match index_of schema col with
  | None => Err (PInvalidInput ("column not found: " +:+ col))
  | Some idx =>
      match schema !! idx, snd acc !! idx with
      | Some field, Some array =>
          t ← parse_cast_target (fd_type field) (fd_nullable field) target;
          casted ← (if decide (array_type array = fst t) then Ok array
                    else map_err (fun e => PInvalidInput ("cast failed: " +:+ e)) (k_cast array (fst t)));
          Ok (<[idx := {| fd_name := col; fd_type := fst t; fd_nullable := snd t |}]> (fst acc), <[idx := casted]> (snd acc))
      | _, _ => Ok acc
      end
  end.

Definition cast_columns_transform (casts : list (string * string)) (b : RecordBatch) : Result ParqknifeError RecordBatch :=
  acc ← try_fold (cast_one (rb_schema b)) casts (rb_schema b, rb_columns b);
  arrow (try_new (fst acc) (snd acc)).

(** [SchemaTransform] of schema.rs: a cast changes the field and leaves the column
    as it is. *)
Definition parse_type (type_str : string) : Result ParqknifeError DataType :=
  let t := lower_text type_str in
  if decide (t ∈ ["int8"; "i8"]) then Ok AInt8
  else if decide (t ∈ ["int16"; "i16"]) then Ok AInt16
  else if decide (t ∈ ["int32"; "i32"]) then Ok AInt32
  else if decide (t ∈ ["int64"; "i64"]) then Ok AInt64
  else if decide (t ∈ ["uint8"; "u8"]) then Ok (AOther "UInt8")
  else if decide (t ∈ ["uint16"; "u16"]) then Ok (AOther "UInt16")
  else if decide (t ∈ ["uint32"; "u32"]) then Ok (AOther "UInt32")
  else if decide (t ∈ ["uint64"; "u64"]) then Ok (AOther "UInt64")
  else if decide (t ∈ ["float32"; "f32"]) then Ok AFloat32
  else if decide (t ∈ ["float64"; "f64"]) then Ok AFloat64
  else if decide (t ∈ ["string"; "utf8"]) then Ok AUtf8
  else if decide (t ∈ ["bool"; "boolean"]) then Ok ABoolean
  else Err (PInvalidInput ("Unsupported type: " +:+ type_str)).

Record SchemaTransform := { sx_rename_map : gmap string string; sx_cast_map : gmap string DataType }.

Definition schema_transform_new (rename_map cast_map : list (string * string)) : Result ParqknifeError SchemaTransform :=
  typed ← try_map (fun ct => dt ← parse_type (snd ct); Ok (fst ct, dt)) cast_map;
  Ok {| sx_rename_map := list_to_map rename_map; sx_cast_map := list_to_map typed |}.

Definition schema_transform (x : SchemaTransform) (b : RecordBatch) : Result ParqknifeError RecordBatch :=
  arrow (try_new (map (fun f => {| fd_name := default (fd_name f) (sx_rename_map x !! fd_name f);
                                   fd_type := default (fd_type f) (sx_cast_map x !! fd_name f);
                                   fd_nullable := fd_nullable f |}) (rb_schema b)) (rb_columns b)).

(** * The pipeline *)

Inductive Transform :=
| TProjection (columns : list string)
| TFilter (expr : FilterExpr)
| TRename (renames : list (string * string))
| TCast (casts : list (string * string))
| TSchema (x : SchemaTransform)
| TCompression.

Definition transform (t : Transform) (b : RecordBatch) : Result ParqknifeError RecordBatch :=
  match t with
  | TProjection columns => projection_transform columns b
  | TFilter expr => filter_transform expr b
  | TRename renames => rename_columns_transform renames b
  | TCast casts => cast_columns_transform casts b
  | TSchema x => schema_transform x b
  | TCompression => Ok b
  end.

Definition execute_pipeline (transforms : list Transform) (b : RecordBatch) : Result ParqknifeError RecordBatch :=
  try_fold (fun current t => transform t current) transforms b.

Definition pipeline_from_rewrite_ops (detail : string) (projection : option (list string)) (filter : option string)
    (rename cast : option (list (string * string))) : Result ParqknifeError (list Transform) :=
  parsed ← match filter with Some expr => e ← parse_filter detail expr; Ok [TFilter e] | None => Ok [] end;
  Ok (option_list (TProjection <$> projection) ++ parsed ++ option_list (TRename <$> rename) ++ option_list (TCast <$> cast)).
End Operations.

(** * Proofs *)

(** ** Columns by name *)

Lemma position_Some name l i : position name l = Some i -> l !! i = Some name.
Proof.
  revert i. induction l as [|x l IH]; intros i Hi; [done|]. cbn in Hi. case_decide as E; [by injection Hi as <-; subst|].
  destruct (position name l) as [j|]; [|done]. injection Hi as <-. by apply IH.
Qed.

Lemma position_elem name l : is_Some (position name l) <-> name ∈ l.
Proof.
  induction l as [|x l IH]; cbn; [split; [intros [? ?]|intros ?%elem_of_nil]; done|]. case_decide as E.
  - subst. split; [intros _; by left|done].
  - rewrite elem_of_cons, <- IH, fmap_is_Some. split; [by right|]. by intros [->|?].
Qed.

Lemma position_unique name l i : NoDup l -> l !! i = Some name -> position name l = Some i.
Proof.
  intros Hn Hi. destruct (position name l) as [j|] eqn:Ej.
  - apply position_Some in Ej. f_equal. by eapply NoDup_lookup.
  - apply list_elem_of_lookup_2 in Hi. apply position_elem in Hi as [? Hi]. congruence.
Qed.

Definition names (b : RecordBatch) : list string := map fd_name (rb_schema b).

Lemma batch_ok_length b : batch_ok b -> length (rb_schema b) = length (rb_columns b).
Proof. intros [_ Hf]. by eapply Forall2_length. Qed.

(** A known column has a field and an array. *)
Lemma known_column b c : batch_ok b -> c ∈ names b -> exists i f a,
  index_of (rb_schema b) c = Some i /\ rb_schema b !! i = Some f /\ fd_name f = c /\ rb_columns b !! i = Some a /\
  column_admits f a /\ array_wf a /\ array_len a = rb_num_rows b.
Proof.
  intros [Hw Hf] Hc. unfold index_of. apply position_elem in Hc as [i Hi]. unfold names in Hi. rewrite Hi.
  pose proof (position_Some _ _ _ Hi) as Hl. apply list_lookup_fmap_Some in Hl as (f & Hc & Hfi).
  destruct (Forall2_lookup_l _ _ _ i f Hf Hfi) as (a & Ha & Had). unfold batch_wf in Hw. rewrite Forall_lookup in Hw.
  destruct (Hw i a Ha). eauto 10.
Qed.

(** A batch built from columns of one length that its schema admits. *)
Lemma try_new_exact `{ArrowCrate} s cols n : Forall2 column_admits s cols -> cols <> [] ->
  Forall (fun a => array_wf a /\ array_len a = n) cols ->
  exists b, try_new s cols = Ok b /\ batch_ok b /\ rb_schema b = s /\ rb_columns b = cols /\ rb_num_rows b = n.
Proof.
  intros Hf Hne Hl. assert (Forall (fun a => array_len a = n) cols) as Hn by (eapply Forall_impl; [exact Hl|by intros a [? ?]]).
  pose proof (try_new_complete s cols n Hf Hne Hn) as Hok. destruct (try_new s cols) as [b|e] eqn:E; [|done].
  destruct (try_new_sound s cols b E) as (_ & Hs & Hc & Hr). exists b.
  assert (rb_num_rows b = n) as Hnr by (destruct cols as [|a cols]; [done|]; inversion Hn; inversion Hr; congruence).
  split; [done|]. split; [|done]. split; [|by rewrite Hs, Hc]. unfold batch_wf. by rewrite Hc, Hnr.
Qed.

Lemma omap_some_map {A B} (g : A -> option B) l k : Forall2 (fun x y => g x = Some y) l k -> omap g l = k.
Proof. induction 1 as [|x y l k Hx _ IH]; [done|]. cbn. by rewrite Hx, IH. Qed.

(** The fields and arrays of a list of known columns. *)
Lemma projected b columns : batch_ok b -> Forall (fun c => c ∈ names b) columns -> exists indices fs arrs,
  try_map (fun c => match index_of (rb_schema b) c with
                    | Some idx => Ok idx
                    | None => Err (PInvalidInput ("Column not found: " +:+ c))
                    end) columns = Ok indices /\
  omap (fun i => rb_schema b !! i) indices = fs /\ omap (fun i => rb_columns b !! i) indices = arrs /\
  map fd_name fs = columns /\ Forall2 column_admits fs arrs /\
  Forall2 (fun c a => column_by_name b c = Some a) columns arrs /\
  Forall (fun a => array_wf a /\ array_len a = rb_num_rows b) arrs.
Proof.
  intros Hb. induction columns as [|c columns IH]; intros Hk.
  - exists [], [], []. by repeat constructor.
  - apply Forall_cons in Hk as [Hc Hk]. destruct (IH Hk) as (ixs & fs & arrs & Hi & Hfs & Ha & Hn & Had & Hcol & Hw).
    destruct (known_column b c Hb Hc) as (i & f & a & Hix & Hf & Hname & Hai & Hadm & Hwf & Hlen).
    exists (i :: ixs), (f :: fs), (a :: arrs). cbn [try_map omap list_omap map]. rewrite Hix. cbn [mbind Result_bind].
    rewrite Hi. cbn [mbind Result_bind]. rewrite Hf, Hai, Hname, Hfs, Ha, Hn. repeat (split; [done|]).
    split; [by constructor|]. split; [|by constructor]. constructor; [|done]. unfold column_by_name.
    change (position c (map fd_name (rb_schema b))) with (index_of (rb_schema b) c). rewrite Hix. done.
Qed.

Lemma unknown_refused b columns c : c ∈ columns -> c ∉ names b ->
  is_ok (try_map (fun c => match index_of (rb_schema b) c with
                    | Some idx => Ok idx
                    | None => Err (PInvalidInput ("Column not found: " +:+ c))
                    end) columns) = false.
Proof.
  intros Hc Hn. induction columns as [|d columns IH]; [by apply elem_of_nil in Hc|]. cbn [try_map].
  destruct (decide (d ∈ names b)) as [Hd|Hd].
  - assert (c ∈ columns) as Hc' by (apply elem_of_cons in Hc as [->|?]; [done|done]). specialize (IH Hc').
    destruct (index_of _ d); [|done]. cbn [mbind Result_bind]. by destruct (try_map _ columns).
  - unfold index_of. destruct (position d _) eqn:E; [|done]. destruct Hd. apply position_elem. unfold names. by rewrite E.
Qed.

(** A projection of known columns, and one that names an unknown column. *)
Lemma projection_known `{ArrowCrate} columns b : batch_ok b -> columns <> [] -> Forall (fun c => c ∈ names b) columns ->
  exists b', projection_transform columns b = Ok b' /\ batch_ok b' /\ names b' = columns /\ rb_num_rows b' = rb_num_rows b /\
    (forall c, column_by_name b' c = if decide (c ∈ columns) then column_by_name b c else None) /\
    (forall i, map (fun a => cell a i) (rb_columns b') = map (cell_at b i) columns).
Proof.
  intros Hb Hne Hk. destruct (projected b columns Hb Hk) as (ixs & fs & arrs & Hi & Hfs & Ha & Hn & Had & Hcol & Hw).
  unfold projection_transform. rewrite Hi. cbn [mbind Result_bind]. rewrite Hfs, Ha.
  destruct (try_new_exact fs arrs (rb_num_rows b)) as (b' & Hb' & Hok & Hs & Hc & Hr); [done| |done|].
  { intros ->. inversion Hcol; subst; done. }
  exists b'. rewrite Hb'. split; [done|]. split; [done|]. unfold names. rewrite Hs. split; [done|]. split; [done|]. split.
  - intros c. unfold column_by_name at 1. rewrite Hs, Hc, Hn. pose proof (position_elem c columns) as Hp.
    destruct (position c columns) as [j|] eqn:Ej.
    + rewrite decide_True by by apply Hp. apply position_Some in Ej.
      destruct (Forall2_lookup_l _ _ _ j c Hcol Ej) as (a & Haj & Hca). cbn [mbind option_bind]. by rewrite Haj.
    + rewrite decide_False; [done|]. intros Hin. by apply Hp in Hin as [? ?].
  - intros i. rewrite Hc. clear -Hcol. induction Hcol as [|c a columns arrs Hca _ IH]; [done|]. cbn [map]. unfold cell_at at 1.
    by rewrite Hca, IH.
Qed.

Lemma projection_unknown `{ArrowCrate} columns b : ~ Forall (fun c => c ∈ names b) columns ->
  is_ok (projection_transform columns b) = false.
Proof.
  intros Hn. apply not_Forall_Exists in Hn; [|intros x; apply _]. apply Exists_exists in Hn as (c & Hc & Hk).
  unfold projection_transform. pose proof (unknown_refused b columns c Hc Hk) as Hr. by destruct (try_map _ columns).
Qed.

(** ** Renames *)

(** What a rename asks of a batch. *)
Definition renamable (ns : list string) (ft : string * string) : Prop :=
  fst ft <> snd ft /\ fst ft ∈ ns /\ snd ft ∉ ns.

Definition rename_to (m : gmap string string) (name : string) : string := default name (m !! name).

Definition rename_fields (m : gmap string string) (s : Schema) : Schema :=
  map (fun f => renamed (rename_to m (fd_name f)) f) s.

Lemma rename_fields_empty s : rename_fields ∅ s = s.
Proof.
  unfold rename_fields. rewrite <- (map_id s) at 2. apply map_ext. intros [n t nl]. unfold renamed, rename_to. cbn.
  by rewrite lookup_empty.
Qed.

(** One accepted entry, on the fields the entries before it left. *)
Lemma rename_one_step s m from to : NoDup (map fd_name s) -> renamable (map fd_name s) (from, to) ->
  rename_one s (rename_fields m s) (from, to) = Ok (rename_fields (<[from := to]> m) s).
Proof.
  intros Hnd (Hne & Hin & Hout). cbn in Hne, Hin, Hout. unfold rename_one. rewrite decide_False by done.
  apply position_elem in Hin as [i Hi]. unfold index_of. rewrite Hi, decide_False by done.
  pose proof (position_Some _ _ _ Hi) as Hl. apply list_lookup_fmap_Some in Hl as (f & Hn & Hf). rewrite Hf. f_equal.
  apply list_eq. intros j. unfold rename_fields. rewrite list_lookup_fmap. destruct (decide (i = j)) as [<-|Hij].
  - rewrite list_lookup_insert_eq, Hf by (rewrite length_map; by eapply lookup_lt_Some). cbn. rewrite <- Hn. unfold rename_to.
    by rewrite lookup_insert_eq.
  - rewrite list_lookup_insert_ne by done. rewrite list_lookup_fmap. destruct (s !! j) as [g|] eqn:Hg; [|done]. cbn. do 2 f_equal.
    unfold rename_to. rewrite lookup_insert_ne; [done|]. intros ->. destruct Hij.
    eapply (NoDup_lookup (map fd_name s)); [done| |]; apply list_lookup_fmap_Some; eauto.
Qed.

Lemma rename_one_refused s nf ft : ~ renamable (map fd_name s) ft -> is_ok (rename_one s nf ft) = false.
Proof.
  destruct ft as [from to]. unfold renamable, rename_one, index_of. cbn. intros Hn. case_decide; [done|].
  pose proof (position_elem from (map fd_name s)) as Hp. destruct (position _ _) as [i|] eqn:Ei; [|done].
  case_decide; [done|]. destruct Hn. repeat (split; [done|]). split; [|done]. by apply Hp.
Qed.

Lemma rename_fold s l m : NoDup (map fd_name s) ->
  (Forall (renamable (map fd_name s)) l ->
     try_fold (rename_one s) l (rename_fields m s) = Ok (rename_fields (foldl (fun m ft => <[fst ft := snd ft]> m) m l) s)) /\
  (~ Forall (renamable (map fd_name s)) l -> is_ok (try_fold (rename_one s) l (rename_fields m s)) = false).
Proof.
  intros Hnd. revert m. induction l as [|[from to] l IH]; intros m; cbn [try_fold foldl]; [split; [done|by intros []]|].
  rewrite Forall_cons. destruct (decide (from <> to /\ from ∈ map fd_name s /\ to ∉ map fd_name s)) as [Hr|Hr].
  - rewrite rename_one_step by done. cbn [mbind Result_bind]. destruct (IH (<[from := to]> m)) as [IHa IHb].
    split; [by intros [_ ?]; apply IHa|]. intros Hn. apply IHb. intros ?. by destruct Hn.
  - split; [by intros [? _]|]. intros _. pose proof (rename_one_refused s (rename_fields m s) (from, to) Hr) as He.
    by destruct (rename_one _ _ _).
Qed.

(** The entries of a map, in the order it is iterated. *)
Lemma entries_fold (m : gmap string string) l : l ≡ₚ map_to_list m -> foldl (fun m ft => <[fst ft := snd ft]> m) ∅ l = m.
Proof.
  intros Hp. assert (NoDup l.*1) as Hnd by (rewrite Hp; apply NoDup_fst_map_to_list).
  transitivity (list_to_map (reverse l) : gmap string string).
  - clear Hp Hnd. induction l as [|[a b] l IH] using rev_ind; [done|]. rewrite foldl_snoc, IH, reverse_snoc. done.
  - rewrite <- (list_to_map_to_list m). apply list_to_map_proper.
    + by rewrite fmap_reverse, reverse_Permutation.
    + by rewrite reverse_Permutation.
Qed.

Lemma renamed_admits m s cols : Forall2 column_admits s cols -> Forall2 column_admits (rename_fields m s) cols.
Proof. induction 1 as [|f a s cols Hf _ IH]; constructor; [exact Hf|exact IH]. Qed.

Lemma rename_known `{ArrowCrate} (m : gmap string string) l b : l ≡ₚ map_to_list m -> batch_ok b -> rb_columns b <> [] ->
  NoDup (names b) -> Forall (renamable (names b)) l ->
  exists b', rename_columns_transform l b = Ok b' /\ batch_ok b' /\ rb_schema b' = rename_fields m (rb_schema b) /\
    rb_columns b' = rb_columns b /\ rb_num_rows b' = rb_num_rows b.
Proof.
  intros Hp Hb Hne Hnd Hr. unfold rename_columns_transform. destruct (rename_fold (rb_schema b) l ∅ Hnd) as [Hf _].
  rewrite rename_fields_empty in Hf. rewrite Hf by done. cbn [mbind Result_bind]. rewrite (entries_fold m l Hp).
  destruct Hb as [Hw Had]. destruct (try_new_exact _ _ _ (renamed_admits m _ _ Had) Hne Hw) as (b' & -> & Hrest). by exists b'.
Qed.

Lemma rename_refused `{ArrowCrate} l b : NoDup (names b) -> ~ Forall (renamable (names b)) l ->
  is_ok (rename_columns_transform l b) = false.
Proof.
  intros Hnd Hn. unfold rename_columns_transform. destruct (rename_fold (rb_schema b) l ∅ Hnd) as [_ Hf].
  rewrite rename_fields_empty in Hf. specialize (Hf Hn). by destruct (try_fold _ l _).
Qed.

(** ** A rewrite: projection, filter, rename *)

Fixpoint columns_of (e : FilterExpr) : list string :=
  match e with
  | FEq c _ | FNe c _ | FLt c _ | FLe c _ | FGt c _ | FGe c _ | FIn c _ | FIsNull c | FIsNotNull c => [c]
  | FAnd l r | FOr l r => columns_of l ++ columns_of r
  | FNot e => columns_of e
  end.

(** A filter looks at the columns it names only. *)
Lemma row_holds_ext get get' e : (forall c, c ∈ columns_of e -> get c = get' c) -> row_holds get e = row_holds get' e.
Proof.
  induction e; cbn [columns_of row_holds]; intros Hg; try (by rewrite Hg by set_solver); f_equal;
    match goal with IH : _ -> ?x = ?y |- ?x = ?y => apply IH; set_solver end.
Qed.

Section Narrowed.
Context (b b' : RecordBatch) (columns : list string).
Context (Hcol : forall c, column_by_name b' c = if decide (c ∈ columns) then column_by_name b c else None).

Lemma on_column_narrowed c P : on_column b' c P <-> on_column b c P /\ c ∈ columns.
Proof. unfold on_column. rewrite Hcol. case_decide; tauto. Qed.

Lemma applicable_narrowed e : applicable b' e <-> applicable b e /\ Forall (fun c => c ∈ columns) (columns_of e).
Proof.
  induction e; cbn [applicable columns_of]; rewrite ?on_column_narrowed, ?Forall_singleton, ?Forall_app; tauto.
Qed.

Lemma holds_narrowed e i : Forall (fun c => c ∈ columns) (columns_of e) ->
  row_holds (cell_at b' i) e = row_holds (cell_at b i) e.
Proof.
  intros Hf. rewrite Forall_forall in Hf. apply row_holds_ext. intros c Hc. unfold cell_at. rewrite Hcol.
  by rewrite decide_True by by apply Hf.
Qed.
End Narrowed.

(** The rows [SELECT columns WHERE e] gives. *)
Definition selected (b : RecordBatch) (columns : list string) (e : FilterExpr) : list (list Value) :=
  map (fun i => map (cell_at b i) columns) (filter (fun i => row_holds (cell_at b i) e = true) (seq 0 (rb_num_rows b))).

Definition selectable (b : RecordBatch) (columns : list string) (e : FilterExpr) (renames : list (string * string)) : Prop :=
  Forall (fun c => c ∈ names b) columns /\ (applicable b e /\ Forall (fun c => c ∈ columns) (columns_of e)) /\
  Forall (renamable columns) renames.

Section Select.
Context `{ArrowCrate} `{ArrowKernels}.

Lemma select_steps b columns e (m : gmap string string) l : batch_ok b -> columns <> [] -> NoDup columns -> l ≡ₚ map_to_list m ->
  (selectable b columns e l /\ exists b', execute_pipeline [TProjection columns; TFilter e; TRename l] b = Ok b' /\
     batch_ok b' /\ names b' = map (rename_to m) columns /\ batch_rows b' = selected b columns e) \/
  (~ selectable b columns e l /\ is_ok (execute_pipeline [TProjection columns; TFilter e; TRename l] b) = false).
Proof.
  intros Hb Hne Hnd Hp. unfold selectable. cbn [execute_pipeline try_fold]. unfold execute_pipeline. cbn [try_fold transform].
  destruct (decide (Forall (fun c => c ∈ names b) columns)) as [Hk|Hk].
  2: { right. split; [tauto|]. pose proof (projection_unknown columns b Hk) as Hr. by destruct (projection_transform _ _). }
  destruct (projection_known columns b Hb Hne Hk) as (b1 & -> & Hb1 & Hn1 & Hr1 & Hc1 & Hrows1). cbn [mbind Result_bind].
  destruct (filter_cases b1 e Hb1) as [(Ha & b2 & -> & Hb2 & Hs2 & Hrows2)|[Ha Hr]]; cbn [mbind Result_bind];
    rewrite (applicable_narrowed b b1 columns Hc1) in Ha.
  2: { right. split; [tauto|]. by destruct (filter_transform e b1). }
  assert (names b2 = columns) as Hn2 by by unfold names; rewrite Hs2.
  destruct (decide (Forall (fun ft => fst ft <> snd ft /\ fst ft ∈ columns /\ snd ft ∉ columns) l)) as [Hr|Hr].
  - left. split; [done|]. destruct (rename_known m l b2 Hp Hb2) as (b3 & -> & Hb3 & Hs3 & Hc3 & Hr3); [|by rewrite Hn2..|].
    { intros Hnil. pose proof (batch_ok_length b2 Hb2) as Hl. rewrite Hnil in Hl. rewrite <- Hn2 in Hne. unfold names in Hne.
      by destruct (rb_schema b2). }
    exists b3. split; [done|]. split; [done|]. split.
    + unfold names. rewrite Hs3. unfold rename_fields. rewrite map_map. cbn. by rewrite <- Hn2, <- (map_map fd_name).
    + unfold batch_rows at 1. rewrite Hc3, Hr3. fold (batch_rows b2). rewrite Hrows2, Hr1. unfold selected.
      rewrite (list_filter_iff _ (fun i => row_holds (cell_at b i) e = true))
        by (intros i; by rewrite (holds_narrowed b b1 columns Hc1) by tauto).
      apply map_ext. exact Hrows1.
  - right. split; [tauto|]. pose proof (rename_refused l b2) as Hx. rewrite Hn2 in Hx. specialize (Hx Hnd Hr).
    by destruct (rename_columns_transform l b2).
Qed.

(** C26: A rewrite with a projection of distinct columns, a filter and renames keeps exactly the rows for which
    the filter holds (in the language's own sense, in which [!=] and the NOT of an
    equality keep nulls) and renames the projected columns, whatever the order the
    renames are iterated in: it succeeds exactly when the projected columns exist, the filter applies and looks
    at projected columns only, and every rename is of a projected column to a name
    that none has. *)
Theorem rewrite_selects detail text e columns (m : gmap string string) l b :
  parse_filter detail text = Ok e -> batch_ok b -> columns <> [] -> NoDup columns -> l ≡ₚ map_to_list m ->
  exists ts, pipeline_from_rewrite_ops detail (Some columns) (Some text) (Some l) None = Ok ts /\
    (is_ok (execute_pipeline ts b) = true <-> selectable b columns e l) /\
    forall b', execute_pipeline ts b = Ok b' ->
      batch_ok b' /\ names b' = map (rename_to m) columns /\ batch_rows b' = selected b columns e.
Proof.
  intros He Hb Hne Hnd Hp. exists [TProjection columns; TFilter e; TRename l]. unfold pipeline_from_rewrite_ops. rewrite He.
  split; [done|]. destruct (select_steps b columns e m l Hb Hne Hnd Hp) as [(Hs & b' & -> & Hrest)|[Hs Hr]].
  - split; [done|]. by intros b'' [= <-].
  - rewrite Hr. split; [done|]. intros b' Hb'. by rewrite Hb' in Hr.
Qed.
End Select.

(** ** Casts *)

(** What a cast leaves at a position: a cast column has the type its target says
    and as many entries, any other is as it was. *)
Definition cast_at (casts : list (string * string)) (f : Field) (a : Array) (f' : Field) (a' : Array) : Prop :=
  fd_name f' = fd_name f /\ array_len a' = array_len a /\
  (forall label, (fd_name f, label) ∈ casts ->
     parse_cast_target (fd_type f) (fd_nullable f) label = Ok (fd_type f', fd_nullable f') /\ array_type a' = fd_type f') /\
  (fd_name f ∉ casts.*1 -> f' = f /\ a' = a).

Definition cast_state (s : Schema) (cols : list Array) (casts : list (string * string)) (acc : list Field * list Array) : Prop :=
  length (fst acc) = length s /\ length (snd acc) = length cols /\
  forall j f a, s !! j = Some f -> cols !! j = Some a -> exists f' a', fst acc !! j = Some f' /\ snd acc !! j = Some a' /\ cast_at casts f a f' a'.

Section Casts.
Context `{ArrowKernels} (s : Schema) (cols : list Array) (Hnd : NoDup (map fd_name s)) (Hlen : length s = length cols).

Lemma cast_one_step done acc acc' col target : cast_state s cols done acc -> col ∉ done.*1 ->
  cast_one s acc (col, target) = Ok acc' -> cast_state s cols (done ++ [(col, target)]) acc'.
Proof.
  intros (Hlf & Hla & Hst) Hnew Hc. unfold cast_one, index_of in Hc. destruct (position col (map fd_name s)) as [i|] eqn:Ei; [|done].
  pose proof (position_Some _ _ _ Ei) as Hl. apply list_lookup_fmap_Some in Hl as (f & Hn & Hf). rewrite Hf in Hc.
  destruct (lookup_lt_is_Some_2 cols i) as [a Ha]; [rewrite <- Hlen; by eapply lookup_lt_Some|].
  destruct (Hst i f a Hf Ha) as (f0 & a0 & Hf0 & Ha0 & (Hn0 & Hl0 & _ & Hsame)). subst col.
  destruct (Hsame Hnew) as [-> ->]. rewrite Ha0 in Hc.
  destruct (parse_cast_target _ _ target) as [[t nl]|] eqn:Et; [|done]. cbn [mbind Result_bind fst snd] in Hc.
  assert (exists ca, array_type ca = t /\ array_len ca = array_len a /\
    acc' = (<[i := {| fd_name := fd_name f; fd_type := t; fd_nullable := nl |}]> (fst acc), <[i := ca]> (snd acc))) as (ca & Hct & Hcl & ->).
  { case_decide as Ety; [injection Hc as <-; by exists a|]. destruct (k_cast a t) as [ca|] eqn:Ek; [|done].
    destruct (k_cast_spec a t ca Ek) as (_ & ? & ?). injection Hc as <-. by exists ca. }
  split; [by cbn; rewrite length_insert|]. split; [by cbn; rewrite length_insert|]. intros j g c Hg Hcj. cbn [fst snd].
  destruct (decide (i = j)) as [<-|Hij].
  - simplify_eq. eexists _, _. split; [apply list_lookup_insert_eq; by eapply lookup_lt_Some|].
    split; [apply list_lookup_insert_eq; by eapply lookup_lt_Some|]. split; [done|]. split; [done|]. cbn. split.
    + intros label Hin. apply elem_of_app in Hin as [Hin|Hin%list_elem_of_singleton].
      * destruct Hnew. apply list_elem_of_fmap. by eexists (_, label).
      * by injection Hin as ->.
    + intros Hout. destruct Hout. rewrite fmap_app. set_solver.
  - destruct (Hst j g c Hg Hcj) as (g' & c' & Hg' & Hc' & (Hgn & Hgl & Hin & Hout)). exists g', c'.
    rewrite !list_lookup_insert_ne by done. split; [done|]. split; [done|]. split; [done|]. split; [done|]. split.
    + intros label Hlb. apply Hin. apply elem_of_app in Hlb as [?|Hlb%list_elem_of_singleton]; [done|]. injection Hlb as Hsame' _.
      destruct Hij. eapply (NoDup_lookup (map fd_name s)); [done| |]; apply list_lookup_fmap_Some; eauto.
    + intros Ho. apply Hout. rewrite fmap_app in Ho. set_solver.
Qed.

Lemma cast_fold casts : forall done acc acc', NoDup (done ++ casts).*1 -> cast_state s cols done acc ->
  try_fold (cast_one s) casts acc = Ok acc' -> cast_state s cols (done ++ casts) acc'.
Proof.
  induction casts as [|[col target] casts IH]; intros dn acc acc' Hn Hst Hf; cbn [try_fold] in Hf.
  - injection Hf as <-. by rewrite app_nil_r.
  - destruct (cast_one s acc (col, target)) as [acc1|] eqn:E1; [|done]. cbn [mbind Result_bind] in Hf.
    change (dn ++ (col, target) :: casts) with (dn ++ [(col, target)] ++ casts) in *. rewrite app_assoc in *.
    eapply IH; [done| |exact Hf]. eapply cast_one_step; [done| |exact E1].
    rewrite !fmap_app in Hn. apply NoDup_app in Hn as (Hn & _). apply NoDup_app in Hn as (_ & Hn & _). set_solver.
Qed.
End Casts.

(** A cast keeps the columns it does not name, the order and the number of rows,
    and gives each column it names the type of its target. *)
Theorem cast_exact `{ArrowCrate} `{ArrowKernels} casts b b' : batch_ok b -> NoDup (names b) -> NoDup casts.*1 ->
  cast_columns_transform casts b = Ok b' ->
  names b' = names b /\
  forall j f a, rb_schema b !! j = Some f -> rb_columns b !! j = Some a ->
    exists f' a', rb_schema b' !! j = Some f' /\ rb_columns b' !! j = Some a' /\ cast_at casts f a f' a'.
Proof.
  intros Hb Hnd Hc Hx. pose proof (batch_ok_length b Hb) as Hlen. unfold cast_columns_transform in Hx.
  destruct (try_fold _ casts _) as [acc|] eqn:E; [|done]. cbn [mbind Result_bind] in Hx.
  destruct (try_new (fst acc) (snd acc)) as [b2|] eqn:En; [|done]. injection Hx as ->.
  destruct (try_new_sound _ _ _ En) as (_ & Hs & Hcs & _).
  destruct (fun Hst => cast_fold _ _ Hnd Hlen casts [] _ acc Hc Hst E) as (Hlf & _ & Hst).
  { split; [done|]. split; [done|]. intros j f a Hf Ha. exists f, a. repeat split; try done; by rewrite elem_of_nil in *. }
  rewrite Hs, Hcs. split; [|exact Hst]. unfold names. rewrite Hs. apply list_eq. intros j. rewrite !list_lookup_fmap.
  destruct (rb_schema b !! j) as [f|] eqn:Hf.
  - destruct (lookup_lt_is_Some_2 (rb_columns b) j) as [a Ha]; [rewrite <- Hlen; by eapply lookup_lt_Some|].
    destruct (Hst j f a Hf Ha) as (f' & a' & -> & _ & (Hn & _)). cbn. by rewrite Hn.
  - apply lookup_ge_None in Hf. rewrite <- Hlf in Hf. by apply lookup_ge_None in Hf as ->.
Qed.
