(* ===== verification/TransformFiles.v ===== *)
(** Parquet files of the transform engine: writing, merging, splitting, rewriting
    and partitioning (output/writer.rs, engine/merge.rs, engine/rename.rs,
    engine/cast.rs and engine/partition.rs of src/crates/parqonaut-transform/src).

    A disk maps the file a path names to what it holds.  Every call on it may fail:
    [fault] says which do.  The [parquet] crate and the file system's notion of
    which paths name one file are parameters ([ParquetDisk]); the order in which a
    hash map is iterated is one too ([HashOrder]). *)

From Stdlib Require Import Ascii.
From S2P Require Import Prelude BTree TypeUnify RustNum Location RepairExec Execute StreamFs StreamColumns StreamColumnsProofs StreamPipeline.
From S2P Require Import TransformFilter TransformOps.

(** * Disk *)

(** [parquet::basic::Compression]. *)
Inductive Codec := CUncompressed | CSnappy | CGzip | CLzo | CBrotli | CLz4 | CZstd | CLz4Raw.

(** A file being written, a finished Parquet file, or one that several writers
    wrote to, of which nothing is known. *)
Inductive PContent := Writing | Complete (s : Schema) (c : Codec) (bs : list RecordBatch) | Mixed.

Record PFile := { pf_open : nat; pf_content : PContent }.
Record PDisk := { pd_files : gmap string PFile; pd_tick : nat }.

(** How a call ends without a value. *)
Inductive Stop := Returned (e : ParqknifeError) | Panicked.

(** [canon] is the file a path names; [pq_read] the batches of at most the given
    number of rows in which a file is read; [pq_write] is [ArrowWriter::write] for a
    writer of a schema: the batch as the file then holds it.  A batch of another
    schema may be refused, at once or when the file is closed, or changed;
    [memory_size] is [get_array_memory_size]. *)
Class ParquetDisk := {
  canon : string -> string;
  pq_read : nat -> Schema -> list RecordBatch -> list RecordBatch;
  pq_write : Schema -> RecordBatch -> Result string RecordBatch;
  memory_size : RecordBatch -> Z;
  not_parquet : string;
  pq_read_rows : forall n s bs, Forall (fun b => batch_ok b /\ rb_schema b = s) bs ->
    concat (map batch_rows (pq_read n s bs)) = concat (map batch_rows bs);
  pq_read_ok : forall n s bs, Forall (fun b => batch_ok b /\ rb_schema b = s) bs ->
    Forall (fun b => batch_ok b /\ rb_schema b = s) (pq_read n s bs);
  pq_read_schema : forall n s bs, Forall (fun b => rb_schema b = s) (pq_read n s bs);
  pq_write_same : forall b, pq_write (rb_schema b) b = Ok b;
  memory_size_nonneg : forall b, (0 <= memory_size b)%Z;
}.

(** The order in which a [HashMap] hands out its entries. *)
Class HashOrder := {
  hash_order : forall {A : Type}, list A -> list A;
  hash_order_perm : forall A (l : list A), hash_order l ≡ₚ l;
}.

Definition TM (A : Type) : Type := PDisk -> Result Stop A * PDisk.
#[global] Instance TM_ret : MRet TM := fun _ a d => (Ok a, d).
#[global] Instance TM_bind : MBind TM := fun _ _ f m d =>
  match m d with (Ok a, d) => f a d | (Err e, d) => (Err e, d) end.

Definition tpure {A} (r : Result ParqknifeError A) : TM A := fun d => (map_err Returned r, d).
Definition tstop {A} (r : Result Stop A) : TM A := fun d => (r, d).
Definition tfail {A} (e : ParqknifeError) : TM A := tpure (Err e).

Fixpoint tfold {A B} (f : B -> A -> TM B) (l : list A) (b : B) : TM B :=
  match l with
  | [] => mret b
  | a :: l => b ← f b a; tfold f l b
  end.

Definition compression_from_str (s : string) : Result ParqknifeError Codec :=
  let l := lower_text s in
  if decide (l = "uncompressed") then Ok CUncompressed
  else if decide (l = "snappy") then Ok CSnappy
  else if decide (l = "gzip") then Ok CGzip
  else if decide (l = "lzo") then Ok CLzo
  else if decide (l = "brotli") then Ok CBrotli
  else if decide (l = "lz4") then Ok CLz4
  else if decide (l = "zstd") then Ok CZstd
  else if decide (l = "lz4_raw") then Ok CLz4Raw
  else Err (PInvalidInput ("Unknown compression: " +:+ s)).

(** [compression.map(compression_from_str).transpose()?]. *)
Definition codec_of (compression : option string) : TM (option Codec) :=
  match compression with Some c => comp ← tpure (compression_from_str c); mret (Some comp) | None => mret None end.

(** ** Writers *)

Record ParquetWriter := { wr_path : string; wr_schema : Schema; wr_codec : Codec; wr_batches : list RecordBatch }.

Section Disk.
Context `{ParquetDisk} (fault : nat -> option ParqknifeError).

(** A call that may fail. *)
Definition effect {A} (f : PDisk -> Result ParqknifeError A * PDisk) : TM A := fun d =>
  let d1 := {| pd_files := pd_files d; pd_tick := S (pd_tick d) |} in
  match fault (pd_tick d) with
  | Some e => (Err (Returned e), d1)
  | None => let '(r, d2) := f d1 in (map_err Returned r, d2)
  end.

Definition set_file (p : string) (f : PFile) (d : PDisk) : PDisk :=
  {| pd_files := <[canon p := f]> (pd_files d); pd_tick := pd_tick d |}.

Definition handles (d : PDisk) (p : string) : nat := from_option pf_open 0 (pd_files d !! canon p).

Definition create_dir_all (p : string) : TM unit := effect (fun d => (Ok tt, d)).

(** [File::create] truncates; what other open writers of the file do is then mixed
    with what this one does. *)
Definition file_create (p : string) : TM unit := effect (fun d =>
  (Ok tt, set_file p {| pf_open := S (handles d p); pf_content := match handles d p with 0 => Writing | S _ => Mixed end |} d)).

(** [ParquetWriter::new] on a created file. *)
Definition writer_new (p : string) (s : Schema) (compression : option Codec) (row_group_size_mb : option Z) : TM ParquetWriter :=
  match row_group_size_mb with
  | Some mb => if decide (wrap_u64 (mb * 1024 * 1024) = 0%Z) then fun d => (Err Panicked, d)
               else effect (fun d => (Ok {| wr_path := p; wr_schema := s; wr_codec := default CUncompressed compression; wr_batches := [] |}, d))
  | None => effect (fun d => (Ok {| wr_path := p; wr_schema := s; wr_codec := default CUncompressed compression; wr_batches := [] |}, d))
  end.

Definition write_batch (w : ParquetWriter) (b : RecordBatch) : TM ParquetWriter := effect (fun d =>
  (b ← map_err PParquet (pq_write (wr_schema w) b);
   Ok {| wr_path := wr_path w; wr_schema := wr_schema w; wr_codec := wr_codec w; wr_batches := wr_batches w ++ [b] |}, d)).

Definition close (w : ParquetWriter) : TM unit := effect (fun d =>
  (Ok tt, set_file (wr_path w)
     {| pf_open := pred (handles d (wr_path w));
        pf_content := match pf_content <$> pd_files d !! canon (wr_path w) with
                      | Some Writing => Complete (wr_schema w) (wr_codec w) (wr_batches w)
                      | _ => Mixed
                      end |} d)).

(** [File::create] and [ParquetWriter::new]. *)
Definition start_file (p : string) (s : Schema) (compression : option Codec) (row_group_size_mb : option Z) : TM ParquetWriter :=
  file_create p ;; writer_new p s compression row_group_size_mb.

(** [File::open] and [ParquetRecordBatchReaderBuilder]: the schema and the batches
    of a finished file, as they are when it is opened.  A batch is read when it is asked
    for ([next_read]), which gives the same as long as the file is not written to in
    between: the theorems assume that no output is an input, or all inputs are read
    before the output is opened. *)
Definition open_parquet (batch_size : nat) (p : string) : TM (Schema * list RecordBatch) := effect (fun d =>
  (match pf_content <$> pd_files d !! canon p with
   | Some (Complete s _ bs) => Ok (s, pq_read batch_size s bs)
   | Some _ => Err (PParquet not_parquet)
   | None => Err (PIo ENOENT_text)
   end, d)).

Definition next_read (b : RecordBatch) : TM RecordBatch := effect (fun d => (Ok b, d)).

(** Rows per batch of [ParquetRecordBatchReaderBuilder] without
    [with_batch_size]. *)
Definition READER_BATCH : nat := N.to_nat 1024.

(** ** Merging *)

Record MergeState := {
  mg_outputs : list string;
  mg_part_idx : nat;
  mg_current_bytes : Z;
  mg_writer : option ParquetWriter;
  mg_schema : option Schema;
}.

Definition merge_init : MergeState :=
  {| mg_outputs := []; mg_part_idx := 0; mg_current_bytes := 0; mg_writer := None; mg_schema := None |}.

Definition estimate_batch_bytes (b : RecordBatch) : Z := memory_size b.

Section Merge.
Context (output_dir output_basename : string) (target_bytes : Z) (comp : option Codec) (row_group_size_mb : option Z)
  (exact_output : option string).

Definition part_file (part_idx : nat) : string :=
  path_join output_dir (output_basename +:+ "-part-" +:+ pad4 part_idx +:+ ".parquet").

Definition merge_out_path (part_idx : nat) : string :=
  match part_idx with 0 => default (part_file 0) exact_output | _ => part_file part_idx end.

(** The writer for the next batch: a new part when there is none or the batch does
    not fit. *)
Definition merge_roll (file_schema : Schema) (batch_bytes : Z) (st : MergeState) : TM (MergeState * ParquetWriter) :=
  let fresh :=
    (match mg_writer st with Some w => close w | None => mret tt end) ;;
    let out_path := merge_out_path (mg_part_idx st) in
    w ← start_file out_path file_schema comp row_group_size_mb;
    mret ({| mg_outputs := mg_outputs st ++ [out_path]; mg_part_idx := S (mg_part_idx st); mg_current_bytes := 0;
             mg_writer := Some w; mg_schema := mg_schema st |}, w) in
  match mg_writer st with
  | None => fresh
  | Some w =>
      if (target_bytes <? mg_current_bytes st + batch_bytes)%Z && (0 <? mg_current_bytes st)%Z then fresh else mret (st, w)
  end.

Definition merge_batch (file_schema : Schema) (st : MergeState) (b : RecordBatch) : TM MergeState :=
  b ← next_read b;
  let batch_bytes := estimate_batch_bytes b in
  sw ← merge_roll file_schema batch_bytes st;
  w ← write_batch (snd sw) b;
  mret {| mg_outputs := mg_outputs (fst sw); mg_part_idx := mg_part_idx (fst sw);
          mg_current_bytes := mg_current_bytes (fst sw) + batch_bytes; mg_writer := Some w; mg_schema := mg_schema (fst sw) |}.

Definition merge_schema (input : string) (file_schema : Schema) (st : MergeState) : Result ParqknifeError MergeState :=
  match mg_schema st with
  | None => Ok {| mg_outputs := mg_outputs st; mg_part_idx := mg_part_idx st; mg_current_bytes := mg_current_bytes st;
                  mg_writer := mg_writer st; mg_schema := Some file_schema |}
  | Some s => if decide (s = file_schema) then Ok st
              else Err (PInvalidInput ("schema mismatch during merge at " +:+ input))
  end.

Definition merge_input (st : MergeState) (input : string) : TM MergeState :=
  sb ← open_parquet READER_BATCH input;
  st ← tpure (merge_schema input (fst sb) st);
  tfold (merge_batch (fst sb)) (snd sb) st.

Definition merge_close (st : MergeState) : TM (list string) :=
  (match mg_writer st with Some w => close w | None => mret tt end) ;;
  mret (mg_outputs st).
End Merge.

Definition merge_parquet_files (inputs : list string) (output_dir output_basename : string) (target_bytes : Z)
    (compression : option string) (row_group_size_mb : option Z) (exact_output : option string) : TM (list string) :=
  match inputs with
  | [] => tfail (PInvalidInput "no inputs for merge")
  | _ =>
      create_dir_all output_dir ;;
      comp ← codec_of compression;
      st ← tfold (merge_input output_dir output_basename target_bytes comp row_group_size_mb exact_output)
             (sort_by str_leb inputs) merge_init;
      merge_close st
  end.

Definition split_parquet_file (input output_dir output_basename : string) (target_bytes : Z)
    (compression : option string) (row_group_size_mb : option Z) : TM (list string) :=
  merge_parquet_files [input] output_dir output_basename target_bytes compression row_group_size_mb None.

(** ** Rewriting *)

(** [if let Some(parent) = Path::new(output).parent() { create_dir_all(parent)? }]. *)
Definition create_parent (output : string) : TM unit :=
  match path_parent output with Some parent => create_dir_all parent | None => mret tt end.

(** The loop that reads a batch, changes it and writes it. *)
Definition copy_batch (f : RecordBatch -> Result Stop RecordBatch) (w : ParquetWriter) (b : RecordBatch) : TM ParquetWriter :=
  b ← next_read b; b ← tstop (f b); write_batch w b.

Definition rewrite_parquet_file (input output : string) (compression : option string) (row_group_size_mb : option Z) : TM unit :=
  sb ← open_parquet READER_BATCH input;
  comp ← codec_of compression;
  create_parent output ;;
  w ← start_file output (fst sb) comp row_group_size_mb;
  w ← tfold (copy_batch Ok) (snd sb) w;
  close w.

Context `{ArrowCrate} `{ArrowKernels}.

(** [rewrite_parquet_with_rename]: the checks are those of one entry of
    [rename_columns_transform]. *)
Definition rewrite_parquet_with_rename (input output from to : string) (compression : option string) (row_group_size_mb : option Z) : TM unit :=
  if decide (from = to) then tfail (PInvalidInput "rename from and to must differ")
  else
    sb ← open_parquet READER_BATCH input;
    out_schema ← tpure (rename_one (fst sb) (fst sb) (from, to));
    create_parent output ;;
    comp ← codec_of compression;
    w ← start_file output out_schema comp row_group_size_mb;
    w ← tfold (copy_batch (fun b => map_err (fun e => Returned (PInvalidInput ("rename batch failed: " +:+ e))) (try_new out_schema (rb_columns b)))) (snd sb) w;
    close w.

(** [field_idx] and the field the column gets; indexing panics out of range. *)
Definition cast_field (schema : Schema) (column target_type : string) : Result Stop (nat * Field) :=
  match index_of schema column with
  | None => Err (Returned (PInvalidInput ("column not found: " +:+ column)))
  | Some idx =>
      match schema !! idx with
      | Some current => t ← map_err Returned (parse_cast_target (fd_type current) (fd_nullable current) target_type);
                        Ok (idx, {| fd_name := column; fd_type := fst t; fd_nullable := snd t |})
      | None => Err Panicked
      end
  end.

Definition cast_batch (out_schema : Schema) (idx : nat) (t : DataType) (b : RecordBatch) : Result Stop RecordBatch :=
  match rb_columns b !! idx with
  | None => Err Panicked
  | Some array =>
      casted ← (if decide (array_type array = t) then Ok array
                else map_err (fun e => Returned (PInvalidInput ("cast failed: " +:+ e))) (k_cast array t));
      map_err (fun e => Returned (PInvalidInput e)) (try_new out_schema (<[idx := casted]> (rb_columns b)))
  end.

Definition rewrite_parquet_with_cast (input output column target_type : string) (compression : option string) (row_group_size_mb : option Z) : TM unit :=
  sb ← open_parquet READER_BATCH input;
  f ← tstop (cast_field (fst sb) column target_type);
  let out_schema := <[fst f := snd f]> (fst sb) in
  create_parent output ;;
  comp ← codec_of compression;
  w ← start_file output out_schema comp row_group_size_mb;
  w ← tfold (copy_batch (cast_batch out_schema (fst f) (fd_type (snd f)))) (snd sb) w;
  close w.
End Disk.

(** * Partitioning *)

Definition HIVE_DEFAULT_PARTITION : string := "__HIVE_DEFAULT_PARTITION__".
Definition ESCAPE_PREFIX : string := "__PQ_ESC__".

(** [str::replace] of a character. *)
Fixpoint replace_char (c : ascii) (text s : string) : string :=
  match s with
  | EmptyString => EmptyString
  | String d s => (if decide (d = c) then text else String d EmptyString) +:+ replace_char c text s
  end.

Definition encode_partition_value (raw : option string) : string :=
  match raw with
  | None => HIVE_DEFAULT_PARTITION
  | Some s =>
      if decide (s = HIVE_DEFAULT_PARTITION) then ESCAPE_PREFIX +:+ HIVE_DEFAULT_PARTITION
      else if has_char "/" s || has_char "\" s || has_char "000" s then
        ESCAPE_PREFIX +:+ replace_char "000" "\0" (replace_char "/" "\/" (replace_char "\" "\\" s))
      else s
  end.

Definition unit_separator : ascii := "031"%char.

Definition partition_dir (base : string) (columns : list string) (key : string) : string :=
  foldl (fun path cv => path_join path (fst cv +:+ "=" +:+ snd cv)) base (zip columns (split_char unit_separator key)).

(** A Utf8 array is a [StringArray]. *)
Definition array_value_at (a : Array) (row : nat) : Result Stop string :=
  if is_null a row then Ok EmptyString
  else match a with
       | StringArray l => match mjoin (l !! row) with Some s => Ok s | None => Ok EmptyString end
       | _ => if decide (array_type a = AUtf8) then Err Panicked
              else Err (Returned (PInvalidInput ("unsupported partition column type: " +:+ data_type_debug (array_type a))))
       end.

Definition key_part (row : nat) (a : Array) : Result Stop string :=
  if is_null a row then Ok (encode_partition_value None)
  else s ← array_value_at a row; Ok (encode_partition_value (Some s)).

Definition row_key (arrays : list Array) (row : nat) : Result Stop string :=
  parts ← try_map (key_part row) arrays; Ok (join_strings (String unit_separator EmptyString) parts).

(** [groups]: the rows of each key, as the loop over the rows collects them; a key
    is entered when its first row is seen. *)
Definition add_row (key : string) (row : nat) (groups : list (string * list nat)) : list (string * list nat) :=
  if decide (key ∈ groups.*1) then map (fun kr => if decide (fst kr = key) then (fst kr, snd kr ++ [row]) else kr) groups
  else groups ++ [(key, [row])].

Definition group_rows (arrays : list Array) (n : nat) : Result Stop (list (string * list nat)) :=
  try_fold (fun groups row => key ← row_key arrays row; Ok (add_row key row groups)) (seq 0 n) [].

Section PartitionKeys.
Context `{ArrowKernels} `{HashOrder}.

Definition partition_arrays (b : RecordBatch) (cols : list string) : Result Stop (list Array) :=
  try_map (fun c => match column_by_name b c with
                    | Some a => Ok a
                    | None => Err (Returned (PInvalidInput ("missing partition column " +:+ c)))
                    end) cols.

Definition partition_keys (b : RecordBatch) (cols : list string) : Result Stop (list (string * RecordBatch)) :=
  match rb_num_rows b with
  | 0 => Ok []
  | S _ =>
      arrays ← partition_arrays b cols;
      groups ← group_rows arrays (rb_num_rows b);
      try_map (fun kr =>
        filtered ← map_err (fun e => Returned (PArrow e))
                     (k_filter b (map (fun i => Some (bool_decide (i ∈ snd kr))) (seq 0 (rb_num_rows b))));
        Ok (fst kr, filtered)) (hash_order groups)
  end.
End PartitionKeys.

(** [OpenPartition]. *)
Record OpenPartition := { op_writer : ParquetWriter; op_path : string; op_part_index : nat }.

Record PartitionState := {
  ps_writers : gmap string OpenPartition;
  ps_lru : list string;
  ps_outputs : list string;
  ps_part_counters : gmap string nat;
}.

Definition partition_init : PartitionState :=
  {| ps_writers := ∅; ps_lru := []; ps_outputs := []; ps_part_counters := ∅ |}.

Section Partition.
Context `{ParquetDisk} `{HashOrder} `{ArrowKernels} (fault : nat -> option ParqknifeError).
Context (output_dir : string) (partition_by : list string) (max_open_partitions : nat) (comp : option Codec)
  (row_group_size_mb : option Z) (schema : Schema).

Definition partition_file (key : string) (idx : nat) : string :=
  path_join (partition_dir output_dir partition_by key) ("part-" +:+ pad5 idx +:+ ".parquet").

(** The least recently used writer makes room. *)
Definition partition_evict (st : PartitionState) : TM PartitionState :=
  if decide (max_open_partitions <= size (ps_writers st)) then
    match ps_lru st with
    | [] => mret st
    | evict :: lru =>
        match ps_writers st !! evict with
        | None => mret {| ps_writers := ps_writers st; ps_lru := lru; ps_outputs := ps_outputs st; ps_part_counters := ps_part_counters st |}
        | Some open =>
            close fault (op_writer open) ;;
            mret {| ps_writers := delete evict (ps_writers st); ps_lru := lru; ps_outputs := ps_outputs st;
                    ps_part_counters := ps_part_counters st |}
        end
    end
  else mret st.

Definition partition_open (st : PartitionState) (key : string) : TM PartitionState :=
  st ← partition_evict st;
  create_dir_all fault (partition_dir output_dir partition_by key) ;;
  let idx := default 0 (ps_part_counters st !! key) in
  let out_path := partition_file key idx in
  w ← start_file fault out_path schema comp row_group_size_mb;
  mret {| ps_writers := <[key := {| op_writer := w; op_path := out_path; op_part_index := idx |}]> (ps_writers st);
          ps_lru := ps_lru st ++ [key]; ps_outputs := ps_outputs st ++ [out_path];
          ps_part_counters := <[key := S idx]> (ps_part_counters st) |}.

(** [lru.remove(pos); lru.push_back(key)]. *)
Definition lru_touch (key : string) (lru : list string) : list string :=
  match position key lru with Some pos => delete pos lru ++ [key] | None => lru end.

Definition partition_item (st : PartitionState) (item : string * RecordBatch) : TM PartitionState :=
  let '(key, sub_batch) := item in
  st ← match ps_writers st !! key with
       | None => partition_open st key
       | Some _ => mret {| ps_writers := ps_writers st; ps_lru := lru_touch key (ps_lru st); ps_outputs := ps_outputs st;
                           ps_part_counters := ps_part_counters st |}
       end;
  match ps_writers st !! key with
  | None => fun d => (Err Panicked, d)
  | Some open =>
      w ← write_batch fault (op_writer open) sub_batch;
      mret {| ps_writers := <[key := {| op_writer := w; op_path := op_path open; op_part_index := op_part_index open |}]> (ps_writers st);
              ps_lru := ps_lru st; ps_outputs := ps_outputs st; ps_part_counters := ps_part_counters st |}
  end.

Definition partition_batch (st : PartitionState) (b : RecordBatch) : TM PartitionState :=
  keys ← tstop (partition_keys b partition_by); tfold partition_item keys st.

(** [for (_, open) in writers.drain() { open.writer.close()? }]. *)
Definition partition_close (st : PartitionState) : TM (list string) :=
  tfold (fun _ kw => close fault (op_writer (snd kw))) (hash_order (map_to_list (ps_writers st))) tt ;;
  mret (ps_outputs st).
End Partition.

Definition check_partition (partition_by : list string) (max_open_partitions : nat) : Result ParqknifeError unit :=
  if decide (partition_by = []) then Err (PInvalidInput "partition_by required")
  else if decide (max_open_partitions = 0) then Err (PInvalidInput "max_open_partitions must be > 0")
  else Ok tt.

Section PartitionFiles.
Context `{ParquetDisk} `{HashOrder} `{ArrowKernels} (fault : nat -> option ParqknifeError).

Definition partition_record_batches (batches : list RecordBatch) (output_dir : string) (partition_by : list string)
    (max_open_partitions : nat) (compression : option string) (row_group_size_mb : option Z) : TM (list string) :=
  tpure (check_partition partition_by max_open_partitions) ;;
  match batches with
  | [] => mret []
  | first :: _ =>
      create_dir_all fault output_dir ;;
      comp ← codec_of compression;
      st ← tfold (partition_batch fault output_dir partition_by max_open_partitions comp row_group_size_mb (rb_schema first))
             batches partition_init;
      partition_close fault st
  end.

Definition partition_parquet_file (input output_dir : string) (partition_by : list string) (max_open_partitions : nat)
    (compression : option string) (row_group_size_mb : option Z) : TM (list string) :=
  tpure (check_partition partition_by max_open_partitions) ;;
  sb ← open_parquet fault READER_BATCH input;
  tpure (match list_find (fun col => index_of (fst sb) col = None) partition_by with
         | Some (_, col) => Err (PInvalidInput ("partition column not in schema: " +:+ col))
         | None => Ok tt
         end) ;;
  batches ← tfold (fun acc b => b ← next_read fault b; mret (acc ++ [b])) (snd sb) [];
  partition_record_batches batches output_dir partition_by max_open_partitions compression row_group_size_mb.
End PartitionFiles.
