(* ===== verification/TransformFilesProofs.v ===== *)
(** What the file operations of the transform engine guarantee: merging and
    splitting keep every row in order in parts of bounded size; partitioning puts
    every row into the files of its key, with a bounded number of open files
    (src/crates/parqonaut-transform/src/engine/merge.rs and partition.rs). *)

From Stdlib Require Import Ascii.
From S2P Require Import Prelude BTree TypeUnify RustNum Location RepairExec StreamColumns StreamColumnsProofs StreamPipeline.
From S2P Require Import TransformFilter TransformOps TransformFiles.

(** * Runs that return *)

Lemma tbind_ok {A B} (m : TM A) (k : A -> TM B) d y d' : (x ← m; k x) d = (Ok y, d') ->
  exists x d1, m d = (Ok x, d1) /\ k x d1 = (Ok y, d').
Proof. unfold mbind, TM_bind. destruct (m d) as [[x|e] d1]; [|done]. eauto. Qed.

Lemma ran_ok {A} (m : TM A) d : is_ok (fst (m d)) = true -> exists x d', m d = (Ok x, d').
Proof. destruct (m d) as [[x|e] d']; [eauto|done]. Qed.

Lemma tret_ok {A} (a b : A) d d' : mret (M := TM) a d = (Ok b, d') -> b = a /\ d' = d.
Proof. by intros [= <- <-]. Qed.

Lemma tpure_ok {A} (r : Result ParqknifeError A) a d d' : tpure r d = (Ok a, d') -> r = Ok a /\ d' = d.
Proof. unfold tpure. destruct r; [|done]. by intros [= <- <-]. Qed.

Lemma tstop_ok {A} (r : Result Stop A) a d d' : tstop r d = (Ok a, d') -> r = Ok a /\ d' = d.
Proof. unfold tstop. by intros [= -> <-]. Qed.

Lemma tfold_app {A B} (f : B -> A -> TM B) l1 l2 b d :
  tfold f (l1 ++ l2) b d = (b' ← tfold f l1 b; tfold f l2 b') d.
Proof.
  revert b d. induction l1 as [|a l1 IH]; intros b d; [done|]. cbn [app tfold]. unfold mbind, TM_bind.
  destruct (f b a d) as [[b'|e] d']; [|done]. rewrite IH. done.
Qed.

(** What a fold keeps: an invariant indexed by the elements done. *)
Lemma tfold_inv {A B} (I : list A -> B -> PDisk -> Prop) (f : B -> A -> TM B) l :
  (forall dn a b d b' d', a ∈ l -> I dn b d -> f b a d = (Ok b', d') -> I (dn ++ [a]) b' d') ->
  forall dn b d b' d', I dn b d -> tfold f l b d = (Ok b', d') -> I (dn ++ l) b' d'.
Proof.
  induction l as [|a l IH]; intros Hstep dn b d b' d' Hi Hf; cbn [tfold] in Hf.
  - apply tret_ok in Hf as [-> ->]. by rewrite app_nil_r.
  - apply tbind_ok in Hf as (b1 & d1 & Hf1 & Hf). change (a :: l) with ([a] ++ l). rewrite app_assoc.
    eapply IH; [|eapply Hstep; [|exact Hi|exact Hf1]|exact Hf]; [|by left].
    intros dn' a' ??????. by eapply Hstep; [right|..].
Qed.

Ltac tinv H :=
  repeat match type of H with
         | (_ ← _; _) _ = (Ok _, _) =>
             let x := fresh "x" in let d := fresh "d" in let Hx := fresh "Hx" in apply tbind_ok in H as (x & d & Hx & H)
         | mret _ _ = (Ok _, _) => apply tret_ok in H as [-> ->]
         end.

Section Calls.
Context `{ParquetDisk} (fault : nat -> option ParqknifeError).

Lemma effect_ok {A} (f : PDisk -> Result ParqknifeError A * PDisk) d a d' : effect fault f d = (Ok a, d') ->
  f {| pd_files := pd_files d; pd_tick := S (pd_tick d) |} = (Ok a, d').
Proof.
  unfold effect. destruct (fault _); [done|]. destruct (f _) as [[x|e] d2]; [|done]. by intros [= <- <-].
Qed.

Lemma create_dir_all_ok p d x d' : create_dir_all fault p d = (Ok x, d') -> pd_files d' = pd_files d.
Proof. intros He. apply effect_ok in He. by injection He as <- <-. Qed.

Lemma next_read_ok b d b' d' : next_read fault b d = (Ok b', d') -> b' = b /\ pd_files d' = pd_files d.
Proof. intros He. apply effect_ok in He. by injection He as <- <-. Qed.

Lemma codec_of_ok c d comp d' : codec_of c d = (Ok comp, d') -> d' = d /\
  match c with Some t => exists k, compression_from_str t = Ok k /\ comp = Some k | None => comp = None end.
Proof.
  unfold codec_of. destruct c as [t|]; intros Hc; tinv Hc; [|done]. apply tpure_ok in Hx as [Hx ->]. eauto.
Qed.

Lemma file_create_ok p d x d' : file_create fault p d = (Ok x, d') -> handles d p = 0 ->
  pd_files d' = <[canon p := {| pf_open := 1; pf_content := Writing |}]> (pd_files d).
Proof. intros He Hh. apply effect_ok in He. injection He as <- <-. unfold handles in *. cbn. by rewrite Hh. Qed.

Lemma writer_new_ok p s c r d w d' : writer_new fault p s c r d = (Ok w, d') ->
  w = {| wr_path := p; wr_schema := s; wr_codec := default CUncompressed c; wr_batches := [] |} /\ pd_files d' = pd_files d.
Proof.
  unfold writer_new. destruct r as [mb|]; [case_decide; [done|]|]; intros He; apply effect_ok in He; by injection He as <- <-.
Qed.

Lemma start_file_ok p s c r d w d' : start_file fault p s c r d = (Ok w, d') -> handles d p = 0 ->
  w = {| wr_path := p; wr_schema := s; wr_codec := default CUncompressed c; wr_batches := [] |} /\
  pd_files d' = <[canon p := {| pf_open := 1; pf_content := Writing |}]> (pd_files d).
Proof.
  unfold start_file. intros He Hh. tinv He. apply writer_new_ok in He as [-> ->]. split; [done|]. by eapply file_create_ok.
Qed.

Lemma write_batch_ok w b d w' d' : rb_schema b = wr_schema w -> write_batch fault w b d = (Ok w', d') ->
  w' = {| wr_path := wr_path w; wr_schema := wr_schema w; wr_codec := wr_codec w; wr_batches := wr_batches w ++ [b] |} /\
  pd_files d' = pd_files d.
Proof. intros Hs He. apply effect_ok in He. rewrite <- Hs, pq_write_same in He. rewrite <- Hs. by injection He as <- <-. Qed.

(** Closing the only writer of a file finishes it. *)
Lemma close_ok w d x d' : close fault w d = (Ok x, d') ->
  pd_files d !! canon (wr_path w) = Some {| pf_open := 1; pf_content := Writing |} ->
  pd_files d' = <[canon (wr_path w) := {| pf_open := 0; pf_content := Complete (wr_schema w) (wr_codec w) (wr_batches w) |}]> (pd_files d).
Proof. intros He Hw. apply effect_ok in He. injection He as <- <-. cbn. unfold handles. cbn. by rewrite Hw. Qed.

Lemma open_parquet_ok n p d s bs d' : open_parquet fault n p d = (Ok (s, bs), d') -> pd_files d' = pd_files d /\
  exists c bs0, pf_content <$> pd_files d !! canon p = Some (Complete s c bs0) /\ bs = pq_read n s bs0.
Proof.
  intros He. apply effect_ok in He. cbn in He. destruct (pf_content <$> _) as [[|s0 c bs0|]|]; try done.
  injection He as <- <- <-. eauto.
Qed.

(** When no call fails. *)
Section NoFault.
Context (Hnf : forall n, fault n = None).

Lemma effect_runs {A} (f : PDisk -> Result ParqknifeError A * PDisk) d :
  effect fault f d = let '(r, d2) := f {| pd_files := pd_files d; pd_tick := S (pd_tick d) |} in (map_err Returned r, d2).
Proof. unfold effect. by rewrite Hnf. Qed.
End NoFault.
End Calls.

(** [Ok] whatever the disk. *)
Definition returns {A} (m : TM A) : Prop := forall d, is_ok (fst (m d)) = true.

Lemma returns_bind {A B} (m : TM A) (k : A -> TM B) : returns m -> (forall x, returns (k x)) -> returns (x ← m; k x).
Proof.
  intros Hm Hk d. specialize (Hm d). unfold mbind, TM_bind. destruct (m d) as [[x|e] d1]; [|done]. apply Hk.
Qed.
Lemma returns_ret {A} (a : A) : returns (mret (M := TM) a).
Proof. done. Qed.
Lemma returns_effect fault {A} (f : PDisk -> Result ParqknifeError A * PDisk) : (forall n, fault n = None) ->
  (forall d, is_ok (fst (f d)) = true) -> returns (effect fault f).
Proof. intros Hnf Hf d. rewrite effect_runs by done. specialize (Hf {| pd_files := pd_files d; pd_tick := S (pd_tick d) |}). by destruct (f _) as [[x|e] ?]. Qed.
Lemma returns_fold {A B} (f : B -> A -> TM B) l : (forall b a, returns (f b a)) -> forall b, returns (tfold f l b).
Proof. intros Hf. induction l as [|a l IH]; intros b; [done|]. cbn [tfold]. apply returns_bind; [apply Hf|exact IH]. Qed.

Lemma tfold_runs {A B} (P : B -> PDisk -> Prop) (f : B -> A -> TM B) l : forall b d, P b d ->
  (forall a b d, a ∈ l -> P b d -> exists b' d', f b a d = (Ok b', d') /\ P b' d') -> exists b' d', tfold f l b d = (Ok b', d') /\ P b' d'.
Proof.
  induction l as [|a l IH]; intros b d Hb Hf; [by exists b, d|]. cbn [tfold]. destruct (Hf a b d ltac:(by left) Hb) as (b1 & d1 & H1 & Hb1).
  unfold mbind, TM_bind. rewrite H1. apply IH; [done|]. intros a' b' d' Ha'. apply Hf. by right.
Qed.

(** A row group size that the [parquet] crate accepts. *)
Definition row_group_ok (r : option Z) : Prop := match r with Some mb => wrap_u64 (mb * 1024 * 1024) <> 0%Z | None => True end.

Create HintDb runs.
#[export] Hint Resolve returns_bind returns_ret returns_fold : runs.

Section Returns.
Context `{ParquetDisk} (fault : nat -> option ParqknifeError) (Hnf : forall n, fault n = None).

Lemma returns_create_dir p : returns (create_dir_all fault p).
Proof. by apply returns_effect. Qed.
Lemma returns_next b : returns (next_read fault b).
Proof. by apply returns_effect. Qed.
Lemma returns_write w b : rb_schema b = wr_schema w -> returns (write_batch fault w b).
Proof. intros Hs. apply returns_effect; [done|]. intros d. by rewrite <- Hs, pq_write_same. Qed.
Lemma returns_close w : returns (close fault w).
Proof. by apply returns_effect. Qed.
Lemma returns_start p s c r : row_group_ok r -> returns (start_file fault p s c r).
Proof.
  intros Hr. apply returns_bind; [by apply returns_effect|]. intros _. unfold writer_new.
  destruct r as [mb|]; [rewrite decide_False by done|]; by apply returns_effect.
Qed.
End Returns.
#[export] Hint Resolve returns_create_dir returns_next returns_write returns_close returns_start : runs.

(** * Merging *)

Section MergeBytes.
Context `{ParquetDisk}.

Definition bytes_of (bs : list RecordBatch) : Z := foldr Z.add 0%Z (map memory_size bs).

Lemma bytes_of_snoc bs b : bytes_of (bs ++ [b]) = (bytes_of bs + memory_size b)%Z.
Proof. unfold bytes_of. rewrite map_app, foldr_app. cbn. induction (map memory_size bs) as [|x l IH]; cbn; lia. Qed.

Lemma bytes_of_nonneg bs : (0 <= bytes_of bs)%Z.
Proof. unfold bytes_of. induction bs as [|b bs IH]; cbn; [done|]. pose proof (memory_size_nonneg b). lia. Qed.

(** A part is within the target, or its last batch alone exceeds it. *)
Definition fits (target_bytes : Z) (bs : list RecordBatch) : Prop :=
  (bytes_of bs <= target_bytes)%Z \/ exists b bs', bs = bs' ++ [b] /\ bytes_of bs' = 0%Z.
End MergeBytes.

Section MergeProof.
Context `{ParquetDisk} (fault : nat -> option ParqknifeError).
Context (output_dir output_basename : string) (target_bytes : Z) (comp : option Codec) (row_group_size_mb : option Z)
  (exact_output : option string).
Context (d0 : PDisk) (s : Schema).

Abbreviation out := (merge_out_path output_dir output_basename exact_output).

(** The outputs are distinct files that nobody writes to. *)
Definition outputs_free : Prop :=
  (forall i j, canon (out i) = canon (out j) -> i = j) /\ forall i, handles d0 (out i) = 0.

Definition parts_written (d : PDisk) (parts : list (list RecordBatch)) : Prop :=
  forall i bs, parts !! i = Some bs ->
    pd_files d !! canon (out i) = Some {| pf_open := 0; pf_content := Complete s (default CUncompressed comp) bs |}.

Definition others_untouched (n : nat) (d : PDisk) : Prop :=
  forall q, (forall i, i < n -> canon (out i) <> q) -> pd_files d !! q = pd_files d0 !! q.

Record merging (dn : list RecordBatch) (st : MergeState) (d : PDisk) : Prop := {
  mi_outputs : mg_outputs st = map out (seq 0 (mg_part_idx st));
  mi_others : others_untouched (mg_part_idx st) d;
  mi_parts : match mg_writer st with
             | None => mg_part_idx st = 0 /\ dn = []
             | Some w => exists parts, mg_part_idx st = S (length parts) /\ parts_written d parts /\ Forall (fits target_bytes) parts /\
                 wr_path w = out (length parts) /\ wr_schema w = s /\ wr_codec w = default CUncompressed comp /\
                 pd_files d !! canon (wr_path w) = Some {| pf_open := 1; pf_content := Writing |} /\
                 concat parts ++ wr_batches w = dn /\ mg_current_bytes st = bytes_of (wr_batches w) /\
                 fits target_bytes (wr_batches w)
             end;
}.

Context (Hfree : outputs_free).

Lemma untouched_handles n d : others_untouched n d -> handles d (out n) = 0.
Proof.
  intros Ho. unfold handles. rewrite Ho; [apply Hfree|]. intros i Hi Hc. apply Hfree in Hc. lia.
Qed.

Lemma others_insert n d d' f : others_untouched n d -> pd_files d' = <[canon (out n) := f]> (pd_files d) -> others_untouched (S n) d'.
Proof.
  intros Ho Hd q Hq. rewrite Hd, lookup_insert_ne by (apply Hq; lia). apply Ho. intros i Hi. apply Hq. lia.
Qed.

Lemma parts_insert d d' parts n f : parts_written d parts -> length parts <= n ->
  pd_files d' = <[canon (out n) := f]> (pd_files d) -> parts_written d' parts.
Proof.
  intros Hp Hn Hd i bs Hi. rewrite Hd, lookup_insert_ne; [by apply Hp|]. intros Hc. apply Hfree in Hc.
  apply lookup_lt_Some in Hi. lia.
Qed.

(** The writer that a roll-over closes completes the next part. *)
Lemma merging_close dn st d w x d' : merging dn st d -> mg_writer st = Some w -> close fault w d = (Ok x, d') ->
  exists parts, mg_part_idx st = length parts /\ parts_written d' parts /\ Forall (fits target_bytes) parts /\
    concat parts = dn /\ others_untouched (length parts) d'.
Proof.
  intros [Hout Hoth Hp] Hw Hc. rewrite Hw in Hp.
  destruct Hp as (parts & Hidx & Hpw & Hfit & Hpath & Hs & Hcd & Hfile & Hdn & _ & Hf). exists (parts ++ [wr_batches w]).
  pose proof (close_ok _ _ _ _ _ Hc Hfile) as Hd'. rewrite Hpath in Hd'. rewrite length_app, Nat.add_comm. cbn [length].
  rewrite Hidx. split; [done|]. split; [|split; [by apply Forall_app_2; [|constructor]|split]].
  - intros i bs Hi. apply lookup_app_Some in Hi as [Hi|[Hl Hi]].
    + by apply (parts_insert d d' parts (length parts) _ Hpw (Nat.le_refl _) Hd' i).
    + apply list_lookup_singleton_Some in Hi as [Hi <-]. assert (i = length parts) as -> by lia. by rewrite Hd', lookup_insert_eq, Hs, Hcd.
  - rewrite concat_app. cbn. by rewrite app_nil_r.
  - rewrite Hidx in Hoth. intros q Hq. rewrite Hd', lookup_insert_ne by (apply Hq; lia). by apply Hoth.
Qed.

(** A writer for the next batch. *)
Definition rolled (dn : list RecordBatch) (b : RecordBatch) (st : MergeState) (w : ParquetWriter) (d : PDisk) : Prop :=
  mg_outputs st = map out (seq 0 (mg_part_idx st)) /\ others_untouched (mg_part_idx st) d /\
  exists parts, mg_part_idx st = S (length parts) /\ parts_written d parts /\ Forall (fits target_bytes) parts /\
    wr_path w = out (length parts) /\ wr_schema w = s /\ wr_codec w = default CUncompressed comp /\
    pd_files d !! canon (wr_path w) = Some {| pf_open := 1; pf_content := Writing |} /\
    concat parts ++ wr_batches w = dn /\ mg_current_bytes st = bytes_of (wr_batches w) /\
    fits target_bytes (wr_batches w ++ [b]).

Lemma rolled_fresh dn b st d parts w d' : mg_outputs st = map out (seq 0 (mg_part_idx st)) -> mg_part_idx st = length parts ->
  parts_written d parts -> Forall (fits target_bytes) parts -> concat parts = dn -> others_untouched (length parts) d ->
  start_file fault (out (mg_part_idx st)) s comp row_group_size_mb d = (Ok w, d') ->
  rolled dn b {| mg_outputs := mg_outputs st ++ [out (mg_part_idx st)]; mg_part_idx := S (mg_part_idx st); mg_current_bytes := 0;
                 mg_writer := Some w; mg_schema := mg_schema st |} w d'.
Proof.
  intros Hout Hidx Hpw Hfit Hdn Hoth Hst. rewrite Hidx in *.
  destruct (start_file_ok _ _ _ _ _ _ _ _ Hst (untouched_handles _ _ Hoth)) as [-> Hd']. split; [|split].
  - cbn [mg_outputs mg_part_idx]. rewrite Hout. change (S (length parts)) with (1 + length parts). rewrite Nat.add_comm, seq_app, map_app. done.
  - by eapply others_insert.
  - exists parts. split; [done|]. split; [by eapply parts_insert|]. split; [done|]. repeat (split; [done|]). cbn [wr_path wr_batches].
    rewrite Hd', lookup_insert_eq, app_nil_r. repeat (split; [done|]). right. by exists b, [].
Qed.

Lemma merge_roll_ok dn b st d st' w d' : merging dn st d ->
  merge_roll fault output_dir output_basename target_bytes comp row_group_size_mb exact_output s (memory_size b) st d = (Ok (st', w), d') ->
  rolled dn b st' w d' /\ mg_schema st' = mg_schema st.
Proof.
  intros Hm Hr. unfold merge_roll in Hr. pose proof Hm as [Hout Hoth Hp].
  destruct (mg_writer st) as [w0|] eqn:Ew.
  - destruct (_ && _) eqn:Eroll.
    + tinv Hr. apply tret_ok in Hr as [Hr ->]. injection Hr as -> ->.
      destruct (merging_close _ _ _ _ _ _ Hm Ew Hx) as (parts & Hidx & Hpw & Hfit & Hdn & Hoth'). split; [|done].
      by eapply rolled_fresh.
    + apply tret_ok in Hr as [Hr ->]. injection Hr as -> ->. split; [|done]. split; [done|]. split; [done|].
      destruct Hp as (parts & Hidx & Hpw & Hfit & Hpath & Hs & Hcd & Hfile & Hdn & Hb & Hf). exists parts.
      repeat (split; [done|]). rewrite Hb in Eroll. pose proof (bytes_of_nonneg (wr_batches w0)).
      apply andb_false_iff in Eroll as [Er|Er]; apply Z.ltb_ge in Er.
      * left. rewrite bytes_of_snoc. lia.
      * right. eexists _, _. split; [done|]. lia.
  - tinv Hr. apply tret_ok in Hr as [Hr ->]. injection Hr as -> ->. apply tret_ok in Hx as [-> ->]. destruct Hp as [H0 ->].
    split; [|done]. eapply (rolled_fresh [] b st _ []); [done|done|by intros i bs Hi|done|done|by rewrite H0 in Hoth|exact Hx0].
Qed.

Lemma merge_batch_ok dn b st d st' d' : merging dn st d -> rb_schema b = s ->
  merge_batch fault output_dir output_basename target_bytes comp row_group_size_mb exact_output s st b d = (Ok st', d') ->
  merging (dn ++ [b]) st' d' /\ mg_schema st' = mg_schema st.
Proof.
  intros Hm Hbs Hb. unfold merge_batch in Hb. tinv Hb. destruct x0 as [st1 w]. apply next_read_ok in Hx as [-> Hd].
  assert (merging dn st d1) as Hm1.
  { destruct Hm as [Ha Hb' Hc]. split; [done| |]; unfold others_untouched, parts_written in *; by rewrite Hd. }
  destruct (merge_roll_ok _ _ _ _ _ _ _ Hm1 Hx0) as [(Hout & Hoth & parts & Hidx & Hpw & Hfit & Hpath & Hs & Hcd & Hfile & Hdn & Hby & Hf) Hsch].
  apply write_batch_ok in Hx1 as [-> Hd']; [|cbn; congruence]. cbn [fst snd mg_schema]. split; [|done].
  split; cbn [mg_outputs mg_part_idx mg_writer mg_current_bytes fst]; [done|by intros q Hq; rewrite Hd'; apply Hoth|].
  exists parts. split; [done|]. split; [by intros i bs Hi; rewrite Hd'; by apply Hpw|]. split; [done|]. cbn [wr_path wr_schema wr_codec wr_batches].
  repeat (split; [done|]). rewrite Hd'. split; [done|]. split; [by rewrite app_assoc, Hdn|]. split; [|done].
  by rewrite bytes_of_snoc, Hby.
Qed.
End MergeProof.

(** What a path holds. *)
Section Contents.
Context `{ParquetDisk}.

Definition schema_at (d : PDisk) (p : string) : option Schema :=
  match pf_content <$> pd_files d !! canon p with Some (Complete s _ _) => Some s | _ => None end.
Definition batches_at (d : PDisk) (p : string) : list RecordBatch :=
  match pf_content <$> pd_files d !! canon p with Some (Complete _ _ bs) => bs | _ => [] end.
Definition rows_at (d : PDisk) (p : string) : list (list Value) := concat (map batch_rows (batches_at d p)).

(** The batches a reader gets. *)
Definition read_at (n : nat) (d : PDisk) (p : string) : list RecordBatch := pq_read n (default [] (schema_at d p)) (batches_at d p).

(** A finished file of well-formed batches. *)
Definition holds (s : Schema) (d : PDisk) (p : string) : Prop :=
  schema_at d p = Some s /\ Forall (fun b => batch_ok b /\ rb_schema b = s) (batches_at d p).

Lemma open_parquet_at fault n p d d1 s bs d' : open_parquet fault n p d = (Ok (s, bs), d') ->
  pd_files d !! canon p = pd_files d1 !! canon p ->
  schema_at d1 p = Some s /\ bs = read_at n d1 p /\ pd_files d' = pd_files d.
Proof.
  intros Ho Hsame. apply open_parquet_ok in Ho as (Hd & c & bs0 & Hc & ->). rewrite Hsame in Hc.
  unfold read_at, schema_at, batches_at. by rewrite Hc.
Qed.

Lemma read_at_rows n d p s : holds s d p -> concat (map batch_rows (read_at n d p)) = rows_at d p.
Proof. intros [Hs Hb]. unfold read_at. rewrite Hs. by apply pq_read_rows. Qed.
End Contents.

Section MergeInputs.
Context `{ParquetDisk} (fault : nat -> option ParqknifeError).
Context (output_dir output_basename : string) (target_bytes : Z) (comp : option Codec) (row_group_size_mb : option Z)
  (exact_output : option string) (d0 : PDisk).
Abbreviation out := (merge_out_path output_dir output_basename exact_output).
Abbreviation merging_with := (merging output_dir output_basename target_bytes comp exact_output d0).
Context (Hfree : outputs_free output_dir output_basename exact_output d0).

(** No output is an input. *)
Definition apart (inputs : list string) : Prop := forall p i, p ∈ inputs -> canon (out i) <> canon p.

Definition merged (dn : list string) (st : MergeState) (d : PDisk) : Prop :=
  match mg_schema st with
  | None => dn = [] /\ forall s, merging_with s [] st d
  | Some s => merging_with s (concat (map (read_at READER_BATCH d0) dn)) st d /\ Forall (fun p => schema_at d0 p = Some s) dn
  end.

Lemma merging_ext s dn st st' d d' : merging_with s dn st d -> mg_outputs st' = mg_outputs st -> mg_part_idx st' = mg_part_idx st ->
  mg_current_bytes st' = mg_current_bytes st -> mg_writer st' = mg_writer st -> pd_files d' = pd_files d -> merging_with s dn st' d'.
Proof.
  intros [Ha Hb Hc] H1 H2 H3 H4 Hd. split; rewrite ?H1, ?H2, ?H3, ?H4; [done| |]; unfold others_untouched, parts_written in *; by rewrite ?Hd.
Qed.

Lemma merge_schema_ok input fs st st' : merge_schema input fs st = Ok st' ->
  mg_schema st' = Some fs /\ mg_outputs st' = mg_outputs st /\ mg_part_idx st' = mg_part_idx st /\
  mg_current_bytes st' = mg_current_bytes st /\ mg_writer st' = mg_writer st /\ (mg_schema st = None \/ mg_schema st = Some fs).
Proof.
  unfold merge_schema. destruct (mg_schema st) as [s0|] eqn:E; [case_decide; [|done]|]; intros [= <-]; cbn; subst; eauto 10.
Qed.

Lemma merge_input_ok inputs dn p st d st' d' : apart inputs -> p ∈ inputs -> merged dn st d ->
  merge_input fault output_dir output_basename target_bytes comp row_group_size_mb exact_output st p d = (Ok st', d') ->
  merged (dn ++ [p]) st' d'.
Proof.
  intros Hap Hp Hm Hi. unfold merge_input in Hi. tinv Hi. destruct x as [fs bs]. cbn [fst snd] in Hi.
  apply tpure_ok in Hx0 as [Hsch ->]. apply merge_schema_ok in Hsch as (Hs & H1 & H2 & H3 & H4 & Hprev).
  assert (pd_files d !! canon p = pd_files d0 !! canon p) as Hsame.
  { unfold merged in Hm. destruct (mg_schema st) as [s0|]; [destruct Hm as [[_ Ho _] _]|destruct Hm as [_ Hm]; destruct (Hm []) as [_ Ho _]];
      apply Ho; intros i _; by apply Hap. }
  destruct (open_parquet_at _ _ _ _ d0 _ _ _ Hx Hsame) as (Hsc & -> & Hd1).
  assert (merging_with fs (concat (map (read_at READER_BATCH d0) dn)) x0 d1 /\ Forall (fun p => schema_at d0 p = Some fs) dn) as [Hm1 Hall].
  { unfold merged in Hm. destruct Hprev as [Hn|Hn]; rewrite Hn in Hm.
    - destruct Hm as [-> Hm]. split; [|done]. by eapply merging_ext; [apply Hm|..].
    - destruct Hm as [Hm Hall]. split; [|done]. by eapply merging_ext; [apply Hm|..]. }
  eapply (tfold_inv (fun done st d => merging_with fs (concat (map (read_at READER_BATCH d0) dn) ++ done) st d /\ mg_schema st = Some fs))
    with (dn := []) in Hi; [|clear Hi|by rewrite app_nil_r].
  - destruct Hi as [Hi Hsi]. unfold merged. rewrite Hsi, map_app, concat_app. cbn [map concat]. rewrite app_nil_r. split; [done|].
    apply Forall_app_2; [done|by constructor].
  - intros done b st1 e1 st2 e2 Hin [Hst Hss] Hb. eapply merge_batch_ok in Hb as [Hb Hsb]; [| |exact Hst|]; [|done|].
    + rewrite Hsb. split; [|done]. by rewrite app_assoc.
    + pose proof (pq_read_schema READER_BATCH fs (batches_at d0 p)) as Hrs. unfold read_at in Hin. rewrite Hsc in Hin. rewrite Forall_forall in Hrs. by apply Hrs.
Qed.

Lemma merge_all_ok inputs st d st' d' : apart inputs -> merged [] st d ->
  tfold (merge_input fault output_dir output_basename target_bytes comp row_group_size_mb exact_output) inputs st d = (Ok st', d') ->
  merged inputs st' d'.
Proof.
  intros Hap Hm Hf. eapply (tfold_inv merged) with (dn := []) in Hf; [exact Hf| |exact Hm].
  intros dn a b e b' e' Ha. by apply merge_input_ok with (inputs := inputs).
Qed.

Lemma merged_init d : pd_files d = pd_files d0 -> merged [] merge_init d.
Proof. intros Hd. split; [done|]. intros s. split; [done| |done]. intros q _. by rewrite Hd. Qed.

(** The merged parts: in order what the inputs hold. *)
Lemma merge_close_ok inputs st d outs d' : inputs <> [] -> merged inputs st d -> merge_close fault st d = (Ok outs, d') ->
  exists s parts, Forall (fun p => schema_at d0 p = Some s) inputs /\ outs = map out (seq 0 (length parts)) /\
    parts_written output_dir output_basename comp exact_output s d' parts /\ Forall (fits target_bytes) parts /\
    concat parts = concat (map (read_at READER_BATCH d0) inputs) /\
    others_untouched output_dir output_basename exact_output d0 (length parts) d'.
Proof.
  intros Hne Hm Hc. unfold merge_close in Hc. tinv Hc. unfold merged in Hm. destruct (mg_schema st) as [s|]; [|by destruct Hm].
  destruct Hm as [Hm Hall]. exists s. destruct (mg_writer st) as [w|] eqn:Ew.
  - destruct (merging_close _ _ _ _ _ _ _ _ Hfree _ _ _ _ _ _ Hm Ew Hx) as (parts & Hidx & Hpw & Hfit & Hdn & Hoth).
    exists parts. split; [done|]. destruct Hm as [Hout _ _]. rewrite Hout, Hidx. done.
  - apply tret_ok in Hx as [-> ->]. destruct Hm as [Hout Hoth Hp]. rewrite Ew in Hp. destruct Hp as [H0 Hdn]. exists [].
    rewrite Hout, H0. split; [done|]. split; [done|]. split; [by intros i bs Hi|]. split; [done|]. split; [done|]. by rewrite H0 in Hoth.
Qed.

(** With no failing call, files of one schema are merged. *)
Section MergeRuns.
Context (Hnf : forall n, fault n = None) (Hrg : row_group_ok row_group_size_mb).







End MergeRuns.
End MergeInputs.

(** ** Claims *)

Section MergeClaims.
Context `{ParquetDisk} (fault : nat -> option ParqknifeError).

Lemma merge_steps inputs dir base target compression rg exact : inputs <> [] ->
  merge_parquet_files fault inputs dir base target compression rg exact =
  (create_dir_all fault dir ;;
   comp ← codec_of compression;
   st ← tfold (merge_input fault dir base target comp rg exact) (sort_by str_leb inputs) merge_init;
   merge_close fault st).
Proof. by destruct inputs. Qed.

(** C28: When the outputs are distinct files that nobody else writes to and none of them
    is an input, a merge that returns Ok has left in its output files, read one after the other,
    exactly the rows of the inputs in the order of their sorted paths; inputs and
    outputs have one schema, and no other file was touched.  Every output is within
    the target size, or consists of one batch that alone exceeds it (and batches that
    take no space). *)
Theorem merge_keeps_rows inputs dir base target compression rg exact d0 outs d' :
  outputs_free dir base exact d0 -> apart dir base exact inputs -> (forall p, p ∈ inputs -> exists s, holds s d0 p) ->
  merge_parquet_files fault inputs dir base target compression rg exact d0 = (Ok outs, d') ->
  concat (map (rows_at d') outs) = concat (map (rows_at d0) (sort_by str_leb inputs)) /\
  (exists s, Forall (fun p => schema_at d0 p = Some s) inputs /\ Forall (fun p => schema_at d' p = Some s) outs) /\
  Forall (fun p => fits target (batches_at d' p)) outs /\
  forall q, (forall p, p ∈ outs -> canon p <> q) -> pd_files d' !! q = pd_files d0 !! q.
Proof.
  intros Hfree Hap Hhold Hm. assert (inputs <> []) as Hne by by intros ->. rewrite merge_steps in Hm by done. tinv Hm.
  apply create_dir_all_ok in Hx. apply codec_of_ok in Hx0 as [-> _].
  set (sorted := sort_by str_leb inputs) in *.
  assert (sorted ≡ₚ inputs) as Hperm by apply sort_by_perm.
  assert (apart dir base exact sorted) as Hap' by (intros p i Hp; apply Hap; by rewrite <- Hperm).
  pose proof (merge_all_ok _ _ _ _ _ _ _ _ Hfree sorted _ _ _ _ Hap' (merged_init _ _ _ _ _ _ _ Hx) Hx1) as Hmg.
  assert (sorted <> []) as Hsne by (intros Hs; rewrite Hs in Hperm; by apply Permutation_nil_l in Hperm).
  destruct (merge_close_ok _ _ _ _ _ _ _ Hfree sorted _ _ _ _ Hsne Hmg Hm) as (s & parts & Hall & -> & Hpw & Hfit & Hcat & Hoth).
  assert (forall i bs, parts !! i = Some bs -> schema_at d' (merge_out_path dir base exact i) = Some s /\ batches_at d' (merge_out_path dir base exact i) = bs) as Hat.
  { intros i bs Hi. unfold schema_at, batches_at. by rewrite (Hpw i bs Hi). }
  assert (map (batches_at d') (map (merge_out_path dir base exact) (seq 0 (length parts))) = parts) as Hb.
  { apply list_eq. intros i. rewrite !list_lookup_fmap. destruct (parts !! i) as [bs|] eqn:Hi.
    - pose proof (lookup_lt_Some _ _ _ Hi). rewrite lookup_seq_lt by done. cbn. by destruct (Hat i bs Hi) as [_ ->].
    - apply lookup_ge_None in Hi. rewrite lookup_seq_ge by done. done. }
  split; [|split; [exists s; split; [by rewrite <- Hperm|]|split]].
  - transitivity (concat (map batch_rows (concat parts))).
    + rewrite <- Hb at 2. clear. unfold rows_at. induction (map (merge_out_path dir base exact) (seq 0 (length parts))) as [|p l IH]; [done|].
      cbn. by rewrite map_app, concat_app, IH.
    + rewrite Hcat. assert (Forall (fun p => exists s, holds s d0 p) sorted) as Hh by (apply Forall_forall; intros p Hp; apply Hhold; by rewrite <- Hperm).
      clear -Hh. induction Hh as [|p l [s0 Hp] _ IH]; [done|]. cbn. rewrite map_app, concat_app, IH. f_equal. by eapply read_at_rows.
  - apply Forall_forall. intros p Hp. apply list_elem_of_fmap in Hp as (i & -> & Hi). apply elem_of_seq in Hi.
    destruct (lookup_lt_is_Some_2 parts i) as [bs Hbs]; [lia|]. by destruct (Hat i bs Hbs).
  - apply Forall_forall. intros p Hp. apply list_elem_of_fmap in Hp as (i & -> & Hi). apply elem_of_seq in Hi.
    destruct (lookup_lt_is_Some_2 parts i) as [bs Hbs]; [lia|]. destruct (Hat i bs Hbs) as [_ ->]. rewrite Forall_lookup in Hfit. by eapply Hfit.
  - intros q Hq. apply Hoth. intros i Hi. apply Hq. apply list_elem_of_fmap. exists i. split; [done|]. apply elem_of_seq. lia.
Qed.

Definition codec_known (compression : option string) : Prop :=
  match compression with Some c => is_ok (compression_from_str c) = true | None => True end.

Lemma codec_of_runs c d : codec_known c -> exists comp, codec_of c d = (Ok comp, d).
Proof.
  unfold codec_of, codec_known, mbind, TM_bind, tpure. destruct c as [t|]; [|by exists None].
  destruct (compression_from_str t) as [k|]; [|done]. by exists (Some k).
Qed.

End MergeClaims.

(** * Partitioning *)

Section PartitionProof.
Context `{ParquetDisk} `{HashOrder} `{ArrowKernels} (fault : nat -> option ParqknifeError).
Context (output_dir : string) (partition_by : list string) (max_open_partitions : nat) (comp : option Codec)
  (row_group_size_mb : option Z) (schema : Schema).
Context (d0 : PDisk) (K : list string).

Abbreviation file := (partition_file output_dir partition_by).
Abbreviation item_step := (partition_item fault output_dir partition_by max_open_partitions comp row_group_size_mb schema).

(** The files of the keys that occur are distinct and nobody writes to them. *)
Definition key_files_apart : Prop :=
  (forall k k' i j, k ∈ K -> k' ∈ K -> canon (file k i) = canon (file k' j) -> k = k' /\ i = j) /\
  forall k i, k ∈ K -> handles d0 (file k i) = 0.

Definition finished (d : PDisk) (k : string) (i : nat) (bs : list RecordBatch) : Prop :=
  pd_files d !! canon (file k i) = Some {| pf_open := 0; pf_content := Complete schema (default CUncompressed comp) bs |}.

(** The parts of a key: all finished, or the last one open. *)
Definition key_parts (k : string) (o : option OpenPartition) (parts : list (list RecordBatch)) (d : PDisk) : Prop :=
  match o with
  | None => forall i bs, parts !! i = Some bs -> finished d k i bs
  | Some o => exists before bs, parts = before ++ [bs] /\ op_part_index o = length before /\ op_path o = file k (length before) /\
      op_writer o = {| wr_path := file k (length before); wr_schema := schema; wr_codec := default CUncompressed comp; wr_batches := bs |} /\
      pd_files d !! canon (file k (length before)) = Some {| pf_open := 1; pf_content := Writing |} /\
      forall i bs, before !! i = Some bs -> finished d k i bs
  end.

Definition items_of (k : string) (items : list (string * RecordBatch)) : list RecordBatch :=
  map snd (filter (fun it => fst it = k) items).

Definition part_count (st : PartitionState) (k : string) : nat := default 0 (ps_part_counters st !! k).

Record partitioning (dn : list (string * RecordBatch)) (parts : string -> list (list RecordBatch)) (st : PartitionState) (d : PDisk) : Prop := {
  pi_lru : NoDup (ps_lru st) /\ forall k, k ∈ ps_lru st <-> is_Some (ps_writers st !! k);
  pi_bound : size (ps_writers st) <= max_open_partitions;
  pi_known : forall k, is_Some (ps_writers st !! k) -> k ∈ K;
  pi_count : forall k, part_count st k = length (parts k);
  pi_keys : forall k, k ∈ K -> key_parts k (ps_writers st !! k) (parts k) d;
  pi_items : forall k, concat (parts k) = items_of k dn;
  pi_absent : forall k, k ∉ K -> parts k = [];
  pi_others : forall q, (forall k i, k ∈ K -> i < length (parts k) -> canon (file k i) <> q) -> pd_files d !! q = pd_files d0 !! q;
  pi_outputs : exists log, ps_outputs st = map (fun ki => file (fst ki) (snd ki)) log /\ NoDup log /\
                 forall k i, (k, i) ∈ log <-> i < length (parts k);
}.

Context (Hap : key_files_apart).

(** A write to a file of another key, or to a later part, changes nothing. *)
Lemma finished_frame d d' k k' i j bs f : k ∈ K -> k' ∈ K -> (k, i) <> (k', j) ->
  pd_files d' = <[canon (file k' j) := f]> (pd_files d) -> finished d k i bs -> finished d' k i bs.
Proof.
  intros Hk Hk' Hne Hd Hf. unfold finished. rewrite Hd, lookup_insert_ne; [exact Hf|]. intros Hc.
  apply Hap in Hc as [-> ->]; done.
Qed.

Lemma key_parts_frame k k' j o parts d d' f : k ∈ K -> k' ∈ K -> k <> k' ->
  pd_files d' = <[canon (file k' j) := f]> (pd_files d) -> key_parts k o parts d -> key_parts k o parts d'.
Proof.
  intros Hk Hk' Hne Hd Hp. destruct o as [o|]; cbn in *.
  - destruct Hp as (before & bs & Hps & Hi & Hpath & Hw & Hfile & Hall). exists before, bs. repeat (split; [done|]). split.
    + rewrite Hd, lookup_insert_ne; [done|]. intros Hc. by apply Hap in Hc as [-> _].
    + intros i b Hb. eapply finished_frame; [..|by apply Hall]; [done|exact Hk'|congruence|exact Hd].
  - intros i b Hb. eapply finished_frame; [..|by apply Hp]; [done|exact Hk'|congruence|exact Hd].
Qed.

Lemma key_parts_files k o parts d d' : pd_files d' = pd_files d -> key_parts k o parts d -> key_parts k o parts d'.
Proof. intros Hd. unfold key_parts, finished. by rewrite Hd. Qed.

(** Closing the open part finishes it. *)
Lemma key_parts_close k o parts d x d' : k ∈ K -> key_parts k (Some o) parts d -> close fault (op_writer o) d = (Ok x, d') ->
  key_parts k None parts d' /\ (exists i f, i < length parts /\ pd_files d' = <[canon (file k i) := f]> (pd_files d)).
Proof.
  intros Hk (before & bs & -> & Hi & Hpath & Hw & Hfile & Hall) Hc. rewrite Hw in Hc. apply close_ok in Hc; [|done]. cbn in Hc. split.
  - cbn. intros i b Hb. apply lookup_app_Some in Hb as [Hb|[Hl Hb]].
    + eapply finished_frame; [exact Hk|exact Hk| |exact Hc|by apply Hall]. apply lookup_lt_Some in Hb. intros [= ?]. lia.
    + apply list_lookup_singleton_Some in Hb as [Hb <-]. assert (i = length before) as -> by lia. unfold finished. by rewrite Hc, lookup_insert_eq.
  - eexists (length before), _. split; [rewrite length_app; cbn; lia|exact Hc].
Qed.

(** Opening the next part. *)
Lemma key_parts_open k parts d w d' : k ∈ K -> key_parts k None parts d -> handles d (file k (length parts)) = 0 ->
  start_file fault (file k (length parts)) schema comp row_group_size_mb d = (Ok w, d') ->
  key_parts k (Some {| op_writer := w; op_path := file k (length parts); op_part_index := length parts |}) (parts ++ [[]]) d' /\
  pd_files d' = <[canon (file k (length parts)) := {| pf_open := 1; pf_content := Writing |}]> (pd_files d).
Proof.
  intros Hk Hp Hh Hs. apply start_file_ok in Hs as [-> Hd]; [|done]. split; [|done]. exists parts, []. repeat (split; [done|]). split.
  - by rewrite Hd, lookup_insert_eq.
  - intros i b Hb. eapply finished_frame; [exact Hk|exact Hk| |exact Hd|by apply Hp]. apply lookup_lt_Some in Hb. intros [= ?]. lia.
Qed.

Lemma key_parts_write k o parts d b w d' : key_parts k (Some o) parts d -> rb_schema b = schema -> write_batch fault (op_writer o) b d = (Ok w, d') ->
  exists before bs, parts = before ++ [bs] /\ pd_files d' = pd_files d /\
    key_parts k (Some {| op_writer := w; op_path := op_path o; op_part_index := op_part_index o |}) (before ++ [bs ++ [b]]) d'.
Proof.
  intros (before & bs & -> & Hi & Hpath & Hw & Hfile & Hall) Hs Hwb. apply write_batch_ok in Hwb as [-> Hd]; [|by rewrite Hw]. exists before, bs.
  split; [done|]. split; [done|]. exists before, (bs ++ [b]). rewrite Hw. repeat (split; [done|]). rewrite Hd.
  split; [done|]. intros i c Hc. unfold finished. rewrite Hd. by apply Hall.
Qed.

Context (Hmax : 0 < max_open_partitions).

Lemma map_size_pos {A} (m : gmap string A) : 0 < size m -> exists k, is_Some (m !! k).
Proof.
  intros Hs. destruct (map_choose m) as (k & x & Hk); [|by exists k].
  intros ->. rewrite map_size_empty in Hs. lia.
Qed.

(** Room for another writer. *)
Lemma partition_evict_ok dn parts st d st' d' : partitioning dn parts st d ->
  partition_evict fault max_open_partitions st d = (Ok st', d') ->
  partitioning dn parts st' d' /\ size (ps_writers st') < max_open_partitions /\ ps_part_counters st' = ps_part_counters st /\
  forall k, ps_writers st !! k = None -> ps_writers st' !! k = None.
Proof.
  intros Hp He. unfold partition_evict in He. case_decide as Hfull; [|tinv He; split; [done|]; split; [lia|done]].
  pose proof Hp as [[Hnd Hlru] Hb Hkn Hcnt Hkeys Hit Habs Hoth Hout].
  destruct (ps_lru st) as [|e lru] eqn:El.
  { destruct (map_size_pos (ps_writers st)) as [k Hk]; [lia|]. apply Hlru in Hk. by apply elem_of_nil in Hk. }
  destruct (proj1 (Hlru e)) as [o Ho]; [by left|]. rewrite Ho in He. tinv He. assert (e ∈ K) as Hek by by apply Hkn.
  pose proof (Hkeys e Hek) as Hke. rewrite Ho in Hke. destruct (key_parts_close _ _ _ _ _ _ Hek Hke Hx) as [Hclosed (j & f & Hj & Hd)].
  cbn [ps_writers ps_part_counters]. apply NoDup_cons in Hnd as [Hnin Hnd]. split; [|split; [|split; [done|]]].
  - split; cbn [ps_writers ps_lru ps_outputs ps_part_counters]; try done.
    + split; [done|]. intros k. rewrite lookup_delete_is_Some, <- Hlru, elem_of_cons. naive_solver.
    + rewrite map_size_delete. rewrite Ho. lia.
    + intros k Hk. apply lookup_delete_is_Some in Hk as [_ Hk]. by apply Hkn.
    + intros k Hk. destruct (decide (k = e)) as [->|Hne]; [by rewrite lookup_delete_eq|]. rewrite lookup_delete_ne by done.
      eapply key_parts_frame; [..|by apply Hkeys]; [done|exact Hek|done|exact Hd].
    + intros q Hq. rewrite Hd, lookup_insert_ne by by apply Hq. by apply Hoth.
  - rewrite map_size_delete, Ho. pose proof (map_size_ne_0_lookup_2 (ps_writers st) e) as Hs. rewrite Ho in Hs. specialize (Hs ltac:(by eexists)). lia.
  - intros k Hk. apply lookup_delete_None. by right.
Qed.

Definition set_parts (k : string) (c : list (list RecordBatch)) (parts : string -> list (list RecordBatch)) : string -> list (list RecordBatch) :=
  fun k' => if decide (k' = k) then c else parts k'.

Lemma partition_open_ok dn parts st key d st' d' : partitioning dn parts st d -> key ∈ K -> ps_writers st !! key = None ->
  partition_open fault output_dir partition_by max_open_partitions comp row_group_size_mb schema st key d = (Ok st', d') ->
  partitioning dn (set_parts key (parts key ++ [[]]) parts) st' d' /\ is_Some (ps_writers st' !! key).
Proof.
  intros Hp Hk Hnone Ho. unfold partition_open in Ho. tinv Ho.
  destruct (partition_evict_ok _ _ _ _ _ _ Hp Hx) as ([[Hnd Hlru] Hb Hkn Hcnt Hkeys Hit Habs Hoth Hout] & Hroom & Hpc & Hno).
  specialize (Hno key Hnone). apply create_dir_all_ok in Hx0. pose proof (Hcnt key) as Hck. unfold part_count in Hck. rewrite Hck in Hx1.
  pose proof (Hkeys key Hk) as Hkp. rewrite Hno in Hkp. apply (key_parts_files _ _ _ _ _ Hx0) in Hkp.
  destruct (fun Hh => key_parts_open key (parts key) _ _ _ Hk Hkp Hh Hx1) as [Hopen Hd].
  { unfold handles. rewrite Hx0, Hoth; [by apply Hap|]. intros k i Hk' Hi Hc. apply Hap in Hc as [-> ->]; [lia|done|done]. }
  rewrite Hx0 in Hd. split; [|cbn; by rewrite lookup_insert_eq]. rewrite Hck. unfold set_parts.
  assert (forall k, k <> key -> (if decide (k = key) then parts key ++ [[]] else parts k) = parts k) as Hother by (intros; by rewrite decide_False).
  split; cbn [ps_writers ps_lru ps_outputs ps_part_counters].
  - split.
    + apply NoDup_app. split; [done|]. split; [|apply NoDup_singleton]. intros k Hin Hs%list_elem_of_singleton. subst. apply Hlru in Hin. rewrite Hno in Hin. by destruct Hin.
    + intros k. rewrite elem_of_app, list_elem_of_singleton, Hlru, lookup_insert_is_Some'. naive_solver.
  - rewrite map_size_insert, Hno. lia.
  - intros k Hs. apply lookup_insert_is_Some' in Hs as [<-|Hs]; [done|by apply Hkn].
  - intros k. unfold part_count. cbn. case_decide as E; [subst; rewrite lookup_insert_eq, length_app; cbn; lia|]. rewrite lookup_insert_ne by done. apply Hcnt.
  - intros k Hk'. case_decide as E; [subst; by rewrite lookup_insert_eq|]. rewrite lookup_insert_ne by done.
    eapply key_parts_frame; [exact Hk'|exact Hk|done| |by apply Hkeys]. exact Hd.
  - intros k. case_decide as E; [subst; rewrite concat_app, Hit; cbn; by rewrite app_nil_r|apply Hit].
  - intros k Hk'. rewrite Hother by by intros ->. by apply Habs.
  - intros q Hq. rewrite Hd, lookup_insert_ne.
    + apply Hoth. intros k i Hk' Hi. apply Hq; [done|]. case_decide; [subst; rewrite length_app; cbn; lia|done].
    + apply Hq; [done|]. rewrite decide_True by done. rewrite length_app. cbn. lia.
  - destruct Hout as (log & -> & Hln & Hlog). exists (log ++ [(key, length (parts key))]). rewrite map_app. split; [done|]. split.
    + apply NoDup_app. split; [done|]. split; [|apply NoDup_singleton]. intros [k i] Hin Hs%list_elem_of_singleton. injection Hs as -> ->.
      apply Hlog in Hin. lia.
    + intros k i. rewrite elem_of_app, list_elem_of_singleton, Hlog. case_decide as E; [subst; rewrite length_app; cbn|].
      * split; [intros [?|[= ->]]; lia|]. intros Hi. destruct (decide (i = length (parts key))) as [->|]; [by right|left; lia].
      * split; [intros [?|[= -> _]]; done|by left].
Qed.

Lemma lru_touch_perm key lru : lru_touch key lru ≡ₚ lru.
Proof.
  unfold lru_touch. destruct (position key lru) as [pos|] eqn:E; [|done]. apply position_Some in E.
  rewrite (delete_Permutation lru pos key E) at 2. by rewrite Permutation_app_comm.
Qed.

Lemma items_of_snoc k items key b : items_of k (items ++ [(key, b)]) = items_of k items ++ (if decide (key = k) then [b] else []).
Proof. unfold items_of. rewrite filter_app, map_app. f_equal. rewrite filter_cons, filter_nil. cbn. by case_decide. Qed.

Lemma partitioning_touch dn parts st key d : partitioning dn parts st d ->
  partitioning dn parts {| ps_writers := ps_writers st; ps_lru := lru_touch key (ps_lru st); ps_outputs := ps_outputs st;
                           ps_part_counters := ps_part_counters st |} d.
Proof.
  intros [[Hnd Hlru] Hb Hkn Hcnt Hkeys Hit Habs Hoth Hout]. split; cbn [ps_writers ps_lru ps_outputs ps_part_counters]; try done.
  split; [by rewrite lru_touch_perm|]. intros k. by rewrite lru_touch_perm.
Qed.

(** Writing a batch to the open part of its key. *)
Lemma partitioning_write dn parts st key o b d w d' : partitioning dn parts st d -> key ∈ K -> ps_writers st !! key = Some o ->
  rb_schema b = schema -> write_batch fault (op_writer o) b d = (Ok w, d') ->
  exists parts', partitioning (dn ++ [(key, b)]) parts'
    {| ps_writers := <[key := {| op_writer := w; op_path := op_path o; op_part_index := op_part_index o |}]> (ps_writers st);
       ps_lru := ps_lru st; ps_outputs := ps_outputs st; ps_part_counters := ps_part_counters st |} d'.
Proof.
  intros [[Hnd Hlru] Hb Hkn Hcnt Hkeys Hit Habs Hoth Hout] Hk Ho Hbs Hw. pose proof (Hkeys key Hk) as Hkp. rewrite Ho in Hkp.
  destruct (key_parts_write _ _ _ _ _ _ _ Hkp Hbs Hw) as (before & bs & Hps & Hd & Hnew). exists (set_parts key (before ++ [bs ++ [b]]) parts).
  assert (forall k, length (set_parts key (before ++ [bs ++ [b]]) parts k) = length (parts k)) as Hlen.
  { intros k. unfold set_parts. case_decide; [|done]. subst k. rewrite Hps, !length_app. done. }
  split; cbn [ps_writers ps_lru ps_outputs ps_part_counters].
  - split; [done|]. intros k. rewrite Hlru, lookup_insert_is_Some'. naive_solver.
  - by rewrite map_size_insert, Ho.
  - intros k Hs. apply lookup_insert_is_Some' in Hs as [<-|Hs]; [done|by apply Hkn].
  - intros k. rewrite Hlen. apply Hcnt.
  - intros k Hk'. unfold set_parts. case_decide as E; [subst; by rewrite lookup_insert_eq|]. rewrite lookup_insert_ne by done.
    eapply key_parts_files; [exact Hd|by apply Hkeys].
  - intros k. rewrite items_of_snoc, <- Hit. unfold set_parts. destruct (decide (k = key)) as [->|E].
    + rewrite decide_True, Hps, !concat_app by done. cbn. by rewrite !app_nil_r, app_assoc.
    + rewrite decide_False by done. by rewrite app_nil_r.
  - intros k Hk'. unfold set_parts. rewrite decide_False by by intros ->. by apply Habs.
  - intros q Hq. rewrite Hd. apply Hoth. intros k i. rewrite <- (Hlen k). apply Hq.
  - destruct Hout as (log & Hl & Hln & Hlog). exists log. split; [done|]. split; [done|]. intros k i. rewrite Hlen. apply Hlog.
Qed.

Lemma partition_item_ok dn parts st it d st' d' : partitioning dn parts st d -> fst it ∈ K -> rb_schema (snd it) = schema -> item_step st it d = (Ok st', d') ->
  exists parts', partitioning (dn ++ [it]) parts' st' d'.
Proof.
  intros Hp Hk Hs Hi. destruct it as [key b]. unfold partition_item in Hi. apply tbind_ok in Hi as (st1 & d1 & Hx & Hi).
  assert (exists parts1, partitioning dn parts1 st1 d1) as [parts1 Hp1].
  { destruct (ps_writers st !! key) as [o|] eqn:Ho.
    - apply tret_ok in Hx as [-> ->]. eexists. by apply partitioning_touch.
    - eapply partition_open_ok in Hx as [Hx _]; [by eexists|done..]. }
  destruct (ps_writers st1 !! key) as [o|] eqn:Ho; [|done]. tinv Hi. by eapply partitioning_write.
Qed.

Lemma partition_items_ok items dn parts st d st' d' : partitioning dn parts st d -> Forall (fun it => fst it ∈ K /\ rb_schema (snd it) = schema) items ->
  tfold item_step items st d = (Ok st', d') -> exists parts', partitioning (dn ++ items) parts' st' d'.
Proof.
  intros Hp Hall Hf. rewrite Forall_forall in Hall.
  eapply (tfold_inv (fun dn st d => exists parts, partitioning dn parts st d)) in Hf; [exact Hf| |by eexists].
  intros dn' a b e b' e' Ha [ps Hps] Hs. eapply partition_item_ok; [done|by apply Hall..|done].
Qed.

Lemma partitioning_init d : pd_files d = pd_files d0 -> partitioning [] (fun _ => []) partition_init d.
Proof.
  intros Hd. split; cbn [ps_writers ps_lru ps_outputs ps_part_counters partition_init]; try done.
  - split; [constructor|]. intros k. rewrite lookup_empty. split; [by intros ?%elem_of_nil|by intros [? ?]].
  - rewrite map_size_empty. lia.
  - intros k [? Hs]. by rewrite lookup_empty in Hs.
  - intros k _. rewrite lookup_empty. by intros i bs Hi.
  - intros q _. by rewrite Hd.
  - exists []. split; [done|]. split; [constructor|]. intros k i. cbn. split; [by intros ?%elem_of_nil|lia].
Qed.

(** Closing the writers, whatever their order. *)
Lemma close_all_ok l : forall dn parts st d x d', partitioning dn parts st d -> l ≡ₚ map_to_list (ps_writers st) ->
  tfold (fun _ kw => close fault (op_writer (snd kw))) l tt d = (Ok x, d') ->
  exists st', partitioning dn parts st' d' /\ ps_writers st' = ∅ /\ ps_outputs st' = ps_outputs st.
Proof.
  induction l as [|[k o] l IH]; intros dn parts st d x d' Hp Hl Hf; cbn [tfold] in Hf.
  - apply tret_ok in Hf as [-> ->]. exists st. split; [done|]. split; [|done]. symmetry in Hl. apply Permutation_nil_r in Hl. by apply map_to_list_empty_iff.
  - tinv Hf. cbn [snd] in Hx. destruct x0. destruct Hp as [[Hnd Hlru] Hb Hkn Hcnt Hkeys Hit Habs Hoth Hout].
    assert (ps_writers st !! k = Some o) as Ho by (apply elem_of_map_to_list; rewrite <- Hl; by left).
    assert (k ∈ K) as Hk by by apply Hkn. pose proof (Hkeys k Hk) as Hkp. rewrite Ho in Hkp.
    destruct (key_parts_close _ _ _ _ _ _ Hk Hkp Hx) as [Hclosed (j & f & Hj & Hd)].
    edestruct (IH dn parts {| ps_writers := delete k (ps_writers st); ps_lru := filter (fun k' => k' <> k) (ps_lru st); ps_outputs := ps_outputs st;
      ps_part_counters := ps_part_counters st |}) as (st' & Hp' & Hw' & Ho'); [| |exact Hf|by exists st'].
    + split; cbn [ps_writers ps_lru ps_outputs ps_part_counters]; try done.
      * split; [by apply NoDup_filter|]. intros k'. rewrite list_elem_of_filter, lookup_delete_is_Some, Hlru. naive_solver.
      * rewrite map_size_delete, Ho. lia.
      * intros k' Hs. apply lookup_delete_is_Some in Hs as [_ Hs]. by apply Hkn.
      * intros k' Hk'. destruct (decide (k' = k)) as [->|Hne]; [by rewrite lookup_delete_eq|]. rewrite lookup_delete_ne by done.
        eapply key_parts_frame; [exact Hk'|exact Hk|done|exact Hd|by apply Hkeys].
      * intros q Hq. rewrite Hd, lookup_insert_ne by by apply Hq. by apply Hoth.
    + cbn [ps_writers]. rewrite <- (insert_delete_id (ps_writers st) k o Ho) in Hl. rewrite map_to_list_insert in Hl by by rewrite lookup_delete_eq.
      by apply Permutation_cons_inv in Hl.
Qed.
End PartitionProof.

(** ** Keys of rows *)

Definition key_at (cols : list string) (b : RecordBatch) (i : nat) : option string :=
  match partition_arrays b cols with Ok arrays => result_ok (row_key arrays i) | Err _ => None end.

(** The rows of a batch with a key, in their order. *)
Definition rows_with_key (cols : list string) (k : string) (b : RecordBatch) : list (list Value) :=
  map (fun i => map (fun a => cell a i) (rb_columns b)) (filter (fun i => key_at cols b i = Some k) (seq 0 (rb_num_rows b))).

Definition rows_of_key (arrays : list Array) (n : nat) (k : string) : list nat :=
  filter (fun i => result_ok (row_key arrays i) = Some k) (seq 0 n).

(** Each key once, with its rows in order; every row has a key. *)
Definition grouped (arrays : list Array) (n : nat) (groups : list (string * list nat)) : Prop :=
  NoDup groups.*1 /\ (forall k rows, (k, rows) ∈ groups -> rows = rows_of_key arrays n k /\ rows <> []) /\
  (forall k, rows_of_key arrays n k <> [] -> k ∈ groups.*1) /\ forall i, i < n -> is_ok (row_key arrays i) = true.

Lemma rows_of_key_S arrays n k : rows_of_key arrays (S n) k =
  rows_of_key arrays n k ++ (if decide (result_ok (row_key arrays n) = Some k) then [n] else []).
Proof. unfold rows_of_key. by rewrite seq_S, filter_app. Qed.

Lemma add_row_keys key row groups : (add_row key row groups).*1 = if decide (key ∈ groups.*1) then groups.*1 else groups.*1 ++ [key].
Proof.
  unfold add_row. case_decide; [|by rewrite fmap_app]. rewrite <- list_fmap_compose. apply list_fmap_ext. intros i [k r] _. cbn. by case_decide.
Qed.

Lemma add_row_elem key row groups k rows : (k, rows) ∈ add_row key row groups <->
  (k <> key /\ (k, rows) ∈ groups) \/ (k = key /\ (exists rs, (key, rs) ∈ groups /\ rows = rs ++ [row])) \/ (k = key /\ (key ∉ groups.*1) /\ rows = [row]).
Proof.
  unfold add_row. case_decide as Hin.
  - split.
    + intros Hm. apply list_elem_of_fmap in Hm as ([k' r'] & E & Hg). cbn in E. case_decide as Ek; injection E as -> ->; [right; left|left]; subst; eauto.
    + intros [[Hne Hg]|[[-> (rs & Hg & ->)]|(_ & Hn & _)]]; [| |done]; apply list_elem_of_fmap;
        [exists (k, rows)|exists (key, rs)]; cbn; by case_decide.
  - rewrite elem_of_app, list_elem_of_singleton. split.
    + intros [Hg|[= -> ->]]; [|by right; right]. left. split; [|done]. intros ->. destruct Hin. apply list_elem_of_fmap. by exists (key, rows).
    + intros [[_ Hg]|[[-> (rs & Hg & ->)]|(-> & _ & ->)]]; [by left| |by right]. destruct Hin. apply list_elem_of_fmap. by exists (key, rs).
Qed.

Lemma grouped_step arrays n groups key : grouped arrays n groups -> row_key arrays n = Ok key -> grouped arrays (S n) (add_row key n groups).
Proof.
  intros (Hnd & Hrows & Hall & Hok) Hkey. unfold grouped.
  assert (forall k, rows_of_key arrays (S n) k = rows_of_key arrays n k ++ (if decide (key = k) then [n] else [])) as HS.
  { intros k. rewrite rows_of_key_S, Hkey. cbn. do 2 case_decide; congruence. }
  split; [|split; [|split]].
  - rewrite add_row_keys. case_decide as Hin; [done|]. apply NoDup_app. split; [done|]. split; [|apply NoDup_singleton]. intros k Hk Hs%list_elem_of_singleton. by subst.
  - intros k rows Hg. rewrite HS. apply add_row_elem in Hg as [[Hne Hg]|[[-> (rs & Hg & ->)]|(-> & Hn & ->)]].
    + rewrite decide_False by done. rewrite app_nil_r. by apply Hrows.
    + rewrite decide_True by done. apply Hrows in Hg as [-> _]. split; [done|]. by intros [_ ?]%app_nil.
    + rewrite decide_True by done. destruct (decide (rows_of_key arrays n key = [])) as [->|Hne]; [done|]. by apply Hall in Hne.
  - intros k Hne. rewrite add_row_keys. rewrite HS in Hne. destruct (decide (key = k)) as [->|Hd].
    + case_decide; [done|]. apply elem_of_app. right. by left.
    + rewrite app_nil_r in Hne. apply Hall in Hne. case_decide; [done|]. apply elem_of_app. by left.
  - intros i Hi. destruct (decide (i = n)) as [->|]; [by rewrite Hkey|]. apply Hok. lia.
Qed.

Lemma group_rows_ok arrays n groups : group_rows arrays n = Ok groups -> grouped arrays n groups.
Proof.
  revert groups. induction n as [|n IH]; intros groups Hg; unfold group_rows in *.
  - injection Hg as <-. split; [constructor|]. split; [by intros k r ?%elem_of_nil|]. split; [done|lia].
  - rewrite seq_S, try_fold_app in Hg. destruct (try_fold _ (seq 0 n) []) as [g0|] eqn:E; [|done]. cbn in Hg.
    destruct (row_key arrays n) as [key|] eqn:Ek; [|done]. injection Hg as <-. by apply grouped_step; [apply IH|].
Qed.

Lemma group_rows_runs arrays n : (forall i, i < n -> is_ok (row_key arrays i) = true) -> is_ok (group_rows arrays n) = true.
Proof.
  induction n as [|n IH]; intros Hok; [done|]. unfold group_rows in *. rewrite seq_S, try_fold_app.
  specialize (IH ltac:(intros; apply Hok; lia)). destruct (try_fold _ (seq 0 n) []) as [g0|] eqn:E; [|done]. cbn.
  specialize (Hok n ltac:(lia)). by destruct (row_key arrays n).
Qed.

Lemma filter_ext_in {A} (P Q : A -> Prop) `{forall x, Decision (P x)} `{forall x, Decision (Q x)} (l : list A) :
  (forall x, x ∈ l -> P x <-> Q x) -> filter P l = filter Q l.
Proof.
  induction l as [|x l IH]; intros Hpq; [done|]. rewrite !filter_cons. rewrite IH by (intros y Hy; apply Hpq; by right).
  pose proof (Hpq x ltac:(by left)). do 2 case_decide; tauto.
Qed.

Lemma filter_all_out {A} (P : A -> Prop) `{forall x, Decision (P x)} (l : list A) : (forall x, x ∈ l -> ~ P x) -> filter P l = [].
Proof.
  induction l as [|x l IH]; intros Hn; [done|]. rewrite filter_cons_False by (apply Hn; by left). apply IH. intros y Hy. apply Hn. by right.
Qed.

Lemma Forall2_impl_in {A B} (P Q : A -> B -> Prop) l k : Forall2 P l k -> (forall x y, x ∈ l -> P x y -> Q x y) -> Forall2 Q l k.
Proof. induction 1; intros Hpq; constructor; [apply Hpq; [by left|done]|]. apply IHForall2. intros x' y' Hx. apply Hpq. by right. Qed.

Lemma items_of_one items k x : NoDup items.*1 -> (k, x) ∈ items -> items_of k items = [x].
Proof.
  unfold items_of. induction items as [|[k' y] items IH]; intros Hnd Hin; [by apply elem_of_nil in Hin|]. apply NoDup_cons in Hnd as [Hn Hnd].
  rewrite filter_cons. cbn [fst]. apply elem_of_cons in Hin as [[= <- <-]|Hin].
  - rewrite decide_True by done. cbn. f_equal. rewrite filter_all_out; [done|]. intros [k' z] Hz Ek. cbn in Ek. subst k'. destruct Hn. apply list_elem_of_fmap. by exists (k, z).
  - rewrite decide_False; [by apply IH|]. cbn. intros ->. destruct Hn. apply list_elem_of_fmap. by exists (k, x).
Qed.

Lemma items_of_none items k : k ∉ items.*1 -> items_of k items = [].
Proof.
  intros Hn. unfold items_of. rewrite filter_all_out; [done|]. intros [k' z] Hz Ek. cbn in Ek. subst k'. destruct Hn. apply list_elem_of_fmap. by exists (k, z).
Qed.

Section KeyRows.
Context `{ArrowKernels} `{HashOrder}.

(** The part of a batch with a key. *)
Lemma filtered_rows arrays b k f : batch_ok b -> k_filter b (map (fun i => Some (bool_decide (i ∈ rows_of_key arrays (rb_num_rows b) k))) (seq 0 (rb_num_rows b))) = Ok f ->
  batch_ok f /\ rb_schema f = rb_schema b /\
  batch_rows f = map (fun i => map (fun a => cell a i) (rb_columns b)) (rows_of_key arrays (rb_num_rows b) k).
Proof.
  intros Hb Hf. destruct (k_filter_spec b (map (fun i => Some (bool_decide (i ∈ rows_of_key arrays (rb_num_rows b) k))) (seq 0 (rb_num_rows b))) Hb)
    as (b' & Hb' & Hok & Hs & Hr); [by rewrite length_map, length_seq|]. rewrite Hf in Hb'. injection Hb' as <-.
  split; [done|]. split; [done|]. rewrite Hr. unfold batch_rows. rewrite kept_mask. f_equal. unfold rows_of_key at 2. apply filter_ext_in.
  intros i Hi. rewrite bool_decide_eq_true. unfold rows_of_key. rewrite list_elem_of_filter. tauto.
Qed.

Lemma partition_keys_ok b cols items : batch_ok b -> partition_keys b cols = Ok items ->
  NoDup items.*1 /\ Forall (fun it => batch_ok (snd it) /\ rb_schema (snd it) = rb_schema b) items /\
  (forall k, concat (map batch_rows (items_of k items)) = rows_with_key cols k b) /\
  (forall k, k ∈ items.*1 -> exists i, i < rb_num_rows b /\ key_at cols b i = Some k) /\
  forall i, i < rb_num_rows b -> is_Some (key_at cols b i).
Proof.
  intros Hb Hk. unfold partition_keys in Hk. destruct (rb_num_rows b) as [|n0] eqn:En.
  { injection Hk as <-. unfold rows_with_key. rewrite En. split; [constructor|]. split; [done|]. split; [done|]. split; [by intros k ?%elem_of_nil|lia]. }
  rewrite <- En in *. clear n0 En. destruct (partition_arrays b cols) as [arrays|] eqn:Ea; [|done]. cbn [mbind Result_bind] in Hk.
  destruct (group_rows arrays (rb_num_rows b)) as [groups|] eqn:Eg; [|done]. cbn [mbind Result_bind] in Hk.
  destruct (group_rows_ok _ _ _ Eg) as (Hnd & Hrows & Hall & Hok). apply try_map_Ok in Hk.
  assert (Forall2 (fun kr it => fst it = fst kr /\ batch_ok (snd it) /\ rb_schema (snd it) = rb_schema b /\
    batch_rows (snd it) = map (fun i => map (fun a => cell a i) (rb_columns b)) (rows_of_key arrays (rb_num_rows b) (fst kr)))
    (hash_order groups) items) as Hit.
  { eapply Forall2_impl_in; [exact Hk|]. intros [k rows] it Hin Hf. cbn [fst snd] in Hf. rewrite hash_order_perm in Hin.
    apply Hrows in Hin as [-> _]. destruct (k_filter b _) as [f|] eqn:Ef; [|done]. injection Hf as <-. cbn.
    destruct (filtered_rows arrays b k f Hb Ef) as (? & ? & ?). done. }
  assert (items.*1 = (hash_order groups).*1) as Hfst.
  { clear -Hit. induction Hit as [|kr it l l' [He _] _ IH]; [done|]. cbn. by rewrite He, IH. }
  assert (forall k, k ∈ items.*1 <-> k ∈ groups.*1) as Hmem by (intros k; rewrite Hfst; by rewrite (hash_order_perm _ groups)).
  assert (forall i, key_at cols b i = result_ok (row_key arrays i)) as Hka by (intros i; unfold key_at; by rewrite Ea).
  assert (NoDup items.*1) as Hndi by (rewrite Hfst; by rewrite (hash_order_perm _ groups)).
  split; [done|]. split; [|split; [|split]].
  - clear -Hit. induction Hit as [|kr it l l' (_ & ? & ? & _) _ IH]; by constructor.
  - intros k. assert (rows_with_key cols k b = map (fun i => map (fun a => cell a i) (rb_columns b)) (rows_of_key arrays (rb_num_rows b) k)) as ->.
    { unfold rows_with_key, rows_of_key. f_equal. apply list_filter_iff. intros i. by rewrite Hka. }
    destruct (decide (k ∈ items.*1)) as [Hin|Hn].
    + apply list_elem_of_fmap in Hin as ([k' f] & -> & Hin). cbn [fst]. rewrite (items_of_one items k' f Hndi Hin). cbn. rewrite app_nil_r.
      apply list_elem_of_lookup in Hin as [j Hj]. destruct (Forall2_lookup_r _ _ _ _ _ Hit Hj) as (kr & _ & He & _ & _ & Hr). cbn in *. by rewrite Hr, He.
    + rewrite items_of_none by done. cbn. destruct (rows_of_key arrays (rb_num_rows b) k) as [|r rs] eqn:Er; [done|]. destruct Hn. apply Hmem, Hall. by rewrite Er.
  - intros k Hin%Hmem. apply list_elem_of_fmap in Hin as ([k' rows] & -> & Hin). apply Hrows in Hin as [-> Hne]. cbn.
    destruct (rows_of_key _ _ _) as [|i rs] eqn:Er; [done|]. assert (i ∈ rows_of_key arrays (rb_num_rows b) k') as Hi by (rewrite Er; by left).
    unfold rows_of_key in Hi. rewrite list_elem_of_filter, elem_of_seq in Hi. exists i. rewrite Hka. split; [lia|tauto].
  - intros i Hi. rewrite Hka. specialize (Hok i Hi). destruct (row_key arrays i); [by eexists|done].
Qed.
End KeyRows.

(** The keys that occur in the batches. *)
Definition occurring (cols : list string) (batches : list RecordBatch) : list string :=
  concat (map (fun b => omap (key_at cols b) (seq 0 (rb_num_rows b))) batches).

Lemma occurring_elem cols batches b i k : b ∈ batches -> i < rb_num_rows b -> key_at cols b i = Some k -> k ∈ occurring cols batches.
Proof.
  intros Hb Hi Hk. unfold occurring. apply list_elem_of_In, in_concat. exists (omap (key_at cols b) (seq 0 (rb_num_rows b))).
  split; [apply in_map_iff; exists b; split; [done|by apply list_elem_of_In]|]. apply list_elem_of_In, list_elem_of_omap. exists i.
  split; [apply elem_of_seq; lia|done].
Qed.

Lemma items_of_app k l1 l2 : items_of k (l1 ++ l2) = items_of k l1 ++ items_of k l2.
Proof. unfold items_of. by rewrite filter_app, map_app. Qed.

Section PartitionRun.
Context `{ParquetDisk} `{HashOrder} `{ArrowKernels} (fault : nat -> option ParqknifeError).
Context (output_dir : string) (partition_by : list string) (max_open_partitions : nat) (comp : option Codec)
  (row_group_size_mb : option Z) (schema : Schema) (d0 : PDisk) (batches : list RecordBatch).
Abbreviation K := (occurring partition_by batches).
Context (Hb : Forall (fun b => batch_ok b /\ rb_schema b = schema) batches) (Hap : key_files_apart output_dir partition_by d0 K) (Hmax : 0 < max_open_partitions).
Abbreviation inv := (partitioning output_dir partition_by max_open_partitions comp schema d0 K).
Abbreviation run := (partition_batch fault output_dir partition_by max_open_partitions comp row_group_size_mb schema).

(** After some batches: the parts hold, key by key, the rows of these batches. *)
Definition distributed (dn : list RecordBatch) (st : PartitionState) (d : PDisk) : Prop :=
  exists items parts, inv items parts st d /\ Forall (fun it => batch_ok (snd it)) items /\
    (forall k, concat (map batch_rows (items_of k items)) = concat (map (rows_with_key partition_by k) dn)) /\
    forall b i, b ∈ dn -> i < rb_num_rows b -> is_Some (key_at partition_by b i).

Lemma partition_batch_ok dn b st d st' d' : b ∈ batches -> distributed dn st d -> run st b d = (Ok st', d') -> distributed (dn ++ [b]) st' d'.
Proof.
  intros Hin (items & parts & Hi & Hall & Hrows & Hkey) Hr. unfold partition_batch in Hr. tinv Hr. apply tstop_ok in Hx as [Hk ->].
  assert (batch_ok b /\ rb_schema b = schema) as [Hbk Hbs] by by rewrite Forall_forall in Hb; apply Hb.
  destruct (partition_keys_ok b partition_by x Hbk Hk) as (_ & Hok & Hrk & Hocc & Hsome).
  eapply partition_items_ok in Hr as [parts' Hi']; [|done|done|exact Hi|].
  - exists (items ++ x), parts'. split; [done|]. split; [apply Forall_app_2; [done|]; eapply Forall_impl; [exact Hok|by intros ? [? _]]|]. split.
    + intros k. rewrite items_of_app, !map_app, !concat_app, Hrows, Hrk. cbn. by rewrite app_nil_r.
    + intros b' i [Hb'|Hb'%list_elem_of_singleton]%elem_of_app Hlt; [by eapply Hkey|subst; by apply Hsome].
  - apply Forall_forall. intros it Hit. destruct (Hocc (fst it)) as (i & Hlt & Hke); [apply list_elem_of_fmap; by exists it|].
    split; [by eapply occurring_elem|]. rewrite Forall_forall in Hok. destruct (Hok it Hit) as [_ ->]. done.
Qed.

Lemma partition_all_ok l st d st' d' : l ⊆ batches -> distributed [] st d -> tfold run l st d = (Ok st', d') -> distributed l st' d'.
Proof.
  intros Hsub Hd Hf. eapply (tfold_inv distributed) with (dn := []) in Hf; [exact Hf| |exact Hd].
  intros dn a b e b' e' Ha. apply partition_batch_ok. by apply Hsub.
Qed.

Lemma distributed_init d : pd_files d = pd_files d0 -> distributed [] partition_init d.
Proof.
  intros Hd. exists [], (fun _ => []). split; [by apply partitioning_init|]. split; [done|]. split; [done|]. by intros b i ?%elem_of_nil.
Qed.
End PartitionRun.

(** ** Open files *)

Section MapSum.
Context {A : Type} (f : A -> nat).

Definition map_sum (m : gmap string A) : nat := map_fold (fun _ x n => f x + n) 0 m.

Lemma map_sum_fresh m k x : m !! k = None -> map_sum (<[k := x]> m) = f x + map_sum m.
Proof. intros Hk. unfold map_sum. rewrite map_fold_insert_L; [done|intros; lia|done]. Qed.

Lemma map_sum_delete m k : map_sum (delete k m) + from_option f 0 (m !! k) = map_sum m.
Proof.
  destruct (m !! k) as [x|] eqn:Hk; cbn.
  - rewrite <- (insert_delete_id m k x Hk) at 2. rewrite map_sum_fresh by apply lookup_delete_eq. lia.
  - rewrite delete_id by done. lia.
Qed.

Lemma map_sum_insert m k x : map_sum (<[k := x]> m) + from_option f 0 (m !! k) = map_sum m + f x.
Proof. rewrite <- insert_delete_eq, map_sum_fresh by apply lookup_delete_eq. pose proof (map_sum_delete m k). lia. Qed.
End MapSum.

Section OpenFiles.
Context `{ParquetDisk} `{HashOrder} `{ArrowKernels} (fault : nat -> option ParqknifeError).

(** How many handles writers hold on the disk. *)
Definition open_files (d : PDisk) : nat := map_sum pf_open (pd_files d).

(** How many of the writers write to a file. *)
Definition writes_to (q : string) (o : OpenPartition) : nat := if decide (canon (wr_path (op_writer o)) = q) then 1 else 0.
Definition writers_on (st : PartitionState) (q : string) : nat := map_sum (writes_to q) (ps_writers st).

Context (base limit : nat).
Definition within (d : PDisk) : Prop := open_files d <= base + limit.

(** [m] keeps to the limit at each of its calls: it ends in [Q], or it is stopped at
    some call with the disk within the limit. *)
Definition bounded {A} (P : PDisk -> Prop) (m : TM A) (Q : A -> PDisk -> Prop) : Prop :=
  forall d, P d -> match m d with (Ok a, d') => Q a d' | (Err _, d') => within d' end.

Lemma bounded_bind {A B} (P : PDisk -> Prop) (m : TM A) (k : A -> TM B) Q R :
  bounded P m Q -> (forall a, bounded (Q a) (k a) R) -> bounded P (a ← m; k a) R.
Proof.
  intros Hm Hk d Hd. specialize (Hm d Hd). unfold mbind, TM_bind. destruct (m d) as [[a|e] d']; [by apply Hk|done].
Qed.

Lemma bounded_ret {A} (P : PDisk -> Prop) (Q : A -> PDisk -> Prop) a : (forall d, P d -> Q a d) -> bounded P (mret a) Q.
Proof. intros Hq d Hd. by apply Hq. Qed.

Lemma bounded_pure {A} (P : PDisk -> Prop) (r : Result Stop A) (Q : A -> PDisk -> Prop) :
  (forall d, P d -> within d) -> (forall a d, r = Ok a -> P d -> Q a d) -> bounded P (tstop r) Q.
Proof. intros Hp Hq d Hd. unfold tstop. destruct r as [a|e]; [by apply Hq|by apply Hp]. Qed.

Lemma bounded_fold {A B} (I : B -> PDisk -> Prop) (g : B -> A -> TM B) l b :
  (forall b a, bounded (I b) (g b a) I) -> bounded (I b) (tfold g l b) I.
Proof.
  intros Hg. revert b. induction l as [|a l IH]; intros b; cbn [tfold]; [by apply bounded_ret|]. by eapply bounded_bind.
Qed.

(** A call: what holds before it, whatever the clock says, holds when it is stopped. *)
Lemma bounded_effect {A} (P : PDisk -> Prop) (f : PDisk -> Result ParqknifeError A * PDisk) (Q : A -> PDisk -> Prop) :
  (forall d d', pd_files d' = pd_files d -> P d -> P d') -> (forall d, P d -> within d) ->
  (forall d, P d -> match f d with (Ok a, d') => Q a d' | (Err _, d') => within d' end) -> bounded P (effect fault f) Q.
Proof.
  intros Hclock Hw Hf d Hd. unfold effect.
  assert (P {| pd_files := pd_files d; pd_tick := S (pd_tick d) |}) as Hd1 by (apply (Hclock d); done).
  destruct (fault (pd_tick d)); [by apply Hw|]. specialize (Hf _ Hd1). by destruct (f _) as [[a|e] d'].
Qed.

(** The recently used order names exactly the open writers; each holds a handle, and
    no other handle was added to the [base] ones. *)
Record holding (st : PartitionState) (d : PDisk) : Prop := {
  ho_lru : NoDup (ps_lru st) /\ forall k, k ∈ ps_lru st <-> is_Some (ps_writers st !! k);
  ho_files : forall q, writers_on st q <= from_option pf_open 0 (pd_files d !! q);
  ho_total : open_files d = base + size (ps_writers st);
  ho_limit : size (ps_writers st) <= limit;
}.

Lemma holding_clock st d d' : pd_files d' = pd_files d -> holding st d -> holding st d'.
Proof. intros Hd [Hl Hf Ht Hb]. split; [done|by rewrite Hd| |done]. unfold open_files in *. by rewrite Hd. Qed.

Lemma holding_within st d : holding st d -> within d.
Proof. intros [_ _ Ht Hb]. unfold within. lia. Qed.

Hint Resolve holding_clock holding_within : core.

Lemma bounded_mkdir st p (R : PDisk -> Prop) : (forall d d', pd_files d' = pd_files d -> R d -> R d') ->
  bounded (fun d => holding st d /\ R d) (create_dir_all fault p) (fun _ d => holding st d /\ R d).
Proof.
  intros HR. apply bounded_effect; [intros d d' Hd [? ?]; eauto|intros d [? ?]; eauto|done].
Qed.

(** Closing the writer of a key. *)
Lemma bounded_close st k o lru : ps_writers st !! k = Some o -> NoDup lru /\ (forall k', k' ∈ lru <-> k' <> k /\ is_Some (ps_writers st !! k')) ->
  bounded (holding st) (close fault (op_writer o)) (fun _ d =>
    holding {| ps_writers := delete k (ps_writers st); ps_lru := lru; ps_outputs := ps_outputs st; ps_part_counters := ps_part_counters st |} d).
Proof.
  intros Ho [Hnd Hlru]. apply bounded_effect; [eauto|eauto|]. intros d [_ Hf Ht Hb].
  set (q := canon (wr_path (op_writer o))).
  pose proof (fun q' => map_sum_delete (writes_to q') (ps_writers st) k) as Hdel. rewrite Ho in Hdel. cbn [from_option] in Hdel.
  assert (writes_to q o = 1) as Hone by (unfold writes_to; by rewrite decide_True).
  assert (1 <= from_option pf_open 0 (pd_files d !! q)) as Hpos.
  { specialize (Hf q). unfold writers_on in Hf. specialize (Hdel q). lia. }
  unfold handles. fold q. set (c := match pf_content <$> _ with Some Writing => _ | _ => _ end).
  set (g := {| pf_open := pred (from_option pf_open 0 (pd_files d !! q)); pf_content := c |}).
  assert (size (delete k (ps_writers st)) = size (ps_writers st) - 1 /\ 1 <= size (ps_writers st)) as [Hs Hs1].
  { rewrite map_size_delete, Ho. split; [lia|]. pose proof (map_size_ne_0_lookup_2 (ps_writers st) k ltac:(rewrite Ho; by eexists)). lia. }
  split; cbn [ps_writers ps_lru].
  - split; [done|]. intros k'. rewrite lookup_delete_is_Some, Hlru. naive_solver.
  - intros q'. cbn. specialize (Hdel q'). unfold writers_on in *. specialize (Hf q'). cbn. destruct (decide (q' = q)) as [->|Hne].
    + unfold g. rewrite lookup_insert_eq. cbn. lia.
    + rewrite lookup_insert_ne by done. lia.
  - unfold open_files in *. cbn. fold q. pose proof (map_sum_insert pf_open (pd_files d) q g) as Hi. unfold g in Hi at 2. cbn in Hi. lia.
  - lia.
Qed.

(** There is room, and a handle was added for [p]. *)
Definition started (st : PartitionState) (p : string) (d : PDisk) : Prop :=
  open_files d = base + S (size (ps_writers st)) /\ size (ps_writers st) < limit /\
  forall q, writers_on st q + (if decide (canon p = q) then 1 else 0) <= from_option pf_open 0 (pd_files d !! q).

Lemma started_clock st p d d' : pd_files d' = pd_files d -> started st p d -> started st p d'.
Proof. intros Hd. unfold started, open_files. by rewrite Hd. Qed.

Lemma started_within st p d : started st p d -> within d.
Proof. unfold started, within. lia. Qed.

Hint Resolve started_clock started_within : core.

Definition roomy (st : PartitionState) (d : PDisk) : Prop := holding st d /\ size (ps_writers st) < limit.

Lemma roomy_clock st d d' : pd_files d' = pd_files d -> roomy st d -> roomy st d'.
Proof. intros Hd [? ?]. split; eauto. Qed.

Lemma roomy_within st d : roomy st d -> within d.
Proof. intros [? _]. eauto. Qed.

Hint Resolve roomy_clock roomy_within : core.

Lemma bounded_start st p s comp rg : bounded (roomy st) (start_file fault p s comp rg) (fun w d => wr_path w = p /\ started st p d).
Proof.
  unfold start_file. apply (bounded_bind _ _ _ (fun _ d => started st p d)).
  - apply bounded_effect; [eauto|eauto|]. intros d [[_ Hf Ht _] Hroom]. unfold handles.
    set (g := {| pf_open := _; pf_content := _ |}). unfold started, open_files in *. cbn.
    pose proof (map_sum_insert pf_open (pd_files d) (canon p) g) as Hi. unfold g in Hi at 2. cbn in Hi. split; [lia|]. split; [done|].
    intros q. specialize (Hf q). case_decide as E; [subst q; rewrite lookup_insert_eq; cbn; lia|]. rewrite lookup_insert_ne by done. lia.
  - intros _. unfold writer_new. destruct rg as [mb|]; [case_decide|];
      [intros d Hd; by eapply started_within|apply bounded_effect; eauto..].
Qed.

(** A writer that wrote a batch stays in its place. *)
Lemma bounded_write st k o b : ps_writers st !! k = Some o ->
  bounded (holding st) (write_batch fault (op_writer o) b) (fun w d =>
    holding {| ps_writers := <[k := {| op_writer := w; op_path := op_path o; op_part_index := op_part_index o |}]> (ps_writers st);
               ps_lru := ps_lru st; ps_outputs := ps_outputs st; ps_part_counters := ps_part_counters st |} d).
Proof.
  intros Ho. apply bounded_effect; [eauto|eauto|]. intros d Hd. destruct (pq_write _ b) as [b'|e]; cbn; [|by eapply holding_within].
  destruct Hd as [[Hnd Hl] Hf Ht Hb]. split; cbn [ps_writers ps_lru].
  - split; [done|]. intros k'. rewrite Hl, lookup_insert_is_Some'. split; [by right|intros [<-|?]; [rewrite Ho; by eexists|done]].
  - intros q. specialize (Hf q). unfold writers_on in *. cbn.
    pose proof (map_sum_insert (writes_to q) (ps_writers st) k {| op_writer := {| wr_path := wr_path (op_writer o);
      wr_schema := wr_schema (op_writer o); wr_codec := wr_codec (op_writer o); wr_batches := wr_batches (op_writer o) ++ [b'] |};
      op_path := op_path o; op_part_index := op_part_index o |}) as Hi.
    rewrite Ho in Hi. cbn [from_option] in Hi. unfold writes_to at 2 4 in Hi. cbn in Hi. lia.
  - rewrite map_size_insert, Ho. done.
  - rewrite map_size_insert, Ho. done.
Qed.

Section Steps.
Context (output_dir : string) (partition_by : list string) (comp : option Codec) (row_group_size_mb : option Z) (schema : Schema).
Context (Hlimit : 0 < limit).

Lemma bounded_evict st : bounded (holding st) (partition_evict fault limit st) (fun st' d => roomy st' d /\
  forall k, ps_writers st !! k = None -> ps_writers st' !! k = None).
Proof.
  unfold partition_evict. case_decide as Hfull; [|apply bounded_ret; intros d Hd; split; [split; [done|lia]|done]].
  intros d Hd. pose proof (ho_lru _ _ Hd) as [Hnd Hl]. pose proof (ho_limit _ _ Hd) as Hb. destruct (ps_lru st) as [|e lru] eqn:El.
  { exfalso. destruct (map_choose (ps_writers st)) as (k & x & Hk); [intros E; rewrite E, map_size_empty in Hfull; lia|].
    assert (k ∈ @nil string) as Hin by (apply Hl; by eexists). by apply elem_of_nil in Hin. }
  destruct (proj1 (Hl e)) as [o Ho]; [by left|]. rewrite Ho. apply NoDup_cons in Hnd as [Hnin Hnd].
  revert d Hd. apply (bounded_bind (holding st) _ _ _ _ (bounded_close st e o lru Ho ltac:(split; [done|intros k'; rewrite <- Hl; set_solver]))).
  intros _. apply bounded_ret. intros d Hd. split; [split; [done|]|].
  - cbn. rewrite map_size_delete, Ho. pose proof (map_size_ne_0_lookup_2 (ps_writers st) e ltac:(rewrite Ho; by eexists)). lia.
  - intros k Hk. cbn. apply lookup_delete_None. by right.
Qed.

Lemma bounded_open st key : ps_writers st !! key = None ->
  bounded (holding st) (partition_open fault output_dir partition_by limit comp row_group_size_mb schema st key)
    (fun st' d => holding st' d /\ is_Some (ps_writers st' !! key)).
Proof.
  intros Hnone. unfold partition_open. eapply bounded_bind; [apply bounded_evict|]. intros st1.
  apply (bounded_bind _ _ _ (fun _ d => roomy st1 d /\ ps_writers st1 !! key = None)).
  { apply bounded_effect; [intros d d' Hd [? ?]; eauto|intros d [? ?]; eauto|]. intros d [? Hk]. by auto. }
  intros _ d [Hroom Hk]. pose proof (ho_lru _ _ (proj1 Hroom)) as [Hnd Hl]. revert d Hroom. eapply (bounded_bind (roomy st1)); [apply bounded_start|]. intros w. apply bounded_ret.
  intros d [Hp (Ht & Hroom & Hf)]. split; [|cbn; rewrite lookup_insert_eq; by eexists].
  split; cbn [ps_writers ps_lru]; rewrite ?map_size_insert, ?Hk; [|intros q|lia|lia].
  - split.
    + apply NoDup_app. split; [done|]. split; [|apply NoDup_singleton]. intros k Hin Hs%list_elem_of_singleton. subst.
      apply Hl in Hin. rewrite Hk in Hin. by destruct Hin.
    + intros k. rewrite elem_of_app, list_elem_of_singleton, Hl, lookup_insert_is_Some'. naive_solver.
  - specialize (Hf q). unfold writers_on in *. cbn. rewrite map_sum_fresh by done. unfold writes_to at 1. cbn. rewrite Hp. lia.
Qed.

Lemma bounded_item st it :
  bounded (holding st) (partition_item fault output_dir partition_by limit comp row_group_size_mb schema st it) holding.
Proof.
  destruct it as [key b]. unfold partition_item.
  apply (bounded_bind _ _ _ (fun st' d => holding st' d /\ is_Some (ps_writers st' !! key))).
  - destruct (ps_writers st !! key) as [o|] eqn:Ho; [|by apply bounded_open]. apply bounded_ret. intros d [[Hnd Hl] Hf Ht Hb].
    split; [|cbn; rewrite Ho; by eexists]. split; cbn [ps_writers ps_lru]; [|done..].
    split; [by rewrite lru_touch_perm|]. intros k. by rewrite lru_touch_perm.
  - intros st1 d [Hd [o Ho]]. rewrite Ho. revert d Hd. eapply (bounded_bind (holding st1)); [by apply bounded_write|].
    intros w. by apply bounded_ret.
Qed.

Lemma bounded_batch st b :
  bounded (holding st) (partition_batch fault output_dir partition_by limit comp row_group_size_mb schema st b) holding.
Proof.
  unfold partition_batch. apply (bounded_bind _ _ _ (fun _ => holding st)); [by apply bounded_pure; eauto|].
  intros items. apply bounded_fold. apply bounded_item.
Qed.

(** Closing every writer leaves the [base] handles. *)
Lemma bounded_close_all l st : l ≡ₚ map_to_list (ps_writers st) ->
  bounded (holding st) (tfold (fun _ kw => close fault (op_writer (snd kw))) l tt) (fun _ d => open_files d = base).
Proof.
  revert st. induction l as [|[k o] l IH]; intros st Hl; cbn [tfold].
  - apply bounded_ret. intros d Hd. pose proof (ho_total _ _ Hd) as Ht. rewrite <- length_map_to_list, <- Hl in Ht. cbn in Ht. lia.
  - assert (ps_writers st !! k = Some o) as Ho by (apply elem_of_map_to_list; rewrite <- Hl; by left).
    intros d Hd. pose proof (ho_lru _ _ Hd) as [Hnd Hlru]. revert d Hd.
    eapply (bounded_bind (holding st)); [apply (bounded_close st k o (filter (fun k' => k' <> k) (ps_lru st)) Ho)|].
    + split; [by apply NoDup_filter|]. intros k'. rewrite list_elem_of_filter, Hlru. done.
    + intros []. apply IH. cbn [ps_writers]. apply (Permutation_cons_inv (a := (k, o))). rewrite Hl. symmetry.
      by apply map_to_list_delete.
Qed.
End Steps.

Lemma holding_init d : open_files d = base -> holding partition_init d.
Proof.
  intros Hd. split; cbn.
  - split; [constructor|]. intros k. rewrite lookup_empty. split; [by intros ?%elem_of_nil|by intros [? ?]].
  - intros q. unfold writers_on, map_sum. cbn. rewrite map_fold_empty. lia.
  - rewrite map_size_empty. lia.
  - rewrite map_size_empty. lia.
Qed.

Definition at_base (d : PDisk) : Prop := open_files d = base.

Lemma at_base_clock d d' : pd_files d' = pd_files d -> at_base d -> at_base d'.
Proof. intros Hd. unfold at_base, open_files. by rewrite Hd. Qed.

Lemma at_base_within d : at_base d -> within d.
Proof. unfold at_base, within. lia. Qed.

Hint Resolve at_base_clock at_base_within : core.

Lemma bounded_tpure {A} (r : Result ParqknifeError A) : bounded at_base (tpure r) (fun a d => r = Ok a /\ at_base d).
Proof. intros d Hd. unfold tpure. destruct r as [a|e]; [done|by apply at_base_within]. Qed.

Lemma bounded_partition batches dir by_ compression rg :
  bounded at_base (partition_record_batches fault batches dir by_ limit compression rg) (fun _ => at_base).
Proof.
  unfold partition_record_batches. eapply bounded_bind; [apply bounded_tpure|]. intros [] d [Hc Hd]. revert d Hd.
  assert (0 < limit) as Hlimit by (unfold check_partition in Hc; repeat case_decide; [done|done|lia]).
  destruct batches as [|first rest]; [by apply (bounded_ret at_base)|].
  apply (bounded_bind at_base _ _ (fun _ => at_base)); [apply bounded_effect; eauto|]. intros [].
  apply (bounded_bind at_base _ _ (fun _ => at_base)).
  { unfold codec_of. destruct compression as [c|]; [|by apply bounded_ret]. eapply bounded_bind; [apply bounded_tpure|].
    intros a. apply bounded_ret. tauto. }
  intros comp. apply (bounded_bind _ _ _ holding).
  { intros d Hd%holding_init. revert d Hd. apply bounded_fold. intros st b. by apply bounded_batch. }
  intros st. unfold partition_close. eapply bounded_bind; [apply (bounded_close_all Hlimit _ st), hash_order_perm|]. intros u. by apply bounded_ret.
Qed.

Lemma bounded_partition_file input dir by_ compression rg :
  bounded at_base (partition_parquet_file fault input dir by_ limit compression rg) (fun _ => at_base).
Proof.
  unfold partition_parquet_file. eapply bounded_bind; [apply bounded_tpure|]. intros [] d [Hc Hd]. revert d Hd.
  apply (bounded_bind at_base _ _ (fun _ => at_base)).
  { apply bounded_effect; [eauto|eauto|]. intros d Hd. by destruct (pf_content <$> _) as [[]|]; eauto. }
  intros sb. eapply bounded_bind; [apply bounded_tpure|]. intros [] d [_ Hd]. revert d Hd.
  apply (bounded_bind at_base _ _ (fun _ => at_base)); [|intros batches; apply bounded_partition].
  apply (bounded_fold (fun _ => at_base)). intros acc b. apply (bounded_bind at_base _ _ (fun _ => at_base)); [|intros b'; by apply bounded_ret].
  apply bounded_effect; eauto.
Qed.
End OpenFiles.

Section PartitionClaims.
Context `{ParquetDisk} `{HashOrder} `{ArrowKernels} (fault : nat -> option ParqknifeError).

(** C30: However many keys occur and whichever calls fail, at most
    [max_open_partitions] output files are open at each call of a partition run: a
    run that is stopped at any of its calls, and one that ends, leaves at most that
    many more handles than there were, and a run that succeeds has closed them all.
    (A run stops at the call that fails, with the disk as it is there.)  Nothing is
    assumed of the keys, the batches or the files. *)
Theorem open_partitions_bounded batches input dir by_ max_open compression rg d0 :
  (let '(r, d) := partition_record_batches fault batches dir by_ max_open compression rg d0 in
   open_files d <= open_files d0 + max_open /\ (is_ok r = true -> open_files d = open_files d0)) /\
  (let '(r, d) := partition_parquet_file fault input dir by_ max_open compression rg d0 in
   open_files d <= open_files d0 + max_open /\ (is_ok r = true -> open_files d = open_files d0)).
Proof.
  pose proof (bounded_partition fault (open_files d0) max_open batches dir by_ compression rg d0 eq_refl) as Hb.
  pose proof (bounded_partition_file fault (open_files d0) max_open input dir by_ compression rg d0 eq_refl) as Hf.
  unfold at_base, within in *. destruct (partition_record_batches _ _ _ _ _ _ _ d0) as [[?|?] ?],
    (partition_parquet_file _ _ _ _ _ _ _ d0) as [[?|?] ?]; split; (split; [lia|done]).
Qed.

(** C29: When the keys that occur have distinct files and nobody else writes to them (keys
    of values with the unit separator may share a file), a partition run on batches of
    one schema that returns Ok has put every row into the files of its key: the parts of a key, read in order, hold exactly the rows with that key in the
    order of the batches.  Each output is a part of one key, listed once, and no
    other file was touched. *)
Theorem partition_rows_exact s batches dir by_ max_open compression rg d0 outs d' :
  Forall (fun b => batch_ok b /\ rb_schema b = s) batches -> key_files_apart dir by_ d0 (occurring by_ batches) ->
  partition_record_batches fault batches dir by_ max_open compression rg d0 = (Ok outs, d') ->
  (forall b i, b ∈ batches -> i < rb_num_rows b -> is_Some (key_at by_ b i)) /\
  exists count : string -> nat,
    (forall k, concat (map (fun i => rows_at d' (partition_file dir by_ k i)) (seq 0 (count k))) = concat (map (rows_with_key by_ k) batches)) /\
    (exists log, outs = map (fun ki => partition_file dir by_ (fst ki) (snd ki)) log /\ NoDup log /\ forall k i, (k, i) ∈ log <-> i < count k) /\
    forall q, (forall p, p ∈ outs -> canon p <> q) -> pd_files d' !! q = pd_files d0 !! q.
Proof.
  intros Hb Hap Hp. unfold partition_record_batches in Hp. tinv Hp. apply tpure_ok in Hx as [Hc ->].
  destruct batches as [|first rest] eqn:Eb.
  { tinv Hp. split; [by intros b i ?%elem_of_nil|]. exists (fun _ => 0). split; [done|]. split; [|done]. exists []. split; [done|]. split; [constructor|].
    intros k i. split; [by intros ?%elem_of_nil|lia]. }
  rewrite <- Eb in *. tinv Hp. apply create_dir_all_ok in Hx. apply codec_of_ok in Hx0 as [-> _].
  assert (0 < max_open) as Hm by (unfold check_partition in Hc; repeat case_decide; [done|done|lia]).
  assert (rb_schema first = s) as Hfirst by (rewrite Eb in Hb; apply Forall_cons in Hb as [[_ Hs] _]; exact Hs). rewrite Hfirst in *. clear Hfirst.
  destruct (partition_all_ok fault dir by_ max_open _ rg _ d0 batches Hb Hap Hm batches _ _ _ _ ltac:(done)
    (distributed_init _ _ _ _ _ _ _ Hm _ Hx) Hx1) as (items & parts & Hi & Hall & Hrows & Hkey).
  split; [exact Hkey|]. unfold partition_close in Hp. apply tbind_ok in Hp as (u & d3 & Hx0 & Hp). apply tret_ok in Hp as [-> <-].
  destruct (close_all_ok _ _ _ _ _ _ _ _ Hap Hm _ _ _ _ _ _ _ Hi (hash_order_perm _ _) Hx0) as (st' & [_ _ Hkn Hcnt Hkeys Hit Habs Hoth (log & Hlog & Hln & Hlo)] & Hw & Ho).
  exists (fun k => length (parts k)). split; [|split].
  - intros k. rewrite <- Hrows, <- Hit. destruct (decide (k ∈ occurring by_ batches)) as [Hk|Hk].
    + pose proof (Hkeys k Hk) as Hkp. rewrite Hw, lookup_empty in Hkp. cbn in Hkp.
      assert (map (fun i => rows_at d' (partition_file dir by_ k i)) (seq 0 (length (parts k))) = map (fun bs => concat (map batch_rows bs)) (parts k)) as ->.
      { apply list_eq. intros i. rewrite !list_lookup_fmap. destruct (parts k !! i) as [bs|] eqn:Hbs.
        - rewrite lookup_seq_lt by by eapply lookup_lt_Some. cbn. unfold rows_at, batches_at. by rewrite (Hkp i bs Hbs).
        - apply lookup_ge_None in Hbs. by rewrite lookup_seq_ge. }
      clear. induction (parts k) as [|bs l IH]; [done|]. cbn. by rewrite map_app, concat_app, IH.
    + by rewrite (Habs k Hk).
  - exists log. rewrite <- Ho. done.
  - intros q Hq. apply Hoth. intros k i Hk Hi'. apply Hq. rewrite <- Ho, Hlog. apply list_elem_of_fmap. exists (k, i). split; [done|]. by apply Hlo.
Qed.

(** ** When a partition run succeeds *)

(** The columns exist and hold texts, or nothing. *)
Definition partitionable (cols : list string) (b : RecordBatch) : Prop :=
  rb_num_rows b = 0 \/
  Forall (fun c => exists a, column_by_name b c = Some a /\
            ((exists l, a = StringArray l) \/ forall i, i < rb_num_rows b -> is_null a i = true)) cols.

Lemma key_part_ok a i : is_ok (key_part i a) = true <-> is_null a i = true \/ exists l, a = StringArray l.
Proof.
  unfold key_part, array_value_at. destruct (is_null a i); [by split; [left|]|]. split.
  - intros Ho. right. destruct a as [l|l|l|l|l|l|dt l]; try done; [by exists l|]. cbn in Ho. by case_decide.
  - intros [?|[l ->]]; [done|]. cbn. by destruct (mjoin _).
Qed.

Lemma try_map_all {E A B} (f : A -> Result E B) l : is_ok (try_map f l) = true <-> Forall (fun a => is_ok (f a) = true) l.
Proof.
  induction l as [|a l IH]; cbn [try_map]; [done|]. rewrite Forall_cons, <- IH. destruct (f a); cbn; [|by split; [|intros [? _]]].
  destruct (try_map f l); cbn; tauto.
Qed.

Lemma row_key_ok arrays i : is_ok (row_key arrays i) = true <-> Forall (fun a => is_null a i = true \/ exists l, a = StringArray l) arrays.
Proof.
  unfold row_key. transitivity (is_ok (try_map (key_part i) arrays) = true); [by destruct (try_map _ _)|].
  rewrite try_map_all. apply Forall_iff. intros a. apply key_part_ok.
Qed.

Lemma partition_arrays_columns b cols arrays : partition_arrays b cols = Ok arrays -> Forall2 (fun c a => column_by_name b c = Some a) cols arrays.
Proof.
  intros Ha. apply try_map_Ok in Ha. eapply Forall2_impl; [exact Ha|]. intros c a Hca. cbn in Hca. destruct (column_by_name b c); [|done]. by injection Hca as ->.
Qed.

Lemma partition_keys_runs b cols : batch_ok b -> is_ok (partition_keys b cols) = true <-> partitionable cols b.
Proof.
  intros Hb. unfold partition_keys, partitionable. destruct (rb_num_rows b) as [|n0] eqn:En; [by split; [left|]|]. rewrite <- En. split.
  - intros Ho. right. destruct (partition_arrays b cols) as [arrays|] eqn:Ea; [|done]. cbn [mbind Result_bind] in Ho.
    destruct (group_rows arrays _) as [groups|] eqn:Eg; [|done]. destruct (group_rows_ok _ _ _ Eg) as (_ & _ & _ & Hrow).
    apply partition_arrays_columns in Ea. apply Forall_forall. intros c Hc. apply list_elem_of_lookup in Hc as [j Hj].
    destruct (Forall2_lookup_l _ _ _ _ _ Ea Hj) as (a & Haj & Hca). exists a. split; [done|]. destruct a as [l|l|l|l|l|l|dt l]; try (left; by eexists); right;
      intros i Hi; specialize (Hrow i Hi); apply row_key_ok in Hrow; rewrite Forall_lookup in Hrow; by destruct (Hrow j _ Haj) as [?|[? ?]].
  - intros [?|Hc]; [lia|]. assert (is_ok (partition_arrays b cols) = true) as Ho.
    { apply try_map_all. eapply Forall_impl; [exact Hc|]. by intros c (a & -> & _). }
    destruct (partition_arrays b cols) as [arrays|] eqn:Ea; [|done]. cbn [mbind Result_bind]. apply partition_arrays_columns in Ea.
    assert (is_ok (group_rows arrays (rb_num_rows b)) = true) as Hg.
    { apply group_rows_runs. intros i Hi. apply row_key_ok. rewrite Forall_lookup. rewrite Forall_lookup in Hc. intros j a Haj.
      destruct (Forall2_lookup_r _ _ _ _ _ Ea Haj) as (c & Hcj & Hca). destruct (Hc j c Hcj) as (a' & Ha' & Hs). rewrite Hca in Ha'. injection Ha' as <-.
      destruct Hs; [by right|left; auto]. }
    destruct (group_rows arrays _) as [groups|] eqn:Eg; [|done]. cbn [mbind Result_bind]. apply try_map_all, Forall_forall. intros kr _.
    destruct (k_filter_spec b (map (fun i => Some (bool_decide (i ∈ snd kr))) (seq 0 (rb_num_rows b))) Hb) as (f & -> & _); [by rewrite length_map, length_seq|done].
Qed.

Section PartitionReturns.
Context (Hnf : forall n, fault n = None) (dir : string) (by_ : list string) (max_open : nat) (comp : option Codec) (rg : option Z) (schema : Schema)
  (Hrg : row_group_ok rg).

Lemma partition_open_returns st key : returns (partition_open fault dir by_ max_open comp rg schema st key).
Proof.
  unfold partition_open. apply returns_bind.
  - unfold partition_evict. case_decide; [|eauto with runs]. destruct (ps_lru st) as [|e lru]; [eauto with runs|]. destruct (_ !! e); eauto with runs.
  - intros st'. eauto 8 with runs.
Qed.

(** The open writers have the schema of the run. *)
Definition writers_fit (st : PartitionState) : Prop := map_Forall (fun _ o => wr_schema (op_writer o) = schema) (ps_writers st).

Lemma partition_open_fits st key d st' d' : writers_fit st -> partition_open fault dir by_ max_open comp rg schema st key d = (Ok st', d') ->
  writers_fit st' /\ is_Some (ps_writers st' !! key).
Proof.
  intros Hf Ho. unfold partition_open in Ho. apply tbind_ok in Ho as (s1 & d1 & Hev & Ho). assert (writers_fit s1) as Hf1.
  { unfold partition_evict in Hev. case_decide; [|by apply tret_ok in Hev as [-> _]]. destruct (ps_lru st) as [|e lru]; [by apply tret_ok in Hev as [-> _]|].
    destruct (ps_writers st !! e); [apply tbind_ok in Hev as (? & ? & _ & Hev)|]; apply tret_ok in Hev as [-> _]; unfold writers_fit; cbn [ps_writers]; [by apply map_Forall_delete|done]. }
  apply tbind_ok in Ho as (? & ? & _ & Ho). apply tbind_ok in Ho as (w & d3 & Hx0 & Ho). apply tret_ok in Ho as [-> _]. unfold writers_fit. cbn [ps_writers]. split; [|rewrite lookup_insert_eq; by eexists].
  apply map_Forall_insert_2; [|done]. cbn. unfold start_file in Hx0. tinv Hx0. by apply writer_new_ok in Hx0 as [-> _].
Qed.

Lemma partition_item_runs st it d : writers_fit st -> rb_schema (snd it) = schema -> exists st' d',
  partition_item fault dir by_ max_open comp rg schema st it d = (Ok st', d') /\ writers_fit st'.
Proof.
  intros Hf Hs. destruct it as [key b]. cbn [snd] in Hs. unfold partition_item.
  assert (exists st1 d1 o, (match ps_writers st !! key with
    | None => partition_open fault dir by_ max_open comp rg schema st key
    | Some _ => mret {| ps_writers := ps_writers st; ps_lru := lru_touch key (ps_lru st); ps_outputs := ps_outputs st; ps_part_counters := ps_part_counters st |}
    end) d = (Ok st1, d1) /\ writers_fit st1 /\ ps_writers st1 !! key = Some o) as (st1 & d1 & o & Hst1 & Hf1 & Ho).
  { destruct (ps_writers st !! key) as [o|] eqn:Ho; [by eexists _, d, o|]. pose proof (partition_open_returns st key d) as Hr.
    destruct (partition_open _ _ _ _ _ _ _ _ _ _) as [[st1|] d1] eqn:Eo; [|done]. apply partition_open_fits in Eo as [Hf1 [o Ho1]]; [|done]. eauto 10. }
  unfold mbind at 1, TM_bind at 1. rewrite Hst1, Ho. unfold mbind at 1, TM_bind at 1, write_batch. rewrite effect_runs by done.
  rewrite (Hf1 key o Ho), <- Hs, pq_write_same, Hs. cbn. eexists _, _. split; [done|]. unfold writers_fit. cbn [ps_writers].
  apply map_Forall_insert_2; [|done]. cbn. done.
Qed.
End PartitionReturns.

(** When no call fails, partitioning batches of one schema succeeds exactly when there
    are partition columns, the bound on open files is positive, the compression is known and
    every batch has the columns with texts only. *)
Theorem partition_succeeds_iff s batches dir by_ max_open compression rg d0 :
  (forall n, fault n = None) -> Forall (fun b => batch_ok b /\ rb_schema b = s) batches -> row_group_ok rg ->
  is_ok (fst (partition_record_batches fault batches dir by_ max_open compression rg d0)) = true <->
  by_ <> [] /\ max_open <> 0 /\ (batches = [] \/ (codec_known compression /\ Forall (partitionable by_) batches)).
Proof.
  intros Hnf Hb Hrg. unfold partition_record_batches, check_partition. unfold mbind at 1, TM_bind at 1. case_decide as Hby; [cbn; split; [done|tauto]|].
  case_decide as Hm; [cbn; split; [done|tauto]|]. cbn. destruct batches as [|first rest] eqn:Eb; [cbn; tauto|]. rewrite <- Eb in *.
  assert (batches <> []) as Hne by by rewrite Eb. assert (rb_schema first = s) as -> by (rewrite Eb in Hb; apply Forall_cons in Hb as [[_ Hs] _]; exact Hs). clear Eb first rest.
  unfold mbind at 1, TM_bind at 1, create_dir_all. rewrite effect_runs by done. cbn. set (d1 := {| pd_files := _ |}). clearbody d1. split.
  - intros Ho. apply ran_ok in Ho as (outs & d' & Ho). tinv Ho. apply codec_of_ok in Hx as [_ Hc]. split; [done|]. split; [done|]. right. split.
    { unfold codec_known. destruct compression; [|done]. by destruct Hc as (k & -> & _). }
    eapply (tfold_inv (fun dn st d => Forall (partitionable by_) dn)) with (dn := []) in Hx0; [exact Hx0| |done].
    intros dn b st e st' e' Hin Hdn Hr. apply Forall_app_2; [done|]. constructor; [|done]. unfold partition_batch in Hr. tinv Hr.
    apply tstop_ok in Hx as [Hk _]. rewrite Forall_forall in Hb. apply partition_keys_runs; [by apply Hb|]. by rewrite Hk.
  - intros (_ & _ & [?|[Hc Hp]]); [done|]. destruct (codec_of_runs compression d1 Hc) as [comp Hcomp]. unfold mbind at 1, TM_bind at 1. rewrite Hcomp.
    match goal with |- is_ok (fst ((x ← ?m; _) d1)) = _ => assert (is_ok (fst (m d1)) = true) as Hr end.
    { destruct (tfold_runs (fun st _ => writers_fit s st) (partition_batch fault dir by_ max_open comp rg s) batches partition_init d1) as (st & d & -> & _);
        [by apply map_Forall_empty| |done]. intros b st d Hin Hf. rewrite Forall_forall in Hb, Hp. destruct (Hb b Hin) as [Hok Hs].
      specialize (Hp b Hin). apply (partition_keys_runs b by_ Hok) in Hp. unfold partition_batch. destruct (partition_keys b by_) as [items|] eqn:Ek; [|done].
      destruct (partition_keys_ok b by_ items Hok Ek) as (_ & Hall & _). rewrite Forall_forall in Hall. unfold mbind, TM_bind, tstop. apply tfold_runs; [done|].
      intros it st' e Hit Hf'. apply partition_item_runs; [done..|]. destruct (Hall it Hit) as [_ ->]. done. }
    unfold mbind at 1, TM_bind at 1. destruct (tfold _ batches _ _) as [[st|] d']; [|done].
    assert (returns (partition_close fault st)) as Hcl by (unfold partition_close; eauto with runs). apply Hcl.
Qed.
End PartitionClaims.

(** * Encoded values *)

(** Reading an encoded value back. *)
Fixpoint unescape (s : string) : string :=
  match s with
  | EmptyString => EmptyString
  | String c rest =>
      if decide (c = "\"%char) then
        match rest with
        | String d rest' => String (if decide (d = "0"%char) then "000"%char else d) (unescape rest')
        | EmptyString => s
        end
      else String c (unescape rest)
  end.

Definition decode_partition_value (text : string) : option string :=
  if decide (text = HIVE_DEFAULT_PARTITION) then None
  else match strip_prefix ESCAPE_PREFIX text with
       | Some rest => if decide (rest = HIVE_DEFAULT_PARTITION) then Some rest
                      else if has_char "\" rest then Some (unescape rest) else Some text
       | None => Some text
       end.

Definition escaped_char (c : ascii) : string :=
  if decide (c = "\"%char) then "\\" else if decide (c = "/"%char) then "\/" else if decide (c = "000"%char) then "\0" else String c EmptyString.

Fixpoint escaped (s : string) : string := match s with EmptyString => EmptyString | String c s => escaped_char c +:+ escaped s end.

Lemma replace_char_app c t a b : replace_char c t (a +:+ b) = replace_char c t a +:+ replace_char c t b.
Proof. induction a as [|d a IH]; sapp; [done|]. cbn [replace_char]. by rewrite IH, app_assoc_string. Qed.

Lemma escapes s : replace_char "000" "\0" (replace_char "/" "\/" (replace_char "\" "\\" s)) = escaped s.
Proof.
  induction s as [|c s IH]; [done|]. cbn [escaped replace_char]. rewrite !replace_char_app, IH. f_equal. unfold escaped_char.
  destruct (decide (c = "\"%char)) as [->|]; [done|]. cbn [replace_char]. rewrite app_nil_string.
  destruct (decide (c = "/"%char)) as [->|]; [done|]. cbn [replace_char]. rewrite app_nil_string. by case_decide.
Qed.

Lemma unescape_escaped s : unescape (escaped s) = s.
Proof.
  induction s as [|c s IH]; [done|]. cbn [escaped]. unfold escaped_char. destruct (decide (c = "\"%char)) as [->|]; [sapp; cbn; by rewrite IH|].
  destruct (decide (c = "/"%char)) as [->|]; [sapp; cbn; by rewrite IH|]. destruct (decide (c = "000"%char)) as [->|]; [sapp; cbn; by rewrite IH|].
  sapp. cbn [unescape]. rewrite decide_False by done. by rewrite IH.
Qed.

Lemma escaped_has s : has_char "/" s || has_char "\" s || has_char "000" s = true -> has_char "\" (escaped s) = true.
Proof.
  induction s as [|c s IH]; [done|]. cbn [has_char escaped]. rewrite has_char_app. intros Hc. unfold escaped_char.
  destruct (decide (c = "\"%char)) as [->|H1]; [done|]. destruct (decide (c = "/"%char)) as [->|H2]; [done|].
  destruct (decide (c = "000"%char)) as [->|H3]; [done|]. do 3 rewrite bool_decide_eq_false_2 in Hc by (intros <-; done). rewrite (IH Hc). apply orb_true_r.
Qed.

(** The one value whose encoding another value has. *)
Definition reserved : string := ESCAPE_PREFIX +:+ HIVE_DEFAULT_PARTITION.

(** Every value but one literal text, null included, can be read back from its
    directory name. *)
Lemma encode_decode_partition raw : raw <> Some reserved -> decode_partition_value (encode_partition_value raw) = raw.
Proof.
  intros Hr. unfold encode_partition_value. destruct raw as [s|]; [|reflexivity]. case_decide as Eh; [subst; reflexivity|].
  destruct (has_char "/" s || has_char "\" s || has_char "000" s) eqn:Eesc.
  - rewrite escapes. unfold decode_partition_value. pose proof (escaped_has s Eesc) as Hb. rewrite decide_False; [|discriminate].
    rewrite strip_prefix_app, decide_False, Hb, unescape_escaped; [done|]. by intros He; rewrite He in Hb.
  - unfold decode_partition_value. rewrite decide_False by done. destruct (strip_prefix ESCAPE_PREFIX s) as [rest|] eqn:Es; [|done].
    apply strip_prefix_inv in Es. subst s. rewrite decide_False by (intros ->; by apply Hr). apply orb_false_iff in Eesc as [Eesc _].
    apply orb_false_iff in Eesc as [_ Eesc]. rewrite has_char_app in Eesc. apply orb_false_iff in Eesc as [_ ->]. done.
Qed.

(** ** Keys *)

Lemma split_join c parts : parts <> [] -> Forall (fun p => has_char c p = false) parts ->
  split_char c (join_strings (String c EmptyString) parts) = parts.
Proof.
  induction parts as [|p parts IH]; intros Hne Hf; [done|]. apply Forall_cons in Hf as [Hp Hf]. destruct parts as [|q parts].
  - by apply split_char_no.
  - change (join_strings (String c EmptyString) (p :: q :: parts)) with (p +:+ String c EmptyString +:+ join_strings (String c EmptyString) (q :: parts)).
    sapp. rewrite split_char_cons by done. f_equal. by apply IH.
Qed.

(** The values of the partition columns in a row. *)
Definition partition_value (row : nat) (a : Array) : option string := match cell a row with VStr s => Some s | _ => None end.

(** Values that a key keeps apart: no separator in them, and not the literal that
    stands for another value. *)
Definition separable (v : option string) : Prop := match v with Some s => has_char unit_separator s = false /\ s <> reserved | None => True end.

Lemma encode_no_separator v : separable v -> has_char unit_separator (encode_partition_value v) = false.
Proof.
  unfold encode_partition_value. destruct v as [s|]; [|done]. intros [Hs _]. case_decide; [done|]. destruct (_ || _); [|done]. rewrite escapes, has_char_app.
  apply orb_false_iff. split; [done|]. clear -Hs. induction s as [|c s IH]; [done|]. cbn [has_char] in Hs. apply orb_false_iff in Hs as [Hc Hs].
  cbn [escaped]. rewrite has_char_app, IH by done. rewrite orb_false_r. unfold escaped_char. 
  destruct (decide (c = "\"%char)); [done|]. destruct (decide (c = "/"%char)); [done|]. destruct (decide (c = "000"%char)); [done|].
  cbn [has_char]. by rewrite Hc.
Qed.

Lemma key_part_value i a p : key_part i a = Ok p -> p = encode_partition_value (partition_value i a).
Proof.
  unfold key_part, array_value_at. destruct (is_null a i) eqn:En.
  - intros [= <-]. unfold is_null in En. unfold partition_value. by destruct (cell a i).
  - destruct a as [l|l|l|l|l|l|dt l]; try done; cbn [array_type mbind Result_bind]; [|by case_decide].
    unfold is_null in En. unfold partition_value. cbn [cell] in *. unfold cell_of in *. destruct (mjoin _); [|done]. by intros [= <-].
Qed.

Lemma row_key_values arrays i k : row_key arrays i = Ok k ->
  k = join_strings (String unit_separator EmptyString) (map (fun a => encode_partition_value (partition_value i a)) arrays).
Proof.
  unfold row_key. destruct (try_map (key_part i) arrays) as [parts|] eqn:Ep; [|done]. intros [= <-]. f_equal. apply try_map_Ok in Ep.
  induction Ep as [|a p arrays parts Ha _ IH]; [done|]. cbn [map]. f_equal; [by apply key_part_value|done].
Qed.

(** C31: Rows with one key have the same values in the partition columns. *)
Theorem equal_keys_equal_values cols b b' i j k : cols <> [] -> key_at cols b i = Some k -> key_at cols b' j = Some k ->
  exists arrays arrays', partition_arrays b cols = Ok arrays /\ partition_arrays b' cols = Ok arrays' /\
    (Forall separable (map (partition_value i) arrays) -> Forall separable (map (partition_value j) arrays') ->
     map (partition_value i) arrays = map (partition_value j) arrays').
Proof.
  intros Hne Hk Hk'. unfold key_at in *. destruct (partition_arrays b cols) as [arrays|] eqn:Ea; [|done].
  destruct (partition_arrays b' cols) as [arrays'|] eqn:Ea'; [|done]. exists arrays, arrays'. split; [done|]. split; [done|]. intros Hs Hs'.
  destruct (row_key arrays i) as [k1|] eqn:E1; [|done]. destruct (row_key arrays' j) as [k2|] eqn:E2; [|done]. injection Hk as ->. injection Hk' as ->.
  apply row_key_values in E1, E2. apply partition_arrays_columns, Forall2_length in Ea, Ea'. rewrite E1 in E2. apply (f_equal (split_char unit_separator)) in E2.
  assert (forall l n, length cols = length l -> Forall separable (map (partition_value n) l) ->
    split_char unit_separator (join_strings (String unit_separator EmptyString) (map (fun a => encode_partition_value (partition_value n a)) l)) =
    map (fun a => encode_partition_value (partition_value n a)) l) as Hsplit.
  { intros l n Hl Hsep. apply split_join; [destruct l, cols; done|]. rewrite Forall_map in *. eapply Forall_impl; [exact Hsep|]. intros a. apply encode_no_separator. }
  rewrite !Hsplit in E2 by done. apply (f_equal (map decode_partition_value)) in E2. rewrite !map_map in E2.
  assert (forall l n, Forall separable (map (partition_value n) l) ->
    map (fun a => decode_partition_value (encode_partition_value (partition_value n a))) l = map (partition_value n) l) as Hdec.
  { intros l n Hsep. apply map_ext_in. intros a Hin%list_elem_of_In. rewrite Forall_map, Forall_forall in Hsep. apply encode_decode_partition.
    specialize (Hsep a Hin). cbn in Hsep. destruct (partition_value n a) as [s|]; [|done]. intros [= ->]. by destruct Hsep. }
  by rewrite !Hdec in E2.
Qed.

(** * Names of parts *)

Lemma digits_run_count s acc n m : fst (fst (digits_run s acc n)) = fst (fst (digits_run s acc m)).
Proof. revert acc n m. induction s as [|c s IH]; intros acc n m; [done|]. cbn. destruct (digit_value c); [apply IH|done]. Qed.

Lemma digits_of_zeros k n s : fst (fst (digits_run (zeros k +:+ s) 0 n)) = fst (fst (digits_run s 0 n)).
Proof.
  revert n. induction k as [|k IH]; intros n; [done|]. cbn [zeros]. sapp.
  change (digits_run (String "0" (zeros k +:+ s)) 0 n) with (digits_run (zeros k +:+ s) 0 (S n)). rewrite IH. apply digits_run_count.
Qed.

Lemma digits_of_pretty (n : nat) rest : (forall v k, digits_run rest v k = (v, k, rest)) -> fst (fst (digits_run (pretty n +:+ rest) 0 0)) = Z.of_nat n.
Proof.
  intros Hr. change (pretty n) with (pretty (N.of_nat n)). destruct (digits_run_pretty (N.of_nat n)) as [k Hk].
  rewrite (digits_run_tail _ _ _ _ _ _ Hk), Hr. cbn. lia.
Qed.

Lemma pad_inj (w i j : nat) rest : (forall v k, digits_run rest v k = (v, k, rest)) ->
  zeros (w - String.length (pretty i)) +:+ pretty i +:+ rest = zeros (w - String.length (pretty j)) +:+ pretty j +:+ rest -> i = j.
Proof.
  intros Hr He. apply (f_equal (fun s => fst (fst (digits_run s 0 0)))) in He. rewrite !digits_of_zeros, !digits_of_pretty in He by done. lia.
Qed.

Lemma pad4_zeros n : pad4 n = zeros (4 - String.length (pretty n)) +:+ pretty n.
Proof. unfold pad4. f_equal. Qed.

Lemma path_join_inj base p q : is_absolute p = false -> is_absolute q = false -> path_join base p = path_join base q -> p = q.
Proof.
  unfold path_join. intros -> ->. case_decide; [done|]. destruct (ends_with_char _ _); intros He; [by apply (inj _) in He|].
  apply (inj _) in He. by injection He.
Qed.

Lemma part_file_inj dir base i j : is_absolute base = false -> base <> EmptyString -> part_file dir base i = part_file dir base j -> i = j.
Proof.
  intros Hb Hne He. unfold part_file in He. apply path_join_inj in He; [|by rewrite is_absolute_app..]. apply (inj _) in He. injection He as He.
  rewrite !pad4_zeros, !app_assoc_string in He. apply (pad_inj 4 i j ".parquet"); [done|exact He].
Qed.

Lemma partition_file_inj dir by_ k i j : partition_file dir by_ k i = partition_file dir by_ k j -> i = j.
Proof.
  intros He. unfold partition_file in He. apply path_join_inj in He; [|done..]. injection He as He. unfold pad5 in He. rewrite !app_assoc_string in He.
  apply (pad_inj 5 i j ".parquet"); [done|exact He].
Qed.
