(* ===== verification/TransformPlan.v ===== *)
(** Transform specifications: their types and checks, the plan they compile to and
    its execution, on local files and on storage (spec/types.rs, parse.rs, plan.rs,
    execute.rs, fused_execute.rs, storage_routing.rs, remote.rs, columnar_io.rs and
    io/mod.rs of src/crates/parqonaut-transform/src, the stages of
    src/crates/parqonaut-columnar/src/pipeline and transform_plan.rs of
    src/crates/parqonaut-workflow/src).

    Not in the repository, hence parameters: the [glob] crate and what the file
    system says of a path ([PlanEnv]), the texts of the deserializers
    ([SpecFormats]) and the build's [s3] feature. *)

From Stdlib Require Import Ascii.
From S2P Require Import Prelude BTree TypeUnify RustNum Location ScanInfer ScanEngine RepairExec Execute StreamFs StreamColumns StreamColumnsProofs StreamPipeline.
From S2P Require Import TransformFilter TransformOps TransformFiles TransformFilesProofs.

(** * Specifications (types.rs) *)

Record SchemaOps := { so_rename : option (gmap string string); so_cast : option (gmap string string) }.

(** [Compression] of types.rs has the same values. *)
Definition to_parquet_compression (c : Codec) : Codec := c.

Inductive Operation :=
| ORewrite (compression : option Codec) (row_group_size_mb : option Z) (projection : option (list string)) (filter : option string)
    (schema : option SchemaOps) (metadata : option (gmap string string)) (rebuild_stats : bool)
| OPartition (partition_by : list string)
| OMerge (row_group_size_mb : option Z)
| OSplit (target_size_mb : option Z) (target_row_groups : option Z).

Record StepOptions := { so_dry_run : bool }.
Record Step := { sp_operation : Operation; sp_options : StepOptions }.

Record Options := {
  sx_concurrency : Z;
  sx_batch_rows : option Z;
  sx_batch_bytes : option Z;
  sx_fail_fast : bool;
  sx_atomic : bool;
  sx_overwrite : bool;
}.

(** [num_cpus] is the machine's. *)
Definition options_default (num_cpus : Z) : Options :=
  {| sx_concurrency := num_cpus; sx_batch_rows := None; sx_batch_bytes := None; sx_fail_fast := false; sx_atomic := true; sx_overwrite := false |}.

Record Spec := {
  sc_schema_version : Z;
  sc_input : option string;
  sc_output : option string;
  sc_steps : list Step;
  sc_options : Options;
}.

Definition TRANSFORM_SPEC_SCHEMA_VERSION : Z := 1.

(** ** Parsing (parse.rs) *)

(** [serde_yaml::from_str] and [serde_json::from_str]. *)
Class SpecFormats := {
  yaml_spec : string -> Result string Spec;
  json_spec : string -> Result string Spec;
}.

(** [parse_spec] on the outcome of reading the file. *)
Definition parse_spec `{SpecFormats} (path : string) (content : Result string string) : Result ParqknifeError Spec :=
  content ← map_err PIo content;
  let yaml := map_err (fun e => PSpecError ("YAML parse error: " +:+ e)) (yaml_spec content) in
  spec ← match path_extension path with
         | Some ext =>
             if decide (ext = "yaml" \/ ext = "yml") then yaml
             else if decide (ext = "json") then map_err (fun e => PSpecError ("JSON parse error: " +:+ e)) (json_spec content)
             else Err (PSpecError "Spec file must have .yaml, .yml, or .json extension")
         | None => Err (PSpecError "Spec file must have .yaml, .yml, or .json extension")
         end;
  if decide (sc_schema_version spec <> TRANSFORM_SPEC_SCHEMA_VERSION) then
    Err (PSpecError ("unsupported schema-version " +:+ i64_to_string (sc_schema_version spec) +:+ " (expected "
                     +:+ i64_to_string TRANSFORM_SPEC_SCHEMA_VERSION +:+ ")"))
  else Ok spec.

Definition or_else {A} (a b : option A) : option A := match a with Some _ => a | None => b end.

Definition merge_spec_with_cli (spec cli_overrides : Spec) : Spec :=
  {| sc_schema_version := sc_schema_version spec;
     sc_input := or_else (sc_input cli_overrides) (sc_input spec);
     sc_output := or_else (sc_output cli_overrides) (sc_output spec);
     sc_steps := match sc_steps cli_overrides with [] => sc_steps spec | l => l end;
     sc_options :=
       let c := sc_options cli_overrides in let s := sc_options spec in
       {| sx_concurrency := Z.max (sx_concurrency c) (sx_concurrency s);
          sx_batch_rows := or_else (sx_batch_rows c) (sx_batch_rows s);
          sx_batch_bytes := or_else (sx_batch_bytes c) (sx_batch_bytes s);
          sx_fail_fast := sx_fail_fast c || sx_fail_fast s;
          sx_atomic := sx_atomic c || sx_atomic s;
          sx_overwrite := sx_overwrite c || sx_overwrite s |} |}.

(** * Plans (plan.rs) *)

Inductive StorageKind := KLocal | KS3.

Record ResolvedStep := {
  rs_index : nat;
  rs_operation : Operation;
  rs_inputs : list string;
  rs_output : string;
  rs_is_intermediate : bool;
  rs_storage : StorageKind;
}.

Inductive FusedOperation :=
| FuRewrite (compression : option Codec) (row_group_size_mb : option Z) (projection : option (list string)) (filter : option string)
    (rename cast : option (gmap string string)) (rebuild_stats : bool)
| FuPartition (partition_by : list string)
| FuMerge (row_group_size_mb : option Z).

Record FusedPlanSegment := {
  fu_step_indices : list nat;
  fu_inputs : list string;
  fu_output : string;
  fu_ops : list FusedOperation;
  fu_is_intermediate : bool;
  fu_storage : StorageKind;
}.

Record BarrierPlanSegment := { ba_reason : string; ba_step : ResolvedStep }.

Inductive CompiledSegment := Fused (f : FusedPlanSegment) | Barrier (b : BarrierPlanSegment).

(** The stages of src/crates/parqonaut-columnar/src/pipeline/stages.rs. *)
Inductive SinkKind := SingleParquet | PartitionedDirectory | MultiFileDirectory.
Inductive PipelineStage :=
| StSource (label : string) (inputs : list string)
| StTransform (label : string) (transforms : list string)
| StSink (label output : string) (kind : SinkKind)
| StBarrier (reason : string) (materializes_intermediate : bool).

Record ExecutablePlan := {
  xp_execution_id : string;
  xp_schema_version : Z;
  xp_original_input : string;
  xp_final_output : string;
  xp_overwrite : bool;
  xp_steps : list ResolvedStep;
  xp_intermediate_roots : list string;
  xp_segments : list CompiledSegment;
  xp_pipeline : list PipelineStage;
}.

Definition fully_streamable (p : ExecutablePlan) : bool :=
  bool_decide (xp_intermediate_roots p = []) && forallb (fun s => match s with Fused _ => true | Barrier _ => false end) (xp_segments p).

(** The contract of src/crates/parqonaut-workflow/src/transform_plan.rs. *)
Inductive TransformOperation :=
| CRewrite (compression : option string) (row_group_size_mb : option Z)
| CPartition (columns : list string)
| CMerge (row_group_size_mb : option Z)
| CSplit (target_size_mb target_row_groups : option Z).

Record TransformPlan := { tp_schema_version : Z; tp_input : string; tp_output : string; tp_steps : list TransformOperation }.

(** [format!(`{c:?}`).to_lowercase()]. *)
Definition codec_debug (c : Codec) : string :=
  match c with
  | CUncompressed => "uncompressed" | CSnappy => "snappy" | CGzip => "gzip" | CLzo => "lzo" | CBrotli => "brotli"
  | CLz4 => "lz4" | CZstd => "zstd" | CLz4Raw => "lz4raw"
  end.

Definition operation_to_contract (op : Operation) : TransformOperation :=
  match op with
  | ORewrite compression rg _ _ _ _ _ => CRewrite (codec_debug <$> compression) rg
  | OPartition columns => CPartition columns
  | OMerge rg => CMerge rg
  | OSplit mb groups => CSplit mb groups
  end.

Definition to_transform_plan (p : ExecutablePlan) : TransformPlan :=
  {| tp_schema_version := xp_schema_version p; tp_input := xp_original_input p; tp_output := xp_final_output p;
     tp_steps := map (fun s => operation_to_contract (rs_operation s)) (xp_steps p) |}.

Definition storage_kind (path : string) : StorageKind := if starts_with "s3://" path then KS3 else KLocal.

(** The [glob] crate and the file system: [glob] of a pattern without
    metacharacters is the path itself when something is there. *)
Definition has_meta (p : string) : bool := has_char "*" p || has_char "?" p || has_char "[" p.

Class PlanEnv := {
  glob : string -> PDisk -> Result string (list (Result string string));
  entry_exists : string -> PDisk -> bool;
  is_file : string -> PDisk -> bool;
  dir_has_entries : string -> PDisk -> bool;  (** a directory that can be read and is not empty *)
  glob_literal : forall p d, has_meta p = false -> glob p d = Ok (if entry_exists p d then [Ok p] else []);
}.

Definition is_barrier_operation (op : Operation) : bool := match op with OSplit _ _ => true | _ => false end.

Definition barrier_reason (op : Operation) : option string :=
  match op with
  | OSplit _ _ => Some "split requires row-group size accounting and multi-file emission; not stream-fusible in v0.9"
  | _ => None
  end.

Definition operation_to_fused (op : Operation) : Result ParqknifeError FusedOperation :=
  match op with
  | ORewrite compression rg projection filter schema metadata rebuild_stats =>
      match metadata with
      | Some _ => Err (PSpecError "rewrite metadata updates require a materialized barrier step")
      | None => Ok (FuRewrite compression rg projection filter (schema ≫= so_rename) (schema ≫= so_cast) rebuild_stats)
      end
  | OPartition partition_by => Ok (FuPartition partition_by)
  | OMerge rg => Ok (FuMerge rg)
  | OSplit _ _ => Err (PSpecError "split is not fusible")
  end.

Definition sink_kind_for_ops (ops : list FusedOperation) : SinkKind :=
  match last ops with
  | Some (FuPartition _) => PartitionedDirectory
  | Some (FuMerge _) => MultiFileDirectory
  | _ => SingleParquet
  end.

Definition fused_op_label (op : FusedOperation) : string :=
  match op with
  | FuRewrite _ _ _ _ _ _ _ => "rewrite"
  | FuPartition partition_by => "partition(" +:+ join_strings "," partition_by +:+ ")"
  | FuMerge _ => "merge"
  end.

Definition validate_step (op : Operation) (inputs : list string) (output : string) : Result ParqknifeError unit :=
  match op with
  | ORewrite _ _ _ _ _ _ _ => if decide (inputs = []) then Err (PSpecError "rewrite requires inputs") else Ok tt
  | OPartition partition_by =>
      if decide (partition_by = []) then Err (PSpecError "partition-by required")
      else if decide (length inputs <> 1) then Err (PSpecError "partition requires exactly one Parquet input") else Ok tt
  | OMerge _ => if decide (inputs = []) then Err (PSpecError "merge requires inputs") else Ok tt
  | OSplit _ _ => if decide (length inputs <> 1) then Err (PSpecError "split requires exactly one Parquet input") else Ok tt
  end ;;
  if decide (trim output = EmptyString) then Err (PSpecError "step output path required") else Ok tt.

Definition validate_spec (spec : Spec) : Result ParqknifeError unit :=
  if decide (sc_steps spec = []) then Err (PSpecError "spec must contain at least one step")
  else
    ok_or (sc_input spec) (PSpecError "input is required") ;;
    ok_or (sc_output spec) (PSpecError "output is required") ;;
    if existsb (fun s => match sp_operation s with OPartition [] => true | _ => false end) (sc_steps spec)
    then Err (PSpecError "partition-by required") else Ok tt.

(** [path_exists_nonempty]. *)
Definition path_exists_nonempty `{PlanEnv} (path : string) (d : PDisk) : bool := is_file path d || dir_has_entries path d.

(** [{idx:03}]. *)
Definition pad3 (n : nat) : string := let t := pretty n in zeros (3 - String.length t) +:+ t.

(** The file names of the inputs below a directory. *)
Definition outputs_below (output : string) (inputs : list string) : list string :=
  map (fun inp => path_join output (default "out.parquet" (file_name inp))) inputs.

Definition merged_output (output : string) : list string :=
  match path_extension output with Some _ => [output] | None => [path_join output "merged.parquet"] end.

Section Compile.
Context `{UrlParser} `{PlanEnv} (d : PDisk).

(** [resolve_inputs] of io/mod.rs. *)
Definition resolve_inputs (pattern : string) : Result ParqknifeError (list string) :=
  if starts_with "s3://" pattern then
    map_err (fun e => PInvalidInput (storage_error_display e)) (parse_object pattern) ;; Ok [pattern]
  else
    entries ← map_err (fun e => PInvalidInput ("Invalid glob pattern: " +:+ e)) (glob pattern d);
    paths ← try_map (map_err PInvalidInput) entries;
    Ok (sort_by str_leb paths).

Definition predict_outputs (op : Operation) (output : string) (inputs : list string) : Result ParqknifeError (list string) :=
  match op with
  | ORewrite _ _ _ _ _ _ _ =>
      if decide (length inputs = 1 /\ ends_with ".parquet" output = true) then Ok [output] else Ok (outputs_below output inputs)
  | OPartition _ => resolve_inputs output
  | OMerge _ => Ok (merged_output output)
  | OSplit _ _ => resolve_inputs output
  end.

(** [predict_outputs_from_fused] of a fused segment. *)
Definition predict_outputs_from_fused (ops : list FusedOperation) (output : string) (inputs : list string) : Result ParqknifeError (list string) :=
  match last ops with
  | Some (FuRewrite _ _ _ _ _ _ _) =>
      if decide (length inputs = 1 /\ ends_with ".parquet" output = true) then Ok [output] else Ok (outputs_below output inputs)
  | Some (FuPartition _) => resolve_inputs output
  | Some (FuMerge _) => Ok (merged_output output)
  | None => Ok inputs
  end.

Record PlanState := {
  pn_segments : list CompiledSegment;
  pn_steps : list ResolvedStep;
  pn_roots : list string;
  pn_pipeline : list PipelineStage;
  pn_inputs : list string;  (** [current_inputs] *)
}.

Context (final_output staging_base : string).

Definition step_dir (idx : nat) : string := path_join staging_base ("step-" +:+ pad3 idx).

(** The output of a segment and the roots with it. *)
Definition segment_output (is_last : bool) (start : nat) : string := if is_last then final_output else step_dir start.
Definition add_root (is_last : bool) (start : nat) (roots : list string) : list string := if is_last then roots else roots ++ [step_dir start].

Definition compile_barrier (idx : nat) (op : Operation) (is_last : bool) (st : PlanState) : Result ParqknifeError PlanState :=
  let step_output := segment_output is_last idx in
  validate_step op (pn_inputs st) step_output ;;
  let reason := default "barrier" (barrier_reason op) in
  let resolved := {| rs_index := idx; rs_operation := op; rs_inputs := pn_inputs st; rs_output := step_output;
                     rs_is_intermediate := negb is_last; rs_storage := storage_kind step_output |} in
  inputs ← predict_outputs op step_output (pn_inputs st);
  Ok {| pn_segments := pn_segments st ++ [Barrier {| ba_reason := reason; ba_step := resolved |}];
        pn_steps := pn_steps st ++ [resolved]; pn_roots := add_root is_last idx (pn_roots st);
        pn_pipeline := pn_pipeline st ++ [StBarrier reason (negb is_last || bool_decide (pn_inputs st <> []))];
        pn_inputs := inputs |}.

Definition fused_steps (start : nat) (ops : list Operation) (is_last : bool) (inputs : list string) (output : string) : list ResolvedStep :=
  imap (fun k op => {| rs_index := start + k; rs_operation := op; rs_inputs := if decide (k = 0) then inputs else [output];
                       rs_output := output; rs_is_intermediate := negb is_last; rs_storage := storage_kind output |}) ops.

Definition compile_fused (start : nat) (ops : list Operation) (is_last : bool) (st : PlanState) : Result ParqknifeError PlanState :=
  fused_ops ← try_map operation_to_fused ops;
  let output := segment_output is_last start in
  try_map (fun op => validate_step op (pn_inputs st) output) ops ;;
  inputs ← predict_outputs_from_fused fused_ops output (pn_inputs st);
  Ok {| pn_segments := pn_segments st ++ [Fused {| fu_step_indices := seq start (length ops); fu_inputs := pn_inputs st; fu_output := output;
                                                   fu_ops := fused_ops; fu_is_intermediate := negb is_last; fu_storage := storage_kind output |}];
        pn_steps := pn_steps st ++ fused_steps start ops is_last (pn_inputs st) output;
        pn_roots := add_root is_last start (pn_roots st);
        pn_pipeline := pn_pipeline st ++
          [StSource ("source-step-" +:+ pretty start) (pn_inputs st)] ++
          (match fused_ops with [] => [] | _ => [StTransform ("fused-" +:+ pretty start +:+ "-" +:+ pretty (start + length ops)) (map fused_op_label fused_ops)] end) ++
          [StSink ("sink-step-" +:+ pretty start) output (sink_kind_for_ops fused_ops)];
        pn_inputs := inputs |}.

(** The steps up to the next barrier, and the rest. *)
Fixpoint fusible (ops : list Operation) : list Operation * list Operation :=
  match ops with
  | [] => ([], [])
  | op :: rest => if is_barrier_operation op then ([], ops) else let '(a, b) := fusible rest in (op :: a, b)
  end.

(** The loop over the steps; every round takes at least one. *)
Fixpoint compile_loop (fuel idx : nat) (ops : list Operation) (st : PlanState) : Result ParqknifeError PlanState :=
  match fuel, ops with
  | 0, _ | _, [] => Ok st
  | S fuel, op :: rest =>
      if is_barrier_operation op then
        st ← compile_barrier idx op (bool_decide (rest = [])) st; compile_loop fuel (S idx) rest st
      else
        let '(fused, rest) := fusible ops in
        st ← compile_fused idx fused (bool_decide (rest = [])) st; compile_loop fuel (idx + length fused) rest st
  end.
End Compile.

Definition compile_plan `{UrlParser} `{PlanEnv} (execution_id : string) (spec : Spec) (d : PDisk) : Result ParqknifeError ExecutablePlan :=
  validate_spec spec ;;
  let input := default EmptyString (sc_input spec) in
  let final_output := default EmptyString (sc_output spec) in
  initial_inputs ← resolve_inputs d input;
  if decide (initial_inputs = []) then Err (PSpecError "no input files resolved")
  else if negb (sx_overwrite (sc_options spec)) && negb (starts_with "s3://" final_output) && path_exists_nonempty final_output d then
    Err (PSpecError ("output already exists and overwrite is false: " +:+ final_output))
  else
    let staging_base := path_join (default "." (path_parent final_output)) (".parqonaut-spec-" +:+ execution_id) in
    let ops := map sp_operation (sc_steps spec) in
    st ← compile_loop d final_output staging_base (length ops) 0 ops
           {| pn_segments := []; pn_steps := []; pn_roots := []; pn_pipeline := []; pn_inputs := initial_inputs |};
    Ok {| xp_execution_id := execution_id; xp_schema_version := sc_schema_version spec; xp_original_input := input;
          xp_final_output := final_output; xp_overwrite := sx_overwrite (sc_options spec); xp_steps := pn_steps st;
          xp_intermediate_roots := pn_roots st; xp_segments := pn_segments st; xp_pipeline := pn_pipeline st |}.

(** [IntermediateIoCounters]. *)
Record IntermediateIoCounters := { ic_files_read : Z; ic_files_written : Z; ic_bytes_read : Z; ic_bytes_written : Z }.
Definition counters_zero : IntermediateIoCounters := {| ic_files_read := 0; ic_files_written := 0; ic_bytes_read := 0; ic_bytes_written := 0 |}.

Definition record_read (io : IntermediateIoCounters) (files bytes : Z) : IntermediateIoCounters :=
  {| ic_files_read := ic_files_read io + files; ic_files_written := ic_files_written io; ic_bytes_read := ic_bytes_read io + bytes;
     ic_bytes_written := ic_bytes_written io |}.
Definition record_write (io : IntermediateIoCounters) (files bytes : Z) : IntermediateIoCounters :=
  {| ic_files_read := ic_files_read io; ic_files_written := ic_files_written io + files; ic_bytes_read := ic_bytes_read io;
     ic_bytes_written := ic_bytes_written io + bytes |}.

(** * Storage (columnar_io.rs, remote.rs, storage_routing.rs) *)

(** A disk that also holds the objects of a storage, under names that no path has;
    the texts of its errors are the disk's. *)
Definition object_name (o : ObjectLocation) : string :=
  match o with LocalObject p => p | S3Object b k => String "000" (b +:+ "/" +:+ k) end.

(** [map_columnar] and [map_storage]. *)
Definition map_columnar {A} (r : Result ColumnarError A) : Result ParqknifeError A := map_err (fun e => PInvalidInput (columnar_error_display e)) r.
Definition map_storage {A} (r : Result StorageError A) : Result ParqknifeError A := map_err (fun e => PInvalidInput (storage_error_display e)) r.

(** [validate_batch] of src/crates/parqonaut-columnar/src/batch.rs. *)
Definition validate_batch (schema : Schema) (b : RecordBatch) : Result ColumnarError unit :=
  if decide (rb_schema b = schema) then Ok tt else Err (CValidation "record batch schema does not match expected pipeline schema").

(** [DEFAULT_PARQUET_BATCH_SIZE]. *)
Definition SOURCE_BATCH : nat := N.to_nat 8192.

(** A failing call of the [parquet] and file system crates as an error of the
    columnar crate, as the crate's own error, and as the text of a routed call. *)
Definition columnar_of (e : ParqknifeError) : ColumnarError :=
  match e with
  | PIo t => CIo t
  | PParquet t => CParquet t
  | PArrow t => CArrow t
  | PColumnar c => c
  | e => COther (parqknife_error_display e)
  end.
Definition as_columnar (e : ParqknifeError) : ParqknifeError := PColumnar (columnar_of e).
Definition as_invalid (e : ParqknifeError) : ParqknifeError := PInvalidInput (columnar_error_display (columnar_of e)).

Definition on_error {A} (g : ParqknifeError -> ParqknifeError) (m : TM A) : TM A := fun d =>
  match m d with (Err (Returned e), d) => (Err (Returned (g e)), d) | r => r end.

(** ** Streams *)

(** A stream of batches, given by what consumes it: the state of the consumer when
    the stream ended, and how it ended. *)
Definition outcome (S : Type) : Type := PDisk -> (S * Result Stop unit) * PDisk.
Definition feed : Type := forall S : Type, (S -> RecordBatch -> TM S) -> S -> outcome S.

Definition ended {S} (st : S) : outcome S := fun d => ((st, Ok tt), d).
Definition fthen {S} (o : outcome S) (k : S -> outcome S) : outcome S := fun d =>
  match o d with ((st, Ok _), d) => k st d | r => r end.
Definition attempt {A S} (st : S) (m : TM A) (k : A -> outcome S) : outcome S := fun d =>
  match m d with (Ok a, d) => k a d | (Err e, d) => ((st, Err e), d) end.

Fixpoint ffold {A S} (f : S -> A -> outcome S) (l : list A) (st : S) : outcome S :=
  match l with [] => ended st | a :: l => fthen (f st a) (ffold f l) end.

Definition feed_list (bs : list RecordBatch) : feed := fun _ step st => ffold (fun st b => attempt st (step st b) ended) bs st.

(** A consumer that stops at the first error. *)
Definition drain {S} (f : feed) (step : S -> RecordBatch -> TM S) (st : S) : TM S := fun d =>
  match f S step st d with ((st, Ok _), d) => (Ok st, d) | ((_, Err e), d) => (Err e, d) end.

(** A call of the sink that fails leaves behind the tasks that encode and upload;
    the scheduler decides whether they still finish. *)
Class Uploads := { upload_finishes : nat -> bool }.

Section Remote.
Context `{UrlParser}.

Definition location_is_remote (uri : string) : bool := match parse_object uri with Ok o => is_remote o | Err _ => false end.
Definition needs_storage_routing (input output : string) : bool := location_is_remote input || location_is_remote output.

Inductive RemoteIoKind := LocalToLocal | LocalToRemote | RemoteToLocal | RemoteToRemote.

Definition classify_io (input output : string) : RemoteIoKind :=
  match location_is_remote input, location_is_remote output with
  | false, false => LocalToLocal
  | false, true => LocalToRemote
  | true, false => RemoteToLocal
  | true, true => RemoteToRemote
  end.

Context (s3 : bool).

Definition ensure_s3_for_remote (input output : string) : Result ParqknifeError unit :=
  if needs_storage_routing input output && negb s3 then
    Err (PInvalidInput "remote s3:// paths require building prqnt with the `s3` feature")
  else Ok tt.

(** [backend_for] panics on a remote location when the feature is off. *)
Definition backend_for (o : ObjectLocation) : Result Stop unit := if is_remote o && negb s3 then Err Panicked else Ok tt.

Context `{ParquetDisk} (fault : nat -> option ParqknifeError).

(** [columnar_io_from_env]: building the S3 backend may fail. *)
Definition columnar_io_from_env : TM unit := if s3 then effect fault (fun d => (Ok tt, d)) else mret tt.

Definition parse_uri (uri : string) : TM ObjectLocation := tpure (map_storage (parse_object uri)).

(** [StorageParquetBatchSource]. *)
Definition storage_source (o : ObjectLocation) : TM (Schema * list RecordBatch) :=
  tstop (backend_for o) ;; on_error as_invalid (open_parquet fault SOURCE_BATCH (object_name o)).

Definition source_feed (bs : list RecordBatch) : feed := fun _ step st =>
  ffold (fun st b => attempt st (b ← on_error as_invalid (next_read fault b); step st b) ended) bs st.

Definition put_object (o : ObjectLocation) (c : PContent) (d : PDisk) : PDisk :=
  set_file (object_name o) {| pf_open := handles d (object_name o); pf_content := c |} d.

Context `{Uploads}.

(** What the encoder and the upload make of the batches they were sent.  When one
    of them fails, the other may still finish an object that is no Parquet file. *)
Definition upload (o : ObjectLocation) (schema : Schema) (bs : list RecordBatch) : TM unit := fun d =>
  let d1 := {| pd_files := pd_files d; pd_tick := S (pd_tick d) |} in
  match fault (pd_tick d) with
  | Some e => (Err (Returned (as_invalid e)), if upload_finishes (pd_tick d) then put_object o Mixed d1 else d1)
  | None => (Ok tt, put_object o (Complete schema CSnappy bs) d1)
  end.

Definition sink_step (schema : Schema) (acc : list RecordBatch) (b : RecordBatch) : TM (list RecordBatch) :=
  tpure (map_columnar (validate_batch schema b)) ;; mret (acc ++ [b]).

(** When the stream or a check fails, the encoder closes the file after the batches
    it was sent and the upload may finish it. *)
Definition sink_stream (o : ObjectLocation) (schema : Schema) (f : feed) : TM unit := fun d =>
  match f _ (sink_step schema) [] d with
  | ((bs, Ok _), d) => upload o schema bs d
  | ((bs, Err e), d) => (Err e, if upload_finishes (pd_tick d) then put_object o (Complete schema CSnappy bs) d else d)
  end.

(** [StorageParquetBatchSink::write_stream]. *)
Definition storage_sink (o : ObjectLocation) (schema : Schema) (f : feed) : TM unit :=
  tstop (backend_for o) ;;
  on_error as_invalid (effect fault (fun d => (Ok tt, d))) ;;
  sink_stream o schema f.

Definition rewrite_parquet_storage (input output : string) : TM unit :=
  input_loc ← parse_uri input;
  output_loc ← parse_uri output;
  sb ← storage_source input_loc;
  storage_sink output_loc (fst sb) (source_feed (snd sb)).

(** One input of [merge_parquet_storage_async] after the other.  A panic ends the
    task that reads them, and the stream with it. *)
Fixpoint merge_feed (schema : Schema) (inputs : list string) : feed := fun _ step st =>
  match inputs with
  | [] => ended st
  | input :: inputs =>
      attempt st (tpure (map_columnar (map_err (fun e => COther (storage_error_display e)) (parse_object input)))) (fun loc =>
        match backend_for loc with
        | Err _ => ended st
        | Ok _ =>
            attempt st (sb ← storage_source loc;
                        (if decide (fst sb = schema) then mret tt
                         else tpure (map_columnar (Err (CValidation ("schema mismatch during merge at " +:+ input))))) ;;
                        mret (snd sb)) (fun bs =>
              fthen (source_feed bs _ step st) (merge_feed schema inputs _ step))
        end)
  end.

Definition merge_parquet_storage (inputs : list string) (output : string) : TM unit :=
  match sort_by str_leb inputs with
  | [] => tfail (PInvalidInput "no inputs for merge")
  | (first :: _) as sorted =>
      output_loc ← parse_uri output;
      first_loc ← parse_uri first;
      sb ← storage_source first_loc;
      storage_sink output_loc (fst sb) (merge_feed (fst sb) sorted)
  end.

(** ** Splitting *)

(** [object_under_prefix]. *)
Definition object_under_prefix (prefix relative : string) : Result ParqknifeError ObjectLocation :=
  dataset ← map_storage (parse prefix);
  match dataset with
  | Local l =>
      p ← try_fold (fun p comp =>
            if decide (comp = EmptyString \/ comp = ".") then Ok p
            else if decide (comp = "..") then Err (PInvalidInput "partition path must not contain '..'")
            else Ok (path_join p comp)) (split_char "/" relative) (path l);
      Ok (LocalObject p)
  | S3 s => key ← map_storage (object_key s relative); Ok (S3Object (bucket s) key)
  end.

(** [flush_part] and [flush_to_object]. *)
Definition flush_to (output_prefix rel : string) (schema : Schema) (batches : list RecordBatch) : TM string :=
  obj ← tpure (object_under_prefix output_prefix rel);
  storage_sink obj schema (feed_list batches) ;;
  mret (object_display_uri obj).

Definition flush_part (output_prefix : string) (part_idx : nat) (schema : Schema) (batches : list RecordBatch) : TM string :=
  flush_to output_prefix ("part-" +:+ pad5 part_idx +:+ ".parquet") schema batches.

Record SplitState := { sl_outputs : list string; sl_part_idx : nat; sl_buffer : list RecordBatch; sl_buffer_bytes : Z }.

Definition split_item (output_prefix : string) (target_bytes : Z) (schema : Schema) (st : SplitState) (b : RecordBatch) : TM SplitState :=
  let est := memory_size b in
  st ← (if bool_decide (sl_buffer st <> []) && (target_bytes <? sl_buffer_bytes st + est)%Z then
          uri ← flush_part output_prefix (sl_part_idx st) schema (sl_buffer st);
          mret {| sl_outputs := sl_outputs st ++ [uri]; sl_part_idx := S (sl_part_idx st); sl_buffer := []; sl_buffer_bytes := 0 |}
        else mret st);
  mret {| sl_outputs := sl_outputs st; sl_part_idx := sl_part_idx st; sl_buffer := sl_buffer st ++ [b];
          sl_buffer_bytes := sl_buffer_bytes st + est |}.

Definition split_parquet_storage (input output_prefix : string) (target_bytes : Z) : TM (list string) :=
  input_loc ← parse_uri input;
  sb ← storage_source input_loc;
  st ← drain (source_feed (snd sb)) (split_item output_prefix target_bytes (fst sb))
         {| sl_outputs := []; sl_part_idx := 0; sl_buffer := []; sl_buffer_bytes := 0 |};
  match sl_buffer st with
  | [] => mret (sl_outputs st)
  | _ => uri ← flush_part output_prefix (sl_part_idx st) (fst sb) (sl_buffer st); mret (sl_outputs st ++ [uri])
  end.

(** ** Partitioning *)

Definition hive_relative_path (columns : list string) (key : string) (part_index : nat) : string :=
  join_strings "/" (zip_with (fun col val => col +:+ "=" +:+ val) columns (split_char unit_separator key)
                    ++ ["part-" +:+ pad5 part_index +:+ ".parquet"]).

Record BufferState := {
  bf_buffers : gmap string (list RecordBatch);
  bf_part_counters : gmap string nat;
  bf_lru : list string;
  bf_outputs : list string;
}.

Definition buffer_init : BufferState := {| bf_buffers := ∅; bf_part_counters := ∅; bf_lru := []; bf_outputs := [] |}.

Context `{HashOrder} `{ArrowKernels}.

(** The least recently used buffer is written out. *)
Definition buffer_evict (output_prefix : string) (partition_by : list string) (max_open : nat) (schema : Schema) (st : BufferState) : TM BufferState :=
  if decide (max_open <= size (bf_buffers st)) then
    match bf_lru st with
    | [] => mret st
    | evict :: lru =>
        match bf_buffers st !! evict with
        | None => mret {| bf_buffers := bf_buffers st; bf_part_counters := bf_part_counters st; bf_lru := lru; bf_outputs := bf_outputs st |}
        | Some batches =>
            let idx := default 0 (bf_part_counters st !! evict) in
            uri ← flush_to output_prefix (hive_relative_path partition_by evict idx) schema batches;
            mret {| bf_buffers := delete evict (bf_buffers st); bf_part_counters := <[evict := S idx]> (bf_part_counters st);
                    bf_lru := lru; bf_outputs := bf_outputs st ++ [uri] |}
        end
    end
  else mret st.

Definition buffer_item (output_prefix : string) (partition_by : list string) (max_open : nat) (schema : Schema) (st : BufferState)
    (item : string * RecordBatch) : TM BufferState :=
  let '(key, sub_batch) := item in
  st ← match bf_buffers st !! key with
       | None =>
           st ← buffer_evict output_prefix partition_by max_open schema st;
           mret {| bf_buffers := <[key := []]> (bf_buffers st);
                   bf_part_counters := <[key := default 0 (bf_part_counters st !! key)]> (bf_part_counters st);
                   bf_lru := bf_lru st ++ [key]; bf_outputs := bf_outputs st |}
       | Some _ => mret {| bf_buffers := bf_buffers st; bf_part_counters := bf_part_counters st; bf_lru := lru_touch key (bf_lru st);
                           bf_outputs := bf_outputs st |}
       end;
  match bf_buffers st !! key return TM BufferState with
  | None => tstop (Err Panicked)
  | Some batches =>
      mret {| bf_buffers := <[key := batches ++ [sub_batch]]> (bf_buffers st); bf_part_counters := bf_part_counters st;
              bf_lru := bf_lru st; bf_outputs := bf_outputs st |}
  end.

Definition buffer_drain (output_prefix : string) (partition_by : list string) (schema : Schema) (st : BufferState) : TM (list string) :=
  tfold (fun outs kb =>
    let idx := default 0 (bf_part_counters st !! fst kb) in
    uri ← flush_to output_prefix (hive_relative_path partition_by (fst kb) idx) schema (snd kb);
    mret (outs ++ [uri])) (hash_order (map_to_list (bf_buffers st))) (bf_outputs st).

(** The loop that [partition_parquet_storage_async] and
    [fused_partition_to_storage] share. *)
Definition buffer_partition (output_prefix : string) (partition_by : list string) (max_open : nat) (schema : Schema) (f : feed) : TM (list string) :=
  st ← drain f (fun st b => items ← tstop (partition_keys b partition_by);
                           tfold (buffer_item output_prefix partition_by max_open schema) items st) buffer_init;
  buffer_drain output_prefix partition_by schema st.

Definition partition_parquet_storage (input output_prefix : string) (partition_by : list string) (max_open : nat) : TM (list string) :=
  input_loc ← parse_uri input;
  sb ← storage_source input_loc;
  buffer_partition output_prefix partition_by max_open (fst sb) (source_feed (snd sb)).

(** ** Routing *)

Definition file_stem (p : string) : option string :=
  name ← file_name p;
  match split_last "." name with
  | Some (EmptyString, _) | None => Some name
  | Some (stem, _) => Some stem
  end.

(** Where [merge] puts its parts, and the exact file of the first. *)
Definition merge_target (output : string) : string * string * option string :=
  match path_extension output with
  | Some _ => (default "." (path_parent output), default "merged" (file_stem output), Some output)
  | None => (output, "merged", None)
  end.

Definition mebibytes (mb : Z) : Z := wrap_u64 (mb * 1024 * 1024).

Definition merge_to (inputs : list string) (output : string) (row_group_size_mb : option Z) : TM (list string) :=
  let '(dir, base, exact) := merge_target output in
  merge_parquet_files fault inputs dir base (mebibytes 512) None row_group_size_mb exact.

Definition split_parquet_routed (input output : string) (target_size_mb : Z) : TM (list string) :=
  tpure (ensure_s3_for_remote input output) ;;
  if needs_storage_routing input output then split_parquet_storage input output (mebibytes target_size_mb)
  else split_parquet_file fault input output "part" (mebibytes target_size_mb) None None.

Definition partition_parquet_routed (input output : string) (partition_by : list string) (max_open : nat) : TM (list string) :=
  tpure (ensure_s3_for_remote input output) ;;
  if needs_storage_routing input output then partition_parquet_storage input output partition_by max_open
  else partition_parquet_file fault input output partition_by max_open None None.

Definition merge_parquet_routed (inputs : list string) (output : string) (row_group_size_mb : option Z) : TM unit :=
  let first := default EmptyString (head inputs) in
  tpure (ensure_s3_for_remote first output) ;;
  if needs_storage_routing first output then merge_parquet_storage inputs output
  else merge_to inputs output row_group_size_mb ;; mret tt.

Definition rewrite_parquet_routed (input output : string) : TM unit :=
  tpure (ensure_s3_for_remote input output) ;;
  if needs_storage_routing input output then rewrite_parquet_storage input output
  else rewrite_parquet_file fault input output None None.

(** * Fused segments *)

Context `{ArrowCrate} (detail : string).

(** The transforms of a rewrite; the maps are iterated in hash order. *)
Definition rewrite_pipeline (op : FusedOperation) : option (Result ParqknifeError (list Transform)) :=
  match op with
  | FuRewrite _ _ projection filter rename cast _ =>
      Some (pipeline_from_rewrite_ops detail projection filter ((fun m => hash_order (map_to_list m)) <$> rename)
              ((fun m => hash_order (map_to_list m)) <$> cast))
  | _ => None
  end.

(** [find_map]: the first rewrite. *)
Definition fused_pipeline_from_ops (ops : list FusedOperation) : Result ParqknifeError (option (list Transform)) :=
  match head (omap rewrite_pipeline ops) with
  | None => Ok None
  | Some r => p ← r; Ok (Some p)
  end.

Definition apply_pipeline (pipeline : option (list Transform)) (b : RecordBatch) : Result ParqknifeError RecordBatch :=
  match pipeline with Some p => execute_pipeline p b | None => Ok b end.

(** The columns of the last partition step. *)
Definition fused_partition_by (ops : list FusedOperation) : option (list string) :=
  last (omap (fun op => match op with FuPartition cols => Some cols | _ => None end) ops).

(** [FusedInputStream]. *)
Definition fused_input_feed (inputs : list string) (pipeline : option (list Transform)) : feed := fun _ step st =>
  ffold (fun st uri =>
    attempt st (loc ← tpure (map_columnar (map_err (fun e => COther (storage_error_display e)) (parse_object uri))); storage_source loc) (fun sb =>
      source_feed (snd sb) _ (fun st b =>
        b ← tpure (map_columnar (map_err (fun e => COther (parqknife_error_display e)) (apply_pipeline pipeline b))); step st b) st)) inputs st.

Definition schema_from_inputs (inputs : list string) : TM Schema :=
  match inputs with
  | [] => tfail (PSpecError "fused segment has no inputs")
  | first :: _ => loc ← parse_uri first; sb ← storage_source loc; mret (fst sb)
  end.

Definition fused_rewrite_to_storage (inputs : list string) (output : string) (pipeline : option (list Transform)) : TM unit :=
  out_loc ← parse_uri output;
  tstop (backend_for out_loc) ;;
  schema ← schema_from_inputs inputs;
  storage_sink out_loc schema (fused_input_feed inputs pipeline).

Definition fused_partition_to_storage (inputs : list string) (output_prefix : string) (partition_by : list string) (max_open : nat)
    (pipeline : option (list Transform)) : TM (list string) :=
  schema ← schema_from_inputs inputs;
  buffer_partition output_prefix partition_by max_open schema (fused_input_feed inputs pipeline).

(** The number of files written and read. *)
Definition execute_fused_segment_routed (fused : FusedPlanSegment) : TM (nat * nat) :=
  tpure (ensure_s3_for_remote (default EmptyString (head (fu_inputs fused))) (fu_output fused)) ;;
  pipeline ← tpure (fused_pipeline_from_ops (fu_ops fused));
  match fused_partition_by (fu_ops fused) with
  | Some cols =>
      outs ← fused_partition_to_storage (fu_inputs fused) (fu_output fused) cols 64 pipeline;
      mret (length outs, length (fu_inputs fused))
  | None =>
      if ends_with ".parquet" (fu_output fused) then
        fused_rewrite_to_storage (fu_inputs fused) (fu_output fused) pipeline ;; mret (1, length (fu_inputs fused))
      else tfail (PSpecError ("unsupported fused routed output layout: " +:+ fu_output fused))
  end.

(** ** On local files (fused_execute.rs) *)

Definition compression_label (c : Codec) : string :=
  match c with
  | CUncompressed => "uncompressed" | CSnappy => "snappy" | CGzip => "gzip" | CLzo => "lzo" | CBrotli => "brotli"
  | CLz4 => "lz4" | CZstd => "zstd" | CLz4Raw => "lz4_raw"
  end.

Definition collect_fused_batches (inputs : list string) (pipeline : option (list Transform)) : TM (list RecordBatch) :=
  tfold (fun acc input =>
    sb ← on_error as_columnar (open_parquet fault SOURCE_BATCH input);
    tfold (fun acc b => b ← on_error as_columnar (next_read fault b); b ← tpure (apply_pipeline pipeline b); mret (acc ++ [b])) (snd sb) acc) inputs [].

(** The settings the last operation leaves. *)
Definition fused_settings (ops : list FusedOperation) : option string * option Z :=
  foldl (fun cs op => match op with
                      | FuRewrite comp rg _ _ _ _ _ => (compression_label <$> comp, rg)
                      | FuPartition _ => cs
                      | FuMerge rg => (fst cs, rg)
                      end) (None, None) ops.

(** [LocalParquetBatchSink::write_stream]. *)
Definition local_sink (path : string) (schema : Schema) (batches : list RecordBatch) : TM unit :=
  on_error as_invalid (create_parent fault path) ;;
  w ← on_error as_invalid (start_file fault path schema (Some CSnappy) None);
  w ← tfold (fun w b => tpure (map_columnar (validate_batch schema b)) ;; on_error as_invalid (write_batch fault w b)) batches w;
  on_error as_invalid (close fault w).

Definition execute_fused_segment (fused : FusedPlanSegment) : TM (nat * nat) :=
  if existsb location_is_remote (fu_inputs fused) || location_is_remote (fu_output fused) then
    tpure (ensure_s3_for_remote (default EmptyString (head (fu_inputs fused))) (fu_output fused)) ;;
    columnar_io_from_env ;;
    execute_fused_segment_routed fused
  else
    pipeline ← tpure (fused_pipeline_from_ops (fu_ops fused));
    batches ← collect_fused_batches (fu_inputs fused) pipeline;
    let '(compression, row_group_size_mb) := fused_settings (fu_ops fused) in
    match fused_partition_by (fu_ops fused) with
    | Some cols =>
        outs ← partition_record_batches fault batches (fu_output fused) cols 64 compression row_group_size_mb;
        mret (length outs, length (fu_inputs fused))
    | None =>
        if ends_with ".parquet" (fu_output fused) then
          match batches with
          | [] => tfail (PSpecError "fused rewrite produced no batches")
          | first :: _ => local_sink (fu_output fused) (rb_schema first) batches ;; mret (1, length (fu_inputs fused))
          end
        else tfail (PSpecError ("unsupported fused output layout: " +:+ fu_output fused))
    end.

(** The numbers of files read and written, and the counters. *)
Definition execute_fused_plan (plan : ExecutablePlan) (io : IntermediateIoCounters) : TM (nat * nat * IntermediateIoCounters) :=
  tfold (fun st segment =>
    let '(read, written, io) := st in
    match segment with
    | Fused fused =>
        wr ← execute_fused_segment fused;
        mret (read + snd wr, written + fst wr, if fu_is_intermediate fused then record_write io (Z.of_nat (fst wr)) 0 else io)
    | Barrier barrier => tfail (PSpecError ("plan is not fully streamable: barrier " +:+ ba_reason barrier))
    end) (xp_segments plan) (0, 0, io).
End Remote.

(** * Execution (execute.rs) *)

Record TransformReport := {
  tr_schema_version : Z;
  tr_execution_id : option string;
  tr_operations_attempted : nat;
  tr_operations_completed : nat;
  tr_source_locations : list string;
  tr_final_destination : option string;
  tr_intermediate_locations : list string;
  tr_input_files : list string;
  tr_output_files : list string;
  tr_files_read : nat;
  tr_files_written : nat;
  tr_intermediate : IntermediateIoCounters;
  tr_elapsed_ms : Z;
  tr_plan : option string;  (** the plan as JSON text *)
}.

(** What the file system says of a tree: the lengths of the files below a path in
    the order they are walked, the length of a file, and the disk without the
    tree; [serde_json::to_value] of a plan, or its error. *)
Class ExecEnv := {
  tree_files : string -> PDisk -> list (option Z);
  file_len : string -> PDisk -> option Z;
  without_tree : string -> PDisk -> PDisk;
  plan_json : ExecutablePlan -> Result string string;
}.

(** [record_intermediate_dir], [walk_intermediate_files] and
    [record_intermediate_file]; a file whose metadata cannot be read is skipped. *)
Definition record_intermediate_dir `{PlanEnv} `{ExecEnv} (root : string) (d : PDisk) (io : IntermediateIoCounters) : IntermediateIoCounters :=
  if entry_exists root d then foldl (fun io len => record_write io 1 len) io (omap id (tree_files root d)) else io.

Definition record_intermediate_read `{ExecEnv} (roots : list string) (d : PDisk) (io : IntermediateIoCounters) (input : string) : IntermediateIoCounters :=
  if existsb (fun r => starts_with r input) roots then
    match file_len input d with Some len => record_read io 1 len | None => io end
  else io.

Section Execute.
Context `{UrlParser} `{ParquetDisk} `{Uploads} `{HashOrder} `{ArrowCrate} `{ArrowKernels} `{PlanEnv} `{ExecEnv}.
Context (s3 : bool) (fault : nat -> option ParqknifeError) (detail : string).

Definition rewrite_output_path (output input : string) (input_count : nat) : string :=
  if decide (input_count = 1 /\ ends_with ".parquet" output = true) then output
  else path_join output (default "out.parquet" (file_name input)).

(** [let _ = std::fs::remove_file(..)] and [std::fs::rename(..)?]. *)
Definition remove_file (p : string) : TM unit := fun d =>
  (Ok tt, {| pd_files := match fault (pd_tick d) with Some _ => pd_files d | None => delete (canon p) (pd_files d) end; pd_tick := S (pd_tick d) |}).
Definition rename_file (a b : string) : TM unit := effect fault (fun d =>
  match pd_files d !! canon a with
  | Some f => (Ok tt, {| pd_files := <[canon b := f]> (delete (canon a) (pd_files d)); pd_tick := pd_tick d |})
  | None => (Err (PIo ENOENT_text), d)
  end).

(** One input of a rewrite step with schema operations: a copy, a file per rename,
    a file per cast, and the last renamed to the output. *)
Definition rewrite_with_schema (input out_path : string) (comp : option string) (rg : option Z) (ops : SchemaOps) : TM unit :=
  let tmp := with_extension out_path "tmp.parquet" in
  rewrite_parquet_file fault input tmp comp rg ;;
  current ← tfold (fun current ft =>
              let next := with_extension out_path "rename.tmp.parquet" in
              rewrite_parquet_with_rename fault current next (fst ft) (snd ft) comp rg ;;
              remove_file current ;; mret next)
            (match so_rename ops with Some m => hash_order (map_to_list m) | None => [] end) tmp;
  current ← tfold (fun current ct =>
              let next := with_extension out_path "cast.tmp.parquet" in
              rewrite_parquet_with_cast fault current next (fst ct) (snd ct) comp rg ;;
              remove_file current ;; mret next)
            (match so_cast ops with Some m => hash_order (map_to_list m) | None => [] end) current;
  rename_file current out_path.

(** [.ok()]. *)
Definition ignore_error (m : TM unit) : TM unit := fun d => (Ok tt, snd (m d)).

(** [&step.inputs[0]]. *)
Definition first_input (step : ResolvedStep) : TM string :=
  match rs_inputs step with i :: _ => mret i | [] => tstop (Err Panicked) end.

Definition resolved_count (pattern : string) : TM nat := fun d =>
  match resolve_inputs d pattern with Ok l => (Ok (length l), d) | Err e => (Err (Returned e), d) end.

(** [execute_step]; only the split of a barrier gets here.  Directories are no
    entries of the disk. *)
Definition execute_step (step : ResolvedStep) : TM (nat * nat) :=
  let read := length (rs_inputs step) in
  match rs_operation step with
  | ORewrite compression rg _ _ schema _ _ =>
      let comp := compression_label <$> compression in
      ignore_error (create_dir_all fault (rs_output step)) ;;
      written ← tfold (fun written input =>
                  let out_path := rewrite_output_path (rs_output step) input (length (rs_inputs step)) in
                  match schema with
                  | Some ops => rewrite_with_schema input out_path comp rg ops
                  | None => rewrite_parquet_file fault input out_path comp rg
                  end ;; mret (S written)) (rs_inputs step) 0;
      mret (written, read)
  | OPartition partition_by =>
      input ← first_input step;
      partition_parquet_file fault input (rs_output step) partition_by 64 None None ;;
      outs ← resolved_count (rs_output step); mret (outs, read)
  | OMerge rg => outs ← merge_to fault (rs_inputs step) (rs_output step) rg; mret (length outs, read)
  | OSplit target_size_mb _ =>
      input ← first_input step;
      split_parquet_file fault input (rs_output step) "part" (mebibytes (default 512%Z target_size_mb)) None None ;;
      outs ← resolved_count (rs_output step); mret (outs, read)
  end.

Definition with_disk {A} (f : PDisk -> A) : TM A := fun d => (Ok (f d), d).

Record Progress := { pg_completed : nat; pg_files_read : nat; pg_files_written : nat; pg_io : IntermediateIoCounters }.

Definition execute_segment (roots : list string) (pg : Progress) (segment : CompiledSegment) : TM Progress :=
  match segment with
  | Fused fused =>
      wr ← execute_fused_segment s3 fault detail fused;
      with_disk (fun d => {| pg_completed := pg_completed pg + length (fu_step_indices fused); pg_files_read := pg_files_read pg + snd wr;
                             pg_files_written := pg_files_written pg + fst wr;
                             pg_io := if fu_is_intermediate fused then record_intermediate_dir (fu_output fused) d (pg_io pg) else pg_io pg |})
  | Barrier barrier =>
      let step := ba_step barrier in
      wr ← execute_step step;
      with_disk (fun d => {| pg_completed := S (pg_completed pg); pg_files_read := pg_files_read pg + snd wr;
                             pg_files_written := pg_files_written pg + fst wr;
                             pg_io := if rs_is_intermediate step
                                      then foldl (record_intermediate_read roots d) (record_intermediate_dir (rs_output step) d (pg_io pg)) (rs_inputs step)
                                      else pg_io pg |})
  end.

(** [remove_dir_all] of the roots; [all] stops at the first root that stays. *)
Fixpoint clean_roots (roots : list string) : TM unit := fun d =>
  match roots with
  | [] => (Ok tt, d)
  | root :: roots =>
      let d1 := {| pd_files := pd_files d; pd_tick := S (pd_tick d) |} in
      match fault (pd_tick d) with
      | Some _ => if entry_exists root d then (Ok tt, d1) else clean_roots roots d1
      | None => clean_roots roots (without_tree root d1)
      end
  end.

Definition execute_plan (elapsed_ms : Z) (plan : ExecutablePlan) : TM TransformReport :=
  pg ← tfold (execute_segment (xp_intermediate_roots plan)) (xp_segments plan)
         {| pg_completed := 0; pg_files_read := 0; pg_files_written := 0; pg_io := counters_zero |};
  clean_roots (xp_intermediate_roots plan) ;;
  with_disk (fun d =>
    let final_outputs := match last (xp_steps plan) with
                         | Some s => match resolve_inputs d (rs_output s) with Ok l => l | Err _ => [] end
                         | None => []
                         end in
    {| tr_schema_version := TRANSFORM_SPEC_SCHEMA_VERSION; tr_execution_id := Some (xp_execution_id plan);
           tr_operations_attempted := length (xp_steps plan); tr_operations_completed := pg_completed pg;
           tr_source_locations := [xp_original_input plan]; tr_final_destination := Some (xp_final_output plan);
           tr_intermediate_locations := []; tr_input_files := from_option rs_inputs [] (head (xp_steps plan));
           tr_output_files := final_outputs; tr_files_read := pg_files_read pg; tr_files_written := pg_files_written pg;
           tr_intermediate := pg_io pg; tr_elapsed_ms := elapsed_ms; tr_plan := None |}).

Definition execute_spec (execution_id : string) (elapsed_ms : Z) (spec : Spec) : TM TransformReport := fun d =>
  match compile_plan execution_id spec d with
  | Ok plan => execute_plan elapsed_ms plan d
  | Err e => (Err (Returned e), d)
  end.

Definition plan_to_dry_run_report (plan : ExecutablePlan) : Result ParqknifeError TransformReport :=
  json ← map_err PSpecError (plan_json plan);
  Ok {| tr_schema_version := TRANSFORM_SPEC_SCHEMA_VERSION; tr_execution_id := Some (xp_execution_id plan);
        tr_operations_attempted := length (xp_steps plan); tr_operations_completed := 0;
        tr_source_locations := [xp_original_input plan]; tr_final_destination := Some (xp_final_output plan);
        tr_intermediate_locations := xp_intermediate_roots plan; tr_input_files := from_option rs_inputs [] (head (xp_steps plan));
        tr_output_files := [xp_final_output plan]; tr_files_read := 0; tr_files_written := 0; tr_intermediate := counters_zero;
        tr_elapsed_ms := 0; tr_plan := Some json |}.

Definition dry_run_report (execution_id : string) (spec : Spec) (d : PDisk) : Result ParqknifeError TransformReport :=
  plan ← compile_plan execution_id spec d; plan_to_dry_run_report plan.

(** * Entry points (lib.rs, cli/commands.rs) *)

Definition transform_spec (execution_id : string) (elapsed_ms : Z) (spec : Spec) (check_only dry_run : bool) : TM TransformReport :=
  if check_only then fun d =>
    match validate_spec spec ;; compile_plan execution_id spec d with
    | Err e => (Err (Returned e), d)
    | Ok _ =>
        (Ok {| tr_schema_version := TRANSFORM_SPEC_SCHEMA_VERSION; tr_execution_id := None; tr_operations_attempted := length (sc_steps spec);
               tr_operations_completed := 0; tr_source_locations := option_list (sc_input spec); tr_final_destination := None;
               tr_intermediate_locations := []; tr_input_files := []; tr_output_files := []; tr_files_read := 0; tr_files_written := 0;
               tr_intermediate := counters_zero; tr_elapsed_ms := 0; tr_plan := None |}, d)
    end
  else if dry_run then fun d => (map_err Returned (dry_run_report execution_id spec d), d)
  else execute_spec execution_id elapsed_ms spec.

(** A list of columns in one text. *)
Definition column_names (text : string) : list string := filter (fun s => s <> EmptyString) (map trim (split_char "," text)).

Definition resolve_now (pattern : string) : TM (list string) := fun d => (map_err Returned (resolve_inputs d pattern), d).

(** [partition] and [split]. *)
Definition run_partition_routed (input output partition_by : string) (max_open_partitions : nat) : TM unit :=
  inputs ← resolve_now input;
  match inputs with
  | [i] => columnar_io_from_env s3 fault ;; partition_parquet_routed s3 fault i output (column_names partition_by) max_open_partitions ;; mret tt
  | _ => tfail (PInvalidInput "partition requires exactly one input Parquet file")
  end.

Definition run_split_routed (input output : string) (target_size_mb : option Z) : TM unit :=
  inputs ← resolve_now input;
  match inputs with
  | [i] => columnar_io_from_env s3 fault ;; split_parquet_routed s3 fault i output (default 512%Z target_size_mb) ;; mret tt
  | _ => tfail (PInvalidInput "split requires exactly one input")
  end.

(** [rewrite_file]. *)
Definition rewrite_file (input output : string) (compression : option string) (rg : option Z) (pipeline : list Transform) : TM unit :=
  sb ← open_parquet fault READER_BATCH input;
  comp ← codec_of compression;
  w ← start_file fault output (fst sb) comp rg;
  w ← tfold (copy_batch fault (fun b => map_err Returned (execute_pipeline pipeline b))) (snd sb) w;
  close fault w.

Definition run_rewrite (input output : string) (compression : option string) (rg : option Z) (projection filter : option string) : TM unit :=
  inputs ← resolve_now input;
  let projected := match projection with
                   | Some p => match column_names p with [] => [] | columns => [TProjection columns] end
                   | None => []
                   end in
  filtered ← match filter with
             | Some f => e ← tpure (parse_filter detail f); mret [TFilter e]
             | None => mret []
             end;
  tfold (fun _ i => rewrite_file i output compression rg (projected ++ filtered)) inputs tt.

Definition run_partition (input output partition_by : string) : TM unit :=
  inputs ← resolve_now input;
  match inputs with
  | [i] => partition_parquet_file fault i output (column_names partition_by) 64 None None ;; mret tt
  | _ => tfail (PInvalidInput "partition requires exactly one input Parquet file")
  end.

Definition run_merge (input output : string) (rg : option Z) : TM unit :=
  inputs ← resolve_now input; merge_to fault inputs output rg ;; mret tt.

Definition run_split (input output : string) (target_size_mb : option Z) : TM unit :=
  inputs ← resolve_now input;
  match inputs with
  | [i] => split_parquet_file fault i output "part" (mebibytes (default 512%Z target_size_mb)) None None ;; mret tt
  | _ => tfail (PInvalidInput "split requires exactly one input Parquet file")
  end.
End Execute.

(** * Proofs *)

(** ** The loop over the steps *)

Lemma fusible_app ops : fst (fusible ops) ++ snd (fusible ops) = ops.
Proof. induction ops as [|op ops IH]; [done|]. cbn. destruct (is_barrier_operation op); [done|]. destruct (fusible ops). cbn in *. by rewrite IH. Qed.

Lemma fusible_first ops : Forall (fun op => is_barrier_operation op = false) (fst (fusible ops)).
Proof.
  induction ops as [|op ops IH]; [constructor|]. cbn. destruct (is_barrier_operation op) eqn:E; [constructor|]. destruct (fusible ops). by constructor.
Qed.

Lemma fusible_rest ops op rest : snd (fusible ops) = op :: rest -> is_barrier_operation op = true.
Proof.
  induction ops as [|o ops IH]; [done|]. cbn. destruct (is_barrier_operation o) eqn:E; [by intros [= <- <-]|]. destruct (fusible ops). cbn. exact IH.
Qed.

Definition segment_indices (s : CompiledSegment) : list nat :=
  match s with Fused f => fu_step_indices f | Barrier b => [rs_index (ba_step b)] end.

Definition segment_output_of (s : CompiledSegment) : string := match s with Fused f => fu_output f | Barrier b => rs_output (ba_step b) end.

Section CompileProof.
Context `{UrlParser} `{PlanEnv} (d : PDisk) (final_output staging_base : string).
Abbreviation loop := (compile_loop d final_output staging_base).

(** What has been compiled covers the first [n] steps, each once and in order. *)
Definition covers (ops : list Operation) (st : PlanState) : Prop :=
  concat (map segment_indices (pn_segments st)) = seq 0 (length ops) /\
  map rs_index (pn_steps st) = seq 0 (length ops) /\ map rs_operation (pn_steps st) = ops.

Lemma bind_ok_inv {E A B} (r : Result E A) (k : A -> Result E B) b : (x ← r; k x) = Ok b -> exists a, r = Ok a /\ k a = Ok b.
Proof. destruct r as [a|]; [|done]. cbn. eauto. Qed.

Lemma covers_barrier done op is_last st st' : covers done st -> compile_barrier d final_output staging_base (length done) op is_last st = Ok st' ->
  covers (done ++ [op]) st'.
Proof.
  intros (Hc & Hi & Ho) Hb. unfold compile_barrier in Hb. apply bind_ok_inv in Hb as (_ & _ & Hb). apply bind_ok_inv in Hb as (ins & _ & Hb).
  injection Hb as <-. unfold covers. cbn [pn_segments pn_steps]. rewrite !map_app, concat_app, Hc, Hi, Ho, length_app, seq_app. done.
Qed.

Lemma covers_fused done ops is_last st st' : covers done st -> compile_fused d final_output staging_base (length done) ops is_last st = Ok st' ->
  covers (done ++ ops) st'.
Proof.
  intros (Hc & Hi & Ho) Hb. unfold compile_fused in Hb. apply bind_ok_inv in Hb as (fs & _ & Hb). apply bind_ok_inv in Hb as (_ & _ & Hb).
  apply bind_ok_inv in Hb as (ins & _ & Hb). injection Hb as <-. unfold covers. cbn [pn_segments pn_steps].
  rewrite !map_app, concat_app, Hc, Hi, Ho, length_app, seq_app. cbn. rewrite app_nil_r. split; [done|]. unfold fused_steps.
  split; f_equal.
  - etransitivity; [apply (fmap_imap _ rs_index)|]. clear. generalize (length done) as n. induction ops as [|op ops IH]; intros n; [done|].
    cbn. rewrite Nat.add_0_r. f_equal. rewrite <- (IH (S n)). apply imap_ext. intros i x _. cbn. lia.
  - etransitivity; [apply (fmap_imap _ rs_operation)|]. clear. induction ops as [|op ops IH]; [done|]. cbn. f_equal. exact IH.
Qed.

(** Enough rounds compile every step. *)
Lemma loop_covers fuel : forall done ops st st', length ops <= fuel -> covers done st -> loop fuel (length done) ops st = Ok st' ->
  covers (done ++ ops) st'.
Proof.
  induction fuel as [|fuel IH]; intros done ops st st' Hf Hc Hl.
  { destruct ops; [|cbn in Hf; lia]. injection Hl as <-. by rewrite app_nil_r. }
  destruct ops as [|op rest]; [injection Hl as <-; by rewrite app_nil_r|]. cbn [compile_loop] in Hl. cbn in Hf. destruct (is_barrier_operation op) eqn:Eb.
  - apply bind_ok_inv in Hl as (st1 & Hb & Hl). change (op :: rest) with ([op] ++ rest). rewrite app_assoc.
    apply (IH (done ++ [op]) rest st1); [lia|by eapply covers_barrier|]. rewrite length_app, Nat.add_comm. exact Hl.
  - pose proof (fusible_app (op :: rest)) as Happ. assert (fst (fusible (op :: rest)) <> []) as Hne by (cbn; rewrite Eb; by destruct (fusible rest)).
    destruct (fusible (op :: rest)) as [fused rest'] eqn:Ef. cbn [fst snd] in *. apply bind_ok_inv in Hl as (st1 & Hb & Hl).
    rewrite <- Happ, app_assoc. apply (IH (done ++ fused) rest' st1); [|by eapply covers_fused|by rewrite length_app].
    assert (length fused + length rest' = S (length rest)) as Hlen by (rewrite <- length_app, Happ; done). destruct fused; [done|]. cbn in Hlen. lia.
Qed.
End CompileProof.

(** C32: A plan has every step of the specification once and in order, in its steps and
    in its segments. *)
Theorem plan_covers_steps `{UrlParser} `{PlanEnv} id spec d plan : compile_plan id spec d = Ok plan ->
  map rs_operation (xp_steps plan) = map sp_operation (sc_steps spec) /\
  map rs_index (xp_steps plan) = seq 0 (length (sc_steps spec)) /\
  concat (map segment_indices (xp_segments plan)) = seq 0 (length (sc_steps spec)).
Proof.
  intros Hp. unfold compile_plan in Hp. apply bind_ok_inv in Hp as (_ & _ & Hp). apply bind_ok_inv in Hp as (ins & _ & Hp).
  case_decide; [done|]. destruct (_ && _ && _); [done|]. apply bind_ok_inv in Hp as (st & Hl & Hp). injection Hp as <-. cbn [xp_steps xp_segments].
  apply (loop_covers d _ _ _ []) in Hl as (Hc & Hi & Ho); [|done|done]. cbn in *. rewrite length_map in *. done.
Qed.

(** ** Steps before and after a split *)

Lemma get_app_last a b : b <> EmptyString -> String.get (String.length (a +:+ b) - 1) (a +:+ b) = String.get (String.length b - 1) b.
Proof.
  intros Hb. rewrite length_app_string. rewrite (String.append_correct2 a b). f_equal. destruct b; [done|]. cbn. lia.
Qed.

Lemma digits_get s acc n v k : digits_run s acc n = (v, k, EmptyString) -> forall i c, String.get i s = Some c -> digit_value c <> None.
Proof.
  revert acc n. induction s as [|d s IH]; intros acc n Hd i c Hg; [by destruct i|]. cbn in Hd. destruct (digit_value d) eqn:E; [|done].
  destruct i as [|i]; [injection Hg as <-; congruence|]. cbn in Hg. by eapply IH.
Qed.

Lemma path_join_suffix base t : t <> EmptyString -> is_absolute t = false -> exists a, path_join base t = a +:+ t.
Proof.
  intros Ht Ha. unfold path_join. rewrite Ha. case_decide; [by exists EmptyString|]. destruct (ends_with_char _ _); [by exists base|].
  exists (base +:+ "/"). by rewrite app_assoc_string.
Qed.

(** A staging directory is not taken for a Parquet file. *)
Lemma step_dir_plain staging idx : ends_with ".parquet" (step_dir staging idx) = false.
Proof.
  destruct (ends_with _ _) eqn:E; [exfalso|done]. apply (ends_with_get _ _ 7 "t"%char) in E; [|done|done]. unfold step_dir in E.
  destruct (path_join_suffix staging ("step-" +:+ pad3 idx)) as [a Ha]; [done|done|]. rewrite Ha in E. rewrite get_app_last in E by done.
  assert (pretty idx <> EmptyString) as Hne by apply (pretty_not_empty (N.of_nat idx)). unfold pad3 in E.
  rewrite get_app_last in E by (destruct (3 - _)%nat; [done|]; cbn; done). rewrite get_app_last in E by done.
  destruct (digits_run_pretty (N.of_nat idx)) as [n Hd]. by eapply digits_get in E; [|exact Hd].
Qed.

Section Splits.
Context `{UrlParser} `{PlanEnv} (d : PDisk) (final_output staging_base : string).
Abbreviation loop := (compile_loop d final_output staging_base).

(** The staging directories are local paths at which there is nothing yet. *)
Definition fresh_staging : Prop := forall idx, starts_with "s3://" (step_dir staging_base idx) = false /\
  has_meta (step_dir staging_base idx) = false /\ entry_exists (step_dir staging_base idx) d = false.

Context (Hfresh : fresh_staging).

Lemma staging_resolves idx : resolve_inputs d (step_dir staging_base idx) = Ok [].
Proof. destruct (Hfresh idx) as (Hs & Hm & He). unfold resolve_inputs. rewrite Hs, glob_literal, He by done. done. Qed.

Lemma validate_empty op output : is_ok (validate_step op [] output) = false.
Proof. unfold validate_step. destruct op as [?????? ?|by_|?|? ?]; try done. cbn. by destruct (decide (by_ = [])). Qed.

(** No step compiles without inputs. *)
Lemma loop_no_inputs fuel idx op rest st : 0 < fuel -> pn_inputs st = [] -> is_ok (loop fuel idx (op :: rest) st) = false.
Proof.
  intros Hf Hi. destruct fuel as [|fuel]; [lia|]. cbn [compile_loop]. destruct (is_barrier_operation op) eqn:Eb.
  - unfold compile_barrier. rewrite Hi. pose proof (validate_empty op (segment_output final_output staging_base (bool_decide (rest = [])) idx)) as Hv.
    by destruct (validate_step _ _ _).
  - cbn [fusible]. rewrite Eb. destruct (fusible rest) as [a b]. unfold compile_fused.
    destruct (try_map operation_to_fused (op :: a)); [|done]. cbn [mbind Result_bind]. cbn [try_map]. rewrite Hi.
    pose proof (validate_empty op (segment_output final_output staging_base (bool_decide (b = [])) idx)) as Hv. by destruct (validate_step _ _ _).
Qed.

(** A split that is not the last step leaves the next one without inputs. *)
Lemma barrier_then_nothing idx op st st' : is_barrier_operation op = true ->
  compile_barrier d final_output staging_base idx op false st = Ok st' -> pn_inputs st' = [].
Proof.
  intros Hop Hb. destruct op; try done. unfold compile_barrier in Hb. apply bind_ok_inv in Hb as (_ & _ & Hb). apply bind_ok_inv in Hb as (ins & Hi & Hb).
  injection Hb as <-. cbn in *. rewrite staging_resolves in Hi. by injection Hi as <-.
Qed.

(** The compiled loop is one fused segment, one split, or a fused segment and a
    split. *)
Lemma loop_shape fuel ops st st' : length ops <= fuel -> ops <> [] -> loop fuel 0 ops st = Ok st' ->
  Forall (fun op => is_barrier_operation op = false) ops \/
  (exists mb g, ops = [OSplit mb g]) \/
  exists fused sp st1 st2, ops = fused ++ [sp] /\ fused <> [] /\ fusible ops = (fused, [sp]) /\
    compile_fused d final_output staging_base 0 fused false st = Ok st1 /\
    compile_barrier d final_output staging_base (length fused) sp true st1 = Ok st2 /\ st' = st2.
Proof.
  intros Hf Hne Hl. destruct fuel as [|fuel]; [destruct ops; cbn in Hf; [done|lia]|]. destruct ops as [|op rest]; [done|]. cbn [compile_loop] in Hl.
  cbn in Hf. destruct (is_barrier_operation op) eqn:Eb.
  { right; left. apply bind_ok_inv in Hl as (st1 & Hb & Hl). destruct rest as [|op2 rest]; [destruct op; try done; eauto|exfalso].
    rewrite bool_decide_eq_false_2 in Hb by done. apply barrier_then_nothing in Hb; [|done].
    pose proof (loop_no_inputs fuel 1 op2 rest st1 ltac:(cbn in Hf; lia) Hb) as Hn. by rewrite Hl in Hn. }
  pose proof (fusible_app (op :: rest)) as Happ. pose proof (fusible_first (op :: rest)) as Hfst. pose proof (fusible_rest (op :: rest)) as Hrest.
  assert (fst (fusible (op :: rest)) <> []) as Hfne by (cbn; rewrite Eb; by destruct (fusible rest)).
  destruct (fusible (op :: rest)) as [fused rest'] eqn:Ef. cbn [fst snd] in *. apply bind_ok_inv in Hl as (st1 & Hb & Hl).
  destruct rest' as [|sp rest']; [left; rewrite <- Happ, app_nil_r; exact Hfst|right; right].
  rewrite bool_decide_eq_false_2 in Hb by done. specialize (Hrest sp rest' eq_refl).
  destruct fuel as [|fuel]; [apply (f_equal length) in Happ; rewrite length_app in Happ; destruct fused; [done|]; cbn in Happ; lia|].
  cbn [compile_loop] in Hl. rewrite Hrest in Hl. apply bind_ok_inv in Hl as (st2 & Hb2 & Hl). destruct rest' as [|op3 rest'].
  - rewrite bool_decide_eq_true_2 in Hb2 by done. exists fused, sp, st1, st2. repeat (split; [done|]). by destruct fuel; injection Hl as <-.
  - exfalso. rewrite bool_decide_eq_false_2 in Hb2 by done. apply barrier_then_nothing in Hb2; [|done].
    assert (0 < fuel) as Hfu by (apply (f_equal length) in Happ; rewrite length_app in Happ; destruct fused; [done|]; cbn in Happ; lia).
    pose proof (loop_no_inputs fuel (S (0 + length fused)) op3 rest' st2 Hfu Hb2) as Hn. by rewrite Hl in Hn.
Qed.
End Splits.

Section SplitRuns.
Context `{UrlParser} `{ParquetDisk} `{Uploads} `{HashOrder} `{ArrowCrate} `{ArrowKernels} `{PlanEnv} `{ExecEnv}.
Context (s3 : bool) (fault : nat -> option ParqknifeError) (detail : string).

(** Without a partition step, a fused segment writes one Parquet file. *)
Lemma fused_needs_layout fused d wr d' : execute_fused_segment s3 fault detail fused d = (Ok wr, d') ->
  fused_partition_by (fu_ops fused) = None -> ends_with ".parquet" (fu_output fused) = true.
Proof.
  intros He Hn. unfold execute_fused_segment, execute_fused_segment_routed in He. rewrite Hn in He.
  destruct (existsb _ _ || _); tinv He; [|destruct (fused_settings _)]; by destruct (ends_with ".parquet" (fu_output fused)).
Qed.

Lemma no_partition_fused ops fops : try_map operation_to_fused ops = Ok fops -> (forall p, OPartition p ∉ ops) -> fused_partition_by fops = None.
Proof.
  intros Ht Hn. apply try_map_Ok in Ht. unfold fused_partition_by.
  assert (omap (fun op => match op with FuPartition cols => Some cols | _ => None end) fops = []) as ->; [|done].
  revert Hn. induction Ht as [|op f ops fops Hf _ IH]; intros Hn; [done|]. cbn. destruct op as [????? [?|] ?|p|?|? ?]; cbn in Hf; try done; injection Hf as <-.
  - apply IH. intros p Hp. apply (Hn p). by right.
  - exfalso. apply (Hn p). by left.
  - apply IH. intros p Hp. apply (Hn p). by right.
Qed.

(** A specification with a split runs only when the split is its only step, unless it
    has a partition step as well: the other steps would have to write one file into a
    staging directory.  The staging directory is a local path without glob characters
    that no file matches. *)
Theorem split_runs_alone id spec elapsed d plan d1 r d2 :
  fresh_staging d (path_join (default "." (path_parent (default EmptyString (sc_output spec)))) (".parqonaut-spec-" +:+ id)) ->
  compile_plan id spec d = Ok plan -> execute_plan s3 fault detail elapsed plan d1 = (Ok r, d2) ->
  (forall op, op ∈ map sp_operation (sc_steps spec) -> is_barrier_operation op = false) \/
  (exists mb g, map sp_operation (sc_steps spec) = [OSplit mb g]) \/
  exists p, OPartition p ∈ map sp_operation (sc_steps spec).
Proof.
  intros Hfresh Hc He. unfold compile_plan in Hc. apply bind_ok_inv in Hc as (u & Hv & Hc). apply bind_ok_inv in Hc as (ins & _ & Hc).
  case_decide; [done|]. destruct (_ && _ && _); [done|]. apply bind_ok_inv in Hc as (st & Hl & Hc). injection Hc as <-.
  set (ops := map sp_operation (sc_steps spec)) in *. assert (ops <> []) as Hne.
  { unfold validate_spec in Hv. case_decide as Hs; [done|]. intros Ho. apply Hs. by apply map_eq_nil in Ho. }
  apply loop_shape in Hl as [Hall|[?|(fused & sp & st1 & st2 & Happ & Hfne & _ & Hcf & Hcb & ->)]]; [| | |exact Hfresh|done|done].
  { left. rewrite Forall_forall in Hall. exact Hall. }
  { by right; left. }
  right; right. destruct (existsb (fun op => match op with OPartition _ => true | _ => false end) ops) eqn:Hno.
  { apply existsb_true in Hno as (op & Hin & Hop). destruct op; try done. eauto. }
  exfalso. unfold compile_fused in Hcf. apply bind_ok_inv in Hcf as (fops & Hfops & Hcf). apply bind_ok_inv in Hcf as (_ & _ & Hcf).
  apply bind_ok_inv in Hcf as (ins1 & _ & Hcf). injection Hcf as <-. unfold compile_barrier in Hcb. apply bind_ok_inv in Hcb as (_ & _ & Hcb).
  apply bind_ok_inv in Hcb as (ins2 & _ & Hcb). injection Hcb as <-. unfold execute_plan in He. cbn [xp_segments pn_segments xp_intermediate_roots app] in He.
  apply tbind_ok in He as (pg & d3 & He & _). cbn [tfold] in He. apply tbind_ok in He as (pg1 & d4 & He & _). cbn [execute_segment] in He.
  apply tbind_ok in He as (wr & d5 & He & _). apply fused_needs_layout in He; [|cbn [fu_ops]; eapply no_partition_fused; [exact Hfops|]].
  - cbn [fu_output segment_output] in He. by rewrite step_dir_plain in He.
  - intros p Hp. rewrite existsb_false in Hno. specialize (Hno (OPartition p)). rewrite Happ in Hno. by discriminate (Hno ltac:(apply elem_of_app; by left)).
Qed.
End SplitRuns.

(** ** Rows through a rewrite *)

(** [SELECT columns WHERE e] on rows whose columns have the given names. *)
Definition row_get (ns : list string) (row : list Value) (c : string) : Value :=
  match position c ns with Some i => default VNull (row !! i) | None => VNull end.

Definition select_rows (ns columns : list string) (e : FilterExpr) (rows : list (list Value)) : list (list Value) :=
  map (fun row => map (row_get ns row) columns) (filter (fun row => row_holds (row_get ns row) e = true) rows).

Lemma row_get_cell b i c : batch_ok b -> row_get (names b) (map (fun a => cell a i) (rb_columns b)) c = cell_at b i c.
Proof.
  intros Hb. unfold row_get, cell_at, column_by_name, names. destruct (position c (map fd_name (rb_schema b))) as [j|]; [|done].
  cbn [mbind option_bind]. rewrite list_lookup_fmap. by destruct (rb_columns b !! j).
Qed.

Lemma selected_rows b columns e : batch_ok b -> selected b columns e = select_rows (names b) columns e (batch_rows b).
Proof.
  intros Hb. unfold selected, select_rows, batch_rows. induction (seq 0 (rb_num_rows b)) as [|i l IH]; [done|]. cbn [map]. rewrite !filter_cons.
  assert (row_holds (row_get (names b) (map (fun a => cell a i) (rb_columns b))) e = row_holds (cell_at b i) e) as ->
    by (apply row_holds_ext; intros c _; by apply row_get_cell).
  case_decide; [|exact IH]. cbn [map]. rewrite IH. f_equal. apply map_ext. intros c. symmetry. by apply row_get_cell.
Qed.

Lemma select_rows_concat ns columns e rowss : concat (map (select_rows ns columns e) rowss) = select_rows ns columns e (concat rowss).
Proof. induction rowss as [|rows rowss IH]; [done|]. cbn. rewrite IH. unfold select_rows. by rewrite filter_app, map_app. Qed.

Lemma on_error_ok {A} g (m : TM A) d a d' : on_error g m d = (Ok a, d') -> m d = (Ok a, d').
Proof. unfold on_error. by destruct (m d) as [[x|[e|]] d1]. Qed.

Section FusedRows.
Context `{UrlParser} `{ParquetDisk} `{Uploads} `{HashOrder} `{ArrowCrate} `{ArrowKernels}.
Context (s3 : bool) (fault : nat -> option ParqknifeError) (detail : string).

(** The batches that a loop of read, change and push collects. *)
Lemma collect_input_ok (f : RecordBatch -> Result ParqknifeError RecordBatch) bs acc d acc' d' :
  tfold (fun acc b => b ← on_error as_columnar (next_read fault b); b ← tpure (f b); mret (acc ++ [b])) bs acc d = (Ok acc', d') ->
  exists out, acc' = acc ++ out /\ Forall2 (fun b c => f b = Ok c) bs out /\ pd_files d' = pd_files d.
Proof.
  revert acc d. induction bs as [|b bs IH]; intros acc d Hf; cbn [tfold] in Hf.
  - apply tret_ok in Hf as [-> ->]. exists []. by rewrite app_nil_r.
  - apply tbind_ok in Hf as (acc1 & d1 & Hs & Hf). tinv Hs. apply on_error_ok, next_read_ok in Hx as [-> Hd]. apply tpure_ok in Hx0 as [Hfb ->].
    destruct (IH _ _ Hf) as (out & -> & Hall & Hd'). exists (x0 :: out). rewrite <- app_assoc. split; [done|]. split; [by constructor|congruence].
Qed.

Lemma collect_fused_ok inputs pipeline d bs d' : collect_fused_batches fault inputs pipeline d = (Ok bs, d') ->
  pd_files d' = pd_files d /\ exists outs, bs = concat outs /\
    Forall2 (fun p out => Forall2 (fun b c => apply_pipeline pipeline b = Ok c) (read_at SOURCE_BATCH d p) out) inputs outs.
Proof.
  unfold collect_fused_batches. enough (forall l acc e acc' e', pd_files e = pd_files d ->
    tfold (fun acc input => sb ← on_error as_columnar (open_parquet fault SOURCE_BATCH input);
      tfold (fun acc b => b ← on_error as_columnar (next_read fault b); b ← tpure (apply_pipeline pipeline b); mret (acc ++ [b])) (snd sb) acc) l acc e = (Ok acc', e') ->
    pd_files e' = pd_files d /\ exists outs, acc' = acc ++ concat outs /\
      Forall2 (fun p out => Forall2 (fun b c => apply_pipeline pipeline b = Ok c) (read_at SOURCE_BATCH d p) out) l outs) as Hgen.
  { intros Hf. by apply Hgen in Hf. }
  induction l as [|p l IH]; intros acc e acc' e' He Hf; cbn [tfold] in Hf.
  - apply tret_ok in Hf as [-> ->]. split; [done|]. exists []. cbn. by rewrite app_nil_r.
  - apply tbind_ok in Hf as (acc1 & e1 & Hs & Hf). apply tbind_ok in Hs as ([s rs] & e2 & Ho & Hs). cbn [snd] in Hs.
    apply on_error_ok, (open_parquet_at _ _ _ _ d) in Ho as (_ & -> & He2); [|by rewrite He].
    apply collect_input_ok in Hs as (out & -> & Hout & He1). destruct (IH _ e1 _ _ ltac:(congruence) Hf) as (Hd' & outs & -> & Hall).
    split; [done|]. exists (out :: outs). cbn. rewrite app_assoc. split; [done|by constructor].
Qed.

(** Writing a file of batches of one schema. *)
Lemma local_sink_ok path schema batches d x d' : local_sink fault path schema batches d = (Ok x, d') -> handles d path = 0 ->
  pd_files d' = <[canon path := {| pf_open := 0; pf_content := Complete schema CSnappy batches |}]> (pd_files d) /\
  Forall (fun b => rb_schema b = schema) batches.
Proof.
  intros Hs Hh. unfold local_sink in Hs. apply tbind_ok in Hs as (u & d1 & Hx & Hs). apply tbind_ok in Hs as (w0 & d2 & Hx0 & Hs).
  apply tbind_ok in Hs as (w1 & d3 & Hx1 & Hs). apply on_error_ok in Hx, Hx0, Hs. assert (pd_files d1 = pd_files d) as Hd1.
  { unfold create_parent in Hx. destruct (path_parent path); [by apply create_dir_all_ok in Hx|by apply tret_ok in Hx as [_ ->]]. }
  apply start_file_ok in Hx0 as [-> Hd2]; [|unfold handles; by rewrite Hd1].
  eapply (tfold_inv (fun dn w e => pd_files e = pd_files d2 /\ Forall (fun b => rb_schema b = schema) dn /\
    w = {| wr_path := path; wr_schema := schema; wr_codec := CSnappy; wr_batches := dn |})) with (dn := []) in Hx1; [| |done].
  - destruct Hx1 as (Hd3 & Hall & ->). split; [|done]. eapply close_ok in Hs; cbn [wr_path] in *; [|rewrite Hd3, Hd2; apply lookup_insert_eq].
    rewrite Hs, Hd3, Hd2, insert_insert_eq, Hd1. done.
  - intros dn b w e w' e' _ (He & Hall & ->) Hw. apply tbind_ok in Hw as (v & e1 & Hv & Hw). apply tpure_ok in Hv as [Hv ->].
    assert (rb_schema b = schema) as Hbs by (unfold map_columnar, validate_batch in Hv; by case_decide).
    apply on_error_ok, write_batch_ok in Hw as [-> He']; [|done]. split; [congruence|]. split; [|done]. apply Forall_app_2; [done|by constructor].
Qed.

(** The names of the columns of a file. *)
Definition names_at (d : PDisk) (p : string) : list string := map fd_name (default [] (schema_at d p)).

Lemma select_batch columns e (m : gmap string string) l b b' : batch_ok b -> columns <> [] -> NoDup columns -> l ≡ₚ map_to_list m ->
  execute_pipeline [TProjection columns; TFilter e; TRename l] b = Ok b' ->
  names b' = map (rename_to m) columns /\ batch_rows b' = select_rows (names b) columns e (batch_rows b).
Proof.
  intros Hb Hne Hnd Hp Hx. destruct (select_steps b columns e m l Hb Hne Hnd Hp) as [(_ & b2 & Hx2 & _ & Hn & Hr)|[_ Hr]].
  - rewrite Hx in Hx2. injection Hx2 as <-. split; [done|]. rewrite Hr. by apply selected_rows.
  - by rewrite Hx in Hr.
Qed.

Lemma select_file columns e (m : gmap string string) l p s d out : columns <> [] -> NoDup columns -> l ≡ₚ map_to_list m -> holds s d p ->
  Forall2 (fun b c => execute_pipeline [TProjection columns; TFilter e; TRename l] b = Ok c) (read_at SOURCE_BATCH d p) out ->
  Forall (fun c => names c = map (rename_to m) columns) out /\
  concat (map batch_rows out) = select_rows (names_at d p) columns e (rows_at d p).
Proof.
  intros Hne Hnd Hp Hh Hall. rewrite <- (read_at_rows SOURCE_BATCH d p s Hh). destruct Hh as [Hs Hbs].
  assert (Forall (fun b => batch_ok b /\ rb_schema b = s) (read_at SOURCE_BATCH d p)) as Hok by (unfold read_at; rewrite Hs; by apply pq_read_ok).
  unfold names_at. rewrite Hs. cbn [default]. rewrite <- select_rows_concat. induction Hall as [|b c bs cs Hc _ IH]; [done|].
  apply Forall_cons in Hok as [[Hb Hbsc] Hok]. destruct (select_batch columns e m l b c Hb Hne Hnd Hp Hc) as [Hn Hr]. destruct (IH Hok) as [Hn' Hr'].
  split; [by constructor|]. cbn. rewrite Hr, Hr'. unfold names. by rewrite Hbsc.
Qed.

(** C25: A segment on local files whose one operation is a rewrite with a projection, a
    filter and renames and that returns Ok has written, in the order of its inputs,
    exactly the rows for which the filter holds, with the projected columns renamed,
    whatever the batches they are read in.  The projected columns are distinct, the
    inputs finished files and the output open nowhere else.  (A filter holds in the language's own
    two-valued sense: [!=] and the NOT of an equality keep nulls.) *)
Theorem rewrite_step_selects fused comp rg columns text e (m : gmap string string) stats d wr d' :
  fu_ops fused = [FuRewrite comp rg (Some columns) (Some text) (Some m) None stats] ->
  parse_filter detail text = Ok e -> columns <> [] -> NoDup columns ->
  existsb location_is_remote (fu_inputs fused) || location_is_remote (fu_output fused) = false ->
  Forall (fun p => exists s, holds s d p) (fu_inputs fused) -> handles d (fu_output fused) = 0 ->
  execute_fused_segment s3 fault detail fused d = (Ok wr, d') ->
  rows_at d' (fu_output fused) = concat (map (fun p => select_rows (names_at d p) columns e (rows_at d p)) (fu_inputs fused)) /\
  names_at d' (fu_output fused) = map (rename_to m) columns /\
  (forall q, q <> canon (fu_output fused) -> pd_files d' !! q = pd_files d !! q) /\ wr = (1, length (fu_inputs fused)).
Proof.
  intros Hops He Hne Hnd Hloc Hin Hh Hx. unfold execute_fused_segment in Hx. rewrite Hloc in Hx.
  apply tbind_ok in Hx as (pl & d0 & Hpl & Hx). apply tpure_ok in Hpl as [Hpl ->]. apply tbind_ok in Hx as (bs & d1 & Hbs & Hx).
  rewrite Hops in *. cbn in Hpl. unfold pipeline_from_rewrite_ops in Hpl. rewrite He in Hpl. cbn in Hpl. injection Hpl as <-.
  destruct (fused_settings _) as [cs rgs]. cbn [fused_partition_by omap list_omap last] in Hx.
  destruct (ends_with _ _); [|done]. destruct bs as [|first rest] eqn:Eb; [done|]. rewrite <- Eb in *. apply tbind_ok in Hx as (u & d2 & Hsink & Hx).
  apply tret_ok in Hx as [-> ->]. apply collect_fused_ok in Hbs as (Hd1 & outs & Hcat & Hall).
  apply local_sink_ok in Hsink as [Hd2 Hsch]; [|unfold handles in *; by rewrite Hd1].
  assert (Forall (fun c => names c = map (rename_to m) columns) bs /\
    concat (map batch_rows bs) = concat (map (fun p => select_rows (names_at d p) columns e (rows_at d p)) (fu_inputs fused))) as [Hn Hr].
  { rewrite Hcat. clear -Hall Hin Hne Hnd. revert Hin Hall. generalize (fu_inputs fused) as ps. intros ps Hin Hall. induction Hall as [|p out ps outs Hout _ IH]; [done|]. apply Forall_cons in Hin as [[s Hs] Hin].
    destruct (IH Hin) as [IHn IHr]. destruct (select_file columns e m _ p s d out Hne Hnd (hash_order_perm _ _) Hs Hout) as [Hn Hr].
    cbn. rewrite map_app, concat_app, Hr, IHr. split; [by apply Forall_app_2|done]. }
  assert (batches_at d2 (fu_output fused) = bs /\ schema_at d2 (fu_output fused) = Some (rb_schema first)) as [Hb2 Hs2]
    by (unfold batches_at, schema_at; by rewrite Hd2, lookup_insert_eq).
  split; [by rewrite <- Hr; unfold rows_at at 1; rewrite Hb2|]. split.
  - rewrite Eb in Hn. apply Forall_cons in Hn as [Hn _]. unfold names_at. by rewrite Hs2.
  - split; [|done]. intros q Hq. by rewrite Hd2, lookup_insert_ne, Hd1.
Qed.
End FusedRows.

(** ** Several rewrites, several inputs *)

Section Ignored.
Context `{UrlParser} `{ParquetDisk} `{Uploads} `{HashOrder} `{ArrowCrate} `{ArrowKernels}.
Context (s3 : bool) (fault : nat -> option ParqknifeError) (detail : string).

(** A rewrite without its projection, filter, renames and casts. *)
Definition settings_only (op : FusedOperation) : FusedOperation :=
  match op with FuRewrite comp rg _ _ _ _ stats => FuRewrite comp rg None None None None stats | _ => op end.

Definition with_ops (ops : list FusedOperation) (f : FusedPlanSegment) : FusedPlanSegment :=
  {| fu_step_indices := fu_step_indices f; fu_inputs := fu_inputs f; fu_output := fu_output f; fu_ops := ops;
     fu_is_intermediate := fu_is_intermediate f; fu_storage := fu_storage f |}.

Lemma partition_by_settings ops : fused_partition_by (map settings_only ops) = fused_partition_by ops.
Proof. unfold fused_partition_by. f_equal. induction ops as [|[] ops IH]; cbn; [done|done|by f_equal|done]. Qed.

Lemma settings_settings ops cs :
  foldl (fun cs op => match op with
                      | FuRewrite comp rg _ _ _ _ _ => (compression_label <$> comp, rg)
                      | FuPartition _ => cs
                      | FuMerge rg => (fst cs, rg)
                      end) cs (map settings_only ops) =
  foldl (fun cs op => match op with
                      | FuRewrite comp rg _ _ _ _ _ => (compression_label <$> comp, rg)
                      | FuPartition _ => cs
                      | FuMerge rg => (fst cs, rg)
                      end) cs ops.
Proof. revert cs. induction ops as [|[] ops IH]; intros cs; cbn; [done|apply IH..]. Qed.

(** Of the rewrites of a fused segment only the first one changes rows: dropping
    the projections, filters, renames and casts of the later ones makes no
    difference. *)
Theorem later_rewrites_ignored fused comp rg projection filter rename cast stats rest d :
  fu_ops fused = FuRewrite comp rg projection filter rename cast stats :: rest ->
  execute_fused_segment s3 fault detail fused d =
  execute_fused_segment s3 fault detail (with_ops (FuRewrite comp rg projection filter rename cast stats :: map settings_only rest) fused) d.
Proof.
  intros Hops. unfold execute_fused_segment, execute_fused_segment_routed, with_ops. cbn [fu_inputs fu_output fu_ops]. rewrite Hops.
  assert (forall op l, fused_partition_by (op :: map settings_only l) = fused_partition_by (op :: l)) as Hp.
  { intros op l. pose proof (partition_by_settings (op :: l)) as Hl. rewrite <- Hl. by destruct op. }
  rewrite Hp. unfold fused_settings. cbn [foldl]. rewrite settings_settings. done.
Qed.
End Ignored.

Section LastInput.
Context `{UrlParser} `{ParquetDisk} `{HashOrder} `{ArrowCrate} `{ArrowKernels} `{PlanEnv}.
Context (fault : nat -> option ParqknifeError) (detail : string).

Lemma rewrite_file_ok input output compression rg d x d' : rewrite_file fault input output compression rg [] d = (Ok x, d') ->
  handles d output = 0 ->
  exists f, pd_files d' = <[canon output := f]> (pd_files d) /\ batches_at d' output = read_at READER_BATCH d input /\ handles d' output = 0.
Proof.
  intros Hr Hh. unfold rewrite_file in Hr. apply tbind_ok in Hr as ([s bs] & d1 & Ho & Hr). apply tbind_ok in Hr as (comp & d2 & Hc & Hr).
  apply tbind_ok in Hr as (w & d3 & Hw & Hr). apply tbind_ok in Hr as (w' & d4 & Hf & Hr). cbn [fst snd] in *.
  apply (open_parquet_at _ _ _ _ d) in Ho as (Hsc & -> & Hd1); [|done]. apply codec_of_ok in Hc as [-> _].
  apply start_file_ok in Hw as [-> Hd3]; [|unfold handles in *; by rewrite Hd1].
  assert (Forall (fun b => rb_schema b = s) (read_at READER_BATCH d input)) as Hsch by (unfold read_at; rewrite Hsc; apply pq_read_schema).
  rewrite Forall_forall in Hsch.
  eapply (tfold_inv (fun dn w e => pd_files e = pd_files d3 /\
    w = {| wr_path := output; wr_schema := s; wr_codec := default CUncompressed comp; wr_batches := dn |})) with (dn := []) in Hf; [|clear Hf|done].
  - destruct Hf as (Hd4 & ->). eapply close_ok in Hr; cbn [wr_path] in *; [|rewrite Hd4, Hd3; apply lookup_insert_eq].
    rewrite Hd4, Hd3, insert_insert_eq, Hd1 in Hr. eexists. split; [exact Hr|]. unfold batches_at at 1, handles. by rewrite Hr, lookup_insert_eq.
  - intros dn b w e w2 e' Hin (He & ->) Hs. unfold copy_batch in Hs. apply tbind_ok in Hs as (b1 & e1 & Hb & Hs).
    apply next_read_ok in Hb as [-> Hb]. apply tbind_ok in Hs as (c & e2 & Hp & Hs). apply tstop_ok in Hp as [Hp ->]. injection Hp as <-.
    apply write_batch_ok in Hs as [-> Hs]; [|by apply Hsch]. split; [congruence|done].
Qed.

(** [prqnt rewrite] with several inputs writes them one over the other: the output
    has the rows of the last one only. *)
Theorem cli_rewrite_keeps_last input output compression rg d ps p d' :
  resolve_inputs d input = Ok (ps ++ [p]) -> (forall q, q ∈ ps ++ [p] -> canon q <> canon output) -> (exists s, holds s d p) -> handles d output = 0 ->
  run_rewrite fault detail input output compression rg None None d = (Ok tt, d') ->
  rows_at d' output = rows_at d p.
Proof.
  intros Hres Hap [s Hs] Hh Hr. unfold run_rewrite in Hr. apply tbind_ok in Hr as (inputs & d1 & Hi & Hr). unfold resolve_now in Hi. rewrite Hres in Hi.
  injection Hi as <- <-. apply tbind_ok in Hr as (fl & d2 & Hf & Hr). apply tret_ok in Hf as [-> ->]. cbn [app] in Hr. rewrite tfold_app in Hr.
  apply tbind_ok in Hr as (u & d3 & Hps & Hr). cbn [tfold] in Hr. apply tbind_ok in Hr as (u' & d4 & Hlast & Hr). apply tret_ok in Hr as [_ ->].
  eapply (tfold_inv (fun _ _ e => handles e output = 0 /\ forall q, q <> canon output -> pd_files e !! q = pd_files d !! q)) with (dn := []) in Hps;
    [|clear Hps|by split].
  - destruct Hps as [Hh3 Hsame]. apply rewrite_file_ok in Hlast as (f & _ & Hb & _); [|done].
    assert (read_at READER_BATCH d3 p = read_at READER_BATCH d p) as He
      by (unfold read_at, schema_at, batches_at; rewrite Hsame; [done|]; apply Hap, elem_of_app; right; by left).
    unfold rows_at at 1. rewrite Hb, He. by eapply read_at_rows.
  - intros dn q u0 e u1 e' Hq [He Hsame] Hrf. apply rewrite_file_ok in Hrf as (f & Hd & _ & Hh'); [|done]. split; [done|].
    intros q' Hq'. rewrite Hd, lookup_insert_ne by done. by apply Hsame.
Qed.
End LastInput.

(** ** Rewrites on storage *)

Section StorageRows.
Context `{UrlParser} `{ParquetDisk} `{Uploads} `{HashOrder} `{ArrowCrate} `{ArrowKernels}.
Context (s3 : bool) (fault : nat -> option ParqknifeError) (detail : string).

Lemma storage_source_ok o d s bs d' : storage_source s3 fault o d = (Ok (s, bs), d') ->
  schema_at d (object_name o) = Some s /\ bs = read_at SOURCE_BATCH d (object_name o) /\ pd_files d' = pd_files d.
Proof.
  unfold storage_source. intros Hs. apply tbind_ok in Hs as (u & d1 & Hb & Hs). apply tstop_ok in Hb as [_ ->]. apply on_error_ok in Hs.
  by eapply open_parquet_at.
Qed.

Lemma fthen_ok {S} (o : outcome S) k d st' u d' : fthen o k d = ((st', Ok u), d') -> exists st d1, o d = ((st, Ok tt), d1) /\ k st d1 = ((st', Ok u), d').
Proof. unfold fthen. destruct (o d) as [[st [[]|e]] d1]; [eauto|done]. Qed.

Lemma attempt_ok {A S} (st : S) (m : TM A) k d st' u d' : attempt st m k d = ((st', Ok u), d') -> exists a d1, m d = (Ok a, d1) /\ k a d1 = ((st', Ok u), d').
Proof. unfold attempt. destruct (m d) as [[a|e] d1]; [eauto|done]. Qed.

Lemma sink_step_ok schema acc b d acc' d' : sink_step schema acc b d = (Ok acc', d') -> acc' = acc ++ [b] /\ rb_schema b = schema /\ d' = d.
Proof.
  unfold sink_step. intros Hs. apply tbind_ok in Hs as (u & d1 & Hv & Hs). apply tpure_ok in Hv as [Hv ->]. apply tret_ok in Hs as [-> ->].
  unfold map_columnar, validate_batch in Hv. case_decide; [done|done].
Qed.

Definition piped (pipeline : option (list Transform)) (d : PDisk) (uri : string) (out : list RecordBatch) : Prop :=
  exists o, parse_object uri = Ok o /\ Forall2 (fun b c => apply_pipeline pipeline b = Ok c) (read_at SOURCE_BATCH d (object_name o)) out.

Lemma feed_input_ok schema pipeline bs : forall acc d acc' u d',
  source_feed fault bs _ (fun acc b =>
    b ← tpure (map_columnar (map_err (fun e => COther (parqknife_error_display e)) (apply_pipeline pipeline b))); sink_step schema acc b) acc d = ((acc', Ok u), d') ->
  exists out, acc' = acc ++ out /\ Forall2 (fun b c => apply_pipeline pipeline b = Ok c) bs out /\ Forall (fun b => rb_schema b = schema) out /\ pd_files d' = pd_files d.
Proof.
  induction bs as [|b bs IH]; intros acc d acc' u d' Hf; unfold source_feed in Hf; cbn [ffold] in Hf.
  - injection Hf as <- _ <-. exists []. by rewrite app_nil_r.
  - apply fthen_ok in Hf as (acc1 & d1 & Hs & Hf). apply attempt_ok in Hs as (acc2 & d2 & Hs & He). injection He as <- <-.
    apply tbind_ok in Hs as (b1 & d3 & Hn & Hs). apply on_error_ok, next_read_ok in Hn as [-> Hd2].
    apply tbind_ok in Hs as (c & d4 & Hp & Hs). apply tpure_ok in Hp as [Hp ->]. apply sink_step_ok in Hs as (-> & Hc & ->).
    destruct (IH _ _ _ _ _ Hf) as (out & -> & Hall & Hsch & Hd). exists (c :: out). rewrite <- app_assoc. split; [done|].
    split; [constructor; [|done]; unfold map_columnar in Hp; by destruct (apply_pipeline pipeline b); [injection Hp as ->|]|].
    split; [by constructor|congruence].
Qed.

Lemma fused_feed_ok schema pipeline inputs : forall acc d acc' u d', fused_input_feed s3 fault inputs pipeline _ (sink_step schema) acc d = ((acc', Ok u), d') ->
  exists outs, acc' = acc ++ concat outs /\ Forall2 (piped pipeline d) inputs outs /\ Forall (fun b => rb_schema b = schema) (concat outs) /\ pd_files d' = pd_files d.
Proof.
  induction inputs as [|uri inputs IH]; intros acc d acc' u d' Hf; unfold fused_input_feed in Hf; cbn [ffold] in Hf.
  - injection Hf as <- _ <-. exists []. cbn. by rewrite app_nil_r.
  - apply fthen_ok in Hf as (acc1 & d1 & Hs & Hf). apply attempt_ok in Hs as ([s bs] & d3 & Ho & Hs).
    apply tbind_ok in Ho as (o & d2 & Hp & Ho). apply tpure_ok in Hp as [Hp ->]. apply storage_source_ok in Ho as (_ & -> & Hd3). cbn [snd] in Hs.
    apply feed_input_ok in Hs as (out & -> & Hall & Hsch & Hd1). destruct (IH _ _ _ _ _ Hf) as (outs & -> & Hrest & Hschs & Hd').
    exists (out :: outs). cbn. rewrite app_assoc. split; [done|]. split; [constructor|split; [by apply Forall_app_2|congruence]].
    + exists o. split; [|done]. unfold map_columnar in Hp. destruct (parse_object uri); [by injection Hp as ->|done].
    + eapply Forall2_impl; [exact Hrest|]. intros u0 ou (o' & Ho' & Hall'). exists o'. split; [done|]. unfold read_at, schema_at, batches_at in *.
      by rewrite <- Hd3, <- Hd1.
Qed.

(** A rewrite on storage that returns has left at its output exactly what its
    pipeline makes of the inputs, and its schema is the first input's: a pipeline
    that changes the schema of a batch never returns. *)
Theorem routed_rewrite_exact inputs output pipeline d d' :
  fused_rewrite_to_storage s3 fault inputs output pipeline d = (Ok tt, d') ->
  exists o first o1 s outs, parse_object output = Ok o /\ head inputs = Some first /\ parse_object first = Ok o1 /\ schema_at d (object_name o1) = Some s /\
    Forall2 (piped pipeline d) inputs outs /\ Forall (fun b => rb_schema b = s) (concat outs) /\
    schema_at d' (object_name o) = Some s /\ batches_at d' (object_name o) = concat outs /\
    forall q, q <> canon (object_name o) -> pd_files d' !! q = pd_files d !! q.
Proof.
  intros Hf. unfold fused_rewrite_to_storage in Hf. apply tbind_ok in Hf as (o & d1 & Ho & Hf). apply tpure_ok in Ho as [Ho ->].
  apply tbind_ok in Hf as (u & d2 & Hb & Hf). apply tstop_ok in Hb as [_ ->]. apply tbind_ok in Hf as (s & d3 & Hs & Hf).
  unfold schema_from_inputs in Hs. destruct inputs as [|first inputs]; [done|]. apply tbind_ok in Hs as (o1 & d4 & Ho1 & Hs). apply tpure_ok in Ho1 as [Ho1 ->].
  apply tbind_ok in Hs as ([s1 bs1] & d5 & Hsrc & Hs). apply tret_ok in Hs as [-> ->]. apply storage_source_ok in Hsrc as (Hsch & _ & Hd5). cbn [fst] in Hf.
  unfold storage_sink in Hf. apply tbind_ok in Hf as (v & d6 & Hb & Hf). apply tstop_ok in Hb as [_ ->]. apply tbind_ok in Hf as (w & d6 & Hw & Hf).
  apply on_error_ok, effect_ok in Hw. injection Hw as <- <-. unfold sink_stream in Hf.
  destruct (fused_input_feed _ _ _ _ _ _ _ _) as [[bs [x|e]] d7] eqn:Hfeed; [|done].
  apply (fused_feed_ok s1 pipeline (first :: inputs) []) in Hfeed as (outs & -> & Hall & Hss & Hd7). unfold upload in Hf. destruct (fault _); [done|]. injection Hf as <-.
  exists o, first, o1, s1, outs. unfold map_storage in *. split; [by destruct (parse_object output); [injection Ho as ->|]|]. split; [done|].
  split; [by destruct (parse_object first); [injection Ho1 as ->|]|]. split; [done|]. split.
  { eapply Forall2_impl; [exact Hall|]. intros u0 ou (o' & Ho' & Hall'). exists o'. split; [done|]. unfold read_at, schema_at, batches_at in *. by rewrite <- Hd5. }
  split; [done|]. unfold schema_at, batches_at. cbn. rewrite !lookup_insert_eq. cbn. split; [done|]. split; [done|].
  intros q Hq. rewrite lookup_insert_ne by done. by rewrite Hd7, Hd5.
Qed.

Lemma source_sink_ok schema bs : forall acc d acc' u d', source_feed fault bs _ (sink_step schema) acc d = ((acc', Ok u), d') ->
  acc' = acc ++ bs /\ pd_files d' = pd_files d.
Proof.
  induction bs as [|b bs IH]; intros acc d acc' u d' Hf; unfold source_feed in Hf; cbn [ffold] in Hf.
  - injection Hf as <- _ <-. by rewrite app_nil_r.
  - apply fthen_ok in Hf as (acc1 & d1 & Hs & Hf). apply attempt_ok in Hs as (acc2 & d2 & Hs & He). injection He as <- <-.
    apply tbind_ok in Hs as (b1 & d3 & Hn & Hs). apply on_error_ok, next_read_ok in Hn as [-> Hd2]. apply sink_step_ok in Hs as (-> & _ & ->).
    destruct (IH _ _ _ _ _ Hf) as [-> Hd]. rewrite <- app_assoc. split; [done|congruence].
Qed.

(** The batches an object of the given schema is read in. *)
Definition read_object (schema : Schema) (d : PDisk) (uri : string) (out : list RecordBatch) : Prop :=
  exists o, parse_object uri = Ok o /\ schema_at d (object_name o) = Some schema /\ out = read_at SOURCE_BATCH d (object_name o).

Lemma read_object_files schema d d' uri out : pd_files d' = pd_files d -> read_object schema d' uri out -> read_object schema d uri out.
Proof. intros Hd (o & Hp & Hs & Ho). exists o. unfold read_at, schema_at, batches_at in *. by rewrite <- Hd. Qed.

Lemma merge_feed_ok schema inputs : s3 = true -> forall acc d acc' u d', merge_feed s3 fault schema inputs _ (sink_step schema) acc d = ((acc', Ok u), d') ->
  exists outs, acc' = acc ++ concat outs /\ Forall2 (read_object schema d) inputs outs /\ pd_files d' = pd_files d.
Proof.
  intros Hs3. induction inputs as [|uri inputs IH]; intros acc d acc' u d' Hf; cbn [merge_feed] in Hf.
  - injection Hf as <- _ <-. exists []. cbn. by rewrite app_nil_r.
  - apply attempt_ok in Hf as (o & d1 & Hp & Hf). apply tpure_ok in Hp as [Hp ->]. unfold backend_for in Hf. rewrite Hs3, andb_false_r in Hf. rewrite <- Hs3 in Hf.
    apply attempt_ok in Hf as (bs & d2 & Hsrc & Hf). apply tbind_ok in Hsrc as ([s bs'] & d3 & Ho & Hsrc). apply storage_source_ok in Ho as (Hsch & -> & Hd3).
    apply tbind_ok in Hsrc as (v & d4 & Hc & Hsrc). apply tret_ok in Hsrc as [-> ->]. cbn [fst snd] in *.
    case_decide; [|by apply tpure_ok in Hc as [? _]]. subst s. apply tret_ok in Hc as [_ ->].
    apply fthen_ok in Hf as (acc1 & d5 & Hsf & Hf). apply source_sink_ok in Hsf as [-> Hd5]. destruct (IH _ _ _ _ _ Hf) as (outs & -> & Hall & Hd').
    exists (read_at SOURCE_BATCH d (object_name o) :: outs). cbn. rewrite app_assoc. split; [done|]. split; [|congruence]. constructor.
    + exists o. split; [|done]. unfold map_columnar in Hp. destruct (parse_object uri); [by injection Hp as ->|done].
    + eapply Forall2_impl; [exact Hall|]. intros w out. apply read_object_files. congruence.
Qed.

(** A merge on storage that returns has left at its output the batches of every
    input, one input after the other in the order of their names; all of them have
    the schema of the first. *)
Theorem routed_merge_exact inputs output d d' : s3 = true -> merge_parquet_storage s3 fault inputs output d = (Ok tt, d') ->
  exists o s outs, parse_object output = Ok o /\ inputs <> [] /\ Forall2 (read_object s d) (sort_by str_leb inputs) outs /\
    schema_at d' (object_name o) = Some s /\ batches_at d' (object_name o) = concat outs /\
    forall q, q <> canon (object_name o) -> pd_files d' !! q = pd_files d !! q.
Proof.
  intros Hs3 Hf. unfold merge_parquet_storage in Hf. destruct (sort_by str_leb inputs) as [|first rest] eqn:Esort; [done|].
  apply tbind_ok in Hf as (o & d1 & Ho & Hf). apply tpure_ok in Ho as [Ho ->]. apply tbind_ok in Hf as (o1 & d2 & Ho1 & Hf). apply tpure_ok in Ho1 as [_ ->].
  apply tbind_ok in Hf as ([s bs] & d3 & Hsrc & Hf). apply storage_source_ok in Hsrc as (Hsch & _ & Hd3). cbn [fst] in Hf.
  unfold storage_sink in Hf. apply tbind_ok in Hf as (v & d4 & Hb & Hf). apply tstop_ok in Hb as [_ ->]. apply tbind_ok in Hf as (w & d4 & Hw & Hf).
  apply on_error_ok, effect_ok in Hw. injection Hw as <- <-. unfold sink_stream in Hf.
  destruct (merge_feed _ _ _ _ _ _ _ _) as [[bs' [x|e]] d5] eqn:Hfeed; [|done]. apply merge_feed_ok in Hfeed as (outs & -> & Hall & Hd5); [|done].
  unfold upload in Hf. destruct (fault _); [done|]. injection Hf as <-. exists o, s, outs.
  split; [unfold map_storage in Ho; by destruct (parse_object output); [injection Ho as ->|]|]. split; [by intros ->|].
  split; [eapply Forall2_impl; [exact Hall|]; intros u0 ou; by apply read_object_files|].
  unfold schema_at, batches_at. cbn. rewrite !lookup_insert_eq. cbn. split; [done|]. split; [done|].
  intros q Hq. rewrite lookup_insert_ne by done. by rewrite Hd5, Hd3.
Qed.
End StorageRows.
