(* ===== verification/TransformExamples.v ===== *)
(** Concrete transforms: instances of the transform engine's parameters, its claims
    at concrete inputs, and its behaviour in corners that its documentation does
    not mention. *)

From Stdlib Require Import Ascii SpecFloat.
From S2P Require Import Prelude BTree TypeUnify RustNum Location Execute ScanInfer StreamFs StreamColumns StreamColumnsProofs StreamPipeline StreamExamples BatchExamples.
From S2P Require Import TransformFilter TransformOps TransformFiles TransformFilesProofs TransformPlan.

(** * The [arrow] kernels *)

(** The entries of an array at the given rows. *)
Definition pick {A} (l : list (option A)) (rows : list nat) : list (option A) := map (fun i => mjoin (l !! i)) rows.

Definition pick_array (a : Array) (rows : list nat) : Array :=
  match a with
  | Int32Array l => Int32Array (pick l rows)
  | Int64Array l => Int64Array (pick l rows)
  | Float64Array l => Float64Array (pick l rows)
  | StringArray l => StringArray (pick l rows)
  | BooleanArray l => BooleanArray (pick l rows)
  | LargeStringArray l => LargeStringArray (pick l rows)
  | OtherArray dt valid => OtherArray dt (map (fun i => default false (valid !! i)) rows)
  end.

Lemma pick_cell a rows j i : rows !! j = Some i -> cell (pick_array a rows) j = cell a i.
Proof.
  intros Hj. destruct a; cbn [pick_array cell]; unfold cell_of, pick; rewrite list_lookup_fmap, Hj; cbn; try done; by destruct (_ !! i) as [[?|]|].
Qed.

Lemma pick_shape a rows : array_len (pick_array a rows) = length rows /\ array_type (pick_array a rows) = array_type a /\ (array_wf a -> array_wf (pick_array a rows)).
Proof. destruct a; cbn; unfold pick; rewrite ?length_map; done. Qed.

Definition filter_batch (b : RecordBatch) (mask : list (option bool)) : RecordBatch :=
  let rows := kept mask (seq 0 (rb_num_rows b)) in
  {| rb_schema := rb_schema b; rb_columns := map (fun a => pick_array a rows) (rb_columns b); rb_num_rows := length rows |}.

Lemma kept_map {A B} (g : A -> B) mask l : kept mask (map g l) = map g (kept mask l).
Proof.
  revert l. induction mask as [|m mask IH]; intros [|x l]; [done..|]. unfold kept in *. cbn [map zip_with omap list_omap fst snd].
  case_decide; cbn [map]; by rewrite IH.
Qed.

Lemma kept_elem {A} mask (l : list A) x : x ∈ kept mask l -> x ∈ l.
Proof.
  revert l. induction mask as [|m mask IH]; intros [|y l]; try (by intros ?%elem_of_nil). unfold kept in *. cbn [zip_with omap list_omap fst snd].
  case_decide; [intros [->|Hx]%elem_of_cons; [by left|right; by apply IH]|intros Hx; right; by apply IH].
Qed.

Lemma filter_batch_spec b mask : batch_ok b -> batch_ok (filter_batch b mask) /\ rb_schema (filter_batch b mask) = rb_schema b /\
  batch_rows (filter_batch b mask) = kept mask (batch_rows b).
Proof.
  intros [Hw Hf]. set (rows := kept mask (seq 0 (rb_num_rows b))). split; [split|split; [done|]].
  - unfold batch_wf, filter_batch in *. cbn. fold rows. rewrite Forall_map. eapply Forall_impl; [exact Hw|]. intros a [Ha Hl].
    destruct (pick_shape a rows) as (Hl' & _ & Hwf). cbn. split; [by apply Hwf|done].
  - unfold filter_batch. cbn. fold rows. unfold batch_wf in Hw. rewrite Forall2_fmap_r. apply Forall2_same_length_lookup. split; [by eapply Forall2_length|].
    intros i f a Hfi Hai. pose proof (Forall2_lookup_lr _ _ _ _ _ _ Hf Hfi Hai) as [Hft Hn]. rewrite Forall_lookup in Hw. destruct (Hw i a Hai) as [_ Hl].
    destruct (pick_shape a rows) as (Hl' & Ht & _). split; [unfold column_fits in *; by rewrite Ht|]. destruct Hn as [Hn|Hn]; [by left|right].
    rewrite Hl'. intros j Hj. destruct (lookup_lt_is_Some_2 rows j Hj) as [r Hr]. unfold is_null. rewrite (pick_cell a rows j r Hr).
    apply Hn. apply list_elem_of_lookup_2, kept_elem, elem_of_seq in Hr. lia.
  - unfold batch_rows at 2. rewrite kept_map. fold rows. unfold batch_rows, filter_batch. cbn. fold rows. apply list_eq. intros j.
    rewrite !list_lookup_fmap. destruct (rows !! j) as [r|] eqn:Hr.
    + rewrite lookup_seq_lt by by eapply lookup_lt_Some. cbn. f_equal. rewrite map_map. apply map_ext. intros a. by apply pick_cell.
    + apply lookup_ge_None in Hr. by rewrite lookup_seq_ge.
Qed.

Definition cast_int (a : Array) (t : DataType) : Result string Array :=
  match a, t with Int32Array l, AInt64 => Ok (Int64Array l) | _, _ => Err "Unsupported cast" end.

#[global] Instance plain_kernels : ArrowKernels.
Proof.
  refine {| k_and l r := if decide (length l = length r) then Ok (zip_with kleene_and l r) else Err "arrays must have the same length";
            k_or l r := if decide (length l = length r) then Ok (zip_with kleene_or l r) else Err "arrays must have the same length";
            k_not l := Ok (map (fmap negb) l);
            k_is_null a := Ok (map (fun i => Some (is_null a i)) (seq 0 (array_len a)));
            k_is_not_null a := Ok (map (fun i => Some (negb (is_null a i))) (seq 0 (array_len a)));
            k_filter b mask := Ok (filter_batch b mask);
            k_cast := cast_int |}.
  - intros l r Hl. by rewrite decide_True.
  - intros l r Hl. by rewrite decide_True.
  - done.
  - done.
  - done.
  - intros b mask Hb _. exists (filter_batch b mask). split; [done|]. by apply filter_batch_spec.
  - intros a t a' Hc. destruct a as [l| | | | | |]; try done. destruct t; try done. by injection Hc as <-.
Defined.

(** * Disk, hash order and file system *)

(** Paths are files of their own, a file is read in the batches it was written in,
    a batch of another schema is refused, and a batch is as large as it has rows. *)
Lemma one_schema s bs : Forall (fun b => batch_ok b /\ rb_schema b = s) bs -> filter (fun b => rb_schema b = s) bs = bs.
Proof. induction 1 as [|b bs [_ Hb] _ IH]; [done|]. by rewrite filter_cons_True, IH. Qed.

#[global] Instance plain_disk : ParquetDisk.
Proof.
  refine {| canon p := p; pq_read _ s bs := filter (fun b => rb_schema b = s) bs;
            pq_write s b := if decide (rb_schema b = s) then Ok b else Err "Arrow: Incompatible type";
            memory_size b := Z.of_nat (rb_num_rows b); not_parquet := "Invalid Parquet file" |}.
  - intros _ s bs Hall. by rewrite one_schema.
  - intros _ s bs Hall. by rewrite one_schema.
  - intros _ s bs. apply Forall_forall. intros b Hb. by apply list_elem_of_filter in Hb as [? _].
  - intros b. by rewrite decide_True.
  - intros b. lia.
Defined.

#[global] Instance insertion_order : HashOrder := {| hash_order := fun A l => l; hash_order_perm A l := Permutation_refl l |}.

Definition at_path (p : string) (d : PDisk) : bool := bool_decide (is_Some (pd_files d !! p)).

#[global] Instance plain_paths_env : PlanEnv := {|
  glob p d := Ok (if at_path p d then [Ok p] else []);
  entry_exists := at_path; is_file := at_path; dir_has_entries _ _ := false;
  glob_literal p d _ := eq_refl |}.

#[global] Instance no_trees : ExecEnv := {|
  tree_files _ _ := []; file_len _ _ := None; without_tree _ d := d; plan_json _ := Ok "{}" |}.

(** Uploads that were left behind finish. *)
#[global] Instance finished_uploads : Uploads := {| upload_finishes _ := true |}.

Definition no_fault (n : nat) : option ParqknifeError := None.

(** * Batches *)

Definition field (name : string) (t : DataType) : Field := {| fd_name := name; fd_type := t; fd_nullable := true |}.

Definition people : Schema := [field "id" AInt64; field "city" AUtf8; field "note" AUtf8].

Definition batch (rows : list (Z * option string)) : RecordBatch :=
  {| rb_schema := people;
     rb_columns := [Int64Array (map (fun r => Some (fst r)) rows); StringArray (map snd rows); StringArray (map (fun _ => None) rows)];
     rb_num_rows := length rows |}.

Lemma batch_is_ok rows : batch_ok (batch rows) /\ rb_schema (batch rows) = people.
Proof.
  split; [|done]. split.
  - unfold batch_wf, batch. cbn. rewrite !Forall_cons. cbn. rewrite !length_map. repeat split; constructor.
  - repeat constructor.
Qed.

Definition batch1 : RecordBatch := batch [(1%Z, Some "Oslo"); (2%Z, None); (3%Z, Some "Rome")].
Definition batch2 : RecordBatch := batch [(4%Z, Some "Oslo"); (5%Z, Some "a/b")].

Definition complete (bs : list RecordBatch) : PFile := {| pf_open := 0; pf_content := Complete people CSnappy bs |}.

Definition disk : PDisk := {| pd_files := {["in/a.parquet" := complete [batch1]; "in/b.parquet" := complete [batch2]]}; pd_tick := 0 |}.

Lemma disk_free p : p <> "in/a.parquet" -> p <> "in/b.parquet" -> handles disk p = 0.
Proof.
  intros Ha Hb. unfold handles. cbn [canon plain_disk disk pd_files]. rewrite lookup_insert_ne by done. by rewrite lookup_singleton_ne.
Qed.

Lemma disk_holds p : p ∈ ["in/a.parquet"; "in/b.parquet"] -> exists s, holds s disk p.
Proof.
  intros Hp. exists people. repeat (apply elem_of_cons in Hp as [->|Hp]; [split; [reflexivity|repeat constructor; apply batch_is_ok]|]). by apply elem_of_nil in Hp.
Qed.

(** * The claims at concrete inputs *)

Definition old_oslo : FilterExpr := FOr (FAnd (FGt "id" (FInt64 3)) (FEq "city" (FString "Oslo"))) (FIsNull "city").
Definition old_oslo_text : string := print_filter old_oslo.

Lemma parse_print_filter_witness : writable old_oslo /\ parse_filter "" old_oslo_text = Ok old_oslo.
Proof.
  assert (writable old_oslo) as Hw by (cbn; repeat split; try done; lia). split; [exact Hw|]. apply (parse_print_filter "" old_oslo Hw).
Defined.

(** AND binds tighter than OR, NOT than both; parentheses override. *)
Example filter_precedence :
  parse_filter "" "aa = 1 OR NOT bb = 2 AND cc = 3 OR dd = 4" =
    Ok (FOr (FOr (FEq "aa" (FInt64 1)) (FAnd (FNot (FEq "bb" (FInt64 2))) (FEq "cc" (FInt64 3)))) (FEq "dd" (FInt64 4))) /\
  print_filter (FAnd (FOr (FEq "aa" (FInt64 1)) (FIsNull "bb")) (FNot (FAnd (FIsNull "cc") (FIsNull "dd")))) =
    "(aa = 1 OR bb IS NULL) AND NOT (cc IS NULL AND dd IS NULL)".
Proof. by vm_compute. Qed.

Lemma filter_rows_exact_witness : exists b', filter_transform old_oslo batch1 = Ok b' /\
  batch_rows b' = [[VInt 2; VNull; VNull]].
Proof.
  destruct (filter_rows_exact batch1 old_oslo (proj1 (batch_is_ok _))) as [_ Hr].
  eexists. split; [vm_compute; reflexivity|]. destruct (Hr _ ltac:(vm_compute; reflexivity)) as (_ & _ & Hrows). rewrite Hrows. vm_compute. reflexivity.
Defined.

Definition renames : gmap string string := {["id" := "key"]}.

Lemma rewrite_selects_witness : exists ts b', pipeline_from_rewrite_ops "" (Some ["city"; "id"]) (Some old_oslo_text) (Some (map_to_list renames)) None = Ok ts /\
  execute_pipeline ts batch2 = Ok b' /\ names b' = ["city"; "key"] /\ batch_rows b' = [[VStr "Oslo"; VInt 4]].
Proof.
  destruct (rewrite_selects "" old_oslo_text old_oslo ["city"; "id"] renames (map_to_list renames) batch2) as (ts & Ht & _ & Hr);
    [by vm_compute|apply batch_is_ok|done|repeat constructor; set_solver|done|].
  exists ts. assert (exists b', execute_pipeline ts batch2 = Ok b') as [b' Hb'].
  { assert (is_ok (execute_pipeline ts batch2) = true) as Ho by (vm_compute in Ht; injection Ht as <-; by vm_compute). destruct (execute_pipeline ts batch2); [eauto|done]. }
  exists b'. destruct (Hr b' Hb') as (_ & Hn & Hrows). split; [done|]. split; [done|]. rewrite Hn, Hrows. split; vm_compute; reflexivity.
Defined.

Definition numbers : RecordBatch :=
  {| rb_schema := [field "small" AInt32; field "city" AUtf8]; rb_columns := [Int32Array [Some 7%Z]; StringArray [Some "Oslo"]]; rb_num_rows := 1 |}.

Lemma cast_exact_witness : exists b', cast_columns_transform [("small", "BIGINT64")] numbers = Ok b' /\ names b' = ["small"; "city"] /\
  fd_type <$> rb_schema b' !! 0 = Some AInt64.
Proof.
  eexists. split; [vm_compute; reflexivity|].
  match goal with |- names ?b = _ /\ _ => destruct (cast_exact [("small", "BIGINT64")] numbers b) as [Hn _] end;
    [split; [repeat constructor|repeat constructor]|repeat constructor; set_solver|repeat constructor; set_solver|vm_compute; reflexivity|]. rewrite Hn. by split.
Defined.

(** ** Merging *)

Definition merge_inputs : list string := ["in/b.parquet"; "in/a.parquet"].

Lemma merge_outputs_free : outputs_free "out" "m" (Some "out/m.parquet") disk /\ apart "out" "m" (Some "out/m.parquet") merge_inputs.
Proof.
  assert (forall i, merge_out_path "out" "m" (Some "out/m.parquet") (S i) = part_file "out" "m" (S i)) as HS by done. split; [split|].
  - intros [|i] [|j] He; [done| | |]; rewrite ?HS in He; [discriminate..|]. by apply part_file_inj in He.
  - intros [|i]; [reflexivity|]. rewrite HS. by apply disk_free.
  - intros p i Hp. unfold merge_inputs in Hp. repeat (apply elem_of_cons in Hp as [->|Hp]; [destruct i; discriminate|]). by apply elem_of_nil in Hp.
Qed.

Definition merged_run := merge_parquet_files no_fault merge_inputs "out" "m" 4 (Some "ZSTD") None (Some "out/m.parquet") disk.
Definition merged_disk : PDisk := Eval vm_compute in snd merged_run.

Lemma merge_keeps_rows_witness : fst merged_run = Ok ["out/m.parquet"; "out/m-part-0001.parquet"] /\
  concat (map (rows_at merged_disk) ["out/m.parquet"; "out/m-part-0001.parquet"]) = rows_at disk "in/a.parquet" ++ rows_at disk "in/b.parquet".
Proof.
  split; [vm_compute; reflexivity|].
  destruct (merge_keeps_rows no_fault merge_inputs "out" "m" 4 (Some "ZSTD") None (Some "out/m.parquet") disk
    ["out/m.parquet"; "out/m-part-0001.parquet"] merged_disk) as [Hr _].
  - apply merge_outputs_free.
  - apply merge_outputs_free.
  - intros p Hp. apply disk_holds. unfold merge_inputs in Hp. set_solver.
  - vm_compute. reflexivity.
  - rewrite Hr. vm_compute. reflexivity.
Defined.


(** ** Partitioning *)

Definition cities : list string := ["Oslo"; HIVE_DEFAULT_PARTITION; "Rome"; "__PQ_ESC__a\/b"].

Lemma occurring_cities k : k ∈ occurring ["city"] [batch1; batch2] -> k ∈ cities.
Proof. assert (occurring ["city"] [batch1; batch2] = ["Oslo"; HIVE_DEFAULT_PARTITION; "Rome"; "Oslo"; "__PQ_ESC__a\/b"]) as -> by (vm_compute; reflexivity). unfold cities. set_solver. Qed.

Lemma cities_apart : key_files_apart "out" ["city"] disk (occurring ["city"] [batch1; batch2]).
Proof.
  split.
  - intros k k' i j Hk%occurring_cities Hk'%occurring_cities He. unfold cities in *.
    repeat (apply elem_of_cons in Hk as [->|Hk]; [repeat (apply elem_of_cons in Hk' as [->|Hk'];
      [first [split; [reflexivity|exact (partition_file_inj _ _ _ _ _ He)] | exfalso; discriminate He]|]); by apply elem_of_nil in Hk'|]). by apply elem_of_nil in Hk.
  - intros k i Hk%occurring_cities. unfold cities in Hk.
    repeat (apply elem_of_cons in Hk as [->|Hk]; [by apply disk_free|]). by apply elem_of_nil in Hk.
Qed.

Definition partitioned_run := partition_record_batches no_fault [batch1; batch2] "out" ["city"] 2 None None disk.
Definition partitioned_disk : PDisk := Eval vm_compute in snd partitioned_run.
Definition partitioned_outputs : list string := Eval vm_compute in match fst partitioned_run with Ok l => l | Err _ => [] end.

Lemma partitioned_run_is : partition_record_batches no_fault [batch1; batch2] "out" ["city"] 2 None None disk = (Ok partitioned_outputs, partitioned_disk).
Proof. vm_compute. reflexivity. Qed.

Lemma batches_ok : Forall (fun b => batch_ok b /\ rb_schema b = people) [batch1; batch2].
Proof. repeat constructor; apply batch_is_ok. Qed.

Lemma partition_rows_exact_witness : partition_record_batches no_fault [batch1; batch2] "out" ["city"] 2 None None disk = (Ok partitioned_outputs, partitioned_disk) /\
  concat (map (rows_with_key ["city"] "Oslo") [batch1; batch2]) = [[VInt 1; VStr "Oslo"; VNull]; [VInt 4; VStr "Oslo"; VNull]] /\
  exists n, concat (map (fun i => rows_at partitioned_disk (partition_file "out" ["city"] "Oslo" i)) (seq 0 n)) =
    [[VInt 1; VStr "Oslo"; VNull]; [VInt 4; VStr "Oslo"; VNull]].
Proof.
  split; [exact partitioned_run_is|]. split; [vm_compute; reflexivity|].
  destruct (partition_rows_exact no_fault people [batch1; batch2] "out" ["city"] 2 None None disk partitioned_outputs partitioned_disk
    batches_ok cities_apart partitioned_run_is) as (_ & count & Hrows & _).
  exists (count "Oslo"). rewrite Hrows. vm_compute. reflexivity.
Defined.

(** A run that is stopped at its [n]th call, and how many files are open there. *)
Definition fail_at (n : nat) (tick : nat) : option ParqknifeError := if tick =? n then Some (PIo "stopped") else None.
Definition open_at (n : nat) : nat :=
  open_files (snd (partition_record_batches (fail_at n) [batch1; batch2] "out" ["city"] 2 None None disk)).

(** Five files are written with at most two open. *)
Lemma open_partitions_bounded_witness : length partitioned_outputs = 5 /\ map open_at (seq 0 24) = [0; 0; 0; 1; 1; 1; 1; 2; 2; 2; 1; 1; 2; 2; 2; 1; 1; 2; 2; 2; 1; 1; 2; 2] /\
  forall n, open_at n <= open_files disk + 2.
Proof.
  split; [vm_compute; reflexivity|]. split; [vm_compute; reflexivity|]. intros n. unfold open_at.
  destruct (open_partitions_bounded (fail_at n) [batch1; batch2] "in/a.parquet" "out" ["city"] 2 None None disk) as [Hb _].
  destruct (partition_record_batches _ _ _ _ _ _ _ disk) as [r d]. exact (proj1 Hb).
Defined.

Lemma partition_succeeds_iff_witness : is_ok (fst partitioned_run) = true /\
  is_ok (fst (partition_record_batches no_fault [batch1] "out" ["id"] 2 None None disk)) = false.
Proof.
  split; [vm_compute; reflexivity|]. apply not_true_is_false. intros Ho.
  apply (partition_succeeds_iff no_fault people [batch1] "out" ["id"] 2 None None disk) in Ho as (_ & _ & [?|[_ Hp]]); [done| |done|repeat constructor; apply batch_is_ok|done].
  apply Forall_cons in Hp as [[?|Hp] _]; [done|]. apply Forall_cons in Hp as [(a & Ha & Hs) _]. vm_compute in Ha. injection Ha as <-.
  destruct Hs as [[l ?]|Hs]; [done|]. specialize (Hs 0 ltac:(cbn; lia)). vm_compute in Hs. discriminate.
Defined.

Lemma equal_keys_equal_values_witness : key_at ["city"] batch1 0 = Some "Oslo" /\ key_at ["city"] batch2 0 = Some "Oslo" /\
  map (partition_value 0) [StringArray [Some "Oslo"; None; Some "Rome"]] = map (partition_value 0) [StringArray [Some "Oslo"; Some "a/b"]].
Proof.
  split; [vm_compute; reflexivity|]. split; [vm_compute; reflexivity|].
  destruct (equal_keys_equal_values ["city"] batch1 batch2 0 0 "Oslo" ltac:(done) ltac:(vm_compute; reflexivity) ltac:(vm_compute; reflexivity))
    as (a1 & a2 & H1 & H2 & He). vm_compute in H1. vm_compute in H2. injection H1 as <-. injection H2 as <-. apply He; repeat constructor; done.
Defined.

(** ** Plans *)

Definition plain_step (op : Operation) : Step := {| sp_operation := op; sp_options := {| so_dry_run := false |} |}.

Definition spec_of (output : string) (ops : list Operation) : Spec :=
  {| sc_schema_version := 1; sc_input := Some "in/a.parquet"; sc_output := Some output; sc_steps := map plain_step ops;
     sc_options := options_default 4 |}.

Definition select_op (columns : list string) (filter : string) (rename : option (gmap string string)) : Operation :=
  ORewrite (Some CZstd) None (Some columns) (Some filter) (Some {| so_rename := rename; so_cast := None |}) None false.

Definition two_step_spec : Spec := spec_of "out" [select_op ["city"; "id"] "id > 1" None; OPartition ["city"]].
Definition two_step_plan : Result ParqknifeError ExecutablePlan := Eval vm_compute in compile_plan "run1" two_step_spec disk.

Lemma plan_covers_steps_witness : exists plan, compile_plan "run1" two_step_spec disk = Ok plan /\
  concat (map segment_indices (xp_segments plan)) = [0; 1].
Proof.
  destruct (compile_plan "run1" two_step_spec disk) as [plan|e] eqn:E.
  - exists plan. split; [done|]. destruct (plan_covers_steps "run1" two_step_spec disk plan E) as (_ & _ & Hs). rewrite Hs. reflexivity.
  - exfalso. apply (f_equal is_ok) in E. vm_compute in E. discriminate.
Defined.

Lemma digits_no_char s acc n v k c : digits_run s acc n = (v, k, EmptyString) -> digit_value c = None -> has_char c s = false.
Proof.
  revert acc n. induction s as [|d s IH]; intros acc n Hd Hc; [done|]. cbn in Hd. destruct (digit_value d) eqn:E; [|done]. cbn [has_char].
  rewrite bool_decide_eq_false_2 by (intros <-; congruence). by eapply IH.
Qed.

Lemma pad3_no_char idx c : digit_value c = None -> has_char c (pad3 idx) = false.
Proof.
  intros Hc. unfold pad3. rewrite has_char_app. apply orb_false_iff. split.
  - induction (3 - String.length (pretty idx)) as [|k IH]; [done|]. cbn [zeros has_char]. rewrite bool_decide_eq_false_2; [exact IH|]. intros ->. done.
  - destruct (digits_run_pretty (N.of_nat idx)) as [n Hn]. by eapply digits_no_char.
Qed.

Definition split_spec : Spec := spec_of "parts" [OSplit (Some 1%Z) None].

Lemma split_staging_fresh : fresh_staging disk (path_join (default "." (path_parent (default EmptyString (sc_output split_spec)))) (".parqonaut-spec-" +:+ "run1")).
Proof.
  intros idx. change (path_join _ _) with ".parqonaut-spec-run1". split; [reflexivity|].
  change (step_dir ".parqonaut-spec-run1" idx) with (".parqonaut-spec-run1/step-" +:+ pad3 idx). split.
  - unfold has_meta. rewrite !has_char_app, !pad3_no_char by done. reflexivity.
  - unfold entry_exists, plain_paths_env, at_path, disk. cbn [pd_files]. apply bool_decide_eq_false. rewrite lookup_insert_ne, lookup_singleton_ne by discriminate.
    by intros [? ?].
Qed.

Lemma split_runs_alone_witness : exists plan r d, compile_plan "run1" split_spec disk = Ok plan /\
  execute_plan true no_fault "" 0 plan disk = (Ok r, d) /\
  ((forall op, op ∈ [OSplit (Some 1%Z) None] -> is_barrier_operation op = false) \/
   (exists mb g, [OSplit (Some 1%Z) None] = [OSplit mb g]) \/ exists p, OPartition p ∈ [OSplit (Some 1%Z) None]).
Proof.
  destruct (compile_plan "run1" split_spec disk) as [plan|e] eqn:E; [|exfalso; apply (f_equal is_ok) in E; vm_compute in E; discriminate].
  destruct (execute_plan true no_fault "" 0 plan disk) as [[r|e] d] eqn:Ex.
  - exists plan, r, d. split; [done|]. split; [done|]. exact (split_runs_alone true no_fault "" "run1" split_spec 0 disk plan disk r d split_staging_fresh E Ex).
  - exfalso. vm_compute in E. injection E as <-. apply (f_equal (fun x => is_ok (fst x))) in Ex. vm_compute in Ex. discriminate.
Defined.

Definition select_segment : FusedPlanSegment :=
  {| fu_step_indices := [0]; fu_inputs := ["in/a.parquet"; "in/b.parquet"]; fu_output := "out.parquet";
     fu_ops := [FuRewrite (Some CZstd) None (Some ["city"; "id"]) (Some "id > 1") (Some renames) None false];
     fu_is_intermediate := false; fu_storage := KLocal |}.

Definition selected_disk : PDisk := Eval vm_compute in snd (execute_fused_segment true no_fault "" select_segment disk).

Lemma selected_run_is : execute_fused_segment true no_fault "" select_segment disk = (Ok (1, 2), selected_disk).
Proof. vm_compute. reflexivity. Qed.

Lemma rewrite_step_selects_witness : execute_fused_segment true no_fault "" select_segment disk = (Ok (1, 2), selected_disk) /\
  rows_at selected_disk "out.parquet" = [[VNull; VInt 2]; [VStr "Rome"; VInt 3]; [VStr "Oslo"; VInt 4]; [VStr "a/b"; VInt 5]] /\
  names_at selected_disk "out.parquet" = ["city"; "key"].
Proof.
  split; [exact selected_run_is|].
  destruct (rewrite_step_selects true no_fault "" select_segment (Some CZstd) None ["city"; "id"] "id > 1" (FGt "id" (FInt64 1)) renames false disk (1, 2) selected_disk)
    as (Hr & Hn & _).
  - reflexivity.
  - vm_compute. reflexivity.
  - done.
  - repeat constructor; set_solver.
  - vm_compute. reflexivity.
  - repeat (constructor; [apply disk_holds; set_solver|]). constructor.
  - reflexivity.
  - exact selected_run_is.
  - split; (etransitivity; [first [exact Hr|exact Hn]|]); vm_compute; reflexivity.
Defined.

(** * Corners *)

(** ** Filters *)

(** A column name of one character is not an identifier of the grammar. *)
Example one_letter_column : is_ok (parse_filter "" "x > 1") = false /\ parse_filter "" "xx > 1" = Ok (FGt "xx" (FInt64 1)).
Proof. vm_compute. done. Qed.

(** The integer parser takes the digits before the point, and the rest of a text
    that the grammar does not read is dropped. *)
Example fraction_dropped : parse_filter "" "price > 1.5" = Ok (FGt "price" (FInt64 1)) /\ parse_filter "" "id = 1 AND city" = Ok (FEq "id" (FInt64 1)).
Proof. vm_compute. done. Qed.

(** A null is kept by [!=]. *)
Example null_differs : batch_rows <$> filter_transform (FNe "city" (FString "Oslo")) batch1 = Ok [[VInt 2; VNull; VNull]; [VInt 3; VStr "Rome"; VNull]].
Proof. vm_compute. done. Qed.

(** ** Columns *)

(** The projection is applied first: a filter cannot use a column it drops. *)
Example filter_after_projection :
  (ts ← pipeline_from_rewrite_ops "" (Some ["city"]) (Some "id > 1") None None; execute_pipeline ts batch1) = Err (PInvalidInput "Column not found: id").
Proof. vm_compute. done. Qed.

(** Two columns renamed to one name. *)
Example renamed_alike : names <$> rename_columns_transform [("id", "kk"); ("city", "kk")] batch1 = Ok ["kk"; "kk"; "note"].
Proof. vm_compute. done. Qed.

(** An unsigned target is the signed type whose name it contains. *)
Example unsigned_target : parse_cast_target AUtf8 true "UINT64" = Ok (AInt64, true) /\ parse_cast_target AUtf8 true "FLOAT32" = Ok (AFloat64, true).
Proof. vm_compute. done. Qed.

(** The cast of [SchemaTransform] changes the field and not the column, so that the
    batch is refused. *)
Example schema_cast_refused :
  (x ← schema_transform_new [] [("note", "i64")]; schema_transform x batch1) = Err (PArrow "column types must match schema types").
Proof. vm_compute. done. Qed.

(** ** Files *)

Definition separated_value : string := "Oslo" +:+ String unit_separator "East".
Definition clash : RecordBatch := batch [(1%Z, Some "Oslo"); (2%Z, Some separated_value)].

(** A value with the unit separator has the directory of its first part, and the
    part number of a key of its own: the file written first is replaced. *)
Example separator_loses_rows :
  let '(r, d) := partition_record_batches no_fault [clash] "out" ["city"] 1 None None disk in
  r = Ok ["out/city=Oslo/part-00000.parquet"; "out/city=Oslo/part-00000.parquet"] /\
  rows_at d "out/city=Oslo/part-00000.parquet" = [[VInt 2; VStr separated_value; VNull]].
Proof. vm_compute. done. Qed.

(** A literal that reads like the escaped reserved name has its key. *)
Example escaped_literal_clash :
  encode_partition_value (Some (ESCAPE_PREFIX +:+ HIVE_DEFAULT_PARTITION)) = encode_partition_value (Some HIVE_DEFAULT_PARTITION).
Proof. vm_compute. done. Qed.

Definition empty_disk : PDisk := {| pd_files := {["in/e.parquet" := complete []]}; pd_tick := 0 |}.

(** Inputs without rows: no file is written. *)
Example empty_merge : fst (run_merge no_fault "in/e.parquet" "out/m.parquet" None empty_disk) = Ok tt /\
  pd_files (snd (run_merge no_fault "in/e.parquet" "out/m.parquet" None empty_disk)) !! "out/m.parquet" = None.
Proof. vm_compute. done. Qed.

(** A row group of no bytes. *)
Example zero_row_group : fst (rewrite_parquet_file no_fault "in/a.parquet" "out/a.parquet" None (Some 0%Z) disk) = Err Panicked.
Proof. vm_compute. done. Qed.

(** [prqnt rewrite] opens its output with the schema of the input, also when a
    projection drops columns: a writer that refuses other batches refuses these. *)
Example cli_projection_mismatch :
  fst (run_rewrite no_fault "" "in/a.parquet" "out/a.parquet" None None (Some "id, city") None disk) = Err (Returned (PParquet "Arrow: Incompatible type")) /\
  fst (run_rewrite no_fault "" "in/a.parquet" "out/a.parquet" None None None (Some "id > 1") disk) = Ok tt.
Proof. vm_compute. done. Qed.

(** ** Specifications *)

Definition run_spec (spec : Spec) (d : PDisk) : Result Stop TransformReport * PDisk := execute_spec true no_fault "" "run1" 0 spec d.

(** A rewrite with metadata never compiles. *)
Example metadata_refused :
  compile_plan "run1" (spec_of "out.parquet" [ORewrite None None None None None (Some ∅) false]) disk =
    Err (PSpecError "rewrite metadata updates require a materialized barrier step").
Proof. vm_compute. done. Qed.

(** A merge or a rewrite into a directory compiles and is then refused. *)
Example directory_output_refused :
  is_ok (compile_plan "run1" (spec_of "out" [OMerge None]) disk) = true /\
  fst (run_spec (spec_of "out" [OMerge None]) disk) = Err (Returned (PSpecError "unsupported fused output layout: out")).
Proof. vm_compute. done. Qed.

(** The codec a step asks for is dropped where the output is a file. *)
Example codec_dropped :
  pf_content <$> pd_files (snd (run_spec (spec_of "out.parquet" [ORewrite (Some CZstd) None None None None None false]) disk)) !! "out.parquet" =
    Some (Complete people CSnappy [batch1]).
Proof. vm_compute. done. Qed.

(** A file without rows cannot be rewritten by a specification, and can by the
    command. *)
Example empty_rewrite :
  fst (execute_fused_segment true no_fault "" {| fu_step_indices := [0]; fu_inputs := ["in/e.parquet"]; fu_output := "out.parquet";
        fu_ops := [FuMerge None]; fu_is_intermediate := false; fu_storage := KLocal |} empty_disk) =
    Err (Returned (PSpecError "fused rewrite produced no batches")) /\
  fst (run_rewrite no_fault "" "in/e.parquet" "out.parquet" None None None None empty_disk) = Ok tt.
Proof. vm_compute. done. Qed.

(** The contract of a plan writes a codec that the parser of codecs refuses. *)
Example contract_codec_unreadable : compression_from_str (codec_debug CLz4Raw) = Err (PInvalidInput "Unknown compression: lz4raw").
Proof. vm_compute. done. Qed.

(** ** Storage *)

Section ObjectUrls.

#[local] Instance object_urls : UrlParser := fun input =>
  match strip_prefix "s3://" input with
  | Some rest =>
      let '(host, p) := default (rest, EmptyString) (split_once "/"%char rest) in
      Ok {| scheme := "s3"; username := EmptyString; password := None; host_str := Some host; url_path := "/" +:+ p; to_file_path := None |}
  | None => Err "relative URL without a base"
  end.

Definition object (key : string) : string := object_name (S3Object "b" key).

Definition other_batch : RecordBatch :=
  {| rb_schema := [field "id" AInt64]; rb_columns := [Int64Array [Some 9%Z]]; rb_num_rows := 1 |}.

Definition objects : PDisk :=
  {| pd_files := {[object "1" := complete [batch1]; object "2" := {| pf_open := 0; pf_content := Complete (rb_schema other_batch) CSnappy [other_batch] |}]};
     pd_tick := 0 |}.

(** Splitting and partitioning on storage. *)
Example split_on_storage :
  let '(r, d) := split_parquet_storage true no_fault "s3://b/1" "s3://b/out" 3 {| pd_files := {[object "1" := complete [batch1; batch2]]}; pd_tick := 0 |} in
  r = Ok ["s3://b/out/part-00000.parquet"; "s3://b/out/part-00001.parquet"] /\
  map (rows_at d) [object "out/part-00000.parquet"; object "out/part-00001.parquet"] = [batch_rows batch1; batch_rows batch2].
Proof. vm_compute. done. Qed.

Example partition_on_storage :
  let '(r, d) := partition_parquet_storage true no_fault "s3://b/1" "s3://b/out" ["city"] 1 {| pd_files := {[object "1" := complete [batch1; batch2]]}; pd_tick := 0 |} in
  is_ok r = true /\
  map (rows_at d) [object "out/city=Oslo/part-00000.parquet"; object "out/city=Oslo/part-00001.parquet"] =
    [[[VInt 1; VStr "Oslo"; VNull]]; [[VInt 4; VStr "Oslo"; VNull]]].
Proof. vm_compute. done. Qed.

(** A merge on storage that fails at its second input has published the rows of the
    first. *)
Example failed_merge_published :
  let '(r, d) := merge_parquet_storage true no_fault ["s3://b/1"; "s3://b/2"] "s3://b/out" objects in
  r = Err (Returned (PInvalidInput "batch validation failed: schema mismatch during merge at s3://b/2")) /\
  rows_at d (object "out") = batch_rows batch1.
Proof. vm_compute. done. Qed.

(** A projection on storage is refused by its first batch, and leaves an object
    without rows. *)
Example routed_projection_refused :
  let '(r, d) := fused_rewrite_to_storage true no_fault ["s3://b/1"] "s3://b/out" (Some [TProjection ["id"]]) objects in
  r = Err (Returned (PInvalidInput "batch validation failed: record batch schema does not match expected pipeline schema")) /\
  pf_content <$> pd_files d !! object "out" = Some (Complete people CSnappy []).
Proof. vm_compute. done. Qed.

(** The route of a merge is decided by its first input and its output: a remote
    second input is opened as a local file. *)
Example second_input_not_routed :
  fst (merge_parquet_routed true no_fault ["in/a.parquet"; "s3://b/1"] "out.parquet" None disk) = Err (Returned (PIo ENOENT_text)).
Proof. vm_compute. done. Qed.

(** The commands [merge] and [rewrite] open an object as a local file. *)
Example commands_not_routed :
  fst (run_merge no_fault "s3://b/1" "s3://b/out.parquet" None objects) = Err (Returned (PIo ENOENT_text)) /\
  fst (run_rewrite no_fault "" "s3://b/1" "s3://b/out.parquet" None None None None objects) = Err (Returned (PIo ENOENT_text)).
Proof. vm_compute. done. Qed.
End ObjectUrls.
